(* ===== verification/_CoqProject ===== *)
-Q . S2P
Prelude.v
Math.v
Registers.v
Time.v
Mpu.v
CortexMpu.v
Pmp.v
PmpTheorems.v
PmpConfig.v
Syscall.v
RingBuffer.v
Bytes.v
Tbf.v
ProcessData.v
StoragePermissions.v
Process.v
ProcessProofs.v
ProcessIsolation.v
ProcessCreate.v
ProcessTheorems.v
CortexProcess.v
PmpProcess.v
Grant.v
GrantTheorems.v
KernelSys.v
Ipc.v
Checker.v
Loader.v
KernelLoop.v
KernelProofs.v
KernelTheorems.v
ProcessSlice.v
LoaderTheorems.v
CheckerTheorems.v
Lists.v
Scheduler.v
VirtualAlarm.v
VirtualAlarmTheorems.v
AlarmDriver.v
DeferredCall.v
LeasableBuffer.v
NetStream.v
Ieee802154.v
Ieee802154Theorems.v
Ipv6.v
Ipv6Theorems.v
Sixlowpan.v
SixlowpanTheorems.v
Crc32.v
Tickv.v
TickvLog.v
TickvProbe.v
TickvStore.v
TickvTheorems.v
TickvMap.v
TickvAsync.v
TickvCallbacks.v
FragUtils.v
Framer.v
FramerState.v
FramerTheorems.v
SixlowpanState.v
SixlowpanStateTheorems.v
Ip6Stack.v
UdpPorts.v
UdpSend.v
SixlowpanDelivery.v
NonvolatilePages.v
Sha256.v
Hasher.v
Sha256Theorems.v
Hmac.v
HmacTheorems.v
CheckerPolicies.v
VirtualMac.v
VirtualMacTheorems.v
LogStorage.v
LogSpec.v
LogSteps.v
LogTheorems.v
