(* ===== verification/Prelude.v ===== *)
(** * Tock kernel: verification library

    Tock is an operating system for microcontrollers: a kernel in Rust runs
    mutually distrusting applications ("processes") behind the memory
    protection unit of the chip.  This library models the core of the kernel -
    how a process is described in flash, created, protected, scheduled, served
    and restarted - as executable functions and proves the properties this core
    promises.  Paths below are relative to the repository.

    ** How the system is put together

    An application image starts with a TBF header (libraries/tock-tbf), which
    the loader parses.  [ProcessStandard::create] (kernel/src/process_standard.rs)
    asks the MPU driver (kernel/src/platform/mpu.rs, arch/cortex-m/src/mpu.rs,
    arch/rv32i/src/pmp.rs) for a region over the flash and one over the process
    block; the lower part of the block belongs to the process, the upper part to
    the kernel: grants
    (kernel/src/grant.rs), the queue of tasks (kernel/src/collections/ring_buffer.rs)
    and the process structure.  The checker (kernel/src/process_checker.rs and
    [ProcessCheckerMachine] in kernel/src/kernel.rs) approves processes by the
    credentials in their footers.  The main loop (kernel/src/kernel.rs) asks a
    scheduler (kernel/src/scheduler/) for a process, runs it until it yields,
    faults, makes a system call or loses its timeslice, and serves its calls:
    memop, subscribe, allow, command, yield, exit.  Upcalls reach a process
    through its task queue (kernel/src/upcall.rs); processes talk to each other
    through the IPC driver (kernel/src/ipc.rs).  Drivers hand buffers down their
    layers as leasable buffers (kernel/src/utilities/leasable_buffer.rs) and
    share one hardware alarm through a multiplexer (capsules/core); work of
    theirs that must not run in an interrupt is deferred
    (kernel/src/deferred_call.rs); the key-value store TicKV (libraries/tickv)
    keeps objects on flash, to which the storage permissions of a header control
    access.  Flash is also offered as an array of bytes
    (capsules/extra/src/nonvolatile_to_pages.rs) and as a log
    (capsules/extra/src/log.rs).  The policies of the checker
    (kernel/src/process_checker/basic.rs) compare credentials with the digest of
    the binary, which a hasher of the digest interface computes
    (capsules/extra/src/sha256.rs); HMAC (hmac_sha256.rs) is built on the same
    interface.

    The network stack is in capsules/extra.  A capsule binds a UDP port and
    queues a packet with its sender (net/udp); the IPv6 sender (net/ipv6) builds
    the headers with their checksum; 6LoWPAN (net/sixlowpan) compresses the
    headers and cuts the packet into fragments; the framer (ieee802154) wraps
    each in an 802.15.4 frame, encrypts it where asked, and hands it to the
    radio.  On the other side the same layers take the frame apart, put the
    fragments together in a free receive state, check the packet and call the
    capsule that has bound the destination port.

    ** Files

    - Prelude.v: outcomes (return or panic), results, checked and wrapping
      32-bit arithmetic, the build profile ([Profile]), tactics.
    - Math.v: kernel/src/utilities/math.rs.
    - Registers.v: bit fields of libraries/tock-register-interface (32 bits).
    - Time.v: kernel/src/hil/time.rs, the tick types and their laws.
    - Mpu.v: the MPU interface as the class [MPU], with [MPULayout] and
      [MPUIsolation], the contracts process code is verified against, and the
      instance for a chip without an MPU.
    - CortexMpu.v: the driver of arch/cortex-m/src/mpu.rs: the configuration of
      eight regions, the RBAR and RASR registers, the addresses they expose.
    - Pmp.v: the driver of arch/rv32i/src/pmp.rs on the PMP control registers
      with their locks.  PmpTheorems.v: registers, kernel regions, probing.
      PmpConfig.v: configurations and allocation.
    - Syscall.v: kernel/src/syscall.rs and kernel/src/errorcode.rs.
    - RingBuffer.v, Lists.v: kernel/src/collections/; each refined to sequences.
    - Bytes.v: slices of bytes, little-endian integers.
    - Tbf.v: parser, types and accessors of libraries/tock-tbf; an encoder is
      the specification of the format.
    - StoragePermissions.v: kernel/src/storage_permissions.rs and the method of
      [ProcessStandard] that builds them.
    - ProcessData.v, Process.v: the counters of [struct Kernel], the record of
      [ProcessStandard] and its methods.
      ProcessCreate.v: [create] and [reset].  ProcessProofs.v: the methods as
      one interface ([proc_op], [exec_ops]) and what every call preserves.
      ProcessIsolation.v: the MPU side, for any MPU with the contract;
      CortexProcess.v and PmpProcess.v: the two drivers discharge it.
      ProcessTheorems.v: the theorems.
    - Grant.v, GrantTheorems.v: grant layout, first use, subscribe and allow.
    - KernelSys.v: the state of the whole system ([Sys]: kernel counters, MPU
      hardware, process table, process memory, grant memory, the rest) and its
      state-and-panic monad; lookups by identifier; entering a grant.
    - Loader.v, LoaderTheorems.v: kernel/src/process_loading.rs, the walk over
      flash that fills the process table.
    - Ipc.v: the IPC driver.  Checker.v: the credential checker and
      [is_runnable].  KernelLoop.v: memop, the system calls, [do_process] and
      [kernel_loop_operation]; what a board supplies (drivers, hooks, filter,
      timer, scheduler) are the records [Driver], [SchedulerTimer], [Resources].
    - KernelProofs.v: everything the kernel does to a process is one of its
      methods ([evolves], [safe]).  KernelTheorems.v, CheckerTheorems.v: the
      theorems on the loop, IPC and the checker.
    - ProcessSlice.v: kernel/src/processbuffer.rs, the views of shared process
      memory.  DeferredCall.v: kernel/src/deferred_call.rs and the loop of
      [execute_kernel_work].
    - Scheduler.v: round robin, cooperative, priority and multilevel queue.
    - VirtualAlarm.v, VirtualAlarmTheorems.v: the alarm multiplexer of
      capsules/core/src/virtualizers/virtual_alarm.rs, refined to independent
      alarms in true time.  AlarmDriver.v: capsules/core/src/alarm.rs on top.

    - LeasableBuffer.v: kernel/src/utilities/leasable_buffer.rs.
    - Crc32.v: libraries/tickv/src/crc32.rs.  Tickv.v: the operations of
      tickv.rs over the class [FlashController].  TickvLog.v: regions as encoded
      logs of objects.  TickvProbe.v: the order in which regions are tried.
      TickvStore.v: the contract of a controller ([FlashLaws]), the abstract
      store of logs and one step of each operation.  TickvTheorems.v: the
      refinement.  TickvMap.v: the store as a map, and where it is none.
      TickvAsync.v: async_ops.rs, the split-phase front end; TickvCallbacks.v:
      its initialisation, garbage collection and key removal.
    - NetStream.v: net/stream.rs, decoders and encoders as monads.
    - Ieee802154.v, Ieee802154Theorems.v: net/ieee802154.rs, frame headers.
    - Ipv6.v, Ipv6Theorems.v: net/ipv6/ipv6.rs, ip_utils.rs, net/udp/udp.rs,
      net/icmpv6/icmpv6.rs, net/util.rs: headers, checksums, packets.
    - Sixlowpan.v, SixlowpanTheorems.v: sixlowpan_compression.rs over the class
      [ContextStore].
    - FragUtils.v: net/frag_utils.rs, refined to sets of numbers.
    - Framer.v: frames of ieee802154/framer.rs, the class [MacDevice] of
      device.rs with the laws [MacDeviceLaws] that the layers above rely on, and
      the framer as an instance.  FramerState.v, FramerTheorems.v: its two
      pipelines, with the radio and the engine around them.
    - SixlowpanState.v, SixlowpanStateTheorems.v: sixlowpan_state.rs,
      fragmentation and reassembly.
    - Ip6Stack.v: ipv6_send.rs, ipv6_recv.rs, udp_recv.rs.
    - UdpPorts.v: network_capabilities.rs, udp_port_table.rs.  UdpSend.v:
      udp_send.rs on the list of Lists.v.
    - SixlowpanDelivery.v: the way of a packet through all of these.
    - VirtualMac.v, VirtualMacTheorems.v: ieee802154/virtual_mac.rs, the users of
      one MAC device; each user is again a [MacDevice].
    - NonvolatilePages.v: nonvolatile_to_pages.rs over the class [Flash], whose
      laws are those of the flash interface.
    - Sha256.v: sha256.rs with its callbacks.  Hasher.v: SHA-256 and HMAC as the
      standards define them, the abstract hasher of kernel/src/hil/digest.rs, and
      the class [Hasher] that clients are verified against; Sha256Theorems.v: the software hasher is an instance.
    - Hmac.v, HmacTheorems.v: hmac_sha256.rs over any hasher.
    - CheckerPolicies.v: the policies of kernel/src/process_checker/basic.rs.
    - LogStorage.v: log.rs with its client callbacks and the completions of the
      flash driver.  LogSpec.v: the abstract log of kernel/src/hil/log.rs, and how
      entries in pages and pages in the volume represent it.  LogSteps.v: reading,
      seeking and writing a page.  LogTheorems.v: the requests, erasure, reboots
      and the refinement.

    ** What the theorems show

    - Isolation: [cortex_process_isolation] and [rv32i_process_isolation] follow
      a process from creation through any calls but a restart: the MPU exposes
      its memory up to the break and, through the process region, neither
      kernel-owned nor foreign bytes, on Cortex-M for blocks that the allocator
      places at its first try (it does not otherwise:
      [allocate_app_memory_region_grow_exposes_kernel]); the theorems of CortexMpu.v and PmpTheorems.v are the
      hardware side ([pmp_configure_installs], [kernel_regions_survive]).
    - Boot: [loader_builds_table], [loader_terminates] and
      [load_processes_approves] take the flash image to a process table with
      disjoint blocks that satisfies the invariant of the main loop.
    - Time: [virtual_alarm_refines_spec], [mux_alarm_programs_next],
      [set_alarm_keeps_earliest], [alarm_fired_upcalls] and
      [reset_active_alarm_earliest]: alarms are never early, across wrap-around;
      [due_alarm_served]: those that are due are served.
    - Memory: [process_layout_invariant], [allowed_buffer_stays_owned],
      [custom_grants_disjoint], [create_establishes_layout] keep the parts of
      the block in order, shared buffers inside process memory, and grants
      aligned and disjoint.
    - Kernel: [kernel_loop_keeps_table] carries these over to a whole turn of
      the main loop for any board whose code reaches processes through their
      methods; [grant_first_use] and [syscalls_swap_slots] give subscribe and
      allow their swapping semantics; [upcall_queue_fifo], [enter_leave_grant]
      and [terminate_cleans_up] the behaviour of queues, grants and exits.
    - Who runs: [unapproved_never_runs], [start_process_exclusive],
      [round_robin_no_starvation].
    - Data: [RingBuffer_refines_fifo], [lists_refine_sequences], the round trips
      and bounds of Tbf.v and Syscall.v.
    - Storage: [tickv_refines_logs] takes TicKV to a store of append-only logs,
      [tickv_implements_map] from there to a map, under the conditions that
      [tickv_loses_keys] shows to be needed; [async_completes_like_sync] carries
      the refinement to the split-phase operations, [regions_visited_once] and
      [find_key_offset_returns] bound the loops, [crc32_is_bit_serial] is the
      checksum.  [storage_permissions_declared]: who may access what.
    - Work between: [deferred_calls_delivered]: the least pending call is served
      until none is left, each scheduled call once when the clients schedule no
      more.  [slice_writes_stay_owned],
      [slices_share_memory]: views of process memory.
    - Network: [datagram_delivered] composes the layers: what a sender is asked
      to send reaches the client of the port, in whatever order the frames
      arrive, for the sizes that reassembly handles ([reassembles]), the ports
      that compression handles ([ports_ok]) and a context of 64 to 128 bits
      ([store_ok]); the examples at the ends of SixlowpanTheorems.v and
      SixlowpanDelivery.v show what happens outside of these.  Its parts are [header_roundtrip], [header_decode_safe] (frames
      from the air), [udp_checksum_reference] (RFC 1071), [lowpan_roundtrip],
      [decompress_terminates], [bitmap_refines_set] and [fragments_reassemble]
      (fragments of any sender).  [tx_buffers_conserved], [ports_exclusive],
      [udp_sends_in_order] and [virtual_mac_contract] keep buffers, ports and the
      order of packets and frames, [free_device_nobody_waits] keeps them moving.
    - Flash and digests: [storage_is_byte_array]: reads and writes of any
      alignment behave as on an array of bytes; [sha256_refines_hasher] and
      [sha256_of_pieces]: any sequence of calls is that of the abstract hasher,
      and the digest is that of the standard; [hmac_of_pieces] and
      [sha_policy_accepts_digest]: the clients of the interface.
      [log_refines_spec]: the log answers, reports and survives reboots as its
      list of entries does, however requests are mixed, as long as they are
      those of [LogSpec.op_ok].
    - Places where the code stops the kernel or departs from its documentation:
      [ipc_self_notify_panics], [check_done_skips_footers],
      [mlfq_promotion_panics], [restart_moves_kernel_break],
      [allocate_app_memory_region_grow_exposes_kernel],
      [update_app_memory_region_empty_panics], [allocate_region_panics_at_2_29],
      [enter_grant_unallocated], [header_offsets_overflow],
      [get_command_permissions_declared], [loader_stuck_on_empty_entry],
      [PMP_new_probes], [pmp_allocate_region_result],
      [reset_active_alarm_skips_expired], [replaced_client_loses_alarm],
      [tickv_loses_keys], [append_loses_read_buffer],
      [append_stuck_on_zero_length], [slice_open_end_escapes],
      [kernel_permissions_only_zero], [is_pending_never_true],
      [payload_elements_rejected], [udp_encode_swaps],
      [icmp_checksum_never_returns], [aligned_size_never_delivered],
      [refused_send_blocks], [refused_request_blocks],
      [dev_profile_never_hashes], [hmac_without_data],
      [hmac_cancel_loses_buffer], [short_id_sets_bit_27],
      [refused_frame_stalls_others], [first_user_starves_others],
      [dev_profile_never_writes], [seek_during_write_panics],
      [refused_erase_blocks], [erase_of_first_page],
      [short_context_loses_subnet], and the examples of
      SixlowpanTheorems.v, FramerTheorems.v, UdpSend.v, SixlowpanDelivery.v and
      LogTheorems.v.

    ** Conventions, bounds and fuel

    [usize] and pointers have 32 bits.  A panic, a failed index and an overflow
    of a plain operator are [Panic]; without overflow checks the last wraps, so
    a theorem that concludes [Ret] holds of both builds.  Where the behaviour
    without the checks matters to a theorem - decompression, deferred calls, the
    sequence number of the framer - the build is the class [Profile], and a
    theorem that takes it as a parameter holds in both; SHA-256 and the
    log take it as an argument.  Memory the kernel
    shares with processes is a map from addresses to bytes or words.

    Loops that are not structural take fuel.  Those of the ring buffer, the TLV
    parser, the list walk and the round-robin search get a number of steps the
    theorems show to be enough (the cells, the bytes left, the nodes of the
    store, the length of the queue), so they return.  The loading loop takes
    fuel; one step per byte of flash is enough when no entry is empty, and with
    an empty entry none is.  The loops of TicKV share one argument; more than
    the bytes of a region and than the number of regions is enough on flash that
    encodes logs.  The credential checker gets one step per byte of footer; [do_process] runs as long as its timer
    lets it, so its fuel is an argument and running out of it is a result of
    its own ([None]), about which the theorems say the same.  In the network
    stack the loops over information elements get five steps, one more than the
    guards admit; the decompressor gets twice the length of the frame and two;
    running out is a result of its own there, which [decompress_terminates] shows
    never to occur; folding a checksum takes
    two rounds; the carry loop of the ICMPv6 checksum takes the fuel it is given
    and [None] is its exhaustion, which the UDP theorems do not meet; the sender
    of a packet needs a step for each eight bytes of data and one more.  A
    request of [len] bytes to the storage over pages of [size] bytes is over
    after at most [len / size + 4] page operations: whole pages need one each, a
    partial page at either end of a write two.  The blocks of a hash are cut
    with the length of the data as fuel, of which each block uses 64.  The
    additions of SHA-256 are meant to wrap but use the plain operator, and so
    does a subtraction of the log, so there the build profile is a parameter.
    Padding a page of the log and walking its entries after a reboot get a step
    for each byte of the page and one more; a request is followed to its end with
    one command per page of the volume and two, which [log_refines_spec] shows
    to be enough.  The nested callbacks of the MAC
    multiplexer get one level for each entry of the script of their environment,
    and the theorems show that this is enough.

    Arguments stand for code outside the modelled parts: the switch to
    userspace ([UserspaceKernelBoundary], with the law [UkbLaws]), the drivers
    and hooks of a board ([safe_resources]: they reach processes only through
    the methods of [Process]), the credential policy, the alarm's conversion of
    milliseconds, the value a capsule's grant type is initialised with, the
    handlers of deferred calls, and the answers of the radio, of the encryption
    engine ([Answers]) and, in UdpSend.v, of the IPv6 sender.

    ** Not modelled

    Peripheral drivers (chips/), the other capsules, board wiring, and the
    assembly of context switches; debug output, process printing and
    introspection; iteration over all processes.  The enhanced PMP of
    arch/rv32i/src/epmp.rs repeats the region logic of the PMP on control
    registers of its own.  Of the network stack the system call driver for UDP,
    Thread and the ICMP sender are left out: the driver is a client of the
    interfaces modelled here and of the grants of its applications, Thread is a
    protocol of its own. *)

From Stdlib Require Export ZArith Lia Bool.
From stdpp Require Export base list option numbers tactics relations.

#[global] Open Scope Z_scope.

(** ** Outcomes

    Rust code either returns or panics.  Arithmetic that overflows, a division
    by zero, an out-of-range index and an explicit [panic!] are the [Panic]
    outcome (the dev profile of Cargo.toml; the release profile wraps instead,
    so a [Panic] marks exactly the inputs on which the two profiles differ or
    the kernel stops). *)
Inductive outcome (A : Type) : Type :=
| Ret (a : A)
| Panic.
Arguments Ret {A} a.
Arguments Panic {A}.

#[export] Instance outcome_ret : MRet outcome := fun A a => Ret a.
#[export] Instance outcome_bind : MBind outcome :=
  fun A B f x => match x with Ret a => f a | Panic => Panic end.
#[export] Instance outcome_fmap : FMap outcome :=
  fun A B f x => match x with Ret a => Ret (f a) | Panic => Panic end.

(** Rust's [Result<A, E>]. *)
Inductive result (A E : Type) : Type :=
| Ok (a : A)
| Err (e : E).
Arguments Ok {A E} a.
Arguments Err {A E} e.

Definition result_is_err {A E} (r : result A E) : bool :=
  match r with Ok _ => false | Err _ => true end.

(** A bind in the [outcome] monad returns exactly when both parts return. *)
Lemma outcome_bind_Ret {A B} (m : outcome A) (f : A → outcome B) (b : B) :
  (m ≫= f) = Ret b ↔ ∃ a, m = Ret a ∧ f a = Ret b.
Proof. destruct m; simpl; naive_solver. Qed.

Lemma bind_ret_eq {A B} (m : outcome A) (f : A → outcome B) a : m = Ret a → m ≫= f = f a.
Proof. by intros ->. Qed.

(** ** Machine integers

    [usize] and pointers are 32 bits wide, the width of every target under
    arch/ and of the TRD104 register ABI. *)
Abbreviation usize_bound := 4294967296 (only parsing).
Abbreviation isize_max := 2147483647 (only parsing).

Definition in_usize (z : Z) : Prop := 0 ≤ z < usize_bound.
Definition in_u8 (z : Z) : Prop := 0 ≤ z < 256.
Definition in_u16 (z : Z) : Prop := 0 ≤ z < 65536.

(** Wrapping arithmetic ([wrapping_add] and friends, [as] casts). *)
Definition wrap32 (z : Z) : Z := z mod usize_bound.
Definition wrapping_add (a b : Z) : Z := wrap32 (a + b).
Definition wrapping_sub (a b : Z) : Z := wrap32 (a - b).

(** Checked arithmetic: the plain operators of Rust on [usize]/[u32]. *)
Definition uadd (a b : Z) : outcome Z :=
  if a + b <? usize_bound then Ret (a + b) else Panic.
Definition usub (a b : Z) : outcome Z :=
  if b <=? a then Ret (a - b) else Panic.
Definition umul (a b : Z) : outcome Z :=
  if a * b <? usize_bound then Ret (a * b) else Panic.
Definition udiv (a b : Z) : outcome Z :=
  if b =? 0 then Panic else Ret (a / b).
Definition urem (a b : Z) : outcome Z :=
  if b =? 0 then Panic else Ret (a mod b).

(** The plain operators in a build with or without overflow checks, for code
    that relies on wrapping. *)
Definition plain_add (checks : bool) (a b : Z) : outcome Z :=
  if checks then uadd a b else Ret (wrapping_add a b).
Definition plain_sub (checks : bool) (a b : Z) : outcome Z :=
  if checks then usub a b else Ret (wrapping_sub a b).
Definition plain_mul (checks : bool) (a b : Z) : outcome Z :=
  if checks then umul a b else Ret (wrap32 (a * b)).

(** The same on a narrower type, of values below [bound]. *)
Definition narrow_add (bound : Z) (checks : bool) (a b : Z) : outcome Z :=
  if a + b <? bound then Ret (a + b) else if checks then Panic else Ret ((a + b) mod bound).
Definition narrow_sub (bound : Z) (checks : bool) (a b : Z) : outcome Z :=
  if b <=? a then Ret (a - b) else if checks then Panic else Ret ((a - b) mod bound).

(** The build profile as an implicit parameter. *)
Class Profile : Set := overflow_checks : bool.
Definition dev : Profile := true.
Definition release : Profile := false.

(** [saturating_sub]. *)
Definition saturating_sub (a b : Z) : Z := Z.max 0 (a - b).

Lemma uadd_Ret a b c : uadd a b = Ret c ↔ c = a + b ∧ a + b < usize_bound.
Proof. unfold uadd. destruct (Z.ltb_spec (a + b) usize_bound); naive_solver lia. Qed.

Lemma usub_Ret a b c : usub a b = Ret c ↔ c = a - b ∧ b ≤ a.
Proof. unfold usub. destruct (Z.leb_spec b a); naive_solver lia. Qed.

Lemma umul_Ret a b c : umul a b = Ret c ↔ c = a * b ∧ a * b < usize_bound.
Proof. unfold umul. destruct (Z.ltb_spec (a * b) usize_bound); naive_solver lia. Qed.

Lemma udiv_Ret a b c : udiv a b = Ret c ↔ c = a / b ∧ b ≠ 0.
Proof. unfold udiv. destruct (Z.eqb_spec b 0); naive_solver. Qed.

Lemma urem_Ret a b c : urem a b = Ret c ↔ c = a mod b ∧ b ≠ 0.
Proof. unfold urem. destruct (Z.eqb_spec b 0); naive_solver. Qed.

Lemma uadd_ok a b : a + b < usize_bound → uadd a b = Ret (a + b).
Proof. intros; by apply uadd_Ret. Qed.
Lemma usub_ok a b : b ≤ a → usub a b = Ret (a - b).
Proof. intros; by apply usub_Ret. Qed.
Lemma umul_ok a b : a * b < usize_bound → umul a b = Ret (a * b).
Proof. intros; by apply umul_Ret. Qed.
Lemma udiv_ok a b : b ≠ 0 → udiv a b = Ret (a / b).
Proof. intros; by apply udiv_Ret. Qed.
Lemma urem_ok a b : b ≠ 0 → urem a b = Ret (a mod b).
Proof. intros; by apply urem_Ret. Qed.

(** Where nothing overflows the profile makes no difference. *)
Lemma plain_add_ok checks a b : 0 ≤ a + b < usize_bound → plain_add checks a b = Ret (a + b).
Proof. intros. destruct checks; cbn; [apply uadd_ok; lia|]. unfold wrapping_add, wrap32. by rewrite Z.mod_small by lia. Qed.
Lemma plain_sub_ok checks a b : 0 ≤ a - b < usize_bound → plain_sub checks a b = Ret (a - b).
Proof. intros. destruct checks; cbn; [apply usub_ok; lia|]. unfold wrapping_sub, wrap32. by rewrite Z.mod_small by lia. Qed.
Lemma plain_mul_ok checks a b : 0 ≤ a * b < usize_bound → plain_mul checks a b = Ret (a * b).
Proof. intros. destruct checks; cbn; [apply umul_ok; lia|]. unfold wrap32. by rewrite Z.mod_small by lia. Qed.

Lemma narrow_add_ok bound checks a b : a + b < bound → narrow_add bound checks a b = Ret (a + b).
Proof. intros H. unfold narrow_add. by rewrite (proj2 (Z.ltb_lt _ _)). Qed.
Lemma narrow_sub_ok bound checks a b : b ≤ a → narrow_sub bound checks a b = Ret (a - b).
Proof. intros H. unfold narrow_sub. by rewrite (proj2 (Z.leb_le _ _)). Qed.

(** Slice indexing: out of range panics. *)
Definition index_get {A} (l : list A) (i : Z) : outcome A :=
  match (if i <? 0 then None else l !! Z.to_nat i) with Some x => Ret x | None => Panic end.
Definition index_set {A} (l : list A) (i : Z) (x : A) : outcome (list A) :=
  if (0 <=? i) && (i <? Z.of_nat (length l)) then Ret (<[Z.to_nat i := x]> l) else Panic.

Lemma index_set_Ret {A} (l : list A) i x :
  0 ≤ i < Z.of_nat (length l) → index_set l i x = Ret (<[Z.to_nat i := x]> l).
Proof.
  intros. unfold index_set.
  destruct (Z.leb_spec 0 i), (Z.ltb_spec i (Z.of_nat (length l))); simpl; lia || done.
Qed.

(** A filter that nothing passes. *)
Lemma filter_none {A} (P : A → Prop) `{!∀ x, Decision (P x)} (l : list A) :
  Forall (λ x, ¬ P x) l → filter P l = [].
Proof. induction 1; [done|]. by rewrite filter_cons_False. Qed.

(** ** Automation *)

Create HintDb tock discriminated.

(** Split a goal or hypothesis on the boolean integer tests the code makes. *)
Ltac split_tests :=
  repeat match goal with
  | H : context [ if ?a <? ?b then _ else _ ] |- _ => destruct (Z.ltb_spec a b)
  | H : context [ if ?a <=? ?b then _ else _ ] |- _ => destruct (Z.leb_spec a b)
  | H : context [ if ?a =? ?b then _ else _ ] |- _ => destruct (Z.eqb_spec a b)
  | |- context [ if ?a <? ?b then _ else _ ] => destruct (Z.ltb_spec a b)
  | |- context [ if ?a <=? ?b then _ else _ ] => destruct (Z.leb_spec a b)
  | |- context [ if ?a =? ?b then _ else _ ] => destruct (Z.eqb_spec a b)
  end.

(** Peel the monadic steps of [H : body = Ret _] into facts about each step. *)
Ltac outcome_inv H :=
  repeat first
    [ apply outcome_bind_Ret in H; destruct H as (? & ? & H)
    | progress cbn beta iota in H ];
  repeat match goal with
  | E : uadd _ _ = Ret _ |- _ => apply uadd_Ret in E; destruct E as [? ?]; subst
  | E : usub _ _ = Ret _ |- _ => apply usub_Ret in E; destruct E as [? ?]; subst
  | E : umul _ _ = Ret _ |- _ => apply umul_Ret in E; destruct E as [? ?]; subst
  | E : udiv _ _ = Ret _ |- _ => apply udiv_Ret in E; destruct E as [? ?]; subst
  | E : urem _ _ = Ret _ |- _ => apply urem_Ret in E; destruct E as [? ?]; subst
  | E : Ret _ = Ret _ |- _ => injection E as E; subst
  | E : Panic = Ret _ |- _ => discriminate E
  end.

(** Run the checked arithmetic at the head of the goal whose side conditions
    [tac] proves, then reduce the binds. *)
Ltac ustep_with tac :=
  repeat first
    [ rewrite uadd_ok by tac | rewrite usub_ok by tac | rewrite umul_ok by tac
    | rewrite udiv_ok by tac | rewrite urem_ok by tac
    | progress cbn [mbind outcome_bind] ].
Tactic Notation "ustep" := ustep_with lia.

(** Reverse application, for a sequence of register writes. *)
Notation "x |> f" := (f x) (at level 61, left associativity, only parsing).

