(* ===== verification/Math.v ===== *)
(** * Bit tricks of kernel/src/utilities/math.rs

    [closest_power_of_two] smears the top bit of [num - 1] downwards with five
    shift-or steps and adds one; [log_base_two] reads the exponent off the
    number of leading zeros.  The theorems relate both to [Z.log2_up] and
    [Z.log2], the mathematical functions they compute. *)

From S2P Require Import Prelude.

(** [u32::leading_zeros], of the Rust standard library. *)
Definition leading_zeros (num : Z) : Z :=
  if num =? 0 then 32 else 31 - Z.log2 num.

(** [u32::trailing_zeros]: the exponent of the largest power of two dividing
    [num], and 32 for zero. *)
Fixpoint pos_trailing_zeros (p : positive) : Z :=
  match p with
  | xO p' => 1 + pos_trailing_zeros p'
  | _ => 0
  end.

Definition trailing_zeros (num : Z) : Z :=
  match num with
  | Zpos p => pos_trailing_zeros p
  | _ => 32
  end.

(** [u32::count_ones] on a non-negative number. *)
Fixpoint pos_count_ones (p : positive) : Z :=
  match p with
  | xH => 1
  | xO p' => pos_count_ones p'
  | xI p' => 1 + pos_count_ones p'
  end.

Definition count_ones (num : Z) : Z :=
  match num with
  | Zpos p => pos_count_ones p
  | _ => 0
  end.

(** One [num |= num >> k] step. *)
Definition smear (k num : Z) : Z := Z.lor num (Z.shiftr num k).

Definition closest_power_of_two (num : Z) : outcome Z :=
  num ← usub num 1;
  let num := smear 1 num in
  let num := smear 2 num in
  let num := smear 4 num in
  let num := smear 8 num in
  let num := smear 16 num in
  uadd num 1.

Definition log_base_two (num : Z) : Z :=
  if num =? 0 then 0 else 31 - leading_zeros num.

(** ** Powers of two *)

Definition is_pow2 (n : Z) : Prop := ∃ k, 0 ≤ k ∧ n = 2 ^ k.

Lemma is_pow2_pos n : is_pow2 n → 0 < n.
Proof. intros (k & Hk & ->). apply Z.pow_pos_nonneg; lia. Qed.

Lemma is_pow2_pow k : 0 ≤ k → is_pow2 (2 ^ k).
Proof. exists k; auto. Qed.

Lemma pow2_divide i j : 0 ≤ i ≤ j → (2 ^ i | 2 ^ j).
Proof.
  intros [Hi Hj]. exists (2 ^ (j - i)).
  rewrite <- Z.pow_add_r by lia. f_equal; lia.
Qed.

(** A power of two that is at least another is a multiple of it. *)
Lemma is_pow2_divide m n : is_pow2 m → is_pow2 n → m ≤ n → (m | n).
Proof.
  intros (i & Hi & ->) (j & Hj & ->) Hle.
  apply pow2_divide. split; [done|].
  apply (Z.pow_le_mono_r_iff 2); lia.
Qed.

Lemma log_base_two_log2 num : 0 ≤ num → log_base_two num = Z.log2 num.
Proof.
  intros Hn. unfold log_base_two, leading_zeros. split_tests; subst; [done|lia].
Qed.

Lemma log_base_two_pow2 k : 0 ≤ k → log_base_two (2 ^ k) = k.
Proof.
  intros Hk. rewrite log_base_two_log2 by (apply Z.pow_nonneg; lia).
  apply Z.log2_pow2; lia.
Qed.

(** ** The smearing loop *)

(** [covers w x y]: bit [i] of [y] is set exactly when [x] has a set bit in the
    window [[i, i + w)]. *)
Definition covers (w x y : Z) : Prop :=
  ∀ i, 0 ≤ i → Z.testbit y i = true ↔ ∃ j, i ≤ j < i + w ∧ Z.testbit x j = true.

Lemma covers_refl x : covers 1 x x.
Proof.
  intros i Hi; split; [intros; exists i; split; [lia|done]|].
  intros (j & Hj & Hb). by replace i with j by lia.
Qed.

Lemma covers_smear w x y : 0 < w → covers w x y → covers (2 * w) x (smear w y).
Proof.
  intros Hw Hc i Hi. unfold smear.
  rewrite Z.lor_spec, Z.shiftr_spec, orb_true_iff, (Hc i), (Hc (i + w)) by lia.
  split.
  - intros [(j & Hj & Hb)|(j & Hj & Hb)]; exists j; (split; [lia|done]).
  - intros (j & Hj & Hb). destruct (Z.lt_ge_cases j (i + w)).
    + left; exists j; (split; [lia|done]).
    + right; exists j; (split; [lia|done]).
Qed.

(** A window of 32 bits sees the top bit of any non-zero [u32] from every lower
    position: the smeared value is all ones below and including the top bit. *)
Lemma covers_32_ones x y :
  0 < x < usize_bound → 0 ≤ y → covers 32 x y → y = 2 ^ (Z.log2 x + 1) - 1.
Proof.
  intros Hx Hy Hc.
  assert (0 ≤ Z.log2 x < 32) as Hlog.
  { split; [apply Z.log2_nonneg|]. apply Z.log2_lt_pow2; lia. }
  replace (2 ^ (Z.log2 x + 1) - 1) with (Z.ones (Z.log2 x + 1))
    by (rewrite Z.ones_equiv; lia).
  apply Z.bits_inj'. intros i Hi.
  apply eq_true_iff_eq. rewrite (Hc i) by done.
  rewrite Z.ones_spec_iff by lia. split.
  - intros (j & Hj & Hb).
    destruct (Z.lt_ge_cases (Z.log2 x) j) as [Hlt|]; [|lia].
    rewrite Z.bits_above_log2 in Hb by lia. discriminate.
  - intros Hi'. exists (Z.log2 x). split; [lia|]. apply Z.bit_log2; lia.
Qed.

Lemma smear_nonneg w x : 0 ≤ x → 0 ≤ smear w x.
Proof. intros. unfold smear. apply Z.lor_nonneg; split; [|apply Z.shiftr_nonneg]; done. Qed.

Definition smear_all (x : Z) : Z :=
  smear 16 (smear 8 (smear 4 (smear 2 (smear 1 x)))).

Lemma smear_all_covers x : covers 32 x (smear_all x).
Proof.
  unfold smear_all.
  apply (covers_smear 16), (covers_smear 8), (covers_smear 4),
    (covers_smear 2), (covers_smear 1), covers_refl; lia.
Qed.

(** For every input from 1 to 2^31 the bit trick returns the least power of two
    that is at least the input. *)
Lemma closest_power_of_two_log2_up num :
  1 ≤ num ≤ 2 ^ 31 → closest_power_of_two num = Ret (2 ^ Z.log2_up num).
Proof.
  intros Hn. unfold closest_power_of_two, usub.
  destruct (Z.leb_spec 1 num); [|lia]. cbn [mbind outcome_bind].
  fold (smear_all (num - 1)).
  destruct (Z.eq_dec num 1) as [->|Hne]; [reflexivity|].
  assert (smear_all (num - 1) = 2 ^ (Z.log2 (num - 1) + 1) - 1) as ->.
  { apply covers_32_ones; [lia| |apply smear_all_covers].
    unfold smear_all; repeat apply smear_nonneg; lia. }
  rewrite Z.log2_up_eqn by lia.
  assert (Z.log2 (num - 1) < 31) by (apply Z.log2_lt_pow2; lia).
  assert (2 ^ (Z.log2 (num - 1) + 1) ≤ 2 ^ 31) by (apply Z.pow_le_mono_r; lia).
  unfold uadd. rewrite <- Z.sub_1_r.
  destruct (Z.ltb_spec (2 ^ (Z.log2 (num - 1) + 1) - 1 + 1) usize_bound); [|lia].
  f_equal. unfold Z.succ. lia.
Qed.

(** Outside that range the code panics: 0 underflows, above 2^31 the increment
    overflows. *)
Lemma closest_power_of_two_Panic num :
  in_usize num → (num = 0 ∨ 2 ^ 31 < num) → closest_power_of_two num = Panic.
Proof.
  intros [H0 H1] [->|Hbig]; [reflexivity|].
  unfold closest_power_of_two, usub.
  destruct (Z.leb_spec 1 num); [|lia]. cbn [mbind outcome_bind].
  fold (smear_all (num - 1)).
  rewrite (covers_32_ones (num - 1) (smear_all (num - 1)));
    [|lia|unfold smear_all; repeat apply smear_nonneg; lia|apply smear_all_covers].
  assert (31 ≤ Z.log2 (num - 1)) by (apply Z.log2_le_pow2; lia).
  assert (2 ^ 32 ≤ 2 ^ (Z.log2 (num - 1) + 1)) by (apply Z.pow_le_mono_r; lia).
  unfold uadd. split_tests; [lia|done].
Qed.

(** ** Trailing zeros and population count *)

Lemma pos_trailing_zeros_spec p :
  0 ≤ pos_trailing_zeros p ∧ (2 ^ pos_trailing_zeros p | Zpos p) ∧
  ¬ (2 ^ (pos_trailing_zeros p + 1) | Zpos p).
Proof.
  induction p as [p IH|p IH|]; simpl.
  - split_and!; [lia|apply Z.divide_1_l|]. change (2 ^ (0 + 1)) with 2.
    intros [q Hq]. lia.
  - destruct IH as (H0 & [q Hq] & Hn). split_and!; [lia| |].
    + exists q. rewrite Z.pow_add_r by lia. change (2 ^ 1) with 2. lia.
    + intros [q' Hq']. apply Hn. exists q'.
      replace (1 + pos_trailing_zeros p + 1) with (1 + (pos_trailing_zeros p + 1)) in Hq' by lia.
      rewrite (Z.pow_add_r 2 1) in Hq' by lia. change (2 ^ 1) with 2 in Hq'. lia.
  - split_and!; [lia|apply Z.divide_1_l|]. change (2 ^ (0 + 1)) with 2. intros [q Hq]. lia.
Qed.

(** The largest power of two that divides a positive number. *)
Lemma trailing_zeros_spec x :
  0 < x → 0 ≤ trailing_zeros x ∧ (2 ^ trailing_zeros x | x) ∧ ¬ (2 ^ (trailing_zeros x + 1) | x).
Proof. destruct x as [|p|p]; [lia| |lia]. intros _. apply pos_trailing_zeros_spec. Qed.

Lemma trailing_zeros_bound x k : 0 < x < 2 ^ k → 0 ≤ k → trailing_zeros x < k.
Proof.
  intros Hx Hk. destruct (trailing_zeros_spec x) as (H0 & Hd & _); [lia|].
  apply Z.divide_pos_le in Hd; [|lia]. apply (Z.pow_lt_mono_r_iff 2); lia.
Qed.

Lemma pos_count_ones_pos p : 1 ≤ pos_count_ones p.
Proof. induction p; simpl; lia. Qed.

(** At most one bit set: a power of two. *)
Lemma count_ones_pow2 x : 0 < x → count_ones x ≤ 1 → is_pow2 x.
Proof.
  destruct x as [|p|p]; [lia| |lia]. intros _. simpl.
  induction p as [p IH|p IH|]; simpl; intros H.
  - pose proof (pos_count_ones_pos p). lia.
  - destruct (IH H) as (k & Hk & He). exists (k + 1). split; [lia|].
    rewrite Z.pow_add_r by lia. change (2 ^ 1) with 2. lia.
  - exists 0. done.
Qed.
