(* ===== verification/Registers.v ===== *)
(** * Register fields (libraries/tock-register-interface/src/fields.rs)

    A [Field] is an unshifted mask with a shift; a [FieldValue] carries a mask
    and a value already shifted into place.  Drivers build the contents of a
    memory-mapped register as sums of field values, so what the hardware sees
    is decided by these few bit operations.  [w] is the register width. *)

From S2P Require Import Prelude.

Record Field := mkField {
  f_mask : Z;
  f_shift : Z;
}.

Record FieldValue := mkFieldValue {
  fv_mask : Z;
  fv_value : Z;
}.

(** [bitmask!(numbits)]. *)
Definition bitmask (numbits : Z) : Z :=
  Z.shiftl 1 (numbits - 1) + (Z.shiftl 1 (numbits - 1) - 1).

(** The field [OFFSET(offset) NUMBITS(numbits)] of [register_bitmasks!]. *)
Definition bitfield (offset numbits : Z) : Field :=
  {| f_mask := bitmask numbits; f_shift := offset |}.

Section Width.
Context (w : Z).

(** A left shift keeps the low [w] bits. *)
Definition shl (a n : Z) : Z := (Z.shiftl a n) mod 2 ^ w.

(** Bitwise [!] at width [w]. *)
Definition not_w (a : Z) : Z := Z.lxor a (Z.ones w).

Definition FieldValue_new (mask shift value : Z) : FieldValue :=
  {| fv_mask := shl mask shift; fv_value := shl (Z.land value mask) shift |}.

Definition Field_val (f : Field) (value : Z) : FieldValue :=
  FieldValue_new (f_mask f) (f_shift f) value.

Definition Field_read (f : Field) (val : Z) : Z :=
  Z.shiftr (Z.land val (shl (f_mask f) (f_shift f))) (f_shift f).

Definition Field_is_set (f : Field) (val : Z) : bool :=
  negb (Z.land val (shl (f_mask f) (f_shift f)) =? 0).

(** The [SET] and [CLEAR] constants every field gets. *)
Definition Field_SET (f : Field) : FieldValue :=
  FieldValue_new (f_mask f) (f_shift f) (f_mask f).
Definition Field_CLEAR (f : Field) : FieldValue :=
  FieldValue_new (f_mask f) (f_shift f) 0.

Definition FieldValue_none : FieldValue := {| fv_mask := 0; fv_value := 0 |}.

Definition FieldValue_read (fv : FieldValue) (f : Field) : Z :=
  Field_read f (fv_value fv).

Definition FieldValue_modify (fv : FieldValue) (val : Z) : Z :=
  Z.lor (Z.land val (not_w (fv_mask fv))) (fv_value fv).

Definition FieldValue_any_matching_bits_set (fv : FieldValue) (val : Z) : bool :=
  negb (Z.land (Z.land val (fv_mask fv)) (fv_value fv) =? 0).

Definition FieldValue_matches_all (fv : FieldValue) (val : Z) : bool :=
  Z.land val (fv_mask fv) =? fv_value fv.

Definition FieldValue_add (a b : FieldValue) : FieldValue :=
  {| fv_mask := Z.lor (fv_mask a) (fv_mask b);
     fv_value := Z.lor (fv_value a) (fv_value b) |}.

(** ** Bits of a field *)

(** A field that lies inside the register. *)
Definition field_fits (offset numbits : Z) : Prop :=
  0 ≤ offset ∧ 0 < numbits ∧ offset + numbits ≤ w.

Lemma bitmask_ones n : 0 < n → bitmask n = Z.ones n.
Proof.
  intros Hn. unfold bitmask. rewrite Z.ones_equiv, Z.shiftl_1_l.
  replace n with (Z.succ (n - 1)) at 3 by lia. rewrite Z.pow_succ_r by lia. lia.
Qed.

Lemma shl_spec a n i :
  0 ≤ w → 0 ≤ n → 0 ≤ i →
  Z.testbit (shl a n) i = (i <? w) && (n <=? i) && Z.testbit a (i - n).
Proof.
  intros Hw Hn Hi. unfold shl. rewrite <- Z.land_ones by lia.
  rewrite Z.land_spec, Z.testbit_ones_nonneg, Z.shiftl_spec by lia.
  destruct (Z.leb_spec n i); [by rewrite andb_true_r, andb_comm|].
  rewrite Z.testbit_neg_r by lia. by rewrite andb_false_r.
Qed.

Lemma shl_ones_spec o n i :
  field_fits o n → 0 ≤ i →
  Z.testbit (shl (bitmask n) o) i = (o <=? i) && (i <? o + n).
Proof.
  intros (Ho & Hn & Hw) Hi. rewrite shl_spec, bitmask_ones by lia.
  destruct (Z.leb_spec o i); [|by rewrite andb_false_r].
  rewrite Z.testbit_ones_nonneg by lia.
  destruct (Z.ltb_spec i w), (Z.ltb_spec (i - o) n), (Z.ltb_spec i (o + n)); simpl; lia.
Qed.

Lemma Field_val_value_spec o n v i :
  field_fits o n → 0 ≤ i →
  Z.testbit (fv_value (Field_val (bitfield o n) v)) i =
    (o <=? i) && (i <? o + n) && Z.testbit v (i - o).
Proof.
  intros (Ho & Hn & Hw) Hi. cbn [Field_val FieldValue_new fv_value bitfield f_mask f_shift].
  rewrite shl_spec, bitmask_ones, Z.land_spec by lia.
  destruct (Z.leb_spec o i); [|by rewrite andb_false_r].
  rewrite Z.testbit_ones_nonneg by lia.
  destruct (Z.ltb_spec i w), (Z.ltb_spec (i - o) n), (Z.ltb_spec i (o + n)), (Z.testbit v (i - o));
    simpl; lia || done.
Qed.

Lemma Field_val_mask_spec o n v i :
  field_fits o n → 0 ≤ i →
  Z.testbit (fv_mask (Field_val (bitfield o n) v)) i = (o <=? i) && (i <? o + n).
Proof. apply shl_ones_spec. Qed.

Lemma Field_read_spec o n val i :
  field_fits o n → 0 ≤ i →
  Z.testbit (Field_read (bitfield o n) val) i = (i <? n) && Z.testbit val (i + o).
Proof.
  intros Hf Hi. unfold Field_read, bitfield; cbn [f_mask f_shift].
  pose proof Hf as (Ho & Hn & Hw).
  rewrite Z.shiftr_spec, Z.land_spec, shl_ones_spec by (done || lia).
  destruct (Z.leb_spec o (i + o)), (Z.ltb_spec (i + o) (o + n)), (Z.ltb_spec i n);
    simpl; rewrite ?andb_true_r, ?andb_false_r; lia || done.
Qed.

(** Reading a field is the arithmetic slice of the register. *)
Lemma Field_read_div_mod o n val :
  field_fits o n → Field_read (bitfield o n) val = (val / 2 ^ o) mod 2 ^ n.
Proof.
  intros Hf. pose proof Hf as (Ho & Hn & Hw).
  apply Z.bits_inj'. intros i Hi. rewrite Field_read_spec by done.
  rewrite <- Z.land_ones, Z.land_spec, Z.testbit_ones_nonneg by lia.
  rewrite Z.div_pow2_bits by lia. apply andb_comm.
Qed.

Lemma FieldValue_modify_spec fv val i :
  0 ≤ w → 0 ≤ i → i < w →
  Z.testbit (FieldValue_modify fv val) i =
    (Z.testbit val i && negb (Z.testbit (fv_mask fv) i)) || Z.testbit (fv_value fv) i.
Proof.
  intros. unfold FieldValue_modify, not_w.
  rewrite Z.lor_spec, Z.land_spec, Z.lxor_spec, Z.testbit_ones_nonneg by lia.
  destruct (Z.ltb_spec i w); [|lia]. by rewrite xorb_true_r.
Qed.

Lemma Field_is_set_read o n val :
  field_fits o n →
  Field_is_set (bitfield o n) val = negb (Field_read (bitfield o n) val =? 0).
Proof.
  intros Hf. pose proof Hf as (Ho & Hn & Hw). unfold Field_is_set, Field_read.
  f_equal. apply eq_true_iff_eq. rewrite !Z.eqb_eq.
  split; [intros ->; apply Z.shiftr_0_l|]. intros H0.
  apply Z.bits_inj'. intros i Hi. rewrite Z.bits_0.
  destruct (Z.lt_ge_cases i o).
  - cbn [bitfield f_mask f_shift]. rewrite Z.land_spec, shl_ones_spec by done.
    destruct (Z.leb_spec o i); [lia|]. apply andb_false_r.
  - apply (f_equal (λ z, Z.testbit z (i - o))) in H0.
    rewrite Z.shiftr_spec, Z.bits_0 in H0 by lia. cbn [bitfield f_mask f_shift] in *.
    by replace (i - o + o) with i in H0 by lia.
Qed.

Lemma Field_read_lor o n a b :
  field_fits o n →
  Field_read (bitfield o n) (Z.lor a b) =
  Z.lor (Field_read (bitfield o n) a) (Field_read (bitfield o n) b).
Proof.
  intros Hf. apply Z.bits_inj'. intros i Hi.
  rewrite Z.lor_spec, !Field_read_spec, Z.lor_spec by done. apply andb_orb_distrib_r.
Qed.

(** Two fields that share no bit. *)
Definition fields_disjoint (o1 n1 o2 n2 : Z) : Prop :=
  o1 + n1 ≤ o2 ∨ o2 + n2 ≤ o1.

Lemma Field_read_val_same o n v :
  field_fits o n →
  Field_read (bitfield o n) (fv_value (Field_val (bitfield o n) v)) = v mod 2 ^ n.
Proof.
  intros Hf. pose proof Hf as (Ho & Hn & Hw).
  apply Z.bits_inj'. intros i Hi.
  rewrite Field_read_spec, Field_val_value_spec by (done || lia).
  rewrite <- Z.land_ones, Z.land_spec, Z.testbit_ones_nonneg by lia.
  replace (i + o - o) with i by lia.
  destruct (Z.ltb_spec i n), (Z.leb_spec o (i + o)), (Z.ltb_spec (i + o) (o + n));
    simpl; rewrite ?andb_true_r, ?andb_false_r; lia || done.
Qed.

Lemma Field_read_val_other o1 n1 o2 n2 v :
  field_fits o1 n1 → field_fits o2 n2 → fields_disjoint o1 n1 o2 n2 →
  Field_read (bitfield o2 n2) (fv_value (Field_val (bitfield o1 n1) v)) = 0.
Proof.
  intros Hf1 Hf2 Hd. pose proof Hf1 as (Ho1 & Hn1 & Hw1). pose proof Hf2 as (Ho2 & Hn2 & Hw2).
  apply Z.bits_inj'. intros i Hi.
  rewrite Field_read_spec, Field_val_value_spec, Z.bits_0 by (done || lia).
  destruct (Z.ltb_spec i n2); [|done]. simpl.
  destruct (Z.leb_spec o1 (i + o2)), (Z.ltb_spec (i + o2) (o1 + n1)); simpl; try done.
  destruct Hd; lia.
Qed.

(** Writing a field and reading it back gives the value truncated to the
    field, and every disjoint field of the register keeps its contents. *)
Lemma modify_read_back o n v val :
  field_fits o n →
  Field_read (bitfield o n) (FieldValue_modify (Field_val (bitfield o n) v) val) = v mod 2 ^ n.
Proof.
  intros Hf. pose proof Hf as (Ho & Hn & Hw).
  apply Z.bits_inj'. intros i Hi. rewrite Field_read_spec by done.
  rewrite <- Z.land_ones, Z.land_spec, Z.testbit_ones_nonneg by lia.
  destruct (Z.ltb_spec i n); [|by rewrite andb_false_r].
  rewrite FieldValue_modify_spec, Field_val_mask_spec, Field_val_value_spec by (done || lia).
  replace (i + o - o) with i by lia.
  destruct (Z.leb_spec o (i + o)); [|lia]. destruct (Z.ltb_spec (i + o) (o + n)); [|lia].
  simpl. by rewrite andb_false_r, andb_true_r.
Qed.

Lemma modify_read_frame o1 n1 o2 n2 v val :
  field_fits o1 n1 → field_fits o2 n2 → fields_disjoint o1 n1 o2 n2 →
  Field_read (bitfield o2 n2) (FieldValue_modify (Field_val (bitfield o1 n1) v) val) =
  Field_read (bitfield o2 n2) val.
Proof.
  intros Hf1 Hf2 Hd. pose proof Hf1 as (Ho1 & Hn1 & Hw1). pose proof Hf2 as (Ho2 & Hn2 & Hw2).
  apply Z.bits_inj'. intros i Hi. rewrite !Field_read_spec by done.
  destruct (Z.ltb_spec i n2); [|done]. simpl.
  rewrite FieldValue_modify_spec, Field_val_mask_spec, Field_val_value_spec by (done || lia).
  destruct (Z.leb_spec o1 (i + o2)), (Z.ltb_spec (i + o2) (o1 + n1)); simpl;
    rewrite ?andb_true_r, ?orb_false_r; try done.
  destruct Hd; lia.
Qed.

(** Combining values with [+] and writing once equals writing one after the
    other, when their masks are disjoint and the second value stays inside
    its mask. *)
Lemma modify_add a b val :
  0 ≤ w →
  (∀ i, 0 ≤ i → Z.testbit (fv_mask a) i = true → Z.testbit (fv_mask b) i = false) →
  (∀ i, 0 ≤ i → Z.testbit (fv_value a) i = true → Z.testbit (fv_mask a) i = true) →
  0 ≤ val < 2 ^ w → 0 ≤ fv_value a < 2 ^ w → 0 ≤ fv_value b < 2 ^ w →
  FieldValue_modify (FieldValue_add a b) val = FieldValue_modify b (FieldValue_modify a val).
Proof.
  intros Hw Hdisj Hin Hval Ha Hb.
  assert (∀ z i, 0 ≤ z < 2 ^ w → w ≤ i → Z.testbit z i = false) as Hhigh.
  { intros z i Hz Hi. destruct (Z.eq_dec z 0) as [->|]; [apply Z.bits_0|].
    apply Z.bits_above_log2; [lia|]. assert (Z.log2 z < w) by (apply Z.log2_lt_pow2; lia). lia. }
  apply Z.bits_inj'. intros i Hi. destruct (Z.lt_ge_cases i w).
  - rewrite !FieldValue_modify_spec by lia. cbn [FieldValue_add fv_mask fv_value].
    rewrite !Z.lor_spec. specialize (Hdisj i Hi). specialize (Hin i Hi).
    destruct (Z.testbit val i), (Z.testbit (fv_mask a) i), (Z.testbit (fv_mask b) i),
      (Z.testbit (fv_value a) i), (Z.testbit (fv_value b) i); naive_solver.
  - unfold FieldValue_modify; cbn [FieldValue_add fv_value fv_mask].
    repeat rewrite ?Z.lor_spec, ?Z.land_spec.
    by rewrite (Hhigh val i), (Hhigh (fv_value a) i), (Hhigh (fv_value b) i) by done.
Qed.
End Width.
