(* ===== verification/Time.v ===== *)
(** * Time values (kernel/src/hil/time.rs)

    A counter of [w] bits is read as a tick value in [0, 2^w); time itself is an
    integer that never wraps, and a tick value is its remainder.  The four
    implementations of [Ticks] are instances of the class [Ticks]; the laws a
    client relies on are [TicksLaws].

    Theorems: the laws hold for every width; the window test compares true
    times as long as the reference is in the past; conversions round down. *)

From S2P Require Import Prelude.

(** ** The trait *)

Class Ticks := {
  t_from_u32 : Z → Z;
  t_into_u32 : Z → Z;
  t_wrapping_add : Z → Z → Z;
  t_wrapping_sub : Z → Z → Z;
  t_max_value : Z;
  t_from_or_max : Z → Z;
  t_saturating_scale : Z → Z → Z → outcome Z;
}.

Section ticks.
Context `{!Ticks}.

(** The same body in the four implementations. *)
Definition within_range (self start end_ : Z) : bool :=
  t_wrapping_sub self start <? t_wrapping_sub end_ start.
Definition half_max_value : Z := 1 + t_max_value / 2.

(** [ConvertTicks], for a clock of [frequency] Hertz. *)
Definition ticks_from_seconds (frequency s : Z) : Z := t_from_or_max (frequency * s).
Definition ticks_from_ms (frequency ms : Z) : Z := t_from_or_max (frequency * ms / 1000).
Definition ticks_from_us (frequency us : Z) : Z := t_from_or_max (frequency * us / 1000000).
Definition ticks_to_seconds (frequency tick : Z) : outcome Z := t_saturating_scale tick 1 frequency.
Definition ticks_to_ms (frequency tick : Z) : outcome Z := t_saturating_scale tick 1000 frequency.
Definition ticks_to_us (frequency tick : Z) : outcome Z := t_saturating_scale tick 1000000 frequency.
End ticks.

(** ** The implementations *)

Abbreviation u32_max := 4294967295 (only parsing).
Definition wrap64 (z : Z) : Z := z mod 2 ^ 64.

(** [scaled as u64 * numerator / denominator], then clamped to 32 bits; a zero
    denominator panics.  The product of two 32-bit numbers fits 64 bits. *)
Definition scale_u32 (self numerator denominator : Z) : outcome Z :=
  scaled ← udiv (self * numerator) denominator;
  Ret (if scaled <? u32_max then wrap32 scaled else u32_max).

Definition Ticks32 : Ticks := {|
  t_from_u32 val := val;
  t_into_u32 self := self;
  t_wrapping_add a b := wrap32 (a + b);
  t_wrapping_sub a b := wrap32 (a - b);
  t_max_value := 4294967295;
  t_from_or_max val := if val <? 4294967295 then wrap32 val else 4294967295;
  t_saturating_scale := scale_u32;
|}.

Definition Ticks24 : Ticks := {|
  t_from_u32 val := val;
  t_into_u32 self := self;
  t_wrapping_add a b := Z.land (wrap32 (a + b)) 16777215;
  t_wrapping_sub a b := Z.land (wrap32 (a - b)) 16777215;
  t_max_value := 16777215;
  t_from_or_max val := if val <? 16777215 then wrap32 val else 16777215;
  t_saturating_scale := scale_u32;
|}.

Definition Ticks16 : Ticks := {|
  t_from_u32 val := Z.land val 65535;
  t_into_u32 self := self;
  t_wrapping_add a b := (a + b) mod 65536;
  t_wrapping_sub a b := (a - b) mod 65536;
  t_max_value := 65535;
  t_from_or_max val := if val <? 65535 then Z.land (wrap32 val) 65535 else 65535;
  t_saturating_scale := scale_u32;
|}.

Definition Ticks64 : Ticks := {|
  t_from_u32 val := val;
  t_into_u32 self := wrap32 self;
  t_wrapping_add a b := wrap64 (a + b);
  t_wrapping_sub a b := wrap64 (a - b);
  t_max_value := 2 ^ 64 - 1;
  t_from_or_max val := val;
  t_saturating_scale self num den :=
    scaled ← udiv (Z.min (self * num) (2 ^ 64 - 1)) den;
    Ret (if scaled <? u32_max then wrap32 scaled else u32_max);
|}.

(** ** What clients rely on *)

Class TicksLaws (w : Z) {T : Ticks} : Prop := {
  ticks_width : 16 ≤ w;
  ticks_add : ∀ a b, t_wrapping_add a b = (a + b) mod 2 ^ w;
  ticks_sub : ∀ a b, t_wrapping_sub a b = (a - b) mod 2 ^ w;
  ticks_max : t_max_value = 2 ^ w - 1;
}.

Lemma mod_mod_pow a m n : 0 ≤ m ≤ n → (a mod 2 ^ n) mod 2 ^ m = a mod 2 ^ m.
Proof.
  intros H. symmetry. apply Znumtheory.Zmod_div_mod; [apply Z.pow_pos_nonneg; lia..|].
  exists (2 ^ (n - m)). rewrite <- Z.pow_add_r by lia. f_equal. lia.
Qed.

Lemma land_24 a : Z.land (wrap32 a) 16777215 = a mod 2 ^ 24.
Proof.
  change 16777215 with (Z.ones 24). rewrite Z.land_ones by lia. unfold wrap32.
  change 4294967296 with (2 ^ 32). by apply mod_mod_pow.
Qed.

#[export] Instance Ticks32_laws : TicksLaws 32 (T := Ticks32).
Proof. by split. Qed.
#[export] Instance Ticks24_laws : TicksLaws 24 (T := Ticks24).
Proof. by split; [|intros; apply land_24..|]. Qed.
#[export] Instance Ticks16_laws : TicksLaws 16 (T := Ticks16).
Proof. by split. Qed.
#[export] Instance Ticks64_laws : TicksLaws 64 (T := Ticks64).
Proof. by split. Qed.

Section laws.
Context (w : Z) {T : Ticks} {HT : TicksLaws w}.

(** A tick value, and the tick value of a moment. *)
Definition is_tick (t : Z) : Prop := 0 ≤ t < 2 ^ w.
Definition tick (time : Z) : Z := time mod 2 ^ w.

Lemma modulus_pos : 0 < 2 ^ w.
Proof. pose proof ticks_width. apply Z.pow_pos_nonneg; lia. Qed.

Lemma tick_is_tick t : is_tick (tick t).
Proof. apply Z.mod_pos_bound, modulus_pos. Qed.

Lemma tick_small t : is_tick t → tick t = t.
Proof. apply Z.mod_small. Qed.

Lemma tick_sub a b : t_wrapping_sub (tick a) (tick b) = (a - b) mod 2 ^ w.
Proof. rewrite ticks_sub. unfold tick. by rewrite <- Zminus_mod. Qed.

Lemma tick_add a b : t_wrapping_add (tick a) b = tick (a + b).
Proof. pose proof modulus_pos. rewrite ticks_add. unfold tick. by rewrite Z.add_mod_idemp_l by lia. Qed.

Lemma half_max_pow : half_max_value = 2 ^ (w - 1).
Proof.
  pose proof ticks_width. unfold half_max_value. rewrite ticks_max.
  replace w with (Z.succ (w - 1)) at 1 by lia. rewrite Z.pow_succ_r by lia.
  assert (0 < 2 ^ (w - 1)) by (apply Z.pow_pos_nonneg; lia).
  replace (2 * 2 ^ (w - 1) - 1) with ((2 ^ (w - 1) - 1) * 2 + 1) by lia.
  rewrite Z.div_add_l by lia. change (1 / 2) with 0. lia.
Qed.

(** The window [reference, reference + dt) against true time. *)
Lemma within_range_window time reference dt :
  0 ≤ dt < 2 ^ w →
  within_range (tick time) (tick reference) (t_wrapping_add (tick reference) dt)
  = ((time - reference) mod 2 ^ w <? dt).
Proof.
  intros Hdt. unfold within_range. rewrite tick_add, !tick_sub.
  by replace (reference + dt - reference) with dt by lia; rewrite (Z.mod_small dt) by done.
Qed.

(** Past the window: true time has reached the end. *)
Lemma outside_window time reference dt :
  0 ≤ dt < 2 ^ w → reference ≤ time →
  within_range (tick time) (tick reference) (t_wrapping_add (tick reference) dt) = false →
  reference + dt ≤ time.
Proof.
  intros Hdt Hr. rewrite within_range_window by done. intros H%Z.ltb_ge. pose proof modulus_pos.
  assert ((time - reference) mod 2 ^ w ≤ time - reference) by (apply Z.mod_le; lia). lia.
Qed.

(** Within one period of the counter the test is exact. *)
Lemma window_exact time reference dt :
  0 ≤ dt < 2 ^ w → reference ≤ time < reference + 2 ^ w →
  within_range (tick time) (tick reference) (t_wrapping_add (tick reference) dt)
  = (time <? reference + dt).
Proof.
  intros Hdt Hr. rewrite within_range_window, Z.mod_small by (done || lia).
  destruct (Z.ltb_spec (time - reference) dt), (Z.ltb_spec time (reference + dt)); lia || done.
Qed.

(** The latest moment up to [time] at which the counter showed [reference]. *)
Definition last_moment (time reference : Z) : Z := time - (time - reference) mod 2 ^ w.

Lemma last_moment_spec time reference :
  is_tick reference →
  tick (last_moment time reference) = reference ∧
  last_moment time reference ≤ time < last_moment time reference + 2 ^ w.
Proof.
  intros Hr. unfold last_moment, tick. pose proof modulus_pos.
  pose proof (Z.mod_pos_bound (time - reference) (2 ^ w)). split; [|lia].
  rewrite <- (Z.mod_small reference (2 ^ w)) at 2 by done.
  rewrite Zminus_mod_idemp_r. f_equal. lia.
Qed.
End laws.

(** ** Conversions *)

(** Milliseconds to ticks and back: for a clock of at least one kilohertz
    and a result that fits the counter, the conversions lose at most one
    millisecond and never gain one. *)
Theorem ticks_ms_roundtrip (frequency ms : Z) :
  1000 ≤ frequency → 0 ≤ ms < 2 ^ 32 → frequency * ms / 1000 < u32_max →
  ∃ ms', ticks_to_ms (H := Ticks32) frequency (ticks_from_ms (H := Ticks32) frequency ms) = Ret ms' ∧
    ms' ≤ ms ≤ ms' + 1.
Proof.
  intros Hf Hms Hq. unfold ticks_to_ms, ticks_from_ms. cbn [t_saturating_scale t_from_or_max Ticks32].
  set (q := frequency * ms / 1000) in *. assert (Hq0 : 0 ≤ q) by (apply Z.div_pos; lia).
  destruct (Z.ltb_spec q u32_max); [|lia]. unfold wrap32 at 1. rewrite (Z.mod_small q) by lia.
  assert (D1 : 1000 * q ≤ frequency * ms < 1000 * q + 1000).
  { pose proof (Z.div_mod (frequency * ms) 1000 ltac:(lia)). pose proof (Z.mod_pos_bound (frequency * ms) 1000 ltac:(lia)).
    fold q in H0. lia. }
  set (m := q * 1000 / frequency).
  assert (D2 : frequency * m ≤ q * 1000 < frequency * m + frequency).
  { pose proof (Z.div_mod (q * 1000) frequency ltac:(lia)). pose proof (Z.mod_pos_bound (q * 1000) frequency ltac:(lia)).
    fold m in H0. lia. }
  assert (Hm : 0 ≤ m ≤ ms ∧ ms ≤ m + 1) by nia.
  exists m. split; [|lia]. unfold scale_u32. rewrite udiv_ok by lia. cbn [mbind outcome_bind]. fold m.
  unfold wrap32. destruct (Z.ltb_spec m u32_max); [by rewrite Z.mod_small by lia|f_equal; lia].
Qed.

Lemma ticks_ms_roundtrip_witness :
  ∃ ms', ticks_to_ms (H := Ticks32) 32768 (ticks_from_ms (H := Ticks32) 32768 1001) = Ret ms' ∧ ms' ≤ 1001 ≤ ms' + 1.
Proof. apply (ticks_ms_roundtrip 32768 1001); vm_compute; repeat split; congruence. Defined.
