(* ===== verification/Mpu.v ===== *)
(** * The MPU interface types (kernel/src/platform/mpu.rs)

    Permissions and logical regions, shared by every MPU implementation and by
    the process code that asks for regions. *)

From S2P Require Import Prelude.

Inductive Permissions :=
| ReadWriteExecute
| ReadWriteOnly
| ReadExecuteOnly
| ReadOnly
| ExecuteOnly.

#[export] Instance Permissions_eq_dec : EqDecision Permissions.
Proof. solve_decision. Defined.

Record Region := mkRegion {
  start_address : Z;
  region_size : Z;
}.

Definition Region_new (start_address size : Z) : Region :=
  {| start_address := start_address; region_size := size |}.

#[export] Instance Region_eq_dec : EqDecision Region.
Proof. solve_decision. Defined.

(** ** The trait [MPU]

    The operations every implementation offers, over the state [Hw] of the
    hardware and a per-process [Config].  A method that takes [&mut config]
    returns the new configuration. *)
Class MPU (Hw Config : Type) := {
  mpu_new_config : Hw → option Config * Hw;
  mpu_reset_config : Config → Config;
  mpu_allocate_region : Z → Z → Z → Permissions → Config → outcome (option Region * Config);
  mpu_remove_memory_region : Region → Config → result unit unit * Config;
  mpu_allocate_app_memory_region :
    Z → Z → Z → Z → Z → Permissions → Config → outcome (option (Z * Z) * Config);
  mpu_update_app_memory_region : Z → Z → Permissions → Config → outcome (result unit unit * Config);
  mpu_configure_mpu : Hw → Config → Hw * Config;
}.

(** What the process code relies on when it places its breaks: a block handed
    out lies in the memory offered and has room for the two parts asked for,
    and the app break is never accepted above the kernel break.  It is the part
    of the trait's documentation that does not speak about access rights. *)
Class MPULayout (Hw Config : Type) `{!MPU Hw Config} := {
  layout_allocate_app :
    ∀ us uz minm app ker p (c c' : Config) start size,
      0 ≤ us → in_usize minm → 0 ≤ app → 0 ≤ ker →
      mpu_allocate_app_memory_region us uz minm app ker p c = Ret (Some (start, size), c') →
      us ≤ start ∧ start + size ≤ us + uz ∧ minm ≤ size ∧ app + ker ≤ size;
  layout_update :
    ∀ ab kb p (c c' : Config),
      mpu_update_app_memory_region ab kb p c = Ret (Ok tt, c') → ab ≤ kb;
}.

(** What it relies on for isolation.  [mpu_app_block c start size] says the
    configuration manages the block, [mpu_user_access c a] that user mode may
    access [a] through the app memory region, [mpu_granule] is the unit the
    hardware compares addresses in.  The app memory region follows the breaks,
    up to the last whole unit; the other operations leave it alone. *)
Class MPUIsolation (Hw Config : Type) `{!MPU Hw Config} := {
  mpu_app_block : Config → Z → Z → Prop;
  mpu_user_access : Config → Z → bool;
  mpu_granule : Z;
  isolation_update :
    ∀ ab kb p (c c' : Config) r start size,
      mpu_app_block c start size → start ≤ ab ≤ kb → kb ≤ start + size →
      start + size < usize_bound →
      mpu_update_app_memory_region ab kb p c = Ret (r, c') →
      match r with
      | Err _ => c' = c
      | Ok _ =>
          mpu_app_block c' start size ∧
          (∀ a, start ≤ a < ab - ab mod mpu_granule → mpu_user_access c' a = true) ∧
          (∀ a, kb ≤ a → mpu_user_access c' a = false) ∧
          (∀ a, a < start → mpu_user_access c' a = false)
      end;
  isolation_configure :
    ∀ hw (c : Config) hw' c' start size, mpu_configure_mpu hw c = (hw', c') →
      mpu_app_block c start size →
      mpu_app_block c' start size ∧ ∀ a, mpu_user_access c' a = mpu_user_access c a;
  isolation_allocate_region :
    ∀ us uz mrs p (c c' : Config) r start size,
      mpu_allocate_region us uz mrs p c = Ret (r, c') → mpu_app_block c start size →
      mpu_app_block c' start size ∧ ∀ a, mpu_user_access c' a = mpu_user_access c a;
  isolation_remove_region :
    ∀ reg (c c' : Config) r start size,
      mpu_remove_memory_region reg c = (r, c') → mpu_app_block c start size →
      mpu_app_block c' start size ∧ ∀ a, mpu_user_access c' a = mpu_user_access c a;
}.

(** ** The implementation for chips without an MPU ([impl MPU for ()]) *)

Definition NoMpu_allocate_region (start size min_region_size : Z) (_ : Permissions) (c : unit) :
    outcome (option Region * unit) :=
  if size <? min_region_size then Ret (None, c)
  else Ret (Some (Region_new start min_region_size), c).

Definition NoMpu_allocate_app_memory_region
    (start size min_memory_size initial_app_memory_size initial_kernel_memory_size : Z)
    (_ : Permissions) (c : unit) : outcome (option (Z * Z) * unit) :=
  both ← uadd initial_app_memory_size initial_kernel_memory_size;
  let memory_size := Z.max min_memory_size both in
  if size <? memory_size then Ret (None, c) else Ret (Some (start, memory_size), c).

Definition NoMpu_update_app_memory_region (app_memory_break kernel_memory_break : Z)
    (_ : Permissions) (c : unit) : outcome (result unit unit * unit) :=
  if kernel_memory_break <? app_memory_break then Ret (Err tt, c) else Ret (Ok tt, c).

#[export] Instance NoMpu : MPU unit unit := {|
  mpu_new_config hw := (Some tt, hw);
  mpu_reset_config c := c;
  mpu_allocate_region := NoMpu_allocate_region;
  mpu_remove_memory_region _ c := (Ok tt, c);
  mpu_allocate_app_memory_region := NoMpu_allocate_app_memory_region;
  mpu_update_app_memory_region := NoMpu_update_app_memory_region;
  mpu_configure_mpu hw c := (hw, c);
|}.

#[export] Instance NoMpu_layout : MPULayout unit unit.
Proof.
  split; cbn.
  - unfold NoMpu_allocate_app_memory_region. intros us uz minm app ker p c c' start size Hus Hm Ha Hk H.
    apply outcome_bind_Ret in H as (b & Hb & H). apply uadd_Ret in Hb as [-> ?].
    split_tests; [done|]. injection H as <- <- <-. lia.
  - unfold NoMpu_update_app_memory_region. intros. split_tests; [done|lia].
Qed.
