(* ===== verification/CortexMpu.v ===== *)
(** * The Cortex-M memory protection unit (arch/cortex-m/src/mpu.rs)

    Region allocation for processes on the ARMv7-M MPU: choosing power-of-two
    regions and subregions, encoding them into the RBAR/RASR registers, and
    writing them to the hardware only when something changed.

    [hw_covers] is the reading of one RBAR/RASR pair given by the register
    documentation in the source (SIZE is 2^(SIZE+1), a set SRD bit disables an
    eighth); the theorems speak about the addresses the hardware exposes, not
    about the logical [location] the driver records. *)

From S2P Require Import Prelude Math Registers Mpu.

(** ** Register fields *)

Definition RBAR_ADDR : Field := bitfield 5 27.
Definition RBAR_VALID : Field := bitfield 4 1.
Definition RBAR_REGION : Field := bitfield 0 4.

Definition RASR_XN : Field := bitfield 28 1.
Definition RASR_AP : Field := bitfield 24 3.
Definition RASR_SRD : Field := bitfield 8 8.
Definition RASR_SIZE : Field := bitfield 1 5.
Definition RASR_ENABLE : Field := bitfield 0 1.

(** ** Regions *)

Record CortexMRegion := mkCortexMRegion {
  location : option (Z * Z);
  base_address : FieldValue;
  attributes : FieldValue;
}.

(** The access and execute field values of a permission. *)
Definition permission_fields (permissions : Permissions) : FieldValue * FieldValue :=
  match permissions with
  | ReadWriteExecute => (Field_val 32 RASR_AP 3, Field_val 32 RASR_XN 0)
  | ReadWriteOnly => (Field_val 32 RASR_AP 3, Field_val 32 RASR_XN 1)
  | ReadExecuteOnly => (Field_val 32 RASR_AP 2, Field_val 32 RASR_XN 0)
  | ReadOnly => (Field_val 32 RASR_AP 2, Field_val 32 RASR_XN 1)
  | ExecuteOnly => (Field_val 32 RASR_AP 1, Field_val 32 RASR_XN 0)
  end.

(** The subregion mask: start with all eight disabled, enable the inclusive
    range bit by bit.  A shift by eight or more overflows a [u8]. *)
Definition subregion_mask (min_subregion max_subregion : Z) : outcome Z :=
  foldl (λ res i, r ← res; if i <? 8 then Ret (Z.lxor r (Z.shiftl 1 i)) else Panic)
    (Ret 255) (seqZ min_subregion (max_subregion - min_subregion + 1)).

Definition CortexMRegion_new (logical_start logical_size region_start region_size region_num : Z)
    (subregions : option (Z * Z)) (permissions : Permissions) : outcome CortexMRegion :=
  let '(access, execute) := permission_fields permissions in
  let base := FieldValue_add (FieldValue_add
      (Field_val 32 RBAR_ADDR (Z.shiftr region_start 5))
      (Field_val 32 RBAR_VALID 1))
      (Field_val 32 RBAR_REGION region_num) in
  size_value ← usub (log_base_two region_size) 1;
  let attrs := FieldValue_add (FieldValue_add (FieldValue_add
      (Field_SET 32 RASR_ENABLE)
      (Field_val 32 RASR_SIZE size_value))
      access)
      execute in
  attrs ← match subregions with
          | Some (min_subregion, max_subregion) =>
              mask ← subregion_mask min_subregion max_subregion;
              Ret (FieldValue_add attrs (Field_val 32 RASR_SRD mask))
          | None => Ret attrs
          end;
  Ret {| location := Some (logical_start, logical_size);
         base_address := base;
         attributes := attrs |}.

Definition CortexMRegion_empty (region_num : Z) : CortexMRegion :=
  {| location := None;
     base_address := FieldValue_add (Field_val 32 RBAR_VALID 1) (Field_val 32 RBAR_REGION region_num);
     attributes := Field_CLEAR 32 RASR_ENABLE |}.

Definition CortexMRegion_eq (r : CortexMRegion) (other : Region) : bool :=
  match location r with
  | Some (addr, size) => (addr =? start_address other) && (size =? region_size other)
  | None => false
  end.

Definition CortexMRegion_overlaps (r : CortexMRegion) (other_start other_size : Z) : outcome bool :=
  other_end ← uadd other_start other_size;
  match location r with
  | Some (region_start, region_size) =>
      region_end ← uadd region_start region_size;
      Ret ((region_start <? other_end) && (other_start <? region_end))
  | None => Ret false
  end.

(** ** Configurations *)

Record CortexMConfig := mkCortexMConfig {
  config_id : Z;
  regions : list CortexMRegion;
  is_dirty : bool;
}.

Definition APP_MEMORY_REGION_MAX_NUM : Z := 1.

(** [unused_region_number], from index [number] on. *)
Fixpoint unused_from (number : Z) (rs : list CortexMRegion) : option Z :=
  match rs with
  | [] => None
  | r :: rs' =>
      if number <=? APP_MEMORY_REGION_MAX_NUM then unused_from (number + 1) rs'
      else match location r with
           | None => Some number
           | Some _ => unused_from (number + 1) rs'
           end
  end.

Definition unused_region_number (config : CortexMConfig) : option Z :=
  unused_from 0 (regions config).

(** The loop that rejects a request overlapping a stored region. *)
Fixpoint any_overlaps (rs : list CortexMRegion) (start size : Z) : outcome bool :=
  match rs with
  | [] => Ret false
  | r :: rs' =>
      b ← CortexMRegion_overlaps r start size;
      if b : bool then Ret true else any_overlaps rs' start size
  end.

Definition reset_config (NUM_REGIONS : nat) (config : CortexMConfig) : CortexMConfig :=
  {| config_id := config_id config;
     regions := (λ i, CortexMRegion_empty i) <$> seqZ 0 (Z.of_nat NUM_REGIONS);
     is_dirty := true |}.

(** [subregion_size] of [allocate_region]: the largest power of two dividing
    the start address. *)
Definition aligned_subregion_size (start size : Z) : outcome Z :=
  let tz := trailing_zeros start in
  if tz <? 32 then Ret (Z.shiftl 1 tz)
  else
    ceil ← closest_power_of_two size;
    let ceil := if ceil <? 256 then 256 else ceil in
    Ret (ceil / 8).

(** The physical region for a logical [start, size] that is not itself a legal
    MPU region: (start, size, region_start, region_size, subregions). *)
Definition cover_with_subregions (start size : Z)
    : outcome (Z * Z * Z * Z * option (Z * Z)) :=
  subregion_size ← aligned_subregion_size start size;
  underlying_region_size ← umul subregion_size 8;
  r ← urem start underlying_region_size;
  underlying_region_start ← usub start r;
  sr ← urem size subregion_size;
  size ← (if sr =? 0 then Ret size else pad ← usub subregion_size sr; uadd size pad);
  end_ ← uadd start size;
  underlying_region_end ← uadd underlying_region_start underlying_region_size;
  if (32 <=? subregion_size) && (end_ <=? underlying_region_end) then
    offset ← usub start underlying_region_start;
    min_subregion ← udiv offset subregion_size;
    count ← udiv size subregion_size;
    next ← uadd min_subregion count;
    max_subregion ← usub next 1;
    Ret (start, size, underlying_region_start, underlying_region_size,
         Some (min_subregion, max_subregion))
  else
    size ← closest_power_of_two size;
    r ← urem start size;
    shift ← usub size r;
    start ← uadd start shift;
    Ret (start, size, start, size, None).

(** The choice of physical region, regular or not. *)
Definition choose_region (start size : Z) : outcome (Z * Z * Z * Z * option (Z * Z)) :=
  irregular ← (if 1 <? count_ones size then Ret true
               else m ← urem start size; Ret (negb (m =? 0)));
  if irregular : bool then cover_with_subregions start size
  else Ret (start, size, start, size, None).

(** Align [region_start] up to a multiple of [region_size], the idiom
    [if start % size != 0 { start += size - (start % size) }]. *)
Definition align_up_to (region_start region_size : Z) : outcome Z :=
  r ← urem region_start region_size;
  if r =? 0 then Ret region_start else pad ← usub region_size r; uadd region_start pad.

Definition allocate_region (MIN_REGION_SIZE : Z)
    (unallocated_memory_start unallocated_memory_size min_region_size : Z)
    (permissions : Permissions) (config : CortexMConfig) : outcome (option Region * CortexMConfig) :=
  overlap ← any_overlaps (regions config) unallocated_memory_start unallocated_memory_size;
  if overlap : bool then Ret (None, config) else
  match unused_region_number config with
  | None => Ret (None, config)
  | Some region_num =>
      start ← align_up_to unallocated_memory_start MIN_REGION_SIZE;
      let size := if min_region_size <? MIN_REGION_SIZE then MIN_REGION_SIZE else min_region_size in
      choice ← choose_region start size;
      let '(start, size, region_start, region_size, subregions) := choice in
      end_ ← uadd start size;
      limit ← uadd unallocated_memory_start unallocated_memory_size;
      if limit <? end_ then Ret (None, config) else
      region ← CortexMRegion_new start size region_start region_size region_num subregions permissions;
      rs ← index_set (regions config) region_num region;
      Ret (Some (Region_new start size),
           {| config_id := config_id config; regions := rs; is_dirty := true |})
  end.

(** [remove_memory_region]. *)
Definition remove_memory_region (region : Region) (config : CortexMConfig)
    : result unit unit * CortexMConfig :=
  match list_find (λ r, CortexMRegion_eq r region = true) (regions config) with
  | None => (Err tt, config)
  | Some (idx, _) =>
      if Z.of_nat idx <=? APP_MEMORY_REGION_MAX_NUM then (Err tt, config)
      else (Ok tt, {| config_id := config_id config;
                      regions := <[idx := CortexMRegion_empty (Z.of_nat idx)]> (regions config);
                      is_dirty := true |})
  end.

(** Install the two app-memory regions with [n] eighths enabled, shared by
    [allocate_app_memory_region] and [update_app_memory_region]. *)
Definition install_app_regions (region_start region_size num_enabled_subregions : Z)
    (permissions : Permissions) (config : CortexMConfig) : outcome CortexMConfig :=
  let num_enabled_subregions0 := Z.min num_enabled_subregions 8 in
  let num_enabled_subregions1 := saturating_sub num_enabled_subregions 8 in
  last0 ← usub num_enabled_subregions0 1;
  region0 ← CortexMRegion_new region_start region_size region_start region_size 0
              (Some (0, last0)) permissions;
  region1 ← (if num_enabled_subregions1 =? 0 then Ret (CortexMRegion_empty 1)
             else
               start1 ← uadd region_start region_size;
               last1 ← usub num_enabled_subregions1 1;
               CortexMRegion_new start1 region_size start1 region_size 1
                 (Some (0, last1)) permissions);
  rs ← index_set (regions config) 0 region0;
  rs ← index_set rs 1 region1;
  Ret {| config_id := config_id config; regions := rs; is_dirty := true |}.

Definition allocate_app_memory_region
    (unallocated_memory_start unallocated_memory_size min_memory_size
     initial_app_memory_size initial_kernel_memory_size : Z)
    (permissions : Permissions) (config : CortexMConfig) : outcome (option (Z * Z) * CortexMConfig) :=
  overlap ← any_overlaps (regions config) unallocated_memory_start unallocated_memory_size;
  if overlap : bool then Ret (None, config) else
  both ← uadd initial_app_memory_size initial_kernel_memory_size;
  let memory_size := Z.max min_memory_size both in
  po2 ← closest_power_of_two memory_size;
  let exponent := log_base_two po2 in
  if 32 <? exponent then Ret (None, config) else
  let memory_size_po2 := if exponent <? 9 then 512 else po2 in
  let region_size := memory_size_po2 / 2 in
  region_start ← align_up_to unallocated_memory_start region_size;
  scaled ← umul initial_app_memory_size 8;
  let num_enabled_subregions := scaled / region_size + 1 in
  let subregion_size := region_size / 8 in
  enabled ← umul num_enabled_subregions subregion_size;
  subregions_enabled_end ← uadd region_start enabled;
  block_end ← uadd region_start memory_size_po2;
  kernel_memory_break ← usub block_end initial_kernel_memory_size;
  grown ← (if kernel_memory_break <? subregions_enabled_end then
             region_size ← umul region_size 2;
             region_start ← align_up_to region_start region_size;
             Ret (region_start, region_size, scaled / region_size + 1)
           else Ret (region_start, region_size, num_enabled_subregions));
  let '(region_start, region_size, num_enabled_subregions) := grown in
  block_end ← uadd region_start memory_size_po2;
  limit ← uadd unallocated_memory_start unallocated_memory_size;
  if limit <? block_end then Ret (None, config) else
  config ← install_app_regions region_start region_size num_enabled_subregions permissions config;
  Ret (Some (region_start, memory_size_po2), config).

Definition update_app_memory_region (app_memory_break kernel_memory_break : Z)
    (permissions : Permissions) (config : CortexMConfig)
    : outcome (result unit unit * CortexMConfig) :=
  region0 ← index_get (regions config) 0;
  match location region0 with
  | None => Ret (Err tt, config)
  | Some (region_start, region_size) =>
      if kernel_memory_break <? app_memory_break then Ret (Err tt, config) else
      app_memory_size ← usub app_memory_break region_start;
      let subregion_size := region_size / 8 in
      biased ← uadd app_memory_size subregion_size;
      biased ← usub biased 1;
      num_enabled_subregions ← udiv biased subregion_size;
      enabled ← umul subregion_size num_enabled_subregions;
      subregions_enabled_end ← uadd region_start enabled;
      if kernel_memory_break <? subregions_enabled_end then Ret (Err tt, config) else
      config ← install_app_regions region_start region_size num_enabled_subregions permissions config;
      Ret (Ok tt, config)
  end.

(** ** The driver state and the hardware registers *)

(** [rbar]/[rasr] per region number, the selected region, and the driver's
    [config_count] and [hardware_is_configured_for]. *)
Record CortexMPU := mkCortexMPU {
  hw_ctrl : Z;
  hw_rnr : Z;
  hw_regions : list (Z * Z);
  config_count : Z;
  hardware_is_configured_for : option Z;
}.

(** Writing RBAR with VALID set selects the region named by its REGION field
    and stores the base; without VALID the selected region stays. *)
Definition write_rbar (m : CortexMPU) (v : Z) : CortexMPU :=
  let rnr := if Field_is_set 32 RBAR_VALID v then Field_read 32 RBAR_REGION v else hw_rnr m in
  {| hw_ctrl := hw_ctrl m; hw_rnr := rnr;
     hw_regions := alter (λ p, (v, p.2)) (Z.to_nat rnr) (hw_regions m);
     config_count := config_count m;
     hardware_is_configured_for := hardware_is_configured_for m |}.

Definition write_rasr (m : CortexMPU) (v : Z) : CortexMPU :=
  {| hw_ctrl := hw_ctrl m; hw_rnr := hw_rnr m;
     hw_regions := alter (λ p, (p.1, v)) (Z.to_nat (hw_rnr m)) (hw_regions m);
     config_count := config_count m;
     hardware_is_configured_for := hardware_is_configured_for m |}.

Definition write_ctrl (m : CortexMPU) (v : Z) : CortexMPU :=
  {| hw_ctrl := v; hw_rnr := hw_rnr m; hw_regions := hw_regions m;
     config_count := config_count m;
     hardware_is_configured_for := hardware_is_configured_for m |}.

Definition CTRL_PRIVDEFENA : Field := bitfield 2 1.
Definition CTRL_HFNMIENA : Field := bitfield 1 1.
Definition CTRL_ENABLE : Field := bitfield 0 1.

Definition clear_mpu (m : CortexMPU) : CortexMPU :=
  write_ctrl m (fv_value (Field_CLEAR 32 CTRL_ENABLE)).

Definition enable_app_mpu (m : CortexMPU) : CortexMPU :=
  write_ctrl m (fv_value (FieldValue_add (FieldValue_add
    (Field_SET 32 CTRL_ENABLE) (Field_CLEAR 32 CTRL_HFNMIENA)) (Field_SET 32 CTRL_PRIVDEFENA))).

Definition disable_app_mpu (m : CortexMPU) : CortexMPU :=
  write_ctrl m (fv_value (Field_CLEAR 32 CTRL_ENABLE)).

Definition new_config (NUM_REGIONS : nat) (m : CortexMPU) : option CortexMConfig * CortexMPU :=
  let id := config_count m in
  if id + 1 <? usize_bound then
    let m := {| hw_ctrl := hw_ctrl m; hw_rnr := hw_rnr m; hw_regions := hw_regions m;
                config_count := id + 1;
                hardware_is_configured_for := hardware_is_configured_for m |} in
    let ret := {| config_id := id;
                  regions := replicate NUM_REGIONS (CortexMRegion_empty 0);
                  is_dirty := true |} in
    (Some (reset_config NUM_REGIONS ret), m)
  else (None, m).

(** The two register writes for one region. *)
Definition write_region (m : CortexMPU) (r : CortexMRegion) : CortexMPU :=
  write_rasr (write_rbar m (fv_value (base_address r))) (fv_value (attributes r)).

Definition configure_mpu (m : CortexMPU) (config : CortexMConfig) : CortexMPU * CortexMConfig :=
  if negb (bool_decide (hardware_is_configured_for m = Some (config_id config))) || is_dirty config
  then
    let m := foldl write_region m (regions config) in
    ({| hw_ctrl := hw_ctrl m; hw_rnr := hw_rnr m; hw_regions := hw_regions m;
        config_count := config_count m;
        hardware_is_configured_for := Some (config_id config) |},
     {| config_id := config_id config; regions := regions config; is_dirty := false |})
  else (m, config).

(** ** What the hardware exposes *)

(** The addresses one RBAR/RASR pair exposes to user mode: an enabled region of
    2^(SIZE+1) bytes at the aligned base, less the eighths whose SRD bit is
    set. *)
Definition hw_size (rasr : Z) : Z := 2 ^ (Field_read 32 RASR_SIZE rasr + 1).
Definition hw_base (rbar rasr : Z) : Z :=
  let a := Field_read 32 RBAR_ADDR rbar * 32 in a - a mod hw_size rasr.
Definition hw_covers (rbar rasr a : Z) : bool :=
  let base := hw_base rbar rasr in
  let size := hw_size rasr in
  Field_is_set 32 RASR_ENABLE rasr
  && (base <=? a) && (a <? base + size)
  && negb (Z.testbit (Field_read 32 RASR_SRD rasr) ((a - base) / (size / 8))).

Definition region_covers (r : CortexMRegion) (a : Z) : bool :=
  hw_covers (fv_value (base_address r)) (fv_value (attributes r)) a.

(** Some region of the configuration exposes [a]. *)
Definition config_covers (rs : list CortexMRegion) (a : Z) : bool :=
  existsb (λ r, region_covers r a) rs.

(** ** Decoding an encoded region *)

#[local] Ltac fits := unfold field_fits, fields_disjoint; lia.

Lemma field_read_size rasr : Field_read 32 RASR_SIZE rasr = (rasr / 2 ^ 1) mod 2 ^ 5.
Proof. apply Field_read_div_mod. fits. Qed.

#[local] Ltac read_fields :=
  unfold RBAR_ADDR, RBAR_VALID, RBAR_REGION, RASR_XN, RASR_AP, RASR_SRD, RASR_SIZE, RASR_ENABLE in *;
  cbn [FieldValue_add fv_value];
  rewrite ?Field_read_lor by fits;
  rewrite ?(Field_read_val_same 32) by fits;
  rewrite ?(Field_read_val_other 32 5 27) by fits;
  rewrite ?(Field_read_val_other 32 4 1) by fits;
  rewrite ?(Field_read_val_other 32 0 4) by fits;
  rewrite ?(Field_read_val_other 32 28 1) by fits;
  rewrite ?(Field_read_val_other 32 24 3) by fits;
  rewrite ?(Field_read_val_other 32 8 8) by fits;
  rewrite ?(Field_read_val_other 32 1 5) by fits;
  rewrite ?(Field_read_val_other 32 0 1) by fits;
  rewrite ?Z.lor_0_r, ?Z.lor_0_l.

Lemma permission_fields_val p :
  ∃ ap xn, permission_fields p = (Field_val 32 RASR_AP ap, Field_val 32 RASR_XN xn).
Proof. destruct p; eauto. Qed.

(** The registers of a region built by [CortexMRegion_new], field by field. *)
Lemma CortexMRegion_new_decode ls lz rs rz num sub p srd :
  1 ≤ log_base_two rz ≤ 32 →
  match sub with Some (lo, hi) => subregion_mask lo hi = Ret srd | None => srd = 0 end →
  0 ≤ rs < usize_bound → 0 ≤ srd < 256 →
  ∃ r, CortexMRegion_new ls lz rs rz num sub p = Ret r ∧
    location r = Some (ls, lz) ∧
    Field_read 32 RBAR_ADDR (fv_value (base_address r)) = rs / 32 ∧
    Field_read 32 RASR_SIZE (fv_value (attributes r)) = log_base_two rz - 1 ∧
    Field_read 32 RASR_SRD (fv_value (attributes r)) = srd ∧
    Field_is_set 32 RASR_ENABLE (fv_value (attributes r)) = true.
Proof.
  intros Hlog Hsub Hrs Hsrd. unfold CortexMRegion_new.
  destruct (permission_fields_val p) as (ap & xn & ->).
  assert (Field_SET 32 RASR_ENABLE = Field_val 32 (bitfield 0 1) 1) as -> by done.
  unfold usub. destruct (Z.leb_spec 1 (log_base_two rz)); [|lia]. cbn [mbind outcome_bind].
  assert (rs / 32 mod 2 ^ 27 = rs / 32) as Hbase.
  { apply Z.mod_small. split; [apply Z.div_pos; lia|]. apply Z.div_lt_upper_bound; lia. }
  assert ((log_base_two rz - 1) mod 2 ^ 5 = log_base_two rz - 1) as Hsz by (apply Z.mod_small; lia).
  assert (srd mod 2 ^ 8 = srd) as Hsd by (apply Z.mod_small; lia).
  destruct sub as [[lo hi]|].
  - rewrite Hsub. cbn [mbind outcome_bind]. eexists; split; [done|]. cbn [location base_address attributes].
    unfold RASR_ENABLE. rewrite Field_is_set_read by fits. read_fields.
    rewrite (Z.shiftr_div_pow2 _ 5) by lia. change (2 ^ 5) with 32 at 1. by rewrite Hbase, Hsz, Hsd.
  - subst srd. cbn [mbind outcome_bind]. eexists; split; [done|]. cbn [location base_address attributes].
    unfold RASR_ENABLE. rewrite Field_is_set_read by fits. read_fields.
    rewrite (Z.shiftr_div_pow2 _ 5) by lia. change (2 ^ 5) with 32 at 1. by rewrite Hbase, Hsz.
Qed.

(** The mask disables exactly the eighths outside the inclusive range; there
    are 36 ranges, checked by evaluation. *)
Definition subregion_mask_ok (lo hi : Z) : bool :=
  match subregion_mask lo hi with
  | Ret m => (0 <=? m) && (m <? 256)
             && forallb (λ i, Bool.eqb (Z.testbit m i) (negb ((lo <=? i) && (i <=? hi)))) (seqZ 0 8)
  | Panic => false
  end.

Lemma seqZ_forallb (f : Z → bool) m n :
  forallb f (seqZ m n) = true → ∀ i, m ≤ i < m + n → f i = true.
Proof.
  intros Hall i Hi. rewrite forallb_forall in Hall. apply Hall.
  apply list_elem_of_In, elem_of_seqZ. lia.
Qed.

Lemma subregion_mask_spec lo hi :
  0 ≤ lo ≤ hi → hi ≤ 7 →
  ∃ m, subregion_mask lo hi = Ret m ∧ 0 ≤ m < 256 ∧
    ∀ i, 0 ≤ i < 8 → Z.testbit m i = negb ((lo <=? i) && (i <=? hi)).
Proof.
  intros Hlo Hhi.
  assert (forallb (λ lo, forallb (subregion_mask_ok lo) (seqZ lo (8 - lo))) (seqZ 0 8) = true)
    as Hall by (vm_compute; reflexivity).
  apply (seqZ_forallb _ _ _) with (i := lo) in Hall; [|lia].
  apply (seqZ_forallb _ _ _) with (i := hi) in Hall; [|lia].
  unfold subregion_mask_ok in Hall. destruct (subregion_mask lo hi) as [m|]; [|done].
  apply andb_true_iff in Hall as [[?%Z.leb_le ?%Z.ltb_lt]%andb_true_iff Hbits].
  exists m. split_and!; [done..|]. intros i Hi.
  apply eqb_prop, (seqZ_forallb _ 0 8 Hbits). lia.
Qed.

(** Cutting a power-of-two block of [8 * s] bytes into eighths. *)
Lemma eighth_index rs s a :
  0 < s → rs ≤ a < rs + 8 * s → 0 ≤ (a - rs) / s < 8.
Proof.
  intros Hs Ha. split; [apply Z.div_pos; lia|]. apply Z.div_lt_upper_bound; lia.
Qed.

Lemma eighth_between rs s a lo hi :
  0 < s → lo ≤ (a - rs) / s ≤ hi ↔ rs + lo * s ≤ a < rs + (hi + 1) * s.
Proof.
  intros Hs. pose proof (Z.div_mod (a - rs) s) as Hdm. pose proof (Z.mod_pos_bound (a - rs) s Hs).
  split; intros; nia.
Qed.

Lemma pow2_eighth n : 3 ≤ n → 2 ^ n = 8 * (2 ^ n / 8) ∧ 0 < 2 ^ n / 8.
Proof.
  intros Hn. replace n with (3 + (n - 3)) by lia. rewrite Z.pow_add_r by lia.
  change (2 ^ 3) with 8. rewrite Z.mul_comm, Z.div_mul by lia.
  split; [lia|]. apply Z.pow_pos_nonneg; lia.
Qed.

(** What [hw_covers] says of a pair whose fields decode to an aligned region. *)
Lemma hw_covers_decode rbar rasr rs n srd a :
  5 ≤ n → rs mod 2 ^ n = 0 →
  Field_read 32 RBAR_ADDR rbar = rs / 32 →
  Field_read 32 RASR_SIZE rasr = n - 1 →
  Field_read 32 RASR_SRD rasr = srd →
  Field_is_set 32 RASR_ENABLE rasr = true →
  hw_covers rbar rasr a =
    (rs <=? a) && (a <? rs + 2 ^ n) && negb (Z.testbit srd ((a - rs) / (2 ^ n / 8))).
Proof.
  intros Hn Hal Ha Hs Hd He. unfold hw_covers, hw_base, hw_size. rewrite Ha, Hs, Hd, He.
  replace (n - 1 + 1) with n by lia.
  assert (rs mod 32 = 0) as H32.
  { apply Z.mod_divide; [lia|]. apply Z.divide_trans with (2 ^ n).
    - change 32 with (2 ^ 5). apply pow2_divide; lia.
    - apply Z.mod_divide; [apply Z.pow_nonzero; lia|done]. }
  assert (rs / 32 * 32 = rs) as -> by (pose proof (Z.div_mod rs 32); lia).
  rewrite Hal, Z.sub_0_r. done.
Qed.

Lemma log2_pow2_range n : 5 ≤ n ≤ 32 → 1 ≤ log_base_two (2 ^ n) ≤ 32 ∧ log_base_two (2 ^ n) = n.
Proof. intros. rewrite log_base_two_pow2 by lia. lia. Qed.

(** A region with an inclusive range of eighths exposes exactly that range. *)
Lemma CortexMRegion_new_sub ls lz rs n num lo hi p :
  8 ≤ n ≤ 32 → 0 ≤ rs < usize_bound → rs mod 2 ^ n = 0 → 0 ≤ lo ≤ hi → hi ≤ 7 →
  ∃ r, CortexMRegion_new ls lz rs (2 ^ n) num (Some (lo, hi)) p = Ret r ∧
    location r = Some (ls, lz) ∧
    ∀ a, region_covers r a = true ↔ rs + lo * (2 ^ n / 8) ≤ a < rs + (hi + 1) * (2 ^ n / 8).
Proof.
  intros Hn Hrs Hal Hlo Hhi.
  destruct (subregion_mask_spec lo hi Hlo Hhi) as (m & Hm & Hmr & Hbits).
  destruct (log2_pow2_range n) as [Hl1 Hl2]; [lia|].
  destruct (CortexMRegion_new_decode ls lz rs (2 ^ n) num (Some (lo, hi)) p m)
    as (r & Hr & Hloc & H1 & H2 & H3 & H4); [done..|].
  exists r. split_and!; [done..|]. intros a. unfold region_covers.
  rewrite (hw_covers_decode _ _ rs n m) by (done || lia).
  destruct (pow2_eighth n) as [H8 Hs]; [lia|]. set (s := 2 ^ n / 8) in *.
  rewrite <- (eighth_between rs s a lo hi) by done.
  rewrite !andb_true_iff, negb_true_iff, Z.leb_le, Z.ltb_lt. split.
  - intros [[Ha Hb] Hc]. rewrite Hbits in Hc by (apply eighth_index; lia).
    apply negb_false_iff, andb_true_iff in Hc as [?%Z.leb_le ?%Z.leb_le]. lia.
  - intros Hi. pose proof Hi as Hr'. rewrite eighth_between in Hr' by done.
    assert (0 ≤ lo * s ∧ (hi + 1) * s ≤ 8 * s) by nia.
    split; [lia|]. rewrite Hbits by (apply eighth_index; lia).
    apply negb_false_iff, andb_true_iff. rewrite !Z.leb_le. lia.
Qed.

(** A region without subregions exposes all of its 2^n bytes. *)
Lemma CortexMRegion_new_whole ls lz rs n num p :
  5 ≤ n ≤ 32 → 0 ≤ rs < usize_bound → rs mod 2 ^ n = 0 →
  ∃ r, CortexMRegion_new ls lz rs (2 ^ n) num None p = Ret r ∧
    location r = Some (ls, lz) ∧
    ∀ a, region_covers r a = true ↔ rs ≤ a < rs + 2 ^ n.
Proof.
  intros Hn Hrs Hal. destruct (log2_pow2_range n Hn) as [Hl1 Hl2].
  destruct (CortexMRegion_new_decode ls lz rs (2 ^ n) num None p 0)
    as (r & Hr & Hloc & H1 & H2 & H3 & H4); [done..|lia|].
  exists r. split_and!; [done..|]. intros a. unfold region_covers.
  rewrite (hw_covers_decode _ _ rs n 0) by (done || lia).
  rewrite Z.bits_0, !andb_true_iff, Z.leb_le, Z.ltb_lt. naive_solver.
Qed.

(** A disabled region exposes nothing. *)
Lemma CortexMRegion_empty_covers num a : region_covers (CortexMRegion_empty num) a = false.
Proof. reflexivity. Qed.

(** ** App memory regions *)

(** Storing the two app-memory regions. *)
Lemma bind_index_set_01 {A B} (q0 q1 : A) rest r0 r1 (f : list A → outcome B) :
  (l ← index_set (q0 :: q1 :: rest) 0 r0; l ← index_set l 1 r1; f l) = f (r0 :: r1 :: rest).
Proof.
  rewrite index_set_Ret by (cbn [length]; lia). cbn [mbind outcome_bind].
  by rewrite index_set_Ret by (rewrite length_insert; cbn [length]; lia).
Qed.

(** The addresses the two app-memory regions (0 and 1) expose. *)
Definition app_covers (c : CortexMConfig) (a : Z) : bool := config_covers (take 2 (regions c)) a.

(** Region 0 holds the location of a legal app-memory block: two 2^n-byte
    halves at an aligned start, inside the address space. *)
Definition app_block (c : CortexMConfig) (start n : Z) : Prop :=
  (∃ r0 r1 rest, regions c = r0 :: r1 :: rest ∧ location r0 = Some (start, 2 ^ n)) ∧
  8 ≤ n ≤ 31 ∧ 0 ≤ start ∧ start mod 2 ^ n = 0.

Lemma install_app_regions_spec start n k p c :
  app_block c start n ∨ (2 ≤ length (regions c))%nat →
  8 ≤ n ≤ 31 → 0 ≤ start < usize_bound → start mod 2 ^ n = 0 →
  1 ≤ k ≤ 16 → (8 < k → start + 2 * 2 ^ n ≤ usize_bound) →
  ∃ c', install_app_regions start (2 ^ n) k p c = Ret c' ∧
    app_block c' start n ∧
    drop 2 (regions c') = drop 2 (regions c) ∧ config_id c' = config_id c ∧ is_dirty c' = true ∧
    ∀ a, app_covers c' a = true ↔ start ≤ a < start + k * (2 ^ n / 8).
Proof.
  intros Hlen Hn Hst Hal Hk Hspace.
  assert (∃ r0 r1 rest, regions c = r0 :: r1 :: rest) as (q0 & q1 & rest & Hregs).
  { destruct Hlen as [((r0 & r1 & rest & H & _) & _)|Hl]; [eauto|].
    destruct (regions c) as [|r0 [|r1 rest]]; simpl in *; try lia. eauto. }
  destruct (pow2_eighth n) as [H8 Hs]; [lia|].
  unfold install_app_regions, saturating_sub.
  rewrite (usub_ok (Z.min k 8)) by lia. cbn [mbind outcome_bind].
  destruct (CortexMRegion_new_sub start (2 ^ n) start n 0 0 (Z.min k 8 - 1) p)
    as (r0 & -> & Hloc0 & Hcov0); [lia..|]. cbn [mbind outcome_bind].
  destruct (Z.eqb_spec (Z.max 0 (k - 8)) 0) as [Hk8|Hk8]; cbn [mbind outcome_bind].
  - rewrite Hregs, bind_index_set_01. eexists; split; [reflexivity|]. split_and!; try done.
    { split; [|lia]. cbn. do 3 eexists; split; [reflexivity|done]. }
    intros a. unfold app_covers, config_covers. cbn -[region_covers].
    rewrite CortexMRegion_empty_covers, !orb_false_r, Hcov0. rewrite Z.min_l by lia.
    set (s := 2 ^ n / 8) in *. nia.
  - specialize (Hspace ltac:(lia)).
    ustep.
    destruct (CortexMRegion_new_sub (start + 2 ^ n) (2 ^ n) (start + 2 ^ n) n 1 0
                (Z.max 0 (k - 8) - 1) p) as (r1 & -> & Hloc1 & Hcov1); [lia|lia| |lia..|].
    { rewrite <- Z.add_mod_idemp_r, Z.mod_same, Z.add_0_r by (apply Z.pow_nonzero; lia). done. }
    cbn [mbind outcome_bind]. rewrite Hregs, bind_index_set_01. eexists; split; [reflexivity|]. split_and!; try done.
    { split; [|lia]. cbn. do 3 eexists; split; [reflexivity|done]. }
    intros a. unfold app_covers, config_covers. cbn -[region_covers].
    rewrite orb_false_r, orb_true_iff, Hcov0, Hcov1.
    set (s := 2 ^ n / 8) in *. rewrite H8, Z.min_r, Z.max_r by lia. nia.
Qed.

(** Rounding up to eighths. *)
Lemma round_up_eighths x s : 0 < s → 0 < x → x ≤ s * ((x + s - 1) / s) < x + s.
Proof.
  intros Hs Hx. pose proof (Z.div_mod (x + s - 1) s). pose proof (Z.mod_pos_bound (x + s - 1) s). nia.
Qed.

(** [update_app_memory_region] follows the breaks. *)
Lemma update_app_memory_region_spec c start n app_break kernel_break p :
  app_block c start n →
  start < app_break ≤ kernel_break →
  kernel_break ≤ start + 2 * 2 ^ n →
  start + 2 * 2 ^ n < usize_bound →
  let enabled := start + 2 ^ n / 8 * ((app_break - start + 2 ^ n / 8 - 1) / (2 ^ n / 8)) in
  (kernel_break < enabled ∧ update_app_memory_region app_break kernel_break p c = Ret (Err tt, c)) ∨
  (enabled ≤ kernel_break ∧
   ∃ c', update_app_memory_region app_break kernel_break p c = Ret (Ok tt, c') ∧
     app_block c' start n ∧
     drop 2 (regions c') = drop 2 (regions c) ∧ config_id c' = config_id c ∧ is_dirty c' = true ∧
     (∀ a, start ≤ a < app_break → app_covers c' a = true) ∧
     (∀ a, kernel_break ≤ a → app_covers c' a = false) ∧
     (∀ a, a < start → app_covers c' a = false)).
Proof.
  intros Hblk Hbrk Hkb Hsp enabled.
  pose proof Hblk as ((r0 & r1 & rest & Hregs & Hloc) & Hn & Hst & Hal).
  destruct (pow2_eighth n) as [H8 Hs]; [lia|].
  assert (2 ^ n ≤ 2 ^ 30) as Hn30.
  { apply Z.pow_le_mono_r; [lia|]. destruct (Z.eq_dec n 31) as [->|]; lia. }
  pose proof (round_up_eighths (app_break - start) (2 ^ n / 8) Hs) as Hround.
  set (k := (app_break - start + 2 ^ n / 8 - 1) / (2 ^ n / 8)) in *.
  set (s := 2 ^ n / 8) in *.
  specialize (Hround ltac:(lia)).
  assert (1 ≤ k) as Hk1 by nia. assert (k ≤ 16) as Hk16 by nia.
  assert (s * k ≤ 16 * s) as Hsk by nia.
  assert (index_get (regions c) 0 = Ret r0) as Hget by (by rewrite Hregs).
  unfold update_app_memory_region. rewrite Hget. cbn [mbind outcome_bind]. rewrite Hloc.
  fold s. destruct (Z.ltb_spec kernel_break app_break); [lia|]. ustep. fold k. ustep.
  destruct (Z.ltb_spec kernel_break (start + s * k)).
  - left. split; [unfold enabled; lia|done].
  - right. split; [unfold enabled; lia|].
    destruct (install_app_regions_spec start n k p c) as (c' & Hi & Hb & Hd & Hid & Hdirty & Hcov);
      [by left|lia|lia|done|lia|lia|].
    exists c'. rewrite Hi. cbn [mbind outcome_bind]. split_and!; try done.
    + intros a Ha. apply Hcov. fold s. lia.
    + intros a Ha. apply not_true_iff_false. rewrite Hcov. fold s. lia.
    + intros a Ha. apply not_true_iff_false. rewrite Hcov. fold s. lia.
Qed.

(** With no byte requested the count of enabled eighths is zero and the
    subtraction of one underflows. *)
Lemma update_app_memory_region_empty c start n kernel_break p :
  app_block c start n → start ≤ kernel_break →
  start + 2 * 2 ^ n < usize_bound →
  update_app_memory_region start kernel_break p c = Panic.
Proof.
  intros ((r0 & r1 & rest & Hregs & Hloc) & Hn & Hst & Hal) Hkb Hsp.
  destruct (pow2_eighth n) as [H8 Hs]; [lia|].
  assert (index_get (regions c) 0 = Ret r0) as Hget by (by rewrite Hregs).
  unfold update_app_memory_region. rewrite Hget. cbn [mbind outcome_bind]. rewrite Hloc.
  destruct (Z.ltb_spec kernel_break start); [lia|]. ustep.
  rewrite (Z.div_small (start - start + 2 ^ n / 8 - 1)) by lia. ustep.
  destruct (Z.ltb_spec kernel_break (start + 2 ^ n / 8 * 0)); [lia|]. done.
Qed.

(** C8.  [update_app_memory_region] on a configuration that holds a legal app
    block, asked for a break strictly above the start of the block and not above the
    kernel break, never panics and either leaves the configuration alone and
    reports an error, or succeeds with every address of the process's memory
    below the new break exposed, no address from the kernel break upwards and
    none below the block exposed by the app regions, and the other regions
    untouched.  It succeeds exactly when the break rounded up to an eighth of
    a region still fits below the kernel break. *)
Theorem update_app_memory_region_isolates c start n app_break kernel_break p :
  app_block c start n →
  start < app_break ≤ kernel_break →
  kernel_break ≤ start + 2 * 2 ^ n →
  start + 2 * 2 ^ n < usize_bound →
  let enabled := start + 2 ^ n / 8 * ((app_break - start + 2 ^ n / 8 - 1) / (2 ^ n / 8)) in
  (kernel_break < enabled ∧ update_app_memory_region app_break kernel_break p c = Ret (Err tt, c)) ∨
  (enabled ≤ kernel_break ∧
   ∃ c', update_app_memory_region app_break kernel_break p c = Ret (Ok tt, c') ∧
     app_block c' start n ∧
     drop 2 (regions c') = drop 2 (regions c) ∧ config_id c' = config_id c ∧ is_dirty c' = true ∧
     (∀ a, start ≤ a < app_break → app_covers c' a = true) ∧
     (∀ a, kernel_break ≤ a → app_covers c' a = false) ∧
     (∀ a, a < start → app_covers c' a = false)).
Proof. apply update_app_memory_region_spec. Qed.

(** The break may not be moved down to the very start of the block: with
    no byte requested [update_app_memory_region] computes a count of zero
    enabled eighths and the subtraction of one underflows. *)
Theorem update_app_memory_region_empty_panics c start n kernel_break p :
  app_block c start n → start ≤ kernel_break →
  start + 2 * 2 ^ n < usize_bound →
  update_app_memory_region start kernel_break p c = Panic.
Proof. apply update_app_memory_region_empty. Qed.

(** ** Allocating the app block *)

Lemma align_up_to_spec x m :
  0 < m → 0 ≤ x → x + m < usize_bound →
  ∃ y, align_up_to x m = Ret y ∧ x ≤ y < x + m ∧ y mod m = 0.
Proof.
  intros Hm Hx Hb. unfold align_up_to. ustep.
  pose proof (Z.mod_pos_bound x m Hm).
  destruct (Z.eqb_spec (x mod m) 0) as [He|He]; [exists x; split_and!; (done || lia)|].
  ustep. eexists; split; [done|]. split; [lia|].
  replace (x + (m - x mod m)) with ((x / m + 1) * m) by (pose proof (Z.div_mod x m); lia).
  apply Z.mod_mul; lia.
Qed.

(** The power-of-two block size chosen for a request. *)
Definition block_log (memory_size : Z) : Z := Z.max 9 (Z.log2_up memory_size).

Lemma block_log_spec m :
  1 ≤ m ≤ 2 ^ 28 →
  closest_power_of_two m = Ret (2 ^ Z.log2_up m) ∧
  (if log_base_two (2 ^ Z.log2_up m) <? 9 then 512 else 2 ^ Z.log2_up m) = 2 ^ block_log m ∧
  9 ≤ block_log m ≤ 28 ∧ m ≤ 2 ^ block_log m ∧ log_base_two (2 ^ Z.log2_up m) ≤ 28.
Proof.
  intros Hm. rewrite closest_power_of_two_log2_up by lia. unfold block_log.
  pose proof (Z.log2_up_nonneg m).
  assert (Z.log2_up m ≤ 28) by (apply Z.log2_up_le_pow2; lia).
  rewrite log_base_two_pow2 by done. split_and!; try lia; try done.
  - destruct (Z.ltb_spec (Z.log2_up m) 9).
    + by rewrite Z.max_l by lia.
    + by rewrite Z.max_r by lia.
  - apply Z.le_trans with (2 ^ Z.log2_up m).
    + destruct (Z.eq_dec m 1) as [->|]; [done|]. apply Z.log2_up_spec; lia.
    + apply Z.pow_le_mono_r; lia.
Qed.

(** The eighths that cover [app] bytes, as the allocator counts them. *)
Lemma app_eighths_cover app half :
  0 < half → 0 ≤ app → half mod 8 = 0 →
  app < (app * 8 / half + 1) * (half / 8) ≤ app + half / 8.
Proof.
  intros Hh Ha Hm. assert (half = 8 * (half / 8)) as He by (pose proof (Z.div_mod half 8); lia).
  set (e := half / 8) in *. rewrite He.
  pose proof (Z.div_mod (app * 8) (8 * e)). pose proof (Z.mod_pos_bound (app * 8) (8 * e)). nia.
Qed.

(** The first choice of eighths already leaves the kernel's bytes alone, so the
    allocator does not take its growing branch. *)
Definition fits_first_try (memory_size app kernel : Z) : Prop :=
  let half := 2 ^ (block_log memory_size - 1) in
  (app * 8 / half + 1) * (half / 8) ≤ 2 * half - kernel.

(** The placement both branches of the allocator arrive at: [start] aligned to
    the region size, with [k] eighths covering the app memory. *)
Lemma place_app_block us half app ker :
  half = 2 ^ (Z.log2 half) → 8 ≤ Z.log2 half ≤ 27 → 0 ≤ us ≤ 2 ^ 31 →
  0 ≤ app → 0 ≤ ker → app + ker ≤ 2 * half →
  ∃ start n k,
    (region_start ← align_up_to us half;
     enabled ← umul (app * 8 / half + 1) (half / 8);
     subregions_enabled_end ← uadd region_start enabled;
     block_end ← uadd region_start (2 * half);
     kernel_memory_break ← usub block_end ker;
     if kernel_memory_break <? subregions_enabled_end then
       region_size ← umul half 2;
       region_start ← align_up_to region_start region_size;
       Ret (region_start, region_size, app * 8 / region_size + 1)
     else Ret (region_start, half, app * 8 / half + 1)) = Ret (start, 2 ^ n, k) ∧
    8 ≤ n ≤ 28 ∧ us ≤ start < us + 3 * half ∧ start mod 2 ^ n = 0 ∧ 1 ≤ k ≤ 16 ∧
    app < k * (2 ^ n / 8) ∧
    ((app * 8 / half + 1) * (half / 8) ≤ 2 * half - ker →
       2 ^ n = half ∧ k = app * 8 / half + 1) ∧
    (2 * half - ker < (app * 8 / half + 1) * (half / 8) → 2 * half - ker < k * (2 ^ n / 8)).
Proof.
  intros Hh Hlog Hus Happ Hker Hsum.
  destruct (pow2_eighth (Z.log2 half)) as [H8 Hs]; [lia|]. rewrite <- Hh in H8, Hs.
  assert (2 ^ 8 ≤ half ≤ 2 ^ 27) as Hhb.
  { pose proof (Z.pow_le_mono_r 2 8 (Z.log2 half)) as Hlo.
    pose proof (Z.pow_le_mono_r 2 (Z.log2 half) 27) as Hhi. rewrite <- Hh in Hlo, Hhi. lia. }
  assert (half mod 8 = 0) as Hm8 by (rewrite H8, Z.mul_comm; apply Z.mod_mul; lia).
  pose proof (app_eighths_cover app half ltac:(lia) Happ Hm8) as Hk.
  assert (0 ≤ app * 8 / half) as Hq by (apply Z.div_pos; lia).
  destruct (align_up_to_spec us half) as (st & -> & Hst & Hsta); [lia..|].
  set (k := app * 8 / half + 1) in *. set (e := half / 8) in *.
  cbn [mbind outcome_bind]. ustep.
  destruct (Z.ltb_spec (st + 2 * half - ker) (st + k * e)) as [Hov|Hok].
  - ustep. destruct (align_up_to_spec st (half * 2)) as (st2 & -> & Hst2 & Hsta2); [lia..|].
    cbn [mbind outcome_bind].
    assert (half * 2 = 2 ^ (Z.log2 half + 1)) as H2.
    { rewrite Z.pow_add_r by lia. change (2 ^ 1) with 2. lia. }
    assert ((half * 2) / 8 = 2 * e) as He2.
    { replace (half * 2) with (2 * e * 8) by lia. apply Z.div_mul; lia. }
    assert ((half * 2) mod 8 = 0) as Hm2.
    { replace (half * 2) with (2 * e * 8) by lia. apply Z.mod_mul; lia. }
    pose proof (app_eighths_cover app (half * 2) ltac:(lia) Happ Hm2) as Hk2.
    assert (0 ≤ app * 8 / (half * 2)) by (apply Z.div_pos; lia).
    assert (app * 8 / half = app / e ∧ app * 8 / (half * 2) = app / e / 2) as [Hq1 Hq2].
    { rewrite H8, Z.div_div by lia. split.
      - by rewrite (Z.mul_comm 8 e), Z.div_mul_cancel_r by lia.
      - replace (8 * e * 2) with (e * 2 * 8) by lia. by rewrite Z.div_mul_cancel_r by lia. }
    assert (k ≤ 2 * (app * 8 / (half * 2) + 1)) as Hkk.
    { unfold k. rewrite Hq1, Hq2. pose proof (Z.div_mod (app / e) 2).
      pose proof (Z.mod_pos_bound (app / e) 2). lia. }
    exists st2, (Z.log2 half + 1), (app * 8 / (half * 2) + 1). rewrite <- H2.
    split_and!; try done; try lia; rewrite ?He2 in *; nia.
  - exists st, (Z.log2 half), k. rewrite <- Hh. split_and!; try done; try lia. nia.
Qed.

(** What [allocate_app_memory_region] does on a request of at most 2^28 bytes
    below 2^31 that overlaps no stored region. *)
Lemma allocate_app_memory_region_spec c us uz minm app ker p :
  (2 ≤ length (regions c))%nat → any_overlaps (regions c) us uz = Ret false →
  0 ≤ us → 0 ≤ uz → us + uz ≤ 2 ^ 31 → 0 ≤ app → 0 ≤ ker →
  1 ≤ Z.max minm (app + ker) ≤ 2 ^ 28 →
  let m := Z.max minm (app + ker) in
  let size := 2 ^ block_log m in
  (uz < 3 * size ∧ allocate_app_memory_region us uz minm app ker p c = Ret (None, c)) ∨
  ∃ start c', allocate_app_memory_region us uz minm app ker p c = Ret (Some (start, size), c') ∧
    m ≤ size ∧ us ≤ start ∧ start + size ≤ us + uz ∧
    drop 2 (regions c') = drop 2 (regions c) ∧ config_id c' = config_id c ∧
    (∀ a, start ≤ a < start + app → app_covers c' a = true) ∧
    (∀ a, a < start → app_covers c' a = false) ∧
    (fits_first_try m app ker →
       app_block c' start (block_log m - 1) ∧
       ∀ a, start + size - ker ≤ a → app_covers c' a = false) ∧
    (¬ fits_first_try m app ker → app_covers c' (start + size - ker) = true).
Proof.
  intros Hlen Hov Hus Huz Hsum Happ Hker Hm m size.
  destruct (block_log_spec m Hm) as (Hpo2 & Hsel & Hbl & Hmp & Hl28).
  set (half := 2 ^ (block_log m - 1)).
  assert (size = 2 * half) as Hsize.
  { unfold size, half. replace (block_log m) with (Z.succ (block_log m - 1)) at 1 by lia.
    by rewrite Z.pow_succ_r by lia. }
  assert (half ≤ 2 ^ 27) by (apply Z.pow_le_mono_r; lia).
  assert (0 < half) by (apply Z.pow_pos_nonneg; lia).
  assert (Z.log2 half = block_log m - 1) as Hlog by (apply Z.log2_pow2; lia).
  destruct (place_app_block us half app ker) as
    (start & n & k & Hplace & Hn & Hst & Hal & Hk & Hcov & Hfirst & Hgrow);
    [by rewrite Hlog|lia|lia|lia|lia|unfold m in *; lia|].
  unfold allocate_app_memory_region. rewrite Hov. ustep. fold m. rewrite Hpo2. cbn [mbind outcome_bind].
  destruct (Z.ltb_spec 32 (log_base_two (2 ^ Z.log2_up m))); [lia|].
  rewrite Hsel. fold size.
  assert (size / 2 = half) as -> by (rewrite Hsize, Z.mul_comm; apply Z.div_mul; lia).
  do 5 (apply outcome_bind_Ret in Hplace as (? & E & Hplace); rewrite ?Hsize, E; clear E;
        cbn [mbind outcome_bind]).
  rewrite Hplace. cbn [mbind outcome_bind]. ustep.
  destruct (Z.ltb_spec (us + uz) (start + 2 * half)).
  - left. split; [lia|done].
  - right. assert (2 ^ n ≤ 2 ^ 28) by (apply Z.pow_le_mono_r; lia).
    destruct (install_app_regions_spec start n k p c) as (c' & Hi & Hb & Hd & Hid & Hdirty & Hc);
      [by right|lia|lia|done|done|lia|].
    exists start, c'. rewrite Hi. cbn [mbind outcome_bind]. rewrite <- Hsize.
    split_and!; try done; try lia.
    + intros a Ha. apply Hc. lia.
    + intros a Ha. apply not_true_iff_false. rewrite Hc. lia.
    + intros Hfit. destruct (Hfirst Hfit) as [Hn' ->].
      assert (n = block_log m - 1) as -> by (apply (Z.pow_inj_r 2); [lia..|done]).
      split; [done|]. intros a Ha. apply not_true_iff_false. rewrite Hc. fold half.
      unfold fits_first_try in Hfit. fold half in Hfit. lia.
    + intros Hfit. unfold fits_first_try in Hfit. fold half in Hfit.
      apply Hc. unfold m in *. lia.
Qed.

Section AllocateApp.
Context (c : CortexMConfig) (us uz minm app ker : Z) (p : Permissions).

(** The request is one the spec lemma covers. *)
Definition app_request_ok : Prop :=
  (2 ≤ length (regions c))%nat ∧ any_overlaps (regions c) us uz = Ret false ∧
  0 ≤ us ∧ 0 ≤ uz ∧ us + uz ≤ 2 ^ 31 ∧ 0 ≤ app ∧ 0 ≤ ker ∧
  1 ≤ Z.max minm (app + ker) ≤ 2 ^ 28.

(** [allocate_app_memory_region], on a request of at most 2^28 bytes below
    2^31 that overlaps no stored region, never panics.  It returns no block
    only when fewer than three times the block size is unallocated; otherwise the
    block is a power of two at least the request, lies inside the unallocated
    memory, every byte of the initial app memory is exposed, nothing below the
    block is, the other regions are untouched, and - when the first choice of
    eighths fits - no byte of the last [ker] bytes, the kernel's, is exposed. *)
Theorem allocate_app_memory_region_isolates :
  app_request_ok →
  let m := Z.max minm (app + ker) in
  let size := 2 ^ block_log m in
  fits_first_try m app ker →
  (uz < 3 * size ∧ allocate_app_memory_region us uz minm app ker p c = Ret (None, c)) ∨
  ∃ start c', allocate_app_memory_region us uz minm app ker p c = Ret (Some (start, size), c') ∧
    m ≤ size ∧ us ≤ start ∧ start + size ≤ us + uz ∧
    drop 2 (regions c') = drop 2 (regions c) ∧
    app_block c' start (block_log m - 1) ∧
    (∀ a, start ≤ a < start + app → app_covers c' a = true) ∧
    (∀ a, start + size - ker ≤ a → app_covers c' a = false) ∧
    (∀ a, a < start → app_covers c' a = false).
Proof.
  intros (?&?&?&?&?&?&?&?) m size Hfit.
  destruct (allocate_app_memory_region_spec c us uz minm app ker p)
    as [Hnone|(start & c' & Hr & Hm & Hlo & Hhi & Hd & Hid & Hc & Hb & Hyes & Hno)]; [done..|by left|].
  right. destruct (Hyes Hfit). exists start, c'. naive_solver.
Qed.

(** C37.  When the first choice of eighths does not fit, the allocator doubles
    the region size but keeps the block size, and the eighths it then enables
    reach into the last [ker] bytes of the block: the first byte of the
    kernel's part of process memory is exposed to the process. *)
Theorem allocate_app_memory_region_grow_exposes_kernel start size c' :
  app_request_ok → ¬ fits_first_try (Z.max minm (app + ker)) app ker →
  allocate_app_memory_region us uz minm app ker p c = Ret (Some (start, size), c') →
  app_covers c' (start + size - ker) = true.
Proof.
  intros (?&?&?&?&?&?&?&?) Hfit Hcall.
  destruct (allocate_app_memory_region_spec c us uz minm app ker p)
    as [[_ Hnone]|(st & c'' & Hr & Hm & Hlo & Hhi & Hd & Hid & Hc & Hb & Hyes & Hno)]; [done..|congruence|].
  rewrite Hcall in Hr. injection Hr as -> -> ->. auto.
Qed.
End AllocateApp.

(** ** General regions *)

(** A physical region and its enabled eighths expose exactly the logical range
    [[start, start + size)]. *)
Definition exact_region (start size rs rz : Z) (sub : option (Z * Z)) : Prop :=
  ∃ n, rz = 2 ^ n ∧ 5 ≤ n ≤ 31 ∧ 0 ≤ rs < usize_bound ∧ rs mod 2 ^ n = 0 ∧
  match sub with
  | None => start = rs ∧ size = 2 ^ n
  | Some (lo, hi) => 8 ≤ n ∧ 0 ≤ lo ≤ hi ∧ hi ≤ 7 ∧
      start = rs + lo * (2 ^ n / 8) ∧ start + size = rs + (hi + 1) * (2 ^ n / 8)
  end.

Lemma exact_region_new start size rs rz sub num p :
  exact_region start size rs rz sub →
  ∃ r, CortexMRegion_new start size rs rz num sub p = Ret r ∧
    location r = Some (start, size) ∧
    ∀ a, region_covers r a = true ↔ start ≤ a < start + size.
Proof.
  intros (n & -> & Hn & Hrs & Hal & Hsub). destruct sub as [[lo hi]|].
  - destruct Hsub as (Hn8 & Hlo & Hhi & Hs & He). rewrite He, Hs.
    apply CortexMRegion_new_sub; (done || lia).
  - destruct Hsub as [-> ->]. apply CortexMRegion_new_whole; (done || lia).
Qed.

(** [aligned_subregion_size] is a power of two that divides the start. *)
Lemma aligned_subregion_size_spec start size s :
  0 ≤ start < usize_bound → 1 ≤ size ≤ 2 ^ 31 →
  aligned_subregion_size start size = Ret s →
  ∃ t, 0 ≤ t ∧ s = 2 ^ t ∧ (2 ^ t | start).
Proof.
  intros Hst Hsz. unfold aligned_subregion_size.
  destruct (Z.eq_dec start 0) as [->|Hne].
  - change (trailing_zeros 0 <? 32) with false. cbn [negb].
    rewrite closest_power_of_two_log2_up by done. cbn [mbind outcome_bind].
    intros [= <-]. pose proof (Z.log2_up_nonneg size).
    set (j := Z.max 8 (Z.log2_up size)).
    assert ((if 2 ^ Z.log2_up size <? 256 then 256 else 2 ^ Z.log2_up size) = 2 ^ j) as ->.
    { unfold j. destruct (Z.ltb_spec (2 ^ Z.log2_up size) 256) as [Hl|Hl].
      - change 256 with (2 ^ 8) in Hl. apply Z.pow_lt_mono_r_iff in Hl; [|lia..]. by rewrite Z.max_l by lia.
      - change 256 with (2 ^ 8) in Hl. apply Z.pow_le_mono_r_iff in Hl; [|lia..]. by rewrite Z.max_r by lia. }
    exists (j - 3). split; [lia|]. split; [|apply Z.divide_0_r].
    replace j with (3 + (j - 3)) at 1 by lia. rewrite Z.pow_add_r by lia.
    change (2 ^ 3) with 8. rewrite Z.mul_comm. apply Z.div_mul; lia.
  - destruct (trailing_zeros_spec start) as (H0 & Hd & _); [lia|].
    destruct (Z.ltb_spec (trailing_zeros start) 32).
    + intros [= <-]. exists (trailing_zeros start). rewrite Z.shiftl_1_l. done.
    + pose proof (trailing_zeros_bound start 32). lia.
Qed.

(** Round [size] up to a multiple of [s]. *)
Lemma pad_to_multiple size s sz :
  0 < s → 0 ≤ size →
  (if size mod s =? 0 then Ret size else pad ← usub s (size mod s); uadd size pad) = Ret sz →
  size ≤ sz < size + s ∧ sz mod s = 0.
Proof.
  intros Hs Hz. pose proof (Z.mod_pos_bound size s Hs).
  destruct (Z.eqb_spec (size mod s) 0) as [He|He]; intros Hr.
  - injection Hr as <-. split; [lia|done].
  - outcome_inv Hr. split; [lia|].
    replace (size + (s - size mod s)) with ((size / s + 1) * s) by (pose proof (Z.div_mod size s); lia).
    apply Z.mod_mul; lia.
Qed.

Lemma log2_up_bounds x : 32 ≤ x ≤ 2 ^ 31 → 5 ≤ Z.log2_up x ≤ 31 ∧ x ≤ 2 ^ Z.log2_up x.
Proof.
  intros Hx. split; [split|].
  - change 5 with (Z.log2_up 32). apply Z.log2_up_le_mono; lia.
  - apply Z.log2_up_le_pow2; lia.
  - apply Z.log2_up_spec; lia.
Qed.

(** The enabled eighths of an underlying region of [8 * s] bytes that start at
    [start] and cover [sz] bytes. *)
Lemma eighths_of_range start sz s rs :
  0 < s → 0 < sz → sz mod s = 0 → start mod s = 0 →
  rs = start - start mod (s * 8) → start + sz ≤ rs + s * 8 →
  let lo := (start - rs) / s in
  let hi := lo + sz / s - 1 in
  0 ≤ lo ≤ hi ∧ hi ≤ 7 ∧ start = rs + lo * s ∧ start + sz = rs + (hi + 1) * s.
Proof.
  intros Hs Hsz Hszs Hsts Hrs Hfit lo hi.
  pose proof (Z.div_mod sz s) as Hd1. pose proof (Z.mod_pos_bound start (s * 8)).
  assert ((start - rs) mod s = 0) as Hoff.
  { rewrite Hrs. replace (start - (start - start mod (s * 8))) with (start mod (s * 8)) by lia.
    apply Z.mod_divide; [lia|]. rewrite Z.mod_eq by lia.
    apply Z.divide_sub_r; [by apply Z.mod_divide; [lia|]|].
    rewrite <- Z.mul_assoc. apply Z.divide_factor_l. }
  pose proof (Z.div_mod (start - rs) s) as Hd2. rewrite Hoff in Hd2. rewrite Hszs in Hd1.
  assert (0 ≤ lo) by (apply Z.div_pos; lia). unfold hi. fold lo in Hd2.
  assert (1 ≤ sz / s) by nia. split_and!; nia.
Qed.

Lemma cover_with_subregions_spec start size st sz rs rz sub :
  0 ≤ start → 32 ≤ size ≤ 2 ^ 31 → start < usize_bound →
  cover_with_subregions start size = Ret (st, sz, rs, rz, sub) →
  start ≤ st ∧ size ≤ sz ∧ exact_region st sz rs rz sub.
Proof.
  intros Hst Hsize Hlt. unfold cover_with_subregions.
  intros (s & Hs & H)%outcome_bind_Ret.
  apply aligned_subregion_size_spec in Hs as (t & Ht & -> & Hdiv); [|lia..].
  assert (0 < 2 ^ t) as Hpos by (apply Z.pow_pos_nonneg; lia).
  apply outcome_bind_Ret in H as (urs & [-> Hurs]%umul_Ret & H).
  apply outcome_bind_Ret in H as (r & [-> _]%urem_Ret & H).
  apply outcome_bind_Ret in H as (urst & [-> Hle]%usub_Ret & H).
  apply outcome_bind_Ret in H as (sr & [-> _]%urem_Ret & H).
  apply outcome_bind_Ret in H as (size' & Hpad & H).
  apply pad_to_multiple in Hpad as [Hsz' Hmul]; [|lia..].
  apply outcome_bind_Ret in H as (e & [-> He]%uadd_Ret & H).
  apply outcome_bind_Ret in H as (ure & [-> Hure]%uadd_Ret & H).
  assert (2 ^ t * 8 = 2 ^ (t + 3)) as H8 by (rewrite Z.pow_add_r by lia; done).
  assert (2 ^ (t + 3) / 8 = 2 ^ t) as Hdiv8 by (rewrite <- H8; apply Z.div_mul; lia).
  assert (t + 3 < 32) as Ht32.
  { apply (Z.pow_lt_mono_r_iff 2); lia. }
  destruct ((32 <=? 2 ^ t) && (start + size' <=? start - start mod (2 ^ t * 8) + 2 ^ t * 8)) eqn:Hc.
  - apply andb_true_iff in Hc as [H32%Z.leb_le Hend%Z.leb_le].
    change 32 with (2 ^ 5) in H32. apply Z.pow_le_mono_r_iff in H32; [|lia..].
    apply outcome_bind_Ret in H as (off & [-> _]%usub_Ret & H).
    apply outcome_bind_Ret in H as (lo & [-> _]%udiv_Ret & H).
    apply outcome_bind_Ret in H as (cnt & [-> _]%udiv_Ret & H).
    apply outcome_bind_Ret in H as (next & [-> _]%uadd_Ret & H).
    apply outcome_bind_Ret in H as (hi & [-> _]%usub_Ret & H).
    injection H as <- <- <- <- <-. split; [lia|]. split; [lia|].
    destruct (eighths_of_range start size' (2 ^ t) (start - start mod (2 ^ t * 8)))
      as (? & ? & ? & ?); [lia|lia|done|by apply Z.mod_divide; [lia|]|done|lia|].
    exists (t + 3). rewrite Hdiv8, <- H8. pose proof (Z.mod_pos_bound start (2 ^ t * 8)).
    split_and!; try done; try lia.
    rewrite Zminus_mod_idemp_r, Z.sub_diag. apply Z.mod_0_l; lia.
  - apply outcome_bind_Ret in H as (p2 & Hp2 & H).
    assert (size' ≤ 2 ^ 31) as Hs31.
    { destruct (Z.le_gt_cases size' (2 ^ 31)); [done|].
      rewrite closest_power_of_two_Panic in Hp2; [done|unfold in_usize; lia|by right]. }
    rewrite closest_power_of_two_log2_up in Hp2 by lia. injection Hp2 as <-.
    destruct (log2_up_bounds size') as (Hl & Hge); [lia|].
    set (n := Z.log2_up size') in *.
    apply outcome_bind_Ret in H as (r & [-> _]%urem_Ret & H).
    apply outcome_bind_Ret in H as (sh & [-> _]%usub_Ret & H).
    apply outcome_bind_Ret in H as (st' & [-> Hb]%uadd_Ret & H).
    injection H as <- <- <- <- <-.
    pose proof (Z.mod_pos_bound start (2 ^ n)) as Hmb.
    split; [lia|]. split; [lia|]. exists n. split_and!; try done; try lia.
    replace (start + (2 ^ n - start mod 2 ^ n)) with ((start / 2 ^ n + 1) * 2 ^ n)
      by (pose proof (Z.div_mod start (2 ^ n)); lia).
    apply Z.mod_mul; lia.
Qed.

Lemma pad_total size s :
  0 < s ≤ 2 ^ 28 → 0 < size ≤ 2 ^ 28 →
  ∃ sz, (if size mod s =? 0 then Ret size else pad ← usub s (size mod s); uadd size pad) = Ret sz ∧
    size ≤ sz ≤ 2 ^ 29 ∧ sz mod s = 0.
Proof.
  intros Hs Hz. pose proof (Z.mod_pos_bound size s ltac:(lia)).
  assert (∃ sz, (if size mod s =? 0 then Ret size else pad ← usub s (size mod s); uadd size pad) = Ret sz)
    as [sz Hsz].
  { destruct (Z.eqb_spec (size mod s) 0); [by eexists|]. ustep. by eexists. }
  exists sz. split; [done|]. apply pad_to_multiple in Hsz as [? ?]; [|lia..]. split; [lia|done].
Qed.

(** No overflow and no panic for starts that are not a multiple of 2^29. *)
Lemma cover_with_subregions_total start size :
  0 ≤ start < 2 ^ 31 → 32 ≤ size ≤ 2 ^ 28 → start = 0 ∨ start mod 2 ^ 29 ≠ 0 →
  ∃ st sz rs rz sub, cover_with_subregions start size = Ret (st, sz, rs, rz, sub) ∧
    st + sz < usize_bound.
Proof.
  intros Hst Hsize Hal. unfold cover_with_subregions.
  assert (∃ s, aligned_subregion_size start size = Ret s ∧ 0 < s ≤ 2 ^ 28) as (s & -> & Hs).
  { destruct (Z.eq_dec start 0) as [->|Hne].
    - unfold aligned_subregion_size. change (trailing_zeros 0 <? 32) with false.
      rewrite closest_power_of_two_log2_up by lia. cbn [mbind outcome_bind]. eexists; split; [done|].
      destruct (log2_up_bounds size) as [_ Hge]; [lia|].
      assert (2 ^ Z.log2_up size ≤ 2 ^ 28).
      { apply Z.pow_le_mono_r; [lia|]. apply Z.log2_up_le_pow2; lia. }
      destruct (Z.ltb_spec (2 ^ Z.log2_up size) 256).
      + change (256 / 8) with 32. lia.
      + split; [apply Z.div_str_pos; lia|]. apply Z.div_le_upper_bound; lia.
    - destruct (trailing_zeros_spec start) as (H0 & Hd & _); [lia|].
      assert (trailing_zeros start < 29) as Ht.
      { destruct (Z.lt_ge_cases (trailing_zeros start) 29); [done|]. destruct Hal as [?|Hal]; [lia|].
        destruct Hal. apply Z.mod_divide; [lia|]. apply Z.divide_trans with (2 ^ trailing_zeros start); [|done].
        apply pow2_divide; lia. }
      unfold aligned_subregion_size. destruct (Z.ltb_spec (trailing_zeros start) 32); [|lia].
      eexists; split; [done|]. rewrite Z.shiftl_1_l. split; [apply Z.pow_pos_nonneg; lia|].
      apply Z.pow_le_mono_r; lia. }
  pose proof (Z.mod_pos_bound start (s * 8)). pose proof (Z.mod_pos_bound size s).
  pose proof (Z.mod_le start (s * 8)).
  destruct (pad_total size s) as (sz & Hpad & Hsz & Hmul); [lia..|].
  cbn [mbind outcome_bind]. rewrite (umul_ok s 8) by lia. cbn [mbind outcome_bind].
  rewrite (urem_ok start) by lia. cbn [mbind outcome_bind].
  rewrite (usub_ok start) by lia. cbn [mbind outcome_bind].
  rewrite (urem_ok size s) by lia. cbn [mbind outcome_bind]. rewrite Hpad. cbn [mbind outcome_bind].
  rewrite (uadd_ok start sz) by lia. cbn [mbind outcome_bind].
  rewrite uadd_ok by lia. cbn [mbind outcome_bind].
  destruct ((32 <=? s) && (start + sz <=? start - start mod (s * 8) + s * 8)).
  - assert (0 ≤ (start - (start - start mod (s * 8))) / s ≤ 2 ^ 31) as Hlo.
    { split; [apply Z.div_pos; lia|]. apply Z.div_le_upper_bound; nia. }
    assert (1 ≤ sz / s ≤ 2 ^ 29) as Hcnt.
    { pose proof (Z.div_mod sz s). split; [nia|]. apply Z.div_le_upper_bound; nia. }
    ustep. do 5 eexists. split; [done|lia].
  - rewrite closest_power_of_two_log2_up by lia. cbn [mbind outcome_bind].
    assert (2 ^ Z.log2_up sz ≤ 2 ^ 29).
    { apply Z.pow_le_mono_r; [lia|]. apply Z.log2_up_le_pow2; lia. }
    assert (0 < 2 ^ Z.log2_up sz) by (apply Z.pow_pos_nonneg; [lia|apply Z.log2_up_nonneg]).
    pose proof (Z.mod_pos_bound start (2 ^ Z.log2_up sz)).
    ustep. do 5 eexists. split; [done|lia].
Qed.

Lemma any_overlaps_total rs start size :
  start + size < usize_bound →
  (∀ r s z, r ∈ rs → location r = Some (s, z) → s + z < usize_bound) →
  ∃ b, any_overlaps rs start size = Ret b.
Proof.
  intros Hb. induction rs as [|r rs IH]; intros Hfit; [by eexists|].
  cbn [any_overlaps]. unfold CortexMRegion_overlaps. ustep.
  destruct (location r) as [[s z]|] eqn:Hl.
  - rewrite uadd_ok by (eapply Hfit; [constructor|done]). cbn [mbind outcome_bind].
    destruct (_ && _); [by eexists|]. apply IH. intros; eapply Hfit; [by constructor|done].
  - cbn [mbind outcome_bind]. apply IH. intros; eapply Hfit; [by constructor|done].
Qed.

(** A request that passed the overlap check is disjoint from every stored
    logical region. *)
Lemma any_overlaps_false rs start size r s z :
  any_overlaps rs start size = Ret false → r ∈ rs → location r = Some (s, z) →
  s + z ≤ start ∨ start + size ≤ s.
Proof.
  induction rs as [|r' rs IH]; intros Hov Hin Hl; [by apply elem_of_nil in Hin|].
  cbn [any_overlaps] in Hov. apply outcome_bind_Ret in Hov as (b & Hb & Hov).
  destruct b; [done|]. apply elem_of_cons in Hin as [->|Hin]; [|eauto].
  unfold CortexMRegion_overlaps in Hb. rewrite Hl in Hb.
  apply outcome_bind_Ret in Hb as (e & [-> _]%uadd_Ret & Hb).
  apply outcome_bind_Ret in Hb as (e & [-> _]%uadd_Ret & Hb). injection Hb as Hb.
  apply andb_false_iff in Hb as [?%Z.ltb_ge|?%Z.ltb_ge]; lia.
Qed.

Lemma unused_from_spec number rs i :
  0 ≤ number → unused_from number rs = Some i →
  APP_MEMORY_REGION_MAX_NUM < i ∧ number ≤ i ∧
  ∃ r, rs !! Z.to_nat (i - number) = Some r ∧ location r = None.
Proof.
  revert number i. induction rs as [|r rs IH]; intros number i Hn; [done|]. cbn [unused_from].
  assert (∀ i, unused_from (number + 1) rs = Some i →
    APP_MEMORY_REGION_MAX_NUM < i ∧ number ≤ i ∧
    ∃ r', (r :: rs) !! Z.to_nat (i - number) = Some r' ∧ location r' = None) as Hnext.
  { intros j (H1 & H2 & r' & H3 & H4)%IH; [|lia]. split_and!; [done|lia|].
    exists r'. replace (Z.to_nat (j - number)) with (S (Z.to_nat (j - (number + 1)))) by lia. done. }
  destruct (Z.leb_spec number APP_MEMORY_REGION_MAX_NUM); [apply Hnext|].
  destruct (location r) eqn:Hl; [apply Hnext|]. intros [= <-].
  split_and!; [done|lia|]. exists r. rewrite Z.sub_diag. done.
Qed.

Lemma choose_region_total start size :
  0 ≤ start < 2 ^ 31 → 32 ≤ size ≤ 2 ^ 28 → start = 0 ∨ start mod 2 ^ 29 ≠ 0 →
  ∃ st sz rs rz sub, choose_region start size = Ret (st, sz, rs, rz, sub) ∧
    st + sz < usize_bound ∧ start ≤ st ∧ size ≤ sz ∧ exact_region st sz rs rz sub.
Proof.
  intros Hst Hsize Hodd. unfold choose_region.
  assert (∃ st sz rs rz sub, cover_with_subregions start size = Ret (st, sz, rs, rz, sub) ∧
    st + sz < usize_bound ∧ start ≤ st ∧ size ≤ sz ∧ exact_region st sz rs rz sub) as Hcover.
  { destruct (cover_with_subregions_total start size) as (st & sz & rs & rz & sub & Hc & Hb); [lia..|done|].
    exists st, sz, rs, rz, sub. split; [done|]. split; [done|].
    apply cover_with_subregions_spec in Hc as (? & ? & ?); [done|lia..]. }
  destruct (Z.ltb_spec 1 (count_ones size)) as [Hc|Hc]; cbn [mbind outcome_bind]; [done|].
  rewrite urem_ok by lia. cbn [mbind outcome_bind].
  destruct (Z.eqb_spec (start mod size) 0) as [Hal|Hal]; cbn [negb]; [|done].
  do 5 eexists. split_and!; [done|lia|lia|lia|].
  destruct (count_ones_pow2 size) as (n & Hn & ->); [lia|done|].
  exists n. assert (5 ≤ n ∧ n ≤ 28).
  { split; apply (Z.pow_le_mono_r_iff 2); lia. }
  split_and!; (done || lia).
Qed.

(** [allocate_region], for a request below 2^31 of at most 2^28 bytes whose
    aligned start is zero or not a multiple of 2^29, never panics.  Without a
    result the configuration is unchanged; with one, the region lies inside
    the unallocated memory and holds at least the requested bytes, it went to
    a previously unused slot above the app-memory slots while all other slots
    stay as they were, the hardware exposes exactly its bytes, and it is
    disjoint from every logical region already stored. *)
Theorem allocate_region_exact MIN us uz mrs p c start :
  32 ≤ MIN ≤ 2 ^ 28 → 0 ≤ us → 0 ≤ uz → us + uz ≤ 2 ^ 31 → mrs ≤ 2 ^ 28 →
  (∀ r s z, r ∈ regions c → location r = Some (s, z) → s + z < usize_bound) →
  align_up_to us MIN = Ret start → start < 2 ^ 31 → start = 0 ∨ start mod 2 ^ 29 ≠ 0 →
  ∃ res c', allocate_region MIN us uz mrs p c = Ret (res, c') ∧
  match res with
  | None => c' = c
  | Some reg =>
      let s := start_address reg in
      let z := region_size reg in
      us ≤ s ∧ s + z ≤ us + uz ∧ mrs ≤ z ∧
      (∃ i r, (2 ≤ i)%nat ∧ location <$> regions c !! i = Some None ∧
         regions c' = <[i := r]> (regions c) ∧ location r = Some (s, z) ∧
         ∀ a, region_covers r a = true ↔ s ≤ a < s + z) ∧
      (∀ r' s' z', r' ∈ regions c → location r' = Some (s', z') → s' + z' ≤ s ∨ s + z ≤ s')
  end.
Proof.
  intros HMIN Hus Huz Hsum Hmrs Hfits Halign Hst Hodd. unfold allocate_region.
  destruct (any_overlaps_total (regions c) us uz) as [ov Hov]; [lia|done|].
  rewrite Hov. cbn [mbind outcome_bind].
  destruct ov; [by do 2 eexists|].
  destruct (unused_region_number c) as [num|] eqn:Hnum; [|by do 2 eexists].
  apply unused_from_spec in Hnum as (Hn1 & Hn2 & rold & Hlook & Hnone); [|lia].
  rewrite Z.sub_0_r in Hlook. unfold APP_MEMORY_REGION_MAX_NUM in Hn1.
  rewrite Halign. cbn [mbind outcome_bind].
  assert (us ≤ start) as Hge.
  { destruct (align_up_to_spec us MIN) as (y & Hy & Hr & _); [lia..|]. rewrite Halign in Hy.
    injection Hy as ->. lia. }
  set (size := if mrs <? MIN then MIN else mrs).
  assert (32 ≤ size ≤ 2 ^ 28 ∧ mrs ≤ size) as [Hsize Hms].
  { unfold size. destruct (Z.ltb_spec mrs MIN); lia. }
  destruct (choose_region_total start size) as (st & sz & rs & rz & sub & Hch & Hb & Hst' & Hsz' & Hex);
    [lia..|done|].
  rewrite Hch. cbn [mbind outcome_bind]. ustep.
  destruct (Z.ltb_spec (us + uz) (st + sz)); [by do 2 eexists|].
  destruct (exact_region_new st sz rs rz sub num p Hex) as (r & -> & Hloc & Hcov). cbn [mbind outcome_bind].
  apply lookup_lt_Some in Hlook as Hlt.
  rewrite index_set_Ret by lia. cbn [mbind outcome_bind]. do 2 eexists; split; [done|].
  cbn [Region_new start_address region_size]. split_and!; try lia.
  - exists (Z.to_nat num), r. rewrite Hlook. cbn. rewrite Hnone. split_and!; try done. lia.
  - intros r' s' z' Hin Hl. destruct (any_overlaps_false _ _ _ _ _ _ Hov Hin Hl); lia.
Qed.

(** [allocate_region] panics for a region that needs subregions and starts
    at a non-zero multiple of 2^29 (for instance 0x2000_0000, the base of SRAM
    on Cortex-M): eight subregions of 2^29 bytes do not fit in 32 bits. *)
Theorem allocate_region_panics_at_2_29 MIN us uz mrs p c num :
  is_pow2 MIN → 32 ≤ MIN ≤ 2 ^ 28 → 0 < us < usize_bound → us mod 2 ^ 29 = 0 →
  MIN ≤ mrs → 1 < count_ones mrs →
  any_overlaps (regions c) us uz = Ret false → unused_region_number c = Some num →
  allocate_region MIN us uz mrs p c = Panic.
Proof.
  intros (j & Hj & ->) HMIN Hus Hal Hge Hones Hov Hnum. unfold allocate_region.
  rewrite Hov. cbn [mbind outcome_bind]. rewrite Hnum.
  assert (us mod 2 ^ j = 0) as Hj0.
  { apply Z.mod_divide; [lia|]. apply Z.divide_trans with (2 ^ 29).
    - apply pow2_divide. split; [done|]. apply (Z.pow_le_mono_r_iff 2); lia.
    - by apply Z.mod_divide. }
  unfold align_up_to. rewrite urem_ok by lia. cbn [mbind outcome_bind]. rewrite Hj0.
  cbn [Z.eqb mbind outcome_bind].
  destruct (Z.ltb_spec mrs (2 ^ j)); [lia|].
  unfold choose_region. destruct (Z.ltb_spec 1 (count_ones mrs)); [|lia]. cbn [mbind outcome_bind].
  unfold cover_with_subregions, aligned_subregion_size.
  destruct (trailing_zeros_spec us) as (Htz0 & Hd & Hmax); [lia|].
  assert (29 ≤ trailing_zeros us) as Htz.
  { destruct (Z.le_gt_cases 29 (trailing_zeros us)); [done|]. destruct Hmax.
    apply Z.divide_trans with (2 ^ 29); [apply pow2_divide; lia|by apply Z.mod_divide]. }
  destruct (Z.ltb_spec (trailing_zeros us) 32) as [Hlt|Hlt].
  - cbn [mbind outcome_bind]. rewrite Z.shiftl_1_l. unfold umul.
    assert (2 ^ 29 ≤ 2 ^ trailing_zeros us) by (apply Z.pow_le_mono_r; lia).
    destruct (Z.ltb_spec (2 ^ trailing_zeros us * 8) usize_bound); [lia|done].
  - pose proof (trailing_zeros_bound us 32). lia.
Qed.

(** ** Writing the hardware *)

(** The base register of slot [i] selects slot [i]. *)
Definition slot_ok (i : nat) (r : CortexMRegion) : Prop :=
  Field_is_set 32 RBAR_VALID (fv_value (base_address r)) = true ∧
  Field_read 32 RBAR_REGION (fv_value (base_address r)) = Z.of_nat i.

Definition slots_ok (rs : list CortexMRegion) : Prop :=
  ∀ i r, rs !! i = Some r → slot_ok i r.

Lemma CortexMRegion_empty_slot i : (i < 16)%nat → slot_ok i (CortexMRegion_empty (Z.of_nat i)).
Proof.
  intros Hi. unfold slot_ok, CortexMRegion_empty, RBAR_VALID, RBAR_REGION. cbn [base_address].
  rewrite Field_is_set_read by fits. read_fields. split; [done|]. apply Z.mod_small. lia.
Qed.

Lemma CortexMRegion_new_slot ls lz rs rz i sub p r :
  (i < 16)%nat → CortexMRegion_new ls lz rs rz (Z.of_nat i) sub p = Ret r → slot_ok i r.
Proof.
  intros Hi. unfold CortexMRegion_new. destruct (permission_fields p) as [ac ex].
  intros (v & _ & H)%outcome_bind_Ret. apply outcome_bind_Ret in H as (at_ & _ & H).
  injection H as <-. unfold slot_ok, RBAR_VALID, RBAR_REGION. cbn [base_address].
  rewrite Field_is_set_read by fits. read_fields. split; [done|]. apply Z.mod_small. lia.
Qed.

Lemma slots_ok_insert rs i r : slots_ok rs → slot_ok i r → slots_ok (<[i := r]> rs).
Proof.
  intros Hs Hr j r' Hj. destruct (decide (i = j)) as [->|Hne].
  - apply lookup_lt_Some in Hj as Hlt. rewrite length_insert in Hlt.
    rewrite list_lookup_insert_eq in Hj by done. by injection Hj as <-.
  - rewrite list_lookup_insert_ne in Hj by done. eauto.
Qed.

(** The hardware holds exactly the registers of [rs]. *)
Definition region_regs (r : CortexMRegion) : Z * Z :=
  (fv_value (base_address r), fv_value (attributes r)).
Definition hw_matches (m : CortexMPU) (rs : list CortexMRegion) : Prop :=
  hw_regions m = region_regs <$> rs.

Lemma write_region_slot m i r :
  slot_ok i r → (i < length (hw_regions m))%nat →
  hw_regions (write_region m r) = <[i := region_regs r]> (hw_regions m) ∧
  hardware_is_configured_for (write_region m r) = hardware_is_configured_for m ∧
  config_count (write_region m r) = config_count m.
Proof.
  intros [Hv Hn] Hi. unfold write_region, write_rasr, write_rbar. cbn.
  rewrite Hv, Hn, Nat2Z.id. split_and!; [|done..].
  apply list_eq. intros j. destruct (decide (i = j)) as [->|Hne].
  - rewrite !list_lookup_alter_eq, list_lookup_insert_eq by done.
    destruct (lookup_lt_is_Some_2 (hw_regions m) j Hi) as [[x y] ->]. done.
  - by rewrite !list_lookup_alter_ne, list_lookup_insert_ne by done.
Qed.

(** Writing the slots from [n] on replaces exactly those registers. *)
Lemma write_regions_fold rs : ∀ m n,
  (∀ i r, rs !! i = Some r → slot_ok (n + i) r) →
  (n + length rs = length (hw_regions m))%nat →
  hw_regions (foldl write_region m rs) = take n (hw_regions m) ++ (region_regs <$> rs).
Proof.
  induction rs as [|r rs IH]; intros m n Hok Hlen; simpl.
  - rewrite app_nil_r, take_ge; [done|]. simpl in Hlen. lia.
  - destruct (write_region_slot m n r) as (Hw & _ & _); [|simpl in Hlen; lia|].
    { specialize (Hok 0%nat r eq_refl). by rewrite Nat.add_0_r in Hok. }
    rewrite (IH _ (S n)).
    + rewrite Hw. rewrite (take_S_r _ _ (region_regs r)).
      * rewrite take_insert_ge by lia. by rewrite <- app_assoc.
      * apply list_lookup_insert_eq. simpl in Hlen. lia.
    + intros i r' Hi. specialize (Hok (S i) r' Hi). by rewrite <- Nat.add_succ_comm in Hok.
    + rewrite Hw, length_insert. simpl in Hlen. lia.
Qed.

(** The driver's skip is sound for all processes' configurations [cs]: the one
    the hardware was last configured for, if unchanged since, is what the
    hardware holds. *)
Definition cache_inv (m : CortexMPU) (cs : list CortexMConfig) : Prop :=
  NoDup (config_id <$> cs) ∧
  ∀ c, c ∈ cs → hardware_is_configured_for m = Some (config_id c) → is_dirty c = false →
    hw_matches m (regions c).

(** [configure_mpu] always leaves the hardware holding the registers of the
    configuration it is given, whether it writes them or skips the write
    because the driver believes they are there already, and keeps the
    invariant that makes the skip sound for every process. *)
Theorem configure_mpu_installs m cs i c :
  cache_inv m cs → cs !! i = Some c →
  slots_ok (regions c) → length (hw_regions m) = length (regions c) →
  let '(m', c') := configure_mpu m c in
  hw_matches m' (regions c) ∧ regions c' = regions c ∧ config_id c' = config_id c ∧
  cache_inv m' (<[i := c']> cs).
Proof.
  intros [Hnd Hinv] Hi Hok Hlen. unfold configure_mpu.
  destruct (bool_decide (hardware_is_configured_for m = Some (config_id c))) eqn:Hb; cbn [negb orb].
  apply bool_decide_eq_true in Hb. destruct (is_dirty c) eqn:Hd; cbn [orb].
  2: { (* skipped *) split_and!; try done.
       - apply Hinv; [|done..]. by eapply list_elem_of_lookup_2.
       - by rewrite list_insert_id. }
  all: assert (hw_regions (foldl write_region m (regions c)) = region_regs <$> regions c) as Hw
    by (by rewrite (write_regions_fold _ m 0)).
  all: split_and!; try done.
  all: assert ((config_id <$> cs) !! i = Some (config_id c)) as Hid by (by rewrite list_lookup_fmap, Hi).
  all: split; [rewrite list_fmap_insert; cbn [config_id]; by rewrite list_insert_id|].
  all: intros c2 Hin Hconf _; cbn in Hconf; injection Hconf as Hconf.
  all: apply list_elem_of_lookup in Hin as (j & Hj); apply lookup_lt_Some in Hi as Hlt.
  all: destruct (decide (i = j)) as [->|Hne];
    [rewrite list_lookup_insert_eq in Hj by done; injection Hj as <-; done|].
  all: rewrite list_lookup_insert_ne in Hj by done.
  all: destruct Hne; eapply NoDup_lookup; [exact Hnd|exact Hid|by rewrite list_lookup_fmap, Hj, Hconf].
Qed.

(** Every operation keeps the slots in order. *)
Lemma reset_config_slots n c : (n ≤ 16)%nat → slots_ok (regions (reset_config n c)).
Proof.
  intros Hn i r. cbn [reset_config regions]. rewrite list_lookup_fmap, fmap_Some.
  intros (z & Hz & ->). apply lookup_seqZ in Hz as [-> Hz]. apply CortexMRegion_empty_slot. lia.
Qed.

Lemma install_app_regions_slots start size k p c c' :
  slots_ok (regions c) → install_app_regions start size k p c = Ret c' → slots_ok (regions c').
Proof.
  intros Hok. unfold install_app_regions.
  intros (l0 & _ & H)%outcome_bind_Ret. apply outcome_bind_Ret in H as (r0 & H0 & H).
  apply outcome_bind_Ret in H as (r1 & H1 & H).
  apply (CortexMRegion_new_slot _ _ _ _ 0) in H0; [|lia].
  assert (slot_ok 1 r1) as Hs1.
  { destruct (_ =? 0); [injection H1 as <-; apply (CortexMRegion_empty_slot 1); lia|].
    apply outcome_bind_Ret in H1 as (? & _ & H1). apply outcome_bind_Ret in H1 as (? & _ & H1).
    apply (CortexMRegion_new_slot _ _ _ _ 1) in H1; [done|lia]. }
  unfold index_set in H. destruct (_ && _) in H; [|done]. cbn [mbind outcome_bind] in H.
  destruct (_ && _) in H; [|done]. injection H as <-. cbn [regions].
  by apply (slots_ok_insert _ 1), Hs1; apply (slots_ok_insert _ 0).
Qed.

Lemma index_set_inv {A} (l l' : list A) i x :
  index_set l i x = Ret l' → 0 ≤ i < Z.of_nat (length l) ∧ l' = <[Z.to_nat i := x]> l.
Proof.
  unfold index_set. destruct (_ && _) eqn:Hb; [|done]. intros [= <-].
  apply andb_true_iff in Hb as [?%Z.leb_le ?%Z.ltb_lt]. done.
Qed.

Lemma install_app_regions_length start size k p c c' :
  install_app_regions start size k p c = Ret c' →
  length (regions c') = length (regions c) ∧ config_id c' = config_id c.
Proof.
  unfold install_app_regions. intros (? & _ & H)%outcome_bind_Ret.
  apply outcome_bind_Ret in H as (? & _ & H). apply outcome_bind_Ret in H as (? & _ & H).
  apply outcome_bind_Ret in H as (l1 & [_ ->]%index_set_inv & H).
  apply outcome_bind_Ret in H as (l2 & [_ ->]%index_set_inv & H).
  injection H as <-. cbn. by rewrite !length_insert.
Qed.

Lemma allocate_region_slots MIN us uz mrs p c res c' :
  (length (regions c) ≤ 16)%nat → slots_ok (regions c) →
  allocate_region MIN us uz mrs p c = Ret (res, c') →
  slots_ok (regions c') ∧ length (regions c') = length (regions c) ∧ config_id c' = config_id c.
Proof.
  intros Hlen Hok. unfold allocate_region. intros (ov & _ & H)%outcome_bind_Ret.
  destruct ov; [by injection H as <- <-|].
  destruct (unused_region_number c) as [num|] eqn:Hnum; [|by injection H as <- <-].
  apply unused_from_spec in Hnum as (_ & Hn & _); [|lia].
  apply outcome_bind_Ret in H as (start & _ & H).
  apply outcome_bind_Ret in H as ([[[[st sz] rs] rz] sub] & _ & H).
  apply outcome_bind_Ret in H as (e & _ & H). apply outcome_bind_Ret in H as (lim & _ & H).
  destruct (lim <? e); [by injection H as <- <-|].
  apply outcome_bind_Ret in H as (r & Hr & H).
  apply outcome_bind_Ret in H as (l & [Hb ->]%index_set_inv & H).
  injection H as <- <-. cbn [regions config_id]. rewrite length_insert. split_and!; try done.
  apply slots_ok_insert; [done|].
  eapply (CortexMRegion_new_slot _ _ _ _ (Z.to_nat num)); [lia|]. rewrite Z2Nat.id by lia. exact Hr.
Qed.

Lemma allocate_app_memory_region_install us uz minm app ker p c res c' :
  allocate_app_memory_region us uz minm app ker p c = Ret (res, c') →
  c' = c ∨ ∃ start size k, install_app_regions start size k p c = Ret c'.
Proof.
  unfold allocate_app_memory_region. intros (ov & _ & H)%outcome_bind_Ret.
  destruct ov; [injection H as <- <-; by left|].
  apply outcome_bind_Ret in H as (both & _ & H). apply outcome_bind_Ret in H as (po2 & _ & H).
  destruct (32 <? _); [injection H as <- <-; by left|].
  do 6 apply outcome_bind_Ret in H as (? & _ & H).
  apply outcome_bind_Ret in H as ([[st sz] k] & _ & H).
  do 2 apply outcome_bind_Ret in H as (? & _ & H).
  destruct (_ <? _); [injection H as <- <-; by left|].
  apply outcome_bind_Ret in H as (c1 & Hi & H). injection H as <- <-. right; eauto.
Qed.

Lemma update_app_memory_region_install ab kb p c res c' :
  update_app_memory_region ab kb p c = Ret (res, c') →
  c' = c ∨ ∃ start size k, install_app_regions start size k p c = Ret c'.
Proof.
  unfold update_app_memory_region. intros (r0 & _ & H)%outcome_bind_Ret.
  destruct (location r0) as [[st sz]|]; [|injection H as <- <-; by left].
  destruct (kb <? ab); [injection H as <- <-; by left|].
  do 6 apply outcome_bind_Ret in H as (? & _ & H).
  destruct (_ <? _); [injection H as <- <-; by left|].
  apply outcome_bind_Ret in H as (c1 & Hi & H). injection H as <- <-. right; eauto.
Qed.

(** One operation of the driver on a configuration. *)
Inductive config_step (MIN : Z) (c : CortexMConfig) : CortexMConfig → Prop :=
| step_reset : config_step MIN c (reset_config (length (regions c)) c)
| step_allocate us uz mrs p res c' :
    allocate_region MIN us uz mrs p c = Ret (res, c') → config_step MIN c c'
| step_remove r res c' : remove_memory_region r c = (res, c') → config_step MIN c c'
| step_allocate_app us uz minm app ker p res c' :
    allocate_app_memory_region us uz minm app ker p c = Ret (res, c') → config_step MIN c c'
| step_update ab kb p res c' :
    update_app_memory_region ab kb p c = Ret (res, c') → config_step MIN c c'
| step_configure m m' c' : configure_mpu m c = (m', c') → config_step MIN c c'.

Definition config_wf (n : nat) (id : Z) (c : CortexMConfig) : Prop :=
  slots_ok (regions c) ∧ length (regions c) = n ∧ config_id c = id.

Lemma config_step_wf MIN n id c c' :
  (n ≤ 16)%nat → config_step MIN c c' → config_wf n id c → config_wf n id c'.
Proof.
  intros Hn Hstep (Hok & Hlen & Hid).
  assert (∀ start size k p c1, install_app_regions start size k p c = Ret c1 → config_wf n id c1) as Hinst.
  { intros * Hi. pose proof (install_app_regions_length _ _ _ _ _ _ Hi) as [? ?].
    split; [by eapply install_app_regions_slots|]. split; congruence. }
  destruct Hstep as [|us uz mrs p res c' H|r res c' H|us uz minm app ker p res c' H|ab kb p res c' H|m m' c' H].
  - split; [apply reset_config_slots; lia|]. cbn. rewrite length_fmap, length_seqZ. split; [lia|done].
  - eapply allocate_region_slots in H as (? & ? & ?); [|lia|done]. split_and!; [done|lia|congruence].
  - unfold remove_memory_region in H. case_match; [|by injection H as <- <-].
    destruct p as [idx r']. case_match; [by injection H as <- <-|]. injection H as <- <-.
    split_and!; [|cbn; by rewrite length_insert|done]. cbn [regions].
    destruct (decide (idx < length (regions c))%nat).
    + apply slots_ok_insert; [done|]. apply CortexMRegion_empty_slot. lia.
    + by rewrite list_insert_ge by lia.
  - apply allocate_app_memory_region_install in H as [->|(? & ? & ? & H)]; [done|eauto].
  - apply update_app_memory_region_install in H as [->|(? & ? & ? & H)]; [done|eauto].
  - unfold configure_mpu in H. case_match; injection H as <- <-; done.
Qed.

(** Along every sequence of driver operations on a configuration made by
    [new_config], slot [i] keeps a base register that selects region [i], so
    [configure_mpu] writes each region to its own slot; the configuration
    also keeps its length and its identifier. *)
Theorem config_reachable_wf MIN n m c0 m' c :
  (n ≤ 16)%nat → new_config n m = (Some c0, m') → rtc (config_step MIN) c0 c →
  config_wf n (config_count m) c.
Proof.
  intros Hn Hnew Hsteps.
  assert (config_wf n (config_count m) c0) as H0.
  { unfold new_config in Hnew. case_match; [|done]. injection Hnew as <- _.
    split; [by apply reset_config_slots|]. cbn. rewrite length_fmap, length_seqZ. split; [lia|done]. }
  clear Hnew. induction Hsteps as [|c1 c2 c3 Hstep _ IH]; [done|]. apply IH. by eapply config_step_wf.
Qed.

(** ** Witnesses *)

(** An MPU with eight regions, and the configuration of its first process. *)
Definition ex_mpu : CortexMPU :=
  {| hw_ctrl := 0; hw_rnr := 0; hw_regions := replicate 8 (0, 0);
     config_count := 1; hardware_is_configured_for := None |}.
Definition ex_config : CortexMConfig :=
  reset_config 8 {| config_id := 1; regions := []; is_dirty := true |}.

(** A 4 KiB app block at 0x2000_4000 with one eighth enabled. *)
Definition ex_app_config : CortexMConfig :=
  match allocate_app_memory_region 536887296 65536 4096 32 1000 ReadWriteOnly ex_config with
  | Ret (_, c) => c
  | Panic => ex_config
  end.

Lemma ex_app_block : app_block ex_app_config 536887296 11.
Proof.
  split; [|vm_compute; repeat split; congruence].
  vm_compute. do 3 eexists. split; reflexivity.
Defined.

Lemma update_app_memory_region_isolates_witness :
  ∃ c', update_app_memory_region 536887796 536890000 ReadWriteOnly ex_app_config = Ret (Ok tt, c') ∧
    app_covers c' 536887795 = true ∧ app_covers c' 536890000 = false.
Proof.
  destruct (update_app_memory_region_isolates ex_app_config 536887296 11 536887796 536890000 ReadWriteOnly
              ex_app_block) as [[H _]|(_ & c' & Hc & _ & _ & _ & _ & Hin & Hout & _)];
    [lia|lia|lia|exfalso; vm_compute in H; discriminate|].
  exists c'. split; [exact Hc|]. split; [apply Hin; lia|apply Hout; lia].
Defined.

Lemma update_app_memory_region_empty_panics_witness :
  update_app_memory_region 536887296 536890000 ReadWriteOnly ex_app_config = Panic.
Proof.
  apply (update_app_memory_region_empty_panics ex_app_config 536887296 11);
    [exact ex_app_block|lia|lia].
Defined.

Lemma allocate_app_memory_region_isolates_witness :
  ∃ start c', allocate_app_memory_region 536887296 65536 4096 32 1000 ReadWriteOnly ex_config
                = Ret (Some (start, 4096), c') ∧
    app_covers c' (start + 31) = true ∧ app_covers c' (start + 3096) = false.
Proof.
  destruct (allocate_app_memory_region_isolates ex_config 536887296 65536 4096 32 1000 ReadWriteOnly)
    as [[H _]|(start & c' & Hr & _ & _ & _ & _ & _ & Hin & Hout & _)].
  - repeat split; vm_compute; (reflexivity || lia || congruence).
  - vm_compute. congruence.
  - exfalso. vm_compute in H. discriminate.
  - exists start, c'. split; [exact Hr|]. split; [apply Hin; lia|].
    apply Hout. change (2 ^ block_log (Z.max 4096 (32 + 1000))) with 4096. lia.
Defined.

Lemma allocate_app_memory_region_grow_exposes_kernel_witness :
  ∃ c', allocate_app_memory_region 536887296 65536 1012 32 980 ReadWriteOnly ex_config
                = Ret (Some (536887296, 1024), c') ∧
    app_covers c' (536887296 + 1024 - 980) = true.
Proof.
  eexists. split; [vm_compute; reflexivity|].
  apply (allocate_app_memory_region_grow_exposes_kernel ex_config 536887296 65536 1012 32 980 ReadWriteOnly).
  - repeat split; vm_compute; (reflexivity || lia || congruence).
  - vm_compute. congruence.
  - vm_compute. reflexivity.
Defined.

Lemma ex_config_locations r s z :
  r ∈ regions ex_config → location r = Some (s, z) → s + z < usize_bound.
Proof.
  intros Hin Hl. exfalso. apply list_elem_of_fmap in Hin as (i & -> & _). discriminate Hl.
Defined.

Lemma allocate_region_exact_witness :
  ∃ res c', allocate_region 32 196608 131072 131072 ReadExecuteOnly ex_config = Ret (res, c') ∧
    res = Some (Region_new 196608 131072).
Proof.
  destruct (allocate_region_exact 32 196608 131072 131072 ReadExecuteOnly ex_config 196608)
    as (res & c' & H & _);
    [lia|lia|lia|lia|lia|exact ex_config_locations|reflexivity|lia|right; discriminate|].
  exists res, c'. split; [exact H|]. vm_compute in H. injection H as <- _. reflexivity.
Defined.

Lemma allocate_region_panics_at_2_29_witness :
  allocate_region 32 536870912 65536 24576 ReadWriteOnly ex_config = Panic.
Proof.
  apply (allocate_region_panics_at_2_29 32 536870912 65536 24576 ReadWriteOnly ex_config 2);
    try lia; try (vm_compute; reflexivity).
  exists 5. vm_compute. split; congruence.
Defined.

Lemma configure_mpu_installs_witness :
  hw_matches (fst (configure_mpu ex_mpu ex_config)) (regions ex_config).
Proof.
  destruct (configure_mpu_installs ex_mpu [ex_config] 0 ex_config) as [H _]; [| | | |exact H].
  - split; [apply NoDup_singleton|]. intros c _ H _. discriminate H.
  - reflexivity.
  - apply reset_config_slots. lia.
  - reflexivity.
Defined.

Lemma config_reachable_wf_witness : config_wf 8 1 ex_app_config.
Proof.
  apply (config_reachable_wf 32 8 ex_mpu ex_config
           (snd (new_config 8 ex_mpu)) ex_app_config); [lia|reflexivity|].
  apply rtc_once. eapply (step_allocate_app _ _ 536887296 65536 4096 32 1000 ReadWriteOnly).
  vm_compute. reflexivity.
Defined.
