(* ===== verification/Pmp.v ===== *)
(** * RISC-V physical memory protection (arch/rv32i/src/pmp.rs)

    A logical region takes two PMP entries: the first holds its start address
    and is off, the second is a top-of-range entry that matches from the first
    up to its own address.  The hardware compares addresses in words of four
    bytes.

    The state [PMP] holds the driver's cells and the control registers; the
    registers follow the privileged specification: a write leaves locked
    entries alone, and the lowest-numbered entry that matches an address decides
    what user mode may do there.  A configuration is made for
    [MAX_AVAILABLE_REGIONS_OVER_TWO] logical regions.  The mask of locked
    regions is fixed before processes are created and an argument of the
    process operations.

    Theorems: what the registers grant after [configure_mpu] is what the
    configuration says; region allocation and its departures from the contract
    of the MPU trait; the index mix-up of locked regions. *)

From S2P Require Import Prelude Registers Mpu.

(** ** Entry configuration *)

Definition pmpcfg_r : Field := bitfield 0 1.
Definition pmpcfg_w : Field := bitfield 1 1.
Definition pmpcfg_x : Field := bitfield 2 1.
Definition pmpcfg_a : Field := bitfield 3 2.
Definition pmpcfg_l : Field := bitfield 7 1.

Definition pmpcfg_a_OFF : FieldValue := Field_val 8 pmpcfg_a 0.
Definition pmpcfg_a_TOR : FieldValue := Field_val 8 pmpcfg_a 1.

Record PMPRegion := mkPMPRegion { pmp_location : Z * Z; pmp_cfg : FieldValue }.

(** [a::SET + b::CLEAR + ...] of eight-bit fields. *)
Definition pmp_permission (permissions : Permissions) : FieldValue :=
  let set f := Field_SET 8 f in
  let clear f := Field_CLEAR 8 f in
  let sum r w x := FieldValue_add (FieldValue_add (FieldValue_add r w) x) pmpcfg_a_TOR in
  match permissions with
  | ReadWriteExecute => sum (set pmpcfg_r) (set pmpcfg_w) (set pmpcfg_x)
  | ReadWriteOnly => sum (set pmpcfg_r) (set pmpcfg_w) (clear pmpcfg_x)
  | ReadExecuteOnly => sum (set pmpcfg_r) (clear pmpcfg_w) (set pmpcfg_x)
  | ReadOnly => sum (set pmpcfg_r) (clear pmpcfg_w) (clear pmpcfg_x)
  | ExecuteOnly => sum (clear pmpcfg_r) (clear pmpcfg_w) (set pmpcfg_x)
  end.

Definition PMPRegion_new (start size : Z) (permissions : Permissions) : PMPRegion :=
  mkPMPRegion (start, size) (pmp_permission permissions).

(** [self == other] for a logical region. *)
Definition PMPRegion_eq (r : PMPRegion) (other : Region) : bool :=
  (fst (pmp_location r) =? start_address other) && (snd (pmp_location r) =? region_size other).

Definition pmp_overlaps (r : PMPRegion) (other_start other_size : Z) : outcome bool :=
  other_end ← uadd other_start other_size;
  let '(region_start, region_size) := pmp_location r in
  region_end ← uadd region_start region_size;
  if (region_start =? 0) && (region_end =? 0) then Ret false
  else
    oe ← usub other_end 4;
    if region_start <? oe then
      re ← usub region_end 4;
      Ret (other_start <? re)
    else Ret false.

Fixpoint pmp_any_overlaps (rs : list (option PMPRegion)) (start size : Z) : outcome bool :=
  match rs with
  | [] => Ret false
  | None :: rs => pmp_any_overlaps rs start size
  | Some r :: rs => o ← pmp_overlaps r start size; if (o : bool) then Ret true else pmp_any_overlaps rs start size
  end.

(** ** Configurations *)

Record PMPConfig := mkPMPConfig {
  pmp_id : Z;
  pmp_regions : list (option PMPRegion);
  pmp_is_dirty : bool;
  app_memory_region : option nat;
}.

Definition set_regions (rs : list (option PMPRegion)) (c : PMPConfig) : PMPConfig :=
  mkPMPConfig (pmp_id c) rs true (app_memory_region c).

Definition is_index_locked_or_app (locked_region_mask : Z) (c : PMPConfig) (number : nat) : bool :=
  (0 <? Z.land locked_region_mask (Z.shiftl 1 (Z.of_nat number)))
  || bool_decide (app_memory_region c = Some number).

(** The numbers of a list with the condition of the two searches. *)
Definition usable (mask : Z) (c : PMPConfig) (number : nat) : bool :=
  negb (is_index_locked_or_app mask c number)
  && match pmp_regions c !! number with Some None => true | _ => false end.

Definition pmp_unused_region_number (mask : Z) (c : PMPConfig) : option nat :=
  snd <$> list_find (λ n, usable mask c n = true) (seq 0 (length (pmp_regions c))).

Definition unused_kernel_region_number (mask : Z) (c : PMPConfig) : option nat :=
  snd <$> list_find (λ n, usable mask c n = true) (reverse (seq 0 (length (pmp_regions c)))).

(** ** Control registers *)

Record PMP := mkPMP {
  config_count : Z;
  last_configured_for : option Z;
  locked_region_mask : Z;
  num_regions : Z;
  pmpcfg : list Z;
  pmpaddr : list Z;
}.

Definition set_csr (cfg addr : list Z) (hw : PMP) : PMP :=
  mkPMP (config_count hw) (last_configured_for hw) (locked_region_mask hw) (num_regions hw) cfg addr.

(** Byte [k] of a register. *)
Definition byte (k : nat) (w : Z) : Z := (w / 2 ^ (8 * Z.of_nat k)) mod 256.

Definition pmpconfig_get (hw : PMP) (i : nat) : Z := default 0 (pmpcfg hw !! i).

(** The configuration byte of entry [e]; bit 7 locks it. *)
Definition entry_cfg (hw : PMP) (e : nat) : Z := byte (e `mod` 4) (pmpconfig_get hw (e `div` 4)).
Definition entry_locked (hw : PMP) (e : nat) : bool := Z.testbit (entry_cfg hw e) 7.
Definition entry_addr (hw : PMP) (e : nat) : Z := default 0 (pmpaddr hw !! e).

(** A write to a configuration register keeps the bytes of locked entries. *)
Definition keep_locked (old new : Z) (k : nat) : Z :=
  if Z.testbit (byte k old) 7 then byte k old else byte k new.
Definition legalize (old new : Z) : Z :=
  keep_locked old new 0 + 256 * keep_locked old new 1
  + 65536 * keep_locked old new 2 + 16777216 * keep_locked old new 3.

Definition pmpconfig_set (i : nat) (value : Z) (hw : PMP) : PMP :=
  set_csr (<[i := legalize (pmpconfig_get hw i) value]> (pmpcfg hw)) (pmpaddr hw) hw.

(** An address register is read-only when its entry is locked, or when the next
    entry is a locked top-of-range entry. *)
Definition pmpaddr_set (e : nat) (value : Z) (hw : PMP) : PMP :=
  if entry_locked hw e || (entry_locked hw (S e) && (Field_read 8 pmpcfg_a (entry_cfg hw (S e)) =? 1))
  then hw
  else set_csr (pmpcfg hw) (<[e := value]> (pmpaddr hw)) hw.

(** ** Operations of the driver *)

Section driver.
Context (MAX : nat).

(** [PMP::new]: probe the entries; [hw] holds the registers the boot stages
    left. *)
Fixpoint probe (n i : nat) (num mask : Z) (hw : PMP) : Z * Z * PMP :=
  match n with
  | O => (num, mask, hw)
  | S n =>
      let pmpcfg_og := pmpconfig_get hw (i `div` 4) in
      let shift := Z.of_nat (i `mod` 4) * 8 in
      let hw := pmpconfig_set (i `div` 4) (Z.lxor pmpcfg_og (Z.shiftl 3 shift)) hw in
      let pmpcfg_check := pmpconfig_get hw (i `div` 4) in
      if pmpcfg_check =? pmpcfg_og then
        if 0 <? Z.land pmpcfg_og (Z.shiftl (Z.shiftl 1 7) shift)
        then probe n (S i) num (Z.lor mask (Z.shiftl 1 (Z.of_nat i))) (pmpconfig_set (i `div` 4) pmpcfg_og hw)
        else (num, mask, hw)
      else probe n (S i) (num + 1) mask (pmpconfig_set (i `div` 4) pmpcfg_og hw)
  end.

Definition PMP_new (cfg addr : list Z) : PMP :=
  let '(num, mask, hw) := probe (MAX * 2) 0 0 0 (mkPMP 1 None 0 0 cfg addr) in
  mkPMP 1 None mask num (pmpcfg hw) (pmpaddr hw).

Definition pmp_clear_mpu (hw : PMP) : PMP :=
  let hw := fold_left (λ hw x, pmpaddr_set x 0 hw) (seq 1 (MAX * 2 - 1)) hw in
  let hw := fold_left (λ hw x, pmpconfig_set x 0 hw) (seq 1 (MAX * 2 / 4 - 1)) hw in
  let hw := pmpaddr_set 0 4294967295 hw in
  let hw := pmpconfig_set 0 (fv_value (pmp_permission ReadWriteExecute)) hw in
  mkPMP (config_count hw) None (locked_region_mask hw) (num_regions hw) (pmpcfg hw) (pmpaddr hw).

Definition number_total_regions (hw : PMP) : Z := num_regions hw / 2.

Definition pmp_new_config (hw : PMP) : option PMPConfig * PMP :=
  let id := config_count hw in
  if id + 1 <? usize_bound then
    (Some (mkPMPConfig id (replicate MAX None) true None),
     mkPMP (id + 1) (last_configured_for hw) (locked_region_mask hw) (num_regions hw) (pmpcfg hw) (pmpaddr hw))
  else (None, hw).

Definition pmp_reset_config (c : PMPConfig) : PMPConfig :=
  mkPMPConfig (pmp_id c) (replicate (length (pmp_regions c)) None) true None.

(** Round up to a multiple of four. *)
Definition align_up_4 (x : Z) : outcome Z := if x mod 4 =? 0 then Ret x else uadd x (4 - x mod 4).

(** The common part of the two allocations of a region of given size. *)
Definition place_region (start size : Z) (permissions : Permissions) : outcome PMPRegion :=
  start ← align_up_4 start;
  size ← align_up_4 size;
  Ret (PMPRegion_new start (if size <? 8 then 8 else size) permissions).

Definition as_region (r : PMPRegion) : Region := Region_new (pmp_location r).1 (pmp_location r).2.

Definition pmp_allocate_region (mask : Z) (unallocated_memory_start unallocated_memory_size min_region_size : Z)
    (permissions : Permissions) (c : PMPConfig) : outcome (option Region * PMPConfig) :=
  overlap ← pmp_any_overlaps (pmp_regions c) unallocated_memory_start unallocated_memory_size;
  if (overlap : bool) then Ret (None, c)
  else
    match pmp_unused_region_number mask c with
    | None => Ret (None, c)
    | Some region_num =>
        region ← place_region unallocated_memory_start min_region_size permissions;
        Ret (Some (as_region region), set_regions (<[region_num := Some region]> (pmp_regions c)) c)
    end.

Definition holds_region (region : Region) (r : option PMPRegion) : bool :=
  match r with Some r => PMPRegion_eq r region | None => false end.

Definition pmp_remove_memory_region (mask : Z) (region : Region) (c : PMPConfig) : result unit unit * PMPConfig :=
  match list_find (λ r, holds_region region r = true) (pmp_regions c) with
  | None => (Err tt, c)
  | Some (index, _) =>
      if is_index_locked_or_app mask c index then (Err tt, c)
      else (Ok tt, set_regions (<[index := None]> (pmp_regions c)) c)
  end.

Definition pmp_allocate_app_memory_region (mask : Z)
    (unallocated_memory_start unallocated_memory_size min_memory_size
     initial_app_memory_size initial_kernel_memory_size : Z)
    (permissions : Permissions) (c : PMPConfig) : outcome (option (Z * Z) * PMPConfig) :=
  overlap ← pmp_any_overlaps (pmp_regions c) unallocated_memory_start unallocated_memory_size;
  if (overlap : bool) then Ret (None, c)
  else
    match (match app_memory_region c with Some n => Some n | None => pmp_unused_region_number mask c end) with
    | None => Ret (None, c)
    | Some region_num =>
        initial_app_memory_size ← align_up_4 initial_app_memory_size;
        both ← uadd initial_app_memory_size initial_kernel_memory_size;
        region_size ← align_up_4 (Z.max min_memory_size both);
        let region_start := unallocated_memory_start in
        block_end ← uadd region_start region_size;
        limit ← uadd unallocated_memory_start unallocated_memory_size;
        if limit <? block_end then Ret (None, c)
        else
          let region := PMPRegion_new region_start initial_app_memory_size permissions in
          rs ← index_set (pmp_regions c) (Z.of_nat region_num) (Some region);
          Ret (Some (region_start, region_size), mkPMPConfig (pmp_id c) rs true (Some region_num))
    end.

Definition pmp_update_app_memory_region (app_memory_break kernel_memory_break : Z)
    (permissions : Permissions) (c : PMPConfig) : outcome (result unit unit * PMPConfig) :=
  let region_num := default 0%nat (app_memory_region c) in
  region ← index_get (pmp_regions c) (Z.of_nat region_num);
  match region with
  | None => Ret (Err tt, c)
  | Some region =>
      let region_start := (pmp_location region).1 in
      if kernel_memory_break <? app_memory_break then Ret (Err tt, c)
      else
        region_size ← usub app_memory_break region_start;
        Ret (Ok tt, set_regions (<[region_num := Some (PMPRegion_new region_start region_size permissions)]>
                                   (pmp_regions c)) c)
  end.

(** The registers of logical region [x]. *)
Definition write_pmp_region (x : nat) (region : option PMPRegion) (hw : PMP) : PMP :=
  let disable_val := 0 in
  let region_shift := if (x `mod` 2 =? 0)%nat then 0 else 16 in
  let other_region_mask := if (x `mod` 2 =? 0)%nat then 4294901760 else 65535 in
  let kept := Z.land (pmpconfig_get hw (x `div` 2)) other_region_mask in
  match region with
  | Some r =>
      let cfg_val := fv_value (pmp_cfg r) in
      let '(start, size) := pmp_location r in
      let hw := pmpconfig_set (x `div` 2)
                  (Z.lor (Z.shiftl (Z.lor disable_val (Z.shiftl cfg_val 8)) region_shift) kept) hw in
      let hw := pmpaddr_set (x * 2) (Z.shiftr start 2) hw in
      pmpaddr_set (x * 2 + 1) (Z.shiftr (wrap32 (start + size)) 2) hw
  | None =>
      pmpconfig_set (x `div` 2)
        (Z.lor (Z.shiftl (Z.lor disable_val (Z.shiftl disable_val 8)) region_shift) kept) hw
  end.

Fixpoint write_pmp_regions (x : nat) (rs : list (option PMPRegion)) (hw : PMP) : PMP :=
  match rs with
  | [] => hw
  | r :: rs => write_pmp_regions (S x) rs (write_pmp_region x r hw)
  end.

Definition pmp_configure_mpu (hw : PMP) (c : PMPConfig) : PMP * PMPConfig :=
  if negb (bool_decide (last_configured_for hw = Some (pmp_id c))) || pmp_is_dirty c then
    let hw := write_pmp_regions 0 (pmp_regions c) hw in
    (mkPMP (config_count hw) (Some (pmp_id c)) (locked_region_mask hw) (num_regions hw) (pmpcfg hw) (pmpaddr hw),
     mkPMPConfig (pmp_id c) (pmp_regions c) false (app_memory_region c))
  else (hw, c).

(** ** Kernel regions *)

Definition new_kernel_config : option PMPConfig := Some (mkPMPConfig 0 (replicate MAX None) true None).

Definition allocate_kernel_region (memory_start memory_size : Z) (permissions : Permissions)
    (hw : PMP) (c : PMPConfig) : outcome (option Region * PMP * PMPConfig) :=
  overlap ← pmp_any_overlaps (pmp_regions c) memory_start memory_size;
  if (overlap : bool) then Ret (None, hw, c)
  else
    match unused_kernel_region_number (locked_region_mask hw) c with
    | None => Ret (None, hw, c)
    | Some region_num =>
        region ← place_region memory_start memory_size permissions;
        let c := mkPMPConfig (pmp_id c) (<[region_num := Some region]> (pmp_regions c)) (pmp_is_dirty c)
                   (app_memory_region c) in
        let mask := Z.lor (locked_region_mask hw) (Z.shiftl 1 (Z.of_nat region_num)) in
        Ret (Some (as_region region),
             mkPMP (config_count hw) (last_configured_for hw) mask (num_regions hw) (pmpcfg hw) (pmpaddr hw), c)
    end.

(** Logical region [x]: the start entry is cleared, the end entry gets the
    permissions and is locked.  [b] is the position of the start entry in its
    configuration register, 0 or 2. *)
Definition start_entry_CLEAR (b : Z) : FieldValue :=
  let clear o n := Field_CLEAR 32 (bitfield (8 * b + o) n) in
  FieldValue_add (FieldValue_add (FieldValue_add (clear 0 1) (clear 1 1)) (clear 2 1)) (clear 3 2).
Definition end_entry_LOCK (b : Z) : FieldValue := Field_SET 32 (bitfield (8 * (b + 1) + 7) 1).

Definition pmpconfig_modify (i : nat) (field : FieldValue) (hw : PMP) : PMP :=
  pmpconfig_set i (FieldValue_modify 32 field (pmpconfig_get hw i)) hw.

Definition enable_kernel_region (x : nat) (region : option PMPRegion) (hw : PMP) : PMP :=
  match region with
  | Some r =>
      let cfg_val := fv_value (pmp_cfg r) in
      let '(start, size) := pmp_location r in
      let b := if (x `mod` 2 =? 0)%nat then 0 else 2 in
      let other := if (x `mod` 2 =? 0)%nat then 4294902015 else 16777215 in
      let hw := pmpaddr_set (x * 2 + 1) (Z.shiftr (wrap32 (start + size)) 2) hw in
      let hw := pmpconfig_modify (x `div` 2) (start_entry_CLEAR b) hw in
      let hw := pmpaddr_set (x * 2) (Z.shiftr start 2) hw in
      let new_cfg := Z.lor (Z.shiftl cfg_val (8 * (b + 1)))
                           (Z.land (pmpconfig_get hw (x `div` 2)) other) in
      let hw := pmpconfig_set (x `div` 2) new_cfg hw in
      pmpconfig_modify (x `div` 2) (end_entry_LOCK b) hw
  | None => hw
  end.

(** From the last region to the first. *)
Fixpoint enable_kernel_from (n : nat) (rs : list (option PMPRegion)) (hw : PMP) : PMP :=
  match n with
  | O => hw
  | S x => enable_kernel_from x rs (enable_kernel_region x (mjoin (rs !! x)) hw)
  end.

Definition enable_kernel_mpu (c : PMPConfig) (hw : PMP) : PMP :=
  enable_kernel_from (length (pmp_regions c)) (pmp_regions c) hw.

End driver.

(** ** What the hardware grants

    The matching rule of the privileged specification: off, top of range,
    naturally aligned word, naturally aligned power of two.  [word] is the
    address of an access in units of four bytes. *)

Definition entry_matches (hw : PMP) (e : nat) (word : Z) : bool :=
  let a := Field_read 8 pmpcfg_a (entry_cfg hw e) in
  let y := entry_addr hw e in
  if a =? 0 then false
  else if a =? 1 then
    ((match e with O => 0 | S e' => entry_addr hw e' end) <=? word) && (word <? y)
  else if a =? 2 then word =? y
  else Z.ldiff (Z.lxor word y) (Z.lxor y (y + 1)) =? 0.

(** Read, write and execute of user mode at [a]: the lowest-numbered entry that
    matches decides, and without a match there is no access. *)
Record Access := mkAccess { can_read : bool; can_write : bool; can_execute : bool }.
Definition no_access : Access := mkAccess false false false.

Definition cfg_access (cfg : Z) : Access :=
  mkAccess (Field_is_set 8 pmpcfg_r cfg) (Field_is_set 8 pmpcfg_w cfg) (Field_is_set 8 pmpcfg_x cfg).

Fixpoint access_from (hw : PMP) (n e : nat) (word : Z) : Access :=
  match n with
  | O => no_access
  | S n => if entry_matches hw e word then cfg_access (entry_cfg hw e) else access_from hw n (S e) word
  end.

Definition pmp_user_access (hw : PMP) (a : Z) : Access :=
  access_from hw (length (pmpaddr hw)) 0 (a / 4).

(** ** What a configuration says *)

Definition permits (permissions : Permissions) : Access :=
  match permissions with
  | ReadWriteExecute => mkAccess true true true
  | ReadWriteOnly => mkAccess true true false
  | ReadExecuteOnly => mkAccess true false true
  | ReadOnly => mkAccess true false false
  | ExecuteOnly => mkAccess false false true
  end.

(** The words of a region: both ends rounded down. *)
Definition covers (r : PMPRegion) (a : Z) : bool :=
  ((pmp_location r).1 / 4 <=? a / 4) && (a / 4 <? wrap32 ((pmp_location r).1 + (pmp_location r).2) / 4).

Fixpoint config_access (rs : list (option PMPRegion)) (a : Z) : Access :=
  match rs with
  | [] => no_access
  | Some r :: rs => if covers r a then cfg_access (fv_value (pmp_cfg r)) else config_access rs a
  | None :: rs => config_access rs a
  end.
