(* ===== verification/PmpTheorems.v ===== *)
(** * Properties of the PMP driver

    The registers after [configure_mpu] grant what the configuration says;
    kernel regions survive the configuration of processes; what probing finds;
    region allocation and where it departs from the contract of the MPU trait. *)

From Stdlib Require Import ZifyNat.
From S2P Require Import Prelude Registers Mpu Pmp.

(** ** Bytes of a register *)

Lemma byte_spec k w i :
  0 ≤ i → Z.testbit (byte k w) i = (i <? 8) && Z.testbit w (i + 8 * Z.of_nat k).
Proof.
  intros Hi. unfold byte. change 256 with (2 ^ 8).
  rewrite <- Z.land_ones, Z.land_spec, Z.testbit_ones_nonneg, Z.div_pow2_bits by lia. apply andb_comm.
Qed.

Lemma byte_range k w : 0 ≤ byte k w < 256.
Proof. apply Z.mod_pos_bound. lia. Qed.

Lemma byte_lor k a b : byte k (Z.lor a b) = Z.lor (byte k a) (byte k b).
Proof.
  apply Z.bits_inj'. intros i Hi. rewrite Z.lor_spec, !byte_spec, Z.lor_spec by done.
  apply andb_orb_distrib_r.
Qed.

Lemma byte_land k a b : byte k (Z.land a b) = Z.land (byte k a) (byte k b).
Proof.
  apply Z.bits_inj'. intros i Hi. rewrite Z.land_spec, !byte_spec, Z.land_spec by done.
  by destruct (i <? 8), (Z.testbit a _), (Z.testbit b _).
Qed.

Lemma byte_lxor k a b : byte k (Z.lxor a b) = Z.lxor (byte k a) (byte k b).
Proof.
  apply Z.bits_inj'. intros i Hi. rewrite Z.lxor_spec, !byte_spec, Z.lxor_spec by done.
  by destruct (i <? 8), (Z.testbit a _), (Z.testbit b _).
Qed.

(** A byte shifted into position [j]. *)
Lemma byte_shiftl k j v :
  0 ≤ v < 256 → byte k (Z.shiftl v (8 * Z.of_nat j)) = if (k =? j)%nat then v else 0.
Proof.
  intros Hv. assert (Hhigh : ∀ i, 8 ≤ i → Z.testbit v i = false).
  { intros i Hi. destruct (Z.eq_dec v 0) as [->|]; [apply Z.bits_0|]. apply Z.bits_above_log2; [lia|].
    assert (Z.log2 v < 8) by (apply Z.log2_lt_pow2; lia). lia. }
  apply Z.bits_inj'. intros i Hi. rewrite byte_spec, Z.shiftl_spec by lia.
  destruct (Nat.eqb_spec k j) as [->|Hne].
  - replace (i + 8 * Z.of_nat j - 8 * Z.of_nat j) with i by lia.
    destruct (Z.ltb_spec i 8); [done|]. by rewrite Hhigh.
  - rewrite Z.bits_0. destruct (Z.ltb_spec i 8); [|done]. cbn [andb].
    destruct (Nat.lt_ge_cases j k); [apply Hhigh; lia|apply Z.testbit_neg_r; lia].
Qed.

Definition word_ok (w : Z) : Prop := 0 ≤ w < 2 ^ 32.

Lemma word_bytes w :
  word_ok w → w = byte 0 w + 256 * byte 1 w + 65536 * byte 2 w + 16777216 * byte 3 w.
Proof.
  intros Hw. unfold word_ok, byte in *.
  change (2 ^ (8 * Z.of_nat 0)) with 1. change (2 ^ (8 * Z.of_nat 1)) with 256.
  change (2 ^ (8 * Z.of_nat 2)) with (256 * 256). change (2 ^ (8 * Z.of_nat 3)) with (256 * 256 * 256).
  rewrite Z.div_1_r, <- !Z.div_div by lia. set (q1 := w / 256). set (q2 := q1 / 256).
  pose proof (Z.div_mod w 256). pose proof (Z.div_mod q1 256). pose proof (Z.div_mod q2 256).
  assert (q2 / 256 < 256) by (unfold q2, q1; rewrite !Z.div_div by lia; apply Z.div_lt_upper_bound; lia).
  assert (0 ≤ q2 / 256) by (unfold q2, q1; rewrite !Z.div_div by lia; apply Z.div_pos; lia).
  rewrite (Z.mod_small (q2 / 256)) by lia. lia.
Qed.

Lemma word_ext v w : word_ok v → word_ok w → (∀ k, (k < 4)%nat → byte k v = byte k w) → v = w.
Proof. intros Hv Hw H. rewrite (word_bytes v Hv), (word_bytes w Hw), !H by lia. done. Qed.

Lemma byte_cons b q k :
  0 ≤ b < 256 → byte k (b + 256 * q) = match k with O => b | S k => byte k q end.
Proof.
  intros Hb. unfold byte. rewrite (Z.mul_comm 256). destruct k as [|k].
  - change (2 ^ (8 * Z.of_nat 0)) with 1. rewrite Z.div_1_r, Z.mod_add by lia.
    by apply Z.mod_small.
  - replace (8 * Z.of_nat (S k)) with (8 + 8 * Z.of_nat k) by lia. rewrite Z.pow_add_r by lia.
    rewrite <- Z.div_div by lia. change (2 ^ 8) with 256. do 2 f_equal.
    rewrite Z.div_add, (Z.div_small b) by lia. lia.
Qed.

Lemma keep_locked_range old new k : 0 ≤ keep_locked old new k < 256.
Proof. unfold keep_locked. case_match; apply byte_range. Qed.

Lemma legalize_byte old new k : (k < 4)%nat → byte k (legalize old new) = keep_locked old new k.
Proof.
  intros Hk. pose proof (keep_locked_range old new) as H. unfold legalize.
  set (b := keep_locked old new) in *.
  replace (b 0%nat + 256 * b 1%nat + 65536 * b 2%nat + 16777216 * b 3%nat)
    with (b 0%nat + 256 * (b 1%nat + 256 * (b 2%nat + 256 * (b 3%nat + 256 * 0)))) by lia.
  destruct k as [|[|[|[|]]]]; [..|lia]; by rewrite !byte_cons by apply H.
Qed.

Lemma legalize_ok old new : word_ok (legalize old new).
Proof.
  pose proof (keep_locked_range old new) as H. unfold word_ok, legalize.
  pose proof (H 0%nat). pose proof (H 1%nat). pose proof (H 2%nat). pose proof (H 3%nat). lia.
Qed.

(** ** Entries *)

Lemma entry_cfg_set i v hw e :
  entry_cfg (pmpconfig_set i v hw) e =
    if bool_decide (e `div` 4 = i ∧ (i < length (pmpcfg hw)))%nat
    then keep_locked (pmpconfig_get hw i) v (e `mod` 4) else entry_cfg hw e.
Proof.
  unfold entry_cfg at 1, pmpconfig_get at 1, pmpconfig_set. cbn [set_csr pmpcfg].
  assert (e `mod` 4 < 4)%nat by (apply Nat.mod_upper_bound; lia).
  case_bool_decide as Hd.
  - destruct Hd as [-> Hl]. rewrite list_lookup_insert_eq by done. by apply legalize_byte.
  - destruct (decide (e `div` 4 = i)%nat) as [<-|Hne].
    + rewrite list_insert_ge by lia. done.
    + by rewrite list_lookup_insert_ne.
Qed.

Lemma entry_addr_config_set i v hw e : entry_addr (pmpconfig_set i v hw) e = entry_addr hw e.
Proof. done. Qed.

Lemma entry_cfg_addr_set e v hw e' : entry_cfg (pmpaddr_set e v hw) e' = entry_cfg hw e'.
Proof. unfold pmpaddr_set. by case_match. Qed.

(** An address register is writable when its entry is not locked and the next
    one is not a locked top-of-range entry. *)
Definition addr_writable (hw : PMP) (e : nat) : bool :=
  negb (entry_locked hw e || (entry_locked hw (S e) && (Field_read 8 pmpcfg_a (entry_cfg hw (S e)) =? 1))).

Lemma entry_addr_set e v hw e' :
  entry_addr (pmpaddr_set e v hw) e' =
    if bool_decide (e = e' ∧ (e < length (pmpaddr hw))%nat) && addr_writable hw e then v else entry_addr hw e'.
Proof.
  unfold pmpaddr_set, addr_writable. set (l := (_ || _)). destruct l; cbn [negb].
  { by rewrite andb_false_r. }
  rewrite andb_true_r. unfold entry_addr. cbn [set_csr pmpaddr]. case_bool_decide as Hd.
  - destruct Hd as [-> Hl]. by rewrite list_lookup_insert_eq.
  - destruct (decide (e = e')) as [<-|Hne]; [rewrite list_insert_ge by lia|rewrite list_lookup_insert_ne by done]; done.
Qed.

(** Writing never changes how many registers there are. *)
Lemma config_set_lengths i v hw :
  length (pmpcfg (pmpconfig_set i v hw)) = length (pmpcfg hw) ∧ pmpaddr (pmpconfig_set i v hw) = pmpaddr hw.
Proof. split; [apply length_insert|done]. Qed.

Lemma addr_set_lengths e v hw :
  length (pmpaddr (pmpaddr_set e v hw)) = length (pmpaddr hw) ∧ pmpcfg (pmpaddr_set e v hw) = pmpcfg hw.
Proof. unfold pmpaddr_set. case_match; [done|]. split; [apply length_insert|done]. Qed.

(** ** Writing one logical region *)

(** The registers of [MAX] logical regions. *)
Definition sized (MAX : nat) (hw : PMP) : Prop :=
  length (pmpaddr hw) = (2 * MAX)%nat ∧ (2 * MAX ≤ 4 * length (pmpcfg hw))%nat.

Definition unlocked (hw : PMP) : Prop := ∀ e, entry_locked hw e = false.

(** A region with unlocked permissions, inside the address space. *)
Definition region_ok (r : PMPRegion) : Prop :=
  0 ≤ fv_value (pmp_cfg r) < 128 ∧ Field_read 8 pmpcfg_a (fv_value (pmp_cfg r)) = 1 ∧
  in_usize (pmp_location r).1 ∧ in_usize (pmp_location r).2.

Definition regions_ok (rs : list (option PMPRegion)) : Prop :=
  Forall (λ r, ∀ r', r = Some r' → region_ok r') rs.

Lemma regions_ok_lookup rs x r : regions_ok rs → rs !! x = Some (Some r) → region_ok r.
Proof. intros H Hx. unfold regions_ok in H. rewrite Forall_lookup in H. by eapply H. Qed.

Definition cfg_of (r : option PMPRegion) : Z := match r with Some r => fv_value (pmp_cfg r) | None => 0 end.

Lemma land_255 k w : Z.land (byte k w) 255 = byte k w.
Proof. change 255 with (Z.ones 8). rewrite Z.land_ones by lia. apply Z.mod_small, byte_range. Qed.

Lemma region_word_byte x cfg old k :
  0 ≤ cfg < 256 → (k < 4)%nat →
  byte k (Z.lor (Z.shiftl (Z.lor 0 (Z.shiftl cfg 8)) (if (x `mod` 2 =? 0)%nat then 0 else 16))
                (Z.land old (if (x `mod` 2 =? 0)%nat then 4294901760 else 65535))) =
  if (k =? 2 * (x `mod` 2))%nat then 0 else if (k =? 2 * (x `mod` 2) + 1)%nat then cfg else byte k old.
Proof.
  intros Hc Hk. rewrite Z.lor_0_l, Z.shiftl_shiftl, byte_lor, byte_land by lia.
  assert (Hx : (x `mod` 2 = 0 ∨ x `mod` 2 = 1)%nat) by lia.
  destruct Hx as [-> | ->]; cbn [Nat.eqb].
  - change (8 + 0) with (8 * Z.of_nat 1). rewrite byte_shiftl by done.
    destruct k as [|[|[|[|]]]]; [..|lia]; cbn -[byte];
      change (byte _ 4294901760) with 0 || change (byte _ 4294901760) with 255;
      rewrite ?land_255, ?Z.land_0_r, ?Z.lor_0_r; done.
  - change (8 + 16) with (8 * Z.of_nat 3). rewrite byte_shiftl by done.
    destruct k as [|[|[|[|]]]]; [..|lia]; cbn -[byte];
      change (byte _ 65535) with 0 || change (byte _ 65535) with 255;
      rewrite ?land_255, ?Z.land_0_r, ?Z.lor_0_r; done.
Qed.

Lemma keep_unlocked hw i v e :
  unlocked hw → (e `div` 4 = i)%nat → keep_locked (pmpconfig_get hw i) v (e `mod` 4) = byte (e `mod` 4) v.
Proof.
  intros Hu <-. unfold keep_locked. specialize (Hu e). unfold entry_locked, entry_cfg in Hu. by rewrite Hu.
Qed.

(** The configuration word of region [x] changes its two entries only. *)
Lemma entry_cfg_write x cfg hw MAX e :
  sized MAX hw → unlocked hw → (x < MAX)%nat → 0 ≤ cfg < 256 →
  entry_cfg (pmpconfig_set (x `div` 2)
    (Z.lor (Z.shiftl (Z.lor 0 (Z.shiftl cfg 8)) (if (x `mod` 2 =? 0)%nat then 0 else 16))
           (Z.land (pmpconfig_get hw (x `div` 2)) (if (x `mod` 2 =? 0)%nat then 4294901760 else 65535))) hw) e =
  if (e =? 2 * x)%nat then 0 else if (e =? 2 * x + 1)%nat then cfg else entry_cfg hw e.
Proof.
  intros [Ha Hl] Hu Hx Hc. rewrite entry_cfg_set.
  assert (Hm : (e `mod` 4 < 4)%nat) by (apply Nat.mod_upper_bound; lia).
  case_bool_decide as Hd.
  - destruct Hd as [Hd _]. rewrite keep_unlocked, region_word_byte by done.
    destruct (Nat.eqb_spec e (2 * x)), (Nat.eqb_spec e (2 * x + 1)),
      (Nat.eqb_spec (e `mod` 4) (2 * (x `mod` 2))), (Nat.eqb_spec (e `mod` 4) (2 * (x `mod` 2) + 1));
      try lia; try done. unfold entry_cfg. by rewrite Hd.
  - destruct (Nat.eqb_spec e (2 * x)), (Nat.eqb_spec e (2 * x + 1)); try done; exfalso; apply Hd; lia.
Qed.

Lemma unlocked_writable hw e : unlocked hw → addr_writable hw e = true.
Proof. intros Hu. unfold addr_writable. by rewrite !Hu. Qed.

(** What a write of region [x] leaves in entry [e]. *)
Definition written_cfg (x : nat) (r : option PMPRegion) (hw : PMP) (e : nat) : Z :=
  if (e =? 2 * x)%nat then 0 else if (e =? 2 * x + 1)%nat then cfg_of r else entry_cfg hw e.

Definition written_addr (x : nat) (r : option PMPRegion) (hw : PMP) (e : nat) : Z :=
  match r with
  | Some r =>
      if (e =? 2 * x)%nat then (pmp_location r).1 / 4
      else if (e =? 2 * x + 1)%nat then wrap32 ((pmp_location r).1 + (pmp_location r).2) / 4
      else entry_addr hw e
  | None => entry_addr hw e
  end.

Lemma cfg_of_range r : (∀ r', r = Some r' → region_ok r') → 0 ≤ cfg_of r < 128.
Proof. destruct r as [r|]; cbn; [|lia]. intros H. apply (H r eq_refl). Qed.

Lemma unlocked_by hw f : (∀ e, entry_cfg hw e = f e) → (∀ e, Z.testbit (f e) 7 = false) → unlocked hw.
Proof. intros H1 H2 e. unfold entry_locked. by rewrite H1. Qed.

Lemma low_bit7 v : 0 ≤ v < 128 → Z.testbit v 7 = false.
Proof.
  intros Hv. destruct (Z.eq_dec v 0) as [->|]; [done|]. apply Z.bits_above_log2; [lia|].
  apply Z.log2_lt_pow2; lia.
Qed.

Lemma written_cfg_unlocked x r hw :
  (∀ r', r = Some r' → region_ok r') → unlocked hw → ∀ e, Z.testbit (written_cfg x r hw e) 7 = false.
Proof.
  intros Hr Hu e. unfold written_cfg. destruct (e =? 2 * x)%nat; [done|].
  destruct (e =? 2 * x + 1)%nat; [by apply low_bit7, cfg_of_range|apply Hu].
Qed.

Lemma write_pmp_region_spec MAX x r hw :
  sized MAX hw → unlocked hw → (x < MAX)%nat → (∀ r', r = Some r' → region_ok r') →
  sized MAX (write_pmp_region x r hw) ∧ unlocked (write_pmp_region x r hw) ∧
  ∀ e, entry_cfg (write_pmp_region x r hw) e = written_cfg x r hw e ∧
       entry_addr (write_pmp_region x r hw) e = written_addr x r hw e.
Proof.
  intros Hs Hu Hx Hr. pose proof (cfg_of_range r Hr) as Hc.
  pose proof (λ e, entry_cfg_write x (cfg_of r) hw MAX e Hs Hu Hx ltac:(lia)) as E.
  unfold write_pmp_region. set (word := Z.lor _ _) in E |- *. fold (written_cfg x r hw) in E.
  pose proof (unlocked_by _ _ E (written_cfg_unlocked x r hw Hr Hu)) as Hu1.
  destruct r as [r|]; cbn [cfg_of] in *; fold word.
  2: { split_and!; [|done|by intros e; rewrite E]. destruct Hs as [Ha Hl]. split; [done|].
       cbn [pmpcfg pmpconfig_set set_csr]. by rewrite length_insert. }
  destruct (pmp_location r) as [start size] eqn:El. fold word.
  set (hw1 := pmpconfig_set _ _ hw) in *. set (hw2 := pmpaddr_set (x * 2) _ hw1).
  assert (E2 : ∀ e, entry_cfg hw2 e = written_cfg x (Some r) hw e)
    by (intros e; unfold hw2; by rewrite entry_cfg_addr_set).
  assert (Hu2 : unlocked hw2) by (exact (unlocked_by _ _ E2 (written_cfg_unlocked x _ hw Hr Hu))).
  assert (Ha2 : length (pmpaddr hw2) = (2 * MAX)%nat ∧ length (pmpcfg hw2) = length (pmpcfg hw)).
  { unfold hw2. destruct (addr_set_lengths (x * 2) (Z.shiftr start 2) hw1) as [-> ->]. destruct Hs as [Ha _].
    split; [done|]. unfold hw1. cbn [pmpcfg pmpconfig_set set_csr]. apply length_insert. }
  assert (A2 : ∀ e, entry_addr hw2 e = if (e =? 2 * x)%nat then start / 4 else entry_addr hw e).
  { intros e. unfold hw2. rewrite entry_addr_set, unlocked_writable, andb_true_r, Z.shiftr_div_pow2 by (done || lia).
    destruct Hs as [Ha _]. replace (pmpaddr hw1) with (pmpaddr hw) by done.
    case_bool_decide; destruct (Nat.eqb_spec e (2 * x)); try lia; done. }
  split_and!.
  - destruct Hs as [_ Hl], Ha2 as [Ha2 Hl2]. unfold sized.
    edestruct (addr_set_lengths (x * 2 + 1)) as [-> ->]. rewrite Hl2. done.
  - apply (unlocked_by _ (written_cfg x (Some r) hw)); [|by apply written_cfg_unlocked].
    intros e. by rewrite entry_cfg_addr_set.
  - intros e. rewrite entry_cfg_addr_set, E2. split; [done|]. rewrite entry_addr_set, unlocked_writable, A2 by done.
    destruct Ha2 as [Ha2 _]. cbn [written_addr]. rewrite El, andb_true_r, Z.shiftr_div_pow2 by lia.
    case_bool_decide; destruct (Nat.eqb_spec e (2 * x)), (Nat.eqb_spec e (2 * x + 1)); try lia; done.
Qed.

(** ** Writing all regions *)

Definition installed (hw : PMP) (x : nat) (r : option PMPRegion) : Prop :=
  entry_cfg hw (2 * x) = 0 ∧ entry_cfg hw (2 * x + 1) = cfg_of r ∧
  ∀ r', r = Some r' →
    entry_addr hw (2 * x) = (pmp_location r').1 / 4 ∧
    entry_addr hw (2 * x + 1) = wrap32 ((pmp_location r').1 + (pmp_location r').2) / 4.

(** The registers hold the configuration. *)
Definition holds (hw : PMP) (rs : list (option PMPRegion)) : Prop :=
  ∀ j r, rs !! j = Some r → installed hw j r.

Lemma written_installed x r hw hw' :
  (∀ e, entry_cfg hw' e = written_cfg x r hw e ∧ entry_addr hw' e = written_addr x r hw e) → installed hw' x r.
Proof.
  intros H. destruct (H (2 * x)%nat) as [C0 A0], (H (2 * x + 1)%nat) as [C1 A1].
  unfold written_cfg, written_addr in *. rewrite Nat.eqb_refl in *.
  destruct (Nat.eqb_spec (2 * x + 1) (2 * x)); [lia|].
  split_and!; [done..|]. intros r' ->. done.
Qed.

Lemma write_pmp_regions_spec MAX rs : ∀ x hw,
  sized MAX hw → unlocked hw → (x + length rs ≤ MAX)%nat → regions_ok rs →
  sized MAX (write_pmp_regions x rs hw) ∧ unlocked (write_pmp_regions x rs hw) ∧
  (∀ e, (e < 2 * x)%nat → entry_cfg (write_pmp_regions x rs hw) e = entry_cfg hw e ∧
                          entry_addr (write_pmp_regions x rs hw) e = entry_addr hw e) ∧
  ∀ j r, rs !! j = Some r → installed (write_pmp_regions x rs hw) (x + j) r.
Proof.
  induction rs as [|r rs IH]; intros x hw Hs Hu Hl Hok; cbn [write_pmp_regions]; [by split_and!|].
  cbn [length] in Hl. apply Forall_cons in Hok as [Hr Hok].
  destruct (write_pmp_region_spec MAX x r hw Hs Hu ltac:(lia) Hr) as (Hs1 & Hu1 & E1).
  destruct (IH (S x) _ Hs1 Hu1 ltac:(lia) Hok) as (Hs2 & Hu2 & F2 & E2).
  split_and!; [done|done| |].
  - intros e He. destruct (F2 e ltac:(lia)) as [-> ->], (E1 e) as [-> ->].
    unfold written_cfg, written_addr.
    destruct (Nat.eqb_spec e (2 * x)), (Nat.eqb_spec e (2 * x + 1)); [lia..|]. by destruct r.
  - intros [|j] r' Hj.
    + injection Hj as <-. rewrite Nat.add_0_r. apply written_installed in E1 as (C0 & C1 & A).
      destruct (F2 (2 * x)%nat ltac:(lia)) as [C0' A0'], (F2 (2 * x + 1)%nat ltac:(lia)) as [C1' A1'].
      unfold installed. by rewrite C0', C1', A0', A1'.
    + replace (x + S j)%nat with (S x + j)%nat by lia. by apply E2.
Qed.

(** Registers that hold a configuration grant what it says. *)
Lemma access_from_holds hw a rs : ∀ x,
  regions_ok rs → (∀ j r, rs !! j = Some r → installed hw (x + j) r) →
  access_from hw (2 * length rs) (2 * x) (a / 4) = config_access rs a.
Proof.
  induction rs as [|r rs IH]; intros x Hok H; [done|].
  apply Forall_cons in Hok as [Hr Hok]. destruct (H 0%nat r eq_refl) as (C0 & C1 & A).
  rewrite Nat.add_0_r in C0, C1, A.
  replace (2 * length (r :: rs))%nat with (S (S (2 * length rs))) by (cbn [length]; lia).
  cbn [access_from]. replace (entry_matches hw (2 * x) (a / 4)) with false
    by (unfold entry_matches; by rewrite C0).
  replace (S (2 * x)) with (2 * x + 1)%nat by lia.
  replace (S (2 * x + 1)) with (2 * S x)%nat by lia.
  rewrite IH; [|done|intros j r' Hj; replace (S x + j)%nat with (x + S j)%nat by lia; by apply H].
  unfold entry_matches. rewrite C1. destruct r as [r|]; cbn [cfg_of config_access]; [|done].
  destruct (A r eq_refl) as [A0 A1], (Hr r eq_refl) as (_ & Hf & _). rewrite Hf, A1. cbn [Z.eqb Pos.eqb].
  replace (2 * x + 1)%nat with (S (2 * x)) by lia. by rewrite A0.
Qed.

(** After [configure_mpu] of a configuration of the driver, on unlocked
    entries, every byte of memory is open to user mode exactly as the first
    region of the configuration covering its word says, and closed where there
    is none; the registers then hold the configuration, so skipping the next
    write of the same unchanged configuration is sound. *)
Theorem pmp_configure_installs MAX hw c hw' c' :
  sized MAX hw → unlocked hw → length (pmp_regions c) = MAX → regions_ok (pmp_regions c) →
  (last_configured_for hw = Some (pmp_id c) → pmp_is_dirty c = false → holds hw (pmp_regions c)) →
  pmp_configure_mpu hw c = (hw', c') →
  (∀ a, pmp_user_access hw' a = config_access (pmp_regions c) a) ∧
  sized MAX hw' ∧ unlocked hw' ∧ holds hw' (pmp_regions c') ∧
  last_configured_for hw' = Some (pmp_id c') ∧ pmp_is_dirty c' = false ∧ pmp_regions c' = pmp_regions c.
Proof.
  intros Hs Hu Hl Hok Hskip E. unfold pmp_configure_mpu in E.
  assert (Hacc : ∀ h, sized MAX h → holds h (pmp_regions c) →
                      ∀ a, pmp_user_access h a = config_access (pmp_regions c) a).
  { intros h [Ha _] Hh a. unfold pmp_user_access. rewrite Ha, <- Hl.
    by apply (access_from_holds h a (pmp_regions c) 0). }
  case_match eqn:Hc.
  - destruct (write_pmp_regions_spec MAX (pmp_regions c) 0 hw Hs Hu ltac:(lia) Hok) as (Hs1 & Hu1 & _ & E1).
    injection E as <- <-. split_and!; [|done..]. intros a. by apply Hacc.
  - apply orb_false_iff in Hc as [Hc Hd]. apply negb_false_iff, bool_decide_eq_true in Hc.
    injection E as <- <-. specialize (Hskip Hc Hd). split_and!; [|done..]. intros a. by apply Hacc.
Qed.

(** ** Kernel regions *)

(** A write that changes the byte of one unlocked entry. *)
Lemma entry_cfg_set_byte hw i j v b e :
  (i < length (pmpcfg hw))%nat → (j < 4)%nat → entry_locked hw (4 * i + j) = false →
  (∀ k, (k < 4)%nat → byte k v = if (k =? j)%nat then b else byte k (pmpconfig_get hw i)) →
  entry_cfg (pmpconfig_set i v hw) e = if (e =? 4 * i + j)%nat then b else entry_cfg hw e.
Proof.
  intros Hi Hj Hu Hv. rewrite entry_cfg_set. assert (Hm : (e `mod` 4 < 4)%nat) by lia.
  unfold entry_locked, entry_cfg in *. replace ((4 * i + j) `div` 4)%nat with i in Hu by lia.
  replace ((4 * i + j) `mod` 4)%nat with j in Hu by lia.
  case_bool_decide as Hd; [destruct Hd as [Hd _]; rewrite Hd; unfold keep_locked|].
  - rewrite Hv by done. destruct (Nat.eqb_spec e (4 * i + j)), (Nat.eqb_spec (e `mod` 4) j) as [Ej|];
      [by rewrite Ej, Hu|lia|lia|by case_match].
  - destruct (Nat.eqb_spec e (4 * i + j)); [exfalso; apply Hd; lia|done].
Qed.

Lemma modify_byte k fv w :
  byte k (FieldValue_modify 32 fv w) = Z.lor (Z.land (byte k w) (byte k (not_w 32 (fv_mask fv)))) (byte k (fv_value fv)).
Proof. unfold FieldValue_modify. by rewrite byte_lor, byte_land. Qed.

(** The position of the start entry of region [x] in its register. *)
Definition position (x : nat) : nat := if (x `mod` 2 =? 0)%nat then 0%nat else 2%nat.

Lemma position_entry x : (4 * (x `div` 2) + position x = 2 * x)%nat ∧ (position x = 0 ∨ position x = 2)%nat.
Proof. unfold position. destruct (Nat.eqb_spec (x `mod` 2) 0); lia. Qed.

(** Evaluate the constant bytes a register is masked with. *)
Ltac constant_bytes :=
  repeat match goal with
  | |- context [Z.land _ (byte ?k ?c)] => let v := eval vm_compute in (byte k c) in change (byte k c) with v
  | |- context [Z.lor _ (byte ?k ?c)] => let v := eval vm_compute in (byte k c) in change (byte k c) with v
  end;
  rewrite ?Z.land_0_r, ?Z.lor_0_r, ?Z.lor_0_l, ?land_255.

Lemma clear_start_byte b w k :
  (b = 0 ∨ b = 2)%nat → (k < 4)%nat →
  byte k (FieldValue_modify 32 (start_entry_CLEAR (Z.of_nat b)) w) =
  if (k =? b)%nat then Z.land (byte k w) 224 else byte k w.
Proof.
  intros [-> | ->] Hk; rewrite modify_byte; destruct k as [|[|[|[|]]]]; try lia; cbn [Nat.eqb]; by constant_bytes.
Qed.

Lemma lock_end_byte b w k :
  (b = 0 ∨ b = 2)%nat → (k < 4)%nat →
  byte k (FieldValue_modify 32 (end_entry_LOCK (Z.of_nat b)) w) =
  if (k =? S b)%nat then Z.lor (Z.land (byte k w) 127) 128 else byte k w.
Proof.
  intros [-> | ->] Hk; rewrite modify_byte; destruct k as [|[|[|[|]]]]; try lia; cbn [Nat.eqb]; by constant_bytes.
Qed.

Lemma end_cfg_byte b cfg w k :
  (b = 0 ∨ b = 2)%nat → (k < 4)%nat → 0 ≤ cfg < 256 →
  byte k (Z.lor (Z.shiftl cfg (8 * (Z.of_nat b + 1))) (Z.land w (if (b =? 0)%nat then 4294902015 else 16777215))) =
  if (k =? S b)%nat then cfg else byte k w.
Proof.
  intros Hb Hk Hc. replace (8 * (Z.of_nat b + 1)) with (8 * Z.of_nat (S b)) by lia.
  rewrite byte_lor, byte_land, byte_shiftl by done.
  destruct Hb as [-> | ->]; destruct k as [|[|[|[|]]]]; try lia; cbn [Nat.eqb]; by constant_bytes.
Qed.

(** Region [x] in place and locked. *)
Definition locked_region (hw : PMP) (x : nat) (r : PMPRegion) : Prop :=
  Field_read 8 pmpcfg_a (entry_cfg hw (2 * x)) = 0 ∧
  entry_locked hw (2 * x) = false ∧
  entry_cfg hw (2 * x + 1) = Z.lor (fv_value (pmp_cfg r)) 128 ∧
  entry_addr hw (2 * x) = (pmp_location r).1 / 4 ∧
  entry_addr hw (2 * x + 1) = wrap32 ((pmp_location r).1 + (pmp_location r).2) / 4.

(** Two states agree outside region [x]. *)
Definition agree_outside (x : nat) (hw hw' : PMP) : Prop :=
  length (pmpcfg hw') = length (pmpcfg hw) ∧ length (pmpaddr hw') = length (pmpaddr hw) ∧
  ∀ e, e ≠ (2 * x)%nat → e ≠ (2 * x + 1)%nat →
    entry_cfg hw' e = entry_cfg hw e ∧ entry_addr hw' e = entry_addr hw e.

Lemma land_224_off c : 0 ≤ c < 256 → Z.testbit c 7 = false →
  Field_read 8 pmpcfg_a (Z.land c 224) = 0 ∧ Z.testbit (Z.land c 224) 7 = false.
Proof.
  intros Hc H7. rewrite Z.land_spec, H7. split; [|done].
  unfold Field_read. replace (shl 8 (f_mask pmpcfg_a) (f_shift pmpcfg_a)) with 24 by done.
  by rewrite <- Z.land_assoc, Z.land_0_r.
Qed.

Lemma entry_cfg_range hw e : 0 ≤ entry_cfg hw e < 256.
Proof. apply byte_range. Qed.

Lemma clear_start_entry x hw e :
  (x `div` 2 < length (pmpcfg hw))%nat → entry_locked hw (2 * x) = false →
  entry_cfg (pmpconfig_modify (x `div` 2) (start_entry_CLEAR (Z.of_nat (position x))) hw) e =
  if (e =? 2 * x)%nat then Z.land (entry_cfg hw (2 * x)) 224 else entry_cfg hw e.
Proof.
  intros Hl Hu. destruct (position_entry x) as [Hp Hb]. rewrite <- Hp in Hu |- *.
  apply entry_cfg_set_byte; [done|lia|done|]. intros k Hk. rewrite clear_start_byte by done.
  destruct (Nat.eqb_spec k (position x)) as [->|]; [|done]. unfold entry_cfg.
  by replace ((4 * (x `div` 2) + position x) `div` 4)%nat with (x `div` 2)%nat by lia;
     replace ((4 * (x `div` 2) + position x) `mod` 4)%nat with (position x) by lia.
Qed.

Lemma lock_end_entry x hw e :
  (x `div` 2 < length (pmpcfg hw))%nat → entry_locked hw (2 * x + 1) = false →
  entry_cfg (pmpconfig_modify (x `div` 2) (end_entry_LOCK (Z.of_nat (position x))) hw) e =
  if (e =? 2 * x + 1)%nat then Z.lor (Z.land (entry_cfg hw (2 * x + 1)) 127) 128 else entry_cfg hw e.
Proof.
  intros Hl Hu. destruct (position_entry x) as [Hp Hb].
  replace (2 * x + 1)%nat with (4 * (x `div` 2) + S (position x))%nat in * by lia.
  apply entry_cfg_set_byte; [done|lia|done|]. intros k Hk. rewrite lock_end_byte by done.
  destruct (Nat.eqb_spec k (S (position x))) as [->|]; [|done]. unfold entry_cfg.
  by replace ((4 * (x `div` 2) + S (position x)) `div` 4)%nat with (x `div` 2)%nat by lia;
     replace ((4 * (x `div` 2) + S (position x)) `mod` 4)%nat with (S (position x)) by lia.
Qed.

Lemma set_end_entry x cfg hw e :
  (x `div` 2 < length (pmpcfg hw))%nat → entry_locked hw (2 * x + 1) = false → 0 ≤ cfg < 256 →
  entry_cfg (pmpconfig_set (x `div` 2)
    (Z.lor (Z.shiftl cfg (8 * (Z.of_nat (position x) + 1)))
       (Z.land (pmpconfig_get hw (x `div` 2)) (if (position x =? 0)%nat then 4294902015 else 16777215))) hw) e =
  if (e =? 2 * x + 1)%nat then cfg else entry_cfg hw e.
Proof.
  intros Hl Hu Hc. destruct (position_entry x) as [Hp Hb].
  replace (2 * x + 1)%nat with (4 * (x `div` 2) + S (position x))%nat in * by lia.
  apply entry_cfg_set_byte; [done|lia|done|]. intros k Hk. by apply end_cfg_byte.
Qed.

(** The driver's constants in terms of [position]. *)
Lemma position_constants x :
  (if (x `mod` 2 =? 0)%nat then 0 else 2) = Z.of_nat (position x) ∧
  (if (x `mod` 2 =? 0)%nat then 4294902015 else 16777215) = (if (position x =? 0)%nat then 4294902015 else 16777215).
Proof. unfold position. by case_match. Qed.

Lemma land_127 c : 0 ≤ c < 128 → Z.land c 127 = c.
Proof. intros. change 127 with (Z.ones 7). rewrite Z.land_ones by lia. by apply Z.mod_small. Qed.

Lemma config_modify_addr i fv hw : pmpaddr (pmpconfig_modify i fv hw) = pmpaddr hw.
Proof. done. Qed.
Lemma config_modify_length i fv hw : length (pmpcfg (pmpconfig_modify i fv hw)) = length (pmpcfg hw).
Proof. apply length_insert. Qed.

Lemma addr_set_spec e0 v hw hw' :
  (e0 < length (pmpaddr hw))%nat → addr_writable hw e0 = true → pmpaddr_set e0 v hw = hw' →
  (∀ e, entry_cfg hw' e = entry_cfg hw e) ∧
  (∀ e, entry_addr hw' e = if (e =? e0)%nat then v else entry_addr hw e) ∧
  length (pmpaddr hw') = length (pmpaddr hw) ∧ pmpcfg hw' = pmpcfg hw.
Proof.
  intros Hl Hw <-. split_and!; [intros; apply entry_cfg_addr_set| |apply addr_set_lengths..].
  intros e. rewrite entry_addr_set, Hw, andb_true_r.
  case_bool_decide; destruct (Nat.eqb_spec e e0); try lia; done.
Qed.

(** The start entry of a region is switched off, its addresses are set. *)
Lemma kernel_addresses MAX x start size hw hw1 hw2 hw3 :
  sized MAX hw → (x < MAX)%nat →
  entry_locked hw (2 * x) = false → entry_locked hw (2 * x + 1) = false → entry_locked hw (2 * x + 2) = false →
  pmpaddr_set (2 * x + 1) (wrap32 (start + size) / 4) hw = hw1 →
  pmpconfig_modify (x `div` 2) (start_entry_CLEAR (Z.of_nat (position x))) hw1 = hw2 →
  pmpaddr_set (2 * x) (start / 4) hw2 = hw3 →
  (∀ e, entry_cfg hw3 e = if (e =? 2 * x)%nat then Z.land (entry_cfg hw (2 * x)) 224 else entry_cfg hw e) ∧
  (∀ e, entry_addr hw3 e = if (e =? 2 * x)%nat then start / 4
                           else if (e =? 2 * x + 1)%nat then wrap32 (start + size) / 4 else entry_addr hw e) ∧
  length (pmpaddr hw3) = length (pmpaddr hw) ∧ length (pmpcfg hw3) = length (pmpcfg hw).
Proof.
  intros [Ha Hl] Hx U0 U1 U2 E1 E2 E3.
  apply addr_set_spec in E1 as (C1 & A1 & La1 & Lc1);
    [|lia|unfold addr_writable; replace (S (2 * x + 1)) with (2 * x + 2)%nat by lia; by rewrite U1, U2].
  assert (C2 : ∀ e, entry_cfg hw2 e = if (e =? 2 * x)%nat then Z.land (entry_cfg hw (2 * x)) 224 else entry_cfg hw e).
  { intros e. subst hw2. rewrite clear_start_entry, !C1; [done|rewrite Lc1; lia|].
    unfold entry_locked. by rewrite C1. }
  assert (A2 : ∀ e, entry_addr hw2 e = entry_addr hw1 e) by (by subst hw2).
  assert (La2 : length (pmpaddr hw2) = length (pmpaddr hw)) by (subst hw2; exact La1).
  assert (Lc2 : length (pmpcfg hw2) = length (pmpcfg hw)) by (subst hw2; by rewrite config_modify_length, Lc1).
  apply addr_set_spec in E3 as (C3 & A3 & La3 & Lc3); [|lia|].
  - split_and!; [intros; by rewrite C3, C2|intros; by rewrite A3, A2, A1|congruence..].
  - destruct (land_224_off _ (entry_cfg_range hw (2 * x)) U0) as [_ B0].
    unfold addr_writable. replace (S (2 * x)) with (2 * x + 1)%nat by lia. unfold entry_locked in *.
    rewrite !C2, Nat.eqb_refl, B0. destruct (Nat.eqb_spec (2 * x + 1) (2 * x)); [lia|by rewrite U1].
Qed.

Lemma enable_kernel_region_spec MAX x r hw :
  sized MAX hw → (x < MAX)%nat → region_ok r →
  entry_locked hw (2 * x) = false → entry_locked hw (2 * x + 1) = false → entry_locked hw (2 * x + 2) = false →
  locked_region (enable_kernel_region x (Some r) hw) x r ∧
  agree_outside x hw (enable_kernel_region x (Some r) hw).
Proof.
  intros Hs Hx (Hc & _ & _ & _) U0 U1 U2. unfold enable_kernel_region.
  destruct (position_constants x) as [-> ->]. destruct (pmp_location r) as [start size] eqn:El.
  set (cfg := fv_value (pmp_cfg r)) in *. rewrite !Z.shiftr_div_pow2 by lia. change (2 ^ 2) with 4.
  replace (x * 2)%nat with (2 * x)%nat by lia. set (hw3 := pmpaddr_set (2 * x) _ _).
  destruct (kernel_addresses MAX x start size hw _ _ hw3 Hs Hx U0 U1 U2 eq_refl eq_refl eq_refl)
    as (C3 & A3 & La3 & Lc3). destruct Hs as [Ha Hl].
  destruct (land_224_off _ (entry_cfg_range hw (2 * x)) U0) as [F0 B0].
  set (hw4 := pmpconfig_set _ _ hw3).
  assert (Lc4 : length (pmpcfg hw4) = length (pmpcfg hw)) by (rewrite <- Lc3; apply length_insert).
  assert (C4 : ∀ e, entry_cfg hw4 e = if (e =? 2 * x + 1)%nat then cfg else entry_cfg hw3 e).
  { intros e. apply set_end_entry; [lia| |lia]. unfold entry_locked in *. rewrite C3.
    by destruct (Nat.eqb_spec (2 * x + 1) (2 * x)); [lia|]. }
  set (hw5 := pmpconfig_modify _ _ hw4).
  assert (C5 : ∀ e, entry_cfg hw5 e = if (e =? 2 * x + 1)%nat then Z.lor cfg 128 else entry_cfg hw3 e).
  { intros e. unfold hw5. rewrite lock_end_entry, !C4, Nat.eqb_refl, land_127 by
      (try (unfold entry_locked; rewrite C4, Nat.eqb_refl; by apply low_bit7); lia).
    by destruct (e =? 2 * x + 1)%nat. }
  assert (A5 : ∀ e, entry_addr hw5 e = entry_addr hw3 e) by done.
  split.
  - unfold locked_region, entry_locked. rewrite !C5, !C3, !A5, !A3, El, !Nat.eqb_refl.
    destruct (Nat.eqb_spec (2 * x) (2 * x + 1)); [lia|]. destruct (Nat.eqb_spec (2 * x + 1) (2 * x)); [lia|done].
  - split_and!; [unfold hw5; by rewrite config_modify_length|done|].
    intros e H0 H1. rewrite C5, C3, A5, A3.
    by destruct (Nat.eqb_spec e (2 * x + 1)), (Nat.eqb_spec e (2 * x)).
Qed.

Lemma agree_sized MAX x hw hw' : agree_outside x hw hw' → sized MAX hw → sized MAX hw'.
Proof. intros (H1 & H2 & _) [? ?]. unfold sized. by rewrite H1, H2. Qed.

Lemma enable_kernel_from_spec MAX rs : regions_ok rs → ∀ n hw,
  sized MAX hw → (n ≤ MAX)%nat → (∀ e, (e ≤ 2 * n)%nat → entry_locked hw e = false) →
  let hw' := enable_kernel_from n rs hw in
  (∀ x r, (x < n)%nat → rs !! x = Some (Some r) → locked_region hw' x r) ∧
  (∀ e, (2 * n ≤ e)%nat → entry_cfg hw' e = entry_cfg hw e ∧ entry_addr hw' e = entry_addr hw e).
Proof.
  intros Hok. induction n as [|n IH]; intros hw Hs Hn Hu; cbn [enable_kernel_from]; [split; [lia|done]|].
  destruct (rs !! n) as [[r|]|] eqn:Hr; cbn [mjoin option_join].
  2,3: destruct (IH hw Hs ltac:(lia) ltac:(intros; apply Hu; lia)) as [H1 H2]; split;
    [intros x r Hx Hxr; apply H1; [destruct (decide (x = n)) as [->|]; [congruence|lia]|done]
    |intros e He; apply H2; lia].
  assert (Hrok : region_ok r) by (by eapply regions_ok_lookup).
  destruct (enable_kernel_region_spec MAX n r hw Hs ltac:(lia) Hrok) as [HL HA]; [apply Hu; lia..|].
  set (hw1 := enable_kernel_region n (Some r) hw) in *.
  destruct (IH hw1 (agree_sized _ _ _ _ HA Hs) ltac:(lia)) as [H1 H2].
  { intros e He. destruct (decide (e = 2 * n)%nat) as [->|]; [apply HL|].
    destruct HA as (_ & _ & HA), (HA e ltac:(lia) ltac:(lia)) as [Ec _].
    unfold entry_locked. rewrite Ec. apply Hu. lia. }
  split.
  - intros x r' Hx Hxr. destruct (decide (x = n)) as [->|]; [|apply H1; [lia|done]].
    rewrite Hxr in Hr. injection Hr as ->. unfold locked_region, entry_locked in *.
    destruct (H2 (2 * n)%nat ltac:(lia)) as [-> ->], (H2 (2 * n + 1)%nat ltac:(lia)) as [-> ->]. done.
  - intros e He. destruct (H2 e ltac:(lia)) as [-> ->], HA as (_ & _ & HA). apply HA; lia.
Qed.

(** ** Locked regions under later writes *)

Lemma locked_cfg c : 0 ≤ c < 128 → Field_read 8 pmpcfg_a c = 1 →
  Z.testbit (Z.lor c 128) 7 = true ∧ Field_read 8 pmpcfg_a (Z.lor c 128) = 1.
Proof.
  intros Hc Hf. rewrite Z.lor_spec, orb_true_r. split; [done|].
  unfold Field_read in *. rewrite Z.land_lor_distr_l.
  replace (Z.land 128 (shl 8 (f_mask pmpcfg_a) (f_shift pmpcfg_a))) with 0 by done. by rewrite Z.lor_0_r.
Qed.

Lemma locked_cfg_kept i v hw e :
  entry_locked hw e = true → entry_cfg (pmpconfig_set i v hw) e = entry_cfg hw e.
Proof.
  intros Hk. rewrite entry_cfg_set. case_bool_decide as Hd; [|done]. destruct Hd as [<- _].
  unfold keep_locked, entry_locked, entry_cfg in *. by rewrite Hk.
Qed.

Lemma locked_addr_kept e v hw e' :
  addr_writable hw e' = false → entry_addr (pmpaddr_set e v hw) e' = entry_addr hw e'.
Proof.
  intros Hk. rewrite entry_addr_set. case_bool_decide as Hd; [|done]. destruct Hd as [<- _].
  by rewrite Hk.
Qed.

Lemma locked_region_writable hw x r :
  region_ok r → locked_region hw x r →
  entry_locked hw (2 * x + 1) = true ∧ addr_writable hw (2 * x) = false ∧ addr_writable hw (2 * x + 1) = false.
Proof.
  intros (Hc & Hf & _) (_ & _ & C & _). destruct (locked_cfg _ Hc Hf) as [Hb Ha].
  unfold addr_writable, entry_locked. replace (S (2 * x)) with (2 * x + 1)%nat by lia.
  rewrite C, Hb, Ha. by rewrite orb_true_r.
Qed.

Lemma addr_set_keeps_locked e v hw x r :
  region_ok r → locked_region hw x r → locked_region (pmpaddr_set e v hw) x r.
Proof.
  intros Hr H. destruct (locked_region_writable hw x r Hr H) as (_ & W0 & W1).
  unfold locked_region, entry_locked in *. by rewrite !entry_cfg_addr_set, !locked_addr_kept.
Qed.

(** The configuration word of region [y] clears or keeps the start entry of [x]. *)
Lemma region_word_keeps_locked y cfg hw x r :
  0 ≤ cfg < 256 → region_ok r → locked_region hw x r →
  locked_region (pmpconfig_set (y `div` 2)
    (Z.lor (Z.shiftl (Z.lor 0 (Z.shiftl cfg 8)) (if (y `mod` 2 =? 0)%nat then 0 else 16))
           (Z.land (pmpconfig_get hw (y `div` 2)) (if (y `mod` 2 =? 0)%nat then 4294901760 else 65535))) hw) x r.
Proof.
  intros Hc Hr H. destruct (locked_region_writable hw x r Hr H) as (W & _).
  destruct H as (F & U & C & A0 & A1).
  set (v := Z.lor _ _). assert (E : entry_cfg (pmpconfig_set (y `div` 2) v hw) (2 * x) = entry_cfg hw (2 * x) ∨
                                    entry_cfg (pmpconfig_set (y `div` 2) v hw) (2 * x) = 0).
  { rewrite entry_cfg_set. case_bool_decide as Hd; [|by left]. destruct Hd as [Hd _].
    unfold keep_locked, entry_locked, entry_cfg in *. rewrite <- Hd, U. rewrite Hd.
    unfold v. rewrite region_word_byte by (done || lia).
    destruct (Nat.eqb_spec ((2 * x) `mod` 4) (2 * (y `mod` 2))); [by right|].
    destruct (Nat.eqb_spec ((2 * x) `mod` 4) (2 * (y `mod` 2) + 1)); [lia|by left]. }
  unfold locked_region. rewrite (locked_cfg_kept _ _ _ (2 * x + 1)) by done.
  split_and!; [..|done|done|done]; unfold entry_locked in *; by destruct E as [-> | ->].
Qed.

Lemma write_keeps_locked y ro hw x r :
  (∀ r', ro = Some r' → region_ok r') → region_ok r →
  locked_region hw x r → locked_region (write_pmp_region y ro hw) x r.
Proof.
  intros Hro Hr H. unfold write_pmp_region. destruct ro as [r'|].
  - destruct (Hro r' eq_refl) as (Hc & _). destruct (pmp_location r').
    do 2 (apply addr_set_keeps_locked; [done|]). apply region_word_keeps_locked; [lia|done..].
  - by apply region_word_keeps_locked.
Qed.

Lemma write_regions_keep_locked rs x r : ∀ y hw,
  regions_ok rs → region_ok r → locked_region hw x r → locked_region (write_pmp_regions y rs hw) x r.
Proof.
  induction rs as [|ro rs IH]; intros y hw Hok Hr H; cbn [write_pmp_regions]; [done|].
  apply Forall_cons in Hok as [Hro Hok]. apply IH; [done..|]. by apply write_keeps_locked.
Qed.

(** Kernel regions are final: [enable_kernel_mpu] puts every region of the
    kernel configuration in place and locks it, whatever the number of
    regions, and configuring the PMP for a process afterwards changes neither
    its address range nor its permissions. *)
Theorem kernel_regions_survive MAX kc hw c x r :
  sized MAX hw → unlocked hw → length (pmp_regions kc) = MAX →
  regions_ok (pmp_regions kc) → regions_ok (pmp_regions c) →
  pmp_regions kc !! x = Some (Some r) →
  let hw1 := enable_kernel_mpu kc hw in
  locked_region hw1 x r ∧ locked_region (pmp_configure_mpu hw1 c).1 x r.
Proof.
  intros Hs Hu Hl Hk Hc Hx hw1. pose proof (regions_ok_lookup _ _ _ Hk Hx) as Hr.
  assert (HL : locked_region hw1 x r).
  { apply (enable_kernel_from_spec MAX); [done|done|lia|intros; apply Hu| |done].
    apply lookup_lt_Some in Hx. lia. }
  split; [done|]. unfold pmp_configure_mpu. case_match; [|done]. cbn [fst].
  exact (write_regions_keep_locked (pmp_regions c) x r 0 hw1 Hc Hr HL).
Qed.

(** ** Probing *)

Lemma keep_locked_same old new k : byte k new = byte k old → keep_locked old new k = byte k old.
Proof. intros H. unfold keep_locked. case_match; done. Qed.

(** Flipping two bits of byte [j]. *)
Lemma flip_byte og j k :
  byte k (Z.lxor og (Z.shiftl 3 (Z.of_nat j * 8))) = if (k =? j)%nat then Z.lxor (byte k og) 3 else byte k og.
Proof.
  rewrite byte_lxor, (Z.mul_comm (Z.of_nat j)), byte_shiftl by lia.
  by destruct (k =? j)%nat; [|rewrite Z.lxor_0_r].
Qed.

Lemma flip_locked og j :
  word_ok og → (j < 4)%nat → Z.testbit (byte j og) 7 = true →
  legalize og (Z.lxor og (Z.shiftl 3 (Z.of_nat j * 8))) = og.
Proof.
  intros Hw Hj Hb. apply word_ext; [apply legalize_ok|done|]. intros k Hk. rewrite legalize_byte by done.
  destruct (Nat.eq_dec k j) as [->|Hne]; [unfold keep_locked; by rewrite Hb|].
  apply keep_locked_same. rewrite flip_byte. by destruct (Nat.eqb_spec k j).
Qed.

Lemma flip_unlocked og j :
  word_ok og → (j < 4)%nat → Z.testbit (byte j og) 7 = false →
  let new := legalize og (Z.lxor og (Z.shiftl 3 (Z.of_nat j * 8))) in new ≠ og ∧ legalize new og = og.
Proof.
  intros Hw Hj Hb new.
  assert (Hnew : ∀ k, (k < 4)%nat → byte k new = if (k =? j)%nat then Z.lxor (byte j og) 3 else byte k og).
  { intros k Hk. unfold new. rewrite legalize_byte by done. destruct (Nat.eqb_spec k j) as [->|Hne].
    - unfold keep_locked. by rewrite Hb, flip_byte, Nat.eqb_refl.
    - apply keep_locked_same. rewrite flip_byte. by destruct (Nat.eqb_spec k j). }
  split.
  - intros E. specialize (Hnew j Hj). rewrite E, Nat.eqb_refl in Hnew.
    apply (f_equal (Z.lxor (byte j og))) in Hnew.
    by rewrite <- Z.lxor_assoc, Z.lxor_nilpotent, Z.lxor_0_l in Hnew.
  - apply word_ext; [apply legalize_ok|done|]. intros k Hk. rewrite legalize_byte by done.
    unfold keep_locked. rewrite Hnew by done. destruct (Nat.eqb_spec k j) as [->|]; [|by case_match].
    rewrite Z.lxor_spec, Hb. done.
Qed.

Lemma legalize_refl w : word_ok w → legalize w w = w.
Proof.
  intros Hw. apply word_ext; [apply legalize_ok|done|]. intros k Hk. rewrite legalize_byte by done.
  by apply keep_locked_same.
Qed.

Lemma land_pow2_test w n : 0 ≤ n → (0 <? Z.land w (2 ^ n)) = Z.testbit w n.
Proof.
  intros Hn. assert (E : Z.land w (2 ^ n) = if Z.testbit w n then 2 ^ n else 0).
  { apply Z.bits_inj'. intros i Hi. rewrite Z.land_spec, Z.pow2_bits_eqb by lia.
    destruct (Z.eqb_spec n i) as [<-|Hne].
    - rewrite andb_true_r. destruct (Z.testbit w n); [by rewrite Z.pow2_bits_true by lia|by rewrite Z.bits_0].
    - rewrite andb_false_r. destruct (Z.testbit w n); [by rewrite Z.pow2_bits_false by lia|by rewrite Z.bits_0]. }
  rewrite E. destruct (Z.testbit w n); [|done]. apply Z.ltb_lt. apply Z.pow_pos_nonneg; lia.
Qed.

Lemma lock_bit_test og j :
  (0 <? Z.land og (Z.shiftl (Z.shiftl 1 7) (Z.of_nat j * 8))) = Z.testbit (byte j og) 7.
Proof.
  rewrite byte_spec, Z.shiftl_shiftl, Z.shiftl_1_l, land_pow2_test by lia. cbn [Z.ltb Z.compare Pos.compare Pos.compare_cont andb].
  f_equal. lia.
Qed.

(** Writing a register's own value, directly or after another write, changes nothing. *)
Lemma config_set_same i hw v :
  word_ok (pmpconfig_get hw i) → legalize (pmpconfig_get hw i) v = pmpconfig_get hw i → pmpconfig_set i v hw = hw.
Proof.
  intros Hw E. unfold pmpconfig_set. rewrite E. destruct hw as [a b c d cfg addr]. unfold set_csr, pmpconfig_get. cbn.
  f_equal. destruct (cfg !! i) as [w|] eqn:Hi; [by apply list_insert_id|].
  apply list_insert_ge. by apply lookup_ge_None.
Qed.

Lemma config_get_set i v hw :
  (i < length (pmpcfg hw))%nat → pmpconfig_get (pmpconfig_set i v hw) i = legalize (pmpconfig_get hw i) v.
Proof. intros Hi. unfold pmpconfig_get at 1, pmpconfig_set. cbn. by rewrite list_lookup_insert_eq. Qed.

Lemma config_set_back i v hw :
  (i < length (pmpcfg hw))%nat → legalize (legalize (pmpconfig_get hw i) v) (pmpconfig_get hw i) = pmpconfig_get hw i →
  pmpconfig_set i (pmpconfig_get hw i) (pmpconfig_set i v hw) = hw.
Proof.
  intros Hi E. unfold pmpconfig_set at 1. rewrite config_get_set, E by done.
  unfold pmpconfig_set, set_csr, pmpconfig_get. destruct hw as [a b c d cfg addr]. cbn in *. f_equal.
  rewrite list_insert_insert_eq. apply list_insert_id.
  destruct (lookup_lt_is_Some_2 cfg i Hi) as [w ->]. done.
Qed.

Lemma config_get_ok hw i : Forall word_ok (pmpcfg hw) → word_ok (pmpconfig_get hw i).
Proof.
  intros H. unfold pmpconfig_get. destruct (pmpcfg hw !! i) eqn:E; [|by unfold word_ok; cbn].
  by eapply Forall_lookup_1.
Qed.

Lemma probe_spec n : ∀ i num mask hw,
  Forall word_ok (pmpcfg hw) → (i + n ≤ 4 * length (pmpcfg hw))%nat →
  ∃ mask', probe n i num mask hw =
      (num + Z.of_nat (length (filter (λ e, entry_locked hw e = false) (seq i n))), mask', hw) ∧
    ∀ j, 0 ≤ j → Z.testbit mask' j =
      Z.testbit mask j || (bool_decide (i ≤ Z.to_nat j < i + n)%nat && entry_locked hw (Z.to_nat j)).
Proof.
  induction n as [|n IH]; intros i num mask hw Hw Hl; cbn [probe].
  { exists mask. cbn. split; [by rewrite Z.add_0_r|]. intros j Hj. case_bool_decide; [lia|]. by rewrite orb_false_r. }
  assert (Hi : (i `div` 4 < length (pmpcfg hw))%nat) by lia. assert (Hm : (i `mod` 4 < 4)%nat) by lia.
  pose proof (config_get_ok hw (i `div` 4) Hw) as Hog.
  rewrite config_get_set by done. rewrite lock_bit_test. fold (entry_cfg hw i). fold (entry_locked hw i).
  destruct (entry_locked hw i) eqn:L.
  - pose proof (flip_locked _ _ Hog Hm L) as F. rewrite F, Z.eqb_refl.
    rewrite config_set_same by (rewrite ?config_get_set, ?F by done; by rewrite ?legalize_refl).
    rewrite config_set_same by done.
    destruct (IH (S i) num (Z.lor mask (Z.shiftl 1 (Z.of_nat i))) hw Hw ltac:(lia)) as (mask' & -> & B).
    exists mask'. cbn [seq]. rewrite filter_cons_False by congruence. split; [done|].
    intros j Hj. rewrite B, Z.lor_spec, Z.shiftl_1_l, Z.pow2_bits_eqb by lia.
    destruct (Z.eqb_spec (Z.of_nat i) j) as [<-|]; repeat case_bool_decide; rewrite ?Nat2Z.id, ?L; try lia;
      by destruct (Z.testbit mask _).
  - destruct (flip_unlocked _ _ Hog Hm L) as [F1 F2]. apply Z.eqb_neq in F1. rewrite F1.
    rewrite config_set_back by done.
    destruct (IH (S i) (num + 1) mask hw Hw ltac:(lia)) as (mask' & -> & B).
    exists mask'. cbn [seq]. rewrite filter_cons_True by done. cbn [length]. split; [f_equal; f_equal; lia|].
    intros j Hj. rewrite B by lia. destruct (decide (Z.to_nat j = i)) as [Ej|]; repeat case_bool_decide; try lia; try done.
    by rewrite Ej, L.
Qed.

(** Probing at boot: [PMP::new] leaves the registers as it found them,
    counts the unlocked entries, and sets bit [i] of the mask of locked regions
    exactly when physical entry [i] is locked.  The allocators test that mask
    with the number of a logical region, so they skip region [n] when entry [n]
    is locked, while region [n] is made of the entries [2n] and [2n+1]. *)
Theorem PMP_new_probes MAX cfg addr :
  Forall word_ok cfg → (2 * MAX ≤ 4 * length cfg)%nat →
  let hw := PMP_new MAX cfg addr in
  pmpcfg hw = cfg ∧ pmpaddr hw = addr ∧
  num_regions hw = Z.of_nat (length (filter (λ e, entry_locked hw e = false) (seq 0 (MAX * 2)))) ∧
  ∀ c n, (n < 2 * MAX)%nat → app_memory_region c ≠ Some n →
    is_index_locked_or_app (locked_region_mask hw) c n = entry_locked hw n.
Proof.
  intros Hw Hl. unfold PMP_new.
  destruct (probe_spec (MAX * 2) 0 0 0 (mkPMP 1 None 0 0 cfg addr) Hw ltac:(cbn; lia)) as (mask & -> & B).
  split_and!; [done..|]. intros c n Hn Ha. unfold is_index_locked_or_app.
  cbn [locked_region_mask]. specialize (B (Z.of_nat n) ltac:(lia)).
  rewrite Nat2Z.id, Z.bits_0, bool_decide_eq_true_2 in B by lia. cbn [orb andb] in B.
  rewrite bool_decide_eq_false_2, orb_false_r, Z.shiftl_1_l by done.
  rewrite land_pow2_test by lia. exact B.
Qed.
