(* ===== verification/PmpConfig.v ===== *)
(** * Configurations of the PMP driver

    Well-formedness of the configurations the driver builds and what each
    operation does to them: allocation of regions, the app memory region and
    its update. *)

From stdpp Require Import relations.
From S2P Require Import Prelude Registers Mpu Pmp PmpTheorems.

(** Regions made of machine integers with unlocked top-of-range permissions,
    and an app memory region that exists once it is set. *)
Record pmp_config_ok (MAX : nat) (c : PMPConfig) : Prop := {
  ok_length : length (pmp_regions c) = MAX;
  ok_regions : regions_ok (pmp_regions c);
  ok_app : ∀ n, app_memory_region c = Some n → ∃ r, pmp_regions c !! n = Some (Some r);
}.

Lemma PMPRegion_new_ok start size p :
  in_usize start → in_usize size → region_ok (PMPRegion_new start size p).
Proof. intros. split_and!; try done; by destruct p. Qed.

Lemma insert_regions_ok rs n ro :
  regions_ok rs → (∀ r, ro = Some r → region_ok r) → regions_ok (<[n := ro]> rs).
Proof. intros H Hr. by apply Forall_insert. Qed.

Lemma unused_region_number_Some mask c n :
  pmp_unused_region_number mask c = Some n →
  pmp_regions c !! n = Some None ∧ app_memory_region c ≠ Some n ∧ Z.testbit mask (Z.of_nat n) = false.
Proof.
  unfold pmp_unused_region_number. intros E. apply fmap_Some in E as ([i m] & E & ->).
  apply list_find_Some in E as (Hl & Hu & _). apply lookup_seq in Hl as [-> _]. cbn [snd] in *.
  unfold usable, is_index_locked_or_app in Hu. rewrite Z.shiftl_1_l, land_pow2_test in Hu by lia.
  apply andb_prop in Hu as [H1 H2]. apply negb_true_iff, orb_false_iff in H1 as [H1 H3].
  apply bool_decide_eq_false in H3. cbn in *. split_and!; [|done|done]. by repeat case_match.
Qed.

Lemma align_up_4_Ret x y : 0 ≤ x → align_up_4 x = Ret y → y = x + (- x) mod 4 ∧ in_usize y ∨ y = x ∧ x mod 4 = 0.
Proof.
  intros Hx. unfold align_up_4. destruct (Z.eqb_spec (x mod 4) 0) as [E|E]; [intros [= <-]; by right|].
  intros H. apply uadd_Ret in H as [-> H]. left. unfold in_usize. rewrite Z.mod_opp_l_nz by lia. lia.
Qed.

(** ** Operations keep configurations well-formed *)

Section wf.
Context (MAX : nat) (mask : Z).
Implicit Type c : PMPConfig.

Lemma place_region_ok start size p r :
  in_usize start → in_usize size → place_region start size p = Ret r → region_ok r.
Proof.
  intros Hs Hz E. unfold place_region in E.
  apply outcome_bind_Ret in E as (s & Es & E). apply outcome_bind_Ret in E as (z & Ez & E). injection E as <-.
  unfold in_usize in *. apply align_up_4_Ret in Es; [|lia]. apply align_up_4_Ret in Ez; [|lia].
  apply PMPRegion_new_ok; unfold in_usize in *; [lia|]. split_tests; lia.
Qed.

(** Filling a slot that is not the app region. *)
Lemma fill_ok c n r :
  pmp_config_ok MAX c → region_ok r → pmp_config_ok MAX (set_regions (<[n := Some r]> (pmp_regions c)) c).
Proof.
  intros [Hl Hr Ha] Hok. split; cbn.
  - by rewrite length_insert.
  - apply insert_regions_ok; [done|]. by intros ? [= <-].
  - intros m Hm. destruct (Ha m Hm) as [q Hq]. pose proof (lookup_lt_Some _ _ _ Hq).
    destruct (decide (n = m)) as [->|]; [rewrite list_lookup_insert_eq|rewrite list_lookup_insert_ne]; eauto.
Qed.

Lemma pmp_allocate_region_ok us uz mrs p c r c' :
  in_usize us → in_usize mrs → pmp_config_ok MAX c →
  pmp_allocate_region mask us uz mrs p c = Ret (r, c') → pmp_config_ok MAX c'.
Proof.
  intros Hus Hm Hc E. unfold pmp_allocate_region in E.
  apply outcome_bind_Ret in E as (ov & _ & E). destruct ov; [by injection E as <- <-|].
  destruct (pmp_unused_region_number mask c); [|by injection E as <- <-].
  apply outcome_bind_Ret in E as (reg & Er & E). injection E as <- <-.
  apply fill_ok; [done|]. exact (place_region_ok _ _ _ _ Hus Hm Er).
Qed.

Lemma pmp_remove_memory_region_ok reg c r c' :
  pmp_config_ok MAX c → pmp_remove_memory_region mask reg c = (r, c') → pmp_config_ok MAX c'.
Proof.
  intros Hc. unfold pmp_remove_memory_region. destruct (list_find _ _) as [[i x]|]; [|by intros [= <- <-]].
  destruct (is_index_locked_or_app mask c i) eqn:L; intros [= <- <-]; [done|].
  apply orb_false_iff in L as [_ L]. apply bool_decide_eq_false in L. destruct Hc as [Hl Hr Ha].
  split; cbn; [by rewrite length_insert|by apply insert_regions_ok|].
  intros m Hm. destruct (decide (i = m)) as [->|]; [done|]. rewrite list_lookup_insert_ne by done. by apply Ha.
Qed.

(** What a successful allocation of the app memory region returns. *)
Lemma pmp_allocate_app_Some us uz minm app ker p c start size c' :
  0 ≤ us → 0 ≤ minm → 0 ≤ app → 0 ≤ ker →
  pmp_allocate_app_memory_region mask us uz minm app ker p c = Ret (Some (start, size), c') →
  ∃ n app', app ≤ app' ∧ app' = app + (- app) mod 4 ∧ app' + ker ≤ size ∧ minm ≤ size ∧ start = us ∧
    us + size ≤ us + uz < usize_bound ∧ app_memory_region c' = Some n ∧ (n < length (pmp_regions c))%nat ∧
    pmp_regions c' = <[n := Some (PMPRegion_new us app' p)]> (pmp_regions c).
Proof.
  intros Hus Hm Ha Hk E. unfold pmp_allocate_app_memory_region in E.
  apply outcome_bind_Ret in E as (ov & _ & E). destruct ov; [done|].
  set (slot := match app_memory_region c with Some n => Some n | None => _ end) in E. destruct slot as [n|]; [|done].
  apply outcome_bind_Ret in E as (app' & E1 & E). apply outcome_bind_Ret in E as (both & E2 & E).
  apply uadd_Ret in E2 as [-> Hb]. apply outcome_bind_Ret in E as (rz & E3 & E).
  apply outcome_bind_Ret in E as (be & E4 & E). apply uadd_Ret in E4 as [-> H4].
  apply outcome_bind_Ret in E as (lim & E5 & E). apply uadd_Ret in E5 as [-> H5].
  destruct (Z.ltb_spec (us + uz) (us + rz)); [done|].
  apply outcome_bind_Ret in E as (rs & E6 & E). injection E as <- <- <-.
  unfold index_set in E6. destruct (_ && _) eqn:Hn; [|done]. injection E6 as <-.
  apply andb_prop in Hn as [_ Hn]. apply Z.ltb_lt in Hn. rewrite Nat2Z.id.
  assert (Happ : app ≤ app' ∧ app' = app + (- app) mod 4).
  { apply align_up_4_Ret in E1; [|done]. pose proof (Z.mod_pos_bound (- app) 4 ltac:(lia)).
    destruct E1 as [[-> _]|[-> Hz]]; [lia|]. rewrite Z.mod_opp_l_z by lia. lia. }
  exists n, app'. unfold in_usize in *.
  apply align_up_4_Ret in E3; [|lia]. pose proof (Z.mod_pos_bound (- Z.max minm (app' + ker)) 4 ltac:(lia)).
  split_and!; try done; lia.
Qed.

Lemma pmp_allocate_app_None us uz minm app ker p c c' :
  pmp_allocate_app_memory_region mask us uz minm app ker p c = Ret (None, c') → c' = c.
Proof.
  intros E. unfold pmp_allocate_app_memory_region in E.
  apply outcome_bind_Ret in E as (ov & _ & E). destruct ov; [by injection E as <-|].
  set (slot := match app_memory_region c with Some n => Some n | None => _ end) in E.
  destruct slot as [n|]; [|by injection E as <-].
  do 5 (apply outcome_bind_Ret in E as (? & _ & E)).
  destruct (_ <? _); [by injection E as <-|]. by apply outcome_bind_Ret in E as (? & _ & E).
Qed.

Lemma pmp_allocate_app_ok us uz minm app ker p c r c' :
  in_usize us → in_usize minm → 0 ≤ app → 0 ≤ ker → pmp_config_ok MAX c →
  pmp_allocate_app_memory_region mask us uz minm app ker p c = Ret (r, c') → pmp_config_ok MAX c'.
Proof.
  intros Hus Hm Ha Hk Hc E. destruct r as [[start size]|]; [|by apply pmp_allocate_app_None in E as ->].
  apply pmp_allocate_app_Some in E as (n & app' & H1 & _ & H2 & _ & -> & H3 & En & Hn & Er);
    [|unfold in_usize in *; lia || done..]. destruct Hc as [Hl Hr _]. split.
  - by rewrite Er, length_insert.
  - rewrite Er. apply insert_regions_ok; [done|]. intros ? [= <-].
    apply PMPRegion_new_ok; [done|]. unfold in_usize in *. lia.
  - rewrite En. intros m [= <-]. rewrite Er, list_lookup_insert_eq by lia. eauto.
Qed.

Lemma pmp_update_ok ab kb p c r c' :
  in_usize ab → pmp_config_ok MAX c →
  pmp_update_app_memory_region ab kb p c = Ret (r, c') → pmp_config_ok MAX c'.
Proof.
  intros Hab Hc E. unfold pmp_update_app_memory_region in E.
  apply outcome_bind_Ret in E as (reg & Eg & E). destruct reg as [reg|]; [|by injection E as <- <-].
  destruct (kb <? ab); [by injection E as <- <-|]. apply outcome_bind_Ret in E as (z & Ez & E).
  apply usub_Ret in Ez as [-> Hz]. injection E as <- <-. apply fill_ok; [done|].
  unfold index_get in Eg. case_match eqn:Hg; [|done]. injection Eg as ->.
  destruct (Z.ltb_spec (Z.of_nat (default 0%nat (app_memory_region c))) 0); [lia|]. rewrite Nat2Z.id in Hg.
  destruct Hc as [_ Hr _], (regions_ok_lookup _ _ _ Hr Hg) as (_ & _ & Hs & _).
  apply PMPRegion_new_ok; [done|]. unfold in_usize in *. lia.
Qed.

(** One operation on a configuration, with arguments of the right width. *)
Inductive pmp_step : PMPConfig → PMPConfig → Prop :=
| step_reset c : pmp_step c (pmp_reset_config c)
| step_allocate us uz mrs p c r c' :
    in_usize us → in_usize mrs → pmp_allocate_region mask us uz mrs p c = Ret (r, c') → pmp_step c c'
| step_remove reg c r c' : pmp_remove_memory_region mask reg c = (r, c') → pmp_step c c'
| step_allocate_app us uz minm app ker p c r c' :
    in_usize us → in_usize minm → 0 ≤ app → 0 ≤ ker →
    pmp_allocate_app_memory_region mask us uz minm app ker p c = Ret (r, c') → pmp_step c c'
| step_update ab kb p c r c' :
    in_usize ab → pmp_update_app_memory_region ab kb p c = Ret (r, c') → pmp_step c c'
| step_configure hw c hw' c' : pmp_configure_mpu hw c = (hw', c') → pmp_step c c'.

Lemma pmp_step_ok c c' : pmp_config_ok MAX c → pmp_step c c' → pmp_config_ok MAX c'.
Proof.
  intros Hc Hs. revert Hc.
  destruct Hs as [c|us uz mrs p c r c' H1 H2 E|reg c r c' E|us uz minm app ker p c r c' H1 H2 H3 H4 E
                 |ab kb p c r c' H1 E|hw c hw' c' E]; intros Hc.
  - destruct Hc as [Hl _ _]. split; cbn; [by rewrite length_replicate|apply Forall_replicate; by intros|done].
  - exact (pmp_allocate_region_ok _ _ _ _ _ _ _ H1 H2 Hc E).
  - exact (pmp_remove_memory_region_ok _ _ _ _ Hc E).
  - exact (pmp_allocate_app_ok _ _ _ _ _ _ _ _ _ H1 H2 H3 H4 Hc E).
  - exact (pmp_update_ok _ _ _ _ _ _ H1 Hc E).
  - unfold pmp_configure_mpu in E. case_match; injection E as <- <-; [|done]. by destruct Hc.
Qed.

(** C33.  Configurations stay well typed: from [new_config] on, through any
    sequence of driver operations, a configuration has as many regions as the
    driver was built for, all with machine-integer bounds and unlocked
    top-of-range permissions, and its app memory region, once set, names a
    region that exists. *)
Theorem pmp_config_well_typed hw c0 hw' c :
  pmp_new_config MAX hw = (Some c0, hw') → rtc pmp_step c0 c → pmp_config_ok MAX c.
Proof.
  intros E Hr. assert (H0 : pmp_config_ok MAX c0).
  { unfold pmp_new_config in E. case_match; [|done]. injection E as <- _.
    split; cbn; [by rewrite length_replicate|apply Forall_replicate; by intros|done]. }
  clear E. induction Hr as [|c c' c'' Hs _ IH]; [done|]. by apply IH, (pmp_step_ok c).
Qed.

End wf.

(** ** Overlap and allocation *)

(** Ranges reported as disjoint share at most one word; ranges that are
    reported as overlapping do overlap. *)
Lemma pmp_overlaps_tolerance r start size b :
  0 ≤ start → 0 ≤ size → 0 ≤ (pmp_location r).1 → 0 < (pmp_location r).2 →
  pmp_overlaps r start size = Ret b →
  let rs := (pmp_location r).1 in
  let re := (pmp_location r).1 + (pmp_location r).2 in
  if b then rs < start + size ∧ start < re
  else Z.min re (start + size) - Z.max rs start ≤ 4.
Proof.
  intros Hs Hz Hr1 Hr2. unfold pmp_overlaps. destruct (pmp_location r) as [rs rz]. cbn [fst snd] in *.
  intros E. apply outcome_bind_Ret in E as (oe & E1 & E). apply uadd_Ret in E1 as [-> _].
  apply outcome_bind_Ret in E as (re & E2 & E). apply uadd_Ret in E2 as [-> _].
  destruct (Z.eqb_spec (rs + rz) 0); [lia|]. rewrite andb_false_r in E.
  apply outcome_bind_Ret in E as (oe & E3 & E). apply usub_Ret in E3 as [-> _].
  destruct (Z.ltb_spec rs (start + size - 4)).
  - apply outcome_bind_Ret in E as (re & E4 & E). apply usub_Ret in E4 as [-> _].
    destruct (Z.ltb_spec start (rs + rz - 4)); injection E as <-; lia.
  - injection E as <-. lia.
Qed.

Lemma align_up_4_ok x : 0 ≤ x → x + 4 ≤ usize_bound → align_up_4 x = Ret (x + (- x) mod 4).
Proof.
  intros Hx Hb. unfold align_up_4. pose proof (Z.mod_pos_bound x 4 ltac:(lia)).
  destruct (Z.eqb_spec (x mod 4) 0) as [E|E].
  - rewrite Z.mod_opp_l_z by lia. f_equal. lia.
  - rewrite Z.mod_opp_l_nz by lia. rewrite uadd_ok by lia. f_equal.
Qed.

(** A region allocation that finds a free slot always succeeds, with the
    start and the size rounded up to words and the size to at least eight
    bytes.  The size of the memory on offer only takes part in the overlap
    test, so the region lies in that memory exactly when there happens to be
    room. *)
Theorem pmp_allocate_region_result MAX mask us uz mrs p c n :
  pmp_config_ok MAX c → 0 ≤ us → 0 ≤ mrs → us + 4 ≤ usize_bound → mrs + 4 ≤ usize_bound →
  pmp_any_overlaps (pmp_regions c) us uz = Ret false → pmp_unused_region_number mask c = Some n →
  let start := us + (- us) mod 4 in
  let size := Z.max 8 (mrs + (- mrs) mod 4) in
  ∃ c', pmp_allocate_region mask us uz mrs p c = Ret (Some (Region_new start size), c') ∧
    pmp_regions c' = <[n := Some (PMPRegion_new start size p)]> (pmp_regions c) ∧
    app_memory_region c' = app_memory_region c ∧ pmp_is_dirty c' = true ∧
    (start + size ≤ us + uz ↔ (- us) mod 4 + size ≤ uz).
Proof.
  intros Hc Hus Hm Hbu Hbm Hov Hn start size. eexists. split.
  { unfold pmp_allocate_region. rewrite Hov. cbn [mbind outcome_bind]. rewrite Hn.
    unfold place_region. rewrite !align_up_4_ok by done. cbn [mbind outcome_bind].
    fold start. replace (if _ <? 8 then 8 else _) with size by (unfold size; split_tests; lia). reflexivity. }
  split_and!; [done..|]. unfold start. lia.
Qed.

(** ** Concrete configurations

    Sixteen entries, as a reset leaves them; a configuration with a flash and a
    memory region. *)

Definition ex_pmp : PMP := mkPMP 1 None 0 16 (replicate 4 0) (replicate 16 0).

Definition ex_pmp_regions : list (option PMPRegion) :=
  Some (PMPRegion_new 262144 128 ReadExecuteOnly) :: Some (PMPRegion_new 536887296 66 ReadWriteOnly)
  :: replicate 6 None.

Definition ex_pmp_config : PMPConfig := mkPMPConfig 1 ex_pmp_regions true (Some 1%nat).

Lemma ex_pmp_unlocked : unlocked ex_pmp.
Proof.
  intros e. unfold entry_locked, entry_cfg.
  replace (pmpconfig_get ex_pmp (e `div` 4)) with 0; [unfold byte; by rewrite Z.div_0_l by lia|].
  unfold pmpconfig_get, ex_pmp. cbn [pmpcfg].
  destruct (replicate 4 0 !! (e `div` 4)%nat) as [w|] eqn:E; [|done]. by apply lookup_replicate in E as [-> _].
Qed.

Lemma ex_pmp_sized : sized 8 ex_pmp.
Proof. split; cbn; lia. Qed.

Lemma ex_pmp_regions_ok : regions_ok ex_pmp_regions.
Proof.
  repeat apply Forall_cons_2; [..|apply Forall_nil_2];
    intros r' [= <-]; apply PMPRegion_new_ok; unfold in_usize; lia.
Qed.

Lemma pmp_configure_installs_witness :
  ∃ hw' c', pmp_configure_mpu ex_pmp ex_pmp_config = (hw', c') ∧
    pmp_user_access hw' 262144 = mkAccess true false true ∧
    pmp_user_access hw' 536887359 = mkAccess true true false ∧
    pmp_user_access hw' 536887360 = no_access ∧ pmp_is_dirty c' = false.
Proof.
  destruct (pmp_configure_mpu ex_pmp ex_pmp_config) as [hw' c'] eqn:E. exists hw', c'.
  destruct (pmp_configure_installs 8 ex_pmp ex_pmp_config hw' c' ex_pmp_sized ex_pmp_unlocked eq_refl
              ex_pmp_regions_ok) as (Ha & _ & _ & _ & _ & Hd & _); [discriminate|exact E|].
  split; [reflexivity|]. rewrite !Ha.
  do 3 (split; [vm_compute; reflexivity|]). exact Hd.
Defined.

Lemma kernel_regions_survive_witness :
  let hw1 := enable_kernel_mpu ex_pmp_config ex_pmp in
  locked_region hw1 1 (PMPRegion_new 536887296 66 ReadWriteOnly) ∧
  locked_region (pmp_configure_mpu hw1 ex_pmp_config).1 1 (PMPRegion_new 536887296 66 ReadWriteOnly).
Proof.
  exact (kernel_regions_survive 8 ex_pmp_config ex_pmp ex_pmp_config 1 _ ex_pmp_sized ex_pmp_unlocked eq_refl
           ex_pmp_regions_ok ex_pmp_regions_ok eq_refl).
Defined.

(** Entry 5, half of logical region 2, is locked: the mask makes the driver
    avoid region 5, and region 2 is handed out. *)
Lemma PMP_new_probes_witness :
  let hw := PMP_new 8 [0; 39424; 0; 0] (replicate 16 0) in
  num_regions hw = 15 ∧ entry_locked hw 5 = true ∧
  is_index_locked_or_app (locked_region_mask hw) (mkPMPConfig 1 (replicate 8 None) true None) 5 = true ∧
  is_index_locked_or_app (locked_region_mask hw) (mkPMPConfig 1 (replicate 8 None) true None) 2 = false.
Proof.
  destruct (PMP_new_probes 8 [0; 39424; 0; 0] (replicate 16 0)) as (_ & _ & Hn & Hm);
    [repeat constructor; discriminate|cbn; lia|]. cbn zeta.
  split; [rewrite Hn; vm_compute; reflexivity|]. split; [vm_compute; reflexivity|].
  split; (rewrite Hm; [vm_compute; reflexivity|lia|discriminate]).
Defined.

Lemma pmp_config_well_typed_witness :
  ∃ c0 hw' c, pmp_new_config 8 ex_pmp = (Some c0, hw') ∧
    pmp_allocate_region 0 262144 128 128 ReadExecuteOnly c0
    = Ret (Some (Region_new 262144 128), c) ∧ pmp_config_ok 8 c.
Proof.
  eexists _, _, _. split; [reflexivity|]. split; [vm_compute; reflexivity|].
  eapply (pmp_config_well_typed 8 0 ex_pmp); [reflexivity|]. eapply rtc_once, (step_allocate 0 262144 128 128 ReadExecuteOnly);
    [unfold in_usize; lia..|vm_compute; reflexivity].
Defined.

(** Fifteen bytes are on offer, a region of 4096 bytes is handed out. *)
Lemma pmp_allocate_region_result_witness :
  ∃ c', pmp_allocate_region 0 536870913 15 4096 ReadWriteOnly (mkPMPConfig 1 (replicate 8 None) true None)
        = Ret (Some (Region_new 536870916 4096), c') ∧ ¬ (536870916 + 4096 ≤ 536870913 + 15).
Proof.
  destruct (pmp_allocate_region_result 8 0 536870913 15 4096 ReadWriteOnly
              (mkPMPConfig 1 (replicate 8 None) true None) 0) as (c' & E & _ & _ & _ & _);
    [split; [reflexivity|apply Forall_replicate; discriminate|discriminate]|lia..|reflexivity|reflexivity|].
  exists c'. split; [exact E|lia].
Defined.
