(* ===== verification/Syscall.v ===== *)
(** * System call ABI

    kernel/src/errorcode.rs, kernel/src/syscall.rs, the [CommandReturn] wrapper
    of kernel/src/syscall_driver.rs and the process errors of
    kernel/src/process.rs.  Registers and pointers are 32-bit integers.

    The theorems relate the code to the TRD104 wire format: the encoder is
    inverted by a decoder written from the document, and decoding a system call
    number and its registers is total on the eight classes and refuses the
    rest. *)

From S2P Require Import Prelude.

(** ** Error codes *)

Inductive ErrorCode : Type :=
| FAIL | BUSY | ALREADY | OFF | RESERVE | INVAL | SIZE | CANCEL | NOMEM
| NOSUPPORT | NODEVICE | UNINSTALLED | NOACK.

#[export] Instance ErrorCode_eq_dec : EqDecision ErrorCode.
Proof. solve_decision. Defined.

(** [err as usize]. *)
Definition usize_from_ErrorCode (e : ErrorCode) : Z :=
  match e with
  | FAIL => 1 | BUSY => 2 | ALREADY => 3 | OFF => 4 | RESERVE => 5
  | INVAL => 6 | SIZE => 7 | CANCEL => 8 | NOMEM => 9 | NOSUPPORT => 10
  | NODEVICE => 11 | UNINSTALLED => 12 | NOACK => 13
  end.

Definition ErrorCode_try_from (rc : result unit ErrorCode) : result ErrorCode unit :=
  match rc with
  | Ok _ => Err tt
  | Err FAIL => Ok FAIL
  | Err BUSY => Ok BUSY
  | Err ALREADY => Ok ALREADY
  | Err OFF => Ok OFF
  | Err RESERVE => Ok RESERVE
  | Err INVAL => Ok INVAL
  | Err SIZE => Ok SIZE
  | Err CANCEL => Ok CANCEL
  | Err NOMEM => Ok NOMEM
  | Err NOSUPPORT => Ok NOSUPPORT
  | Err NODEVICE => Ok NODEVICE
  | Err UNINSTALLED => Ok UNINSTALLED
  | Err NOACK => Ok NOACK
  end.

Definition result_from_ErrorCode (ec : ErrorCode) : result unit ErrorCode :=
  match ec with
  | FAIL => Err FAIL
  | BUSY => Err BUSY
  | ALREADY => Err ALREADY
  | OFF => Err OFF
  | RESERVE => Err RESERVE
  | INVAL => Err INVAL
  | SIZE => Err SIZE
  | CANCEL => Err CANCEL
  | NOMEM => Err NOMEM
  | NOSUPPORT => Err NOSUPPORT
  | NODEVICE => Err NODEVICE
  | UNINSTALLED => Err UNINSTALLED
  | NOACK => Err NOACK
  end.

Definition into_statuscode (r : result unit ErrorCode) : Z :=
  match r with Ok _ => 0 | Err e => usize_from_ErrorCode e end.

(** Errors of the process layer ([process::Error]). *)
Inductive ProcessError : Type :=
| NoSuchApp | OutOfMemory | AddressOutOfBounds | InactiveApp | KernelError
| AlreadyInUse.

#[export] Instance ProcessError_eq_dec : EqDecision ProcessError.
Proof. solve_decision. Defined.

Definition ErrorCode_from_ProcessError (err : ProcessError) : ErrorCode :=
  match err with
  | OutOfMemory => NOMEM
  | AddressOutOfBounds => INVAL
  | NoSuchApp => INVAL
  | InactiveApp => FAIL
  | KernelError => FAIL
  | AlreadyInUse => FAIL
  end.

Definition result_from_ProcessError (err : ProcessError) : result unit ErrorCode :=
  match err with
  | OutOfMemory => Err NOMEM
  | AddressOutOfBounds => Err INVAL
  | NoSuchApp => Err INVAL
  | InactiveApp => Err FAIL
  | KernelError => Err FAIL
  | AlreadyInUse => Err FAIL
  end.

(** ** System call arguments *)

Inductive SyscallClass : Type :=
| ClassYield | ClassSubscribe | ClassCommand | ClassReadWriteAllow
| ClassReadOnlyAllow | ClassMemop | ClassExit | ClassUserspaceReadableAllow.

Inductive YieldCall : Type := YieldNoWait | YieldWait.

(** The discriminants of the two enumerations. *)
Definition SyscallClass_u8 (c : SyscallClass) : Z :=
  match c with
  | ClassYield => 0 | ClassSubscribe => 1 | ClassCommand => 2
  | ClassReadWriteAllow => 3 | ClassReadOnlyAllow => 4 | ClassMemop => 5
  | ClassExit => 6 | ClassUserspaceReadableAllow => 7
  end.

Definition YieldCall_usize (y : YieldCall) : Z :=
  match y with YieldNoWait => 0 | YieldWait => 1 end.

Definition SyscallClass_try_from (syscall_class_id : Z) : result SyscallClass Z :=
  match syscall_class_id with
  | 0 => Ok ClassYield
  | 1 => Ok ClassSubscribe
  | 2 => Ok ClassCommand
  | 3 => Ok ClassReadWriteAllow
  | 4 => Ok ClassReadOnlyAllow
  | 5 => Ok ClassMemop
  | 6 => Ok ClassExit
  | 7 => Ok ClassUserspaceReadableAllow
  | i => Err i
  end.

Inductive Syscall : Type :=
| SysYield (which address : Z)
| SysSubscribe (driver_number subdriver_number upcall_ptr appdata : Z)
| SysCommand (driver_number subdriver_number arg0 arg1 : Z)
| SysReadWriteAllow (driver_number subdriver_number allow_address allow_size : Z)
| SysUserspaceReadableAllow (driver_number subdriver_number allow_address allow_size : Z)
| SysReadOnlyAllow (driver_number subdriver_number allow_address allow_size : Z)
| SysMemop (operand arg0 : Z)
| SysExit (which completion_code : Z).

#[export] Instance Syscall_eq_dec : EqDecision Syscall.
Proof. solve_decision. Defined.

Definition from_register_arguments (syscall_number r0 r1 r2 r3 : Z) : option Syscall :=
  match SyscallClass_try_from syscall_number with
  | Ok ClassYield => Some (SysYield r0 r1)
  | Ok ClassSubscribe => Some (SysSubscribe r0 r1 r2 r3)
  | Ok ClassCommand => Some (SysCommand r0 r1 r2 r3)
  | Ok ClassReadWriteAllow => Some (SysReadWriteAllow r0 r1 r2 r3)
  | Ok ClassUserspaceReadableAllow => Some (SysUserspaceReadableAllow r0 r1 r2 r3)
  | Ok ClassReadOnlyAllow => Some (SysReadOnlyAllow r0 r1 r2 r3)
  | Ok ClassMemop => Some (SysMemop r0 r1)
  | Ok ClassExit => Some (SysExit r0 r1)
  | Err _ => None
  end.

(** ** System call return values *)

Inductive SyscallReturnVariant : Type :=
| VFailure | VFailureU32 | VFailureU32U32 | VFailureU64
| VSuccess | VSuccessU32 | VSuccessU32U32 | VSuccessU64 | VSuccessU32U32U32
| VSuccessU32U64.

(** [variant as u32]. *)
Definition variant_u32 (v : SyscallReturnVariant) : Z :=
  match v with
  | VFailure => 0 | VFailureU32 => 1 | VFailureU32U32 => 2 | VFailureU64 => 3
  | VSuccess => 128 | VSuccessU32 => 129 | VSuccessU32U32 => 130
  | VSuccessU64 => 131 | VSuccessU32U32U32 => 132 | VSuccessU32U64 => 133
  end.

Inductive SyscallReturn : Type :=
| Failure (e : ErrorCode)
| FailureU32 (e : ErrorCode) (data0 : Z)
| FailureU32U32 (e : ErrorCode) (data0 data1 : Z)
| FailureU64 (e : ErrorCode) (data0 : Z)
| Success
| SuccessU32 (data0 : Z)
| SuccessU32U32 (data0 data1 : Z)
| SuccessU32U32U32 (data0 data1 data2 : Z)
| SuccessU64 (data0 : Z)
| SuccessU32U64 (data0 data1 : Z)
| AllowReadWriteSuccess (ptr len : Z)
| AllowReadWriteFailure (e : ErrorCode) (ptr len : Z)
| UserspaceReadableAllowSuccess (ptr len : Z)
| UserspaceReadableAllowFailure (e : ErrorCode) (ptr len : Z)
| AllowReadOnlySuccess (ptr len : Z)
| AllowReadOnlyFailure (e : ErrorCode) (ptr len : Z)
| SubscribeSuccess (ptr data : Z)
| SubscribeFailure (e : ErrorCode) (ptr data : Z).

#[export] Instance SyscallReturn_eq_dec : EqDecision SyscallReturn.
Proof. solve_decision. Defined.

Definition is_success (r : SyscallReturn) : bool :=
  match r with
  | Success => true
  | SuccessU32 _ => true
  | SuccessU32U32 _ _ => true
  | SuccessU32U32U32 _ _ _ => true
  | SuccessU64 _ => true
  | SuccessU32U64 _ _ => true
  | AllowReadWriteSuccess _ _ => true
  | UserspaceReadableAllowSuccess _ _ => true
  | AllowReadOnlySuccess _ _ => true
  | SubscribeSuccess _ _ => true
  | Failure _ => false
  | FailureU32 _ _ => false
  | FailureU32U32 _ _ _ => false
  | FailureU64 _ _ => false
  | AllowReadWriteFailure _ _ _ => false
  | UserspaceReadableAllowFailure _ _ _ => false
  | AllowReadOnlyFailure _ _ _ => false
  | SubscribeFailure _ _ _ => false
  end.

(** [to_be_bytes] of an [n]-byte integer and [from_be_bytes]. *)
Fixpoint to_be_bytes (n : nat) (z : Z) : list Z :=
  match n with
  | O => []
  | S n' => Z.land (Z.shiftr z (8 * Z.of_nat n')) 255 :: to_be_bytes n' z
  end.

Definition from_be_bytes (bs : list Z) : Z :=
  foldl (λ acc b, Z.lor (Z.shiftl acc 8) b) 0 bs.

Definition u64_to_be_u32s (src : Z) : Z * Z :=
  let src_bytes := to_be_bytes 8 src in
  let src_msb := from_be_bytes (take 4 src_bytes) in
  let src_lsb := from_be_bytes (take 4 (drop 4 src_bytes)) in
  (src_msb, src_lsb).

(** The four argument registers, written in place by the encoder. *)
Record Regs := mkRegs { a0 : Z; a1 : Z; a2 : Z; a3 : Z }.

Definition set_a0 (v : Z) (r : Regs) : Regs := mkRegs v (a1 r) (a2 r) (a3 r).
Definition set_a1 (v : Z) (r : Regs) : Regs := mkRegs (a0 r) v (a2 r) (a3 r).
Definition set_a2 (v : Z) (r : Regs) : Regs := mkRegs (a0 r) (a1 r) v (a3 r).
Definition set_a3 (v : Z) (r : Regs) : Regs := mkRegs (a0 r) (a1 r) (a2 r) v.

Definition encode_syscall_return (r : SyscallReturn) (regs : Regs) : Regs :=
  match r with
  | Failure e =>
      regs |> set_a0 (variant_u32 VFailure) |> set_a1 (usize_from_ErrorCode e)
  | FailureU32 e data0 =>
      regs |> set_a0 (variant_u32 VFailureU32) |> set_a1 (usize_from_ErrorCode e)
           |> set_a2 data0
  | FailureU32U32 e data0 data1 =>
      regs |> set_a0 (variant_u32 VFailureU32U32) |> set_a1 (usize_from_ErrorCode e)
           |> set_a2 data0 |> set_a3 data1
  | FailureU64 e data0 =>
      let '(data0_msb, data0_lsb) := u64_to_be_u32s data0 in
      regs |> set_a0 (variant_u32 VFailureU64) |> set_a1 (usize_from_ErrorCode e)
           |> set_a2 data0_lsb |> set_a3 data0_msb
  | Success => regs |> set_a0 (variant_u32 VSuccess)
  | SuccessU32 data0 => regs |> set_a0 (variant_u32 VSuccessU32) |> set_a1 data0
  | SuccessU32U32 data0 data1 =>
      regs |> set_a0 (variant_u32 VSuccessU32U32) |> set_a1 data0 |> set_a2 data1
  | SuccessU32U32U32 data0 data1 data2 =>
      regs |> set_a0 (variant_u32 VSuccessU32U32U32) |> set_a1 data0
           |> set_a2 data1 |> set_a3 data2
  | SuccessU64 data0 =>
      let '(data0_msb, data0_lsb) := u64_to_be_u32s data0 in
      regs |> set_a0 (variant_u32 VSuccessU64) |> set_a1 data0_lsb |> set_a2 data0_msb
  | SuccessU32U64 data0 data1 =>
      let '(data1_msb, data1_lsb) := u64_to_be_u32s data1 in
      regs |> set_a0 (variant_u32 VSuccessU32U64) |> set_a1 data0
           |> set_a2 data1_lsb |> set_a3 data1_msb
  | AllowReadWriteSuccess ptr len =>
      regs |> set_a0 (variant_u32 VSuccessU32U32) |> set_a1 ptr |> set_a2 len
  | UserspaceReadableAllowSuccess ptr len =>
      regs |> set_a0 (variant_u32 VSuccessU32U32) |> set_a1 ptr |> set_a2 len
  | AllowReadWriteFailure err ptr len =>
      regs |> set_a0 (variant_u32 VFailureU32U32) |> set_a1 (usize_from_ErrorCode err)
           |> set_a2 ptr |> set_a3 len
  | UserspaceReadableAllowFailure err ptr len =>
      regs |> set_a0 (variant_u32 VFailureU32U32) |> set_a1 (usize_from_ErrorCode err)
           |> set_a2 ptr |> set_a3 len
  | AllowReadOnlySuccess ptr len =>
      regs |> set_a0 (variant_u32 VSuccessU32U32) |> set_a1 ptr |> set_a2 len
  | AllowReadOnlyFailure err ptr len =>
      regs |> set_a0 (variant_u32 VFailureU32U32) |> set_a1 (usize_from_ErrorCode err)
           |> set_a2 ptr |> set_a3 len
  | SubscribeSuccess ptr data =>
      regs |> set_a0 (variant_u32 VSuccessU32U32) |> set_a1 ptr |> set_a2 data
  | SubscribeFailure err ptr data =>
      regs |> set_a0 (variant_u32 VFailureU32U32) |> set_a1 (usize_from_ErrorCode err)
           |> set_a2 ptr |> set_a3 data
  end.

(** ** [CommandReturn]: the return values a capsule may build *)

Record CommandReturn := mkCommandReturn { into_inner : SyscallReturn }.

Definition from_command_return (res : CommandReturn) : SyscallReturn := into_inner res.

Definition CommandReturn_failure (rc : ErrorCode) := mkCommandReturn (Failure rc).
Definition CommandReturn_failure_u32 (rc : ErrorCode) (d0 : Z) :=
  mkCommandReturn (FailureU32 rc d0).
Definition CommandReturn_failure_u32_u32 (rc : ErrorCode) (d0 d1 : Z) :=
  mkCommandReturn (FailureU32U32 rc d0 d1).
Definition CommandReturn_failure_u64 (rc : ErrorCode) (d0 : Z) :=
  mkCommandReturn (FailureU64 rc d0).
Definition CommandReturn_success := mkCommandReturn Success.
Definition CommandReturn_success_u32 (d0 : Z) := mkCommandReturn (SuccessU32 d0).
Definition CommandReturn_success_u32_u32 (d0 d1 : Z) :=
  mkCommandReturn (SuccessU32U32 d0 d1).
Definition CommandReturn_success_u32_u32_u32 (d0 d1 d2 : Z) :=
  mkCommandReturn (SuccessU32U32U32 d0 d1 d2).
Definition CommandReturn_success_u64 (d0 : Z) := mkCommandReturn (SuccessU64 d0).
Definition CommandReturn_success_u32_u64 (d0 d1 : Z) :=
  mkCommandReturn (SuccessU32U64 d0 d1).

(** [ErrorCode::try_from(rc).unwrap()] is the panic of the last arm. *)
Definition CommandReturn_from_result (rc : result unit ErrorCode) : outcome CommandReturn :=
  match rc with
  | Ok _ => Ret CommandReturn_success
  | _ => match ErrorCode_try_from rc with
         | Ok e => Ret (CommandReturn_failure e)
         | Err _ => Panic
         end
  end.

Definition CommandReturn_from_ProcessError (perr : ProcessError) : CommandReturn :=
  CommandReturn_failure (ErrorCode_from_ProcessError perr).

(** ** The wire format of TRD104

    [trd104_decode] is written from the table of doc/reference/trd104-syscalls.md
    (section 3.2): the variant number in the first register, then the payload,
    64-bit values least significant word first.  It is the reference the
    encoder is compared with. *)

Definition trd104_error (code : Z) : option ErrorCode :=
  match code with
  | 1 => Some FAIL | 2 => Some BUSY | 3 => Some ALREADY | 4 => Some OFF
  | 5 => Some RESERVE | 6 => Some INVAL | 7 => Some SIZE | 8 => Some CANCEL
  | 9 => Some NOMEM | 10 => Some NOSUPPORT | 11 => Some NODEVICE
  | 12 => Some UNINSTALLED | 13 => Some NOACK | _ => None
  end.

Definition trd104_decode (r : Regs) : option SyscallReturn :=
  match a0 r with
  | 0 => Failure <$> trd104_error (a1 r)
  | 1 => (λ e, FailureU32 e (a2 r)) <$> trd104_error (a1 r)
  | 2 => (λ e, FailureU32U32 e (a2 r) (a3 r)) <$> trd104_error (a1 r)
  | 3 => (λ e, FailureU64 e (a2 r + usize_bound * a3 r)) <$> trd104_error (a1 r)
  | 128 => Some Success
  | 129 => Some (SuccessU32 (a1 r))
  | 130 => Some (SuccessU32U32 (a1 r) (a2 r))
  | 131 => Some (SuccessU64 (a1 r + usize_bound * a2 r))
  | 132 => Some (SuccessU32U32U32 (a1 r) (a2 r) (a3 r))
  | 133 => Some (SuccessU32U64 (a1 r) (a2 r + usize_bound * a3 r))
  | _ => None
  end.

(** What a process can observe of a return value: the scheduler's pointer
    variants travel as the generic two-word variants. *)
Definition wire_form (r : SyscallReturn) : SyscallReturn :=
  match r with
  | AllowReadWriteSuccess p l | UserspaceReadableAllowSuccess p l
  | AllowReadOnlySuccess p l | SubscribeSuccess p l => SuccessU32U32 p l
  | AllowReadWriteFailure e p l | UserspaceReadableAllowFailure e p l
  | AllowReadOnlyFailure e p l | SubscribeFailure e p l => FailureU32U32 e p l
  | _ => r
  end.

(** The 64-bit payload of a return value is a [u64]. *)
Definition payload_u64 (r : SyscallReturn) : Prop :=
  match r with
  | FailureU64 _ d | SuccessU64 d | SuccessU32U64 _ d => 0 ≤ d < 2 ^ 64
  | _ => True
  end.

(** *** Big-endian bytes *)

Lemma byte_split (z : Z) (k : Z) :
  0 ≤ k → Z.land (Z.shiftr z k) 255 = z / 2 ^ k mod 256.
Proof.
  intros. change 255 with (Z.ones 8). rewrite Z.land_ones by lia.
  by rewrite Z.shiftr_div_pow2.
Qed.

Lemma lor_shift_byte (a b : Z) :
  0 ≤ b < 256 → Z.lor (Z.shiftl a 8) b = 256 * a + b.
Proof.
  intros Hb. rewrite <- Z.add_nocarry_lor; [rewrite Z.shiftl_mul_pow2 by lia; lia|].
  apply Z.bits_inj'. intros n Hn. rewrite Z.land_spec, Z.bits_0.
  destruct (Z.ltb_spec n 8).
  - rewrite Z.shiftl_spec_low by lia. done.
  - rewrite (Z.bits_above_log2 b n); [by rewrite andb_false_r|lia|].
    destruct (decide (b = 0)) as [->|]; [simpl; lia|].
    assert (Z.log2 b < 8) by (apply Z.log2_lt_pow2; lia). lia.
Qed.

Lemma to_be_bytes_length n z : length (to_be_bytes n z) = n.
Proof. induction n; simpl; auto. Qed.

(** [from_be_bytes] inverts [to_be_bytes] on integers of that many bytes. *)
Lemma from_be_bytes_acc n z acc :
  foldl (λ acc b, Z.lor (Z.shiftl acc 8) b) acc (to_be_bytes n z)
  = acc * 256 ^ Z.of_nat n + z mod 256 ^ Z.of_nat n.
Proof.
  revert acc. induction n as [|n IH]; intros acc; [simpl; rewrite Z.mod_1_r; lia|].
  cbn [to_be_bytes foldl]. rewrite IH.
  rewrite byte_split by lia.
  replace (2 ^ (8 * Z.of_nat n)) with (256 ^ Z.of_nat n)
    by (change 256 with (2 ^ 8); rewrite <- Z.pow_mul_r; lia).
  rewrite lor_shift_byte by (apply Z.mod_pos_bound; lia).
  rewrite Nat2Z.inj_succ, Z.pow_succ_r by lia.
  assert (0 < 256 ^ Z.of_nat n) by lia.
  rewrite (Z.mul_comm 256 (256 ^ _)), Z.rem_mul_r by lia. lia.
Qed.

Lemma from_to_be_bytes n z :
  0 ≤ z < 256 ^ Z.of_nat n → from_be_bytes (to_be_bytes n z) = z.
Proof. intros. unfold from_be_bytes. rewrite from_be_bytes_acc, Z.mod_small; lia. Qed.

Lemma take_to_be_bytes k n z :
  take k (to_be_bytes (k + n) z) = to_be_bytes k (Z.shiftr z (8 * Z.of_nat n)).
Proof.
  induction k as [|k IH]; [done|]. cbn [Nat.add take to_be_bytes]. f_equal; [|apply IH].
  rewrite Z.shiftr_shiftr by lia. do 2 f_equal. lia.
Qed.

Lemma drop_to_be_bytes k n z : drop k (to_be_bytes (k + n) z) = to_be_bytes n z.
Proof. induction k as [|k IH]; [done|]. apply IH. Qed.

(** The helper splits a [u64] into its two words. *)
Lemma u64_to_be_u32s_spec z :
  0 ≤ z < 2 ^ 64 → u64_to_be_u32s z = (z / usize_bound, z mod usize_bound).
Proof.
  intros Hz. unfold u64_to_be_u32s.
  rewrite (take_to_be_bytes 4 4), (drop_to_be_bytes 4 4).
  rewrite (firstn_all2 (to_be_bytes 4 z)) by (rewrite to_be_bytes_length; lia).
  unfold from_be_bytes. rewrite !from_be_bytes_acc.
  rewrite Z.shiftr_div_pow2 by lia. change (256 ^ Z.of_nat 4) with usize_bound.
  change (2 ^ (8 * Z.of_nat 4)) with usize_bound.
  rewrite (Z.mod_small (z / _)); [f_equal; lia|]. split; [apply Z.div_pos; lia|].
  apply Z.div_lt_upper_bound; lia.
Qed.

Lemma u64_words_join z : z mod usize_bound + usize_bound * (z / usize_bound) = z.
Proof. pose proof (Z.div_mod z usize_bound ltac:(lia)). lia. Qed.

Lemma trd104_error_roundtrip e : trd104_error (usize_from_ErrorCode e) = Some e.
Proof. by destruct e. Qed.
#[export] Hint Rewrite trd104_error_roundtrip u64_words_join : syscall.

(** *** Claims *)

(** Round trip of the return ABI: whatever the registers held, decoding
    the four registers the kernel writes with the TRD104 table gives back the
    return value, with the scheduler's pointer variants seen as the two-word
    variants. *)
Theorem encode_syscall_return_trd104 (r : SyscallReturn) (regs : Regs) :
  payload_u64 r →
  trd104_decode (encode_syscall_return r regs) = Some (wire_form r).
Proof.
  destruct r; intros Hp; cbn [payload_u64] in Hp; unfold encode_syscall_return;
    try rewrite (u64_to_be_u32s_spec _ Hp);
    cbv [trd104_decode set_a0 set_a1 set_a2 set_a3 variant_u32 a0 a1 a2 a3 wire_form];
    autorewrite with syscall; try done.
Qed.

Lemma encode_syscall_return_trd104_witness :
  payload_u64 (SuccessU32U64 7 (2 ^ 64 - 2)) ∧
  trd104_decode (encode_syscall_return (SuccessU32U64 7 (2 ^ 64 - 2)) (mkRegs 9 9 9 9))
  = Some (SuccessU32U64 7 (2 ^ 64 - 2)).
Proof.
  split; [cbn; lia|].
  apply (encode_syscall_return_trd104 (SuccessU32U64 7 (2 ^ 64 - 2))). cbn; lia.
Defined.

(** A process tells success from failure by one comparison: the first
    register is at least 128 exactly for the return values the kernel counts
    as successes ([is_success], which decides whether the kernel commits the
    swap of an upcall or a buffer). *)
Theorem is_success_variant (r : SyscallReturn) (regs : Regs) :
  is_success r = (128 <=? a0 (encode_syscall_return r regs)).
Proof. destruct r; try done; unfold encode_syscall_return; by destruct (u64_to_be_u32s _). Qed.

(** The TRD104 argument encoding of a system call. *)
Definition syscall_registers (s : Syscall) : Z * (Z * Z * Z * Z) :=
  match s with
  | SysYield w a => (SyscallClass_u8 ClassYield, (w, a, 0, 0))
  | SysSubscribe d s p x => (SyscallClass_u8 ClassSubscribe, (d, s, p, x))
  | SysCommand d s x y => (SyscallClass_u8 ClassCommand, (d, s, x, y))
  | SysReadWriteAllow d s x y => (SyscallClass_u8 ClassReadWriteAllow, (d, s, x, y))
  | SysUserspaceReadableAllow d s x y =>
      (SyscallClass_u8 ClassUserspaceReadableAllow, (d, s, x, y))
  | SysReadOnlyAllow d s x y => (SyscallClass_u8 ClassReadOnlyAllow, (d, s, x, y))
  | SysMemop o x => (SyscallClass_u8 ClassMemop, (o, x, 0, 0))
  | SysExit w c => (SyscallClass_u8 ClassExit, (w, c, 0, 0))
  end.

Lemma SyscallClass_try_from_Ok z c :
  SyscallClass_try_from z = Ok c ↔ z = SyscallClass_u8 c.
Proof.
  split; [|by intros ->; destruct c].
  unfold SyscallClass_try_from. destruct z as [|p|p]; try naive_solver.
  do 3 (try destruct p as [p|p|]; try naive_solver).
Qed.

Lemma SyscallClass_try_from_Err z e :
  SyscallClass_try_from z = Err e ↔ e = z ∧ ¬ 0 ≤ z < 8.
Proof.
  unfold SyscallClass_try_from.
  destruct z as [|p|p]; [naive_solver lia| |naive_solver lia].
  do 3 (try destruct p as [p|p|]; try naive_solver lia).
Qed.

(** System call decoding: the eight class numbers of the ABI decode, every
    call is decoded from its own TRD104 registers, and any other class number
    is refused (which the kernel turns into a fault of the process). *)
Theorem from_register_arguments_spec :
  (∀ s, let '(n, (r0, r1, r2, r3)) := syscall_registers s in
        from_register_arguments n r0 r1 r2 r3 = Some s) ∧
  (∀ n r0 r1 r2 r3,
     from_register_arguments n r0 r1 r2 r3 = None ↔ ¬ 0 ≤ n < 8) ∧
  (∀ n r0 r1 r2 r3 s,
     from_register_arguments n r0 r1 r2 r3 = Some s → fst (syscall_registers s) = n).
Proof.
  repeat split.
  - by intros [].
  - unfold from_register_arguments. destruct (SyscallClass_try_from n) eqn:E.
    + by destruct a.
    + apply SyscallClass_try_from_Err in E. intros _. lia.
  - unfold from_register_arguments. destruct (SyscallClass_try_from n) eqn:E; [|done].
    apply SyscallClass_try_from_Ok in E as ->. intros H. destruct a; cbn in H; lia.
  - intros n r0 r1 r2 r3 s. unfold from_register_arguments.
    destruct (SyscallClass_try_from n) eqn:E; [|done].
    apply SyscallClass_try_from_Ok in E as ->. by destruct a; intros [= <-].
Qed.

Lemma ErrorCode_try_from_Err e : ErrorCode_try_from (Err e) = Ok e.
Proof. by destruct e. Qed.

(** The error conversions agree: converting a result to a command return
    never panics, puts the status code of the result in the error register,
    and a process error reaches userspace as the same error code whichever of
    the two conversions a capsule uses. *)
Theorem error_conversions_agree :
  (∀ rc, ∃ cr, CommandReturn_from_result rc = Ret cr ∧
     is_success (from_command_return cr) = (into_statuscode rc =? 0) ∧
     (∀ regs, into_statuscode rc ≠ 0 →
        a1 (encode_syscall_return (from_command_return cr) regs) = into_statuscode rc)) ∧
  (∀ perr, result_from_ProcessError perr
           = result_from_ErrorCode (ErrorCode_from_ProcessError perr) ∧
           CommandReturn_from_result (result_from_ProcessError perr)
           = Ret (CommandReturn_from_ProcessError perr)) ∧
  (∀ e, ErrorCode_try_from (result_from_ErrorCode e) = Ok e).
Proof.
  split_and!.
  - intros [u|e]; unfold CommandReturn_from_result; [eexists; split_and!; naive_solver|].
    rewrite ErrorCode_try_from_Err. eexists; split_and!; [done| |done]. by destruct e.
  - intros []; done.
  - by intros [].
Qed.
