(* ===== verification/RingBuffer.v ===== *)
(** * Ring buffer

    kernel/src/collections/ring_buffer.rs, the implementation of the [Queue]
    trait (kernel/src/collections/queue.rs) that holds the pending tasks of a
    process.  A buffer over a slice of [n] cells holds at most [n - 1] elements
    because [head == tail] means empty.

    [repr rb xs] relates a buffer to the list of its elements, oldest first.
    Every operation is simulated by the list operation of the trait's
    documentation, so any program over the buffer observes a bounded FIFO. *)

From S2P Require Import Prelude.

Record RingBuffer (T : Type) := mkRingBuffer {
  ring : list T;
  head : Z;
  tail : Z;
}.
Arguments mkRingBuffer {T}.
Arguments ring {T}.
Arguments head {T}.
Arguments tail {T}.

Definition zlength {A} (l : list A) : Z := Z.of_nat (length l).

Section operations.
Context {T : Type}.
Implicit Types (rb : RingBuffer T) (val : T).

Definition RingBuffer_new (r : list T) : RingBuffer T := mkRingBuffer r 0 0.

Definition has_elements rb : bool := negb (head rb =? tail rb).

Definition is_full rb : outcome bool :=
  t ← uadd (tail rb) 1; m ← urem t (zlength (ring rb)); Ret (head rb =? m).

Definition RingBuffer_len rb : outcome Z :=
  if head rb <? tail rb then usub (tail rb) (head rb)
  else if tail rb <? head rb then
    d ← usub (zlength (ring rb)) (head rb); uadd d (tail rb)
  else Ret 0.

Definition available_len rb : outcome Z :=
  l ← RingBuffer_len rb; s ← uadd 1 l; Ret (saturating_sub (zlength (ring rb)) s).

(** [&s[a..b]] and [s.split_at(m)]: out-of-range bounds panic. *)
Definition slice_range (l : list T) (a b : Z) : outcome (list T) :=
  if (a <=? b) && (b <=? zlength l)
  then Ret (take (Z.to_nat (b - a)) (drop (Z.to_nat a) l)) else Panic.
Definition split_at (l : list T) (mid : Z) : outcome (list T * list T) :=
  if mid <=? zlength l then Ret (take (Z.to_nat mid) l, drop (Z.to_nat mid) l) else Panic.

Definition as_slices rb : outcome (option (list T) * option (list T)) :=
  if head rb <? tail rb then
    s ← slice_range (ring rb) (head rb) (tail rb); Ret (Some s, None)
  else if tail rb <? head rb then
    '(lhs, rhs) ← split_at (ring rb) (head rb);
    if tail rb =? 0 then Ret (Some rhs, None)
    else s ← slice_range lhs 0 (tail rb); Ret (Some rhs, Some s)
  else Ret (None, None).

Definition enqueue rb val : outcome (bool * RingBuffer T) :=
  full ← is_full rb;
  if (full : bool) then Ret (false, rb)
  else
    r ← index_set (ring rb) (tail rb) val;
    t ← uadd (tail rb) 1; t' ← urem t (zlength r);
    Ret (true, mkRingBuffer r (head rb) t').

Definition push rb val : outcome (option T * RingBuffer T) :=
  full ← is_full rb;
  '(res, h) ←
    (if (full : bool) then
       v ← index_get (ring rb) (head rb);
       h ← uadd (head rb) 1; h' ← urem h (zlength (ring rb));
       Ret (Some v, h')
     else Ret (None, head rb));
  r ← index_set (ring rb) (tail rb) val;
  t ← uadd (tail rb) 1; t' ← urem t (zlength r);
  Ret (res, mkRingBuffer r h t').

Definition dequeue rb : outcome (option T * RingBuffer T) :=
  if has_elements rb then
    v ← index_get (ring rb) (head rb);
    h ← uadd (head rb) 1; h' ← urem h (zlength (ring rb));
    Ret (Some v, mkRingBuffer (ring rb) h' (tail rb))
  else Ret (None, rb).

Definition empty rb : RingBuffer T := mkRingBuffer (ring rb) 0 0.

(** [retain]: the predicate is [FnMut], so it threads a state of its own.  The
    loop gets one unit of fuel per cell of the ring; [retain_simulates] shows
    that this is enough. *)
Section retain_loop.
Context {St : Type} (f : T → St → bool * St).

Fixpoint retain_loop (fuel : nat) (st : St) (r : list T) (src dst tl : Z) :
    outcome (St * list T * Z) :=
  if src =? tl then Ret (st, r, dst)
  else match fuel with
  | O => Panic
  | S fuel' =>
      x ← index_get r src;
      let '(keep, st') := f x st in
      '(r', dst') ←
        (if (keep : bool) then
           r' ← (if negb (src =? dst) then
                   y ← index_get r src; index_set r dst y else Ret r);
           d ← uadd dst 1; d' ← urem d (zlength r);
           Ret (r', d')
         else Ret (r, dst));
      s ← uadd src 1; src' ← urem s (zlength r);
      retain_loop fuel' st' r' src' dst' tl
  end.

Definition retain (st : St) rb : outcome (St * RingBuffer T) :=
  '(st', r, dst) ← retain_loop (length (ring rb)) st (ring rb) (head rb) (head rb) (tail rb);
  Ret (st', mkRingBuffer r (head rb) dst).

End retain_loop.

(** ** The abstract queue *)

(** The elements kept by a stateful predicate, in order. *)
Fixpoint filter_state {St} (f : T → St → bool * St) (st : St) (xs : list T) : St * list T :=
  match xs with
  | [] => (st, [])
  | x :: xs' =>
      let '(keep, st') := f x st in
      let '(st'', ys) := filter_state f st' xs' in
      (st'', if (keep : bool) then x :: ys else ys)
  end.

(** Cell [i] of the queue: [i] cells after the head, around the ring. *)
Definition cell (n h : Z) (i : nat) : nat := Z.to_nat ((h + Z.of_nat i) mod n).

Record repr rb (xs : list T) : Prop := {
  repr_head : 0 ≤ head rb < zlength (ring rb);
  repr_word : zlength (ring rb) < usize_bound;
  repr_room : zlength xs < zlength (ring rb);
  repr_tail : tail rb = (head rb + zlength xs) mod zlength (ring rb);
  repr_cells : ∀ i x, xs !! i = Some x →
    ring rb !! cell (zlength (ring rb)) (head rb) i = Some x;
}.

End operations.

#[export] Hint Unfold zlength cell : tock.

(** ** Positions around the ring *)

Lemma cell_lt n h i : 0 < n → (cell n h i < Z.to_nat n)%nat.
Proof. unfold cell. intros. pose proof (Z.mod_pos_bound (h + Z.of_nat i) n). lia. Qed.

Lemma cell_succ n h i :
  0 < n → ((h + Z.of_nat i) mod n + 1) mod n = (h + Z.of_nat (S i)) mod n.
Proof. intros. rewrite Zplus_mod_idemp_l. f_equal. lia. Qed.

(** Fewer than [n] consecutive cells are distinct. *)
Lemma mod_window_inj n h i j :
  0 < n → 0 ≤ i < n → 0 ≤ j < n → (h + i) mod n = (h + j) mod n → i = j.
Proof.
  intros Hn Hi Hj E.
  pose proof (Z.div_mod (h + i) n ltac:(lia)). pose proof (Z.div_mod (h + j) n ltac:(lia)).
  assert (i - j = n * ((h + i) / n - (h + j) / n)) by lia.
  assert (Hq : (h + i) / n - (h + j) / n = 0) by nia. nia.
Qed.

Lemma cell_inj n h i j :
  Z.of_nat i < n → Z.of_nat j < n → cell n h i = cell n h j → i = j.
Proof.
  intros Hi Hj E. unfold cell in E.
  apply Nat2Z.inj. apply (mod_window_inj n h); [lia..|].
  pose proof (Z.mod_pos_bound (h + Z.of_nat i) n). pose proof (Z.mod_pos_bound (h + Z.of_nat j) n).
  lia.
Qed.

Lemma cell_shift n h i : 0 < n → cell n ((h + 1) mod n) i = cell n h (S i).
Proof. intros. unfold cell. rewrite Zplus_mod_idemp_l. do 2 f_equal. lia. Qed.

Lemma cell_zero n h : 0 ≤ h < n → cell n h 0 = Z.to_nat h.
Proof. intros. unfold cell. rewrite Z.add_0_r, Z.mod_small; done. Qed.

Lemma zlength_insert {A} (l : list A) i x : zlength (<[i := x]> l) = zlength l.
Proof. unfold zlength. by rewrite length_insert. Qed.

Lemma zlength_snoc {A} (l : list A) x : zlength (l ++ [x]) = zlength l + 1.
Proof. unfold zlength. rewrite length_app. simpl. lia. Qed.

Lemma zlength_cons {A} (l : list A) x : zlength (x :: l) = zlength l + 1.
Proof. unfold zlength. simpl. lia. Qed.

Lemma index_get_cell {A} (l : list A) i x :
  0 ≤ i → l !! Z.to_nat i = Some x → index_get l i = Ret x.
Proof. intros Hi E. unfold index_get. destruct (Z.ltb_spec i 0); [lia|]. by rewrite E. Qed.

Section refinement.
Context {T : Type}.
Implicit Types (rb : RingBuffer T) (xs : list T).

Lemma repr_tail_range rb xs : repr rb xs → 0 ≤ tail rb < zlength (ring rb).
Proof. intros []. rewrite repr_tail0. apply Z.mod_pos_bound. lia. Qed.

(** The new buffer over a non-empty slice is the empty queue. *)
Lemma RingBuffer_new_repr (r : list T) :
  0 < zlength r < usize_bound → repr (RingBuffer_new r) [].
Proof. intros. split; cbn; rewrite ?Zmod_0_l; unfold zlength in *; (done || (cbn; lia)). Qed.

Lemma empty_repr rb xs : repr rb xs → repr (empty rb) [].
Proof. intros []. split; cbn; rewrite ?Zmod_0_l; unfold zlength in *; (done || (cbn; lia)). Qed.

Lemma has_elements_repr rb xs :
  repr rb xs → has_elements rb = negb (bool_decide (xs = [])).
Proof.
  intros [H1 H2 H3 H4 _]. unfold has_elements. f_equal. rewrite H4.
  destruct xs as [|x xs].
  { change (zlength []) with 0. rewrite Z.add_0_r, Z.mod_small by done. apply Z.eqb_refl. }
  rewrite bool_decide_false by done. apply Z.eqb_neq. intros E.
  assert (0 = zlength (x :: xs)); [|rewrite zlength_cons in *; unfold zlength in *; lia].
  apply (mod_window_inj (zlength (ring rb)) (head rb)); [lia|lia|split; [unfold zlength|]; lia|].
  rewrite Z.add_0_r, Z.mod_small; done.
Qed.

Lemma is_full_repr rb xs :
  repr rb xs → is_full rb = Ret (zlength xs + 1 =? zlength (ring rb)).
Proof.
  intros R. pose proof (repr_tail_range _ _ R). destruct R as [H1 H2 H3 H4 _].
  unfold is_full. ustep. rewrite H4, Zplus_mod_idemp_l.
  assert (0 ≤ zlength xs) by (unfold zlength; lia). f_equal.
  destruct (Z.eqb_spec (zlength xs + 1) (zlength (ring rb))) as [E|E].
  - apply Z.eqb_eq. replace (head rb + zlength xs + 1) with (head rb + 1 * zlength (ring rb)) by lia.
    rewrite Z_mod_plus, Z.mod_small by lia. done.
  - apply Z.eqb_neq. intros E'.
    assert (0 = zlength xs + 1); [|lia].
    apply (mod_window_inj (zlength (ring rb)) (head rb)); [lia..|].
    rewrite Z.add_0_r, Z.mod_small, Z.add_assoc by done. done.
Qed.

Lemma RingBuffer_len_repr rb xs : repr rb xs → RingBuffer_len rb = Ret (zlength xs).
Proof.
  intros R. pose proof (repr_tail_range _ _ R). destruct R as [H1 H2 H3 H4 _].
  assert (0 ≤ zlength xs) by (unfold zlength; lia).
  assert (tail rb = head rb + zlength xs ∨ tail rb = head rb + zlength xs - zlength (ring rb)) as E.
  { rewrite H4. destruct (decide (head rb + zlength xs < zlength (ring rb))).
    - left. apply Z.mod_small. lia.
    - right. symmetry. apply Z.mod_unique with 1; lia. }
  unfold RingBuffer_len. split_tests; ustep; f_equal; lia.
Qed.

Lemma available_len_repr rb xs :
  repr rb xs → available_len rb = Ret (zlength (ring rb) - 1 - zlength xs).
Proof.
  intros R. unfold available_len. rewrite (RingBuffer_len_repr _ _ R).
  destruct R as [H1 H2 H3 _ _]. cbn [mbind outcome_bind].
  assert (0 ≤ zlength xs) by (unfold zlength; lia). ustep.
  unfold saturating_sub. f_equal. lia.
Qed.

(** Writing the cell after the last element appends it. *)
Lemma repr_append rb xs val :
  repr rb xs → zlength xs + 1 < zlength (ring rb) →
  repr (mkRingBuffer (<[Z.to_nat (tail rb) := val]> (ring rb)) (head rb)
          ((tail rb + 1) mod zlength (ring rb))) (xs ++ [val]).
Proof.
  intros [H1 H2 H3 H4 H5] Hroom. set (n := zlength (ring rb)) in *.
  assert (Ht : Z.to_nat (tail rb) = cell n (head rb) (length xs)) by (by rewrite H4).
  split; cbn [ring head tail]; rewrite ?zlength_insert, ?zlength_snoc; fold n; try lia.
  - rewrite H4, Zplus_mod_idemp_l. f_equal. lia.
  - intros i x Hx. rewrite Ht. apply lookup_app_Some in Hx as [Hx|[Hi Hx]].
    + rewrite list_lookup_insert_ne; [by apply H5|].
      apply lookup_lt_Some in Hx as Hlt. intros E.
      apply cell_inj in E; unfold zlength in *; lia.
    + assert (i = length xs ∧ x = val) as [-> ->].
      { apply list_lookup_singleton_Some in Hx as [Hx ->]. split; [lia|done]. }
      apply list_lookup_insert_eq. pose proof (cell_lt n (head rb) (length xs)).
      unfold n, zlength in *. lia.
Qed.

(** Advancing the head drops the first element. *)
Lemma repr_advance rb x xs :
  repr rb (x :: xs) →
  repr (mkRingBuffer (ring rb) ((head rb + 1) mod zlength (ring rb)) (tail rb)) xs.
Proof.
  intros [H1 H2 H3 H4 H5]. rewrite zlength_cons in H3, H4.
  split; cbn [ring head tail]; [apply Z.mod_pos_bound; lia|done|lia| |].
  - rewrite H4, Zplus_mod_idemp_l. f_equal. lia.
  - intros i y Hy. rewrite cell_shift by lia. by apply H5.
Qed.

Lemma repr_first rb x xs :
  repr rb (x :: xs) → index_get (ring rb) (head rb) = Ret x.
Proof.
  intros [H1 _ _ _ H5]. apply index_get_cell; [lia|].
  rewrite <- (cell_zero (zlength (ring rb)) (head rb)) by done. by apply H5.
Qed.

(** *** Simulation of each operation *)

Lemma enqueue_simulates rb xs val :
  repr rb xs →
  if zlength xs + 1 =? zlength (ring rb)
  then enqueue rb val = Ret (false, rb)
  else ∃ rb', enqueue rb val = Ret (true, rb') ∧ repr rb' (xs ++ [val])
              ∧ zlength (ring rb') = zlength (ring rb).
Proof.
  intros R. pose proof (repr_tail_range _ _ R) as Ht.
  unfold enqueue. rewrite (is_full_repr _ _ R). cbn [mbind outcome_bind].
  destruct (Z.eqb_spec (zlength xs + 1) (zlength (ring rb))); [done|].
  rewrite index_set_Ret by (unfold zlength in Ht; lia). cbn [mbind outcome_bind].
  pose proof (repr_room _ _ R). pose proof (repr_word _ _ R).
  ustep. rewrite zlength_insert. ustep. eexists. split_and!; [done| |cbn; apply zlength_insert].
  apply repr_append; [done|lia].
Qed.

Lemma push_simulates rb xs val :
  repr rb xs → 1 < zlength (ring rb) →
  ∃ rb', zlength (ring rb') = zlength (ring rb) ∧
  if zlength xs + 1 =? zlength (ring rb)
  then push rb val = Ret (hd_error xs, rb') ∧ repr rb' (list.tail xs ++ [val])
  else push rb val = Ret (None, rb') ∧ repr rb' (xs ++ [val]).
Proof.
  intros R Hn. pose proof (repr_tail_range _ _ R) as Ht.
  pose proof (repr_room _ _ R). pose proof (repr_word _ _ R). pose proof (repr_head _ _ R).
  unfold push. rewrite (is_full_repr _ _ R). cbn [mbind outcome_bind].
  destruct (Z.eqb_spec (zlength xs + 1) (zlength (ring rb))) as [E|E].
  - destruct xs as [|x xs]; [change (zlength []) with 0 in E; lia|].
    rewrite (repr_first _ _ _ R). cbn [mbind outcome_bind]. ustep.
    rewrite index_set_Ret by (unfold zlength in Ht; lia). cbn [mbind outcome_bind].
    ustep. rewrite zlength_insert. ustep. eexists. split; [|split; [done|]]; [cbn; apply zlength_insert|].
    apply (repr_append (mkRingBuffer _ _ _) xs val (repr_advance _ _ _ R)).
    rewrite zlength_cons in E. cbn [ring]. lia.
  - rewrite index_set_Ret by (unfold zlength in Ht; lia). cbn [mbind outcome_bind].
    ustep. rewrite zlength_insert. ustep. eexists. split; [|split; [done|]]; [cbn; apply zlength_insert|].
    apply repr_append; [done|lia].
Qed.

Lemma dequeue_simulates rb xs :
  repr rb xs →
  ∃ rb', dequeue rb = Ret (hd_error xs, rb') ∧ repr rb' (list.tail xs)
         ∧ zlength (ring rb') = zlength (ring rb).
Proof.
  intros R. unfold dequeue. rewrite (has_elements_repr _ _ R).
  destruct xs as [|x xs]; [by eexists|].
  rewrite bool_decide_false by done. cbn [negb].
  rewrite (repr_first _ _ _ R). pose proof (repr_word _ _ R). pose proof (repr_head _ _ R).
  cbn [mbind outcome_bind]. ustep. eexists. split_and!; [done| |done].
  by apply repr_advance with x.
Qed.

End refinement.

(** ** [retain] and [as_slices] *)

Section retain_refinement.
Context {T St : Type} (f : T → St → bool * St).

(** The loop state after [k] source elements, of which [zs] were kept and
    moved to the front, with [ys] still to visit. *)
Record retain_inv (n h : Z) (r : list T) (k : nat) (zs ys : list T) : Prop := {
  ri_len : zlength r = n;
  ri_word : n < usize_bound;
  ri_kept : (length zs <= k)%nat;
  ri_room : Z.of_nat (k + length ys) < n;
  ri_zs : ∀ i x, zs !! i = Some x → r !! cell n h i = Some x;
  ri_ys : ∀ i x, ys !! i = Some x → r !! cell n h (k + i) = Some x;
}.

Lemma retain_inv_skip n h r k zs y ys :
  retain_inv n h r k zs (y :: ys) → retain_inv n h r (S k) zs ys.
Proof.
  intros []. cbn in ri_room0. split; try done; try lia.
  intros i x Hx. replace (S k + i)%nat with (k + S i)%nat by lia. by apply ri_ys0.
Qed.

Lemma retain_inv_keep n h r k zs y ys :
  retain_inv n h r k zs (y :: ys) →
  retain_inv n h (<[cell n h (length zs) := y]> r) (S k) (zs ++ [y]) ys.
Proof.
  intros []. cbn in ri_room0.
  assert (cell n h (length zs) < length r)%nat.
  { pose proof (cell_lt n h (length zs)). unfold zlength in *. lia. }
  split; rewrite ?zlength_insert, ?length_app; cbn; try done; try lia.
  - intros i x Hx. apply lookup_app_Some in Hx as [Hx|[Hi Hx]].
    + pose proof (lookup_lt_Some _ _ _ Hx). rewrite list_lookup_insert_ne; [by apply ri_zs0|].
      intros E. apply cell_inj in E; lia.
    + apply list_lookup_singleton_Some in Hx as [Hx ->].
      replace i with (length zs) by lia. by apply list_lookup_insert_eq.
  - intros i x Hx. pose proof (lookup_lt_Some _ _ _ Hx).
    rewrite list_lookup_insert_ne.
    + replace (S (k + i))%nat with (k + S i)%nat by lia. by apply ri_ys0.
    + intros E. apply cell_inj in E; lia.
Qed.

Lemma retain_loop_spec n h r k zs ys fuel st :
  retain_inv n h r k zs ys → (length ys <= fuel)%nat →
  let '(st', kept) := filter_state f st ys in
  ∃ r', retain_loop f fuel st r ((h + Z.of_nat k) mod n) ((h + zlength zs) mod n)
          ((h + Z.of_nat (k + length ys)) mod n)
        = Ret (st', r', (h + zlength (zs ++ kept)) mod n)
     ∧ zlength r' = n
     ∧ ∀ i x, (zs ++ kept) !! i = Some x → r' !! cell n h i = Some x.
Proof.
  revert r k zs fuel st. induction ys as [|y ys IH]; intros r k zs fuel st I Hf.
  { destruct I. exists r. rewrite app_nil_r. split_and!; [|done..].
    rewrite Nat.add_0_r. by destruct fuel; cbn; rewrite Z.eqb_refl. }
  pose proof I as [Hlen Hw Hk Hroom _ Hys]. cbn in Hroom. cbn [filter_state].
  destruct fuel as [|fuel]; [cbn in Hf; lia|]. cbn [length] in Hf.
  assert (Hsrc : 0 ≤ (h + Z.of_nat k) mod n < n) by (apply Z.mod_pos_bound; lia).
  assert (Hdst : 0 ≤ (h + zlength zs) mod n < n) by (apply Z.mod_pos_bound; lia).
  assert (Hy : index_get r ((h + Z.of_nat k) mod n) = Ret y).
  { apply index_get_cell; [lia|]. specialize (Hys 0%nat y eq_refl). by rewrite Nat.add_0_r in Hys. }
  cbn [retain_loop]. destruct (Z.eqb_spec ((h + Z.of_nat k) mod n) ((h + Z.of_nat (k + length (y :: ys))) mod n)) as [E|_].
  { apply mod_window_inj in E; cbn in *; lia. }
  rewrite Hy. cbn [mbind outcome_bind]. destruct (f y st) as [keep st1].
  replace (k + length (y :: ys))%nat with (S k + length ys)%nat by (cbn; lia).
  rewrite Hlen. destruct keep; ustep; rewrite !Zplus_mod_idemp_l.
  - specialize (IH _ _ _ fuel st1 (retain_inv_keep _ _ _ _ _ _ _ I) ltac:(lia)).
    assert (Hmove : (if negb ((h + Z.of_nat k) mod n =? (h + zlength zs) mod n)
                     then index_set r ((h + zlength zs) mod n) y else Ret r)
                    = Ret (<[cell n h (length zs) := y]> r)).
    { destruct (Z.eqb_spec ((h + Z.of_nat k) mod n) ((h + zlength zs) mod n)) as [E|E]; cbn [negb].
      - apply mod_window_inj in E; [|unfold zlength; lia..]. f_equal. symmetry.
        apply list_insert_id. specialize (Hys 0%nat y eq_refl).
        rewrite Nat.add_0_r in Hys. replace (length zs) with k by (unfold zlength in E; lia). done.
      - rewrite index_set_Ret by (unfold zlength in Hlen; lia). done. }
    rewrite Hmove. cbn [mbind outcome_bind].
    destruct (filter_state f st1 ys) as [st2 kept]. destruct IH as (r' & IH & Hl & Hc).
    exists r'. rewrite <- app_assoc in IH, Hc. split_and!; [|done..].
    rewrite zlength_snoc in IH. etrans; [|exact IH]. f_equal; f_equal; lia.
  - specialize (IH _ _ _ fuel st1 (retain_inv_skip _ _ _ _ _ _ _ I) ltac:(lia)).
    destruct (filter_state f st1 ys) as [st2 kept]. destruct IH as (r' & IH & Hl & Hc).
    exists r'. split_and!; [|done..]. etrans; [|exact IH]. f_equal; f_equal; lia.
Qed.

Lemma filter_state_length st xs : (length (snd (filter_state f st xs)) <= length xs)%nat.
Proof.
  revert st. induction xs as [|x xs IH]; intros st; cbn; [lia|].
  destruct (f x st) as [keep st1]. specialize (IH st1).
  destruct (filter_state f st1 xs), keep; cbn in *; lia.
Qed.

Lemma retain_simulates rb xs st :
  repr rb xs →
  ∃ rb', retain f st rb = Ret (fst (filter_state f st xs), rb')
         ∧ repr rb' (snd (filter_state f st xs))
         ∧ zlength (ring rb') = zlength (ring rb).
Proof.
  intros [H1 H2 H3 H4 H5]. unfold retain.
  assert (I : retain_inv (zlength (ring rb)) (head rb) (ring rb) 0 [] xs).
  { split; cbn; try done; try lia. }
  pose proof (retain_loop_spec _ _ _ _ _ _ (length (ring rb)) st I) as L.
  pose proof (filter_state_length st xs) as Hle.
  destruct (filter_state f st xs) as [st' kept]. cbn [fst snd] in *.
  destruct L as (r' & L & Hl & Hc); [unfold zlength in *; lia|].
  cbn [app length Nat.add] in L, Hc. change (zlength []) with 0 in L.
  rewrite !Z.add_0_r, !Z.mod_small in L by done.
  change (Z.of_nat (length xs)) with (zlength xs) in L. rewrite <- H4 in L.
  rewrite L. cbn [mbind outcome_bind]. eexists. split_and!; [done| |done].
  split; cbn [ring head tail]; rewrite ?Hl; try done. unfold zlength in *. lia.
Qed.

End retain_refinement.

Section as_slices_refinement.
Context {T : Type}.

Lemma list_eq_lookup_incl (l xs : list T) :
  length l = length xs →
  (∀ i x, xs !! i = Some x → l !! i = Some x) → l = xs.
Proof.
  intros Hl H. apply list_eq. intros i. destruct (xs !! i) eqn:E; [by apply H|].
  apply lookup_ge_None in E. apply lookup_ge_None. lia.
Qed.

(** The one or two slices, concatenated, are the elements in queue order. *)
Lemma as_slices_repr (rb : RingBuffer T) xs :
  repr rb xs →
  ∃ l r, as_slices rb = Ret (l, r) ∧ default [] l ++ default [] r = xs.
Proof.
  intros R. pose proof (repr_tail_range _ _ R) as Ht. pose proof R as [H1 H2 H3 H4 H5].
  set (n := zlength (ring rb)) in *. assert (0 ≤ zlength xs) by (unfold zlength; lia).
  unfold as_slices, slice_range, split_at.
  destruct (decide (head rb + zlength xs < n)) as [Hlt|Hge].
  - rewrite Z.mod_small in H4 by lia.
    destruct (Z.ltb_spec (head rb) (tail rb)).
    + destruct (Z.leb_spec (head rb) (tail rb)), (Z.leb_spec (tail rb) (zlength (ring rb))); try lia.
      eexists _, _. split; [done|]. cbn [from_option id app]. rewrite app_nil_r.
      apply list_eq_lookup_incl.
      { rewrite length_take, length_drop. unfold n, zlength in *. lia. }
      intros i x Hx. pose proof (lookup_lt_Some _ _ _ Hx). unfold zlength in *.
      rewrite lookup_take_lt by lia. rewrite lookup_drop. specialize (H5 _ _ Hx).
      unfold cell in H5. rewrite Z.mod_small in H5 by lia. rewrite <- H5. f_equal. lia.
    + destruct (Z.ltb_spec (tail rb) (head rb)); [lia|]. eexists _, _. split; [done|].
      destruct xs; [done|]. rewrite zlength_cons in *. unfold zlength in *. lia.
  - assert (Htl : tail rb = head rb + zlength xs - n)
      by (rewrite H4; symmetry; apply Z.mod_unique with 1; lia).
    destruct (Z.ltb_spec (head rb) (tail rb)); [lia|].
    destruct (Z.ltb_spec (tail rb) (head rb)); [|lia].
    destruct (Z.leb_spec (head rb) (zlength (ring rb))); [|lia]. cbn [mbind outcome_bind].
    assert (Hl : drop (Z.to_nat (head rb)) (ring rb) ++
                 take (Z.to_nat (tail rb)) (take (Z.to_nat (head rb)) (ring rb)) = xs).
    { apply list_eq_lookup_incl.
      { rewrite length_app, length_drop, !length_take. unfold n, zlength in *. lia. }
      intros i x Hx. pose proof (lookup_lt_Some _ _ _ Hx). specialize (H5 _ _ Hx).
      unfold n, cell, zlength in *. rewrite lookup_app, lookup_drop.
      destruct (decide (head rb + Z.of_nat i < Z.of_nat (length (ring rb)))).
      - rewrite Z.mod_small in H5 by lia.
        replace (Z.to_nat (head rb) + i)%nat with (Z.to_nat (head rb + Z.of_nat i)) by lia.
        by rewrite H5.
      - rewrite (proj2 (lookup_ge_None (ring rb) _)) by lia.
        rewrite length_drop, !lookup_take_lt by lia. rewrite <- H5. f_equal.
        rewrite <- (Z.mod_unique _ (Z.of_nat (length (ring rb))) 1
                      (head rb + Z.of_nat i - Z.of_nat (length (ring rb)))); lia. }
    destruct (Z.eqb_spec (tail rb) 0) as [E0|].
    + eexists _, _. split; [done|]. rewrite <- Hl, E0. done.
    + destruct (Z.leb_spec 0 (tail rb)); [|lia].
      destruct (Z.leb_spec (tail rb) (zlength (take (Z.to_nat (head rb)) (ring rb)))) as [|Hx];
        [|unfold n, zlength in *; rewrite length_take in Hx; lia].
      cbn [andb mbind outcome_bind]. eexists _, _. split; [done|].
      rewrite <- Hl. cbn [from_option id]. by rewrite Z.sub_0_r.
Qed.

End as_slices_refinement.

(** ** Programs over the queue *)

Section programs.
Context {T St : Type}.

Inductive queue_op : Type :=
| OpHasElements | OpIsFull | OpLen | OpAvailableLen | OpAsSlices
| OpEnqueue (val : T) | OpPush (val : T) | OpDequeue | OpEmpty
| OpRetain (f : T → St → bool * St) (st : St).

Inductive queue_resp : Type :=
| RespBool (b : bool) | RespLen (n : Z) | RespElem (x : option T)
| RespList (l : list T) | RespState (st : St) | RespUnit.

(** One call on the buffer; the two slices are observed concatenated. *)
Definition rb_call (o : queue_op) (rb : RingBuffer T) : outcome (queue_resp * RingBuffer T) :=
  match o with
  | OpHasElements => Ret (RespBool (has_elements rb), rb)
  | OpIsFull => b ← is_full rb; Ret (RespBool b, rb)
  | OpLen => l ← RingBuffer_len rb; Ret (RespLen l, rb)
  | OpAvailableLen => l ← available_len rb; Ret (RespLen l, rb)
  | OpAsSlices => '(l, r) ← as_slices rb; Ret (RespList (default [] l ++ default [] r), rb)
  | OpEnqueue v => '(b, rb') ← enqueue rb v; Ret (RespBool b, rb')
  | OpPush v => '(x, rb') ← push rb v; Ret (RespElem x, rb')
  | OpDequeue => '(x, rb') ← dequeue rb; Ret (RespElem x, rb')
  | OpEmpty => Ret (RespUnit, empty rb)
  | OpRetain f st => '(st', rb') ← retain f st rb; Ret (RespState st', rb')
  end.

(** The same call on a FIFO that holds at most [cap] elements. *)
Definition fifo_call (cap : Z) (o : queue_op) (xs : list T) : queue_resp * list T :=
  match o with
  | OpHasElements => (RespBool (negb (bool_decide (xs = []))), xs)
  | OpIsFull => (RespBool (zlength xs =? cap), xs)
  | OpLen => (RespLen (zlength xs), xs)
  | OpAvailableLen => (RespLen (cap - zlength xs), xs)
  | OpAsSlices => (RespList xs, xs)
  | OpEnqueue v =>
      if zlength xs =? cap then (RespBool false, xs) else (RespBool true, xs ++ [v])
  | OpPush v =>
      if zlength xs =? cap then (RespElem (hd_error xs), list.tail xs ++ [v])
      else (RespElem None, xs ++ [v])
  | OpDequeue => (RespElem (hd_error xs), list.tail xs)
  | OpEmpty => (RespUnit, [])
  | OpRetain f st => let '(st', ys) := filter_state f st xs in (RespState st', ys)
  end.

Fixpoint rb_run (os : list queue_op) (rb : RingBuffer T) : outcome (list queue_resp) :=
  match os with
  | [] => Ret []
  | o :: os' => '(r, rb') ← rb_call o rb; rs ← rb_run os' rb'; Ret (r :: rs)
  end.

Fixpoint fifo_run (cap : Z) (os : list queue_op) (xs : list T) : list queue_resp :=
  match os with
  | [] => []
  | o :: os' => let '(r, xs') := fifo_call cap o xs in r :: fifo_run cap os' xs'
  end.

Lemma rb_call_simulates o rb xs :
  repr rb xs → 1 < zlength (ring rb) →
  ∃ rb', rb_call o rb = Ret (fst (fifo_call (zlength (ring rb) - 1) o xs), rb')
         ∧ repr rb' (snd (fifo_call (zlength (ring rb) - 1) o xs))
         ∧ zlength (ring rb') = zlength (ring rb).
Proof.
  intros R Hn.
  assert (Hcap : (zlength xs =? zlength (ring rb) - 1) = (zlength xs + 1 =? zlength (ring rb)))
    by (destruct (Z.eqb_spec (zlength xs) (zlength (ring rb) - 1)),
          (Z.eqb_spec (zlength xs + 1) (zlength (ring rb))); lia || done).
  destruct o; cbn [rb_call fifo_call]; rewrite ?Hcap.
  - rewrite (has_elements_repr _ _ R). by eexists.
  - rewrite (is_full_repr _ _ R). by eexists.
  - rewrite (RingBuffer_len_repr _ _ R). by eexists.
  - rewrite (available_len_repr _ _ R). by eexists.
  - destruct (as_slices_repr _ _ R) as (l & r & -> & <-). by eexists.
  - pose proof (enqueue_simulates _ _ val R). case_match.
    + rewrite H. by eexists.
    + destruct H as (rb' & -> & ? & ?). by eexists.
  - destruct (push_simulates _ _ val R Hn) as (rb' & Hl & H).
    case_match; destruct H as [-> ?]; by eexists.
  - destruct (dequeue_simulates _ _ R) as (rb' & -> & ? & ?). by eexists.
  - eexists. split_and!; [done|by eapply empty_repr|done].
  - destruct (retain_simulates f _ _ st R) as (rb' & -> & ? & ?).
    destruct (filter_state f st xs). by eexists.
Qed.

Lemma rb_run_simulates os rb xs :
  repr rb xs → 1 < zlength (ring rb) →
  rb_run os rb = Ret (fifo_run (zlength (ring rb) - 1) os xs).
Proof.
  revert rb xs. induction os as [|o os IH]; intros rb xs R Hn; [done|].
  cbn [rb_run fifo_run]. destruct (rb_call_simulates o _ _ R Hn) as (rb' & -> & R' & Hl).
  destruct (fifo_call _ o xs) as [r xs']. cbn in R' |- *.
  rewrite (IH _ _ R') by lia. by rewrite Hl.
Qed.

End programs.
Arguments queue_op : clear implicits.
Arguments queue_resp : clear implicits.

(** C29.  Refinement: every program of queue operations run on a ring buffer
    over [n >= 2] cells returns, without panicking, exactly the answers of a
    first-in-first-out list that holds at most [n - 1] elements; [retain] visits
    the elements once, oldest first, threading the closure's state. *)
Theorem RingBuffer_refines_fifo {T St : Type} (cells : list T) (os : list (queue_op T St)) :
  2 ≤ zlength cells < usize_bound →
  rb_run os (RingBuffer_new cells) = Ret (fifo_run (zlength cells - 1) os []).
Proof. intros. by apply rb_run_simulates; [apply RingBuffer_new_repr|]; cbn; lia. Qed.

Lemma RingBuffer_refines_fifo_witness :
  rb_run [OpPush 1; OpPush 2; OpPush 3; OpDequeue; OpEnqueue 4; OpAsSlices;
          OpRetain (λ x seen : Z, (Z.even x, x + seen)) 0; OpLen]
    (RingBuffer_new [0; 0; 0])
  = Ret [RespElem None; RespElem None; RespElem (Some 1); RespElem (Some 2);
         RespBool true; RespList [3; 4]; RespState 7; RespLen 1].
Proof.
  etrans; [apply (RingBuffer_refines_fifo [0; 0; 0])|]; [by vm_compute|]. by vm_compute.
Defined.
