(* ===== verification/Bytes.v ===== *)
(** * Slices and little-endian fields

    The Rust slice accesses and fixed-width conversions that the binary formats
    of the development share: application headers (Tbf.v, Loader.v), credential
    footers (Checker.v) and the objects of the key-value store (Tickv.v).  Bytes
    are integers between 0 and 255. *)

From S2P Require Import Prelude.

(** ** Slices *)

Definition zlen {A} (l : list A) : Z := Z.of_nat (length l).

(** [b.get(lo..hi)] and [b.get(lo..)]. *)
Definition get_range {A} (b : list A) (lo hi : Z) : option (list A) :=
  if (0 <=? lo) && (lo <=? hi) && (hi <=? zlen b)
  then Some (take (Z.to_nat (hi - lo)) (drop (Z.to_nat lo) b)) else None.
Definition get_from {A} (b : list A) (lo : Z) : option (list A) :=
  if (0 <=? lo) && (lo <=? zlen b) then Some (drop (Z.to_nat lo) b) else None.

(** [buf[at..at + bs.len()].copy_from_slice(bs)]: out of range panics. *)
Definition splice (buf : list Z) (at_ : Z) (bs : list Z) : outcome (list Z) :=
  if (0 <=? at_) && (at_ + zlen bs <=? zlen buf)
  then Ret (take (Z.to_nat at_) buf ++ bs ++ drop (Z.to_nat at_ + length bs) buf) else Panic.

(** [uN::from_le_bytes]. *)
Definition from_le_bytes (b : list Z) : Z := foldr (λ x acc, x + 256 * acc) 0 b.

(** [uN::to_le_bytes], for a width of [n] bytes. *)
Fixpoint le_bytes (n : nat) (z : Z) : list Z :=
  match n with O => [] | S n' => z mod 256 :: le_bytes n' (z / 256) end.

Definition u16 (z : Z) : Prop := 0 ≤ z < 65536.
Definition u32 (z : Z) : Prop := 0 ≤ z < usize_bound.
Definition u64 (z : Z) : Prop := 0 ≤ z < 18446744073709551616.
Definition byte (z : Z) : Prop := 0 ≤ z < 256.

(** ** Slices of concatenations *)

Lemma get_from_Some {A} (b r : list A) lo :
  get_from b lo = Some r ↔ 0 ≤ lo ≤ zlen b ∧ r = drop (Z.to_nat lo) b.
Proof.
  unfold get_from. destruct (Z.leb_spec 0 lo), (Z.leb_spec lo (zlen b)); cbn; naive_solver lia.
Qed.

Lemma get_range_Some {A} (b r : list A) lo hi :
  get_range b lo hi = Some r ↔
  0 ≤ lo ≤ hi ∧ hi ≤ zlen b ∧ r = take (Z.to_nat (hi - lo)) (drop (Z.to_nat lo) b).
Proof.
  unfold get_range.
  destruct (Z.leb_spec 0 lo), (Z.leb_spec lo hi), (Z.leb_spec hi (zlen b));
    cbn; naive_solver lia.
Qed.

(** ** Little-endian fields *)

Lemma length_le_bytes n z : length (le_bytes n z) = n.
Proof. revert z. induction n; intros; cbn; auto. Qed.

Lemma from_le_bytes_le_bytes n z :
  0 ≤ z < 256 ^ Z.of_nat n → from_le_bytes (le_bytes n z) = z.
Proof.
  revert z. induction n as [|n IH]; intros z Hz; [cbn in *; lia|].
  cbn [le_bytes from_le_bytes foldr]. fold (from_le_bytes (le_bytes n (z / 256))).
  rewrite IH; [pose proof (Z.div_mod z 256); lia|].
  rewrite Nat2Z.inj_succ, Z.pow_succ_r in Hz by lia.
  split; [apply Z.div_pos; lia|apply Z.div_lt_upper_bound; lia].
Qed.

Lemma le_bytes_byte n z : Forall byte (le_bytes n z).
Proof.
  revert z. induction n; intros; cbn; constructor; [|done].
  unfold byte. apply Z.mod_pos_bound. lia.
Qed.

Lemma from_le_u16 z : u16 z → from_le_bytes (le_bytes 2 z) = z.
Proof. intros. by apply from_le_bytes_le_bytes. Qed.
Lemma from_le_u32 z : u32 z → from_le_bytes (le_bytes 4 z) = z.
Proof. intros. by apply from_le_bytes_le_bytes. Qed.
Lemma from_le_u64 z : u64 z → from_le_bytes (le_bytes 8 z) = z.
Proof. intros. by apply from_le_bytes_le_bytes. Qed.

Lemma zlen_app {A} (l k : list A) : zlen (l ++ k) = zlen l + zlen k.
Proof. unfold zlen. rewrite length_app. lia. Qed.

Lemma zlen_le_bytes n z : zlen (le_bytes n z) = Z.of_nat n.
Proof. unfold zlen. by rewrite length_le_bytes. Qed.

Lemma zlen_nonneg {A} (l : list A) : 0 ≤ zlen l.
Proof. unfold zlen. lia. Qed.

Lemma from_le_bytes_bound b :
  Forall byte b → 0 ≤ from_le_bytes b < 256 ^ zlen b.
Proof.
  induction 1 as [|x b Hx Hb IH]; [by vm_compute|].
  cbn [from_le_bytes foldr]. fold (from_le_bytes b). unfold byte, zlen in *.
  cbn [length]. rewrite Nat2Z.inj_succ, Z.pow_succ_r by lia. lia.
Qed.

Lemma from_le_bytes_inj b b' :
  length b = length b' → Forall byte b → Forall byte b' →
  from_le_bytes b = from_le_bytes b' → b = b'.
Proof.
  intros Hl Hb. revert b' Hl. induction Hb as [|x b Hx Hb IH]; intros b' Hl Hb' E.
  { by destruct b'. }
  destruct b' as [|y b']; [done|]. apply Forall_cons in Hb' as [Hy Hb'].
  cbn [from_le_bytes foldr] in E. fold (from_le_bytes b) (from_le_bytes b') in E.
  unfold byte in *. assert (x = y) as -> by lia. f_equal. apply IH; [by injection Hl|done|lia].
Qed.

(** A slice of a concatenation. *)
Lemma get_range_mid {A} (pre mid post : list A) lo hi :
  lo = zlen pre → hi = zlen pre + zlen mid →
  get_range (pre ++ mid ++ post) lo hi = Some mid.
Proof.
  intros -> ->. apply get_range_Some. rewrite !zlen_app.
  pose proof (zlen_nonneg pre). pose proof (zlen_nonneg mid). pose proof (zlen_nonneg post).
  split_and!; [lia..|]. unfold zlen.
  rewrite Nat2Z.id, drop_app_length, take_app_le by lia.
  rewrite firstn_all2 by lia. done.
Qed.

Lemma get_range_front {A} (mid post : list A) hi :
  hi = zlen mid → get_range (mid ++ post) 0 hi = Some mid.
Proof. intros ->. by apply (get_range_mid []). Qed.

Lemma get_from_app {A} (pre post : list A) lo :
  lo = zlen pre → get_from (pre ++ post) lo = Some post.
Proof.
  intros ->. apply get_from_Some. rewrite zlen_app.
  pose proof (zlen_nonneg pre). pose proof (zlen_nonneg post). split; [lia|].
  unfold zlen. by rewrite Nat2Z.id, drop_app_length.
Qed.

(** ** Copies into a slice *)

Lemma splice_ok buf at_ bs : 0 ≤ at_ → at_ + zlen bs ≤ zlen buf →
  splice buf at_ bs = Ret (take (Z.to_nat at_) buf ++ bs ++ drop (Z.to_nat at_ + length bs) buf).
Proof. intros H0 H1. unfold splice. by rewrite (proj2 (Z.leb_le _ _)), (proj2 (Z.leb_le _ _)) by lia. Qed.

Lemma splice_lookup (buf bs : list Z) at_ (j : nat) : 0 ≤ at_ → at_ + zlen bs ≤ zlen buf →
  (take (Z.to_nat at_) buf ++ bs ++ drop (Z.to_nat at_ + length bs) buf) !! j =
    if (at_ <=? Z.of_nat j) && (Z.of_nat j <? at_ + zlen bs) then bs !! (j - Z.to_nat at_)%nat else buf !! j.
Proof.
  intros H0 H1. unfold zlen in *. destruct (Z.leb_spec at_ (Z.of_nat j)); cbn [andb].
  - rewrite lookup_app_r by (rewrite length_take; lia). rewrite length_take. destruct (Z.ltb_spec (Z.of_nat j) (at_ + Z.of_nat (length bs))).
    + rewrite lookup_app_l by lia. f_equal. lia.
    + rewrite lookup_app_r, lookup_drop by lia. f_equal. lia.
  - rewrite lookup_app_l, lookup_take by (rewrite ?length_take; lia). by rewrite decide_True by lia.
Qed.

(** ** Bits *)

(** Disjoint parts of a word. *)
Lemma lor_shiftl_add n a b : 0 ≤ n → 0 ≤ b < 2 ^ n → Z.lor (Z.shiftl a n) b = a * 2 ^ n + b.
Proof.
  intros Hn Hb. rewrite <- Z.shiftl_mul_pow2 by done. symmetry. apply Z.add_nocarry_lor.
  apply Z.bits_inj'. intros i Hi. rewrite Z.land_spec, Z.bits_0. destruct (decide (i < n)).
  - by rewrite Z.shiftl_spec_low.
  - rewrite <- (Z.mod_small b (2 ^ n)), Z.mod_pow2_bits_high by lia. by rewrite andb_false_r.
Qed.
