(* ===== verification/Tbf.v ===== *)
(** * Tock Binary Format headers

    libraries/tock-tbf/src/types.rs and parse.rs: the parser of the header that
    precedes every application in flash, the footer parser, and the accessors
    the process loader uses.  Bytes are integers between 0 and 255.

    The theorems: the parser always returns (no slice access can panic and the
    loop ends), what it accepts is what a TBF writer produced (round trip), the
    checksum detects every error confined to one word, and the driver
    permission lookup answers what the header says. *)

From S2P Require Import Prelude Bytes.

(** ** Errors *)

Inductive InitialTbfParseError : Type :=
| UnableToParse
| InvalidHeader (app_length : Z).

Inductive TbfParseError : Type :=
| TbfNotEnoughFlash
| TbfUnsupportedVersion (version : Z)
| TbfChecksumMismatch (provided calculated : Z)
| TbfBadTlvEntry (tipe : Z)
| TbfBadProcessName
| TbfInternalError
| TbfTooManyEntries (n : Z).

(** The [?] operator on [Result<_, TbfParseError>]. *)
Definition parsed (A : Type) : Type := result A TbfParseError.

#[export] Instance parsed_bind : MBind parsed :=
  fun A B f x => match x with Ok a => f a | Err e => Err e end.

Definition ok_or {A} (o : option A) (e : TbfParseError) : parsed A :=
  match o with Some a => Ok a | None => Err e end.

(** A fixed-width field of a slice; [e] is the error when it is missing. *)
Definition le_field (e : TbfParseError) (b : list Z) (lo hi : Z) : parsed Z :=
  s ← ok_or (get_range b lo hi) e; Ok (from_le_bytes s).

(** ** Header structures and their conversions from slices *)

Record TbfHeaderV2Base := mkBase {
  base_version : Z; base_header_size : Z; base_total_size : Z; base_flags : Z;
  base_checksum : Z;
}.

Inductive TbfHeaderTypes : Type :=
| TbfHeaderMain | TbfHeaderWriteableFlashRegions | TbfHeaderPackageName
| TbfHeaderFixedAddresses | TbfHeaderPermissions | TbfHeaderStoragePermissions
| TbfHeaderKernelVersion | TbfHeaderProgram | TbfFooterCredentials | TbfUnknown.

(** [tipe as usize]; the discriminant after [TbfFooterCredentials = 128]. *)
Definition tipe_usize (t : TbfHeaderTypes) : Z :=
  match t with
  | TbfHeaderMain => 1 | TbfHeaderWriteableFlashRegions => 2
  | TbfHeaderPackageName => 3 | TbfHeaderFixedAddresses => 5
  | TbfHeaderPermissions => 6 | TbfHeaderStoragePermissions => 7
  | TbfHeaderKernelVersion => 8 | TbfHeaderProgram => 9
  | TbfFooterCredentials => 128 | TbfUnknown => 129
  end.

Record TbfTlv := mkTlv { tlv_tipe : TbfHeaderTypes; tlv_length : Z }.

Record TbfHeaderV2Main := mkMain {
  main_init_fn_offset : Z; main_protected_trailer_size : Z; main_minimum_ram_size : Z;
}.

Record TbfHeaderV2Program := mkProgram {
  prog_init_fn_offset : Z; prog_protected_trailer_size : Z; prog_minimum_ram_size : Z;
  prog_binary_end_offset : Z; prog_version : Z;
}.

Record TbfHeaderV2WriteableFlashRegion := mkWfr {
  writeable_flash_region_offset : Z; writeable_flash_region_size : Z;
}.

Record TbfHeaderV2FixedAddresses := mkFixedAddresses {
  start_process_ram : Z; start_process_flash : Z;
}.

Record TbfHeaderDriverPermission := mkDriverPermission {
  perm_driver_number : Z; perm_offset : Z; perm_allowed_commands : Z;
}.

Record TbfHeaderV2Permissions := mkPermissions {
  permissions_length : Z; perms : list TbfHeaderDriverPermission;
}.

Record TbfHeaderV2StoragePermissions := mkStoragePermissions {
  sp_write_id : option Z; sp_read_length : Z; sp_read_ids : list Z;
  sp_modify_length : Z; sp_modify_ids : list Z;
}.

Record TbfHeaderV2KernelVersion := mkKernelVersion { kv_major : Z; kv_minor : Z }.

Inductive TbfFooterV2CredentialsType : Type :=
| CredReserved | CredRsa3072Key | CredRsa4096Key | CredSHA256 | CredSHA384 | CredSHA512.

Record TbfFooterV2Credentials := mkCredentials {
  cred_format : TbfFooterV2CredentialsType; cred_data : list Z;
}.

(** The constant parameter [L] of the two array types. *)
Definition NUM_STORAGE_PERMISSIONS : nat := 8.

Definition TbfHeaderV2Base_try_from (b : list Z) : parsed TbfHeaderV2Base :=
  if zlen b <? 16 then Err TbfInternalError else
  version ← le_field TbfInternalError b 0 2;
  header_size ← le_field TbfInternalError b 2 4;
  total_size ← le_field TbfInternalError b 4 8;
  flags ← le_field TbfInternalError b 8 12;
  checksum ← le_field TbfInternalError b 12 16;
  Ok (mkBase version header_size total_size flags checksum).

Definition TbfHeaderTypes_try_from (h : Z) : TbfHeaderTypes :=
  match h with
  | 1 => TbfHeaderMain
  | 2 => TbfHeaderWriteableFlashRegions
  | 3 => TbfHeaderPackageName
  | 5 => TbfHeaderFixedAddresses
  | 6 => TbfHeaderPermissions
  | 7 => TbfHeaderStoragePermissions
  | 8 => TbfHeaderKernelVersion
  | 9 => TbfHeaderProgram
  | 128 => TbfFooterCredentials
  | _ => TbfUnknown
  end.

Definition TbfTlv_try_from (b : list Z) : parsed TbfTlv :=
  tipe ← le_field TbfInternalError b 0 2;
  length ← le_field TbfInternalError b 2 4;
  Ok (mkTlv (TbfHeaderTypes_try_from tipe) length).

Definition TbfHeaderV2Main_try_from (b : list Z) : parsed TbfHeaderV2Main :=
  if zlen b <? 12 then Err TbfInternalError else
  init_fn_offset ← le_field TbfInternalError b 0 4;
  protected_trailer_size ← le_field TbfInternalError b 4 8;
  minimum_ram_size ← le_field TbfInternalError b 8 12;
  Ok (mkMain init_fn_offset protected_trailer_size minimum_ram_size).

Definition TbfHeaderV2Program_try_from (b : list Z) : parsed TbfHeaderV2Program :=
  if zlen b <? 20 then Err TbfInternalError else
  init_fn_offset ← le_field TbfInternalError b 0 4;
  protected_trailer_size ← le_field TbfInternalError b 4 8;
  minimum_ram_size ← le_field TbfInternalError b 8 12;
  binary_end_offset ← le_field TbfInternalError b 12 16;
  version ← le_field TbfInternalError b 16 20;
  Ok (mkProgram init_fn_offset protected_trailer_size minimum_ram_size
        binary_end_offset version).

Definition TbfHeaderV2WriteableFlashRegion_try_from (b : list Z) :
    parsed TbfHeaderV2WriteableFlashRegion :=
  offset ← le_field TbfInternalError b 0 4;
  size ← le_field TbfInternalError b 4 8;
  Ok (mkWfr offset size).

Definition TbfHeaderV2FixedAddresses_try_from (b : list Z) :
    parsed TbfHeaderV2FixedAddresses :=
  ram ← le_field TbfInternalError b 0 4;
  flash ← le_field TbfInternalError b 4 8;
  Ok (mkFixedAddresses ram flash).

Definition TbfHeaderDriverPermission_try_from (b : list Z) :
    parsed TbfHeaderDriverPermission :=
  if zlen b <? 16 then Err TbfInternalError else
  driver_number ← le_field TbfInternalError b 0 4;
  offset ← le_field TbfInternalError b 4 8;
  allowed_commands ← le_field TbfInternalError b 8 16;
  Ok (mkDriverPermission driver_number offset allowed_commands).

(** The loop [for i in 0..n] that fills an array of fixed capacity: entry [i]
    is read by [get i]; an index past the array is [BadTlvEntry tipe]. *)
Fixpoint fill_entries {A} (tipe : TbfHeaderTypes) (get : Z → parsed A)
    (i : Z) (n : nat) (arr : list A) : parsed (list A) :=
  match n with
  | O => Ok arr
  | S n' =>
      if i <? zlen arr then
        x ← get i;
        fill_entries tipe get (i + 1) n' (<[Z.to_nat i := x]> arr)
      else Err (TbfBadTlvEntry (tipe_usize tipe))
  end.

Definition TbfHeaderV2Permissions_try_from (L : nat) (b : list Z) :
    parsed TbfHeaderV2Permissions :=
  number_perms ← le_field TbfNotEnoughFlash b 0 2;
  perms ← fill_entries TbfHeaderPermissions
    (λ i, s ← ok_or (get_range b (2 + i * 16) (2 + i * 16 + 16)) TbfNotEnoughFlash;
          TbfHeaderDriverPermission_try_from s)
    0 (Z.to_nat number_perms) (replicate L (mkDriverPermission 0 0 0));
  Ok (mkPermissions number_perms perms).

Definition TbfHeaderV2StoragePermissions_try_from (L : nat) (b : list Z) :
    parsed TbfHeaderV2StoragePermissions :=
  write_id ← le_field TbfNotEnoughFlash b 0 4;
  read_length ← le_field TbfNotEnoughFlash b 4 6;
  read_ids ← fill_entries TbfHeaderStoragePermissions
    (λ i, le_field TbfNotEnoughFlash b (6 + i * 4) (6 + i * 4 + 4))
    0 (Z.to_nat read_length) (replicate L 0);
  let read_end := 6 + read_length * 4 in
  modify_length ← le_field TbfNotEnoughFlash b read_end (read_end + 2);
  modify_ids ← fill_entries TbfHeaderStoragePermissions
    (λ i, le_field TbfNotEnoughFlash b (read_end + 2 + i * 4) (read_end + 2 + i * 4 + 4))
    0 (Z.to_nat modify_length) (replicate L 0);
  Ok (mkStoragePermissions (if write_id =? 0 then None else Some write_id)
        read_length read_ids modify_length modify_ids).

Definition TbfHeaderV2KernelVersion_try_from (b : list Z) :
    parsed TbfHeaderV2KernelVersion :=
  major ← le_field TbfInternalError b 0 2;
  minor ← le_field TbfInternalError b 2 4;
  Ok (mkKernelVersion major minor).

Definition cred_length (ftype : TbfFooterV2CredentialsType) : Z :=
  match ftype with
  | CredReserved => 0 | CredRsa3072Key => 768 | CredRsa4096Key => 1024
  | CredSHA256 => 32 | CredSHA384 => 48 | CredSHA512 => 64
  end.

Definition TbfFooterV2Credentials_try_from (b : list Z) : parsed TbfFooterV2Credentials :=
  format ← le_field TbfInternalError b 0 4;
  ftype ← (match format with
           | 0 => Ok CredReserved
           | 1 => Ok CredRsa3072Key
           | 2 => Ok CredRsa4096Key
           | 3 => Ok CredSHA256
           | 4 => Ok CredSHA384
           | 5 => Ok CredSHA512
           | _ => Err TbfInternalError
           end : parsed TbfFooterV2CredentialsType);
  data ← ok_or (get_range b 4 (cred_length ftype + 4)) TbfNotEnoughFlash;
  Ok (mkCredentials ftype data).

Record TbfHeaderV2 := mkTbfHeaderV2 {
  hd_base : TbfHeaderV2Base;
  hd_main : option TbfHeaderV2Main;
  hd_program : option TbfHeaderV2Program;
  hd_package_name : option (list Z);
  hd_writeable_regions : option (list (option TbfHeaderV2WriteableFlashRegion));
  hd_fixed_addresses : option TbfHeaderV2FixedAddresses;
  hd_permissions : option TbfHeaderV2Permissions;
  hd_storage_permissions : option TbfHeaderV2StoragePermissions;
  hd_kernel_version : option TbfHeaderV2KernelVersion;
}.

Inductive TbfHeader : Type :=
| TbfHeader_V2 (hd : TbfHeaderV2)
| TbfHeader_Padding (base : TbfHeaderV2Base).

(** ** Parsing *)

(** [str::from_utf8]: well-formed UTF-8 byte sequences (Unicode table 3-7). *)
Definition in_range (lo hi b : Z) : bool := (lo <=? b) && (b <=? hi).

Fixpoint from_utf8 (b : list Z) : bool :=
  match b with
  | [] => true
  | b0 :: t0 =>
      if in_range 0 127 b0 then from_utf8 t0
      else match t0 with
      | [] => false
      | b1 :: t1 =>
          if in_range 194 223 b0 && in_range 128 191 b1 then from_utf8 t1
          else match t1 with
          | [] => false
          | b2 :: t2 =>
              if in_range 128 191 b2 &&
                 ((b0 =? 224) && in_range 160 191 b1 ||
                  in_range 225 236 b0 && in_range 128 191 b1 ||
                  (b0 =? 237) && in_range 128 159 b1 ||
                  in_range 238 239 b0 && in_range 128 191 b1)
              then from_utf8 t2
              else match t2 with
              | [] => false
              | b3 :: t3 =>
                  in_range 128 191 b2 && in_range 128 191 b3 &&
                  ((b0 =? 240) && in_range 144 191 b1 ||
                   in_range 241 243 b0 && in_range 128 191 b1 ||
                   (b0 =? 244) && in_range 128 143 b1) && from_utf8 t3
              end
          end
      end
  end.

(** [align4!]. *)
Definition align4 (e : Z) : Z := e + (4 - e mod 4) mod 4.

Definition parse_tbf_header_lengths (app : list Z) :
    result (Z * Z * Z) InitialTbfParseError :=
  let version := from_le_bytes (take 2 app) in
  if version =? 2 then
    let tbf_header_size := from_le_bytes (take 2 (drop 2 app)) in
    let tbf_size := from_le_bytes (take 4 (drop 4 app)) in
    if (tbf_size <? tbf_header_size) || (tbf_header_size <? 16)
    then Err (InvalidHeader tbf_size)
    else Ok (version, tbf_header_size, tbf_size)
  else Err UnableToParse.

(** [chunks_exact(4)]: the whole words, without a shorter tail. *)
Fixpoint words (b : list Z) : list Z :=
  match b with
  | b0 :: b1 :: b2 :: b3 :: t => from_le_bytes [b0; b1; b2; b3] :: words t
  | _ => []
  end.

(** XOR of the words, the fourth skipped. *)
Fixpoint checksum_from (i : Z) (ws : list Z) (checksum : Z) : Z :=
  match ws with
  | [] => checksum
  | w :: ws' => checksum_from (i + 1) ws' (if i =? 3 then checksum else Z.lxor checksum w)
  end.

(** The variables the TLV loop fills. *)
Record TlvFields := mkTlvFields {
  main_pointer : option TbfHeaderV2Main;
  program_pointer : option TbfHeaderV2Program;
  wfr_pointer : list (option TbfHeaderV2WriteableFlashRegion);
  app_name_str : list Z;
  fixed_address_pointer : option TbfHeaderV2FixedAddresses;
  permissions_pointer : option TbfHeaderV2Permissions;
  storage_permissions_pointer : option TbfHeaderV2StoragePermissions;
  kernel_version : option TbfHeaderV2KernelVersion;
}.

Definition no_fields : TlvFields :=
  mkTlvFields None None (replicate 4 None) [] None None None None.

Definition set_main x f := mkTlvFields (Some x) (program_pointer f) (wfr_pointer f)
  (app_name_str f) (fixed_address_pointer f) (permissions_pointer f)
  (storage_permissions_pointer f) (kernel_version f).
Definition set_program x f := mkTlvFields (main_pointer f) (Some x) (wfr_pointer f)
  (app_name_str f) (fixed_address_pointer f) (permissions_pointer f)
  (storage_permissions_pointer f) (kernel_version f).
Definition set_wfr x f := mkTlvFields (main_pointer f) (program_pointer f) x
  (app_name_str f) (fixed_address_pointer f) (permissions_pointer f)
  (storage_permissions_pointer f) (kernel_version f).
Definition set_name x f := mkTlvFields (main_pointer f) (program_pointer f) (wfr_pointer f)
  x (fixed_address_pointer f) (permissions_pointer f)
  (storage_permissions_pointer f) (kernel_version f).
Definition set_fixed x f := mkTlvFields (main_pointer f) (program_pointer f) (wfr_pointer f)
  (app_name_str f) (Some x) (permissions_pointer f)
  (storage_permissions_pointer f) (kernel_version f).
Definition set_permissions x f := mkTlvFields (main_pointer f) (program_pointer f) (wfr_pointer f)
  (app_name_str f) (fixed_address_pointer f) (Some x)
  (storage_permissions_pointer f) (kernel_version f).
Definition set_storage x f := mkTlvFields (main_pointer f) (program_pointer f) (wfr_pointer f)
  (app_name_str f) (fixed_address_pointer f) (permissions_pointer f)
  (Some x) (kernel_version f).
Definition set_kernel_version x f := mkTlvFields (main_pointer f) (program_pointer f)
  (wfr_pointer f) (app_name_str f) (fixed_address_pointer f) (permissions_pointer f)
  (storage_permissions_pointer f) (Some x).

(** Writeable flash regions [i], [i+1], ... of [wfr_slice]. *)
Fixpoint parse_wfrs (wfr_slice : list Z) (i : Z) (n : nat)
    (wfrs : list (option TbfHeaderV2WriteableFlashRegion)) :
    parsed (list (option TbfHeaderV2WriteableFlashRegion)) :=
  match n with
  | O => Ok wfrs
  | S n' =>
      s ← ok_or (get_range wfr_slice (i * 8) ((i + 1) * 8)) TbfNotEnoughFlash;
      wfr ← TbfHeaderV2WriteableFlashRegion_try_from s;
      parse_wfrs wfr_slice (i + 1) n' (<[Z.to_nat i := Some wfr]> wfrs)
  end.

(** The [match tlv_header.tipe] of the loop body. *)
Definition parse_tlv_entry (tlv : TbfTlv) (remaining : list Z) (f : TlvFields) :
    parsed TlvFields :=
  let bad := Err (TbfBadTlvEntry (tipe_usize (tlv_tipe tlv))) : parsed TlvFields in
  match tlv_tipe tlv with
  | TbfHeaderMain =>
      match main_pointer f with
      | None =>
          if tlv_length tlv =? 12 then
            s ← ok_or (get_range remaining 0 12) TbfNotEnoughFlash;
            m ← TbfHeaderV2Main_try_from s; Ok (set_main m f)
          else bad
      | Some _ => Ok f
      end
  | TbfHeaderProgram =>
      match program_pointer f with
      | None =>
          if tlv_length tlv =? 20 then
            s ← ok_or (get_range remaining 0 20) TbfNotEnoughFlash;
            p ← TbfHeaderV2Program_try_from s; Ok (set_program p f)
          else bad
      | Some _ => Ok f
      end
  | TbfHeaderWriteableFlashRegions =>
      if tlv_length tlv mod 8 =? 0 then
        let number_regions := tlv_length tlv / 8 in
        wfr_slice ← ok_or (get_range remaining 0 (tlv_length tlv)) TbfNotEnoughFlash;
        let number_regions := if 4 <? number_regions then 4 else number_regions in
        ws ← parse_wfrs wfr_slice 0 (Z.to_nat number_regions) (wfr_pointer f);
        Ok (set_wfr ws f)
      else bad
  | TbfHeaderPackageName =>
      name_buf ← ok_or (get_range remaining 0 (tlv_length tlv)) TbfNotEnoughFlash;
      if from_utf8 name_buf then Ok (set_name name_buf f) else Err TbfBadProcessName
  | TbfHeaderFixedAddresses =>
      if tlv_length tlv =? 8 then
        s ← ok_or (get_range remaining 0 8) TbfNotEnoughFlash;
        a ← TbfHeaderV2FixedAddresses_try_from s; Ok (set_fixed a f)
      else bad
  | TbfHeaderPermissions =>
      p ← TbfHeaderV2Permissions_try_from 8 remaining; Ok (set_permissions p f)
  | TbfHeaderStoragePermissions =>
      p ← TbfHeaderV2StoragePermissions_try_from NUM_STORAGE_PERMISSIONS remaining;
      Ok (set_storage p f)
  | TbfHeaderKernelVersion =>
      if tlv_length tlv =? 4 then
        s ← ok_or (get_range remaining 0 4) TbfNotEnoughFlash;
        v ← TbfHeaderV2KernelVersion_try_from s; Ok (set_kernel_version v f)
      else bad
  | TbfFooterCredentials | TbfUnknown => Ok f
  end.

(** The body of the [while remaining.len() > 0] loop: the fields after one
    entry and the bytes left. *)
Definition parse_tlv (remaining : list Z) (f : TlvFields) : parsed (list Z * TlvFields) :=
  t ← ok_or (get_range remaining 0 4) TbfNotEnoughFlash;
  tlv_header ← TbfTlv_try_from t;
  remaining ← ok_or (get_from remaining 4) TbfNotEnoughFlash;
  f ← parse_tlv_entry tlv_header remaining f;
  remaining ← ok_or (get_from remaining (align4 (tlv_length tlv_header))) TbfNotEnoughFlash;
  Ok (remaining, f).

(** The loop; [Panic] here only means that the fuel ran out, which
    [parse_tbf_header_returns] excludes for the fuel the parser passes. *)
Fixpoint parse_tlvs (fuel : nat) (remaining : list Z) (f : TlvFields) :
    outcome (parsed TlvFields) :=
  match remaining with
  | [] => Ret (Ok f)
  | _ =>
      match fuel with
      | O => Panic
      | S fuel' =>
          match parse_tlv remaining f with
          | Err e => Ret (Err e)
          | Ok (remaining', f') => parse_tlvs fuel' remaining' f'
          end
      end
  end.

Definition header_of_fields (base : TbfHeaderV2Base) (f : TlvFields) : TbfHeader :=
  TbfHeader_V2 (mkTbfHeaderV2 base (main_pointer f) (program_pointer f)
    (Some (app_name_str f)) (Some (wfr_pointer f)) (fixed_address_pointer f)
    (permissions_pointer f) (storage_permissions_pointer f) (kernel_version f)).

Definition parse_tbf_header (header : list Z) (version : Z) : outcome (parsed TbfHeader) :=
  if version =? 2 then
    match TbfHeaderV2Base_try_from header with
    | Err e => Ret (Err e)
    | Ok tbf_header_base =>
        let checksum := checksum_from 0 (words header) 0 in
        if negb (checksum =? base_checksum tbf_header_base) then
          Ret (Err (TbfChecksumMismatch (base_checksum tbf_header_base) checksum))
        else
          match get_from header 16 with
          | None => Ret (Err TbfNotEnoughFlash)
          | Some [] => Ret (Ok (TbfHeader_Padding tbf_header_base))
          | Some remaining =>
              r ← parse_tlvs (length remaining) remaining no_fields;
              match r with
              | Err e => Ret (Err e)
              | Ok f => Ret (Ok (header_of_fields tbf_header_base f))
              end
          end
    end
  else Ret (Err (TbfUnsupportedVersion version)).

Definition parse_tbf_footer (footers : list Z) : parsed (TbfFooterV2Credentials * Z) :=
  tlv_header ← TbfTlv_try_from footers;
  remaining ← ok_or (get_from footers 4) TbfNotEnoughFlash;
  match tlv_tipe tlv_header with
  | TbfFooterCredentials =>
      s ← ok_or (get_range remaining 0 (tlv_length tlv_header)) TbfNotEnoughFlash;
      credential ← TbfFooterV2Credentials_try_from s;
      Ok (credential, tlv_length tlv_header)
  | t => Err (TbfBadTlvEntry (tipe_usize t))
  end.

(** ** Accessors *)

Definition TbfHeader_length (h : TbfHeader) : Z :=
  match h with
  | TbfHeader_V2 hd => base_header_size (hd_base hd)
  | TbfHeader_Padding base => base_header_size base
  end.

Definition is_app (h : TbfHeader) : bool :=
  match h with TbfHeader_V2 _ => true | TbfHeader_Padding _ => false end.

Definition enabled (h : TbfHeader) : bool :=
  match h with
  | TbfHeader_V2 hd => Z.land (base_flags (hd_base hd)) 1 =? 1
  | TbfHeader_Padding _ => false
  end.

Definition get_minimum_app_ram_size (h : TbfHeader) : Z :=
  match h with
  | TbfHeader_V2 hd =>
      match hd_program hd, hd_main hd with
      | Some p, _ => prog_minimum_ram_size p
      | None, Some m => main_minimum_ram_size m
      | None, None => 0
      end
  | _ => 0
  end.

(** The additions are on [u32] and overflow like any other. *)
Definition get_protected_size (h : TbfHeader) : outcome Z :=
  match h with
  | TbfHeader_V2 hd =>
      match hd_program hd, hd_main hd with
      | Some p, _ => uadd (base_header_size (hd_base hd)) (prog_protected_trailer_size p)
      | None, Some m => uadd (base_header_size (hd_base hd)) (main_protected_trailer_size m)
      | None, None => Ret 0
      end
  | _ => Ret 0
  end.

Definition get_app_start_offset (h : TbfHeader) : outcome Z := get_protected_size h.

Definition get_init_function_offset (h : TbfHeader) : outcome Z :=
  match h with
  | TbfHeader_V2 hd =>
      match hd_program hd, hd_main hd with
      | Some p, _ => uadd (prog_init_fn_offset p) (base_header_size (hd_base hd))
      | None, Some m => uadd (main_init_fn_offset m) (base_header_size (hd_base hd))
      | None, None => Ret 0
      end
  | _ => Ret 0
  end.

Definition get_package_name (h : TbfHeader) : option (list Z) :=
  match h with TbfHeader_V2 hd => hd_package_name hd | _ => None end.

Definition number_writeable_flash_regions (h : TbfHeader) : Z :=
  match h with
  | TbfHeader_V2 hd =>
      match hd_writeable_regions hd with
      | Some wrs => foldl (λ acc wr, if bool_decide (is_Some wr) then acc + 1 else acc) 0 wrs
      | None => 0
      end
  | _ => 0
  end.

Definition get_writeable_flash_region (h : TbfHeader) (index : Z) : Z * Z :=
  match h with
  | TbfHeader_V2 hd =>
      match hd_writeable_regions hd with
      | Some wrs =>
          match default None (wrs !! Z.to_nat index) with
          | Some wr => (writeable_flash_region_offset wr, writeable_flash_region_size wr)
          | None => (0, 0)
          end
      | None => (0, 0)
      end
  | _ => (0, 0)
  end.

Definition get_fixed_address_ram (h : TbfHeader) : option Z :=
  match h with
  | TbfHeader_V2 hd =>
      a ← hd_fixed_addresses hd;
      if start_process_ram a =? 4294967295 then None else Some (start_process_ram a)
  | _ => None
  end.

Definition get_fixed_address_flash (h : TbfHeader) : option Z :=
  match h with
  | TbfHeader_V2 hd =>
      a ← hd_fixed_addresses hd;
      if start_process_flash a =? 4294967295 then None else Some (start_process_flash a)
  | _ => None
  end.

Inductive CommandPermissions : Type :=
| NoPermsAtAll
| NoPermsThisDriver
| Mask (allowed : Z).

(** The scan over the permission array. *)
Fixpoint scan_perms (driver_num offset : Z) (found_driver_num : bool)
    (ps : list TbfHeaderDriverPermission) : CommandPermissions :=
  match ps with
  | [] => if found_driver_num then Mask 0 else NoPermsThisDriver
  | perm :: ps' =>
      if perm_driver_number perm =? driver_num then
        if perm_offset perm =? offset then Mask (perm_allowed_commands perm)
        else scan_perms driver_num offset true ps'
      else scan_perms driver_num offset found_driver_num ps'
  end.

Definition get_command_permissions (h : TbfHeader) (driver_num offset : Z) : CommandPermissions :=
  match h with
  | TbfHeader_V2 hd =>
      match hd_permissions hd with
      | Some permissions => scan_perms driver_num offset false (perms permissions)
      | None => NoPermsAtAll
      end
  | _ => NoPermsAtAll
  end.

Definition get_storage_write_id (h : TbfHeader) : option Z :=
  match h with
  | TbfHeader_V2 hd =>
      match hd_storage_permissions hd with Some p => sp_write_id p | None => None end
  | _ => None
  end.

Definition get_storage_read_ids (h : TbfHeader) : option (Z * list Z) :=
  match h with
  | TbfHeader_V2 hd =>
      match hd_storage_permissions hd with
      | Some p => Some (sp_read_length p, sp_read_ids p)
      | None => None
      end
  | _ => None
  end.

Definition get_storage_modify_ids (h : TbfHeader) : option (Z * list Z) :=
  match h with
  | TbfHeader_V2 hd =>
      match hd_storage_permissions hd with
      | Some p => Some (sp_modify_length p, sp_modify_ids p)
      | None => None
      end
  | _ => None
  end.

Definition get_kernel_version (h : TbfHeader) : option (Z * Z) :=
  match h with
  | TbfHeader_V2 hd =>
      match hd_kernel_version hd with
      | Some v => Some (kv_major v, kv_minor v)
      | None => None
      end
  | _ => None
  end.

Definition get_binary_end (h : TbfHeader) : Z :=
  match h with
  | TbfHeader_V2 hd =>
      match hd_program hd with
      | Some p => prog_binary_end_offset p
      | None => base_total_size (hd_base hd)
      end
  | _ => 0
  end.

Definition get_binary_version (h : TbfHeader) : Z :=
  match h with
  | TbfHeader_V2 hd =>
      match hd_program hd with Some p => prog_version p | None => 0 end
  | _ => 0
  end.

(** ** The parser returns *)

Lemma ok_or_Ok {A} (o : option A) e a : ok_or o e = Ok a ↔ o = Some a.
Proof. destruct o; cbn; naive_solver. Qed.

Lemma parsed_bind_Ok {A B} (m : parsed A) (f : A → parsed B) b :
  (m ≫= f) = Ok b ↔ ∃ a, m = Ok a ∧ f a = Ok b.
Proof. destruct m; cbn; naive_solver. Qed.

(** Every entry consumes at least its four bytes of type and length. *)
Lemma parse_tlv_shorter remaining f r f' :
  parse_tlv remaining f = Ok (r, f') → (length r + 4 <= length remaining)%nat.
Proof.
  unfold parse_tlv. intros H.
  repeat (apply parsed_bind_Ok in H as (? & ? & H)). injection H as <- <-.
  repeat match goal with H : ok_or _ _ = Ok _ |- _ => apply ok_or_Ok in H end.
  repeat match goal with H : get_from _ _ = Some _ |- _ => apply get_from_Some in H as [? ->] end.
  unfold zlen in *. rewrite !length_drop in *. lia.
Qed.

Lemma parse_tlvs_returns fuel remaining f :
  (length remaining <= fuel)%nat → ∃ r, parse_tlvs fuel remaining f = Ret r.
Proof.
  revert remaining f. induction fuel as [|fuel IH]; intros remaining f Hl.
  - destruct remaining; [by eexists|cbn in Hl; lia].
  - destruct remaining as [|b0 rem]; [by eexists|]. cbn [parse_tlvs].
    destruct (parse_tlv (b0 :: rem) f) as [[r f']|e] eqn:E; [|by eexists].
    apply parse_tlv_shorter in E. apply IH. cbn in *. lia.
Qed.

(** The header parser returns on every byte string: it neither panics nor
    loops, whatever the application image contains. *)
Theorem parse_tbf_header_returns (header : list Z) (version : Z) :
  ∃ r, parse_tbf_header header version = Ret r.
Proof.
  unfold parse_tbf_header. case_match; [|by eexists].
  case_match; [|by eexists]. case_match; [by eexists|].
  destruct (get_from header 16) as [[|b0 rem]|]; [by eexists| |by eexists].
  destruct (parse_tlvs_returns (length (b0 :: rem)) (b0 :: rem) no_fields ltac:(done)) as [r ->].
  destruct r; by eexists.
Qed.

(** ** A TBF writer

    The format of doc/TockBinaryFormat.md: the base header, then type-length
    entries padded to four bytes, and the checksum that makes the XOR of all
    words zero.  It is the reference the parser is compared with. *)

Inductive tlv_entry : Type :=
| EMain (m : TbfHeaderV2Main)
| EProgram (p : TbfHeaderV2Program)
| EWfrs (ws : list TbfHeaderV2WriteableFlashRegion)
| EName (name : list Z)
| EFixed (a : TbfHeaderV2FixedAddresses)
| EPermissions (ps : list TbfHeaderDriverPermission)
| EStorage (write_id : Z) (reads modifies : list Z)
| EKernelVersion (v : TbfHeaderV2KernelVersion)
| EUnknown (tipe : Z) (data : list Z).

Definition entry_tipe (e : tlv_entry) : Z :=
  match e with
  | EMain _ => 1 | EWfrs _ => 2 | EName _ => 3 | EFixed _ => 5 | EPermissions _ => 6
  | EStorage _ _ _ => 7 | EKernelVersion _ => 8 | EProgram _ => 9 | EUnknown t _ => t
  end.

Definition wfr_bytes (w : TbfHeaderV2WriteableFlashRegion) : list Z :=
  le_bytes 4 (writeable_flash_region_offset w) ++ le_bytes 4 (writeable_flash_region_size w).

Definition perm_bytes (p : TbfHeaderDriverPermission) : list Z :=
  le_bytes 4 (perm_driver_number p) ++ le_bytes 4 (perm_offset p)
  ++ le_bytes 8 (perm_allowed_commands p).

Definition entry_payload (e : tlv_entry) : list Z :=
  match e with
  | EMain m => le_bytes 4 (main_init_fn_offset m) ++ le_bytes 4 (main_protected_trailer_size m)
      ++ le_bytes 4 (main_minimum_ram_size m)
  | EProgram p => le_bytes 4 (prog_init_fn_offset p) ++ le_bytes 4 (prog_protected_trailer_size p)
      ++ le_bytes 4 (prog_minimum_ram_size p) ++ le_bytes 4 (prog_binary_end_offset p)
      ++ le_bytes 4 (prog_version p)
  | EWfrs ws => mjoin (wfr_bytes <$> ws)
  | EName name => name
  | EFixed a => le_bytes 4 (start_process_ram a) ++ le_bytes 4 (start_process_flash a)
  | EPermissions ps => le_bytes 2 (zlen ps) ++ mjoin (perm_bytes <$> ps)
  | EStorage w rs ms => le_bytes 4 w ++ le_bytes 2 (zlen rs) ++ mjoin (le_bytes 4 <$> rs)
      ++ le_bytes 2 (zlen ms) ++ mjoin (le_bytes 4 <$> ms)
  | EKernelVersion v => le_bytes 2 (kv_major v) ++ le_bytes 2 (kv_minor v)
  | EUnknown _ data => data
  end.

Definition encode_tlv (e : tlv_entry) : list Z :=
  let payload := entry_payload e in
  le_bytes 2 (entry_tipe e) ++ le_bytes 2 (zlen payload) ++ payload
  ++ replicate (Z.to_nat (align4 (zlen payload) - zlen payload)) 0.

Definition xor_words (ws : list Z) : Z := foldr Z.lxor 0 ws.

Definition encode_tbf_header (total_size flags : Z) (es : list tlv_entry) : list Z :=
  let body := mjoin (encode_tlv <$> es) in
  let front := le_bytes 2 2 ++ le_bytes 2 (16 + zlen body) ++ le_bytes 4 total_size
               ++ le_bytes 4 flags in
  front ++ le_bytes 4 (xor_words (words (front ++ body))) ++ body.

(** What the entry means to the kernel: the first Main and the first Program
    count, of the others the last. *)
Definition pad_entries {A} (d : A) (xs : list A) : list A :=
  xs ++ replicate (8 - length xs) d.

Definition apply_entry (f : TlvFields) (e : tlv_entry) : TlvFields :=
  match e with
  | EMain m => if main_pointer f then f else set_main m f
  | EProgram p => if program_pointer f then f else set_program p f
  | EWfrs ws => set_wfr ((Some <$> ws) ++ drop (length ws) (wfr_pointer f)) f
  | EName name => set_name name f
  | EFixed a => set_fixed a f
  | EPermissions ps =>
      set_permissions (mkPermissions (zlen ps) (pad_entries (mkDriverPermission 0 0 0) ps)) f
  | EStorage w rs ms =>
      set_storage (mkStoragePermissions (if w =? 0 then None else Some w)
        (zlen rs) (pad_entries 0 rs) (zlen ms) (pad_entries 0 ms)) f
  | EKernelVersion v => set_kernel_version v f
  | EUnknown _ _ => f
  end.

Definition entry_wf (e : tlv_entry) : Prop :=
  match e with
  | EMain m => u32 (main_init_fn_offset m) ∧ u32 (main_protected_trailer_size m)
      ∧ u32 (main_minimum_ram_size m)
  | EProgram p => u32 (prog_init_fn_offset p) ∧ u32 (prog_protected_trailer_size p)
      ∧ u32 (prog_minimum_ram_size p) ∧ u32 (prog_binary_end_offset p) ∧ u32 (prog_version p)
  | EWfrs ws => (length ws <= 4)%nat ∧ Forall (λ w, u32 (writeable_flash_region_offset w)
      ∧ u32 (writeable_flash_region_size w)) ws
  | EName name => from_utf8 name = true ∧ u16 (zlen name) ∧ Forall byte name
  | EFixed a => u32 (start_process_ram a) ∧ u32 (start_process_flash a)
  | EPermissions ps => (length ps <= 8)%nat ∧ Forall (λ p, u32 (perm_driver_number p)
      ∧ u32 (perm_offset p) ∧ u64 (perm_allowed_commands p)) ps
  | EStorage w rs ms => u32 w ∧ (length rs <= 8)%nat ∧ (length ms <= 8)%nat
      ∧ Forall u32 rs ∧ Forall u32 ms
  | EKernelVersion v => u16 (kv_major v) ∧ u16 (kv_minor v)
  | EUnknown t data => u16 t ∧ TbfHeaderTypes_try_from t = TbfUnknown
      ∧ u16 (zlen data) ∧ Forall byte data
  end.

Lemma le_field_mid e pre n z post lo hi :
  lo = zlen pre → hi = zlen pre + Z.of_nat n → 0 ≤ z < 256 ^ Z.of_nat n →
  le_field e (pre ++ le_bytes n z ++ post) lo hi = Ok z.
Proof.
  intros -> -> Hz. unfold le_field.
  rewrite get_range_mid by (rewrite ?zlen_le_bytes; lia). cbn.
  by rewrite from_le_bytes_le_bytes.
Qed.

Lemma le_field_front e n z post hi :
  hi = Z.of_nat n → 0 ≤ z < 256 ^ Z.of_nat n →
  le_field e (le_bytes n z ++ post) 0 hi = Ok z.
Proof. intros -> Hz. by apply (le_field_mid e []). Qed.

(** *** Conversions of the fixed-size structures *)

(** The fields sit at literal offsets, so a conversion evaluates to the decoded
    bytes of each field. *)
Ltac decode_fields :=
  rewrite ?from_le_u16, ?from_le_u32, ?from_le_u64 by done; done.

Lemma main_try_from m : entry_wf (EMain m) →
  TbfHeaderV2Main_try_from (entry_payload (EMain m)) = Ok m.
Proof.
  destruct m as [a b c]. intros (H1 & H2 & H3).
  change (Ok (E := TbfParseError) (mkMain (from_le_bytes (le_bytes 4 a))
    (from_le_bytes (le_bytes 4 b)) (from_le_bytes (le_bytes 4 c))) = Ok (mkMain a b c)).
  decode_fields.
Qed.

Lemma program_try_from p : entry_wf (EProgram p) →
  TbfHeaderV2Program_try_from (entry_payload (EProgram p)) = Ok p.
Proof.
  destruct p as [a b c d e]. intros (H1 & H2 & H3 & H4 & H5).
  change (Ok (E := TbfParseError) (mkProgram (from_le_bytes (le_bytes 4 a))
    (from_le_bytes (le_bytes 4 b)) (from_le_bytes (le_bytes 4 c))
    (from_le_bytes (le_bytes 4 d)) (from_le_bytes (le_bytes 4 e))) = Ok (mkProgram a b c d e)).
  decode_fields.
Qed.

Lemma wfr_try_from w :
  u32 (writeable_flash_region_offset w) → u32 (writeable_flash_region_size w) →
  TbfHeaderV2WriteableFlashRegion_try_from (wfr_bytes w) = Ok w.
Proof.
  destruct w as [a b]. intros H1 H2.
  change (Ok (E := TbfParseError) (mkWfr (from_le_bytes (le_bytes 4 a))
    (from_le_bytes (le_bytes 4 b))) = Ok (mkWfr a b)).
  decode_fields.
Qed.

Lemma fixed_try_from a : entry_wf (EFixed a) →
  TbfHeaderV2FixedAddresses_try_from (entry_payload (EFixed a)) = Ok a.
Proof.
  destruct a as [a b]. intros [H1 H2].
  change (Ok (E := TbfParseError) (mkFixedAddresses (from_le_bytes (le_bytes 4 a))
    (from_le_bytes (le_bytes 4 b))) = Ok (mkFixedAddresses a b)).
  decode_fields.
Qed.

Lemma perm_try_from p :
  u32 (perm_driver_number p) → u32 (perm_offset p) → u64 (perm_allowed_commands p) →
  TbfHeaderDriverPermission_try_from (perm_bytes p) = Ok p.
Proof.
  destruct p as [a b c]. intros H1 H2 H3.
  change (Ok (E := TbfParseError) (mkDriverPermission (from_le_bytes (le_bytes 4 a))
    (from_le_bytes (le_bytes 4 b)) (from_le_bytes (le_bytes 8 c)))
    = Ok (mkDriverPermission a b c)).
  decode_fields.
Qed.

Lemma kernel_version_try_from v : entry_wf (EKernelVersion v) →
  TbfHeaderV2KernelVersion_try_from (entry_payload (EKernelVersion v)) = Ok v.
Proof.
  destruct v as [a b]. intros [H1 H2].
  change (Ok (E := TbfParseError) (mkKernelVersion (from_le_bytes (le_bytes 2 a))
    (from_le_bytes (le_bytes 2 b))) = Ok (mkKernelVersion a b)).
  decode_fields.
Qed.

(** *** Arrays of entries *)

(** The loop over an array writes the entries it reads, in order. *)
Lemma fill_entries_spec {A} tipe (get : Z → parsed A) (xs arr : list A) (i : nat) :
  (∀ k x, xs !! k = Some x → get (Z.of_nat (i + k)) = Ok x) →
  (i + length xs <= length arr)%nat →
  fill_entries tipe get (Z.of_nat i) (length xs) arr
  = Ok (take i arr ++ xs ++ drop (i + length xs) arr).
Proof.
  revert arr i. induction xs as [|x xs IH]; intros arr i Hget Hlen; cbn [length fill_entries].
  { cbn. by rewrite Nat.add_0_r, take_drop. }
  cbn in Hlen. destruct (Z.ltb_spec (Z.of_nat i) (zlen arr)); [|unfold zlen in *; lia].
  rewrite <- (Nat.add_0_r i) at 1. rewrite (Hget 0%nat x eq_refl). cbn [mbind parsed_bind].
  rewrite Nat2Z.id. replace (Z.of_nat i + 1) with (Z.of_nat (S i)) by lia.
  rewrite IH; [|intros k y Hk; rewrite <- (Hget (S k) y Hk); f_equal; lia
               |rewrite length_insert; lia].
  f_equal. rewrite drop_insert_lt by lia.
  rewrite (take_S_r _ _ x) by (apply list_lookup_insert_eq; lia).
  rewrite take_insert_ge by lia. rewrite <- app_assoc. cbn. by rewrite Nat.add_succ_r.
Qed.

Lemma fill_entries_pad {A} tipe (get : Z → parsed A) (xs : list A) d n :
  n = length xs → (length xs <= 8)%nat →
  (∀ k x, xs !! k = Some x → get (Z.of_nat k) = Ok x) →
  fill_entries tipe get 0 n (replicate 8 d) = Ok (pad_entries d xs).
Proof.
  intros -> Hlen Hget.
  etrans; [apply (fill_entries_spec tipe get xs (replicate 8 d) 0)|].
  - done.
  - rewrite length_replicate. lia.
  - cbn [take app Nat.add]. by rewrite drop_replicate.
Qed.

(** Entry [k] of equally sized chunks. *)
Lemma mjoin_chunk {A B} (g : A → list B) (n : nat) (xs : list A) k x :
  (∀ y, length (g y) = n) → xs !! k = Some x →
  ∃ pre post, mjoin (g <$> xs) = pre ++ g x ++ post ∧ length pre = (k * n)%nat.
Proof.
  intros Hn. revert k. induction xs as [|y xs IH]; intros [|k] Hk; simplify_eq/=.
  - by exists [], (mjoin (g <$> xs)).
  - destruct (IH k Hk) as (pre & post & E & Hl). exists (g y ++ pre), post.
    rewrite E, <- app_assoc, length_app, Hl, Hn. done.
Qed.

Lemma length_mjoin_chunks {A B} (g : A → list B) (n : nat) (xs : list A) :
  (∀ y, length (g y) = n) → length (mjoin (g <$> xs)) = (length xs * n)%nat.
Proof.
  intros Hn. induction xs as [|x xs IH]; [done|].
  change (length (g x ++ mjoin (g <$> xs)) = (S (length xs) * n)%nat).
  by rewrite length_app, Hn, IH.
Qed.

Lemma wfr_bytes_length w : length (wfr_bytes w) = 8%nat.
Proof. done. Qed.
Lemma perm_bytes_length p : length (perm_bytes p) = 16%nat.
Proof. done. Qed.

Lemma parse_wfrs_spec ws wfrs i :
  Forall (λ w, u32 (writeable_flash_region_offset w) ∧ u32 (writeable_flash_region_size w)) ws →
  (length ws <= length wfrs)%nat → (i <= length ws)%nat →
  parse_wfrs (mjoin (wfr_bytes <$> ws)) (Z.of_nat i) (length ws - i)
    ((Some <$> take i ws) ++ drop i wfrs)
  = Ok ((Some <$> ws) ++ drop (length ws) wfrs).
Proof.
  intros Hws Hl Hi. remember (length ws - i)%nat as n eqn:Hn.
  revert i Hi Hn. induction n as [|n IH]; intros i Hi Hn; cbn [parse_wfrs].
  { replace i with (length ws) by lia. by rewrite firstn_all. }
  destruct (lookup_lt_is_Some_2 ws i) as [w Hw]; [lia|].
  destruct (mjoin_chunk wfr_bytes 8 ws i w wfr_bytes_length Hw) as (pre & post & E & Hpre).
  rewrite E, get_range_mid by (unfold zlen; rewrite ?wfr_bytes_length, Hpre; lia).
  cbn [ok_or mbind parsed_bind].
  rewrite wfr_try_from by (eapply Forall_lookup_1 in Hws; [|done]; naive_solver).
  cbn [mbind parsed_bind]. rewrite <- E, Nat2Z.id.
  replace (Z.of_nat i + 1) with (Z.of_nat (S i)) by lia.
  rewrite <- (IH (S i)) by lia. f_equal.
  rewrite insert_app_r_alt by (rewrite length_fmap, length_take; lia).
  rewrite length_fmap, length_take, Nat.min_l, Nat.sub_diag by lia.
  destruct (drop i wfrs) as [|x rest] eqn:Ed.
  { apply (f_equal length) in Ed. rewrite length_drop in Ed. cbn in Ed. lia. }
  rewrite (take_S_r _ _ w Hw), fmap_app, <- app_assoc. cbn.
  by rewrite <- Nat.add_1_r, <- drop_drop, Ed.
Qed.

Lemma permissions_try_from ps rest : entry_wf (EPermissions ps) →
  TbfHeaderV2Permissions_try_from 8 (entry_payload (EPermissions ps) ++ rest)
  = Ok (mkPermissions (zlen ps) (pad_entries (mkDriverPermission 0 0 0) ps)).
Proof.
  intros [Hl Hps]. unfold TbfHeaderV2Permissions_try_from, entry_payload.
  rewrite <- app_assoc.
  rewrite le_field_front by (cbn; unfold zlen; lia). cbn [mbind parsed_bind].
  rewrite (fill_entries_pad _ _ ps); [done|unfold zlen; lia|done|].
  intros k p Hk.
  destruct (mjoin_chunk perm_bytes 16 ps k p perm_bytes_length Hk) as (pre & post & -> & Hpre).
  rewrite <- !app_assoc, (app_assoc (le_bytes 2 _) pre).
  rewrite get_range_mid; [cbn [ok_or mbind parsed_bind]| |].
  - eapply Forall_lookup_1 in Hps as (? & ? & ?); [|done]. by apply perm_try_from.
  - rewrite zlen_app, zlen_le_bytes. unfold zlen. rewrite Hpre. lia.
  - rewrite zlen_app, zlen_le_bytes. unfold zlen. rewrite Hpre, perm_bytes_length. lia.
Qed.

(** The identifiers of one list of the storage permissions. *)
Lemma storage_ids_spec pre ids rest base :
  base = zlen pre → Forall u32 ids → (length ids <= 8)%nat →
  fill_entries TbfHeaderStoragePermissions
    (λ i, le_field TbfNotEnoughFlash (pre ++ mjoin (le_bytes 4 <$> ids) ++ rest)
            (base + i * 4) (base + i * 4 + 4))
    0 (Z.to_nat (zlen ids)) (replicate NUM_STORAGE_PERMISSIONS 0)
  = Ok (pad_entries 0 ids).
Proof.
  intros -> Hids Hl. apply fill_entries_pad; [unfold zlen; lia|done|].
  intros k x Hk.
  destruct (mjoin_chunk (le_bytes 4) 4 ids k x (length_le_bytes 4) Hk) as (p & q & -> & Hp).
  rewrite <- !app_assoc, (app_assoc pre p).
  apply le_field_mid; [rewrite zlen_app; unfold zlen; lia|rewrite zlen_app; unfold zlen; lia|].
  eapply Forall_lookup_1 in Hids; [|done]. unfold u32 in Hids. cbn. lia.
Qed.

Lemma storage_try_from w rs ms rest : entry_wf (EStorage w rs ms) →
  TbfHeaderV2StoragePermissions_try_from NUM_STORAGE_PERMISSIONS
    (entry_payload (EStorage w rs ms) ++ rest)
  = Ok (mkStoragePermissions (if w =? 0 then None else Some w)
          (zlen rs) (pad_entries 0 rs) (zlen ms) (pad_entries 0 ms)).
Proof.
  intros (Hw & Hr & Hm & Hrs & Hms).
  unfold TbfHeaderV2StoragePermissions_try_from, entry_payload. rewrite <- !app_assoc.
  set (R := mjoin (le_bytes 4 <$> rs)). set (M := mjoin (le_bytes 4 <$> ms)).
  assert (HR : zlen R = zlen rs * 4)
    by (unfold zlen, R; rewrite (length_mjoin_chunks _ 4 _ (length_le_bytes 4)); lia).
  rewrite le_field_front by (unfold u32 in Hw; cbn; lia). cbn [mbind parsed_bind].
  rewrite (le_field_mid _ (le_bytes 4 w)) by (rewrite ?zlen_le_bytes; cbn; unfold zlen; lia).
  cbn [mbind parsed_bind].
  rewrite (app_assoc (le_bytes 4 w) (le_bytes 2 (zlen rs))).
  rewrite (storage_ids_spec (le_bytes 4 w ++ le_bytes 2 (zlen rs)) rs _ 6) by done.
  cbn [mbind parsed_bind]. rewrite (app_assoc (le_bytes 4 w ++ _) R).
  rewrite le_field_mid by (rewrite ?zlen_app, ?zlen_le_bytes, ?HR; cbn; unfold zlen; lia).
  cbn [mbind parsed_bind]. rewrite (app_assoc _ (le_bytes 2 (zlen ms))).
  rewrite (storage_ids_spec _ ms); [done| |done|done].
  rewrite !zlen_app, !zlen_le_bytes, HR. lia.
Qed.

(** *** One entry *)

Definition entry_type (e : tlv_entry) : TbfHeaderTypes :=
  TbfHeaderTypes_try_from (entry_tipe e).

Lemma entry_payload_u16 e : entry_wf e → u16 (zlen (entry_payload e)).
Proof.
  destruct e; cbn [entry_wf entry_payload]; intros H;
    rewrite ?zlen_app, ?zlen_le_bytes; unfold u16; try (cbn; lia).
  - unfold zlen. rewrite (length_mjoin_chunks _ 8 _ wfr_bytes_length). lia.
  - destruct H as (_ & ? & _). done.
  - unfold zlen. rewrite (length_mjoin_chunks _ 16 _ perm_bytes_length). lia.
  - unfold zlen. rewrite !(length_mjoin_chunks _ 4 _ (length_le_bytes 4)). lia.
  - destruct H as (_ & _ & ? & _). done.
Qed.

Lemma parse_tlv_entry_spec e rest f :
  entry_wf e → length (wfr_pointer f) = 4%nat →
  parse_tlv_entry (mkTlv (entry_type e) (zlen (entry_payload e))) (entry_payload e ++ rest) f
  = Ok (apply_entry f e).
Proof.
  intros Hwf Hw4.
  destruct e as [m|p|ws|name|a|ps|w rs ms|v|t data];
    unfold entry_type, parse_tlv_entry; cbn [entry_tipe TbfHeaderTypes_try_from tlv_tipe tlv_length].
  - cbn [apply_entry]. destruct (main_pointer f); [done|].
    change (zlen (entry_payload (EMain m)) =? 12) with true. cbn match.
    rewrite get_range_front by done. cbn [ok_or mbind parsed_bind].
    by rewrite main_try_from.
  - cbn [apply_entry]. destruct (program_pointer f); [done|].
    change (zlen (entry_payload (EProgram p)) =? 20) with true. cbn match.
    rewrite get_range_front by done. cbn [ok_or mbind parsed_bind].
    by rewrite program_try_from.
  - destruct Hwf as [Hl Hws]. cbn [entry_payload].
    assert (Hz : zlen (mjoin (wfr_bytes <$> ws)) = zlen ws * 8)
      by (unfold zlen; rewrite (length_mjoin_chunks _ 8 _ wfr_bytes_length); lia).
    rewrite Hz, Z.mod_mul, Z.div_mul by lia. cbn match. change (0 =? 0) with true. cbn match.
    rewrite get_range_front by done. cbn [ok_or mbind parsed_bind].
    destruct (Z.ltb_spec 4 (zlen ws)); [unfold zlen in *; lia|].
    pose proof (parse_wfrs_spec ws (wfr_pointer f) 0 Hws ltac:(lia) ltac:(lia)) as E.
    rewrite Nat.sub_0_r in E.
    change (parse_wfrs (mjoin (wfr_bytes <$> ws)) 0 (length ws) (wfr_pointer f)
            = Ok ((Some <$> ws) ++ drop (length ws) (wfr_pointer f))) in E.
    replace (Z.to_nat (zlen ws)) with (length ws) by (unfold zlen; lia).
    by rewrite E.
  - destruct Hwf as (Hu & _ & _). cbn [entry_payload]. rewrite get_range_front by done.
    cbn [ok_or mbind parsed_bind]. by rewrite Hu.
  - change (zlen (entry_payload (EFixed a)) =? 8) with true. cbn match.
    rewrite get_range_front by done. cbn [ok_or mbind parsed_bind].
    by rewrite fixed_try_from.
  - by rewrite permissions_try_from.
  - by rewrite storage_try_from.
  - change (zlen (entry_payload (EKernelVersion v)) =? 4) with true. cbn match.
    rewrite get_range_front by done. cbn [ok_or mbind parsed_bind].
    by rewrite kernel_version_try_from.
  - destruct Hwf as (_ & -> & _). done.
Qed.

Lemma entry_tipe_u16 e : entry_wf e → u16 (entry_tipe e).
Proof. destruct e; cbn; unfold u16; intros H; lia. Qed.

Lemma align4_bound z : 0 ≤ z → z ≤ align4 z < z + 4 ∧ align4 z mod 4 = 0.
Proof.
  intros. unfold align4. pose proof (Z.mod_pos_bound z 4 ltac:(lia)).
  pose proof (Z.mod_pos_bound (4 - z mod 4) 4 ltac:(lia)).
  split; [lia|]. rewrite Z.add_mod, Z.mod_mod, <- Z.add_mod by lia.
  rewrite Zplus_mod, Zminus_mod, Zmod_mod, <- Zminus_mod, <- Zplus_mod.
  replace (z + (4 - z)) with 4 by lia. done.
Qed.

Lemma TbfTlv_try_from_bytes a b :
  u16 a → u16 b →
  TbfTlv_try_from (le_bytes 2 a ++ le_bytes 2 b) = Ok (mkTlv (TbfHeaderTypes_try_from a) b).
Proof.
  intros Ha Hb.
  change (Ok (E := TbfParseError) (mkTlv (TbfHeaderTypes_try_from (from_le_bytes (le_bytes 2 a)))
    (from_le_bytes (le_bytes 2 b))) = Ok (mkTlv (TbfHeaderTypes_try_from a) b)).
  decode_fields.
Qed.

Lemma parse_tlv_spec e rest f :
  entry_wf e → length (wfr_pointer f) = 4%nat →
  parse_tlv (encode_tlv e ++ rest) f = Ok (rest, apply_entry f e).
Proof.
  intros Hwf Hw4. unfold parse_tlv, encode_tlv.
  set (p := entry_payload e). set (pad := replicate _ 0).
  assert (E : (le_bytes 2 (entry_tipe e) ++ le_bytes 2 (zlen p) ++ p ++ pad) ++ rest
          = (le_bytes 2 (entry_tipe e) ++ le_bytes 2 (zlen p)) ++ (p ++ pad) ++ rest)
    by (by rewrite <- !app_assoc).
  rewrite E. rewrite get_range_front by done. cbn [ok_or mbind parsed_bind].
  rewrite TbfTlv_try_from_bytes by (by apply entry_tipe_u16 || by apply entry_payload_u16).
  cbn [mbind parsed_bind]. rewrite get_from_app by done. cbn [ok_or mbind parsed_bind].
  rewrite <- (app_assoc p). unfold p at 1 2. fold (entry_type e).
  rewrite parse_tlv_entry_spec by done. cbn [mbind parsed_bind tlv_length].
  fold p. rewrite (app_assoc p), get_from_app; [done|].
  unfold pad. rewrite zlen_app. unfold zlen at 3. rewrite length_replicate.
  pose proof (align4_bound (zlen p) (zlen_nonneg p)). lia.
Qed.

Lemma apply_entry_wfrs f e :
  entry_wf e → length (wfr_pointer f) = 4%nat →
  length (wfr_pointer (apply_entry f e)) = 4%nat.
Proof.
  intros Hwf H4. destruct e; cbn; try done; [by case_match..|].
  destruct Hwf. rewrite length_app, length_fmap, length_drop. lia.
Qed.

(** *** All entries *)

Lemma encode_tlv_nonempty e : ∃ b l, encode_tlv e = b :: l.
Proof. by eexists _, _. Qed.

Lemma parse_tlvs_spec es fuel f :
  Forall entry_wf es → length (wfr_pointer f) = 4%nat →
  (length (mjoin (encode_tlv <$> es)) <= fuel)%nat →
  parse_tlvs fuel (mjoin (encode_tlv <$> es)) f = Ret (Ok (foldl apply_entry f es)).
Proof.
  intros Hwf. revert fuel f. induction Hwf as [|e es He Hes IH]; intros fuel f H4 Hf.
  { by destruct fuel. }
  change (mjoin (encode_tlv <$> e :: es)) with (encode_tlv e ++ mjoin (encode_tlv <$> es)) in *.
  pose proof (parse_tlv_spec e (mjoin (encode_tlv <$> es)) f He H4) as E.
  destruct (encode_tlv_nonempty e) as (b & l & Eb). rewrite Eb in *.
  destruct fuel as [|fuel]; [cbn in Hf; lia|].
  cbn [parse_tlvs app]. cbn [app] in E. rewrite E. cbn [foldl].
  apply IH; [by apply apply_entry_wfrs|]. cbn in Hf. rewrite length_app in Hf. lia.
Qed.

(** *** Checksum *)

Lemma words_app k pre post :
  length pre = (4 * k)%nat → words (pre ++ post) = words pre ++ words post.
Proof.
  revert pre. induction k as [|k IH]; intros pre Hl.
  { destruct pre; [done|cbn in Hl; lia]. }
  do 4 (destruct pre as [|? pre]; [cbn in Hl; lia|]).
  cbn [app words]. f_equal. apply IH. cbn in Hl. lia.
Qed.



Lemma words_u32 b : Forall byte b → Forall u32 (words b).
Proof.
  remember (length b) as n eqn:Hn. revert b Hn.
  induction (lt_wf n) as [n _ IH]. intros b Hn Hb.
  do 4 (destruct b as [|? b]; [constructor|]).
  cbn [words]. constructor.
  - apply from_le_bytes_bound. repeat (apply Forall_cons in Hb as [? Hb]).
    do 4 (constructor; [done|]). constructor.
  - apply (IH (length b)); [cbn in Hn; lia|done|].
    repeat (apply Forall_cons in Hb as [? Hb]). done.
Qed.

Lemma lxor_u32 a b : u32 a → u32 b → u32 (Z.lxor a b).
Proof.
  unfold u32. intros Ha Hb. assert (0 ≤ Z.lxor a b) by (apply Z.lxor_nonneg; lia).
  split; [done|]. destruct (decide (Z.lxor a b = 0)); [lia|].
  change usize_bound with (2 ^ 32). apply Z.log2_lt_pow2; [lia|].
  pose proof (Z.log2_lxor a b ltac:(lia) ltac:(lia)).
  assert (∀ x, 0 ≤ x < 2 ^ 32 → Z.log2 x < 32).
  { intros x Hx. destruct (decide (x = 0)) as [->|]; [done|].
    apply Z.log2_lt_pow2; lia. }
  pose proof (H1 a ltac:(lia)). pose proof (H1 b ltac:(lia)). lia.
Qed.

Lemma xor_words_u32 ws : Forall u32 ws → u32 (xor_words ws).
Proof. induction 1; [done|]. by apply lxor_u32. Qed.

Lemma xor_words_app ws vs : xor_words (ws ++ vs) = Z.lxor (xor_words ws) (xor_words vs).
Proof.
  induction ws as [|w ws IH]; [by rewrite Z.lxor_0_l|].
  cbn. fold (xor_words (ws ++ vs)) (xor_words ws). by rewrite IH, Z.lxor_assoc.
Qed.

Lemma checksum_from_late i ws c : 3 < i → checksum_from i ws c = Z.lxor c (xor_words ws).
Proof.
  revert i c. induction ws as [|w ws IH]; intros i c Hi; cbn [checksum_from].
  { by rewrite Z.lxor_0_r. }
  destruct (Z.eqb_spec i 3); [lia|]. rewrite IH by lia.
  cbn. fold (xor_words ws). by rewrite Z.lxor_assoc.
Qed.

(** The computed checksum differs from the stored word by the XOR of all
    words of the header. *)
Lemma checksum_from_all w0 w1 w2 c ws :
  Z.lxor (checksum_from 0 (w0 :: w1 :: w2 :: c :: ws) 0) c
  = xor_words (w0 :: w1 :: w2 :: c :: ws).
Proof.
  change (checksum_from 0 (w0 :: w1 :: w2 :: c :: ws) 0)
    with (checksum_from 4 ws (Z.lxor (Z.lxor (Z.lxor 0 w0) w1) w2)).
  rewrite checksum_from_late by lia. rewrite Z.lxor_0_l. cbn [xor_words foldr].
  fold (xor_words ws). rewrite !Z.lxor_assoc.
  by rewrite (Z.lxor_comm (xor_words ws) c).
Qed.

Lemma lxor_eq_iff a b : Z.lxor a b = 0 ↔ a = b.
Proof. split; [apply Z.lxor_eq|intros ->; apply Z.lxor_nilpotent]. Qed.

Lemma encode_tlv_bytes e : entry_wf e → Forall byte (encode_tlv e).
Proof.
  intros Hwf. unfold encode_tlv.
  assert (Forall byte (entry_payload e)).
  { destruct e; cbn [entry_payload]; repeat apply Forall_app_2; try apply le_bytes_byte.
    - apply Forall_join. apply Forall_fmap, Forall_true. intros. by apply Forall_app_2; apply le_bytes_byte.
    - by destruct Hwf as (_ & _ & ?).
    - apply Forall_join. apply Forall_fmap, Forall_true. intros.
      repeat apply Forall_app_2; apply le_bytes_byte.
    - apply Forall_join, Forall_fmap, Forall_true. intros; apply le_bytes_byte.
    - apply Forall_join, Forall_fmap, Forall_true. intros; apply le_bytes_byte.
    - by destruct Hwf as (_ & _ & _ & ?). }
  repeat apply Forall_app_2; try apply le_bytes_byte; [done|].
  apply Forall_replicate. unfold byte; lia.
Qed.

Lemma encode_tlv_aligned e : ∃ k, length (encode_tlv e) = (4 * k)%nat.
Proof.
  unfold encode_tlv. rewrite !length_app, !length_le_bytes, length_replicate.
  pose proof (align4_bound _ (zlen_nonneg (entry_payload e))) as [? Hm].
  apply Z.mod_divide in Hm as [q Hq]; [|lia].
  exists (Z.to_nat (1 + q)). unfold zlen in *. lia.
Qed.

Lemma get_range_app_l {A} (p rest : list A) lo hi :
  hi ≤ zlen p → get_range (p ++ rest) lo hi = get_range p lo hi.
Proof.
  intros Hhi. unfold get_range. rewrite zlen_app. pose proof (zlen_nonneg rest).
  destruct (Z.leb_spec 0 lo), (Z.leb_spec lo hi), (Z.leb_spec hi (zlen p)),
    (Z.leb_spec hi (zlen p + zlen rest)); cbn; try lia; try done.
  unfold zlen in *. rewrite drop_app_le by lia. rewrite take_app_le; [done|].
  rewrite length_drop. lia.
Qed.

Lemma base_try_from_app p rest :
  length p = 16%nat → TbfHeaderV2Base_try_from (p ++ rest) = TbfHeaderV2Base_try_from p.
Proof.
  intros Hl. unfold TbfHeaderV2Base_try_from, le_field.
  rewrite zlen_app. pose proof (zlen_nonneg rest).
  assert (Hz : zlen p = 16) by (unfold zlen; lia).
  rewrite !get_range_app_l by lia.
  destruct (Z.ltb_spec (zlen p + zlen rest) 16), (Z.ltb_spec (zlen p) 16); lia || done.
Qed.

(** The stored checksum is the fourth word. *)
Lemma base_checksum_word p :
  length p = 16%nat →
  ∃ base w0 w1 w2, TbfHeaderV2Base_try_from p = Ok base ∧
    words p = [w0; w1; w2; base_checksum base].
Proof.
  intros Hl. do 16 (destruct p as [|? p]; [done|]). destruct p; [|done].
  by eexists _, _, _, _.
Qed.

(** A header passes the checksum exactly when the XOR of its words is zero. *)
Lemma parse_tbf_header_checksum h :
  (16 <= length h)%nat →
  ∃ base, TbfHeaderV2Base_try_from h = Ok base ∧
    (checksum_from 0 (words h) 0 = base_checksum base ↔ xor_words (words h) = 0).
Proof.
  intros Hl. rewrite <- (take_drop 16 h).
  assert (Hp : length (take 16 h) = 16%nat) by (rewrite length_take; lia).
  rewrite base_try_from_app by done.
  destruct (base_checksum_word _ Hp) as (base & w0 & w1 & w2 & -> & Hw).
  exists base. split; [done|]. rewrite (words_app 4), Hw by done.
  cbn [app]. rewrite <- checksum_from_all. symmetry. apply lxor_eq_iff.
Qed.

Lemma lxor_cancel a x : Z.lxor a (Z.lxor a x) = x.
Proof. by rewrite <- Z.lxor_assoc, Z.lxor_nilpotent, Z.lxor_0_l. Qed.

Lemma lxor_mid_inj a b b' c : Z.lxor a (Z.lxor b c) = Z.lxor a (Z.lxor b' c) → b = b'.
Proof.
  intros E. apply (f_equal (Z.lxor a)) in E. rewrite !lxor_cancel, !(Z.lxor_comm _ c) in E.
  apply (f_equal (Z.lxor c)) in E. by rewrite !lxor_cancel in E.
Qed.

Lemma words_four w : length w = 4%nat → words w = [from_le_bytes w].
Proof. intros Hl. do 4 (destruct w as [|? w]; [done|]). by destruct w. Qed.

(** Error detection: if a header is accepted and any one of its words
    (lengths, flags, checksum or a word of an entry) is altered, the altered
    header is refused with a checksum mismatch. *)
Theorem parse_tbf_header_detects_word (pre w w' post : list Z) (k : nat) (hd : TbfHeader) :
  length pre = (4 * k)%nat → length w = 4%nat → length w' = 4%nat →
  (16 <= length (pre ++ w ++ post))%nat → Forall byte w → Forall byte w' → w ≠ w' →
  parse_tbf_header (pre ++ w ++ post) 2 = Ret (Ok hd) →
  ∃ provided calculated,
    parse_tbf_header (pre ++ w' ++ post) 2
    = Ret (Err (TbfChecksumMismatch provided calculated)).
Proof.
  intros Hpre Hw Hw' Hlen Bw Bw' Hne Hok.
  destruct (parse_tbf_header_checksum (pre ++ w ++ post) Hlen) as (b1 & E1 & C1).
  destruct (parse_tbf_header_checksum (pre ++ w' ++ post)) as (b2 & E2 & C2);
    [rewrite !length_app in *; lia|].
  assert (X1 : xor_words (words (pre ++ w ++ post)) = 0).
  { apply C1. unfold parse_tbf_header in Hok. rewrite E1 in Hok. cbn match in Hok.
    change (2 =? 2) with true in Hok. cbn match in Hok.
    destruct (Z.eqb_spec (checksum_from 0 (words (pre ++ w ++ post)) 0) (base_checksum b1)); done. }
  assert (X2 : xor_words (words (pre ++ w' ++ post)) ≠ 0).
  { intros X2. apply Hne. rewrite !(words_app k pre), !(words_app 1 _ post), !xor_words_app in * by lia.
    rewrite <- X2, (words_four w Hw), (words_four w' Hw') in X1. apply lxor_mid_inj in X1. cbn [xor_words foldr] in X1.
    rewrite !Z.lxor_0_r in X1. by apply from_le_bytes_inj; [congruence|..]. }
  unfold parse_tbf_header. change (2 =? 2) with true. cbn match. rewrite E2.
  destruct (Z.eqb_spec (checksum_from 0 (words (pre ++ w' ++ post)) 0) (base_checksum b2)) as [E|E].
  { by apply C2 in E. }
  by eexists _, _.
Qed.

Lemma mjoin_encode_aligned es : ∃ k, length (mjoin (encode_tlv <$> es)) = (4 * k)%nat.
Proof.
  induction es as [|e es [k IH]]; [by exists 0%nat|].
  destruct (encode_tlv_aligned e) as [j Hj]. exists (j + k)%nat.
  change (mjoin (encode_tlv <$> e :: es)) with (encode_tlv e ++ mjoin (encode_tlv <$> es)).
  rewrite length_app, IH, Hj. lia.
Qed.

Definition tbf_front (total_size flags body_len : Z) : list Z :=
  le_bytes 2 2 ++ le_bytes 2 (16 + body_len) ++ le_bytes 4 total_size ++ le_bytes 4 flags.

Definition tbf_checksum (total_size flags : Z) (es : list tlv_entry) : Z :=
  let body := mjoin (encode_tlv <$> es) in
  xor_words (words (tbf_front total_size flags (zlen body) ++ body)).

Lemma encode_tbf_header_unfold total flags es :
  let body := mjoin (encode_tlv <$> es) in
  encode_tbf_header total flags es
  = (tbf_front total flags (zlen body) ++ le_bytes 4 (tbf_checksum total flags es)) ++ body.
Proof. cbn zeta. unfold encode_tbf_header. by rewrite <- app_assoc. Qed.

Lemma tbf_checksum_u32 total flags es : Forall entry_wf es → u32 (tbf_checksum total flags es).
Proof.
  intros Hes. apply xor_words_u32, words_u32. apply Forall_app_2.
  - repeat apply Forall_app_2; apply le_bytes_byte.
  - apply Forall_join, Forall_fmap. eapply Forall_impl; [done|]. apply encode_tlv_bytes.
Qed.

Lemma encode_base total flags es :
  Forall entry_wf es → u32 total → u32 flags →
  let body := mjoin (encode_tlv <$> es) in
  16 + zlen body < 65536 →
  TbfHeaderV2Base_try_from (encode_tbf_header total flags es)
  = Ok (mkBase 2 (16 + zlen body) total flags (tbf_checksum total flags es)).
Proof.
  intros Hes Ht Hf. cbn zeta. intros Hb. rewrite encode_tbf_header_unfold, base_try_from_app by done.
  set (n := zlen _) in *. set (c := tbf_checksum total flags es).
  assert (u32 c) by by apply tbf_checksum_u32.
  assert (u16 (16 + n)) by (unfold u16, n in *; pose proof (zlen_nonneg (mjoin (encode_tlv <$> es))); lia).
  change (Ok (E := TbfParseError) (mkBase (from_le_bytes (le_bytes 2 2))
    (from_le_bytes (le_bytes 2 (16 + n))) (from_le_bytes (le_bytes 4 total))
    (from_le_bytes (le_bytes 4 flags)) (from_le_bytes (le_bytes 4 c)))
    = Ok (mkBase 2 (16 + n) total flags c)).
  rewrite (from_le_u16 2) by done. decode_fields.
Qed.

Lemma encode_xor_zero total flags es :
  Forall entry_wf es → xor_words (words (encode_tbf_header total flags es)) = 0.
Proof.
  intros Hes. rewrite encode_tbf_header_unfold.
  set (F := tbf_front _ _ _). set (B := mjoin _).
  rewrite (words_app 4), (words_app 3 F), !xor_words_app by done.
  rewrite (words_four (le_bytes 4 _)) by done. cbn [xor_words foldr]. fold (xor_words (words F)).
  rewrite Z.lxor_0_r, from_le_u32 by by apply tbf_checksum_u32.
  unfold tbf_checksum. fold B. fold F. rewrite (words_app 3 F), xor_words_app by done.
  rewrite <- (Z.lxor_assoc (xor_words (words F))), Z.lxor_nilpotent, Z.lxor_0_l.
  apply Z.lxor_nilpotent.
Qed.

(** C28.  Round trip with the documented format: parsing the bytes a TBF writer
    produces gives back the lengths, flags and every entry (the first Main and
    Program, the last of each other kind), and a header without entries is
    padding. *)
Theorem parse_tbf_header_roundtrip (total flags : Z) (es : list tlv_entry) :
  Forall entry_wf es → u32 total → u32 flags →
  let size := 16 + zlen (mjoin (encode_tlv <$> es)) in
  size < 65536 →
  parse_tbf_header (encode_tbf_header total flags es) 2 =
  let base := mkBase 2 size total flags (tbf_checksum total flags es) in
  match es with
  | [] => Ret (Ok (TbfHeader_Padding base))
  | _ => Ret (Ok (header_of_fields base (foldl apply_entry no_fields es)))
  end.
Proof.
  intros Hes Ht Hf. cbn zeta. intros Hs. unfold parse_tbf_header. change (2 =? 2) with true. cbn match.
  pose proof (encode_base total flags es Hes Ht Hf Hs) as Eb. cbn zeta in Eb.
  assert (Hl : (16 <= length (encode_tbf_header total flags es))%nat)
    by (rewrite encode_tbf_header_unfold, length_app; cbn; lia).
  destruct (parse_tbf_header_checksum _ Hl) as (b & Eb' & C).
  rewrite Eb in *. injection Eb' as <-.
  rewrite (proj2 C) by by apply encode_xor_zero. rewrite Z.eqb_refl. cbn [negb].
  rewrite encode_tbf_header_unfold, get_from_app by done.
  destruct es as [|e es]; [done|].
  pose proof (parse_tlvs_spec (e :: es) (length (mjoin (encode_tlv <$> e :: es))) no_fields Hes eq_refl ltac:(done)) as E.
  destruct (mjoin (encode_tlv <$> e :: es)) as [|b0 body] eqn:Em.
  { done. }
  rewrite E. done.
Qed.

Definition ex_entries : list tlv_entry :=
  [EProgram (mkProgram 41 0 4096 8192 3); EName [98; 108; 105; 110; 107];
   EPermissions [mkDriverPermission 2 0 15]; EStorage 7 [1; 2] [3];
   EKernelVersion (mkKernelVersion 2 1); EUnknown 77 [1; 2; 3]].

Lemma ex_entries_wf : Forall entry_wf ex_entries.
Proof.
  repeat (constructor; [cbn; unfold u16, u32, u64, byte, zlen; cbn; split_and!;
    try done; repeat (constructor; [lia|]); try constructor; try lia|]); try constructor.
  all: cbn; unfold u32, u64; lia.
Qed.

Lemma parse_tbf_header_roundtrip_witness :
  parse_tbf_header (encode_tbf_header 16384 1 ex_entries) 2
  = Ret (Ok (header_of_fields (mkBase 2 116 16384 1 (tbf_checksum 16384 1 ex_entries))
               (foldl apply_entry no_fields ex_entries))).
Proof.
  apply (parse_tbf_header_roundtrip 16384 1 ex_entries ex_entries_wf); by vm_compute.
Defined.

(** The enabled flag of a padding header is flipped. *)
Lemma parse_tbf_header_detects_word_witness :
  ∃ provided calculated,
    parse_tbf_header ([2; 0; 16; 0; 0; 1; 0; 0] ++ [1; 0; 0; 0] ++ [2; 1; 16; 0]) 2
    = Ret (Err (TbfChecksumMismatch provided calculated)).
Proof.
  apply (parse_tbf_header_detects_word [2; 0; 16; 0; 0; 1; 0; 0] [0; 0; 0; 0] [1; 0; 0; 0]
           [2; 1; 16; 0] 2 (TbfHeader_Padding (mkBase 2 16 256 0 1048834)));
    [done|done|done|by vm_compute| | |done|by vm_compute];
    repeat (constructor; [unfold byte; lia|]); constructor.
Defined.

(** ** Lengths *)

(** The lengths read before the header is sliced out of flash are sane and
    are the ones the full parse sees: version 2, a header of at least the 16
    required bytes, no longer than the whole image. *)
Theorem parse_tbf_header_lengths_sound (first8 : list Z) (rest : list Z) (v hs ts : Z) :
  length first8 = 8%nat →
  parse_tbf_header_lengths first8 = Ok (v, hs, ts) →
  v = 2 ∧ 16 ≤ hs ≤ ts ∧
  ∀ base, TbfHeaderV2Base_try_from (first8 ++ rest) = Ok base →
    base_version base = v ∧ base_header_size base = hs ∧ base_total_size base = ts.
Proof.
  intros Hl. unfold parse_tbf_header_lengths. split_tests; [|done].
  destruct (Z.ltb_spec (from_le_bytes (take 4 (drop 4 first8))) (from_le_bytes (take 2 (drop 2 first8)))),
    (Z.ltb_spec (from_le_bytes (take 2 (drop 2 first8))) 16); cbn [orb]; try done.
  intros [= <- <- <-]. split_and!; [lia..|].
  intros base Hb. unfold TbfHeaderV2Base_try_from, le_field in Hb.
  destruct (zlen (first8 ++ rest) <? 16); [done|].
  assert (Hz : zlen first8 = 8) by (unfold zlen; lia).
  rewrite (get_range_app_l first8 rest 0), (get_range_app_l first8 rest 2),
    (get_range_app_l first8 rest 4) in Hb by lia.
  do 8 (destruct first8 as [|? first8]; [done|]). destruct first8; [|done].
  apply parsed_bind_Ok in Hb as (x & Hx & Hb). apply parsed_bind_Ok in Hb as (y & Hy & Hb).
  apply parsed_bind_Ok in Hb as (u & Hu & Hb). clear -Hx Hy Hu Hb.
  repeat (apply parsed_bind_Ok in Hb as (? & _ & Hb)). injection Hb as <-.
  injection Hx as <-. injection Hy as <-. injection Hu as <-. done.
Qed.

Lemma parse_tbf_header_lengths_sound_witness :
  16 ≤ 36 ≤ 4096 ∧ parse_tbf_header_lengths [2; 0; 36; 0; 0; 16; 0; 0] = Ok (2, 36, 4096).
Proof.
  split; [|done].
  exact (proj1 (proj2 (parse_tbf_header_lengths_sound [2; 0; 36; 0; 0; 16; 0; 0] [] 2 36 4096 eq_refl eq_refl))).
Defined.

(** ** Driver permissions *)

(** What the header declares for a driver and an offset: the mask of the first
    matching entry, no commands when only other offsets are listed. *)
Definition declared_permissions (ps : list TbfHeaderDriverPermission) (driver_num offset : Z) :
    CommandPermissions :=
  match list_find (λ p, perm_driver_number p = driver_num ∧ perm_offset p = offset) ps with
  | Some (_, p) => Mask (perm_allowed_commands p)
  | None => if bool_decide (Exists (λ p, perm_driver_number p = driver_num) ps)
            then Mask 0 else NoPermsThisDriver
  end.

Lemma scan_perms_app d o found ps qs :
  scan_perms d o found (ps ++ qs) =
  match list_find (λ p, perm_driver_number p = d ∧ perm_offset p = o) ps with
  | Some (_, p) => Mask (perm_allowed_commands p)
  | None => scan_perms d o
              (found || bool_decide (Exists (λ p, perm_driver_number p = d) ps)) qs
  end.
Proof.
  revert found. induction ps as [|p ps IH]; intros found.
  { cbn. by rewrite orb_false_r. }
  cbn [app scan_perms list_find].
  destruct (Z.eqb_spec (perm_driver_number p) d) as [Hd|Hd].
  - destruct (Z.eqb_spec (perm_offset p) o) as [Ho|Ho].
    + by rewrite decide_True.
    + rewrite decide_False by tauto. rewrite IH.
      destruct (list_find _ ps) as [[i q]|]; [done|]. cbn [fmap option_fmap option_map].
      rewrite (bool_decide_true (Exists _ (p :: ps))) by (by left). by rewrite orb_true_r.
  - rewrite decide_False by tauto. rewrite IH.
    destruct (list_find _ ps) as [[i q]|]; [done|]. cbn [fmap option_fmap option_map].
    do 2 f_equal. apply bool_decide_ext. rewrite Exists_cons. tauto.
Qed.

(** The unused slots of the array answer for driver 0. *)
Lemma scan_perms_free d o found n :
  scan_perms d o found (replicate n (mkDriverPermission 0 0 0)) =
  if found || (bool_decide (d = 0 ∧ (0 < n)%nat)) then Mask 0 else NoPermsThisDriver.
Proof.
  revert found. induction n as [|n IH]; intros found; cbn [replicate scan_perms].
  { rewrite bool_decide_false by lia. by destruct found. }
  cbn [perm_driver_number perm_offset perm_allowed_commands].
  destruct (Z.eqb_spec 0 d) as [<-|Hd].
  - rewrite (bool_decide_true (0 = 0 ∧ (0 < S n)%nat)), orb_true_r by lia.
    destruct (0 =? o); [done|]. by rewrite IH.
  - rewrite IH, !bool_decide_false by lia. done.
Qed.

Definition header_with_permissions (base : TbfHeaderV2Base) (f : TlvFields)
    (ps : list TbfHeaderDriverPermission) : TbfHeader :=
  header_of_fields base (apply_entry f (EPermissions ps)).

(** Permission lookup: for a header that lists driver permissions, the
    lookup returns what the list declares.  The one exception is driver number
    0 when it is not listed and the list has free slots: the unused slots of
    the fixed array look like entries for driver 0, so the answer is an empty
    mask where the documentation promises [NoPermsThisDriver]. *)
Theorem get_command_permissions_declared base f ps driver_num offset :
  get_command_permissions (header_with_permissions base f ps) driver_num offset =
  if bool_decide (driver_num = 0 ∧ (length ps < 8)%nat ∧
                  ¬ Exists (λ p, perm_driver_number p = 0) ps)
  then Mask 0 else declared_permissions ps driver_num offset.
Proof.
  unfold get_command_permissions, header_with_permissions, header_of_fields.
  cbn [apply_entry set_permissions permissions_pointer hd_permissions perms].
  unfold pad_entries, declared_permissions. rewrite scan_perms_app.
  destruct (list_find _ ps) as [[i p]|] eqn:E.
  - rewrite bool_decide_false; [done|]. intros (-> & _ & Hn). apply Hn.
    apply list_find_Some in E as (Hp & [Hd _] & _). apply Exists_exists.
    exists p. split; [|done]. by eapply list_elem_of_lookup_2.
  - rewrite scan_perms_free. cbn [orb].
    destruct (decide (Exists (λ p, perm_driver_number p = driver_num) ps)) as [Hx|Hx].
    + rewrite (bool_decide_true (Exists _ ps)) by done. cbn [orb]. by case_bool_decide.
    + rewrite (bool_decide_false (Exists _ ps)) by done. cbn [orb].
      destruct (decide (driver_num = 0 ∧ (length ps < 8)%nat)) as [[-> ?]|Hn].
      * rewrite !bool_decide_true by (done || lia). done.
      * rewrite !bool_decide_false by (lia || tauto). done.
Qed.

(** ** Offsets taken from the header *)

Definition program_header (base : TbfHeaderV2Base) (p : TbfHeaderV2Program) : TbfHeader :=
  header_of_fields base (apply_entry no_fields (EProgram p)).

(** The offsets the loader derives from a Program entry are sums of two
    header fields, and exactly the headers whose sum does not fit in 32 bits
    make the accessors overflow: such a header passes the checksum and parses,
    and the kernel then panics on it (or wraps, in a release build). *)
Theorem header_offsets_overflow base p :
  (get_protected_size (program_header base p) = Panic ↔
     usize_bound ≤ base_header_size base + prog_protected_trailer_size p) ∧
  (get_init_function_offset (program_header base p) = Panic ↔
     usize_bound ≤ prog_init_fn_offset p + base_header_size base) ∧
  (prog_protected_trailer_size p < usize_bound - base_header_size base →
   get_app_start_offset (program_header base p)
   = Ret (base_header_size base + prog_protected_trailer_size p)).
Proof.
  unfold get_app_start_offset, get_protected_size, get_init_function_offset, program_header.
  cbn [header_of_fields apply_entry no_fields program_pointer set_program hd_program hd_base].
  unfold uadd. split_and!; [split_tests; naive_solver lia..|].
  intros. split_tests; [done|lia].
Qed.

(** An image with such a header exists and is accepted by the parser. *)
Example overflowing_header_parses :
  parse_tbf_header (encode_tbf_header 4096 1 [EProgram (mkProgram 0 4294967295 0 4096 1)]) 2
  = Ret (Ok (program_header
      (mkBase 2 40 4096 1 (tbf_checksum 4096 1 [EProgram (mkProgram 0 4294967295 0 4096 1)]))
      (mkProgram 0 4294967295 0 4096 1))).
Proof. by vm_compute. Qed.
