(* ===== verification/ProcessData.v ===== *)
(** * Processes: data (kernel/src/process.rs, kernel/src/process_standard.rs)

    The counters of [struct Kernel] (kernel/src/kernel.rs), the types a process is
    made of and the record [Process] that models
    [ProcessStandard].  A [MapCell] is an [option], [None] while its content is
    taken.  The [kernel] and [chip] references are arguments of the operations
    that use them. *)

From S2P Require Import Prelude Syscall Mpu RingBuffer Tbf.

(** ** Shared kernel state ([struct Kernel])

    The counters the process code shares through the [Kernel] object: process
    identifiers and the number of grants. *)
Record Kernel := mkKernel {
  process_identifier_max : Z;
  grant_counter : Z;
  grants_finalized : bool;
}.

Definition Kernel_new : Kernel := mkKernel 0 0 false.

(** [get_and_increment]. *)
Definition create_process_identifier (k : Kernel) : outcome (Z * Kernel) :=
  n ← uadd (process_identifier_max k) 1;
  Ret (process_identifier_max k, mkKernel n (grant_counter k) (grants_finalized k)).

Definition get_grant_count_and_finalize (k : Kernel) : Z * Kernel :=
  (grant_counter k, mkKernel (process_identifier_max k) (grant_counter k) true).

(** The index of the new grant; creating one after finalisation panics. *)
Definition create_grant (k : Kernel) : outcome (Z * Kernel) :=
  if grants_finalized k then Panic
  else
    n ← uadd (grant_counter k) 1;
    Ret (grant_counter k, mkKernel (process_identifier_max k) n (grants_finalized k)).

Record ProcessId := mkProcessId { pid_index : Z; pid_identifier : Z }.

#[export] Instance ProcessId_eq_dec : EqDecision ProcessId.
Proof. solve_decision. Defined.

(** [PartialEq] compares the identifiers only. *)
Definition ProcessId_eq (a b : ProcessId) : bool := pid_identifier a =? pid_identifier b.

Inductive ShortID : Type :=
| LocallyUnique
| Fixed (id : Z).

(** [PartialEq]: two locally unique identifiers are never equal. *)
Definition ShortID_eq (a b : ShortID) : bool :=
  match a, b with Fixed x, Fixed y => x =? y | _, _ => false end.

Inductive State : Type :=
| Running | Yielded | StoppedRunning | StoppedYielded | Faulted | Terminated
| CredentialsUnchecked | CredentialsApproved | CredentialsFailed.

#[export] Instance State_eq_dec : EqDecision State.
Proof. solve_decision. Defined.

Inductive FaultAction : Type := FaultPanic | FaultRestart | FaultStop.

Record UpcallId := mkUpcallId { driver_num : Z; subscribe_num : Z }.

#[export] Instance UpcallId_eq_dec : EqDecision UpcallId.
Proof. solve_decision. Defined.

Inductive FunctionCallSource : Type :=
| SourceKernel
| SourceDriver (id : UpcallId).

Record FunctionCall := mkFunctionCall {
  fc_source : FunctionCallSource;
  fc_argument0 : Z; fc_argument1 : Z; fc_argument2 : Z; fc_argument3 : Z;
  fc_pc : Z;
}.

Inductive IPCUpcallType : Type := IPCService | IPCClient.

Inductive Task : Type :=
| TaskFunctionCall (fc : FunctionCall)
| TaskIPC (from : ProcessId) (ty : IPCUpcallType).

Inductive ContextSwitchReason : Type :=
| SyscallFired (syscall : Syscall)
| ContextFault
| Interrupted.

(** The fault policies of kernel/src/process_policies.rs. *)
Inductive FaultPolicy : Type :=
| PanicFaultPolicy
| StopFaultPolicy
| StopWithDebugFaultPolicy
| RestartFaultPolicy
| ThresholdRestartFaultPolicy (threshold : Z)
| ThresholdRestartThenPanicFaultPolicy (threshold : Z).

Definition FaultPolicy_action (p : FaultPolicy) (restart_count : Z) : FaultAction :=
  match p with
  | PanicFaultPolicy => FaultPanic
  | StopFaultPolicy => FaultStop
  | StopWithDebugFaultPolicy => FaultStop
  | RestartFaultPolicy => FaultRestart
  | ThresholdRestartFaultPolicy threshold =>
      if restart_count <=? threshold then FaultRestart else FaultStop
  | ThresholdRestartThenPanicFaultPolicy threshold =>
      if restart_count <=? threshold then FaultRestart else FaultPanic
  end.

Record GrantPointerEntry := mkGrantPointerEntry { ge_driver_num : Z; ge_grant_ptr : Z }.

Record ProcessStandardDebug := mkDebug {
  fixed_address_flash : option Z;
  fixed_address_ram : option Z;
  app_heap_start_pointer : option Z;
  app_stack_start_pointer : option Z;
  app_stack_min_pointer : option Z;
  syscall_count : Z;
  last_syscall : option Syscall;
  dropped_upcall_count : Z;
  timeslice_expiration_count : Z;
}.

Record ProcessAddresses := mkProcessAddresses {
  pa_flash_start : Z;
  pa_flash_non_protected_start : Z;
  pa_flash_integrity_end : Z;
  pa_flash_end : Z;
  pa_sram_start : Z;
  pa_sram_app_brk : Z;
  pa_sram_grant_start : Z;
  pa_sram_end : Z;
  pa_sram_heap_start : option Z;
  pa_sram_stack_top : option Z;
  pa_sram_stack_bottom : option Z;
}.

Record Process (Config Stored : Type) := mkProcess {
  process_id : ProcessId;
  app_id : ShortID;
  memory_start : Z;
  memory_len : Z;
  grant_pointers : option (list GrantPointerEntry);
  kernel_memory_break : Z;
  app_break : Z;
  allow_high_water_mark : Z;
  flash_addr : Z;
  flash_len : Z;
  footers : list Z;
  header : TbfHeader;
  credentials : option TbfFooterV2Credentials;
  stored_state : option Stored;
  state : State;
  fault_policy : FaultPolicy;
  mpu_config : option Config;
  mpu_regions : list (option Region);
  tasks : option (RingBuffer Task);
  restart_count : Z;
  completion_code : option (option Z);
  process_name : list Z;
  debug : option ProcessStandardDebug;
}.
Arguments mkProcess {Config Stored}.
Arguments process_id {Config Stored}.
Arguments app_id {Config Stored}.
Arguments memory_start {Config Stored}.
Arguments memory_len {Config Stored}.
Arguments grant_pointers {Config Stored}.
Arguments kernel_memory_break {Config Stored}.
Arguments app_break {Config Stored}.
Arguments allow_high_water_mark {Config Stored}.
Arguments flash_addr {Config Stored}.
Arguments flash_len {Config Stored}.
Arguments footers {Config Stored}.
Arguments header {Config Stored}.
Arguments credentials {Config Stored}.
Arguments stored_state {Config Stored}.
Arguments state {Config Stored}.
Arguments fault_policy {Config Stored}.
Arguments mpu_config {Config Stored}.
Arguments mpu_regions {Config Stored}.
Arguments tasks {Config Stored}.
Arguments restart_count {Config Stored}.
Arguments completion_code {Config Stored}.
Arguments process_name {Config Stored}.
Arguments debug {Config Stored}.

(** ** The trait [UserspaceKernelBoundary]

    Implemented by the architecture crates; [Stored] is the saved state of a
    process.  A context switch runs the process, so its result is whatever the
    process did next. *)
Class UserspaceKernelBoundary (Stored : Type) := {
  ukb_default : Stored;
  initial_process_app_brk_size : Z;
  ukb_initialize_process : Z → Z → Stored → result unit unit * Stored;
  ukb_set_syscall_return_value : Z → Z → Stored → SyscallReturn → result unit unit * Stored;
  ukb_set_process_function : Z → Z → Stored → FunctionCall → result unit unit * Stored;
  ukb_switch_to_process : Z → Z → Stored → (ContextSwitchReason * option Z) * Stored;
}.

(** ** Field updates ([Cell::set]) *)

Section setters.
Context {Config Stored : Type}.
Implicit Type p : Process Config Stored.

Definition set_process_id v p : Process Config Stored :=
  mkProcess v (app_id p) (memory_start p) (memory_len p) (grant_pointers p)
    (kernel_memory_break p) (app_break p) (allow_high_water_mark p) (flash_addr p)
    (flash_len p) (footers p) (header p) (credentials p) (stored_state p) (state p)
    (fault_policy p) (mpu_config p) (mpu_regions p) (tasks p) (restart_count p)
    (completion_code p) (process_name p) (debug p).
Definition set_app_id v p : Process Config Stored :=
  mkProcess (process_id p) v (memory_start p) (memory_len p) (grant_pointers p)
    (kernel_memory_break p) (app_break p) (allow_high_water_mark p) (flash_addr p)
    (flash_len p) (footers p) (header p) (credentials p) (stored_state p) (state p)
    (fault_policy p) (mpu_config p) (mpu_regions p) (tasks p) (restart_count p)
    (completion_code p) (process_name p) (debug p).
Definition set_grant_pointers v p : Process Config Stored :=
  mkProcess (process_id p) (app_id p) (memory_start p) (memory_len p) v (kernel_memory_break
    p) (app_break p) (allow_high_water_mark p) (flash_addr p) (flash_len p) (footers p)
    (header p) (credentials p) (stored_state p) (state p) (fault_policy p) (mpu_config p)
    (mpu_regions p) (tasks p) (restart_count p) (completion_code p) (process_name p) (debug
    p).
Definition set_kernel_memory_break v p : Process Config Stored :=
  mkProcess (process_id p) (app_id p) (memory_start p) (memory_len p) (grant_pointers p) v
    (app_break p) (allow_high_water_mark p) (flash_addr p) (flash_len p) (footers p) (header
    p) (credentials p) (stored_state p) (state p) (fault_policy p) (mpu_config p)
    (mpu_regions p) (tasks p) (restart_count p) (completion_code p) (process_name p) (debug
    p).
Definition set_app_break v p : Process Config Stored :=
  mkProcess (process_id p) (app_id p) (memory_start p) (memory_len p) (grant_pointers p)
    (kernel_memory_break p) v (allow_high_water_mark p) (flash_addr p) (flash_len p)
    (footers p) (header p) (credentials p) (stored_state p) (state p) (fault_policy p)
    (mpu_config p) (mpu_regions p) (tasks p) (restart_count p) (completion_code p)
    (process_name p) (debug p).
Definition set_allow_high_water_mark v p : Process Config Stored :=
  mkProcess (process_id p) (app_id p) (memory_start p) (memory_len p) (grant_pointers p)
    (kernel_memory_break p) (app_break p) v (flash_addr p) (flash_len p) (footers p) (header
    p) (credentials p) (stored_state p) (state p) (fault_policy p) (mpu_config p)
    (mpu_regions p) (tasks p) (restart_count p) (completion_code p) (process_name p) (debug
    p).
Definition set_credentials v p : Process Config Stored :=
  mkProcess (process_id p) (app_id p) (memory_start p) (memory_len p) (grant_pointers p)
    (kernel_memory_break p) (app_break p) (allow_high_water_mark p) (flash_addr p)
    (flash_len p) (footers p) (header p) v (stored_state p) (state p) (fault_policy p)
    (mpu_config p) (mpu_regions p) (tasks p) (restart_count p) (completion_code p)
    (process_name p) (debug p).
Definition set_stored_state v p : Process Config Stored :=
  mkProcess (process_id p) (app_id p) (memory_start p) (memory_len p) (grant_pointers p)
    (kernel_memory_break p) (app_break p) (allow_high_water_mark p) (flash_addr p)
    (flash_len p) (footers p) (header p) (credentials p) v (state p) (fault_policy p)
    (mpu_config p) (mpu_regions p) (tasks p) (restart_count p) (completion_code p)
    (process_name p) (debug p).
Definition set_state v p : Process Config Stored :=
  mkProcess (process_id p) (app_id p) (memory_start p) (memory_len p) (grant_pointers p)
    (kernel_memory_break p) (app_break p) (allow_high_water_mark p) (flash_addr p)
    (flash_len p) (footers p) (header p) (credentials p) (stored_state p) v (fault_policy p)
    (mpu_config p) (mpu_regions p) (tasks p) (restart_count p) (completion_code p)
    (process_name p) (debug p).
Definition set_mpu_config v p : Process Config Stored :=
  mkProcess (process_id p) (app_id p) (memory_start p) (memory_len p) (grant_pointers p)
    (kernel_memory_break p) (app_break p) (allow_high_water_mark p) (flash_addr p)
    (flash_len p) (footers p) (header p) (credentials p) (stored_state p) (state p)
    (fault_policy p) v (mpu_regions p) (tasks p) (restart_count p) (completion_code p)
    (process_name p) (debug p).
Definition set_mpu_regions v p : Process Config Stored :=
  mkProcess (process_id p) (app_id p) (memory_start p) (memory_len p) (grant_pointers p)
    (kernel_memory_break p) (app_break p) (allow_high_water_mark p) (flash_addr p)
    (flash_len p) (footers p) (header p) (credentials p) (stored_state p) (state p)
    (fault_policy p) (mpu_config p) v (tasks p) (restart_count p) (completion_code p)
    (process_name p) (debug p).
Definition set_tasks v p : Process Config Stored :=
  mkProcess (process_id p) (app_id p) (memory_start p) (memory_len p) (grant_pointers p)
    (kernel_memory_break p) (app_break p) (allow_high_water_mark p) (flash_addr p)
    (flash_len p) (footers p) (header p) (credentials p) (stored_state p) (state p)
    (fault_policy p) (mpu_config p) (mpu_regions p) v (restart_count p) (completion_code p)
    (process_name p) (debug p).
Definition set_restart_count v p : Process Config Stored :=
  mkProcess (process_id p) (app_id p) (memory_start p) (memory_len p) (grant_pointers p)
    (kernel_memory_break p) (app_break p) (allow_high_water_mark p) (flash_addr p)
    (flash_len p) (footers p) (header p) (credentials p) (stored_state p) (state p)
    (fault_policy p) (mpu_config p) (mpu_regions p) (tasks p) v (completion_code p)
    (process_name p) (debug p).
Definition set_completion_code v p : Process Config Stored :=
  mkProcess (process_id p) (app_id p) (memory_start p) (memory_len p) (grant_pointers p)
    (kernel_memory_break p) (app_break p) (allow_high_water_mark p) (flash_addr p)
    (flash_len p) (footers p) (header p) (credentials p) (stored_state p) (state p)
    (fault_policy p) (mpu_config p) (mpu_regions p) (tasks p) (restart_count p) v
    (process_name p) (debug p).
Definition set_debug v p : Process Config Stored :=
  mkProcess (process_id p) (app_id p) (memory_start p) (memory_len p) (grant_pointers p)
    (kernel_memory_break p) (app_break p) (allow_high_water_mark p) (flash_addr p)
    (flash_len p) (footers p) (header p) (credentials p) (stored_state p) (state p)
    (fault_policy p) (mpu_config p) (mpu_regions p) (tasks p) (restart_count p)
    (completion_code p) (process_name p) v.

End setters.

(** Reduce projections of updated processes. *)
Ltac psimpl :=
  cbn [process_id app_id memory_start memory_len grant_pointers kernel_memory_break
       app_break allow_high_water_mark flash_addr flash_len footers header credentials
       stored_state state fault_policy mpu_config mpu_regions tasks restart_count
       completion_code process_name debug
       set_process_id set_app_id set_grant_pointers set_kernel_memory_break set_app_break
       set_allow_high_water_mark set_credentials set_stored_state set_state set_mpu_config
       set_mpu_regions set_tasks set_restart_count set_completion_code set_debug] in *.
