(* ===== verification/StoragePermissions.v ===== *)
(** * Storage permissions: kernel/src/storage_permissions.rs

    What stored objects a process may read and modify, from the entry of its TBF
    header ([ProcessStandard::get_storage_permissions]) to the checks a storage
    capsule makes. *)

From S2P Require Import Prelude Bytes Tbf ProcessData.

Record StoragePermissions := mkPerms {
  read_count : Z;
  read_permissions : list Z;
  modify_count : Z;
  modify_permissions : list Z;
  write_id : option Z;
  kerneluser : bool
}.

(** [StoragePermissions::new]; the arrays have eight entries. *)
Definition StoragePermissions_new (read_count : Z) (read_permissions : list Z) (modify_count : Z)
    (modify_permissions : list Z) (write_id : option Z) : StoragePermissions :=
  let read_count_capped := Z.min read_count 8 in
  let modify_count_capped := Z.min modify_count 8 in
  mkPerms read_count_capped read_permissions modify_count_capped modify_permissions write_id false.

Definition new_kernel_permissions : StoragePermissions :=
  mkPerms 0 (replicate 8 0) 0 (replicate 8 0) None true.

(** [slice.get(0..count).unwrap_or(&[]).contains(&id)]. *)
Definition first_contain (ids : list Z) (count storage_id : Z) : bool :=
  existsb (Z.eqb storage_id) (default [] (get_range ids 0 count)).

Definition check_read_permission (p : StoragePermissions) (storage_id : Z) : bool :=
  if storage_id =? 0 then kerneluser p
  else first_contain (read_permissions p) (read_count p) storage_id.

Definition check_write_permission (p : StoragePermissions) (storage_id : Z) : bool :=
  if storage_id =? 0 then kerneluser p
  else first_contain (modify_permissions p) (modify_count p) storage_id.

Definition get_write_id (p : StoragePermissions) : option Z :=
  if kerneluser p then Some (match write_id p with Some wid => wid | None => 0 end)
  else match write_id p with Some wid => Some wid | None => None end.

(** [get_storage_permissions] of process_standard.rs, for the header [h] of the
    process. *)
Definition header_storage_permissions (h : TbfHeader) : option StoragePermissions :=
  let '(read_count, read_ids) := default (0, replicate 8 0) (get_storage_read_ids h) in
  let '(modify_count, modify_ids) := default (0, replicate 8 0) (get_storage_modify_ids h) in
  let write_id := get_storage_write_id h in
  Some (StoragePermissions_new read_count read_ids modify_count modify_ids write_id).

Definition get_storage_permissions {Config Stored} (p : Process Config Stored)
    : option StoragePermissions := header_storage_permissions (header p).

(** ** The checks answer what the header says *)

Lemma first_contain_padded ids id :
  (length ids <= 8)%nat →
  first_contain (pad_entries 0 ids) (Z.min (zlen ids) 8) id = bool_decide (id ∈ ids).
Proof.
  intros Hl. unfold first_contain, pad_entries. rewrite Z.min_l by (unfold zlen; lia).
  rewrite get_range_front by done. cbn [default].
  apply eq_true_iff_eq. rewrite bool_decide_eq_true, existsb_exists. split.
  - intros (x & Hx & ->%Z.eqb_eq). by apply list_elem_of_In.
  - intros Hin. exists id. rewrite Z.eqb_refl. split; [|done]. by apply list_elem_of_In.
Qed.

(** The storage permissions of a process are those of its header: with a
    storage entry of at most eight identifiers each, an object can be read
    (modified) exactly when its identifier is not zero and is listed for reading
    (modifying), and new objects get the write identifier unless it is zero;
    without such an entry nothing can be read, modified or written. *)
Theorem storage_permissions_declared base f w rs ms id :
  (length rs <= 8)%nat → (length ms <= 8)%nat →
  (∃ p, header_storage_permissions (header_of_fields base (apply_entry f (EStorage w rs ms))) = Some p ∧
     check_read_permission p id = bool_decide (id ≠ 0 ∧ id ∈ rs) ∧
     check_write_permission p id = bool_decide (id ≠ 0 ∧ id ∈ ms) ∧
     get_write_id p = if w =? 0 then None else Some w) ∧
  (∃ p, header_storage_permissions (header_of_fields base no_fields) = Some p ∧
     check_read_permission p id = false ∧ check_write_permission p id = false ∧ get_write_id p = None).
Proof.
  intros Hr Hm.
  assert (Hcond : ∀ ids, (length ids <= 8)%nat →
    (if id =? 0 then false else first_contain (pad_entries 0 ids) (Z.min (zlen ids) 8) id) =
    bool_decide (id ≠ 0 ∧ id ∈ ids)).
  { intros ids Hl. rewrite first_contain_padded by done. destruct (Z.eqb_spec id 0) as [->|Hne].
    - symmetry. apply bool_decide_eq_false. naive_solver.
    - apply bool_decide_ext. naive_solver. }
  split.
  - eexists. split; [reflexivity|]. unfold check_read_permission, check_write_permission, get_write_id. cbn.
    rewrite !Hcond by done. split_and!; [done..|]. by destruct (w =? 0).
  - eexists. split; [reflexivity|]. unfold check_read_permission, check_write_permission, get_write_id. cbn.
    by destruct (id =? 0).
Qed.

Lemma storage_permissions_declared_witness :
  ∃ p, header_storage_permissions
         (header_of_fields (mkBase 2 16 1024 1 0) (apply_entry no_fields (EStorage 7 [1; 2] [3]))) = Some p ∧
       check_read_permission p 2 = true ∧ check_write_permission p 2 = false ∧ get_write_id p = Some 7.
Proof.
  destruct (storage_permissions_declared (mkBase 2 16 1024 1 0) no_fields 7 [1; 2] [3] 2)
    as [(p & E & E1 & E2 & E3) _]; [cbn; lia|cbn; lia|].
  exists p. rewrite E1, E2, E3. split; [exact E|]. split; [reflexivity|]. split; reflexivity.
Defined.

(** The permissions of the kernel open the objects written with identifier
    zero and no others: an object of a process is neither readable nor
    modifiable with them. *)
Theorem kernel_permissions_only_zero (id : Z) :
  check_read_permission new_kernel_permissions id = (id =? 0) ∧
  check_write_permission new_kernel_permissions id = (id =? 0) ∧
  get_write_id new_kernel_permissions = Some 0.
Proof.
  unfold check_read_permission, check_write_permission. by destruct (id =? 0).
Qed.
