(* ===== verification/Process.v ===== *)
(** * Processes: operations (kernel/src/process_standard.rs)

    The methods of [impl Process for ProcessStandard] and the private helpers,
    one definition each, over the record of ProcessData.v.  Methods that return
    values and change the process return both; panics are the [outcome] monad.

    The theorems are in ProcessProofs.v. *)

From stdpp Require Import gmap.
From S2P Require Import Prelude Syscall Mpu RingBuffer Tbf ProcessData.

Section process.
Context {Hw Config Stored : Type} `{!MPU Hw Config} `{!UserspaceKernelBoundary Stored}.
Abbreviation proc := (Process Config Stored).
Implicit Type p : proc.

(** ** Addresses *)

Definition mem_start p : Z := memory_start p.
Definition mem_end p : Z := wrapping_add (memory_start p) (memory_len p).
Definition flash_start p : Z := flash_addr p.
Definition flash_end p : Z := wrapping_add (flash_addr p) (flash_len p).
Definition flash_non_protected_start p : outcome Z :=
  s ← get_protected_size (header p); uadd (flash_addr p) s.

(** ** State *)

Definition is_running p : bool :=
  match state p with
  | Running | Yielded | StoppedRunning | StoppedYielded => true
  | _ => false
  end.

Definition update_debug (f : ProcessStandardDebug → outcome ProcessStandardDebug) p : outcome proc :=
  match debug p with
  | None => Ret p
  | Some d => d' ← f d; Ret (set_debug (Some d') p)
  end.

Definition count_dropped_upcall (d : ProcessStandardDebug) : outcome ProcessStandardDebug :=
  n ← uadd (dropped_upcall_count d) 1;
  Ret (mkDebug (fixed_address_flash d) (fixed_address_ram d) (app_heap_start_pointer d)
         (app_stack_start_pointer d) (app_stack_min_pointer d) (syscall_count d)
         (last_syscall d) n (timeslice_expiration_count d)).

Definition enqueue_task (task : Task) p : outcome (result unit ErrorCode * proc) :=
  if negb (is_running p) then Ret (Err NODEVICE, p)
  else
    '(ret, p) ←
      match tasks p with
      | None => Ret (Err FAIL, p)
      | Some ts =>
          '(added, ts') ← enqueue ts task;
          Ret (if (added : bool) then Ok tt else Err NOMEM, set_tasks (Some ts') p)
      end;
    if result_is_err ret then
      p' ← update_debug count_dropped_upcall p; Ret (ret, p')
    else Ret (ret, p).

Definition mark_credentials_pass (creds : option TbfFooterV2Credentials) (short_app_id : ShortID) p :
    result unit ErrorCode * proc :=
  if bool_decide (state p ≠ CredentialsUnchecked) then (Err NODEVICE, p)
  else
    let p := set_state CredentialsApproved p in
    let p := set_app_id short_app_id p in
    (Ok tt, match creds with Some c => set_credentials (Some c) p | None => p end).

Definition mark_credentials_fail p : proc := set_state CredentialsFailed p.

Definition get_credentials p : option TbfFooterV2Credentials := credentials p.

(** [ptr.wrapping_offset(n as isize)]. *)
Definition enqueue_init_task p : outcome (result unit ErrorCode * proc) :=
  if bool_decide (state p ≠ CredentialsApproved) && bool_decide (state p ≠ Terminated)
  then Ret (Err NODEVICE, p)
  else
    let p := set_state Yielded p in
    app_start_offset ← get_app_start_offset (header p);
    let app_start := wrapping_add (flash_start p) app_start_offset in
    init_fn_offset ← get_init_function_offset (header p);
    let init_fn := wrapping_add (flash_start p) init_fn_offset in
    enqueue_task (TaskFunctionCall (mkFunctionCall SourceKernel
      app_start (memory_start p) (memory_len p) (app_break p) init_fn)) p.

Definition has_tasks p : bool :=
  match tasks p with None => false | Some ts => has_elements ts end.

Definition ready p : bool :=
  has_tasks p || bool_decide (state p = Running) || bool_decide (state p = CredentialsApproved).

Definition keep_task (upcall_id : UpcallId) (task : Task) : bool :=
  match task with
  | TaskFunctionCall fc =>
      match fc_source fc with
      | SourceKernel => true
      | SourceDriver id => negb (bool_decide (id = upcall_id))
      end
  | TaskIPC _ _ => true
  end.

Definition remove_pending_upcalls (upcall_id : UpcallId) p : outcome proc :=
  match tasks p with
  | None => Ret p
  | Some ts =>
      _ ← RingBuffer_len ts;
      '(_, ts') ← retain (λ task (_ : unit), (keep_task upcall_id task, tt)) tt ts;
      Ret (set_tasks (Some ts') p)
  end.

Definition set_yielded_state p : proc :=
  if bool_decide (state p = Running) then set_state Yielded p else p.

Definition stop p : proc :=
  match state p with
  | Running => set_state StoppedRunning p
  | Yielded => set_state StoppedYielded p
  | _ => p
  end.

Definition resume p : proc :=
  match state p with
  | StoppedRunning => set_state Running p
  | StoppedYielded => set_state Yielded p
  | _ => p
  end.

Definition dequeue_task p : outcome (option Task * proc) :=
  match tasks p with
  | None => Ret (None, p)
  | Some ts => '(t, ts') ← dequeue ts; Ret (t, set_tasks (Some ts') p)
  end.

Definition pending_tasks p : outcome Z :=
  match tasks p with None => Ret 0 | Some ts => RingBuffer_len ts end.

(** ** Termination, reset and faults *)

Definition grant_ptrs_reset p : proc :=
  match grant_pointers p with
  | None => p
  | Some gs => set_grant_pointers (Some ((λ _, mkGrantPointerEntry 0 0) <$> gs)) p
  end.

Definition terminate (code : option Z) p : proc :=
  if negb (is_running p) && bool_decide (state p ≠ Faulted)
     && bool_decide (state p ≠ CredentialsApproved)
  then p
  else
    let p := match tasks p with None => p | Some ts => set_tasks (Some (empty ts)) p end in
    let p := grant_ptrs_reset p in
    let p := set_completion_code (Some code) p in
    set_state Terminated p.

(** Sizes of the kernel-owned structures: [size_of::<GrantPointerEntry>()] is
    two words; the sizes of [Task] and of the process structure depend on the
    build and are arguments. *)
Definition GRANT_PTR_SIZE : Z := 8.
Definition CALLBACK_LEN : Z := 10.
Definition USIZE_SIZE : Z := 4.

Section sizes.
Context (TASK_SIZE PROCESS_STRUCT_OFFSET : Z).

Definition CALLBACKS_OFFSET : Z := TASK_SIZE * CALLBACK_LEN.

Definition reset_debug (d : ProcessStandardDebug) : outcome ProcessStandardDebug :=
  Ret (mkDebug (fixed_address_flash d) (fixed_address_ram d) (app_heap_start_pointer d)
         (app_stack_start_pointer d) (app_stack_min_pointer d) 0 None 0 0).

Definition reset (k : Kernel) p : outcome (result unit ErrorCode * Kernel * proc) :=
  let old_index := pid_index (process_id p) in
  '(new_identifier, k) ← create_process_identifier k;
  let p := set_process_id (mkProcessId old_index new_identifier) p in
  p ← update_debug reset_debug p;
  match mpu_config p with
  | None => Ret (Err FAIL, k, p)
  | Some config =>
      (* [take()]: the error returns below leave the cell empty *)
      let p := set_mpu_config None p in
      let config := mpu_reset_config config in
      '(app_mpu_flash, config) ←
        mpu_allocate_region (flash_addr p) (flash_len p) (flash_len p) ReadExecuteOnly config;
      match app_mpu_flash with
      | None => Ret (Err FAIL, k, p)
      | Some _ =>
          let min_process_memory_size := initial_process_app_brk_size in
          let '(grant_ptrs_num, k) := get_grant_count_and_finalize k in
          grant_ptrs_offset ← umul grant_ptrs_num GRANT_PTR_SIZE;
          s ← uadd grant_ptrs_offset CALLBACKS_OFFSET;
          initial_kernel_memory_size ← uadd s PROCESS_STRUCT_OFFSET;
          '(app_mpu_mem, config) ←
            mpu_allocate_app_memory_region (mem_start p) (memory_len p) (memory_len p)
              min_process_memory_size initial_kernel_memory_size ReadWriteOnly config;
          match app_mpu_mem with
          | None => Ret (Err NOMEM, k, p)
          | Some (app_mpu_mem_start, app_mpu_mem_len) =>
              let app_brk := wrapping_add app_mpu_mem_start min_process_memory_size in
              let p := set_app_break app_brk p in
              let kernel_brk :=
                wrapping_sub (wrapping_add app_mpu_mem_start app_mpu_mem_len)
                  initial_kernel_memory_size in
              let p := set_kernel_memory_break kernel_brk p in
              let p := set_allow_high_water_mark app_mpu_mem_start p in
              let p := set_mpu_config (Some config) p in
              let '(ukb_init_process, p) :=
                match stored_state p with
                | None => (Err tt, p)
                | Some st =>
                    let '(r, st') := ukb_initialize_process app_mpu_mem_start app_brk st in
                    (r, set_stored_state (Some st') p)
                end in
              match ukb_init_process with
              | Err _ => Ret (Err RESERVE, k, p)
              | Ok _ =>
                  n ← uadd (restart_count p) 1;
                  let p := set_restart_count n p in
                  match state p with
                  | CredentialsUnchecked | CredentialsFailed => Ret (Err NODEVICE, k, p)
                  | _ => Ret (Ok tt, k, set_state CredentialsApproved p)
                  end
              end
          end
      end
  end.

Definition try_restart (code : option Z) (k : Kernel) p : outcome (Kernel * proc) :=
  if bool_decide (state p = CredentialsFailed) || bool_decide (state p = CredentialsUnchecked)
  then Ret (k, p)
  else
    let p := terminate code p in
    '(r, k, p) ← reset k p;
    match r with
    | Ok _ => Ret (k, set_state CredentialsApproved p)
    | Err _ => Ret (k, p)
    end.

Definition set_fault_state (k : Kernel) p : outcome (Kernel * proc) :=
  let action := FaultPolicy_action (fault_policy p) (restart_count p) in
  if bool_decide (state p = CredentialsFailed) || bool_decide (state p = CredentialsUnchecked)
  then Ret (k, p)
  else match action with
  | FaultPanic => Panic
  | FaultRestart => try_restart None k p
  | FaultStop => Ret (k, set_state Faulted (terminate None p))
  end.

End sizes.

(** ** Memory *)

Definition update_stack_start_pointer (stack_pointer : Z) p : proc :=
  if (mem_start p <=? stack_pointer) && (stack_pointer <? mem_end p) then
    match debug p with
    | None => p
    | Some d => set_debug (Some (mkDebug (fixed_address_flash d) (fixed_address_ram d)
        (app_heap_start_pointer d) (Some stack_pointer) (Some stack_pointer)
        (syscall_count d) (last_syscall d) (dropped_upcall_count d)
        (timeslice_expiration_count d))) p
    end
  else p.

Definition update_heap_start_pointer (heap_pointer : Z) p : proc :=
  if (mem_start p <=? heap_pointer) && (heap_pointer <? mem_end p) then
    match debug p with
    | None => p
    | Some d => set_debug (Some (mkDebug (fixed_address_flash d) (fixed_address_ram d)
        (Some heap_pointer) (app_stack_start_pointer d) (app_stack_min_pointer d)
        (syscall_count d) (last_syscall d) (dropped_upcall_count d)
        (timeslice_expiration_count d))) p
    end
  else p.

Definition setup_mpu (hw : Hw) p : Hw * proc :=
  match mpu_config p with
  | None => (hw, p)
  | Some config =>
      let '(hw, config) := mpu_configure_mpu hw config in (hw, set_mpu_config (Some config) p)
  end.

(** The first free cell of the region cache. *)
Fixpoint store_region (r : Region) (rs : list (option Region)) : option (list (option Region)) :=
  match rs with
  | [] => None
  | None :: rs' => Some (Some r :: rs')
  | Some x :: rs' => match store_region r rs' with None => None | Some l => Some (Some x :: l) end
  end.

Definition add_mpu_region (unallocated_memory_start unallocated_memory_size min_region_size : Z) p :
    outcome (option Region * proc) :=
  match mpu_config p with
  | None => Ret (None, p)
  | Some config =>
      '(new_region, config) ← mpu_allocate_region unallocated_memory_start
         unallocated_memory_size min_region_size ReadWriteOnly config;
      let p := set_mpu_config (Some config) p in
      match new_region with
      | None => Ret (None, p)
      | Some region =>
          match store_region region (mpu_regions p) with
          | Some rs => Ret (Some region, set_mpu_regions rs p)
          | None => Ret (None, p)
          end
      end
  end.

Definition remove_mpu_region (region : Region) p : result unit ErrorCode * proc :=
  match mpu_config p with
  | None => (Err INVAL, p)
  | Some config =>
      match list_find (λ r, r = Some region) (mpu_regions p) with
      | None => (Err INVAL, p)
      | Some (i, _) =>
          let '(r, config) := mpu_remove_memory_region region config in
          let p := set_mpu_config (Some config) p in
          match r with
          | Err _ => (Err FAIL, p)
          | Ok _ => (Ok tt, set_mpu_regions (<[i := None]> (mpu_regions p)) p)
          end
      end
  end.

Definition brk (new_break : Z) (hw : Hw) p : outcome (result Z ProcessError * Hw * proc) :=
  if negb (is_running p) then Ret (Err InactiveApp, hw, p)
  else match mpu_config p with
  | None => Ret (Err KernelError, hw, p)
  | Some config =>
      if (new_break <? allow_high_water_mark p) || (mem_end p <=? new_break)
      then Ret (Err AddressOutOfBounds, hw, p)
      else if kernel_memory_break p <? new_break then Ret (Err OutOfMemory, hw, p)
      else
        '(r, config) ←
          mpu_update_app_memory_region new_break (kernel_memory_break p) ReadWriteOnly config;
        let p := set_mpu_config (Some config) p in
        match r with
        | Err _ => Ret (Err OutOfMemory, hw, p)
        | Ok _ =>
            let old_break := app_break p in
            let p := set_app_break new_break p in
            let '(hw, config) := mpu_configure_mpu hw config in
            Ret (Ok old_break, hw, set_mpu_config (Some config) p)
        end
  end.

(** [increment] is an [isize]; [ptr::offset] is address arithmetic modulo the
    word. *)
Definition sbrk (increment : Z) (hw : Hw) p : outcome (result Z ProcessError * Hw * proc) :=
  if negb (is_running p) then Ret (Err InactiveApp, hw, p)
  else brk (wrapping_add (app_break p) increment) hw p.

Definition in_app_owned_memory (buf_start_addr size : Z) p : bool :=
  let buf_end_addr := wrapping_add buf_start_addr size in
  (buf_start_addr <=? buf_end_addr) && (mem_start p <=? buf_start_addr)
  && (buf_end_addr <=? app_break p).

(** Evaluated left to right, so the protected size is only computed for a
    buffer that does not wrap. *)
Definition in_app_flash_memory (buf_start_addr size : Z) p : outcome bool :=
  let buf_end_addr := wrapping_add buf_start_addr size in
  if buf_start_addr <=? buf_end_addr then
    lo ← flash_non_protected_start p;
    Ret ((lo <=? buf_start_addr) && (buf_end_addr <=? flash_end p))
  else Ret false.

(** [ReadWriteProcessBuffer::new] and [ReadOnlyProcessBuffer::new] keep their
    three arguments. *)
Record ProcessBuffer := mkProcessBuffer { buf_ptr : Z; buf_len : Z; buf_process : ProcessId }.

Definition raise_high_water_mark (buf_start_addr size : Z) p : proc :=
  set_allow_high_water_mark
    (Z.max (allow_high_water_mark p) (wrapping_add buf_start_addr size)) p.

Definition build_readwrite_process_buffer (buf_start_addr size : Z) p :
    result ProcessBuffer ErrorCode * proc :=
  if negb (is_running p) then (Err FAIL, p)
  else if size =? 0 then (Ok (mkProcessBuffer buf_start_addr 0 (process_id p)), p)
  else if in_app_owned_memory buf_start_addr size p then
    (Ok (mkProcessBuffer buf_start_addr size (process_id p)),
     raise_high_water_mark buf_start_addr size p)
  else (Err INVAL, p).

Definition build_readonly_process_buffer (buf_start_addr size : Z) p :
    outcome (result ProcessBuffer ErrorCode * proc) :=
  if negb (is_running p) then Ret (Err FAIL, p)
  else if size =? 0 then Ret (Ok (mkProcessBuffer buf_start_addr 0 (process_id p)), p)
  else
    ok ← (if in_app_owned_memory buf_start_addr size p then Ret true
          else in_app_flash_memory buf_start_addr size p);
    if (ok : bool) then
      let p' := if in_app_owned_memory buf_start_addr size p
                then raise_high_water_mark buf_start_addr size p else p in
      Ret (Ok (mkProcessBuffer buf_start_addr size (process_id p)), p')
    else Ret (Err INVAL, p).

(** [set_byte] writes process memory, which [ram] stands for. *)
Definition set_byte (addr value : Z) (ram : gmap Z Z) p : bool * gmap Z Z :=
  if in_app_owned_memory addr 1 p then (true, <[addr := value]> ram) else (false, ram).

Definition is_valid_upcall_function_pointer (upcall_fn : Z) p : outcome bool :=
  let size := USIZE_SIZE in
  in_flash ← in_app_flash_memory upcall_fn size p;
  if (in_flash : bool) then Ret true else Ret (in_app_owned_memory upcall_fn size p).

(** ** Grants *)

Definition grant_is_allocated (grant_num : Z) p : option bool :=
  if negb (is_running p) then None
  else match grant_pointers p with
  | None => None
  | Some gs =>
      match gs !! Z.to_nat grant_num with
      | None => None
      | Some e => Some (negb (ge_grant_ptr e =? 0))
      end
  end.

(** [!x] on a word. *)
Definition not32 (x : Z) : Z := 4294967295 - x.

Definition allocate_in_grant_region_internal (size align : Z) p : outcome (option Z * proc) :=
  match mpu_config p with
  | None => Ret (None, p)
  | Some config =>
      let new_break_unaligned := wrapping_sub (kernel_memory_break p) size in
      let align := Z.max align 2 in
      let alignment_mask := not32 (align - 1) in
      let new_break := Z.land new_break_unaligned alignment_mask in
      if new_break <? app_break p then Ret (None, p)
      else if kernel_memory_break p <? new_break then Ret (None, p)
      else
        '(r, config) ←
          mpu_update_app_memory_region (app_break p) new_break ReadWriteOnly config;
        let p := set_mpu_config (Some config) p in
        match r with
        | Err _ => Ret (None, p)
        | Ok _ => Ret (Some new_break, set_kernel_memory_break new_break p)
        end
  end.

Definition driver_has_grant (drv : Z) (gs : list GrantPointerEntry) : bool :=
  existsb (λ e, negb (ge_grant_ptr e =? 0) && (ge_driver_num e =? drv)) gs.

Definition allocate_grant (grant_num drv size align : Z) (k : Kernel) p :
    outcome (bool * Kernel * proc) :=
  if negb (is_running p) then Ret (false, k, p)
  else
    let '(count, k) := get_grant_count_and_finalize k in
    if count <=? grant_num then Ret (false, k, p)
    else if default false (grant_is_allocated grant_num p) then Ret (false, k, p)
    else
      let exists_ := match grant_pointers p with
                     | None => false
                     | Some gs => driver_has_grant drv gs
                     end in
      if exists_ then Ret (false, k, p)
      else
        '(r, p) ← allocate_in_grant_region_internal size align p;
        match r with
        | None => Ret (false, k, p)
        | Some grant_ptr =>
            match grant_pointers p with
            | None => Ret (false, k, p)
            | Some gs =>
                match gs !! Z.to_nat grant_num with
                | None => Ret (false, k, p)
                | Some _ =>
                    Ret (true, k, set_grant_pointers
                      (Some (<[Z.to_nat grant_num := mkGrantPointerEntry drv grant_ptr]> gs)) p)
                end
            end
        end.

Definition create_custom_grant_identifier (ptr : Z) p : outcome Z := usub (mem_end p) ptr.

Definition get_custom_grant_address (identifier : Z) p : outcome Z := usub (mem_end p) identifier.

Definition allocate_custom_grant (size align : Z) p : outcome (option (Z * Z) * proc) :=
  if negb (is_running p) then Ret (None, p)
  else
    '(r, p) ← allocate_in_grant_region_internal size align p;
    match r with
    | None => Ret (None, p)
    | Some ptr => id ← create_custom_grant_identifier ptr p; Ret (Some (id, ptr), p)
    end.

Definition enter_grant (grant_num : Z) p : result Z ProcessError * proc :=
  if negb (is_running p) then (Err InactiveApp, p)
  else match grant_pointers p with
  | None => (Err KernelError, p)
  | Some gs =>
      match gs !! Z.to_nat grant_num with
      | None => (Err AddressOutOfBounds, p)
      | Some e =>
          let grant_ptr := ge_grant_ptr e in
          if Z.land grant_ptr 1 =? 1 then (Err AlreadyInUse, p)
          else
            (Ok grant_ptr, set_grant_pointers (Some (<[Z.to_nat grant_num :=
               mkGrantPointerEntry (ge_driver_num e) (Z.lor grant_ptr 1)]> gs)) p)
      end
  end.

Definition enter_custom_grant (identifier : Z) p : outcome (result Z ProcessError) :=
  if negb (is_running p) then Ret (Err InactiveApp)
  else a ← get_custom_grant_address identifier p; Ret (Ok a).

Definition leave_grant (grant_num : Z) p : proc :=
  if negb (is_running p) then p
  else match grant_pointers p with
  | None => p
  | Some gs =>
      match gs !! Z.to_nat grant_num with
      | None => p
      | Some e => set_grant_pointers (Some (<[Z.to_nat grant_num :=
          mkGrantPointerEntry (ge_driver_num e) (Z.land (ge_grant_ptr e) (not32 1))]> gs)) p
      end
  end.

Definition grant_allocated_count p : option Z :=
  if negb (is_running p) then None
  else match grant_pointers p with
  | None => None
  | Some gs => Some (Z.of_nat (length (filter (λ e, ge_grant_ptr e ≠ 0) gs)))
  end.

Definition lookup_grant_from_driver_num (drv : Z) p : result Z ProcessError :=
  match grant_pointers p with
  | None => Err KernelError
  | Some gs =>
      match list_find (λ e, ge_grant_ptr e ≠ 0 ∧ ge_driver_num e = drv) gs with
      | Some (idx, _) => Ok (Z.of_nat idx)
      | None => Err OutOfMemory
      end
  end.

(** ** Running *)

Section running.
Context (TASK_SIZE PROCESS_STRUCT_OFFSET : Z).

Definition set_syscall_return_value (return_value : SyscallReturn) (k : Kernel) p :
    outcome (Kernel * proc) :=
  match stored_state p with
  | None => set_fault_state TASK_SIZE PROCESS_STRUCT_OFFSET k p
  | Some st =>
      let '(r, st) := ukb_set_syscall_return_value (mem_start p) (app_break p) st return_value in
      let p := set_stored_state (Some st) p in
      match r with
      | Ok _ => Ret (k, p)
      | Err _ => set_fault_state TASK_SIZE PROCESS_STRUCT_OFFSET k p
      end
  end.

Definition set_process_function (callback : FunctionCall) (k : Kernel) p :
    outcome (Kernel * proc) :=
  match stored_state p with
  | None => set_fault_state TASK_SIZE PROCESS_STRUCT_OFFSET k p
  | Some st =>
      let '(r, st) := ukb_set_process_function (mem_start p) (app_break p) st callback in
      let p := set_stored_state (Some st) p in
      match r with
      | Ok _ => Ret (k, set_state Running p)
      | Err _ => set_fault_state TASK_SIZE PROCESS_STRUCT_OFFSET k p
      end
  end.

End running.

Definition note_stack_pointer (sp : Z) (d : ProcessStandardDebug) : ProcessStandardDebug :=
  let low := match app_stack_min_pointer d with
             | None => Some sp
             | Some asmp => if sp <? asmp then Some sp else Some asmp
             end in
  mkDebug (fixed_address_flash d) (fixed_address_ram d) (app_heap_start_pointer d)
    (app_stack_start_pointer d) low (syscall_count d) (last_syscall d)
    (dropped_upcall_count d) (timeslice_expiration_count d).

Definition switch_to p : option ContextSwitchReason * proc :=
  if negb (is_running p) then (None, p)
  else
    let '(switch_reason, stack_pointer, p) :=
      match stored_state p with
      | None => (None, None, p)
      | Some st =>
          let '(reason, sp, st) := ukb_switch_to_process (mem_start p) (app_break p) st in
          (Some reason, sp, set_stored_state (Some st) p)
      end in
    (switch_reason,
     match stack_pointer, debug p with
     | Some sp, Some d => set_debug (Some (note_stack_pointer sp d)) p
     | _, _ => p
     end).

Definition debug_timeslice_expired p : outcome proc :=
  update_debug (λ d,
    n ← uadd (timeslice_expiration_count d) 1;
    Ret (mkDebug (fixed_address_flash d) (fixed_address_ram d) (app_heap_start_pointer d)
           (app_stack_start_pointer d) (app_stack_min_pointer d) (syscall_count d)
           (last_syscall d) (dropped_upcall_count d) n)) p.

Definition debug_syscall_called (s : Syscall) p : outcome proc :=
  update_debug (λ d,
    n ← uadd (syscall_count d) 1;
    Ret (mkDebug (fixed_address_flash d) (fixed_address_ram d) (app_heap_start_pointer d)
           (app_stack_start_pointer d) (app_stack_min_pointer d) n (Some s)
           (dropped_upcall_count d) (timeslice_expiration_count d))) p.

(** [get_addresses]. *)
Definition get_addresses p : outcome ProcessAddresses :=
  flash_non_protected_start ← flash_non_protected_start p;
  flash_integrity_end ← uadd (flash_addr p) (get_binary_end (header p));
  Ret (mkProcessAddresses (flash_start p) flash_non_protected_start flash_integrity_end (flash_end p)
         (mem_start p) (app_break p) (kernel_memory_break p) (mem_end p)
         (debug p ≫= app_heap_start_pointer) (debug p ≫= app_stack_start_pointer)
         (debug p ≫= app_stack_min_pointer)).

End process.
