(* ===== verification/ProcessProofs.v ===== *)
(** * Processes: theorems

    The methods of a process as one executable interface ([proc_op],
    [exec_op]), so that the properties speak about any sequence of calls:

    - the memory layout invariant and the safety of buffers shared by [allow];
    - isolation of kernel-owned memory, against the MPU interface;
    - the life cycle: only approved processes run, termination cleans up;
    - grants: alignment, disjointness, enter/leave, identifiers. *)

From stdpp Require Import gmap.
From S2P Require Import Prelude Syscall Mpu RingBuffer Tbf ProcessData.
From S2P Require Import Process.

(** The memory the boundary code asks for is a size. *)
Class UkbLaws (Stored : Type) `{!UserspaceKernelBoundary Stored} :=
  ukb_brk_size : 0 ≤ initial_process_app_brk_size.

Section calls.
Context {Hw Config Stored : Type} `{!MPU Hw Config} `{!UserspaceKernelBoundary Stored}.
Abbreviation proc := (Process Config Stored).
Implicit Type p : proc.
Context (TASK_SIZE PROCESS_STRUCT_OFFSET : Z).

Inductive proc_op : Type :=
| CallEnqueueTask (t : Task)
| CallMarkPass (c : option TbfFooterV2Credentials) (id : ShortID)
| CallMarkFail
| CallEnqueueInit
| CallRemoveUpcalls (u : UpcallId)
| CallSetYielded | CallStop | CallResume
| CallSetFault | CallTryRestart (c : option Z) | CallTerminate (c : option Z)
| CallDequeueTask
| CallStackStart (a : Z) | CallHeapStart (a : Z)
| CallSetupMpu | CallAddRegion (s z m : Z) | CallRemoveRegion (r : Region)
| CallBrk (a : Z) | CallSbrk (i : Z)
| CallBuildRW (a n : Z) | CallBuildRO (a n : Z)
| CallAllocGrant (num drv size align : Z) | CallAllocCustom (size align : Z)
| CallEnterGrant (num : Z) | CallLeaveGrant (num : Z)
| CallSetReturn (r : SyscallReturn) | CallSetFunction (fc : FunctionCall)
| CallSwitchTo | CallTimesliceExpired | CallSyscallCalled (s : Syscall).

Definition world : Type := Kernel * Hw * proc.

Definition exec_op (o : proc_op) (w : world) : outcome world :=
  let '(k, hw, p) := w in
  match o with
  | CallEnqueueTask t => '(_, p) ← enqueue_task t p; Ret (k, hw, p)
  | CallMarkPass c id => Ret (k, hw, (mark_credentials_pass c id p).2)
  | CallMarkFail => Ret (k, hw, mark_credentials_fail p)
  | CallEnqueueInit => '(_, p) ← enqueue_init_task p; Ret (k, hw, p)
  | CallRemoveUpcalls u => p ← remove_pending_upcalls u p; Ret (k, hw, p)
  | CallSetYielded => Ret (k, hw, set_yielded_state p)
  | CallStop => Ret (k, hw, stop p)
  | CallResume => Ret (k, hw, resume p)
  | CallSetFault => '(k, p) ← set_fault_state TASK_SIZE PROCESS_STRUCT_OFFSET k p; Ret (k, hw, p)
  | CallTryRestart c => '(k, p) ← try_restart TASK_SIZE PROCESS_STRUCT_OFFSET c k p; Ret (k, hw, p)
  | CallTerminate c => Ret (k, hw, terminate c p)
  | CallDequeueTask => '(_, p) ← dequeue_task p; Ret (k, hw, p)
  | CallStackStart a => Ret (k, hw, update_stack_start_pointer a p)
  | CallHeapStart a => Ret (k, hw, update_heap_start_pointer a p)
  | CallSetupMpu => let '(hw, p) := setup_mpu hw p in Ret (k, hw, p)
  | CallAddRegion s z m => '(_, p) ← add_mpu_region s z m p; Ret (k, hw, p)
  | CallRemoveRegion r => Ret (k, hw, (remove_mpu_region r p).2)
  | CallBrk a => '(_, hw, p) ← brk a hw p; Ret (k, hw, p)
  | CallSbrk i => '(_, hw, p) ← sbrk i hw p; Ret (k, hw, p)
  | CallBuildRW a n => Ret (k, hw, (build_readwrite_process_buffer a n p).2)
  | CallBuildRO a n => '(_, p) ← build_readonly_process_buffer a n p; Ret (k, hw, p)
  | CallAllocGrant num drv size align =>
      '(_, k, p) ← allocate_grant num drv size align k p; Ret (k, hw, p)
  | CallAllocCustom size align => '(_, p) ← allocate_custom_grant size align p; Ret (k, hw, p)
  | CallEnterGrant num => Ret (k, hw, (enter_grant num p).2)
  | CallLeaveGrant num => Ret (k, hw, leave_grant num p)
  | CallSetReturn r =>
      '(k, p) ← set_syscall_return_value TASK_SIZE PROCESS_STRUCT_OFFSET r k p; Ret (k, hw, p)
  | CallSetFunction fc =>
      '(k, p) ← set_process_function TASK_SIZE PROCESS_STRUCT_OFFSET fc k p; Ret (k, hw, p)
  | CallSwitchTo => Ret (k, hw, (switch_to p).2)
  | CallTimesliceExpired => p ← debug_timeslice_expired p; Ret (k, hw, p)
  | CallSyscallCalled s => p ← debug_syscall_called s p; Ret (k, hw, p)
  end.

Fixpoint exec_ops (os : list proc_op) (w : world) : outcome world :=
  match os with [] => Ret w | o :: os' => w' ← exec_op o w; exec_ops os' w' end.

(** ** Frames

    Which parts of a process an operation may change.  [same_layout] keeps the
    block, the breaks, the high water mark, the MPU configuration and the
    identifier. *)
Definition same_layout p p' : Prop :=
  memory_start p' = memory_start p ∧ memory_len p' = memory_len p ∧
  allow_high_water_mark p' = allow_high_water_mark p ∧
  app_break p' = app_break p ∧ kernel_memory_break p' = kernel_memory_break p ∧
  mpu_config p' = mpu_config p ∧ process_id p' = process_id p.

#[export] Instance same_layout_preorder : PreOrder same_layout.
Proof.
  split; [by intros p|]. unfold same_layout. intros p q r H1 H2.
  destruct_and?. split_and!; congruence.
Qed.

Lemma update_debug_layout f p p' : update_debug f p = Ret p' → same_layout p p'.
Proof.
  unfold update_debug. destruct (debug p); [|by intros [= <-]].
  intros H. apply outcome_bind_Ret in H as (d & _ & [= <-]). done.
Qed.

Lemma enqueue_task_layout t p r p' : enqueue_task t p = Ret (r, p') → same_layout p p'.
Proof.
  unfold enqueue_task. destruct (negb (is_running p)); [by intros [= <- <-]|]. intros H.
  apply outcome_bind_Ret in H as ([r1 p1] & H1 & H).
  assert (same_layout p p1) as L.
  { destruct (tasks p); [|by injection H1 as <- <-].
    apply outcome_bind_Ret in H1 as ([b ts] & _ & H1). by injection H1 as <- <-. }
  destruct (result_is_err r1); [|by injection H as <- <-].
  apply outcome_bind_Ret in H as (p2 & H2 & H). injection H as <- <-.
  etrans; [exact L|by eapply update_debug_layout].
Qed.

Lemma grant_ptrs_reset_layout p : same_layout p (grant_ptrs_reset p).
Proof. unfold grant_ptrs_reset. by destruct (grant_pointers p). Qed.

Lemma terminate_layout c p : same_layout p (terminate c p).
Proof.
  unfold terminate. case_match; [done|]. destruct (tasks p); unfold grant_ptrs_reset; by case_match.
Qed.

(** ** The memory layout invariant *)

Record layout p : Prop := {
  layout_block : 0 ≤ memory_start p ∧ 0 ≤ memory_len p ∧
                 memory_start p + memory_len p < usize_bound;
  layout_hwm : memory_start p ≤ allow_high_water_mark p ≤ app_break p;
  layout_breaks : app_break p ≤ kernel_memory_break p;
  layout_end : kernel_memory_break p ≤ memory_start p + memory_len p;
}.

Lemma layout_frame p p' : same_layout p p' → layout p → layout p'.
Proof. intros (E1 & E2 & E3 & E4 & E5 & _) []. split; rewrite ?E1, ?E2, ?E3, ?E4, ?E5; done. Qed.

Lemma layout_mem_end p : layout p → mem_end p = memory_start p + memory_len p.
Proof. intros []. unfold mem_end, wrapping_add, wrap32. rewrite Z.mod_small; lia. Qed.

(** Operations that leave the break pointers and the high water mark alone but
    may update the MPU configuration. *)
Lemma layout_config p c : layout p → layout (set_mpu_config c p).
Proof. by intros []. Qed.

Lemma brk_layout a hw p r hw' p' :
  layout p → brk a hw p = Ret (r, hw', p') → layout p'.
Proof.
  intros L. unfold brk. destruct (negb (is_running p)); [by intros [= <- <- <-]|].
  destruct (mpu_config p) as [c|]; [|by intros [= <- <- <-]].
  rewrite (layout_mem_end _ L).
  destruct (Z.ltb_spec a (allow_high_water_mark p)), (Z.leb_spec (memory_start p + memory_len p) a);
    try by intros [= <- <- <-].
  cbn [orb]. destruct (Z.ltb_spec (kernel_memory_break p) a); [by intros [= <- <- <-]|].
  intros E. apply outcome_bind_Ret in E as ([u c'] & _ & E).
  destruct u; [|injection E as <- <- <-; by apply layout_config].
  destruct (mpu_configure_mpu hw c') as [hw2 c2]. injection E as <- <- <-.
  destruct L. split; psimpl; lia.
Qed.

Lemma in_app_owned_memory_spec a n p :
  layout p → 0 ≤ a < usize_bound → 0 ≤ n < usize_bound →
  in_app_owned_memory a n p = true ↔ memory_start p ≤ a ∧ a + n ≤ app_break p.
Proof.
  intros [] Ha Hn. unfold in_app_owned_memory, wrapping_add, wrap32, mem_start.
  destruct (decide (a + n < usize_bound)).
  - rewrite Z.mod_small by lia. rewrite !andb_true_iff, !Z.leb_le. lia.
  - assert (E : (a + n) mod usize_bound = a + n - usize_bound).
    { symmetry. apply Z.mod_unique with 1; lia. }
    rewrite E, !andb_true_iff, !Z.leb_le. lia.
Qed.

Lemma raise_high_water_mark_layout a n p :
  layout p → in_app_owned_memory a n p = true → layout (raise_high_water_mark a n p).
Proof.
  intros []. unfold in_app_owned_memory. rewrite !andb_true_iff, !Z.leb_le. intros.
  split; psimpl; unfold raise_high_water_mark; psimpl; lia.
Qed.

Lemma allocate_internal_layout size align p r p' :
  layout p → allocate_in_grant_region_internal size align p = Ret (r, p') → layout p'.
Proof.
  intros L. unfold allocate_in_grant_region_internal.
  destruct (mpu_config p) as [c|]; [|by intros [= <- <-]].
  set (nb := Z.land _ _).
  destruct (Z.ltb_spec nb (app_break p)); [by intros [= <- <-]|].
  destruct (Z.ltb_spec (kernel_memory_break p) nb); [by intros [= <- <-]|].
  intros E. apply outcome_bind_Ret in E as ([u c'] & _ & E).
  destruct u; injection E as <- <-; [|by apply layout_config].
  destruct L. split; psimpl; lia.
Qed.

Lemma allocate_grant_layout num drv size align k p b k' p' :
  layout p → allocate_grant num drv size align k p = Ret (b, k', p') → layout p'.
Proof.
  intros L. unfold allocate_grant. destruct (negb (is_running p)); [by intros [= <- <- <-]|].
  cbn [get_grant_count_and_finalize]. repeat (case_match; [by intros [= <- <- <-]|]).
  intros E. apply outcome_bind_Ret in E as ([r p1] & E1 & E).
  apply allocate_internal_layout in E1; [|done].
  destruct r as [ptr|]; [|by injection E as <- <- <-].
  destruct (grant_pointers p1) as [gs|]; [|by injection E as <- <- <-].
  destruct (gs !! _); injection E as <- <- <-; [by destruct E1|done].
Qed.

Section reset_layout.
Context `{!MPULayout Hw Config} `{!UkbLaws Stored}.
Context (task_size_pos : 0 ≤ TASK_SIZE) (struct_size_pos : 0 ≤ PROCESS_STRUCT_OFFSET).

Lemma reset_layout k p r k' p' :
  layout p → 0 ≤ grant_counter k →
  reset TASK_SIZE PROCESS_STRUCT_OFFSET k p = Ret (r, k', p') → layout p'.
Proof.
  intros L Hg E. unfold reset in E.
  apply outcome_bind_Ret in E as ([id k1] & E1 & E).
  apply outcome_bind_Ret in E as (p1 & E2 & E). apply update_debug_layout in E2.
  assert (L1 : layout p1) by (eapply layout_frame; [exact E2|by destruct L]). clear E2 L p.
  assert (Hg1 : 0 ≤ grant_counter k1).
  { unfold create_process_identifier in E1. apply outcome_bind_Ret in E1 as (? & _ & E1).
    by injection E1 as <- <-. }
  destruct (mpu_config p1) as [c|]; [|by injection E as <- <- <-].
  apply outcome_bind_Ret in E as ([fl c1] & E2 & E).
  destruct fl; [|injection E as <- <- <-; by apply layout_config].
  cbn [get_grant_count_and_finalize] in E.
  apply outcome_bind_Ret in E as (g & Eg & E). apply umul_Ret in Eg as [-> _].
  apply outcome_bind_Ret in E as (s & Es & E). apply uadd_Ret in Es as [-> _].
  apply outcome_bind_Ret in E as (ker & Ek & E). apply uadd_Ret in Ek as [-> _].
  apply outcome_bind_Ret in E as ([m c2] & Em & E).
  destruct m as [[st sz]|]; [|injection E as <- <- <-; by apply layout_config].
  set (ker := grant_counter k1 * GRANT_PTR_SIZE + CALLBACKS_OFFSET TASK_SIZE + PROCESS_STRUCT_OFFSET) in *.
  assert (Hker : 0 ≤ ker) by (unfold ker, GRANT_PTR_SIZE, CALLBACKS_OFFSET, CALLBACK_LEN; lia).
  assert (Hbrk : 0 ≤ initial_process_app_brk_size) by apply ukb_brk_size.
  destruct L1 as [[? [? ?]] [? ?] ? ?].
  apply layout_allocate_app in Em as (? & ? & ? & ?);
    [|unfold mem_start; psimpl; done|unfold in_usize; psimpl; lia|done|done].
  psimpl. unfold mem_start in *. psimpl.
  assert (Ea : wrapping_add st initial_process_app_brk_size = st + initial_process_app_brk_size)
    by (unfold wrapping_add, wrap32; rewrite Z.mod_small; lia).
  assert (Ek : wrapping_sub (wrapping_add st sz) ker = st + sz - ker)
    by (unfold wrapping_sub, wrapping_add, wrap32;
        rewrite (Z.mod_small (st + sz)) by lia; rewrite Z.mod_small; lia).
  rewrite Ea, Ek in E. clear Ea Ek.
  destruct (stored_state p1) as [ss|].
  - destruct (ukb_initialize_process _ _ _) as [ri ss']. destruct ri.
    + apply outcome_bind_Ret in E as (n & _ & E). psimpl.
      destruct (state p1); injection E as <- <- <-; split; psimpl; lia.
    + injection E as <- <- <-. split; psimpl; lia.
  - injection E as <- <- <-. split; psimpl; lia.
Qed.

Lemma create_process_identifier_grants k id k' :
  create_process_identifier k = Ret (id, k') → grant_counter k' = grant_counter k.
Proof.
  unfold create_process_identifier. intros E. apply outcome_bind_Ret in E as (? & _ & E).
  by injection E as <- <-.
Qed.

Lemma reset_grants k p r k' p' :
  reset TASK_SIZE PROCESS_STRUCT_OFFSET k p = Ret (r, k', p') → grant_counter k' = grant_counter k.
Proof.
  intros E. unfold reset in E. cbn [get_grant_count_and_finalize] in E.
  apply outcome_bind_Ret in E as ([id k1] & E1 & E). apply create_process_identifier_grants in E1.
  rewrite <- E1. clear E1.
  repeat first
    [ apply outcome_bind_Ret in E as (? & _ & E)
    | case_match; simplify_eq/= | done ].
Qed.

(** A call that may restart the process keeps the layout and the grant count. *)
Definition restart_safe (f : Kernel → proc → outcome (Kernel * proc)) : Prop :=
  ∀ k p k' p', layout p → 0 ≤ grant_counter k → f k p = Ret (k', p') →
    layout p' ∧ 0 ≤ grant_counter k'.

Lemma try_restart_safe c : restart_safe (try_restart TASK_SIZE PROCESS_STRUCT_OFFSET c).
Proof.
  intros k p k' p' L Hg. unfold try_restart. case_match; [by intros [= <- <-]|].
  intros E. apply outcome_bind_Ret in E as ([[r k1] p1] & E1 & E).
  pose proof (reset_grants _ _ _ _ _ E1).
  apply reset_layout in E1; [|eapply layout_frame; [apply terminate_layout|done]|done].
  destruct r; injection E as <- <-; (split; [by destruct E1|lia]).
Qed.

Lemma set_fault_state_safe : restart_safe (set_fault_state TASK_SIZE PROCESS_STRUCT_OFFSET).
Proof.
  intros k p k' p' L Hg. unfold set_fault_state. case_match; [by intros [= <- <-]|].
  destruct (FaultPolicy_action _ _); [done|by apply try_restart_safe|].
  intros [= <- <-]. split; [|done].
  pose proof (layout_frame _ _ (terminate_layout None p) L) as []. by split.
Qed.

Lemma set_syscall_return_value_safe r :
  restart_safe (set_syscall_return_value TASK_SIZE PROCESS_STRUCT_OFFSET r).
Proof.
  intros k p k' p' L Hg. unfold set_syscall_return_value.
  destruct (stored_state p); [|by apply set_fault_state_safe].
  destruct (ukb_set_syscall_return_value _ _ _ _) as [[] st].
  - intros [= <- <-]. by destruct L.
  - apply set_fault_state_safe; [by destruct L|done].
Qed.

Lemma set_process_function_safe fc :
  restart_safe (set_process_function TASK_SIZE PROCESS_STRUCT_OFFSET fc).
Proof.
  intros k p k' p' L Hg. unfold set_process_function.
  destruct (stored_state p); [|by apply set_fault_state_safe].
  destruct (ukb_set_process_function _ _ _ _) as [[] st].
  - intros [= <- <-]. by destruct L.
  - apply set_fault_state_safe; [by destruct L|done].
Qed.

End reset_layout.

(** *** Operations that keep [same_layout] *)

Lemma enqueue_init_task_layout p r p' :
  enqueue_init_task p = Ret (r, p') → same_layout p p'.
Proof.
  unfold enqueue_init_task. case_match; [by intros [= <- <-]|]. intros E.
  apply outcome_bind_Ret in E as (? & _ & E). apply outcome_bind_Ret in E as (? & _ & E).
  apply enqueue_task_layout in E. etrans; [|exact E]. done.
Qed.

Lemma remove_pending_upcalls_layout u p p' :
  remove_pending_upcalls u p = Ret p' → same_layout p p'.
Proof.
  unfold remove_pending_upcalls. destruct (tasks p); [|by intros [= <-]]. intros E.
  apply outcome_bind_Ret in E as (? & _ & E). apply outcome_bind_Ret in E as ([] & _ & E).
  by injection E as <-.
Qed.

Lemma dequeue_task_layout p r p' : dequeue_task p = Ret (r, p') → same_layout p p'.
Proof.
  unfold dequeue_task. destruct (tasks p); [|by intros [= <- <-]]. intros E.
  apply outcome_bind_Ret in E as ([] & _ & E). by injection E as <- <-.
Qed.

(** Operations that only touch other fields. *)
Lemma quiet_layout p :
  (∀ c id, same_layout p (mark_credentials_pass c id p).2) ∧
  same_layout p (mark_credentials_fail p) ∧ same_layout p (set_yielded_state p) ∧
  same_layout p (stop p) ∧ same_layout p (resume p) ∧
  (∀ a, same_layout p (update_stack_start_pointer a p)) ∧
  (∀ a, same_layout p (update_heap_start_pointer a p)) ∧
  (∀ n, same_layout p (enter_grant n p).2) ∧ (∀ n, same_layout p (leave_grant n p)) ∧
  same_layout p (switch_to p).2.
Proof.
  split_and!; intros; unfold mark_credentials_pass, mark_credentials_fail, set_yielded_state,
    stop, resume, update_stack_start_pointer, update_heap_start_pointer, enter_grant, leave_grant,
    switch_to; try done; repeat (case_match; simplify_eq/=; try done).
Qed.

(** ** The effect of a call

    The calls by what they can do to the layout and to the MPU: nothing, writing
    the hardware, changing a general region, moving the app break, sharing a
    buffer, allocating from the kernel's end of the block, or restarting. *)

Inductive restarting : (Kernel → proc → outcome (Kernel * proc)) → Prop :=
| restarting_fault : restarting (set_fault_state TASK_SIZE PROCESS_STRUCT_OFFSET)
| restarting_restart c : restarting (try_restart TASK_SIZE PROCESS_STRUCT_OFFSET c)
| restarting_return r : restarting (set_syscall_return_value TASK_SIZE PROCESS_STRUCT_OFFSET r)
| restarting_function fc : restarting (set_process_function TASK_SIZE PROCESS_STRUCT_OFFSET fc).

(** General regions come and go. *)
Definition region_change (c c' : Config) : Prop :=
  (∃ s z m perm r, mpu_allocate_region s z m perm c = Ret (r, c')) ∨
  (∃ r u, mpu_remove_memory_region r c = (u, c')).

(** Finalising the number of grants. *)
Definition same_counts (k k' : Kernel) : Prop :=
  process_identifier_max k' = process_identifier_max k ∧ grant_counter k' = grant_counter k.

Inductive effect (k : Kernel) (hw : Hw) p : Kernel → Hw → proc → Prop :=
| effect_quiet k' p' : same_counts k k' → same_layout p p' → effect k hw p k' hw p'
| effect_setup c hw' c' : mpu_config p = Some c → mpu_configure_mpu hw c = (hw', c') →
    effect k hw p k hw' (set_mpu_config (Some c') p)
| effect_region c c' p' : mpu_config p = Some c → region_change c c' →
    same_layout (set_mpu_config (Some c') p) p' → effect k hw p k hw p'
| effect_brk a r hw' p' : brk a hw p = Ret (r, hw', p') → effect k hw p k hw' p'
| effect_share a n : in_app_owned_memory a n p = true →
    effect k hw p k hw (raise_high_water_mark a n p)
| effect_allocate size align r p1 k' p' : same_counts k k' →
    allocate_in_grant_region_internal size align p = Ret (r, p1) → same_layout p1 p' →
    effect k hw p k' hw p'
| effect_restart f k' p' : restarting f → f k p = Ret (k', p') → effect k hw p k' hw p'.

Lemma effect_same k hw p p' : same_layout p p' → effect k hw p k hw p'.
Proof. by apply effect_quiet. Qed.

Lemma add_mpu_region_effect s z m k hw p r p' :
  add_mpu_region s z m p = Ret (r, p') → effect k hw p k hw p'.
Proof.
  unfold add_mpu_region. destruct (mpu_config p) as [c|] eqn:Ec; [|intros [= <- <-]; by apply effect_same].
  intros E. apply outcome_bind_Ret in E as ([r1 c1] & E1 & E).
  apply effect_region with c c1; [done|left; by do 5 eexists|].
  repeat case_match; by injection E as <- <-.
Qed.

Lemma remove_mpu_region_effect r k hw p : effect k hw p k hw (remove_mpu_region r p).2.
Proof.
  unfold remove_mpu_region. destruct (mpu_config p) as [c|] eqn:Ec; [|by apply effect_same].
  destruct (list_find _ _) as [[i x]|]; [|by apply effect_same].
  destruct (mpu_remove_memory_region r c) as [u c1] eqn:Er.
  apply effect_region with c c1; [done|right; by do 2 eexists|]. by destruct u.
Qed.

Lemma share_effect a n k hw p :
  effect k hw p k hw (build_readwrite_process_buffer a n p).2 ∧
  ∀ r p', build_readonly_process_buffer a n p = Ret (r, p') → effect k hw p k hw p'.
Proof.
  unfold build_readwrite_process_buffer, build_readonly_process_buffer.
  destruct (negb _); [split; [by apply effect_same|intros r p' [= <- <-]; by apply effect_same]|].
  destruct (n =? 0); [split; [by apply effect_same|intros r p' [= <- <-]; by apply effect_same]|].
  destruct (in_app_owned_memory a n p) eqn:Eo; (split; [by constructor|]); intros r p' E;
    apply outcome_bind_Ret in E as (ok & _ & E); destruct ok; injection E as <- <-; by constructor.
Qed.

Lemma allocate_grant_effect num drv size align k hw p b k' p' :
  allocate_grant num drv size align k p = Ret (b, k', p') → effect k hw p k' hw p'.
Proof.
  unfold allocate_grant. cbn [get_grant_count_and_finalize]. intros E.
  repeat (case_match; [injection E as <- <- <-; by apply effect_quiet|]).
  apply outcome_bind_Ret in E as ([q p2] & E2 & E).
  eapply effect_allocate; [|exact E2|]; repeat case_match; by injection E as <- <- <-.
Qed.

Lemma allocate_custom_grant_effect size align k hw p r p' :
  allocate_custom_grant size align p = Ret (r, p') → effect k hw p k hw p'.
Proof.
  unfold allocate_custom_grant. case_match; [intros [= <- <-]; by apply effect_same|]. intros E.
  apply outcome_bind_Ret in E as ([q p2] & E2 & E). eapply effect_allocate; [done|exact E2|].
  destruct q; [|by injection E as <- <-]. apply outcome_bind_Ret in E as (? & _ & E). by injection E as <- <-.
Qed.

Lemma exec_op_effect o k hw p k' hw' p' :
  exec_op o (k, hw, p) = Ret (k', hw', p') → effect k hw p k' hw' p'.
Proof.
  intros E. pose proof (effect_same k hw p) as F.
  destruct (quiet_layout p) as (Q1 & Q2 & Q3 & Q4 & Q5 & Q6 & Q7 & Q8 & Q9 & Q10).
  destruct o; cbn [exec_op] in E;
    try (injection E as <- <- <-; first [by auto | apply F, terminate_layout | apply remove_mpu_region_effect | apply share_effect]);
    try (apply outcome_bind_Ret in E as ([k1 p1] & E1 & E); injection E as <- <- <-;
         eapply effect_restart; [|exact E1]; constructor);
    try (apply outcome_bind_Ret in E as (p1 & E1 & E); injection E as <- <- <-;
         first [ by eapply F, remove_pending_upcalls_layout | by eapply F, update_debug_layout ]);
    try (apply outcome_bind_Ret in E as ([r1 p1] & E1 & E); injection E as <- <- <-;
         first [ by eapply F, enqueue_task_layout | by eapply F, enqueue_init_task_layout
               | by eapply F, dequeue_task_layout | by eapply add_mpu_region_effect
               | by eapply (proj2 (share_effect _ _ _ _ _)) | by eapply allocate_custom_grant_effect ]).
  - unfold setup_mpu in E. destruct (mpu_config p) as [c|] eqn:Ec; [|injection E as <- <- <-; by apply F].
    destruct (mpu_configure_mpu hw c) as [hw1 c1] eqn:Em. injection E as <- <- <-. by eapply effect_setup.
  - apply outcome_bind_Ret in E as ([[r hw1] p1] & E1 & E). injection E as <- <- <-. by eapply effect_brk.
  - apply outcome_bind_Ret in E as ([[r hw1] p1] & E1 & E). injection E as <- <- <-.
    unfold sbrk in E1. case_match; [injection E1 as <- <- <-; by apply F|by eapply effect_brk].
  - apply outcome_bind_Ret in E as ([[b k1] p1] & E1 & E). injection E as <- <- <-.
    by eapply allocate_grant_effect.
Qed.

Section all_ops_layout.
Context `{!MPULayout Hw Config} `{!UkbLaws Stored}.
Context (task_size_pos : 0 ≤ TASK_SIZE) (struct_size_pos : 0 ≤ PROCESS_STRUCT_OFFSET).

Lemma restarting_safe f : restarting f → restart_safe f.
Proof.
  intros []; [by apply set_fault_state_safe|by apply try_restart_safe
             |by apply set_syscall_return_value_safe|by apply set_process_function_safe].
Qed.

Lemma exec_op_layout o k hw p k' hw' p' :
  layout p → 0 ≤ grant_counter k → exec_op o (k, hw, p) = Ret (k', hw', p') →
  layout p' ∧ 0 ≤ grant_counter k'.
Proof.
  intros L Hg E. apply exec_op_effect in E.
  destruct E as [k' p' [_ HK] S|c hw' c' _ _|c c' p' _ _ S|a r hw' p' E|a n Eo|size align r p1 k' p' [_ HK] E S|f k' p' Hf E].
  - split; [by eapply layout_frame|lia].
  - split; [by apply layout_config|done].
  - split; [eapply layout_frame; [exact S|by apply layout_config]|done].
  - split; [by eapply brk_layout|done].
  - split; [by apply raise_high_water_mark_layout|done].
  - split; [eapply layout_frame; [exact S|by eapply allocate_internal_layout]|lia].
  - by eapply restarting_safe.
Qed.

Lemma exec_ops_layout os k hw p k' hw' p' :
  layout p → 0 ≤ grant_counter k → exec_ops os (k, hw, p) = Ret (k', hw', p') →
  layout p' ∧ 0 ≤ grant_counter k'.
Proof.
  revert k hw p. induction os as [|o os IH]; intros k hw p L Hg E; cbn [exec_ops] in E.
  { by injection E as <- <- <-. }
  apply outcome_bind_Ret in E as ([[k1 hw1] p1] & E1 & E).
  apply exec_op_layout in E1 as [L1 Hg1]; [|done|done]. by eapply IH.
Qed.

End all_ops_layout.

(** No call on a process changes the number of grants. *)
Definition keeps_grants (f : Kernel → proc → outcome (Kernel * proc)) : Prop :=
  ∀ k p k' p', f k p = Ret (k', p') → grant_counter k' = grant_counter k.

Lemma try_restart_grants c : keeps_grants (try_restart TASK_SIZE PROCESS_STRUCT_OFFSET c).
Proof.
  intros k p k' p'. unfold try_restart. case_match; [by intros [= <- <-]|].
  intros E. apply outcome_bind_Ret in E as ([[r k1] p1] & E1 & E). apply reset_grants in E1.
  destruct r; by injection E as <- <-.
Qed.

Lemma set_fault_state_grants : keeps_grants (set_fault_state TASK_SIZE PROCESS_STRUCT_OFFSET).
Proof.
  intros k p k' p'. unfold set_fault_state. case_match; [by intros [= <- <-]|].
  destruct (FaultPolicy_action _ _); [done|by apply try_restart_grants|by intros [= <- <-]].
Qed.

Lemma set_syscall_return_value_grants r :
  keeps_grants (set_syscall_return_value TASK_SIZE PROCESS_STRUCT_OFFSET r).
Proof.
  intros k p k' p'. unfold set_syscall_return_value.
  destruct (stored_state p); [|apply set_fault_state_grants].
  destruct (ukb_set_syscall_return_value _ _ _ _) as [[] st];
    [by intros [= <- <-]|apply set_fault_state_grants].
Qed.

Lemma set_process_function_grants fc :
  keeps_grants (set_process_function TASK_SIZE PROCESS_STRUCT_OFFSET fc).
Proof.
  intros k p k' p'. unfold set_process_function.
  destruct (stored_state p); [|apply set_fault_state_grants].
  destruct (ukb_set_process_function _ _ _ _) as [[] st];
    [by intros [= <- <-]|apply set_fault_state_grants].
Qed.

Lemma restarting_grants f : restarting f → keeps_grants f.
Proof.
  intros []; [apply set_fault_state_grants|apply try_restart_grants
             |apply set_syscall_return_value_grants|apply set_process_function_grants].
Qed.

Lemma exec_op_grants o k hw p k' hw' p' :
  exec_op o (k, hw, p) = Ret (k', hw', p') → grant_counter k' = grant_counter k.
Proof.
  intros E. apply exec_op_effect in E. destruct E; try done;
    [by destruct H|by destruct H|by eapply restarting_grants].
Qed.

Lemma exec_ops_grants os k hw p k' hw' p' :
  exec_ops os (k, hw, p) = Ret (k', hw', p') → grant_counter k' = grant_counter k.
Proof.
  revert k hw p. induction os as [|o os IH]; intros k hw p E; cbn [exec_ops] in E.
  { by injection E as <- <- <-. }
  apply outcome_bind_Ret in E as ([[k1 hw1] p1] & E1 & E).
  apply exec_op_grants in E1. apply IH in E. congruence.
Qed.

(** ** Identity: what survives until the process is restarted

    A restart gives the process a fresh identifier, which is how the kernel
    recognises stale references to it. *)

Definition ident p : Z := pid_identifier (process_id p).

(** One call: either the same process, whose high water mark only rises and
    whose kernel break only falls, or a restarted one with an identifier never
    used before. *)
Definition advances (k : Kernel) p (k' : Kernel) p' : Prop :=
  memory_start p' = memory_start p ∧ memory_len p' = memory_len p ∧
  process_identifier_max k ≤ process_identifier_max k' ∧
  ((process_id p' = process_id p ∧ allow_high_water_mark p ≤ allow_high_water_mark p' ∧
    kernel_memory_break p' ≤ kernel_memory_break p) ∨
   (process_identifier_max k ≤ ident p' < process_identifier_max k' ∧
    pid_index (process_id p') = pid_index (process_id p))).

Lemma same_layout_advances k p p' : same_layout p p' → advances k p k p'.
Proof.
  intros (E1 & E2 & E3 & E4 & E5 & E6 & E7). unfold advances. split_and!; [done|done|done|left].
  rewrite E3, E5, E7. done.
Qed.

Lemma advances_trans k p k1 p1 k2 p2 :
  ident p < process_identifier_max k →
  advances k p k1 p1 → advances k1 p1 k2 p2 →
  advances k p k2 p2 ∧ ident p1 < process_identifier_max k1.
Proof.
  unfold advances, ident. intros Hid (A1 & A2 & A3 & A4) (B1 & B2 & B3 & B4).
  assert (pid_identifier (process_id p1) < process_identifier_max k1).
  { destruct A4 as [(-> & _)|?]; lia. }
  split; [|done]. split_and!; [congruence|congruence|lia|].
  assert (pid_index (process_id p1) = pid_index (process_id p))
    by (destruct A4 as [(-> & _)|[_ ?]]; done).
  destruct B4 as [(E & ? & ?)|[? ?]]; [|right; split; [lia|congruence]]. rewrite E.
  destruct A4 as [(E' & ? & ?)|[? ?]]; [left|right; split; [lia|done]]. rewrite E'. split_and!; [done|lia|lia].
Qed.

Lemma reset_advances k p r k' p' :
  reset TASK_SIZE PROCESS_STRUCT_OFFSET k p = Ret (r, k', p') →
  memory_start p' = memory_start p ∧ memory_len p' = memory_len p ∧
  ident p' = process_identifier_max k ∧ process_identifier_max k' = process_identifier_max k + 1 ∧
  pid_index (process_id p') = pid_index (process_id p).
Proof.
  intros E. unfold reset in E. cbn [get_grant_count_and_finalize] in E.
  apply outcome_bind_Ret in E as ([id k1] & E1 & E).
  unfold create_process_identifier in E1. apply outcome_bind_Ret in E1 as (n & En & E1).
  apply uadd_Ret in En as [-> _]. injection E1 as <- <-.
  apply outcome_bind_Ret in E as (p1 & E2 & E).
  apply update_debug_layout in E2 as (M1 & M2 & _ & _ & _ & _ & M7). psimpl.
  rewrite <- M1, <- M2. unfold ident. 
  assert (Hid : pid_identifier (process_id p1) = process_identifier_max k) by (by rewrite M7).
  assert (Hix : pid_index (process_id p1) = pid_index (process_id p)) by (by rewrite M7).
  rewrite <- Hid, <- Hix. clear M1 M2 M7.
  repeat first
    [ apply outcome_bind_Ret in E as (? & _ & E)
    | case_match; simplify_eq/= | split_and!; cbn; first [done | lia] ].
Qed.

Definition restart_advances (f : Kernel → proc → outcome (Kernel * proc)) : Prop :=
  ∀ k p k' p', f k p = Ret (k', p') → advances k p k' p'.

Lemma try_restart_advances c : restart_advances (try_restart TASK_SIZE PROCESS_STRUCT_OFFSET c).
Proof.
  intros k p k' p'. unfold try_restart.
  case_match; [by intros [= <- <-]; apply same_layout_advances|].
  intros E. apply outcome_bind_Ret in E as ([[r k1] p1] & E1 & E).
  apply reset_advances in E1 as (M1 & M2 & M3 & M4 & M5).
  destruct (terminate_layout c p) as (N1 & N2 & _ & _ & _ & _ & N7).
  unfold advances. destruct r; injection E as <- <-; unfold ident in *; psimpl;
    (split_and!; [congruence|congruence|lia|right; split; [lia|by rewrite M5, N7]]).
Qed.

Lemma set_fault_state_advances : restart_advances (set_fault_state TASK_SIZE PROCESS_STRUCT_OFFSET).
Proof.
  intros k p k' p'. unfold set_fault_state.
  case_match; [by intros [= <- <-]; apply same_layout_advances|].
  destruct (FaultPolicy_action _ _); [done|by apply try_restart_advances|].
  intros [= <- <-]. apply same_layout_advances. etrans; [apply terminate_layout|done].
Qed.

Lemma set_syscall_return_value_advances r :
  restart_advances (set_syscall_return_value TASK_SIZE PROCESS_STRUCT_OFFSET r).
Proof.
  intros k p k' p'. unfold set_syscall_return_value.
  destruct (stored_state p); [|apply set_fault_state_advances].
  destruct (ukb_set_syscall_return_value _ _ _ _) as [[] st].
  - intros [= <- <-]. by apply same_layout_advances.
  - intros E. apply set_fault_state_advances in E. done.
Qed.

Lemma set_process_function_advances fc :
  restart_advances (set_process_function TASK_SIZE PROCESS_STRUCT_OFFSET fc).
Proof.
  intros k p k' p'. unfold set_process_function.
  destruct (stored_state p); [|apply set_fault_state_advances].
  destruct (ukb_set_process_function _ _ _ _) as [[] st].
  - intros [= <- <-]. by apply same_layout_advances.
  - intros E. apply set_fault_state_advances in E. done.
Qed.

Lemma brk_advances a hw p r hw' p' k : brk a hw p = Ret (r, hw', p') → advances k p k p'.
Proof.
  unfold brk. intros E. unfold advances.
  repeat first [ apply outcome_bind_Ret in E as (? & _ & E) | case_match; simplify_eq/= ];
    split_and!; try done; left; psimpl; split_and!; done || lia.
Qed.

Lemma allocate_internal_advances size align p r p' k :
  allocate_in_grant_region_internal size align p = Ret (r, p') → advances k p k p'.
Proof.
  unfold allocate_in_grant_region_internal.
  destruct (mpu_config p) as [c|]; [|by intros [= <- <-]; apply same_layout_advances].
  set (nb := Z.land _ _).
  destruct (Z.ltb_spec nb (app_break p)); [by intros [= <- <-]; apply same_layout_advances|].
  destruct (Z.ltb_spec (kernel_memory_break p) nb); [by intros [= <- <-]; apply same_layout_advances|].
  intros E. apply outcome_bind_Ret in E as ([u c'] & _ & E). unfold advances.
  destruct u; injection E as <- <-; psimpl; (split_and!; [done..|left]); split_and!; done || lia.
Qed.

Lemma raise_high_water_mark_advances a n p k : advances k p k (raise_high_water_mark a n p).
Proof.
  unfold advances, raise_high_water_mark. psimpl.
  split_and!; [done..|left]. split_and!; done || lia.
Qed.

Lemma restarting_advances f : restarting f → restart_advances f.
Proof.
  intros []; [apply set_fault_state_advances|apply try_restart_advances
             |apply set_syscall_return_value_advances|apply set_process_function_advances].
Qed.

Lemma advances_frame k p k1 p1 k' p' :
  same_counts k1 k' → same_layout p1 p' → advances k p k1 p1 → advances k p k' p'.
Proof.
  intros [K _] (S1 & S2 & S3 & S4 & S5 & S6 & S7). unfold advances, ident.
  by rewrite S1, S2, S3, S5, S7, K.
Qed.

Lemma advances_refl k p : advances k p k p.
Proof. by apply same_layout_advances. Qed.

Lemma exec_op_advances o k hw p k' hw' p' :
  exec_op o (k, hw, p) = Ret (k', hw', p') → advances k p k' p'.
Proof.
  intros E. apply exec_op_effect in E.
  destruct E as [k' p' HK S|c hw' c' _ _|c c' p' _ _ S|a r hw' p' E|a n _|size align r p1 k' p' HK E S|f k' p' Hf E].
  - eapply advances_frame; [done|done|apply advances_refl].
  - exact (advances_refl k p).
  - eapply advances_frame; [by split|exact S|exact (advances_refl k p)].
  - by eapply brk_advances.
  - apply raise_high_water_mark_advances.
  - eapply advances_frame; [done|done|by eapply allocate_internal_advances].
  - by eapply restarting_advances.
Qed.

Lemma exec_ops_advances os k hw p k' hw' p' :
  ident p < process_identifier_max k →
  exec_ops os (k, hw, p) = Ret (k', hw', p') → advances k p k' p'.
Proof.
  revert k hw p. induction os as [|o os IH]; intros k hw p Hid E; cbn [exec_ops] in E.
  { injection E as <- <- <-. by apply same_layout_advances. }
  apply outcome_bind_Ret in E as ([[k1 hw1] p1] & E1 & E).
  apply exec_op_advances in E1.
  assert (Hid1 : ident p1 < process_identifier_max k1).
  { destruct (advances_trans k p k1 p1 k1 p1 Hid E1 (same_layout_advances _ _ _ (reflexivity p1))). done. }
  apply IH in E; [|done]. by eapply advances_trans.
Qed.

End calls.
