(* ===== verification/ProcessIsolation.v ===== *)
(** * Isolation of kernel-owned process memory

    The upper part of a process block belongs to the kernel (grants, the task
    queue, the process structure).  Against the MPU interface of Mpu.v, every
    sequence of process calls keeps it out of reach of the process for as long
    as the process is not restarted. *)

From stdpp Require Import gmap.
From S2P Require Import Prelude Syscall Mpu RingBuffer Tbf ProcessData.
From S2P Require Import Process ProcessProofs.

Section isolation.
Context {Hw Config Stored : Type} `{!MPU Hw Config} `{!UserspaceKernelBoundary Stored}.
Context `{!MPULayout Hw Config} `{!MPUIsolation Hw Config} `{!UkbLaws Stored}.
Abbreviation proc := (Process Config Stored).
Implicit Type p : proc.
Context (TASK_SIZE PROCESS_STRUCT_OFFSET : Z).
Context (task_size_pos : 0 ≤ TASK_SIZE) (struct_size_pos : 0 ≤ PROCESS_STRUCT_OFFSET).

(** The configuration exposes everything below the app break (to the last whole
    unit of the hardware), nothing from the kernel break up and nothing below
    the block. *)
Definition isolates p (c : Config) : Prop :=
  mpu_app_block c (memory_start p) (memory_len p) ∧
  (∀ a, memory_start p ≤ a < app_break p - app_break p mod mpu_granule → mpu_user_access c a = true) ∧
  (∀ a, kernel_memory_break p ≤ a → mpu_user_access c a = false) ∧
  (∀ a, a < memory_start p → mpu_user_access c a = false).

Definition isolated p : Prop := ∃ c, mpu_config p = Some c ∧ isolates p c.

Lemma isolated_frame p p' : same_layout p p' → isolated p → isolated p'.
Proof.
  intros (E1 & E2 & E3 & E4 & E5 & E6 & E7) (c & Hc & I). exists c.
  unfold isolates in *. rewrite E1, E2, E4, E5, E6. done.
Qed.

(** Replacing the configuration by one with the same view. *)
Lemma isolates_view p c c' :
  isolates p c → mpu_app_block c' (memory_start p) (memory_len p) →
  (∀ a, mpu_user_access c' a = mpu_user_access c a) → isolates p c'.
Proof. intros (_ & I1 & I2 & I3) B V. split_and!; [done|..]; intros; rewrite V; auto. Qed.

Lemma brk_isolated a hw p r hw' p' :
  layout p → isolated p → brk a hw p = Ret (r, hw', p') → isolated p'.
Proof.
  intros L (c & Hc & I). unfold brk. rewrite Hc, (layout_mem_end _ L).
  assert (isolated p) by (by exists c).
  destruct (negb (is_running p)); [by intros [= <- <- <-]|].
  destruct (Z.ltb_spec a (allow_high_water_mark p)), (Z.leb_spec (memory_start p + memory_len p) a);
    try by intros [= <- <- <-].
  cbn [orb]. destruct (Z.ltb_spec (kernel_memory_break p) a); [by intros [= <- <- <-]|].
  intros E. apply outcome_bind_Ret in E as ([u c1] & E1 & E).
  destruct L as [(? & ? & ?) [? ?] ? ?].
  apply (isolation_update _ _ _ _ _ _ _ _ (proj1 I)) in E1; [|lia..].
  destruct u; [|subst; injection E as <- <- <-; by exists c].
  destruct (mpu_configure_mpu hw c1) as [hw2 c2] eqn:E2. injection E as <- <- <-.
  destruct E1 as (B & A1 & A2 & A3).
  destruct (isolation_configure _ _ _ _ _ _ E2 B) as [B2 V2].
  exists c2. split; [done|]. psimpl.
  apply (isolates_view _ c1); [|done|done]. by split_and!.
Qed.

Lemma allocate_internal_isolated size align p r p' :
  layout p → isolated p → allocate_in_grant_region_internal size align p = Ret (r, p') → isolated p'.
Proof.
  intros L (c & Hc & I). unfold allocate_in_grant_region_internal. rewrite Hc.
  assert (isolated p) by (by exists c). set (nb := Z.land _ _).
  destruct (Z.ltb_spec nb (app_break p)); [by intros [= <- <-]|].
  destruct (Z.ltb_spec (kernel_memory_break p) nb); [by intros [= <- <-]|].
  intros E. apply outcome_bind_Ret in E as ([u c1] & E1 & E).
  destruct L as [(? & ? & ?) [? ?] ? ?].
  apply (isolation_update _ _ _ _ _ _ _ _ (proj1 I)) in E1; [|lia..].
  destruct u; injection E as <- <-; [|subst; by exists c].
  exists c1. split; [done|]. destruct E1 as (B & A1 & A2 & A3). by split_and!.
Qed.

(** A call that may restart the process, and did not: nothing moved. *)
Definition restart_same (f : Kernel → proc → outcome (Kernel * proc)) : Prop :=
  ∀ k p k' p', ident p < process_identifier_max k →
    f k p = Ret (k', p') → process_id p' = process_id p → same_layout p p'.

Lemma try_restart_same c : restart_same (try_restart TASK_SIZE PROCESS_STRUCT_OFFSET c).
Proof.
  intros k p k' p' Hid E Hp. unfold try_restart in E.
  case_match; [by injection E as <- <-|].
  apply outcome_bind_Ret in E as ([[r k1] p1] & E1 & E).
  apply reset_advances in E1 as (_ & _ & M3 & _). unfold ident in *.
  exfalso. destruct r; injection E as <- <-; psimpl; rewrite Hp in M3; lia.
Qed.

Lemma set_fault_state_same : restart_same (set_fault_state TASK_SIZE PROCESS_STRUCT_OFFSET).
Proof.
  intros k p k' p' Hid E Hp. unfold set_fault_state in E.
  case_match; [by injection E as <- <-|].
  destruct (FaultPolicy_action _ _); [done|by eapply try_restart_same|].
  injection E as <- <-. etrans; [apply terminate_layout|done].
Qed.

Lemma set_syscall_return_value_same r :
  restart_same (set_syscall_return_value TASK_SIZE PROCESS_STRUCT_OFFSET r).
Proof.
  intros k p k' p' Hid E Hp. unfold set_syscall_return_value in E.
  destruct (stored_state p); [|by eapply set_fault_state_same].
  destruct (ukb_set_syscall_return_value _ _ _ _) as [[] st].
  - by injection E as <- <-.
  - exact (set_fault_state_same k (set_stored_state (Some st) p) _ _ Hid E Hp).
Qed.

Lemma set_process_function_same fc :
  restart_same (set_process_function TASK_SIZE PROCESS_STRUCT_OFFSET fc).
Proof.
  intros k p k' p' Hid E Hp. unfold set_process_function in E.
  destruct (stored_state p); [|by eapply set_fault_state_same].
  destruct (ukb_set_process_function _ _ _ _) as [[] st].
  - by injection E as <- <-.
  - exact (set_fault_state_same k (set_stored_state (Some st) p) _ _ Hid E Hp).
Qed.

Lemma restarting_same f : restarting TASK_SIZE PROCESS_STRUCT_OFFSET f → restart_same f.
Proof.
  intros []; [apply set_fault_state_same|apply try_restart_same
             |apply set_syscall_return_value_same|apply set_process_function_same].
Qed.

Lemma region_change_isolates p c c' : region_change c c' → isolates p c → isolates p c'.
Proof.
  intros H I.
  assert (mpu_app_block c' (memory_start p) (memory_len p) ∧ ∀ a, mpu_user_access c' a = mpu_user_access c a)
    as [B V].
  { destruct H as [(s & z & m & perm & r & E)|(r & u & E)];
      [exact (isolation_allocate_region _ _ _ _ _ _ _ _ _ E (proj1 I))
      |exact (isolation_remove_region _ _ _ _ _ _ E (proj1 I))]. }
  by apply (isolates_view p c).
Qed.

Lemma exec_op_isolated o k hw p k' hw' p' :
  ident p < process_identifier_max k → layout p → isolated p →
  exec_op TASK_SIZE PROCESS_STRUCT_OFFSET o (k, hw, p) = Ret (k', hw', p') →
  process_id p' = process_id p → isolated p'.
Proof.
  intros Hid L I E Hp. apply exec_op_effect in E.
  destruct E as [k' p' _ S|c hw' c' Hc E|c c' p' Hc E S|a r hw' p' E|a n _|size align r p1 k' p' _ E S|f k' p' Hf E].
  - by eapply isolated_frame.
  - destruct I as (c0 & Hc0 & I). rewrite Hc in Hc0. injection Hc0 as <-.
    destruct (isolation_configure _ _ _ _ _ _ E (proj1 I)) as [B V].
    exists c'. split; [done|]. by apply (isolates_view p c).
  - eapply isolated_frame; [exact S|]. destruct I as (c0 & Hc0 & I). rewrite Hc in Hc0. injection Hc0 as <-.
    exists c'. split; [done|]. exact (region_change_isolates p c c' E I).
  - by eapply brk_isolated.
  - by destruct I as (c & ? & ?); exists c.
  - eapply isolated_frame; [exact S|by eapply allocate_internal_isolated].
  - eapply isolated_frame; [|done]. by eapply restarting_same.
Qed.

(** Any sequence of calls after which the process still has its identifier. *)
Lemma exec_ops_isolated os k hw p k' hw' p' :
  ident p < process_identifier_max k → 0 ≤ grant_counter k → layout p → isolated p →
  exec_ops TASK_SIZE PROCESS_STRUCT_OFFSET os (k, hw, p) = Ret (k', hw', p') →
  process_id p' = process_id p → isolated p'.
Proof.
  revert k hw p. induction os as [|o os IH]; intros k hw p Hid Hg L I E Hp; cbn [exec_ops] in E.
  { by injection E as <- <- <-. }
  apply outcome_bind_Ret in E as ([[k1 hw1] p1] & E1 & E).
  pose proof (exec_op_advances _ _ _ _ _ _ _ _ _ E1) as A1.
  assert (Hid1 : ident p1 < process_identifier_max k1).
  { by eapply advances_trans with (k2 := k1) (p2 := p1), same_layout_advances. }
  pose proof (exec_ops_advances _ _ _ _ _ _ _ _ _ Hid1 E) as A2.
  assert (Hp1 : process_id p1 = process_id p).
  { destruct A1 as (_ & _ & _ & [(? & _)|?]); [done|].
    destruct A2 as (_ & _ & ? & [(E2 & _)|?]); [congruence|].
    unfold ident in *. rewrite Hp in *. lia. }
  destruct (exec_op_layout _ _ task_size_pos struct_size_pos _ _ _ _ _ _ _ L Hg E1) as [L1 Hg1].
  eapply IH; [exact Hid1|done|done| |exact E|congruence].
  exact (exec_op_isolated _ _ _ _ _ _ _ Hid L I E1 Hp1).
Qed.

End isolation.
