(* ===== verification/ProcessCreate.v ===== *)
(** * Process creation (kernel/src/process_standard.rs, [ProcessStandard::create])

    The loader hands [create] the flash of one application and the memory that
    is still free; [create] parses the header, reserves an MPU region for the
    flash, places the process block and lays out the kernel-owned structures
    at its top.  A slice is an address and a length ([MemSlice]) where only its
    extent matters, and carries its bytes where they are read ([Flash]). *)

From S2P Require Import Prelude Syscall Mpu RingBuffer Bytes Tbf ProcessData.
From S2P Require Import Process ProcessProofs.

Inductive ProcessLoadError : Type :=
| TbfHeaderNotFound
| TbfHeaderParseFailure (e : TbfParseError)
| LoadNotEnoughFlash
| LoadNotEnoughMemory
| MpuInvalidFlashLength
| MpuConfigurationError
| MemoryAddressMismatch (actual_address expected_address : Z)
| IncorrectFlashAddress (actual_address expected_address : Z)
| IncompatibleKernelVersion (version : option (Z * Z))
| CredentialsNoAccept
| CredentialsReject (index : Z)
| LoadInternalError.

Record MemSlice := mkMemSlice { ms_ptr : Z; ms_len : Z }.
Record Flash := mkFlash { fl_ptr : Z; fl_bytes : list Z }.

Definition fl_len (f : Flash) : Z := zlen (fl_bytes f).

(** [split_at_mut]. *)
Definition MemSlice_split_at (m : MemSlice) (mid : Z) : outcome (MemSlice * MemSlice) :=
  if mid <=? ms_len m then
    Ret (mkMemSlice (ms_ptr m) mid, mkMemSlice (ms_ptr m + mid) (ms_len m - mid))
  else Panic.

Definition KERNEL_MAJOR_VERSION : Z := 2.
Definition KERNEL_MINOR_VERSION : Z := 1.

(** What the header checks decide: an application to load, nothing to load, or
    an error. *)
Inductive HeaderDecision : Type :=
| LoadApp (h : TbfHeader) (footers : list Z)
| SkipApp
| RefuseApp (e : ProcessLoadError).

(** The kernel version test. *)
Definition kernel_version_check (require_kernel_version : bool) (h : TbfHeader) :
    option ProcessLoadError :=
  match get_kernel_version h with
  | Some (major, minor) =>
      if negb (KERNEL_MAJOR_VERSION =? major) || (KERNEL_MINOR_VERSION <? minor)
      then Some (IncompatibleKernelVersion (Some (major, minor))) else None
  | None =>
      if require_kernel_version then Some (IncompatibleKernelVersion None) else None
  end.

Definition check_header (app_flash : Flash) (header_length app_version : Z)
    (require_kernel_version : bool) : outcome HeaderDecision :=
  match get_range (fl_bytes app_flash) 0 header_length with
  | None => Ret (RefuseApp LoadNotEnoughFlash)
  | Some header_flash =>
      parsed_header ← parse_tbf_header header_flash app_version;
      match parsed_header with
      | Err err => Ret (RefuseApp (TbfHeaderParseFailure err))
      | Ok h =>
          if negb (is_app h) || negb (enabled h) then Ret SkipApp
          else match kernel_version_check require_kernel_version h with
          | Some e => Ret (RefuseApp e)
          | None =>
              match get_range (fl_bytes app_flash) (get_binary_end h) (fl_len app_flash) with
              | None => Ret (RefuseApp LoadNotEnoughFlash)
              | Some footer_region =>
                  match get_fixed_address_flash h with
                  | None => Ret (LoadApp h footer_region)
                  | Some expected_address =>
                      protected_size ← get_protected_size h;
                      actual_address ← uadd (fl_ptr app_flash) protected_size;
                      if negb (actual_address =? expected_address)
                      then Ret (RefuseApp (IncorrectFlashAddress actual_address expected_address))
                      else Ret (LoadApp h footer_region)
                  end
              end
          end
      end
  end.

(** The memory after skipping to a fixed start address. *)
Definition fixed_memory (h : TbfHeader) (remaining : MemSlice) :
    outcome (result MemSlice ProcessLoadError) :=
  match get_fixed_address_ram h with
  | None => Ret (Ok remaining)
  | Some fixed_memory_start =>
      if fixed_memory_start =? ms_ptr remaining then Ret (Ok remaining)
      else if ms_ptr remaining <? fixed_memory_start then
        let diff := fixed_memory_start - ms_ptr remaining in
        if ms_len remaining <? diff then
          e ← uadd (ms_ptr remaining) (ms_len remaining);
          actual_address ← usub e 1;
          Ret (Err (MemoryAddressMismatch actual_address fixed_memory_start))
        else Ret (Ok (mkMemSlice (ms_ptr remaining + diff) (ms_len remaining - diff)))
      else Ret (Err (MemoryAddressMismatch (ms_ptr remaining) fixed_memory_start))
  end.

Section create.
Context {Hw Config Stored : Type} `{!MPU Hw Config} `{!UserspaceKernelBoundary Stored}.
Abbreviation proc := (Process Config Stored).
Context (TASK_SIZE PROCESS_STRUCT_OFFSET : Z).

Definition create_result : Type :=
  result (option proc * MemSlice) (ProcessLoadError * MemSlice) * Kernel * Hw.

(** The three kernel-owned structures, downwards from the aligned end of the
    block: the grant pointers, the task queue and the process structure. *)
Definition kernel_structures (block_end grant_ptrs_offset : Z) : Z * Z * Z :=
  let kernel_memory_break := wrapping_sub block_end (block_end mod USIZE_SIZE) in
  let grant_pointers := wrapping_sub kernel_memory_break grant_ptrs_offset in
  let upcall_buf := wrapping_sub grant_pointers (CALLBACKS_OFFSET TASK_SIZE) in
  let process_struct := wrapping_sub upcall_buf PROCESS_STRUCT_OFFSET in
  (grant_pointers, upcall_buf, process_struct).

Definition initial_debug (h : TbfHeader) : ProcessStandardDebug :=
  mkDebug (get_fixed_address_flash h) (get_fixed_address_ram h) None None None 0 None 0 0.

(** [upcall_buf] is what the task queue's memory holds; [index] the slot in the
    process table. *)
Definition create (kernel : Kernel) (hw : Hw) (app_flash : Flash) (header_length app_version : Z)
    (remaining_memory : MemSlice) (policy : FaultPolicy) (require_kernel_version : bool)
    (index : Z) (upcall_buf : list Task) : outcome create_result :=
  decision ← check_header app_flash header_length app_version require_kernel_version;
  match decision with
  | RefuseApp e => Ret (Err (e, remaining_memory), kernel, hw)
  | SkipApp => Ret (Ok (None, remaining_memory), kernel, hw)
  | LoadApp tbf_header footer_region =>
      let process_ram_requested_size := get_minimum_app_ram_size tbf_header in
      let '(new_config, hw) := mpu_new_config hw in
      match new_config with
      | None => Ret (Err (MpuConfigurationError, remaining_memory), kernel, hw)
      | Some mpu_config =>
          '(flash_region, mpu_config) ←
            mpu_allocate_region (fl_ptr app_flash) (fl_len app_flash) (fl_len app_flash)
              ReadExecuteOnly mpu_config;
          match flash_region with
          | None => Ret (Err (MpuInvalidFlashLength, remaining_memory), kernel, hw)
          | Some _ =>
              let '(grant_ptrs_num, kernel) := get_grant_count_and_finalize kernel in
              grant_ptrs_offset ← umul grant_ptrs_num GRANT_PTR_SIZE;
              s ← uadd grant_ptrs_offset (CALLBACKS_OFFSET TASK_SIZE);
              s ← uadd s PROCESS_STRUCT_OFFSET;
              initial_kernel_memory_size ← uadd s USIZE_SIZE;
              let min_process_memory_size := initial_process_app_brk_size in
              let min_process_ram_size :=
                Z.max process_ram_requested_size min_process_memory_size in
              min_total_memory_size ← uadd min_process_ram_size initial_kernel_memory_size;
              fixed ← fixed_memory tbf_header remaining_memory;
              match fixed with
              | Err e => Ret (Err (e, remaining_memory), kernel, hw)
              | Ok remaining_memory =>
                  '(allocation, mpu_config) ←
                    mpu_allocate_app_memory_region (ms_ptr remaining_memory)
                      (ms_len remaining_memory) min_total_memory_size min_process_memory_size
                      initial_kernel_memory_size ReadWriteOnly mpu_config;
                  match allocation with
                  | None => Ret (Err (LoadNotEnoughMemory, remaining_memory), kernel, hw)
                  | Some (allocation_start, allocation_size) =>
                      app_memory_start_offset ← usub allocation_start (ms_ptr remaining_memory);
                      mismatch ←
                        match get_fixed_address_ram tbf_header with
                        | None => Ret None
                        | Some expected_address =>
                            actual_address ← uadd (ms_ptr remaining_memory) app_memory_start_offset;
                            Ret (if negb (actual_address =? expected_address)
                                 then Some (MemoryAddressMismatch actual_address expected_address)
                                 else None)
                        end;
                      match mismatch with
                      | Some e => Ret (Err (e, remaining_memory), kernel, hw)
                      | None =>
                          mid ← uadd app_memory_start_offset allocation_size;
                          '(allocated_padded_memory, unused_memory) ←
                            MemSlice_split_at remaining_memory mid;
                          '(_, allocated_memory) ←
                            MemSlice_split_at allocated_padded_memory app_memory_start_offset;
                          '(app_accessible_memory, allocated_kernel_memory) ←
                            MemSlice_split_at allocated_memory min_process_memory_size;
                          let initial_app_brk :=
                            wrapping_add (ms_ptr app_accessible_memory)
                              (ms_len app_accessible_memory) in
                          let initial_allow_high_water_mark := ms_ptr app_accessible_memory in
                          let block_end :=
                            wrapping_add (ms_ptr allocated_kernel_memory)
                              (ms_len allocated_kernel_memory) in
                          let '(_, _, process_struct_memory_location) :=
                            kernel_structures block_end grant_ptrs_offset in
                          '(unique_identifier, kernel) ← create_process_identifier kernel;
                          let '(initialized, stored) :=
                            ukb_initialize_process (ms_ptr app_accessible_memory)
                              initial_app_brk ukb_default in
                          let process :=
                            mkProcess (mkProcessId index unique_identifier) LocallyUnique
                              (ms_ptr allocated_memory) (ms_len allocated_memory)
                              (Some (replicate (Z.to_nat grant_ptrs_num) (mkGrantPointerEntry 0 0)))
                              process_struct_memory_location initial_app_brk
                              initial_allow_high_water_mark (fl_ptr app_flash) (fl_len app_flash)
                              footer_region tbf_header None (Some stored) CredentialsUnchecked
                              policy (Some mpu_config) (replicate 6 None)
                              (Some (RingBuffer_new upcall_buf)) 0 None
                              (default [] (get_package_name tbf_header))
                              (Some (initial_debug tbf_header)) in
                          match initialized with
                          | Err _ => Ret (Err (LoadInternalError, unused_memory), kernel, hw)
                          | Ok _ => Ret (Ok (Some process, unused_memory), kernel, hw)
                          end
                      end
                  end
              end
          end
      end
  end.

End create.

(** ** Theorems *)

Lemma MemSlice_split_at_Ret m mid a b :
  MemSlice_split_at m mid = Ret (a, b) →
  mid ≤ ms_len m ∧ a = mkMemSlice (ms_ptr m) mid ∧
  b = mkMemSlice (ms_ptr m + mid) (ms_len m - mid).
Proof. unfold MemSlice_split_at. split_tests; [|done]. by intros [= <- <-]. Qed.

(** A slice inside the address space. *)
Definition slice_ok (m : MemSlice) : Prop :=
  0 ≤ ms_ptr m ∧ 0 ≤ ms_len m ∧ ms_ptr m + ms_len m < usize_bound.

Lemma fixed_memory_Ok h m m' :
  slice_ok m → fixed_memory h m = Ret (Ok m') →
  slice_ok m' ∧ ms_ptr m ≤ ms_ptr m' ∧ ms_ptr m' + ms_len m' = ms_ptr m + ms_len m.
Proof.
  unfold slice_ok. intros Hm. unfold fixed_memory.
  destruct (get_fixed_address_ram h) as [a|]; [|by intros [= <-]].
  destruct (a =? ms_ptr m); [by intros [= <-]|].
  destruct (Z.ltb_spec (ms_ptr m) a); [|done].
  destruct (Z.ltb_spec (ms_len m) (a - ms_ptr m)).
  - intros E. apply outcome_bind_Ret in E as (? & _ & E). by apply outcome_bind_Ret in E as (? & _ & E).
  - intros [= <-]. cbn. lia.
Qed.

Section proofs.
Context {Hw Config Stored : Type} `{!MPU Hw Config} `{!UserspaceKernelBoundary Stored}.
Context `{!MPULayout Hw Config} `{!UkbLaws Stored}.
Abbreviation proc := (Process Config Stored).
Context (TASK_SIZE PROCESS_STRUCT_OFFSET : Z).
Context (task_size_pos : 0 ≤ TASK_SIZE) (struct_size_pos : 0 ≤ PROCESS_STRUCT_OFFSET).

(** Bytes of the structures the kernel keeps in the block. *)
Definition kernel_bytes (grants : Z) : Z :=
  grants * GRANT_PTR_SIZE + CALLBACKS_OFFSET TASK_SIZE + PROCESS_STRUCT_OFFSET.

Lemma kernel_bytes_nonneg g : 0 ≤ g → 0 ≤ kernel_bytes g.
Proof. unfold kernel_bytes, GRANT_PTR_SIZE, CALLBACKS_OFFSET, CALLBACK_LEN. lia. Qed.

Lemma kernel_structures_break block_end g :
  0 ≤ g → 0 ≤ block_end < usize_bound → kernel_bytes g + USIZE_SIZE ≤ block_end →
  (kernel_structures TASK_SIZE PROCESS_STRUCT_OFFSET block_end (g * GRANT_PTR_SIZE)).2
  = block_end - block_end mod USIZE_SIZE - kernel_bytes g.
Proof.
  intros Hg He Hk. unfold kernel_structures, kernel_bytes in *. cbn [snd].
  pose proof (Z.mod_pos_bound block_end USIZE_SIZE ltac:(done)).
  assert (0 ≤ CALLBACKS_OFFSET TASK_SIZE) by (unfold CALLBACKS_OFFSET, CALLBACK_LEN; lia).
  unfold wrapping_sub, wrap32, USIZE_SIZE, GRANT_PTR_SIZE in *.
  rewrite (Z.mod_small (block_end - block_end mod 4)) by lia.
  rewrite (Z.mod_small (block_end - block_end mod 4 - g * 8)) by lia.
  rewrite (Z.mod_small (block_end - block_end mod 4 - g * 8 - CALLBACKS_OFFSET TASK_SIZE)) by lia.
  rewrite Z.mod_small; lia.
Qed.

(** What a successful [create] establishes. *)
Record created (k : Kernel) (memory : MemSlice) (k' : Kernel) (p : proc) (rest : MemSlice) : Prop := {
  cr_layout : layout p;
  cr_state : state p = CredentialsUnchecked;
  cr_ident : ident p = process_identifier_max k ∧
             process_identifier_max k' = process_identifier_max k + 1;
  cr_grants : grant_counter k' = grant_counter k ∧
    grant_pointers p = Some (replicate (Z.to_nat (grant_counter k)) (mkGrantPointerEntry 0 0));
  cr_inside : ms_ptr memory ≤ memory_start p;
  cr_rest : ms_ptr rest = memory_start p + memory_len p ∧
            ms_ptr rest + ms_len rest = ms_ptr memory + ms_len memory ∧ 0 ≤ ms_len rest;
  cr_app : app_break p = memory_start p + initial_process_app_brk_size ∧
           allow_high_water_mark p = memory_start p;
  cr_kernel : kernel_memory_break p
    = memory_start p + memory_len p - (memory_start p + memory_len p) mod USIZE_SIZE
      - kernel_bytes (grant_counter k);
}.

Lemma create_Ok k hw fl hl av mem pol rkv index buf p rest k' hw' :
  slice_ok mem → 0 ≤ grant_counter k →
  create TASK_SIZE PROCESS_STRUCT_OFFSET k hw fl hl av mem pol rkv index buf
  = Ret (Ok (Some p, rest), k', hw') →
  created k mem k' p rest.
Proof.
  intros Hmem Hg E. unfold create in E.
  assert (Hb : 0 ≤ initial_process_app_brk_size) by apply ukb_brk_size.
  apply outcome_bind_Ret in E as (d & Ed & E). destruct d as [h ft| |]; [|done|done].
  destruct (mpu_new_config hw) as [[c|] hw1]; [|done].
  apply outcome_bind_Ret in E as ([[reg|] c1] & _ & E); [|done].
  cbn [get_grant_count_and_finalize] in E.
  apply outcome_bind_Ret in E as (g & Eg & E). apply umul_Ret in Eg as [-> _].
  apply outcome_bind_Ret in E as (s & Es & E). apply uadd_Ret in Es as [-> _].
  apply outcome_bind_Ret in E as (s & Es & E). apply uadd_Ret in Es as [-> _].
  apply outcome_bind_Ret in E as (ker & Ek & E). apply uadd_Ret in Ek as [-> Hk].
  fold (kernel_bytes (grant_counter k)) in *.
  pose proof (kernel_bytes_nonneg _ Hg) as Hkb. cbn zeta in E.
  apply outcome_bind_Ret in E as (tot & Et & E). apply uadd_Ret in Et as [-> Ht].
  apply outcome_bind_Ret in E as ([m|e] & Ef & E); [|done].
  apply fixed_memory_Ok in Ef as (Hm & Hm1 & Hm2); [|done].
  apply outcome_bind_Ret in E as ([[[st sz]|] c2] & Ea & E); [|done].
  unfold in_usize, slice_ok, USIZE_SIZE in *.
  apply layout_allocate_app in Ea as (A1 & A2 & A3 & A4); [|lia|unfold in_usize; lia|lia|lia].
  apply outcome_bind_Ret in E as (off & Eo & E). apply usub_Ret in Eo as [-> _].
  apply outcome_bind_Ret in E as ([e|] & _ & E); [done|].
  apply outcome_bind_Ret in E as (mid & Emid & E). apply uadd_Ret in Emid as [-> _].
  apply outcome_bind_Ret in E as ([pad un] & E1 & E).
  apply MemSlice_split_at_Ret in E1 as (S1 & -> & ->).
  apply outcome_bind_Ret in E as ([x al] & E2 & E).
  apply MemSlice_split_at_Ret in E2 as (S2 & -> & ->).
  apply outcome_bind_Ret in E as ([ap kn] & E3 & E).
  apply MemSlice_split_at_Ret in E3 as (S3 & -> & ->). cbn [ms_ptr ms_len] in *.
  replace (ms_ptr m + (st - ms_ptr m)) with st in * by lia.
  replace (st - ms_ptr m + sz - (st - ms_ptr m)) with sz in * by lia.
  set (brk0 := initial_process_app_brk_size) in *.
  assert (Ee : wrapping_add (st + brk0) (sz - brk0) = st + sz)
    by (unfold wrapping_add, wrap32; rewrite Z.mod_small; lia).
  assert (Ebr : wrapping_add st brk0 = st + brk0)
    by (unfold wrapping_add, wrap32; rewrite Z.mod_small; lia).
  rewrite Ee, Ebr in E. clear Ee Ebr.
  pose proof (kernel_structures_break (st + sz) (grant_counter k) Hg ltac:(lia)
                ltac:(unfold USIZE_SIZE; lia)) as Hks.
  destruct (kernel_structures _ _ (st + sz) _) as [[gp ub] ps]. cbn [snd] in Hks. subst ps.
  apply outcome_bind_Ret in E as ([id k2] & Eid & E).
  unfold create_process_identifier in Eid. apply outcome_bind_Ret in Eid as (n & En & Eid).
  apply uadd_Ret in En as [-> _]. injection Eid as <- <-.
  destruct (ukb_initialize_process _ _ _) as [[] ss]; [|done]. injection E as <- <- <- <-.
  pose proof (Z.mod_pos_bound (st + sz) USIZE_SIZE ltac:(done)). unfold USIZE_SIZE in *.
  split; psimpl; unfold ident; psimpl; cbn [pid_identifier ms_ptr ms_len
    process_identifier_max grant_counter]; split_and?; try done; try lia.
  split; psimpl; lia.
Qed.

(** A successful [reset] takes the whole block again: the MPU has to return at
    least [memory_len] bytes out of [memory_len]. *)
Lemma reset_Ok_breaks k (p : proc) k' p' :
  layout p → 0 ≤ grant_counter k →
  reset TASK_SIZE PROCESS_STRUCT_OFFSET k p = Ret (Ok tt, k', p') →
  app_break p' = memory_start p + initial_process_app_brk_size ∧
  allow_high_water_mark p' = memory_start p ∧
  kernel_memory_break p' = memory_start p + memory_len p - kernel_bytes (grant_counter k).
Proof.
  intros L Hg E. unfold reset in E.
  assert (Hb : 0 ≤ initial_process_app_brk_size) by apply ukb_brk_size.
  apply outcome_bind_Ret in E as ([id k1] & E1 & E).
  pose proof (create_process_identifier_grants _ _ _ E1) as Hg1.
  apply outcome_bind_Ret in E as (p1 & E2 & E).
  apply update_debug_layout in E2 as (M1 & M2 & M3 & M4 & M5 & M6 & M7). psimpl.
  destruct (mpu_config p1) as [c|]; [|done].
  apply outcome_bind_Ret in E as ([[fl|] c1] & _ & E); [|done].
  cbn [get_grant_count_and_finalize] in E. rewrite Hg1 in E.
  apply outcome_bind_Ret in E as (g & Eg & E). apply umul_Ret in Eg as [-> _].
  apply outcome_bind_Ret in E as (s & Es & E). apply uadd_Ret in Es as [-> _].
  apply outcome_bind_Ret in E as (ker & Ek & E). apply uadd_Ret in Ek as [-> _].
  fold (kernel_bytes (grant_counter k)) in E.
  pose proof (kernel_bytes_nonneg _ Hg).
  apply outcome_bind_Ret in E as ([[[st sz]|] c2] & Em & E); [|done].
  destruct L as [(? & ? & ?) _ _ _]. unfold mem_start in Em. psimpl. rewrite M1, M2 in *.
  apply layout_allocate_app in Em as (A1 & A2 & A3 & A4); [|lia|unfold in_usize; lia|lia|lia].
  assert (st = memory_start p) as -> by lia. assert (sz = memory_len p) as -> by lia.
  set (ker := kernel_bytes (grant_counter k)) in *.
  assert (Ea : wrapping_add (memory_start p) initial_process_app_brk_size
               = memory_start p + initial_process_app_brk_size)
    by (unfold wrapping_add, wrap32; rewrite Z.mod_small; lia).
  assert (Ek : wrapping_sub (wrapping_add (memory_start p) (memory_len p)) ker
               = memory_start p + memory_len p - ker)
    by (unfold wrapping_sub, wrapping_add, wrap32;
        rewrite (Z.mod_small (memory_start p + memory_len p)) by lia; rewrite Z.mod_small; lia).
  rewrite Ea, Ek in E.
  destruct (stored_state p1) as [ss|]; [|done].
  destruct (ukb_initialize_process _ _ _) as [[] ss']; [|done].
  apply outcome_bind_Ret in E as (n & _ & E). psimpl.
  destruct (state p1); try done; injection E as <- <-; done.
Qed.

(** The configuration of a created process is the one the MPU driver returned
    for the block, on top of a fresh configuration with the flash region. *)
Lemma create_config k hw fl hl av mem pol rkv index buf p rest k' hw' :
  slice_ok mem →
  create TASK_SIZE PROCESS_STRUCT_OFFSET k hw fl hl av mem pol rkv index buf
  = Ret (Ok (Some p, rest), k', hw') →
  let ker := kernel_bytes (grant_counter k) + USIZE_SIZE in
  let minm := Z.max (get_minimum_app_ram_size (header p)) initial_process_app_brk_size + ker in
  ∃ c0 hw1 flash c1 us uz c2,
    mpu_new_config hw = (Some c0, hw1) ∧
    mpu_allocate_region (fl_ptr fl) (fl_len fl) (fl_len fl) ReadExecuteOnly c0 = Ret (Some flash, c1) ∧
    ms_ptr mem ≤ us ∧ 0 ≤ uz ∧ us + uz = ms_ptr mem + ms_len mem ∧
    mpu_allocate_app_memory_region us uz minm initial_process_app_brk_size ker ReadWriteOnly c1
    = Ret (Some (memory_start p, memory_len p), c2) ∧ mpu_config p = Some c2.
Proof.
  intros Hmem E. unfold create in E.
  apply outcome_bind_Ret in E as (d & Ed & E). destruct d as [h ft| |]; [|done|done].
  destruct (mpu_new_config hw) as [[c|] hw1] eqn:Enew; [|done].
  apply outcome_bind_Ret in E as ([[reg|] c1] & Efl & E); [|done].
  cbn [get_grant_count_and_finalize] in E.
  apply outcome_bind_Ret in E as (g & Eg & E). apply umul_Ret in Eg as [-> _].
  do 2 (apply outcome_bind_Ret in E as (? & Es & E); apply uadd_Ret in Es as [-> _]).
  apply outcome_bind_Ret in E as (? & Ek & E). apply uadd_Ret in Ek as [-> _].
  fold (kernel_bytes (grant_counter k)) in *. cbn zeta in E.
  apply outcome_bind_Ret in E as (tot & Et & E). apply uadd_Ret in Et as [-> _].
  apply outcome_bind_Ret in E as ([m|e] & Ef & E); [|done].
  apply fixed_memory_Ok in Ef as (Hm & Hm1 & Hm2); [|done].
  apply outcome_bind_Ret in E as ([[[st sz]|] c2] & Ea & E); [|done].
  apply outcome_bind_Ret in E as (off & Eo & E). apply usub_Ret in Eo as [-> _].
  apply outcome_bind_Ret in E as ([e|] & _ & E); [done|].
  apply outcome_bind_Ret in E as (mid & Emid & E). apply uadd_Ret in Emid as [-> _].
  do 3 (apply outcome_bind_Ret in E as ([? ?] & E1 & E);
        apply MemSlice_split_at_Ret in E1 as (_ & -> & ->); cbn [ms_ptr ms_len] in * ).
  destruct (kernel_structures _ _) as [[gp ub] ps].
  apply outcome_bind_Ret in E as ([id k2] & _ & E).
  destruct (ukb_initialize_process _ _ _) as [[] ss]; [|done]. injection E as <- <- <- <-.
  psimpl. unfold slice_ok in Hm. exists c, hw1, reg, c1, (ms_ptr m), (ms_len m), c2.
  replace (ms_ptr m + (st - ms_ptr m)) with st by lia.
  replace (st - ms_ptr m + sz - (st - ms_ptr m)) with sz by lia.
  split_and!; (done || lia).
Qed.

(** Process creation: the block lies inside the memory offered and the
    memory left over starts right after it; the app part starts at the block,
    the kernel part is word-aligned down from its end, holds the grant
    pointers, the task queue and the process structure, and does not reach
    into the app part; the process starts unchecked, with no grant allocated,
    under an identifier no process had before. *)
Theorem create_establishes_layout k hw fl hl av mem pol rkv index buf (p : proc) rest k' hw' :
  slice_ok mem → 0 ≤ grant_counter k →
  create TASK_SIZE PROCESS_STRUCT_OFFSET k hw fl hl av mem pol rkv index buf
  = Ret (Ok (Some p, rest), k', hw') →
  created k mem k' p rest.
Proof. intros. by eapply create_Ok. Qed.

(** However long the process ran, restart puts the app break and the high water mark where [create] put
    them, but not the kernel break: [reset] leaves out the alignment padding of
    [create], so the break comes back higher by the block end modulo the word
    size, above the start of the process structure, and the next grant may be
    allocated over its first bytes. *)
Theorem restart_moves_kernel_break k hw fl hl av mem pol rkv index buf (p : proc) rest k1 hw1
    os k2 hw2 p2 k' p' :
  slice_ok mem → 0 ≤ grant_counter k →
  create TASK_SIZE PROCESS_STRUCT_OFFSET k hw fl hl av mem pol rkv index buf
  = Ret (Ok (Some p, rest), k1, hw1) →
  exec_ops TASK_SIZE PROCESS_STRUCT_OFFSET os (k1, hw1, p) = Ret (k2, hw2, p2) →
  reset TASK_SIZE PROCESS_STRUCT_OFFSET k2 p2 = Ret (Ok tt, k', p') →
  app_break p' = app_break p ∧ allow_high_water_mark p' = allow_high_water_mark p ∧
  kernel_memory_break p'
  = kernel_memory_break p + (memory_start p + memory_len p) mod USIZE_SIZE.
Proof.
  intros Hm Hg E1 E2 E3.
  apply create_Ok in E1 as [L _ [Hi Hi'] [Hg' _] _ _ [Ha Hh] Hk]; [|done|done].
  pose proof (exec_ops_grants _ _ _ _ _ _ _ _ _ E2) as Hg2.
  assert (Hid : ident p < process_identifier_max k1) by lia.
  pose proof (exec_ops_advances _ _ _ _ _ _ _ _ _ Hid E2) as (S1 & S2 & _).
  destruct (exec_ops_layout _ _ task_size_pos struct_size_pos _ _ _ _ _ _ _ L ltac:(rewrite Hg'; exact Hg) E2) as [L2 _].
  apply reset_Ok_breaks in E3 as (B1 & B2 & B3); [|done|lia].
  rewrite B1, B2, B3, Ha, Hh, Hk, Hg2, Hg', S1, S2. split_and!; [done|done|lia].
Qed.

End proofs.

(** ** A concrete environment

    A boundary implementation that keeps no state and accepts everything, a
    chip without an MPU, and a small application image whose block does not end
    on a word boundary. *)

Definition ex_boundary : UserspaceKernelBoundary unit := {|
  ukb_default := tt;
  initial_process_app_brk_size := 64;
  ukb_initialize_process _ _ s := (Ok tt, s);
  ukb_set_syscall_return_value _ _ s _ := (Ok tt, s);
  ukb_set_process_function _ _ s _ := (Ok tt, s);
  ukb_switch_to_process _ _ s := ((Interrupted, None), s);
|}.
#[local] Existing Instance ex_boundary.

Lemma ex_boundary_laws : UkbLaws unit.
Proof. unfold UkbLaws. cbn. lia. Qed.
#[local] Existing Instance ex_boundary_laws.

Definition ex_kernel : Kernel := mkKernel 7 2 true.

Definition ex_flash : Flash :=
  mkFlash 262144
    (encode_tbf_header 128 1 [EProgram (mkProgram 41 0 1001 100 3)] ++ replicate 88 0).

Definition ex_memory : MemSlice := mkMemSlice 536887296 65536.

Definition ex_task : Task :=
  TaskFunctionCall (mkFunctionCall SourceKernel 0 0 0 0 262185).

Definition ex_create : outcome (create_result (Hw := unit) (Config := unit) (Stored := unit)) :=
  create 32 400 ex_kernel tt ex_flash 40 2 ex_memory RestartFaultPolicy false 0
    (replicate 10 ex_task).

(** The process it creates. *)
Definition ex_process : Process unit unit :=
  match ex_create with
  | Ret (Ok (Some p, _), _, _) => p
  | _ => mkProcess (mkProcessId 0 0) LocallyUnique 0 0 None 0 0 0 0 0 []
           (TbfHeader_Padding (mkBase 2 16 16 0 0)) None None Faulted PanicFaultPolicy None [] None
           0 None [] None
  end.

Lemma create_establishes_layout_witness :
  ∃ rest k' hw', ex_create = Ret (Ok (Some ex_process, rest), k', hw') ∧
    created 32 400 ex_kernel ex_memory k' ex_process rest.
Proof.
  do 3 eexists. split; [vm_compute; reflexivity|].
  eapply (create_establishes_layout 32 400 _ _ ex_kernel tt ex_flash 40 2 ex_memory
            RestartFaultPolicy false 0 (replicate 10 ex_task));
    [vm_compute; split_and!; congruence|vm_compute; congruence|vm_compute; reflexivity].
  Unshelve. all: lia.
Defined.

(** The example process runs, faults and restarts: its kernel break moves up by
    one byte. *)
Lemma restart_moves_kernel_break_witness :
  ∃ k2 hw2 p2 k' p',
    exec_ops 32 400 [CallMarkPass None LocallyUnique; CallEnqueueInit; CallBrk 536887400]
      (mkKernel 8 2 true, tt, ex_process) = Ret (k2, hw2, p2) ∧
    reset 32 400 k2 p2 = Ret (Ok tt, k', p') ∧
    kernel_memory_break p' = kernel_memory_break ex_process + 1.
Proof.
  do 5 eexists. split; [vm_compute; reflexivity|]. split; [vm_compute; reflexivity|].
  refine (proj2 (proj2 (restart_moves_kernel_break 32 400 _ _ ex_kernel tt ex_flash 40 2 ex_memory
    RestartFaultPolicy false 0 (replicate 10 ex_task) ex_process _ _ _
    [CallMarkPass None LocallyUnique; CallEnqueueInit; CallBrk 536887400] _ _ _ _ _ _ _ _ _ _)));
    try (vm_compute; reflexivity); [lia|lia|vm_compute; split_and!; congruence|vm_compute; congruence].
Defined.
