(* ===== verification/ProcessTheorems.v ===== *)
(** * Processes: claims

    The properties of the process methods, stated for any sequence of calls,
    with concrete instances on a chip without an MPU. *)

From stdpp Require Import gmap.
From S2P Require Import Prelude Syscall Mpu RingBuffer Tbf ProcessData.
From S2P Require Import Process ProcessProofs ProcessCreate.

(** ** Bits of grant pointers *)

Lemma not32_mask b : 0 ≤ b ≤ 32 → not32 (2 ^ b - 1) = Z.shiftl (Z.ones (32 - b)) b.
Proof.
  intros. unfold not32. rewrite Z.shiftl_mul_pow2, Z.ones_equiv by lia.
  rewrite <- Z.sub_1_r, Z.mul_sub_distr_r, <- Z.pow_add_r by lia.
  replace (32 - b + b) with 32 by lia. lia.
Qed.

(** Masking rounds down to the alignment. *)
Lemma land_not_mask x b :
  0 ≤ b ≤ 32 → 0 ≤ x < usize_bound → Z.land x (not32 (2 ^ b - 1)) = x - x mod 2 ^ b.
Proof.
  intros Hb Hx. rewrite not32_mask by done.
  assert (E : x - x mod 2 ^ b = Z.shiftl (Z.shiftr x b) b).
  { rewrite Z.shiftl_mul_pow2, Z.shiftr_div_pow2 by lia.
    pose proof (Z.div_mod x (2 ^ b) ltac:(apply Z.pow_nonzero; lia)). lia. }
  rewrite E. apply Z.bits_inj'. intros n Hn.
  rewrite Z.land_spec, !Z.shiftl_spec by lia.
  destruct (Z.ltb_spec n b).
  - rewrite (Z.testbit_neg_r _ (n - b)) by lia.
    rewrite (Z.testbit_neg_r (Z.shiftr x b)) by lia. apply andb_false_r.
  - rewrite Z.shiftr_spec by lia. replace (n - b + b) with n by lia.
    destruct (Z.ltb_spec n 32).
    + rewrite Z.ones_spec_low by lia. apply andb_true_r.
    + rewrite Z.ones_spec_high by lia. rewrite andb_false_r.
      destruct (decide (x = 0)) as [->|]; [by rewrite Z.bits_0|].
      rewrite Z.bits_above_log2; [done|lia|].
      assert (Z.log2 x < 32) by (apply Z.log2_lt_pow2; lia). lia.
Qed.

Section claims.
Context {Hw Config Stored : Type} `{!MPU Hw Config} `{!UserspaceKernelBoundary Stored}.
Abbreviation proc := (Process Config Stored).
Implicit Type p : proc.
Context (TASK_SIZE PROCESS_STRUCT_OFFSET : Z).

(** The alignment actually used: at least two bytes. *)
Lemma max_align a : 0 ≤ a → Z.max (2 ^ a) 2 = 2 ^ Z.max a 1.
Proof.
  intros. destruct (decide (a = 0)) as [->|]; [done|].
  assert (2 ^ 1 ≤ 2 ^ a) by (apply Z.pow_le_mono_r; lia).
  rewrite !Z.max_l by lia. done.
Qed.

(** A grant is cut from the top of the free memory: aligned, below the old
    kernel break and above the app break. *)
Lemma allocate_internal_spec size a p ptr p' :
  layout p → 0 ≤ size ≤ isize_max → 0 ≤ a ≤ 31 →
  allocate_in_grant_region_internal size (2 ^ a) p = Ret (Some ptr, p') →
  ptr mod 2 ^ Z.max a 1 = 0 ∧ app_break p ≤ ptr ∧ ptr + size ≤ kernel_memory_break p ∧
  kernel_memory_break p' = ptr ∧ app_break p' = app_break p ∧
  memory_start p' = memory_start p ∧ memory_len p' = memory_len p ∧ process_id p' = process_id p ∧
  grant_pointers p' = grant_pointers p ∧ state p' = state p.
Proof.
  intros L Hs Ha. unfold allocate_in_grant_region_internal.
  destruct (mpu_config p) as [c|]; [|done].
  rewrite max_align by lia. set (b := Z.max a 1). assert (Hb : 1 ≤ b ≤ 31) by lia.
  destruct L as [(? & ? & ?) [? ?] ? ?].
  set (x := wrapping_sub (kernel_memory_break p) size).
  assert (Hx : 0 ≤ x < usize_bound) by (apply Z.mod_pos_bound; lia).
  rewrite land_not_mask by lia.
  assert (Hp : 0 < 2 ^ b ≤ 2 ^ 31) by (split; [lia|apply Z.pow_le_mono_r; lia]).
  pose proof (Z.mod_pos_bound x (2 ^ b) ltac:(lia)).
  assert (Hal : (x - x mod 2 ^ b) mod 2 ^ b = 0).
  { rewrite Zminus_mod_idemp_r, Z.sub_diag. done. }
  set (nb := x - x mod 2 ^ b) in *.
  destruct (Z.ltb_spec nb (app_break p)); [done|].
  destruct (Z.ltb_spec (kernel_memory_break p) nb); [done|].
  intros E. apply outcome_bind_Ret in E as ([[] c'] & _ & E); [|done].
  injection E as <- <-. psimpl. split_and!; try done.
  assert (Hv : x = kernel_memory_break p - size ∨ x = kernel_memory_break p - size + usize_bound).
  { unfold x, wrapping_sub, wrap32. destruct (decide (size ≤ kernel_memory_break p)).
    - left. apply Z.mod_small. lia.
    - right. symmetry. apply Z.mod_unique with (-1); lia. }
  unfold nb in *. lia.
Qed.

(** ** Custom grants *)

Lemma allocate_custom_grant_spec size a p id ptr p' :
  layout p → 0 ≤ size ≤ isize_max → 0 ≤ a ≤ 31 →
  allocate_custom_grant size (2 ^ a) p = Ret (Some (id, ptr), p') →
  ptr mod 2 ^ Z.max a 1 = 0 ∧ app_break p ≤ ptr ∧ ptr + size ≤ kernel_memory_break p ∧
  kernel_memory_break p' = ptr ∧ process_id p' = process_id p ∧
  memory_start p' = memory_start p ∧ memory_len p' = memory_len p ∧
  id = memory_start p + memory_len p - ptr.
Proof.
  intros L Hs Ha. unfold allocate_custom_grant. case_match; [done|].
  intros E. apply outcome_bind_Ret in E as ([[q|] p1] & E1 & E); [|done].
  pose proof (allocate_internal_layout _ _ _ _ _ L E1) as L1.
  apply allocate_internal_spec in E1 as (H1 & H2 & H3 & H4 & H5 & H6 & H7 & H8 & _); [|done..].
  apply outcome_bind_Ret in E as (i & Ei & E). injection E as <- <- <-.
  unfold create_custom_grant_identifier in Ei. apply usub_Ret in Ei as [-> _].
  rewrite (layout_mem_end _ L1), H6, H7. done.
Qed.

Section sequences.
Context `{!MPULayout Hw Config} `{!UkbLaws Stored}.
Context (task_size_pos : 0 ≤ TASK_SIZE) (struct_size_pos : 0 ≤ PROCESS_STRUCT_OFFSET).

(** Memory layout: along every sequence of process calls, restarts
    included, the block stays where it was placed and its parts stay in order:
    start, high water mark of shared buffers, app break, kernel break, end. *)
Theorem process_layout_invariant os k hw p k' hw' p' :
  layout p → 0 ≤ grant_counter k → ident p < process_identifier_max k →
  exec_ops TASK_SIZE PROCESS_STRUCT_OFFSET os (k, hw, p) = Ret (k', hw', p') →
  layout p' ∧ memory_start p' = memory_start p ∧ memory_len p' = memory_len p.
Proof.
  intros L Hg Hid E. split.
  - exact (proj1 (exec_ops_layout _ _ task_size_pos struct_size_pos _ _ _ _ _ _ _ L Hg E)).
  - apply exec_ops_advances in E as (? & ? & _); done.
Qed.

(** C9.  Shared buffers: a non-empty buffer accepted by [allow] lies in memory
    the process owns, and it still does after any calls the process or the
    kernel make (moving the break down included), until the process is
    restarted under a new identifier. *)
Theorem allowed_buffer_stays_owned a n buf k hw p p1 os k' hw' p' :
  layout p → 0 ≤ grant_counter k → ident p < process_identifier_max k →
  0 ≤ a < usize_bound → 0 < n < usize_bound →
  build_readwrite_process_buffer a n p = (Ok buf, p1) →
  exec_ops TASK_SIZE PROCESS_STRUCT_OFFSET os (k, hw, p1) = Ret (k', hw', p') →
  process_id p' = process_id p →
  memory_start p' ≤ a ∧ a + n ≤ app_break p' ∧ app_break p' ≤ kernel_memory_break p'.
Proof.
  intros L Hg Hid Ha Hn Eb E Hp. unfold build_readwrite_process_buffer in Eb.
  case_match; [done|]. destruct (Z.eqb_spec n 0); [lia|].
  destruct (in_app_owned_memory a n p) eqn:Eo; [|done]. injection Eb as <- <-.
  pose proof (raise_high_water_mark_layout _ _ _ L Eo) as L1.
  apply in_app_owned_memory_spec in Eo as [O1 O2]; [|done|lia|lia].
  assert (Hid1 : ident (raise_high_water_mark a n p) < process_identifier_max k) by done.
  pose proof (exec_ops_advances _ _ _ _ _ _ _ _ _ Hid1 E) as (S1 & S2 & _ & A).
  destruct (exec_ops_layout _ _ task_size_pos struct_size_pos _ _ _ _ _ _ _ L1 Hg E)
    as [[_ [L'1 L'2] L'3 _] _].
  unfold raise_high_water_mark in *. psimpl. destruct L as [(? & ? & ?) ? ? ?].
  assert (Ew : wrapping_add a n = a + n)
    by (unfold wrapping_add, wrap32; rewrite Z.mod_small; lia).
  destruct A as [(_ & A & _)|A]; [|unfold ident in *; rewrite Hp in A; lia].
  rewrite Ew in A. lia.
Qed.

(** Grants do not overlap: a custom grant is aligned as asked and lies
    between the app break and the old kernel break; whatever happens before the
    next allocation (short of a restart), the next grant ends below the first
    one, and the identifier of the first still leads to its address. *)
Theorem custom_grants_disjoint size1 a1 size2 a2 k hw p id1 ptr1 p1 os k' hw' p2 id2 ptr2 p3 :
  layout p → 0 ≤ grant_counter k → ident p < process_identifier_max k →
  0 ≤ size1 ≤ isize_max → 0 ≤ a1 ≤ 31 → 0 ≤ size2 ≤ isize_max → 0 ≤ a2 ≤ 31 →
  allocate_custom_grant size1 (2 ^ a1) p = Ret (Some (id1, ptr1), p1) →
  exec_ops TASK_SIZE PROCESS_STRUCT_OFFSET os (k, hw, p1) = Ret (k', hw', p2) →
  process_id p2 = process_id p →
  allocate_custom_grant size2 (2 ^ a2) p2 = Ret (Some (id2, ptr2), p3) →
  ptr1 mod 2 ^ a1 = 0 ∧ app_break p ≤ ptr1 ∧ ptr1 + size1 ≤ kernel_memory_break p ∧
  app_break p2 ≤ ptr2 ∧ ptr2 + size2 ≤ ptr1 ∧
  get_custom_grant_address id1 p3 = Ret ptr1 ∧ get_custom_grant_address id2 p3 = Ret ptr2.
Proof.
  intros L Hg Hid Hs1 Ha1 Hs2 Ha2 E1 E Hp E2.
  assert (L1 : layout p1).
  { eapply (exec_op_layout TASK_SIZE PROCESS_STRUCT_OFFSET task_size_pos struct_size_pos
             (CallAllocCustom size1 (2 ^ a1)) k hw p k hw p1 L Hg).
    cbn [exec_op]. by rewrite E1. }
  apply allocate_custom_grant_spec in E1 as (B1 & B2 & B3 & B4 & B5 & B6 & B7 & ->); [|done..].
  assert (Hid1 : ident p1 < process_identifier_max k) by (unfold ident in *; by rewrite B5).
  pose proof (exec_ops_advances _ _ _ _ _ _ _ _ _ Hid1 E) as (S1 & S2 & _ & A).
  destruct (exec_ops_layout _ _ task_size_pos struct_size_pos _ _ _ _ _ _ _ L1 Hg E) as [L2 Hg2].
  assert (L3 : layout p3).
  { eapply (exec_op_layout TASK_SIZE PROCESS_STRUCT_OFFSET task_size_pos struct_size_pos
             (CallAllocCustom size2 (2 ^ a2)) k' hw' p2 k' hw' p3 L2 Hg2).
    cbn [exec_op]. by rewrite E2. }
  apply allocate_custom_grant_spec in E2 as (C1 & C2 & C3 & C4 & C5 & C6 & C7 & ->); [|done..].
  destruct A as [(_ & _ & A)|A]; [|unfold ident in *; rewrite Hp in A; lia].
  unfold get_custom_grant_address. rewrite (layout_mem_end _ L3), C6, C7, S1, S2, B6, B7.
  destruct L as [? ? ? ?], L2 as [? ? ? ?].
  split_and!; try lia.
  - assert (Hd : (2 ^ a1 | 2 ^ Z.max a1 1)).
    { exists (2 ^ (Z.max a1 1 - a1)). rewrite <- Z.pow_add_r by lia. f_equal. lia. }
    apply Z.mod_divide; [lia|]. etrans; [exact Hd|]. apply Z.mod_divide; [lia|done].
  - rewrite usub_ok by lia. f_equal. lia.
  - rewrite usub_ok by lia. f_equal. lia.
Qed.

End sequences.

(** ** Life cycle *)

(** Calls that can make a process runnable: approving its credentials, and
    pushing a function call onto its stack, which the kernel does in
    [do_process] on behalf of a yielded process only. *)
Definition starts (o : proc_op) : bool :=
  match o with CallMarkPass _ _ | CallSetFunction _ => true | _ => false end.

Definition unapproved p : Prop :=
  state p = CredentialsUnchecked ∨ state p = CredentialsFailed.

Lemma unapproved_not_running p : unapproved p → is_running p = false.
Proof. unfold is_running. by intros [-> | ->]. Qed.

Lemma unapproved_fault k p :
  unapproved p → set_fault_state TASK_SIZE PROCESS_STRUCT_OFFSET k p = Ret (k, p).
Proof. unfold set_fault_state. by intros [-> | ->]. Qed.

Lemma update_debug_state f p p' : update_debug f p = Ret p' → state p' = state p.
Proof.
  unfold update_debug. destruct (debug p); [|by intros [= <-]].
  intros E. apply outcome_bind_Ret in E as (d & _ & [= <-]). done.
Qed.

(** A call that does not start the process leaves its state alone, or marks it
    failed. *)
Lemma exec_op_unapproved o k hw p k' hw' p' :
  unapproved p → starts o = false →
  exec_op TASK_SIZE PROCESS_STRUCT_OFFSET o (k, hw, p) = Ret (k', hw', p') →
  state p' = state p ∨ state p' = CredentialsFailed.
Proof.
  intros U Ho E. pose proof (unapproved_not_running p U) as R.
  assert (Hs : ∀ s, state p = s → s = CredentialsUnchecked ∨ s = CredentialsFailed)
    by (by intros s <-).
  destruct o; try done; cbn [exec_op] in E.
  all: try (unfold enqueue_task, sbrk, brk, build_readonly_process_buffer, allocate_grant,
              allocate_custom_grant in E; rewrite R in E; cbn in E; injection E as <- <- <-; by left).
  all: try (injection E as <- <- <-; unfold build_readwrite_process_buffer, enter_grant, leave_grant,
              switch_to; rewrite R; by left).
  - injection E as <- <- <-. by right.
  - unfold enqueue_init_task in E.
    destruct U as [U|U]; rewrite U in E; cbn in E; injection E as <- <- <-; by left.
  - apply outcome_bind_Ret in E as (p1 & E1 & E). injection E as <- <- <-. left.
    unfold remove_pending_upcalls in E1. destruct (tasks p); [|by injection E1 as <-].
    apply outcome_bind_Ret in E1 as (? & _ & E1). apply outcome_bind_Ret in E1 as ([] & _ & E1).
    by injection E1 as <-.
  - injection E as <- <- <-. left. unfold set_yielded_state.
    case_bool_decide; [destruct U; congruence|done].
  - injection E as <- <- <-. left. unfold stop. destruct U as [U|U]; by rewrite U.
  - injection E as <- <- <-. left. unfold resume. destruct U as [U|U]; by rewrite U.
  - rewrite unapproved_fault in E by done. injection E as <- <- <-. by left.
  - unfold try_restart in E. destruct U as [U|U]; rewrite U in E; cbn in E;
      injection E as <- <- <-; by left.
  - injection E as <- <- <-. left. unfold terminate. rewrite R.
    destruct U as [U|U]; by rewrite U.
  - apply outcome_bind_Ret in E as ([r p1] & E1 & E). injection E as <- <- <-. left.
    unfold dequeue_task in E1. destruct (tasks p); [|by injection E1 as <- <-].
    apply outcome_bind_Ret in E1 as ([] & _ & E1). by injection E1 as <- <-.
  - injection E as <- <- <-. left. unfold update_stack_start_pointer. by repeat case_match.
  - injection E as <- <- <-. left. unfold update_heap_start_pointer. by repeat case_match.
  - unfold setup_mpu in E. repeat case_match; simplify_eq/=; by left.
  - apply outcome_bind_Ret in E as ([r p1] & E1 & E). injection E as <- <- <-. left.
    unfold add_mpu_region in E1. destruct (mpu_config p); [|by injection E1 as <- <-].
    apply outcome_bind_Ret in E1 as ([] & _ & E1). by repeat case_match; injection E1 as <- <-.
  - injection E as <- <- <-. left. unfold remove_mpu_region. by repeat case_match; simplify_eq/=.
  - apply outcome_bind_Ret in E as ([k1 p1] & E1 & E). injection E as <- <- <-. left.
    unfold set_syscall_return_value in E1.
    destruct (stored_state p); [|by rewrite unapproved_fault in E1; [injection E1 as <- <-|]].
    destruct (ukb_set_syscall_return_value _ _ _ _) as [[] st]; [by injection E1 as <- <-|].
    rewrite unapproved_fault in E1 by done. by injection E1 as <- <-.
  - apply outcome_bind_Ret in E as (p1 & E1 & E). injection E as <- <- <-. left.
    by eapply update_debug_state.
  - apply outcome_bind_Ret in E as (p1 & E1 & E). injection E as <- <- <-. left.
    by eapply update_debug_state.
Qed.

(** C32.  Only approved processes run: starting from the unchecked or the failed
    state, no sequence of calls without an approval and without the kernel
    pushing a function makes the process running, and switching to it does
    nothing.  A process marked failed stays failed even if an approval arrives
    later. *)
Theorem unapproved_never_runs os k hw p k' hw' p' :
  unapproved p → Forall (λ o, starts o = false) os →
  exec_ops TASK_SIZE PROCESS_STRUCT_OFFSET os (k, hw, p) = Ret (k', hw', p') →
  unapproved p' ∧ is_running p' = false ∧ switch_to p' = (None, p') ∧
  (state p = CredentialsFailed → state p' = CredentialsFailed ∧
     ∀ c id, mark_credentials_pass c id p' = (Err NODEVICE, p')).
Proof.
  intros U Hos E.
  assert (H : unapproved p' ∧ (state p = CredentialsFailed → state p' = CredentialsFailed)).
  { revert k hw p U E. induction Hos as [|o os Ho Hos IH]; intros k hw p U E; cbn [exec_ops] in E.
    { by injection E as <- <- <-. }
    apply outcome_bind_Ret in E as ([[k1 hw1] p1] & E1 & E).
    apply exec_op_unapproved in E1; [|done|done].
    assert (U1 : unapproved p1) by (unfold unapproved in *; destruct E1 as [-> | ->]; [done|by right]).
    destruct (IH _ _ _ U1 E) as [U2 H2]. split; [done|]. intros Hf. apply H2.
    destruct E1; congruence. }
  destruct H as [U' Hf]. pose proof (unapproved_not_running _ U') as R.
  split_and!; [done|done|by unfold switch_to; rewrite R|].
  intros Hp. specialize (Hf Hp). split; [done|]. intros c id.
  unfold mark_credentials_pass. by rewrite Hf.
Qed.

(** Termination cleans up: a running, faulted or approved process ends in
    the terminated state with its completion code, no pending task, no grant
    found for any driver, and no further task accepted; any other process is
    left as it was. *)
Theorem terminate_cleans_up code p :
  if is_running p || bool_decide (state p = Faulted) || bool_decide (state p = CredentialsApproved)
  then let p' := terminate code p in
       state p' = Terminated ∧ completion_code p' = Some code ∧ has_tasks p' = false ∧
       (∀ drv, ∃ e, lookup_grant_from_driver_num drv p' = Err e) ∧
       (∀ t, enqueue_task t p' = Ret (Err NODEVICE, p')) ∧
       restart_count p' = restart_count p ∧ process_id p' = process_id p
  else terminate code p = p.
Proof.
  unfold terminate.
  destruct (is_running p || bool_decide (state p = Faulted)
            || bool_decide (state p = CredentialsApproved)) eqn:Ec.
  - assert (Ecf : negb (is_running p) && bool_decide (state p ≠ Faulted)
                  && bool_decide (state p ≠ CredentialsApproved) = false).
    { unfold is_running in *. by destruct (state p). }
    rewrite Ecf. cbn zeta. unfold grant_ptrs_reset.
    assert (Hlk : ∀ (gs : list GrantPointerEntry) drv,
      list_find (λ e, ge_grant_ptr e ≠ 0 ∧ ge_driver_num e = drv)
        ((λ _, mkGrantPointerEntry 0 0) <$> gs) = None).
    { intros gs drv. apply list_find_None, Forall_fmap, Forall_true. cbn. by intros _ [? _]. }
    destruct (tasks p) as [ts|] eqn:Et; psimpl; destruct (grant_pointers p) as [gs|] eqn:Eg; psimpl;
      unfold has_tasks, lookup_grant_from_driver_num; psimpl; rewrite ?Et, ?Eg;
      (split_and!; [done|done|try done|intros drv; try rewrite Hlk; by eexists|done|done|done]).
  - assert (Ecf : negb (is_running p) && bool_decide (state p ≠ Faulted)
                  && bool_decide (state p ≠ CredentialsApproved) = true).
    { unfold is_running in *. by destruct (state p). }
    by rewrite Ecf.
Qed.

(** ** Tasks *)

Lemma filter_state_pure {T} (f : T → bool) xs :
  filter_state (λ x (_ : unit), (f x, tt)) tt xs = (tt, filter (λ x, f x = true) xs).
Proof.
  induction xs as [|x xs IH]; [done|]. cbn [filter_state]. rewrite IH.
  rewrite filter_cons. by destruct (f x).
Qed.

(** Queued upcalls: a task is queued at the end unless the process is not
    running or its nine places are taken, and in both cases nothing else
    changes but the count of dropped upcalls; unsubscribing removes exactly the
    queued calls of that upcall and keeps the order of the rest. *)
Theorem upcall_queue_fifo p ts xs :
  tasks p = Some ts → repr ts xs → zlength (ring ts) = CALLBACK_LEN → is_running p = true →
  (∀ t, if zlength xs =? 9
        then ∀ d, debug p = Some d → dropped_upcall_count d + 1 < usize_bound →
             ∃ p', enqueue_task t p = Ret (Err NOMEM, p') ∧ tasks p' = Some ts
        else ∃ ts', enqueue_task t p = Ret (Ok tt, set_tasks (Some ts') p) ∧ repr ts' (xs ++ [t])) ∧
  (∀ u, ∃ ts', remove_pending_upcalls u p = Ret (set_tasks (Some ts') p) ∧
     repr ts' (filter (λ t, keep_task u t = true) xs) ∧
     ∀ fc, fc_source fc = SourceDriver u →
       TaskFunctionCall fc ∉ filter (λ t, keep_task u t = true) xs).
Proof.
  intros Et R Hn Hr. split.
  - intros t. pose proof (enqueue_simulates ts xs t R) as S. rewrite Hn in S.
    unfold enqueue_task. rewrite Hr, Et. cbn [negb].
    assert (Hc : (zlength xs + 1 =? CALLBACK_LEN) = (zlength xs =? 9)).
    { unfold CALLBACK_LEN. destruct (Z.eqb_spec (zlength xs + 1) 10), (Z.eqb_spec (zlength xs) 9); lia || done. }
    rewrite Hc in S. destruct (zlength xs =? 9).
    + intros d Hd Hov. rewrite S. cbn [mbind outcome_bind result_is_err].
      unfold update_debug, count_dropped_upcall. psimpl. rewrite Hd, uadd_ok by done.
      cbn [mbind outcome_bind]. by eexists.
    + destruct S as (ts' & -> & R' & _). cbn. by exists ts'.
  - intros u. unfold remove_pending_upcalls. rewrite Et, (RingBuffer_len_repr _ _ R).
    cbn [mbind outcome_bind].
    destruct (retain_simulates (λ task (_ : unit), (keep_task u task, tt)) ts xs tt R)
      as (ts' & -> & R' & _).
    rewrite filter_state_pure in *. cbn [fst snd] in *. exists ts'. split_and!; [done|done|].
    intros fc Hs Hin. apply list_elem_of_filter in Hin as [Hk _]. cbn in Hk. rewrite Hs in Hk.
    by rewrite bool_decide_true in Hk.
Qed.

(** ** Entering grants *)

Lemma set_grant_pointers_id gs p : grant_pointers p = Some gs → set_grant_pointers (Some gs) p = p.
Proof. destruct p. cbn. by intros ->. Qed.

Lemma land_1_mod x : Z.land x 1 = x mod 2.
Proof. change 1 with (Z.ones 1). by rewrite Z.land_ones. Qed.

Lemma lor_1_even x : x mod 2 = 0 → Z.lor x 1 = x + 1.
Proof. intros Hx. rewrite <- Z.add_nocarry_lor; [done|]. by rewrite land_1_mod. Qed.

(** On an allocated, free grant. *)
Lemma enter_leave_spec n gs e p :
  is_running p = true → grant_pointers p = Some gs → gs !! Z.to_nat n = Some e →
  0 ≤ ge_grant_ptr e < usize_bound → ge_grant_ptr e mod 2 = 0 →
  ∃ p1, enter_grant n p = (Ok (ge_grant_ptr e), p1) ∧
    enter_grant n p1 = (Err AlreadyInUse, p1) ∧ leave_grant n p1 = p.
Proof.
  intros Hr Hg He Hp Hev. destruct e as [d x]. cbn in Hp, Hev.
  assert (Hodd : Z.land x 1 = 0) by (by rewrite land_1_mod).
  assert (Hx1 : (x + 1) mod 2 = 1) by (rewrite <- Zplus_mod_idemp_l, Hev; done).
  unfold enter_grant at 1. rewrite Hr, Hg, He. cbn [negb ge_grant_ptr ge_driver_num].
  rewrite Hodd. cbn [Z.eqb]. rewrite lor_1_even by done.
  set (gs1 := <[Z.to_nat n := mkGrantPointerEntry d (x + 1)]> gs).
  assert (He1 : gs1 !! Z.to_nat n = Some (mkGrantPointerEntry d (x + 1)))
    by (apply list_lookup_insert_eq; by eapply lookup_lt_Some).
  eexists. split; [done|]. split.
  - unfold enter_grant. change (is_running (set_grant_pointers (Some gs1) p)) with (is_running p).
    rewrite Hr. psimpl. rewrite He1. cbn [negb ge_grant_ptr].
    by rewrite land_1_mod, Hx1.
  - unfold leave_grant. change (is_running (set_grant_pointers (Some gs1) p)) with (is_running p).
    rewrite Hr. psimpl. rewrite He1. cbn [negb ge_grant_ptr ge_driver_num].
    pose proof (land_not_mask (x + 1) 1 ltac:(lia)) as Hm. change (2 ^ 1 - 1) with 1 in Hm.
    change (2 ^ 1) with 2 in Hm.
    assert (x + 1 < usize_bound).
    { destruct (decide (x = usize_bound - 1)) as [->|]; [done|lia]. }
    rewrite Hm, Hx1 by lia. replace (x + 1 - 1) with x by lia.
    unfold gs1. rewrite list_insert_insert_eq, list_insert_id by done.
    etrans; [|exact (set_grant_pointers_id gs p Hg)]. done.
Qed.

(** Entering a grant is exclusive: on an allocated, free grant [enter_grant]
    returns its address and every further attempt fails with [AlreadyInUse]
    until [leave_grant], which restores the process exactly. *)
Theorem enter_leave_grant n gs e p :
  is_running p = true → grant_pointers p = Some gs → gs !! Z.to_nat n = Some e →
  0 ≤ ge_grant_ptr e < usize_bound → ge_grant_ptr e mod 2 = 0 →
  ∃ p1, enter_grant n p = (Ok (ge_grant_ptr e), p1) ∧
    enter_grant n p1 = (Err AlreadyInUse, p1) ∧ leave_grant n p1 = p.
Proof. apply enter_leave_spec. Qed.

(** A grant that was never allocated can be entered: the null pointer has
    its low bit clear, so [enter_grant] answers [Ok] with the null address
    (where the trait promises an error) and records the pointer 1, after which
    the grant counts as allocated. *)
Theorem enter_grant_unallocated n gs d p :
  is_running p = true → grant_pointers p = Some gs →
  gs !! Z.to_nat n = Some (mkGrantPointerEntry d 0) →
  grant_is_allocated n p = Some false ∧
  ∃ p1, enter_grant n p = (Ok 0, p1) ∧ grant_is_allocated n p1 = Some true ∧
        lookup_grant_from_driver_num d p1 ≠ Err OutOfMemory.
Proof.
  intros Hr Hg He. unfold grant_is_allocated, enter_grant. rewrite Hr, Hg, He.
  cbn [negb ge_grant_ptr ge_driver_num]. split; [done|]. eexists. split; [done|].
  psimpl. change (is_running (set_grant_pointers _ p)) with (is_running p). rewrite Hr.
  assert (He1 : <[Z.to_nat n := mkGrantPointerEntry d (Z.lor 0 1)]> gs !! Z.to_nat n
                = Some (mkGrantPointerEntry d 1))
    by (apply list_lookup_insert_eq; by eapply lookup_lt_Some).
  rewrite He1. split; [done|]. unfold lookup_grant_from_driver_num. psimpl.
  destruct (list_find _ _) as [[i x]|] eqn:E; [done|].
  apply list_find_None in E. eapply Forall_lookup_1 in E; [|exact He1]. by destruct E.
Qed.

(** What a successful allocation did. *)
Lemma allocate_grant_spec n drv size align k p k' p' :
  allocate_grant n drv size align k p = Ret (true, k', p') →
  is_running p = true ∧ n < grant_counter k ∧ k' = (get_grant_count_and_finalize k).2 ∧
  ∃ ptr p1 gs, allocate_in_grant_region_internal size align p = Ret (Some ptr, p1) ∧
    grant_pointers p1 = Some gs ∧ is_Some (gs !! Z.to_nat n) ∧
    (grant_pointers p1 = grant_pointers p → driver_has_grant drv gs = false) ∧
    p' = set_grant_pointers (Some (<[Z.to_nat n := mkGrantPointerEntry drv ptr]> gs)) p1.
Proof.
  unfold allocate_grant. destruct (is_running p) eqn:Hr; cbn [negb]; [|done].
  cbn [get_grant_count_and_finalize]. destruct (Z.leb_spec (grant_counter k) n); [done|].
  destruct (default false (grant_is_allocated n p)); [done|].
  destruct (match grant_pointers p with None => false | Some gs => driver_has_grant drv gs end)
    eqn:Eex; [done|].
  intros E. apply outcome_bind_Ret in E as ([[ptr|] p1] & E1 & E); [|done].
  destruct (grant_pointers p1) as [gs|] eqn:Eg; [|done].
  destruct (gs !! Z.to_nat n) as [e|] eqn:Ee; [|done]. injection E as <- <-.
  split_and!; [done|lia|done|]. exists ptr, p1, gs. split_and!; [done..|by eexists| |done].
  intros Hs. rewrite <- Hs, Eg in Eex. exact Eex.
Qed.

Lemma driver_has_grant_false drv gs j x :
  driver_has_grant drv gs = false → gs !! j = Some x → ge_grant_ptr x ≠ 0 → ge_driver_num x ≠ drv.
Proof.
  intros H Hj Hx0 Hxd. apply not_true_iff_false in H. apply H, existsb_exists. exists x.
  split; [apply list_elem_of_In; by eapply list_elem_of_lookup_2|].
  destruct (Z.eqb_spec (ge_grant_ptr x) 0), (Z.eqb_spec (ge_driver_num x) drv); done.
Qed.

Lemma driver_has_grant_true drv gs j x :
  gs !! j = Some x → ge_grant_ptr x ≠ 0 → ge_driver_num x = drv → driver_has_grant drv gs = true.
Proof.
  intros Hj Hx0 Hxd. apply existsb_exists. exists x.
  split; [apply list_elem_of_In; by eapply list_elem_of_lookup_2|].
  rewrite Hxd, Z.eqb_refl. by destruct (Z.eqb_spec (ge_grant_ptr x) 0).
Qed.

(** A new entry for a driver without a grant is the one found. *)
Lemma lookup_new_grant drv ptr gs n p :
  grant_pointers p = Some (<[Z.to_nat n := mkGrantPointerEntry drv ptr]> gs) → ptr ≠ 0 → 0 ≤ n →
  is_Some (gs !! Z.to_nat n) → driver_has_grant drv gs = false →
  lookup_grant_from_driver_num drv p = Ok n.
Proof.
  intros Hg Hp Hn [e He] Hd. unfold lookup_grant_from_driver_num. rewrite Hg.
  replace (list_find _ _) with (Some (Z.to_nat n, mkGrantPointerEntry drv ptr));
    [f_equal; lia|]. symmetry. apply list_find_Some.
  split; [by eapply list_lookup_insert_eq, lookup_lt_Some|]. split; [done|].
  intros j y Hj Hlt [Hy0 Hyd]. rewrite list_lookup_insert_ne in Hj by lia.
  by eapply driver_has_grant_false.
Qed.

Lemma even_of_aligned ptr a : 1 ≤ a → ptr mod 2 ^ a = 0 → ptr mod 2 = 0.
Proof.
  intros Ha H. apply Z.mod_divide; [lia|].
  apply (Z.divide_trans _ (2 ^ a)); [|apply Z.mod_divide; [lia|done]].
  exists (2 ^ (a - 1)). rewrite <- (Z.pow_1_r 2) at 3. rewrite <- Z.pow_add_r by lia. f_equal. lia.
Qed.

(** A grant entry and the state after allocating it. *)
Lemma allocate_grant_entry n drv size a k p k' p' :
  layout p → 0 < memory_start p → 0 ≤ n → 0 ≤ size ≤ isize_max → 0 ≤ a ≤ 31 →
  allocate_grant n drv size (2 ^ a) k p = Ret (true, k', p') →
  is_running p' = true ∧ k' = (get_grant_count_and_finalize k).2 ∧
  lookup_grant_from_driver_num drv p' = Ok n ∧
  ∃ ptr gs, grant_pointers p' = Some gs ∧ gs !! Z.to_nat n = Some (mkGrantPointerEntry drv ptr) ∧
    ptr ≠ 0 ∧ ptr mod 2 ^ Z.max a 1 = 0 ∧ app_break p ≤ ptr ∧ ptr + size ≤ kernel_memory_break p ∧
    kernel_memory_break p' = ptr.
Proof.
  intros L Hms Hn Hs Ha E.
  apply allocate_grant_spec in E as (Hr & _ & Hk' & ptr & p1 & gs & E1 & Hg & Hsome & Hd & ->).
  apply allocate_internal_spec in E1 as (H1 & H2 & H3 & H4 & _ & _ & _ & _ & H9 & H10); [|done..].
  assert (Hp0 : ptr ≠ 0) by (destruct L as [? [? ?] ? ?]; lia).
  split; [unfold is_running in *; psimpl; by rewrite H10|].
  split; [done|]. split; [by eapply lookup_new_grant; eauto|].
  exists ptr, (<[Z.to_nat n := mkGrantPointerEntry drv ptr]> gs).
  destruct Hsome as [e He]. split_and!; try done.
  by eapply list_lookup_insert_eq, lookup_lt_Some.
Qed.

(** Allocating a grant registers it: on success the driver's grant is found
    at exactly that number, at an aligned address inside the kernel part of the
    block, and a second allocation for the driver or for the number is
    refused without touching the process. *)
Theorem allocate_grant_registers n drv size a k p k' p' :
  layout p → 0 < memory_start p → 0 ≤ n → 0 ≤ size ≤ isize_max → 0 ≤ a ≤ 31 →
  allocate_grant n drv size (2 ^ a) k p = Ret (true, k', p') →
  lookup_grant_from_driver_num drv p' = Ok n ∧
  (∃ ptr, enter_grant n p' = (Ok ptr, set_grant_pointers (grant_pointers (enter_grant n p').2) p') ∧
     ptr mod 2 ^ Z.max a 1 = 0 ∧ app_break p ≤ ptr ∧ ptr + size ≤ kernel_memory_break p ∧
     kernel_memory_break p' = ptr) ∧
  (∀ size' a' n', allocate_grant n' drv size' a' k' p' = Ret (false, k', p')) ∧
  (∀ size' a' drv', allocate_grant n drv' size' a' k' p' = Ret (false, k', p')).
Proof.
  intros L Hms Hn Hs Ha E.
  apply allocate_grant_entry in E as (Hr & -> & Hl & ptr & gs & Hg & He & Hp0 & Hal & Hlo & Hhi & Hk); [|done..].
  split_and!; [done| | |].
  - exists ptr. unfold enter_grant. rewrite Hr, Hg, He. cbn [negb ge_grant_ptr ge_driver_num].
    rewrite land_1_mod, (even_of_aligned ptr (Z.max a 1)) by (done || lia).
    cbn [Z.eqb snd]. split_and!; done.
  - intros size' a' n'. unfold allocate_grant. rewrite Hr, Hg. cbn [negb get_grant_count_and_finalize].
    rewrite (driver_has_grant_true drv gs (Z.to_nat n) _ He) by done. by repeat case_match.
  - intros size' a' drv'. unfold allocate_grant. rewrite Hr. cbn [negb get_grant_count_and_finalize].
    destruct (_ <=? n); [done|]. unfold grant_is_allocated. rewrite Hr, Hg, He.
    cbn [negb ge_grant_ptr from_option id]. by destruct (Z.eqb_spec ptr 0).
Qed.

End claims.

(** ** Concrete instances

    The process of ProcessCreate.v, approved and with its first task queued. *)

#[local] Existing Instance ex_boundary.
#[local] Existing Instance ex_boundary_laws.

Definition ex_start_ops : list proc_op := [CallMarkPass None LocallyUnique; CallEnqueueInit].
Definition ex_kernel1 : Kernel := mkKernel 8 2 true.

Definition ex_running : Process unit unit :=
  match exec_ops 32 400 ex_start_ops (ex_kernel1, tt, ex_process) with
  | Ret (_, _, p) => p
  | Panic => ex_process
  end.

Lemma ex_process_layout : layout ex_process.
Proof. split; vm_compute; split_and?; congruence. Qed.
Lemma ex_running_layout : layout ex_running.
Proof. split; vm_compute; split_and?; congruence. Qed.

(** The example process starts, shares a buffer, moves its break, faults and is
    restarted. *)
Definition ex_ops : list proc_op :=
  ex_start_ops ++ [CallBuildRW 536887300 40; CallBrk 536887500; CallAllocGrant 1 5 48 8;
                   CallSetFault; CallEnqueueInit].

Lemma process_layout_invariant_witness :
  ∃ k' p', exec_ops 32 400 ex_ops (ex_kernel1, tt, ex_process) = Ret (k', tt, p') ∧
    restart_count p' = 1 ∧ layout p' ∧ memory_start p' = 536887296 ∧ memory_len p' = 1741.
Proof.
  do 2 eexists. split; [vm_compute; reflexivity|]. split; [reflexivity|].
  eapply (process_layout_invariant 32 400 ltac:(lia) ltac:(lia) ex_ops ex_kernel1 tt ex_process _ tt);
    [exact ex_process_layout|vm_compute; congruence|vm_compute; reflexivity|vm_compute; reflexivity].
Defined.

(** A buffer of 40 bytes survives an attempt to move the break below it. *)
Lemma allowed_buffer_stays_owned_witness :
  ∃ buf p1 k' p', build_readwrite_process_buffer 536887300 40 ex_running = (Ok buf, p1) ∧
    exec_ops 32 400 [CallBrk 536887310; CallBrk 536887344; CallAllocGrant 0 9 64 16]
      (ex_kernel1, tt, p1) = Ret (k', tt, p') ∧
    app_break p' = 536887344 ∧ 536887300 + 40 ≤ app_break p'.
Proof.
  do 4 eexists. split; [vm_compute; reflexivity|]. split; [vm_compute; reflexivity|].
  split; [reflexivity|].
  refine (proj1 (proj2 (allowed_buffer_stays_owned 32 400 ltac:(lia) ltac:(lia) 536887300 40 _
    ex_kernel1 tt ex_running _ [CallBrk 536887310; CallBrk 536887344; CallAllocGrant 0 9 64 16] _ tt _
    ex_running_layout _ _ _ _ _ _ _)));
    try (vm_compute; reflexivity); try lia; vm_compute; congruence.
Defined.

(** The process inside an outcome, or [d]. *)
Definition proc_of {A} (d : Process unit unit) (o : outcome (A * Process unit unit)) :
    Process unit unit :=
  match o with Ret (_, p) => p | Panic => d end.

Definition ex_p1 := proc_of ex_running (allocate_custom_grant 30 (2 ^ 4) ex_running).
Definition ex_ops2 : list proc_op := [CallBrk 536887400; CallEnterGrant 0].
Definition ex_p2 := proc_of ex_running (exec_ops 32 400 ex_ops2 (ex_kernel1, tt, ex_p1)).
Definition ex_p3 := proc_of ex_running (allocate_custom_grant 17 (2 ^ 2) ex_p2).

Lemma custom_grants_disjoint_witness :
  allocate_custom_grant 30 (2 ^ 4) ex_running = Ret (Some (781, 536888256), ex_p1) ∧
  allocate_custom_grant 17 (2 ^ 2) ex_p2 = Ret (Some (801, 536888236), ex_p3) ∧
  536888256 mod 2 ^ 4 = 0 ∧ 536888236 + 17 ≤ 536888256 ∧
  get_custom_grant_address 781 ex_p3 = Ret 536888256.
Proof.
  split; [vm_compute; reflexivity|]. split; [vm_compute; reflexivity|].
  destruct (custom_grants_disjoint 32 400 ltac:(lia) ltac:(lia) 30 4 17 2 ex_kernel1 tt ex_running
    781 536888256 ex_p1 ex_ops2 ex_kernel1 tt ex_p2 801 536888236 ex_p3 ex_running_layout)
    as (H1 & _ & _ & _ & H2 & H3 & _);
    [try (vm_compute; reflexivity); try lia; vm_compute; congruence..|].
  split; [exact H1|]. split; [exact H2|exact H3].
Defined.

Lemma unapproved_never_runs_witness :
  ∃ p', exec_ops 32 400 [CallMarkFail; CallResume; CallEnqueueInit; CallTryRestart None; CallSwitchTo]
          (ex_kernel1, tt, ex_process) = Ret (ex_kernel1, tt, p') ∧
    state p' = CredentialsFailed ∧ is_running p' = false.
Proof.
  eexists. split; [vm_compute; reflexivity|]. split; [reflexivity|].
  refine (proj1 (proj2 (unapproved_never_runs 32 400
    [CallMarkFail; CallResume; CallEnqueueInit; CallTryRestart None; CallSwitchTo]
    ex_kernel1 tt ex_process ex_kernel1 tt _ _ _ _))).
  - left. reflexivity.
  - repeat constructor.
  - vm_compute. reflexivity.
Defined.

(** The call to the entry point of the application. *)
Definition ex_init_task : Task :=
  TaskFunctionCall (mkFunctionCall SourceKernel 262184 536887296 1741 536887360 262225).

Lemma ex_running_tasks :
  ∃ ts, tasks ex_running = Some ts ∧ repr ts [ex_init_task] ∧ zlength (ring ts) = CALLBACK_LEN.
Proof.
  eexists. split; [vm_compute; reflexivity|]. split; [|reflexivity].
  split; [by vm_compute|by vm_compute|by vm_compute|by vm_compute|].
  intros [|i] x Hx; [by injection Hx as <-|done].
Qed.

Lemma upcall_queue_fifo_witness :
  ∃ ts ts', enqueue_task (TaskIPC (mkProcessId 1 3) IPCClient) ex_running
      = Ret (Ok tt, set_tasks (Some ts') ex_running) ∧
    tasks ex_running = Some ts ∧ repr ts' ([ex_init_task] ++ [TaskIPC (mkProcessId 1 3) IPCClient]).
Proof.
  destruct ex_running_tasks as (ts & Ht & R & Hn).
  destruct (upcall_queue_fifo ex_running ts [ex_init_task] Ht R Hn ltac:(reflexivity)) as [H _].
  destruct (H (TaskIPC (mkProcessId 1 3) IPCClient)) as (ts' & E & R').
  exists ts, ts'. split; [exact E|]. split; [exact Ht|exact R'].
Defined.

(** The first grant of the example process, allocated for driver 5. *)
Definition ex_granted := proc_of ex_running (allocate_grant 1 5 48 (2 ^ 3) ex_kernel1 ex_running).

Lemma allocate_grant_registers_witness :
  allocate_grant 1 5 48 (2 ^ 3) ex_kernel1 ex_running = Ret (true, ex_kernel1, ex_granted) ∧
  lookup_grant_from_driver_num 5 ex_granted = Ok 1 ∧
  kernel_memory_break ex_granted mod 2 ^ Z.max 3 1 = 0.
Proof.
  split; [vm_compute; reflexivity|].
  destruct (allocate_grant_registers 1 5 48 3 ex_kernel1 ex_running ex_kernel1 ex_granted
    ex_running_layout) as (H1 & (ptr & _ & H2 & _ & _ & H3) & _);
    [try (vm_compute; reflexivity); try lia; vm_compute; congruence..|].
  split; [exact H1|]. rewrite H3. exact H2.
Defined.

Lemma enter_grant_unallocated_witness :
  grant_is_allocated 0 ex_running = Some false ∧ (enter_grant 0 ex_running).1 = Ok 0.
Proof.
  destruct (enter_grant_unallocated 0 [mkGrantPointerEntry 0 0; mkGrantPointerEntry 0 0] 0 ex_running)
    as [H (p1 & E & _)]; [reflexivity|reflexivity|reflexivity|].
  split; [exact H|]. rewrite E. reflexivity.
Defined.

Lemma enter_leave_grant_witness :
  ∃ p1, enter_grant 1 ex_granted = (Ok 536888248, p1) ∧
    enter_grant 1 p1 = (Err AlreadyInUse, p1) ∧ leave_grant 1 p1 = ex_granted.
Proof.
  apply (enter_leave_grant 1 [mkGrantPointerEntry 0 0; mkGrantPointerEntry 5 536888248]
           (mkGrantPointerEntry 5 536888248) ex_granted);
    try (vm_compute; reflexivity). vm_compute. split; congruence.
Defined.
