(* ===== verification/CortexProcess.v ===== *)
(** * Processes on Cortex-M

    The Cortex-M driver of CortexMpu.v implements the MPU interface of Mpu.v:
    the instances below discharge the layout and isolation contracts the
    process theorems are proved against. *)

From stdpp Require Import gmap.
From S2P Require Import Prelude Math Registers Mpu CortexMpu Syscall RingBuffer Tbf.
From S2P Require Import ProcessData Process ProcessProofs.
From S2P Require Import ProcessIsolation ProcessCreate.

(** ** The driver satisfies the interface *)

Section instances.
Context (NUM_REGIONS : nat) (MIN_REGION_SIZE : Z).

Definition CortexM_MPU : MPU CortexMPU CortexMConfig := {|
  mpu_new_config := new_config NUM_REGIONS;
  mpu_reset_config := reset_config NUM_REGIONS;
  mpu_allocate_region := allocate_region MIN_REGION_SIZE;
  mpu_remove_memory_region := remove_memory_region;
  mpu_allocate_app_memory_region := allocate_app_memory_region;
  mpu_update_app_memory_region := update_app_memory_region;
  mpu_configure_mpu := configure_mpu;
|}.

#[local] Existing Instance CortexM_MPU.

Lemma align_up_to_ge x m y : 0 < m → align_up_to x m = Ret y → x ≤ y.
Proof.
  intros Hm. unfold align_up_to. rewrite urem_ok by lia. cbn [mbind outcome_bind].
  pose proof (Z.mod_pos_bound x m Hm). split_tests; [intros [= <-]; lia|].
  intros E. outcome_inv E. lia.
Qed.

(** The block size is a power of two that holds the request. *)
Lemma closest_power_of_two_ge m po2 :
  in_usize m → closest_power_of_two m = Ret po2 → 1 ≤ m ∧ po2 = 2 ^ Z.log2_up m ∧ m ≤ po2.
Proof.
  intros Hm E. destruct (decide (m = 0 ∨ 2 ^ 31 < m)) as [Hbad|Hok].
  { by rewrite closest_power_of_two_Panic in E. }
  unfold in_usize in Hm. rewrite closest_power_of_two_log2_up in E by lia. injection E as <-.
  split_and!; [lia|done|]. apply Z.log2_log2_up_spec. lia.
Qed.

Lemma allocate_app_layout us uz minm app ker p c c' start size :
  0 ≤ us → in_usize minm → 0 ≤ app → 0 ≤ ker →
  allocate_app_memory_region us uz minm app ker p c = Ret (Some (start, size), c') →
  us ≤ start ∧ start + size ≤ us + uz ∧ minm ≤ size ∧ app + ker ≤ size.
Proof.
  intros Hus Hminm Happ Hker E. unfold allocate_app_memory_region in E.
  apply outcome_bind_Ret in E as (ov & _ & E). destruct ov; [done|].
  apply outcome_bind_Ret in E as (both & Eb & E). apply uadd_Ret in Eb as [-> Hb].
  apply outcome_bind_Ret in E as (po2 & Ep & E).
  apply closest_power_of_two_ge in Ep as (H1 & -> & H2); [|unfold in_usize in *; lia].
  set (m := Z.max minm (app + ker)) in *. cbn zeta in E.
  assert (Hl : 0 ≤ Z.log2_up m) by apply Z.log2_up_nonneg.
  rewrite log_base_two_pow2 in E by done.
  destruct (Z.ltb_spec 32 (Z.log2_up m)); [done|].
  set (sz := if Z.log2_up m <? 9 then 512 else 2 ^ Z.log2_up m) in *.
  assert (Hsz : m ≤ sz ∧ 2 ≤ sz).
  { unfold sz. destruct (Z.ltb_spec (Z.log2_up m) 9) as [H9|H9].
    - assert (2 ^ Z.log2_up m ≤ 2 ^ 8) by (apply Z.pow_le_mono_r; lia). lia.
    - assert (2 ^ 9 ≤ 2 ^ Z.log2_up m) by (apply Z.pow_le_mono_r; lia). lia. }
  assert (Hhalf : 0 < sz / 2) by (apply Z.div_str_pos; lia).
  apply outcome_bind_Ret in E as (rs & Ers & E). apply align_up_to_ge in Ers; [|done].
  do 5 (apply outcome_bind_Ret in E as (? & ? & E)).
  apply outcome_bind_Ret in E as ([[rs' rz'] n'] & Eg & E).
  assert (Hrs : us ≤ rs').
  { revert Eg. case_match; [intros Eg|by intros [= <- <- <-]].
    apply outcome_bind_Ret in Eg as (rz2 & Erz & Eg). apply umul_Ret in Erz as [-> _].
    apply outcome_bind_Ret in Eg as (rs2 & Ers2 & Eg). apply align_up_to_ge in Ers2; [|lia].
    injection Eg as <- <- <-. lia. }
  apply outcome_bind_Ret in E as (be & Ebe & E). apply uadd_Ret in Ebe as [-> _].
  apply outcome_bind_Ret in E as (lim & Elim & E). apply uadd_Ret in Elim as [-> _].
  destruct (Z.ltb_spec (us + uz) (rs' + sz)); [done|].
  apply outcome_bind_Ret in E as (c2 & _ & E). injection E as <- <- <-. lia.
Qed.

Lemma update_layout ab kb p c c' :
  update_app_memory_region ab kb p c = Ret (Ok tt, c') → ab ≤ kb.
Proof.
  unfold update_app_memory_region. intros E. apply outcome_bind_Ret in E as (r0 & _ & E).
  destruct (location r0) as [[rs rz]|]; [|done].
  destruct (Z.ltb_spec kb ab); [done|lia].
Qed.

#[export] Instance CortexM_layout : MPULayout CortexMPU CortexMConfig.
Proof. split; [exact allocate_app_layout|exact update_layout]. Qed.

(** The two app regions are the first two; the block is their two halves. *)
Definition cortex_block (c : CortexMConfig) (start size : Z) : Prop :=
  ∃ n, size = 2 * 2 ^ n ∧ app_block c start n.

Lemma cortex_update ab kb p c c' r start size :
  cortex_block c start size → start ≤ ab ≤ kb → kb ≤ start + size → start + size < usize_bound →
  update_app_memory_region ab kb p c = Ret (r, c') →
  match r with
  | Err _ => c' = c
  | Ok _ =>
      cortex_block c' start size ∧
      (∀ a, start ≤ a < ab → app_covers c' a = true) ∧
      (∀ a, kb ≤ a → app_covers c' a = false) ∧
      (∀ a, a < start → app_covers c' a = false)
  end.
Proof.
  intros (n & -> & B) Hab Hkb Hsp E. destruct (decide (ab = start)) as [->|Hne].
  { by rewrite (update_app_memory_region_empty c start n) in E by (done || lia). }
  destruct (update_app_memory_region_spec c start n ab kb p B) as [[_ E']|[_ (c2 & E' & B' & _ & _ & _ & H)]];
    [lia..| |]; rewrite E' in E; injection E as <- <-; [done|].
  split; [by exists n|done].
Qed.

(** Operations that keep regions 0 and 1. *)
Lemma cortex_block_same c c' start size :
  take 2 (regions c') = take 2 (regions c) → cortex_block c start size →
  cortex_block c' start size ∧ ∀ a, app_covers c' a = app_covers c a.
Proof.
  intros Ht (n & -> & (r0 & r1 & rest & Hr & Hl) & Hn). split; [|by intros; unfold app_covers; rewrite Ht].
  exists n. split; [done|]. split; [|done]. rewrite Hr in Ht.
  destruct (regions c') as [|q0 [|q1 rest']]; try done. cbn in Ht. injection Ht as -> ->.
  by exists r0, r1, rest'.
Qed.

Lemma configure_keeps hw c hw' c' :
  configure_mpu hw c = (hw', c') → regions c' = regions c.
Proof. unfold configure_mpu. case_match; by intros [= <- <-]. Qed.

Lemma allocate_region_keeps us uz mrs p c r c' :
  allocate_region MIN_REGION_SIZE us uz mrs p c = Ret (r, c') →
  take 2 (regions c') = take 2 (regions c).
Proof.
  unfold allocate_region. intros E. apply outcome_bind_Ret in E as (ov & _ & E).
  destruct ov; [by injection E as <- <-|].
  destruct (unused_region_number c) as [num|] eqn:Hnum; [|by injection E as <- <-].
  apply unused_from_spec in Hnum as (Hn1 & Hn2 & _); [|lia]. cbn zeta in E.
  do 2 (apply outcome_bind_Ret in E as (? & _ & E)).
  repeat case_match; simplify_eq/=.
  do 2 (apply outcome_bind_Ret in E as (? & _ & E)).
  case_match; [by injection E as <- <-|].
  apply outcome_bind_Ret in E as (reg & _ & E). apply outcome_bind_Ret in E as (rs & Ers & E).
  injection E as <- <-. cbn [regions].
  unfold index_set in Ers. case_match; [|done]. injection Ers as <-.
  apply take_insert_ge. unfold APP_MEMORY_REGION_MAX_NUM in *. lia.
Qed.

Lemma remove_region_keeps reg c r c' :
  remove_memory_region reg c = (r, c') → take 2 (regions c') = take 2 (regions c).
Proof.
  unfold remove_memory_region. destruct (list_find _ _) as [[i x]|]; [|by intros [= <- <-]].
  destruct (Z.leb_spec (Z.of_nat i) APP_MEMORY_REGION_MAX_NUM); intros [= <- <-]; [done|].
  cbn [regions]. apply take_insert_ge. unfold APP_MEMORY_REGION_MAX_NUM in *. lia.
Qed.

#[export] Instance CortexM_isolation : MPUIsolation CortexMPU CortexMConfig.
Proof.
  refine {| mpu_app_block := cortex_block; mpu_user_access := app_covers; mpu_granule := 1 |}.
  - intros ab kb p c c' r start size. rewrite Z.mod_1_r, Z.sub_0_r. apply cortex_update.
  - intros hw c hw' c' start size E B. apply cortex_block_same; [|done].
    by rewrite (configure_keeps _ _ _ _ E).
  - intros us uz mrs p c c' r start size E B. apply cortex_block_same; [|done].
    exact (allocate_region_keeps _ _ _ _ _ _ _ E).
  - intros reg c c' r start size E B. apply cortex_block_same; [|done].
    exact (remove_region_keeps _ _ _ _ E).
Defined.


(** ** Processes *)

Section processes.
Context {Stored : Type} `{!UserspaceKernelBoundary Stored} `{!UkbLaws Stored}.
Context (TASK_SIZE PROCESS_STRUCT_OFFSET : Z).
Context (task_size_pos : 0 ≤ TASK_SIZE) (struct_size_pos : 0 ≤ PROCESS_STRUCT_OFFSET).
Context (two_regions : (2 ≤ NUM_REGIONS)%nat).
Implicit Type p : Process CortexMConfig Stored.

Lemma allocate_region_length us uz mrs perm c r c' :
  allocate_region MIN_REGION_SIZE us uz mrs perm c = Ret (r, c') →
  length (regions c') = length (regions c).
Proof.
  unfold allocate_region. intros E. apply outcome_bind_Ret in E as (ov & _ & E).
  destruct ov; [by injection E as <- <-|].
  destruct (unused_region_number c) as [num|]; [|by injection E as <- <-]. cbn zeta in E.
  do 2 (apply outcome_bind_Ret in E as (? & _ & E)).
  repeat case_match; simplify_eq/=.
  do 2 (apply outcome_bind_Ret in E as (? & _ & E)).
  case_match; [by injection E as <- <-|].
  apply outcome_bind_Ret in E as (reg & _ & E). apply outcome_bind_Ret in E as (rs & Ers & E).
  injection E as <- <-. cbn [regions].
  unfold index_set in Ers. case_match; [|done]. injection Ers as <-. apply length_insert.
Qed.

Lemma new_config_length hw c hw' :
  new_config NUM_REGIONS hw = (Some c, hw') → length (regions c) = NUM_REGIONS.
Proof.
  unfold new_config. case_match; [|done]. intros [= <- <-]. cbn [regions reset_config].
  rewrite length_fmap, length_seqZ. lia.
Qed.

Lemma allocate_app_overlaps us uz minm app ker perm c r c' :
  allocate_app_memory_region us uz minm app ker perm c = Ret (Some r, c') →
  any_overlaps (regions c) us uz = Ret false.
Proof.
  unfold allocate_app_memory_region. intros E.
  apply outcome_bind_Ret in E as (ov & -> & E). by destruct ov.
Qed.

(** What the driver returned for the block isolates the kernel's part. *)
Lemma create_isolated k hw fl hl av mem pol rkv index buf p rest k' hw' :
  slice_ok mem → ms_ptr mem + ms_len mem ≤ 2 ^ 31 → 0 ≤ grant_counter k →
  create TASK_SIZE PROCESS_STRUCT_OFFSET k hw fl hl av mem pol rkv index buf
  = Ret (Ok (Some p, rest), k', hw') →
  let ker := kernel_bytes TASK_SIZE PROCESS_STRUCT_OFFSET (grant_counter k) + USIZE_SIZE in
  let minm := Z.max (get_minimum_app_ram_size (header p)) initial_process_app_brk_size + ker in
  minm ≤ 2 ^ 28 → fits_first_try minm initial_process_app_brk_size ker → isolated p.
Proof.
  intros Hmem Hb Hg E ker minm Hm Hfit.
  pose proof (create_Ok _ _ task_size_pos struct_size_pos _ _ _ _ _ _ _ _ _ _ _ _ _ _ Hmem Hg E)
    as [L _ _ _ _ _ [Ha _] Hk].
  destruct (create_config _ _ _ _ _ _ _ _ _ _ _ _ _ _ _ _ Hmem E)
    as (c0 & hw1 & flash & c1 & us & uz & c2 & E0 & E1 & Hus & Huz & Hsum & E2 & Hc).
  fold ker in E2. fold minm in E2. cbn in E0, E1, E2.
  apply new_config_length in E0. apply allocate_region_length in E1.
  pose proof (allocate_app_overlaps _ _ _ _ _ _ _ _ _ E2) as Hov.
  assert (Hbrk : 0 ≤ initial_process_app_brk_size) by apply ukb_brk_size.
  pose proof (kernel_bytes_nonneg _ _ task_size_pos struct_size_pos _ Hg) as Hkb.
  unfold USIZE_SIZE, slice_ok in *.
  assert (Hmax : Z.max minm (initial_process_app_brk_size + ker) = minm) by lia.
  destruct (allocate_app_memory_region_spec c1 us uz minm initial_process_app_brk_size ker ReadWriteOnly)
    as [[_ En]|(st & c' & Er & _ & _ & _ & _ & _ & Hin & Hbelow & Hyes & _)];
    [lia|done|lia|lia|lia|lia|lia|lia|by rewrite En in E2|].
  rewrite Hmax in *. destruct (Hyes Hfit) as [B Hno].
  rewrite Er in E2. injection E2 as Est Esz <-. exists c'. split; [done|].
  rewrite Est in *. pose proof (Z.mod_pos_bound (memory_start p + memory_len p) 4 ltac:(lia)).
  split_and!.
  - exists (block_log minm - 1). rewrite <- Esz. split; [|done].
    rewrite <- Z.pow_succ_r by (unfold block_log; lia). f_equal. lia.
  - intros a Hra. cbn in Hra. rewrite Z.mod_1_r in Hra. apply Hin. lia.
  - intros a Hra. apply Hno. rewrite Esz. lia.
  - exact Hbelow.
Qed.

(** C2.  Isolation end to end: a process created on Cortex-M whose first choice
    of eighths fits ([fits_first_try]), in memory that ends by 2^31 and with at
    most 2^28 bytes of minimum memory, keeps, through any sequence of calls that
    does not restart it (break moves, allocations, grants, faults, MPU regions), an MPU
    configuration under which it reaches all of its memory up to the app
    break, and through its memory region nothing of the kernel's part and
    nothing below its block. *)
Theorem cortex_process_isolation k hw fl hl av mem pol rkv index buf p rest k1 hw1 os k2 hw2 p2 :
  slice_ok mem → ms_ptr mem + ms_len mem ≤ 2 ^ 31 → 0 ≤ grant_counter k →
  create TASK_SIZE PROCESS_STRUCT_OFFSET k hw fl hl av mem pol rkv index buf
  = Ret (Ok (Some p, rest), k1, hw1) →
  let ker := kernel_bytes TASK_SIZE PROCESS_STRUCT_OFFSET (grant_counter k) + USIZE_SIZE in
  let minm := Z.max (get_minimum_app_ram_size (header p)) initial_process_app_brk_size + ker in
  minm ≤ 2 ^ 28 → fits_first_try minm initial_process_app_brk_size ker →
  exec_ops TASK_SIZE PROCESS_STRUCT_OFFSET os (k1, hw1, p) = Ret (k2, hw2, p2) →
  process_id p2 = process_id p →
  ∃ c, mpu_config p2 = Some c ∧
    (∀ a, memory_start p2 ≤ a < app_break p2 → app_covers c a = true) ∧
    (∀ a, kernel_memory_break p2 ≤ a → app_covers c a = false) ∧
    (∀ a, a < memory_start p2 → app_covers c a = false).
Proof.
  intros Hmem Hb Hg E ker minm Hm Hfit Eo Hp.
  pose proof (create_isolated _ _ _ _ _ _ _ _ _ _ _ _ _ _ Hmem Hb Hg E Hm Hfit) as I.
  apply create_Ok in E as [L _ [Hi Hi'] [Hg' _] _ _ _ _]; [|done..].
  destruct (exec_ops_isolated _ _ task_size_pos struct_size_pos os k1 hw1 p k2 hw2 p2)
    as (c & Hc & _ & I1 & I2); [lia|lia|done|done|done|done|].
  cbn in I1. rewrite Z.mod_1_r, Z.sub_0_r in I1. by exists c.
Qed.

End processes.
End instances.

(** ** A concrete instance

    The application of ProcessCreate.v on a Cortex-M with eight regions. *)

#[local] Existing Instance ex_boundary.
#[local] Existing Instance ex_boundary_laws.

Definition ex_cortex_create :
    outcome (create_result (Hw := CortexMPU) (Config := CortexMConfig) (Stored := unit)) :=
  create (MPU0 := CortexM_MPU 8 32) 32 400 ex_kernel ex_mpu ex_flash 40 2 ex_memory RestartFaultPolicy
    false 0 (replicate 10 ex_task).

Definition ex_cortex_ops : list proc_op :=
  [CallMarkPass None LocallyUnique; CallEnqueueInit; CallBrk 536887500; CallAllocGrant 1 5 48 8;
   CallSetupMpu; CallBrk 536888000; CallAllocCustom 100 4].

Lemma cortex_process_isolation_witness :
  ∃ p rest k1 hw1 k2 hw2 p2 c,
    ex_cortex_create = Ret (Ok (Some p, rest), k1, hw1) ∧
    exec_ops (MPU0 := CortexM_MPU 8 32) 32 400 ex_cortex_ops (k1, hw1, p) = Ret (k2, hw2, p2) ∧
    app_break p2 = 536888000 ∧ mpu_config p2 = Some c ∧
    app_covers c 536887999 = true ∧ app_covers c (kernel_memory_break p2) = false.
Proof.
  destruct ex_cortex_create as [[[[[[p|] rest]|] k1] hw1]|] eqn:E;
    [|vm_compute in E; discriminate E..].
  destruct (exec_ops (MPU0 := CortexM_MPU 8 32) 32 400 ex_cortex_ops (k1, hw1, p)) as [[[k2 hw2] p2]|] eqn:Eo;
    [|exfalso; clear -E Eo; vm_compute in E; injection E as <- <- <- <-; vm_compute in Eo; discriminate Eo].
  assert (Hh : header p = header ex_process ∧ app_break p2 = 536888000 ∧ memory_start p2 = 536887296 ∧
               process_id p2 = process_id p).
  { vm_compute in E. injection E as <- <- <- <-. vm_compute in Eo. injection Eo as <- <- <-.
    vm_compute. repeat split. }
  destruct Hh as (Hh & Ha & Hs & Hp).
  destruct (cortex_process_isolation 8 32 32 400 ltac:(lia) ltac:(lia) ltac:(lia)
    ex_kernel ex_mpu ex_flash 40 2 ex_memory RestartFaultPolicy false 0 (replicate 10 ex_task)
    p rest k1 hw1 ex_cortex_ops k2 hw2 p2) as (c & Hc & Hin & Hout & _);
    [vm_compute; repeat split; congruence|vm_compute; congruence|vm_compute; congruence|exact E|
     rewrite Hh; vm_compute; congruence|rewrite Hh; vm_compute; congruence|exact Eo|exact Hp|].
  exists p, rest, k1, hw1, k2, hw2, p2, c.
  split; [reflexivity|]. split; [exact Eo|]. split; [exact Ha|]. split; [exact Hc|].
  split; [apply Hin; rewrite Ha, Hs; lia|apply Hout; lia].
Defined.
