(* ===== verification/PmpProcess.v ===== *)
(** * Processes on RISC-V

    The PMP driver of Pmp.v implements the MPU interface of Mpu.v, with words
    of four bytes as the unit of protection; the isolation theorem of
    ProcessIsolation.v follows for processes created on it. *)

From stdpp Require Import gmap.
From S2P Require Import Prelude Registers Mpu Pmp PmpTheorems PmpConfig Syscall RingBuffer Tbf.
From S2P Require Import ProcessData Process ProcessProofs.
From S2P Require Import ProcessIsolation ProcessCreate.

Section instances.
Context (MAX : nat) (mask : Z).

Definition PMP_MPU : MPU PMP PMPConfig := {|
  mpu_new_config := pmp_new_config MAX;
  mpu_reset_config := pmp_reset_config;
  mpu_allocate_region := pmp_allocate_region mask;
  mpu_remove_memory_region := pmp_remove_memory_region mask;
  mpu_allocate_app_memory_region := pmp_allocate_app_memory_region mask;
  mpu_update_app_memory_region := pmp_update_app_memory_region;
  mpu_configure_mpu := pmp_configure_mpu;
|}.

#[local] Existing Instance PMP_MPU.

Lemma pmp_update_layout ab kb p c c' :
  pmp_update_app_memory_region ab kb p c = Ret (Ok tt, c') → ab ≤ kb.
Proof.
  unfold pmp_update_app_memory_region. intros E. apply outcome_bind_Ret in E as (r & _ & E).
  destruct r as [r|]; [|done]. destruct (Z.ltb_spec kb ab); [done|lia].
Qed.

#[export] Instance PMP_layout : MPULayout PMP PMPConfig.
Proof.
  split; [|exact pmp_update_layout].
  intros us uz minm app ker p c c' start size Hus Hm Ha Hk E.
  apply pmp_allocate_app_Some in E as (n & app' & ? & _ & ? & ? & -> & ? & _); [|unfold in_usize in *; lia..]. lia.
Qed.

(** The app memory region, and the block it manages. *)
Definition app_region (c : PMPConfig) : option PMPRegion :=
  n ← app_memory_region c; mjoin (pmp_regions c !! n).

Definition pmp_app_covers (c : PMPConfig) (a : Z) : bool :=
  match app_region c with Some r => covers r a | None => false end.

Definition pmp_block (c : PMPConfig) (start size : Z) : Prop :=
  start mod 4 = 0 ∧ 0 ≤ start ∧ ∃ r, app_region c = Some r ∧ (pmp_location r).1 = start.

Lemma covers_words r start ab a :
  start mod 4 = 0 → pmp_location r = (start, ab - start) → in_usize ab →
  covers r a = true ↔ start ≤ a < ab - ab mod 4.
Proof.
  intros Hs El Hab. unfold covers. rewrite El. cbn [fst snd]. replace (start + (ab - start)) with ab by lia.
  unfold wrap32. rewrite Z.mod_small by done. rewrite andb_true_iff, Z.leb_le, Z.ltb_lt.
  pose proof (Z.div_mod start 4). pose proof (Z.div_mod a 4). pose proof (Z.div_mod ab 4).
  pose proof (Z.mod_pos_bound a 4). pose proof (Z.mod_pos_bound ab 4). lia.
Qed.

Lemma covers_words_not r start ab a :
  start mod 4 = 0 → pmp_location r = (start, ab - start) → in_usize ab →
  a < start ∨ ab ≤ a → covers r a = false.
Proof.
  intros Hs El Hab Ha. apply not_true_is_false. rewrite covers_words by done.
  pose proof (Z.mod_pos_bound ab 4). lia.
Qed.

Lemma app_region_lookup c n r :
  app_memory_region c = Some n → pmp_regions c !! n = Some (Some r) → app_region c = Some r.
Proof. intros H1 H2. unfold app_region. rewrite H1. cbn. by rewrite H2. Qed.

Lemma app_region_Some c r :
  app_region c = Some r → ∃ n, app_memory_region c = Some n ∧ pmp_regions c !! n = Some (Some r).
Proof.
  unfold app_region. intros H. apply bind_Some in H as (n & Hn & H). exists n. split; [done|].
  destruct (pmp_regions c !! n) as [[q|]|]; naive_solver.
Qed.

Lemma pmp_update_isolation ab kb p c c' r start size :
  pmp_block c start size → start ≤ ab ≤ kb → kb ≤ start + size → start + size < usize_bound →
  pmp_update_app_memory_region ab kb p c = Ret (r, c') →
  match r with
  | Err _ => c' = c
  | Ok _ =>
      pmp_block c' start size ∧
      (∀ a, start ≤ a < ab - ab mod 4 → pmp_app_covers c' a = true) ∧
      (∀ a, kb ≤ a → pmp_app_covers c' a = false) ∧
      (∀ a, a < start → pmp_app_covers c' a = false)
  end.
Proof.
  intros (Hm & H0 & reg & Hr & Hl) Hab Hkb Hb E. apply app_region_Some in Hr as (n & Hn & Hi).
  unfold pmp_update_app_memory_region, index_get in E. rewrite Hn in E.
  change (default 0%nat (Some n)) with n in E.
  destruct (Z.ltb_spec (Z.of_nat n) 0); [lia|]. rewrite Nat2Z.id, Hi in E. cbn [mbind outcome_bind] in E.
  destruct (Z.ltb_spec kb ab); [lia|]. rewrite Hl, usub_ok in E by lia. injection E as <- <-.
  assert (Hr' : app_region (set_regions (<[n := Some (PMPRegion_new start (ab - start) p)]> (pmp_regions c)) c)
                = Some (PMPRegion_new start (ab - start) p)).
  { apply (app_region_lookup _ n); [done|]. apply list_lookup_insert_eq. by apply lookup_lt_Some in Hi. }
  assert (Hu : in_usize ab) by (unfold in_usize; lia).
  split_and!; [by split_and!; [..|eexists]| | |]; intros a Ha; unfold pmp_app_covers; rewrite Hr'.
  - by apply (covers_words _ start ab).
  - apply (covers_words_not _ start ab); [done..|lia].
  - apply (covers_words_not _ start ab); [done..|lia].
Qed.

(** Operations that leave the app memory region alone. *)
Lemma pmp_block_same c c' start size :
  app_region c' = app_region c → pmp_block c start size →
  pmp_block c' start size ∧ ∀ a, pmp_app_covers c' a = pmp_app_covers c a.
Proof. intros E B. unfold pmp_block, pmp_app_covers. by rewrite E. Qed.

Lemma configure_app_region hw c hw' c' : pmp_configure_mpu hw c = (hw', c') → app_region c' = app_region c.
Proof. unfold pmp_configure_mpu. case_match; by intros [= <- <-]. Qed.

Lemma insert_other_region c n ro :
  app_memory_region c ≠ Some n → app_region (set_regions (<[n := ro]> (pmp_regions c)) c) = app_region c.
Proof.
  intros Hn. unfold app_region. cbn [set_regions app_memory_region pmp_regions].
  destruct (app_memory_region c) as [m|]; [|done]. cbn. by rewrite list_lookup_insert_ne by congruence.
Qed.

Lemma allocate_region_app_region us uz mrs p c r c' :
  pmp_allocate_region mask us uz mrs p c = Ret (r, c') → app_region c' = app_region c.
Proof.
  unfold pmp_allocate_region. intros E. apply outcome_bind_Ret in E as (ov & _ & E).
  destruct ov; [by injection E as <- <-|].
  destruct (pmp_unused_region_number mask c) as [n|] eqn:Hn; [|by injection E as <- <-].
  apply unused_region_number_Some in Hn as (_ & Hn & _).
  apply outcome_bind_Ret in E as (reg & _ & E). injection E as <- <-. by apply insert_other_region.
Qed.

Lemma remove_region_app_region reg c r c' :
  pmp_remove_memory_region mask reg c = (r, c') → app_region c' = app_region c.
Proof.
  unfold pmp_remove_memory_region. destruct (list_find _ _) as [[i x]|]; [|by intros [= <- <-]].
  destruct (is_index_locked_or_app mask c i) eqn:L; intros [= <- <-]; [done|].
  apply orb_false_iff in L as [_ L]. apply bool_decide_eq_false in L. by apply insert_other_region.
Qed.

#[export] Instance PMP_isolation : MPUIsolation PMP PMPConfig.
Proof.
  refine {| mpu_app_block := pmp_block; mpu_user_access := pmp_app_covers; mpu_granule := 4 |}.
  - exact pmp_update_isolation.
  - intros hw c hw' c' start size E. apply pmp_block_same. exact (configure_app_region _ _ _ _ E).
  - intros us uz mrs p c c' r start size E. apply pmp_block_same. exact (allocate_region_app_region _ _ _ _ _ _ _ E).
  - intros reg c c' r start size E. apply pmp_block_same. exact (remove_region_app_region _ _ _ _ E).
Defined.

(** ** Processes *)

Section processes.
Context {Stored : Type} `{!UserspaceKernelBoundary Stored} `{!UkbLaws Stored}.
Context (TASK_SIZE PROCESS_STRUCT_OFFSET : Z).
Context (task_size_pos : 0 ≤ TASK_SIZE) (struct_size_pos : 0 ≤ PROCESS_STRUCT_OFFSET).
Implicit Type p : Process PMPConfig Stored.

Lemma pmp_create_isolated k hw fl hl av mem pol rkv index buf p rest k' hw' :
  slice_ok mem → 0 ≤ grant_counter k →
  create TASK_SIZE PROCESS_STRUCT_OFFSET k hw fl hl av mem pol rkv index buf
  = Ret (Ok (Some p, rest), k', hw') →
  memory_start p mod 4 = 0 → isolated p.
Proof.
  intros Hmem Hg E Hal.
  pose proof (create_Ok _ _ task_size_pos struct_size_pos _ _ _ _ _ _ _ _ _ _ _ _ _ _ Hmem Hg E)
    as [_ _ _ _ _ _ [Ha _] Hk].
  destruct (create_config _ _ _ _ _ _ _ _ _ _ _ _ _ _ _ _ Hmem E)
    as (c0 & hw1 & flash & c1 & us & uz & c2 & _ & _ & Hus & Huz & Hsum & E2 & Hc).
  assert (Hbrk : 0 ≤ initial_process_app_brk_size) by apply ukb_brk_size.
  pose proof (kernel_bytes_nonneg _ _ task_size_pos struct_size_pos _ Hg) as Hkb.
  unfold USIZE_SIZE, slice_ok in *.
  apply pmp_allocate_app_Some in E2 as (n & app' & H1 & H2 & H3 & _ & <- & H4 & Hn & Hnl & Hr); [|lia..].
  assert (Hreg : app_region c2 = Some (PMPRegion_new (memory_start p) app' ReadWriteOnly))
    by (apply (app_region_lookup _ n); [done|]; rewrite Hr; by apply list_lookup_insert_eq).
  pose proof (Z.mod_pos_bound (memory_start p + memory_len p) 4 ltac:(lia)).
  pose proof (Z.mod_pos_bound (app_break p) 4 ltac:(lia)).
  exists c2. split; [done|]. split; [split_and!; [done|lia|by eexists]|].
  set (ab := memory_start p + app').
  assert (Hu : in_usize ab) by (unfold in_usize, ab; lia).
  assert (El : pmp_location (PMPRegion_new (memory_start p) app' ReadWriteOnly) = (memory_start p, ab - memory_start p))
    by (cbn; f_equal; unfold ab; lia).
  assert (Hab : ab mod 4 = 0).
  { unfold ab. rewrite H2. apply Z.mod_divide; [lia|]. apply Z.mod_divide in Hal as [q ->]; [|lia].
    pose proof (Z.div_mod (- initial_process_app_brk_size) 4 ltac:(lia)).
    exists (q - (- initial_process_app_brk_size) / 4). lia. }
  assert (V : ∀ a, mpu_user_access c2 a = covers (PMPRegion_new (memory_start p) app' ReadWriteOnly) a)
    by (intros a; change (pmp_app_covers c2 a = covers (PMPRegion_new (memory_start p) app' ReadWriteOnly) a);
        unfold pmp_app_covers; by rewrite Hreg).
  split_and!; intros a Hra; cbn [mpu_granule PMP_isolation] in Hra; rewrite V.
  - apply (covers_words _ (memory_start p) ab); [done..|]. rewrite Hab. unfold ab. lia.
  - apply (covers_words_not _ (memory_start p) ab); [done..|]. unfold ab. lia.
  - apply (covers_words_not _ (memory_start p) ab); [done..|]. lia.
Qed.

(** C7.  Isolation end to end on RISC-V: a process created on the PMP with a
    word-aligned block keeps, through any sequence of calls that does not
    restart it, a configuration under which it reaches its memory up to the
    last whole word below the app break, and through its memory region nothing
    of the kernel's part and nothing below its block. *)
Theorem rv32i_process_isolation k hw fl hl av mem pol rkv index buf p rest k1 hw1 os k2 hw2 p2 :
  slice_ok mem → 0 ≤ grant_counter k →
  create TASK_SIZE PROCESS_STRUCT_OFFSET k hw fl hl av mem pol rkv index buf
  = Ret (Ok (Some p, rest), k1, hw1) →
  memory_start p mod 4 = 0 →
  exec_ops TASK_SIZE PROCESS_STRUCT_OFFSET os (k1, hw1, p) = Ret (k2, hw2, p2) →
  process_id p2 = process_id p →
  ∃ c, mpu_config p2 = Some c ∧
    (∀ a, memory_start p2 ≤ a < app_break p2 - app_break p2 mod 4 → pmp_app_covers c a = true) ∧
    (∀ a, kernel_memory_break p2 ≤ a → pmp_app_covers c a = false) ∧
    (∀ a, a < memory_start p2 → pmp_app_covers c a = false).
Proof.
  intros Hmem Hg E Hal Eo Hp.
  pose proof (pmp_create_isolated _ _ _ _ _ _ _ _ _ _ _ _ _ _ Hmem Hg E Hal) as I.
  apply create_Ok in E as [L _ [Hi Hi'] [Hg' _] _ _ _ _]; [|done..].
  destruct (exec_ops_isolated _ _ task_size_pos struct_size_pos os k1 hw1 p k2 hw2 p2)
    as (c & Hc & _ & I'); [lia|lia|done|done|done|done|].
  by exists c.
Qed.

End processes.
End instances.

(** ** A concrete instance

    The application of ProcessCreate.v on a chip with sixteen PMP entries. *)

#[local] Existing Instance ex_boundary.
#[local] Existing Instance ex_boundary_laws.

Definition ex_pmp_create :
    outcome (create_result (Hw := PMP) (Config := PMPConfig) (Stored := unit)) :=
  create (MPU0 := PMP_MPU 8 0) 32 400 ex_kernel ex_pmp ex_flash 40 2 ex_memory RestartFaultPolicy
    false 0 (replicate 10 ex_task).

Definition ex_pmp_ops : list proc_op :=
  [CallMarkPass None LocallyUnique; CallEnqueueInit; CallBrk 536887500; CallAllocGrant 1 5 48 8;
   CallSetupMpu; CallBrk 536887802; CallAllocCustom 100 4].

Lemma rv32i_process_isolation_witness :
  ∃ p rest k1 hw1 k2 hw2 p2 c,
    ex_pmp_create = Ret (Ok (Some p, rest), k1, hw1) ∧
    exec_ops (MPU0 := PMP_MPU 8 0) 32 400 ex_pmp_ops (k1, hw1, p) = Ret (k2, hw2, p2) ∧
    app_break p2 = 536887802 ∧ mpu_config p2 = Some c ∧
    pmp_app_covers c 536887799 = true ∧ pmp_app_covers c (kernel_memory_break p2) = false.
Proof.
  destruct ex_pmp_create as [[[[[[p|] rest]|] k1] hw1]|] eqn:E;
    [|vm_compute in E; discriminate E..].
  destruct (exec_ops (MPU0 := PMP_MPU 8 0) 32 400 ex_pmp_ops (k1, hw1, p)) as [[[k2 hw2] p2]|] eqn:Eo;
    [|exfalso; clear -E Eo; vm_compute in E; injection E as <- <- <- <-; vm_compute in Eo; discriminate Eo].
  assert (Hh : memory_start p = 536887296 ∧ app_break p2 = 536887802 ∧ memory_start p2 = 536887296 ∧
               process_id p2 = process_id p).
  { vm_compute in E. injection E as <- <- <- <-. vm_compute in Eo. injection Eo as <- <- <-.
    vm_compute. repeat split. }
  destruct Hh as (Hh & Ha & Hs & Hp).
  destruct (rv32i_process_isolation 8 0 32 400 ltac:(lia) ltac:(lia)
    ex_kernel ex_pmp ex_flash 40 2 ex_memory RestartFaultPolicy false 0 (replicate 10 ex_task)
    p rest k1 hw1 ex_pmp_ops k2 hw2 p2) as (c & Hc & Hin & Hout & _);
    [vm_compute; repeat split; congruence|vm_compute; congruence|exact E|
     rewrite Hh; reflexivity|exact Eo|exact Hp|].
  exists p, rest, k1, hw1, k2, hw2, p2, c.
  split; [reflexivity|]. split; [exact Eo|]. split; [exact Ha|]. split; [exact Hc|].
  split; [apply Hin; rewrite Ha, Hs; vm_compute; split; congruence|apply Hout; lia].
Defined.
