(* ===== verification/Grant.v ===== *)
(** * Grants and upcalls (kernel/src/grant.rs, kernel/src/upcall.rs)

    The kernel keeps, for every driver a process uses, one allocation in the
    kernel-owned part of the process block: a word of counters, the saved
    upcalls, the saved read-only and read-write buffers, padding, and the
    capsule's own data of type [T].  [Memory] is that memory as words; the
    layout arithmetic is the code's.  [T] is a parameter: its size, its
    alignment and what writing [T::default()] does.

    Theorems: the arrays and the data of an allocation are aligned, in order
    and inside it; initialising and reading back agree; the system calls
    subscribe and allow swap one slot and report the previous content. *)

From stdpp Require Import gmap.
From S2P Require Import Prelude Syscall Mpu RingBuffer Tbf.
From S2P Require Import ProcessData Process.

(** ** Upcalls *)

Inductive UpcallError : Type := InvalidSubscribeNum | QueueFull | UpcallKernelError.

Record Upcall := mkUpcall {
  upcall_process_id : ProcessId;
  upcall_id : UpcallId;
  upcall_appdata : Z;
  upcall_fn_ptr : option Z;
}.

(** [Option<NonNull<()>>] and the pointer that represents it. *)
Definition NonNull_new (a : Z) : option Z := if a =? 0 then None else Some a.
Definition as_ptr (fp : option Z) : Z := match fp with Some a => a | None => 0 end.

Definition into_subscribe_success (u : Upcall) : SyscallReturn :=
  match upcall_fn_ptr u with
  | Some fp => SubscribeSuccess fp (upcall_appdata u)
  | None => SubscribeSuccess 0 (upcall_appdata u)
  end.

Definition into_subscribe_failure (u : Upcall) (err : ErrorCode) : SyscallReturn :=
  match upcall_fn_ptr u with
  | Some fp => SubscribeFailure err fp (upcall_appdata u)
  | None => SubscribeFailure err 0 (upcall_appdata u)
  end.

(** ** Grant memory *)

Abbreviation Memory := (gmap Z Z).

Definition read_word (m : Memory) (a : Z) : Z := default 0 (m !! a).

Definition WORD : Z := 4.
Definition SAVED_SIZE : Z := 8.

Record SavedUpcall := mkSavedUpcall { saved_appdata : Z; saved_fn_ptr : option Z }.
Record SavedAllow := mkSavedAllow { saved_ptr : Z; saved_len : Z }.

(** The two words of element [i] of an array at [arr]. *)
Definition elem_addr (arr : Z) (i : Z) : Z := arr + SAVED_SIZE * i.

Definition read_upcall (m : Memory) (arr i : Z) : SavedUpcall :=
  mkSavedUpcall (read_word m (elem_addr arr i)) (NonNull_new (read_word m (elem_addr arr i + WORD))).
Definition read_allow (m : Memory) (arr i : Z) : SavedAllow :=
  mkSavedAllow (read_word m (elem_addr arr i)) (read_word m (elem_addr arr i + WORD)).

Definition write_pair (arr i x y : Z) (m : Memory) : Memory :=
  <[elem_addr arr i + WORD := y]> (<[elem_addr arr i := x]> m).

(** [write_default_array]: the default of each of the three element types is
    two zero words. *)
Fixpoint write_default_array (arr : Z) (i : Z) (num : nat) (m : Memory) : Memory :=
  match num with
  | O => m
  | S n => write_default_array arr (i + 1) n (write_pair arr i 0 0 m)
  end.

(** ** [EnteredGrantKernelManagedLayout] *)

Record EnteredLayout := mkEnteredLayout {
  el_grant_num : Z;
  counters_ptr : Z;
  upcalls_array : Z;
  allow_ro_array : Z;
  allow_rw_array : Z;
}.

(** [ptr::add] on a word and on the two-word elements. *)
Definition read_from_base (m : Memory) (base grant_num : Z) : EnteredLayout :=
  let counters_val := read_word m base in
  let upcalls_num := Z.land counters_val 255 in
  let allow_ro_num := Z.land (Z.shiftr counters_val 8) 255 in
  let upcalls := base + WORD in
  let allow_ro := elem_addr upcalls upcalls_num in
  let allow_rw := elem_addr allow_ro allow_ro_num in
  mkEnteredLayout grant_num base upcalls allow_ro allow_rw.

(** [u32::from_be_bytes([0, rw, ro, upcalls])]. *)
Definition pack_counters (upcalls_num allow_ro_num allow_rw_num : Z) : Z :=
  from_be_bytes [0; allow_rw_num; allow_ro_num; upcalls_num].

Definition initialize_from_counts (base upcalls_num allow_ro_num allow_rw_num grant_num : Z)
    (m : Memory) : EnteredLayout * Memory :=
  let counter := pack_counters upcalls_num allow_ro_num allow_rw_num in
  let upcalls := base + WORD in
  let allow_ro := elem_addr upcalls upcalls_num in
  let allow_rw := elem_addr allow_ro allow_ro_num in
  let m := <[base := counter]> m in
  let m := write_default_array upcalls 0 (Z.to_nat upcalls_num) m in
  let m := write_default_array allow_ro 0 (Z.to_nat allow_ro_num) m in
  let m := write_default_array allow_rw 0 (Z.to_nat allow_rw_num) m in
  (mkEnteredLayout grant_num base upcalls allow_ro allow_rw, m).

Definition grant_size (upcalls_num allow_ro_num allow_rw_num grant_t_size grant_t_align : Z) :
    outcome Z :=
  u ← umul upcalls_num SAVED_SIZE;
  ro ← umul allow_ro_num SAVED_SIZE;
  rw ← umul allow_rw_num SAVED_SIZE;
  s ← uadd WORD u;
  s ← uadd s ro;
  kernel_managed_size ← uadd s rw;
  grant_t_align_mask ← usub grant_t_align 1;
  d ← usub grant_t_align (Z.land kernel_managed_size grant_t_align_mask);
  let padding := Z.land d grant_t_align_mask in
  s ← uadd kernel_managed_size padding;
  uadd s grant_t_size.

Definition grant_align (grant_t_align : Z) : Z := Z.max WORD grant_t_align.

Definition offset_of_grant_data_t (base size grant_t_size : Z) : outcome Z :=
  d ← usub size grant_t_size;
  Ret (base + d).

Definition get_counter_offset (l : EnteredLayout) (m : Memory) (offset_bits : Z) : Z :=
  Z.land (Z.shiftr (read_word m (counters_ptr l)) offset_bits) 255.
Definition get_upcalls_number l m := get_counter_offset l m 0.
Definition get_allow_ro_number l m := get_counter_offset l m 8.
Definition get_allow_rw_number l m := get_counter_offset l m 16.

Definition get_resource_slices (l : EnteredLayout) (m : Memory) :
    list SavedUpcall * list SavedAllow * list SavedAllow :=
  (read_upcall m (upcalls_array l) <$> seqZ 0 (get_upcalls_number l m),
   read_allow m (allow_ro_array l) <$> seqZ 0 (get_allow_ro_number l m),
   read_allow m (allow_rw_array l) <$> seqZ 0 (get_allow_rw_number l m)).

Section grants.
Context {Hw Config Stored : Type} `{!MPU Hw Config}.
Abbreviation proc := (Process Config Stored).
Implicit Type p : proc.

Definition schedule (u : Upcall) (r0 r1 r2 : Z) p : outcome (result unit UpcallError * proc) :=
  match upcall_fn_ptr u with
  | None => Ret (Ok tt, p)
  | Some fp =>
      '(enqueue_res, p) ←
        enqueue_task (TaskFunctionCall
          (mkFunctionCall (SourceDriver (upcall_id u)) r0 r1 r2 (upcall_appdata u) fp)) p;
      Ret (match enqueue_res with
           | Ok _ => Ok tt
           | Err NODEVICE => Err UpcallKernelError
           | Err NOMEM => Err QueueFull
           | Err _ => Err UpcallKernelError
           end, p)
  end.

(** ** Kernel access to the saved upcalls and buffers *)

Definition enter_grant_kernel_managed (driver : Z) (m : Memory) p :
    result EnteredLayout ErrorCode * proc :=
  match lookup_grant_from_driver_num driver p with
  | Err e => (Err (ErrorCode_from_ProcessError e), p)
  | Ok grant_num =>
      match grant_is_allocated grant_num p with
      | Some true =>
          match enter_grant grant_num p with
          | (Err _, p) => (Err NOMEM, p)
          | (Ok base, p) => (Ok (read_from_base m base grant_num), p)
          end
      | Some false => (Err NOMEM, p)
      | None => (Err FAIL, p)
      end
  end.

(** The grant is left when the entered layout is dropped. *)
Definition drop_layout (l : EnteredLayout) p : proc := leave_grant (el_grant_num l) p.

Definition subscribe (upcall : Upcall) (m : Memory) p :
    result Upcall (Upcall * ErrorCode) * Memory * proc :=
  match enter_grant_kernel_managed (driver_num (upcall_id upcall)) m p with
  | (Err e, p) => (Err (upcall, e), m, p)
  | (Ok l, p) =>
      let i := subscribe_num (upcall_id upcall) in
      if i <? get_upcalls_number l m then
        let saved := read_upcall m (upcalls_array l) i in
        let old := mkUpcall (process_id p) (upcall_id upcall) (saved_appdata saved) (saved_fn_ptr saved) in
        let m := write_pair (upcalls_array l) i (upcall_appdata upcall) (as_ptr (upcall_fn_ptr upcall)) m in
        (Ok old, m, drop_layout l p)
      else (Err (upcall, NOSUPPORT), m, drop_layout l p)
  end.

Definition allow_ro (driver allow_num : Z) (buffer : ProcessBuffer) (m : Memory) p :
    result ProcessBuffer (ProcessBuffer * ErrorCode) * Memory * proc :=
  match enter_grant_kernel_managed driver m p with
  | (Err e, p) => (Err (buffer, e), m, p)
  | (Ok l, p) =>
      if allow_num <? get_allow_ro_number l m then
        let saved := read_allow m (allow_ro_array l) allow_num in
        let old := mkProcessBuffer (saved_ptr saved) (saved_len saved) (process_id p) in
        let m := write_pair (allow_ro_array l) allow_num (buf_ptr buffer) (buf_len buffer) m in
        (Ok old, m, drop_layout l p)
      else (Err (buffer, NOSUPPORT), m, drop_layout l p)
  end.

Definition allow_rw (driver allow_num : Z) (buffer : ProcessBuffer) (m : Memory) p :
    result ProcessBuffer (ProcessBuffer * ErrorCode) * Memory * proc :=
  match enter_grant_kernel_managed driver m p with
  | (Err e, p) => (Err (buffer, e), m, p)
  | (Ok l, p) =>
      if allow_num <? get_allow_rw_number l m then
        let saved := read_allow m (allow_rw_array l) allow_num in
        let old := mkProcessBuffer (saved_ptr saved) (saved_len saved) (process_id p) in
        let m := write_pair (allow_rw_array l) allow_num (buf_ptr buffer) (buf_len buffer) m in
        (Ok old, m, drop_layout l p)
      else (Err (buffer, NOSUPPORT), m, drop_layout l p)
  end.

(** ** Capsule access: [ProcessGrant]

    Entering a grant with a capsule's closure is in KernelSys.v, since the
    closure may use the whole system. *)

Record GrantType := mkGrantType {
  gt_driver_num : Z;
  gt_grant_num : Z;
  gt_upcalls : Z;
  gt_allow_ros : Z;
  gt_allow_rws : Z;
  gt_size : Z;
  gt_align : Z;
}.

(** The allocation made on the first use of a grant; [None] when it is there. *)
Definition ProcessGrant_new_inner (g : GrantType) (k : Kernel) (m : Memory) p :
    outcome (result (option Z) ProcessError * Kernel * Memory * proc) :=
  match grant_is_allocated (gt_grant_num g) p with
  | None => Ret (Err InactiveApp, k, m, p)
  | Some true => Ret (Ok None, k, m, p)
  | Some false =>
      let alloc_align := grant_align (gt_align g) in
      alloc_size ← grant_size (gt_upcalls g) (gt_allow_ros g) (gt_allow_rws g) (gt_size g) (gt_align g);
      '(ok, k, p) ← allocate_grant (gt_grant_num g) (gt_driver_num g) alloc_size alloc_align k p;
      if negb ok then Ret (Err OutOfMemory, k, m, p)
      else match enter_grant (gt_grant_num g) p with
      | (Err e, p) => Ret (Err e, k, m, p)
      | (Ok grant_ptr, p) =>
          let '(l, m) := initialize_from_counts grant_ptr (gt_upcalls g) (gt_allow_ros g)
                           (gt_allow_rws g) (gt_grant_num g) m in
          let p := drop_layout l p in
          t ← offset_of_grant_data_t grant_ptr alloc_size (gt_size g);
          Ret (Ok (Some t), k, m, p)
      end
  end.

(** [T::default()] written at the data's address. *)
Definition ProcessGrant_new (write_default : Z → Memory → Memory) (g : GrantType)
    (k : Kernel) (m : Memory) p : outcome (result unit ProcessError * Kernel * Memory * proc) :=
  '(r, k, m, p) ← ProcessGrant_new_inner g k m p;
  match r with
  | Err e => Ret (Err e, k, m, p)
  | Ok (Some t) => Ret (Ok tt, k, write_default t m, p)
  | Ok None => Ret (Ok tt, k, m, p)
  end.

Definition new_if_allocated (g : GrantType) p : bool :=
  match grant_is_allocated (gt_grant_num g) p with Some true => true | _ => false end.

(** [GrantRegionAllocator::alloc_n_raw_inner]. *)
Definition alloc_n_raw_inner (num_items single_alloc_size alloc_align : Z) p :
    outcome (result (Z * Z) ProcessError * proc) :=
  if usize_bound <=? single_alloc_size * num_items then Ret (Err OutOfMemory, p)
  else
    '(r, p) ← allocate_custom_grant (single_alloc_size * num_items) alloc_align p;
    Ret (match r with None => Err OutOfMemory | Some x => Ok x end, p).

End grants.
