(* ===== verification/GrantTheorems.v ===== *)
(** * Grants: theorems

    [grant_repr] is the abstract view of an allocation: three lists of saved
    pairs.  Initialisation establishes it and the system calls refine updates
    of the lists. *)

From stdpp Require Import gmap.
From S2P Require Import Prelude Syscall Mpu RingBuffer Tbf.
From S2P Require Import ProcessData Process ProcessProofs ProcessCreate ProcessTheorems Grant.

(** ** Arrays of pairs in memory *)

Definition pairs (m : Memory) (arr : Z) (l : list (Z * Z)) : Prop :=
  ∀ i x y, l !! i = Some (x, y) →
    read_word m (elem_addr arr (Z.of_nat i)) = x ∧ read_word m (elem_addr arr (Z.of_nat i) + WORD) = y.

Lemma read_write_eq m a v : read_word (<[a := v]> m) a = v.
Proof. unfold read_word. by rewrite lookup_insert_eq. Qed.
Lemma read_write_ne m a b v : a ≠ b → read_word (<[b := v]> m) a = read_word m a.
Proof. intros. unfold read_word. by rewrite lookup_insert_ne. Qed.

Lemma elem_addr_add arr n i : elem_addr (elem_addr arr n) i = elem_addr arr (n + i).
Proof. unfold elem_addr, SAVED_SIZE. lia. Qed.

Lemma write_pair_read arr i x y m :
  read_word (write_pair arr i x y m) (elem_addr arr i) = x ∧
  read_word (write_pair arr i x y m) (elem_addr arr i + WORD) = y.
Proof.
  unfold write_pair, WORD. split; [|apply read_write_eq].
  rewrite read_write_ne by lia. apply read_write_eq.
Qed.

Lemma write_pair_frame arr i x y m a :
  a ≠ elem_addr arr i → a ≠ elem_addr arr i + WORD → read_word (write_pair arr i x y m) a = read_word m a.
Proof. intros. unfold write_pair. by rewrite !read_write_ne. Qed.

Lemma pairs_write m arr l (i : nat) x y :
  pairs m arr l → pairs (write_pair arr (Z.of_nat i) x y m) arr (<[i := (x, y)]> l).
Proof.
  intros H j u v Hj. destruct (decide (i = j)) as [->|Hne].
  - assert (j < length l)%nat by (apply lookup_lt_Some in Hj; by rewrite length_insert in Hj).
    rewrite list_lookup_insert_eq in Hj by done. injection Hj as -> ->. apply write_pair_read.
  - rewrite list_lookup_insert_ne in Hj by done. apply H in Hj as [? ?].
    unfold elem_addr, SAVED_SIZE, WORD in *.
    rewrite !write_pair_frame by (unfold elem_addr, SAVED_SIZE, WORD; lia). done.
Qed.

Lemma write_default_array_frame arr i n m a :
  ¬ elem_addr arr i ≤ a < elem_addr arr (i + Z.of_nat n) →
  read_word (write_default_array arr i n m) a = read_word m a.
Proof.
  revert i m. induction n as [|n IH]; intros i m Ha; [done|].
  cbn [write_default_array]. unfold elem_addr, SAVED_SIZE, WORD in *.
  rewrite IH by lia. apply write_pair_frame; unfold elem_addr, SAVED_SIZE, WORD; lia.
Qed.

Lemma write_default_array_zero arr i n m j :
  i ≤ j < i + Z.of_nat n →
  read_word (write_default_array arr i n m) (elem_addr arr j) = 0 ∧
  read_word (write_default_array arr i n m) (elem_addr arr j + WORD) = 0.
Proof.
  revert i m. induction n as [|n IH]; intros i m Hj; [lia|]. cbn [write_default_array].
  destruct (decide (i = j)) as [<-|]; [|apply IH; lia].
  rewrite !write_default_array_frame by (unfold elem_addr, SAVED_SIZE, WORD; lia).
  apply write_pair_read.
Qed.

(** ** Counters *)

Lemma pack_counters_value u ro rw :
  0 ≤ u < 256 → 0 ≤ ro < 256 → 0 ≤ rw < 256 →
  pack_counters u ro rw = u + 256 * ro + 65536 * rw.
Proof.
  intros. unfold pack_counters, from_be_bytes. cbn [foldl].
  rewrite !lor_shift_byte by lia. lia.
Qed.

(** The three byte fields read back. *)
Lemma counters_fields u ro rw :
  0 ≤ u < 256 → 0 ≤ ro < 256 → 0 ≤ rw < 256 →
  let c := pack_counters u ro rw in
  Z.land (Z.shiftr c 0) 255 = u ∧ Z.land (Z.shiftr c 8) 255 = ro ∧ Z.land (Z.shiftr c 16) 255 = rw.
Proof.
  intros Hu Hro Hrw c. unfold c. rewrite pack_counters_value by done.
  change 255 with (Z.ones 8). rewrite !Z.land_ones, !Z.shiftr_div_pow2 by lia.
  change (2 ^ 0) with 1. change (2 ^ 8) with 256. change (2 ^ 16) with 65536.
  rewrite Z.div_1_r. split_and!.
  - replace (u + 256 * ro + 65536 * rw) with (u + (ro + 256 * rw) * 256) by lia.
    rewrite Z.mod_add by lia. apply Z.mod_small. lia.
  - replace ((u + 256 * ro + 65536 * rw) / 256) with (ro + rw * 256).
    + rewrite Z.mod_add by lia. apply Z.mod_small. lia.
    + apply Z.div_unique with u; lia.
  - replace ((u + 256 * ro + 65536 * rw) / 65536) with rw; [apply Z.mod_small; lia|].
    apply Z.div_unique with (u + 256 * ro); lia.
Qed.

(** ** The abstract view of an allocation *)

Record Slots := mkSlots {
  sl_upcalls : list (Z * Z);
  sl_ro : list (Z * Z);
  sl_rw : list (Z * Z);
}.

Definition slots_all (s : Slots) : list (Z * Z) := sl_upcalls s ++ sl_ro s ++ sl_rw s.

Record grant_repr (m : Memory) (base : Z) (s : Slots) : Prop := {
  gr_counts : Z.of_nat (length (sl_upcalls s)) < 256 ∧ Z.of_nat (length (sl_ro s)) < 256 ∧
              Z.of_nat (length (sl_rw s)) < 256;
  gr_counters : read_word m base = pack_counters (Z.of_nat (length (sl_upcalls s)))
                  (Z.of_nat (length (sl_ro s))) (Z.of_nat (length (sl_rw s)));
  gr_pairs : pairs m (base + WORD) (slots_all s);
}.

(** End of the kernel-managed part. *)
Definition slots_end (base : Z) (s : Slots) : Z :=
  elem_addr (base + WORD) (Z.of_nat (length (slots_all s))).

Section repr.
Context (m : Memory) (base : Z) (s : Slots) (R : grant_repr m base s).
Abbreviation u := (Z.of_nat (length (sl_upcalls s))).
Abbreviation ro := (Z.of_nat (length (sl_ro s))).

(** What the kernel reads at the base of an initialised grant. *)
Lemma read_from_base_repr n :
  read_from_base m base n
  = mkEnteredLayout n base (base + WORD) (elem_addr (base + WORD) u) (elem_addr (base + WORD) (u + ro)) ∧
  let l := read_from_base m base n in
  get_upcalls_number l m = u ∧ get_allow_ro_number l m = ro ∧
  get_allow_rw_number l m = Z.of_nat (length (sl_rw s)).
Proof.
  destruct R as [(? & ? & ?) Hc _].
  destruct (counters_fields u ro (Z.of_nat (length (sl_rw s)))) as (F1 & F2 & F3); [lia..|].
  rewrite <- Hc in F1, F2, F3.
  unfold read_from_base, get_upcalls_number, get_allow_ro_number, get_allow_rw_number, get_counter_offset.
  cbn [counters_ptr]. rewrite Z.shiftr_0_r in F1. rewrite F1, F2, F3, elem_addr_add.
  rewrite Z.shiftr_0_r. done.
Qed.

(** Reading and replacing one element of the three arrays. *)
Lemma repr_write (k : nat) x y s' :
  length (sl_upcalls s') = length (sl_upcalls s) → length (sl_ro s') = length (sl_ro s) →
  length (sl_rw s') = length (sl_rw s) →
  slots_all s' = <[k := (x, y)]> (slots_all s) →
  grant_repr (write_pair (base + WORD) (Z.of_nat k) x y m) base s'.
Proof.
  intros E1 E2 E3 E. destruct R as [C Hc P]. split; rewrite ?E1, ?E2, ?E3; [done| |].
  - rewrite write_pair_frame; [done|unfold elem_addr, SAVED_SIZE, WORD; lia..].
  - rewrite E. by apply pairs_write.
Qed.
End repr.

(** Initialisation gives empty slots and leaves other memory alone. *)
Definition empty_slots (u ro rw : Z) : Slots :=
  mkSlots (replicate (Z.to_nat u) (0, 0)) (replicate (Z.to_nat ro) (0, 0)) (replicate (Z.to_nat rw) (0, 0)).

Lemma initialize_repr base u ro rw n m :
  0 ≤ u < 256 → 0 ≤ ro < 256 → 0 ≤ rw < 256 →
  let '(l, m') := initialize_from_counts base u ro rw n m in
  l = read_from_base m' base n ∧ grant_repr m' base (empty_slots u ro rw) ∧
  ∀ a, ¬ base ≤ a < slots_end base (empty_slots u ro rw) → read_word m' a = read_word m a.
Proof.
  intros Hu Hro Hrw. unfold initialize_from_counts. rewrite !elem_addr_add.
  set (m1 := <[base := pack_counters u ro rw]> m).
  set (m2 := write_default_array (base + WORD) 0 (Z.to_nat u) m1).
  set (m3 := write_default_array (elem_addr (base + WORD) u) 0 (Z.to_nat ro) m2).
  set (m4 := write_default_array (elem_addr (base + WORD) (u + ro)) 0 (Z.to_nat rw) m3).
  assert (Hend : slots_end base (empty_slots u ro rw) = elem_addr (base + WORD) (u + ro + rw)).
  { unfold slots_end, slots_all. cbn. rewrite !length_app, !length_replicate. f_equal. lia. }
  assert (Rd : grant_repr m4 base (empty_slots u ro rw)).
  { split; cbn [empty_slots sl_upcalls sl_ro sl_rw]; rewrite ?length_replicate, ?Z2Nat.id by lia.
    - lia.
    - unfold m4, m3, m2. rewrite !write_default_array_frame
        by (unfold elem_addr, SAVED_SIZE, WORD; lia). apply read_write_eq.
    - intros i x y Hi. unfold slots_all in Hi. cbn in Hi.
      assert (Hxy : x = 0 ∧ y = 0 ∧ Z.of_nat i < u + ro + rw).
      { pose proof (lookup_lt_Some _ _ _ Hi) as Hl. rewrite !length_app, !length_replicate in Hl.
        rewrite <- !replicate_add in Hi. apply lookup_replicate in Hi as [[= -> ->] _]. lia. }
      destruct Hxy as (-> & -> & Hlt). unfold m4, m3, m2.
      destruct (decide (Z.of_nat i < u)); [|destruct (decide (Z.of_nat i < u + ro))].
      + rewrite !(write_default_array_frame (elem_addr _ _))
          by (unfold elem_addr, SAVED_SIZE, WORD; lia). apply write_default_array_zero. lia.
      + rewrite !(write_default_array_frame (elem_addr _ (u + ro)))
          by (unfold elem_addr, SAVED_SIZE, WORD; lia).
        replace (Z.of_nat i) with (u + (Z.of_nat i - u)) by lia. rewrite <- (elem_addr_add _ u).
        apply write_default_array_zero. lia.
      + replace (Z.of_nat i) with (u + ro + (Z.of_nat i - (u + ro))) by lia.
        rewrite <- (elem_addr_add _ (u + ro)).
        apply write_default_array_zero. lia. }
  split_and!; [|done|].
  - destruct (read_from_base_repr m4 base _ Rd n) as [-> _]. cbn.
    by rewrite !length_replicate, !Z2Nat.id by lia.
  - rewrite Hend. intros a Ha. unfold m4, m3, m2, m1.
    rewrite !write_default_array_frame by (unfold elem_addr, SAVED_SIZE, WORD in *; lia).
    apply read_write_ne. unfold elem_addr, SAVED_SIZE, WORD in *. lia.
Qed.

(** ** Sizes *)

Lemma land_low x a : 0 ≤ a → Z.land x (2 ^ a - 1) = x mod 2 ^ a.
Proof. intros. rewrite <- Z.land_ones by done. f_equal. rewrite Z.ones_equiv. lia. Qed.

Lemma grant_size_spec u ro rw ts a :
  0 ≤ u < 256 → 0 ≤ ro < 256 → 0 ≤ rw < 256 → 0 ≤ ts → 0 ≤ a →
  let kms := WORD + SAVED_SIZE * (u + ro + rw) in
  kms + 2 ^ a + ts ≤ isize_max →
  ∃ pad, grant_size u ro rw ts (2 ^ a) = Ret (kms + pad + ts) ∧ 0 ≤ pad < 2 ^ a ∧
    (kms + pad) mod 2 ^ a = 0.
Proof.
  intros Hu Hro Hrw Hts Ha kms Hb. unfold WORD, SAVED_SIZE in kms.
  assert (HA : 0 < 2 ^ a) by lia.
  pose proof (Z.mod_pos_bound kms (2 ^ a) HA) as Hm.
  exists ((2 ^ a - kms mod 2 ^ a) mod 2 ^ a).
  pose proof (Z.mod_pos_bound (2 ^ a - kms mod 2 ^ a) (2 ^ a) HA) as Hp.
  split_and!; [|lia|lia|].
  - unfold grant_size, WORD, SAVED_SIZE. unfold kms in Hb.
    rewrite !umul_ok by lia. cbn [mbind outcome_bind].
    rewrite (uadd_ok 4) by lia. cbn [mbind outcome_bind].
    rewrite (uadd_ok (4 + u * 8)) by lia. cbn [mbind outcome_bind].
    rewrite (uadd_ok (4 + u * 8 + ro * 8)) by lia. cbn [mbind outcome_bind].
    replace (4 + u * 8 + ro * 8 + rw * 8) with kms by (unfold kms; lia). fold kms in Hb.
    rewrite usub_ok by lia. cbn [mbind outcome_bind]. rewrite !land_low by done.
    rewrite usub_ok by lia. cbn [mbind outcome_bind].
    rewrite !land_low by done.
    rewrite !uadd_ok by lia. cbn [mbind outcome_bind]. rewrite uadd_ok by lia. done.
  - rewrite Zplus_mod_idemp_r.
    replace (kms + (2 ^ a - kms mod 2 ^ a)) with ((kms / 2 ^ a + 1) * 2 ^ a)
      by (pose proof (Z.div_mod kms (2 ^ a)); lia).
    apply Z.mod_mul. lia.
Qed.

Lemma grant_align_pow a : 0 ≤ a → grant_align (2 ^ a) = 2 ^ Z.max a 2.
Proof.
  intros. unfold grant_align, WORD. change 4 with (2 ^ 2). destruct (Z.max_spec a 2) as [[? ->]|[? ->]].
  - apply Z.max_l. apply Z.pow_le_mono_r; lia.
  - apply Z.max_r. apply Z.pow_le_mono_r; lia.
Qed.

Lemma aligned_weaken x a b : 0 ≤ b ≤ a → x mod 2 ^ a = 0 → x mod 2 ^ b = 0.
Proof.
  intros Hb H. apply Z.mod_divide; [lia|].
  apply (Z.divide_trans _ (2 ^ a)); [|apply Z.mod_divide; [lia|done]].
  exists (2 ^ (a - b)). rewrite <- Z.pow_add_r by lia. f_equal. lia.
Qed.

Section theorems.
Context {Hw Config Stored : Type} `{!MPU Hw Config} `{!UserspaceKernelBoundary Stored}.
Abbreviation proc := (Process Config Stored).
Implicit Type p : proc.

(** ** System calls on the saved slots *)

(** Driver [drv] has the allocated, free grant [n] at [base]. *)
Record grant_ready (drv n base : Z) p : Prop := {
  ready_running : is_running p = true;
  ready_lookup : lookup_grant_from_driver_num drv p = Ok n;
  ready_entry : ∃ gs, grant_pointers p = Some gs ∧
    gs !! Z.to_nat n = Some (mkGrantPointerEntry drv base);
  ready_base : 0 < base < usize_bound ∧ base mod 2 = 0;
}.

Lemma grant_ready_allocated drv n base p :
  grant_ready drv n base p → grant_is_allocated n p = Some true.
Proof.
  intros [Hr _ (gs & Hg & He) [? _]]. unfold grant_is_allocated. rewrite Hr, Hg, He. cbn.
  destruct (Z.eqb_spec base 0); [lia|done].
Qed.

Lemma grant_ready_enter drv n base p :
  grant_ready drv n base p →
  ∃ p1, enter_grant n p = (Ok base, p1) ∧ leave_grant n p1 = p ∧ process_id p1 = process_id p.
Proof.
  intros [Hr _ (gs & Hg & He) [Hb Hev]].
  destruct (enter_leave_spec n gs _ p Hr Hg He) as (p1 & E1 & _ & E3); [cbn; lia|done|].
  exists p1. split_and!; [done..|]. unfold enter_grant in E1. rewrite Hr, Hg, He in E1.
  cbn [negb ge_grant_ptr] in E1. case_match; [done|]. by injection E1 as <-.
Qed.

Lemma enter_kernel_managed drv n base m p :
  grant_ready drv n base p →
  ∃ p1, enter_grant_kernel_managed drv m p = (Ok (read_from_base m base n), p1) ∧
    leave_grant n p1 = p ∧ process_id p1 = process_id p.
Proof.
  intros R. pose proof (grant_ready_allocated _ _ _ _ R) as A.
  destruct (grant_ready_enter _ _ _ _ R) as (p1 & E1 & E2 & E3).
  exists p1. split_and!; try done. unfold enter_grant_kernel_managed.
  by rewrite (ready_lookup _ _ _ _ R), A, E1.
Qed.

Lemma pairs_read m arr l i x y :
  pairs m arr l → l !! i = Some (x, y) →
  read_upcall m arr (Z.of_nat i) = mkSavedUpcall x (NonNull_new y) ∧
  read_allow m arr (Z.of_nat i) = mkSavedAllow x y.
Proof. intros P Hi. apply P in Hi as [E1 E2]. unfold read_upcall, read_allow. by rewrite E1, E2. Qed.

Lemma write_pair_shift arr n i x y m :
  write_pair (elem_addr arr n) i x y m = write_pair arr (n + i) x y m.
Proof. unfold write_pair. by rewrite elem_addr_add. Qed.

(** [w] writes only inside the slots of the grant. *)
Definition only_slots (base : Z) (s : Slots) (m m' : Memory) : Prop :=
  ∀ a, ¬ base + WORD ≤ a < slots_end base s → read_word m' a = read_word m a.

Lemma write_slot_frame base s (k : nat) x y m :
  (k < length (slots_all s))%nat → only_slots base s m (write_pair (base + WORD) (Z.of_nat k) x y m).
Proof.
  intros Hk a Ha. unfold slots_end, elem_addr, SAVED_SIZE, WORD in *.
  apply write_pair_frame; unfold elem_addr, SAVED_SIZE, WORD; lia.
Qed.

(** Reading and replacing element [i] of the array [seg] that starts after
    [pre] in the allocation. *)
Lemma slot_swap m base s s' pre seg post (i : nat) x y u v :
  grant_repr m base s → slots_all s = pre ++ seg ++ post → seg !! i = Some (x, y) →
  slots_all s' = pre ++ <[i := (u, v)]> seg ++ post →
  length (sl_upcalls s') = length (sl_upcalls s) → length (sl_ro s') = length (sl_ro s) →
  length (sl_rw s') = length (sl_rw s) →
  let arr := elem_addr (base + WORD) (Z.of_nat (length pre)) in
  let m' := write_pair arr (Z.of_nat i) u v m in
  read_upcall m arr (Z.of_nat i) = mkSavedUpcall x (NonNull_new y) ∧
  read_allow m arr (Z.of_nat i) = mkSavedAllow x y ∧
  grant_repr m' base s' ∧ only_slots base s m m'.
Proof.
  intros R Ea Hi Ea' L1 L2 L3 arr m'. pose proof (lookup_lt_Some _ _ _ Hi) as Hlt.
  assert (Ha : slots_all s !! (length pre + i)%nat = Some (x, y)).
  { rewrite Ea, lookup_app_r, Nat.add_sub' by lia. by apply lookup_app_l_Some. }
  assert (Hm : m' = write_pair (base + WORD) (Z.of_nat (length pre + i)) u v m)
    by (unfold m', arr; by rewrite write_pair_shift, <- Nat2Z.inj_add).
  assert (Hx : elem_addr arr (Z.of_nat i) = elem_addr (base + WORD) (Z.of_nat (length pre + i)))
    by (unfold arr; by rewrite elem_addr_add, <- Nat2Z.inj_add).
  unfold read_upcall, read_allow. rewrite Hx, Hm.
  destruct (gr_pairs _ _ _ R _ _ _ Ha) as [-> ->]. split_and!; [done..| |].
  - apply repr_write with s; try done. by rewrite Ea, Ea', insert_app_r, insert_app_l.
  - apply write_slot_frame. by apply lookup_lt_Some in Ha.
Qed.

(** The three system calls on an entered grant. *)
Section swap.
Context (drv n base : Z) (s : Slots) (m : Memory) (p : proc).
Context (G : grant_ready drv n base p) (R : grant_repr m base s).

Lemma swap_enter :
  ∃ p1, enter_grant_kernel_managed drv m p = (Ok (read_from_base m base n), p1) ∧
    drop_layout (read_from_base m base n) p1 = p ∧ process_id p1 = process_id p.
Proof. destruct (enter_kernel_managed drv n base m p G) as (p1 & ? & ? & ?). by exists p1. Qed.

Lemma subscribe_swap u i :
  upcall_id u = mkUpcallId drv (Z.of_nat i) →
  match sl_upcalls s !! i with
  | Some (x, y) => ∃ m',
      subscribe u m p = (Ok (mkUpcall (process_id p) (upcall_id u) x (NonNull_new y)), m', p) ∧
      grant_repr m' base (mkSlots (<[i := (upcall_appdata u, as_ptr (upcall_fn_ptr u))]> (sl_upcalls s))
                            (sl_ro s) (sl_rw s)) ∧ only_slots base s m m'
  | None => subscribe u m p = (Err (u, NOSUPPORT), m, p)
  end.
Proof.
  intros Hid. destruct swap_enter as (p1 & E1 & E2 & E3).
  destruct (read_from_base_repr m base s R n) as (El & Hu & _ & _).
  unfold subscribe. rewrite Hid. cbn [driver_num subscribe_num]. rewrite E1, Hu, E2, E3, El.
  cbn [upcalls_array]. destruct (sl_upcalls s !! i) as [[x y]|] eqn:Hi.
  - pose proof (lookup_lt_Some _ _ _ Hi) as Hlt. rewrite (proj2 (Z.ltb_lt _ _)) by lia.
    edestruct (slot_swap m base s (mkSlots (<[i := _]> (sl_upcalls s)) (sl_ro s) (sl_rw s)) [] _ _ i x y
      (upcall_appdata u) (as_ptr (upcall_fn_ptr u)) R eq_refl Hi eq_refl) as (S1 & _ & S3 & S4);
      [apply length_insert|done..|].
    unfold elem_addr in S1, S3, S4 at 1. cbn [length] in *. rewrite Z.mul_0_r, Z.add_0_r in *.
    rewrite S1. by eexists.
  - apply lookup_ge_None in Hi. by rewrite (proj2 (Z.ltb_ge _ _)) by lia.
Qed.

Lemma allow_ro_swap b i :
  match sl_ro s !! i with
  | Some (x, y) => ∃ m',
      allow_ro drv (Z.of_nat i) b m p = (Ok (mkProcessBuffer x y (process_id p)), m', p) ∧
      grant_repr m' base (mkSlots (sl_upcalls s) (<[i := (buf_ptr b, buf_len b)]> (sl_ro s)) (sl_rw s)) ∧
      only_slots base s m m'
  | None => allow_ro drv (Z.of_nat i) b m p = (Err (b, NOSUPPORT), m, p)
  end.
Proof.
  destruct swap_enter as (p1 & E1 & E2 & E3).
  destruct (read_from_base_repr m base s R n) as (El & _ & Hro & _).
  unfold allow_ro. rewrite E1, Hro, E2, E3, El. cbn [allow_ro_array].
  destruct (sl_ro s !! i) as [[x y]|] eqn:Hi.
  - pose proof (lookup_lt_Some _ _ _ Hi) as Hlt. rewrite (proj2 (Z.ltb_lt _ _)) by lia.
    edestruct (slot_swap m base s (mkSlots (sl_upcalls s) (<[i := _]> (sl_ro s)) (sl_rw s)) _ _ _ i x y
      (buf_ptr b) (buf_len b) R eq_refl Hi eq_refl) as (_ & S2 & S3 & S4);
      [done|apply length_insert|done|].
    rewrite S2. by eexists.
  - apply lookup_ge_None in Hi. by rewrite (proj2 (Z.ltb_ge _ _)) by lia.
Qed.

Lemma allow_rw_swap b i :
  match sl_rw s !! i with
  | Some (x, y) => ∃ m',
      allow_rw drv (Z.of_nat i) b m p = (Ok (mkProcessBuffer x y (process_id p)), m', p) ∧
      grant_repr m' base (mkSlots (sl_upcalls s) (sl_ro s) (<[i := (buf_ptr b, buf_len b)]> (sl_rw s))) ∧
      only_slots base s m m'
  | None => allow_rw drv (Z.of_nat i) b m p = (Err (b, NOSUPPORT), m, p)
  end.
Proof.
  destruct swap_enter as (p1 & E1 & E2 & E3).
  destruct (read_from_base_repr m base s R n) as (El & _ & _ & Hrw).
  unfold allow_rw. rewrite E1, Hrw, E2, E3, El. cbn [allow_rw_array].
  destruct (sl_rw s !! i) as [[x y]|] eqn:Hi.
  - pose proof (lookup_lt_Some _ _ _ Hi) as Hlt. rewrite (proj2 (Z.ltb_lt _ _)) by lia.
    destruct (slot_swap m base s (mkSlots (sl_upcalls s) (sl_ro s) (<[i := (buf_ptr b, buf_len b)]> (sl_rw s)))
      (sl_upcalls s ++ sl_ro s) (sl_rw s) [] i x y (buf_ptr b) (buf_len b) R) as (_ & S2 & S3 & S4);
      [unfold slots_all; by rewrite app_nil_r, app_assoc|done
      |unfold slots_all; cbn; by rewrite app_nil_r, app_assoc|done|done|apply length_insert|].
    rewrite length_app, Nat2Z.inj_add in *. rewrite S2. by eexists.
  - apply lookup_ge_None in Hi. by rewrite (proj2 (Z.ltb_ge _ _)) by lia.
Qed.
End swap.

(** C21.  Subscribe and allow swap exactly one slot: on a driver's allocated grant
    the call returns what the slot held and stores the new value, an index out
    of range is refused with NOSUPPORT and gives the argument back, and in
    both cases the process (its entered flag included), the other slots and
    all other memory stay as they were. *)
Theorem syscalls_swap_slots drv n base s m p :
  grant_ready drv n base p → grant_repr m base s →
  (∀ u i, upcall_id u = mkUpcallId drv (Z.of_nat i) →
     match sl_upcalls s !! i with
     | Some (x, y) => ∃ m',
         subscribe u m p = (Ok (mkUpcall (process_id p) (upcall_id u) x (NonNull_new y)), m', p) ∧
         grant_repr m' base (mkSlots (<[i := (upcall_appdata u, as_ptr (upcall_fn_ptr u))]> (sl_upcalls s))
                               (sl_ro s) (sl_rw s)) ∧ only_slots base s m m'
     | None => subscribe u m p = (Err (u, NOSUPPORT), m, p)
     end) ∧
  (∀ b i,
     match sl_ro s !! i with
     | Some (x, y) => ∃ m',
         allow_ro drv (Z.of_nat i) b m p = (Ok (mkProcessBuffer x y (process_id p)), m', p) ∧
         grant_repr m' base (mkSlots (sl_upcalls s) (<[i := (buf_ptr b, buf_len b)]> (sl_ro s)) (sl_rw s)) ∧
         only_slots base s m m'
     | None => allow_ro drv (Z.of_nat i) b m p = (Err (b, NOSUPPORT), m, p)
     end) ∧
  (∀ b i,
     match sl_rw s !! i with
     | Some (x, y) => ∃ m',
         allow_rw drv (Z.of_nat i) b m p = (Ok (mkProcessBuffer x y (process_id p)), m', p) ∧
         grant_repr m' base (mkSlots (sl_upcalls s) (sl_ro s) (<[i := (buf_ptr b, buf_len b)]> (sl_rw s))) ∧
         only_slots base s m m'
     | None => allow_rw drv (Z.of_nat i) b m p = (Err (b, NOSUPPORT), m, p)
     end).
Proof.
  intros G R. split_and!.
  - intros u i. by apply (subscribe_swap drv n).
  - intros b i. by apply (allow_ro_swap drv n).
  - intros b i. by apply (allow_rw_swap drv n).
Qed.

(** ** First use of a grant *)

Record grant_type_ok (g : GrantType) (a : Z) : Prop := {
  gto_num : 0 ≤ gt_grant_num g;
  gto_upcalls : 0 ≤ gt_upcalls g < 256;
  gto_ros : 0 ≤ gt_allow_ros g < 256;
  gto_rws : 0 ≤ gt_allow_rws g < 256;
  gto_align : gt_align g = 2 ^ a ∧ 0 ≤ a ≤ 31;
  gto_size : 0 ≤ gt_size g ∧
    WORD + SAVED_SIZE * (gt_upcalls g + gt_allow_ros g + gt_allow_rws g) + 2 ^ a + gt_size g ≤ isize_max;
}.

Definition type_slots (g : GrantType) : Slots :=
  empty_slots (gt_upcalls g) (gt_allow_ros g) (gt_allow_rws g).

Lemma type_slots_end g a base :
  grant_type_ok g a →
  slots_end base (type_slots g)
  = base + (WORD + SAVED_SIZE * (gt_upcalls g + gt_allow_ros g + gt_allow_rws g)).
Proof.
  intros []. unfold slots_end, slots_all, elem_addr, type_slots, empty_slots. cbn [sl_upcalls sl_ro sl_rw].
  rewrite !length_app, !length_replicate. unfold WORD, SAVED_SIZE. lia.
Qed.

(** C10.  The first use of a grant by a process: the capsule's data lies inside
    the new allocation, aligned for its type, above the saved upcalls and
    buffers, and holds the words [dv] of the type's default value; the slots
    start out null; the block is aligned, in kernel-owned memory above the app
    break; the grant is left, found under its driver number; and no other memory
    was written.  [wd] is the code that writes the default value: these words,
    and nothing outside of the data. *)
Theorem grant_first_use g a wd (dv : list Z) k m p k' m' p' :
  layout p → 0 < memory_start p → grant_type_ok g a →
  (∀ t m x, ¬ t ≤ x < t + gt_size g → read_word (wd t m) x = read_word m x) →
  (∀ t m i v, dv !! i = Some v → read_word (wd t m) (t + WORD * Z.of_nat i) = v) →
  grant_is_allocated (gt_grant_num g) p = Some false →
  ProcessGrant_new wd g k m p = Ret (Ok tt, k', m', p') →
  ∃ base size t,
    grant_size (gt_upcalls g) (gt_allow_ros g) (gt_allow_rws g) (gt_size g) (gt_align g) = Ret size ∧
    offset_of_grant_data_t base size (gt_size g) = Ret t ∧
    t mod gt_align g = 0 ∧ base mod grant_align (gt_align g) = 0 ∧ slots_end base (type_slots g) ≤ t ∧ t + gt_size g = base + size ∧
    app_break p ≤ base ∧ base + size ≤ kernel_memory_break p ∧ kernel_memory_break p' = base ∧
    grant_ready (gt_driver_num g) (gt_grant_num g) base p' ∧
    grant_repr m' base (type_slots g) ∧
    (∀ i v, dv !! i = Some v → read_word m' (t + WORD * Z.of_nat i) = v) ∧
    (∀ x, ¬ base ≤ x < base + size → read_word m' x = read_word m x).
Proof.
  intros L Hms G Hwd Hdv Hal E. pose proof G as [Hn Hu Hro Hrw [Ha Ha31] [Hs Hb]].
  destruct (grant_size_spec (gt_upcalls g) (gt_allow_ros g) (gt_allow_rws g) (gt_size g) a)
    as (pad & Hsize & Hpad & Hmod); [done..|lia|done|].
  set (kms := WORD + _) in *. set (size := kms + pad + gt_size g) in *.
  assert (Hkms : 4 ≤ kms) by (unfold kms, WORD, SAVED_SIZE; lia).
  unfold ProcessGrant_new, ProcessGrant_new_inner in E. rewrite Hal in E.
  apply outcome_bind_Ret in E as ([[[r k1] m1] p1] & E1 & E).
  rewrite Ha, Hsize in E1. cbn [mbind outcome_bind] in E1.
  apply outcome_bind_Ret in E1 as ([[ok k2] p2] & E2 & E1).
  destruct ok; cbn [negb] in E1; [|injection E1 as <- <- <- <-; done].
  rewrite grant_align_pow in E2 by lia.
  apply allocate_grant_entry in E2
    as (Hr & -> & Hl & base & gs & Hg & He & Hb0 & Hba & Hlo & Hhi & Hk); [|done|done|done|lia|lia].
  rewrite (Z.max_l (Z.max a 2)) in Hba by lia.
  assert (Hrange : 0 < base < usize_bound)
    by (destruct L as [(? & ? & ?) [? ?] ? ?]; unfold size in *; lia).
  assert (R2 : grant_ready (gt_driver_num g) (gt_grant_num g) base p2).
  { split; [done|done|by exists gs|]. split; [done|].
    apply (even_of_aligned _ (Z.max a 2)); [lia|done]. }
  destruct (grant_ready_enter _ _ _ _ R2) as (p3 & En & Ev & _). rewrite En in E1.
  pose proof (initialize_repr base _ _ _ (gt_grant_num g) m Hu Hro Hrw) as HI.
  destruct (initialize_from_counts _ _ _ _ _ _) as [l m2]. destruct HI as (-> & RI & FI).
  unfold drop_layout in E1. cbn [read_from_base el_grant_num] in E1. rewrite Ev in E1.
  assert (Ho : offset_of_grant_data_t base size (gt_size g) = Ret (base + (kms + pad)))
    by (unfold offset_of_grant_data_t; rewrite usub_ok by (unfold size; lia); cbn; do 2 f_equal; unfold size; lia).
  rewrite Ho in E1. cbn [mbind outcome_bind] in E1. injection E1 as <- <- <- <-.
  injection E as <- <- <-.
  pose proof (type_slots_end g a base G) as Hend. fold kms in Hend.
  exists base, size, (base + (kms + pad)). rewrite Ha. fold (type_slots g) in RI, FI.
  split_and!; try done; try (unfold size in *; lia).
  - rewrite Z.add_mod by lia. rewrite Hmod, (aligned_weaken base (Z.max a 2) a) by (done || lia). done.
  - by rewrite grant_align_pow by lia.
  - destruct RI as [C1 C2 C3]. split; [done| |].
    + rewrite Hwd; [done|lia].
    + intros i x y Hi. pose proof (lookup_lt_Some _ _ _ Hi).
      unfold slots_end, elem_addr, SAVED_SIZE, WORD in *.
      rewrite !Hwd by lia. by apply C3.
  - intros i v Hi. by apply Hdv.
  - intros x Hx. rewrite Hwd, FI; [done|unfold size in *; lia..].
Qed.

End theorems.

(** ** Concrete instances

    A driver with two upcalls and one buffer of each kind on the process of
    ProcessTheorems.v. *)

#[local] Existing Instance ex_boundary.

Definition ex_grant_type : GrantType := mkGrantType 5 1 2 1 1 12 8.

Lemma ex_grant_type_ok : grant_type_ok ex_grant_type 3.
Proof. split; vm_compute; repeat split; congruence. Qed.

Definition ex_new : outcome (result unit ProcessError * Kernel * Memory * Process unit unit) :=
  ProcessGrant_new (λ t m, <[t := 7]> m) ex_grant_type ex_kernel1 ∅ ex_running.
Definition ex_grant_mem : Memory := match ex_new with Ret (_, _, m, _) => m | Panic => ∅ end.
Definition ex_grant_proc : Process unit unit := proc_of ex_running ex_new.

Lemma ex_wd (t : Z) (m : Memory) x :
  ¬ t ≤ x < t + 12 → read_word (<[t := 7]> m) x = read_word m x.
Proof. intros. apply read_write_ne. lia. Qed.

(** The allocation the example makes. *)
Lemma grant_first_use_witness :
  ∃ base size t, grant_size 2 1 1 12 8 = Ret size ∧ t mod 8 = 0 ∧
    grant_ready 5 1 base ex_grant_proc ∧ grant_repr ex_grant_mem base (empty_slots 2 1 1) ∧ read_word ex_grant_mem t = 7.
Proof.
  destruct (grant_first_use ex_grant_type 3 (λ t m, <[t := 7]> m) [7] ex_kernel1 ∅ ex_running
    ex_kernel1 ex_grant_mem ex_grant_proc ex_running_layout) as (base & size & t & H1 & _ & H2 & _ & _ & _ & _ & _ & _ & H3 & H4 & H5 & _).
  - vm_compute. reflexivity.
  - exact ex_grant_type_ok.
  - exact ex_wd.
  - intros t m [|i] v Hi; [|done]. injection Hi as <-. unfold read_word. rewrite Z.add_0_r. by rewrite lookup_insert_eq.
  - vm_compute. reflexivity.
  - vm_compute. reflexivity.
  - exists base, size, t. split; [exact H1|]. split; [exact H2|]. split; [exact H3|]. split; [exact H4|].
    pose proof (H5 0%nat 7 eq_refl) as H6. by rewrite Z.add_0_r in H6.
Defined.

Lemma ex_grant_ready : grant_ready 5 1 536888248 ex_grant_proc.
Proof.
  split; [reflexivity|reflexivity| |split; [lia|reflexivity]].
  eexists. split; vm_compute; reflexivity.
Qed.

Lemma ex_grant_repr : grant_repr ex_grant_mem 536888248 (empty_slots 2 1 1).
Proof.
  split; [by vm_compute|by vm_compute|].
  intros i x y Hi. do 4 (destruct i as [|i]; [injection Hi as <- <-; by vm_compute|]). done.
Qed.

(** Subscribing twice returns the first upcall. *)
Lemma syscalls_swap_slots_witness :
  ∃ m1 m2,
    let up fn d := mkUpcall (process_id ex_grant_proc) (mkUpcallId 5 1) d (Some fn) in
    subscribe (up 262200 9) ex_grant_mem ex_grant_proc
    = (Ok (mkUpcall (process_id ex_grant_proc) (mkUpcallId 5 1) 0 None), m1, ex_grant_proc) ∧
    subscribe (up 262300 8) m1 ex_grant_proc = (Ok (up 262200 9), m2, ex_grant_proc).
Proof.
  destruct (syscalls_swap_slots 5 1 536888248 (empty_slots 2 1 1) ex_grant_mem ex_grant_proc
    ex_grant_ready ex_grant_repr) as [H _].
  destruct (H (mkUpcall (process_id ex_grant_proc) (mkUpcallId 5 1) 9 (Some 262200)) 1%nat eq_refl)
    as (m1 & E1 & R1 & _).
  destruct (syscalls_swap_slots 5 1 536888248 _ m1 ex_grant_proc ex_grant_ready R1) as [H1 _].
  destruct (H1 (mkUpcall (process_id ex_grant_proc) (mkUpcallId 5 1) 8 (Some 262300)) 1%nat eq_refl)
    as (m2 & E2 & _).
  exists m1, m2. split; [exact E1|exact E2].
Defined.
