(* ===== verification/KernelSys.v ===== *)
(** * The system state (kernel/src/kernel.rs, kernel/src/grant.rs)

    The kernel, the process table and the memory they share, as one state
    [Sys], and the state-and-panic monad [M] of the code that runs on it.
    [Ext] stands for everything else a kernel is linked with: the scheduler,
    timers, interrupts and the capsules' own state.

    A [&dyn Process] is the index of its slot in the table ([at_proc]); a
    [ProcessId] is looked up as the code does ([get_process]). *)

From stdpp Require Import gmap.
From S2P Require Import Prelude Syscall Mpu RingBuffer Tbf.
From S2P Require Import ProcessData Process Grant.

Record Sys (Hw Config Stored Ext : Type) := mkSys {
  sys_kernel : Kernel;
  sys_hw : Hw;
  sys_procs : list (option (Process Config Stored));
  sys_ram : gmap Z Z;
  sys_mem : Memory;
  sys_ext : Ext;
}.
Arguments mkSys {Hw Config Stored Ext}.
Arguments sys_kernel {Hw Config Stored Ext}.
Arguments sys_hw {Hw Config Stored Ext}.
Arguments sys_procs {Hw Config Stored Ext}.
Arguments sys_ram {Hw Config Stored Ext}.
Arguments sys_mem {Hw Config Stored Ext}.
Arguments sys_ext {Hw Config Stored Ext}.

(** ** The monad *)

Definition M (Hw Config Stored Ext A : Type) : Type :=
  Sys Hw Config Stored Ext → outcome (A * Sys Hw Config Stored Ext).

#[export] Instance M_ret Hw Config Stored Ext : MRet (M Hw Config Stored Ext) :=
  λ A a s, Ret (a, s).
#[export] Instance M_bind Hw Config Stored Ext : MBind (M Hw Config Stored Ext) :=
  λ A B f m s, match m s with Ret (a, s') => f a s' | Panic => Panic end.

Definition panic {Hw Config Stored Ext A} : M Hw Config Stored Ext A := λ _, Panic.

Lemma M_bind_Ret {Hw Config Stored Ext A B} (m : M Hw Config Stored Ext A)
    (f : A → M Hw Config Stored Ext B) s b s' :
  (m ≫= f) s = Ret (b, s') ↔ ∃ a s1, m s = Ret (a, s1) ∧ f a s1 = Ret (b, s').
Proof.
  unfold mbind, M_bind. destruct (m s) as [[a s1]|]; split.
  - intros H. by exists a, s1.
  - by intros (a' & s1' & [= <- <-] & H).
  - done.
  - by intros (? & ? & ? & _).
Qed.

Section sys.
Context {Hw Config Stored Ext : Type} `{!MPU Hw Config} `{!UserspaceKernelBoundary Stored}.
Abbreviation proc := (Process Config Stored).
Abbreviation sys := (Sys Hw Config Stored Ext).
Abbreviation M := (M Hw Config Stored Ext).

Definition get : M sys := λ s, Ret (s, s).
Definition set_ram (ram : gmap Z Z) : M unit :=
  λ s, Ret (tt, mkSys (sys_kernel s) (sys_hw s) (sys_procs s) ram (sys_mem s) (sys_ext s)).

(** Run process code on the process in slot [i].  A reference to a process is
    only ever made from an occupied slot. *)
Definition at_proc {A} (i : nat) (f : Kernel → Hw → Memory → proc → outcome (A * Kernel * Hw * Memory * proc)) : M A :=
  λ s,
    match sys_procs s !! i with
    | Some (Some p) =>
        '(a, k, hw, m, p) ← f (sys_kernel s) (sys_hw s) (sys_mem s) p;
        Ret (a, mkSys k hw (<[i := Some p]> (sys_procs s)) (sys_ram s) m (sys_ext s))
    | _ => Panic
    end.

(** Methods that only use the process. *)
Definition method {A} (i : nat) (f : proc → outcome (A * proc)) : M A :=
  at_proc i (λ k hw m p, '(a, p) ← f p; Ret (a, k, hw, m, p)).
Definition query {A} (i : nat) (f : proc → A) : M A :=
  method i (λ p, Ret (f p, p)).
Definition update (i : nat) (f : proc → proc) : M unit :=
  method i (λ p, Ret (tt, f p)).

(** ** Looking up processes *)

Definition get_process (id : ProcessId) (s : sys) : option nat :=
  match sys_procs s !! Z.to_nat (pid_index id) with
  | Some (Some p) => if ProcessId_eq (process_id p) id then Some (Z.to_nat (pid_index id)) else None
  | _ => None
  end.

Definition process_map_or {R} (dflt : R) (id : ProcessId) (f : nat → M R) : M R :=
  λ s, match get_process id s with Some i => f i s | None => Ret (dflt, s) end.

Definition processid_is_valid (id : ProcessId) (s : sys) : bool :=
  match sys_procs s !! Z.to_nat (pid_index id) with
  | Some (Some p) => pid_identifier (process_id p) =? pid_identifier id
  | _ => false
  end.

(** [ProcessId::index]. *)
Definition ProcessId_index (id : ProcessId) : M (option Z) :=
  λ s, Ret (if processid_is_valid id s then Some (pid_index id) else None, s).

(** [process_until] with a closure that only reads. *)
Fixpoint process_until_from {T} (f : proc → sys → option T) (s : sys) (ps : list (option proc)) :
    option T :=
  match ps with
  | [] => None
  | None :: ps => process_until_from f s ps
  | Some p :: ps => match f p s with Some t => Some t | None => process_until_from f s ps end
  end.

Definition process_until {T} (f : proc → sys → option T) : M (option T) :=
  λ s, Ret (process_until_from f s (sys_procs s), s).

(** ** Entering grants *)

Record GrantKernelData := mkGrantKernelData {
  gkd_upcalls : list SavedUpcall;
  gkd_allow_ro : list SavedAllow;
  gkd_allow_rw : list SavedAllow;
  gkd_driver_num : Z;
  gkd_process : nat;
}.

(** [schedule_upcall] of a capsule that entered the grant. *)
Definition schedule_upcall (gkd : GrantKernelData) (num : Z) (r : Z * Z * Z) :
    M (result unit UpcallError) :=
  match (if num <? 0 then None else gkd_upcalls gkd !! Z.to_nat num) with
  | None => mret (Err InvalidSubscribeNum)
  | Some saved =>
      pid ← query (gkd_process gkd) process_id;
      method (gkd_process gkd)
        (schedule (mkUpcall pid (mkUpcallId (gkd_driver_num gkd) num)
                     (saved_appdata saved) (saved_fn_ptr saved)) r.1.1 r.1.2 r.2)
  end.

Definition get_processbuffer (saved : list SavedAllow) (num : Z) (i : nat) :
    M (result ProcessBuffer ProcessError) :=
  match (if num <? 0 then None else saved !! Z.to_nat num) with
  | None => mret (Err AddressOutOfBounds)
  | Some s =>
      pid ← query i process_id;
      mret (Ok (mkProcessBuffer (saved_ptr s) (saved_len s) pid))
  end.

Definition get_readonly_processbuffer (gkd : GrantKernelData) (num : Z) :=
  get_processbuffer (gkd_allow_ro gkd) num (gkd_process gkd).
Definition get_readwrite_processbuffer (gkd : GrantKernelData) (num : Z) :=
  get_processbuffer (gkd_allow_rw gkd) num (gkd_process gkd).

(** The checked arithmetic of [outcome] inside [M]. *)
Definition lift {A} (o : outcome A) : M A := λ s, a ← o; Ret (a, s).

Definition access_grant_with_allocator {R} (g : GrantType) (i : nat)
    (fn : Z → GrantKernelData → M R) (panic_on_reenter : bool) : M (option R) :=
  entered ← method i (λ p, Ret (enter_grant (gt_grant_num g) p));
  match entered with
  | Err _ => if panic_on_reenter then panic else mret None
  | Ok grant_ptr =>
      alloc_size ← lift (grant_size (gt_upcalls g) (gt_allow_ros g) (gt_allow_rws g) (gt_size g) (gt_align g));
      '(l, slices) ← at_proc i (λ k hw m p,
        let l := read_from_base m grant_ptr (gt_grant_num g) in
        Ret (l, get_resource_slices l m, k, hw, m, p));
      data ← lift (offset_of_grant_data_t grant_ptr alloc_size (gt_size g));
      let '(upcalls, ros, rws) := slices in
      r ← fn data (mkGrantKernelData upcalls ros rws (gt_driver_num g) i);
      _ ← update i (drop_layout l);
      mret (Some r)
  end.

Definition Grant_enter {R} (write_default : Z → Memory → Memory) (g : GrantType)
    (id : ProcessId) (fn : Z → GrantKernelData → M R) : M (result R ProcessError) :=
  process_map_or (Err NoSuchApp) id (λ i,
    r ← at_proc i (λ k hw m p,
          '(r, k, m, p) ← ProcessGrant_new write_default g k m p; Ret (r, k, hw, m, p));
    match r with
    | Err e => mret (Err e)
    | Ok _ =>
        o ← access_grant_with_allocator g i fn true;
        match o with Some x => mret (Ok x) | None => panic end
    end).

End sys.

(** ** Running code on a known state *)

Section run.
Context {Hw Config Stored Ext : Type}.
Abbreviation proc := (Process Config Stored).
Abbreviation sys := (Sys Hw Config Stored Ext).
Abbreviation M := (M Hw Config Stored Ext).

(** A state with the process of one slot replaced. *)
Definition with_proc (i : nat) (p : proc) (s : sys) : sys :=
  mkSys (sys_kernel s) (sys_hw s) (<[i := Some p]> (sys_procs s)) (sys_ram s) (sys_mem s) (sys_ext s).

Lemma with_proc_lookup i p q (s : sys) :
  sys_procs s !! i = Some (Some q) → sys_procs (with_proc i p s) !! i = Some (Some p).
Proof. intros H. apply list_lookup_insert_eq. by eapply lookup_lt_Some. Qed.

Lemma with_proc_twice i p q (s : sys) : with_proc i p (with_proc i q s) = with_proc i p s.
Proof. unfold with_proc. cbn. by rewrite list_insert_insert_eq. Qed.

Lemma method_run {A} i (f : proc → outcome (A * proc)) (s : sys) p :
  sys_procs s !! i = Some (Some p) →
  method i f s = match f p with Ret (a, p') => Ret (a, with_proc i p' s) | Panic => Panic end.
Proof.
  intros H. unfold method, at_proc. rewrite H. unfold mbind, outcome_bind.
  destruct (f p) as [[a p']|]; [|done]. done.
Qed.

Lemma query_run {A} i (f : proc → A) (s : sys) p :
  sys_procs s !! i = Some (Some p) → query i f s = Ret (f p, s).
Proof.
  intros H. unfold query. erewrite method_run by done. unfold with_proc.
  rewrite list_insert_id by done. by destruct s.
Qed.

Lemma bind_run {A B} (m : M A) (f : A → M B) (s : sys) a s1 :
  m s = Ret (a, s1) → (m ≫= f) s = f a s1.
Proof. intros E. unfold mbind, M_bind. by rewrite E. Qed.

Lemma bind_panic {A B} (m : M A) (f : A → M B) (s : sys) : m s = Panic → (m ≫= f) s = Panic.
Proof. intros E. unfold mbind, M_bind. by rewrite E. Qed.

Lemma get_process_slot (s : sys) i p :
  sys_procs s !! i = Some (Some p) → pid_index (process_id p) = Z.of_nat i →
  get_process (process_id p) s = Some i.
Proof.
  intros H Hx. unfold get_process. rewrite Hx, Nat2Z.id, H. unfold ProcessId_eq. by rewrite Z.eqb_refl.
Qed.

Lemma processid_index_slot (s : sys) i p :
  sys_procs s !! i = Some (Some p) → pid_index (process_id p) = Z.of_nat i →
  ProcessId_index (process_id p) s = Ret (Some (Z.of_nat i), s).
Proof.
  intros H Hx. unfold ProcessId_index, processid_is_valid. rewrite Hx, Nat2Z.id, H. by rewrite Z.eqb_refl.
Qed.

End run.

(** Step over a bind whose first part the tactic [t] evaluates. *)
Ltac run t := erewrite bind_run by t; cbv beta iota.
