(* ===== verification/Ipc.v ===== *)
(** * Inter-process communication (kernel/src/ipc.rs) and process buffers
      (kernel/src/processbuffer.rs)

    The IPC driver keeps one upcall and one shared buffer per process in a
    grant; a notification is a task in the target's queue which the kernel
    turns into an upcall when it next schedules the target.

    KernelTheorems.v shows what a notification to oneself does. *)

From stdpp Require Import gmap.
From S2P Require Import Prelude Syscall Mpu RingBuffer Tbf.
From S2P Require Import ProcessData Process Grant KernelSys.

Section ipc.
Context {Hw Config Stored Ext : Type} `{!MPU Hw Config} `{!UserspaceKernelBoundary Stored}.
Abbreviation proc := (Process Config Stored).
Abbreviation sys := (Sys Hw Config Stored Ext).
Abbreviation M := (M Hw Config Stored Ext).

(** ** Process buffers *)

Definition buffer_len (b : ProcessBuffer) : M Z :=
  process_map_or 0 (buf_process b) (λ _, mret (buf_len b)).

Definition buffer_ptr (b : ProcessBuffer) : Z := if buf_len b =? 0 then 0 else buf_ptr b.

(** The bytes of a buffer; [sys_ram] is the memory processes share. *)
Definition buffer_bytes (b : ProcessBuffer) (s : sys) : list Z :=
  (λ i, default 0 (sys_ram s !! (buf_ptr b + i))) <$> seqZ 0 (buf_len b).

(** [ReadableProcessBuffer::enter]. *)
Definition buffer_enter {R} (b : ProcessBuffer) (f : list Z → M R) : M (result R ProcessError) :=
  process_map_or (Err NoSuchApp) (buf_process b) (λ _, λ s,
    (r ← f (buffer_bytes b s); mret (Ok r)) s).

(** ** The driver *)

Definition IPC_DRIVER_NUM : Z := 65536.
Definition ro_allow_SEARCH : Z := 0.

(** [IPCData] is a unit struct. *)
Definition ipc_grant (NUM_PROCS grant_num driver : Z) : GrantType :=
  mkGrantType driver grant_num NUM_PROCS 1 NUM_PROCS 0 1.

Context (data : GrantType).

Definition ipc_enter {R} (id : ProcessId) (fn : GrantKernelData → M R) : M (result R ProcessError) :=
  Grant_enter (λ _ m, m) data id (λ _ gkd, fn gkd).

(** [IPC::schedule_upcall]. *)
Definition ipc_schedule_upcall (schedule_on called_from : ProcessId) (cb_type : IPCUpcallType) :
    M (result unit ProcessError) :=
  on_index ← ProcessId_index schedule_on;
  match on_index with
  | None => mret (Err NoSuchApp)
  | Some schedule_on_id =>
      from_index ← ProcessId_index called_from;
      match from_index with
      | None => mret (Err NoSuchApp)
      | Some called_from_id =>
          r ← ipc_enter schedule_on (λ schedule_on_data,
            ipc_enter called_from (λ called_from_data,
              slice ← get_readwrite_processbuffer called_from_data schedule_on_id;
              '(len, ptr) ←
                match slice with
                | Ok slice =>
                    len ← buffer_len slice;
                    _ ← process_map_or None schedule_on (λ i,
                          method i (add_mpu_region (buffer_ptr slice) len len));
                    mret (len, buffer_ptr slice)
                | Err _ => mret (0, 0)
                end;
              let to_schedule := match cb_type with
                                 | IPCService => schedule_on_id
                                 | IPCClient => called_from_id
                                 end in
              _ ← schedule_upcall schedule_on_data to_schedule (called_from_id, len, ptr);
              mret tt));
          match r with
          | Err e => mret (Err e)
          | Ok inner => mret inner
          end
      end
  end.

(** The two notify commands differ in the type of the upcall. *)
Definition ipc_notify (cb_type : IPCUpcallType) (target_id : Z) (id : ProcessId) : M CommandReturn :=
  other ← process_until (λ p s,
            if processid_is_valid (process_id p) s && (pid_index (process_id p) =? target_id)
            then Some (process_id p) else None);
  match other with
  | None => mret (CommandReturn_failure INVAL)
  | Some otherapp =>
      process_map_or (CommandReturn_failure INVAL) otherapp (λ i,
        ret ← method i (enqueue_task (TaskIPC id cb_type));
        mret (match ret with Ok _ => CommandReturn_success | Err e => CommandReturn_failure e end))
  end.

Definition ipc_discover (id : ProcessId) : M CommandReturn :=
  r ← ipc_enter id (λ kernel_data,
        search ← get_readonly_processbuffer kernel_data ro_allow_SEARCH;
        found ← match search with
                | Err e => mret (Err e)
                | Ok search =>
                    buffer_enter search (λ slice,
                      o ← process_until (λ p s,
                            if bool_decide (process_name p = slice)
                            then if processid_is_valid (process_id p) s
                                 then Some (CommandReturn_success_u32 (pid_index (process_id p)))
                                 else None
                            else None);
                      mret (default (CommandReturn_failure NODEVICE) o))
                end;
        mret (match found with Ok c => c | Err _ => CommandReturn_failure INVAL end));
  mret (match r with Ok c => c | Err _ => CommandReturn_failure NOMEM end).

Definition ipc_command (command_number target_id : Z) (id : ProcessId) : M CommandReturn :=
  match command_number with
  | 0 => mret CommandReturn_success
  | 1 => ipc_discover id
  | 2 => ipc_notify IPCService target_id id
  | 3 => ipc_notify IPCClient target_id id
  | _ => mret (CommandReturn_failure NOSUPPORT)
  end.

Definition ipc_allocate_grant (id : ProcessId) : M (result unit ProcessError) :=
  ipc_enter id (λ _, mret tt).

End ipc.
