(* ===== verification/Checker.v ===== *)
(** * Credential checking (kernel/src/kernel.rs [ProcessCheckerMachine],
      kernel/src/process_checker.rs)

    The machine walks the process table and, for each process, its credential
    footers; every footer the policy can check is checked asynchronously and
    [check_done] carries on.  The policy is the board's: a parameter. *)

From stdpp Require Import gmap.
From S2P Require Import Prelude Syscall Mpu RingBuffer Bytes Tbf.
From S2P Require Import ProcessData Process ProcessCreate Grant KernelSys.

Inductive CheckResult : Type := CheckAccept | CheckPass | CheckReject.

Inductive FooterCheckResult : Type :=
| FooterChecking | FooterPastLast | FooterNotCheckable | FooterBad | FooterNoProcess | FooterError.

(** The cells [process] and [footer] of the machine. *)
Record Checker := mkChecker { ck_process : Z; ck_footer : Z }.

Section checker.
Context {Hw Config Stored Ext : Type} `{!MPU Hw Config} `{!UserspaceKernelBoundary Stored}.
Abbreviation proc := (Process Config Stored).
Abbreviation sys := (Sys Hw Config Stored Ext).
Abbreviation M := (M Hw Config Stored Ext).

(** [CredentialsCheckingPolicy]; the binary handed to [check_credentials] is
    determined by the process. *)
Record CheckingPolicy := mkCheckingPolicy {
  require_credentials : bool;
  check_credentials : TbfFooterV2Credentials → nat → M (result unit ErrorCode);
  to_short_id : TbfFooterV2Credentials → ShortID;
  different_identifier : proc → proc → bool;
}.

(** ** Which version of an application runs *)

Definition binary_version (p : proc) : Z := get_binary_version (header p).

(** [other] keeps [process] from running. *)
Definition blocks (different : proc → proc → bool) (process other : proc) : bool :=
  let st := state other in
  let creds_approve := bool_decide (st ≠ CredentialsUnchecked) && bool_decide (st ≠ CredentialsFailed) in
  let differs := different process other && negb (ShortID_eq (app_id other) (app_id process)) in
  let newer := binary_version process <? binary_version other in
  let running := is_running other in
  let runnable := bool_decide (st ≠ CredentialsUnchecked) && bool_decide (st ≠ CredentialsFailed)
                  && bool_decide (st ≠ Terminated) in
  creds_approve && negb differs && ((newer && runnable) || running).

Definition is_runnable (different : proc → proc → bool) (process : proc) (processes : list (option proc)) : bool :=
  if bool_decide (state process ≠ CredentialsApproved) && bool_decide (state process ≠ Terminated)
  then false
  else negb (existsb (λ o, match o with Some other => blocks different process other | None => false end)
               processes).

(** ** Walking the footers of one process *)

(** The [while] loop; [n] bounds the iterations left ([next_footer + 1] at the
    start). *)
Fixpoint check_footer_loop (policy : CheckingPolicy) (i : nat) (next_footer flash_end_ : Z) (n : nat)
    (current_footer footers_position : Z) (footer_slice : list Z) : M FooterCheckResult :=
  match n with
  | O => mret FooterPastLast
  | S n =>
      if (current_footer <=? next_footer) && (footers_position <? flash_end_) then
        match parse_tbf_footer footer_slice with
        | Err TbfNotEnoughFlash => mret FooterPastLast
        | Err _ => mret FooterBad
        | Ok (footer, len) =>
            skip ← lift (uadd len 4);
            position ← lift (uadd footers_position len);
            position ← lift (uadd position 4);
            match get_from footer_slice skip with
            | None => mret FooterBad
            | Some slice =>
                if current_footer =? next_footer then
                  r ← check_credentials policy footer i;
                  mret (match r with
                        | Ok _ => FooterChecking
                        | Err NOSUPPORT => FooterNotCheckable
                        | Err ALREADY => FooterNotCheckable
                        | Err _ => FooterError
                        end)
                else check_footer_loop policy i next_footer flash_end_ n (current_footer + 1) position slice
            end
        end
      else mret FooterPastLast
  end.

Definition check_footer (policy : CheckingPolicy) (i : nat) (next_footer : Z) : M FooterCheckResult :=
  p ← query i id;
  a ← lift (get_addresses p);
  _ ← lift (usub (pa_flash_integrity_end a) (pa_flash_start a));
  _ ← lift (usub (pa_flash_end a) (pa_flash_integrity_end a));
  check_footer_loop policy i next_footer (pa_flash_end a) (S (Z.to_nat next_footer)) 0
    (pa_flash_integrity_end a) (footers p).

(** ** The machine *)

(** The first occupied slot from [index] on. *)
Fixpoint skip_empty (procs : list (option proc)) (index : Z) (footer : Z) : Z * Z :=
  match procs with
  | [] => (index, footer)
  | Some _ :: _ => (index, footer)
  | None :: rest => skip_empty rest (index + 1) 0
  end.

Definition next_process (s : sys) (c : Checker) : Checker :=
  let '(i, f) := skip_empty (drop (Z.to_nat (ck_process c)) (sys_procs s)) (ck_process c) (ck_footer c) in
  mkChecker i f.

(** One pass of the [loop] of [ProcessCheckerMachine::next]: a result, or the
    cells to go on with. *)
Definition next_step (policy : option CheckingPolicy) (c : Checker) :
    M (result bool ProcessLoadError * Checker + Checker) :=
  λ s,
    let c := next_process s c in
    if Z.of_nat (length (sys_procs s)) <=? ck_process c then Ret (inl (Ok false, c), s)
    else
      let i := Z.to_nat (ck_process c) in
      (r ← match policy with
           | None => mret FooterError
           | Some policy => check_footer policy i (ck_footer c)
           end;
       match r with
       | FooterChecking => mret (inl (Ok true, c))
       | FooterPastLast =>
           _ ← match policy with
               | None => mret tt
               | Some policy =>
                   if require_credentials policy
                   then update i mark_credentials_fail
                   else method i (λ p, Ret (tt, (mark_credentials_pass None LocallyUnique p).2))
               end;
           mret (inr (mkChecker (ck_process c + 1) 0))
       | FooterNoProcess | FooterBad => mret (inr (mkChecker (ck_process c + 1) 0))
       | FooterNotCheckable => mret (inr (mkChecker (ck_process c) (ck_footer c + 1)))
       | FooterError => mret (inl (Err LoadInternalError, c))
       end) s.

Fixpoint next_loop (fuel : nat) (policy : option CheckingPolicy) (c : Checker) :
    M (option (result bool ProcessLoadError) * Checker) :=
  match fuel with
  | O => mret (None, c)
  | S fuel =>
      r ← next_step policy c;
      match r with
      | inl (res, c) => mret (Some res, c)
      | inr c => next_loop fuel policy c
      end
  end.

(** A bound on the passes: each process has at most one footer per four bytes. *)
Definition next_fuel (s : sys) : nat :=
  S (sum_list_with (λ o, match o with Some p => length (footers p) + 2 | None => 1 end)%nat (sys_procs s)).

Definition checker_next (policy : option CheckingPolicy) (c : Checker) :
    M (option (result bool ProcessLoadError) * Checker) :=
  λ s, next_loop (next_fuel s) policy c s.

Definition check_done (policy : option CheckingPolicy) (res : result CheckResult ErrorCode)
    (credentials : TbfFooterV2Credentials) (c : Checker) :
    M (option (result bool ProcessLoadError) * Checker) :=
  let i := Z.to_nat (ck_process c) in
  c ← match res with
      | Ok CheckAccept =>
          _ ← (λ s, match sys_procs s !! i with
                    | None => Panic
                    | Some None => Ret (tt, s)
                    | Some (Some _) =>
                        let short_id := match policy with
                                        | None => LocallyUnique
                                        | Some policy => to_short_id policy credentials
                                        end in
                        method i (λ p, Ret (tt, (mark_credentials_pass (Some credentials) short_id p).2)) s
                    end);
          mret (mkChecker (ck_process c + 1) (ck_footer c))
      | Ok CheckPass => mret (mkChecker (ck_process c) (ck_footer c + 1))
      | Ok CheckReject =>
          _ ← (λ s, match sys_procs s !! i with
                    | None => Panic
                    | Some None => Ret (tt, s)
                    | Some (Some _) => update i mark_credentials_fail s
                    end);
          mret (mkChecker (ck_process c + 1) (ck_footer c))
      | Err _ => mret (mkChecker (ck_process c) (ck_footer c + 1))
      end;
  checker_next policy c.

End checker.
