(* ===== verification/Loader.v ===== *)
(** * Loading processes (kernel/src/process_loading.rs)

    At boot the loader walks the TBF entries in flash: each entry is skipped or
    made into a process, which takes its block from the memory that is left.
    The walk ends at the first entry that is no TBF header, that does not fit
    or that fails to load, or when the process table is full.

    The loop takes fuel; running out of it is the result [None]. *)

From stdpp Require Import gmap.
From S2P Require Import Prelude Syscall Mpu RingBuffer Bytes Tbf.
From S2P Require Import ProcessData Process ProcessCreate Grant KernelSys Checker.

Section loader.
Context {Hw Config Stored Ext : Type} `{!MPU Hw Config} `{!UserspaceKernelBoundary Stored}.
Abbreviation proc := (Process Config Stored).
Abbreviation sys := (Sys Hw Config Stored Ext).
Abbreviation M := (M Hw Config Stored Ext).
Context (TASK_SIZE PROCESS_STRUCT_OFFSET : Z).

(** What the memory of a task queue holds before it is used. *)
Context (upcall_buf : list Task).

(** The lengths in the first eight bytes; a broken header is skipped by its
    total length. *)
Definition entry_lengths (header : list Z) : option (Z * Z * Z) :=
  match parse_tbf_header_lengths header with
  | Ok (v, hl, el) => Some (v, hl, el)
  | Err (InvalidHeader entry_length) => Some (0, 0, entry_length)
  | Err UnableToParse => None
  end.

Definition load_result : Type :=
  result (Flash * MemSlice * option proc) (Flash * MemSlice * ProcessLoadError).

Definition load_process (app_flash : Flash) (app_memory : MemSlice) (index : Z) (policy : FaultPolicy) :
    M load_result :=
  match get_range (fl_bytes app_flash) 0 8 with
  | None => mret (Err (app_flash, app_memory, LoadNotEnoughFlash))
  | Some header =>
      match entry_lengths header with
      | None => mret (Err (app_flash, app_memory, TbfHeaderNotFound))
      | Some (version, header_length, entry_length) =>
          match get_range (fl_bytes app_flash) 0 entry_length with
          | None => mret (Err (app_flash, app_memory, LoadNotEnoughFlash))
          | Some entry =>
              match get_from (fl_bytes app_flash) (zlen entry) with
              | None => mret (Err (app_flash, app_memory, LoadNotEnoughFlash))
              | Some rest =>
                  let entry_flash := mkFlash (fl_ptr app_flash) entry in
                  let remaining_flash := mkFlash (fl_ptr app_flash + zlen entry) rest in
                  if 0 <? header_length then
                    λ s,
                      '(res, k, hw) ←
                        create TASK_SIZE PROCESS_STRUCT_OFFSET (sys_kernel s) (sys_hw s) entry_flash
                          header_length version app_memory policy true index upcall_buf;
                      Ret (match res with
                           | Ok (p, unused_memory) => Ok (remaining_flash, unused_memory, p)
                           | Err (err, memory) => Err (remaining_flash, memory, err)
                           end,
                           mkSys k hw (sys_procs s) (sys_ram s) (sys_mem s) (sys_ext s))
                  else mret (Ok (remaining_flash, app_memory, None))
              end
          end
      end
  end.

Definition set_slot (i : nat) (p : option proc) : M unit :=
  λ s, Ret (tt, mkSys (sys_kernel s) (sys_hw s) (<[i := p]> (sys_procs s)) (sys_ram s) (sys_mem s) (sys_ext s)).

Fixpoint load_loop (fuel : nat) (index : nat) (remaining_flash : Flash) (remaining_memory : MemSlice)
    (policy : FaultPolicy) : M (option unit) :=
  match fuel with
  | O => mret None
  | S fuel =>
      s ← get;
      if (index <? length (sys_procs s))%nat then
        r ← load_process remaining_flash remaining_memory (Z.of_nat index) policy;
        match r with
        | Ok (new_flash, new_mem, Some p) =>
            _ ← set_slot index (Some p);
            load_loop fuel (S index) new_flash new_mem policy
        | Ok (new_flash, new_mem, None) => load_loop fuel index new_flash new_mem policy
        | Err _ => mret (Some tt)
        end
      else mret (Some tt)
  end.

Definition load_processes_from_flash (fuel : nat) (app_flash : Flash) (app_memory : MemSlice)
    (policy : FaultPolicy) : M (option unit) :=
  load_loop fuel 0 app_flash app_memory policy.

(** The approval loop of [load_processes] over the slots from [i] on. *)
Fixpoint approve_from (n i : nat) : M (result unit ProcessLoadError) :=
  match n with
  | O => mret (Ok tt)
  | S n =>
      s ← get;
      match sys_procs s !! i with
      | Some (Some _) =>
          r ← method i (λ p, Ret (mark_credentials_pass None LocallyUnique p));
          match r with
          | Err _ => mret (Err LoadInternalError)
          | Ok _ => approve_from n (S i)
          end
      | _ => approve_from n (S i)
      end
  end.

Definition load_processes (fuel : nat) (app_flash : Flash) (app_memory : MemSlice) (policy : FaultPolicy) :
    M (option (result unit ProcessLoadError)) :=
  r ← load_processes_from_flash fuel app_flash app_memory policy;
  match r with
  | None => mret None
  | Some _ => s ← get; r ← approve_from (length (sys_procs s)) 0; mret (Some r)
  end.

(** [check_processes] starts the credential checker on a fresh machine, whose
    policy is now set; its result is ignored by the caller. *)
Definition check_processes (policy : CheckingPolicy (Hw := Hw) (Config := Config) (Stored := Stored) (Ext := Ext))
    (machine : Checker) : M (option (result bool ProcessLoadError) * Checker) :=
  checker_next (Some policy) machine.

Definition load_and_check_processes (fuel : nat)
    (checking : CheckingPolicy (Hw := Hw) (Config := Config) (Stored := Stored) (Ext := Ext)) (machine : Checker)
    (app_flash : Flash) (app_memory : MemSlice) (policy : FaultPolicy) : M (option Checker) :=
  r ← load_processes_from_flash fuel app_flash app_memory policy;
  match r with
  | None => mret None
  | Some _ => '(_, machine) ← check_processes checking machine; mret (Some machine)
  end.

End loader.
