(* ===== verification/KernelLoop.v ===== *)
(** * The kernel loop (kernel/src/kernel.rs, kernel/src/memop.rs)

    Scheduling a process ([do_process]), handling its system calls
    ([handle_syscall], one definition per class) and one turn of the main loop
    ([kernel_loop_operation]).  What a board plugs in - drivers, scheduler,
    timer, filters, hooks, sleep - are the records [Driver], [SchedulerTimer]
    and [Resources] of operations on the system state. *)

From stdpp Require Import gmap.
From S2P Require Import Prelude Syscall Mpu RingBuffer Tbf.
From S2P Require Import ProcessData Process ProcessCreate Grant KernelSys Ipc Checker.

Inductive StoppedExecutingReason : Type :=
| NoWorkLeft | StoppedFaulted | Stopped | TimesliceExpired | KernelPreemption.

#[export] Instance StoppedExecutingReason_eq_dec : EqDecision StoppedExecutingReason.
Proof. solve_decision. Defined.

Inductive SchedulingDecision : Type :=
| RunProcess (id : ProcessId) (timeslice_us : option Z)
| TrySleep.

Inductive AllocResult : Type := NoAllocation | NewAllocation | SameAllocation.

Definition MIN_QUANTA_THRESHOLD_US : Z := 500.

Section kernel.
Context {Hw Config Stored Ext : Type} `{!MPU Hw Config} `{!UserspaceKernelBoundary Stored}.
Abbreviation proc := (Process Config Stored).
Abbreviation sys := (Sys Hw Config Stored Ext).
Abbreviation M := (M Hw Config Stored Ext).
Context (TASK_SIZE PROCESS_STRUCT_OFFSET : Z).

(** ** What a board provides *)

(** [SyscallDriver]. *)
Record Driver := mkDriver {
  drv_command : Z → Z → Z → ProcessId → M CommandReturn;
  drv_allow_userspace_readable : ProcessId → Z → ProcessBuffer → M (result ProcessBuffer (ProcessBuffer * ErrorCode));
  drv_allocate_grant : ProcessId → M (result unit ProcessError);
}.

Record SchedulerTimer := mkSchedulerTimer {
  tm_start : Z → M unit;
  tm_reset : M unit;
  tm_arm : M unit;
  tm_disarm : M unit;
  tm_get_remaining_us : M (option Z);
}.

(** [impl SchedulerTimer for ()]. *)
Definition dummy_timer : SchedulerTimer :=
  mkSchedulerTimer (λ _, mret tt) (mret tt) (mret tt) (mret tt) (mret (Some 10000)).

Record Resources := mkResources {
  kr_with_driver : Z → option Driver;
  kr_filter_syscall : nat → Syscall → M (result unit ErrorCode);
  kr_process_fault_hook : nat → M (result unit unit);
  kr_context_switch_hook : nat → M unit;
  kr_scheduler_timer : SchedulerTimer;
  kr_next : M SchedulingDecision;
  kr_result : StoppedExecutingReason → option Z → M unit;
  kr_continue_process : ProcessId → M bool;
  kr_do_kernel_work_now : M bool;
  kr_execute_kernel_work : M unit;
  kr_policy : CheckingPolicy (Hw := Hw) (Config := Config) (Stored := Stored) (Ext := Ext);
  kr_enable_app_mpu : Hw → Hw;
  kr_disable_app_mpu : Hw → Hw;
  kr_watchdog_tickle : M unit;
  kr_work_pending : M bool;
  kr_sleep : M unit;
}.

Context (R : Resources) (ipc : option GrantType).

Definition hardware (f : Hw → Hw) : M unit :=
  λ s, Ret (tt, mkSys (sys_kernel s) (f (sys_hw s)) (sys_procs s) (sys_ram s) (sys_mem s) (sys_ext s)).

(** ** Methods of the process in a slot *)

Definition set_return (i : nat) (r : SyscallReturn) : M unit :=
  at_proc i (λ k hw m p,
    '(k, p) ← set_syscall_return_value TASK_SIZE PROCESS_STRUCT_OFFSET r k p; Ret (tt, k, hw, m, p)).
Definition set_fault (i : nat) : M unit :=
  at_proc i (λ k hw m p,
    '(k, p) ← set_fault_state TASK_SIZE PROCESS_STRUCT_OFFSET k p; Ret (tt, k, hw, m, p)).
Definition set_function (i : nat) (fc : FunctionCall) : M unit :=
  at_proc i (λ k hw m p,
    '(k, p) ← set_process_function TASK_SIZE PROCESS_STRUCT_OFFSET fc k p; Ret (tt, k, hw, m, p)).
Definition restart (i : nat) (code : option Z) : M unit :=
  at_proc i (λ k hw m p,
    '(k, p) ← try_restart TASK_SIZE PROCESS_STRUCT_OFFSET code k p; Ret (tt, k, hw, m, p)).
Definition install_mpu (i : nat) : M unit :=
  at_proc i (λ k hw m p, let '(hw, p) := setup_mpu hw p in Ret (tt, k, hw, m, p)).
Definition write_byte (i : nat) (addr value : Z) : M bool :=
  p ← query i id;
  s ← get;
  let '(b, ram) := set_byte addr value (sys_ram s) p in
  _ ← set_ram ram;
  mret b.

(** ** Memop *)

(** [r1 as isize]. *)
Definition as_isize (z : Z) : Z := if z <=? isize_max then z else z - usize_bound.

Definition addresses (i : nat) : M ProcessAddresses :=
  method i (λ p, a ← get_addresses p; Ret (a, p)).

Definition memop (op_type r1 : Z) (i : nat) : M SyscallReturn :=
  match op_type with
  | 0 =>
      r ← at_proc i (λ k hw m p, '(r, hw, p) ← brk r1 hw p; Ret (r, k, hw, m, p));
      mret (match r with Ok _ => Success | Err _ => Failure NOMEM end)
  | 1 =>
      r ← at_proc i (λ k hw m p, '(r, hw, p) ← sbrk (as_isize r1) hw p; Ret (r, k, hw, m, p));
      mret (match r with Ok addr => SuccessU32 addr | Err _ => Failure NOMEM end)
  | 2 => a ← addresses i; mret (SuccessU32 (pa_sram_start a))
  | 3 => a ← addresses i; mret (SuccessU32 (pa_sram_end a))
  | 4 => a ← addresses i; mret (SuccessU32 (pa_flash_start a))
  | 5 => a ← addresses i; mret (SuccessU32 (pa_flash_end a))
  | 6 => a ← addresses i; mret (SuccessU32 (pa_sram_grant_start a))
  | 7 => n ← query i (λ p, number_writeable_flash_regions (header p)); mret (SuccessU32 n)
  | 8 =>
      a ← addresses i;
      '(offset, size) ← query i (λ p, get_writeable_flash_region (header p) r1);
      if size =? 0 then mret (Failure FAIL)
      else a ← lift (uadd (pa_flash_start a) offset); mret (SuccessU32 a)
  | 9 =>
      a ← addresses i;
      '(offset, size) ← query i (λ p, get_writeable_flash_region (header p) r1);
      if size =? 0 then mret (Failure FAIL)
      else a ← lift (uadd (pa_flash_start a) offset); a ← lift (uadd a size); mret (SuccessU32 a)
  | 10 => _ ← update i (update_stack_start_pointer r1); mret Success
  | 11 => _ ← update i (update_heap_start_pointer r1); mret Success
  | _ => mret (Failure NOSUPPORT)
  end.

(** ** System calls *)

Definition try_allocate_grant (d : Driver) (i : nat) : M AllocResult :=
  before_count ← query i (λ p, default 0 (grant_allocated_count p));
  pid ← query i process_id;
  ok ← drv_allocate_grant d pid;
  match ok with
  | Ok _ =>
      after_count ← query i (λ p, default 0 (grant_allocated_count p));
      mret (if before_count =? after_count then SameAllocation else NewAllocation)
  | Err _ => mret NoAllocation
  end.

(** The grant functions on the process in slot [i]. *)
Definition grant_subscribe (u : Upcall) (i : nat) : M (result Upcall (Upcall * ErrorCode)) :=
  at_proc i (λ k hw m p, let '(r, m, p) := subscribe u m p in Ret (r, k, hw, m, p)).
Definition grant_allow_ro (drv num : Z) (b : ProcessBuffer) (i : nat) :
    M (result ProcessBuffer (ProcessBuffer * ErrorCode)) :=
  at_proc i (λ k hw m p, let '(r, m, p) := allow_ro drv num b m p in Ret (r, k, hw, m, p)).
Definition grant_allow_rw (drv num : Z) (b : ProcessBuffer) (i : nat) :
    M (result ProcessBuffer (ProcessBuffer * ErrorCode)) :=
  at_proc i (λ k hw m p, let '(r, m, p) := allow_rw drv num b m p in Ret (r, k, hw, m, p)).

(** [op], and once more after the driver allocated its grant. *)
Definition with_allocation {A} (d : Driver) (i : nat) (op : A → M (result A (A * ErrorCode))) (a : A) :
    M (result A (A * ErrorCode)) :=
  r ← op a;
  match r with
  | Err (a, NOMEM) =>
      alloc ← try_allocate_grant d i;
      match alloc with
      | NewAllocation => op a
      | _ => mret (Err (a, NOMEM))
      end
  | r => mret r
  end.

Definition handle_subscribe (driver : option Driver) (driver_number subdriver_number upcall_ptr appdata : Z)
    (i : nat) : M unit :=
  let id := mkUpcallId driver_number subdriver_number in
  let ptr := NonNull_new upcall_ptr in
  pid ← query i process_id;
  let upcall := mkUpcall pid id appdata ptr in
  rval1 ← match ptr with
          | None => mret None
          | Some fp =>
              ok ← method i (λ p, ok ← is_valid_upcall_function_pointer fp p; Ret (ok, p));
              mret (if negb ok then Some INVAL else None)
          end;
  rval ← match rval1 with
         | Some err => mret (into_subscribe_failure upcall err)
         | None =>
             match driver with
             | None => mret (into_subscribe_failure upcall NODEVICE)
             | Some d =>
                 r ← with_allocation d i (λ u, grant_subscribe u i) upcall;
                 mret (match r with
                       | Ok old => into_subscribe_success old
                       | Err (u, err) => into_subscribe_failure u err
                       end)
             end
         end;
  _ ← (if is_success rval
       then method i (λ p, p ← remove_pending_upcalls id p; Ret (tt, p))
       else mret tt);
  set_return i rval.

Definition handle_command (driver : option Driver) (subdriver_number arg0 arg1 : Z) (i : nat) : M unit :=
  cres ← match driver with
         | Some d => pid ← query i process_id; drv_command d subdriver_number arg0 arg1 pid
         | None => mret (CommandReturn_failure NODEVICE)
         end;
  set_return i (from_command_return cres).

Definition handle_rw_allow (driver : option Driver) (driver_number subdriver_number addr size : Z) (i : nat) :
    M unit :=
  res ← match driver with
        | None => mret (AllowReadWriteFailure NODEVICE addr size)
        | Some d =>
            b ← method i (λ p, Ret (build_readwrite_process_buffer addr size p));
            match b with
            | Err e => mret (AllowReadWriteFailure e addr size)
            | Ok b =>
                r ← with_allocation d i (λ b, grant_allow_rw driver_number subdriver_number b i) b;
                mret (match r with
                      | Ok old => AllowReadWriteSuccess (buf_ptr old) (buf_len old)
                      | Err (b, err) => AllowReadWriteFailure err (buf_ptr b) (buf_len b)
                      end)
            end
        end;
  set_return i res.

Definition handle_userspace_readable_allow (driver : option Driver) (subdriver_number addr size : Z)
    (i : nat) : M unit :=
  res ← match driver with
        | None => mret (UserspaceReadableAllowFailure NODEVICE addr size)
        | Some d =>
            b ← method i (λ p, Ret (build_readwrite_process_buffer addr size p));
            match b with
            | Err e => mret (UserspaceReadableAllowFailure e addr size)
            | Ok b =>
                pid ← query i process_id;
                r ← drv_allow_userspace_readable d pid subdriver_number b;
                mret (match r with
                      | Ok old => UserspaceReadableAllowSuccess (buf_ptr old) (buf_len old)
                      | Err (b, err) => UserspaceReadableAllowFailure err (buf_ptr b) (buf_len b)
                      end)
            end
        end;
  set_return i res.

Definition handle_ro_allow (driver : option Driver) (driver_number subdriver_number addr size : Z) (i : nat) :
    M unit :=
  res ← match driver with
        | None => mret (AllowReadOnlyFailure NODEVICE addr size)
        | Some d =>
            b ← method i (build_readonly_process_buffer addr size);
            match b with
            | Err e => mret (AllowReadOnlyFailure e addr size)
            | Ok b =>
                r ← with_allocation d i (λ b, grant_allow_ro driver_number subdriver_number b i) b;
                mret (match r with
                      | Ok old => AllowReadOnlySuccess (buf_ptr old) (buf_len old)
                      | Err (b, err) => AllowReadOnlyFailure err (buf_ptr b) (buf_len b)
                      end)
            end
        end;
  set_return i res.

Definition handle_yield (which address : Z) (i : nat) : M unit :=
  if YieldCall_usize YieldWait <? which then mret tt
  else
    let wait := which =? YieldCall_usize YieldWait in
    has ← query i has_tasks;
    let return_now := negb wait && negb has in
    if return_now then _ ← write_byte i address 0; mret tt
    else
      _ ← write_byte i address 1;
      update i set_yielded_state.

Definition handle_exit (which completion_code : Z) (i : nat) : M unit :=
  match which with
  | 0 => update i (terminate (Some completion_code))
  | 1 => restart i (Some completion_code)
  | _ => set_return i (Failure NOSUPPORT)
  end.

(** Which calls the board's filter may refuse. *)
Definition filterable (s : Syscall) : bool :=
  match s with SysYield _ _ | SysExit _ _ | SysMemop _ _ => false | _ => true end.

Definition handle_syscall (i : nat) (syscall : Syscall) : M unit :=
  _ ← method i (λ p, p ← debug_syscall_called syscall p; Ret (tt, p));
  filtered ← (if filterable syscall then kr_filter_syscall R i syscall else mret (Ok tt));
  match filtered with
  | Err response => set_return i (Failure response)
  | Ok _ =>
      match syscall with
      | SysMemop operand arg0 => rval ← memop operand arg0 i; set_return i rval
      | SysYield which address => handle_yield which address i
      | SysSubscribe d s ptr data => handle_subscribe (kr_with_driver R d) d s ptr data i
      | SysCommand d s a0 a1 => handle_command (kr_with_driver R d) s a0 a1 i
      | SysReadWriteAllow d s a n => handle_rw_allow (kr_with_driver R d) d s a n i
      | SysUserspaceReadableAllow d s a n => handle_userspace_readable_allow (kr_with_driver R d) s a n i
      | SysReadOnlyAllow d s a n => handle_ro_allow (kr_with_driver R d) d s a n i
      | SysExit which code => handle_exit which code i
      end
  end.

(** ** Running a process *)

Inductive step_result : Type := Continue | Break (r : StoppedExecutingReason).

Definition run_process (tm : SchedulerTimer) (i : nat) : M step_result :=
  _ ← kr_context_switch_hook R i;
  _ ← install_mpu i;
  _ ← hardware (kr_enable_app_mpu R);
  _ ← tm_arm tm;
  reason ← method i (λ p, Ret (switch_to p));
  _ ← tm_disarm tm;
  _ ← hardware (kr_disable_app_mpu R);
  match reason with
  | Some ContextFault =>
      r ← kr_process_fault_hook R i;
      _ ← (if result_is_err r then set_fault i else mret tt);
      mret Continue
  | Some (SyscallFired syscall) => _ ← handle_syscall i syscall; mret Continue
  | Some Interrupted =>
      remaining ← tm_get_remaining_us tm;
      match remaining with
      | None =>
          _ ← method i (λ p, p ← debug_timeslice_expired p; Ret (tt, p));
          mret (Break TimesliceExpired)
      | Some _ => mret Continue
      end
  | None => _ ← set_fault i; mret Continue
  end.

Definition run_task (i : nat) : M step_result :=
  task ← method i dequeue_task;
  match task with
  | None => mret (Break NoWorkLeft)
  | Some (TaskFunctionCall ccb) => _ ← set_function i ccb; mret Continue
  | Some (TaskIPC otherapp ty) =>
      match ipc with
      | None => panic
      | Some g =>
          pid ← query i process_id;
          _ ← ipc_schedule_upcall g pid otherapp ty;
          mret Continue
      end
  end.

Definition start_process (i : nat) : M step_result :=
  p ← query i id;
  s ← get;
  if is_runnable (different_identifier (kr_policy R)) p (sys_procs s) then
    _ ← method i enqueue_init_task; mret Continue
  else _ ← update i (terminate None); mret Continue.

(** One pass of the loop of [do_process]. *)
Definition do_process_step (tm : SchedulerTimer) (i : nat) : M step_result :=
  remaining ← tm_get_remaining_us tm;
  let stop_running := match remaining with
                      | Some us => us <=? MIN_QUANTA_THRESHOLD_US
                      | None => true
                      end in
  if stop_running then
    _ ← method i (λ p, p ← debug_timeslice_expired p; Ret (tt, p));
    mret (Break TimesliceExpired)
  else
    pid ← query i process_id;
    continue ← kr_continue_process R pid;
    if negb continue then mret (Break KernelPreemption)
    else
      rdy ← query i ready;
      if negb rdy then mret (Break NoWorkLeft)
      else
        st ← query i state;
        match st with
        | Running => run_process tm i
        | Yielded => run_task i
        | CredentialsApproved => start_process i
        | Faulted | Terminated | CredentialsUnchecked | CredentialsFailed => panic
        | StoppedRunning | StoppedYielded => mret (Break Stopped)
        end.

(** [None] when the fuel is used up with the process still running. *)
Fixpoint do_process_loop (fuel : nat) (tm : SchedulerTimer) (i : nat) : M (option StoppedExecutingReason) :=
  match fuel with
  | O => mret None
  | S fuel =>
      r ← do_process_step tm i;
      match r with
      | Break reason => mret (Some reason)
      | Continue => do_process_loop fuel tm i
      end
  end.

Definition time_executed (tm : SchedulerTimer) (reason : StoppedExecutingReason) (timeslice_us : option Z) :
    M (option Z) :=
  match timeslice_us with
  | None => mret None
  | Some timeslice =>
      if bool_decide (reason = TimesliceExpired) then mret (Some timeslice)
      else
        remaining ← tm_get_remaining_us tm;
        match remaining with
        | Some r => d ← lift (usub timeslice r); mret (Some d)
        | None => mret (Some timeslice)
        end
  end.

Definition do_process (fuel : nat) (i : nat) (timeslice_us : option Z) :
    M (option (StoppedExecutingReason * option Z)) :=
  let tm := match timeslice_us with None => dummy_timer | Some _ => kr_scheduler_timer R end in
  _ ← tm_reset tm;
  _ ← match timeslice_us with Some us => tm_start tm us | None => mret tt end;
  reason ← do_process_loop fuel tm i;
  match reason with
  | None => mret None
  | Some reason =>
      executed ← time_executed tm reason timeslice_us;
      _ ← tm_reset tm;
      mret (Some (reason, executed))
  end.

(** ** The main loop *)

Definition kernel_loop_operation (fuel : nat) (no_sleep : bool) : M (option unit) :=
  _ ← kr_watchdog_tickle R;
  work ← kr_do_kernel_work_now R;
  if (work : bool) then _ ← kr_execute_kernel_work R; mret (Some tt)
  else
    decision ← kr_next R;
    match decision with
    | RunProcess id timeslice_us =>
        process_map_or (Some tt) id (λ i,
          r ← do_process fuel i timeslice_us;
          match r with
          | None => mret None
          | Some (reason, executed) => _ ← kr_result R reason executed; mret (Some tt)
          end)
    | TrySleep =>
        if no_sleep then mret (Some tt)
        else
          pending ← kr_work_pending R;
          if (pending : bool) then mret (Some tt) else _ ← kr_sleep R; mret (Some tt)
    end.

End kernel.
