(* ===== verification/KernelProofs.v ===== *)
(** * The kernel loop: everything it does is process calls

    [evolves] relates two system states when the second is reached by process
    calls ([exec_op]) on processes of the table and by changes outside the
    processes.  An operation is [safe] when it only makes the system evolve.
    The drivers, scheduler and hooks of a board are assumed to be safe (a
    capsule can only reach a process through the methods of [Process]); the
    kernel's own code is proved safe, so the theorems on sequences of process
    calls apply to a whole turn of the main loop. *)

From stdpp Require Import gmap.
From S2P Require Import Prelude Syscall Mpu RingBuffer Tbf.
From S2P Require Import ProcessData Process ProcessProofs ProcessCreate Grant.
From S2P Require Import KernelSys Ipc Checker KernelLoop.

Create HintDb safe discriminated.

Section evolution.
Context {Hw Config Stored Ext : Type} `{!MPU Hw Config} `{!UserspaceKernelBoundary Stored}.
Abbreviation proc := (Process Config Stored).
Abbreviation sys := (Sys Hw Config Stored Ext).
Abbreviation M := (M Hw Config Stored Ext).
Context (TASK_SIZE PROCESS_STRUCT_OFFSET : Z).

Inductive sys_step : sys → sys → Prop :=
| step_outside k hw procs ram mem ext hw' ram' mem' ext' :
    sys_step (mkSys k hw procs ram mem ext) (mkSys k hw' procs ram' mem' ext')
| step_call k hw procs ram mem ext i p o k' hw' p' :
    procs !! i = Some (Some p) →
    exec_op TASK_SIZE PROCESS_STRUCT_OFFSET o (k, hw, p) = Ret (k', hw', p') →
    sys_step (mkSys k hw procs ram mem ext) (mkSys k' hw' (<[i := Some p']> procs) ram mem ext).

Definition evolves : sys → sys → Prop := rtc sys_step.

Definition safe {A} (m : M A) : Prop := ∀ s a s', m s = Ret (a, s') → evolves s s'.

(** ** Composition *)

Lemma safe_ret {A} (a : A) : safe (mret a).
Proof. intros s b s' [= <- <-]. apply rtc_refl. Qed.

Lemma safe_bind {A B} (m : M A) (f : A → M B) : safe m → (∀ a, safe (f a)) → safe (m ≫= f).
Proof.
  intros Hm Hf s b s' E. apply M_bind_Ret in E as (a & s1 & E1 & E2).
  etrans; [by eapply Hm|by eapply Hf].
Qed.

Lemma safe_panic {A} : safe (@panic Hw Config Stored Ext A).
Proof. by intros s a s'. Qed.

Lemma safe_lift {A} (o : outcome A) : safe (lift o).
Proof.
  intros s a s' E. unfold lift in E. apply outcome_bind_Ret in E as (x & _ & [= <- <-]). apply rtc_refl.
Qed.

Lemma safe_get : safe get.
Proof. intros s a s' [= <- <-]. apply rtc_refl. Qed.

Lemma safe_set_ram ram : safe (set_ram ram).
Proof. intros [] a s' [= <- <-]. apply rtc_once. constructor. Qed.

Lemma safe_hardware f : safe (hardware f).
Proof. intros [] a s' [= <- <-]. apply rtc_once. constructor. Qed.

Lemma safe_map_or {A} (d : A) id (f : nat → M A) : (∀ i, safe (f i)) → safe (process_map_or d id f).
Proof.
  intros Hf s a s' E. unfold process_map_or in E.
  destruct (get_process id s); [by eapply Hf|]. injection E as <- <-. apply rtc_refl.
Qed.

Lemma safe_index id : safe (ProcessId_index id).
Proof. intros s a s' [= <- <-]. apply rtc_refl. Qed.

Lemma safe_until {T} (f : proc → sys → option T) : safe (process_until f).
Proof. intros s a s' [= <- <-]. apply rtc_refl. Qed.

(** Code on one process that amounts to a sequence of calls. *)
Definition by_calls {A} (f : Kernel → Hw → Memory → proc → outcome (A * Kernel * Hw * Memory * proc)) : Prop :=
  ∀ k hw m p a k' hw' m' p', f k hw m p = Ret (a, k', hw', m', p') →
    ∃ os, exec_ops TASK_SIZE PROCESS_STRUCT_OFFSET os (k, hw, p) = Ret (k', hw', p').

Lemma evolves_calls k hw procs ram mem ext i p os k' hw' p' :
  procs !! i = Some (Some p) →
  exec_ops TASK_SIZE PROCESS_STRUCT_OFFSET os (k, hw, p) = Ret (k', hw', p') →
  evolves (mkSys k hw procs ram mem ext) (mkSys k' hw' (<[i := Some p']> procs) ram mem ext).
Proof.
  revert k hw procs p. induction os as [|o os IH]; intros k hw procs p Hi E; cbn [exec_ops] in E.
  { injection E as <- <- <-. rewrite list_insert_id by done. apply rtc_refl. }
  apply outcome_bind_Ret in E as ([[k1 hw1] p1] & E1 & E).
  eapply rtc_l; [by eapply step_call|].
  apply (IH _ _ (<[i := Some p1]> procs)) in E.
  - by rewrite list_insert_insert_eq in E.
  - apply list_lookup_insert_eq. by eapply lookup_lt_Some.
Qed.

Lemma safe_at_proc {A} i (f : Kernel → Hw → Memory → proc → outcome (A * Kernel * Hw * Memory * proc)) :
  by_calls f → safe (at_proc i f).
Proof.
  intros Hf [k hw procs ram mem ext] a s' E. unfold at_proc in E. cbn in E.
  destruct (procs !! i) as [[p|]|] eqn:Hi; try done.
  apply outcome_bind_Ret in E as ([[[[b k'] hw'] m'] p'] & E1 & [= <- <-]).
  apply Hf in E1 as [os E1].
  etrans; [by eapply evolves_calls|]. apply rtc_once. constructor.
Qed.

Lemma safe_method {A} i (f : proc → outcome (A * proc)) :
  (∀ k hw p a p', f p = Ret (a, p') →
     ∃ os, exec_ops TASK_SIZE PROCESS_STRUCT_OFFSET os (k, hw, p) = Ret (k, hw, p')) →
  safe (method i f).
Proof.
  intros Hf. apply safe_at_proc. intros k hw m p a k' hw' m' p' E.
  apply outcome_bind_Ret in E as ([b p1] & E1 & [= <- <- <- <- <-]). by eapply Hf.
Qed.

Lemma safe_query {A} i (f : proc → A) : safe (query i f).
Proof. apply safe_method. intros k hw p a p' [= <- <-]. by exists []. Qed.

(** One call. *)
Lemma one_call o k hw p w :
  exec_op TASK_SIZE PROCESS_STRUCT_OFFSET o (k, hw, p) = Ret w →
  ∃ os, exec_ops TASK_SIZE PROCESS_STRUCT_OFFSET os (k, hw, p) = Ret w.
Proof. intros E. exists [o]. cbn [exec_ops]. by rewrite E. Qed.

Lemma safe_update i f o :
  (∀ k hw p, exec_op TASK_SIZE PROCESS_STRUCT_OFFSET o (k, hw, p) = Ret (k, hw, f p)) → safe (update i f).
Proof. intros Hf. apply safe_method. intros k hw p a p' [= <- <-]. by eapply one_call. Qed.

End evolution.

#[export] Hint Resolve safe_ret safe_panic safe_lift safe_get safe_set_ram safe_hardware safe_index
  safe_until safe_query : safe.

(** Walk through monadic code: binds, branches and lookups. *)
Ltac safe_walk :=
  repeat first
    [ progress intros
    | apply safe_bind
    | apply safe_map_or
    | progress eauto with safe
    | case_match ].

Section kernel.
Context {Hw Config Stored Ext : Type} `{!MPU Hw Config} `{!UserspaceKernelBoundary Stored}.
Abbreviation proc := (Process Config Stored).
Abbreviation sys := (Sys Hw Config Stored Ext).
Abbreviation M := (M Hw Config Stored Ext).
Context (TASK_SIZE PROCESS_STRUCT_OFFSET : Z).
Abbreviation safe := (safe (Hw := Hw) (Config := Config) (Stored := Stored) (Ext := Ext)
                        TASK_SIZE PROCESS_STRUCT_OFFSET).
Abbreviation exec_op := (exec_op (Hw := Hw) (Config := Config) (Stored := Stored) TASK_SIZE PROCESS_STRUCT_OFFSET).
Abbreviation exec_ops := (exec_ops (Hw := Hw) (Config := Config) (Stored := Stored) TASK_SIZE PROCESS_STRUCT_OFFSET).

(** ** Single methods *)

(** A method whose call is the operation [o]. *)
Lemma safe_call {A} i o (f : proc → outcome (A * proc)) :
  (∀ k hw p a p', f p = Ret (a, p') → exec_op o (k, hw, p) = Ret (k, hw, p')) → safe (method i f).
Proof. intros Hf. apply safe_method. intros k hw p a p' E. eapply one_call, Hf, E. Qed.

(** A method that may restart the process. *)
Lemma safe_restarting i o (f : Kernel → proc → outcome (Kernel * proc)) :
  (∀ k hw p, exec_op o (k, hw, p) = ('(k, p) ← f k p; Ret (k, hw, p))) →
  safe (at_proc i (λ k hw m p, '(k, p) ← f k p; Ret (tt, k, hw, m, p))).
Proof.
  intros Hf. apply safe_at_proc. intros k hw m p a k' hw' m' p' E.
  apply outcome_bind_Ret in E as ([k1 p1] & E1 & [= <- <- <- <- <-]).
  apply one_call with o. by rewrite Hf, E1.
Qed.

(** A method that only reads the process. *)
Lemma safe_read {A} i (f : proc → outcome A) : safe (method i (λ p, a ← f p; Ret (a, p))).
Proof.
  apply safe_method. intros k hw p a p' E. apply outcome_bind_Ret in E as (x & _ & [= <- <-]).
  by exists [].
Qed.

(** A method whose result is dropped or a new process. *)
Lemma safe_update_outcome i o (f : proc → outcome proc) :
  (∀ k hw p, exec_op o (k, hw, p) = (p ← f p; Ret (k, hw, p))) →
  safe (method i (λ p, p ← f p; Ret (tt, p))).
Proof.
  intros Hf. apply safe_call with o. intros k hw p a p' E.
  apply outcome_bind_Ret in E as (x & E1 & [= <- <-]). by rewrite Hf, E1.
Qed.

Lemma safe_set_return i r : safe (set_return TASK_SIZE PROCESS_STRUCT_OFFSET i r).
Proof. by apply (safe_restarting i (CallSetReturn r)). Qed.
Lemma safe_set_fault i : safe (set_fault TASK_SIZE PROCESS_STRUCT_OFFSET i).
Proof. by apply (safe_restarting i CallSetFault). Qed.
Lemma safe_set_function i fc : safe (set_function TASK_SIZE PROCESS_STRUCT_OFFSET i fc).
Proof. by apply (safe_restarting i (CallSetFunction fc)). Qed.
Lemma safe_restart i c : safe (restart TASK_SIZE PROCESS_STRUCT_OFFSET i c).
Proof. by apply (safe_restarting i (CallTryRestart c)). Qed.

Lemma safe_install_mpu i : safe (install_mpu i).
Proof.
  apply safe_at_proc. intros k hw m p a k' hw' m' p' E. destruct (setup_mpu hw p) as [hw1 p1] eqn:E1.
  injection E as <- <- <- <- <-. apply one_call with CallSetupMpu. cbn [ProcessProofs.exec_op]. by rewrite E1.
Qed.

Lemma safe_brk i a : safe (at_proc i (λ k hw m p, '(r, hw, p) ← brk a hw p; Ret (r, k, hw, m, p))).
Proof.
  apply safe_at_proc. intros k hw m p r k' hw' m' p' E.
  apply outcome_bind_Ret in E as ([[r1 hw1] p1] & E1 & [= <- <- <- <- <-]).
  apply one_call with (CallBrk a). cbn [ProcessProofs.exec_op]. by rewrite E1.
Qed.

Lemma safe_sbrk i a : safe (at_proc i (λ k hw m p, '(r, hw, p) ← sbrk a hw p; Ret (r, k, hw, m, p))).
Proof.
  apply safe_at_proc. intros k hw m p r k' hw' m' p' E.
  apply outcome_bind_Ret in E as ([[r1 hw1] p1] & E1 & [= <- <- <- <- <-]).
  apply one_call with (CallSbrk a). cbn [ProcessProofs.exec_op]. by rewrite E1.
Qed.

Lemma safe_pair_method {A} i o (f : proc → A * proc) :
  (∀ k hw p, exec_op o (k, hw, p) = Ret (k, hw, (f p).2)) → safe (method i (λ p, Ret (f p))).
Proof.
  intros Hf. apply safe_call with o. intros k hw p a p' [= E]. by rewrite Hf, E.
Qed.

Lemma safe_outcome_method {A} i o (f : proc → outcome (A * proc)) :
  (∀ k hw p, exec_op o (k, hw, p) = ('(_, p) ← f p; Ret (k, hw, p))) → safe (method i f).
Proof. intros Hf. apply safe_call with o. intros k hw p a p' E. by rewrite Hf, E. Qed.

Lemma safe_write_byte i a v : safe (write_byte i a v).
Proof. unfold write_byte. safe_walk. Qed.

Lemma safe_addresses i : safe (addresses i).
Proof. apply safe_read. Qed.

Lemma safe_memop op r1 i : safe (memop op r1 i).
Proof.
  unfold memop.
  assert (Hs : ∀ f o, (∀ k hw p, exec_op o (k, hw, p) = Ret (k, hw, f p)) → safe (update i f))
    by (intros f o; apply safe_update).
  repeat case_match; safe_walk; try apply safe_brk; try apply safe_sbrk; try apply safe_addresses.
  - by apply (Hs _ (CallHeapStart r1)).
  - by apply (Hs _ (CallStackStart r1)).
Qed.

(** ** Grants *)

Lemma enter_kernel_managed_calls drv m p r p' k hw :
  enter_grant_kernel_managed drv m p = (r, p') →
  ∃ os, exec_ops os (k, hw, p) = Ret (k, hw, p').
Proof.
  unfold enter_grant_kernel_managed.
  destruct (lookup_grant_from_driver_num drv p) as [n|e]; [|intros [= <- <-]; by exists []].
  destruct (grant_is_allocated n p) as [[]|]; [|intros [= <- <-]; by exists []..].
  destruct (enter_grant n p) as [q p1] eqn:E. intros H.
  apply one_call with (CallEnterGrant n). cbn [ProcessProofs.exec_op]. rewrite E. cbn.
  destruct q; by injection H as <- <-.
Qed.

Lemma calls_then_leave l k hw p p1 :
  (∃ os, exec_ops os (k, hw, p) = Ret (k, hw, p1)) →
  ∃ os, exec_ops os (k, hw, p) = Ret (k, hw, drop_layout l p1).
Proof.
  intros [os E]. exists (os ++ [CallLeaveGrant (el_grant_num l)]).
  revert E. generalize (k, hw, p). induction os as [|o os IH]; intros w E; cbn [app ProcessProofs.exec_ops] in *.
  { by injection E as ->. }
  apply outcome_bind_Ret in E as (w1 & -> & E). cbn. by apply IH.
Qed.

Lemma exec_ops_app os1 os2 w w1 w2 :
  exec_ops os1 w = Ret w1 → exec_ops os2 w1 = Ret w2 → exec_ops (os1 ++ os2) w = Ret w2.
Proof.
  revert w. induction os1 as [|o os IH]; intros w E1 E2; cbn [app ProcessProofs.exec_ops] in *.
  { by injection E1 as ->. }
  apply outcome_bind_Ret in E1 as (w' & -> & E1). cbn. by apply IH.
Qed.

Lemma safe_grant_subscribe u i : safe (grant_subscribe u i).
Proof.
  apply safe_at_proc. intros k hw m p a k' hw' m' p' E. unfold subscribe in E.
  destruct (enter_grant_kernel_managed _ m p) as [r p1] eqn:E1.
  apply (enter_kernel_managed_calls _ _ _ _ _ k hw) in E1.
  destruct r; repeat case_match; simplify_eq/=; try done; by apply calls_then_leave.
Qed.

Lemma safe_grant_allow_ro d n b i : safe (grant_allow_ro d n b i).
Proof.
  apply safe_at_proc. intros k hw m p a k' hw' m' p' E. unfold allow_ro in E.
  destruct (enter_grant_kernel_managed _ m p) as [r p1] eqn:E1.
  apply (enter_kernel_managed_calls _ _ _ _ _ k hw) in E1.
  destruct r; repeat case_match; simplify_eq/=; try done; by apply calls_then_leave.
Qed.

Lemma safe_grant_allow_rw d n b i : safe (grant_allow_rw d n b i).
Proof.
  apply safe_at_proc. intros k hw m p a k' hw' m' p' E. unfold allow_rw in E.
  destruct (enter_grant_kernel_managed _ m p) as [r p1] eqn:E1.
  apply (enter_kernel_managed_calls _ _ _ _ _ k hw) in E1.
  destruct r; repeat case_match; simplify_eq/=; try done; by apply calls_then_leave.
Qed.

Lemma safe_process_grant_new wd g i :
  safe (at_proc i (λ k hw m p,
    '(r, k, m, p) ← ProcessGrant_new wd g k m p; Ret (r, k, hw, m, p))).
Proof.
  apply safe_at_proc. intros k hw m p a k' hw' m' p' E.
  apply outcome_bind_Ret in E as ([[[r k1] m1] p1] & E1 & [= <- <- <- <- <-]).
  unfold ProcessGrant_new in E1. apply outcome_bind_Ret in E1 as ([[[r0 k0] m0] p0] & E0 & E1).
  assert (∃ os, exec_ops os (k, hw, p) = Ret (k0, hw, p0)) as [os Eo].
  { unfold ProcessGrant_new_inner in E0.
    destruct (grant_is_allocated _ p) as [[]|]; [injection E0 as <- <- <- <-; by exists []| |injection E0 as <- <- <- <-; by exists []].
    apply outcome_bind_Ret in E0 as (size & _ & E0).
    apply outcome_bind_Ret in E0 as ([[ok k2] p2] & E2 & E0).
    assert (A : exec_ops [CallAllocGrant (gt_grant_num g) (gt_driver_num g) size (grant_align (gt_align g))]
                  (k, hw, p) = Ret (k2, hw, p2)) by (cbn [ProcessProofs.exec_ops ProcessProofs.exec_op]; by rewrite E2).
    destruct ok; cbn [negb] in E0; [|injection E0 as <- <- <- <-; by eexists].
    destruct (enter_grant _ p2) as [e p3] eqn:E3.
    assert (B : exec_ops [CallEnterGrant (gt_grant_num g)] (k2, hw, p2) = Ret (k2, hw, p3))
      by (cbn [ProcessProofs.exec_ops ProcessProofs.exec_op]; by rewrite E3).
    pose proof (exec_ops_app _ _ _ _ _ A B) as C.
    destruct e as [ptr|e]; [|injection E0 as <- <- <- <-; by eexists].
    destruct (initialize_from_counts _ _ _ _ _ _) as [l m2].
    apply outcome_bind_Ret in E0 as (t & _ & [= <- <- <- <-]).
    eexists. eapply exec_ops_app; [exact C|].
    instantiate (1 := [CallLeaveGrant (el_grant_num l)]). done. }
  exists os. rewrite Eo. destruct r0 as [[t|]|]; by injection E1 as <- <- <- <-.
Qed.

Lemma safe_access_grant {A} g i (fn : Z → GrantKernelData → M A) b :
  (∀ d gkd, safe (fn d gkd)) → safe (access_grant_with_allocator g i fn b).
Proof.
  intros Hfn. unfold access_grant_with_allocator. apply safe_bind.
  { by apply (safe_pair_method i (CallEnterGrant (gt_grant_num g))). }
  intros [ptr|]; [|destruct b; safe_walk].
  apply safe_bind; [apply safe_lift|intros size].
  apply safe_bind; [|intros [l sl]].
  { apply safe_at_proc. intros k hw m p a k' hw' m' p' [= <- <- <- <- <-]. by exists []. }
  apply safe_bind; [apply safe_lift|intros data]. destruct sl as [[u ro] rw].
  apply safe_bind; [done|intros x]. apply safe_bind; [|intros; apply safe_ret].
  by apply (safe_update _ _ i _ (CallLeaveGrant (el_grant_num l))).
Qed.

Lemma safe_Grant_enter {A} wd g id (fn : Z → GrantKernelData → M A) :
  (∀ d gkd, safe (fn d gkd)) → safe (Grant_enter wd g id fn).
Proof.
  intros Hfn. unfold Grant_enter. apply safe_map_or. intros i.
  apply safe_bind; [apply safe_process_grant_new|intros r].
  destruct r; [|apply safe_ret]. apply safe_bind; [by apply safe_access_grant|].
  intros []; safe_walk.
Qed.

Lemma safe_schedule_upcall gkd num r : safe (schedule_upcall gkd num r).
Proof.
  unfold schedule_upcall. case_match; [|apply safe_ret].
  apply safe_bind; [apply safe_query|intros pid]. apply safe_method. intros k hw p a p' E.
  unfold schedule in E. cbn [upcall_fn_ptr] in E.
  destruct (saved_fn_ptr _); [|injection E as <- <-; by exists []].
  apply outcome_bind_Ret in E as ([q p1] & E1 & [= <- <-]).
  eapply one_call with (CallEnqueueTask _). cbn [ProcessProofs.exec_op]. by rewrite E1.
Qed.

Lemma safe_get_processbuffer l num i : safe (get_processbuffer l num i).
Proof. unfold get_processbuffer. safe_walk. Qed.

Lemma safe_ipc_schedule_upcall g on from ty : safe (ipc_schedule_upcall g on from ty).
Proof.
  unfold ipc_schedule_upcall. apply safe_bind; [apply safe_index|intros [on_id|]]; [|apply safe_ret].
  apply safe_bind; [apply safe_index|intros [from_id|]]; [|apply safe_ret].
  apply safe_bind; [|intros []; apply safe_ret].
  apply safe_Grant_enter. intros _ gkd. apply safe_Grant_enter. intros _ gkd'.
  apply safe_bind; [apply safe_get_processbuffer|intros slice].
  apply safe_bind; [|intros [len ptr]; apply safe_bind; [apply safe_schedule_upcall|intros; apply safe_ret]].
  destruct slice as [b|]; [|apply safe_ret].
  apply safe_bind; [apply safe_map_or; intros; apply safe_ret|intros len].
  apply safe_bind; [|intros; apply safe_ret]. apply safe_map_or. intros i.
  by apply (safe_outcome_method i (CallAddRegion (buffer_ptr b) len len)).
Qed.

Lemma safe_ipc_command g n t id : safe (ipc_command g n t id).
Proof.
  assert (N : ∀ ty, safe (ipc_notify ty t id)).
  { intros ty. unfold ipc_notify. apply safe_bind; [apply safe_until|intros [other|]]; [|apply safe_ret].
    apply safe_map_or. intros i. apply safe_bind; [|intros; apply safe_ret].
    by eapply safe_outcome_method with (o := CallEnqueueTask _). }
  unfold ipc_command. repeat case_match; try apply safe_ret; try apply N.
  unfold ipc_discover, ipc_enter. apply safe_bind; [|intros; apply safe_ret].
  apply safe_Grant_enter. intros _ gkd. apply safe_bind; [apply safe_get_processbuffer|intros b].
  apply safe_bind; [|intros; apply safe_ret]. destruct b as [b|]; [|apply safe_ret].
  unfold buffer_enter. apply safe_map_or. intros i s a s' E. revert E. apply safe_bind; [|intros; apply safe_ret].
  apply safe_bind; [apply safe_until|intros; apply safe_ret].
Qed.

(** ** What a board promises

    Its code reaches processes only through their methods. *)

Record safe_driver (d : Driver (Hw := Hw) (Config := Config) (Stored := Stored) (Ext := Ext)) : Prop := {
  sd_command : ∀ a b c id, safe (drv_command d a b c id);
  sd_allow : ∀ id n b, safe (drv_allow_userspace_readable d id n b);
  sd_allocate : ∀ id, safe (drv_allocate_grant d id);
}.

Record safe_timer (tm : SchedulerTimer (Hw := Hw) (Config := Config) (Stored := Stored) (Ext := Ext)) : Prop := {
  st_start : ∀ us, safe (tm_start tm us);
  st_reset : safe (tm_reset tm);
  st_arm : safe (tm_arm tm);
  st_disarm : safe (tm_disarm tm);
  st_remaining : safe (tm_get_remaining_us tm);
}.

Record safe_resources (R : Resources (Hw := Hw) (Config := Config) (Stored := Stored) (Ext := Ext)) : Prop := {
  sr_driver : ∀ n d, kr_with_driver R n = Some d → safe_driver d;
  sr_filter : ∀ i s, safe (kr_filter_syscall R i s);
  sr_fault : ∀ i, safe (kr_process_fault_hook R i);
  sr_switch : ∀ i, safe (kr_context_switch_hook R i);
  sr_timer : safe_timer (kr_scheduler_timer R);
  sr_next : safe (kr_next R);
  sr_result : ∀ r t, safe (kr_result R r t);
  sr_continue : ∀ id, safe (kr_continue_process R id);
  sr_work_now : safe (kr_do_kernel_work_now R);
  sr_execute : safe (kr_execute_kernel_work R);
  sr_tickle : safe (kr_watchdog_tickle R);
  sr_pending : safe (kr_work_pending R);
  sr_sleep : safe (kr_sleep R);
}.

Lemma safe_dummy_timer : safe_timer dummy_timer.
Proof. split; intros; apply safe_ret. Qed.

(** ** System calls *)

Lemma safe_try_allocate d i : safe_driver d → safe (try_allocate_grant d i).
Proof. intros []. unfold try_allocate_grant. safe_walk. Qed.

Lemma safe_with_allocation {A} d i (op : A → M (result A (A * ErrorCode))) a :
  safe_driver d → (∀ a, safe (op a)) → safe (with_allocation d i op a).
Proof.
  intros Hd Ho. unfold with_allocation. apply safe_bind; [done|].
  intros [|[b []]]; try apply safe_ret.
  apply safe_bind; [by apply safe_try_allocate|]. intros []; [apply safe_ret|done|apply safe_ret].
Qed.

Lemma safe_build_rw i a n : safe (method i (λ p, Ret (build_readwrite_process_buffer a n p))).
Proof. by apply (safe_pair_method i (CallBuildRW a n)). Qed.
Lemma safe_build_ro i a n : safe (method i (build_readonly_process_buffer a n)).
Proof. by apply (safe_outcome_method i (CallBuildRO a n)). Qed.
Lemma safe_remove i u : safe (method i (λ p, p ← remove_pending_upcalls u p; Ret (tt, p))).
Proof. by apply (safe_update_outcome i (CallRemoveUpcalls u)). Qed.

Section with_driver.
Context (driver : option (Driver (Hw := Hw) (Config := Config) (Stored := Stored) (Ext := Ext))).
Context (Hdrv : ∀ d, driver = Some d → safe_driver d).

Lemma safe_handle_subscribe dn sn ptr data i :
  safe (handle_subscribe TASK_SIZE PROCESS_STRUCT_OFFSET driver dn sn ptr data i).
Proof.
  unfold handle_subscribe. apply safe_bind; [apply safe_query|intros pid].
  apply safe_bind; [case_match; [|apply safe_ret]; apply safe_bind; [apply safe_read|intros; apply safe_ret]|intros rval1].
  apply safe_bind; [|intros rval; apply safe_bind; [case_match; [apply safe_remove|apply safe_ret]|intros; apply safe_set_return]].
  destruct rval1; [apply safe_ret|]. destruct driver as [d|] eqn:Ed; [|apply safe_ret].
  apply safe_bind; [apply safe_with_allocation; [by apply Hdrv|intros; apply safe_grant_subscribe]|intros; apply safe_ret].
Qed.

Lemma safe_handle_command sn a0 a1 i :
  safe (handle_command TASK_SIZE PROCESS_STRUCT_OFFSET driver sn a0 a1 i).
Proof.
  unfold handle_command. apply safe_bind; [|intros; apply safe_set_return].
  destruct driver as [d|] eqn:Ed; [|apply safe_ret]. destruct (Hdrv d) as [Hc _ _]; [done|].
  apply safe_bind; [apply safe_query|done].
Qed.

Lemma safe_handle_rw_allow dn sn a n i :
  safe (handle_rw_allow TASK_SIZE PROCESS_STRUCT_OFFSET driver dn sn a n i).
Proof.
  unfold handle_rw_allow. apply safe_bind; [|intros; apply safe_set_return].
  destruct driver as [d|] eqn:Ed; [|apply safe_ret].
  apply safe_bind; [apply safe_build_rw|intros []; [|apply safe_ret]].
  apply safe_bind; [apply safe_with_allocation; [by apply Hdrv|intros; apply safe_grant_allow_rw]|intros; apply safe_ret].
Qed.

Lemma safe_handle_userspace_readable_allow sn a n i :
  safe (handle_userspace_readable_allow TASK_SIZE PROCESS_STRUCT_OFFSET driver sn a n i).
Proof.
  unfold handle_userspace_readable_allow. apply safe_bind; [|intros; apply safe_set_return].
  destruct driver as [d|] eqn:Ed; [|apply safe_ret]. destruct (Hdrv d) as [_ Ha _]; [done|].
  apply safe_bind; [apply safe_build_rw|intros []; [|apply safe_ret]].
  apply safe_bind; [apply safe_query|intros pid]. apply safe_bind; [apply Ha|intros; apply safe_ret].
Qed.

Lemma safe_handle_ro_allow dn sn a n i :
  safe (handle_ro_allow TASK_SIZE PROCESS_STRUCT_OFFSET driver dn sn a n i).
Proof.
  unfold handle_ro_allow. apply safe_bind; [|intros; apply safe_set_return].
  destruct driver as [d|] eqn:Ed; [|apply safe_ret].
  apply safe_bind; [apply safe_build_ro|intros []; [|apply safe_ret]].
  apply safe_bind; [apply safe_with_allocation; [by apply Hdrv|intros; apply safe_grant_allow_ro]|intros; apply safe_ret].
Qed.
End with_driver.

Lemma safe_handle_yield w a i : safe (handle_yield w a i).
Proof.
  unfold handle_yield. case_match; [apply safe_ret|]. apply safe_bind; [apply safe_query|intros has].
  case_match; (apply safe_bind; [apply safe_write_byte|intros _]); [apply safe_ret|].
  by apply (safe_update _ _ i _ CallSetYielded).
Qed.

Lemma safe_handle_exit w c i : safe (handle_exit TASK_SIZE PROCESS_STRUCT_OFFSET w c i).
Proof.
  assert (Ht : safe (update i (terminate (Some c))))
    by (by apply (safe_update _ _ i _ (CallTerminate (Some c)))).
  unfold handle_exit. repeat case_match; first [exact Ht | apply safe_restart | apply safe_set_return].
Qed.

Section with_resources.
Context (R : Resources (Hw := Hw) (Config := Config) (Stored := Stored) (Ext := Ext)).
Context (HR : safe_resources R) (ipc : option GrantType).

Lemma safe_handle_syscall i s : safe (handle_syscall TASK_SIZE PROCESS_STRUCT_OFFSET R i s).
Proof.
  unfold handle_syscall.
  apply safe_bind; [by apply (safe_update_outcome i (CallSyscallCalled s))|intros _].
  apply safe_bind; [case_match; [apply (sr_filter _ HR)|apply safe_ret]|intros [[]|e]];
    [|apply safe_set_return].
  destruct s.
  - apply safe_handle_yield.
  - apply safe_handle_subscribe, (sr_driver _ HR).
  - apply safe_handle_command, (sr_driver _ HR).
  - apply safe_handle_rw_allow, (sr_driver _ HR).
  - apply safe_handle_userspace_readable_allow, (sr_driver _ HR).
  - apply safe_handle_ro_allow, (sr_driver _ HR).
  - apply safe_bind; [apply safe_memop|intros; apply safe_set_return].
  - apply safe_handle_exit.
Qed.

Lemma safe_expired i : safe (method i (λ p, p ← debug_timeslice_expired p; Ret (tt, p))).
Proof. by apply (safe_update_outcome i CallTimesliceExpired). Qed.

Section with_timer.
Context (tm : SchedulerTimer (Hw := Hw) (Config := Config) (Stored := Stored) (Ext := Ext)).
Context (Htm : safe_timer tm).

Lemma safe_run_process i : safe (run_process TASK_SIZE PROCESS_STRUCT_OFFSET R tm i).
Proof.
  unfold run_process.
  apply safe_bind; [apply (sr_switch _ HR)|intros _]. apply safe_bind; [apply safe_install_mpu|intros _].
  apply safe_bind; [apply safe_hardware|intros _]. apply safe_bind; [apply (st_arm _ Htm)|intros _].
  apply safe_bind; [by apply (safe_pair_method i CallSwitchTo)|intros reason].
  apply safe_bind; [apply (st_disarm _ Htm)|intros _]. apply safe_bind; [apply safe_hardware|intros _].
  destruct reason as [[sc| |]|].
  - apply safe_bind; [apply safe_handle_syscall|intros; apply safe_ret].
  - apply safe_bind; [apply (sr_fault _ HR)|intros r].
    apply safe_bind; [case_match; [apply safe_set_fault|apply safe_ret]|intros; apply safe_ret].
  - apply safe_bind; [apply (st_remaining _ Htm)|intros [us|]]; [apply safe_ret|].
    apply safe_bind; [apply safe_expired|intros; apply safe_ret].
  - apply safe_bind; [apply safe_set_fault|intros; apply safe_ret].
Qed.

Lemma safe_run_task i : safe (run_task TASK_SIZE PROCESS_STRUCT_OFFSET ipc i).
Proof.
  unfold run_task. apply safe_bind; [by apply (safe_outcome_method i CallDequeueTask)|intros [[fc|o ty]|]].
  - apply safe_bind; [apply safe_set_function|intros; apply safe_ret].
  - destruct ipc as [g|]; [|apply safe_panic]. apply safe_bind; [apply safe_query|intros pid].
    apply safe_bind; [apply safe_ipc_schedule_upcall|intros; apply safe_ret].
  - apply safe_ret.
Qed.

Lemma safe_start_process i : safe (start_process R i).
Proof.
  unfold start_process. apply safe_bind; [apply safe_query|intros p].
  apply safe_bind; [apply safe_get|intros s].
  case_match; (apply safe_bind; [|intros; apply safe_ret]).
  - by apply (safe_outcome_method i CallEnqueueInit).
  - by apply (safe_update _ _ i _ (CallTerminate None)).
Qed.

Lemma safe_do_process_step i : safe (do_process_step TASK_SIZE PROCESS_STRUCT_OFFSET R ipc tm i).
Proof.
  unfold do_process_step. apply safe_bind; [apply (st_remaining _ Htm)|intros rem].
  set (stop := match rem with Some us => _ | None => _ end).
  destruct stop; [apply safe_bind; [apply safe_expired|intros; apply safe_ret]|].
  apply safe_bind; [apply safe_query|intros pid]. apply safe_bind; [apply (sr_continue _ HR)|intros c].
  case_match; [apply safe_ret|]. apply safe_bind; [apply safe_query|intros rdy].
  case_match; [apply safe_ret|]. apply safe_bind; [apply safe_query|intros st].
  destruct st; first [apply safe_run_process | apply safe_run_task | apply safe_start_process
                     | apply safe_ret | apply safe_panic].
Qed.

Lemma safe_do_process_loop fuel i :
  safe (do_process_loop TASK_SIZE PROCESS_STRUCT_OFFSET R ipc fuel tm i).
Proof.
  induction fuel as [|fuel IH]; cbn [do_process_loop]; [apply safe_ret|].
  apply safe_bind; [apply safe_do_process_step|intros [|r]]; [done|apply safe_ret].
Qed.

Lemma safe_time_executed r ts : safe (time_executed tm r ts).
Proof.
  unfold time_executed. destruct ts; [|apply safe_ret]. case_match; [apply safe_ret|].
  apply safe_bind; [apply (st_remaining _ Htm)|intros [us|]]; [|apply safe_ret].
  apply safe_bind; [apply safe_lift|intros; apply safe_ret].
Qed.
End with_timer.

Lemma safe_do_process fuel i ts : safe (do_process TASK_SIZE PROCESS_STRUCT_OFFSET R ipc fuel i ts).
Proof.
  unfold do_process. set (tm := match ts with None => _ | Some _ => _ end).
  assert (Htm : safe_timer tm) by (unfold tm; destruct ts; [apply (sr_timer _ HR)|apply safe_dummy_timer]).
  apply safe_bind; [apply (st_reset _ Htm)|intros _].
  apply safe_bind; [case_match; [apply (st_start _ Htm)|apply safe_ret]|intros _].
  apply safe_bind; [by apply safe_do_process_loop|intros [r|]]; [|apply safe_ret].
  apply safe_bind; [by apply safe_time_executed|intros e].
  apply safe_bind; [apply (st_reset _ Htm)|intros; apply safe_ret].
Qed.

(** A whole turn of the main loop. *)
Lemma safe_kernel_loop_operation fuel ns :
  safe (kernel_loop_operation TASK_SIZE PROCESS_STRUCT_OFFSET R ipc fuel ns).
Proof.
  unfold kernel_loop_operation. apply safe_bind; [apply (sr_tickle _ HR)|intros _].
  apply safe_bind; [apply (sr_work_now _ HR)|intros w].
  case_match; [apply safe_bind; [apply (sr_execute _ HR)|intros; apply safe_ret]|].
  apply safe_bind; [apply (sr_next _ HR)|intros [id ts|]].
  - apply safe_map_or. intros i. apply safe_bind; [apply safe_do_process|intros [[r e]|]]; [|apply safe_ret].
    apply safe_bind; [apply (sr_result _ HR)|intros; apply safe_ret].
  - case_match; [apply safe_ret|]. apply safe_bind; [apply (sr_pending _ HR)|intros p].
    case_match; [apply safe_ret|]. apply safe_bind; [apply (sr_sleep _ HR)|intros; apply safe_ret].
Qed.
End with_resources.

End kernel.
