(* ===== verification/KernelTheorems.v ===== *)
(** * The kernel loop: theorems

    The process table stays sound through a turn of the main loop, and a
    process that notifies itself over IPC stops the kernel. *)

From stdpp Require Import gmap.
From S2P Require Import Prelude Syscall Mpu RingBuffer Tbf.
From S2P Require Import ProcessData Process ProcessProofs ProcessCreate ProcessTheorems Grant.
From S2P Require Import GrantTheorems KernelSys Ipc Checker KernelLoop KernelProofs.

Section invariant.
Context {Hw Config Stored Ext : Type} `{!MPU Hw Config} `{!UserspaceKernelBoundary Stored}.
Context `{!MPULayout Hw Config} `{!UkbLaws Stored}.
Abbreviation proc := (Process Config Stored).
Abbreviation sys := (Sys Hw Config Stored Ext).
Context (TASK_SIZE PROCESS_STRUCT_OFFSET : Z).
Context (task_size_pos : 0 ≤ TASK_SIZE) (struct_size_pos : 0 ≤ PROCESS_STRUCT_OFFSET).
Abbreviation evolves := (evolves (Hw := Hw) (Config := Config) (Stored := Stored) (Ext := Ext)
                           TASK_SIZE PROCESS_STRUCT_OFFSET).

(** ** The process table

    Every process knows its slot and has a sound memory layout; identifiers
    were handed out by the kernel and no two processes share one. *)
Record sys_ok (s : sys) : Prop := {
  ok_grants : 0 ≤ grant_counter (sys_kernel s);
  ok_proc : ∀ i p, sys_procs s !! i = Some (Some p) →
    layout p ∧ ident p < process_identifier_max (sys_kernel s) ∧
    pid_index (process_id p) = Z.of_nat i;
  ok_unique : ∀ i j p q, sys_procs s !! i = Some (Some p) → sys_procs s !! j = Some (Some q) →
    ident p = ident q → i = j;
}.

(** What becomes of each process. *)
Definition tracks (s s' : sys) : Prop :=
  process_identifier_max (sys_kernel s) ≤ process_identifier_max (sys_kernel s') ∧
  ∀ i p, sys_procs s !! i = Some (Some p) →
    ∃ p', sys_procs s' !! i = Some (Some p') ∧ advances (sys_kernel s) p (sys_kernel s') p'.

Lemma advances_refl_kernel k k' p :
  process_identifier_max k ≤ process_identifier_max k' → advances (Config := Config) (Stored := Stored) k p k' p.
Proof. intros. unfold advances. split_and!; [done|done|done|]. by left. Qed.

Lemma step_ok s s' :
  sys_ok s → sys_step TASK_SIZE PROCESS_STRUCT_OFFSET s s' → sys_ok s' ∧ tracks s s'.
Proof.
  intros [Hg Hp Hu] St. destruct St as [k hw procs ram mem ext hw' ram' mem' ext'
    |k hw procs ram mem ext i p o k' hw' p' Hi E]; cbn in *.
  { split; [by split|]. split; [done|]. intros i p Hi. exists p. split; [done|].
    by apply advances_refl_kernel. }
  destruct (Hp _ _ Hi) as (L & Hid & Hix).
  pose proof (exec_op_advances _ _ _ _ _ _ _ _ _ E) as A.
  destruct (exec_op_layout _ _ task_size_pos struct_size_pos _ _ _ _ _ _ _ L Hg E) as [L' Hg'].
  assert (Hlt : (i < length procs)%nat) by (by eapply lookup_lt_Some).
  assert (Hmax : process_identifier_max k ≤ process_identifier_max k') by (by destruct A as (_ & _ & ? & _)).
  assert (Hp' : ident p' < process_identifier_max k' ∧ pid_index (process_id p') = Z.of_nat i ∧
                ∀ j q, j ≠ i → procs !! j = Some (Some q) → ident q ≠ ident p').
  { destruct A as (_ & _ & _ & [(Ei & _)|[Ei Ex]]).
    - unfold ident in *. rewrite Ei. split_and!; [lia|done|]. intros j q Hj Hq Heq.
      by destruct Hj, (Hu _ _ _ _ Hq Hi Heq).
    - split_and!; [lia|congruence|]. intros j q Hj Hq. destruct (Hp _ _ Hq) as (_ & ? & _). lia. }
  destruct Hp' as (P1 & P2 & P3). split.
  - split; cbn; [done| |].
    + intros j q Hq. destruct (decide (j = i)) as [->|Hj].
      * rewrite list_lookup_insert_eq in Hq by done. injection Hq as <-. done.
      * rewrite list_lookup_insert_ne in Hq by done. destruct (Hp _ _ Hq) as (? & ? & ?).
        split_and!; [done|lia|done].
    + intros j1 j2 q1 q2 Hq1 Hq2 Heq. destruct (decide (j1 = i)) as [->|H1], (decide (j2 = i)) as [->|H2]; [done| | |].
      * rewrite list_lookup_insert_eq in Hq1 by done. rewrite list_lookup_insert_ne in Hq2 by done.
        injection Hq1 as <-. by destruct (P3 _ _ H2 Hq2).
      * rewrite list_lookup_insert_eq in Hq2 by done. rewrite list_lookup_insert_ne in Hq1 by done.
        injection Hq2 as <-. by destruct (P3 _ _ H1 Hq1).
      * rewrite !list_lookup_insert_ne in Hq1, Hq2 by done. by eapply Hu.
  - split; [done|]. cbn. intros j q Hq. destruct (decide (j = i)) as [->|Hj].
    + exists p'. rewrite list_lookup_insert_eq by done. split; [done|]. congruence.
    + exists q. rewrite list_lookup_insert_ne by done. split; [done|]. by apply advances_refl_kernel.
Qed.

Lemma tracks_trans s1 s2 s3 : sys_ok s1 → tracks s1 s2 → tracks s2 s3 → tracks s1 s3.
Proof.
  intros [_ Hp _] [M1 T1] [M2 T2]. split; [lia|]. intros i p Hi.
  destruct (T1 i p Hi) as (p1 & H1 & A1). destruct (T2 i p1 H1) as (p2 & H2 & A2).
  exists p2. split; [done|]. destruct (Hp _ _ Hi) as (_ & Hid & _). by eapply advances_trans.
Qed.

Lemma evolves_ok s s' : sys_ok s → evolves s s' → sys_ok s' ∧ tracks s s'.
Proof.
  intros Ok E. induction E as [s|s1 s2 s3 St E IH].
  { split; [done|]. split; [done|]. intros i p Hi. exists p. split; [done|]. by apply advances_refl_kernel. }
  destruct (step_ok s1 s2 Ok St) as [Ok2 T1]. destruct (IH Ok2) as [Ok3 T2].
  split; [done|]. by eapply tracks_trans.
Qed.

(** Looking a process up by an identifier it had before. *)
Lemma get_process_tracked s s' i p :
  sys_ok s → tracks s s' → sys_procs s !! i = Some (Some p) →
  ∃ p', sys_procs s' !! i = Some (Some p') ∧
    memory_start p' = memory_start p ∧ memory_len p' = memory_len p ∧
    if bool_decide (process_id p' = process_id p)
    then get_process (process_id p) s' = Some i ∧
         allow_high_water_mark p ≤ allow_high_water_mark p' ∧ kernel_memory_break p' ≤ kernel_memory_break p
    else get_process (process_id p) s' = None.
Proof.
  intros [_ Hp _] [_ T] Hi. destruct (T i p Hi) as (p' & Hi' & A1 & A2 & A3 & A4).
  destruct (Hp _ _ Hi) as (_ & Hid & Hix). exists p'. split_and!; [done..|].
  unfold get_process. rewrite Hix, Nat2Z.id, Hi'. unfold ProcessId_eq, ident in *.
  destruct A4 as [(E & H1 & H2)|[E _]].
  - rewrite bool_decide_true, E, Z.eqb_refl by done. done.
  - rewrite bool_decide_false by (intros Heq; rewrite Heq in E; lia).
    destruct (Z.eqb_spec (pid_identifier (process_id p')) (pid_identifier (process_id p))); [lia|done].
Qed.

Context (R : Resources (Hw := Hw) (Config := Config) (Stored := Stored) (Ext := Ext)).
Context (HR : safe_resources TASK_SIZE PROCESS_STRUCT_OFFSET R) (ipc : option GrantType).

(** C1.  A turn of the main loop - interrupts, scheduling, system calls, faults
    and restarts included - keeps the process table sound: every process has
    its own identifier and an ordered memory layout.  Every process is still
    in its slot with the same block, and either it is the same process, found
    under its identifier, with its shared buffers still owned and its grants
    still in place, or it was restarted and its old identifier finds nothing. *)
Theorem kernel_loop_keeps_table fuel no_sleep s r s' :
  sys_ok s →
  kernel_loop_operation TASK_SIZE PROCESS_STRUCT_OFFSET R ipc fuel no_sleep s = Ret (r, s') →
  sys_ok s' ∧
  ∀ i p, sys_procs s !! i = Some (Some p) →
    ∃ p', sys_procs s' !! i = Some (Some p') ∧
      memory_start p' = memory_start p ∧ memory_len p' = memory_len p ∧
      if bool_decide (process_id p' = process_id p)
      then get_process (process_id p) s' = Some i ∧
           allow_high_water_mark p ≤ allow_high_water_mark p' ∧
           kernel_memory_break p' ≤ kernel_memory_break p
      else get_process (process_id p) s' = None.
Proof.
  intros Ok E.
  pose proof (safe_kernel_loop_operation _ _ R HR ipc fuel no_sleep s r s' E) as Ev.
  destruct (evolves_ok s s' Ok Ev) as [Ok' T]. split; [done|].
  intros i p Hi. by apply (get_process_tracked s).
Qed.

End invariant.

(** ** IPC to oneself *)

Section self_notify.
Context {Hw Config Stored Ext : Type} `{!MPU Hw Config} `{!UserspaceKernelBoundary Stored}.
Abbreviation proc := (Process Config Stored).
Abbreviation sys := (Sys Hw Config Stored Ext).
Abbreviation M := (M Hw Config Stored Ext).

(** The first step of entering an allocated grant. *)
Lemma new_allocated wd g (s : sys) i p b :
  sys_procs s !! i = Some (Some p) → grant_is_allocated (gt_grant_num g) p = Some true → b = s →
  at_proc i (λ k hw m p, '(r, k, m, p) ← ProcessGrant_new wd g k m p; Ret (r, k, hw, m, p)) s
  = Ret (Ok tt, b).
Proof.
  intros H Ha ->. unfold at_proc. rewrite H. unfold ProcessGrant_new, ProcessGrant_new_inner.
  rewrite Ha. cbn. rewrite list_insert_id by done. by destruct s.
Qed.

(** Entering a grant that is already entered panics. *)
Lemma reenter_panics {A} wd g (s : sys) i p (fn : Z → GrantKernelData → M A) :
  sys_procs s !! i = Some (Some p) → pid_index (process_id p) = Z.of_nat i →
  grant_is_allocated (gt_grant_num g) p = Some true →
  enter_grant (gt_grant_num g) p = (Err AlreadyInUse, p) →
  Grant_enter wd g (process_id p) fn s = Panic.
Proof.
  intros H Hx Ha He. unfold Grant_enter, process_map_or. rewrite (get_process_slot _ _ _ H Hx).
  erewrite bind_run by (by eapply new_allocated). apply bind_panic.
  unfold access_grant_with_allocator. erewrite bind_run by (erewrite method_run by done; by rewrite He).
  done.
Qed.

(** While a grant is entered. *)
Lemma entered_grant drv n base (p : proc) :
  grant_ready drv n base p →
  ∃ p1, enter_grant n p = (Ok base, p1) ∧ enter_grant n p1 = (Err AlreadyInUse, p1) ∧
    grant_is_allocated n p1 = Some true ∧ process_id p1 = process_id p.
Proof.
  intros [Hr _ (gs & Hg & He) [Hb Hev]].
  destruct (enter_leave_spec n gs _ p Hr Hg He) as (p1 & E1 & E2 & _); [cbn; lia|done|].
  exists p1. unfold enter_grant in E1. rewrite Hr, Hg, He in E1. cbn [negb ge_grant_ptr] in E1.
  case_match; [done|]. injection E1 as E1. cbn [ge_driver_num] in E1.
  subst p1. split_and!; [|done| |done].
  { unfold enter_grant. rewrite Hr, Hg, He. cbn [negb ge_grant_ptr ge_driver_num]. by rewrite H. }
  unfold grant_is_allocated. change (is_running (set_grant_pointers _ p)) with (is_running p).
  rewrite Hr. cbn [negb]. psimpl. rewrite list_lookup_insert_eq by (by eapply lookup_lt_Some). cbn.
  rewrite lor_1_even by done. destruct (Z.eqb_spec (base + 1) 0); [lia|done].
Qed.

Lemma schedule_self_panics g (s : sys) i p base ty :
  sys_procs s !! i = Some (Some p) → pid_index (process_id p) = Z.of_nat i →
  grant_ready (gt_driver_num g) (gt_grant_num g) base p →
  ipc_schedule_upcall g (process_id p) (process_id p) ty s = Panic.
Proof.
  intros H Hx G. destruct (entered_grant _ _ _ _ G) as (p1 & E1 & E2 & A1 & I1).
  unfold ipc_schedule_upcall. run ltac:(by apply processid_index_slot).
  run ltac:(by apply processid_index_slot). apply bind_panic.
  unfold ipc_enter at 1. unfold Grant_enter at 1, process_map_or. rewrite (get_process_slot _ _ _ H Hx).
  run ltac:(eapply new_allocated; [done|by eapply grant_ready_allocated|done]).
  apply bind_panic. unfold access_grant_with_allocator.
  run ltac:(erewrite method_run by done; by rewrite E1).
  pose proof (with_proc_lookup i p1 p s H) as H1. set (s1 := with_proc i p1 s) in *.
  destruct (grant_size _ _ _ _ _) as [size|]; [|done]. run ltac:(reflexivity).
  run ltac:(unfold at_proc; rewrite H1; cbn; rewrite list_insert_id by done; reflexivity).
  destruct (offset_of_grant_data_t _ _ _) as [data|]; [|done]. run ltac:(reflexivity).
  destruct (get_resource_slices _ _) as [[u ro] rw]. apply bind_panic.
  unfold ipc_enter. rewrite <- I1.
  apply (reenter_panics _ _ _ i p1); [exact H1|by rewrite I1|done|done].
Qed.

(** The lookup of a notification's target. *)
Lemma process_until_target (s0 : sys) (f : proc → sys → option ProcessId) ps i p off :
  (∀ j q, ps !! j = Some (Some q) → f q s0 = if (j + off =? i)%nat then Some (process_id q) else None) →
  (off ≤ i)%nat → ps !! (i - off)%nat = Some (Some p) →
  process_until_from f s0 ps = Some (process_id p).
Proof.
  revert off. induction ps as [|o ps IH]; intros off Hf Hoff Hi; [done|].
  assert (Hs : ∀ j q, ps !! j = Some (Some q) →
             f q s0 = if (j + S off =? i)%nat then Some (process_id q) else None).
  { intros j q Hq. rewrite (Hf (S j) q Hq). by replace (S j + off)%nat with (j + S off)%nat by lia. }
  destruct (Nat.eq_dec off i) as [->|Hne].
  - rewrite Nat.sub_diag in Hi. cbn in Hi. injection Hi as ->. cbn.
    rewrite (Hf 0%nat p eq_refl). by rewrite Nat.eqb_refl.
  - replace (i - off)%nat with (S (i - S off)) in Hi by lia. cbn in Hi.
    destruct o as [q|]; cbn; [rewrite (Hf 0%nat q eq_refl)|]; cbn.
    + destruct (Nat.eqb_spec off i); [done|]. apply (IH (S off)); [done|lia|done].
    + apply (IH (S off)); [done|lia|done].
Qed.

Lemma notify_target (s : sys) i p :
  sys_ok s → sys_procs s !! i = Some (Some p) →
  process_until (λ q s, if processid_is_valid (process_id q) s && (pid_index (process_id q) =? Z.of_nat i)
                        then Some (process_id q) else None) s
  = Ret (Some (process_id p), s).
Proof.
  intros Ok H. unfold process_until. erewrite (process_until_target s _ _ i p 0); [done| |lia|by rewrite Nat.sub_0_r].
  intros j q Hq. destruct (ok_proc s Ok _ _ Hq) as (_ & _ & Hx).
  unfold processid_is_valid. rewrite Hx, Nat2Z.id, Hq, Z.eqb_refl, Nat.add_0_r. cbn.
  destruct (Nat.eqb_spec j i), (Z.eqb_spec (Z.of_nat j) (Z.of_nat i)); done || lia.
Qed.

Lemma grant_ready_set_tasks drv n base ts (p : proc) :
  grant_ready drv n base p → grant_ready drv n base (set_tasks ts p).
Proof. by intros [? ? ? ?]; split. Qed.

Lemma notify_enqueues (s : sys) i p ts ty :
  sys_ok s → sys_procs s !! i = Some (Some p) → is_running p = true →
  tasks p = Some ts → repr ts [] → 1 < zlength (ring ts) →
  ∃ ts1, ipc_notify ty (Z.of_nat i) (process_id p) s
         = Ret (CommandReturn_success, with_proc i (set_tasks (Some ts1) p) s) ∧
    repr ts1 [TaskIPC (process_id p) ty].
Proof.
  intros Ok H Hr Ht Q Hn. destruct (ok_proc s Ok _ _ H) as (_ & _ & Hx).
  pose proof (enqueue_simulates ts [] (TaskIPC (process_id p) ty) Q) as E.
  change (zlength [] + 1) with 1 in E. destruct (Z.eqb_spec 1 (zlength (ring ts))); [lia|].
  destruct E as (ts1 & E & Q1 & _). exists ts1. split; [|done].
  unfold ipc_notify. run ltac:(by apply notify_target).
  unfold process_map_or. rewrite (get_process_slot s i p H Hx).
  run ltac:(erewrite method_run by done; unfold enqueue_task; rewrite Hr, Ht; cbn [negb];
            rewrite E; reflexivity). done.
Qed.

(** C38.  A process can stop the kernel through the IPC driver: once it has the
    driver's grant it may notify its own service descriptor, the command
    succeeds, and when the kernel then takes the notification from the process'
    queue - it does so whenever the process yields and is scheduled - the
    driver enters the grant of the target and then that of the caller, which
    is the same grant, and the kernel panics. *)
Theorem ipc_self_notify_panics TASK_SIZE PROCESS_STRUCT_OFFSET g (s : sys) i p base ts ty :
  sys_ok s → sys_procs s !! i = Some (Some p) →
  grant_ready (gt_driver_num g) (gt_grant_num g) base p →
  tasks p = Some ts → repr ts [] → zlength (ring ts) = CALLBACK_LEN →
  ∃ s1,
    ipc_command g (match ty with IPCService => 2 | IPCClient => 3 end) (Z.of_nat i) (process_id p) s
    = Ret (CommandReturn_success, s1) ∧
    run_task TASK_SIZE PROCESS_STRUCT_OFFSET (Some g) i s1 = Panic.
Proof.
  intros Ok H G Ht Q Hn. destruct (ok_proc s Ok _ _ H) as (_ & _ & Hx).
  destruct (notify_enqueues s i p ts ty Ok H (ready_running _ _ _ _ G) Ht Q ltac:(by rewrite Hn))
    as (ts1 & E & Q1).
  eexists. split; [by destruct ty|].
  pose proof (with_proc_lookup i (set_tasks (Some ts1) p) p s H) as H1.
  destruct (dequeue_simulates ts1 _ Q1) as (ts2 & E2 & _).
  pose proof (with_proc_lookup i (set_tasks (Some ts2) p) p s H) as H2.
  unfold run_task. run ltac:(erewrite method_run by done; unfold dequeue_task; psimpl; rewrite E2; reflexivity).
  rewrite with_proc_twice. cbn [hd_error].
  run ltac:(by apply (query_run _ _ _ _ H2)).
  apply bind_panic. refine (schedule_self_panics g _ i _ base ty H2 _ _); [done|].
  by apply grant_ready_set_tasks.
Qed.

End self_notify.

(** ** Concrete instances

    A board with one application, the IPC driver, a scheduler that always picks
    the application and a timer that loses 900us whenever it is read. *)

#[local] Existing Instance ex_boundary.
#[local] Existing Instance ex_boundary_laws.

Definition ex_sys_type : Type := Sys unit unit unit Z.

Definition ex_set_time (t : Z) : M unit unit unit Z unit :=
  λ s, Ret (tt, mkSys (sys_kernel s) (sys_hw s) (sys_procs s) (sys_ram s) (sys_mem s) t).

Definition ex_timer : SchedulerTimer (Hw := unit) (Config := unit) (Stored := unit) (Ext := Z) :=
  mkSchedulerTimer ex_set_time (mret tt) (mret tt) (mret tt)
    (s ← get; _ ← ex_set_time (sys_ext s - 900);
     mret (if sys_ext s <=? 0 then None else Some (sys_ext s))).

Definition ex_ipc : GrantType := ipc_grant 4 1 IPC_DRIVER_NUM.

Definition ex_ipc_driver : Driver (Hw := unit) (Config := unit) (Stored := unit) (Ext := Z) :=
  mkDriver (λ c a1 _ id, ipc_command ex_ipc c a1 id) (λ _ _ b, mret (Err (b, NOSUPPORT)))
    (ipc_allocate_grant ex_ipc).

Definition ex_resources : Resources (Hw := unit) (Config := unit) (Stored := unit) (Ext := Z) :=
  mkResources (λ n, if n =? IPC_DRIVER_NUM then Some ex_ipc_driver else None)
    (λ _ _, mret (Ok tt)) (λ _, mret (Ok tt)) (λ _, mret tt) ex_timer
    (mret (RunProcess (mkProcessId 0 7) (Some 5000))) (λ _ _, mret tt) (λ _, mret true) (mret false)
    (mret tt) (mkCheckingPolicy false (λ _ _, mret (Ok tt)) (λ _, LocallyUnique) (λ _ _, true))
    id id (mret tt) (mret false) (mret tt).

Definition ex_sys : ex_sys_type := mkSys ex_kernel1 tt [Some ex_running; None] ∅ ∅ 0.

Lemma one_process_lookup {A} (a x : A) i : [Some a; None] !! i = Some (Some x) → i = 0%nat ∧ x = a.
Proof. destruct i as [|[|i]]; cbn; [|done|done]. by intros [= <-]. Qed.

Lemma one_process_ok (p : Process unit unit) k ram mem ext :
  layout p → 0 ≤ grant_counter k → ident p < process_identifier_max k → pid_index (process_id p) = 0 →
  sys_ok (mkSys (Hw := unit) (Ext := Z) k tt [Some p; None] ram mem ext).
Proof.
  intros L G I X. split; cbn; [done| |].
  - intros i q Hq. apply one_process_lookup in Hq as [-> ->]. done.
  - intros i j q r Hq Hr _. by apply one_process_lookup in Hq as [-> _], Hr as [-> _].
Qed.

Lemma ex_sys_ok : sys_ok ex_sys.
Proof.
  apply one_process_ok; [exact ex_running_layout|vm_compute; congruence|vm_compute; reflexivity|vm_compute; reflexivity].
Qed.

Lemma ex_resources_safe : safe_resources 32 400 ex_resources.
Proof.
  assert (T : ∀ t, safe 32 400 (ex_set_time t)).
  { intros t [] a s' [= <- <-]. apply rtc_once. constructor. }
  split; intros; try apply safe_ret.
  - cbn in H. case_match; [|done]. injection H as <-. split; intros; cbn.
    + apply safe_ipc_command.
    + apply safe_ret.
    + apply safe_Grant_enter. intros. apply safe_ret.
  - split; intros; cbn; try apply safe_ret; [apply T|].
    apply safe_bind; [apply safe_get|]. intros. apply safe_bind; [apply T|]. intros. apply safe_ret.
Qed.

(** The application is started, runs until its timeslice is used up and is
    found again under its identifier. *)
Lemma kernel_loop_keeps_table_witness :
  ∃ s', kernel_loop_operation 32 400 ex_resources (Some ex_ipc) 10 false ex_sys = Ret (Some tt, s') ∧
    get_process (mkProcessId 0 7) s' = Some 0%nat ∧ sys_ok s'.
Proof.
  eexists. split; [vm_compute; reflexivity|]. split; [vm_compute; reflexivity|].
  eapply (kernel_loop_keeps_table 32 400 ltac:(lia) ltac:(lia) ex_resources ex_resources_safe
            (Some ex_ipc) 10 false ex_sys (Some tt) _ ex_sys_ok).
  vm_compute. reflexivity.
Defined.

(** The application has taken its first task and allocated the IPC driver's
    grant; its queue is empty. *)
Definition ex_granted_sys : outcome (result unit ProcessError * ex_sys_type) :=
  (_ ← run_task 32 400 (Some ex_ipc) 0; ipc_allocate_grant ex_ipc (mkProcessId 0 7)) ex_sys.

Definition ex_ipc_proc : Process unit unit :=
  match ex_granted_sys with
  | Ret (_, s) => match sys_procs s !! 0%nat with Some (Some p) => p | _ => ex_running end
  | Panic => ex_running
  end.
Definition ex_ipc_sys : ex_sys_type :=
  mkSys ex_kernel1 tt [Some ex_ipc_proc; None] ∅
    (match ex_granted_sys with Ret (_, s) => sys_mem s | Panic => ∅ end) 0.

Lemma ex_ipc_layout : layout ex_ipc_proc.
Proof. split; vm_compute; split_and?; congruence. Qed.

Lemma ex_ipc_ready : grant_ready IPC_DRIVER_NUM 1 (kernel_memory_break ex_ipc_proc) ex_ipc_proc.
Proof.
  split; [vm_compute; reflexivity|vm_compute; reflexivity| |vm_compute; repeat split; congruence].
  eexists. split; vm_compute; reflexivity.
Qed.

Lemma ipc_self_notify_panics_witness :
  (∃ s, ex_granted_sys = Ret (Ok tt, s) ∧ sys_procs s = [Some ex_ipc_proc; None]) ∧
  ∃ s1, ipc_command ex_ipc 2 0 (process_id ex_ipc_proc) ex_ipc_sys = Ret (CommandReturn_success, s1) ∧
    run_task 32 400 (Some ex_ipc) 0 s1 = Panic.
Proof.
  split; [eexists; split; vm_compute; reflexivity|].
  eapply (ipc_self_notify_panics 32 400 ex_ipc ex_ipc_sys 0 ex_ipc_proc (kernel_memory_break ex_ipc_proc) _ IPCService).
  - apply one_process_ok; [exact ex_ipc_layout|vm_compute; congruence|vm_compute; reflexivity|vm_compute; reflexivity].
  - reflexivity.
  - exact ex_ipc_ready.
  - vm_compute. reflexivity.
  - split; [by vm_compute|by vm_compute|by vm_compute|by vm_compute|done].
  - reflexivity.
Defined.
