(* ===== verification/ProcessSlice.v ===== *)
(** * Slices of process buffers: kernel/src/processbuffer.rs

    A buffer that a process shares with the kernel is entered to get a slice of
    its bytes, which capsules narrow, read and write.  The bytes are cells of
    process memory: slices of one or of two overlapping buffers share them, so
    a slice is the list of the addresses of its cells and memory is the map
    [sys_ram] of the system.

    [ReadableProcessSlice] and [WriteableProcessSlice] share their code except
    for the copies, which are given for both. *)

From stdpp Require Import gmap.
From S2P Require Import Prelude Bytes Syscall Mpu RingBuffer Tbf.
From S2P Require Import ProcessData Process ProcessProofs ProcessCreate ProcessTheorems Grant KernelSys KernelLoop KernelProofs KernelTheorems.

(** ** Slices *)

Abbreviation ram := (gmap Z Z).
Definition ProcessSlice : Type := list Z.

(** The value of a cell. *)
Definition cell (m : ram) (a : Z) : Z := default 0 (m !! a).

(** [raw_processbuf_to_rwprocessslice]: a buffer of length 0 becomes the empty
    slice whatever its pointer is. *)
Definition raw_processbuf_to_rwprocessslice (ptr len : Z) : ProcessSlice :=
  if len =? 0 then [] else seqZ ptr len.

Definition slice_len (s : ProcessSlice) : Z := zlen s.

(** [get], [get_from], [get_to] and the indexing operators. *)
Definition slice_get (s : ProcessSlice) (lo hi : Z) : option ProcessSlice := get_range s lo hi.
Definition slice_get_from (s : ProcessSlice) (lo : Z) : option ProcessSlice := get_from s lo.
Definition slice_get_to (s : ProcessSlice) (hi : Z) : option ProcessSlice := get_range s 0 hi.

Definition slice_index_range (s : ProcessSlice) (lo hi : Z) : outcome ProcessSlice :=
  match get_range s lo hi with Some s' => Ret s' | None => Panic end.
Definition slice_index_to (s : ProcessSlice) (hi : Z) : outcome ProcessSlice :=
  slice_index_range s 0 hi.
Definition slice_index_from (s : ProcessSlice) (lo : Z) : outcome ProcessSlice :=
  slice_index_range s lo (slice_len s).
Definition slice_index (s : ProcessSlice) (i : Z) : outcome Z := index_get s i.

(** [chunks] of the standard library: a chunk size of zero panics. *)
Fixpoint chunks_of (fuel size : nat) (s : ProcessSlice) : list ProcessSlice :=
  match fuel, s with
  | S fuel, _ :: _ => take size s :: chunks_of fuel size (drop size s)
  | _, _ => []
  end.
Definition slice_chunks (s : ProcessSlice) (chunk_size : Z) : outcome (list ProcessSlice) :=
  if chunk_size =? 0 then Panic else Ret (chunks_of (length s) (Z.to_nat chunk_size) s).

(** [ReadableProcessSlice::copy_to_slice_or_err]: a loop over the indices of the
    destination. *)
Fixpoint copy_cells (m : ram) (s : ProcessSlice) (i : Z) (dest : list Z) : outcome (list Z) :=
  match s with
  | [] => Ret dest
  | a :: s =>
      if i <? zlen dest then copy_cells m s (i + 1) (<[Z.to_nat i := cell m a]> dest) else Panic
  end.
Definition readable_copy_to_slice_or_err (m : ram) (s : ProcessSlice) (dest : list Z)
    : outcome (result unit ErrorCode * list Z) :=
  if negb (slice_len s =? zlen dest) then Ret (Err SIZE, dest)
  else d ← copy_cells m s 0 dest; Ret (Ok tt, d).

(** [WriteableProcessSlice::copy_to_slice_or_err]: both slices are zipped. *)
Definition copy_to_slice_or_err (m : ram) (s : ProcessSlice) (dest : list Z)
    : result unit ErrorCode * list Z :=
  if negb (slice_len s =? zlen dest) then (Err SIZE, dest)
  else (Ok tt, zip_with (λ src _, cell m src) s dest).

Definition copy_to_slice (m : ram) (s : ProcessSlice) (dest : list Z) : outcome (list Z) :=
  match copy_to_slice_or_err m s dest with (Ok _, d) => Ret d | (Err _, _) => Panic end.

(** [copy_from_slice_or_err]: the cells are set in order. *)
Definition set_cells (m : ram) (writes : list (Z * Z)) : ram :=
  foldl (λ m '(src, dst), <[dst := src]> m) m writes.
Definition copy_from_slice_or_err (m : ram) (s : ProcessSlice) (src : list Z)
    : result unit ErrorCode * ram :=
  if negb (slice_len s =? zlen src) then (Err SIZE, m)
  else (Ok tt, set_cells m (zip src s)).

Definition copy_from_slice (m : ram) (s : ProcessSlice) (src : list Z) : outcome ram :=
  match copy_from_slice_or_err m s src with (Ok _, m') => Ret m' | (Err _, _) => Panic end.

(** ** Buffers

    [ReadWriteProcessBuffer]; [ReadOnlyProcessBuffer] has the same fields and
    methods but for [mut_enter]. *)

Record ReadWriteProcessBuffer := mkRW {
  rw_ptr : Z; rw_length : Z; rw_process_id : option ProcessId
}.
Definition ReadWriteProcessBuffer_new (ptr len : Z) (process_id : ProcessId) : ReadWriteProcessBuffer :=
  mkRW ptr len (Some process_id).
Definition const_default : ReadWriteProcessBuffer := mkRW 0 0 None.
Definition rw_consume (b : ReadWriteProcessBuffer) : Z * Z := (rw_ptr b, rw_length b).

(** What a capsule's closure can do with a slice, as a program over views: view
    0 is the slice of the buffer, a selection adds a view, and what is read may
    decide what is done next. *)
Inductive selection : Type :=
| SelGet (lo hi : Z) | SelGetFrom (lo : Z) | SelGetTo (hi : Z)
| SelIndexRange (lo hi : Z) | SelIndexTo (hi : Z) | SelIndexFrom (lo : Z)
| SelChunk (chunk_size : Z) (n : nat).

Definition select (o : selection) (s : ProcessSlice) : outcome (option ProcessSlice) :=
  match o with
  | SelGet lo hi => Ret (slice_get s lo hi)
  | SelGetFrom lo => Ret (slice_get_from s lo)
  | SelGetTo hi => Ret (slice_get_to s hi)
  | SelIndexRange lo hi => Some <$> slice_index_range s lo hi
  | SelIndexTo hi => Some <$> slice_index_to s hi
  | SelIndexFrom lo => Some <$> slice_index_from s lo
  | SelChunk size n => c ← slice_chunks s size; Ret (c !! n)
  end.

Inductive slice_prog (R : Type) : Type :=
| PReturn (r : R)
| PLen (v : nat) (k : Z → slice_prog R)
| PSelect (v : nat) (o : selection) (k : bool → slice_prog R)
| PRead (v : nat) (i : Z) (k : Z → slice_prog R)
| PWrite (v : nat) (i x : Z) (k : slice_prog R)
| PCopyTo (v : nat) (dest : list Z) (k : result unit ErrorCode → list Z → slice_prog R)
| PCopyFrom (v : nat) (src : list Z) (k : result unit ErrorCode → slice_prog R)
| PCopyToPanicking (v : nat) (dest : list Z) (k : list Z → slice_prog R)
| PCopyFromPanicking (v : nat) (src : list Z) (k : slice_prog R).
Arguments PReturn {R}.
Arguments PLen {R}.
Arguments PSelect {R}.
Arguments PRead {R}.
Arguments PWrite {R}.
Arguments PCopyTo {R}.
Arguments PCopyFrom {R}.
Arguments PCopyToPanicking {R}.
Arguments PCopyFromPanicking {R}.

(** A number without a view does not occur in a program. *)
Definition view (vs : list ProcessSlice) (v : nat) : outcome ProcessSlice :=
  match vs !! v with Some s => Ret s | None => Panic end.

Fixpoint run_prog {R} (P : slice_prog R) (vs : list ProcessSlice) (m : ram) : outcome (R * ram) :=
  match P with
  | PReturn r => Ret (r, m)
  | PLen v k => s ← view vs v; run_prog (k (slice_len s)) vs m
  | PSelect v o k =>
      s ← view vs v; x ← select o s;
      match x with
      | Some s' => run_prog (k true) (vs ++ [s']) m
      | None => run_prog (k false) vs m
      end
  | PRead v i k => s ← view vs v; a ← slice_index s i; run_prog (k (cell m a)) vs m
  | PWrite v i x k => s ← view vs v; a ← slice_index s i; run_prog k vs (<[a := x]> m)
  | PCopyTo v dest k =>
      s ← view vs v; let '(r, d) := copy_to_slice_or_err m s dest in run_prog (k r d) vs m
  | PCopyFrom v src k =>
      s ← view vs v; let '(r, m') := copy_from_slice_or_err m s src in run_prog (k r) vs m'
  | PCopyToPanicking v dest k => s ← view vs v; d ← copy_to_slice m s dest; run_prog (k d) vs m
  | PCopyFromPanicking v src k => s ← view vs v; m' ← copy_from_slice m s src; run_prog k vs m'
  end.

Section buffers.
Context {Hw Config Stored Ext : Type} `{!MPU Hw Config} `{!UserspaceKernelBoundary Stored}.
Abbreviation sys := (Sys Hw Config Stored Ext).
Abbreviation M := (M Hw Config Stored Ext).

Definition rw_len (b : ReadWriteProcessBuffer) : M Z :=
  match rw_process_id b with
  | None => mret 0
  | Some pid => process_map_or 0 pid (λ _, mret (rw_length b))
  end.

Definition rw_ptr_or_null (b : ReadWriteProcessBuffer) : Z :=
  if rw_length b =? 0 then 0 else rw_ptr b.

(** [mut_enter] with a closure that works on the slice. *)
Definition mut_enter {R} (b : ReadWriteProcessBuffer) (fun_ : slice_prog R) : M (result R ProcessError) :=
  match rw_process_id b with
  | None => mret (Err NoSuchApp)
  | Some pid =>
      process_map_or (Err NoSuchApp) pid (λ _,
        s ← get;
        '(r, m) ← lift (run_prog fun_ [raw_processbuf_to_rwprocessslice (rw_ptr b) (rw_length b)]
                          (sys_ram s));
        _ ← set_ram m;
        mret (Ok r))
  end.
End buffers.

(** ** Copies through shared cells *)

Lemma elem_of_raw ptr len a :
  a ∈ raw_processbuf_to_rwprocessslice ptr len ↔ ptr ≤ a < ptr + len.
Proof.
  unfold raw_processbuf_to_rwprocessslice. destruct (Z.eqb_spec len 0) as [->|].
  - rewrite elem_of_nil. lia.
  - rewrite elem_of_seqZ. lia.
Qed.

Lemma raw_seqZ ptr len : raw_processbuf_to_rwprocessslice ptr len = seqZ ptr len.
Proof. unfold raw_processbuf_to_rwprocessslice. by destruct (Z.eqb_spec len 0) as [->|]. Qed.

Lemma zlen_raw ptr len : 0 ≤ len → zlen (raw_processbuf_to_rwprocessslice ptr len) = len.
Proof. rewrite raw_seqZ. unfold zlen. rewrite length_seqZ. lia. Qed.

Lemma set_cells_cons m x b src s :
  set_cells m (zip (x :: src) (b :: s)) = set_cells (<[b := x]> m) (zip src s).
Proof. done. Qed.

Lemma set_cells_other m src s a : a ∉ s → set_cells m (zip src s) !! a = m !! a.
Proof.
  revert m src. induction s as [|b s IH]; intros m [|x src] Ha; [done..|].
  apply not_elem_of_cons in Ha as [Hab Ha]. rewrite set_cells_cons, IH by done. by rewrite lookup_insert_ne.
Qed.

Lemma set_cells_at m src s i a x :
  NoDup s → s !! i = Some a → src !! i = Some x → set_cells m (zip src s) !! a = Some x.
Proof.
  revert m src i. induction s as [|b s IH]; intros m [|y src] i Hd Hs Hx; [done..|].
  apply NoDup_cons in Hd as [Hb Hd]. rewrite set_cells_cons. destruct i as [|i].
  - injection Hs as ->. injection Hx as ->. rewrite set_cells_other by done. apply lookup_insert_eq.
  - by eapply IH.
Qed.

(** A cell after a copy: written through the slice, or as it was. *)
Lemma copy_from_cell m ptr len src m' a :
  0 ≤ len → copy_from_slice_or_err m (raw_processbuf_to_rwprocessslice ptr len) src = (Ok tt, m') →
  cell m' a = if bool_decide (ptr ≤ a < ptr + len) then src !!! Z.to_nat (a - ptr) else cell m a.
Proof.
  intros Hl. unfold copy_from_slice_or_err, slice_len. rewrite zlen_raw by done.
  destruct (Z.eqb_spec len (zlen src)) as [Hlen|]; [|done]. cbn. intros [= <-]. unfold cell.
  case_bool_decide as Ha.
  - assert (Hi : (Z.to_nat (a - ptr) < length src)%nat) by (unfold zlen in Hlen; lia).
    apply lookup_lt_is_Some in Hi as [x Hx]. rewrite (list_lookup_total_correct _ _ _ Hx).
    erewrite set_cells_at; [done| |..|exact Hx]; rewrite raw_seqZ; [apply NoDup_seqZ|].
    apply lookup_seqZ. lia.
  - rewrite set_cells_other; [done|]. by rewrite elem_of_raw.
Qed.

Lemma zip_with_cells m s (dest : list Z) :
  length s = length dest → zip_with (λ src _, cell m src) s dest = cell m <$> s.
Proof.
  revert dest. induction s as [|a s IH]; intros [|d dest] Hl; try done. cbn. f_equal. apply IH. by injection Hl.
Qed.

Lemma copy_cells_ok m s (done_ dest : list Z) :
  length dest = length s → copy_cells m s (zlen done_) (done_ ++ dest) = Ret (done_ ++ (cell m <$> s)).
Proof.
  revert done_ dest. induction s as [|a s IH]; intros done_ dest Hl; cbn.
  { destruct dest; [|done]. done. }
  destruct dest as [|d dest]; [done|]. injection Hl as Hl.
  destruct (Z.ltb_spec (zlen done_) (zlen (done_ ++ d :: dest))) as [_|H].
  2:{ unfold zlen in H. rewrite length_app in H. cbn in H. lia. }
  unfold zlen at 2. rewrite Nat2Z.id, insert_app_r_alt, Nat.sub_diag by lia. cbn [insert list_insert].
  rewrite (cons_middle (cell m a)), (app_assoc done_ [cell m a]).
  replace (zlen done_ + 1) with (zlen (done_ ++ [cell m a])) by (rewrite zlen_app; done).
  rewrite IH by done. by rewrite <- app_assoc.
Qed.

(** Process slices share memory.  Writing bytes through one slice and
    reading through another, of the same or of an overlapping buffer, gives at
    every address the byte written there if the first slice covers it and the
    byte that was there otherwise; the read-only and the writeable copy agree.
    Buffers of another length are refused with [SIZE] (or a panic), nothing
    written. *)
Theorem slices_share_memory (m : ram) pw nw pv nv (src dest : list Z) :
  0 ≤ nw → 0 ≤ nv →
  let w := raw_processbuf_to_rwprocessslice pw nw in
  let v := raw_processbuf_to_rwprocessslice pv nv in
  (zlen src = nw → zlen dest = nv → ∃ m' d,
    copy_from_slice_or_err m w src = (Ok tt, m') ∧ copy_from_slice m w src = Ret m' ∧
    copy_to_slice_or_err m' v dest = (Ok tt, d) ∧ copy_to_slice m' v dest = Ret d ∧
    readable_copy_to_slice_or_err m' v dest = Ret (Ok tt, d) ∧
    d = (λ i, if bool_decide (pw ≤ pv + i < pw + nw) then src !!! Z.to_nat (pv + i - pw)
              else cell m (pv + i)) <$> seqZ 0 nv) ∧
  (zlen src ≠ nw → copy_from_slice_or_err m w src = (Err SIZE, m) ∧ copy_from_slice m w src = Panic) ∧
  (zlen dest ≠ nv → copy_to_slice_or_err m v dest = (Err SIZE, dest) ∧
    readable_copy_to_slice_or_err m v dest = Ret (Err SIZE, dest) ∧ copy_to_slice m v dest = Panic).
Proof.
  intros Hnw Hnv w v. unfold copy_from_slice, copy_to_slice. split_and!.
  - intros Hsrc Hdest. destruct (copy_from_slice_or_err m w src) as [r m'] eqn:E.
    assert (r = Ok tt) as ->.
    { revert E. unfold copy_from_slice_or_err, slice_len, w. rewrite zlen_raw by done.
      destruct (Z.eqb_spec nw (zlen src)); [|lia]. by intros [= <- _]. }
    assert (Hlv : length v = length dest).
    { pose proof (zlen_raw pv nv Hnv) as Hz. fold v in Hz. unfold zlen in *. lia. }
    assert (Hd : copy_to_slice_or_err m' v dest = (Ok tt, cell m' <$> v)).
    { unfold copy_to_slice_or_err, slice_len. destruct (Z.eqb_spec (zlen v) (zlen dest)); [|by unfold zlen in *; lia].
      cbn [negb]. by rewrite zip_with_cells. }
    exists m', (cell m' <$> v). rewrite Hd. split_and!; try done.
    + unfold readable_copy_to_slice_or_err, slice_len.
      destruct (Z.eqb_spec (zlen v) (zlen dest)); [|by unfold zlen in *; lia]. cbn [negb].
      pose proof (copy_cells_ok m' v [] dest (eq_sym Hlv)) as Hc. by rewrite (Hc : copy_cells _ _ 0 dest = _).
    + unfold v. rewrite raw_seqZ. replace (seqZ pv nv) with (Z.add pv <$> seqZ 0 nv).
      2:{ rewrite fmap_add_seqZ. f_equal. lia. }
      rewrite <- list_fmap_compose. apply list_fmap_ext. intros i x _. cbn.
      by apply (copy_from_cell m pw nw src m').
  - intros Hsrc. unfold copy_from_slice_or_err, slice_len, w. rewrite zlen_raw by done.
    by destruct (Z.eqb_spec nw (zlen src)).
  - intros Hd. unfold copy_to_slice_or_err, readable_copy_to_slice_or_err, slice_len, v. rewrite zlen_raw by done.
    by destruct (Z.eqb_spec nv (zlen dest)).
Qed.

(** A write to cells 10 to 12 seen through a slice of cells 11 to 13. *)
Lemma slices_share_memory_witness :
  ∃ m' d, copy_from_slice_or_err ∅ (raw_processbuf_to_rwprocessslice 10 3) [1; 2; 3] = (Ok tt, m') ∧
    copy_to_slice_or_err m' (raw_processbuf_to_rwprocessslice 11 3) [9; 9; 9] = (Ok tt, d) ∧ d = [2; 3; 0].
Proof.
  destruct (slices_share_memory ∅ 10 3 11 3 [1; 2; 3] [9; 9; 9] ltac:(lia) ltac:(lia)) as [H _].
  destruct (H eq_refl eq_refl) as (m' & d & E1 & _ & E2 & _ & _ & Ed).
  exists m', d. split; [exact E1|]. split; [exact E2|]. rewrite Ed. reflexivity.
Defined.

(** ** Programs on slices stay inside the buffer *)

Lemma get_range_incl {A} (s s' : list A) lo hi : get_range s lo hi = Some s' → s' ⊆ s.
Proof.
  intros (_ & _ & ->)%get_range_Some x Hx. apply elem_of_take in Hx as (i & Hx & _).
  rewrite lookup_drop in Hx. by apply list_elem_of_lookup_2 in Hx.
Qed.

Lemma chunks_of_incl fuel size s c : c ∈ chunks_of fuel size s → c ⊆ s.
Proof.
  revert s. induction fuel as [|fuel IH]; intros [|a s] Hc; [by apply elem_of_nil in Hc..|].
  cbn [chunks_of] in Hc. apply elem_of_cons in Hc as [->|Hc]; intros x Hx.
  - apply elem_of_take in Hx as (i & Hx & _). by apply list_elem_of_lookup_2 in Hx.
  - apply IH in Hc. apply Hc in Hx. apply list_elem_of_lookup_1 in Hx as [i Hx].
    rewrite lookup_drop in Hx. by apply list_elem_of_lookup_2 in Hx.
Qed.

(** Chunks cover their slice in order, none is empty, none is longer than asked. *)
Lemma chunks_of_join fuel size s :
  (0 < size)%nat → (length s ≤ fuel)%nat →
  mjoin (chunks_of fuel size s) = s ∧ Forall (λ c, 0 < length c ≤ size)%nat (chunks_of fuel size s).
Proof.
  intros Hs. revert s. induction fuel as [|fuel IH]; intros [|a s] Hl; cbn [length] in Hl; [done|lia|done|].
  cbn [chunks_of]. destruct (IH (drop size (a :: s))) as [J F].
  { rewrite length_drop. cbn [length]. lia. }
  split.
  - change (take size (a :: s) ++ mjoin (chunks_of fuel size (drop size (a :: s))) = a :: s). by rewrite J, take_drop.
  - constructor; [|done]. rewrite length_take. cbn [length]. lia.
Qed.

Lemma select_incl o s s' : select o s = Ret (Some s') → s' ⊆ s.
Proof.
  assert (Hr : ∀ lo hi x, slice_index_range s lo hi = Ret x → x ⊆ s).
  { intros lo hi x. unfold slice_index_range. destruct (get_range s lo hi) eqn:E; [|done].
    intros [= <-]. by eapply get_range_incl. }
  assert (Hf : ∀ (x : outcome ProcessSlice), Some <$> x = Ret (Some s') → x = Ret s').
  { by intros [x|] [= ->]. }
  destruct o; cbn [select]; intros E.
  - injection E as E. by eapply get_range_incl.
  - injection E as E. apply get_from_Some in E as [_ ->]. intros x Hx.
    apply list_elem_of_lookup_1 in Hx as [i Hx]. rewrite lookup_drop in Hx. by apply list_elem_of_lookup_2 in Hx.
  - injection E as E. by eapply get_range_incl.
  - by eapply Hr, Hf.
  - by eapply Hr, Hf.
  - by eapply Hr, Hf.
  - apply outcome_bind_Ret in E as (cs & E & E'). injection E' as E'.
    unfold slice_chunks in E. case_match; [done|]. injection E as <-.
    eapply chunks_of_incl. by eapply list_elem_of_lookup_2.
Qed.

Lemma view_incl vs v s root : Forall (.⊆ root) vs → view vs v = Ret s → s ⊆ root.
Proof.
  unfold view. intros Hvs. destruct (vs !! v) eqn:E; [|done]. intros [= <-]. by eapply Forall_lookup_1 in Hvs.
Qed.

Lemma copy_from_other m s src r m' a :
  copy_from_slice_or_err m s src = (r, m') → a ∉ s → m' !! a = m !! a.
Proof.
  unfold copy_from_slice_or_err. destruct (negb _); intros [= _ <-] Ha; [done|]. by apply set_cells_other.
Qed.

Lemma run_prog_frame {R} (P : slice_prog R) root vs m r m' a :
  Forall (.⊆ root) vs → a ∉ root → run_prog P vs m = Ret (r, m') → m' !! a = m !! a.
Proof.
  intros Hvs Ha. revert vs m Hvs.
  induction P as [x|v k IH|v o k IH|v i k IH|v i x k IH|v dest k IH|v src k IH|v dest k IH|v src k IH];
    intros vs m Hvs E; cbn [run_prog] in E;
    [by injection E as _ <-|apply outcome_bind_Ret in E as (s & Hv & E);
      pose proof (view_incl _ _ _ _ Hvs Hv) as Hs..].
  - by eapply IH.
  - apply outcome_bind_Ret in E as ([s'|] & Eo & E); [|by eapply IH].
    eapply IH; [|exact E]. apply Forall_app. split; [done|]. constructor; [|done].
    etrans; [by eapply select_incl|done].
  - apply outcome_bind_Ret in E as (b & _ & E). by eapply IH.
  - apply outcome_bind_Ret in E as (b & Eb & E). rewrite (IH _ _ Hvs E), lookup_insert_ne; [done|].
    intros ->. apply Ha, Hs. unfold slice_index, index_get in Eb. case_match eqn:El; [|done].
    injection Eb as ->. destruct (i <? 0); [done|]. by eapply list_elem_of_lookup_2.
  - destruct (copy_to_slice_or_err m s dest). by eapply IH.
  - destruct (copy_from_slice_or_err m s src) as [x m1] eqn:Ec. rewrite (IH _ _ _ Hvs E).
    eapply copy_from_other; [done|]. intros H. by apply Ha, Hs.
  - apply outcome_bind_Ret in E as (d & _ & E). by eapply IH.
  - apply outcome_bind_Ret in E as (m1 & Ec & E). rewrite (IH _ _ Hvs E). unfold copy_from_slice in Ec.
    destruct (copy_from_slice_or_err m s src) as [[|] m2] eqn:Ec'; [|done]. injection Ec as <-.
    eapply copy_from_other; [done|]. intros H. by apply Ha, Hs.
Qed.

Section safety.
Context {Hw Config Stored Ext : Type} `{!MPU Hw Config} `{!UserspaceKernelBoundary Stored}.
Context `{!MPULayout Hw Config} `{!UkbLaws Stored}.
Abbreviation sys := (Sys Hw Config Stored Ext).
Context (TASK_SIZE PROCESS_STRUCT_OFFSET : Z).
Context (task_size_pos : 0 ≤ TASK_SIZE) (struct_size_pos : 0 ≤ PROCESS_STRUCT_OFFSET).
Abbreviation evolves := (evolves (Hw := Hw) (Config := Config) (Stored := Stored) (Ext := Ext)
                           TASK_SIZE PROCESS_STRUCT_OFFSET).

(** Sharing a buffer is a call of the process, and leaves the high water mark
    above it. *)
Lemma share_buffer (s s1 : sys) i a n buf :
  sys_ok s → 0 ≤ a < usize_bound → 0 < n < usize_bound →
  method i (λ p, Ret (build_readwrite_process_buffer a n p)) s = Ret (Ok buf, s1) →
  ∃ p1, sys_procs s1 !! i = Some (Some p1) ∧ buf = mkProcessBuffer a n (process_id p1) ∧
    memory_start p1 ≤ a ∧ a + n ≤ allow_high_water_mark p1 ∧ evolves s s1.
Proof.
  intros Ok_ Ha Hn E.
  assert (Ev : evolves s s1).
  { refine (safe_method TASK_SIZE PROCESS_STRUCT_OFFSET i _ _ s _ s1 E).
    intros k hw p x p' [= Ep]. exists [CallBuildRW a n]. cbn. by rewrite Ep. }
  unfold method, at_proc in E. destruct (sys_procs s !! i) as [[p|]|] eqn:Hi; try done.
  destruct (build_readwrite_process_buffer a n p) as [b p1] eqn:Eb. cbn in E. injection E as -> <-.
  exists p1. cbn. rewrite list_lookup_insert_eq by (by eapply lookup_lt_Some).
  destruct (ok_proc _ Ok_ i p Hi) as (L & _). unfold build_readwrite_process_buffer in Eb.
  case_match; [done|]. destruct (Z.eqb_spec n 0); [lia|].
  destruct (in_app_owned_memory a n p) eqn:Eo; [|done]. injection Eb as <- <-.
  apply in_app_owned_memory_spec in Eo as [O1 O2]; [|done|lia|lia].
  destruct L as [(? & ? & ?) ? ? ?].
  assert (Ew : wrapping_add a n = a + n) by (unfold wrapping_add, wrap32; rewrite Z.mod_small; lia).
  split_and!; [done|done|done| |exact Ev]. unfold raise_high_water_mark. psimpl. lia.
Qed.

(** What a capsule does with a shared buffer stays in memory its process
    owns.  A process shares a buffer; whatever the kernel and the process do
    afterwards, a capsule that enters the buffer and runs any program of slice
    operations changes bytes only between the start of the process's memory and
    its break, below everything the kernel keeps there; once the process was
    restarted the capsule gets [NoSuchApp] and changes nothing. *)
Theorem slice_writes_stay_owned {R} (s s1 s' s2 : sys) i p a n buf (P : slice_prog R) r :
  sys_ok s → sys_procs s !! i = Some (Some p) → 0 ≤ a < usize_bound → 0 < n < usize_bound →
  method i (λ p, Ret (build_readwrite_process_buffer a n p)) s = Ret (Ok buf, s1) →
  evolves s1 s' →
  mut_enter (ReadWriteProcessBuffer_new (buf_ptr buf) (buf_len buf) (buf_process buf)) P s' = Ret (r, s2) →
  sys_procs s2 = sys_procs s' ∧
  match get_process (process_id p) s' with
  | Some j =>
      ∃ p' v, j = i ∧ r = Ok v ∧ sys_procs s2 !! i = Some (Some p') ∧ process_id p' = process_id p ∧
        app_break p' ≤ kernel_memory_break p' ∧
        ∀ x, sys_ram s2 !! x ≠ sys_ram s' !! x → memory_start p' ≤ x < app_break p'
  | None => r = Err NoSuchApp ∧ s2 = s'
  end.
Proof.
  intros Ok_ Hi Ha Hn Eb Ev E.
  destruct (share_buffer _ _ _ _ _ _ Ok_ Ha Hn Eb) as (p1 & H1 & -> & Hs & Hhw & Ev1).
  destruct (evolves_ok _ _ task_size_pos struct_size_pos _ _ Ok_ Ev1) as [Ok1 T1].
  destruct (evolves_ok _ _ task_size_pos struct_size_pos _ _ Ok1 Ev) as [Ok' T'].
  assert (Hid : process_id p1 = process_id p).
  { unfold method, at_proc in Eb. rewrite Hi in Eb. cbn in Eb.
    destruct (build_readwrite_process_buffer a n p) as [b q] eqn:Ebp. cbn in Eb. injection Eb as -> <-.
    cbn in H1. rewrite list_lookup_insert_eq in H1 by (by eapply lookup_lt_Some). injection H1 as <-.
    unfold build_readwrite_process_buffer in Ebp. repeat case_match; by simplify_eq. }
  destruct (get_process_tracked s1 s' i p1 Ok1 T' H1) as (p' & Hi' & S1 & S2 & Hp').
  rewrite Hid in Hp'. unfold mut_enter, process_map_or in E. cbn [rw_process_id ReadWriteProcessBuffer_new buf_process] in E.
  rewrite Hid in E. case_bool_decide as Hpid.
  - destruct Hp' as (Hg & Hm & _). rewrite Hg in E |- *.
    destruct (ok_proc _ Ok' i p' Hi') as ([_ [L1 L2] L3 _] & _).
    apply M_bind_Ret in E as (s0 & s3 & [= <- <-] & E). apply M_bind_Ret in E as ([v m] & s3 & E1 & E).
    unfold lift in E1. apply outcome_bind_Ret in E1 as ([v' m'] & E1 & [= -> -> ->]).
    apply M_bind_Ret in E as ([] & s4 & [= <-] & [= <- <-]). cbn. split; [done|].
    exists p', v. split_and!; [done..|]. intros x Hx.
    destruct (decide (x ∈ raw_processbuf_to_rwprocessslice a n)) as [Hin|Hout].
    + apply elem_of_raw in Hin. lia.
    + destruct Hx. eapply (run_prog_frame P); [|exact Hout|exact E1]. by constructor.
  - rewrite Hp' in E |- *. by injection E as <- <-.
Qed.
End safety.

#[local] Existing Instance ex_boundary.
#[local] Existing Instance ex_boundary_laws.

(** Bytes 1 and 2 of the buffer are written through a narrowed slice. *)
Definition ex_prog : slice_prog (result unit ErrorCode) :=
  PSelect 0 (SelGet 1 3) (λ _, PCopyFrom 1 [7; 8] PReturn).

Lemma slice_writes_stay_owned_witness :
  ∃ s1 s2 : ex_sys_type,
    method 0 (λ p, Ret (build_readwrite_process_buffer 536887300 40 p)) ex_sys =
      Ret (Ok (mkProcessBuffer 536887300 40 (process_id ex_running)), s1) ∧
    mut_enter (ReadWriteProcessBuffer_new 536887300 40 (process_id ex_running)) ex_prog s1 =
      Ret (Ok (Ok tt), s2) ∧
    cell (sys_ram s2) 536887301 = 7 ∧
    ∃ p', sys_procs s2 !! 0%nat = Some (Some p') ∧
      ∀ x, sys_ram s2 !! x ≠ sys_ram s1 !! x → memory_start p' ≤ x < app_break p'.
Proof.
  do 2 eexists. split; [vm_compute; reflexivity|]. split; [vm_compute; reflexivity|].
  split; [vm_compute; reflexivity|].
  assert (Ha : 0 ≤ 536887300 < usize_bound) by (vm_compute; split; congruence).
  assert (Hn : 0 < 40 < usize_bound) by (vm_compute; split; congruence).
  match goal with |- ∃ p', sys_procs ?s2 !! _ = _ ∧ ∀ x, _ ≠ sys_ram ?s1 !! x → _ =>
    destruct (slice_writes_stay_owned 32 400 ltac:(lia) ltac:(lia) ex_sys s1 s1 s2 0 ex_running
      536887300 40 (mkProcessBuffer 536887300 40 (process_id ex_running)) ex_prog (Ok (Ok tt))
      ex_sys_ok eq_refl Ha Hn) as [_ H]
  end.
  - vm_compute. reflexivity.
  - apply rtc_refl.
  - vm_compute. reflexivity.
  - match type of H with match ?g with _ => _ end =>
      replace g with (Some 0%nat) in H by (vm_compute; reflexivity) end.
    destruct H as (p' & v & _ & _ & Hp & _ & _ & Hx). exists p'. split; [exact Hp|exact Hx].
Defined.
