(* ===== verification/LoaderTheorems.v ===== *)
(** * Properties of the process loader

    The table the loader fills: processes in flash order, with disjoint blocks
    of memory and flash, fresh identifiers and a sound layout, so the table
    invariant of the kernel loop holds from boot on.  When the walk ends. *)

From Stdlib Require Import Sorting.Sorted.
From stdpp Require Import gmap.
From S2P Require Import Prelude Syscall Mpu RingBuffer Bytes Tbf.
From S2P Require Import ProcessData Process ProcessProofs ProcessCreate Grant KernelSys Checker.
From S2P Require Import Loader KernelLoop KernelProofs KernelTheorems.

Section loader.
Context {Hw Config Stored Ext : Type} `{!MPU Hw Config} `{!UserspaceKernelBoundary Stored}.
Context `{!MPULayout Hw Config} `{!UkbLaws Stored}.
Abbreviation proc := (Process Config Stored).
Abbreviation sys := (Sys Hw Config Stored Ext).
Abbreviation M := (M Hw Config Stored Ext).
Context (TASK_SIZE PROCESS_STRUCT_OFFSET : Z) (upcall_buf : list Task).
Context (task_size_pos : 0 ≤ TASK_SIZE) (struct_size_pos : 0 ≤ PROCESS_STRUCT_OFFSET).
Implicit Type s : sys.

(** ** What [create] leaves behind *)

(** Walk through the successful binds and tests of a call. *)
Ltac peel E :=
  repeat first
    [ apply outcome_bind_Ret in E as (? & ? & E)
    | progress (cbn [get_grant_count_and_finalize] in E)
    | match type of E with context [match ?x with _ => _ end] =>
        first [is_var x; destruct x|destruct x eqn:?]; try discriminate E end ].

Lemma create_counters k hw fl hl av mem pol rkv index buf (r : result (option proc * MemSlice) _) k' hw' :
  create TASK_SIZE PROCESS_STRUCT_OFFSET k hw fl hl av mem pol rkv index buf = Ret (r, k', hw') →
  grant_counter k' = grant_counter k ∧ process_identifier_max k ≤ process_identifier_max k'.
Proof.
  unfold create. intros E. peel E; simplify_eq; cbn; try (split; [done|lia]).
  all: unfold create_process_identifier in *; repeat match goal with
    | H : (_ ≫= _) = Ret _ |- _ => apply outcome_bind_Ret in H as (? & ? & H)
    | H : uadd _ _ = Ret _ |- _ => apply uadd_Ret in H as [-> ?]
    end; simplify_eq; cbn; split; done || lia.
Qed.

Lemma create_skipped k hw fl hl av mem pol rkv index buf rest k' hw' :
  create (Stored := Stored) TASK_SIZE PROCESS_STRUCT_OFFSET k hw fl hl av mem pol rkv index buf
  = Ret (Ok (None, rest), k', hw') → rest = mem ∧ k' = k.
Proof. unfold create. intros E. peel E; simplify_eq. done. Qed.

Lemma create_placed k hw fl hl av mem pol rkv index buf (p : proc) rest k' hw' :
  create TASK_SIZE PROCESS_STRUCT_OFFSET k hw fl hl av mem pol rkv index buf
  = Ret (Ok (Some p, rest), k', hw') →
  flash_addr p = fl_ptr fl ∧ flash_len p = fl_len fl ∧ pid_index (process_id p) = index ∧ app_id p = LocallyUnique.
Proof. unfold create. intros E. peel E; simplify_eq. done. Qed.

(** ** One entry *)

(** Flash from [fl] on, and what is left after a number of whole bytes. *)
Definition flash_after (fl fl' : Flash) (n : nat) : Prop :=
  fl_ptr fl' = fl_ptr fl + Z.of_nat n ∧ fl_bytes fl' = drop n (fl_bytes fl) ∧ (n ≤ length (fl_bytes fl))%nat.

(** How the state and the rest of flash and memory change with an entry that
    does not end the walk. *)
Inductive entry_loaded (fl : Flash) (mem : MemSlice) (index : Z) s :
    Flash → MemSlice → option proc → sys → Prop :=
| entry_skipped fl' n s' :
    flash_after fl fl' n → sys_kernel s' = sys_kernel s → sys_procs s' = sys_procs s →
    entry_loaded fl mem index s fl' mem None s'
| entry_process fl' n p rest s' :
    flash_after fl fl' n → created TASK_SIZE PROCESS_STRUCT_OFFSET (sys_kernel s) mem (sys_kernel s') p rest →
    flash_addr p = fl_ptr fl → flash_len p = Z.of_nat n → pid_index (process_id p) = index →
    app_id p = LocallyUnique → sys_procs s' = sys_procs s →
    entry_loaded fl mem index s fl' rest (Some p) s'.

Lemma take_flash fl el entry rest :
  get_range (fl_bytes fl) 0 el = Some entry → get_from (fl_bytes fl) (zlen entry) = Some rest →
  zlen entry = el ∧ flash_after fl (mkFlash (fl_ptr fl + zlen entry) rest) (Z.to_nat el) ∧ 0 ≤ el.
Proof.
  unfold get_range, get_from, zlen. intros E1 E2.
  destruct (_ && _) eqn:T1 in E1; [|done]. apply andb_prop in T1 as [T1 T2]. apply andb_prop in T1 as [_ T1].
  apply Z.leb_le in T1, T2. injection E1 as <-. rewrite drop_0, Z.sub_0_r, length_take in *.
  destruct (_ && _) in E2; [|done]. injection E2 as <-.
  rewrite Nat.min_l by lia. split_and!; [lia| |lia]. unfold flash_after. cbn. rewrite Nat2Z.id.
  split_and!; [lia|done|lia].
Qed.

Lemma load_process_Ok fl mem index pol s fl' mem' po s' :
  slice_ok mem → 0 ≤ grant_counter (sys_kernel s) →
  load_process TASK_SIZE PROCESS_STRUCT_OFFSET upcall_buf fl mem index pol s = Ret (Ok (fl', mem', po), s') →
  entry_loaded fl mem index s fl' mem' po s'.
Proof.
  intros Hm Hg. unfold load_process.
  destruct (get_range (fl_bytes fl) 0 8) as [hd|]; [|by intros [=]].
  destruct (entry_lengths hd) as [[[v hl] el]|]; [|by intros [=]].
  destruct (get_range (fl_bytes fl) 0 el) as [entry|] eqn:E1; [|by intros [=]].
  destruct (get_from (fl_bytes fl) (zlen entry)) as [rest|] eqn:E2; [|by intros [=]].
  destruct (take_flash fl el entry rest E1 E2) as (Hz & Hfl & Hel).
  destruct (0 <? hl); [|intros [= <- <- <- <-]; by eapply entry_skipped].
  intros E. apply outcome_bind_Ret in E as ([[res k] hw] & Ec & E). injection E as Er <-.
  destruct res as [[p un]|[e m]]; [|done]. injection Er as <- <- <-. destruct p as [p|].
  - pose proof (create_placed _ _ _ _ _ _ _ _ _ _ _ _ _ _ Ec) as (P1 & P2 & P3 & P4).
    apply create_Ok in Ec; [|done..]. eapply entry_process; [done|done|done| |done|done|done].
    rewrite P2. unfold fl_len. cbn. lia.
  - apply create_skipped in Ec as [-> ->]. by eapply entry_skipped.
Qed.

Lemma load_process_frame fl mem index pol s r s' :
  load_process TASK_SIZE PROCESS_STRUCT_OFFSET upcall_buf fl mem index pol s = Ret (r, s') →
  sys_procs s' = sys_procs s ∧ grant_counter (sys_kernel s') = grant_counter (sys_kernel s) ∧
  process_identifier_max (sys_kernel s) ≤ process_identifier_max (sys_kernel s').
Proof.
  unfold load_process.
  destruct (get_range (fl_bytes fl) 0 8) as [hd|]; [|by intros [= <- <-]].
  destruct (entry_lengths hd) as [[[v hl] el]|]; [|by intros [= <- <-]].
  destruct (get_range (fl_bytes fl) 0 el) as [entry|]; [|by intros [= <- <-]].
  destruct (get_from (fl_bytes fl) (zlen entry)) as [rest|]; [|by intros [= <- <-]].
  destruct (0 <? hl); [|by intros [= <- <-]].
  intros E. apply outcome_bind_Ret in E as ([[res k] hw] & Ec & E). injection E as _ <-.
  by apply create_counters in Ec.
Qed.

(** ** The table while it is filled *)

(** Block, flash and identifier of [p] come before those of [q]. *)
Definition before (p q : proc) : Prop :=
  memory_start p + memory_len p ≤ memory_start q ∧ flash_addr p + flash_len p ≤ flash_addr q ∧ ident p < ident q.

(** A process as the loader leaves it, in slot [i], its block and its flash
    inside the given bounds. *)
Record fresh_process (i : nat) (mem_lo mem_hi flash_lo flash_hi id_hi : Z) (p : proc) : Prop := {
  fp_layout : layout p;
  fp_state : state p = CredentialsUnchecked;
  fp_app_id : app_id p = LocallyUnique;
  fp_index : pid_index (process_id p) = Z.of_nat i;
  fp_ident : ident p < id_hi;
  fp_memory : mem_lo ≤ memory_start p ∧ memory_start p + memory_len p ≤ mem_hi;
  fp_flash : flash_lo ≤ flash_addr p ∧ flash_addr p + flash_len p ≤ flash_hi;
}.

Lemma fresh_mono i ml mh fl fh ih mh' fh' ih' p :
  fresh_process i ml mh fl fh ih p → mh ≤ mh' → fh ≤ fh' → ih ≤ ih' → fresh_process i ml mh' fl fh' ih' p.
Proof. intros [] ???. split; try done; lia. Qed.

Record loaded (fl0 : Flash) (mem0 : MemSlice) (s0 : sys) (ps : list proc) (fl : Flash) (mem : MemSlice) s : Prop := {
  ld_table : sys_procs s = (Some <$> ps) ++ drop (length ps) (sys_procs s0);
  ld_room : (length ps ≤ length (sys_procs s0))%nat;
  ld_sorted : StronglySorted before ps;
  ld_procs : ∀ i p, ps !! i = Some p →
    fresh_process i (ms_ptr mem0) (ms_ptr mem) (fl_ptr fl0) (fl_ptr fl) (process_identifier_max (sys_kernel s)) p;
  ld_mem : slice_ok mem ∧ ms_ptr mem0 ≤ ms_ptr mem ∧ ms_ptr mem + ms_len mem = ms_ptr mem0 + ms_len mem0;
  ld_flash : fl_ptr fl0 ≤ fl_ptr fl ∧ fl_ptr fl + fl_len fl = fl_ptr fl0 + fl_len fl0;
  ld_grants : 0 ≤ grant_counter (sys_kernel s);
}.

Lemma loaded_start fl mem s :
  slice_ok mem → 0 ≤ grant_counter (sys_kernel s) → loaded fl mem s [] fl mem s.
Proof. intros Hm Hg. split; try done; [cbn; lia|constructor]. Qed.

Lemma flash_after_bounds fl fl' n :
  flash_after fl fl' n → fl_ptr fl ≤ fl_ptr fl' ∧ fl_ptr fl' + fl_len fl' = fl_ptr fl + fl_len fl.
Proof. intros (E1 & E2 & H). unfold fl_len, zlen. rewrite E1, E2, length_drop. lia. Qed.

Lemma loaded_length fl0 mem0 s0 ps fl mem s :
  loaded fl0 mem0 s0 ps fl mem s → length (sys_procs s) = length (sys_procs s0).
Proof. intros [-> ? _ _ _ _ _]. rewrite length_app, length_fmap, length_drop. lia. Qed.

(** Nothing but counters and the position moved. *)
Lemma loaded_skip fl0 mem0 s0 ps fl mem s fl' s' :
  loaded fl0 mem0 s0 ps fl mem s → fl_ptr fl ≤ fl_ptr fl' → fl_ptr fl' + fl_len fl' = fl_ptr fl + fl_len fl →
  sys_procs s' = sys_procs s → grant_counter (sys_kernel s') = grant_counter (sys_kernel s) →
  process_identifier_max (sys_kernel s) ≤ process_identifier_max (sys_kernel s') →
  loaded fl0 mem0 s0 ps fl' mem s'.
Proof.
  intros [Ht Hr Hs Hp Hm Hf Hg] H1 H2 E1 E2 E3. split; [by rewrite E1|done|done| |done|lia|lia].
  intros i p Hi. eapply fresh_mono; [by apply Hp|lia..].
Qed.

Lemma StronglySorted_snoc (ps : list proc) p :
  StronglySorted before ps → Forall (λ q, before q p) ps → StronglySorted before (ps ++ [p]).
Proof.
  induction 1 as [|q ps Hs IH Hq]; intros Hp; cbn; [repeat constructor|].
  apply Forall_cons in Hp as [Hqp Hp]. constructor; [by apply IH|]. apply Forall_app. split; [done|]. by apply Forall_singleton.
Qed.

Lemma loaded_process fl0 mem0 s0 ps fl mem s fl' rest p s' s'' :
  loaded fl0 mem0 s0 ps fl mem s → (length ps < length (sys_procs s0))%nat →
  entry_loaded fl mem (Z.of_nat (length ps)) s fl' rest (Some p) s' →
  set_slot (length ps) (Some p) s' = Ret (tt, s'') →
  loaded fl0 mem0 s0 (ps ++ [p]) fl' rest s''.
Proof.
  intros [Ht Hr Hs Hp (Hm1 & Hm2 & Hm3) Hf Hg] Hlt E Es.
  inversion E as [|fl1 n p1 rest1 s1 Hfa Hcr Ha Hn Hix Hap Hprocs]; subst.
  apply flash_after_bounds in Hfa as Hfl. destruct Hfa as (Fp & _).
  destruct Hcr as [L St [Hi Hi'] [Hgr _] Hin [R1 [R2 R3]] _ _]. injection Es as <-.
  assert (Hlen : 0 ≤ memory_start p ∧ 0 ≤ memory_len p).
  { pose proof (layout_block p L). unfold slice_ok in *. lia. }
  assert (Hold : ∀ i q, ps !! i = Some q →
    fresh_process i (ms_ptr mem0) (ms_ptr rest) (fl_ptr fl0) (fl_ptr fl') (process_identifier_max (sys_kernel s')) q ∧
    before q p).
  { intros i q Hq. pose proof (Hp i q Hq) as Hfq. split; [eapply fresh_mono; [done|lia..]|].
    destruct Hfq. unfold before. lia. }
  split; cbn [sys_procs sys_kernel].
  - rewrite Hprocs, Ht, fmap_app, length_app, insert_app_r_alt by (rewrite length_fmap; lia).
    rewrite length_fmap, Nat.sub_diag, <- app_assoc. f_equal. cbn [fmap list_fmap length].
    destruct (drop (length ps) (sys_procs s0)) as [|x xs] eqn:Ed.
    { apply (f_equal length) in Ed. rewrite length_drop in Ed. cbn in Ed. lia. }
    cbn. f_equal. rewrite <- drop_drop, Ed. done.
  - rewrite length_app. cbn. lia.
  - apply StronglySorted_snoc; [done|]. apply Forall_lookup. intros i q Hq. by apply (Hold i q).
  - intros i q Hq. apply lookup_app_Some in Hq as [Hq|[Hge Hq]]; [by apply Hold|].
    apply list_lookup_singleton_Some in Hq as [Hz <-]. replace i with (length ps) by lia.
    split; try done; lia.
  - unfold slice_ok in *. lia.
  - lia.
  - lia.
Qed.

Lemma load_loop_loaded fl0 mem0 s0 pol fuel : ∀ ps fl mem s r s',
  loaded fl0 mem0 s0 ps fl mem s →
  load_loop TASK_SIZE PROCESS_STRUCT_OFFSET upcall_buf fuel (length ps) fl mem pol s = Ret (r, s') →
  ∃ ps' fl' mem', loaded fl0 mem0 s0 ps' fl' mem' s'.
Proof.
  induction fuel as [|fuel IH]; intros ps fl mem s r s' L E; cbn [load_loop] in E.
  { injection E as <- <-. eauto. }
  apply M_bind_Ret in E as (t & s1 & E1 & E). injection E1 as <- <-.
  destruct (Nat.ltb_spec (length ps) (length (sys_procs s))) as [Hlt|Hge]; [|injection E as <- <-; eauto].
  apply M_bind_Ret in E as (lr & s1 & El & E). rewrite (loaded_length _ _ _ _ _ _ _ L) in Hlt.
  destruct lr as [[[fl' mem'] po]|[[? ?] ?]].
  - pose proof (load_process_Ok _ _ _ _ _ _ _ _ _ (proj1 (ld_mem _ _ _ _ _ _ _ L))
                  (ld_grants _ _ _ _ _ _ _ L) El) as Hl.
    destruct po as [p|].
    + apply M_bind_Ret in E as ([] & s2 & Es & E).
      pose proof (loaded_process _ _ _ _ _ _ _ _ _ _ _ _ L Hlt Hl Es) as L'.
      eapply (IH (ps ++ [p])); [exact L'|]. rewrite length_app, Nat.add_1_r. exact E.
    + inversion Hl as [fl1 n s2 Hfa Hk Hp|]; subst. apply flash_after_bounds in Hfa as [F1 F2].
      eapply IH; [|exact E]. apply (loaded_skip _ _ _ _ _ _ _ _ _ L F1 F2 Hp); by rewrite Hk.
  - injection E as <- <-. apply load_process_frame in El as (H1 & H2 & H3).
    exists ps, fl, mem. by apply (loaded_skip _ _ _ _ _ _ _ _ _ L).
Qed.

Lemma loaded_lookup fl0 mem0 s0 ps fl mem s i p :
  (∀ o, o ∈ sys_procs s0 → o = None) → loaded fl0 mem0 s0 ps fl mem s →
  sys_procs s !! i = Some (Some p) → ps !! i = Some p.
Proof.
  intros Hn L Hi. rewrite (ld_table _ _ _ _ _ _ _ L) in Hi. apply lookup_app_Some in Hi as [Hi|[_ Hi]].
  - rewrite list_lookup_fmap in Hi. destruct (ps !! i); naive_solver.
  - rewrite lookup_drop in Hi.
    by apply list_elem_of_lookup_2, Hn in Hi.
Qed.

Lemma sorted_lookup_ident (ps : list proc) i j p q :
  StronglySorted before ps → ps !! i = Some p → ps !! j = Some q → (i < j)%nat → ident p < ident q.
Proof.
  intros Hs. revert i j. induction Hs as [|x ps Hs IH Hx]; intros i j Hi Hj Hij; [done|].
  destruct i as [|i], j as [|j]; try lia; cbn in *.
  - injection Hi as ->. rewrite Forall_lookup in Hx. apply (Hx _ _ Hj).
  - eapply IH; [done..|lia].
Qed.

Lemma loaded_sys_ok fl0 mem0 s0 ps fl mem s :
  (∀ o, o ∈ sys_procs s0 → o = None) → loaded fl0 mem0 s0 ps fl mem s → sys_ok s.
Proof.
  intros Hn L. split.
  - apply (ld_grants _ _ _ _ _ _ _ L).
  - intros i p Hi. destruct (ld_procs _ _ _ _ _ _ _ L i p (loaded_lookup _ _ _ _ _ _ _ _ _ Hn L Hi)). done.
  - intros i j p q Hi Hj Hid. apply (loaded_lookup _ _ _ _ _ _ _ _ _ Hn L) in Hi, Hj.
    pose proof (ld_sorted _ _ _ _ _ _ _ L) as Hs.
    destruct (lt_eq_lt_dec i j) as [[Hij| ->]|Hij]; [|done|];
      [pose proof (sorted_lookup_ident _ _ _ _ _ Hs Hi Hj Hij)|pose proof (sorted_lookup_ident _ _ _ _ _ Hs Hj Hi Hij)]; lia.
Qed.

(** C3.  The loader fills the process table in flash order: the processes it
    creates occupy the first slots, each knows its slot, waits for its
    credentials, has a sound layout, and its block and its flash lie inside the
    memory and the flash the board handed over, strictly after those of the
    processes before it - so no two processes share memory or code.  A board
    that starts with an empty table enters the kernel loop with the table
    invariant. *)
Theorem loader_builds_table fuel fl mem pol s r s' :
  slice_ok mem → 0 ≤ grant_counter (sys_kernel s) →
  load_processes_from_flash TASK_SIZE PROCESS_STRUCT_OFFSET upcall_buf fuel fl mem pol s = Ret (r, s') →
  ∃ ps,
    sys_procs s' = (Some <$> ps) ++ drop (length ps) (sys_procs s) ∧
    StronglySorted before ps ∧
    (∀ i p, ps !! i = Some p →
       fresh_process i (ms_ptr mem) (ms_ptr mem + ms_len mem) (fl_ptr fl) (fl_ptr fl + fl_len fl)
         (process_identifier_max (sys_kernel s')) p) ∧
    ((∀ o, o ∈ sys_procs s → o = None) → sys_ok s').
Proof.
  intros Hm Hg E. destruct (load_loop_loaded fl mem s pol fuel [] fl mem s r s') as (ps & fl' & mem' & L);
    [by apply loaded_start|exact E|].
  pose proof (ld_mem _ _ _ _ _ _ _ L) as ((_ & ? & _) & ? & ?). pose proof (ld_flash _ _ _ _ _ _ _ L) as [? ?].
  exists ps. split_and!; [apply L..| |].
  - intros i p Hi. eapply fresh_mono; [by apply L|lia| |lia].
    unfold fl_len, zlen in *. lia.
  - intros Hn. by eapply loaded_sys_ok.
Qed.

(** ** When the walk ends *)

(** Where the walk goes after the entry at the start of [fl]. *)
Definition next_flash (fl : Flash) : option Flash :=
  match get_range (fl_bytes fl) 0 8 with
  | None => None
  | Some header =>
      match entry_lengths header with
      | None => None
      | Some (_, _, entry_length) =>
          match get_range (fl_bytes fl) 0 entry_length with
          | None => None
          | Some entry =>
              match get_from (fl_bytes fl) (zlen entry) with
              | None => None
              | Some rest => Some (mkFlash (fl_ptr fl + zlen entry) rest)
              end
          end
      end
  end.

Lemma load_process_next fl mem index pol s fl' mem' po s' :
  load_process TASK_SIZE PROCESS_STRUCT_OFFSET upcall_buf fl mem index pol s = Ret (Ok (fl', mem', po), s') →
  next_flash fl = Some fl'.
Proof.
  unfold load_process, next_flash.
  destruct (get_range (fl_bytes fl) 0 8) as [hd|]; [|by intros [=]].
  destruct (entry_lengths hd) as [[[v hl] el]|]; [|by intros [=]].
  destruct (get_range (fl_bytes fl) 0 el) as [entry|]; [|by intros [=]].
  destruct (get_from (fl_bytes fl) (zlen entry)) as [rest|]; [|by intros [=]].
  destruct (0 <? hl); [|by intros [= <- <- <- <-]].
  intros E. apply outcome_bind_Ret in E as ([[res k] hw] & Ec & E). injection E as Er <-.
  destruct res as [[p un]|[e m]]; [|done]. by injection Er as <- <- <-.
Qed.

Lemma next_flash_shorter fl fl' :
  next_flash fl = Some fl' → fl' = fl ∨ (length (fl_bytes fl') < length (fl_bytes fl))%nat.
Proof.
  unfold next_flash. destruct (get_range (fl_bytes fl) 0 8) as [hd|]; [|done].
  destruct (entry_lengths hd) as [[[v hl] el]|]; [|done].
  destruct (get_range (fl_bytes fl) 0 el) as [entry|] eqn:E1; [|done].
  destruct (get_from (fl_bytes fl) (zlen entry)) as [rest|] eqn:E2; [|done]. intros [= <-].
  destruct (take_flash fl el entry rest E1 E2) as (Hz & (Hp & Hb & Hn) & Hel). cbn in *.
  destruct (decide (el = 0)) as [->|]; [left|right; rewrite Hb, length_drop; lia].
  rewrite drop_0 in Hb. subst rest. rewrite Hz, Z.add_0_r. by destruct fl.
Qed.

(** No entry the walk can reach has length zero. *)
Definition no_empty_entry (fl : Flash) : Prop :=
  ∀ f, rtc (λ a b, next_flash a = Some b) fl f → next_flash f ≠ Some f.

(** An executable check of it. *)
Fixpoint walk_ends (n : nat) (fl : Flash) : bool :=
  match n with
  | O => false
  | S n =>
      match next_flash fl with
      | None => true
      | Some fl' => (length (fl_bytes fl') <? length (fl_bytes fl))%nat && walk_ends n fl'
      end
  end.

Lemma walk_ends_no_empty n : ∀ fl, walk_ends n fl = true → no_empty_entry fl.
Proof.
  induction n as [|n IH]; intros fl E; [done|]. cbn [walk_ends] in E. intros f Hf.
  inversion Hf as [|? fl' ? Hn Hf']; subst.
  - intros En. rewrite En in E. apply andb_prop in E as [E _]. apply Nat.ltb_lt in E. lia.
  - rewrite Hn in E. apply andb_prop in E as [_ E]. by apply (IH fl').
Qed.

Lemma load_loop_finishes pol fuel : ∀ index fl mem s r s',
  no_empty_entry fl → (length (fl_bytes fl) < fuel)%nat →
  load_loop TASK_SIZE PROCESS_STRUCT_OFFSET upcall_buf fuel index fl mem pol s = Ret (r, s') → r = Some tt.
Proof.
  induction fuel as [|fuel IH]; intros index fl mem s r s' Hne Hlt E; [lia|]. cbn [load_loop] in E.
  apply M_bind_Ret in E as (t & s1 & E1 & E). injection E1 as <- <-.
  destruct (index <? length (sys_procs s))%nat; [|by injection E as <- <-].
  apply M_bind_Ret in E as (lr & s1 & El & E). destruct lr as [[[fl' mem'] po]|[[? ?] ?]]; [|by injection E as <- <-].
  apply load_process_next in El. destruct (next_flash_shorter fl fl' El) as [->|Hs].
  { by apply (Hne fl) in El; [|apply rtc_refl]. }
  assert (Hne' : no_empty_entry fl').
  { intros f Hf. apply Hne. by apply rtc_l with fl'. }
  destruct po as [p|]; [apply M_bind_Ret in E as ([] & s2 & _ & E)|]; eapply IH; [exact Hne'|lia|exact E|exact Hne'|lia|exact E].
Qed.

(** Loading ends: when no entry on the way has length zero, the loop stops
    within one step per byte of flash - it returns unless process creation
    panics. *)
Theorem loader_terminates fuel fl mem pol s r s' :
  no_empty_entry fl → (length (fl_bytes fl) < fuel)%nat →
  load_processes_from_flash TASK_SIZE PROCESS_STRUCT_OFFSET upcall_buf fuel fl mem pol s = Ret (r, s') →
  r = Some tt.
Proof. apply load_loop_finishes. Qed.

Lemma M_bind_step {A B} (m : M A) (f : A → M B) s a s1 :
  m s = Ret (a, s1) → (m ≫= f) s = f a s1.
Proof. intros E. unfold mbind, M_bind. by rewrite E. Qed.

Lemma empty_entry_lengths b0 b1 :
  in_u8 b0 → in_u8 b1 → entry_lengths [2; 0; b0; b1; 0; 0; 0; 0] = Some (0, 0, 0).
Proof.
  unfold in_u8, entry_lengths, parse_tbf_header_lengths. intros H0 H1. cbn -[Z.mul Z.add Z.ltb].
  destruct (Z.ltb_spec (0 + 256 * (0 + 256 * (0 + 256 * (0 + 256 * 0)))) (b0 + 256 * (b1 + 256 * 0))); [done|].
  destruct (Z.ltb_spec (b0 + 256 * (b1 + 256 * 0)) 16); [done|lia].
Qed.

Lemma empty_entry_skipped ptr b0 b1 bytes mem index pol s :
  in_u8 b0 → in_u8 b1 →
  let fl := mkFlash ptr ([2; 0; b0; b1; 0; 0; 0; 0] ++ bytes) in
  load_process TASK_SIZE PROCESS_STRUCT_OFFSET upcall_buf fl mem index pol s = Ret (Ok (fl, mem, None), s).
Proof.
  intros H0 H1 fl. unfold load_process. cbn [fl fl_bytes fl_ptr].
  assert (Hz : 8 ≤ zlen ([2; 0; b0; b1; 0; 0; 0; 0] ++ bytes)) by (unfold zlen; rewrite length_app; cbn; lia).
  assert (E8 : get_range ([2; 0; b0; b1; 0; 0; 0; 0] ++ bytes) 0 8 = Some [2; 0; b0; b1; 0; 0; 0; 0]).
  { unfold get_range. destruct (Z.leb_spec 8 (zlen ([2; 0; b0; b1; 0; 0; 0; 0] ++ bytes))); [done|lia]. }
  assert (E0 : get_range ([2; 0; b0; b1; 0; 0; 0; 0] ++ bytes) 0 0 = Some []).
  { unfold get_range. destruct (Z.leb_spec 0 (zlen ([2; 0; b0; b1; 0; 0; 0; 0] ++ bytes))); [done|lia]. }
  rewrite E8, empty_entry_lengths, E0 by done. unfold get_from. change (zlen []) with 0.
  destruct (Z.leb_spec 0 (zlen ([2; 0; b0; b1; 0; 0; 0; 0] ++ bytes))); [|lia].
  cbn [Z.leb Z.compare andb Z.ltb]. by rewrite Z.add_0_r.
Qed.

(** A TBF header of version 2 with total length zero stops the boot: the
    entry counts as an invalid header to be skipped by its length, the walk
    stays where it is, and the loop never ends, however long it runs. *)
Theorem loader_stuck_on_empty_entry fuel ptr b0 b1 bytes mem pol s :
  in_u8 b0 → in_u8 b1 → sys_procs s ≠ [] →
  load_processes_from_flash TASK_SIZE PROCESS_STRUCT_OFFSET upcall_buf fuel
    (mkFlash ptr ([2; 0; b0; b1; 0; 0; 0; 0] ++ bytes)) mem pol s = Ret (None, s).
Proof.
  intros H0 H1 Hs. unfold load_processes_from_flash. induction fuel as [|fuel IH]; [done|]. cbn [load_loop].
  rewrite (M_bind_step get _ s s s) by done.
  destruct (Nat.ltb_spec 0 (length (sys_procs s))) as [_|Hl]; [|destruct (sys_procs s); [done|cbn in Hl; lia]].
  by rewrite (M_bind_step _ _ _ _ _ (empty_entry_skipped ptr b0 b1 bytes mem (Z.of_nat 0) pol s H0 H1)).
Qed.

(** ** Approval without checking *)

Lemma mark_pass_unchecked (p : proc) :
  state p = CredentialsUnchecked →
  mark_credentials_pass None LocallyUnique p = (Ok tt, set_app_id LocallyUnique (set_state CredentialsApproved p)).
Proof. intros H. unfold mark_credentials_pass. case_bool_decide; [congruence|done]. Qed.

Lemma approve_from_approves n : ∀ i s r s',
  (i + n = length (sys_procs s))%nat →
  (∀ j p, (i ≤ j)%nat → sys_procs s !! j = Some (Some p) → state p = CredentialsUnchecked) →
  (∀ j p, (j < i)%nat → sys_procs s !! j = Some (Some p) → state p = CredentialsApproved) →
  approve_from n i s = Ret (r, s') →
  r = Ok tt ∧ ∀ j p, sys_procs s' !! j = Some (Some p) → state p = CredentialsApproved.
Proof.
  induction n as [|n IH]; intros i s r s' Hl Hu Ha E; cbn [approve_from] in E.
  { injection E as <- <-. split; [done|]. intros j p Hj. apply (Ha j); [|done]. apply lookup_lt_Some in Hj. lia. }
  apply M_bind_Ret in E as (t & s1 & E1 & E). injection E1 as <- <-.
  assert (Hstep : (∀ p, sys_procs s !! i ≠ Some (Some p)) → approve_from n (S i) s = Ret (r, s') →
                  r = Ok tt ∧ ∀ j p, sys_procs s' !! j = Some (Some p) → state p = CredentialsApproved).
  { intros Hno E'. eapply IH; [|..|exact E']; [lia|intros j p Hj; apply Hu; lia|].
    intros j p Hj Hp. destruct (decide (j = i)) as [->|]; [by apply Hno in Hp|]. apply (Ha j p); [lia|done]. }
  destruct (sys_procs s !! i) as [[p|]|] eqn:Hi; [|by apply Hstep..].
  apply M_bind_Ret in E as (rm & s1 & E1 & E). unfold method, at_proc in E1. rewrite Hi in E1. cbn in E1.
  rewrite (mark_pass_unchecked p (Hu i p ltac:(lia) Hi)) in E1. injection E1 as <- <-.
  pose proof (lookup_lt_Some _ _ _ Hi) as Hlt.
  eapply IH; [|..|exact E]; cbn [sys_procs]; [rewrite length_insert; lia|..]; intros j q Hj Hq.
  - rewrite list_lookup_insert_ne in Hq by lia. apply (Hu j q); [lia|done].
  - destruct (decide (i = j)) as [<-|]; [rewrite list_lookup_insert_eq in Hq by done; by injection Hq as <-|].
    rewrite list_lookup_insert_ne in Hq by done. apply (Ha j q); [lia|done].
Qed.

Lemma safe_approve_from n : ∀ i,
  safe TASK_SIZE PROCESS_STRUCT_OFFSET (approve_from (Hw := Hw) (Config := Config) (Stored := Stored) (Ext := Ext) n i).
Proof.
  induction n as [|n IH]; intros i; cbn [approve_from]; [apply safe_ret|].
  apply safe_bind; [apply safe_get|]. intros s. destruct (sys_procs s !! i) as [[p|]|]; [|apply IH..].
  apply safe_bind; [|intros [|]; [apply IH|apply safe_ret]].
  apply safe_method. intros k hw q a q' [= E]. apply (one_call _ _ (CallMarkPass None LocallyUnique)).
  cbn. by rewrite E.
Qed.

(** Boot without credential checking: starting from an empty table,
    [load_processes] reports success once the walk has ended, every process it
    loaded is approved, and the table satisfies the invariant of the kernel
    loop. *)
Theorem load_processes_approves fuel fl mem pol s r s' :
  slice_ok mem → 0 ≤ grant_counter (sys_kernel s) → (∀ o, o ∈ sys_procs s → o = None) →
  load_processes TASK_SIZE PROCESS_STRUCT_OFFSET upcall_buf fuel fl mem pol s = Ret (Some r, s') →
  r = Ok tt ∧ sys_ok s' ∧ ∀ i p, sys_procs s' !! i = Some (Some p) → state p = CredentialsApproved.
Proof.
  intros Hm Hg Hn E. unfold load_processes in E. apply M_bind_Ret in E as ([[]|] & s1 & E1 & E); [|by injection E].
  apply M_bind_Ret in E as (t & s2 & Eg & E). injection Eg as <- <-.
  apply M_bind_Ret in E as (r' & s2 & Ea & E). injection E as <- <-.
  destruct (load_loop_loaded fl mem s pol fuel [] fl mem s (Some tt) s1) as (ps & fl' & mem' & L);
    [by apply loaded_start|exact E1|].
  assert (Hall : ∀ j p, sys_procs s1 !! j = Some (Some p) → state p = CredentialsUnchecked).
  { intros j p Hj. apply (loaded_lookup _ _ _ _ _ _ _ _ _ Hn L) in Hj. by apply (ld_procs _ _ _ _ _ _ _ L) in Hj as []. }
  pose proof (safe_approve_from _ _ _ _ _ Ea) as Hev.
  apply approve_from_approves in Ea as [-> Ha]; [|done|intros j p _; apply Hall|lia].
  split_and!; [done| |done]. pose proof (loaded_sys_ok _ _ _ _ _ _ _ Hn L) as Ok1.
  by apply (evolves_ok TASK_SIZE PROCESS_STRUCT_OFFSET task_size_pos struct_size_pos s1).
Qed.

End loader.

(** ** A concrete boot

    Two applications and a padding entry in flash, then a word that is no
    header; a table with three slots. *)

#[local] Existing Instance ex_boundary.
#[local] Existing Instance ex_boundary_laws.

Definition ex_app : list Z :=
  encode_tbf_header 128 1 [EProgram (mkProgram 41 0 1001 100 3); EKernelVersion (mkKernelVersion 2 1)].

Definition ex_entry : list Z := ex_app ++ replicate (128 - length ex_app) 0.
Definition ex_padding : list Z := encode_tbf_header 64 1 [] ++ replicate 48 0.
Definition ex_app_flash : Flash := mkFlash 262144 (ex_entry ++ ex_padding ++ ex_entry ++ replicate 16 255).

Definition ex_boot_sys : ex_sys_type := mkSys (mkKernel 7 2 false) tt [None; None; None] ∅ ∅ 0.

Definition ex_tasks : list Task := replicate 10 ex_task.

Definition ex_boot : outcome (option unit * ex_sys_type) :=
  load_processes_from_flash 32 400 ex_tasks 400 ex_app_flash ex_memory RestartFaultPolicy ex_boot_sys.

Lemma ex_boot_empty : ∀ o, o ∈ sys_procs ex_boot_sys → o = None.
Proof.
  intros o Ho. apply list_elem_of_lookup_1 in Ho as [[|[|[|i]]] Hi]; cbn in Hi; by simplify_eq.
Qed.
Lemma ex_memory_ok : slice_ok ex_memory.
Proof. vm_compute. repeat split; congruence. Qed.

Lemma loader_builds_table_witness :
  ∃ s', ex_boot = Ret (Some tt, s') ∧ sys_ok s' ∧ length (omap id (sys_procs s')) = 2%nat.
Proof.
  destruct ex_boot as [[r s']|] eqn:E; [|vm_compute in E; discriminate E].
  destruct (loader_builds_table 32 400 ex_tasks ltac:(lia) ltac:(lia) 400 ex_app_flash ex_memory
              RestartFaultPolicy ex_boot_sys r s' ex_memory_ok ltac:(cbn; lia) E) as (ps & Ht & _ & _ & Hok).
  exists s'. specialize (Hok ex_boot_empty). clear Ht.
  assert (Hr : r = Some tt ∧ length (omap id (sys_procs s')) = 2%nat).
  { clear Hok. vm_compute in E. injection E as <- <-. split; vm_compute; reflexivity. }
  destruct Hr as [-> Hl]. split; [reflexivity|]. split; [exact Hok|exact Hl].
Defined.

Lemma loader_terminates_witness :
  ∃ r s', ex_boot = Ret (r, s') ∧ r = Some tt.
Proof.
  destruct ex_boot as [[r s']|] eqn:E; [|vm_compute in E; discriminate E]. exists r, s'. split; [reflexivity|].
  exact (loader_terminates 32 400 ex_tasks 400 ex_app_flash ex_memory RestartFaultPolicy ex_boot_sys r s'
           (walk_ends_no_empty 5 ex_app_flash ltac:(vm_compute; reflexivity))
           ltac:(vm_compute; repeat constructor) E).
Defined.

Lemma loader_stuck_on_empty_entry_witness :
  load_processes_from_flash 32 400 ex_tasks 1000 (mkFlash 262144 ([2; 0; 16; 0; 0; 0; 0; 0] ++ ex_entry))
    ex_memory RestartFaultPolicy ex_boot_sys = Ret (None, ex_boot_sys).
Proof.
  apply (loader_stuck_on_empty_entry 32 400 ex_tasks 1000 262144 16 0 ex_entry ex_memory RestartFaultPolicy ex_boot_sys);
    [unfold in_u8; lia..|discriminate].
Defined.

Lemma load_processes_approves_witness :
  ∃ s', load_processes 32 400 ex_tasks 400 ex_app_flash ex_memory RestartFaultPolicy ex_boot_sys
        = Ret (Some (Ok tt), s') ∧ sys_ok s'.
Proof.
  destruct (load_processes 32 400 ex_tasks 400 ex_app_flash ex_memory RestartFaultPolicy ex_boot_sys)
    as [[[r|] s']|] eqn:E; [|vm_compute in E; discriminate E..].
  destruct (load_processes_approves 32 400 ex_tasks ltac:(lia) ltac:(lia) 400 ex_app_flash ex_memory
              RestartFaultPolicy ex_boot_sys r s' ex_memory_ok ltac:(cbn; lia) ex_boot_empty E) as (-> & Hok & _).
  exists s'. split; [reflexivity|exact Hok].
Defined.
