(* ===== verification/CheckerTheorems.v ===== *)
(** * Which processes run: theorems

    The choice between versions of an application ([is_runnable]) and the
    footer cursor of the credential checker. *)

From stdpp Require Import gmap.
From S2P Require Import Prelude Syscall Mpu RingBuffer Bytes Tbf.
From S2P Require Import ProcessData Process ProcessProofs ProcessCreate ProcessTheorems Grant.
From S2P Require Import KernelSys Ipc Checker KernelLoop KernelProofs KernelTheorems.

(** ** One version of an application at a time *)

Section versions.
Context {Hw Config Stored Ext : Type} `{!MPU Hw Config} `{!UserspaceKernelBoundary Stored}.
Abbreviation proc := (Process Config Stored).
Abbreviation sys := (Sys Hw Config Stored Ext).
Implicit Types p q : proc.

(** What tells an application from another one. *)
Definition same_identity p p' : Prop :=
  process_id p' = process_id p ∧ app_id p' = app_id p ∧ credentials p' = credentials p ∧
  header p' = header p.

Context (R : Resources (Hw := Hw) (Config := Config) (Stored := Stored) (Ext := Ext)).
Abbreviation different := (different_identifier (kr_policy R)).

(** The policy compares the identifiers of two applications. *)
Context (different_sym : ∀ p q, different p q = different q p).
Context (different_identity : ∀ p p' q, same_identity p p' → different p' q = different p q).

Definition shares_id p q : Prop :=
  different p q = false ∨ ShortID_eq (app_id q) (app_id p) = true.

(** [q] keeps [p] from running, in the words of the documentation. *)
Definition blocked_by p q : Prop :=
  state q ≠ CredentialsUnchecked ∧ state q ≠ CredentialsFailed ∧ shares_id p q ∧
  (is_running q = true ∨ binary_version p < binary_version q ∧ state q ≠ Terminated).

(** No two processes of the same application are running. *)
Definition exclusive (ps : list (option proc)) : Prop :=
  ∀ i j p q, i ≠ j → ps !! i = Some (Some p) → ps !! j = Some (Some q) →
    is_running p = true → is_running q = true → ¬ shares_id p q.

Lemma blocks_spec p q : blocks different p q = true ↔ blocked_by p q.
Proof.
  unfold blocks, blocked_by, shares_id. rewrite !andb_true_iff, orb_true_iff, !andb_true_iff.
  rewrite negb_true_iff, andb_false_iff, negb_false_iff, !bool_decide_eq_true, Z.ltb_lt. tauto.
Qed.

Lemma is_runnable_spec p ps :
  is_runnable different p ps = true ↔
  (state p = CredentialsApproved ∨ state p = Terminated) ∧
  ∀ j q, ps !! j = Some (Some q) → ¬ blocked_by p q.
Proof.
  unfold is_runnable. destruct (_ && _) eqn:Es.
  { apply andb_prop in Es as [?%bool_decide_eq_true ?%bool_decide_eq_true]. split; [done|]. tauto. }
  apply andb_false_iff in Es as [Es|Es]; apply bool_decide_eq_false, dec_stable in Es;
    (rewrite negb_true_iff; split;
     [ intros H; split; [tauto|]; intros j q Hq Hb%blocks_spec;
       assert (existsb (λ o, match o with Some other => blocks different p other | None => false end) ps = true);
       [apply existsb_exists; exists (Some q); split; [by apply list_elem_of_In, list_elem_of_lookup; exists j|done]
       |congruence]
     | intros [_ H]; apply not_true_is_false; intros (o & Ho & Hb)%existsb_exists;
       destruct o as [q|]; [|done]; apply blocks_spec in Hb;
       apply list_elem_of_In, list_elem_of_lookup in Ho as [j Hj]; by eapply H ]).
Qed.

Lemma ShortID_eq_sym a b : ShortID_eq a b = ShortID_eq b a.
Proof. destruct a, b; cbn; [done..|apply Z.eqb_sym]. Qed.

Lemma shares_id_sym p q : shares_id p q → shares_id q p.
Proof. unfold shares_id. rewrite different_sym, ShortID_eq_sym. done. Qed.

Lemma shares_id_identity p p' q : same_identity p p' → shares_id p' q → shares_id p q.
Proof.
  intros I. unfold shares_id. rewrite (different_identity p p' q I).
  destruct I as (_ & -> & _). done.
Qed.

(** ** Starting an approved process *)

Lemma update_debug_identity f p p' :
  update_debug f p = Ret p' → same_identity p p' ∧ state p' = state p.
Proof.
  unfold update_debug. destruct (debug p); [|by intros [= <-]].
  intros E. by apply outcome_bind_Ret in E as (d & _ & [= <-]).
Qed.

Lemma enqueue_task_identity t p r p' :
  enqueue_task t p = Ret (r, p') → same_identity p p' ∧ state p' = state p.
Proof.
  unfold enqueue_task. destruct (negb _); [by intros [= _ <-]|]. intros E.
  apply outcome_bind_Ret in E as ([r1 p1] & E1 & E).
  assert (H1 : same_identity p p1 ∧ state p1 = state p).
  { destruct (tasks p); [|by injection E1 as _ <-].
    apply outcome_bind_Ret in E1 as ([] & _ & E1). by injection E1 as _ <-. }
  case_match; [|by injection E as _ <-].
  apply outcome_bind_Ret in E as (p2 & E2 & E). injection E as _ <-.
  apply update_debug_identity in E2 as [(? & ? & ? & ?) ?].
  destruct H1 as [(? & ? & ? & ?) ?]. unfold same_identity. split_and!; congruence.
Qed.

Lemma enqueue_init_runs p r p' :
  state p = CredentialsApproved → enqueue_init_task p = Ret (r, p') →
  same_identity p p' ∧ is_running p' = true.
Proof.
  unfold enqueue_init_task. intros ->. cbn [bool_decide]. rewrite bool_decide_false by auto. cbn [andb].
  intros E. apply outcome_bind_Ret in E as (? & _ & E). apply outcome_bind_Ret in E as (? & _ & E).
  apply enqueue_task_identity in E as [I S]. split; [exact I|].
  unfold is_running. rewrite S. done.
Qed.

Lemma terminate_approved c p :
  state p = CredentialsApproved → state (terminate c p) = Terminated.
Proof.
  intros H. unfold terminate. rewrite H, bool_decide_false with (P := CredentialsApproved ≠ CredentialsApproved) by auto.
  by rewrite andb_false_r.
Qed.

(** Replacing the process of a slot by one that does not run, or by one that
    no running process shares an identifier with. *)
Lemma exclusive_insert ps i p' :
  exclusive ps →
  (is_running p' = true → ∀ j q, j ≠ i → ps !! j = Some (Some q) → is_running q = true → ¬ shares_id p' q) →
  exclusive (<[i := Some p']> ps).
Proof.
  intros X H a b x y Hab Ha Hb Rx Ry.
  destruct (decide (a = i)) as [->|Hai], (decide (b = i)) as [->|Hbi]; [done| | |].
  - rewrite list_lookup_insert_ne in Hb by done.
    apply list_lookup_insert_Some in Ha as [(_ & [= <-] & _)|[Hne _]]; [|by destruct Hne]. by apply (H Rx b y).
  - rewrite list_lookup_insert_ne in Ha by done.
    apply list_lookup_insert_Some in Hb as [(_ & [= <-] & _)|[Hne _]]; [|by destruct Hne].
    intros S%shares_id_sym. by apply (H Ry a x).
  - rewrite !list_lookup_insert_ne in Ha, Hb by done. exact (X a b x y Hab Ha Hb Rx Ry).
Qed.

(** C24.  Of all processes with one application identifier or short identifier
    at most one runs: when the kernel comes to an approved process it starts it
    exactly when no other approved process of the application runs or is a
    newer version that could still run, and terminates it otherwise; the
    processes that run stay pairwise different, and no other process changes. *)
Theorem start_process_exclusive (s : sys) i p r s' :
  exclusive (sys_procs s) → sys_procs s !! i = Some (Some p) → state p = CredentialsApproved →
  start_process R i s = Ret (r, s') →
  r = Continue ∧ exclusive (sys_procs s') ∧
  ∃ p', sys_procs s' = <[i := Some p']> (sys_procs s) ∧
    ((∃ j q, sys_procs s !! j = Some (Some q) ∧ blocked_by p q) → state p' = Terminated) ∧
    ((∀ j q, sys_procs s !! j = Some (Some q) → ¬ blocked_by p q) → is_running p' = true).
Proof.
  intros X H St E. unfold start_process in E. apply M_bind_Ret in E as (p0 & s0 & E0 & E).
  rewrite (query_run _ _ _ _ H) in E0. injection E0 as <- <-. cbn [id] in E.
  apply M_bind_Ret in E as (s0 & s1 & [= <- <-] & E).
  destruct (is_runnable different p (sys_procs s)) eqn:Er.
  - apply is_runnable_spec in Er as [_ Hfree]. apply M_bind_Ret in E as (x & s1 & E1 & [= <- <-]).
    rewrite (method_run _ _ _ _ H) in E1.
    destruct (enqueue_init_task p) as [[a p']|] eqn:Ei; [|done]. injection E1 as <- <-.
    apply enqueue_init_runs in Ei as [I Rn]; [|done]. split; [done|]. cbn [with_proc sys_procs]. split.
    + apply exclusive_insert; [done|]. intros _ j q _ Hq Rq Sh.
      apply (Hfree j q Hq). unfold blocked_by. apply (shares_id_identity p) in Sh; [|done].
      unfold is_running in Rq. split_and!; [by destruct (state q)|by destruct (state q)|done|by left].
    + exists p'. split_and!; [done| |done]. intros (j & q & Hq & Hb). by destruct (Hfree j q Hq).
  - apply M_bind_Ret in E as (x & s1 & E1 & [= <- <-]). unfold update in E1.
    rewrite (method_run _ _ _ _ H) in E1. injection E1 as <- <-.
    pose proof (terminate_approved None p St) as Ht. split; [done|]. cbn [with_proc sys_procs]. split.
    + apply exclusive_insert; [done|]. unfold is_running. by rewrite Ht.
    + eexists. split_and!; [done|done|]. intros Hfree.
      assert (is_runnable different p (sys_procs s) = true) by (apply is_runnable_spec; auto). congruence.
Qed.

End versions.

(** ** The footer cursor of the checker *)

Section footers.
Context {Hw Config Stored Ext : Type} `{!MPU Hw Config} `{!UserspaceKernelBoundary Stored}.
Abbreviation proc := (Process Config Stored).
Abbreviation sys := (Sys Hw Config Stored Ext).
Abbreviation policy_type := (CheckingPolicy (Hw := Hw) (Config := Config) (Stored := Stored) (Ext := Ext)).

(** The flash [b] holds [n] footers and then ends. *)
Inductive footer_chain : list Z → nat → Prop :=
| chain_end b : b = [] ∨ parse_tbf_footer b = Err TbfNotEnoughFlash → footer_chain b 0
| chain_next b f len rest n :
    parse_tbf_footer b = Ok (f, len) → 0 ≤ len → get_from b (len + 4) = Some rest →
    footer_chain rest n → footer_chain b (S n).

Lemma check_footer_loop_past (policy : policy_type) i next fe fuel b n :
  footer_chain b n → ∀ cur pos (s : sys),
  cur + Z.of_nat n ≤ next → 0 ≤ pos → pos + zlen b = fe → fe < usize_bound →
  check_footer_loop policy i next fe fuel cur pos b s = Ret (FooterPastLast, s).
Proof.
  intros C. revert fuel. induction C as [b Hb|b f len rest n Hb Hlen Hr C IH]; intros [|fuel] cur pos s Hn Hp He Hf;
    [done| |done|]; cbn [check_footer_loop].
  { destruct Hb as [-> | ->]; [|by destruct (_ && _)].
    change (zlen []) with 0 in He. destruct (Z.ltb_spec pos fe); [lia|]. by rewrite andb_false_r. }
  destruct (_ && _); [|done]. rewrite Hb. apply get_from_Some in Hr as Hr'. destruct Hr' as [Hl ->].
  do 3 (run ltac:(unfold lift; rewrite uadd_ok by lia; reflexivity)).
  rewrite Hr. destruct (Z.eqb_spec cur next); [lia|]. apply IH; [lia|lia| |done].
  unfold zlen in *. rewrite length_drop. lia.
Qed.

(** The footers of a process: [n] of them between the end of the binary and
    the end of the flash. *)
Definition has_footers (p : proc) (n : nat) : Prop :=
  footer_chain (footers p) n ∧
  ∃ a, get_addresses p = Ret a ∧ 0 ≤ pa_flash_start a ≤ pa_flash_integrity_end a ∧
    pa_flash_integrity_end a + zlen (footers p) = pa_flash_end a ∧ pa_flash_end a < usize_bound.

Lemma check_footer_past (policy : policy_type) i p n next (s : sys) :
  sys_procs s !! i = Some (Some p) → has_footers p n → Z.of_nat n ≤ next →
  check_footer policy i next s = Ret (FooterPastLast, s).
Proof.
  intros H (C & a & Ea & H1 & H2 & H3) Hn. unfold check_footer. run ltac:(by apply (query_run _ _ _ _ H)).
  unfold id. run ltac:(unfold lift; rewrite Ea; reflexivity).
  pose proof (Zle_0_nat (length (footers p))) as Hz. fold (zlen (footers p)) in Hz.
  do 2 (run ltac:(unfold lift; rewrite usub_ok by lia; reflexivity)).
  apply check_footer_loop_past with n; [done|lia|lia|lia|lia].
Qed.

(** What the policy makes of a process without an accepted credential. *)
Definition by_default (policy : policy_type) (p : proc) : proc :=
  if require_credentials policy then mark_credentials_fail p
  else (mark_credentials_pass None LocallyUnique p).2.

(** A pass over a process that has no footer at the cursor. *)
Lemma next_step_past (policy : policy_type) i p n f (s : sys) :
  sys_procs s !! i = Some (Some p) → has_footers p n → Z.of_nat n ≤ f →
  next_step (Some policy) (mkChecker (Z.of_nat i) f) s
  = Ret (inr (mkChecker (Z.of_nat i + 1) 0), with_proc i (by_default policy p) s).
Proof.
  intros H F Hn. pose proof (lookup_lt_Some _ _ _ H) as Hlt. unfold next_step, next_process. cbn [ck_process ck_footer].
  rewrite Nat2Z.id, (drop_S _ _ _ H). cbn [skip_empty ck_process ck_footer].
  destruct (Z.leb_spec (Z.of_nat (length (sys_procs s))) (Z.of_nat i)); [lia|]. rewrite Nat2Z.id.
  run ltac:(by eapply check_footer_past). unfold by_default.
  destruct (require_credentials policy);
    run ltac:(unfold update; erewrite method_run by done; reflexivity); done.
Qed.

Lemma next_step_end policy i f (s : sys) :
  length (sys_procs s) = i →
  next_step (Hw := Hw) (Ext := Ext) policy (mkChecker (Z.of_nat i) f) s
  = Ret (inl (Ok false, mkChecker (Z.of_nat i) f), s).
Proof.
  intros <-. unfold next_step, next_process. cbn [ck_process ck_footer].
  rewrite Nat2Z.id, drop_all. cbn [skip_empty ck_process]. by rewrite Z.leb_refl.
Qed.

(** C39.  The verdict on one process decides how the next one is checked:
    accepting or rejecting a process moves on to the next slot but keeps the
    footer cursor, so the first footers of the next process are skipped.  A
    process with no more footers than the cursor is never checked, whatever its
    credentials say: without required credentials it is approved, with them it
    is failed. *)
Theorem check_done_skips_footers (policy : policy_type) res creds ps p1 p2 n f (s : sys) :
  sys_procs s = ps ++ [Some p1; Some p2] → res ≠ CheckPass →
  state p2 = CredentialsUnchecked → has_footers p2 n → Z.of_nat n ≤ f →
  ∃ s' p1' p2',
    check_done (Some policy) (Ok res) creds (mkChecker (zlen ps) f) s
    = Ret ((Some (Ok false), mkChecker (zlen ps + 2) 0), s') ∧
    sys_procs s' = ps ++ [Some p1'; Some p2'] ∧
    state p2' = (if require_credentials policy then CredentialsFailed else CredentialsApproved) ∧
    credentials p2' = credentials p2.
Proof.
  intros Hs Hres St F Hn. set (i := length ps).
  assert (H1 : sys_procs s !! i = Some (Some p1)) by (rewrite Hs; by apply list_lookup_middle).
  assert (HS : ∀ q, <[i := Some q]> (sys_procs s) = ps ++ [Some q; Some p2])
    by (intros; rewrite Hs; unfold i; by rewrite <- (Nat.add_0_r (length ps)), insert_app_r).
  assert (E : ∃ p1', check_done (Some policy) (Ok res) creds (mkChecker (zlen ps) f) s
              = checker_next (Some policy) (mkChecker (Z.of_nat i + 1) f) (with_proc i p1' s)).
  { destruct res; [|done|]; eexists; unfold check_done, mbind, M_bind, zlen; cbn [ck_process ck_footer];
      rewrite Nat2Z.id; fold i; rewrite H1; unfold update; rewrite (method_run _ _ _ _ H1); reflexivity. }
  destruct E as (p1' & E). set (s1 := with_proc i p1' s) in *.
  assert (Hs1 : sys_procs s1 = ps ++ [Some p1'; Some p2]) by apply HS.
  assert (H2 : sys_procs s1 !! (i + 1)%nat = Some (Some p2))
    by (rewrite Hs1; unfold i; by rewrite lookup_app_r, Nat.add_comm, Nat.add_sub by lia).
  assert (Hf : (2 ≤ next_fuel s1)%nat)
    by (unfold next_fuel; rewrite Hs1, sum_list_with_app; cbn [sum_list_with]; lia).
  rewrite E. unfold checker_next. destruct (next_fuel s1) as [|[|fuel]]; [lia|lia|]. cbn [next_loop].
  replace (Z.of_nat i + 1) with (Z.of_nat (i + 1)) by lia.
  exists (with_proc (i + 1) (by_default policy p2) s1), p1', (by_default policy p2).
  run ltac:(by apply (next_step_past policy (i + 1) p2 n f s1 H2 F Hn)).
  replace (Z.of_nat (i + 1) + 1) with (Z.of_nat (i + 2)) by lia.
  run ltac:(apply next_step_end; cbn [with_proc sys_procs]; rewrite length_insert, Hs1, length_app; cbn; lia).
  split_and!.
  - unfold zlen. fold i. by replace (Z.of_nat i + 2) with (Z.of_nat (i + 2)) by lia.
  - cbn [with_proc sys_procs]. rewrite Hs1. unfold i. by rewrite insert_app_r.
  - unfold by_default, mark_credentials_fail, mark_credentials_pass. rewrite St. by destruct (require_credentials policy).
  - unfold by_default, mark_credentials_fail, mark_credentials_pass. rewrite St. by destruct (require_credentials policy).
Qed.

End footers.

(** ** Concrete instances *)

#[local] Existing Instance ex_boundary.

(** The running application in two versions under one short identifier. *)
Definition ex_old : Process unit unit := set_app_id (Fixed 5) ex_running.
Definition ex_new_version : Process unit unit := set_app_id (Fixed 5) (set_state CredentialsApproved ex_process).
Definition ex_versions : Sys unit unit unit Z :=
  mkSys ex_kernel1 tt [Some ex_old; None; Some ex_new_version] ∅ ∅ 0.

Lemma ex_versions_exclusive : exclusive ex_resources (sys_procs ex_versions).
Proof.
  assert (G : ∀ p q : Process unit unit, is_running q = false →
            exclusive (Ext := Z) ex_resources [Some p; None; Some q]).
  { intros p q Hq [|[|[|i]]] [|[|[|j]]] x y Hij Hx Hy Rx Ry; cbn in Hx, Hy; simplify_eq/=; congruence. }
  apply G. vm_compute. reflexivity.
Qed.

Lemma start_process_exclusive_witness :
  ∃ s' p', start_process ex_resources 2 ex_versions = Ret (Continue, s') ∧
    exclusive ex_resources (sys_procs s') ∧
    sys_procs s' !! 2%nat = Some (Some p') ∧ state p' = Terminated.
Proof.
  assert (E : ∃ s', start_process ex_resources 2 ex_versions = Ret (Continue, s'))
    by (eexists; vm_compute; reflexivity).
  destruct E as [s' E]. exists s'.
  destruct (start_process_exclusive ex_resources (λ _ _, eq_refl) (λ _ _ _ _, eq_refl) ex_versions 2 ex_new_version
    Continue s' ex_versions_exclusive eq_refl ltac:(vm_compute; reflexivity) E) as (_ & X & p' & Hp & H1 & _).
  exists p'. split; [exact E|]. split; [exact X|]. split; [rewrite Hp; reflexivity|].
  apply H1. exists 0%nat, ex_old. split; [reflexivity|].
  split; [by vm_compute|]. split; [by vm_compute|]. split; [right; vm_compute; reflexivity|left; vm_compute; reflexivity].
Defined.

(** An application whose only footer is a SHA-256 credential. *)
Definition ex_signed_flash : Flash :=
  mkFlash 262144
    (encode_tbf_header 144 1 [EProgram (mkProgram 41 0 1001 104 3)] ++ replicate 64 0
     ++ [128; 0; 36; 0; 3; 0; 0; 0] ++ replicate 32 7).

Definition ex_signed : Process unit unit :=
  match create (Hw := unit) (Config := unit) 32 400 ex_kernel tt ex_signed_flash 40 2 ex_memory
          RestartFaultPolicy false 0 (replicate 10 ex_task) with
  | Ret (Ok (Some p, _), _, _) => p
  | _ => ex_process
  end.

(** A policy that starts a check for every footer. *)
Definition ex_policy : CheckingPolicy (Hw := unit) (Config := unit) (Stored := unit) (Ext := Z) :=
  mkCheckingPolicy false (λ _ _, mret (Ok tt)) (λ _, LocallyUnique) (λ _ _, true).

Lemma ex_signed_footers : has_footers ex_signed 1.
Proof.
  split.
  - eapply chain_next; [vm_compute; reflexivity|lia|vm_compute; reflexivity|].
    apply chain_end. left. reflexivity.
  - eexists. split; [vm_compute; reflexivity|]. vm_compute. repeat split; congruence.
Qed.

Definition ex_check_sys : Sys unit unit unit Z :=
  mkSys ex_kernel1 tt [Some ex_process; Some ex_signed] ∅ ∅ 0.

(** The first process was accepted on its second footer; the second process is
    approved although its credential was never looked at. *)
Lemma check_done_skips_footers_witness :
  check_footer ex_policy 1 0 ex_check_sys = Ret (FooterChecking, ex_check_sys) ∧
  ∃ s' p1' p2',
    check_done (Some ex_policy) (Ok CheckAccept) (mkCredentials CredReserved []) (mkChecker 0 1) ex_check_sys
    = Ret ((Some (Ok false), mkChecker 2 0), s') ∧
    sys_procs s' = [Some p1'; Some p2'] ∧ state p2' = CredentialsApproved ∧ credentials p2' = None.
Proof.
  split; [vm_compute; reflexivity|].
  exact (check_done_skips_footers ex_policy CheckAccept (mkCredentials CredReserved []) [] ex_process ex_signed
    1 1 ex_check_sys eq_refl ltac:(done) eq_refl ex_signed_footers ltac:(done)).
Defined.
