(* ===== verification/Lists.v ===== *)
(** * Intrusive linked lists (kernel/src/collections/list.rs)

    A node holds its own link, so the links of all lists live in one store
    [Links] and a list is the cell with its head; a node can move from a list
    to another.  A node is a number (its address), [None] a null link.

    Theorem: on disjoint acyclic lists the operations are those of sequences,
    and an operation on one list leaves the others alone. *)

From stdpp Require Import gmap.
From S2P Require Import Prelude.

Abbreviation Node := Z.
Abbreviation ListLink := (option Node).

(** The [next] cells. *)
Abbreviation Links := (gmap Node ListLink).

Definition next (m : Links) (node : Node) : ListLink := default None (m !! node).

(** [List]: the head cell. *)
Record List := mkList { head : ListLink }.

Definition List_new : List := mkList None.

Definition push_head (node : Node) (l : List) (m : Links) : List * Links :=
  (mkList (Some node), <[node := head l]> m).

(** [iter().last()]: the walk along the links, at most [fuel] nodes; running
    out of fuel, a walk that never ends, is [Panic]. *)
Fixpoint last (fuel : nat) (cur : ListLink) (m : Links) : outcome (option Node) :=
  match fuel, cur with
  | _, None => Ret None
  | O, Some _ => Panic
  | S fuel, Some res =>
      match next m res with
      | None => Ret (Some res)
      | Some n => last fuel (Some n) m
      end
  end.

(** A walk over an acyclic list visits every node of the store at most once. *)
Definition walk_fuel (m : Links) : nat := S (size m).

(** [iter]: the nodes along the links. *)
Fixpoint iter (fuel : nat) (cur : ListLink) (m : Links) : outcome (list Node) :=
  match fuel, cur with
  | _, None => Ret []
  | O, Some _ => Panic
  | S fuel, Some res => xs ← iter fuel (next m res) m; Ret (res :: xs)
  end.

(** [iter().find(p)]: the walk stops at the first node that satisfies [p]. *)
Fixpoint iter_find (p : Node → bool) (fuel : nat) (cur : ListLink) (m : Links) : outcome (option Node) :=
  match fuel, cur with
  | _, None => Ret None
  | O, Some _ => Panic
  | S fuel, Some res => if p res then Ret (Some res) else iter_find p fuel (next m res) m
  end.

Definition push_tail (node : Node) (l : List) (m : Links) : outcome (List * Links) :=
  let m := <[node := None]> m in
  last_ ← last (walk_fuel m) (head l) m;
  match last_ with
  | Some last_ => Ret (l, <[last_ := Some node]> m)
  | None => Ret (push_head node l m)
  end.

Definition pop_head (l : List) (m : Links) : option Node * List :=
  let remove := head l in
  match remove with
  | Some node => (remove, mkList (next m node))
  | None => (remove, mkList None)
  end.

(** ** Sequences *)

(** From [cur] the links lead through [xs] and end. *)
Fixpoint chain (m : Links) (cur : ListLink) (xs : list Node) : Prop :=
  match xs with
  | [] => cur = None
  | x :: xs => cur = Some x ∧ ∃ n, m !! x = Some n ∧ chain m n xs
  end.

Record list_repr (m : Links) (l : List) (xs : list Node) : Prop := {
  lr_chain : chain m (head l) xs;
  lr_nodup : NoDup xs;
}.

Lemma chain_frame m n v cur xs : n ∉ xs → chain m cur xs → chain (<[n := v]> m) cur xs.
Proof.
  revert cur. induction xs as [|x xs IH]; intros cur Hn C; [done|].
  apply not_elem_of_cons in Hn as [Hne Hn]. destruct C as (-> & k & Hk & C).
  split; [done|]. exists k. rewrite lookup_insert_ne by done. auto.
Qed.

Lemma chain_dom m cur xs : chain m cur xs → ∀ x, x ∈ xs → x ∈ dom m.
Proof.
  revert cur. induction xs as [|y xs IH]; intros cur C x Hx; [by apply not_elem_of_nil in Hx|].
  destruct C as (_ & n & Hn & C). apply elem_of_cons in Hx as [->|Hx]; [by apply elem_of_dom_2 in Hn|by eapply IH].
Qed.

Lemma chain_size m cur xs : chain m cur xs → NoDup xs → (length xs ≤ size m)%nat.
Proof.
  intros C N. rewrite <- (size_dom m), <- (size_list_to_set (C := gset Node) xs) by done.
  apply subseteq_size. intros x Hx%elem_of_list_to_set. by eapply chain_dom.
Qed.

Lemma last_chain m xs : ∀ fuel cur,
  chain m cur xs → (length xs ≤ fuel)%nat → last fuel cur m = Ret (list.last xs).
Proof.
  induction xs as [|x xs IH]; intros fuel cur C Hf; cbn in C; [subst; by destruct fuel|].
  destruct C as (-> & n & Hn & C). destruct fuel as [|fuel]; [cbn in Hf; lia|].
  cbn [last]. unfold next. rewrite Hn. cbn [default id].
  destruct xs as [|y xs]; [cbn in C; by subst|].
  pose proof C as (-> & _). cbn [default from_option id]. rewrite (IH fuel) by (done || cbn in *; lia). done.
Qed.

Lemma iter_chain m xs : ∀ fuel cur, chain m cur xs → (length xs ≤ fuel)%nat → iter fuel cur m = Ret xs.
Proof.
  induction xs as [|x xs IH]; intros fuel cur C Hf; cbn in C; [subst; by destruct fuel|].
  destruct C as (-> & n & Hn & C). destruct fuel as [|fuel]; [cbn in Hf; lia|].
  cbn [iter]. unfold next. rewrite Hn. cbn [default from_option id]. rewrite IH by (done || cbn in *; lia). done.
Qed.

Lemma iter_find_chain m p xs : ∀ fuel cur,
  chain m cur xs → (length xs ≤ fuel)%nat → iter_find p fuel cur m = Ret (List.find p xs).
Proof.
  induction xs as [|x xs IH]; intros fuel cur C Hf; cbn in C; [subst; by destruct fuel|].
  destruct C as (-> & n & Hn & C). destruct fuel as [|fuel]; [cbn in Hf; lia|].
  cbn [iter_find List.find]. destruct (p x); [done|]. unfold next. rewrite Hn. cbn [default from_option id].
  apply IH; [done|cbn in *; lia].
Qed.

Lemma chain_snoc m cur xs y x :
  chain m cur (xs ++ [y]) → y ∉ xs → x ∉ xs ++ [y] → m !! x = Some None →
  chain (<[y := Some x]> m) cur (xs ++ [y; x]).
Proof.
  revert cur. induction xs as [|z xs IH]; intros cur C Hy Hx Hm.
  - destruct C as (-> & n & Hn & _). cbn. split; [done|]. exists (Some x). rewrite lookup_insert_eq.
    split; [done|]. split; [done|]. exists None. apply not_elem_of_cons in Hx as [Hne _].
    by rewrite lookup_insert_ne.
  - destruct C as (-> & n & Hn & C). apply not_elem_of_cons in Hy as [Hne Hy].
    apply not_elem_of_cons in Hx as [? Hx]. split; [done|]. exists n.
    rewrite lookup_insert_ne by done. split; [done|]. by apply IH.
Qed.

(** ** Several lists over one store *)

Inductive list_op : Type :=
| PushHead (i : nat) (n : Node) | PushTail (i : nat) (n : Node) | PopHead (i : nat).

Definition exec_list_op (o : list_op) (st : list List * Links) :
    outcome (option Node * (list List * Links)) :=
  let '(ls, m) := st in
  match o with
  | PushHead i n =>
      match ls !! i with
      | None => Panic
      | Some l => let '(l, m) := push_head n l m in Ret (None, (<[i := l]> ls, m))
      end
  | PushTail i n =>
      match ls !! i with
      | None => Panic
      | Some l => '(l, m) ← push_tail n l m; Ret (None, (<[i := l]> ls, m))
      end
  | PopHead i =>
      match ls !! i with
      | None => Panic
      | Some l => let '(r, l) := pop_head l m in Ret (r, (<[i := l]> ls, m))
      end
  end.

Fixpoint exec_list_ops (os : list list_op) (st : list List * Links) :
    outcome (list (option Node) * (list List * Links)) :=
  match os with
  | [] => Ret ([], st)
  | o :: os =>
      '(r, st) ← exec_list_op o st;
      '(rs, st) ← exec_list_ops os st;
      Ret (r :: rs, st)
  end.

(** The same operations on sequences. *)
Definition seq_op (o : list_op) (xss : list (list Node)) : option Node * list (list Node) :=
  match o with
  | PushHead i n => (None, alter (λ xs, n :: xs) i xss)
  | PushTail i n => (None, alter (λ xs, xs ++ [n]) i xss)
  | PopHead i => (xss !! i ≫= hd_error, alter list.tail i xss)
  end.

Fixpoint seq_ops (os : list list_op) (xss : list (list Node)) : list (option Node) * list (list Node) :=
  match os with
  | [] => ([], xss)
  | o :: os => let '(r, xss) := seq_op o xss in let '(rs, xss) := seq_ops os xss in (r :: rs, xss)
  end.

(** Only nodes that are in no list are pushed. *)
Definition op_ok (o : list_op) (xss : list (list Node)) : Prop :=
  match o with
  | PushHead i n | PushTail i n => (i < length xss)%nat ∧ n ∉ concat xss
  | PopHead i => (i < length xss)%nat
  end.

Fixpoint ops_ok (os : list list_op) (xss : list (list Node)) : Prop :=
  match os with [] => True | o :: os => op_ok o xss ∧ ops_ok os (seq_op o xss).2 end.

Record lists_repr (m : Links) (ls : list List) (xss : list (list Node)) : Prop := {
  lists_chain : Forall2 (λ l xs, chain m (head l) xs) ls xss;
  lists_nodup : NoDup (concat xss);
}.

Lemma split_lists m ls xss i :
  lists_repr m ls xss → (i < length xss)%nat →
  ∃ ls1 l ls2 xss1 xs xss2, ls = ls1 ++ l :: ls2 ∧ xss = xss1 ++ xs :: xss2 ∧ length ls1 = i ∧ length xss1 = i ∧
    Forall2 (λ l xs, chain m (head l) xs) ls1 xss1 ∧ Forall2 (λ l xs, chain m (head l) xs) ls2 xss2 ∧
    chain m (head l) xs ∧ NoDup xs ∧ (∀ x, x ∈ xs → x ∉ concat xss1 ++ concat xss2) ∧
    NoDup (concat xss1 ++ concat xss2).
Proof.
  intros [F N] Hi. destruct (lookup_lt_is_Some_2 _ _ Hi) as [xs Hxs].
  pose proof (Forall2_length _ _ _ F) as Hl.
  destruct (Forall2_lookup_r _ _ _ _ _ F Hxs) as (l & Hls & C).
  apply list_elem_of_split_length in Hxs as (xss1 & xss2 & -> & H1).
  apply list_elem_of_split_length in Hls as (ls1 & ls2 & -> & H2).
  apply Forall2_app_inv in F as [F1 F2]; [|congruence]. inversion_clear F2.
  rewrite concat_app in N. cbn in N. apply NoDup_app in N as (N1 & D1 & N2).
  apply NoDup_app in N2 as (N2 & D2 & N3).
  exists ls1, l, ls2, xss1, xs, xss2. split_and!; try done.
  - intros x Hx [Hc|Hc]%elem_of_app; [apply (D1 x Hc), elem_of_app; by left|by apply (D2 x)].
  - apply NoDup_app. split_and!; [done| |done]. intros x Hx Hc. apply (D1 x Hx), elem_of_app. by right.
Qed.

(** Links of a node outside the lists do not matter to them. *)
Lemma frame_all m n v ls xss :
  n ∉ concat xss → Forall2 (λ l xs, chain m (head l) xs) ls xss →
  Forall2 (λ l xs, chain (<[n := v]> m) (head l) xs) ls xss.
Proof.
  intros Hn F. induction F as [|l xs ls xss C F IH]; [constructor|]. cbn in Hn.
  apply not_elem_of_app in Hn as [H1 H2]. constructor; [by apply chain_frame|by apply IH].
Qed.

Lemma join_lists m ls1 l ls2 xss1 xs xss2 :
  Forall2 (λ l xs, chain m (head l) xs) ls1 xss1 → Forall2 (λ l xs, chain m (head l) xs) ls2 xss2 →
  chain m (head l) xs → NoDup xs → (∀ x, x ∈ xs → x ∉ concat xss1 ++ concat xss2) →
  NoDup (concat xss1 ++ concat xss2) →
  lists_repr m (ls1 ++ l :: ls2) (xss1 ++ xs :: xss2).
Proof.
  intros F1 F2 C N D N'. split.
  - apply Forall2_app; [done|]. by constructor.
  - rewrite concat_app. cbn. apply NoDup_app in N' as (N1 & D1 & N2). apply NoDup_app. split_and!; [done| |].
    + intros x Hx [H|H]%elem_of_app; [apply (D x H), elem_of_app; by left|by apply (D1 x)].
    + apply NoDup_app. split_and!; [done| |done]. intros x Hx H. apply (D x Hx), elem_of_app. by right.
Qed.

Lemma alter_middle {A} (f : A → A) l1 x l2 i : length l1 = i → alter f i (l1 ++ x :: l2) = l1 ++ f x :: l2.
Proof. intros <-. by rewrite <- (Nat.add_0_r (length l1)), alter_app_r. Qed.

Lemma insert_middle {A} (y : A) l1 x l2 i : length l1 = i → <[i := y]> (l1 ++ x :: l2) = l1 ++ y :: l2.
Proof. intros <-. by rewrite <- (Nat.add_0_r (length l1)), insert_app_r. Qed.

Lemma push_tail_chain m l xs n :
  chain m (head l) xs → NoDup xs → n ∉ xs →
  ∃ l' m', push_tail n l m = Ret (l', m') ∧ chain m' (head l') (xs ++ [n]) ∧
    ∀ ls xss, (∀ x, x ∈ xs ++ [n] → x ∉ concat xss) → Forall2 (λ l xs, chain m (head l) xs) ls xss →
      Forall2 (λ l xs, chain m' (head l) xs) ls xss.
Proof.
  intros C N Hn. set (m1 := <[n := None]> m). assert (C1 : chain m1 (head l) xs) by (by apply chain_frame).
  unfold push_tail. fold m1. pose proof (chain_size _ _ _ C1 N) as Hs.
  rewrite (last_chain m1 xs) by (done || (unfold walk_fuel; lia)). cbn [mbind outcome_bind].
  assert (F1 : ∀ ls xss, (∀ x, x ∈ xs ++ [n] → x ∉ concat xss) → Forall2 (λ l xs, chain m (head l) xs) ls xss →
               Forall2 (λ l xs, chain m1 (head l) xs) ls xss).
  { intros ls xss D F. apply frame_all; [|done]. apply D, elem_of_app. right. by left. }
  destruct (list.last xs) as [y|] eqn:Ey.
  - apply last_Some in Ey as [ys ->]. rewrite <- app_assoc. cbn [app].
    apply NoDup_app in N as (N1 & N2 & _).
    do 2 eexists. split; [done|]. split.
    + apply chain_snoc; [done| |done|apply lookup_insert_eq]. intros H. apply (N2 y H). by left.
    + intros ls xss D F. apply frame_all; [apply D, elem_of_app; right; by left|].
      apply F1; [|done]. by rewrite <- app_assoc.
  - apply last_None in Ey as ->. cbn in C. unfold push_head. rewrite C.
    do 2 eexists. split; [done|]. cbn [app head]. split.
    + split; [done|]. exists None. by rewrite lookup_insert_eq.
    + intros ls xss D F. apply frame_all; [|by apply F1]. apply D. by left.
Qed.

(** One operation. *)
Lemma list_op_refines o m ls xss :
  lists_repr m ls xss → op_ok o xss →
  ∃ ls' m', exec_list_op o (ls, m) = Ret ((seq_op o xss).1, (ls', m')) ∧ lists_repr m' ls' (seq_op o xss).2.
Proof.
  intros R V. assert (Hi : (match o with PushHead i _ | PushTail i _ | PopHead i => i end < length xss)%nat)
    by (destruct o; [by destruct V|by destruct V|done]).
  destruct (split_lists m ls xss _ R Hi) as (ls1 & l & ls2 & xss1 & xs & xss2 & -> & -> & H1 & H2 & F1 & F2 & C & N & D & N').
  destruct o as [i n|i n|i]; cbn [exec_list_op seq_op fst snd]; rewrite alter_middle by done;
    rewrite ?list_lookup_middle by done.
  - destruct V as [_ V]. rewrite concat_app in V. cbn in V. rewrite !not_elem_of_app in V. destruct V as (V1 & V2 & V3).
    do 2 eexists. cbn. rewrite insert_middle by done. split; [done|].
    apply join_lists; [by apply frame_all..| | | |done].
    + split; [done|]. exists (head l). rewrite lookup_insert_eq. split; [done|]. by apply chain_frame.
    + by constructor.
    + intros x [->|Hx]%elem_of_cons; [|by apply D]. by apply not_elem_of_app.
  - destruct V as [_ V]. rewrite concat_app in V. cbn in V. rewrite !not_elem_of_app in V. destruct V as (V1 & V2 & V3).
    destruct (push_tail_chain m l xs n C N V2) as (l' & m' & -> & C' & Fr). cbn [mbind outcome_bind].
    assert (D' : ∀ x, x ∈ xs ++ [n] → x ∉ concat xss1 ++ concat xss2).
    { intros x [Hx| ->%list_elem_of_singleton]%elem_of_app; [by apply D|by apply not_elem_of_app]. }
    do 2 eexists. rewrite insert_middle by done. split; [done|].
    apply join_lists; [apply Fr; [|done]|apply Fr; [|done]|done| |done|done].
    + intros x Hx Hc. apply (D' x Hx), elem_of_app. by left.
    + intros x Hx Hc. apply (D' x Hx), elem_of_app. by right.
    + apply NoDup_app. split_and!; [done| |apply NoDup_singleton]. by intros x Hx ->%list_elem_of_singleton.
  - destruct xs as [|x xs]; unfold pop_head.
    + cbn in C. rewrite C, insert_middle by done. do 2 eexists. split; [done|]. by apply join_lists.
    + destruct C as (-> & k & Hk & C). rewrite insert_middle by done. do 2 eexists. split; [done|].
      apply NoDup_cons in N as [_ N]. apply join_lists; [done|done| |done| |done].
      * cbn. unfold next. by rewrite Hk.
      * intros y Hy. apply D. by right.
Qed.

(** C30.  Intrusive lists are sequences: any series of operations on lists that
    share one store of links, in which only nodes that are in no list are
    pushed, returns what the operations on sequences return, every walk to the
    end of a list terminates, and the lists stay acyclic and disjoint. *)
Theorem lists_refine_sequences os m ls xss :
  lists_repr m ls xss → ops_ok os xss →
  ∃ ls' m', exec_list_ops os (ls, m) = Ret ((seq_ops os xss).1, (ls', m')) ∧
    lists_repr m' ls' (seq_ops os xss).2.
Proof.
  revert m ls xss. induction os as [|o os IH]; intros m ls xss R V; [by do 2 eexists|].
  destruct V as [Vo V]. destruct (list_op_refines o m ls xss R Vo) as (ls1 & m1 & E1 & R1).
  cbn [exec_list_ops seq_ops]. rewrite E1. cbn [mbind outcome_bind].
  destruct (seq_op o xss) as [r xss1]. destruct (IH m1 ls1 xss1 R1 V) as (ls2 & m2 & E2 & R2).
  cbn [fst]. rewrite E2. cbn [mbind outcome_bind]. destruct (seq_ops os xss1) as [rs xss2]. by do 2 eexists.
Qed.

(** Moving a node from one list to another. *)
Lemma lists_refine_sequences_witness :
  ∃ ls' m', exec_list_ops [PushTail 0 5; PushTail 0 6; PopHead 0; PushTail 1 5; PushHead 1 7; PopHead 1]
              ([List_new; List_new], ∅) = Ret ([None; None; Some 5; None; None; Some 7], (ls', m')) ∧
    lists_repr m' ls' [[6]; [5]].
Proof.
  apply (lists_refine_sequences [PushTail 0 5; PushTail 0 6; PopHead 0; PushTail 1 5; PushHead 1 7; PopHead 1]
           ∅ [List_new; List_new] [[]; []]).
  - split; [repeat constructor|constructor].
  - cbn. repeat split; try lia; by apply (bool_decide_eq_true_1 _).
Defined.
