(* ===== verification/Scheduler.v ===== *)
(** * The schedulers (kernel/src/scheduler.rs, kernel/src/scheduler/)

    Round robin, cooperative, priority and multilevel feedback queue.  The
    queues are the intrusive lists of Lists.v, taken as sequences; a node
    refers to a slot of the process table and a board makes one node per slot,
    so nodes are compared by their slot.

    Theorems: the round-robin scheduler starves nobody; the multilevel queue
    charges a process for the time it did not use, and promoting such a process
    stops the kernel. *)

From stdpp Require Import gmap.
From S2P Require Import Prelude Syscall Mpu RingBuffer Tbf.
From S2P Require Import ProcessData Process ProcessProofs ProcessCreate ProcessTheorems KernelSys KernelLoop.

(** [push_tail(pop_head().unwrap())]. *)
Definition rotate {A} (q : list A) : outcome (list A) :=
  match q with [] => Panic | n :: rest => Ret (rest ++ [n]) end.

Section schedulers.
Context {Hw Config Stored Ext : Type}.
Abbreviation proc := (Process Config Stored).
Abbreviation sys := (Sys Hw Config Stored Ext).

(** The defaults of the trait [Scheduler]; [work]: an interrupt or a deferred
    call is pending. *)
Definition do_kernel_work_now (work : bool) : bool := work.
Definition continue_process (work : bool) : bool := negb work.

(** ** The search of the round-robin and cooperative schedulers *)

(** How the [while let] loop ends: an early return to sleep, a ready process,
    or an empty queue. *)
Inductive search : Type := SearchSleep | SearchFound (id : ProcessId) | SearchEmpty.

(** [None] when the fuel is used up. *)
Fixpoint find_ready (fuel : nat) (s : sys) (first_head : option nat) (q : list nat) :
    option (search * list nat) :=
  match fuel with
  | O => None
  | S fuel =>
      match q with
      | [] => Some (SearchEmpty, q)
      | node :: rest =>
          if match first_head with Some h => (h =? node)%nat | None => false end
          then Some (SearchSleep, q)
          else
            let first_head := match first_head with None => Some node | Some h => Some h end in
            match sys_procs s !! node with
            | Some (Some p) =>
                if ready p then Some (SearchFound (process_id p), q)
                else find_ready fuel s first_head (rest ++ [node])
            | _ => find_ready fuel s first_head (rest ++ [node])
            end
      end
  end.

(** ** Round robin *)

Definition DEFAULT_TIMESLICE_US : Z := 10000.

Record RoundRobinSched := mkRoundRobin {
  time_remaining : Z;
  rr_processes : list nat;
  last_rescheduled : bool;
}.

Definition RoundRobin_new : RoundRobinSched := mkRoundRobin DEFAULT_TIMESLICE_US [] false.

Definition round_robin_next (s : sys) (st : RoundRobinSched) : outcome (SchedulingDecision * RoundRobinSched) :=
  let q := rr_processes st in
  match find_ready (S (length q)) s None q with
  | None => Panic
  | Some (SearchSleep, q) => Ret (TrySleep, mkRoundRobin (time_remaining st) q (last_rescheduled st))
  | Some (found, q) =>
      let '(timeslice, remaining) :=
        if last_rescheduled st then (time_remaining st, time_remaining st)
        else (DEFAULT_TIMESLICE_US, DEFAULT_TIMESLICE_US) in
      if timeslice =? 0 then Panic
      else
        match found with
        | SearchFound id =>
            Ret (RunProcess id (Some timeslice), mkRoundRobin remaining q (last_rescheduled st))
        | _ => Panic
        end
  end.

Definition round_robin_result (reason : StoppedExecutingReason) (execution_time_us : option Z)
    (st : RoundRobinSched) : outcome RoundRobinSched :=
  match execution_time_us with
  | None => Panic
  | Some t =>
      let '(reschedule, remaining) :=
        if bool_decide (reason = KernelPreemption) && (t <? time_remaining st)
        then (true, time_remaining st - t) else (false, time_remaining st) in
      if (reschedule : bool) then Ret (mkRoundRobin remaining (rr_processes st) true)
      else q ← rotate (rr_processes st); Ret (mkRoundRobin remaining q false)
  end.

(** ** Cooperative *)

Definition cooperative_next (s : sys) (q : list nat) : outcome (SchedulingDecision * list nat) :=
  match find_ready (S (length q)) s None q with
  | Some (SearchSleep, q) => Ret (TrySleep, q)
  | Some (SearchFound id, q) => Ret (RunProcess id None, q)
  | _ => Panic
  end.

Definition cooperative_result (reason : StoppedExecutingReason) (q : list nat) : outcome (list nat) :=
  if bool_decide (reason = KernelPreemption) then Ret q else rotate q.

(** ** Priority *)

(** The cell [running]. *)
Abbreviation PrioritySched := (option ProcessId).

(** [get_process_iter().find(|proc| proc.ready())]. *)
Definition first_ready (s : sys) : option ProcessId :=
  process_until_from (λ p _, if ready p then Some (process_id p) else None) s (sys_procs s).

Definition priority_next (s : sys) (running : PrioritySched) : SchedulingDecision * PrioritySched :=
  let next := first_ready s in
  (match next with None => TrySleep | Some id => RunProcess id None end, next).

Definition priority_continue_process (work : bool) (s : sys) (running : PrioritySched) : bool :=
  negb (work ||
    match first_ready s with
    | None => false
    | Some ready_proc =>
        match running with
        | None => false
        | Some running => pid_index ready_proc <? pid_index running
        end
    end).

Definition priority_result (running : PrioritySched) : PrioritySched := None.

(** ** Multilevel feedback queue *)

Record MLFQProcessNode := mkMLFQNode { mf_proc : nat; us_used_this_queue : Z }.

Record MLFQSched := mkMLFQ {
  mf_processes : list (list MLFQProcessNode);
  next_reset : Z;
  last_reset_check : Z;
  last_timeslice : Z;
  last_queue_idx : nat;
}.

Definition NUM_QUEUES : nat := 3.
Definition PRIORITY_REFRESH_PERIOD_MS : Z := 5000.

Definition MLFQ_new : MLFQSched := mkMLFQ [[]; []; []] 0 0 0 0.

Definition get_timeslice_us (queue_idx : nat) : outcome Z :=
  match queue_idx with 0%nat => Ret 10000 | 1%nat => Ret 20000 | 2%nat => Ret 50000 | _ => Panic end.

(** Every queue but the first gives up its head. *)
Definition redeem_all_procs (queues : list (list MLFQProcessNode)) : list (list MLFQProcessNode) :=
  match queues with
  | [] => []
  | q0 :: qs => (q0 ++ omap hd_error qs) :: map (@list.tail _) qs
  end.

Definition mlfq_ready (s : sys) (node : MLFQProcessNode) : bool :=
  match sys_procs s !! mf_proc node with Some (Some p) => ready p | _ => false end.

(** The queue brought to its first ready node, and the node. *)
Fixpoint bring_ready (s : sys) (before q : list MLFQProcessNode) :
    option (MLFQProcessNode * list MLFQProcessNode) :=
  match q with
  | [] => None
  | n :: rest => if mlfq_ready s n then Some (n, (n :: rest) ++ before) else bring_ready s (before ++ [n]) rest
  end.

Fixpoint get_next_ready_process_node (s : sys) (idx : nat) (queues : list (list MLFQProcessNode)) :
    option (MLFQProcessNode * nat) * list (list MLFQProcessNode) :=
  match queues with
  | [] => (None, [])
  | q :: qs =>
      match bring_ready s [] q with
      | Some (n, q) => (Some (n, idx), q :: qs)
      | None => let '(r, qs) := get_next_ready_process_node s (S idx) qs in (r, q :: qs)
      end
  end.

(** The counter of the alarm wraps at [W]; [ticks_from_ms] is the alarm's. *)
Context (W : Z) (ticks_from_ms : Z → Z).

Definition within_range (now start end_ : Z) : bool := (now - start) mod W <? (end_ - start) mod W.

Definition mlfq_next (now : Z) (s : sys) (st : MLFQSched) : outcome (SchedulingDecision * MLFQSched) :=
  let '(next_reset, queues) :=
    if negb (within_range now (last_reset_check st) (next_reset st))
    then ((now + ticks_from_ms PRIORITY_REFRESH_PERIOD_MS) mod W, redeem_all_procs (mf_processes st))
    else (next_reset st, mf_processes st) in
  let '(node, queues) := get_next_ready_process_node s 0 queues in
  match node with
  | None => Ret (TrySleep, mkMLFQ queues next_reset now (last_timeslice st) (last_queue_idx st))
  | Some (node, queue_idx) =>
      full ← get_timeslice_us queue_idx;
      timeslice ← usub full (us_used_this_queue node);
      match sys_procs s !! mf_proc node with
      | Some (Some p) =>
          Ret (RunProcess (process_id p) (Some timeslice), mkMLFQ queues next_reset now timeslice queue_idx)
      | _ => Panic
      end
  end.

Definition mlfq_result (reason : StoppedExecutingReason) (execution_time_us : option Z) (st : MLFQSched) :
    outcome MLFQSched :=
  match execution_time_us with
  | None => Panic
  | Some t =>
      let queue_idx := last_queue_idx st in
      match mf_processes st !! queue_idx with
      | Some (node :: rest) =>
          used ← usub (last_timeslice st) t;
          let punish := bool_decide (reason = TimesliceExpired) in
          let node := mkMLFQNode (mf_proc node) (if punish then 0 else used) in
          let to := if punish && negb (queue_idx =? NUM_QUEUES - 1)%nat then S queue_idx else queue_idx in
          let queues := <[queue_idx := rest]> (mf_processes st) in
          Ret (mkMLFQ (alter (λ q, q ++ [node]) to queues) (next_reset st) (last_reset_check st)
                 (last_timeslice st) queue_idx)
      | _ => Panic
      end
  end.


(** [continue_process] of the multilevel queue. *)
Definition mlfq_continue_process : bool := true.

End schedulers.

(** ** Round robin: proofs *)

Section round_robin.
Context {Hw Config Stored Ext : Type}.
Abbreviation sys := (Sys Hw Config Stored Ext).
Implicit Types (s : sys) (q : list nat).

(** The process of a node, if it is ready. *)
Definition node_ready s (n : nat) : option ProcessId :=
  match sys_procs s !! n with
  | Some (Some p) => if ready p then Some (process_id p) else None
  | _ => None
  end.

Lemma find_ready_step s fuel first n rest :
  match first with Some h => (h =? n)%nat | None => false end = false →
  find_ready (S fuel) s first (n :: rest) =
  match node_ready s n with
  | Some id => Some (SearchFound id, n :: rest)
  | None => find_ready fuel s (Some (default n first)) (rest ++ [n])
  end.
Proof.
  intros H. cbn [find_ready]. rewrite H. unfold node_ready.
  destruct first; repeat case_match; done.
Qed.

(** The rest of the walk once the queue was turned by [seen]. *)
Lemma find_ready_walk s h todo seen fuel :
  NoDup (h :: seen ++ todo) → (length todo < fuel)%nat →
  node_ready s h = None → Forall (λ n, node_ready s n = None) seen →
  find_ready fuel s (Some h) (todo ++ h :: seen)
  = match list_find (λ n, is_Some (node_ready s n)) todo with
    | Some (i, n) => Some (SearchFound (default (mkProcessId 0 0) (node_ready s n)),
                           drop i todo ++ h :: seen ++ take i todo)
    | None => Some (SearchSleep, h :: seen ++ todo)
    end.
Proof.
  revert seen fuel. induction todo as [|n todo IH]; intros seen fuel Hd Hf Hh Hs.
  { destruct fuel as [|fuel]; [cbn in Hf; lia|]. cbn [find_ready app list_find].
    rewrite Nat.eqb_refl. by rewrite app_nil_r. }
  destruct fuel as [|fuel]; [cbn in Hf; lia|]. cbn [app].
  assert (Hne : h ≠ n).
  { intros ->. apply NoDup_cons in Hd as [Hd _]. apply Hd, elem_of_app. right. by left. }
  rewrite find_ready_step by (by apply Nat.eqb_neq). cbn [list_find].
  destruct (node_ready s n) as [id|] eqn:Er.
  - rewrite decide_True by (by eexists). cbn [drop take]. rewrite Er, app_nil_r. done.
  - rewrite decide_False by (by intros []). cbn [default id].
    rewrite <- app_assoc. cbn [app]. rewrite IH; [| |cbn in Hf; lia|done|apply Forall_app; split; [done|by apply Forall_singleton]].
    + rewrite <- app_assoc. cbn [app].
      destruct (list_find _ todo) as [[i m]|]; cbn [fmap option_fmap option_map prod_map fst snd]; [|done].
      cbn [drop take]. by rewrite <- app_assoc.
    + by rewrite <- app_assoc.
Qed.

(** The first ready node comes to the front, or nobody is ready and the queue
    is back where it was. *)
Lemma find_ready_spec s q :
  NoDup q → q ≠ [] →
  (Forall (λ n, node_ready s n = None) q ∧ find_ready (S (length q)) s None q = Some (SearchSleep, q)) ∨
  ∃ pre n post id, q = pre ++ n :: post ∧ Forall (λ n, node_ready s n = None) pre ∧
    node_ready s n = Some id ∧
    find_ready (S (length q)) s None q = Some (SearchFound id, n :: post ++ pre).
Proof.
  intros Hd Hq. destruct q as [|h todo]; [done|]. rewrite find_ready_step by done.
  destruct (node_ready s h) as [id|] eqn:Eh.
  { right. exists [], h, todo, id. rewrite app_nil_r. done. }
  cbn [default id length]. rewrite (find_ready_walk s h todo []) by (done || lia). cbn [app].
  destruct (list_find _ todo) as [[i n]|] eqn:Ef.
  - right. apply list_find_Some in Ef as (Hi & [id Hid] & Hpre).
    exists (h :: take i todo), n, (drop (S i) todo), id. cbn [app]. split_and!.
    + by rewrite take_drop_middle.
    + constructor; [done|]. apply Forall_forall. intros x (j & Hj)%list_elem_of_lookup.
      apply lookup_take_Some in Hj as [Hj Hlt]. specialize (Hpre j x Hj Hlt).
      destruct (node_ready s x); [|done]. by destruct Hpre.
    + done.
    + rewrite Hid, (drop_S _ _ _ Hi). done.
  - left. split; [|done]. constructor; [done|]. apply list_find_None in Ef.
    apply (Forall_impl _ _ _ Ef). intros x Hx. destruct (node_ready s x); [|done]. by destruct Hx.
Qed.

(** A turn of the kernel loop as the scheduler sees it: the state of the
    processes when it is asked, why the process it chose stopped and how long
    it ran. *)
Record turn := mkTurn { tn_sys : sys; tn_reason : StoppedExecutingReason; tn_time : Z }.

Definition rr_turn (t : turn) (st : RoundRobinSched) : outcome (SchedulingDecision * RoundRobinSched) :=
  '(d, st) ← round_robin_next (tn_sys t) st;
  match d with
  | RunProcess _ _ => st ← round_robin_result (tn_reason t) (Some (tn_time t)) st; Ret (d, st)
  | TrySleep => Ret (d, st)
  end.

Fixpoint rr_turns (ts : list turn) (st : RoundRobinSched) : outcome (list SchedulingDecision * RoundRobinSched) :=
  match ts with
  | [] => Ret ([], st)
  | t :: ts => '(d, st) ← rr_turn t st; '(ds, st) ← rr_turns ts st; Ret (d :: ds, st)
  end.

Record rr_ok (st : RoundRobinSched) : Prop := {
  rr_nodup : NoDup (rr_processes st);
  rr_some : rr_processes st ≠ [];
  rr_time : 0 < time_remaining st;
}.

Lemma NoDup_turned (pre post : list nat) n : NoDup (pre ++ n :: post) → NoDup (n :: post ++ pre).
Proof. intros H. by rewrite (Permutation_app_comm (n :: post) pre : n :: post ++ pre ≡ₚ pre ++ n :: post). Qed.

Lemma NoDup_rotated (pre post : list nat) n : NoDup (pre ++ n :: post) → NoDup (post ++ pre ++ [n]).
Proof. intros H%NoDup_turned. rewrite app_assoc. by rewrite (Permutation_app_comm (post ++ pre) [n]). Qed.

Lemma rr_turn_spec t st :
  rr_ok st → 0 ≤ tn_time t →
  ∃ d st', rr_turn t st = Ret (d, st') ∧ rr_ok st' ∧
    ((Forall (λ n, node_ready (tn_sys t) n = None) (rr_processes st) ∧ d = TrySleep) ∨
     ∃ pre n post id us, rr_processes st = pre ++ n :: post ∧ 0 < us ∧
       Forall (λ n, node_ready (tn_sys t) n = None) pre ∧ node_ready (tn_sys t) n = Some id ∧
       d = RunProcess id (Some us) ∧
       (rr_processes st' = post ++ pre ++ [n] ∨
        tn_reason t = KernelPreemption ∧ rr_processes st' = n :: post ++ pre)).
Proof.
  intros [Hd Hq Ht] Htn. unfold rr_turn, round_robin_next.
  destruct (find_ready_spec (tn_sys t) (rr_processes st) Hd Hq) as [[Hn ->]|(pre & n & post & id & E & Hn & Hid & ->)].
  { do 2 eexists. cbn. split; [done|]. split; [by split|]. by left. }
  set (us := if last_rescheduled st then time_remaining st else DEFAULT_TIMESLICE_US).
  assert (Hus : 0 < us) by (unfold us, DEFAULT_TIMESLICE_US; destruct (last_rescheduled st); lia).
  replace (if last_rescheduled st then (time_remaining st, time_remaining st)
           else (DEFAULT_TIMESLICE_US, DEFAULT_TIMESLICE_US)) with (us, us)
    by (unfold us; by destruct (last_rescheduled st)).
  destruct (Z.eqb_spec us 0); [lia|]. cbn [mbind outcome_bind].
  unfold round_robin_result. cbn [time_remaining rr_processes rotate].
  destruct (bool_decide (tn_reason t = KernelPreemption) && (tn_time t <? us)) eqn:Ep; cbn [mbind outcome_bind].
  - apply andb_prop in Ep as [Ep%bool_decide_eq_true Elt%Z.ltb_lt].
    do 2 eexists. split; [done|]. split.
    { split; cbn; [apply NoDup_turned; congruence|done|lia]. }
    right. exists pre, n, post, id, us. cbn. auto 10.
  - do 2 eexists. split; [done|]. rewrite <- app_assoc. split.
    { split; cbn; [apply NoDup_rotated; congruence|by destruct post, pre|lia]. }
    right. exists pre, n, post, id, us. cbn. auto 10.
Qed.

Lemma rr_turns_ok ts st :
  rr_ok st → Forall (λ t, 0 ≤ tn_time t) ts → ∃ ds st', rr_turns ts st = Ret (ds, st').
Proof.
  revert st. induction ts as [|t ts IH]; intros st Ok Ht; [by do 2 eexists|].
  apply Forall_cons in Ht as [H1 H2]. destruct (rr_turn_spec t st Ok H1) as (d & st1 & E & Ok1 & _).
  destruct (IH st1 Ok1 H2) as (ds & st2 & E2). do 2 eexists. cbn [rr_turns]. rewrite E. cbn [mbind outcome_bind].
  by rewrite E2.
Qed.

(** The number of turns that ended for another reason than the kernel's own
    work. *)
Definition completed (ts : list turn) : nat :=
  length (filter (λ t, tn_reason t ≠ KernelPreemption) ts).

Lemma rr_serves ts k st pre post :
  rr_ok st → Forall (λ t, 0 ≤ tn_time t) ts → Forall (λ t, is_Some (node_ready (tn_sys t) k)) ts →
  rr_processes st = pre ++ k :: post → (length pre < completed ts)%nat →
  ∃ ds st' i t id us, rr_turns ts st = Ret (ds, st') ∧ ts !! i = Some t ∧
    node_ready (tn_sys t) k = Some id ∧ ds !! i = Some (RunProcess id (Some us)) ∧ 0 < us.
Proof.
  revert st pre post. induction ts as [|t ts IH]; intros st pre post Ok Ht Hk E Hc; [cbn in Hc; lia|].
  apply Forall_cons in Ht as [Ht1 Ht]. apply Forall_cons in Hk as [[idk Hk1] Hk].
  destruct (rr_turn_spec t st Ok Ht1) as (d & st1 & E1 & Ok1 & [[Hn _]|(pre1 & n & post1 & id & us & Eq & Hus & Hn & Hid & -> & Hnext)]).
  { rewrite E in Hn. apply Forall_app in Hn as [_ Hn]. apply Forall_cons in Hn as [Hn _]. congruence. }
  cbn [rr_turns]. rewrite E1. cbn [mbind outcome_bind].
  destruct (decide (n = k)) as [->|Hnk].
  { destruct (rr_turns_ok ts st1 Ok1 Ht) as (ds & st2 & E2). rewrite E2. cbn [mbind outcome_bind].
    do 2 eexists. exists 0%nat, t, id, us. split_and!; done. }
  assert (Hpre : ∃ b, pre = pre1 ++ n :: b ∧ post1 = b ++ k :: post).
  { rewrite E in Eq. apply app_eq_inv in Eq as [(z & -> & Ez)|(z & -> & Ez)].
    - destruct z as [|m z]; injection Ez as -> ->; [done|]. by exists z.
    - destruct z as [|m z]; injection Ez as -> ->; [done|].
      apply Forall_app in Hn as [_ Hn]. apply Forall_cons in Hn as [Hn _]. congruence. }
  destruct Hpre as (b & -> & ->). rewrite length_app in Hc. cbn [length] in Hc.
  assert (IH' : ∀ p', (length p' < completed ts)%nat → (∃ q', rr_processes st1 = p' ++ k :: q') →
    ∃ ds st' i t0 id0 us0, ('(ds, st) ← rr_turns ts st1; Ret (RunProcess id (Some us) :: ds, st)) = Ret (ds, st') ∧
      (t :: ts) !! i = Some t0 ∧ node_ready (tn_sys t0) k = Some id0 ∧
      ds !! i = Some (RunProcess id0 (Some us0)) ∧ 0 < us0).
  { intros p' Hl (q' & Eq'). destruct (IH st1 p' q' Ok1 Ht Hk Eq' Hl) as (ds & st2 & i & t0 & id0 & us0 & E2 & H).
    rewrite E2. cbn [mbind outcome_bind]. do 2 eexists. exists (S i), t0, id0, us0. split; [done|exact H]. }
  unfold completed in *. rewrite filter_cons in Hc. destruct Hnext as [Er|[Hp Er]].
  - apply (IH' b); [case_decide; cbn in Hc; lia|]. rewrite Er. exists (post ++ pre1 ++ [n]).
    by rewrite <- !app_assoc.
  - rewrite decide_False in Hc by (by intros []). apply (IH' (n :: b)); [cbn; lia|].
    rewrite Er. exists (post ++ pre1). cbn. by rewrite <- app_assoc.
Qed.

(** C22.  Round robin starves nobody: over any turns in which a process of the
    queue stays ready - whatever the other processes do - the scheduler always
    answers, and once as many turns as the queue has slots ended otherwise than
    by kernel work, the process was chosen with a positive timeslice. *)
Theorem round_robin_no_starvation ts k st :
  rr_ok st → k ∈ rr_processes st → Forall (λ t, 0 ≤ tn_time t) ts →
  Forall (λ t, is_Some (node_ready (tn_sys t) k)) ts →
  (length (rr_processes st) ≤ completed ts)%nat →
  ∃ ds st' i t id us, rr_turns ts st = Ret (ds, st') ∧ ts !! i = Some t ∧
    node_ready (tn_sys t) k = Some id ∧ ds !! i = Some (RunProcess id (Some us)) ∧ 0 < us.
Proof.
  intros Ok (pre & post & E)%list_elem_of_split Ht Hk Hc.
  apply (rr_serves ts k st pre post); try done. rewrite E, length_app in Hc. cbn in Hc. lia.
Qed.

End round_robin.

(** ** Multilevel feedback queue: proofs *)

Section mlfq.
Context {Hw Config Stored Ext : Type}.
Abbreviation sys := (Sys Hw Config Stored Ext).
Implicit Types (s : sys) (q : list MLFQProcessNode).
Context (W : Z) (ticks_from_ms : Z → Z).

Lemma bring_ready_spec s q before :
  match bring_ready s before q with
  | None => Forall (λ n, mlfq_ready s n = false) q
  | Some (n, q') => ∃ pre post, q = pre ++ n :: post ∧ Forall (λ n, mlfq_ready s n = false) pre ∧
      mlfq_ready s n = true ∧ q' = n :: post ++ before ++ pre
  end.
Proof.
  revert before. induction q as [|n q IH]; intros before; cbn [bring_ready]; [constructor|].
  destruct (mlfq_ready s n) eqn:En.
  { exists [], q. rewrite app_nil_r. auto. }
  specialize (IH (before ++ [n])). destruct (bring_ready s (before ++ [n]) q) as [[m q']|].
  - destruct IH as (pre & post & -> & H1 & H2 & ->). exists (n :: pre), post.
    split_and!; [done|by constructor|done|]. by rewrite <- app_assoc.
  - by constructor.
Qed.

Lemma bring_ready_none s q before :
  Forall (λ n, mlfq_ready s n = false) q → bring_ready s before q = None.
Proof.
  intros H. revert before. induction H as [|n q Hn H IH]; intros before; cbn; [done|]. by rewrite Hn.
Qed.

(** The only ready node after nodes that are not. *)
Lemma bring_ready_first s q n rest before :
  Forall (λ n, mlfq_ready s n = false) q → mlfq_ready s n = true →
  bring_ready s before (q ++ n :: rest) = Some (n, (n :: rest) ++ before ++ q).
Proof.
  intros H Hn. revert before. induction H as [|m q Hm H IH]; intros before; cbn [app bring_ready].
  { by rewrite Hn, app_nil_r. }
  rewrite Hm, IH. by rewrite <- app_assoc.
Qed.

(** The multilevel queue stops the kernel.  A process that was moved to the
    second queue, is chosen there and gives the processor back after less than
    10ms is charged the time it did not use (its timeslice less the time it
    ran); when the priority refresh then promotes it, the charge is kept, and
    the next decision subtracts it from the smaller timeslice of the first
    queue, which underflows. *)
Theorem mlfq_promotion_panics s1 s2 n p1 p2 q0 q2 st reason t now1 now2 :
  sys_procs s1 !! n = Some (Some p1) → ready p1 = true →
  sys_procs s2 !! n = Some (Some p2) → ready p2 = true →
  mf_processes st = [q0; [mkMLFQNode n 0]; q2] →
  Forall (λ m, mlfq_ready s1 m = false) q0 → Forall (λ m, mlfq_ready s2 m = false) q0 →
  within_range W now1 (last_reset_check st) (next_reset st) = true →
  reason ≠ TimesliceExpired → 0 ≤ t < 10000 →
  within_range W now2 now1 (next_reset st) = false →
  ∃ st1 st2,
    mlfq_next W ticks_from_ms now1 s1 st = Ret (RunProcess (process_id p1) (Some 20000), st1) ∧
    mlfq_result reason (Some t) st1 = Ret st2 ∧
    mf_processes st2 = [q0; [mkMLFQNode n (20000 - t)]; q2] ∧
    mlfq_next W ticks_from_ms now2 s2 st2 = Panic.
Proof.
  intros Hp1 Hr1 Hp2 Hr2 Hq Hq01 Hq02 Hw1 Hreason Ht Hw2.
  assert (R1 : mlfq_ready s1 (mkMLFQNode n 0) = true) by (unfold mlfq_ready; cbn; by rewrite Hp1).
  assert (R2 : mlfq_ready s2 (mkMLFQNode n (20000 - t)) = true) by (unfold mlfq_ready; cbn; by rewrite Hp2).
  set (st1 := mkMLFQ [q0; [mkMLFQNode n 0]; q2] (next_reset st) now1 20000 1).
  set (st2 := mkMLFQ [q0; [mkMLFQNode n (20000 - t)]; q2] (next_reset st) now1 20000 1).
  exists st1, st2. split_and!; [| |done|].
  - unfold mlfq_next. rewrite Hw1, Hq. cbn [negb get_next_ready_process_node].
    rewrite bring_ready_none by done. cbn [bring_ready]. rewrite R1. cbn [app get_timeslice_us mbind outcome_bind].
    rewrite usub_ok by (cbn; lia). cbn [mbind outcome_bind mf_proc]. by rewrite Hp1.
  - unfold mlfq_result. cbn [mf_processes last_queue_idx st1 lookup list_lookup last_timeslice].
    rewrite usub_ok by lia. cbn [mbind outcome_bind]. by rewrite bool_decide_false.
  - unfold mlfq_next. cbn [last_reset_check next_reset st2 mf_processes]. rewrite Hw2.
    cbn [negb redeem_all_procs omap list_omap hd_error map list.tail].
    assert (E : ∀ l qs, get_next_ready_process_node s2 0 ((q0 ++ mkMLFQNode n (20000 - t) :: l) :: qs)
            = (Some (mkMLFQNode n (20000 - t), 0%nat), ((mkMLFQNode n (20000 - t) :: l) ++ q0) :: qs)).
    { intros l qs. cbn [get_next_ready_process_node]. by rewrite bring_ready_first by done. }
    rewrite E. cbn [get_timeslice_us mbind outcome_bind us_used_this_queue].
    unfold usub. destruct (Z.leb_spec (20000 - t) 10000); [lia|done].
Qed.

End mlfq.

(** ** Concrete instances *)

Definition ex_sched_sys : Sys unit unit unit unit :=
  mkSys ex_kernel1 tt [Some ex_running; Some ex_running; None] ∅ ∅ tt.

Definition ex_rr : RoundRobinSched := mkRoundRobin DEFAULT_TIMESLICE_US [2; 0; 1]%nat false.

Lemma ex_rr_ok : rr_ok ex_rr.
Proof. split; [by apply (bool_decide_eq_true_1 _)|done|reflexivity]. Qed.

Lemma ex_ready : is_Some (node_ready ex_sched_sys 1).
Proof. eexists. vm_compute. reflexivity. Qed.

Lemma round_robin_no_starvation_witness :
  let ts := [mkTurn ex_sched_sys NoWorkLeft 900; mkTurn ex_sched_sys KernelPreemption 100;
             mkTurn ex_sched_sys TimesliceExpired 10000; mkTurn ex_sched_sys Stopped 5] in
  ∃ ds st' i t id us, rr_turns ts ex_rr = Ret (ds, st') ∧ ts !! i = Some t ∧
    node_ready (tn_sys t) 1 = Some id ∧ ds !! i = Some (RunProcess id (Some us)) ∧ 0 < us.
Proof.
  intros ts. apply (round_robin_no_starvation ts 1 ex_rr ex_rr_ok).
  - by apply (bool_decide_eq_true_1 _).
  - repeat constructor; cbn; lia.
  - repeat constructor; exact ex_ready.
  - vm_compute. lia.
Defined.

Lemma mlfq_promotion_panics_witness :
  let st := mkMLFQ [[]; [mkMLFQNode 0 0]; []] 5000 0 0 0 in
  ∃ st1 st2,
    mlfq_next (2 ^ 32) id 1000 ex_sched_sys st = Ret (RunProcess (process_id ex_running) (Some 20000), st1) ∧
    mlfq_result NoWorkLeft (Some 700) st1 = Ret st2 ∧
    mf_processes st2 = [[]; [mkMLFQNode 0 19300]; []] ∧
    mlfq_next (2 ^ 32) id 6000 ex_sched_sys st2 = Panic.
Proof.
  intros st.
  apply (mlfq_promotion_panics (2 ^ 32) id ex_sched_sys ex_sched_sys 0 ex_running ex_running [] [] st
           NoWorkLeft 700 1000 6000).
  1-5,8,11: vm_compute; reflexivity.
  - constructor.
  - constructor.
  - done.
  - lia.
Defined.
