(* ===== verification/VirtualAlarm.v ===== *)
(** * The alarm multiplexer (capsules/core/src/virtualizers/virtual_alarm.rs)

    Many virtual alarms share one hardware alarm.  [MuxAlarm] keeps the list of
    virtual alarms, in the order of the intrusive list, and programs the
    hardware for the one due first; when the hardware fires, every virtual
    alarm whose time has come is disarmed and its client called.  A wait longer
    than half the counter is taken in two steps ([extended]).

    The hardware alarm is the record [HwAlarm]: the true time, the delay before
    each further reading of the counter (code takes time to run), and what it
    was last set to.  A client is code that may set and disarm alarms when it
    is called: a function of the state giving its calls. *)

From S2P Require Import Prelude Time.

(** ** State *)

Record TickDtReference := mkTickDtReference { reference : Z; dt : Z; extended : bool }.

Record VirtualMuxAlarm := mkVirtual { dt_reference : TickDtReference; armed : bool }.

(** [reference_last] and [dt_last] are the arguments of the last [set_alarm],
    which [get_alarm] adds up whether or not the alarm is still armed. *)
Record HwAlarm := mkHwAlarm {
  time : Z;
  delays : list Z;
  reference_last : Z;
  dt_last : Z;
  hw_armed : bool;
}.

Record MuxAlarm := mkMux {
  virtual_alarms : list VirtualMuxAlarm;
  enabled : Z;
  alarm : HwAlarm;
  firing : bool;
  next_tick_vals : option (Z * Z);
}.

(** Calls a client can make on a virtual alarm. *)
Inductive alarm_call : Type :=
| SetAlarm (i : nat) (reference dt : Z)
| Disarm (i : nat)
| SetAlarmClient (i : nat).

(** What can be observed of the multiplexer: the calls made on it, by its users
    and by clients that are called, and the calls of clients with their time. *)
Inductive label : Type :=
| Called (c : alarm_call)
| Fired (i : nat) (t : Z).

Section mux.
Context (w : Z) `{!Ticks}.
Context (minimum_dt : Z).
Implicit Type m : MuxAlarm.

Definition with_virtual (vs : list VirtualMuxAlarm) m : MuxAlarm :=
  mkMux vs (enabled m) (alarm m) (firing m) (next_tick_vals m).
Definition with_enabled (n : Z) m : MuxAlarm :=
  mkMux (virtual_alarms m) n (alarm m) (firing m) (next_tick_vals m).
Definition with_hw (h : HwAlarm) m : MuxAlarm :=
  mkMux (virtual_alarms m) (enabled m) h (firing m) (next_tick_vals m).
Definition with_firing (b : bool) m : MuxAlarm :=
  mkMux (virtual_alarms m) (enabled m) (alarm m) b (next_tick_vals m).
Definition with_next (n : option (Z * Z)) m : MuxAlarm :=
  mkMux (virtual_alarms m) (enabled m) (alarm m) (firing m) n.

Definition reference_plus_dt (r : TickDtReference) : Z := t_wrapping_add (reference r) (dt r).

Definition VirtualMuxAlarm_new : VirtualMuxAlarm := mkVirtual (mkTickDtReference 0 0 false) false.

(** [setup]: the alarm is put at the head of the list. *)
Definition setup (v : VirtualMuxAlarm) m : MuxAlarm := with_virtual (v :: virtual_alarms m) m.

(** *** The hardware *)

(** Reading the counter takes time. *)
Definition now m : Z * MuxAlarm :=
  let h := alarm m in
  let t := time h + match delays h with d :: _ => d | [] => 0 end in
  (tick w t, with_hw (mkHwAlarm t (tail (delays h)) (reference_last h) (dt_last h) (hw_armed h)) m).

Definition hw_set_alarm (r d : Z) m : MuxAlarm :=
  with_hw (mkHwAlarm (time (alarm m)) (delays (alarm m)) r d true) m.
Definition hw_disarm m : MuxAlarm :=
  let h := alarm m in with_hw (mkHwAlarm (time h) (delays h) (reference_last h) (dt_last h) false) m.
Definition hw_get_alarm m : Z := t_wrapping_add (reference_last (alarm m)) (dt_last (alarm m)).

(** *** The multiplexer's own calls *)

Definition mux_set_alarm (r d : Z) m : MuxAlarm := hw_set_alarm r d (with_next (Some (r, d)) m).
Definition mux_disarm m : MuxAlarm := hw_disarm (with_next None m).

(** *** Calls on virtual alarm [i] *)

Definition get_virtual (i : nat) m : VirtualMuxAlarm := default VirtualMuxAlarm_new (virtual_alarms m !! i).
Definition set_virtual (i : nat) (v : VirtualMuxAlarm) m : MuxAlarm := with_virtual (<[i := v]> (virtual_alarms m)) m.

Definition set_alarm_client (i : nat) m : MuxAlarm :=
  set_virtual i (mkVirtual (dt_reference (get_virtual i m)) false) m.

Definition disarm (i : nat) m : outcome MuxAlarm :=
  let v := get_virtual i m in
  if negb (armed v) then Ret m
  else
    let m := set_virtual i (mkVirtual (dt_reference v) false) m in
    enabled ← usub (enabled m) 1;
    let m := with_enabled enabled m in
    Ret (if enabled =? 0 then hw_disarm m else m).

Definition split_dt (r d : Z) : TickDtReference :=
  if t_wrapping_add half_max_value minimum_dt <? d
  then mkTickDtReference r (t_wrapping_sub d half_max_value) true
  else mkTickDtReference r d false.

Definition set_alarm (i : nat) (r d : Z) m : outcome MuxAlarm :=
  let enabled_before := enabled m in
  let dt_ref := split_dt r d in
  let was_armed := armed (get_virtual i m) in
  let d := dt dt_ref in
  let m := set_virtual i (mkVirtual dt_ref was_armed) m in
  m ← (if was_armed then Ret m
       else n ← uadd enabled_before 1; Ret (set_virtual i (mkVirtual dt_ref true) (with_enabled n m)));
  if enabled_before =? 0 then Ret (mux_set_alarm r d m)
  else if firing m then Ret m
  else
    let cur_alarm := hw_get_alarm m in
    let '(now, m) := now m in
    let expiration := t_wrapping_add r d in
    if within_range cur_alarm r expiration then Ret m
    else if match next_tick_vals m with
            | None => true
            | Some (next_reference, next_dt) =>
                within_range now next_reference (t_wrapping_add next_reference next_dt)
            end
    then Ret (mux_set_alarm r d m) else Ret m.

Definition get_alarm (i : nat) m : Z :=
  let r := dt_reference (get_virtual i m) in
  t_wrapping_add (reference_plus_dt r) (if extended r then half_max_value else t_from_u32 0).

Definition call (c : alarm_call) m : outcome MuxAlarm :=
  match c with
  | SetAlarm i r d => set_alarm i r d m
  | Disarm i => disarm i m
  | SetAlarmClient i => Ret (set_alarm_client i m)
  end.

Fixpoint calls (cs : list alarm_call) m : outcome MuxAlarm :=
  match cs with
  | [] => Ret m
  | c :: cs => m ← call c m; calls cs m
  end.

(** *** The hardware fired *)

Section firing.
(** What the client of alarm [i] does when it is called. *)
Context (client : nat → MuxAlarm → list alarm_call).

(** One step of the iteration; the result says what was observed. *)
Definition visit (i : nat) m : outcome (list label * MuxAlarm) :=
  let v := get_virtual i m in
  let dt_ref := dt_reference v in
  let '(now, m) := now m in
  if armed v && negb (within_range now (reference dt_ref) (reference_plus_dt dt_ref)) then
    if extended dt_ref then
      Ret ([], set_virtual i
                    (mkVirtual (mkTickDtReference (reference_plus_dt dt_ref) half_max_value false) (armed v)) m)
    else
      let m := set_virtual i (mkVirtual dt_ref false) m in
      n ← usub (enabled m) 1;
      let m := with_enabled n m in
      let cs := client i m in
      let seen := Fired i (time (alarm m)) :: map Called cs in
      m ← calls cs m;
      Ret (seen, m)
  else Ret ([], m).

Fixpoint visit_from (n i : nat) m : outcome (list label * MuxAlarm) :=
  match n with
  | O => Ret ([], m)
  | S n =>
      '(seen, m) ← visit i m;
      '(log, m) ← visit_from n (S i) m;
      Ret (seen ++ log, m)
  end.

(** The key of [min_by_key]: the time left. *)
Definition time_left (now : Z) (v : VirtualMuxAlarm) : Z :=
  let when := dt_reference v in
  if negb (within_range now (reference when) (reference_plus_dt when)) then t_from_u32 0
  else t_wrapping_sub (reference_plus_dt when) now.

(** [min_by_key] returns the first of several minimal elements. *)
Fixpoint soonest (now : Z) (vs : list VirtualMuxAlarm) : option VirtualMuxAlarm :=
  match vs with
  | [] => None
  | v :: vs =>
      if armed v then
        match soonest now vs with
        | Some u => if time_left now u <? time_left now v then Some u else Some v
        | None => Some v
        end
      else soonest now vs
  end.

Definition mux_alarm m : outcome (list label * MuxAlarm) :=
  let m := with_firing true m in
  '(log, m) ← visit_from (length (virtual_alarms m)) 0 m;
  let m := with_firing false m in
  let '(now, m) := now m in
  Ret (log, match soonest now (virtual_alarms m) with
            | Some v => mux_set_alarm (reference (dt_reference v)) (dt (dt_reference v)) m
            | None => mux_disarm m
            end).

End firing.
End mux.
