(* ===== verification/VirtualAlarmTheorems.v ===== *)
(** * Properties of the alarm multiplexer

    The specification knows true time and, for every virtual alarm, the moment
    it is due: a client may only be called once that moment has passed.  The
    multiplexer refines it for every width of the counter, whatever the clients
    do when they are called and however long the code takes.  The count of
    enabled alarms and what the hardware is programmed to. *)

From stdpp Require Import relations.
From S2P Require Import Prelude Time VirtualAlarm.

(** ** The specification *)

Record Spec := mkSpec { sp_time : Z; sp_due : list (option Z) }.

Section spec.
Context (w : Z).

(** A call: an alarm set with [reference] and [dt] is due [dt] after the last
    moment at which the counter showed [reference]. *)
Definition spec_call (c : alarm_call) (s : Spec) : Spec :=
  match c with
  | SetAlarm i r d => mkSpec (sp_time s) (<[i := Some (last_moment w (sp_time s) r + d)]> (sp_due s))
  | Disarm i | SetAlarmClient i => mkSpec (sp_time s) (<[i := None]> (sp_due s))
  end.

(** Runs with what is observed of them.  Only time passes unobserved: an alarm is
    set or disarmed by the calls in the log alone, and a client is called when
    its alarm is set and due, which disarms it. *)
Inductive spec_run : list label → Spec → Spec → Prop :=
| run_nil s : spec_run [] s s
| run_pass log t D d s : 0 ≤ d → spec_run log (mkSpec (t + d) D) s → spec_run log (mkSpec t D) s
| run_call log c s1 s2 : spec_run log (spec_call c s1) s2 → spec_run (Called c :: log) s1 s2
| run_fire log t D i due s :
    D !! i = Some (Some due) → due ≤ t →
    spec_run log (mkSpec t (<[i := None]> D)) s → spec_run (Fired i t :: log) (mkSpec t D) s.

Lemma spec_run_trans log1 log2 s1 s2 s3 :
  spec_run log1 s1 s2 → spec_run log2 s2 s3 → spec_run (log1 ++ log2) s1 s3.
Proof. induction 1; cbn; eauto using run_pass, run_call, run_fire. Qed.

Lemma spec_run_pass t D d : 0 ≤ d → spec_run [] (mkSpec t D) (mkSpec (t + d) D).
Proof. eauto using run_pass, run_nil. Qed.

Lemma spec_run_call c s : spec_run [Called c] s (spec_call c s).
Proof. eauto using run_call, run_nil. Qed.
End spec.

(** ** Refinement *)

Section refinement.
Context (w : Z) {T : Ticks} {HT : TicksLaws w} (minimum_dt : Z).
Context (minimum_dt_small : 0 ≤ minimum_dt < half_max_value).
Implicit Type m : MuxAlarm.

(** A virtual alarm at time [t] and the moment it is due. *)
Definition due_at (t : Z) (v : VirtualMuxAlarm) (due : option Z) : Prop :=
  match due with
  | None => armed v = false
  | Some due => armed v = true ∧ ∃ R, R ≤ t ∧ tick w R = reference (dt_reference v) ∧
      is_tick w (dt (dt_reference v)) ∧
      due = R + dt (dt_reference v) + (if extended (dt_reference v) then half_max_value else 0)
  end.

Record rep m (s : Spec) : Prop := {
  rep_time : time (alarm m) = sp_time s;
  rep_delays : Forall (λ d, 0 ≤ d) (delays (alarm m));
  rep_due : Forall2 (due_at (sp_time s)) (virtual_alarms m) (sp_due s);
}.

Lemma due_at_later t t' v d : t ≤ t' → due_at t v d → due_at t' v d.
Proof.
  intros Ht. destruct d as [d|]; [|done]. intros (Ha & R & HR & H). split; [done|]. exists R. split; [lia|done].
Qed.

(** The hardware was changed or time passed. *)
Lemma rep_frame m m' t D d :
  rep m (mkSpec t D) → virtual_alarms m' = virtual_alarms m → 0 ≤ d → time (alarm m') = t + d →
  Forall (λ d, 0 ≤ d) (delays (alarm m')) → rep m' (mkSpec (t + d) D).
Proof.
  intros [_ _ Hd] Hv Hp Ht Hl. split; [done|done|]. cbn in *. rewrite Hv.
  eapply Forall2_impl; [exact Hd|]. intros. eapply due_at_later; [|done]. lia.
Qed.

Lemma rep_frame_now m m' t D :
  rep m (mkSpec t D) → virtual_alarms m' = virtual_alarms m → time (alarm m') = t →
  delays (alarm m') = delays (alarm m) → rep m' (mkSpec t D).
Proof.
  intros R Hv Ht Hd. rewrite <- (Z.add_0_r t). eapply rep_frame; [done|done|done|lia|].
  rewrite Hd. apply R.
Qed.

Lemma now_rep m t D n m' :
  rep m (mkSpec t D) → now w m = (n, m') →
  ∃ d, 0 ≤ d ∧ n = tick w (t + d) ∧ virtual_alarms m' = virtual_alarms m ∧ enabled m' = enabled m ∧
    firing m' = firing m ∧ next_tick_vals m' = next_tick_vals m ∧
    rep m' (mkSpec (t + d) D) ∧ time (alarm m') = t + d.
Proof.
  intros R. pose proof R as [Ht Hl _]. cbn in Ht. unfold now. rewrite Ht. intros [= <- <-].
  set (d := match delays (alarm m) with d :: _ => d | [] => 0 end).
  assert (Hd : 0 ≤ d ∧ Forall (λ d, 0 ≤ d) (tail (delays (alarm m)))).
  { unfold d. destruct (delays (alarm m)); [done|]. by apply Forall_cons in Hl as [? ?]. }
  exists d. split_and!; [lia|done|done|done|done|done| |done].
  eapply rep_frame; [exact R|done|lia|done|apply Hd].
Qed.

(** Replacing virtual alarm [i]. *)
Lemma rep_insert m t D i v due :
  rep m (mkSpec t D) → due_at t v due → rep (set_virtual i v m) (mkSpec t (<[i := due]> D)).
Proof. intros [Ht Hl Hd] Hv. split; [done|done|]. by apply Forall2_insert. Qed.

Lemma split_dt_due t r d v :
  is_tick w r → is_tick w d → armed v = true → dt_reference v = split_dt minimum_dt r d →
  due_at t v (Some (last_moment w t r + d)).
Proof.
  intros Hr Hd Ha Hv. split; [done|]. destruct (last_moment_spec w t r Hr) as [Hm Hb].
  exists (last_moment w t r). rewrite Hv. unfold split_dt.
  pose proof (half_max_pow w) as Hh. pose proof (ticks_width (w := w)).
  assert (H2 : 2 ^ w = 2 * 2 ^ (w - 1)) by (rewrite <- Z.pow_succ_r by lia; f_equal; lia).
  unfold is_tick in *. rewrite ticks_add, (Z.mod_small (half_max_value + minimum_dt)) by lia.
  destruct (Z.ltb_spec (half_max_value + minimum_dt) d); cbn [reference dt extended].
  - rewrite ticks_sub, Z.mod_small by lia. split_and!; [lia|done|lia|lia|lia].
  - split_and!; [lia|done|lia|lia|lia].
Qed.

(** A hardware call keeps the view. *)
Lemma mux_set_alarm_rep m s r d : rep m s → rep (mux_set_alarm r d m) s.
Proof. destruct s. intros R. by eapply rep_frame_now; [exact R|done|apply R|done]. Qed.
Lemma mux_disarm_rep m s : rep m s → rep (mux_disarm m) s.
Proof. destruct s. intros R. by eapply rep_frame_now; [exact R|done|apply R|done]. Qed.
Lemma hw_disarm_rep m s : rep m s → rep (hw_disarm m) s.
Proof. destruct s. intros R. by eapply rep_frame_now; [exact R|done|apply R|done]. Qed.

Lemma disarm_rep i m t D m' :
  rep m (mkSpec t D) → disarm i m = Ret m' → rep m' (mkSpec t (<[i := None]> D)).
Proof.
  intros R. unfold disarm. destruct (armed (get_virtual i m)) eqn:Ha; cbn [negb].
  2:{ intros [= <-]. split; [apply R..|]. pose proof (rep_due _ _ R) as Hd. cbn in *.
      destruct (D !! i) as [due|] eqn:HD; [|by rewrite list_insert_ge by (by apply lookup_ge_None)].
      destruct (Forall2_lookup_r _ _ _ _ _ Hd HD) as (v & Hv & Hdue). unfold get_virtual in Ha. rewrite Hv in Ha. cbn in Ha.
      destruct due as [due|]; [by destruct Hdue as [? _]; congruence|]. by rewrite list_insert_id. }
  intros E. apply outcome_bind_Ret in E as (n & _ & E). injection E as <-.
  assert (R1 : rep (with_enabled n (set_virtual i (mkVirtual (dt_reference (get_virtual i m)) false) m))
                 (mkSpec t (<[i := None]> D))).
  { eapply rep_frame_now; [by apply (rep_insert m t D i (mkVirtual (dt_reference (get_virtual i m)) false) None)
                          |done|apply R|done]. }
  destruct (n =? 0); [by apply hw_disarm_rep|done].
Qed.

Lemma set_alarm_client_rep i m t D : rep m (mkSpec t D) → rep (set_alarm_client i m) (mkSpec t (<[i := None]> D)).
Proof. intros R. by apply rep_insert. Qed.

Lemma set_alarm_rep i r d m t D m' :
  is_tick w r → is_tick w d → rep m (mkSpec t D) → set_alarm w minimum_dt i r d m = Ret m' →
  ∃ e, 0 ≤ e ∧ rep m' (mkSpec (t + e) (<[i := Some (last_moment w t r + d)]> D)).
Proof.
  intros Hr Hd R E. unfold set_alarm in E. apply outcome_bind_Ret in E as (m1 & E1 & E).
  set (D1 := <[i := Some (last_moment w t r + d)]> D).
  assert (R1 : rep m1 (mkSpec t D1)).
  { destruct (armed (get_virtual i m)) eqn:Ha; [injection E1 as <-|].
    - apply rep_insert; [done|]. by apply split_dt_due.
    - apply outcome_bind_Ret in E1 as (n & _ & E1). injection E1 as <-.
      assert (R2 : rep (set_virtual i (mkVirtual (split_dt minimum_dt r d) true) m) (mkSpec t D1))
        by (apply rep_insert; [done|]; by apply split_dt_due).
      eapply rep_frame_now; [exact R2| |apply R|done]. cbn. by rewrite list_insert_insert_eq. }
  set (dd := dt (split_dt minimum_dt r d)) in E.
  destruct (enabled m =? 0); [injection E as <-; exists 0; rewrite Z.add_0_r; split; [done|by apply mux_set_alarm_rep]|].
  destruct (firing m1); [injection E as <-; exists 0; by rewrite Z.add_0_r|].
  destruct (now w m1) as [n m2] eqn:En.
  destruct (now_rep m1 t D1 n m2 R1 En) as (e & He & _ & _ & _ & _ & _ & R2 & _).
  exists e. split; [done|].
  destruct (within_range _ _ _) in E; [by injection E as <-|].
  case_match; injection E as <-; [by apply mux_set_alarm_rep|done].
Qed.

(** ** Sessions *)

(** Arguments of a call are tick values. *)
Definition call_ok (c : alarm_call) : Prop :=
  match c with SetAlarm _ r d => is_tick w r ∧ is_tick w d | _ => True end.

Lemma call_rep c m s m' :
  call_ok c → rep m s → call w minimum_dt c m = Ret m' → ∃ s', spec_run w [Called c] s s' ∧ rep m' s'.
Proof.
  destruct s as [t D]. intros Hok R E. pose proof (spec_run_call w c (mkSpec t D)) as S. destruct c as [i r d|i|i]; cbn in *.
  - destruct Hok as [Hr Hd]. destruct (set_alarm_rep i r d m t D m' Hr Hd R E) as (e & He & R'). eexists. split; [|exact R'].
    exact (spec_run_trans w [_] [] _ _ _ S (spec_run_pass w _ _ e He)).
  - eexists. split; [exact S|]. by eapply disarm_rep.
  - injection E as <-. eexists. split; [exact S|]. by apply set_alarm_client_rep.
Qed.

Lemma calls_rep cs : ∀ m s m',
  Forall call_ok cs → rep m s → calls w minimum_dt cs m = Ret m' → ∃ s', spec_run w (map Called cs) s s' ∧ rep m' s'.
Proof.
  induction cs as [|c cs IH]; intros m s m' Hok R E; cbn in E.
  { injection E as <-. exists s. split; [constructor|done]. }
  apply Forall_cons in Hok as [Hc Hok]. apply outcome_bind_Ret in E as (m1 & E1 & E).
  destruct (call_rep c m s m1 Hc R E1) as (s1 & S1 & R1). destruct (IH m1 s1 m' Hok R1 E) as (s2 & S2 & R2).
  exists s2. split; [exact (spec_run_trans w [_] _ _ _ _ S1 S2)|done].
Qed.

Section client.
Context (client : nat → MuxAlarm → list alarm_call).
Context (client_ok : ∀ i m, Forall call_ok (client i m)).

(** A visited alarm that has run out: due, and its virtual alarm known. *)
Lemma visited_due i m t D :
  rep m (mkSpec t D) → armed (get_virtual i m) = true →
  ∃ due, D !! i = Some (Some due) ∧ due_at t (get_virtual i m) (Some due).
Proof.
  intros [_ _ Hd] Ha. cbn in Hd. unfold get_virtual in *. destruct (virtual_alarms m !! i) as [v|] eqn:Hi; [|done].
  destruct (Forall2_lookup_l _ _ _ _ _ Hd Hi) as (due & Hdue & Hv). cbn in *. destruct due as [due|].
  - by exists due.
  - cbn in Hv. congruence.
Qed.

Lemma visit_rep i m t D seen m' :
  rep m (mkSpec t D) → visit w minimum_dt client i m = Ret (seen, m') →
  ∃ s', spec_run w seen (mkSpec t D) s' ∧ rep m' s'.
Proof.
  intros R E. unfold visit in E. destruct (now w m) as [n m1] eqn:En.
  destruct (now_rep m t D n m1 R En) as (e & He & Hn & Hv & _ & _ & _ & R1 & Ht).
  pose proof (spec_run_pass w t D e He) as S1.
  assert (Hg : get_virtual i m1 = get_virtual i m) by (unfold get_virtual; by rewrite Hv).
  set (v := get_virtual i m) in *.
  destruct (armed v && negb _) eqn:Hc; [|injection E as <- <-; by exists (mkSpec (t + e) D)].
  apply andb_prop in Hc as [Ha Hw]. apply negb_true_iff in Hw.
  destruct (visited_due i m1 (t + e) D R1) as (due & HD & _ & Rf & HR & Hr & Hdt & Hdue); [by rewrite Hg|].
  rewrite Hg in *. unfold reference_plus_dt in Hw. rewrite Hn, <- Hr in Hw.
  apply (outside_window w) in Hw; [|done|done].
  destruct (extended (dt_reference v)) eqn:Hx; [injection E as <- <-|].
  - exists (mkSpec (t + e) D). split; [done|]. rewrite <- (list_insert_id D i (Some due)) by done.
    apply rep_insert; [done|]. split; [done|]. exists (Rf + dt (dt_reference v)).
    cbn [dt_reference reference dt extended]. pose proof (half_max_pow w) as Hh. pose proof (ticks_width (w := w)).
    split_and!; [lia| | |lia].
    + unfold reference_plus_dt. by rewrite <- Hr, tick_add.
    + unfold is_tick. rewrite Hh. split; [apply Z.pow_nonneg; lia|apply Z.pow_lt_mono_r; lia].
  - apply outcome_bind_Ret in E as (n' & _ & E). apply outcome_bind_Ret in E as (m2 & E2 & E). injection E as <- <-.
    set (D1 := <[i := None]> D).
    assert (R2 : rep (with_enabled n' (set_virtual i (mkVirtual (dt_reference v) false) m1)) (mkSpec (t + e) D1))
      by (eapply rep_frame_now; [by apply (rep_insert m1 (t + e) D i (mkVirtual (dt_reference v) false) None)
                                |done|apply R1|done]).
    destruct (calls_rep _ _ _ _ (client_ok _ _) R2 E2) as (s2 & S2 & R3). exists s2. split; [|done].
    apply (spec_run_trans w [] _ _ _ _ S1). cbn. rewrite Ht. eapply run_fire; [exact HD|lia|exact S2].
Qed.

Lemma visit_from_rep n : ∀ i m s log m',
  rep m s → visit_from w minimum_dt client n i m = Ret (log, m') → ∃ s', spec_run w log s s' ∧ rep m' s'.
Proof.
  induction n as [|n IH]; intros i m [t D] log m' R E; cbn [visit_from] in E.
  { injection E as <- <-. exists (mkSpec t D). split; [constructor|done]. }
  apply outcome_bind_Ret in E as ([seen m1] & E1 & E). apply outcome_bind_Ret in E as ([log2 m2] & E2 & E).
  injection E as <- <-. destruct (visit_rep i m t D seen m1 R E1) as (s1 & S1 & R1).
  destruct (IH (S i) m1 s1 log2 m2 R1 E2) as (s2 & S2 & R2). exists s2. split; [|done].
  exact (spec_run_trans w _ _ _ _ _ S1 S2).
Qed.

Lemma mux_alarm_rep m s log m' :
  rep m s → mux_alarm w minimum_dt client m = Ret (log, m') → ∃ s', spec_run w log s s' ∧ rep m' s'.
Proof.
  destruct s as [t D]. intros R E. unfold mux_alarm in E. apply outcome_bind_Ret in E as ([log1 m1] & E1 & E).
  apply (visit_from_rep _ _ _ (mkSpec t D)) in E1 as ([t1 D1] & S1 & R1);
    [|by eapply rep_frame_now; [exact R|done|apply R|done]].
  destruct (now w (with_firing false m1)) as [n m2] eqn:En.
  assert (Rf : rep (with_firing false m1) (mkSpec t1 D1))
    by (by eapply rep_frame_now; [exact R1|done|apply R1|done]).
  destruct (now_rep _ t1 D1 n m2 Rf En) as (e & He & _ & _ & _ & _ & _ & R2 & _).
  injection E as <- <-. exists (mkSpec (t1 + e) D1). split.
  - rewrite <- (app_nil_r log1). by apply (spec_run_trans w _ _ _ _ _ S1), spec_run_pass.
  - case_match; [by apply mux_set_alarm_rep|by apply mux_disarm_rep].
Qed.

(** What happens to a multiplexer: time passes, somebody calls, the hardware fires. *)
Inductive event : Type := Pass (d : Z) | Call (c : alarm_call) | Fire.

Definition event_ok (e : event) : Prop :=
  match e with Pass d => 0 ≤ d | Call c => call_ok c | Fire => True end.

Definition handle (e : event) m : outcome (list label * MuxAlarm) :=
  match e with
  | Pass d =>
      let h := alarm m in
      Ret ([], with_hw (mkHwAlarm (time h + d) (delays h) (reference_last h) (dt_last h) (hw_armed h)) m)
  | Call c => m ← call w minimum_dt c m; Ret ([Called c], m)
  | Fire => mux_alarm w minimum_dt client m
  end.

Fixpoint handle_all (es : list event) m : outcome (list label * MuxAlarm) :=
  match es with
  | [] => Ret ([], m)
  | e :: es => '(log, m) ← handle e m; '(log', m) ← handle_all es m; Ret (log ++ log', m)
  end.

Lemma handle_rep e m s log m' :
  event_ok e → rep m s → handle e m = Ret (log, m') → ∃ s', spec_run w log s s' ∧ rep m' s'.
Proof.
  destruct s as [t D]. intros Hok R E. destruct e as [d|c|]; cbn in E.
  - injection E as <- <-. exists (mkSpec (t + d) D). split; [by apply spec_run_pass|].
    eapply rep_frame; [exact R|done|done| |apply R]. cbn. f_equal. apply R.
  - apply outcome_bind_Ret in E as (m1 & E1 & E). injection E as <- <-. by eapply call_rep.
  - by eapply mux_alarm_rep.
Qed.

(** C6.  The multiplexer refines the specification of independent alarms: in
    any session, whatever the clients do when called and however long each
    reading of the counter takes, what is observed - the calls on the alarms, in
    callbacks too, and the clients called with the time - is a run of the
    specification, in which nothing but the observed calls sets an alarm.  So a
    virtual alarm is called at most once per setting, and never before
    reference + dt in true time, also when the wait is longer than half the
    counter and when the counter wraps. *)
Theorem virtual_alarm_refines_spec es : ∀ m s log m',
  Forall event_ok es → rep m s → handle_all es m = Ret (log, m') →
  ∃ s', spec_run w log s s' ∧ rep m' s'.
Proof.
  induction es as [|e es IH]; intros m s log m' Hok R E; cbn in E.
  { injection E as <- <-. exists s. split; [constructor|done]. }
  apply Forall_cons in Hok as [He Hok].
  apply outcome_bind_Ret in E as ([log1 m1] & E1 & E). apply outcome_bind_Ret in E as ([log2 m2] & E2 & E).
  injection E as <- <-. destruct (handle_rep e m s log1 m1 He R E1) as (s1 & S1 & R1).
  destruct (IH m1 s1 log2 m2 Hok R1 E2) as (s2 & S2 & R2). exists s2. split; [by eapply spec_run_trans|done].
Qed.

End client.
End refinement.

(** ** The count of enabled alarms *)

Section count.
Context (w : Z) {T : Ticks} (minimum_dt : Z).
Implicit Type m : MuxAlarm.

Fixpoint armed_count (vs : list VirtualMuxAlarm) : Z :=
  match vs with [] => 0 | v :: vs => Z.b2z (armed v) + armed_count vs end.

Lemma armed_count_range vs : 0 ≤ armed_count vs ≤ Z.of_nat (length vs).
Proof. induction vs as [|v vs IH]; cbn; [lia|]. destruct (armed v); cbn; lia. Qed.

Lemma armed_count_insert vs i u v :
  vs !! i = Some u → armed_count (<[i := v]> vs) = armed_count vs - Z.b2z (armed u) + Z.b2z (armed v).
Proof.
  revert i. induction vs as [|x vs IH]; intros i Hi; [done|]. destruct i as [|i]; cbn in Hi.
  - injection Hi as ->. cbn. lia.
  - change (<[S i := v]> (x :: vs)) with (x :: <[i := v]> vs). cbn [armed_count]. rewrite (IH i) by done. lia.
Qed.

Lemma armed_count_lookup vs i u : vs !! i = Some u → armed u = true → 1 ≤ armed_count vs.
Proof.
  intros Hi Ha. pose proof (armed_count_insert vs i u (mkVirtual (dt_reference u) false) Hi) as E.
  rewrite Ha in E. cbn in E. pose proof (armed_count_range (<[i := mkVirtual (dt_reference u) false]> vs)). lia.
Qed.

(** [n] alarms, as many enabled as counted. *)
Definition counted (n : nat) m : Prop :=
  length (virtual_alarms m) = n ∧ enabled m = armed_count (virtual_alarms m).

(** A call on an existing alarm that does not replace its client. *)
Definition counted_call (n : nat) (c : alarm_call) : Prop :=
  match c with SetAlarm i _ _ | Disarm i => (i < n)%nat | SetAlarmClient _ => False end.

Lemma get_virtual_lookup n m i : counted n m → (i < n)%nat → virtual_alarms m !! i = Some (get_virtual i m).
Proof.
  intros [Hl _] Hi. unfold get_virtual. destruct (lookup_lt_is_Some_2 (virtual_alarms m) i) as [v ->]; [lia|done].
Qed.

Lemma counted_now n m : counted n m → counted n (now w m).2.
Proof. done. Qed.

Lemma disarm_counted n i m : counted n m → (i < n)%nat → ∃ m', disarm i m = Ret m' ∧ counted n m'.
Proof.
  intros C Hi. pose proof (get_virtual_lookup n m i C Hi) as Hv. unfold disarm.
  destruct (armed (get_virtual i m)) eqn:Ha; cbn [negb]; [|by exists m].
  pose proof (armed_count_lookup _ _ _ Hv Ha). destruct C as [Hl He].
  change (enabled (set_virtual i _ m)) with (enabled m).
  rewrite usub_ok by lia. eexists. split; [done|].
  assert (C' : counted n (with_enabled (enabled m - 1)
                 (set_virtual i (mkVirtual (dt_reference (get_virtual i m)) false) m))).
  { split; cbn; [by rewrite length_insert|]. rewrite (armed_count_insert _ _ _ _ Hv), Ha. cbn. lia. }
  by destruct (enabled m - 1 =? 0).
Qed.

Lemma set_alarm_counted n i r d m :
  counted n m → (i < n)%nat → Z.of_nat n + 1 < usize_bound →
  ∃ m', set_alarm w minimum_dt i r d m = Ret m' ∧ counted n m'.
Proof.
  intros C Hi Hn. pose proof (get_virtual_lookup n m i C Hi) as Hv. unfold set_alarm.
  set (v := mkVirtual (split_dt minimum_dt r d) (armed (get_virtual i m))).
  assert (E1 : ∃ m1, (if armed (get_virtual i m) then Ret (set_virtual i v m)
    else n0 ← uadd (enabled m) 1;
         Ret (set_virtual i (mkVirtual (split_dt minimum_dt r d) true) (with_enabled n0 (set_virtual i v m))))
    = Ret m1 ∧ counted n m1).
  { destruct C as [Hl He]. pose proof (armed_count_range (virtual_alarms m)).
    destruct (armed (get_virtual i m)) eqn:Ha.
    - eexists. split; [done|]. split; cbn; [by rewrite length_insert|].
      rewrite (armed_count_insert _ _ _ _ Hv), Ha. cbn. lia.
    - rewrite uadd_ok by lia. eexists. split; [done|].
      split; cbn; [by rewrite !length_insert|].
      rewrite list_insert_insert_eq, (armed_count_insert _ _ _ _ Hv), Ha. cbn. lia. }
  destruct E1 as (m1 & -> & C1). cbn [mbind outcome_bind].
  destruct (enabled m =? 0); [by eexists|]. destruct (firing m1); [by eexists|].
  destruct (now w m1) as [t m2] eqn:En.
  assert (C2 : counted n m2) by (pose proof (counted_now n m1 C1) as C2; by rewrite En in C2).
  destruct (within_range _ _ _); [by eexists|]. case_match; by eexists.
Qed.

Lemma calls_counted n cs : ∀ m,
  Z.of_nat n + 1 < usize_bound → Forall (counted_call n) cs → counted n m →
  ∃ m', calls w minimum_dt cs m = Ret m' ∧ counted n m'.
Proof.
  induction cs as [|c cs IH]; intros m Hn Hok C; cbn [calls]; [by exists m|].
  apply Forall_cons in Hok as [Hc Hok].
  assert (E : ∃ m1, call w minimum_dt c m = Ret m1 ∧ counted n m1).
  { destruct c as [i r d|i|i]; cbn in *; [by apply set_alarm_counted|by apply disarm_counted|done]. }
  destruct E as (m1 & -> & C1). cbn [mbind outcome_bind]. by apply IH.
Qed.

Context (client : nat → MuxAlarm → list alarm_call) (n : nat).
Context (client_counted : ∀ i m, Forall (counted_call n) (client i m)) (room : Z.of_nat n + 1 < usize_bound).

Lemma visit_counted i m :
  counted n m → (i < n)%nat → ∃ f m', visit w minimum_dt client i m = Ret (f, m') ∧ counted n m'.
Proof.
  intros C Hi. unfold visit. destruct (now w m) as [t m1] eqn:En.
  assert (C1 : counted n m1) by (pose proof (counted_now n m C) as C1; by rewrite En in C1).
  assert (Hg : get_virtual i m1 = get_virtual i m) by (unfold now in En; by injection En as _ <-).
  pose proof (get_virtual_lookup n m1 i C1 Hi) as Hv. rewrite Hg in Hv.
  destruct (armed (get_virtual i m)) eqn:Ha; cbn [andb]; [|by eexists _, _].
  destruct (negb _); [|by eexists _, _]. destruct C1 as [Hl He].
  destruct (extended _).
  - eexists _, _. split; [done|]. split; cbn; [by rewrite length_insert|].
    rewrite (armed_count_insert _ _ _ _ Hv), Ha. cbn. lia.
  - pose proof (armed_count_lookup _ _ _ Hv Ha). change (enabled (set_virtual i _ m1)) with (enabled m1).
    rewrite usub_ok by lia. cbn [mbind outcome_bind].
    set (m2 := with_enabled _ _).
    destruct (calls_counted n (client i m2) m2 room (client_counted _ _)) as (m3 & -> & C3).
    { split; cbn; [by rewrite length_insert|]. rewrite (armed_count_insert _ _ _ _ Hv), Ha. cbn. lia. }
    by eexists _, _.
Qed.

Lemma visit_from_counted k : ∀ i m, counted n m → (i + k ≤ n)%nat →
  ∃ log m', visit_from w minimum_dt client k i m = Ret (log, m') ∧ counted n m'.
Proof.
  induction k as [|k IH]; intros i m C Hk; cbn [visit_from]; [by eexists _, _|].
  destruct (visit_counted i m C ltac:(lia)) as (f & m1 & -> & C1). cbn [mbind outcome_bind].
  destruct (IH (S i) m1 C1 ltac:(lia)) as (log & m2 & -> & C2). cbn [mbind outcome_bind]. by eexists _, _.
Qed.

Lemma mux_alarm_counted m :
  counted n m → ∃ log m', mux_alarm w minimum_dt client m = Ret (log, m') ∧ counted n m'.
Proof.
  intros C. unfold mux_alarm.
  destruct (visit_from_counted (length (virtual_alarms (with_firing true m))) 0 (with_firing true m))
    as (log & m1 & -> & C1); [done|destruct C as [<- _]; done|]. cbn [mbind outcome_bind].
  destruct (now w (with_firing false m1)) as [t m2] eqn:En.
  assert (C2 : counted n m2) by (unfold now in En; injection En as _ <-; exact C1).
  eexists _, _. split; [done|]. by case_match.
Qed.

Definition counted_event (e : event) : Prop :=
  match e with Call c => counted_call n c | _ => True end.

(** The multiplexer never panics and its count of enabled alarms is the
    number of armed alarms, through any session of existing alarms in which no
    client is replaced, whatever clients do when they are called. *)
Theorem virtual_alarm_count es : ∀ m,
  counted n m → Forall counted_event es →
  ∃ log m', handle_all w minimum_dt client es m = Ret (log, m') ∧ counted n m'.
Proof.
  induction es as [|e es IH]; intros m C Hok; cbn [handle_all]; [by eexists _, _|].
  apply Forall_cons in Hok as [He Hok].
  assert (E : ∃ log m1, handle w minimum_dt client e m = Ret (log, m1) ∧ counted n m1).
  { destruct e as [d|c|]; cbn [handle].
    - by eexists _, _.
    - destruct (calls_counted n [c] m room) as (m1 & E & C1); [by constructor|done|]. cbn in E.
      destruct (call w minimum_dt c m); [|done]. injection E as ->. by eexists _, _.
    - by apply mux_alarm_counted. }
  destruct E as (log & m1 & -> & C1). cbn [mbind outcome_bind].
  destruct (IH m1 C1 Hok) as (log2 & m2 & -> & C2). cbn [mbind outcome_bind]. by eexists _, _.
Qed.

End count.

(** ** What the hardware is set to *)

Section hardware.
Context (w : Z) {T : Ticks} (minimum_dt : Z) (client : nat → MuxAlarm → list alarm_call).
Implicit Type m : MuxAlarm.

Lemma soonest_spec t vs :
  match soonest t vs with
  | Some v => v ∈ vs ∧ armed v = true ∧ ∀ u, u ∈ vs → armed u = true → time_left t v ≤ time_left t u
  | None => ∀ u, u ∈ vs → armed u = false
  end.
Proof.
  induction vs as [|v vs IH]; cbn [soonest]; [intros u Hu; by apply elem_of_nil in Hu|].
  destruct (armed v) eqn:Ha.
  - destruct (soonest t vs) as [x|].
    + destruct IH as (Hx & Hxa & Hmin). destruct (Z.ltb_spec (time_left t x) (time_left t v)).
      * split_and!; [by right|done|]. intros u [->|Hu]%elem_of_cons Hua; [lia|by apply Hmin].
      * split_and!; [by left|done|]. intros u [->|Hu]%elem_of_cons Hua; [lia|]. specialize (Hmin u Hu Hua). lia.
    + split_and!; [by left|done|]. intros u [->|Hu]%elem_of_cons Hua; [lia|]. rewrite IH in Hua by done. done.
  - destruct (soonest t vs) as [x|].
    + destruct IH as (Hx & Hxa & Hmin). split_and!; [by right|done|].
      intros u [->|Hu]%elem_of_cons Hua; [congruence|by apply Hmin].
    + intros u [->|Hu]%elem_of_cons; [done|by apply IH].
Qed.

(** When the hardware has fired and all due clients were called, it is
    programmed for an armed alarm with the least time left (an alarm that
    expired meanwhile has none left), or switched off when none is armed. *)
Theorem mux_alarm_programs_next m log m' :
  mux_alarm w minimum_dt client m = Ret (log, m') →
  let t := tick w (time (alarm m')) in
  firing m' = false ∧
  ((∃ v, v ∈ virtual_alarms m' ∧ armed v = true ∧ hw_armed (alarm m') = true ∧
     reference_last (alarm m') = reference (dt_reference v) ∧ dt_last (alarm m') = dt (dt_reference v) ∧
     next_tick_vals m' = Some (reference (dt_reference v), dt (dt_reference v)) ∧
     ∀ u, u ∈ virtual_alarms m' → armed u = true → time_left t v ≤ time_left t u) ∨
   ((∀ u, u ∈ virtual_alarms m' → armed u = false) ∧ hw_armed (alarm m') = false ∧ next_tick_vals m' = None)).
Proof.
  unfold mux_alarm. intros E. apply outcome_bind_Ret in E as ([log1 m1] & _ & E).
  destruct (now w (with_firing false m1)) as [t m2] eqn:En. injection E as <- <-.
  assert (Ht : t = tick w (time (alarm m2))) by (unfold now in En; by injection En as <- <-).
  assert (Hf : firing m2 = false) by (unfold now in En; by injection En as _ <-).
  pose proof (soonest_spec t (virtual_alarms m2)) as Hs. destruct (soonest t (virtual_alarms m2)) as [v|];
    cbn; split; try done; [left|right; by split_and!].
  destruct Hs as (H1 & H2 & H3). exists v. split_and!; try done. by rewrite <- Ht.
Qed.

Context {HT : TicksLaws w}.

(** The hardware is set for the true moment [H], which has not passed at [t]. *)
Definition hw_pending (m : MuxAlarm) (t H : Z) : Prop :=
  hw_armed (alarm m) = true ∧ is_tick w (dt_last (alarm m)) ∧
  next_tick_vals m = Some (reference_last (alarm m), dt_last (alarm m)) ∧
  ∃ R, tick w R = reference_last (alarm m) ∧ R ≤ time (alarm m) ∧ H = R + dt_last (alarm m) ∧ t < H.

Lemma set_alarm_prefix i r d m m1 :
  (if armed (get_virtual i m)
   then Ret (set_virtual i (mkVirtual (split_dt minimum_dt r d) (armed (get_virtual i m))) m)
   else n ← uadd (enabled m) 1;
        Ret (set_virtual i (mkVirtual (split_dt minimum_dt r d) true)
               (with_enabled n (set_virtual i (mkVirtual (split_dt minimum_dt r d) (armed (get_virtual i m))) m))))
  = Ret m1 → alarm m1 = alarm m ∧ firing m1 = firing m ∧ next_tick_vals m1 = next_tick_vals m.
Proof.
  destruct (armed (get_virtual i m)); [by intros [= <-]|]. intros E.
  apply outcome_bind_Ret in E as (n & _ & E). by injection E as <-.
Qed.

(** A new alarm set outside the multiplexer's own callback takes over the
    hardware exactly when it is due no later than the alarm the hardware
    waits for: afterwards the hardware waits for the earlier of the two. *)
Theorem set_alarm_keeps_earliest i r d m m' H :
  is_tick w r → is_tick w d → 0 ≤ minimum_dt < half_max_value →
  firing m = false → enabled m ≠ 0 → hw_pending m (time (alarm (now w m).2)) H → time (alarm m) ≤ time (alarm (now w m).2) →
  H < last_moment w (time (alarm m)) r + 2 ^ w →
  set_alarm w minimum_dt i r d m = Ret m' →
  let part := dt (split_dt minimum_dt r d) in
  hw_armed (alarm m') = true ∧
  (reference_last (alarm m'), dt_last (alarm m'))
  = if last_moment w (time (alarm m)) r + part <=? H then (r, part)
    else (reference_last (alarm m), dt_last (alarm m)).
Proof.
  intros Hr Hd Hmin Hf He (Harm & Hdl & Hnext & R & HR & HRt & HH & Htp) Hpass Hnear E part.
  unfold set_alarm in E. apply outcome_bind_Ret in E as (m1 & E1 & E).
  apply set_alarm_prefix in E1 as (Ea & Ef & En). fold part in E.
  destruct (Z.eqb_spec (enabled m) 0); [done|]. rewrite Ef, Hf in E.
  assert (Enow : now w m1 = (tick w (time (alarm (now w m).2)), with_hw (alarm (now w m).2) m1))
    by (unfold now; by rewrite Ea).
  rewrite Enow in E. set (t := time (alarm (now w m).2)) in *. clear Enow.
  unfold hw_get_alarm in E. rewrite Ea in E. cbn [next_tick_vals with_hw] in E. rewrite En, Hnext in E.
  destruct (last_moment_spec w (time (alarm m)) r Hr) as [Hm1 Hm2].
  set (L := last_moment w (time (alarm m)) r) in *.
  assert (Hpart : is_tick w part).
  { destruct (split_dt_due w minimum_dt Hmin (time (alarm m)) r d (mkVirtual (split_dt minimum_dt r d) true) Hr Hd eq_refl eq_refl)
      as (_ & ? & _ & _ & Hp & _). exact Hp. }
  assert (W1 : within_range (t_wrapping_add (reference_last (alarm m)) (dt_last (alarm m))) r (t_wrapping_add r part)
               = (H <? L + part)).
  { rewrite <- HR, (tick_add w), <- HH, <- Hm1. apply (window_exact w); [done|]. unfold is_tick in *. lia. }
  assert (W2 : within_range (tick w t) (reference_last (alarm m))
                 (t_wrapping_add (reference_last (alarm m)) (dt_last (alarm m))) = (t <? H)).
  { rewrite <- HR, HH. apply (window_exact w); [done|]. unfold is_tick in *. lia. }
  rewrite W1, W2 in E. destruct (Z.ltb_spec H (L + part)), (Z.leb_spec (L + part) H); try lia.
  - injection E as <-. cbn. by rewrite Harm.
  - destruct (Z.ltb_spec t H); [|lia]. injection E as <-. done.
Qed.

End hardware.

(** ** Alarms that are due are called *)

(** The alarm a call is about. *)
Definition target (c : alarm_call) : nat := match c with SetAlarm i _ _ | Disarm i | SetAlarmClient i => i end.

(** The clients called in a log. *)
Definition clients_called (log : list label) : list nat :=
  omap (λ l, match l with Fired i _ => Some i | Called _ => None end) log.

Section promptness.
Context (w : Z) {T : Ticks} {HT : TicksLaws w} (minimum_dt : Z) (client : nat → MuxAlarm → list alarm_call).
Implicit Type m : MuxAlarm.

Definition delays_ok m : Prop := Forall (λ d, 0 ≤ d) (delays (alarm m)).

Lemma get_set_other i j v m : i ≠ j → get_virtual i (set_virtual j v m) = get_virtual i m.
Proof. intros Hij. unfold get_virtual, set_virtual. cbn. by rewrite list_lookup_insert_ne. Qed.

(** Time goes on, and only the alarms called upon change. *)
Record later (i : nat) m m' : Prop := {
  later_time : time (alarm m) ≤ time (alarm m');
  later_delays : delays_ok m';
  later_same : get_virtual i m' = get_virtual i m;
  later_length : length (virtual_alarms m') = length (virtual_alarms m);
}.

Lemma later_refl i m : delays_ok m → later i m m.
Proof. by split. Qed.

Lemma later_trans i m1 m2 m3 : later i m1 m2 → later i m2 m3 → later i m1 m3.
Proof. intros [T1 D1 S1 L1] [T2 D2 S2 L2]. split; [lia|done|congruence|congruence]. Qed.

Lemma later_frame i m m1 m2 :
  later i m m1 → virtual_alarms m2 = virtual_alarms m1 → time (alarm m2) = time (alarm m1) → delays (alarm m2) = delays (alarm m1) → later i m m2.
Proof. intros [T1 D1 S1 L1] Hv Ht Hd. split; unfold delays_ok, get_virtual; rewrite ?Hv, ?Ht, ?Hd; done. Qed.

Lemma now_later i m n m' : delays_ok m → now w m = (n, m') → later i m m' ∧ n = tick w (time (alarm m')).
Proof.
  unfold delays_ok, now. intros Hd [= <- <-]. split; [|done].
  destruct (delays (alarm m)) as [|d ds] eqn:E; [split; unfold delays_ok; cbn; rewrite ?E; done || lia|].
  apply Forall_cons in Hd as [? ?]. split; unfold delays_ok; cbn; rewrite ?E; done || lia.
Qed.

Lemma set_later i j v m : delays_ok m → i ≠ j → later i m (set_virtual j v m).
Proof. intros Hd Hij. split; [done|done|by apply get_set_other|cbn; apply length_insert]. Qed.

Lemma call_later i c m m' : delays_ok m → target c ≠ i → call w minimum_dt c m = Ret m' → later i m m'.
Proof.
  intros Hd Hi E. destruct c as [j r d|j|j]; cbn in *.
  - unfold set_alarm in E. apply outcome_bind_Ret in E as (m1 & E1 & E).
    assert (L1 : later i m m1).
    { destruct (armed (get_virtual j m)); [injection E1 as <-; by apply set_later|].
      apply outcome_bind_Ret in E1 as (n & _ & E1). injection E1 as <-.
      set (m2 := set_virtual j (mkVirtual (split_dt minimum_dt r d) false) m).
      assert (L : later i m (with_enabled n m2)) by (apply (later_frame i m m2); [by apply set_later|done..]).
      eapply later_trans; [exact L|]. apply set_later; [apply L|done]. }
    destruct (_ =? 0); [injection E as <-; by eapply later_frame|]. destruct (firing m1); [by injection E as <-|].
    destruct (now w m1) as [n m2] eqn:En. destruct (now_later i _ _ _ (later_delays _ _ _ L1) En) as [L2 _].
    pose proof (later_trans _ _ _ _ L1 L2) as L3.
    destruct (within_range _ _ _) in E; [by injection E as <-|]. case_match; injection E as <-; [by eapply later_frame|done].
  - unfold disarm in E. destruct (negb _); [injection E as <-; by apply later_refl|].
    apply outcome_bind_Ret in E as (n & _ & E). injection E as <-.
    destruct (n =? 0); by eapply later_frame; [by apply (set_later i j)|..].
  - injection E as <-. by apply set_later.
Qed.

Lemma calls_later i cs : ∀ m m', delays_ok m → Forall (λ c, target c ≠ i) cs → calls w minimum_dt cs m = Ret m' → later i m m'.
Proof.
  induction cs as [|c cs IH]; intros m m' Hd Hc E; cbn in E; [injection E as <-; by apply later_refl|].
  apply Forall_cons in Hc as [Hc Hcs]. apply outcome_bind_Ret in E as (m1 & E1 & E).
  pose proof (call_later i c m m1 Hd Hc E1) as L1. eapply later_trans; [exact L1|]. eapply IH; [apply L1|done|done].
Qed.

Lemma calls_delays cs m m' : delays_ok m → calls w minimum_dt cs m = Ret m' → delays_ok m'.
Proof.
  intros Hd E. assert (L : later (S (max_list (map target cs))) m m'); [|by destruct L].
  apply calls_later with (cs := cs); [done| |done]. apply Forall_forall. intros c Hc.
  pose proof (max_list_elem_of_le (target c) (map target cs) ltac:(by apply list_elem_of_fmap_2)). lia.
Qed.

Lemma visit_delays j m seen m' : delays_ok m → visit w minimum_dt client j m = Ret (seen, m') → delays_ok m'.
Proof.
  intros Hd E. unfold visit in E. destruct (now w m) as [n m1] eqn:En. destruct (now_later 0 _ _ _ Hd En) as [[_ Hd1 _ _] _].
  destruct (_ && _); [|by injection E as <- <-]. destruct (extended _); [by injection E as <- <-|].
  apply outcome_bind_Ret in E as (n' & _ & E). apply outcome_bind_Ret in E as (m2 & E2 & E). injection E as <- <-.
  by eapply calls_delays; [|exact E2].
Qed.

Lemma visit_from_delays n : ∀ j m log m', delays_ok m → visit_from w minimum_dt client n j m = Ret (log, m') → delays_ok m'.
Proof.
  induction n as [|n IH]; intros j m log m' Hd E; cbn [visit_from] in E; [by injection E as <- <-|].
  apply outcome_bind_Ret in E as ([seen m1] & E1 & E). apply outcome_bind_Ret in E as ([log2 m2] & E2 & E). injection E as <- <-.
  eapply (IH (S j)); [by eapply visit_delays|exact E2].
Qed.

Context (i : nat) (others_leave_it : ∀ j m, j ≠ i → Forall (λ c, target c ≠ i) (client j m)).

Lemma visit_later j m seen m' : delays_ok m → j ≠ i → visit w minimum_dt client j m = Ret (seen, m') → later i m m'.
Proof.
  intros Hd Hj E. unfold visit in E. destruct (now w m) as [n m1] eqn:En. destruct (now_later i _ _ _ Hd En) as [L1 _].
  destruct (_ && _); [|by injection E as <- <-]. destruct (extended _).
  - injection E as <- <-. eapply later_trans; [exact L1|]. by apply set_later; [apply L1|].
  - apply outcome_bind_Ret in E as (n' & _ & E). apply outcome_bind_Ret in E as (m2 & E2 & E). injection E as <- <-.
    assert (L2 : later i m1 (with_enabled n' (set_virtual j (mkVirtual (dt_reference (get_virtual j m)) false) m1)))
      by (eapply later_frame; [apply (set_later i j); [apply L1|done]|done..]).
    eapply later_trans; [exact L1|]. eapply later_trans; [exact L2|]. eapply calls_later; [apply L2|by apply others_leave_it|exact E2].
Qed.

Lemma visit_from_later n : ∀ j m log m', delays_ok m → (i < j)%nat → visit_from w minimum_dt client n j m = Ret (log, m') → later i m m'.
Proof.
  induction n as [|n IH]; intros j m log m' Hd Hj E; cbn [visit_from] in E; [injection E as <- <-; by apply later_refl|].
  apply outcome_bind_Ret in E as ([seen m1] & E1 & E). apply outcome_bind_Ret in E as ([log2 m2] & E2 & E). injection E as <- <-.
  pose proof (visit_later j m seen m1 Hd ltac:(lia) E1) as L1. eapply later_trans; [exact L1|]. eapply (IH (S j)); [apply L1|lia|exact E2].
Qed.

(** An alarm whose time has come, seen in time: the counter has not gone round
    since its reference. *)
Context (R : Z) (v : VirtualMuxAlarm) (armed_v : armed v = true).
Context (R_reference : tick w R = reference (dt_reference v)) (dt_tick : is_tick w (dt (dt_reference v))).

(** What the pass does for it: its client is called, or its wait enters the
    second half. *)
Definition served (log : list label) m : Prop :=
  if extended (dt_reference v)
  then get_virtual i m = mkVirtual (mkTickDtReference (reference_plus_dt (dt_reference v)) half_max_value false) true
  else i ∈ clients_called log.

Lemma visit_serves m seen m' :
  delays_ok m → get_virtual i m = v → (i < length (virtual_alarms m))%nat → R + dt (dt_reference v) ≤ time (alarm m) →
  time (alarm m') < R + 2 ^ w → visit w minimum_dt client i m = Ret (seen, m') → served seen m'.
Proof.
  intros Hd Hv Hi Hdue Hb E. unfold visit in E. destruct (now w m) as [n m1] eqn:En. destruct (now_later i _ _ _ Hd En) as [L1 ->].
  rewrite Hv in *. unfold served. pose proof (later_time _ _ _ L1). pose proof (later_delays _ _ _ L1) as Hd1. rewrite armed_v in E. cbn [andb] in E.
  assert (Hw : time (alarm m1) < R + 2 ^ w → within_range (tick w (time (alarm m1))) (reference (dt_reference v)) (reference_plus_dt (dt_reference v)) = false).
  { intros Hb1. unfold reference_plus_dt. rewrite <- R_reference. rewrite (window_exact w) by (done || unfold is_tick in *; lia). apply Z.ltb_ge. lia. }
  destruct (within_range _ _ _) eqn:Wr; cbn [negb] in E; [injection E as <- <-; by specialize (Hw Hb)|].
  destruct (extended (dt_reference v)) eqn:Ex.
  - injection E as <- <-. unfold get_virtual, set_virtual. cbn. rewrite list_lookup_insert_eq; [done|]. by rewrite (later_length _ _ _ L1).
  - apply outcome_bind_Ret in E as (n' & _ & E). apply outcome_bind_Ret in E as (m2 & E2 & E). injection E as <- <-. by left.
Qed.

Lemma visit_from_serves n : ∀ j m log m',
  delays_ok m → (j ≤ i < j + n)%nat → (i < length (virtual_alarms m))%nat → get_virtual i m = v → R + dt (dt_reference v) ≤ time (alarm m) →
  time (alarm m') < R + 2 ^ w → visit_from w minimum_dt client n j m = Ret (log, m') → served log m'.
Proof.
  induction n as [|n IH]; intros j m log m' Hd Hj Hi Hv Hdue Hb E; cbn [visit_from] in E; [lia|].
  apply outcome_bind_Ret in E as ([seen m1] & E1 & E). apply outcome_bind_Ret in E as ([log2 m2] & E2 & E). injection E as <- <-.
  destruct (decide (j = i)) as [->|Hne].
  - pose proof (visit_from_later n (S i) m1 log2 m2 (visit_delays _ _ _ _ Hd E1) ltac:(lia) E2) as L2. pose proof (later_time _ _ _ L2).
    pose proof (visit_serves m seen m1 Hd Hv Hi Hdue ltac:(lia) E1) as Hs. unfold served in *.
    destruct (extended _); [by rewrite (later_same _ _ _ L2)|]. unfold clients_called. rewrite omap_app. apply elem_of_app. by left.
  - pose proof (visit_later j m seen m1 Hd Hne E1) as L1. assert (Hs : served log2 m2).
    { eapply (IH (S j) m1); [apply L1|lia|by rewrite (later_length _ _ _ L1)|by rewrite (later_same _ _ _ L1)|pose proof (later_time _ _ _ L1); lia|done|exact E2]. }
    unfold served in *. destruct (extended _); [done|]. unfold clients_called. rewrite omap_app. apply elem_of_app. by right.
Qed.

(** C23.  When the hardware has fired, every alarm whose time has come and that no
    other client sets or disarms is served in that pass: its client is called,
    or, when the wait is longer than half the counter, its second half begins.
    The pass must be over before the counter has gone round since the reference
    of the alarm. *)
Theorem due_alarm_served m log m' :
  delays_ok m → virtual_alarms m !! i = Some v → R + dt (dt_reference v) ≤ time (alarm m) →
  mux_alarm w minimum_dt client m = Ret (log, m') → time (alarm m') < R + 2 ^ w → served log m'.
Proof.
  intros Hd Hv Hdue E Hb. unfold mux_alarm in E. apply outcome_bind_Ret in E as ([log1 m1] & E1 & E).
  destruct (now w (with_firing false m1)) as [n m2] eqn:En. injection E as <- <-.
  assert (Hi : (i < length (virtual_alarms m))%nat) by (by eapply lookup_lt_Some).
  assert (Hd1 : delays_ok m1) by (eapply visit_from_delays; [|exact E1]; done).
  destruct (now_later i (with_firing false m1) n m2 Hd1 En) as [[Ht _ Hs _] _].
  change (time (alarm (with_firing false m1))) with (time (alarm m1)) in Ht.
  assert (Hb1 : time (alarm m1) < R + 2 ^ w) by (eapply Z.le_lt_trans; [exact Ht|]; revert Hb; by case_match).
  pose proof (visit_from_serves (length (virtual_alarms m)) 0 (with_firing true m) log1 m1 Hd ltac:(lia) Hi ltac:(unfold get_virtual; cbn; by rewrite Hv) Hdue Hb1 E1) as S1.
  unfold served in *. destruct (extended _); [|done]. change (get_virtual i (with_firing false m1)) with (get_virtual i m1) in Hs. rewrite <- S1, <- Hs. by case_match.
Qed.
End promptness.

(** ** Concrete sessions *)

Definition ex_virtual : VirtualMuxAlarm := VirtualMuxAlarm_new.
Definition ex_mux : MuxAlarm :=
  mkMux [ex_virtual; ex_virtual; ex_virtual] 0 (mkHwAlarm 4294967000 [3; 5; 2] 0 0 false) false None.

(** The client of the first alarm sets it again, the others do nothing. *)
Definition ex_client (i : nat) (m : MuxAlarm) : list alarm_call :=
  if (i =? 0)%nat then [SetAlarm 0 (tick 32 (time (alarm m))) 400] else [].

(** Across the wrap of the counter: alarm 0 after 400 ticks, alarm 1 after more
    than half the counter's range, alarm 2 disarmed in time. *)
Definition ex_session : list event :=
  [Call (SetAlarm 0 4294967000 400); Call (SetAlarm 1 4294967000 3000000000);
   Call (SetAlarm 2 4294967000 100); Call (Disarm 2);
   Pass 500; Fire; Pass 852516352; Fire; Pass 2147483648; Fire].

Lemma ex_rep : rep 32 (T := Ticks32) ex_mux (mkSpec 4294967000 [None; None; None]).
Proof. split; [done|repeat constructor; lia|repeat constructor]. Qed.

Lemma ex_client_ok i m : Forall (call_ok 32) (ex_client i m).
Proof.
  destruct i as [|i]; [|constructor]. apply Forall_singleton. split; [apply (tick_is_tick 32 (T := Ticks32))|].
  vm_compute. split; congruence.
Qed.

Lemma virtual_alarm_refines_spec_witness :
  ∃ log m' s', handle_all 32 (T := Ticks32) 1 ex_client ex_session ex_mux = Ret (log, m') ∧
    log = [Called (SetAlarm 0 4294967000 400); Called (SetAlarm 1 4294967000 3000000000); Called (SetAlarm 2 4294967000 100); Called (Disarm 2)] ++ drop 4 log ∧
    clients_called log = [0%nat; 0%nat; 0%nat; 1%nat] ∧
    spec_run 32 log (mkSpec 4294967000 [None; None; None]) s'.
Proof.
  destruct (handle_all 32 (T := Ticks32) 1 ex_client ex_session ex_mux) as [[log m']|] eqn:E;
    [|vm_compute in E; discriminate E].
  destruct (virtual_alarm_refines_spec 32 (T := Ticks32) 1 ltac:(vm_compute; split; congruence) ex_client ex_client_ok
              ex_session ex_mux (mkSpec 4294967000 [None; None; None]) log m')
    as (s' & S & _); [repeat constructor; vm_compute; congruence|exact ex_rep|exact E|].
  exists log, m', s'. split; [reflexivity|]. assert (L := E). vm_compute in L. injection L as L _. rewrite <- L in *. split; [reflexivity|]. split; [reflexivity|exact S].
Defined.

(** Alarms 0 and 1 are due when the hardware fires; the client of alarm 0 sets it
    again, alarm 1 is in the first half of its wait. *)
Lemma due_alarm_served_witness :
  ∃ log m', mux_alarm 32 (H := Ticks32) 1 ex_client
      (mkMux [mkVirtual (mkTickDtReference 100 50 false) true; mkVirtual (mkTickDtReference 120 20 true) true] 2
         (mkHwAlarm 160 [1; 2] 120 20 true) false (Some (120, 20))) = Ret (log, m') ∧
    0%nat ∈ clients_called log ∧ get_virtual 1 m' = mkVirtual (mkTickDtReference 140 2147483648 false) true.
Proof.
  set (m := mkMux _ _ _ _ _). destruct (mux_alarm 32 (H := Ticks32) 1 ex_client m) as [[log m']|] eqn:E;
    [|vm_compute in E; discriminate E].
  assert (Hd : delays_ok m) by (repeat constructor; lia).
  assert (Ht : time (alarm m') = 163) by (vm_compute in E; by injection E as <- <-).
  assert (Ho : ∀ i j m, j ≠ i → Forall (λ c, target c ≠ i) (ex_client j m)) by (intros i [|j] m0 Hj; cbn; repeat constructor; done).
  pose proof (due_alarm_served 32 (T := Ticks32) 1 ex_client 0 (Ho 0%nat) 100 (mkVirtual (mkTickDtReference 100 50 false) true)
    eq_refl eq_refl ltac:(vm_compute; split; congruence) m log m' Hd eq_refl ltac:(vm_compute; congruence) E ltac:(rewrite Ht; vm_compute; congruence)) as H0.
  pose proof (due_alarm_served 32 (T := Ticks32) 1 ex_client 1 (Ho 1%nat) 120 (mkVirtual (mkTickDtReference 120 20 true) true)
    eq_refl eq_refl ltac:(vm_compute; split; congruence) m log m' Hd eq_refl ltac:(vm_compute; congruence) E ltac:(rewrite Ht; vm_compute; congruence)) as H1.
  exists log, m'. split; [reflexivity|]. split; [exact H0|exact H1].
Defined.

Lemma virtual_alarm_count_witness :
  ∃ log m', handle_all 32 (T := Ticks32) 1 ex_client ex_session ex_mux = Ret (log, m') ∧ counted 3 m'.
Proof.
  apply (virtual_alarm_count 32 (T := Ticks32) 1 ex_client 3
           ltac:(intros [|i] m; cbn; repeat constructor; cbn; lia) ltac:(lia) ex_session ex_mux);
    [split; reflexivity|repeat constructor; cbn; lia].
Defined.

Lemma mux_alarm_programs_next_witness :
  ∃ log m', mux_alarm 32 (H := Ticks32) 1 ex_client
      (mkMux [mkVirtual (mkTickDtReference 100 50 false) true; mkVirtual (mkTickDtReference 120 20 false) true] 2
         (mkHwAlarm 130 [] 120 20 true) false (Some (120, 20))) = Ret (log, m') ∧
    firing m' = false ∧ reference_last (alarm m') = 120.
Proof.
  set (m := mkMux _ _ _ _ _). destruct (mux_alarm 32 (H := Ticks32) 1 ex_client m) as [[log m']|] eqn:E;
    [|vm_compute in E; discriminate E].
  destruct (mux_alarm_programs_next 32 (T := Ticks32) 1 ex_client m log m' E) as [Hf _].
  exists log, m'. split; [reflexivity|]. split; [exact Hf|]. clear Hf. vm_compute in E. injection E as <- <-. reflexivity.
Defined.

(** The hardware waits for 1500; a second alarm at 1400 takes over. *)
Lemma set_alarm_keeps_earliest_witness :
  ∃ m', set_alarm 32 (H := Ticks32) 1 1 1200 200
      (mkMux [mkVirtual (mkTickDtReference 1000 500 false) true; ex_virtual] 1
         (mkHwAlarm 1200 [10] 1000 500 true) false (Some (1000, 500))) = Ret m' ∧
    (reference_last (alarm m'), dt_last (alarm m')) = (1200, 200).
Proof.
  set (m := mkMux _ _ _ _ _). destruct (set_alarm 32 (H := Ticks32) 1 1 1200 200 m) as [m'|] eqn:E;
    [|vm_compute in E; discriminate E].
  destruct (set_alarm_keeps_earliest 32 (T := Ticks32) 1 1 1200 200 m m' 1500) as [_ Hs];
    [vm_compute; split; congruence|vm_compute; split; congruence|vm_compute; split; congruence|reflexivity|discriminate
    | |vm_compute; congruence|vm_compute; congruence|exact E|].
  { split; [reflexivity|]. split; [vm_compute; split; congruence|]. split; [reflexivity|].
    exists 1000. vm_compute. repeat split; congruence. }
  exists m'. split; [reflexivity|]. rewrite Hs. vm_compute. reflexivity.
Defined.

(** Replacing the client of an armed alarm can lose another alarm:
    [set_alarm_client] disarms without taking the alarm out of the count, so
    once the hardware has fired and was switched off, the next alarm is not the
    first one by the count; the multiplexer compares it with the value the
    hardware was last set to, takes that for an earlier pending alarm, and
    leaves the hardware off.  The new alarm is armed and never fires. *)
Theorem replaced_client_loses_alarm :
  ∃ log m', handle_all 32 (T := Ticks32) 1 (λ _ _, [])
      [Call (SetAlarm 0 1000 500); Call (SetAlarmClient 0); Pass 600; Fire; Call (SetAlarm 1 1400 10000)]
      (mkMux [ex_virtual; ex_virtual] 0 (mkHwAlarm 1000 [] 0 0 false) false None) = Ret (log, m') ∧ clients_called log = [] ∧
    armed (get_virtual 1 m') = true ∧ hw_armed (alarm m') = false ∧ enabled m' = 2.
Proof. eexists _, _. split; [vm_compute; reflexivity|]. split_and!; reflexivity. Qed.
