(* ===== verification/AlarmDriver.v ===== *)
(** * The alarm system call driver (capsules/core/src/alarm.rs)

    One alarm per process, kept in the process's grant, over one alarm of the
    multiplexer.  The state holds the grants' contents in the order the driver
    iterates over them; entering the caller's grant, which may fail, happens
    before a command and its result is an argument.  The driver sees 32-bit
    times, the alarm below may be wider.

    Theorems: the count of armed alarms; which alarm is programmed; which
    upcalls are scheduled when it fires. *)

From stdpp Require Import relations.
From S2P Require Import Prelude Syscall Time VirtualAlarm.

Inductive Expiration : Type :=
| ExpDisabled
| ExpEnabled (reference dt : Z).

Record AlarmDriver := mkAlarmDriver {
  num_armed : Z;
  app_alarms : list Expiration;
  next_alarm : Expiration;
  drv_alarm : HwAlarm;
}.

Section driver.
Context (w : Z) `{!Ticks}.
Context (frequency : Z).
Implicit Type a : AlarmDriver.

Definition with_hw_alarm (h : HwAlarm) a : AlarmDriver :=
  mkAlarmDriver (num_armed a) (app_alarms a) (next_alarm a) h.
Definition with_apps (es : list Expiration) a : AlarmDriver :=
  mkAlarmDriver (num_armed a) es (next_alarm a) (drv_alarm a).
Definition with_num_armed (n : Z) a : AlarmDriver :=
  mkAlarmDriver n (app_alarms a) (next_alarm a) (drv_alarm a).
Definition with_next_alarm (e : Expiration) a : AlarmDriver :=
  mkAlarmDriver (num_armed a) (app_alarms a) e (drv_alarm a).

(** The alarm below: reading the counter takes time. *)
Definition alarm_now a : Z * AlarmDriver :=
  let h := drv_alarm a in
  let t := time h + match delays h with d :: _ => d | [] => 0 end in
  (tick w t, with_hw_alarm (mkHwAlarm t (tail (delays h)) (reference_last h) (dt_last h) (hw_armed h)) a).
Definition alarm_set (r d : Z) a : AlarmDriver :=
  with_hw_alarm (mkHwAlarm (time (drv_alarm a)) (delays (drv_alarm a)) r d true) a.
Definition alarm_disarm a : AlarmDriver :=
  let h := drv_alarm a in
  with_hw_alarm (mkHwAlarm (time h) (delays h) (reference_last h) (dt_last h) false) a.

(** One step of the search for the first alarm to fire. *)
Definition consider (now_lower_bits : Z) (earliest current : Expiration) : Expiration :=
  match current with
  | ExpDisabled => earliest
  | ExpEnabled current_reference current_dt =>
      let current_end := t_wrapping_add (t_from_u32 current_reference) (t_from_u32 current_dt) in
      match earliest with
      | ExpDisabled => current
      | ExpEnabled reference dt =>
          let earliest_reference := t_from_u32 reference in
          let earliest_end := t_wrapping_add earliest_reference (t_from_u32 dt) in
          if within_range current_end earliest_reference earliest_end then current
          else if negb (within_range now_lower_bits earliest_reference earliest_end) then current
          else earliest
      end
  end.

(** The reference with the high bits of the counter. *)
Definition real_reference (now now_lower_bits reference : Z) : Z :=
  let high_bits := t_wrapping_sub now now_lower_bits in
  let high_bits :=
    if t_into_u32 now_lower_bits <? reference
    then t_wrapping_sub high_bits (t_wrapping_add (t_from_u32 4294967295) (t_from_u32 1))
    else high_bits in
  t_wrapping_add high_bits (t_from_u32 reference).

Definition reset_active_alarm a : AlarmDriver :=
  let '(now, a) := alarm_now a in
  let now_lower_bits := t_from_u32 (t_into_u32 now) in
  let earliest_alarm := fold_left (consider now_lower_bits) (app_alarms a) ExpDisabled in
  let a := with_next_alarm earliest_alarm a in
  match earliest_alarm with
  | ExpDisabled => alarm_disarm a
  | ExpEnabled reference dt =>
      alarm_set (real_reference now now_lower_bits reference) (t_from_u32 dt) a
  end.

(** [rearm] of process [i]. *)
Definition rearm (i : nat) (reference dt : Z) a : outcome (CommandReturn * bool * AlarmDriver) :=
  a ← match app_alarms a !! i with
      | Some ExpDisabled => n ← uadd (num_armed a) 1; Ret (with_num_armed n a)
      | _ => Ret a
      end;
  Ret (CommandReturn_success_u32 (wrapping_add reference dt), true,
       with_apps (<[i := ExpEnabled reference dt]> (app_alarms a)) a).

(** The closure of [command], with the grant of process [i] entered. *)
Definition command_in_grant (cmd_type data data2 : Z) (i : nat) a : outcome (CommandReturn * bool * AlarmDriver) :=
  let '(now, a) := alarm_now a in
  if cmd_type =? 0 then Ret (CommandReturn_success, false, a)
  else if cmd_type =? 1 then Ret (CommandReturn_success_u32 frequency, false, a)
  else if cmd_type =? 2 then Ret (CommandReturn_success_u32 (t_into_u32 now), false, a)
  else if cmd_type =? 3 then
    match app_alarms a !! i with
    | Some (ExpEnabled _ _) =>
        n ← usub (num_armed a) 1;
        Ret (CommandReturn_success, true,
             with_num_armed n (with_apps (<[i := ExpDisabled]> (app_alarms a)) a))
    | _ => Ret (CommandReturn_failure ALREADY, false, a)
    end
  else if cmd_type =? 4 then Ret (CommandReturn_failure NOSUPPORT, false, a)
  else if cmd_type =? 5 then rearm i (t_into_u32 now) data a
  else if cmd_type =? 6 then rearm i data data2 a
  else Ret (CommandReturn_failure NOSUPPORT, false, a).

Definition alarm_command (cmd_type data data2 : Z) (caller : result nat ErrorCode) a :
    outcome (CommandReturn * AlarmDriver) :=
  match caller with
  | Err e => Ret (CommandReturn_failure e, a)
  | Ok i =>
      '(result, reset, a) ← command_in_grant cmd_type data data2 i a;
      Ret (result, if (reset : bool) then reset_active_alarm a else a)
  end.

(** [AlarmClient::alarm]: an alarm outside its window expires and its upcall is
    scheduled; the log holds the process and the arguments of each upcall. *)
Definition expired (now : Z) (e : Expiration) : bool :=
  match e with
  | ExpDisabled => false
  | ExpEnabled reference dt =>
      negb (within_range (H := Ticks32) now reference (wrap32 (reference + dt)))
  end.

Fixpoint fire_from (now : Z) (i : nat) (es : list Expiration) (n : Z) :
    outcome (list Expiration * Z * list (nat * (Z * Z))) :=
  match es with
  | [] => Ret ([], n, [])
  | e :: es =>
      match e with
      | ExpEnabled reference dt =>
          if expired now e then
            n ← usub n 1;
            '(es, n, log) ← fire_from now (S i) es n;
            Ret (ExpDisabled :: es, n, (i, (now, wrap32 (reference + dt))) :: log)
          else '(es, n, log) ← fire_from now (S i) es n; Ret (e :: es, n, log)
      | ExpDisabled => '(es, n, log) ← fire_from now (S i) es n; Ret (e :: es, n, log)
      end
  end.

Definition alarm_fired a : outcome (list (nat * (Z * Z)) * AlarmDriver) :=
  let '(now, a) := alarm_now a in
  '(es, n, log) ← fire_from (t_into_u32 now) 0 (app_alarms a) (num_armed a);
  let a := with_num_armed n (with_apps es a) in
  Ret (log, if n =? 0 then alarm_disarm a else reset_active_alarm a).

End driver.

(** ** The count of armed alarms *)

Definition is_enabled (e : Expiration) : bool := match e with ExpEnabled _ _ => true | ExpDisabled => false end.

Fixpoint enabled_count (es : list Expiration) : Z :=
  match es with [] => 0 | e :: es => Z.b2z (is_enabled e) + enabled_count es end.

Lemma enabled_count_range es : 0 ≤ enabled_count es ≤ Z.of_nat (length es).
Proof. induction es as [|e es IH]; cbn; [lia|]. destruct (is_enabled e); cbn; lia. Qed.

Lemma enabled_count_insert es i e e' :
  es !! i = Some e → enabled_count (<[i := e']> es) = enabled_count es - Z.b2z (is_enabled e) + Z.b2z (is_enabled e').
Proof.
  revert i. induction es as [|x es IH]; intros i Hi; [done|]. destruct i as [|i]; cbn in Hi.
  - injection Hi as ->. cbn. lia.
  - change (<[S i := e']> (x :: es)) with (x :: <[i := e']> es). cbn [enabled_count]. rewrite (IH i) by done. lia.
Qed.

(** What a firing alarm does: the expired alarms are disabled and reported. *)
Definition after_fire (now : Z) (e : Expiration) : Expiration := if expired now e then ExpDisabled else e.

Definition upcall_of (now : Z) (i : nat) (e : Expiration) : list (nat * (Z * Z)) :=
  match e with
  | ExpEnabled reference dt => if expired now e then [(i, (now, wrap32 (reference + dt)))] else []
  | ExpDisabled => []
  end.

Lemma fire_from_spec now es : ∀ i n,
  enabled_count es ≤ n →
  ∃ k, 0 ≤ k ∧ fire_from now i es n
    = Ret (after_fire now <$> es, n - k, mjoin (imap (λ j, upcall_of now (i + j)) es)) ∧
    enabled_count (after_fire now <$> es) = enabled_count es - k.
Proof.
  induction es as [|e es IH]; intros i n Hn; cbn [fire_from].
  { exists 0. rewrite Z.sub_0_r. done. }
  assert (Himap : ∀ f : nat → Expiration → list (nat * (Z * Z)),
    mjoin (imap f (e :: es)) = f 0%nat e ++ mjoin (imap (λ j, f (S j)) es)) by done.
  assert (Hext : imap (λ j, upcall_of now (i + S j)) es = imap (λ j, upcall_of now (S i + j)) es)
    by (apply imap_ext; intros; f_equal; lia).
  rewrite Himap, Nat.add_0_r, Hext. rewrite fmap_cons. cbn [enabled_count] in *.
  destruct e as [|r d]; cbn [is_enabled Z.b2z upcall_of after_fire expired app] in *.
  - destruct (IH (S i) n) as (k & Hk & -> & Hc); [lia|]. exists k. split_and!; [done|done|]. cbn. lia.
  - destruct (negb _) eqn:Hx.
    + rewrite usub_ok by (pose proof (enabled_count_range es); lia). cbn [mbind outcome_bind].
      destruct (IH (S i) (n - 1)) as (k & Hk & -> & Hc); [lia|]. exists (k + 1). cbn [mbind outcome_bind].
      unfold after_fire at 2 4, expired. rewrite Hx. split_and!; [lia|f_equal; f_equal; f_equal; lia|]. cbn. lia.
    + destruct (IH (S i) n) as (k & Hk & -> & Hc); [lia|]. exists k.
      unfold after_fire at 2 4, expired. rewrite Hx. split_and!; [done|done|]. cbn. lia.
Qed.

Section invariant.
Context (w : Z) {T : Ticks} (frequency : Z).
Implicit Type a : AlarmDriver.

Definition driver_ok a : Prop :=
  num_armed a = enabled_count (app_alarms a) ∧ Z.of_nat (length (app_alarms a)) + 1 < usize_bound.

Lemma reset_active_alarm_frame a :
  num_armed (reset_active_alarm w a) = num_armed a ∧ app_alarms (reset_active_alarm w a) = app_alarms a.
Proof. unfold reset_active_alarm, alarm_now. cbn. by destruct (fold_left _ _ _). Qed.

Lemma rearm_ok i r d a :
  driver_ok a → (i < length (app_alarms a))%nat →
  ∃ res b a', rearm i r d a = Ret (res, b, a') ∧ driver_ok a'.
Proof.
  intros [Hn Hl] Hi. unfold rearm. destruct (lookup_lt_is_Some_2 _ _ Hi) as [e He]. rewrite He.
  pose proof (enabled_count_range (app_alarms a)). unfold driver_ok.
  destruct e as [|r' d'].
  - rewrite uadd_ok by lia. cbn [mbind outcome_bind]. eexists _, _, _. split; [done|]. cbn.
    rewrite length_insert, (enabled_count_insert _ _ _ _ He). cbn. lia.
  - cbn [mbind outcome_bind]. eexists _, _, _. split; [done|]. cbn.
    rewrite length_insert, (enabled_count_insert _ _ _ _ He). cbn. lia.
Qed.

Lemma command_in_grant_ok c d1 d2 i a :
  driver_ok a → (i < length (app_alarms a))%nat →
  ∃ res b a', command_in_grant w frequency c d1 d2 i a = Ret (res, b, a') ∧ driver_ok a'.
Proof.
  intros Ok Hi. unfold command_in_grant. destruct (alarm_now w a) as [t a1] eqn:En.
  assert (Ok1 : driver_ok a1 ∧ app_alarms a1 = app_alarms a) by (unfold alarm_now in En; by injection En as _ <-).
  destruct Ok1 as [Ok1 Ea]. rewrite <- Ea in Hi. clear Ok Ea En.
  do 3 (case_match; [by eexists _, _, _|]). case_match.
  { destruct (lookup_lt_is_Some_2 _ _ Hi) as [e He]. rewrite He. destruct e as [|r d]; [by eexists _, _, _|].
    destruct Ok1 as [Hn Hl]. pose proof (enabled_count_insert _ _ _ ExpDisabled He) as Hc. cbn in Hc.
    pose proof (enabled_count_range (<[i := ExpDisabled]> (app_alarms a1))).
    rewrite usub_ok by lia. eexists _, _, _. split; [done|]. unfold driver_ok. cbn. rewrite length_insert. lia. }
  case_match; [by eexists _, _, _|]. do 2 (case_match; [by apply rearm_ok|]). by eexists _, _, _.
Qed.

(** The alarm driver never panics and counts its armed alarms exactly:
    whatever commands processes send, with grants that can be entered or not,
    and whenever the alarm fires, [num_armed] is the number of processes with
    an alarm set. *)
Theorem alarm_driver_count a :
  driver_ok a →
  (∀ c d1 d2 caller, (∀ i, caller = Ok i → (i < length (app_alarms a))%nat) →
     ∃ res a', alarm_command w frequency c d1 d2 caller a = Ret (res, a') ∧ driver_ok a') ∧
  (∃ log a', alarm_fired w a = Ret (log, a') ∧ driver_ok a').
Proof.
  intros Ok. split.
  - intros c d1 d2 caller Hi. unfold alarm_command. destruct caller as [i|e]; [|by eexists _, _].
    destruct (command_in_grant_ok c d1 d2 i a Ok (Hi i eq_refl)) as (res & b & a1 & -> & Ok1).
    cbn [mbind outcome_bind]. eexists _, _. split; [done|]. destruct b; [|done].
    unfold driver_ok in *. by destruct (reset_active_alarm_frame a1) as [-> ->].
  - unfold alarm_fired. destruct (alarm_now w a) as [t a1] eqn:En.
    assert (Ok1 : driver_ok a1) by (unfold alarm_now in En; by injection En as _ <-). destruct Ok1 as [Hn Hl].
    destruct (fire_from_spec (t_into_u32 t) (app_alarms a1) 0 (num_armed a1)) as (k & Hk & -> & Hc); [lia|].
    cbn [mbind outcome_bind]. eexists _, _. split; [done|].
    assert (Ok2 : driver_ok (with_num_armed (num_armed a1 - k) (with_apps (after_fire (t_into_u32 t) <$> app_alarms a1) a1))).
    { unfold driver_ok. cbn. rewrite length_fmap. lia. }
    destruct (_ =? 0); [done|]. unfold driver_ok in *. by destruct (reset_active_alarm_frame
      (with_num_armed (num_armed a1 - k) (with_apps (after_fire (t_into_u32 t) <$> app_alarms a1) a1))) as [-> ->].
Qed.

(** When the alarm fires, exactly the processes whose window has passed
    get an upcall, with the time and the moment they asked for, and their
    alarms are disabled; an alarm is never reported before reference + dt. *)
Theorem alarm_fired_upcalls a log a' :
  driver_ok a → alarm_fired w a = Ret (log, a') →
  let now := t_into_u32 (alarm_now w a).1 in
  app_alarms a' = after_fire now <$> app_alarms a ∧
  log = mjoin (imap (upcall_of now) (app_alarms a)) ∧
  (∀ i t e, (i, (t, e)) ∈ log → ∃ r d, app_alarms a !! i = Some (ExpEnabled r d) ∧ t = now ∧
     e = wrap32 (r + d) ∧ (0 ≤ d < 2 ^ 32 → d ≤ (now - r) mod 2 ^ 32)).
Proof.
  intros [Hn Hl] E now. unfold alarm_fired in E.
  assert (Ea : alarm_now w a = ((alarm_now w a).1, (alarm_now w a).2)) by done. rewrite Ea in E. fold now in E.
  assert (Es : app_alarms (alarm_now w a).2 = app_alarms a ∧ num_armed (alarm_now w a).2 = num_armed a) by done.
  destruct Es as [Es1 Es2]. rewrite Es1, Es2 in E.
  destruct (fire_from_spec now (app_alarms a) 0 (num_armed a)) as (k & _ & Ef & _); [lia|]. rewrite Ef in E.
  cbn [mbind outcome_bind] in E. injection E as <- <-. split_and!; [|done|].
  - destruct (_ =? 0); [done|]. by rewrite (proj2 (reset_active_alarm_frame _)).
  - intros i t e Hin. apply list_elem_of_join in Hin as (l & Hin & Hl').
    apply list_elem_of_lookup_1 in Hl' as [j Hj]. rewrite list_lookup_imap in Hj.
    destruct (app_alarms a !! j) as [x|] eqn:Hx; [|done]. cbn in Hj. injection Hj as <-.
    destruct x as [|r d]; cbn in Hin; [by apply elem_of_nil in Hin|].
    destruct (negb _) eqn:Hw; [|by apply elem_of_nil in Hin]. apply list_elem_of_singleton in Hin as [= -> -> ->].
    exists r, d. split_and!; [done|done|done|]. intros Hd. apply negb_true_iff in Hw.
    unfold within_range in Hw. cbn in Hw. apply Z.ltb_ge in Hw. unfold wrap32 in Hw.
    rewrite Zminus_mod_idemp_l in Hw. replace (r + d - r) with d in Hw by lia.
    by rewrite (Z.mod_small d) in Hw.
Qed.

End invariant.

(** ** Which alarm is programmed (32-bit counters) *)

Section choice.
#[local] Existing Instance Ticks32.

(** Time left of an alarm that has not expired. *)
Definition remaining (now : Z) (e : Expiration) : Z :=
  match e with ExpEnabled r d => (r + d - now) mod 2 ^ 32 | ExpDisabled => 0 end.

(** A disabled alarm, or a pending one of at most half the counter. *)
Definition pending_ok (now : Z) (e : Expiration) : Prop :=
  match e with
  | ExpEnabled r d => 0 ≤ d ≤ 2 ^ 31 ∧ expired now e = false
  | ExpDisabled => True
  end.

Lemma window32 x r d :
  0 ≤ d < 2 ^ 32 → within_range x r (t_wrapping_add r d) = ((x - r) mod 2 ^ 32 <? d).
Proof.
  intros Hd. unfold within_range. cbn. unfold wrap32. rewrite Zminus_mod_idemp_l.
  replace (r + d - r) with d by lia. by rewrite (Z.mod_small d).
Qed.

Lemma pending_remaining now r d :
  pending_ok now (ExpEnabled r d) →
  0 ≤ (now - r) mod 2 ^ 32 < d ∧ remaining now (ExpEnabled r d) = d - (now - r) mod 2 ^ 32.
Proof.
  intros [Hd Hx]. cbn [expired] in Hx. apply negb_false_iff in Hx.
  change (wrap32 (r + d)) with (t_wrapping_add r d) in Hx. rewrite window32 in Hx by lia. apply Z.ltb_lt in Hx.
  pose proof (Z.mod_pos_bound (now - r) (2 ^ 32) ltac:(lia)). split; [lia|]. cbn [remaining].
  replace (r + d - now) with (d - (now - r)) by lia. rewrite <- Zminus_mod_idemp_r. apply Z.mod_small. lia.
Qed.

Lemma consider_pending now r d r' d' :
  pending_ok now (ExpEnabled r d) → pending_ok now (ExpEnabled r' d') →
  consider now (ExpEnabled r d) (ExpEnabled r' d')
  = if remaining now (ExpEnabled r' d') <? remaining now (ExpEnabled r d)
    then ExpEnabled r' d' else ExpEnabled r d.
Proof.
  intros H H'. pose proof (pending_remaining _ _ _ H) as [Ha Hr]. pose proof (pending_remaining _ _ _ H') as [Ha' Hr'].
  destruct H as [Hd _], H' as [Hd' _]. unfold consider. cbn [t_from_u32 Ticks32].
  change (@t_from_u32 Ticks32) with (λ v : Z, v). cbn beta.
  rewrite !window32 by lia. cbn [t_wrapping_add Ticks32]. unfold wrap32. change 4294967296 with (2 ^ 32).
  rewrite Zminus_mod_idemp_l, Hr, Hr'.
  set (a := (now - r) mod 2 ^ 32) in *. set (a' := (now - r') mod 2 ^ 32) in *.
  assert (E : (r' + d' - r) mod 2 ^ 32 = a + (d' - a')).
  { replace (r' + d' - r) with (now - r + (d' - (now - r'))) by lia. rewrite Zplus_mod.
    rewrite <- (Zminus_mod_idemp_r d'). fold a a'. rewrite Zplus_mod_idemp_r. apply Z.mod_small. lia. }
  rewrite E. destruct (Z.ltb_spec (a + (d' - a')) d), (Z.ltb_spec (d' - a') (d - a)); try lia; [done|].
  destruct (Z.ltb_spec a d); [done|lia].
Qed.

(** The search keeps the alarm with the least time left. *)
Lemma search_earliest now es : ∀ e,
  pending_ok now e → Forall (pending_ok now) es →
  let c := fold_left (consider now) es e in
  pending_ok now c ∧ (c = e ∨ c ∈ es) ∧
  (c = ExpDisabled → e = ExpDisabled ∧ ∀ x, x ∈ es → x = ExpDisabled) ∧
  ∀ x, (x = e ∨ x ∈ es) → is_enabled x = true → remaining now c ≤ remaining now x.
Proof.
  induction es as [|y es IH]; intros e He Hes; cbn [fold_left].
  { split_and!; [done|by left| |].
    - intros ->. split; [done|]. intros x Hx. by apply elem_of_nil in Hx.
    - intros x [->|Hx] _; [done|by apply elem_of_nil in Hx]. }
  apply Forall_cons in Hes as [Hy Hes].
  assert (S : pending_ok now (consider now e y) ∧ (consider now e y = e ∨ consider now e y = y) ∧
    (consider now e y = ExpDisabled → e = ExpDisabled ∧ y = ExpDisabled) ∧
    ∀ x, x = e ∨ x = y → is_enabled x = true →
      is_enabled (consider now e y) = true ∧ remaining now (consider now e y) ≤ remaining now x).
  { destruct y as [|r' d']; [cbn; naive_solver|]. destruct e as [|r d]; [cbn; naive_solver|].
    rewrite consider_pending by done.
    destruct (Z.ltb_spec (remaining now (ExpEnabled r' d')) (remaining now (ExpEnabled r d)));
      split_and!; auto; try done; intros x [->| ->] _; split; try done; lia. }
  destruct S as (S1 & S2 & S3 & S4). destruct (IH _ S1 Hes) as (I1 & I2 & I3 & I4).
  split_and!; [done| | |].
  - destruct I2 as [I2|Hin]; [|by right; right]. rewrite I2.
    destruct S2 as [-> | ->]; [by left|by right; left].
  - intros Hc. destruct (I3 Hc) as [Hd Hall]. destruct (S3 Hd) as [-> ->]. split; [done|].
    intros x [->|Hx]%elem_of_cons; [done|by apply Hall].
  - intros x Hx Hen. rewrite elem_of_cons in Hx.
    destruct Hx as [H|[H|H]].
    + destruct (S4 x) as [Hc Hle]; [by left|done|]. etrans; [apply I4; [by left|done]|done].
    + destruct (S4 x) as [Hc Hle]; [by right|done|]. etrans; [apply I4; [by left|done]|done].
    + apply I4; [by right|done].
Qed.

(** The driver programs the right alarm as long as none has expired and
    none is longer than half the counter: after [reset_active_alarm] the
    hardware waits for a process alarm with the least time left, or is off
    when no process has one. *)
Theorem reset_active_alarm_earliest a :
  let now := (alarm_now 32 a).1 in
  let a' := reset_active_alarm 32 a in
  Forall (pending_ok now) (app_alarms a) →
  (next_alarm a' = ExpDisabled ∧ hw_armed (drv_alarm a') = false ∧ ∀ e, e ∈ app_alarms a → e = ExpDisabled) ∨
  (∃ r d, next_alarm a' = ExpEnabled r d ∧ ExpEnabled r d ∈ app_alarms a ∧ hw_armed (drv_alarm a') = true ∧
     dt_last (drv_alarm a') = d ∧
     ∀ e, e ∈ app_alarms a → is_enabled e = true → remaining now (ExpEnabled r d) ≤ remaining now e).
Proof.
  intros now a' Hp. unfold a', reset_active_alarm.
  assert (Ea : alarm_now 32 a = (now, (alarm_now 32 a).2)) by done. rewrite Ea. clear Ea.
  cbn [t_from_u32 t_into_u32 Ticks32]. change (app_alarms (alarm_now 32 a).2) with (app_alarms a).
  destruct (search_earliest now (app_alarms a) ExpDisabled I Hp) as (_ & Hc & Hd & Hmin).
  set (c := fold_left (consider now) (app_alarms a) ExpDisabled) in *. destruct c as [|r d].
  - left. split_and!; [done|done|]. by apply Hd.
  - right. exists r, d. split_and!; [done| |done|done|].
    + by destruct Hc.
    + intros e He Hen. apply Hmin; [by right|done].
Qed.

(** An expired alarm is forgotten when it is passed over in the search:
    once the first alarm has expired, any later alarm whose end is not inside
    its window replaces it, so the hardware is programmed for the later alarm
    and the expired one waits until that fires. *)
Theorem reset_active_alarm_skips_expired a r d r' d' :
  app_alarms a = [ExpEnabled r d; ExpEnabled r' d'] → 0 ≤ d < 2 ^ 32 →
  let now := (alarm_now 32 a).1 in
  expired now (ExpEnabled r d) = true → expired now (ExpEnabled r' d') = false →
  let a' := reset_active_alarm 32 a in
  next_alarm a' = ExpEnabled r' d' ∧ dt_last (drv_alarm a') = d' ∧ app_alarms a' = app_alarms a.
Proof.
  intros Hes Hd now Hx Hx' a'. unfold a', reset_active_alarm.
  assert (Ea : alarm_now 32 a = (now, (alarm_now 32 a).2)) by done. rewrite Ea. clear Ea.
  cbn [t_from_u32 t_into_u32 Ticks32]. change (app_alarms (alarm_now 32 a).2) with (app_alarms a). rewrite Hes.
  assert (Hc : fold_left (consider now) [ExpEnabled r d; ExpEnabled r' d'] ExpDisabled = ExpEnabled r' d').
  { cbn [fold_left]. cbn [expired] in Hx. apply negb_true_iff in Hx.
    change (wrap32 (r + d)) with (t_wrapping_add r d) in Hx. unfold consider.
    change (@t_from_u32 Ticks32) with (λ v : Z, v). cbn beta. rewrite Hx. by case_match. }
  by rewrite Hc.
Qed.

End choice.

(** A counter wider than 32 bits: the reference handed to the alarm below
    is the last moment up to now whose low 32 bits are the process's
    reference, so a reference taken before the low half wrapped is not moved
    into the future. *)
Theorem real_reference_64 (now reference : Z) :
  0 ≤ now < 2 ^ 64 → 0 ≤ reference < 2 ^ 32 →
  let real := real_reference (H := Ticks64) now (wrap32 now) reference in
  real = (now - (now - reference) mod 2 ^ 32) mod 2 ^ 64 ∧
  real mod 2 ^ 32 = reference.
Proof.
  intros Hn Hr. unfold real_reference. cbn [t_wrapping_sub t_wrapping_add t_from_u32 t_into_u32 Ticks64].
  unfold wrap64, wrap32. change 4294967296 with (2 ^ 32). rewrite Z.mod_mod by lia.
  set (lo := now mod 2 ^ 32). pose proof (Z.mod_pos_bound now (2 ^ 32) ltac:(lia)) as Hlo. fold lo in Hlo.
  pose proof (Z.div_mod now (2 ^ 32) ltac:(lia)) as Hdm. fold lo in Hdm. set (hi := now / 2 ^ 32) in *.
  rewrite (Z.mod_small (4294967295 + 1)) by lia. rewrite (Z.mod_small (now - lo)) by lia.
  assert (Hm : (now - reference) mod 2 ^ 32 = if lo <? reference then lo - reference + 2 ^ 32 else lo - reference).
  { rewrite Hdm. destruct (Z.ltb_spec lo reference).
    - replace (2 ^ 32 * hi + lo - reference) with (lo - reference + 2 ^ 32 + (hi - 1) * 2 ^ 32) by lia.
      rewrite Z.mod_add by lia. apply Z.mod_small. lia.
    - replace (2 ^ 32 * hi + lo - reference) with (lo - reference + hi * 2 ^ 32) by lia.
      rewrite Z.mod_add by lia. apply Z.mod_small. lia. }
  rewrite Hm. assert (Hreal : (if lo <? reference then (now - lo - (4294967295 + 1)) mod 2 ^ 64 else now - lo) + reference
    = (if lo <? reference then (now - lo - 2 ^ 32) mod 2 ^ 64 else now - lo) + reference) by done.
  rewrite Hreal. clear Hreal.
  assert (E : ((if lo <? reference then (now - lo - 2 ^ 32) mod 2 ^ 64 else now - lo) + reference) mod 2 ^ 64
    = (now - (if lo <? reference then lo - reference + 2 ^ 32 else lo - reference)) mod 2 ^ 64).
  { destruct (lo <? reference); [rewrite Zplus_mod_idemp_l|]; f_equal; lia. }
  rewrite E. split; [done|].
  rewrite mod_mod_pow by lia. destruct (Z.ltb_spec lo reference).
  - replace (now - (lo - reference + 2 ^ 32)) with (reference + (hi - 1) * 2 ^ 32) by lia.
    rewrite Z.mod_add by lia. by apply Z.mod_small.
  - replace (now - (lo - reference)) with (reference + hi * 2 ^ 32) by lia.
    rewrite Z.mod_add by lia. by apply Z.mod_small.
Qed.

Lemma real_reference_64_witness :
  let real := real_reference (H := Ticks64) 8589934600 (wrap32 8589934600) 4294967000 in
  real = 8589934296 ∧ real mod 2 ^ 32 = 4294967000.
Proof.
  destruct (real_reference_64 8589934600 4294967000) as [E1 E2]; [lia..|]. cbn zeta. rewrite E1.
  split; vm_compute; reflexivity.
Defined.

(** ** Concrete drivers *)

Definition ex_driver (es : list Expiration) (t : Z) : AlarmDriver :=
  mkAlarmDriver (enabled_count es) es ExpDisabled (mkHwAlarm t [7] 0 0 false).

Lemma alarm_driver_count_witness :
  (∃ res a', alarm_command 32 (H := Ticks32) 32768 5 400 0 (Ok 1%nat) (ex_driver [ExpDisabled; ExpDisabled] 1000)
             = Ret (res, a') ∧ driver_ok a') ∧
  (∃ log a', alarm_fired 32 (H := Ticks32) (ex_driver [ExpEnabled 0 500; ExpDisabled] 1000) = Ret (log, a') ∧ driver_ok a').
Proof.
  split.
  - apply (proj1 (alarm_driver_count 32 (T := Ticks32) 32768 (ex_driver [ExpDisabled; ExpDisabled] 1000)
                    ltac:(split; vm_compute; congruence))). intros i [= <-]. cbn. lia.
  - exact (proj2 (alarm_driver_count 32 (T := Ticks32) 32768 (ex_driver [ExpEnabled 0 500; ExpDisabled] 1000)
                    ltac:(split; vm_compute; congruence))).
Defined.

Lemma alarm_fired_upcalls_witness :
  ∃ log a', alarm_fired 32 (H := Ticks32) (ex_driver [ExpEnabled 900 500; ExpEnabled 4294967000 400] 1000)
      = Ret (log, a') ∧
    log = [(1%nat, (1007, 104))] ∧ app_alarms a' = [ExpEnabled 900 500; ExpDisabled].
Proof.
  destruct (alarm_fired 32 (H := Ticks32) (ex_driver [ExpEnabled 900 500; ExpEnabled 4294967000 400] 1000))
    as [[log a']|] eqn:E; [|vm_compute in E; discriminate E].
  destruct (alarm_fired_upcalls 32 (T := Ticks32) (ex_driver [ExpEnabled 900 500; ExpEnabled 4294967000 400] 1000)
              log a' ltac:(split; vm_compute; congruence) E) as (H1 & H2 & _).
  exists log, a'. split; [reflexivity|]. split; [rewrite H2|rewrite H1]; vm_compute; reflexivity.
Defined.

Lemma reset_active_alarm_earliest_witness :
  let a := ex_driver [ExpEnabled 900 500; ExpEnabled 1000 100; ExpDisabled] 1000 in
  next_alarm (reset_active_alarm 32 (H := Ticks32) a) = ExpEnabled 1000 100 ∧
  ∃ r d, next_alarm (reset_active_alarm 32 (H := Ticks32) a) = ExpEnabled r d ∧
    remaining 1007 (ExpEnabled r d) ≤ remaining 1007 (ExpEnabled 900 500).
Proof.
  intros a. split; [vm_compute; reflexivity|].
  assert (Hp : Forall (pending_ok (alarm_now 32 a).1) (app_alarms a)).
  { apply Forall_cons_2; [vm_compute; repeat split; congruence|].
    apply Forall_cons_2; [vm_compute; repeat split; congruence|]. by apply Forall_singleton. }
  pose proof (reset_active_alarm_earliest a) as H. cbn zeta in H. specialize (H Hp).
  destruct H as [(_ & _ & Hall)|(r & d & Hn & _ & _ & _ & Hmin)].
  - specialize (Hall (ExpEnabled 900 500) ltac:(left)). discriminate Hall.
  - exists r, d. split; [exact Hn|]. apply (Hmin (ExpEnabled 900 500)); [left|reflexivity].
Defined.

(** The first alarm expired at 900; the driver programs one that ends at 9000. *)
Lemma reset_active_alarm_skips_expired_witness :
  let a' := reset_active_alarm 32 (H := Ticks32) (ex_driver [ExpEnabled 800 100; ExpEnabled 1000 8000] 1000) in
  next_alarm a' = ExpEnabled 1000 8000 ∧ dt_last (drv_alarm a') = 8000.
Proof.
  destruct (reset_active_alarm_skips_expired (ex_driver [ExpEnabled 800 100; ExpEnabled 1000 8000] 1000)
              800 100 1000 8000 eq_refl ltac:(lia) ltac:(vm_compute; reflexivity) ltac:(vm_compute; reflexivity))
    as (H1 & H2 & _). split; [exact H1|exact H2].
Defined.
