(* ===== verification/DeferredCall.v ===== *)
(** * Deferred calls: kernel/src/deferred_call.rs

    A driver that has to call its client back outside the call it is serving
    schedules a deferred call; the kernel loop services one at a time.  The three
    static cells are the record [DeferredCalls]; a handler is the name of its
    client, and what a client does when it is called is an argument: it may
    schedule deferred calls itself. *)

From stdpp Require Import gmap sorting.
From S2P Require Import Prelude Bytes.

(** ** The code *)

Definition NUM_DEFCALLS : Z := 32.

Record DeferredCalls := mkDefCalls { CTR : Z; BITMASK : Z; DEFCALLS : list (option Z) }.

(** The statics before the board starts. *)
Definition defcalls_init : DeferredCalls := mkDefCalls 0 0 (replicate (Z.to_nat NUM_DEFCALLS) None).

(** [DeferredCall::new]: a [DeferredCall] is its index. *)
Definition DeferredCall_new (d : DeferredCalls) : outcome (Z * DeferredCalls) :=
  idx ← uadd (CTR d) 1;
  Ret (idx, mkDefCalls idx (BITMASK d) (DEFCALLS d)).

(** [register]; [register_internal_non_generic] drops handlers beyond the
    array. *)
Definition DeferredCall_register (idx handler : Z) (d : DeferredCalls) : DeferredCalls :=
  if zlen (DEFCALLS d) <=? idx then d
  else mkDefCalls (CTR d) (BITMASK d) (<[Z.to_nat idx := Some handler]> (DEFCALLS d)).

(** [1 << idx] on a [u32]: a shift by the width or more overflows, and without
    checks the amount is taken modulo the width. *)
Definition bit_of {Pr : Profile} (idx : Z) : outcome Z :=
  if idx <? 32 then Ret (Z.shiftl 1 idx) else if overflow_checks then Panic else Ret (Z.shiftl 1 (idx mod 32)).

Definition DeferredCall_set {Pr : Profile} (idx : Z) (d : DeferredCalls) : outcome DeferredCalls :=
  b ← bit_of idx;
  Ret (mkDefCalls (CTR d) (Z.lor (BITMASK d) b) (DEFCALLS d)).

Definition is_pending {Pr : Profile} (idx : Z) (d : DeferredCalls) : outcome bool :=
  b ← bit_of idx;
  Ret (Z.land (BITMASK d) b =? 1).

(** [u32::trailing_zeros]. *)
Definition trailing_zeros (val : Z) : Z := default 32 (find (Z.testbit val) (seqZ 0 32)).

Definition has_tasks (d : DeferredCalls) : bool := negb (BITMASK d =? 0).

Definition verify_setup (d : DeferredCalls) : outcome unit :=
  let num_deferred_calls := CTR d in
  if (zlen (DEFCALLS d) <=? num_deferred_calls)
     || negb (zlen (filter is_Some (DEFCALLS d)) =? num_deferred_calls)
  then Panic else Ret tt.

Section service.
Context {Pr : Profile} {Ext : Type}.
(** What a client does when its deferred call is handled. *)
Context (handle : Z → Ext * DeferredCalls → outcome (Ext * DeferredCalls)).

Definition service_next_pending (e : Ext) (d : DeferredCalls) : outcome (option Z * Ext * DeferredCalls) :=
  let val := BITMASK d in
  if val =? 0 then Ret (None, e, d)
  else
    let bit := trailing_zeros val in
    b ← bit_of bit;
    let new_val := Z.land val (Z.lnot b) in
    let d := mkDefCalls (CTR d) new_val (DEFCALLS d) in
    dc ← index_get (DEFCALLS d) bit;
    match dc with
    | None => Ret (None, e, d)
    | Some client => '(e, d) ← handle client (e, d); Ret (Some bit, e, d)
    end.

(** [Scheduler::execute_kernel_work]: interrupts first, then deferred calls
    until an interrupt is pending; [None] is out of fuel. *)
Context (service_pending_interrupts : Ext * DeferredCalls → outcome (Ext * DeferredCalls)).
Context (has_pending_interrupts : Ext → bool).

Fixpoint deferred_loop (fuel : nat) (e : Ext) (d : DeferredCalls) : outcome (option (Ext * DeferredCalls)) :=
  match fuel with
  | O => Ret None
  | S fuel =>
      if has_tasks d && negb (has_pending_interrupts e) then
        '(_, e, d) ← service_next_pending e d;
        deferred_loop fuel e d
      else Ret (Some (e, d))
  end.

Definition execute_kernel_work (fuel : nat) (e : Ext) (d : DeferredCalls)
    : outcome (option (Ext * DeferredCalls)) :=
  '(e, d) ← service_pending_interrupts (e, d);
  deferred_loop fuel e d.
End service.

(** ** Boards

    What happens before the main loop: deferred calls are created, registered
    and scheduled, each with an index that [new] returned. *)

Inductive boot_op : Type :=
| BootNew
| BootRegister (idx handler : Z)
| BootSet (idx : Z).

Definition boot_step {Pr : Profile} (d : DeferredCalls) (o : boot_op) : outcome DeferredCalls :=
  match o with
  | BootNew => '(_, d) ← DeferredCall_new d; Ret d
  | BootRegister idx handler => Ret (DeferredCall_register idx handler d)
  | BootSet idx => DeferredCall_set idx d
  end.

Fixpoint boot {Pr : Profile} (ops : list boot_op) (d : DeferredCalls) : outcome DeferredCalls :=
  match ops with
  | [] => Ret d
  | o :: ops => d ← boot_step d o; boot ops d
  end.

(** The indices an operation uses exist when it runs. *)
Definition created (n : Z) (o : boot_op) : Prop :=
  match o with BootNew => True | BootRegister idx _ | BootSet idx => 1 ≤ idx ≤ n end.
Fixpoint uses_created (n : Z) (ops : list boot_op) : Prop :=
  match ops with
  | [] => True
  | o :: ops => created n o ∧ uses_created (match o with BootNew => n + 1 | _ => n end) ops
  end.

(** ** Pending calls *)

Definition pending (d : DeferredCalls) : list Z :=
  filter (λ i, Z.testbit (BITMASK d) i = true) (seqZ 0 32).

(** What every use of the interface preserves: indices up to [CTR], 32 slots, and
    only created calls are registered and scheduled. *)
Record defcalls_ok (d : DeferredCalls) : Prop := {
  dc_ctr : 0 ≤ CTR d;
  dc_mask : 0 ≤ BITMASK d;
  dc_slots : length (DEFCALLS d) = 32%nat;
  dc_registered i c : DEFCALLS d !! i = Some (Some c) → 1 ≤ Z.of_nat i ≤ CTR d;
  dc_scheduled i : Z.testbit (BITMASK d) i = true → 1 ≤ i ≤ Z.min (CTR d) 31;
}.

Lemma defcalls_init_ok : defcalls_ok defcalls_init.
Proof.
  split; cbn; [lia|lia|done| |].
  - intros i c Hi. apply (lookup_replicate_1 32) in Hi as [Hc _]. discriminate Hc.
  - intros i. by rewrite Z.bits_0.
Qed.

Lemma shiftl_1_testbit i j : 0 ≤ i → 0 ≤ j → Z.testbit (Z.shiftl 1 i) j = (i =? j).
Proof. intros Hi Hj. rewrite Z.shiftl_1_l, Z.pow2_bits_eqb by done. done. Qed.

Lemma boot_step_ctr {Pr : Profile} d o d' : boot_step d o = Ret d' → CTR d' = match o with BootNew => CTR d + 1 | _ => CTR d end.
Proof.
  destruct o as [|idx c|idx]; cbn.
  - intros E. apply outcome_bind_Ret in E as ([i d1] & E & [= <-]). apply outcome_bind_Ret in E as (x & Ex & [= <- <-]).
    by apply uadd_Ret in Ex as [-> _].
  - intros [= <-]. unfold DeferredCall_register. by case_match.
  - intros E. by apply outcome_bind_Ret in E as (b & _ & [= <-]).
Qed.

Lemma boot_ctr {Pr : Profile} ops : ∀ d d', boot ops d = Ret d' → CTR d ≤ CTR d'.
Proof.
  induction ops as [|o ops IH]; cbn [boot]; intros d d' E; [by injection E as <-|].
  apply outcome_bind_Ret in E as (d1 & E1 & E). apply boot_step_ctr in E1. apply IH in E. destruct o; lia.
Qed.

Lemma boot_step_ok {Pr : Profile} d o d' :
  defcalls_ok d → created (CTR d) o → CTR d' < 32 → boot_step d o = Ret d' →
  defcalls_ok d' ∧ CTR d' = match o with BootNew => CTR d + 1 | _ => CTR d end.
Proof.
  intros [H1 H2 H3 H4 H5] Hc H32 E. pose proof (boot_step_ctr _ _ _ E) as Hctr. revert E. destruct o as [|idx c|idx]; cbn in Hc |- *.
  - unfold DeferredCall_new. intros E.
    apply outcome_bind_Ret in E as ([i d1] & E & [= <-]). apply outcome_bind_Ret in E as (x & Ex & [= <- <-]).
    apply uadd_Ret in Ex as [-> _]. split; [|done]. split; cbn; try done; [lia| |].
    + intros i c Hi. apply H4 in Hi. lia.
    + intros i Hi. apply H5 in Hi. lia.
  - intros [= <-]. unfold DeferredCall_register. case_match; [by split|]. split; [|done]. split; cbn; try done.
    + by rewrite length_insert.
    + intros i c'. rewrite list_lookup_insert_Some. intros [(<- & _ & _)|[_ Hi]]; [lia|by eapply H4].
  - unfold DeferredCall_set, bit_of. rewrite (proj2 (Z.ltb_lt idx 32)) by lia. cbn. intros [= <-].
    split; [|done]. split; cbn; try done.
    + apply Z.lor_nonneg. split; [done|]. apply Z.shiftl_nonneg. lia.
    + intros i. rewrite Z.lor_spec, orb_true_iff. intros [Hi|Hi]; [by apply H5|].
      destruct (Z.ltb_spec i 0); [by rewrite Z.testbit_neg_r in Hi|].
      rewrite shiftl_1_testbit in Hi by lia. apply Z.eqb_eq in Hi. lia.
Qed.

Lemma boot_ok {Pr : Profile} ops d d' :
  defcalls_ok d → uses_created (CTR d) ops → CTR d' < 32 → boot ops d = Ret d' → defcalls_ok d'.
Proof.
  intros Hd Hu H32 E. revert d Hd Hu E. induction ops as [|o ops IH]; cbn [boot uses_created]; intros d Hd Hu E.
  { by injection E as <-. }
  apply outcome_bind_Ret in E as (d1 & E1 & E). destruct Hu as [Hc Hu]. pose proof (boot_ctr _ _ _ E).
  destruct (boot_step_ok d o d1 Hd Hc ltac:(lia) E1) as [Hd1 Hn]. apply (IH d1); [done| |done]. by rewrite Hn.
Qed.

(** *** Filters *)

Lemma filter_all {A} (P : A → Prop) `{!∀ x, Decision (P x)} (l : list A) :
  Forall P l → filter P l = l.
Proof. induction 1; [done|]. rewrite filter_cons_True by done. by f_equal. Qed.

Lemma filter_ext_in {A} (P Q : A → Prop) `{!∀ x, Decision (P x), !∀ x, Decision (Q x)} (l : list A) :
  (∀ x, x ∈ l → P x ↔ Q x) → filter P l = filter Q l.
Proof.
  induction l as [|x l IH]; intros HPQ; [done|]. rewrite !filter_cons.
  assert (P x ↔ Q x) by (apply HPQ; apply list_elem_of_here).
  rewrite IH by (intros y Hy; apply HPQ; by apply list_elem_of_further).
  by repeat case_decide; try naive_solver.
Qed.

(** Counting the handlers finds a call that was not registered. *)
Lemma filter_full {A} (P : A → Prop) `{!∀ x, Decision (P x)} (l : list A) :
  length (filter P l) = length l → Forall P l.
Proof.
  induction l as [|x l IH]; [constructor|]. rewrite filter_cons. pose proof (length_filter P l).
  case_decide; cbn; intros; [constructor; [done|apply IH; lia]|lia].
Qed.

Lemma verify_setup_registered d :
  defcalls_ok d → verify_setup d = Ret tt →
  CTR d < 32 ∧ ∀ i, 1 ≤ i ≤ CTR d → ∃ c, DEFCALLS d !! Z.to_nat i = Some (Some c).
Proof.
  intros [H1 _ H3 H4 _]. unfold verify_setup, zlen. rewrite H3.
  destruct (Z.leb_spec (Z.of_nat 32) (CTR d)); [done|]. cbn [orb].
  destruct (Z.eqb_spec (Z.of_nat (length (filter is_Some (DEFCALLS d)))) (CTR d)) as [Hc|]; [|done]. intros _.
  split; [lia|]. set (n := Z.to_nat (CTR d)) in *. set (mid := take n (drop 1 (DEFCALLS d))).
  assert (Hsplit : DEFCALLS d = take 1 (DEFCALLS d) ++ mid ++ drop n (drop 1 (DEFCALLS d))).
  { unfold mid. by rewrite take_drop, take_drop. }
  assert (Hnone : ∀ l k, (∀ i, (i < length l)%nat → l !! i = DEFCALLS d !! (k + i)%nat) →
    (∀ i, (i < length l)%nat → ¬ (1 ≤ Z.of_nat (k + i) ≤ CTR d)) → filter is_Some l = []).
  { intros l k Hl Hk. apply filter_none, Forall_lookup. intros i x Hx [c ->].
    pose proof (lookup_lt_Some _ _ _ Hx) as Hi. rewrite Hl in Hx by done. apply H4 in Hx.
    by apply (Hk i). }
  rewrite Hsplit, !filter_app, (Hnone _ 0%nat), (Hnone (drop n _) (1 + n)%nat) in Hc.
  - rewrite app_nil_r in Hc. cbn [app] in Hc.
    assert (Hlm : length mid = n) by (unfold mid; rewrite length_take, length_drop; lia).
    assert (Hfull : Forall is_Some mid) by (eapply (filter_full is_Some); rewrite Hlm; lia).
    intros i Hi. destruct (lookup_lt_is_Some_2 mid (Z.to_nat i - 1)) as [o Ho]; [lia|].
    pose proof (Forall_lookup_1 _ _ _ _ Hfull Ho) as [c ->]. exists c.
    unfold mid in Ho. rewrite lookup_take_lt, lookup_drop in Ho by lia. by replace (1 + (Z.to_nat i - 1))%nat with (Z.to_nat i) in Ho by lia.
  - intros i _. by rewrite !lookup_drop.
  - intros i _. lia.
  - intros i Hi. rewrite length_take in Hi. by rewrite lookup_take_lt by lia.
  - intros i Hi. rewrite length_take in Hi. lia.
Qed.

(** ** Service *)

Lemma find_filter_head {A} (f : A → bool) (l : list A) :
  find f l = head (filter (λ x, f x = true) l).
Proof.
  induction l as [|x l IH]; [done|]. rewrite filter_cons. cbn [find].
  destruct (f x) eqn:E; [by rewrite decide_True|by rewrite decide_False].
Qed.

Lemma pending_clear val i rest_ :
  filter (λ j, Z.testbit val j = true) (seqZ 0 32) = i :: rest_ →
  filter (λ j, Z.testbit (Z.land val (Z.lnot (Z.shiftl 1 i))) j = true) (seqZ 0 32) = rest_.
Proof.
  intros E.
  assert (Hi : i ∈ seqZ 0 32).
  { assert (i ∈ i :: rest_) as Hin by apply list_elem_of_here. rewrite <- E in Hin.
    by apply list_elem_of_filter in Hin as [_ ?]. }
  apply elem_of_seqZ in Hi.
  assert (Hnd : NoDup (i :: rest_)). { rewrite <- E. apply NoDup_filter, NoDup_seqZ. }
  apply NoDup_cons in Hnd as [Hn _].
  transitivity (filter (λ j, j ≠ i) (filter (λ j, Z.testbit val j = true) (seqZ 0 32))).
  - rewrite list_filter_filter. apply filter_ext_in. intros j Hj%elem_of_seqZ.
    rewrite Z.land_spec, Z.lnot_spec, shiftl_1_testbit, andb_true_iff by lia.
    destruct (Z.eqb_spec i j); cbn; naive_solver.
  - rewrite E, filter_cons, decide_False by naive_solver. apply filter_all, Forall_forall. intros j Hj ->. by apply Hn, list_elem_of_In.
Qed.

(** The calls a board scheduled, in ascending order. *)
Definition sets (i : Z) (o : boot_op) : bool := match o with BootSet j => i =? j | _ => false end.
Definition scheduled (ops : list boot_op) : list Z := filter (λ i, existsb (sets i) ops = true) (seqZ 0 32).

Lemma boot_step_mask {Pr : Profile} d o d' i :
  0 ≤ i → created (CTR d) o → CTR d < 32 → boot_step d o = Ret d' →
  Z.testbit (BITMASK d') i = Z.testbit (BITMASK d) i || sets i o.
Proof.
  intros Hi Hc H32. destruct o as [|idx c|idx]; cbn in Hc |- *.
  - intros E. apply outcome_bind_Ret in E as ([j d1] & E & [= <-]). unfold DeferredCall_new in E.
    apply outcome_bind_Ret in E as (x & _ & [= <- <-]). cbn. by rewrite orb_false_r.
  - intros [= <-]. unfold DeferredCall_register. rewrite orb_false_r. by case_match.
  - unfold DeferredCall_set, bit_of. rewrite (proj2 (Z.ltb_lt idx 32)) by lia. intros [= <-]. cbn.
    rewrite Z.lor_spec, shiftl_1_testbit by lia. by rewrite (Z.eqb_sym i).
Qed.

Lemma boot_pending {Pr : Profile} ops d d' i :
  0 ≤ i → defcalls_ok d → uses_created (CTR d) ops → CTR d' < 32 → boot ops d = Ret d' →
  Z.testbit (BITMASK d') i = Z.testbit (BITMASK d) i || existsb (sets i) ops.
Proof.
  intros Hi Hd Hu H32 E. revert d Hd Hu E. induction ops as [|o ops IH]; cbn [boot uses_created existsb]; intros d Hd Hu E.
  { injection E as <-. by rewrite orb_false_r. }
  apply outcome_bind_Ret in E as (d1 & E1 & E). destruct Hu as [Hc Hu]. pose proof (boot_ctr _ _ _ E). pose proof (boot_step_ctr _ _ _ E1).
  destruct (boot_step_ok d o d1 Hd Hc ltac:(lia) E1) as [Hd1 Hn]. rewrite (IH d1); [|done|by rewrite Hn|done].
  rewrite (boot_step_mask d o d1 i Hi Hc ltac:(destruct o; lia) E1). by rewrite orb_assoc.
Qed.

(** Several calls are scheduled, one after the other. *)
Fixpoint set_all {Pr : Profile} (is_ : list Z) (d : DeferredCalls) : outcome DeferredCalls :=
  match is_ with [] => Ret d | i :: is_ => d ← DeferredCall_set i d; set_all is_ d end.

(** The pending calls with some more, in ascending order. *)
Definition take_in (is_ l : list Z) : list Z := filter (λ j, j ∈ is_ ∨ j ∈ l) (seqZ 0 32).

Definition ordered (l : list Z) : Prop := l = take_in [] l.

(** The client of a call. *)
Definition client_of (d : DeferredCalls) (i : Z) : option Z := mjoin (DEFCALLS d !! Z.to_nat i).

Lemma set_all_ok {Pr : Profile} is_ : ∀ d, defcalls_ok d → CTR d < 32 → Forall (λ i, 1 ≤ i ≤ CTR d) is_ →
  ∃ d', set_all is_ d = Ret d' ∧ defcalls_ok d' ∧ CTR d' = CTR d ∧ DEFCALLS d' = DEFCALLS d ∧ pending d' = take_in is_ (pending d).
Proof.
  induction is_ as [|i is_ IH]; intros d Hd H32 Hi; cbn [set_all].
  { exists d. split_and!; try done. unfold pending, take_in. apply filter_ext_in. intros j Hj. rewrite list_elem_of_filter. set_solver. }
  apply Forall_cons in Hi as [Hi His]. destruct (boot_step d (BootSet i)) as [d1|] eqn:E1; cbn [boot_step] in E1.
  2:{ unfold DeferredCall_set, bit_of in E1. by rewrite (proj2 (Z.ltb_lt i 32)) in E1 by lia. }
  pose proof (boot_step_ctr d (BootSet i) d1 E1) as Hc1. cbn in Hc1. rewrite E1. cbn [mbind outcome_bind].
  destruct (boot_step_ok d (BootSet i) d1 Hd Hi ltac:(lia) E1) as [Hd1 _].
  assert (Ht1 : DEFCALLS d1 = DEFCALLS d) by (by apply outcome_bind_Ret in E1 as (b & _ & [= <-])).
  destruct (IH d1 Hd1 ltac:(lia) ltac:(by rewrite Hc1)) as (d2 & E2 & Hd2 & Hc2 & Ht2 & Hp2).
  exists d2. split_and!; try done; try congruence. rewrite Hp2. unfold take_in. apply filter_ext_in. intros j Hj. unfold pending. rewrite !list_elem_of_filter.
  pose proof Hj as Hj'%elem_of_seqZ. rewrite (boot_step_mask d (BootSet i) d1 j ltac:(lia) Hi H32 E1). cbn [sets].
  rewrite orb_true_iff, Z.eqb_eq, elem_of_cons. naive_solver.
Qed.

Lemma ordered_tail i l : ordered (i :: l) → ordered l.
Proof.
  unfold ordered, take_in. intros E. assert (Hnd : NoDup (i :: l)) by (rewrite E; apply NoDup_filter, NoDup_seqZ).
  apply NoDup_cons in Hnd as [Hn _]. transitivity (filter (λ j, j ≠ i) (i :: l)).
  - rewrite filter_cons, decide_False by naive_solver. symmetry. apply filter_all, Forall_forall. intros j Hj ->. by apply Hn.
  - rewrite E, list_filter_filter. apply filter_ext_in. intros j _. rewrite !elem_of_cons, !elem_of_nil. naive_solver.
Qed.

Lemma pending_ordered d : ordered (pending d).
Proof. unfold ordered, take_in, pending. apply filter_ext_in. intros j Hj. rewrite list_elem_of_filter, elem_of_nil. naive_solver. Qed.

Section delivery.
Context {Pr : Profile} {Ext : Type} (handle : Z → Ext * DeferredCalls → outcome (Ext * DeferredCalls)).

(** The least pending call is taken off and handled. *)
Lemma service_pending e d :
  service_next_pending handle e d =
  match pending d with
  | [] => if BITMASK d =? 0 then Ret (None, e, d) else service_next_pending handle e d
  | i :: rest_ =>
      let d1 := mkDefCalls (CTR d) (Z.land (BITMASK d) (Z.lnot (Z.shiftl 1 i))) (DEFCALLS d) in
      dc ← index_get (DEFCALLS d) i;
      match dc with
      | None => Ret (None, e, d1)
      | Some client => '(e, d) ← handle client (e, d1); Ret (Some i, e, d)
      end
  end.
Proof.
  destruct (pending d) as [|i rest_] eqn:E.
  { unfold service_next_pending. by destruct (BITMASK d =? 0). }
  unfold pending in E. unfold service_next_pending.
  assert (Hi : i ∈ i :: rest_) by apply list_elem_of_here. rewrite <- E in Hi.
  apply list_elem_of_filter in Hi as [Ht Hi%elem_of_seqZ].
  destruct (Z.eqb_spec (BITMASK d) 0) as [H0|_]; [by rewrite H0, Z.bits_0 in Ht|].
  assert (trailing_zeros (BITMASK d) = i) as -> by (unfold trailing_zeros; by rewrite find_filter_head, E).
  unfold bit_of. by rewrite (proj2 (Z.ltb_lt i 32)) by lia.
Qed.

(** Clients that act on their own state and may schedule deferred calls. *)
Context (act : Z → Ext → Ext) (again : Z → Ext → list Z).
Context (handle_act : ∀ c e d, handle c (e, d) = (d ← set_all (again c e) d; Ret (act c e, d))).
Context (has_pending_interrupts : Ext → bool) (quiet : ∀ e, has_pending_interrupts e = false).

Lemma has_tasks_pending d :
  defcalls_ok d → has_tasks d = negb (bool_decide (pending d = [])).
Proof.
  intros [_ Hm _ _ Hs]. unfold has_tasks. f_equal. apply eq_true_iff_eq.
  rewrite Z.eqb_eq, bool_decide_eq_true. split; intros H.
  - unfold pending. apply filter_none, Forall_forall. intros i _. by rewrite H, Z.bits_0.
  - apply Z.bits_inj_0. intros i. destruct (Z.testbit (BITMASK d) i) eqn:E; [|done].
    pose proof (Hs i E). assert (i ∈ pending d) as Hi.
    { apply list_elem_of_filter. split; [done|]. apply elem_of_seqZ. lia. }
    rewrite H in Hi. by apply elem_of_nil in Hi.
Qed.

(** What the kernel loop does on the list of pending calls: the client of the
    first is called, and the calls it schedules join the others. *)
Fixpoint work (client : Z → option Z) (fuel : nat) (e : Ext) (l : list Z) : option Ext :=
  match fuel, l with
  | O, _ => None
  | S _, [] => Some e
  | S fuel, i :: l =>
      match client i with
      | Some c => work client fuel (act c e) (take_in (again c e) l)
      | None => work client fuel e l
      end
  end.

Lemma deferred_loop_works fuel : ∀ e d,
  defcalls_ok d → CTR d < 32 → (∀ c e, Forall (λ i, 1 ≤ i ≤ CTR d) (again c e)) →
  deferred_loop handle has_pending_interrupts fuel e d =
  Ret ((λ e, (e, mkDefCalls (CTR d) 0 (DEFCALLS d))) <$> work (client_of d) fuel e (pending d)).
Proof.
  induction fuel as [|fuel IH]; intros e d Hd H32 Hag; [done|]. cbn [deferred_loop work]. rewrite has_tasks_pending, quiet by done.
  destruct (pending d) as [|i rest_] eqn:E.
  { cbn. do 3 f_equal. pose proof (has_tasks_pending d Hd) as Ht. rewrite E in Ht. unfold has_tasks in Ht. cbn in Ht.
    apply negb_false_iff, Z.eqb_eq in Ht. destruct d; cbn in *; by subst. }
  rewrite bool_decide_false by done. cbn [negb andb]. rewrite service_pending, E. cbv zeta.
  assert (Hi : 0 ≤ i < 32).
  { assert (i ∈ i :: rest_) as Hi by apply list_elem_of_here. rewrite <- E in Hi. apply list_elem_of_filter in Hi as [_ Hi%elem_of_seqZ]. lia. }
  pose proof (dc_slots d Hd) as Hs. set (d1 := mkDefCalls (CTR d) (Z.land (BITMASK d) (Z.lnot (Z.shiftl 1 i))) (DEFCALLS d)).
  assert (Hp1 : pending d1 = rest_) by (by apply pending_clear).
  assert (Hd1 : defcalls_ok d1).
  { destruct Hd as [H1 H2 H3 H4 H5]. split; cbn; try done.
    - apply Z.land_nonneg. by left.
    - intros j. rewrite Z.land_spec, andb_true_iff. intros [? _]. by apply H5. }
  destruct (lookup_lt_is_Some_2 (DEFCALLS d) (Z.to_nat i)) as [o Ho]; [lia|].
  unfold index_get. rewrite (proj2 (Z.ltb_ge i 0)), Ho by lia. cbn [mbind outcome_bind].
  replace (client_of d i) with o by (unfold client_of; by rewrite Ho). destruct o as [c|]; cbn [mbind outcome_bind].
  - destruct (set_all_ok (again c e) d1 Hd1 H32 (Hag c e)) as (d2 & E2 & Hd2 & Hc2 & Ht2 & Hp2). rewrite handle_act, E2. cbn [mbind outcome_bind].
    rewrite (IH _ d2) by (done || (by rewrite Hc2)). rewrite Hc2, Ht2, Hp2, Hp1. unfold client_of. by rewrite Ht2.
  - rewrite (IH _ d1) by done. by rewrite Hp1.
Qed.

(** Clients that schedule nothing are each called once, in order. *)
Lemma work_once client fuel : ∀ e l, (∀ c e, again c e = []) → ordered l → (length l < fuel)%nat →
  work client fuel e l = Some (foldl (λ e c, act c e) e (omap client l)).
Proof.
  induction fuel as [|fuel IH]; intros e l Hag Ho Hf; [lia|]. destruct l as [|i l]; [done|]. cbn [work omap list_omap] in *.
  pose proof (ordered_tail _ _ Ho) as Ho'. destruct (client i) as [c|]; [|apply IH; (done || cbn in Hf; lia)].
  rewrite Hag, <- Ho', IH by (done || cbn in Hf; lia). done.
Qed.
End delivery.

(** The slots are there whatever the board does. *)
Lemma boot_slots {Pr : Profile} ops : ∀ d d', boot ops d = Ret d' → length (DEFCALLS d') = length (DEFCALLS d).
Proof.
  induction ops as [|o ops IH]; cbn [boot]; intros d d' E; [by injection E as <-|].
  apply outcome_bind_Ret in E as (d1 & E1 & E). rewrite (IH _ _ E). destruct o as [|idx c|idx]; cbn in E1.
  - apply outcome_bind_Ret in E1 as ([j d2] & E1 & [= <-]). by apply outcome_bind_Ret in E1 as (x & _ & [= <- <-]).
  - injection E1 as <-. unfold DeferredCall_register. case_match; [done|]. cbn. by rewrite length_insert.
  - by apply outcome_bind_Ret in E1 as (b & _ & [= <-]).
Qed.

(** C35.  Deferred calls reach their clients, in both builds.  When a board has created,
    registered and scheduled deferred calls and [verify_setup] passes, every
    created call has a client, the pending calls are the scheduled ones, and,
    without interrupts, [execute_kernel_work] does what [work] does on that list:
    it calls the client of the least pending call, takes in what the client
    schedules, and ends with none pending.  When the clients schedule nothing,
    each scheduled call is handled exactly once, in ascending order, in one round
    each and one to find that none is left. *)
Theorem deferred_calls_delivered {Pr : Profile} {Ext} ops d (handle : Z → Ext * DeferredCalls → outcome (Ext * DeferredCalls))
    (act : Z → Ext → Ext) (again : Z → Ext → list Z) svc (has_pending_interrupts : Ext → bool) e fuel :
  uses_created 0 ops → boot ops defcalls_init = Ret d → verify_setup d = Ret tt →
  (∀ c e d, handle c (e, d) = (d ← set_all (again c e) d; Ret (act c e, d))) → (∀ c e, Forall (λ i, 1 ≤ i ≤ CTR d) (again c e)) →
  (∀ e, has_pending_interrupts e = false) → svc (e, d) = Ret (e, d) →
  (∀ i, 1 ≤ i ≤ CTR d → is_Some (client_of d i)) ∧
  pending d = scheduled ops ∧
  execute_kernel_work handle svc has_pending_interrupts fuel e d =
    Ret ((λ e, (e, mkDefCalls (CTR d) 0 (DEFCALLS d))) <$> work act again (client_of d) fuel e (scheduled ops)) ∧
  ((∀ c e, again c e = []) → (length (scheduled ops) < fuel)%nat →
    length (omap (client_of d) (scheduled ops)) = length (scheduled ops) ∧
    work act again (client_of d) fuel e (scheduled ops) = Some (foldl (λ e c, act c e) e (omap (client_of d) (scheduled ops)))).
Proof.
  intros Hu Hb Hv Hact Hag Hq Hsvc. pose proof (boot_slots _ _ _ Hb) as Hl.
  assert (H32 : CTR d < 32).
  { unfold verify_setup, zlen in Hv. rewrite Hl in Hv. change (length (DEFCALLS defcalls_init)) with 32%nat in Hv. destruct (Z.leb_spec (Z.of_nat 32) (CTR d)); [done|lia]. }
  pose proof (boot_ok _ _ _ defcalls_init_ok Hu H32 Hb) as Hd. destruct (verify_setup_registered d Hd Hv) as [_ Hreg].
  assert (Hc : ∀ i, 1 ≤ i ≤ CTR d → is_Some (client_of d i)) by (intros i Hi; destruct (Hreg i Hi) as [c Ec]; unfold client_of; rewrite Ec; by eexists).
  assert (Hp : pending d = scheduled ops).
  { apply filter_ext_in. intros i Hi%elem_of_seqZ. rewrite (boot_pending ops _ d i ltac:(lia) defcalls_init_ok Hu H32 Hb).
    cbn [BITMASK defcalls_init]. by rewrite Z.bits_0. }
  split_and!; [done|done| |].
  - unfold execute_kernel_work. rewrite Hsvc. cbn [mbind outcome_bind]. rewrite <- Hp. by apply deferred_loop_works.
  - intros Hn Hf. rewrite <- Hp in *. split; [|apply work_once; [done|apply pending_ordered|done]].
    assert (Hall : Forall (λ i, is_Some (client_of d i)) (pending d)).
    { apply Forall_forall. intros i [Hi _]%list_elem_of_filter. apply Hc. pose proof (dc_scheduled d Hd i Hi). lia. }
    clear -Hall. induction Hall as [|i l [c Ec] _ IH]; [done|]. cbn. rewrite Ec. cbn. by rewrite IH.
Qed.

(** Two drivers, the second scheduled before the first; the client of the second
    schedules both again when it is called the first time. *)
Lemma deferred_calls_delivered_witness :
  let ops := [BootNew; BootNew; BootRegister 1 70; BootRegister 2 80; BootSet 2; BootSet 1; BootSet 2] in
  let again c (e : list Z) := if (c =? 80) && (length e <? 3)%nat then [1; 2] else [] in
  ∃ d, boot (Pr := release) ops defcalls_init = Ret d ∧
    execute_kernel_work (Pr := release) (λ c x, y ← set_all (Pr := release) (again c x.1) x.2; Ret (x.1 ++ [c], y)) Ret (λ _, false) 9 [] d =
      Ret (Some ([70; 80; 70; 80], mkDefCalls 2 0 (DEFCALLS d))).
Proof.
  intros ops again. eexists. split; [vm_compute; reflexivity|].
  match goal with |- execute_kernel_work _ _ _ _ _ ?d = _ =>
    destruct (deferred_calls_delivered (Pr := release) ops d (λ c x, y ← set_all (Pr := release) (again c x.1) x.2; Ret (x.1 ++ [c], y)) (λ c e, e ++ [c]) again Ret (λ _, false) [] 9)
      as (_ & _ & H & _) end.
  - cbn. lia.
  - vm_compute. reflexivity.
  - vm_compute. reflexivity.
  - reflexivity.
  - intros c e. unfold again. destruct (_ && _); repeat constructor; cbn; lia.
  - reflexivity.
  - reflexivity.
  - rewrite H. vm_compute. reflexivity.
Defined.

(** [is_pending] never reports a call: it compares the masked bit with 1, which
    only index 0 can give, and [new] starts at index 1.  So after [set] of a call
    that was created, and the call is pending, the answer is still no. *)
Theorem is_pending_never_true {Pr : Profile} d idx d' :
  1 ≤ idx < 32 → DeferredCall_set idx d = Ret d' →
  Z.testbit (BITMASK d') idx = true ∧ is_pending idx d' = Ret false.
Proof.
  intros Hi. unfold DeferredCall_set, is_pending, bit_of. rewrite (proj2 (Z.ltb_lt idx 32)) by lia. cbn.
  intros [= <-]. cbn. split.
  - rewrite Z.lor_spec, shiftl_1_testbit, Z.eqb_refl by lia. apply orb_true_r.
  - f_equal. apply Z.eqb_neq. intros E. apply (f_equal (λ x, Z.testbit x 0)) in E.
    rewrite Z.land_spec, shiftl_1_testbit in E by lia. destruct (Z.eqb_spec idx 0); [lia|].
    by rewrite andb_false_r in E.
Qed.

Lemma is_pending_never_true_witness :
  ∃ d, DeferredCall_set (Pr := dev) 3 defcalls_init = Ret d ∧ is_pending (Pr := dev) 3 d = Ret false.
Proof.
  eexists. split; [vm_compute; reflexivity|].
  match goal with |- is_pending 3 ?d = _ =>
    destruct (is_pending_never_true (Pr := dev) defcalls_init 3 d) as [_ H]; [lia|vm_compute; reflexivity|exact H] end.
Defined.
