(* ===== verification/LeasableBuffer.v ===== *)
(** * Leasable buffers: kernel/src/utilities/leasable_buffer.rs

    A buffer of which a window is accessible: layers narrow the window before
    handing the buffer down and the owner resets it.  [SubSlice] and
    [SubSliceMut] have the same operations on an immutable and a mutable buffer;
    [SubSliceMutImmut] is either. *)

From S2P Require Import Prelude Bytes.

(** [Bound<usize>] and [Range<usize>] of the standard library. *)
Inductive Bound : Type := Included (n : Z) | Excluded (n : Z) | Unbounded.

Record Range := mkRange { range_start : Z; range_end : Z }.

(** Indexing a slice by a range panics when the range is not inside. *)
Definition index_range {T} (l : list T) (r : Range) : outcome (list T) :=
  match get_range l (range_start r) (range_end r) with Some s => Ret s | None => Panic end.

(** The body of [slice]: the new range, from the active one and the bounds. *)
Definition narrow (active : Range) (start_bound end_bound : Bound) : outcome Range :=
  start ← match start_bound with
          | Included s => Ret s
          | Excluded s => uadd s 1
          | Unbounded => Ret 0
          end;
  end_ ← match end_bound with
         | Included e => uadd e 1
         | Excluded e => Ret e
         | Unbounded => Ret (range_end active)
         end;
  new_start ← uadd (range_start active) start;
  len ← usub end_ start;
  new_end ← uadd new_start len;
  Ret (mkRange new_start new_end).

(** ** [SubSlice] *)

Record SubSlice (T : Type) := mkSubSlice { internal : list T; active_range : Range }.
Arguments mkSubSlice {T}.
Arguments internal {T}.
Arguments active_range {T}.

Section sub_slice.
Context {T : Type}.
Implicit Types s : SubSlice T.

Definition SubSlice_new (buffer : list T) : SubSlice T := mkSubSlice buffer (mkRange 0 (zlen buffer)).
Definition SubSlice_active_slice s : outcome (list T) := index_range (internal s) (active_range s).
Definition SubSlice_take s : list T := internal s.
Definition SubSlice_reset s : SubSlice T := mkSubSlice (internal s) (mkRange 0 (zlen (internal s))).
Definition SubSlice_len s : outcome Z := l ← SubSlice_active_slice s; Ret (zlen l).
(** The address of the window, for a buffer at [base] with elements of [size]
    bytes. *)
Definition SubSlice_as_ptr (base size : Z) s : outcome Z :=
  _ ← SubSlice_active_slice s; Ret (base + size * range_start (active_range s)).
Definition SubSlice_as_slice s : outcome (list T) := index_range (internal s) (active_range s).
Definition SubSlice_is_sliced s : outcome bool :=
  n ← SubSlice_len s; Ret (negb (zlen (internal s) =? n)).
Definition SubSlice_slice (start_bound end_bound : Bound) s : outcome (SubSlice T) :=
  r ← narrow (active_range s) start_bound end_bound; Ret (mkSubSlice (internal s) r).
Definition SubSlice_index s (i : Z) : outcome T :=
  l ← index_range (internal s) (active_range s); index_get l i.
End sub_slice.

(** ** [SubSliceMut] *)

Record SubSliceMut (T : Type) := mkSubSliceMut { internal_mut : list T; active_range_mut : Range }.
Arguments mkSubSliceMut {T}.
Arguments internal_mut {T}.
Arguments active_range_mut {T}.

Section sub_slice_mut.
Context {T : Type}.
Implicit Types s : SubSliceMut T.

Definition SubSliceMut_new (buffer : list T) : SubSliceMut T :=
  mkSubSliceMut buffer (mkRange 0 (zlen buffer)).
Definition SubSliceMut_active_slice s : outcome (list T) :=
  index_range (internal_mut s) (active_range_mut s).
Definition SubSliceMut_take s : list T := internal_mut s.
Definition SubSliceMut_reset s : SubSliceMut T :=
  mkSubSliceMut (internal_mut s) (mkRange 0 (zlen (internal_mut s))).
Definition SubSliceMut_len s : outcome Z := l ← SubSliceMut_active_slice s; Ret (zlen l).
Definition SubSliceMut_as_ptr (base size : Z) s : outcome Z :=
  _ ← SubSliceMut_active_slice s; Ret (base + size * range_start (active_range_mut s)).
Definition SubSliceMut_as_slice s : outcome (list T) :=
  index_range (internal_mut s) (active_range_mut s).
Definition SubSliceMut_is_sliced s : outcome bool :=
  n ← SubSliceMut_len s; Ret (negb (zlen (internal_mut s) =? n)).
Definition SubSliceMut_slice (start_bound end_bound : Bound) s : outcome (SubSliceMut T) :=
  r ← narrow (active_range_mut s) start_bound end_bound; Ret (mkSubSliceMut (internal_mut s) r).
Definition SubSliceMut_index s (i : Z) : outcome T :=
  l ← index_range (internal_mut s) (active_range_mut s); index_get l i.
(** A write through [index_mut]. *)
Definition SubSliceMut_set s (i : Z) (x : T) : outcome (SubSliceMut T) :=
  l ← index_range (internal_mut s) (active_range_mut s);
  l ← index_set l i x;
  let r := active_range_mut s in
  Ret (mkSubSliceMut (take (Z.to_nat (range_start r)) (internal_mut s) ++ l ++
                      drop (Z.to_nat (range_end r)) (internal_mut s)) r).
End sub_slice_mut.

(** ** [SubSliceMutImmut] *)

Inductive SubSliceMutImmut (T : Type) : Type :=
| Immutable (b : SubSlice T)
| Mutable (b : SubSliceMut T).
Arguments Immutable {T}.
Arguments Mutable {T}.

Section sub_slice_mut_immut.
Context {T : Type}.
Implicit Types s : SubSliceMutImmut T.

Definition SubSliceMutImmut_reset s : SubSliceMutImmut T :=
  match s with
  | Immutable b => Immutable (SubSlice_reset b)
  | Mutable b => Mutable (SubSliceMut_reset b)
  end.
Definition SubSliceMutImmut_len s : outcome Z :=
  match s with Immutable b => SubSlice_len b | Mutable b => SubSliceMut_len b end.
Definition SubSliceMutImmut_slice (start_bound end_bound : Bound) s : outcome (SubSliceMutImmut T) :=
  match s with
  | Immutable b => Immutable <$> SubSlice_slice start_bound end_bound b
  | Mutable b => Mutable <$> SubSliceMut_slice start_bound end_bound b
  end.
Definition SubSliceMutImmut_index s (i : Z) : outcome T :=
  match s with Immutable b => SubSlice_index b i | Mutable b => SubSliceMut_index b i end.
End sub_slice_mut_immut.

(** ** Windows

    What the three types have in common: a buffer, and the window its active
    range leaves. *)

Definition parts {T} (s : SubSliceMutImmut T) : list T * Range :=
  match s with
  | Immutable b => (internal b, active_range b)
  | Mutable b => (internal_mut b, active_range_mut b)
  end.

Definition window {T} (s : SubSliceMutImmut T) : outcome (list T) := index_range (parts s).1 (parts s).2.

(** The active range is inside the buffer. *)
Definition range_wf {T} (s : SubSliceMutImmut T) : Prop :=
  let '(l, r) := parts s in
  0 ≤ range_start r ≤ range_end r ∧ range_end r ≤ zlen l ∧ zlen l < usize_bound.

Lemma window_wf {T} (s : SubSliceMutImmut T) :
  range_wf s →
  let '(l, r) := parts s in
  window s = Ret (take (Z.to_nat (range_end r - range_start r)) (drop (Z.to_nat (range_start r)) l)).
Proof.
  unfold range_wf, window. destruct (parts s) as [l r]. cbn [fst snd]. intros (H1 & H2 & _).
  unfold index_range. by rewrite (proj2 (get_range_Some l _ _ _) (conj H1 (conj H2 eq_refl))).
Qed.

(** The values of the bounds [a..b], [a..=b], [..b] and the like. *)
Definition bounds (start_bound end_bound : Bound) (a b : Z) : Prop :=
  match start_bound with Included s => s = a | Excluded s => s + 1 = a | Unbounded => a = 0 end ∧
  match end_bound with Included e => e + 1 = b | Excluded e => e = b | Unbounded => False end.

Lemma narrow_ok active sb eb a b :
  bounds sb eb a b → 0 ≤ a ≤ b → 0 ≤ range_start active → range_start active + b < usize_bound →
  narrow active sb eb = Ret (mkRange (range_start active + a) (range_start active + b)).
Proof.
  intros [Hs He] Hab H0 Hb. unfold narrow.
  destruct sb; subst; destruct eb; try done; subst; ustep; cbn [mbind outcome_bind]; ustep; do 2 f_equal; lia.
Qed.

(** Narrowing a leasable buffer by a range with an end composes: the new
    window is that part of the old one, the buffer is unchanged, and resetting
    gives the whole buffer back, for mutable and immutable buffers alike. *)
Theorem slice_narrows_window {T} (s : SubSliceMutImmut T) (w : list T) sb eb a b :
  range_wf s → window s = Ret w → bounds sb eb a b → 0 ≤ a ≤ b → b ≤ zlen w →
  ∃ s', SubSliceMutImmut_slice sb eb s = Ret s' ∧ range_wf s' ∧
    window s' = Ret (take (Z.to_nat (b - a)) (drop (Z.to_nat a) w)) ∧
    SubSliceMutImmut_len s' = Ret (b - a) ∧
    window (SubSliceMutImmut_reset s') = Ret (parts s).1.
Proof.
  intros Hwf Hw Hb Hab Hbw. pose proof (window_wf s Hwf) as Hw'. unfold range_wf in Hwf.
  destruct (parts s) as [l r] eqn:Hp. rewrite Hw in Hw'. injection Hw' as ->.
  destruct Hwf as (H1 & H2 & H3). unfold zlen in Hbw. rewrite length_take, length_drop in Hbw.
  assert (Hn : narrow r sb eb = Ret (mkRange (range_start r + a) (range_start r + b))).
  { apply narrow_ok; [done..|lia|]. unfold zlen in *. lia. }
  assert (Hs : ∃ s', SubSliceMutImmut_slice sb eb s = Ret s' ∧
    parts s' = (l, mkRange (range_start r + a) (range_start r + b)) ∧
    parts (SubSliceMutImmut_reset s') = (l, mkRange 0 (zlen l)) ∧
    SubSliceMutImmut_len s' = (w ← window s'; Ret (zlen w))).
  { destruct s as [[l0 r0]|[l0 r0]]; cbn in Hp; injection Hp as -> ->; cbn;
      unfold SubSlice_slice, SubSliceMut_slice; cbn; rewrite Hn; by eexists. }
  destruct Hs as (s' & Es & Hp' & Hpr & Hlen). exists s'.
  assert (Hwf' : range_wf s').
  { unfold range_wf. rewrite Hp'. cbn. unfold zlen in *. lia. }
  assert (Hwin : window s' = Ret (take (Z.to_nat (b - a)) (drop (Z.to_nat a)
    (take (Z.to_nat (range_end r - range_start r)) (drop (Z.to_nat (range_start r)) l))))).
  { pose proof (window_wf s' Hwf') as Hw'. rewrite Hp' in Hw'. rewrite Hw'. cbn [range_start range_end].
    f_equal. rewrite skipn_firstn_comm, drop_drop, take_take. f_equal; [lia|]. f_equal. lia. }
  split_and!; [done|done|done| |].
  - rewrite Hlen, Hwin. cbn. f_equal. unfold zlen. rewrite length_take, length_drop, length_take, length_drop. lia.
  - unfold window. rewrite Hpr. cbn [fst snd]. unfold index_range. cbn [range_start range_end].
    rewrite (proj2 (get_range_Some l l 0 (zlen l))); [done|]. pose proof (zlen_nonneg l).
    split_and!; [lia..|]. unfold zlen. rewrite Z.sub_0_r, Nat2Z.id. by rewrite firstn_all.
Qed.

Lemma slice_narrows_window_witness :
  ∃ s', SubSliceMutImmut_slice (Included 1) (Excluded 3)
          (Mutable (mkSubSliceMut [10; 11; 12; 13; 14] (mkRange 1 5))) = Ret s' ∧
        window s' = Ret [12; 13].
Proof.
  destruct (slice_narrows_window (Mutable (mkSubSliceMut [10; 11; 12; 13; 14] (mkRange 1 5)))
    [11; 12; 13; 14] (Included 1) (Excluded 3) 1 3) as (s' & E & _ & W & _).
  - vm_compute. repeat split; discriminate.
  - reflexivity.
  - split; reflexivity.
  - lia.
  - vm_compute. discriminate.
  - exists s'. split; [exact E|exact W].
Defined.

(** Narrowing with an open end ([slice(a..)]) is only right on a window that
    starts at the beginning of the buffer.  The end of the active range, counted
    from the start of the buffer, is taken as an end counted from the start of
    the window: when the window starts at [st], the new one reaches [st] elements
    beyond its end, and if the buffer is shorter than that, the next access
    panics. *)
Theorem slice_open_end_escapes {T} (l : list T) (st e a : Z) :
  0 ≤ st → st ≤ e ≤ zlen l → 0 ≤ a ≤ e → st + e < usize_bound → zlen l < usize_bound →
  ∃ s', SubSlice_slice (Included a) Unbounded (mkSubSlice l (mkRange st e)) = Ret s' ∧
    SubSlice_as_slice s' =
      if st + e <=? zlen l then Ret (take (Z.to_nat (e - a)) (drop (Z.to_nat (st + a)) l)) else Panic.
Proof.
  intros H0 He Ha Hb Hl. exists (mkSubSlice l (mkRange (st + a) (st + e))). split.
  - unfold SubSlice_slice, narrow. cbn [mbind outcome_bind active_range range_start range_end internal].
    ustep. do 3 f_equal. lia.
  - unfold SubSlice_as_slice, index_range. cbn [internal active_range range_start range_end].
    destruct (Z.leb_spec (st + e) (zlen l)) as [Hle|Hgt].
    + rewrite (proj2 (get_range_Some l (take (Z.to_nat (e - a)) (drop (Z.to_nat (st + a)) l))
        (st + a) (st + e))); [done|]. split_and!; [lia|lia|lia|]. do 2 f_equal. lia.
    + destruct (get_range l (st + a) (st + e)) as [s|] eqn:E; [|done].
      apply get_range_Some in E as (_ & ? & _). lia.
Qed.

(** The window [[1; 2]] of a buffer of four, narrowed to itself: an element that
    is not in the window appears. *)
Lemma slice_open_end_escapes_witness :
  ∃ s', SubSlice_slice (Included 0) Unbounded (mkSubSlice [0; 1; 2; 3] (mkRange 1 3)) = Ret s' ∧
        SubSlice_as_slice s' = Ret [1; 2; 3].
Proof.
  destruct (slice_open_end_escapes [0; 1; 2; 3] 1 3 0) as (s' & E & W); [lia|vm_compute; split; discriminate|lia|lia|reflexivity|].
  exists s'. split; [exact E|exact W].
Defined.
