(* ===== verification/NetStream.v ===== *)
(** * Streams of network headers: capsules/extra/src/net/stream.rs, util.rs

    Encoders fill a buffer from its start and report how far they came; decoders
    read from the start of a buffer.  The macros [enc_try!], [dec_try!] and
    [stream_*!], which return early when a part fails, are the binds of two
    monads.  [Writes] and [Reads] say what bytes an encoder leaves and what a
    decoder makes of them; both compose, which is how the header formats built
    from these functions are verified.

    The host is little-endian, as the comments of stream.rs assume. *)

From S2P Require Import Prelude Bytes.

(** ** Results *)

(** [SResult]: [SResult::Done(off, out)] is [Done (off, out)]; the error of the
    headers modelled here is the unit type. *)
Inductive SResult (X : Type) : Type :=
| Done (x : X)
| Needed (bytes : Z)
| Error.
Arguments Done {X}.
Arguments Needed {X}.
Arguments Error {X}.

(** [enc_try!] and [dec_try!] on a result of a part that starts at [off]. *)
Definition from_offset {A} (off : Z) (r : SResult (Z * A)) : SResult (Z * A) :=
  match r with
  | Done (o, a) => Done (off + o, a)
  | Needed n => Needed (off + n)
  | Error => Error
  end.

(** ** Encoders *)

Definition Enc (X : Type) : Type := list Z → outcome (SResult X * list Z).

#[export] Instance Enc_ret : MRet Enc := fun X x buf => Ret (Done x, buf).
#[export] Instance Enc_bind : MBind Enc := fun X Y f m buf =>
  match m buf with
  | Ret (Done x, buf) => f x buf
  | Ret (Needed n, buf) => Ret (Needed n, buf)
  | Ret (Error, buf) => Ret (Error, buf)
  | Panic => Panic
  end.

Definition enc_len_cond (bytes : Z) : Enc unit := fun buf =>
  if zlen buf <? bytes then Ret (Needed bytes, buf) else Ret (Done tt, buf).
Definition enc_cond (c : bool) : Enc unit := fun buf =>
  Ret (if c then Done tt else Error, buf).
Definition enc_err {X} : Enc X := fun buf => Ret (Error, buf).

(** [buf[i] = b]. *)
Definition enc_set (i b : Z) : Enc unit := fun buf =>
  buf ← index_set buf i b; Ret (Done tt, buf).

(** [enc_try!(buf, off; f)]: the slice [buf[off..]] panics beyond the end. *)
Definition enc_at {A} (off : Z) (f : Enc (Z * A)) : Enc (Z * A) := fun buf =>
  match get_from buf off with
  | None => Panic
  | Some sub => '(r, sub) ← f sub; Ret (from_offset off r, take (Z.to_nat off) buf ++ sub)
  end.

(** [enc_consume!]. *)
Definition enc_consume {A} (off : Z) (f : Enc (Z * A)) : Enc Z :=
  '(off, _) ← enc_at off f; mret off.

(** [u16::to_be] and [u32::to_be], and the casts to [u8]. *)
Definition to_be16 (x : Z) : Z := Z.lor (Z.shiftl (Z.land x 0xFF) 8) (Z.shiftr x 8).
Definition to_be32 (x : Z) : Z :=
  Z.lor (Z.shiftl (Z.land x 0xFF) 24)
    (Z.lor (Z.shiftl (Z.land (Z.shiftr x 8) 0xFF) 16)
       (Z.lor (Z.shiftl (Z.land (Z.shiftr x 16) 0xFF) 8) (Z.shiftr x 24))).
Definition as_u8 (x : Z) : Z := Z.land x 0xFF.

Definition encode_u8 (b : Z) : Enc (Z * unit) :=
  enc_len_cond 1;; enc_set 0 b;; mret (1, tt).
Definition encode_u16 (b : Z) : Enc (Z * unit) :=
  enc_len_cond 2;; enc_set 0 (as_u8 (Z.shiftr b 8));; enc_set 1 (as_u8 b);; mret (2, tt).
Definition encode_u32 (b : Z) : Enc (Z * unit) :=
  enc_len_cond 4;;
  enc_set 0 (as_u8 (Z.shiftr b 24));; enc_set 1 (as_u8 (Z.shiftr b 16));;
  enc_set 2 (as_u8 (Z.shiftr b 8));; enc_set 3 (as_u8 b);; mret (4, tt).

(** [buf[..bs.len()].copy_from_slice(bs)]. *)
Definition enc_copy (bs : list Z) : Enc unit := fun buf =>
  if zlen bs <=? zlen buf then Ret (Done tt, bs ++ drop (length bs) buf) else Panic.
Definition encode_bytes (bs : list Z) : Enc (Z * unit) :=
  enc_len_cond (zlen bs);; enc_copy bs;; mret (zlen bs, tt).

(** The loop of [encode_bytes_be] writes the bytes one by one. *)
Fixpoint enc_set_from (i : Z) (bs : list Z) : Enc unit :=
  match bs with [] => mret tt | b :: bs => enc_set i b;; enc_set_from (i + 1) bs end.
Definition encode_bytes_be (bs : list Z) : Enc (Z * unit) :=
  enc_len_cond (zlen bs);; enc_set_from 0 (reverse bs);; mret (zlen bs, tt).

(** ** Decoders *)

Definition Dec (X : Type) : Type := outcome (SResult X).

#[export] Instance Dec_ret : MRet Dec := fun X x => Ret (Done x).
#[export] Instance Dec_bind : MBind Dec := fun X Y f m =>
  match m with
  | Ret (Done x) => f x
  | Ret (Needed n) => Ret (Needed n)
  | Ret Error => Ret Error
  | Panic => Panic
  end.

Definition dec_len_cond (buf : list Z) (bytes : Z) : Dec unit :=
  if zlen buf <? bytes then Ret (Needed bytes) else Ret (Done tt).
Definition dec_cond (c : bool) : Dec unit := Ret (if c then Done tt else Error).
Definition dec_err {X} : Dec X := Ret Error.

(** [stream_from_option!]. *)
Definition dec_option {X} (o : option X) : Dec X := Ret (match o with Some x => Done x | None => Error end).

(** [buf[i]]. *)
Definition dec_get (buf : list Z) (i : Z) : Dec Z := x ← index_get buf i; Ret (Done x).

(** [dec_try!(buf, off; f)]. *)
Definition dec_at {A} (buf : list Z) (off : Z) (f : list Z → Dec (Z * A)) : Dec (Z * A) :=
  match get_from buf off with
  | None => Panic
  | Some sub => match f sub with Ret r => Ret (from_offset off r) | Panic => Panic end
  end.

Definition decode_u8 (buf : list Z) : Dec (Z * Z) :=
  dec_len_cond buf 1;; b ← dec_get buf 0; mret (1, b).
Definition decode_u16 (buf : list Z) : Dec (Z * Z) :=
  dec_len_cond buf 2;;
  b0 ← dec_get buf 0; b1 ← dec_get buf 1;
  mret (2, Z.lor (Z.shiftl b0 8) b1).
Definition decode_u32 (buf : list Z) : Dec (Z * Z) :=
  dec_len_cond buf 4;;
  b0 ← dec_get buf 0; b1 ← dec_get buf 1; b2 ← dec_get buf 2; b3 ← dec_get buf 3;
  mret (4, Z.lor (Z.lor (Z.lor (Z.shiftl b0 24) (Z.shiftl b1 16)) (Z.shiftl b2 8)) b3).

(** [decode_bytes] and [decode_bytes_be] into an array of [n] bytes, all of
    which they overwrite. *)
Definition decode_bytes (n : Z) (buf : list Z) : Dec (Z * list Z) :=
  dec_len_cond buf n;; mret (n, take (Z.to_nat n) buf).
Definition decode_bytes_be (n : Z) (buf : list Z) : Dec (Z * list Z) :=
  dec_len_cond buf n;; mret (n, reverse (take (Z.to_nat n) buf)).

(** ** What encoders write *)

(** With room, [f] puts the bytes [bs] in front and returns their number. *)
Definition Writes {A} (f : Enc (Z * A)) (bs : list Z) (a : A) : Prop :=
  ∀ buf, zlen bs ≤ zlen buf → f buf = Ret (Done (zlen bs, a), bs ++ drop (length bs) buf).

Lemma enc_bind_done {X Y} (m : Enc X) (f : X → Enc Y) buf x buf' :
  m buf = Ret (Done x, buf') → (m ≫= f) buf = f x buf'.
Proof. unfold mbind, Enc_bind. by intros ->. Qed.

Lemma enc_len_cond_ok n buf : n ≤ zlen buf → enc_len_cond n buf = Ret (Done tt, buf).
Proof. intros H. unfold enc_len_cond. by rewrite (proj2 (Z.ltb_ge _ _)). Qed.

Lemma take_zlen_app {A} (pre rest : list A) : take (Z.to_nat (zlen pre)) (pre ++ rest) = pre.
Proof. unfold zlen. by rewrite Nat2Z.id, take_app_length. Qed.

Lemma enc_at_writes {A} (f : Enc (Z * A)) bs a pre rest off :
  Writes f bs a → off = zlen pre → zlen bs ≤ zlen rest →
  enc_at off f (pre ++ rest) =
    Ret (Done (zlen (pre ++ bs), a), (pre ++ bs) ++ drop (length bs) rest).
Proof.
  intros Hf -> Hr. unfold enc_at. rewrite get_from_app by done. rewrite Hf by done.
  cbn [mbind outcome_bind from_offset]. rewrite zlen_app, take_zlen_app.
  by rewrite <- app_assoc.
Qed.

Lemma enc_consume_writes {A} (f : Enc (Z * A)) bs a pre rest off :
  Writes f bs a → off = zlen pre → zlen bs ≤ zlen rest →
  enc_consume off f (pre ++ rest) =
    Ret (Done (zlen (pre ++ bs)), (pre ++ bs) ++ drop (length bs) rest).
Proof.
  intros Hf Ho Hr. unfold enc_consume.
  by rewrite (enc_bind_done _ _ _ _ _ (enc_at_writes _ _ _ _ _ _ Hf Ho Hr)).
Qed.

(** Overwriting the front: a field that is filled in at the end. *)
Lemma enc_at_front {A} (f : Enc (Z * A)) bs a old rest :
  Writes f bs a → length old = length bs →
  enc_at 0 f (old ++ rest) = Ret (Done (zlen bs, a), bs ++ rest).
Proof.
  intros Hf Hl. change (old ++ rest) with ([] ++ old ++ rest).
  rewrite (enc_at_writes f bs a [] (old ++ rest) 0 Hf eq_refl) by (rewrite zlen_app; unfold zlen; lia).
  cbn [app]. by rewrite <- Hl, drop_app_length.
Qed.

Lemma enc_set_head i b pre x rest :
  i = zlen pre → enc_set i b (pre ++ x :: rest) = Ret (Done tt, pre ++ b :: rest).
Proof.
  intros ->. unfold enc_set, index_set, zlen. rewrite length_app. cbn [length].
  rewrite (proj2 (Z.leb_le _ _)), (proj2 (Z.ltb_lt _ _)) by lia. cbn [andb mbind outcome_bind].
  by rewrite Nat2Z.id, insert_app_r_alt, Nat.sub_diag by lia.
Qed.

Lemma enc_set_then {X} i b pre x rest buf (f : unit → Enc X) :
  buf = pre ++ x :: rest → i = zlen pre → (enc_set i b ≫= f) buf = f tt (pre ++ b :: rest).
Proof. intros -> Hi. apply enc_bind_done. by apply enc_set_head. Qed.

Lemma enc_set_from_writes bs pre rest :
  zlen bs ≤ zlen rest →
  enc_set_from (zlen pre) bs (pre ++ rest) = Ret (Done tt, pre ++ bs ++ drop (length bs) rest).
Proof.
  revert pre rest. induction bs as [|b bs IH]; intros pre rest Hr; cbn [enc_set_from]; [done|].
  destruct rest as [|x rest]; [unfold zlen in Hr; cbn in Hr; lia|].
  rewrite (enc_bind_done _ _ _ _ _ (enc_set_head _ _ _ _ _ eq_refl)).
  rewrite (cons_middle b pre rest), app_assoc.
  replace (zlen pre + 1) with (zlen (pre ++ [b])) by (rewrite zlen_app; done).
  rewrite IH by (unfold zlen in *; cbn in Hr; lia). by rewrite <- app_assoc.
Qed.

Lemma encode_bytes_writes bs : Writes (encode_bytes bs) bs tt.
Proof.
  intros buf Hb. unfold encode_bytes. rewrite (enc_bind_done _ _ _ _ _ (enc_len_cond_ok _ _ Hb)).
  unfold mbind, Enc_bind, enc_copy. by rewrite (proj2 (Z.leb_le _ _)).
Qed.

Lemma encode_bytes_be_writes bs : Writes (encode_bytes_be bs) (reverse bs) tt.
Proof.
  intros buf Hb. unfold zlen in Hb. rewrite length_reverse in Hb. fold (zlen bs) (zlen buf) in Hb.
  unfold encode_bytes_be. rewrite (enc_bind_done _ _ _ _ _ (enc_len_cond_ok _ _ Hb)).
  rewrite (enc_bind_done _ _ buf tt (reverse bs ++ drop (length (reverse bs)) buf)).
  - unfold zlen. by rewrite length_reverse.
  - apply (enc_set_from_writes (reverse bs) []). unfold zlen. rewrite length_reverse. apply Hb.
Qed.

Lemma encode_u8_writes b : Writes (encode_u8 b) [b] tt.
Proof.
  intros [|x buf] Hb; [by vm_compute in Hb|]. unfold encode_u8.
  rewrite (enc_bind_done _ _ _ _ _ (enc_len_cond_ok 1 _ Hb)).
  erewrite (enc_set_then 0 _ [] x) by reflexivity. done.
Qed.

Lemma encode_u16_writes b : Writes (encode_u16 b) [as_u8 (Z.shiftr b 8); as_u8 b] tt.
Proof.
  intros buf Hb. destruct buf as [|x [|y buf]]; [by vm_compute in Hb..|]. unfold encode_u16.
  rewrite (enc_bind_done _ _ _ _ _ (enc_len_cond_ok 2 _ Hb)).
  erewrite (enc_set_then 0 _ [] x) by reflexivity.
  erewrite (enc_set_then 1 _ [_] y) by reflexivity. done.
Qed.

Lemma encode_u32_writes b :
  Writes (encode_u32 b) [as_u8 (Z.shiftr b 24); as_u8 (Z.shiftr b 16); as_u8 (Z.shiftr b 8); as_u8 b] tt.
Proof.
  intros buf Hb. destruct buf as [|x [|y [|z [|w buf]]]]; [by vm_compute in Hb..|]. unfold encode_u32.
  rewrite (enc_bind_done _ _ _ _ _ (enc_len_cond_ok 4 _ Hb)).
  erewrite (enc_set_then 0 _ [] x) by reflexivity.
  erewrite (enc_set_then 1 _ [_] y) by reflexivity.
  erewrite (enc_set_then 2 _ [_; _] z) by reflexivity.
  erewrite (enc_set_then 3 _ [_; _; _] w) by reflexivity. done.
Qed.

(** ** What decoders read *)

(** On a buffer that starts with the bytes [bs], [d] returns [a] and goes on
    behind them. *)
Definition Reads {A} (d : list Z → Dec (Z * A)) (bs : list Z) (a : A) : Prop :=
  ∀ post, d (bs ++ post) = Ret (Done (zlen bs, a)).

Lemma dec_bind_done {X Y} (m : Dec X) (f : X → Dec Y) x : m = Ret (Done x) → m ≫= f = f x.
Proof. unfold mbind, Dec_bind. by intros ->. Qed.

Lemma dec_len_cond_ok buf n : n ≤ zlen buf → dec_len_cond buf n = Ret (Done tt).
Proof. intros H. unfold dec_len_cond. by rewrite (proj2 (Z.ltb_ge _ _)). Qed.

Lemma dec_at_reads {A} (d : list Z → Dec (Z * A)) bs a pre post off buf :
  Reads d bs a → off = zlen pre → buf = pre ++ bs ++ post →
  dec_at buf off d = Ret (Done (zlen (pre ++ bs), a)).
Proof.
  intros Hd -> ->. unfold dec_at. rewrite get_from_app by done. rewrite Hd. cbn [from_offset].
  by rewrite zlen_app.
Qed.

(** The part of a decoder that reads the bytes [bs] behind [pre]. *)
Lemma dec_bind_at {A B} (d : list Z → Dec (Z * A)) (f : Z * A → Dec B) bs a pre post off buf :
  Reads d bs a → off = zlen pre → buf = pre ++ bs ++ post →
  (r ← dec_at buf off d; f r) = f (zlen (pre ++ bs), a).
Proof. intros Hd Ho Hb. by rewrite (dec_bind_done _ _ _ (dec_at_reads _ _ _ _ _ _ _ Hd Ho Hb)). Qed.

Lemma dec_bind_some {X Y} (x : X) (f : X → Dec Y) : (y ← dec_option (Some x); f y) = f x.
Proof. done. Qed.

Lemma dec_bind_ret {X Y} (x : X) (f : X → Dec Y) : (y ← mret x; f y) = f x.
Proof. done. Qed.

Lemma decode_u8_reads b : Reads decode_u8 [b] b.
Proof. intros post. unfold decode_u8. rewrite dec_len_cond_ok; [done|]. unfold zlen. cbn. lia. Qed.

Lemma decode_u16_reads b0 b1 : Reads decode_u16 [b0; b1] (Z.lor (Z.shiftl b0 8) b1).
Proof. intros post. unfold decode_u16. rewrite dec_len_cond_ok; [done|]. unfold zlen. cbn. lia. Qed.

Lemma decode_u32_reads b0 b1 b2 b3 :
  Reads decode_u32 [b0; b1; b2; b3]
    (Z.lor (Z.lor (Z.lor (Z.shiftl b0 24) (Z.shiftl b1 16)) (Z.shiftl b2 8)) b3).
Proof. intros post. unfold decode_u32. rewrite dec_len_cond_ok; [done|]. unfold zlen. cbn. lia. Qed.

Lemma decode_bytes_reads n bs : zlen bs = n → Reads (decode_bytes n) bs bs.
Proof.
  intros <- post. unfold decode_bytes. rewrite dec_len_cond_ok by (rewrite zlen_app; pose proof (zlen_nonneg post); lia).
  rewrite (dec_bind_done _ _ _ eq_refl). by rewrite take_zlen_app.
Qed.

Lemma decode_bytes_be_reads n bs : zlen bs = n → Reads (decode_bytes_be n) (reverse bs) bs.
Proof.
  intros <- post. assert (Hz : zlen (reverse bs) = zlen bs) by (unfold zlen; by rewrite length_reverse).
  unfold decode_bytes_be.
  rewrite dec_len_cond_ok by (rewrite zlen_app, Hz; pose proof (zlen_nonneg post); lia).
  rewrite (dec_bind_done _ _ _ eq_refl), <- Hz. by rewrite take_zlen_app, reverse_involutive.
Qed.

(** ** Byte order *)

(** Linear arithmetic with quotients and remainders by literals. *)
Ltac byte_lia := Z.div_mod_to_equations; lia.
Ltac byte_list := repeat (apply (f_equal2 cons); [byte_lia|]); reflexivity.

Lemma as_u8_mod x : as_u8 x = x mod 256.
Proof. unfold as_u8. change 0xFF with (Z.ones 8). by rewrite Z.land_ones. Qed.

Lemma land_ones_small x n : 0 ≤ n → 0 ≤ x < 2 ^ n → Z.land x (Z.ones n) = x.
Proof. intros Hn Hx. rewrite Z.land_ones by done. by apply Z.mod_small. Qed.

Lemma land_mask_nonneg x m : 0 ≤ m → 0 ≤ Z.land x m.
Proof. intros. apply Z.land_nonneg. by right. Qed.

Lemma to_be16_eq x : u16 x → to_be16 x = (x mod 256) * 256 + x / 256.
Proof.
  unfold u16. intros Hx. unfold to_be16. fold (as_u8 x).
  rewrite as_u8_mod, Z.shiftr_div_pow2 by lia. change (2 ^ 8) with 256. rewrite lor_shiftl_add; byte_lia.
Qed.

Lemma to_be16_u16 x : u16 x → u16 (to_be16 x).
Proof. intros Hx. rewrite to_be16_eq by done. unfold u16 in *. byte_lia. Qed.

Lemma to_be16_involutive x : u16 x → to_be16 (to_be16 x) = x.
Proof.
  intros Hx. rewrite (to_be16_eq (to_be16 x)) by by apply to_be16_u16.
  rewrite to_be16_eq by done. unfold u16 in *. byte_lia.
Qed.

(** A [u32] and its four bytes. *)
Definition of_bytes4 (b0 b1 b2 b3 : Z) : Z := b0 + 256 * b1 + 65536 * b2 + 16777216 * b3.

Lemma u32_bytes x : u32 x → ∃ b0 b1 b2 b3,
  byte b0 ∧ byte b1 ∧ byte b2 ∧ byte b3 ∧ x = of_bytes4 b0 b1 b2 b3.
Proof.
  unfold u32. change usize_bound with 4294967296. intros Hx.
  exists (x mod 256), (x / 256 mod 256), (x / 65536 mod 256), (x / 16777216).
  unfold byte, of_bytes4. repeat split; byte_lia.
Qed.

Lemma of_bytes4_shiftr b0 b1 b2 b3 : byte b0 → byte b1 → byte b2 → byte b3 →
  let x := of_bytes4 b0 b1 b2 b3 in
  as_u8 x = b0 ∧ as_u8 (Z.shiftr x 8) = b1 ∧ as_u8 (Z.shiftr x 16) = b2 ∧ Z.shiftr x 24 = b3 ∧
  as_u8 (Z.shiftr x 24) = b3.
Proof.
  unfold byte, of_bytes4. intros. rewrite !as_u8_mod, !Z.shiftr_div_pow2 by lia.
  change (2 ^ 8) with 256. change (2 ^ 16) with 65536. change (2 ^ 24) with 16777216. repeat split; byte_lia.
Qed.

Lemma le_bytes_of_bytes4 b0 b1 b2 b3 : byte b0 → byte b1 → byte b2 → byte b3 →
  le_bytes 4 (of_bytes4 b0 b1 b2 b3) = [b0; b1; b2; b3].
Proof.
  intros H0 H1 H2 H3. unfold byte, of_bytes4 in *. cbn [le_bytes].
  replace ((b0 + 256 * b1 + 65536 * b2 + 16777216 * b3) / 256) with (b1 + 256 * b2 + 65536 * b3) by byte_lia.
  replace ((b1 + 256 * b2 + 65536 * b3) / 256) with (b2 + 256 * b3) by byte_lia.
  replace ((b2 + 256 * b3) / 256) with b3 by byte_lia. byte_list.
Qed.

Lemma to_be32_of_bytes4 b0 b1 b2 b3 : byte b0 → byte b1 → byte b2 → byte b3 →
  to_be32 (of_bytes4 b0 b1 b2 b3) = of_bytes4 b3 b2 b1 b0.
Proof.
  intros H0 H1 H2 H3. destruct (of_bytes4_shiftr b0 b1 b2 b3) as (E0 & E1 & E2 & E3 & _); [done..|].
  unfold to_be32, as_u8 in *. rewrite E0, E1, E2, E3. unfold byte, of_bytes4 in *.
  rewrite (lor_shiftl_add 8), (lor_shiftl_add 16), (lor_shiftl_add 24) by lia. lia.
Qed.

Lemma to_be32_involutive x : u32 x → to_be32 (to_be32 x) = x.
Proof.
  intros (b0 & b1 & b2 & b3 & H0 & H1 & H2 & H3 & ->)%u32_bytes.
  by rewrite !to_be32_of_bytes4.
Qed.

(** A field in the byte order of the frame: [encode_u16(buf, x.to_be())]. *)
Lemma encode_u16_be_writes x : u16 x → Writes (encode_u16 (to_be16 x)) (le_bytes 2 x) tt.
Proof.
  intros Hx. pose proof (encode_u16_writes (to_be16 x)) as Hw.
  rewrite !as_u8_mod, Z.shiftr_div_pow2, to_be16_eq in Hw by done. unfold u16 in *.
  replace (le_bytes 2 x) with [(x mod 256 * 256 + x / 256) / 2 ^ 8 mod 256; (x mod 256 * 256 + x / 256) mod 256]; [by rewrite to_be16_eq|].
  cbn [le_bytes]. change (2 ^ 8) with 256. byte_list.
Qed.

Lemma encode_u32_be_writes x : u32 x → Writes (encode_u32 (to_be32 x)) (le_bytes 4 x) tt.
Proof.
  intros (b0 & b1 & b2 & b3 & H0 & H1 & H2 & H3 & ->)%u32_bytes.
  rewrite to_be32_of_bytes4, le_bytes_of_bytes4 by done.
  pose proof (encode_u32_writes (of_bytes4 b3 b2 b1 b0)) as Hw.
  destruct (of_bytes4_shiftr b3 b2 b1 b0) as (E0 & E1 & E2 & _ & E3); [done..|].
  by rewrite E0, E1, E2, E3 in Hw.
Qed.

(** and the decoder followed by [u16::from_be]. *)
Lemma decode_u16_le_reads x : u16 x → Reads decode_u16 (le_bytes 2 x) (to_be16 x).
Proof.
  intros Hx. rewrite to_be16_eq by done. unfold u16 in Hx. cbn [le_bytes].
  replace (x mod 256 * 256 + x / 256) with (Z.lor (Z.shiftl (x mod 256) 8) (x / 256 mod 256)); [apply decode_u16_reads|].
  rewrite lor_shiftl_add; byte_lia.
Qed.

Lemma decode_u32_le_reads x : u32 x → Reads decode_u32 (le_bytes 4 x) (to_be32 x).
Proof.
  intros (b0 & b1 & b2 & b3 & H0 & H1 & H2 & H3 & ->)%u32_bytes.
  rewrite to_be32_of_bytes4, le_bytes_of_bytes4 by done.
  replace (of_bytes4 b3 b2 b1 b0) with (Z.lor (Z.lor (Z.lor (Z.shiftl b0 24) (Z.shiftl b1 16)) (Z.shiftl b2 8)) b3);
    [apply decode_u32_reads|].
  unfold byte, of_bytes4 in *. rewrite <- !Z.lor_assoc.
  rewrite (lor_shiftl_add 8), (lor_shiftl_add 16), (lor_shiftl_add 24) by lia. lia.
Qed.

(** ** Encoders built from parts

    [Emits m pre n pre' x]: on a buffer that starts with [pre], and with room
    for [n] bytes behind it, [m] returns [x], the buffer then starts with [pre']
    and the rest of it is untouched. *)

Definition Emits {X} (m : Enc X) (pre : list Z) (n : nat) (pre' : list Z) (x : X) : Prop :=
  ∀ rest, (n ≤ length rest)%nat → m (pre ++ rest) = Ret (Done x, pre' ++ drop n rest).

Lemma Emits_ret {X} (x y : X) pre : x = y → Emits (mret x) pre 0 pre y.
Proof. by intros -> rest _. Qed.

Lemma Emits_bind {X Y} (m : Enc X) (f : X → Enc Y) pre n pre1 x k pre2 y :
  Emits m pre n pre1 x → Emits (f x) pre1 k pre2 y → Emits (m ≫= f) pre (n + k) pre2 y.
Proof.
  intros Hm Hf rest Hr. rewrite (enc_bind_done _ _ _ _ _ (Hm rest ltac:(lia))).
  rewrite Hf by (rewrite length_drop; lia). by rewrite drop_drop.
Qed.

Lemma Emits_eq {X} (m : Enc X) pre n pre' x n2 pre2 x2 :
  Emits m pre n pre' x → n = n2 → pre' = pre2 → x = x2 → Emits m pre n2 pre2 x2.
Proof. by intros H -> -> ->. Qed.

Lemma Emits_assoc {X Y W} (m : Enc X) (f : X → Enc Y) (g : Y → Enc W) pre n pre' w :
  Emits (y ← (x ← m; f x); g y) pre n pre' w → Emits (x ← m; y ← f x; g y) pre n pre' w.
Proof.
  intros H rest Hr. specialize (H rest Hr). unfold mbind, Enc_bind in *.
  by destruct (m (pre ++ rest)) as [[[x|k|] buf]|].
Qed.

Lemma Emits_cond c pre : c = true → Emits (enc_cond c) pre 0 pre tt.
Proof. by intros -> rest _. Qed.

Lemma Emits_at {A} (f : Enc (Z * A)) bs a pre off :
  Writes f bs a → off = zlen pre → Emits (enc_at off f) pre (length bs) (pre ++ bs) (zlen (pre ++ bs), a).
Proof. intros Hf Ho rest Hr. apply enc_at_writes; [done..|]. unfold zlen. lia. Qed.

Lemma Emits_consume {A} (f : Enc (Z * A)) bs a pre off :
  Writes f bs a → off = zlen pre → Emits (enc_consume off f) pre (length bs) (pre ++ bs) (zlen (pre ++ bs)).
Proof. intros Hf Ho rest Hr. eapply enc_consume_writes; [done..|]. unfold zlen. lia. Qed.

(** A field in front that is filled in last. *)
Lemma Emits_front {A} (f : Enc (Z * A)) bs a old mid :
  Writes f bs a → length old = length bs → Emits (enc_at 0 f) (old ++ mid) 0 (bs ++ mid) (zlen bs, a).
Proof.
  intros Hf Hl rest _. rewrite <- !app_assoc, (enc_at_front _ bs a) by done. by rewrite drop_0.
Qed.

Lemma Emits_front_consume {A} (f : Enc (Z * A)) bs a old mid :
  Writes f bs a → length old = length bs → Emits (enc_consume 0 f) (old ++ mid) 0 (bs ++ mid) (zlen bs).
Proof.
  intros Hf Hl rest Hr. unfold enc_consume.
  by rewrite (enc_bind_done _ _ _ _ _ (Emits_front _ _ _ _ mid Hf Hl rest Hr)).
Qed.

(** An encoder that leaves [k] bytes for such a field. *)
Lemma Writes_intro {A} (f : Enc (Z * A)) k bs (a : A) :
  (∀ old, length old = k → ∃ n, (k + n)%nat = length bs ∧ Emits f old n bs (zlen bs, a)) → Writes f bs a.
Proof.
  intros H buf Hb. unfold zlen in Hb.
  destruct (decide (k ≤ length buf)%nat) as [Hk|Hk].
  - destruct (H (take k buf)) as (n & Hn & Hf); [rewrite length_take; lia|].
    rewrite <- (take_drop k buf) at 1. rewrite Hf by (rewrite length_drop; lia).
    by rewrite drop_drop, Hn.
  - destruct (H (replicate k 0)) as (n & Hn & _); [by rewrite length_replicate|]. lia.
Qed.

Lemma Emits_len_cond k pre : k ≤ zlen pre → Emits (enc_len_cond k) pre 0 pre tt.
Proof.
  intros Hk rest _. rewrite enc_len_cond_ok; [by rewrite drop_0|].
  rewrite zlen_app. pose proof (zlen_nonneg rest). lia.
Qed.

(** ** Decoders on any buffer

    [dec_post m P]: [m] does not panic, and its result, if it is not an error,
    satisfies [P]. *)

Definition dec_post {X} (m : Dec X) (P : X → Prop) : Prop :=
  match m with Panic => False | Ret (Done x) => P x | Ret _ => True end.

(** [d] does not panic on any buffer and does not read beyond its end; [Q] holds
    of what it returns. *)
Definition Bounded {A} (d : list Z → Dec (Z * A)) (Q : A → Prop) : Prop :=
  ∀ buf, dec_post (d buf) (λ r, 0 ≤ r.1 ≤ zlen buf ∧ Q r.2).

Lemma dec_post_ret {X} (x : X) (P : X → Prop) : P x → dec_post (mret x) P.
Proof. done. Qed.

Lemma dec_post_bind {X Y} (m : Dec X) (f : X → Dec Y) (P : X → Prop) (Q : Y → Prop) :
  dec_post m P → (∀ x, P x → dec_post (f x) Q) → dec_post (m ≫= f) Q.
Proof. intros Hm Hf. destruct m as [[x|n|]|]; cbn in *; auto. Qed.

Lemma dec_post_mono {X} (m : Dec X) (P Q : X → Prop) : dec_post m P → (∀ x, P x → Q x) → dec_post m Q.
Proof. intros Hm Hi. destruct m as [[x|n|]|]; cbn in *; auto. Qed.

Lemma dec_post_cond c (P : unit → Prop) : (c = true → P tt) → dec_post (dec_cond c) P.
Proof. destruct c; cbn; auto. Qed.

Lemma dec_post_len_cond buf n (P : unit → Prop) : (n ≤ zlen buf → P tt) → dec_post (dec_len_cond buf n) P.
Proof. intros H. unfold dec_len_cond. destruct (Z.ltb_spec (zlen buf) n); cbn; auto. Qed.

Lemma dec_post_option {X} (o : option X) (P : X → Prop) :
  (∀ x, o = Some x → P x) → dec_post (dec_option o) P.
Proof. destruct o; cbn; auto. Qed.

Lemma dec_post_get buf i (P : Z → Prop) :
  0 ≤ i < zlen buf → (∀ x, x ∈ buf → P x) → dec_post (dec_get buf i) P.
Proof.
  intros Hi HP. unfold dec_get, index_get. unfold zlen in Hi.
  rewrite (proj2 (Z.ltb_ge _ _)) by lia.
  destruct (buf !! Z.to_nat i) as [x|] eqn:E; cbn; [|apply lookup_ge_None in E; lia].
  by apply HP, list_elem_of_lookup_2 with (Z.to_nat i).
Qed.

Lemma dec_post_at {A} (d : list Z → Dec (Z * A)) Q buf off (P : Z * A → Prop) :
  Bounded d Q → 0 ≤ off ≤ zlen buf →
  (∀ o a, off ≤ o ≤ zlen buf → Q a → P (o, a)) → dec_post (dec_at buf off d) P.
Proof.
  intros Hd Ho HP. unfold dec_at, get_from.
  rewrite (proj2 (Z.leb_le 0 _)), (proj2 (Z.leb_le off _)) by lia. cbn [andb].
  specialize (Hd (drop (Z.to_nat off) buf)).
  destruct (d _) as [[[o a]|n|]|]; cbn in *; [|done..].
  destruct Hd as [H HQ]. apply HP; [|done]. unfold zlen in *. rewrite length_drop in H. lia.
Qed.

Lemma decode_u8_bounded : Bounded decode_u8 (λ _, True).
Proof.
  intros buf. eapply dec_post_bind; [by apply dec_post_len_cond with (P := λ _, 1 ≤ zlen buf)|].
  intros ? H. cbn beta in H. eapply (dec_post_bind _ _ (λ _, True)); [apply dec_post_get; [lia|done]|]. cbn. lia.
Qed.

Lemma decode_u16_bounded : Bounded decode_u16 (λ _, True).
Proof.
  intros buf. eapply dec_post_bind; [by apply dec_post_len_cond with (P := λ _, 2 ≤ zlen buf)|].
  intros ? H. cbn beta in H. do 2 (eapply (dec_post_bind _ _ (λ _, True)); [apply dec_post_get; [lia|done]|intros ? ?]). cbn. lia.
Qed.

Lemma decode_u32_bounded : Bounded decode_u32 (λ _, True).
Proof.
  intros buf. eapply dec_post_bind; [by apply dec_post_len_cond with (P := λ _, 4 ≤ zlen buf)|].
  intros ? H. cbn beta in H. do 4 (eapply (dec_post_bind _ _ (λ _, True)); [apply dec_post_get; [lia|done]|intros ? ?]). cbn. lia.
Qed.

Lemma decode_bytes_be_bounded n : 0 ≤ n → Bounded (decode_bytes_be n) (λ bs, zlen bs = n).
Proof.
  intros Hn buf. eapply dec_post_bind; [by apply dec_post_len_cond with (P := λ _, n ≤ zlen buf)|].
  intros ? H. cbn beta in H. cbn. split; [lia|]. unfold zlen in *. rewrite length_reverse, length_take. lia.
Qed.

Lemma decode_bytes_bounded n : 0 ≤ n → Bounded (decode_bytes n) (λ bs, zlen bs = n).
Proof.
  intros Hn buf. eapply dec_post_bind; [by apply dec_post_len_cond with (P := λ _, n ≤ zlen buf)|].
  intros ? H. cbn beta in H. cbn. split; [lia|]. unfold zlen in *. rewrite length_take. lia.
Qed.
