(* ===== verification/Ieee802154.v ===== *)
(** * IEEE 802.15.4 MAC headers: capsules/extra/src/net/ieee802154.rs

    The header of a MAC frame, its encoder and its decoder, and the formats
    they are made of: addresses, the auxiliary security header and the
    information elements.  A [u8], [u16] or [u32] is a [Z]; an array or a slice
    of bytes is a [list Z]. *)

From S2P Require Import Prelude Bytes NetStream.

(** ** Addresses and enumerations *)

Inductive MacAddress := Short (short_addr : Z) | Long (long_addr : list Z).
Inductive AddressMode := ModeNotPresent | ModeShort | ModeLong.
#[export] Instance MacAddress_eq_dec : EqDecision MacAddress.
Proof. solve_decision. Defined.
#[export] Instance AddressMode_eq_dec : EqDecision AddressMode.
Proof. solve_decision. Defined.

Definition MacAddress_encode (addr : MacAddress) : Enc (Z * unit) :=
  match addr with
  | Short short_addr => encode_u16 (to_be16 short_addr)
  | Long long_addr => encode_bytes_be long_addr
  end.

Definition MacAddress_decode (mode : AddressMode) (buf : list Z) : Dec (Z * option MacAddress) :=
  match mode with
  | ModeNotPresent => mret (0, None)
  | ModeShort =>
      '(off, short_addr_be) ← dec_at buf 0 decode_u16;
      mret (off, Some (Short (to_be16 short_addr_be)))
  | ModeLong =>
      '(off, long_addr) ← dec_at buf 0 (decode_bytes_be 8);
      mret (off, Some (Long long_addr))
  end.

(** [mod frame_control]. *)
Definition FRAME_TYPE_MASK : Z := 7.
Definition SECURITY_ENABLED : Z := 8.
Definition FRAME_PENDING : Z := 16.
Definition ACK_REQUESTED : Z := 32.
Definition PAN_ID_COMPRESSION : Z := 64.
Definition SEQ_SUPPRESSED : Z := 256.
Definition IE_PRESENT : Z := 512.
Definition DST_MODE_POS : Z := 10.
Definition FRAME_VERSION_MASK : Z := 0x3000.
Definition SRC_MODE_POS : Z := 14.
Definition MODE_MASK : Z := 3.

Inductive FrameType :=
| Beacon | Data | Acknowledgement | MACCommand | Multipurpose | Fragment | Extended.
Definition FrameType_u16 (t : FrameType) : Z :=
  match t with
  | Beacon => 0 | Data => 1 | Acknowledgement => 2 | MACCommand => 3
  | Multipurpose => 5 | Fragment => 6 | Extended => 7
  end.
Definition FrameType_from_fcf (fcf : Z) : option FrameType :=
  match Z.land fcf FRAME_TYPE_MASK with
  | 0 => Some Beacon | 1 => Some Data | 2 => Some Acknowledgement | 3 => Some MACCommand
  | 5 => Some Multipurpose | 6 => Some Fragment | 7 => Some Extended
  | _ => None
  end.

Inductive FrameVersion := V2003 | V2006 | V2015.
#[export] Instance FrameVersion_eq_dec : EqDecision FrameVersion.
Proof. solve_decision. Defined.
Definition FrameVersion_u16 (v : FrameVersion) : Z :=
  match v with V2003 => 0 | V2006 => 0x1000 | V2015 => 0x2000 end.
Definition FrameVersion_from_fcf (fcf : Z) : option FrameVersion :=
  match Z.land fcf FRAME_VERSION_MASK with
  | 0 => Some V2003 | 0x1000 => Some V2006 | 0x2000 => Some V2015
  | _ => None
  end.

Definition AddressMode_u8 (m : AddressMode) : Z :=
  match m with ModeNotPresent => 0 | ModeShort => 2 | ModeLong => 3 end.
(** [impl From<&Option<MacAddress>> for AddressMode]. *)
Definition AddressMode_of (opt_addr : option MacAddress) : AddressMode :=
  match opt_addr with
  | None => ModeNotPresent
  | Some addr => match addr with Short _ => ModeShort | Long _ => ModeLong end
  end.
Definition AddressMode_from_mode (mode : Z) : option AddressMode :=
  match mode with
  | 0 => Some ModeNotPresent | 2 => Some ModeShort | 3 => Some ModeLong
  | _ => None
  end.

(** ** Auxiliary security header *)

(** [mod security_control]. *)
Definition SECURITY_LEVEL_MASK : Z := 7.
Definition KEY_ID_MODE_MASK : Z := 0x18.
Definition FRAME_COUNTER_SUPPRESSION : Z := 32.
Definition ASN_IN_NONCE : Z := 64.

Inductive SecurityLevel := LevelNone | Mic32 | Mic64 | Mic128 | EncMic32 | EncMic64 | EncMic128.
Definition SecurityLevel_u8 (l : SecurityLevel) : Z :=
  match l with
  | LevelNone => 0 | Mic32 => 1 | Mic64 => 2 | Mic128 => 3 | EncMic32 => 5 | EncMic64 => 6 | EncMic128 => 7
  end.
Definition SecurityLevel_from_scf (scf : Z) : option SecurityLevel :=
  match Z.land scf SECURITY_LEVEL_MASK with
  | 0 => Some LevelNone | 1 => Some Mic32 | 2 => Some Mic64 | 3 => Some Mic128
  | 5 => Some EncMic32 | 6 => Some EncMic64 | 7 => Some EncMic128
  | _ => None
  end.
Definition encryption_needed (l : SecurityLevel) : bool :=
  match l with EncMic32 | EncMic64 | EncMic128 => true | _ => false end.
Definition mic_len (l : SecurityLevel) : Z :=
  match l with
  | Mic32 | EncMic32 => 4
  | Mic64 | EncMic64 => 8
  | Mic128 | EncMic128 => 16
  | LevelNone => 0
  end.

Inductive KeyIdMode := ModeImplicit | ModeIndex | ModeSource4Index | ModeSource8Index.
Definition KeyIdMode_u8 (m : KeyIdMode) : Z :=
  match m with ModeImplicit => 0 | ModeIndex => 0x08 | ModeSource4Index => 0x10 | ModeSource8Index => 0x18 end.
(** The last arm panics; [Ret (Some _)] otherwise. *)
Definition KeyIdMode_from_scf (scf : Z) : outcome (option KeyIdMode) :=
  match Z.land scf KEY_ID_MODE_MASK with
  | 0x00 => Ret (Some ModeImplicit)
  | 0x08 => Ret (Some ModeIndex)
  | 0x10 => Ret (Some ModeSource4Index)
  | 0x18 => Ret (Some ModeSource8Index)
  | _ => Panic
  end.

Inductive KeyId :=
| KeyImplicit
| KeyIndex (index : Z)
| KeySource4Index (src : list Z) (index : Z)
| KeySource8Index (src : list Z) (index : Z).

Definition KeyId_encode (key : KeyId) : Enc (Z * unit) :=
  off ← match key with
        | KeyImplicit => mret 0
        | KeyIndex index => enc_consume 0 (encode_u8 index)
        | KeySource4Index src index | KeySource8Index src index =>
            off ← enc_consume 0 (encode_bytes_be src);
            enc_consume off (encode_u8 index)
        end;
  mret (off, tt).

Definition KeyId_decode (mode : KeyIdMode) (buf : list Z) : Dec (Z * KeyId) :=
  match mode with
  | ModeImplicit => mret (0, KeyImplicit)
  | ModeIndex =>
      '(off, index) ← dec_at buf 0 decode_u8;
      mret (off, KeyIndex index)
  | ModeSource4Index =>
      '(off, src) ← dec_at buf 0 (decode_bytes_be 4);
      '(off, index) ← dec_at buf off decode_u8;
      mret (off, KeySource4Index src index)
  | ModeSource8Index =>
      '(off, src) ← dec_at buf 0 (decode_bytes_be 8);
      '(off, index) ← dec_at buf off decode_u8;
      mret (off, KeySource8Index src index)
  end.

(** [impl From<&KeyId> for KeyIdMode]. *)
Definition KeyIdMode_of (key_id : KeyId) : KeyIdMode :=
  match key_id with
  | KeyImplicit => ModeImplicit
  | KeyIndex _ => ModeIndex
  | KeySource4Index _ _ => ModeSource4Index
  | KeySource8Index _ _ => ModeSource8Index
  end.

Record Security := mkSecurity {
  level : SecurityLevel;
  asn_in_nonce : bool;
  frame_counter : option Z;
  key_id : KeyId
}.

Definition Security_encode (self : Security) : Enc (Z * unit) :=
  enc_len_cond 1;;
  let off := 1 in
  let scf := SecurityLevel_u8 (level self) in
  let scf := if asn_in_nonce self then Z.lor scf ASN_IN_NONCE else scf in
  '(off, scf) ← match frame_counter self with
                | Some fc => off ← enc_consume off (encode_u32 (to_be32 fc)); mret (off, scf)
                | None => mret (off, Z.lor scf FRAME_COUNTER_SUPPRESSION)
                end;
  let scf := Z.lor scf (KeyIdMode_u8 (KeyIdMode_of (key_id self))) in
  off ← enc_consume off (KeyId_encode (key_id self));
  _ ← enc_at 0 (encode_u8 scf);
  mret (off, tt).

Definition Security_decode (buf : list Z) : Dec (Z * Security) :=
  '(off, scf) ← dec_at buf 0 decode_u8;
  level ← dec_option (SecurityLevel_from_scf scf);
  let asn_in_nonce := negb (Z.land scf ASN_IN_NONCE =? 0) in
  let frame_counter_present := Z.land scf FRAME_COUNTER_SUPPRESSION =? 0 in
  '(off, frame_counter) ←
    (if frame_counter_present then
       '(off, frame_counter_be) ← dec_at buf off decode_u32;
       mret (off, Some (to_be32 frame_counter_be))
     else mret (off, None));
  key_id_mode ← match KeyIdMode_from_scf scf with Ret m => dec_option m | Panic => Panic end;
  '(off, key_id) ← dec_at buf off (KeyId_decode key_id_mode);
  mret (off, mkSecurity level asn_in_nonce frame_counter key_id).

(** ** Information elements *)

(** [mod ie_control]. *)
Definition HEADER_LEN_MAX : Z := 127.
Definition HEADER_LEN_MASK : Z := HEADER_LEN_MAX.
Definition HEADER_ID_POS : Z := 7.
Definition PAYLOAD_LEN_MAX : Z := 2047.
Definition PAYLOAD_LEN_MASK : Z := PAYLOAD_LEN_MAX.
Definition PAYLOAD_ID_MASK : Z := 0xf.
Definition PAYLOAD_ID_POS : Z := 11.
Definition IE_TYPE : Z := 0x8000.

Definition as_u16 (x : Z) : Z := Z.land x 0xFFFF.

Inductive HeaderIE :=
| HeaderUndissected (element_id : Z) (content : list Z)
| HeaderTermination1
| HeaderTermination2.

Definition HeaderIE_is_termination (ie : HeaderIE) : bool :=
  match ie with HeaderTermination1 | HeaderTermination2 => true | _ => false end.

Definition HeaderIE_encode (self : HeaderIE) : Enc (Z * unit) :=
  '(off, element_id) ←
    match self with
    | HeaderUndissected element_id content =>
        off ← enc_consume 2 (encode_bytes content); mret (off, element_id)
    | HeaderTermination1 => mret (2, 0x7e)
    | HeaderTermination2 => mret (2, 0x7f)
    end;
  let content_len := off - 2 in
  enc_cond (content_len <=? HEADER_LEN_MAX);;
  let ie_ctl := Z.lor (Z.land (as_u16 content_len) HEADER_LEN_MASK) (as_u16 (Z.shiftl element_id HEADER_ID_POS)) in
  _ ← enc_consume 0 (encode_u16 (to_be16 ie_ctl));
  mret (off, tt).

(** [&buf[lo..hi]]. *)
Definition dec_slice (buf : list Z) (lo hi : Z) : Dec (list Z) :=
  match get_range buf lo hi with Some s => mret s | None => Panic end.

Definition HeaderIE_decode (buf : list Z) : Dec (Z * HeaderIE) :=
  '(off, ie_ctl_be) ← dec_at buf 0 decode_u16;
  let ie_ctl := to_be16 ie_ctl_be in
  dec_cond (Z.land ie_ctl IE_TYPE =? 0);;
  let content_len := Z.land ie_ctl HEADER_LEN_MASK in
  let element_id := as_u8 (Z.shiftr ie_ctl HEADER_ID_POS) in
  dec_len_cond buf (off + content_len);;
  content ← dec_slice buf off (off + content_len);
  let ie := match element_id with
            | 0x7e => HeaderTermination1
            | 0x7f => HeaderTermination2
            | element_id => HeaderUndissected element_id content
            end in
  mret (off + content_len, ie).

Inductive PayloadIE :=
| PayloadUndissected (group_id : Z) (content : list Z)
| PayloadTermination.

Definition PayloadIE_is_termination (ie : PayloadIE) : bool :=
  match ie with PayloadTermination => true | _ => false end.

Definition PayloadIE_encode (self : PayloadIE) : Enc (Z * unit) :=
  '(off, group_id) ←
    match self with
    | PayloadUndissected group_id content =>
        off ← enc_consume 2 (encode_bytes content); mret (off, group_id)
    | PayloadTermination => mret (2, 0xf)
    end;
  let content_len := off - 2 in
  enc_cond (content_len <=? PAYLOAD_LEN_MAX);;
  let ie_ctl := Z.lor (Z.land (as_u16 content_len) PAYLOAD_LEN_MASK)
                  (as_u16 (Z.shiftl (Z.land group_id PAYLOAD_ID_MASK) PAYLOAD_ID_POS)) in
  _ ← enc_consume 0 (encode_u16 (to_be16 ie_ctl));
  mret (off, tt).

Definition PayloadIE_decode (buf : list Z) : Dec (Z * PayloadIE) :=
  '(off, ie_ctl_be) ← dec_at buf 0 decode_u16;
  let ie_ctl := to_be16 ie_ctl_be in
  dec_cond (negb (Z.land ie_ctl IE_TYPE =? 0));;
  let content_len := Z.land ie_ctl PAYLOAD_LEN_MASK in
  let element_id := Z.land (as_u8 (Z.shiftr ie_ctl PAYLOAD_ID_POS)) PAYLOAD_ID_MASK in
  dec_len_cond buf (off + content_len);;
  content ← dec_slice buf off (off + content_len);
  let ie := match element_id with
            | 0xf => PayloadTermination
            | group_id => PayloadUndissected group_id content
            end in
  mret (off + content_len, ie).

(** ** The header *)

Definition MAX_HEADER_IES : Z := 5.
Definition MAX_PAYLOAD_IES : Z := 5.

Record Header := mkHeader {
  frame_type : FrameType;
  frame_pending : bool;
  ack_requested : bool;
  version : FrameVersion;
  seq : option Z;
  dst_pan : option Z;
  dst_addr : option MacAddress;
  src_pan : option Z;
  src_addr : option MacAddress;
  security : option Security;
  header_ies : list HeaderIE;
  header_ies_len : Z;
  payload_ies : list PayloadIE;
  payload_ies_len : Z
}.

(** The first half of [encode_addressing]: the pan ID compression flag and
    [drop_src_pan], or the early return. *)
Definition addressing_mode (h : Header) : Enc (bool * bool) :=
  match version h with
  | V2015 =>
      match dst_addr h, src_addr h with
      | None, None => enc_cond (negb (bool_decide (is_Some (src_pan h))));; mret (bool_decide (is_Some (dst_pan h)), false)
      | Some _, None =>
          enc_cond (negb (bool_decide (is_Some (src_pan h))));; mret (negb (bool_decide (is_Some (dst_pan h))), false)
      | None, Some _ =>
          enc_cond (negb (bool_decide (is_Some (dst_pan h))));; mret (negb (bool_decide (is_Some (src_pan h))), false)
      | Some _, Some _ =>
          match dst_pan h, src_pan h with
          | Some dst, Some src => mret (dst =? src, dst =? src)
          | _, _ => enc_err
          end
      end
  | V2003 | V2006 =>
      enc_cond (Bool.eqb (bool_decide (is_Some (dst_addr h))) (bool_decide (is_Some (dst_pan h))));;
      enc_cond (Bool.eqb (bool_decide (is_Some (src_addr h))) (bool_decide (is_Some (src_pan h))));;
      let drop_src_pan := match dst_pan h, src_pan h with Some dst, Some src => dst =? src | _, _ => false end in
      mret (drop_src_pan, drop_src_pan)
  end.

(** [if let Some(x) = o { off = enc_consume!(buf, off; f, x) }]. *)
Definition enc_opt {X} (o : option X) (f : X → Enc (Z * unit)) (off : Z) : Enc Z :=
  match o with Some x => enc_consume off (f x) | None => mret off end.

Definition encode_addressing (h : Header) : Enc (Z * bool) :=
  '(pan_id_compression, drop_src_pan) ← addressing_mode h;
  off ← enc_opt (dst_pan h) (λ pan, encode_u16 (to_be16 pan)) 0;
  off ← enc_opt (dst_addr h) MacAddress_encode off;
  off ← (if negb drop_src_pan then enc_opt (src_pan h) (λ pan, encode_u16 (to_be16 pan)) off else mret off);
  off ← enc_opt (src_addr h) MacAddress_encode off;
  mret (off, pan_id_compression).

(** The loops over the information elements. *)
Fixpoint encode_header_ies (ies : list HeaderIE) (off : Z) : Enc Z :=
  match ies with
  | [] => mret off
  | ie :: ies =>
      enc_cond (negb (HeaderIE_is_termination ie));;
      off ← enc_consume off (HeaderIE_encode ie);
      encode_header_ies ies off
  end.
Fixpoint encode_payload_ies (ies : list PayloadIE) (off : Z) : Enc Z :=
  match ies with
  | [] => mret off
  | ie :: ies =>
      enc_cond (negb (PayloadIE_is_termination ie));;
      off ← enc_consume off (PayloadIE_encode ie);
      encode_payload_ies ies off
  end.

Definition or_flag (c : bool) (flag fcf : Z) : Z := if c then Z.lor fcf flag else fcf.

(** The frame control field of [Header::encode], in the order of its updates. *)
Definition header_fcf (ft : FrameType) (security_enabled pending ack pan_id_compression seq_suppressed ie_present : bool)
    (dst_mode : AddressMode) (v : FrameVersion) (src_mode : AddressMode) : Z :=
  let fcf := FrameType_u16 ft in
  let fcf := or_flag security_enabled SECURITY_ENABLED fcf in
  let fcf := or_flag pending FRAME_PENDING fcf in
  let fcf := or_flag ack ACK_REQUESTED fcf in
  let fcf := or_flag pan_id_compression PAN_ID_COMPRESSION fcf in
  let fcf := or_flag seq_suppressed SEQ_SUPPRESSED fcf in
  let fcf := or_flag ie_present IE_PRESENT fcf in
  let fcf := Z.lor fcf (as_u16 (Z.shiftl (AddressMode_u8 dst_mode) DST_MODE_POS)) in
  let fcf := Z.lor fcf (FrameVersion_u16 v) in
  Z.lor fcf (as_u16 (Z.shiftl (AddressMode_u8 src_mode) SRC_MODE_POS)).

(** [Header::encode]: the offset behind the header and that of the MAC payload,
    which starts with the payload elements. *)
Definition Header_encode (h : Header) (has_payload : bool) : Enc (Z * Z) :=
  enc_len_cond 2;;
  let off := 2 in
  (if bool_decide (version h ≠ V2015) then enc_cond (bool_decide (is_Some (seq h))) else mret tt);;
  '(off, seq_suppressed) ←
    match seq h with
    | Some seq => off ← enc_consume off (encode_u8 seq); mret (off, false)
    | None => mret (off, true)
    end;
  '(off, pan_id_compression) ← enc_at off (encode_addressing h);
  '(off, security_enabled) ←
    match security h with
    | None => mret (off, false)
    | Some security => off ← enc_consume off (Security_encode security); mret (off, true)
    end;
  let has_header_ies := negb (header_ies_len h =? 0) in
  let has_payload_ies := negb (payload_ies_len h =? 0) in
  enc_cond (header_ies_len h <=? MAX_HEADER_IES);;
  enc_cond (payload_ies_len h <=? MAX_PAYLOAD_IES);;
  off ← encode_header_ies (take (Z.to_nat (header_ies_len h)) (header_ies h)) off;
  off ← (if has_payload_ies then enc_consume off (HeaderIE_encode HeaderTermination1)
         else if has_header_ies && has_payload then enc_consume off (HeaderIE_encode HeaderTermination2)
         else mret off);
  let mac_payload_off := off in
  off ← encode_payload_ies (take (Z.to_nat (payload_ies_len h)) (payload_ies h)) off;
  off ← (if has_payload_ies && has_payload then enc_consume off (PayloadIE_encode PayloadTermination) else mret off);
  let ie_present := has_header_ies || has_payload_ies in
  let fcf := header_fcf (frame_type h) security_enabled (frame_pending h) (ack_requested h) pan_id_compression
               seq_suppressed ie_present (AddressMode_of (dst_addr h)) (version h) (AddressMode_of (src_addr h)) in
  _ ← enc_at 0 (encode_u16 (to_be16 fcf));
  mret (off, mac_payload_off).

Definition not_present (m : AddressMode) : bool := bool_decide (m = ModeNotPresent).

(** The first half of [decode_addressing]: which pan IDs are in the frame, and
    whether that of the source is taken from the destination. *)
Definition pan_presence (v : FrameVersion) (dst_mode src_mode : AddressMode) (pan_id_compression : bool)
    : bool * bool * bool :=
  let dst_present := negb (not_present dst_mode) in
  let src_present := negb (not_present src_mode) in
  match v with
  | V2015 =>
      match dst_present, src_present with
      | false, false => (pan_id_compression, false, false)
      | true, false => (negb pan_id_compression, false, false)
      | false, true => (false, negb pan_id_compression, false)
      | true, true => (true, negb pan_id_compression, pan_id_compression)
      end
  | V2003 | V2006 => (dst_present, src_present && negb pan_id_compression, pan_id_compression)
  end.

Definition decode_addressing (v : FrameVersion) (dst_mode src_mode : AddressMode) (pan_id_compression : bool)
    (buf : list Z) : Dec (Z * (option Z * option MacAddress * option Z * option MacAddress)) :=
  let '(dst_pan_present, src_pan_present, src_pan_dropped) := pan_presence v dst_mode src_mode pan_id_compression in
  '(off, dst_pan) ←
    (if dst_pan_present then '(off, pan_be) ← dec_at buf 0 decode_u16; mret (off, Some (to_be16 pan_be))
     else mret (0, None));
  '(off, dst_addr) ← dec_at buf off (MacAddress_decode dst_mode);
  '(off, src_pan) ←
    (if src_pan_present then '(off, pan_be) ← dec_at buf off decode_u16; mret (off, Some (to_be16 pan_be))
     else if src_pan_dropped then pan ← dec_option dst_pan; mret (off, Some pan)
     else mret (off, None));
  '(off, src_addr) ← dec_at buf off (MacAddress_decode src_mode);
  mret (off, (dst_pan, dst_addr, src_pan, src_addr)).

(** [array[len] = ie]. *)
Definition ies_set {I} (ies : list I) (len : Z) (ie : I) : Dec (list I) :=
  ies ← index_set ies len ie; Ret (Done ies).

(** The loops of [Header::decode].  An iteration stores an element or leaves the
    loop and the guard on [len] admits four, so that five iterations of fuel are
    never used up (lemma [decode_header_ies_bounded] of Ieee802154Theorems.v). *)
Fixpoint decode_header_ies (fuel : nat) (buf : list Z) (off : Z) (ies : list HeaderIE) (len : Z)
    : Dec (Z * bool * list HeaderIE * Z) :=
  match fuel with
  | O => Panic
  | S fuel =>
      '(next_off, ie) ← dec_at buf off HeaderIE_decode;
      match ie with
      | HeaderTermination1 => mret (next_off, true, ies, len)
      | HeaderTermination2 => mret (next_off, false, ies, len)
      | other_ie =>
          dec_cond (len + 1 <? MAX_HEADER_IES);;
          ies ← ies_set ies len other_ie;
          decode_header_ies fuel buf next_off ies (len + 1)
      end
  end.
Fixpoint decode_payload_ies (fuel : nat) (buf : list Z) (off : Z) (ies : list PayloadIE) (len : Z)
    : Dec (Z * list PayloadIE * Z) :=
  match fuel with
  | O => Panic
  | S fuel =>
      '(next_off, ie) ← dec_at buf off PayloadIE_decode;
      match ie with
      | PayloadTermination => mret (next_off, ies, len)
      | other_ie =>
          dec_cond (len + 1 <? MAX_PAYLOAD_IES);;
          ies ← ies_set ies len other_ie;
          decode_payload_ies fuel buf next_off ies (len + 1)
      end
  end.

Definition flag_set (fcf flag : Z) : bool := negb (Z.land fcf flag =? 0).

Definition Header_decode (unsecured : bool) (buf : list Z) : Dec (Z * (Header * Z)) :=
  '(off, fcf_be) ← dec_at buf 0 decode_u16;
  let fcf := to_be16 fcf_be in
  frame_type ← dec_option (FrameType_from_fcf fcf);
  let security_enabled := flag_set fcf SECURITY_ENABLED in
  let frame_pending := flag_set fcf FRAME_PENDING in
  let ack_requested := flag_set fcf ACK_REQUESTED in
  let pan_id_compression := flag_set fcf PAN_ID_COMPRESSION in
  let seq_suppressed := flag_set fcf SEQ_SUPPRESSED in
  let ie_present := flag_set fcf IE_PRESENT in
  dst_mode ← dec_option (AddressMode_from_mode (Z.land (Z.shiftr fcf DST_MODE_POS) MODE_MASK));
  version ← dec_option (FrameVersion_from_fcf fcf);
  src_mode ← dec_option (AddressMode_from_mode (Z.land (Z.shiftr fcf SRC_MODE_POS) MODE_MASK));
  '(off, seq) ← (if negb seq_suppressed then '(off, seq) ← dec_at buf off decode_u8; mret (off, Some seq)
                 else mret (off, None));
  '(off, (dst_pan, dst_addr, src_pan, src_addr)) ←
    dec_at buf off (decode_addressing version dst_mode src_mode pan_id_compression);
  '(off, security) ←
    (if security_enabled then '(off, security) ← dec_at buf off Security_decode; mret (off, Some security)
     else mret (off, None));
  let header_ies := replicate 5 HeaderTermination1 in
  let payload_ies := replicate 5 PayloadTermination in
  '(off, has_payload_ies, header_ies, header_ies_len) ←
    (if ie_present : bool then decode_header_ies 5 buf off header_ies 0 else mret (off, false, header_ies, 0));
  let mac_payload_off := off in
  let unencrypted := unsecured || negb security_enabled in
  '(off, payload_ies, payload_ies_len) ←
    (if has_payload_ies && unencrypted : bool then decode_payload_ies 5 buf off payload_ies 0
     else mret (off, payload_ies, 0));
  mret (off, (mkHeader frame_type frame_pending ack_requested version seq dst_pan dst_addr src_pan src_addr security
                header_ies header_ies_len payload_ies payload_ies_len, mac_payload_off)).
