(* ===== verification/Ieee802154Theorems.v ===== *)
(** * The MAC header: safety of the decoder, round trip with the encoder

    The decoder runs on frames received over the air: it returns on every
    buffer, within its bounds.  What the encoder writes for a header that the
    format can carry, the decoder reads back. *)

From S2P Require Import Prelude Bytes NetStream Ieee802154.

(** ** The decoder on any buffer *)

(** The weakest precondition of the next step of a decoder. *)
Ltac dpost :=
  match goal with
  | |- dec_post (dec_at _ _ _) _ => eapply dec_post_at; [|lia|]
  | |- dec_post (dec_option _) _ => apply dec_post_option; intros ? ?
  | |- dec_post (dec_cond _) _ => apply dec_post_cond; intros ?
  | |- dec_post (dec_len_cond _ _) _ => apply dec_post_len_cond; intros ?
  | |- dec_post (mret _) _ => apply dec_post_ret
  end.

Lemma MacAddress_decode_bounded mode :
  Bounded (MacAddress_decode mode) (λ a, AddressMode_of a = mode).
Proof.
  intros buf. pose proof (zlen_nonneg buf). destruct mode; cbn [MacAddress_decode].
  - cbn. split; [lia|done].
  - eapply (dec_post_bind _ _ (λ r, 0 ≤ r.1 ≤ zlen buf)).
    + dpost; [apply decode_u16_bounded|]. cbn. lia.
    + intros [o x] Hx. apply dec_post_ret. cbn in *. auto.
  - eapply (dec_post_bind _ _ (λ r, 0 ≤ r.1 ≤ zlen buf)).
    + dpost; [by apply decode_bytes_be_bounded|]. cbn. lia.
    + intros [o x] Hx. apply dec_post_ret. cbn in *. auto.
Qed.

Lemma KeyId_decode_bounded mode : Bounded (KeyId_decode mode) (λ k, KeyIdMode_of k = mode).
Proof.
  intros buf. pose proof (zlen_nonneg buf).
  assert (Hsrc : ∀ n f, 0 ≤ n → (∀ s i, KeyIdMode_of (f s i) = mode) →
    dec_post ('(off, src) ← dec_at buf 0 (decode_bytes_be n); '(off, index) ← dec_at buf off decode_u8;
              mret (off, f src index)) (λ r, 0 ≤ r.1 ≤ zlen buf ∧ KeyIdMode_of r.2 = mode)).
  { intros n f Hn Hf. eapply (dec_post_bind _ _ (λ r, 0 ≤ r.1 ≤ zlen buf)).
    - dpost; [by apply decode_bytes_be_bounded|]. cbn. lia.
    - intros [o s] Ho. cbn in Ho. eapply (dec_post_bind _ _ (λ r, 0 ≤ r.1 ≤ zlen buf)).
      + dpost; [apply decode_u8_bounded|]. cbn. lia.
      + intros [o' i] Hi. apply dec_post_ret. cbn in *. auto. }
  destruct mode; cbn [KeyId_decode]; [cbn; split; [lia|done]| |by apply Hsrc..].
  eapply (dec_post_bind _ _ (λ r, 0 ≤ r.1 ≤ zlen buf)).
  - dpost; [apply decode_u8_bounded|]. cbn. lia.
  - intros [o x] Hx. apply dec_post_ret. cbn in *. auto.
Qed.

(** The mask of [KeyIdMode::from_scf] leaves four values: the panic of its last
    arm is unreachable. *)
Lemma KeyIdMode_from_scf_total scf : ∃ m, KeyIdMode_from_scf scf = Ret (Some m).
Proof.
  assert (E : Z.land scf KEY_ID_MODE_MASK = Z.shiftl (Z.shiftr scf 3 mod 4) 3).
  { change 4 with (2 ^ 2). rewrite <- Z.land_ones by lia. change KEY_ID_MODE_MASK with (Z.shiftl (Z.ones 2) 3).
    apply Z.bits_inj'. intros i Hi. rewrite Z.land_spec. destruct (decide (i < 3)).
    - rewrite !Z.shiftl_spec_low by lia. apply andb_false_r.
    - rewrite !Z.shiftl_spec_high, Z.land_spec, Z.shiftr_spec by lia. repeat f_equal. lia. }
  unfold KeyIdMode_from_scf. rewrite E.
  assert (H : 0 ≤ Z.shiftr scf 3 mod 4 < 4) by (apply Z.mod_pos_bound; lia).
  assert (Hc : Z.shiftr scf 3 mod 4 = 0 ∨ Z.shiftr scf 3 mod 4 = 1 ∨ Z.shiftr scf 3 mod 4 = 2 ∨ Z.shiftr scf 3 mod 4 = 3)
    by lia.
  destruct Hc as [->|[->|[->| ->]]]; cbn; eauto.
Qed.

Lemma Security_decode_bounded : Bounded Security_decode (λ _, True).
Proof.
  intros buf. pose proof (zlen_nonneg buf). unfold Security_decode.
  eapply (dec_post_bind _ _ (λ r, 0 ≤ r.1 ≤ zlen buf)); [dpost; [apply decode_u8_bounded|cbn; lia]|].
  intros [o scf] Ho. cbn in Ho. eapply (dec_post_bind _ _ (λ _, True)); [by dpost|]. intros lvl ?.
  eapply (dec_post_bind _ _ (λ r, 0 ≤ r.1 ≤ zlen buf)).
  { destruct (_ =? 0); [|by apply dec_post_ret].
    eapply (dec_post_bind _ _ (λ r, 0 ≤ r.1 ≤ zlen buf)); [dpost; [apply decode_u32_bounded|cbn; lia]|].
    intros [o' x] ?. by apply dec_post_ret. }
  intros [o' fc] Ho'. cbn in Ho'. destruct (KeyIdMode_from_scf_total scf) as [m ->].
  eapply (dec_post_bind _ _ (λ _, True)); [by dpost|]. intros m' ?.
  eapply (dec_post_bind _ _ (λ r, 0 ≤ r.1 ≤ zlen buf)); [dpost; [apply KeyId_decode_bounded|cbn; lia]|].
  intros [o'' k] ?. by apply dec_post_ret.
Qed.

Lemma dec_post_slice buf lo hi (P : list Z → Prop) :
  0 ≤ lo ≤ hi → hi ≤ zlen buf → (∀ s, zlen s = hi - lo → P s) → dec_post (dec_slice buf lo hi) P.
Proof.
  intros H1 H2 HP. unfold dec_slice, get_range.
  rewrite (proj2 (Z.leb_le 0 _)), (proj2 (Z.leb_le lo _)), (proj2 (Z.leb_le hi _)) by lia. cbn.
  apply HP. unfold zlen in *. rewrite length_take, length_drop. lia.
Qed.

Lemma HeaderIE_decode_bounded : Bounded HeaderIE_decode (λ _, True).
Proof.
  intros buf. pose proof (zlen_nonneg buf). unfold HeaderIE_decode.
  eapply (dec_post_bind _ _ (λ r, 0 ≤ r.1 ≤ zlen buf)); [dpost; [apply decode_u16_bounded|cbn; lia]|].
  intros [o c] Ho. cbn in Ho. eapply (dec_post_bind _ _ (λ _, True)); [by dpost|]. intros ? ?. cbn beta zeta in *.
  set (len := Z.land (to_be16 c) HEADER_LEN_MASK).
  assert (0 ≤ len) by (by apply land_mask_nonneg).
  eapply (dec_post_bind _ _ (λ _, o + len ≤ zlen buf)); [by dpost|]. intros ? ?. cbn beta in *.
  eapply (dec_post_bind _ _ (λ _, True)); [by apply dec_post_slice; try lia|]. intros s ?.
  apply dec_post_ret. cbn. lia.
Qed.

Lemma PayloadIE_decode_bounded : Bounded PayloadIE_decode (λ _, True).
Proof.
  intros buf. pose proof (zlen_nonneg buf). unfold PayloadIE_decode.
  eapply (dec_post_bind _ _ (λ r, 0 ≤ r.1 ≤ zlen buf)); [dpost; [apply decode_u16_bounded|cbn; lia]|].
  intros [o c] Ho. cbn in Ho. eapply (dec_post_bind _ _ (λ _, True)); [by dpost|]. intros ? ?. cbn beta zeta in *.
  set (len := Z.land (to_be16 c) PAYLOAD_LEN_MASK).
  assert (0 ≤ len) by (by apply land_mask_nonneg).
  eapply (dec_post_bind _ _ (λ _, o + len ≤ zlen buf)); [by dpost|]. intros ? ?. cbn beta in *.
  eapply (dec_post_bind _ _ (λ _, True)); [by apply dec_post_slice; try lia|]. intros s ?.
  apply dec_post_ret. cbn. lia.
Qed.

Lemma decode_addressing_bounded v dm sm c :
  Bounded (decode_addressing v dm sm c) (λ _, True).
Proof.
  intros buf. pose proof (zlen_nonneg buf). unfold decode_addressing.
  destruct (pan_presence v dm sm c) as [[dp sp] sd].
  assert (Hpan : ∀ off, 0 ≤ off ≤ zlen buf →
    dec_post ('(off, pan_be) ← dec_at buf off decode_u16; mret (off, Some (to_be16 pan_be))) (λ r, 0 ≤ r.1 ≤ zlen buf)).
  { intros off Hoff. eapply (dec_post_bind _ _ (λ r, 0 ≤ r.1 ≤ zlen buf)); [dpost; [apply decode_u16_bounded|cbn; lia]|].
    intros [o x] ?. by apply dec_post_ret. }
  eapply (dec_post_bind _ _ (λ r, 0 ≤ r.1 ≤ zlen buf)).
  { destruct dp; [apply Hpan; lia|by apply dec_post_ret]. }
  intros [o1 p1] H1. cbn in H1.
  eapply (dec_post_bind _ _ (λ r, 0 ≤ r.1 ≤ zlen buf)); [dpost; [apply MacAddress_decode_bounded|cbn; lia]|].
  intros [o2 a1] H2. cbn in H2.
  eapply (dec_post_bind _ _ (λ r, 0 ≤ r.1 ≤ zlen buf)).
  { destruct sp; [by apply Hpan|]. destruct sd; [|by apply dec_post_ret].
    eapply (dec_post_bind _ _ (λ _, True)); [by dpost|]. intros p ?. by apply dec_post_ret. }
  intros [o3 p2] H3. cbn in H3.
  eapply (dec_post_bind _ _ (λ r, 0 ≤ r.1 ≤ zlen buf)); [dpost; [apply MacAddress_decode_bounded|cbn; lia]|].
  intros [o4 a2] H4. by apply dec_post_ret.
Qed.

(** Five iterations suffice for both loops. *)
Lemma decode_header_ies_bounded fuel buf off ies len :
  0 ≤ off ≤ zlen buf → length ies = 5%nat → 0 ≤ len → len + Z.of_nat fuel = 5 → (1 ≤ fuel)%nat →
  dec_post (decode_header_ies fuel buf off ies len)
    (λ '(o, _, ies', len'), off ≤ o ≤ zlen buf ∧ length ies' = 5%nat ∧ 0 ≤ len' < MAX_HEADER_IES).
Proof.
  revert off ies len. induction fuel as [|fuel IH]; intros off ies len Ho Hl Hn Hf H1; [lia|].
  cbn [decode_header_ies].
  eapply (dec_post_bind _ _ (λ r, off ≤ r.1 ≤ zlen buf)); [dpost; [apply HeaderIE_decode_bounded|cbn; lia]|].
  intros [o ie] Ho'. cbn in Ho'. unfold MAX_HEADER_IES.
  destruct ie; [|apply dec_post_ret; repeat split; lia..].
  eapply (dec_post_bind _ _ (λ _, len + 1 < 5)); [dpost; by apply Z.ltb_lt|]. intros ? Hlt. cbn beta in Hlt.
  unfold ies_set. rewrite index_set_Ret by lia. cbn.
  eapply dec_post_mono; [apply IH; [lia|by rewrite length_insert|lia..]|].
  intros [[[o' b] ies'] len'] (? & ? & ?). unfold MAX_HEADER_IES in *. repeat split; try done; lia.
Qed.

Lemma decode_payload_ies_bounded fuel buf off ies len :
  0 ≤ off ≤ zlen buf → length ies = 5%nat → 0 ≤ len → len + Z.of_nat fuel = 5 → (1 ≤ fuel)%nat →
  dec_post (decode_payload_ies fuel buf off ies len)
    (λ '(o, ies', len'), off ≤ o ≤ zlen buf ∧ length ies' = 5%nat ∧ 0 ≤ len' < MAX_PAYLOAD_IES).
Proof.
  revert off ies len. induction fuel as [|fuel IH]; intros off ies len Ho Hl Hn Hf H1; [lia|].
  cbn [decode_payload_ies].
  eapply (dec_post_bind _ _ (λ r, off ≤ r.1 ≤ zlen buf)); [dpost; [apply PayloadIE_decode_bounded|cbn; lia]|].
  intros [o ie] Ho'. cbn in Ho'. unfold MAX_PAYLOAD_IES.
  destruct ie; [|apply dec_post_ret; repeat split; lia..].
  eapply (dec_post_bind _ _ (λ _, len + 1 < 5)); [dpost; by apply Z.ltb_lt|]. intros ? Hlt. cbn beta in Hlt.
  unfold ies_set. rewrite index_set_Ret by lia. cbn.
  eapply dec_post_mono; [apply IH; [lia|by rewrite length_insert|lia..]|].
  intros [[o' ies'] len'] (? & ? & ?). unfold MAX_PAYLOAD_IES in *. repeat split; try done; lia.
Qed.

(** The frame control field occupies two bytes. *)
Lemma decode_u16_front buf : dec_post (dec_at buf 0 decode_u16) (λ r, r.1 = 2 ∧ 2 ≤ zlen buf).
Proof.
  unfold dec_at, get_from. rewrite (proj2 (Z.leb_le 0 (zlen buf))) by apply zlen_nonneg. cbn [andb Z.leb Z.to_nat].
  destruct buf as [|b0 [|b1 buf]]; [done..|]. rewrite drop_0. change (b0 :: b1 :: buf) with ([b0; b1] ++ buf).
  change (0 <=? 0) with true. cbn [andb]. rewrite decode_u16_reads. cbn.
  unfold zlen. cbn. lia.
Qed.

(** What holds of the arrays of a decoded header. *)
Definition ies_fit (h : Header) : Prop :=
  length (header_ies h) = 5%nat ∧ 0 ≤ header_ies_len h < MAX_HEADER_IES ∧
  length (payload_ies h) = 5%nat ∧ 0 ≤ payload_ies_len h < MAX_PAYLOAD_IES.

(** [Header::decode] returns on every buffer, of any length and content, and for
    both values of [unsecured]: no slice or index panics, no offset passes the
    end of the buffer, the loops over information elements end.  The offset of
    the MAC payload lies behind the frame control field and not behind the end
    of the header, and the arrays of elements are used within their lengths. *)
Theorem header_decode_safe (unsecured : bool) (buf : list Z) :
  dec_post (Header_decode unsecured buf)
    (λ '(off, (h, mac_payload_off)), 2 ≤ mac_payload_off ≤ off ∧ off ≤ zlen buf ∧ ies_fit h).
Proof.
  unfold Header_decode.
  eapply dec_post_bind; [apply decode_u16_front|]. intros [o0 fcf] [Ho0 Hb]. cbn in Ho0. cbn zeta. subst o0.
  do 4 (eapply (dec_post_bind _ _ (λ _, True)); [by dpost|]; intros ? _).
  eapply (dec_post_bind _ _ (λ r, 2 ≤ r.1 ≤ zlen buf)).
  { destruct (negb _); [|apply dec_post_ret; cbn; lia].
    eapply (dec_post_bind _ _ (λ r, 2 ≤ r.1 ≤ zlen buf)); [dpost; [apply decode_u8_bounded|cbn; lia]|].
    intros [o s] ?. by apply dec_post_ret. }
  intros [o1 sq] H1. cbn in H1.
  eapply (dec_post_bind _ _ (λ r, 2 ≤ r.1 ≤ zlen buf)); [dpost; [apply decode_addressing_bounded|cbn; lia]|].
  intros [o2 [[[dp da] sp] sa]] H2. cbn in H2.
  eapply (dec_post_bind _ _ (λ r, 2 ≤ r.1 ≤ zlen buf)).
  { destruct (flag_set _ SECURITY_ENABLED); [|by apply dec_post_ret].
    eapply (dec_post_bind _ _ (λ r, 2 ≤ r.1 ≤ zlen buf)); [dpost; [apply Security_decode_bounded|cbn; lia]|].
    intros [o s] ?. by apply dec_post_ret. }
  intros [o3 sec] H3. cbn in H3.
  eapply (dec_post_bind _ _ (λ '(o, _, ies, len), 2 ≤ o ≤ zlen buf ∧ length ies = 5%nat ∧ 0 ≤ len < MAX_HEADER_IES)).
  { destruct (flag_set _ IE_PRESENT); [|by apply dec_post_ret].
    eapply dec_post_mono; [apply decode_header_ies_bounded; try done; lia|].
    intros [[[o b] ies] len] (? & ? & ?). repeat split; try done; lia. }
  intros [[[o4 hp] ies] len] (H4 & Hl & Hlen). cbn in H4.
  eapply (dec_post_bind _ _ (λ '(o, ies, len), o4 ≤ o ≤ zlen buf ∧ length ies = 5%nat ∧ 0 ≤ len < MAX_PAYLOAD_IES)).
  { destruct (_ && _); [apply decode_payload_ies_bounded; try done; lia|apply dec_post_ret; repeat split; try done; lia]. }
  intros [[o5 pies] plen] (H5 & Hpl & Hplen). apply dec_post_ret. unfold ies_fit. cbn. repeat split; try done; lia.
Qed.

(** ** The bytes of a header

    The format as a reference: the bytes of each part, and which values the
    format can carry. *)

Definition mac_bytes (a : MacAddress) : list Z :=
  match a with Short x => le_bytes 2 x | Long l => reverse l end.
Definition mac_ok (a : MacAddress) : Prop :=
  match a with Short x => u16 x | Long l => length l = 8%nat end.

Definition key_bytes (k : KeyId) : list Z :=
  match k with
  | KeyImplicit => []
  | KeyIndex i => [i]
  | KeySource4Index s i | KeySource8Index s i => reverse s ++ [i]
  end.
Definition key_ok (k : KeyId) : Prop :=
  match k with
  | KeySource4Index s _ => length s = 4%nat
  | KeySource8Index s _ => length s = 8%nat
  | _ => True
  end.

Definition opt_bytes {X} (f : X → list Z) (o : option X) : list Z :=
  match o with Some x => f x | None => [] end.
Definition opt_ok {X} (P : X → Prop) (o : option X) : Prop :=
  match o with Some x => P x | None => True end.

Definition security_control (s : Security) : Z :=
  let scf := or_flag (asn_in_nonce s) ASN_IN_NONCE (SecurityLevel_u8 (level s)) in
  let scf := if frame_counter s then scf else Z.lor scf FRAME_COUNTER_SUPPRESSION in
  Z.lor scf (KeyIdMode_u8 (KeyIdMode_of (key_id s))).
Definition security_bytes (s : Security) : list Z :=
  [security_control s] ++ opt_bytes (le_bytes 4) (frame_counter s) ++ key_bytes (key_id s).
Definition security_ok (s : Security) : Prop :=
  opt_ok u32 (frame_counter s) ∧ key_ok (key_id s).

(** A header element with its control field; the identifiers of the two
    terminations are not free, and the length field has seven bits. *)
Definition header_ie_bytes (ie : HeaderIE) : list Z :=
  match ie with
  | HeaderUndissected id c => le_bytes 2 (zlen c + id * 128) ++ c
  | HeaderTermination1 => le_bytes 2 (0x7e * 128)
  | HeaderTermination2 => le_bytes 2 (0x7f * 128)
  end.
Definition header_ie_ok (ie : HeaderIE) : Prop :=
  match ie with
  | HeaderUndissected id c => byte id ∧ id ≠ 0x7e ∧ id ≠ 0x7f ∧ zlen c ≤ HEADER_LEN_MAX
  | _ => False
  end.

(** A header element in a frame: its own or a termination. *)
Definition header_ie_carried (ie : HeaderIE) : Prop := header_ie_ok ie ∨ HeaderIE_is_termination ie = true.

(** ** Parts: the encoder writes these bytes *)

Lemma MacAddress_encode_writes a : mac_ok a → Writes (MacAddress_encode a) (mac_bytes a) tt.
Proof. destruct a; cbn; intros H; [by apply encode_u16_be_writes|apply encode_bytes_be_writes]. Qed.

(** The sum of the room that the parts of an encoder need. *)
Ltac room := rewrite ?length_app, ?length_reverse, ?length_le_bytes; cbn [length]; lia.

Lemma KeyId_encode_writes k : Writes (KeyId_encode k) (key_bytes k) tt.
Proof.
  assert (Hsrc : ∀ s i, Writes (off ← (off ← enc_consume 0 (encode_bytes_be s); enc_consume off (encode_u8 i)); mret (off, tt))
                          (reverse s ++ [i]) tt).
  { intros s i. apply (Writes_intro _ 0). intros [|] Ho; [|done]. eexists. split; cycle 1.
    - eapply Emits_bind; [|by apply Emits_ret]. eapply Emits_bind.
      + by eapply Emits_consume; [apply encode_bytes_be_writes|].
      + by eapply Emits_consume; [apply encode_u8_writes|].
    - room. }
  destruct k as [|i|s i|s i]; [..|apply Hsrc|apply Hsrc]; apply (Writes_intro _ 0); intros [|] Ho; try done.
  - exists 0%nat. split; [done|]. by apply Emits_ret.
  - exists 1%nat. split; [done|]. apply (Emits_bind _ _ [] 1 [i] 1 0); [|by apply Emits_ret].
    apply (Emits_consume _ [i] tt [] 0); [apply encode_u8_writes|done].
Qed.

Lemma Security_encode_writes s : security_ok s → Writes (Security_encode s) (security_bytes s) tt.
Proof.
  destruct s as [lvl asn fc key]. intros [Hfc Hkey]. cbn in Hfc, Hkey.
  apply (Writes_intro _ 1). intros old Ho. eexists. split; cycle 1.
  - unfold Security_encode. cbn [level asn_in_nonce frame_counter key_id].
    eapply Emits_bind; [apply Emits_len_cond; unfold zlen; lia|].
    eapply (Emits_bind _ _ old (length (opt_bytes (le_bytes 4) fc)) (old ++ opt_bytes (le_bytes 4) fc)
              (zlen (old ++ opt_bytes (le_bytes 4) fc),
               if fc then or_flag asn ASN_IN_NONCE (SecurityLevel_u8 lvl)
               else Z.lor (or_flag asn ASN_IN_NONCE (SecurityLevel_u8 lvl)) FRAME_COUNTER_SUPPRESSION)).
    { destruct fc as [c|]; cbn [opt_bytes].
      - rewrite <- (Nat.add_0_r (length _)). eapply Emits_bind; [|by apply Emits_ret].
        eapply Emits_consume; [by apply encode_u32_be_writes|unfold zlen; lia].
      - rewrite app_nil_r. apply Emits_ret. unfold zlen. by rewrite Ho. }
    cbv beta zeta. eapply Emits_bind; [by eapply Emits_consume; [apply KeyId_encode_writes|]|].
    cbv beta zeta. rewrite <- app_assoc. eapply Emits_bind; [eapply Emits_front; [apply encode_u8_writes|done]|].
    apply Emits_ret. f_equal. unfold security_bytes. cbn [frame_counter key_id]. rewrite !zlen_app. unfold zlen at 1. by rewrite Ho.
  - unfold security_bytes. cbn [frame_counter key_id]. room.
Qed.

Lemma header_ie_ctl id len : byte id → 0 ≤ len ≤ 127 →
  Z.lor (Z.land (as_u16 len) HEADER_LEN_MASK) (as_u16 (Z.shiftl id HEADER_ID_POS)) = len + id * 128.
Proof.
  unfold byte, as_u16. intros Hid Hl. change 0xFFFF with (Z.ones 16).
  change HEADER_LEN_MASK with (Z.ones 7). change HEADER_ID_POS with 7.
  rewrite (land_ones_small len 16), (land_ones_small len 7) by lia.
  rewrite (land_ones_small (Z.shiftl id 7) 16) by (rewrite ?Z.shiftl_mul_pow2; lia).
  rewrite Z.lor_comm, lor_shiftl_add by lia. lia.
Qed.

Lemma HeaderIE_encode_writes ie : header_ie_carried ie → Writes (HeaderIE_encode ie) (header_ie_bytes ie) tt.
Proof.
  intros Hie. apply (Writes_intro _ 2). intros old Ho.
  assert (Ht : ∀ id, byte id → Emits
    (let ie_ctl := Z.lor (Z.land (as_u16 (2 - 2)) HEADER_LEN_MASK) (as_u16 (Z.shiftl id HEADER_ID_POS)) in
     _ ← enc_consume 0 (encode_u16 (to_be16 ie_ctl)); mret (2, tt)) old 0 (le_bytes 2 (id * 128)) (2, tt)).
  { intros id Hid. cbv zeta. rewrite header_ie_ctl by (done || lia). cbn [Z.sub Z.add].
    rewrite <- (app_nil_r old), <- (app_nil_r (le_bytes 2 _)).
    apply (Emits_bind _ _ _ 0 (le_bytes 2 (id * 128) ++ []) 2 0); [|by apply Emits_ret].
    apply Emits_front_consume with (a := tt); [apply encode_u16_be_writes|by rewrite length_le_bytes].
    unfold byte, u16 in *. lia. }
  destruct ie as [id c| |]; cbn [HeaderIE_encode header_ie_bytes].
  - destruct Hie as [(Hid & _ & _ & Hc)|]; [|done]. eexists. split; cycle 1.
    + unfold HeaderIE_encode. eapply Emits_bind.
      { eapply Emits_bind; [|by apply Emits_ret]. eapply Emits_consume; [apply encode_bytes_writes|unfold zlen; lia]. }
      cbv beta. cbn beta iota zeta. assert (E : zlen (old ++ c) - 2 = zlen c) by (rewrite zlen_app; unfold zlen; lia).
      rewrite E. eapply Emits_bind; [by apply Emits_cond, Z.leb_le|].
      cbv beta. pose proof (zlen_nonneg c). unfold HEADER_LEN_MAX in Hc. rewrite header_ie_ctl by (done || lia).
      eapply Emits_bind; [eapply Emits_front_consume; [apply encode_u16_be_writes|by rewrite length_le_bytes]|].
      { unfold byte, u16 in *. lia. }
      apply Emits_ret. f_equal. rewrite !zlen_app, zlen_le_bytes. unfold zlen. lia.
    + room.
  - exists 0%nat. split; [done|]. apply (Emits_bind _ _ _ 0 old (2, 0x7e) 0); [by apply Emits_ret|].
    apply (Emits_bind _ _ _ 0 old tt 0); [by apply Emits_cond|]. by apply (Ht 0x7e).
  - exists 0%nat. split; [done|]. apply (Emits_bind _ _ _ 0 old (2, 0x7f) 0); [by apply Emits_ret|].
    apply (Emits_bind _ _ _ 0 old tt 0); [by apply Emits_cond|]. by apply (Ht 0x7f).
Qed.

(** ** Parts: the decoder reads them back *)

Lemma MacAddress_decode_reads oa :
  opt_ok mac_ok oa → Reads (MacAddress_decode (AddressMode_of oa)) (opt_bytes mac_bytes oa) oa.
Proof.
  intros Ha post. destruct oa as [[x|l]|]; cbn [AddressMode_of MacAddress_decode opt_bytes mac_bytes] in *; [..|done].
  - rewrite (dec_bind_at _ _ _ _ [] post _ _ (decode_u16_le_reads x Ha)) by done.
    by rewrite to_be16_involutive.
  - rewrite (dec_bind_at _ _ (reverse l) l [] post); [done|..|done|done].
    apply decode_bytes_be_reads. cbn in Ha. unfold zlen. lia.
Qed.

Lemma KeyId_decode_reads k : key_ok k → Reads (KeyId_decode (KeyIdMode_of k)) (key_bytes k) k.
Proof.
  intros Hk post.
  assert (Hsrc : ∀ n s i (f : list Z → Z → KeyId), zlen s = n →
    ('(off, src) ← dec_at ((reverse s ++ [i]) ++ post) 0 (decode_bytes_be n);
     '(off, index) ← dec_at ((reverse s ++ [i]) ++ post) off decode_u8; mret (off, f src index))
    = Ret (Done (zlen (reverse s ++ [i]), f s i))).
  { intros n s i f Hn. rewrite (dec_bind_at _ _ (reverse s) s [] ([i] ++ post));
      [|by apply decode_bytes_be_reads|done|by rewrite <- app_assoc].
    by rewrite (dec_bind_at _ _ _ _ (reverse s) post _ _ (decode_u8_reads i)) by (done || by rewrite <- app_assoc). }
  destruct k as [|i|s i|s i]; cbn [KeyIdMode_of KeyId_decode key_bytes] in *; [done| |apply Hsrc; cbn in Hk; unfold zlen; lia..].
  by rewrite (dec_bind_at _ _ _ _ [] post _ _ (decode_u8_reads i)).
Qed.

(** The fields of the security control byte. *)
Lemma security_control_fields s :
  let scf := security_control s in
  SecurityLevel_from_scf scf = Some (level s) ∧
  negb (Z.land scf ASN_IN_NONCE =? 0) = asn_in_nonce s ∧
  (Z.land scf FRAME_COUNTER_SUPPRESSION =? 0) = bool_decide (is_Some (frame_counter s)) ∧
  KeyIdMode_from_scf scf = Ret (Some (KeyIdMode_of (key_id s))).
Proof.
  destruct s as [lvl asn fc key]. unfold security_control. cbn [level asn_in_nonce frame_counter key_id].
  destruct fc as [c|], (KeyIdMode_of key), asn, lvl; by vm_compute.
Qed.

Lemma Security_decode_reads s : security_ok s → Reads Security_decode (security_bytes s) s.
Proof.
  intros [Hfc Hkey] post. pose proof (security_control_fields s) as (E1 & E2 & E3 & E4).
  unfold Security_decode, security_bytes.
  rewrite (dec_bind_at _ _ _ _ [] (opt_bytes (le_bytes 4) (frame_counter s) ++ key_bytes (key_id s) ++ post) _ _
    (decode_u8_reads (security_control s))) by (done || by rewrite <- !app_assoc).
  cbv beta iota zeta. rewrite E1, dec_bind_some, E2, E3, E4.
  destruct s as [lvl asn fc key]. cbn [level asn_in_nonce frame_counter key_id] in *.
  set (sc := security_control _).
  rewrite (dec_bind_done _ _ (zlen ([sc] ++ opt_bytes (le_bytes 4) fc), fc)).
  2:{ destruct fc as [c|]; cbn [bool_decide]; [|done]. rewrite bool_decide_true by eauto. cbn [opt_bytes].
      rewrite (dec_bind_at _ _ _ _ [sc] (key_bytes key ++ post) _ _ (decode_u32_le_reads c Hfc))
        by (done || by rewrite <- !app_assoc).
      by rewrite to_be32_involutive. }
  cbv beta iota. rewrite dec_bind_some.
  rewrite (dec_bind_at _ _ _ _ ([sc] ++ opt_bytes (le_bytes 4) fc) post _ _ (KeyId_decode_reads key Hkey))
    by (done || by rewrite <- !app_assoc).
  by rewrite <- app_assoc.
Qed.

(** The control field of a header element. *)
Lemma header_ie_ctl_fields id len : byte id → 0 ≤ len ≤ 127 →
  let ctl := len + id * 128 in
  u16 ctl ∧ Z.land ctl IE_TYPE = 0 ∧ Z.land ctl HEADER_LEN_MASK = len ∧ as_u8 (Z.shiftr ctl HEADER_ID_POS) = id.
Proof.
  cbv zeta. unfold byte, u16. intros Hid Hl. split; [lia|].
  change HEADER_LEN_MASK with (Z.ones 7). change HEADER_ID_POS with 7. rewrite as_u8_mod, Z.land_ones, Z.shiftr_div_pow2 by lia.
  change (2 ^ 7) with 128. repeat split; try byte_lia.
  change IE_TYPE with (Z.shiftl 1 15). apply Z.bits_inj'. intros i Hi. rewrite Z.land_spec, Z.bits_0.
  destruct (decide (i < 15)); [rewrite Z.shiftl_spec_low by lia; apply andb_false_r|].
  rewrite <- (Z.mod_small (len + id * 128) (2 ^ 15)), Z.mod_pow2_bits_high by lia. done.
Qed.

Lemma HeaderIE_decode_reads ie : header_ie_carried ie → Reads HeaderIE_decode (header_ie_bytes ie) ie.
Proof.
  assert (Hgen : ∀ id c post, byte id → zlen c ≤ 127 →
    HeaderIE_decode (le_bytes 2 (zlen c + id * 128) ++ c ++ post) =
      Ret (Done (2 + zlen c, match id with 0x7e => HeaderTermination1 | 0x7f => HeaderTermination2
                             | id => HeaderUndissected id c end))).
  { intros id c post Hid Hc. pose proof (zlen_nonneg c).
    destruct (header_ie_ctl_fields id (zlen c) Hid) as (Hu & E1 & E2 & E3); [lia|].
    unfold HeaderIE_decode. rewrite (dec_bind_at _ _ _ _ [] (c ++ post) _ _ (decode_u16_le_reads _ Hu)) by done.
    cbv beta iota zeta. rewrite to_be16_involutive, E1, E2, E3 by done. cbn [app]. rewrite zlen_le_bytes.
    rewrite (dec_bind_done _ _ tt) by done.
    rewrite dec_len_cond_ok by (rewrite !zlen_app, zlen_le_bytes; pose proof (zlen_nonneg post); lia).
    rewrite (dec_bind_done _ _ tt) by done. unfold dec_slice.
    rewrite (get_range_mid (le_bytes 2 (zlen c + id * 128)) c post) by (rewrite ?zlen_le_bytes; lia).
    done. }
  intros Hie post. destruct ie as [id c| |]; cbn [header_ie_bytes].
  - destruct Hie as [(Hid & Hne & Hnf & Hc)|]; [|done]. rewrite <- app_assoc, Hgen by done.
    rewrite zlen_app, zlen_le_bytes. repeat f_equal. repeat case_match; done.
  - by apply (Hgen 0x7e []).
  - by apply (Hgen 0x7f []).
Qed.

(** ** The addressing fields *)

Definition drop_src_pan (h : Header) : bool :=
  match dst_pan h, src_pan h with Some dst, Some src => dst =? src | _, _ => false end.

(** The combinations that the format has: Table 7-2 for version 2015; before, a
    pan ID goes with each address. *)
Definition addressing_valid (h : Header) : Prop :=
  match version h, dst_addr h, src_addr h with
  | V2015, None, None | V2015, Some _, None => src_pan h = None
  | V2015, None, Some _ => dst_pan h = None
  | V2015, Some _, Some _ => is_Some (dst_pan h) ∧ is_Some (src_pan h)
  | _, _, _ => (is_Some (dst_addr h) ↔ is_Some (dst_pan h)) ∧ (is_Some (src_addr h) ↔ is_Some (src_pan h))
  end.
Definition addressing_ok (h : Header) : Prop :=
  addressing_valid h ∧ opt_ok u16 (dst_pan h) ∧ opt_ok u16 (src_pan h) ∧
  opt_ok mac_ok (dst_addr h) ∧ opt_ok mac_ok (src_addr h).

Definition pan_compression (h : Header) : bool :=
  match version h, dst_addr h, src_addr h with
  | V2015, None, None => bool_decide (is_Some (dst_pan h))
  | V2015, Some _, None => negb (bool_decide (is_Some (dst_pan h)))
  | V2015, None, Some _ => negb (bool_decide (is_Some (src_pan h)))
  | _, _, _ => drop_src_pan h
  end.

Definition src_pan_bytes (h : Header) : list Z :=
  if drop_src_pan h then [] else opt_bytes (le_bytes 2) (src_pan h).
Definition addressing_bytes (h : Header) : list Z :=
  opt_bytes (le_bytes 2) (dst_pan h) ++ opt_bytes mac_bytes (dst_addr h) ++
  src_pan_bytes h ++ opt_bytes mac_bytes (src_addr h).

(** A combination that [addressing_valid] rules out. *)
Ltac presence_absurd Hv :=
  exfalso; destruct Hv as [Hd Hs];
  first [by destruct (proj1 Hd (ex_intro _ _ eq_refl)) | by destruct (proj2 Hd (ex_intro _ _ eq_refl))
        | by destruct (proj1 Hs (ex_intro _ _ eq_refl)) | by destruct (proj2 Hs (ex_intro _ _ eq_refl))
        | by destruct Hd | by destruct Hs].

Lemma addressing_mode_emits h pre :
  addressing_valid h → Emits (addressing_mode h) pre 0 pre (pan_compression h, drop_src_pan h).
Proof.
  intros Hv rest _. rewrite drop_0. unfold addressing_mode, pan_compression, drop_src_pan, addressing_valid in *.
  destruct h as [ft pend ack v sq dp da sp sa sec hi hl pi pl]. cbn [version dst_addr src_addr dst_pan src_pan] in *.
  destruct v, da as [da|], sa as [sa|], dp as [dp|], sp as [sp|]; cbn in *; try done;
    presence_absurd Hv.
Qed.

(** The decoder reconstructs which pan IDs are in the frame. *)
Lemma pan_presence_spec h : addressing_valid h →
  ∃ sd, pan_presence (version h) (AddressMode_of (dst_addr h)) (AddressMode_of (src_addr h)) (pan_compression h)
        = (bool_decide (is_Some (dst_pan h)), bool_decide (is_Some (src_pan h)) && negb (drop_src_pan h), sd) ∧
      (if drop_src_pan h then sd = true ∧ src_pan h = dst_pan h else src_pan h = None → sd = false).
Proof.
  intros Hv. unfold pan_presence, pan_compression, drop_src_pan, addressing_valid in *.
  destruct h as [ft pend ack v sq dp da sp sa sec hi hl pi pl]. cbn [version dst_addr src_addr dst_pan src_pan] in *.
  destruct v, da as [[]|], sa as [[]|], dp as [dp|], sp as [sp|]; cbn in *;
    try presence_absurd Hv; try done; eexists; split; try reflexivity; try done;
    destruct (Z.eqb_spec dp sp); subst; by split || done.
Qed.

Lemma enc_opt_emits {X} (o : option X) (f : X → Enc (Z * unit)) (b : X → list Z) (P : X → Prop) pre off :
  (∀ x, P x → Writes (f x) (b x) tt) → opt_ok P o → off = zlen pre →
  Emits (enc_opt o f off) pre (length (opt_bytes b o)) (pre ++ opt_bytes b o) (zlen (pre ++ opt_bytes b o)).
Proof.
  intros Hf Ho Hoff. destruct o as [x|]; cbn [enc_opt opt_bytes].
  - eapply Emits_consume; [by apply Hf|done].
  - rewrite app_nil_r. by apply Emits_ret.
Qed.

Lemma src_pan_emits h pre off : opt_ok u16 (src_pan h) → off = zlen pre →
  Emits (if negb (drop_src_pan h) then enc_opt (src_pan h) (λ pan, encode_u16 (to_be16 pan)) off else mret off)
    pre (length (src_pan_bytes h)) (pre ++ src_pan_bytes h) (zlen (pre ++ src_pan_bytes h)).
Proof.
  intros Hp Ho. unfold src_pan_bytes. destruct (drop_src_pan h); cbn [negb].
  - rewrite app_nil_r. by apply Emits_ret.
  - by eapply enc_opt_emits; [apply encode_u16_be_writes|..].
Qed.

Lemma encode_addressing_writes h :
  addressing_ok h → Writes (encode_addressing h) (addressing_bytes h) (pan_compression h).
Proof.
  intros (Hv & Hdp & Hsp & Hda & Hsa). apply (Writes_intro _ 0). intros [|] Hold; [|done].
  exists (length (addressing_bytes h)). split; [done|]. eapply Emits_eq.
  - unfold encode_addressing. eapply Emits_bind; [by apply addressing_mode_emits|]. cbv beta iota.
    eapply Emits_bind; [by eapply enc_opt_emits; [apply encode_u16_be_writes|..]|].
    eapply Emits_bind; [by eapply enc_opt_emits; [apply MacAddress_encode_writes|..]|].
    eapply Emits_bind; [by apply src_pan_emits|].
    eapply Emits_bind; [by eapply enc_opt_emits; [apply MacAddress_encode_writes|..]|].
    by apply Emits_ret.
  - unfold addressing_bytes. room.
  - unfold addressing_bytes. by rewrite <- !app_assoc.
  - unfold addressing_bytes. by rewrite <- !app_assoc.
Qed.

Lemma pan_reads buf op pre post off :
  opt_ok u16 op → off = zlen pre → buf = pre ++ opt_bytes (le_bytes 2) op ++ post →
  (if bool_decide (is_Some op)
   then '(off, pan_be) ← dec_at buf off decode_u16; mret (off, Some (to_be16 pan_be)) else mret (off, None))
  = (mret (zlen (pre ++ opt_bytes (le_bytes 2) op), op) : Dec (Z * option Z)).
Proof.
  intros Hp Ho Hb. destruct op as [x|]; cbn [opt_bytes] in *.
  - rewrite bool_decide_true by eauto. rewrite (dec_bind_at _ _ _ _ _ _ _ _ (decode_u16_le_reads x Hp) Ho Hb).
    by rewrite to_be16_involutive.
  - rewrite bool_decide_false by by intros []. by rewrite app_nil_r, Ho.
Qed.

Lemma decode_addressing_reads h : addressing_ok h →
  Reads (decode_addressing (version h) (AddressMode_of (dst_addr h)) (AddressMode_of (src_addr h)) (pan_compression h))
    (addressing_bytes h) (dst_pan h, dst_addr h, src_pan h, src_addr h).
Proof.
  intros (Hv & Hdp & Hsp & Hda & Hsa) post. unfold decode_addressing, addressing_bytes.
  destruct (pan_presence_spec h Hv) as (sd & -> & Hsd).
  set (p1 := opt_bytes (le_bytes 2) (dst_pan h)) in *. set (p2 := opt_bytes mac_bytes (dst_addr h)) in *.
  set (p3 := src_pan_bytes h) in *. set (p4 := opt_bytes mac_bytes (src_addr h)) in *.
  rewrite (pan_reads _ (dst_pan h) [] (p2 ++ p3 ++ p4 ++ post)) by (done || by rewrite <- !app_assoc).
  rewrite dec_bind_ret. cbv beta iota.
  rewrite (dec_bind_at _ _ _ _ p1 (p3 ++ p4 ++ post) _ _ (MacAddress_decode_reads _ Hda))
    by (done || by rewrite <- !app_assoc).
  rewrite (dec_bind_done _ _ (zlen ((p1 ++ p2) ++ p3), src_pan h)).
  2:{ subst p3. unfold src_pan_bytes. destruct (drop_src_pan h) eqn:Ed; cbn [negb].
      - rewrite andb_false_r, app_nil_r. destruct Hsd as [-> Es]. rewrite <- Es.
        unfold drop_src_pan in Ed. destruct (src_pan h); [done|by rewrite <- Es in Ed].
      - rewrite andb_true_r. destruct (src_pan h) as [x|] eqn:Ep.
        + match goal with |- context [dec_at ?b _ decode_u16] =>
            pose proof (pan_reads b (Some x) (p1 ++ p2) (p4 ++ post) (zlen (p1 ++ p2)) Hsp eq_refl) as Hr end.
          rewrite bool_decide_true in * by eauto. apply Hr. by rewrite <- !app_assoc.
        + rewrite bool_decide_false by by intros []. rewrite (Hsd eq_refl). cbn. by rewrite app_nil_r. }
  cbv beta iota.
  rewrite (dec_bind_at _ _ _ _ ((p1 ++ p2) ++ p3) post _ _ (MacAddress_decode_reads _ Hsa))
    by (done || by rewrite <- !app_assoc).
  by rewrite <- !app_assoc.
Qed.

(** ** The frame control field

    Its fields do not overlap: checked for each of its values. *)

#[local] Instance FrameType_eq_dec : EqDecision FrameType.
Proof. solve_decision. Defined.

Definition fcf_fields_ok (ft : FrameType) (s p a c q i : bool) (dm : AddressMode) (v : FrameVersion) (sm : AddressMode) : bool :=
  let fcf := header_fcf ft s p a c q i dm v sm in
  (0 <=? fcf) && (fcf <? 65536) &&
  bool_decide (FrameType_from_fcf fcf = Some ft) &&
  Bool.eqb (flag_set fcf SECURITY_ENABLED) s && Bool.eqb (flag_set fcf FRAME_PENDING) p &&
  Bool.eqb (flag_set fcf ACK_REQUESTED) a && Bool.eqb (flag_set fcf PAN_ID_COMPRESSION) c &&
  Bool.eqb (flag_set fcf SEQ_SUPPRESSED) q && Bool.eqb (flag_set fcf IE_PRESENT) i &&
  bool_decide (AddressMode_from_mode (Z.land (Z.shiftr fcf DST_MODE_POS) MODE_MASK) = Some dm) &&
  bool_decide (FrameVersion_from_fcf fcf = Some v) &&
  bool_decide (AddressMode_from_mode (Z.land (Z.shiftr fcf SRC_MODE_POS) MODE_MASK) = Some sm).

Definition all_types := [Beacon; Data; Acknowledgement; MACCommand; Multipurpose; Fragment; Extended].
Definition all_modes := [ModeNotPresent; ModeShort; ModeLong].
Definition all_versions := [V2003; V2006; V2015].
Definition both (f : bool → bool) : bool := f false && f true.

Lemma both_spec f b : both f = true → f b = true.
Proof. unfold both. intros [H1 H2]%andb_true_iff. by destruct b. Qed.

Lemma forallb_member {A} (f : A → bool) l x : forallb f l = true → In x l → f x = true.
Proof. rewrite forallb_forall. auto. Qed.

Lemma fcf_fields_checked :
  forallb (λ ft, both (λ s, both (λ p, both (λ a, both (λ c, both (λ q, both (λ i,
    forallb (λ dm, forallb (λ v, forallb (λ sm, fcf_fields_ok ft s p a c q i dm v sm)
      all_modes) all_versions) all_modes)))))) ) all_types = true.
Proof. by vm_compute. Qed.

Lemma header_fcf_fields ft s p a c q i dm v sm : fcf_fields_ok ft s p a c q i dm v sm = true.
Proof.
  pose proof fcf_fields_checked as H.
  apply (forallb_member _ _ ft) in H; [|destruct ft; cbn; tauto].
  apply (both_spec _ s), (both_spec _ p), (both_spec _ a), (both_spec _ c), (both_spec _ q), (both_spec _ i) in H.
  apply (forallb_member _ _ dm) in H; [|destruct dm; cbn; tauto].
  apply (forallb_member _ _ v) in H; [|destruct v; cbn; tauto].
  by apply (forallb_member _ _ sm) in H; [|destruct sm; cbn; tauto].
Qed.

(** ** The information elements *)

Definition ies_bytes (ies : list HeaderIE) : list Z := concat (map header_ie_bytes ies).

Lemma encode_header_ies_emits ies pre off :
  Forall header_ie_ok ies → off = zlen pre →
  Emits (encode_header_ies ies off) pre (length (ies_bytes ies)) (pre ++ ies_bytes ies) (zlen (pre ++ ies_bytes ies)).
Proof.
  intros H. revert pre off. induction H as [|ie ies Hie _ IH]; intros pre off Ho.
  - unfold ies_bytes. cbn. rewrite app_nil_r. by apply Emits_ret.
  - eapply Emits_eq.
    + cbn [encode_header_ies]. eapply Emits_bind; [apply Emits_cond; by destruct ie|].
      eapply Emits_bind; [by eapply Emits_consume; [apply HeaderIE_encode_writes; left|]|]. by apply IH.
    + unfold ies_bytes. cbn. rewrite length_app. lia.
    + by rewrite <- app_assoc.
    + by rewrite <- app_assoc.
Qed.

Lemma decode_header_ies_reads ies (term : HeaderIE) fuel pre post found buf off len :
  Forall header_ie_ok ies → HeaderIE_is_termination term = true →
  (length ies < fuel)%nat → (length found + length ies ≤ 4)%nat → len = zlen found → off = zlen pre →
  buf = pre ++ ies_bytes ies ++ header_ie_bytes term ++ post →
  decode_header_ies fuel buf off (found ++ replicate (5 - length found) HeaderTermination1) len =
    Ret (Done (zlen (pre ++ ies_bytes ies ++ header_ie_bytes term),
               match term with HeaderTermination1 => true | _ => false end,
               (found ++ ies) ++ replicate (5 - length (found ++ ies)) HeaderTermination1, zlen (found ++ ies))).
Proof.
  intros H Ht. revert fuel pre found off len. induction H as [|ie ies Hie _ IH]; intros fuel pre found off len Hf Hl -> -> ->;
    (destruct fuel as [|fuel]; [lia|]); cbn [decode_header_ies].
  - unfold ies_bytes. cbn [map concat app].
    rewrite (dec_bind_at _ _ _ _ pre post _ _ (HeaderIE_decode_reads term (or_intror Ht))) by done.
    rewrite app_nil_r. by destruct term.
  - assert (Eb : ies_bytes (ie :: ies) = header_ie_bytes ie ++ ies_bytes ies) by done. cbn in Hf, Hl.
    rewrite (dec_bind_at _ _ _ _ pre (ies_bytes ies ++ header_ie_bytes term ++ post) _ _ (HeaderIE_decode_reads ie (or_introl Hie)))
      by (done || by rewrite Eb, <- !app_assoc).
    destruct ie as [id c| |]; [|done..]. cbv beta iota.
    rewrite (dec_bind_done _ _ tt) by (unfold dec_cond, MAX_HEADER_IES, zlen; rewrite (proj2 (Z.ltb_lt _ _)) by lia; done).
    rewrite (dec_bind_done _ _ ((found ++ [HeaderUndissected id c]) ++ replicate (5 - length (found ++ [HeaderUndissected id c])) HeaderTermination1)).
    2:{ unfold ies_set, zlen. rewrite index_set_Ret by (rewrite length_app, length_replicate; lia).
        rewrite length_app. cbn [length mbind outcome_bind]. rewrite Nat2Z.id, insert_app_r_alt, Nat.sub_diag by lia.
        replace (5 - length found)%nat with (S (5 - (length found + 1)))%nat by lia.
        by rewrite <- app_assoc. }
    rewrite (IH fuel (pre ++ header_ie_bytes (HeaderUndissected id c)) (found ++ [HeaderUndissected id c]));
      [|lia|rewrite length_app; cbn; lia|by rewrite zlen_app|done|by rewrite Eb, <- !app_assoc].
    by rewrite Eb, <- !app_assoc.
Qed.

(** ** Headers *)

(** The headers the format can carry in a frame with or without a payload: the
    sequence number is present before version 2015; at most four header
    elements, which need the termination written before a payload; no payload
    elements (see [payload_elements_rejected]).  The unused places of the arrays
    hold the default values. *)
Record header_ok (h : Header) (has_payload : bool) (ies : list HeaderIE) : Prop := {
  ok_seq : version h ≠ V2015 → is_Some (seq h);
  ok_addressing : addressing_ok h;
  ok_security : opt_ok security_ok (security h);
  ok_ies : Forall header_ie_ok ies;
  ok_ies_payload : ies ≠ [] → has_payload = true;
  ok_ies_len : (length ies ≤ 4)%nat;
  ok_header_ies : header_ies h = ies ++ replicate (5 - length ies) HeaderTermination1;
  ok_header_ies_len : header_ies_len h = zlen ies;
  ok_payload_ies : payload_ies h = replicate 5 PayloadTermination;
  ok_payload_ies_len : payload_ies_len h = 0
}.

Definition ies_present (ies : list HeaderIE) : bool := match ies with [] => false | _ => true end.
Definition ies_part (ies : list HeaderIE) : list Z :=
  match ies with [] => [] | _ => ies_bytes ies ++ header_ie_bytes HeaderTermination2 end.
Definition header_control (h : Header) (ies : list HeaderIE) : Z :=
  header_fcf (frame_type h) (bool_decide (is_Some (security h))) (frame_pending h) (ack_requested h) (pan_compression h)
    (negb (bool_decide (is_Some (seq h)))) (ies_present ies)
    (AddressMode_of (dst_addr h)) (version h) (AddressMode_of (src_addr h)).
Definition header_bytes (h : Header) (ies : list HeaderIE) : list Z :=
  le_bytes 2 (header_control h ies) ++ opt_bytes (λ s, [s]) (seq h) ++ addressing_bytes h ++
  opt_bytes security_bytes (security h) ++ ies_part ies.

Lemma header_control_u16 h ies : u16 (header_control h ies).
Proof.
  unfold header_control. pose proof header_fcf_fields as H. unfold fcf_fields_ok in H. cbv zeta in H.
  match goal with |- u16 (header_fcf ?ft ?s ?p ?a ?c ?q ?i ?dm ?v ?sm) => specialize (H ft s p a c q i dm v sm) end.
  unfold u16. repeat rewrite andb_true_iff in H. lia.
Qed.

Lemma ies_emits h has_payload ies pre off : header_ok h has_payload ies → off = zlen pre →
  Emits (off ← encode_header_ies (take (Z.to_nat (header_ies_len h)) (header_ies h)) off;
         if negb (payload_ies_len h =? 0) then enc_consume off (HeaderIE_encode HeaderTermination1)
         else if negb (header_ies_len h =? 0) && has_payload then enc_consume off (HeaderIE_encode HeaderTermination2)
         else mret off)
    pre (length (ies_part ies)) (pre ++ ies_part ies) (zlen (pre ++ ies_part ies)).
Proof.
  intros Hok Ho. rewrite (ok_header_ies _ _ _ Hok), (ok_header_ies_len _ _ _ Hok), take_zlen_app, (ok_payload_ies_len _ _ _ Hok).
  cbn [negb Z.eqb]. destruct ies as [|ie ies].
  - cbn. rewrite app_nil_r. by apply Emits_ret.
  - rewrite (ok_ies_payload _ _ _ Hok) by done. set (l := ie :: ies) in *.
    replace (zlen l =? 0) with false by done. cbn [negb andb]. unfold ies_part. subst l. cbv iota. set (l := ie :: ies) in *.
    eapply Emits_eq.
    + eapply Emits_bind; [apply encode_header_ies_emits; [apply (ok_ies _ _ _ Hok)|done]|].
      by eapply Emits_consume; [apply HeaderIE_encode_writes; right|].
    + by rewrite length_app.
    + by rewrite <- app_assoc.
    + by rewrite <- app_assoc.
Qed.

Lemma seq_emits h pre off : off = zlen pre →
  Emits (match seq h with
         | Some seq => off ← enc_consume off (encode_u8 seq); mret (off, false)
         | None => mret (off, true)
         end) pre (length (opt_bytes (λ s, [s]) (seq h))) (pre ++ opt_bytes (λ s, [s]) (seq h))
    (zlen (pre ++ opt_bytes (λ s, [s]) (seq h)), negb (bool_decide (is_Some (seq h)))).
Proof.
  intros Ho. destruct (seq h) as [s|]; cbn [opt_bytes].
  - rewrite bool_decide_true by eauto. eapply Emits_eq; [|apply Nat.add_0_r|done|done].
    eapply Emits_bind; [by eapply Emits_consume; [apply encode_u8_writes|]|]. by apply Emits_ret.
  - rewrite bool_decide_false by by intros []. rewrite app_nil_r. by apply Emits_ret; subst.
Qed.

Lemma security_emits h pre off : opt_ok security_ok (security h) → off = zlen pre →
  Emits (match security h with
         | None => mret (off, false)
         | Some security => off ← enc_consume off (Security_encode security); mret (off, true)
         end) pre (length (opt_bytes security_bytes (security h))) (pre ++ opt_bytes security_bytes (security h))
    (zlen (pre ++ opt_bytes security_bytes (security h)), bool_decide (is_Some (security h))).
Proof.
  intros Hs Ho. destruct (security h) as [s|]; cbn [opt_bytes].
  - rewrite bool_decide_true by eauto. eapply Emits_eq; [|apply Nat.add_0_r|done|done].
    eapply Emits_bind; [by eapply Emits_consume; [apply Security_encode_writes|]|]. by apply Emits_ret.
  - rewrite bool_decide_false by by intros []. rewrite app_nil_r. by apply Emits_ret; subst.
Qed.

Lemma header_ies_present h has_payload ies : header_ok h has_payload ies →
  negb (header_ies_len h =? 0) || negb (payload_ies_len h =? 0) = ies_present ies.
Proof.
  intros Hok. rewrite (ok_header_ies_len _ _ _ Hok), (ok_payload_ies_len _ _ _ Hok). by destruct ies.
Qed.

Lemma Header_encode_writes h has_payload ies : header_ok h has_payload ies →
  Writes (Header_encode h has_payload) (header_bytes h ies) (zlen (header_bytes h ies)).
Proof.
  intros Hok. apply (Writes_intro _ 2). intros old Hold.
  exists (length (header_bytes h ies) - 2)%nat. split; [unfold header_bytes; room|].
  assert (Hz : zlen old = 2) by (unfold zlen; lia). eapply Emits_eq.
  - unfold Header_encode. eapply Emits_bind; [apply Emits_len_cond; lia|]. cbv beta zeta.
    eapply (Emits_bind _ _ old 0 old tt).
    { case_bool_decide as Hv; [|by apply Emits_ret].
      apply Emits_cond, bool_decide_true, (ok_seq _ _ _ Hok Hv). }
    eapply Emits_bind; [by apply seq_emits|]. cbv beta iota.
    eapply Emits_bind; [by eapply Emits_at; [apply encode_addressing_writes, (ok_addressing _ _ _ Hok)|]|]. cbv beta iota.
    eapply Emits_bind; [by apply security_emits; [apply (ok_security _ _ _ Hok)|]|]. cbv beta iota.
    eapply Emits_bind.
    { apply Emits_cond, Z.leb_le. rewrite (ok_header_ies_len _ _ _ Hok). pose proof (ok_ies_len _ _ _ Hok).
      unfold zlen, MAX_HEADER_IES. lia. }
    eapply Emits_bind; [apply Emits_cond; by rewrite (ok_payload_ies_len _ _ _ Hok)|]. cbv beta.
    apply Emits_assoc. eapply Emits_bind; [by apply ies_emits|]. cbv beta.
    rewrite (header_ies_present _ _ _ Hok), (ok_payload_ies_len _ _ _ Hok). cbn [Z.to_nat take encode_payload_ies negb Z.eqb andb].
    eapply Emits_bind; [by apply Emits_ret|]. eapply Emits_bind; [by apply Emits_ret|]. cbv beta.
    fold (header_control h ies). rewrite <- !app_assoc.
    eapply Emits_bind; [eapply Emits_front; [apply encode_u16_be_writes, header_control_u16|by rewrite length_le_bytes]|].
    by apply Emits_ret.
  - unfold header_bytes. room.
  - done.
  - unfold header_bytes. rewrite !zlen_app, zlen_le_bytes. f_equal; lia.
Qed.

Lemma seq_reads h buf pre post off :
  off = zlen pre → buf = pre ++ opt_bytes (λ s, [s]) (seq h) ++ post →
  (if negb (negb (bool_decide (is_Some (seq h))))
   then '(off, seq) ← dec_at buf off decode_u8; mret (off, Some seq) else mret (off, None))
  = (mret (zlen (pre ++ opt_bytes (λ s, [s]) (seq h)), seq h) : Dec (Z * option Z)).
Proof.
  intros Ho Hb. rewrite negb_involutive. destruct (seq h) as [s|]; cbn [opt_bytes] in *.
  - rewrite bool_decide_true by eauto. by rewrite (dec_bind_at _ _ _ _ _ _ _ _ (decode_u8_reads s) Ho Hb).
  - rewrite bool_decide_false by by intros []. by rewrite app_nil_r, Ho.
Qed.

Lemma security_reads h buf pre post off :
  opt_ok security_ok (security h) → off = zlen pre → buf = pre ++ opt_bytes security_bytes (security h) ++ post →
  (if bool_decide (is_Some (security h))
   then '(off, security) ← dec_at buf off Security_decode; mret (off, Some security) else mret (off, None))
  = (mret (zlen (pre ++ opt_bytes security_bytes (security h)), security h) : Dec (Z * option Security)).
Proof.
  intros Hs Ho Hb. destruct (security h) as [s|]; cbn [opt_bytes] in *.
  - rewrite bool_decide_true by eauto. by rewrite (dec_bind_at _ _ _ _ _ _ _ _ (Security_decode_reads s Hs) Ho Hb).
  - rewrite bool_decide_false by by intros []. by rewrite app_nil_r, Ho.
Qed.

Lemma ies_reads ies buf pre post off :
  Forall header_ie_ok ies → (length ies ≤ 4)%nat → off = zlen pre → buf = pre ++ ies_part ies ++ post →
  (if ies_present ies then decode_header_ies 5 buf off (replicate 5 HeaderTermination1) 0
   else mret (off, false, replicate 5 HeaderTermination1, 0)) =
  (mret (zlen (pre ++ ies_part ies), false, ies ++ replicate (5 - length ies) HeaderTermination1, zlen ies)
     : Dec (Z * bool * list HeaderIE * Z)).
Proof.
  intros Hi Hl Ho Hb. destruct ies as [|ie ies]; cbn [ies_present].
  - cbn [ies_part]. by rewrite app_nil_r, Ho.
  - apply (decode_header_ies_reads (ie :: ies) HeaderTermination2 5 pre post []); try done; cbn in *; try lia.
    by rewrite Hb, <- !app_assoc.
Qed.

Lemma header_control_fields h ies :
  let fcf := header_control h ies in
  FrameType_from_fcf fcf = Some (frame_type h) ∧
  flag_set fcf SECURITY_ENABLED = bool_decide (is_Some (security h)) ∧
  flag_set fcf FRAME_PENDING = frame_pending h ∧ flag_set fcf ACK_REQUESTED = ack_requested h ∧
  flag_set fcf PAN_ID_COMPRESSION = pan_compression h ∧
  flag_set fcf SEQ_SUPPRESSED = negb (bool_decide (is_Some (seq h))) ∧
  flag_set fcf IE_PRESENT = ies_present ies ∧
  AddressMode_from_mode (Z.land (Z.shiftr fcf DST_MODE_POS) MODE_MASK) = Some (AddressMode_of (dst_addr h)) ∧
  FrameVersion_from_fcf fcf = Some (version h) ∧
  AddressMode_from_mode (Z.land (Z.shiftr fcf SRC_MODE_POS) MODE_MASK) = Some (AddressMode_of (src_addr h)).
Proof.
  cbv zeta. unfold header_control. pose proof header_fcf_fields as H. unfold fcf_fields_ok in H. cbv zeta in H.
  match goal with |- FrameType_from_fcf (header_fcf ?ft ?s ?p ?a ?c ?q ?i ?dm ?v ?sm) = _ ∧ _ =>
    specialize (H ft s p a c q i dm v sm) end.
  repeat rewrite andb_true_iff in H. rewrite !bool_decide_eq_true, !Bool.eqb_true_iff in H. tauto.
Qed.

Lemma Header_decode_reads unsecured h has_payload ies : header_ok h has_payload ies →
  Reads (Header_decode unsecured) (header_bytes h ies) (h, zlen (header_bytes h ies)).
Proof.
  intros Hok post. unfold Header_decode.
  pose proof (header_control_fields h ies) as (E1 & E2 & E3 & E4 & E5 & E6 & E7 & E8 & E9 & E10).
  set (p1 := opt_bytes (λ s, [s]) (seq h)). set (p2 := addressing_bytes h).
  set (p3 := opt_bytes security_bytes (security h)). set (p4 := ies_part ies).
  set (p0 := le_bytes 2 (header_control h ies)).
  assert (Eb : header_bytes h ies = p0 ++ p1 ++ p2 ++ p3 ++ p4) by done. rewrite Eb.
  rewrite (dec_bind_at _ _ _ _ [] (p1 ++ p2 ++ p3 ++ p4 ++ post) _ _ (decode_u16_le_reads _ (header_control_u16 h ies)))
    by (done || by rewrite <- !app_assoc).
  cbv beta iota zeta. rewrite to_be16_involutive by apply header_control_u16.
  rewrite E1, E2, E3, E4, E5, E6, E7, E8, E9, E10, !dec_bind_some. cbn [app]. fold p0.
  rewrite (seq_reads h _ p0 (p2 ++ p3 ++ p4 ++ post)) by (done || by rewrite <- !app_assoc). rewrite dec_bind_ret.
  cbv beta iota. fold p1.
  rewrite (dec_bind_at _ _ _ _ (p0 ++ p1) (p3 ++ p4 ++ post) _ _ (decode_addressing_reads h (ok_addressing _ _ _ Hok)))
    by (done || by rewrite <- !app_assoc).
  cbv beta iota. fold p2.
  rewrite (security_reads h _ ((p0 ++ p1) ++ p2) (p4 ++ post) _ (ok_security _ _ _ Hok))
    by (done || by rewrite <- !app_assoc).
  rewrite dec_bind_ret. cbv beta iota. fold p3.
  rewrite (ies_reads ies _ (((p0 ++ p1) ++ p2) ++ p3) post _ (ok_ies _ _ _ Hok) (ok_ies_len _ _ _ Hok))
    by (done || by rewrite <- !app_assoc).
  rewrite dec_bind_ret. cbv beta iota. fold p4. cbn [andb]. rewrite dec_bind_ret. cbv beta iota.
  rewrite <- !app_assoc, <- (ok_header_ies _ _ _ Hok), <- (ok_header_ies_len _ _ _ Hok), <- (ok_payload_ies _ _ _ Hok),
    <- (ok_payload_ies_len _ _ _ Hok).
  by destruct h.
Qed.

(** C27.  Encoding a header that the format can carry, into a buffer with room for it,
    succeeds, writes nothing behind the header, and the frame, whatever follows
    the header in it, decodes to the same header, with the same offset of the
    MAC payload: addresses and pan IDs in every combination of Table 7-2 and of
    the earlier versions, a source pan ID that is left out because it repeats
    the destination's, the auxiliary security header, the header information
    elements with their implicit termination. *)
Theorem header_roundtrip (h : Header) (has_payload unsecured : bool) (ies : list HeaderIE) (buf : list Z) :
  header_ok h has_payload ies → zlen (header_bytes h ies) ≤ zlen buf →
  ∃ off frame, Header_encode h has_payload buf = Ret (Done (off, off), frame) ∧
    length frame = length buf ∧ drop (Z.to_nat off) frame = drop (Z.to_nat off) buf ∧
    Header_decode unsecured frame = Ret (Done (off, (h, off))).
Proof.
  intros Hok Hb. exists (zlen (header_bytes h ies)), (header_bytes h ies ++ drop (length (header_bytes h ies)) buf).
  split; [by apply Header_encode_writes|]. unfold zlen in *. rewrite Nat2Z.id. split; [|split].
  - rewrite length_app, length_drop. lia.
  - by rewrite drop_app_length.
  - by apply (Header_decode_reads unsecured h has_payload).
Qed.

(** A frame of version 2015 between a short and a long address of one network,
    secured, with one header element and a payload. *)
Definition sample_header : Header :=
  mkHeader Data false true V2015 (Some 7) (Some 0xABCD) (Some (Long [1; 2; 3; 4; 5; 6; 7; 8])) (Some 0xABCD)
    (Some (Short 0x1234)) (Some (mkSecurity EncMic32 true (Some 0xDEADBEEF) (KeySource4Index [9; 8; 7; 6] 3)))
    (HeaderUndissected 0x25 [0xAA; 0xBB] :: replicate 4 HeaderTermination1) 1 (replicate 5 PayloadTermination) 0.

Lemma sample_header_ok : header_ok sample_header true [HeaderUndissected 0x25 [0xAA; 0xBB]].
Proof.
  split; try done; try (cbn; lia). constructor; [|constructor]. by repeat split.
Qed.

Lemma header_roundtrip_witness :
  ∃ off frame, Header_encode sample_header true (replicate 40 0xFF) = Ret (Done (off, off), frame) ∧
    length frame = length (replicate 40 0xFF) ∧ drop (Z.to_nat off) frame = drop (Z.to_nat off) (replicate 40 0xFF) ∧
    Header_decode false frame = Ret (Done (off, (sample_header, off))).
Proof.
  apply (header_roundtrip sample_header true false [HeaderUndissected 0x25 [0xAA; 0xBB]]).
  - apply sample_header_ok.
  - by vm_compute.
Defined.

(** ** Payload elements *)

Lemma payload_ie_ctl_untyped len id :
  Z.land (Z.lor (Z.land (as_u16 len) PAYLOAD_LEN_MASK) (as_u16 (Z.shiftl (Z.land id PAYLOAD_ID_MASK) PAYLOAD_ID_POS))) IE_TYPE = 0 ∧
  u16 (Z.lor (Z.land (as_u16 len) PAYLOAD_LEN_MASK) (as_u16 (Z.shiftl (Z.land id PAYLOAD_ID_MASK) PAYLOAD_ID_POS))).
Proof.
  unfold as_u16. change 0xFFFF with (Z.ones 16). change PAYLOAD_LEN_MASK with (Z.ones 11). change PAYLOAD_ID_MASK with (Z.ones 4).
  change PAYLOAD_ID_POS with 11. rewrite (Z.land_ones _ 11), (Z.land_ones id 4) by lia.
  pose proof (Z.mod_pos_bound (Z.land len (Z.ones 16)) (2 ^ 11) ltac:(lia)).
  pose proof (Z.mod_pos_bound id (2 ^ 4) ltac:(lia)).
  rewrite (land_ones_small (Z.shiftl _ 11) 16) by (rewrite ?Z.shiftl_mul_pow2; lia).
  rewrite Z.lor_comm, lor_shiftl_add by lia. split; [|unfold u16; lia].
  change IE_TYPE with (Z.shiftl 1 15). apply Z.bits_inj'. intros i Hi. rewrite Z.land_spec, Z.bits_0.
  destruct (decide (i < 15)); [rewrite Z.shiftl_spec_low by lia; apply andb_false_r|].
  match goal with |- Z.testbit ?x i && _ = _ => rewrite <- (Z.mod_small x (2 ^ 15)), Z.mod_pow2_bits_high by lia end.
  done.
Qed.

(** The bytes of a payload element, as [PayloadIE::encode] writes them. *)
Definition payload_ie_bytes (ie : PayloadIE) : list Z :=
  let '(id, c) := match ie with PayloadUndissected id c => (id, c) | PayloadTermination => (0xf, []) end in
  le_bytes 2 (Z.lor (Z.land (as_u16 (zlen c)) PAYLOAD_LEN_MASK)
                (as_u16 (Z.shiftl (Z.land id PAYLOAD_ID_MASK) PAYLOAD_ID_POS))) ++ c.
Definition payload_len_ok (ie : PayloadIE) : Prop :=
  match ie with PayloadUndissected _ c => zlen c ≤ PAYLOAD_LEN_MAX | PayloadTermination => True end.

Lemma PayloadIE_encode_writes ie : payload_len_ok ie → Writes (PayloadIE_encode ie) (payload_ie_bytes ie) tt.
Proof.
  intros Hie. apply (Writes_intro _ 2). intros old Ho. destruct ie as [id c|]; cbn in Hie.
  - unfold payload_ie_bytes. eexists. split; cycle 1.
    + unfold PayloadIE_encode. eapply Emits_bind.
      { eapply Emits_bind; [|by apply Emits_ret]. eapply Emits_consume; [apply encode_bytes_writes|unfold zlen; lia]. }
      cbn beta iota zeta. assert (E : zlen (old ++ c) - 2 = zlen c) by (rewrite zlen_app; unfold zlen; lia).
      rewrite E. eapply Emits_bind; [by apply Emits_cond, Z.leb_le|].
      eapply Emits_bind; [eapply Emits_front_consume; [apply encode_u16_be_writes, payload_ie_ctl_untyped|by rewrite length_le_bytes]|].
      apply Emits_ret. f_equal. rewrite !zlen_app, zlen_le_bytes. unfold zlen. lia.
    + room.
  - exists 0%nat. split; [done|]. apply (Emits_bind _ _ _ 0 old (2, 0xf) 0); [by apply Emits_ret|].
    apply (Emits_bind _ _ _ 0 old tt 0); [by apply Emits_cond|]. cbv beta zeta. rewrite <- (app_nil_r old).
    apply (Emits_bind _ _ _ 0 (payload_ie_bytes PayloadTermination) 2 0); [|by apply Emits_ret].
    apply Emits_front_consume with (a := tt); [|by rewrite length_le_bytes].
    apply encode_u16_be_writes. by vm_compute.
Qed.

(** No payload element that the encoder writes can be read back:
    [PayloadIE::encode] leaves the type bit of the control field clear, which
    [PayloadIE::decode] requires to be set, so that it rejects every element and
    the termination of the list, for every group and every content of admissible
    length. *)
Theorem payload_elements_rejected (ie : PayloadIE) (buf : list Z) :
  payload_len_ok ie → zlen (payload_ie_bytes ie) ≤ zlen buf →
  ∃ off frame, PayloadIE_encode ie buf = Ret (Done (off, tt), frame) ∧ PayloadIE_decode frame = Ret Error.
Proof.
  intros Hl Hb. do 2 eexists. split; [by apply PayloadIE_encode_writes|].
  unfold payload_ie_bytes. destruct (match ie with PayloadUndissected id c => (id, c) | PayloadTermination => (0xf, []) end) as [id c].
  destruct (payload_ie_ctl_untyped (zlen c) id) as [Ht Hu]. unfold PayloadIE_decode.
  rewrite <- app_assoc. erewrite (dec_bind_at _ _ _ _ [] _ _ _ (decode_u16_le_reads _ Hu)) by done.
  cbv beta iota zeta. rewrite to_be16_involutive by done. by rewrite Ht.
Qed.

Lemma payload_elements_rejected_witness :
  ∃ off frame, PayloadIE_encode (PayloadUndissected 1 [5; 6]) [0; 0; 0; 0; 0] = Ret (Done (off, tt), frame) ∧
    PayloadIE_decode frame = Ret Error.
Proof. apply payload_elements_rejected; [by vm_compute|by vm_compute]. Defined.

(** The same at the level of headers: a frame with one payload element, encoded
    without error, is rejected by the decoder. *)
Example payload_header_rejected :
  let h := mkHeader Data false false V2015 None None None None None None (replicate 5 HeaderTermination1) 0
             (PayloadUndissected 1 [5] :: replicate 4 PayloadTermination) 1 in
  ∃ frame, Header_encode h true (replicate 12 0) = Ret (Done (9, 4), frame) ∧ Header_decode true frame = Ret Error.
Proof. eexists. split; [by vm_compute|by vm_compute]. Qed.

(** The encoder accepts five header elements, the decoder stops at the fifth. *)
Example five_header_elements_rejected :
  let h := mkHeader Data false false V2015 None None None None None None (replicate 5 (HeaderUndissected 1 [])) 5
             (replicate 5 PayloadTermination) 0 in
  ∃ frame, Header_encode h true (replicate 20 0) = Ret (Done (14, 14), frame) ∧ Header_decode true frame = Ret Error.
Proof. eexists. split; [by vm_compute|by vm_compute]. Qed.

(** Header elements of a frame without payload are not terminated, and the
    decoder of the frame asks for more bytes. *)
Example unterminated_header_elements :
  let h := mkHeader Data false false V2015 None None None None None None
             (HeaderUndissected 1 [] :: replicate 4 HeaderTermination1) 1 (replicate 5 PayloadTermination) 0 in
  ∃ frame, Header_encode h false (replicate 4 0) = Ret (Done (4, 4), frame) ∧ Header_decode true frame = Ret (Needed 6).
Proof. eexists. split; [by vm_compute|by vm_compute]. Qed.

(** An element with content at the end of a buffer makes the encoder panic where
    the other formats report the bytes they need. *)
Example header_element_short_buffer : HeaderIE_encode (HeaderUndissected 1 [5]) [0] = Panic.
Proof. done. Qed.
