(* ===== verification/Ipv6.v ===== *)
(** * IPv6, UDP and ICMPv6: capsules/extra/src/net

    Headers and checksums of ipv6/ip_utils.rs, ipv6/ipv6.rs, udp/udp.rs,
    icmpv6/icmpv6.rs and the helpers of util.rs.  An [IPAddr] is the list of its
    16 bytes; the fixed-size arrays have their lengths by the predicates of
    Ipv6Theorems.v, and their elements at constant indices are [at8].  A field
    that the source keeps in network byte order is kept so here. *)

From S2P Require Import Prelude Bytes Syscall NetStream Ieee802154.

(** [a[i]] and [a[i] = x] of an array at a constant index. *)
Definition at8 (l : list Z) (i : nat) : Z := nth i l 0.
Definition all_zero (l : list Z) : bool := forallb (λ b, b =? 0) l.
(** [a[lo..hi]] of an array at constant indices. *)
Definition sub8 (l : list Z) (lo hi : nat) : list Z := take (hi - lo) (drop lo l).

(** ** util.rs *)

Definition prefix_full_bytes (prefix_len : Z) : nat := Z.to_nat (prefix_len / 8).
Definition prefix_bytes (prefix_len : Z) : nat :=
  (prefix_full_bytes prefix_len + (if (prefix_len mod 8 =? 0)%Z then 0 else 1))%nat.

Definition verify_prefix_len (prefix : list Z) (prefix_len : Z) : bool :=
  let full_bytes := prefix_full_bytes prefix_len in
  let remaining_bits := prefix_len mod 8 in
  let bytes := prefix_bytes prefix_len in
  if (length prefix <? bytes)%nat then false
  else if negb (remaining_bits =? 0) &&
          negb (Z.land (at8 prefix full_bytes) (Z.shiftr 0xff remaining_bits) =? 0) then false
  else all_zero (drop bytes prefix).

Definition matches_prefix (buf1 buf2 : list Z) (prefix_len : Z) : bool :=
  let full_bytes := prefix_full_bytes prefix_len in
  let remaining_bits := prefix_len mod 8 in
  let bytes := prefix_bytes prefix_len in
  if (length buf1 <? bytes)%nat || (length buf2 <? bytes)%nat then false
  else if negb (remaining_bits =? 0) &&
          negb (Z.land (Z.lxor (at8 buf1 full_bytes) (at8 buf2 full_bytes)) (as_u8 (Z.shiftl 0xff (8 - remaining_bits))) =? 0)
       then false
  else bool_decide (take full_bytes buf1 = take full_bytes buf2).

Definition network_slice_to_u16 (buf : list Z) : outcome Z :=
  b0 ← index_get buf 0; b1 ← index_get buf 1; Ret (Z.lor (Z.shiftl b0 8) b1).
Definition host_slice_to_u16 (buf : list Z) : outcome Z :=
  b1 ← index_get buf 1; b0 ← index_get buf 0; Ret (Z.lor (Z.shiftl b1 8) b0).
Definition u16_to_network_slice (short : Z) (slice : list Z) : outcome (list Z) :=
  slice ← index_set slice 0 (as_u8 (Z.shiftr short 8));
  index_set slice 1 (as_u8 (Z.land short 0xff)).

(** ** Addresses: ip_utils.rs *)

(** [mod ip6_nh]. *)
Definition NH_HOP_OPTS : Z := 0.
Definition NH_TCP : Z := 6.
Definition NH_UDP : Z := 17.
Definition NH_IP6 : Z := 41.
Definition NH_ROUTING : Z := 43.
Definition NH_FRAGMENT : Z := 44.
Definition NH_ICMP : Z := 58.
Definition NH_NO_NEXT : Z := 59.
Definition NH_DST_OPTS : Z := 60.
Definition NH_MOBILITY : Z := 135.

Definition IPAddr_new : list Z := replicate 16 0.

Definition set_unicast_link_local (ip : list Z) : list Z :=
  [0xfe; 0x80; 0; 0; 0; 0; 0; 0] ++ drop 8 ip.

Definition generate_from_mac (mac_addr : MacAddress) : list Z :=
  let ip := set_unicast_link_local IPAddr_new in
  match mac_addr with
  | Long a =>
      take 8 ip ++ [Z.lxor (at8 a 0) 2; at8 a 1; at8 a 2; at8 a 3; at8 a 4; at8 a 5; at8 a 6; at8 a 7]
  | Short a =>
      take 8 ip ++ [0; 0; 0; 0xff; 0xfe; 0; Z.shiftr (Z.land a 0xff00) 8; Z.land a 0xff]
  end.

Definition is_unspecified (ip : list Z) : bool := all_zero ip.
Definition is_unicast_link_local (ip : list Z) : bool :=
  (at8 ip 0 =? 0xfe) && (Z.land (at8 ip 1) 0xc0 =? 0x80) && (Z.land (at8 ip 1) 0x3f =? 0) && all_zero (sub8 ip 2 8).
Definition is_multicast (ip : list Z) : bool := at8 ip 0 =? 0xff.

(** [set_prefix]: the assertion is the panic; [!mask] on [u8]. *)
Definition set_prefix (ip prefix : list Z) (prefix_len : Z) : outcome (list Z) :=
  let full_bytes := prefix_full_bytes prefix_len in
  let remaining := Z.land prefix_len 7 in
  let bytes := (full_bytes + (if (remaining =? 0)%Z then 0 else 1))%nat in
  if (bytes <=? length prefix)%nat && (bytes <=? 16)%nat then
    let ip := take full_bytes prefix ++ drop full_bytes ip in
    if remaining =? 0 then Ret ip
    else
      let mask := as_u8 (Z.shiftl 0xff (8 - remaining)) in
      let b := Z.land (at8 ip full_bytes) (Z.lxor mask 0xff) in
      Ret (<[full_bytes := Z.lor b (Z.land mask (at8 prefix full_bytes))]> ip)
  else Panic.

(** ** The UDP header: udp.rs *)

Record UDPHeader := mkUDP { src_port : Z; dst_port : Z; udp_len : Z; udp_cksum : Z }.

Definition UDPHeader_new : UDPHeader := mkUDP 0 0 8 0.
Definition set_dst_port (h : UDPHeader) (port : Z) : UDPHeader := mkUDP (src_port h) (to_be16 port) (udp_len h) (udp_cksum h).
Definition set_src_port (h : UDPHeader) (port : Z) : UDPHeader := mkUDP (to_be16 port) (dst_port h) (udp_len h) (udp_cksum h).
Definition udp_set_len (h : UDPHeader) (len : Z) : UDPHeader := mkUDP (src_port h) (dst_port h) (to_be16 len) (udp_cksum h).
Definition udp_set_cksum (h : UDPHeader) (c : Z) : UDPHeader := mkUDP (src_port h) (dst_port h) (udp_len h) (to_be16 c).
Definition get_src_port (h : UDPHeader) : Z := to_be16 (src_port h).
Definition get_dst_port (h : UDPHeader) : Z := to_be16 (dst_port h).
Definition udp_get_len (h : UDPHeader) : Z := to_be16 (udp_len h).
Definition udp_get_cksum (h : UDPHeader) : Z := to_be16 (udp_cksum h).
Definition udp_get_hdr_size (h : UDPHeader) : Z := 8.

Definition UDPHeader_encode (self : UDPHeader) (offset : Z) : Enc (Z * Z) :=
  enc_len_cond (udp_get_hdr_size self + offset);;
  off ← enc_consume offset (encode_u16 (src_port self));
  off ← enc_consume off (encode_u16 (dst_port self));
  off ← enc_consume off (encode_u16 (udp_len self));
  off ← enc_consume off (encode_u16 (udp_cksum self));
  mret (off, off).

Definition UDPHeader_decode (buf : list Z) : Dec (Z * UDPHeader) :=
  dec_len_cond buf 8;;
  '(off, src_port) ← dec_at buf 0 decode_u16;
  '(off, dst_port) ← dec_at buf off decode_u16;
  '(off, len) ← dec_at buf off decode_u16;
  '(off, cksum) ← dec_at buf off decode_u16;
  mret (off, mkUDP (to_be16 src_port) (to_be16 dst_port) (to_be16 len) (to_be16 cksum)).

(** ** The ICMPv6 header: icmpv6.rs *)

Inductive ICMP6HeaderOptions :=
| OptType1 (unused : Z)
| OptType3 (unused : Z)
| OptType128 (id seqno : Z)
| OptType129 (id seqno : Z).
Inductive ICMP6Type := Type1 | Type3 | Type128 | Type129.
Record ICMP6Header := mkICMP { icmp_code : Z; icmp_cksum : Z; icmp_options : ICMP6HeaderOptions; icmp_len : Z }.

Definition options_of_type (t : ICMP6Type) : ICMP6HeaderOptions :=
  match t with Type1 => OptType1 0 | Type3 => OptType3 0 | Type128 => OptType128 0 0 | Type129 => OptType129 0 0 end.
Definition ICMP6Header_new (t : ICMP6Type) : ICMP6Header := mkICMP 0 0 (options_of_type t) 0.
Definition icmp_set_options (h : ICMP6Header) (o : ICMP6HeaderOptions) : ICMP6Header :=
  mkICMP (icmp_code h) (icmp_cksum h) o (icmp_len h).
Definition icmp_set_type (h : ICMP6Header) (t : ICMP6Type) : ICMP6Header := icmp_set_options h (options_of_type t).
Definition icmp_set_code (h : ICMP6Header) (c : Z) : ICMP6Header := mkICMP c (icmp_cksum h) (icmp_options h) (icmp_len h).
Definition icmp_set_cksum (h : ICMP6Header) (c : Z) : ICMP6Header := mkICMP (icmp_code h) c (icmp_options h) (icmp_len h).
Definition icmp_set_len (h : ICMP6Header) (l : Z) : ICMP6Header := mkICMP (icmp_code h) (icmp_cksum h) (icmp_options h) l.
Definition icmp_get_type (h : ICMP6Header) : ICMP6Type :=
  match icmp_options h with
  | OptType1 _ => Type1 | OptType3 _ => Type3 | OptType128 _ _ => Type128 | OptType129 _ _ => Type129
  end.
Definition get_type_as_int (h : ICMP6Header) : Z :=
  match icmp_get_type h with Type1 => 1 | Type3 => 3 | Type128 => 128 | Type129 => 129 end.
Definition icmp_get_hdr_size (h : ICMP6Header) : Z := 8.

Definition ICMP6Header_encode (self : ICMP6Header) (offset : Z) : Enc (Z * Z) :=
  off ← enc_consume offset (encode_u8 (get_type_as_int self));
  off ← enc_consume off (encode_u8 (icmp_code self));
  off ← enc_consume off (encode_u16 (icmp_cksum self));
  off ← match icmp_options self with
        | OptType1 unused | OptType3 unused => enc_consume off (encode_u32 unused)
        | OptType128 id seqno | OptType129 id seqno =>
            off ← enc_consume off (encode_u16 id);
            enc_consume off (encode_u16 seqno)
        end;
  mret (off, off).

(** The offsets behind the options are bound to [_off] and not used. *)
Definition ICMP6Header_decode (buf : list Z) : Dec (Z * ICMP6Header) :=
  '(off, type_num) ← dec_at buf 0 decode_u8;
  icmp_type ← match type_num with
              | 1 => mret Type1 | 3 => mret Type3 | 128 => mret Type128 | 129 => mret Type129
              | _ => dec_err
              end;
  let icmp_header := ICMP6Header_new icmp_type in
  '(off, code) ← dec_at buf off decode_u8;
  let icmp_header := icmp_set_code icmp_header code in
  '(off, cksum) ← dec_at buf off decode_u16;
  let icmp_header := icmp_set_cksum icmp_header (to_be16 cksum) in
  icmp_header ←
    match icmp_type with
    | Type1 => '(_, unused) ← dec_at buf off decode_u32; mret (icmp_set_options icmp_header (OptType1 (to_be32 unused)))
    | Type3 => '(_, unused) ← dec_at buf off decode_u32; mret (icmp_set_options icmp_header (OptType3 (to_be32 unused)))
    | Type128 =>
        '(_, id) ← dec_at buf off decode_u16;
        '(_, seqno) ← dec_at buf off decode_u16;
        mret (icmp_set_options icmp_header (OptType128 (to_be16 id) (to_be16 seqno)))
    | Type129 =>
        '(_, id) ← dec_at buf off decode_u16;
        '(_, seqno) ← dec_at buf off decode_u16;
        mret (icmp_set_options icmp_header (OptType129 (to_be16 id) (to_be16 seqno)))
    end;
  mret (off, icmp_header).

(** ** The IPv6 header: ipv6.rs *)

Record IP6Header := mkIP6 {
  version_class_flow : list Z;
  payload_len : Z;
  next_header : Z;
  hop_limit : Z;
  src_addr : list Z;
  dst_addr : list Z
}.

Definition IP6Header_new : IP6Header := mkIP6 [0x60; 0; 0; 0] 0 NH_NO_NEXT 255 IPAddr_new IPAddr_new.

Definition IP6Header_decode (buf : list Z) : Dec (Z * IP6Header) :=
  dec_len_cond buf 40;;
  '(off, vcf) ← dec_at buf 0 (decode_bytes 4);
  '(off, payload_len_be) ← dec_at buf off decode_u16;
  '(off, next_header) ← dec_at buf off decode_u8;
  '(off, hop_limit) ← dec_at buf off decode_u8;
  '(off, src) ← dec_at buf off (decode_bytes 16);
  '(off, dst) ← dec_at buf off (decode_bytes 16);
  mret (off, mkIP6 vcf (to_be16 payload_len_be) next_header hop_limit src dst).

Definition IP6Header_encode (self : IP6Header) : Enc (Z * Z) :=
  enc_len_cond 40;;
  off ← enc_consume 0 (encode_bytes (version_class_flow self));
  off ← enc_consume off (encode_u16 (to_be16 (payload_len self)));
  off ← enc_consume off (encode_u8 (next_header self));
  off ← enc_consume off (encode_u8 (hop_limit self));
  off ← enc_consume off (encode_bytes (src_addr self));
  off ← enc_consume off (encode_bytes (dst_addr self));
  mret (off, off).

Definition set_vcf (h : IP6Header) (v : list Z) : IP6Header :=
  mkIP6 v (payload_len h) (next_header h) (hop_limit h) (src_addr h) (dst_addr h).
Definition set_src_addr (h : IP6Header) (a : list Z) : IP6Header :=
  mkIP6 (version_class_flow h) (payload_len h) (next_header h) (hop_limit h) a (dst_addr h).
Definition set_dst_addr (h : IP6Header) (a : list Z) : IP6Header :=
  mkIP6 (version_class_flow h) (payload_len h) (next_header h) (hop_limit h) (src_addr h) a.

Definition get_version (h : IP6Header) : Z := Z.shiftr (Z.land (at8 (version_class_flow h) 0) 0xf0) 4.
Definition get_traffic_class (h : IP6Header) : Z :=
  let v := version_class_flow h in
  Z.lor (as_u8 (Z.shiftl (Z.land (at8 v 0) 0x0f) 4)) (Z.shiftr (Z.land (at8 v 1) 0xf0) 4).
Definition set_traffic_class (h : IP6Header) (new_tc : Z) : IP6Header :=
  let v := version_class_flow h in
  set_vcf h [Z.lor (Z.land (at8 v 0) 0xf0) (Z.shiftr (Z.land new_tc 0xf0) 4);
             Z.lor (Z.land (at8 v 1) 0x0f) (as_u8 (Z.shiftl (Z.land new_tc 0x0f) 4));
             at8 v 2; at8 v 3].
Definition get_dscp_unshifted (h : IP6Header) : Z := Z.land (get_traffic_class h) 0xfc.
Definition get_dscp (h : IP6Header) : Z := Z.shiftr (get_dscp_unshifted h) 2.
Definition get_ecn (h : IP6Header) : Z := Z.land (get_traffic_class h) 3.
Definition set_dscp (h : IP6Header) (new_dscp : Z) : IP6Header :=
  set_traffic_class h (Z.lor (get_ecn h) (Z.land (as_u8 (Z.shiftl new_dscp 2)) 0xfc)).
Definition set_ecn (h : IP6Header) (new_ecn : Z) : IP6Header :=
  set_traffic_class h (Z.lor (get_dscp_unshifted h) (Z.land new_ecn 3)).
Definition get_flow_label (h : IP6Header) : Z :=
  let v := version_class_flow h in
  Z.lor (Z.lor (Z.shiftl (Z.land (at8 v 1) 0x0f) 16) (Z.shiftl (at8 v 2) 8)) (at8 v 3).
Definition set_flow_label (h : IP6Header) (fl : Z) : IP6Header :=
  let v := version_class_flow h in
  set_vcf h [at8 v 0; Z.lor (Z.land (at8 v 1) 0xf0) (as_u8 (Z.land (Z.shiftr fl 16) 0x0f));
             as_u8 (Z.shiftr fl 8); as_u8 fl].
Definition get_payload_len (h : IP6Header) : Z := to_be16 (payload_len h).
Definition set_payload_len (h : IP6Header) (len : Z) : IP6Header :=
  mkIP6 (version_class_flow h) (to_be16 len) (next_header h) (hop_limit h) (src_addr h) (dst_addr h).
Definition set_next_header (h : IP6Header) (nh : Z) : IP6Header :=
  mkIP6 (version_class_flow h) (payload_len h) nh (hop_limit h) (src_addr h) (dst_addr h).
Definition set_hop_limit (h : IP6Header) (hl : Z) : IP6Header :=
  mkIP6 (version_class_flow h) (payload_len h) (next_header h) hl (src_addr h) (dst_addr h).
(** [40 + len] on [u16]. *)
Definition u16_add (a b : Z) : outcome Z := if a + b <? 65536 then Ret (a + b) else Panic.
Definition get_total_len (h : IP6Header) : outcome Z := u16_add 40 (get_payload_len h).

(** ** Checksums: ip_utils.rs

    Sums are [u32] with checked additions. *)

Definition be_word (l : list Z) (i : nat) : Z := Z.shiftl (at8 l i) 8 + at8 l (S i).

(** The loop over the addresses, [i] = 0, 2, .., 14. *)
Fixpoint sum_addrs (is_ : list nat) (src dst : list Z) (sum : Z) : outcome Z :=
  match is_ with
  | [] => Ret sum
  | i :: is_ =>
      sum ← uadd sum (be_word src i);
      sum ← uadd sum (be_word dst i);
      sum_addrs is_ src dst sum
  end.
Definition addr_indices : list nat := [0; 2; 4; 6; 8; 10; 12; 14]%nat.

(** The loop over the payload of [compute_udp_checksum]; [n] is
    [udp_length - 8].  The fuel [n] suffices as [i] grows by two. *)
Fixpoint sum_udp_payload (fuel : nat) (n i : Z) (payload : list Z) (sum : Z) : outcome Z :=
  if i <? n then
    match fuel with
    | O => Panic
    | S fuel =>
        msb ← index_get payload i;
        lsb ← (if i + 1 <? n then index_get payload (i + 1) else Ret 0);
        sum ← uadd sum (Z.shiftl msb 8 + lsb);
        sum_udp_payload fuel n (i + 2) payload sum
    end
  else Ret sum.

(** [while sum > 65535]; the first round leaves at most 2 * 65535, the second at
    most 65535. *)
Fixpoint fold_sum (fuel : nat) (sum : Z) : outcome Z :=
  if 65535 <? sum then
    match fuel with
    | O => Panic
    | S fuel =>
        sum ← uadd (Z.shiftr sum 16) (Z.land sum 65535);
        fold_sum fuel sum
    end
  else Ret sum.

(** [!sum & 65535]. *)
Definition complement16 (sum : Z) : Z := Z.land (usize_bound - 1 - sum) 65535.

Definition compute_udp_checksum (ip6_header : IP6Header) (udp_header : UDPHeader) (udp_length : Z) (payload : list Z)
    : outcome Z :=
  sum ← sum_addrs addr_indices (src_addr ip6_header) (dst_addr ip6_header) 0;
  sum ← uadd sum (udp_get_len udp_header);
  sum ← uadd sum 17;
  sum ← uadd sum (get_src_port udp_header);
  sum ← uadd sum (get_dst_port udp_header);
  sum ← uadd sum (udp_get_len udp_header);
  sum ← uadd sum (udp_get_cksum udp_header);
  n ← usub udp_length 8;
  sum ← sum_udp_payload (Z.to_nat n) n 0 payload sum;
  sum ← fold_sum 2 sum;
  Ret (complement16 sum).

Definition compute_ipv6_ph_sum (h : IP6Header) : outcome Z :=
  sum ← sum_addrs addr_indices (src_addr h) (dst_addr h) 0;
  sum ← uadd sum (payload_len h);
  uadd sum (next_header h).

Fixpoint compute_sum_from (fuel : nat) (buf : list Z) (len i sum : Z) : outcome Z :=
  if i <? len then
    match fuel with
    | O => Panic
    | S fuel =>
        msb ← index_get buf i;
        lsb ← index_get buf (i + 1);
        sum ← uadd sum (Z.shiftl msb 8 + lsb);
        compute_sum_from fuel buf len (i + 2) sum
    end
  else Ret sum.
Definition compute_sum (buf : list Z) (len : Z) : outcome Z := compute_sum_from (Z.to_nat len) buf len 0 0.

(** The carry loop of [compute_icmp_checksum], which adds the halves to [sum];
    [None] when the fuel runs out. *)
Fixpoint icmp_carry (fuel : nat) (sum : Z) : outcome (option Z) :=
  if 0xffff <? sum then
    match fuel with
    | O => Ret None
    | S fuel =>
        d ← uadd (Z.shiftr sum 16) (Z.land sum 0xffff);
        sum ← uadd sum d;
        icmp_carry fuel sum
    end
  else Ret (Some sum).

(** The sum before the carry loop, and the checksum. *)
Definition icmp_sum (h : IP6Header) (icmp : ICMP6Header) (payload : list Z) : outcome Z :=
  ph ← compute_ipv6_ph_sum h;
  sum ← uadd ph (Z.shiftl (get_type_as_int icmp) 8 + icmp_code icmp);
  sum ← match icmp_options icmp with
        | OptType1 unused | OptType3 unused =>
            sum ← uadd sum (Z.shiftr unused 16); uadd sum (Z.land unused 0xffff)
        | OptType128 id seqno | OptType129 id seqno => sum ← uadd sum id; uadd sum seqno
        end;
  payload_len ← usub (icmp_len icmp) (icmp_get_hdr_size icmp);
  s ← compute_sum payload payload_len;
  uadd sum s.
Definition compute_icmp_checksum (fuel : nat) (h : IP6Header) (icmp : ICMP6Header) (payload : list Z)
    : outcome (option Z) :=
  sum ← icmp_sum h icmp payload;
  r ← icmp_carry fuel sum;
  Ret (option_map complement16 r).

(** [check_transport_checksum]; [&buf[..8]] panics on a shorter buffer. *)
Definition sresult_done {A} (m : Dec (Z * A)) : outcome (option (Z * A)) :=
  match m with Panic => Panic | Ret (Done r) => Ret (Some r) | Ret _ => Ret None end.

Definition check_transport_checksum (fuel : nat) (h : IP6Header) (buf : list Z)
    : outcome (option (result unit ErrorCode)) :=
  let verdict (checksum : Z) : result unit ErrorCode := if checksum =? 0 then Ok tt else Err FAIL in
  if next_header h =? NH_UDP then
    match get_range buf 0 8, get_from buf 8 with
    | Some udp_header, Some rest =>
        d ← sresult_done (UDPHeader_decode udp_header);
        checksum ← match d with
                   | Some (_, hdr) => c ← compute_udp_checksum h hdr (as_u16 (zlen buf)) rest; Ret (to_be16 c)
                   | None => Ret 0xffff
                   end;
        Ret (Some (verdict checksum))
    | _, _ => Panic
    end
  else if next_header h =? NH_ICMP then
    match get_range buf 0 8, get_from buf 8 with
    | Some icmp_header, Some rest =>
        d ← sresult_done (ICMP6Header_decode icmp_header);
        match d with
        | Some (_, hdr) =>
            c ← compute_icmp_checksum fuel h (icmp_set_len hdr (as_u16 (zlen buf))) rest;
            Ret (option_map (λ c, verdict (to_be16 c)) c)
        | None => Ret (Some (verdict 0xffff))
        end
    | _, _ => Panic
    end
  else Ret (Some (Err NOSUPPORT)).

(** ** Packets: ipv6.rs *)

Record TCPHeader := mkTCP {
  tcp_src_port : Z; tcp_dst_port : Z; seq_num : Z; ack_num : Z;
  offset_and_control : Z; window : Z; tcp_cksum : Z; urg_ptr : Z
}.
Inductive TransportHeader := UDP (h : UDPHeader) | TCP (h : TCPHeader) | ICMP (h : ICMP6Header).
Record IPPayload := mkPayload { transport : TransportHeader; payload : list Z }.
Record IP6Packet := mkPacket { packet_header : IP6Header; packet_payload : IPPayload }.

(** [self.payload[i] = payload[i]] for each [i]. *)
Definition copy_payload (dst src : list Z) : outcome (list Z) :=
  if zlen src <=? zlen dst then Ret (src ++ drop (length src) dst) else Panic.

(** [IPPayload::set_payload].  The pattern [UDP(mut udp_header)] binds a copy:
    its new length does not reach [self.header]. *)
Definition IPPayload_set_payload (self : IPPayload) (transport_header : TransportHeader) (p : list Z)
    : outcome (IPPayload * (Z * Z)) :=
  dst ← copy_payload (payload self) p;
  match transport_header with
  | UDP u => Ret (mkPayload transport_header dst, (NH_UDP, as_u16 (zlen p + udp_get_hdr_size u)))
  | ICMP i => Ret (mkPayload transport_header dst, (NH_ICMP, as_u16 (zlen p + icmp_get_hdr_size i)))
  | TCP _ => Ret (mkPayload (transport self) dst, (NH_NO_NEXT, as_u16 (zlen p)))
  end.

Definition IP6Packet_set_payload (self : IP6Packet) (transport_header : TransportHeader) (p : list Z) : outcome IP6Packet :=
  '(pl, (nh, len)) ← IPPayload_set_payload (packet_payload self) transport_header p;
  Ret (mkPacket (set_payload_len (set_next_header (packet_header self) nh) len) pl).

Definition set_transport_checksum (fuel : nat) (self : IP6Packet) : outcome (option IP6Packet) :=
  let pl := packet_payload self in
  match transport pl with
  | UDP u =>
      c ← compute_udp_checksum (packet_header self) u (udp_get_len u) (payload pl);
      Ret (Some (mkPacket (packet_header self) (mkPayload (UDP (udp_set_cksum u c)) (payload pl))))
  | ICMP i =>
      c ← compute_icmp_checksum fuel (packet_header self) i (payload pl);
      Ret (option_map (λ c, mkPacket (packet_header self) (mkPayload (ICMP (icmp_set_cksum i c)) (payload pl))) c)
  | TCP _ => Panic
  end.

(** [.done().unwrap()]. *)
Definition enc_unwrap {X} (m : Enc X) : Enc X := fun buf =>
  match m buf with Ret (Done x, buf) => Ret (Done x, buf) | _ => Panic end.

Definition get_payload_length (self : IPPayload) : outcome Z :=
  match transport self with
  | UDP u => usub (udp_get_len u) (udp_get_hdr_size u)
  | ICMP i => usub (icmp_len i) (icmp_get_hdr_size i)
  | TCP _ => Panic
  end.

(** An expression that may panic, inside an encoder. *)
Definition enc_lift {X} (m : outcome X) : Enc X := fun buf =>
  match m with Ret x => Ret (Done x, buf) | Panic => Panic end.

Definition IPPayload_encode (self : IPPayload) (offset : Z) : Enc (Z * Z) :=
  '(offset, _) ←
    match transport self with
    | UDP u => enc_unwrap (UDPHeader_encode u offset)
    | ICMP i => enc_unwrap (ICMP6Header_encode i offset)
    | TCP _ => enc_lift Panic
    end;
  n ← enc_lift (get_payload_length self);
  p ← enc_lift (match get_range (payload self) 0 n with Some p => Ret p | None => Panic end);
  off ← enc_consume offset (encode_bytes p);
  mret (off, off).

Definition IP6Packet_encode (self : IP6Packet) : Enc (Z * Z) :=
  '(off, _) ← enc_unwrap (IP6Header_encode (packet_header self));
  IPPayload_encode (packet_payload self) off.

Definition get_total_hdr_size (self : IP6Packet) : outcome Z :=
  match transport (packet_payload self) with
  | UDP u => Ret (40 + udp_get_hdr_size u)
  | ICMP i => Ret (40 + icmp_get_hdr_size i)
  | TCP _ => Panic
  end.
