(* ===== verification/Ipv6Theorems.v ===== *)
(** * IPv6, UDP and ICMPv6: round trips and checksums

    The UDP checksum is that of RFC 1071 over the pseudo-header of RFC 8200, and
    a receiver accepts a datagram whose sender set it.  The other theorems are
    about the byte order of the encoders and about ICMPv6. *)

From S2P Require Import Prelude Bytes Syscall NetStream Ieee802154 Ipv6.

Arguments Z.land : simpl never.
Arguments Z.shiftl : simpl never.
Arguments Z.shiftr : simpl never.
Arguments Z.lor : simpl never.

(** ** Well-formed headers *)

Definition addr_ok (ip : list Z) : Prop := length ip = 16%nat ∧ Forall byte ip.
Record ip6_ok (h : IP6Header) : Prop := {
  ip6_vcf : length (version_class_flow h) = 4%nat ∧ Forall byte (version_class_flow h);
  ip6_len : u16 (payload_len h);
  ip6_next : byte (next_header h);
  ip6_hops : byte (hop_limit h);
  ip6_src : addr_ok (src_addr h);
  ip6_dst : addr_ok (dst_addr h)
}.
Record udp_ok (u : UDPHeader) : Prop := {
  udp_src : u16 (src_port u);
  udp_dst : u16 (dst_port u);
  udp_l : u16 (udp_len u);
  udp_c : u16 (udp_cksum u)
}.

(** ** The IPv6 header *)

Definition ip6_bytes (h : IP6Header) : list Z :=
  version_class_flow h ++ le_bytes 2 (payload_len h) ++ [next_header h] ++ [hop_limit h] ++ src_addr h ++ dst_addr h.

Lemma zlen_length {A} (l : list A) n : length l = n → zlen l = Z.of_nat n.
Proof. unfold zlen. by intros ->. Qed.

Lemma ip6_bytes_length h : ip6_ok h → length (ip6_bytes h) = 40%nat.
Proof.
  intros [[Hv _] _ _ _ [Hs _] [Hd _]]. unfold ip6_bytes. rewrite !length_app, length_le_bytes, Hv, Hs, Hd. done.
Qed.

Lemma IP6Header_encode_writes h : ip6_ok h → Writes (IP6Header_encode h) (ip6_bytes h) 40.
Proof.
  intros Hok buf Hb. pose proof (ip6_bytes_length h Hok) as Hl. unfold zlen in Hb. rewrite Hl in Hb.
  unfold IP6Header_encode. rewrite (enc_bind_done _ _ _ _ _ (enc_len_cond_ok 40 _ Hb)).
  change buf with ([] ++ buf) at 1.
  match goal with |- ?m _ = _ => assert (Hm : Emits m [] (length (ip6_bytes h)) (ip6_bytes h) (40, 40)) end.
  { eapply Emits_eq.
    - eapply Emits_bind; [by eapply Emits_consume; [apply encode_bytes_writes|]|].
      eapply Emits_bind; [by eapply Emits_consume; [apply encode_u16_be_writes, (ip6_len _ Hok)|]|].
      eapply Emits_bind; [by eapply Emits_consume; [apply encode_u8_writes|]|].
      eapply Emits_bind; [by eapply Emits_consume; [apply encode_u8_writes|]|].
      eapply Emits_bind; [by eapply Emits_consume; [apply encode_bytes_writes|]|].
      eapply Emits_bind; [by eapply Emits_consume; [apply encode_bytes_writes|]|].
      by apply Emits_ret.
    - unfold ip6_bytes. rewrite !length_app. lia.
    - unfold ip6_bytes. by rewrite <- !app_assoc.
    - rewrite <- !app_assoc. cbn [app]. change (40, 40) with (Z.of_nat 40, Z.of_nat 40). rewrite <- Hl. done. }
  rewrite Hm by lia. unfold zlen. by rewrite Hl.
Qed.

Lemma IP6Header_decode_reads h : ip6_ok h → Reads IP6Header_decode (ip6_bytes h) h.
Proof.
  intros Hok post. pose proof (ip6_bytes_length h Hok) as Hl. unfold IP6Header_decode.
  rewrite dec_len_cond_ok by (rewrite zlen_app, (zlen_length _ _ Hl); pose proof (zlen_nonneg post); lia).
  rewrite (dec_bind_done _ _ tt) by done. unfold ip6_bytes.
  destruct h as [v pl nh hl s d]. cbn [version_class_flow payload_len next_header hop_limit src_addr dst_addr].
  destruct Hok as [[Hv _] Hp _ _ [Hs _] [Hd _]]. cbn in Hv, Hp, Hs, Hd.
  rewrite (dec_bind_at _ _ v v [] (le_bytes 2 pl ++ [nh] ++ [hl] ++ s ++ d ++ post))
    by (done || by rewrite <- !app_assoc || (apply decode_bytes_reads; unfold zlen; lia)).
  rewrite (dec_bind_at _ _ _ _ v ([nh] ++ [hl] ++ s ++ d ++ post) _ _ (decode_u16_le_reads pl Hp))
    by (done || by rewrite <- !app_assoc).
  rewrite (dec_bind_at _ _ _ _ (v ++ le_bytes 2 pl) ([hl] ++ s ++ d ++ post) _ _ (decode_u8_reads nh))
    by (done || by rewrite <- !app_assoc).
  rewrite (dec_bind_at _ _ _ _ ((v ++ le_bytes 2 pl) ++ [nh]) (s ++ d ++ post) _ _ (decode_u8_reads hl))
    by (done || by rewrite <- !app_assoc).
  rewrite (dec_bind_at _ _ s s (((v ++ le_bytes 2 pl) ++ [nh]) ++ [hl]) (d ++ post))
    by (done || by rewrite <- !app_assoc || (apply decode_bytes_reads; unfold zlen; lia)).
  rewrite (dec_bind_at _ _ d d ((((v ++ le_bytes 2 pl) ++ [nh]) ++ [hl]) ++ s) post)
    by (done || by rewrite <- !app_assoc || (apply decode_bytes_reads; unfold zlen; lia)).
  rewrite to_be16_involutive by done. by rewrite <- !app_assoc.
Qed.

(** ** The UDP header *)

(** The fields in the order of the wire. *)
Definition be16 (x : Z) : list Z := [x / 256; x mod 256].
Definition udp_wire (u : UDPHeader) : list Z :=
  be16 (get_src_port u) ++ be16 (get_dst_port u) ++ be16 (udp_get_len u) ++ be16 (udp_get_cksum u).

Lemma be16_swap x : u16 x → be16 (to_be16 x) = le_bytes 2 x.
Proof. intros Hx. rewrite to_be16_eq by done. unfold u16, be16 in *. cbn [le_bytes]. byte_list. Qed.

Lemma decode_u16_be_reads x : u16 x → Reads decode_u16 (be16 x) x.
Proof.
  intros Hx. rewrite <- (to_be16_involutive x Hx) at 1. rewrite be16_swap by by apply to_be16_u16.
  rewrite <- (to_be16_involutive x Hx) at 2. apply decode_u16_le_reads. by apply to_be16_u16.
Qed.

Lemma UDPHeader_decode_fields a b c d :
  u16 a → u16 b → u16 c → u16 d →
  Reads UDPHeader_decode (be16 a ++ be16 b ++ be16 c ++ be16 d)
    (mkUDP (to_be16 a) (to_be16 b) (to_be16 c) (to_be16 d)).
Proof.
  intros Ha Hb Hc Hd post. unfold UDPHeader_decode.
  rewrite dec_len_cond_ok by (rewrite zlen_app; pose proof (zlen_nonneg post); unfold zlen; cbn; lia).
  rewrite (dec_bind_done _ _ tt) by done.
  rewrite (dec_bind_at _ _ _ _ [] (be16 b ++ be16 c ++ be16 d ++ post) _ _ (decode_u16_be_reads a Ha)) by done.
  rewrite (dec_bind_at _ _ _ _ (be16 a) (be16 c ++ be16 d ++ post) _ _ (decode_u16_be_reads b Hb)) by done.
  rewrite (dec_bind_at _ _ _ _ (be16 a ++ be16 b) (be16 d ++ post) _ _ (decode_u16_be_reads c Hc)) by done.
  by rewrite (dec_bind_at _ _ _ _ (be16 a ++ be16 b ++ be16 c) post _ _ (decode_u16_be_reads d Hd)) by done.
Qed.

Lemma UDPHeader_decode_wire u : udp_ok u → Reads UDPHeader_decode (udp_wire u) u.
Proof.
  intros [H1 H2 H3 H4]. destruct u as [a b c d]. cbn in *.
  pose proof (UDPHeader_decode_fields (to_be16 a) (to_be16 b) (to_be16 c) (to_be16 d)) as H.
  rewrite !to_be16_involutive in H by done. apply H; by apply to_be16_u16.
Qed.

Lemma UDPHeader_encode_writes u :
  udp_ok u → Writes (UDPHeader_encode u 0) (be16 (src_port u) ++ be16 (dst_port u) ++ be16 (udp_len u) ++ be16 (udp_cksum u)) 8.
Proof.
  intros [H1 H2 H3 H4] buf Hb. destruct u as [a b c d]. cbn [src_port dst_port udp_len udp_cksum] in *.
  assert (Hw : ∀ x, u16 x → Writes (encode_u16 x) (be16 x) tt).
  { intros x Hx. pose proof (encode_u16_writes x) as Hw. rewrite !as_u8_mod, Z.shiftr_div_pow2 in Hw by done.
    replace (x / 2 ^ 8 mod 256) with (x / 256) in Hw; [done|]. change (2 ^ 8) with 256. unfold u16 in Hx. byte_lia. }
  unfold UDPHeader_encode. rewrite (enc_bind_done _ _ _ _ _ (enc_len_cond_ok 8 _ Hb)).
  change buf with ([] ++ buf) at 1.
  match goal with |- ?m _ = _ => assert (Hm : Emits m [] 8 (be16 a ++ be16 b ++ be16 c ++ be16 d) (8, 8)) end.
  { eapply Emits_eq.
    - do 4 (eapply Emits_bind; [by eapply Emits_consume; [apply Hw|]|]). by apply Emits_ret.
    - done.
    - done.
    - done. }
  rewrite Hm; [done|]. unfold zlen in Hb. cbn in Hb. lia.
Qed.

(** [UDPHeader::encode] writes the fields as they are kept, in network byte
    order, most significant byte first: on the wire every field is byte-swapped.
    [UDPHeader::decode] of what it wrote yields each port, the length and the
    checksum swapped. *)
Theorem udp_encode_swaps (u : UDPHeader) (buf : list Z) :
  udp_ok u → 8 ≤ zlen buf →
  ∃ frame, UDPHeader_encode u 0 buf = Ret (Done (8, 8), frame) ∧
    UDPHeader_decode frame =
      Ret (Done (8, mkUDP (to_be16 (src_port u)) (to_be16 (dst_port u)) (to_be16 (udp_len u)) (to_be16 (udp_cksum u)))).
Proof.
  intros Hu Hb. eexists. split; [by apply UDPHeader_encode_writes|].
  destruct Hu. by apply UDPHeader_decode_fields.
Qed.

Lemma udp_encode_swaps_witness :
  ∃ frame, UDPHeader_encode (set_src_port UDPHeader_new 0x1234) 0 (replicate 8 0) = Ret (Done (8, 8), frame) ∧
    UDPHeader_decode frame = Ret (Done (8, mkUDP 0x1234 0 0x0800 0)).
Proof. apply (udp_encode_swaps (set_src_port UDPHeader_new 0x1234) (replicate 8 0)); [by split|by vm_compute]. Defined.

(** ** The checksum of RFC 1071, as a reference *)

(** The 16-bit words of a byte string, padded with a zero byte. *)
Fixpoint words (l : list Z) : list Z :=
  match l with
  | a :: b :: l => (256 * a + b) :: words l
  | [a] => [256 * a]
  | [] => []
  end.
Definition word_sum (l : list Z) : Z := foldr Z.add 0 (words l).

(** One's complement addition: the representative in 1..65535 of a positive sum. *)
Definition ones_fold (s : Z) : Z := if s =? 0 then 0 else (s - 1) mod 65535 + 1.
Definition internet_checksum (l : list Z) : Z := 65535 - ones_fold (word_sum l).

(** The pseudo-header of RFC 8200, the UDP header and the data. *)
Definition udp_pseudo_packet (h : IP6Header) (u : UDPHeader) (data : list Z) : list Z :=
  src_addr h ++ dst_addr h ++ [0; 0] ++ be16 (udp_get_len u) ++ [0; 0; 0; 17] ++ udp_wire u ++ data.

Lemma words16_app l k : Nat.even (length l) = true → words (l ++ k) = words l ++ words k.
Proof.
  remember (length l) as n eqn:Hn. revert l Hn. induction (lt_wf n) as [n _ IH]. intros [|a [|b l]] Hn He; [done|by subst|].
  cbn [words app]. f_equal. apply (IH (length l)); [subst; cbn; lia|done|by subst].
Qed.

Lemma word_sum_app l k : Nat.even (length l) = true → word_sum (l ++ k) = word_sum l + word_sum k.
Proof.
  intros He. unfold word_sum. rewrite words16_app by done. induction (words l) as [|w ws IH]; cbn; [done|]. lia.
Qed.

Lemma word_sum_nonneg l : Forall byte l → 0 ≤ word_sum l.
Proof.
  unfold word_sum, byte. remember (length l) as n eqn:Hn. revert l Hn. induction (lt_wf n) as [n _ IH].
  intros [|a [|b l]] Hn Hl; cbn [words foldr]; [lia|inversion Hl; lia|].
  inversion Hl as [|? ? Ha Hl']; subst. inversion Hl' as [|? ? Hb Hl'']; subst.
  pose proof (IH (length l) ltac:(cbn; lia) l eq_refl Hl''). lia.
Qed.

Lemma word_sum_bound l : Forall byte l → word_sum l ≤ 65535 * ((zlen l + 1) / 2).
Proof.
  unfold word_sum, byte. remember (length l) as n eqn:Hn. revert l Hn. induction (lt_wf n) as [n _ IH].
  intros [|a [|b l]] Hn Hl; cbn [words foldr]; [by vm_compute|change ((zlen [a] + 1) / 2) with 1; inversion Hl; lia|].
  inversion Hl as [|? ? Ha Hl']; subst. inversion Hl' as [|? ? Hb Hl'']; subst.
  pose proof (IH (length l) ltac:(cbn; lia) l eq_refl Hl'') as H.
  replace (zlen (a :: b :: l) + 1) with (zlen l + 1 + 1 * 2) by (unfold zlen; cbn; lia).
  rewrite Z.div_add by lia. lia.
Qed.

(** ** The loops *)

Lemma at8_byte l i : Forall byte l → 0 ≤ at8 l i < 256.
Proof.
  intros Hl. unfold at8. destruct (nth_in_or_default i l 0) as [Hin| ->]; [|lia].
  rewrite Forall_forall in Hl. apply Hl. by apply list_elem_of_In.
Qed.

Lemma be_word_bound l i : Forall byte l → 0 ≤ be_word l i ≤ 65535.
Proof.
  intros Hl. unfold be_word. rewrite Z.shiftl_mul_pow2 by lia. change (2 ^ 8) with 256.
  pose proof (at8_byte l i Hl). pose proof (at8_byte l (S i) Hl). lia.
Qed.

Lemma sum_addrs_ret is_ src dst s :
  Forall byte src → Forall byte dst → 0 ≤ s → s + 131070 * Z.of_nat (length is_) < usize_bound →
  sum_addrs is_ src dst s =
    Ret (s + foldr Z.add 0 (map (be_word src) is_) + foldr Z.add 0 (map (be_word dst) is_)).
Proof.
  intros Hs Hd. revert s. induction is_ as [|i is_ IH]; intros s H0 Hb; cbn [sum_addrs map foldr].
  - f_equal. lia.
  - pose proof (be_word_bound src i Hs). pose proof (be_word_bound dst i Hd). cbn [length] in Hb.
    rewrite uadd_ok by lia. cbn [mbind outcome_bind]. rewrite uadd_ok by lia. cbn [mbind outcome_bind].
    rewrite IH by lia. f_equal. lia.
Qed.

Lemma addr_words l : length l = 16%nat → foldr Z.add 0 (map (be_word l) addr_indices) = word_sum l.
Proof.
  intros Hl. do 16 (destruct l as [|? l]; [done|]). destruct l; [|done].
  unfold word_sum, be_word. cbn [map addr_indices words foldr at8 nth]. rewrite !Z.shiftl_mul_pow2 by lia.
  change (2 ^ 8) with 256. lia.
Qed.

Lemma sum_udp_payload_ret fuel n i payload s :
  Forall byte payload → n ≤ zlen payload → 0 ≤ i → 0 ≤ s → n - i ≤ Z.of_nat fuel →
  s + word_sum (drop (Z.to_nat i) (take (Z.to_nat n) payload)) < usize_bound →
  sum_udp_payload fuel n i payload s = Ret (s + word_sum (drop (Z.to_nat i) (take (Z.to_nat n) payload))).
Proof.
  intros Hp Hn. revert i s. induction fuel as [|fuel IH]; intros i s Hi Hs Hf Hb; cbn [sum_udp_payload];
    destruct (Z.ltb_spec i n) as [Hlt|Hge].
  - lia.
  - rewrite drop_ge by (rewrite length_take; unfold zlen in Hn; lia). cbn. f_equal. lia.
  - unfold zlen in Hn. set (l := take (Z.to_nat n) payload) in *.
    assert (Hll : length l = Z.to_nat n) by (subst l; rewrite length_take; lia).
    assert (Hlb : Forall byte l) by by apply Forall_take.
    destruct (lookup_lt_is_Some_2 l (Z.to_nat i)) as [a Ha]; [lia|].
    assert (Hget : ∀ j, 0 ≤ j < n → index_get payload j = match l !! Z.to_nat j with Some x => Ret x | None => Panic end).
    { intros j Hj. unfold index_get. rewrite (proj2 (Z.ltb_ge _ _)) by lia. subst l. by rewrite lookup_take_lt by lia. }
    rewrite (Hget i), Ha by lia. cbn [mbind outcome_bind].
    rewrite (drop_S _ _ _ Ha) in Hb |- *.
    assert (Hab : byte a) by (by eapply Forall_lookup_1). unfold byte in Hab.
    destruct (Z.ltb_spec (i + 1) n) as [Hlt'|Hge'].
    + destruct (lookup_lt_is_Some_2 l (S (Z.to_nat i))) as [b Hbb]; [lia|].
      rewrite (Hget (i + 1)) by lia. replace (Z.to_nat (i + 1)) with (S (Z.to_nat i)) by lia. rewrite Hbb. cbn [mbind outcome_bind].
      rewrite (drop_S _ _ _ Hbb) in Hb |- *. assert (Hbyb : byte b) by (by eapply Forall_lookup_1). unfold byte in Hbyb.
      unfold word_sum in Hb |- *. cbn [words foldr] in Hb |- *. fold (word_sum (drop (S (S (Z.to_nat i))) l)) in Hb |- *.
      pose proof (word_sum_nonneg _ (Forall_drop _ (S (S (Z.to_nat i))) _ Hlb)).
      rewrite Z.shiftl_mul_pow2 by lia. change (2 ^ 8) with 256. rewrite uadd_ok by lia. cbn [mbind outcome_bind].
      rewrite IH; replace (Z.to_nat (i + 2)) with (S (S (Z.to_nat i))) by lia; try lia. f_equal. lia.
    + cbn [mbind outcome_bind]. rewrite (drop_ge l (S (Z.to_nat i))) in Hb |- * by lia.
      unfold word_sum in Hb |- *. cbn [words foldr] in Hb |- *.
      rewrite Z.shiftl_mul_pow2 by lia. change (2 ^ 8) with 256. rewrite uadd_ok by lia. cbn [mbind outcome_bind].
      rewrite IH; replace (Z.to_nat (i + 2)) with (S (S (Z.to_nat i))) by lia; rewrite ?drop_ge by lia; cbn; try lia. f_equal. lia.
  - rewrite drop_ge by (rewrite length_take; unfold zlen in Hn; lia). cbn. f_equal. lia.
Qed.

Lemma fold_sum_ret s : 0 ≤ s < usize_bound → fold_sum 2 s = Ret (ones_fold s).
Proof.
  intros Hs. unfold ones_fold. cbn [fold_sum].
  assert (Hstep : ∀ t, 0 ≤ t < usize_bound → uadd (Z.shiftr t 16) (Z.land t 65535) = Ret (t / 65536 + t mod 65536)).
  { intros t Ht. change 65535 with (Z.ones 16). rewrite Z.land_ones, Z.shiftr_div_pow2 by lia. change (2 ^ 16) with 65536.
    apply uadd_ok. byte_lia. }
  destruct (Z.ltb_spec 65535 s) as [H1|H1].
  - rewrite Hstep by done. cbn [mbind outcome_bind]. set (s1 := s / 65536 + s mod 65536).
    assert (E1 : s1 = s - 65535 * (s / 65536)) by (subst s1; byte_lia).
    assert (B1 : 1 ≤ s1 ≤ 131070) by (subst s1; byte_lia). clearbody s1.
    rewrite (proj2 (Z.eqb_neq _ _)) by lia.
    destruct (Z.ltb_spec 65535 s1) as [H2|H2].
    + rewrite Hstep by lia. cbn [mbind outcome_bind].
      assert (E2 : s1 / 65536 + s1 mod 65536 = s1 - 65535) by byte_lia. rewrite E2.
      rewrite (proj2 (Z.ltb_ge _ _)) by lia. f_equal.
      replace (s - 1) with (s1 - 65536 + (s / 65536 + 1) * 65535) by lia.
      rewrite Z_mod_plus_full, Z.mod_small by lia. lia.
    + f_equal. replace (s - 1) with (s1 - 1 + (s / 65536) * 65535) by lia.
      rewrite Z_mod_plus_full, Z.mod_small by lia. lia.
  - f_equal. destruct (Z.eqb_spec s 0); [done|]. rewrite Z.mod_small; lia.
Qed.

Lemma ones_fold_bound s : 0 ≤ s → 0 ≤ ones_fold s ≤ 65535.
Proof. intros Hs. unfold ones_fold. destruct (Z.eqb_spec s 0); [lia|]. pose proof (Z.mod_pos_bound (s - 1) 65535). lia. Qed.

Lemma complement16_eq x : 0 ≤ x ≤ 65535 → complement16 x = 65535 - x.
Proof.
  intros Hx. unfold complement16. change 65535 with (Z.ones 16) at 1. rewrite Z.land_ones by lia. change (2 ^ 16) with 65536.
  change usize_bound with 4294967296. byte_lia.
Qed.

(** ** The UDP checksum *)

Lemma be16_word x : word_sum (be16 x) = x.
Proof. unfold word_sum, be16. cbn. byte_lia. Qed.

Lemma udp_wire_sum u : word_sum (udp_wire u) = get_src_port u + get_dst_port u + udp_get_len u + udp_get_cksum u.
Proof. unfold udp_wire. rewrite !word_sum_app, !be16_word by done. lia. Qed.

Definition get_u16 (u : UDPHeader) : udp_ok u → u16 (get_src_port u) ∧ u16 (get_dst_port u) ∧ u16 (udp_get_len u) ∧ u16 (udp_get_cksum u).
Proof. intros []. repeat split; by apply to_be16_u16. Qed.

(** The sum of all words of the pseudo-packet. *)
Definition udp_total (h : IP6Header) (u : UDPHeader) (data : list Z) : Z :=
  word_sum (src_addr h) + word_sum (dst_addr h) + udp_get_len u + 17 +
  get_src_port u + get_dst_port u + udp_get_len u + udp_get_cksum u + word_sum data.

Lemma udp_pseudo_packet_sum h u data :
  addr_ok (src_addr h) → addr_ok (dst_addr h) → word_sum (udp_pseudo_packet h u data) = udp_total h u data.
Proof.
  intros [Hs _] [Hd _]. unfold udp_pseudo_packet, udp_total.
  rewrite (word_sum_app (src_addr h)), (word_sum_app (dst_addr h)), (word_sum_app [0; 0]), (word_sum_app (be16 _)),
    (word_sum_app [0; 0; 0; 17]), (word_sum_app (udp_wire u)) by (rewrite ?Hs, ?Hd; done).
  rewrite be16_word, udp_wire_sum. unfold word_sum at 3 4. cbn [words foldr]. lia.
Qed.

Lemma addr_sum_bound l : addr_ok l → 0 ≤ word_sum l ≤ 8 * 65535.
Proof.
  intros [Hl Hb]. pose proof (word_sum_nonneg l Hb). pose proof (word_sum_bound l Hb) as H1.
  rewrite (zlen_length _ _ Hl) in H1. change ((Z.of_nat 16 + 1) / 2) with 8 in H1. lia.
Qed.

Lemma compute_udp_checksum_ret h u udp_length payload :
  addr_ok (src_addr h) → addr_ok (dst_addr h) → udp_ok u → Forall byte payload →
  8 ≤ udp_length ≤ 65535 → udp_length - 8 ≤ zlen payload →
  compute_udp_checksum h u udp_length payload =
    Ret (65535 - ones_fold (udp_total h u (take (Z.to_nat (udp_length - 8)) payload))).
Proof.
  intros Hs Hd Hu Hp Hl Hn. destruct (get_u16 u Hu) as (B1 & B2 & B3 & B4). unfold u16 in *.
  pose proof (addr_sum_bound _ Hs). pose proof (addr_sum_bound _ Hd).
  unfold compute_udp_checksum. destruct Hs as [Hsl Hsb], Hd as [Hdl Hdb].
  rewrite sum_addrs_ret by (done || (cbn; lia)). rewrite !addr_words by done. cbn [mbind outcome_bind].
  do 6 (rewrite uadd_ok by lia; cbn [mbind outcome_bind]). rewrite usub_ok by lia. cbn [mbind outcome_bind].
  set (data := take (Z.to_nat (udp_length - 8)) payload).
  assert (Hdb' : Forall byte data) by by apply Forall_take.
  pose proof (word_sum_nonneg data Hdb'). pose proof (word_sum_bound data Hdb') as H2.
  assert (zlen data = udp_length - 8) as E by (subst data; unfold zlen in *; rewrite length_take; lia).
  rewrite E in H2. assert ((udp_length - 8 + 1) / 2 ≤ 32764) by byte_lia.
  rewrite sum_udp_payload_ret; rewrite ?drop_0; fold data; try done; try lia.
  cbn [mbind outcome_bind]. rewrite fold_sum_ret by lia. cbn [mbind outcome_bind].
  replace (0 + word_sum (src_addr h) + word_sum (dst_addr h)) with (word_sum (src_addr h) + word_sum (dst_addr h)) by lia.
  fold (udp_total h u data). rewrite complement16_eq; [done|]. apply ones_fold_bound. unfold udp_total. lia.
Qed.

(** [compute_udp_checksum] is the Internet checksum of RFC 1071 over the
    pseudo-header, the UDP header and the data: it returns for every length that
    the payload covers, without overflow of its 32-bit sum, the two rounds that
    fold the sum being enough. *)
Theorem udp_checksum_reference (h : IP6Header) (u : UDPHeader) (udp_length : Z) (payload : list Z) :
  addr_ok (src_addr h) → addr_ok (dst_addr h) → udp_ok u → Forall byte payload →
  8 ≤ udp_length ≤ 65535 → udp_length - 8 ≤ zlen payload →
  compute_udp_checksum h u udp_length payload =
    Ret (internet_checksum (udp_pseudo_packet h u (take (Z.to_nat (udp_length - 8)) payload))).
Proof.
  intros Hs Hd Hu Hp Hl Hn. unfold internet_checksum. rewrite udp_pseudo_packet_sum by done.
  by apply compute_udp_checksum_ret.
Qed.

Definition sample_ip6 : IP6Header :=
  mkIP6 [0x60; 0; 0; 0] 0 NH_UDP 64 (generate_from_mac (Short 0x1234)) (generate_from_mac (Long [1; 2; 3; 4; 5; 6; 7; 8])).
Definition sample_udp : UDPHeader := udp_set_len (set_dst_port (set_src_port UDPHeader_new 0xF0B1) 5683) 11.

Lemma udp_checksum_reference_witness :
  compute_udp_checksum sample_ip6 sample_udp 11 [1; 2; 3] =
    Ret (internet_checksum (udp_pseudo_packet sample_ip6 sample_udp (take (Z.to_nat (11 - 8)) [1; 2; 3]))).
Proof.
  apply udp_checksum_reference.
  - split; [done|]. repeat (constructor; [by vm_compute|]). constructor.
  - split; [done|]. repeat (constructor; [by vm_compute|]). constructor.
  - by split.
  - repeat (constructor; [by vm_compute|]). constructor.
  - done.
  - done.
Defined.

(** Adding the checksum to the sum it was computed from gives all ones. *)
Lemma ones_fold_cancel s : 0 < s → ones_fold (s + (65535 - ones_fold s)) = 65535.
Proof.
  intros Hs. pose proof (ones_fold_bound s ltac:(lia)). unfold ones_fold in *.
  rewrite (proj2 (Z.eqb_neq s 0)) in * by lia.
  rewrite (proj2 (Z.eqb_neq _ 0)) by lia.
  replace (s + (65535 - ((s - 1) mod 65535 + 1)) - 1) with (65534 + (s - 1) / 65535 * 65535) by byte_lia.
  rewrite Z_mod_plus_full. done.
Qed.

(** A receiver accepts what a sender checksummed: [set_transport_checksum] on a
    packet with a UDP header whose checksum is zero and whose length is that of
    header and data, then [check_transport_checksum] on the datagram with its
    header in the order of the wire, returns [Ok]. *)
Lemma udp_checksum_checked (h : IP6Header) (u : UDPHeader) (data rest : list Z) (fuel : nat) :
  addr_ok (src_addr h) → addr_ok (dst_addr h) → next_header h = NH_UDP → udp_ok u → udp_cksum u = 0 →
  Forall byte data → Forall byte rest → udp_get_len u = 8 + zlen data →
  ∃ c, let u' := udp_set_cksum u c in
    set_transport_checksum fuel (mkPacket h (mkPayload (UDP u) (data ++ rest)))
      = Ret (Some (mkPacket h (mkPayload (UDP u') (data ++ rest)))) ∧
    udp_ok u' ∧
    check_transport_checksum fuel h (udp_wire u' ++ data) = Ret (Some (Ok tt)).
Proof.
  intros Hs Hd Hnh Hu Hc Hdata Hrest Hlen.
  destruct (get_u16 u Hu) as (B1 & B2 & B3 & B4). unfold u16 in B3. pose proof (zlen_nonneg data).
  unfold set_transport_checksum. cbn [packet_payload transport packet_header payload].
  rewrite compute_udp_checksum_ret by (done || (by apply Forall_app) || (rewrite ?zlen_app; pose proof (zlen_nonneg rest); lia)).
  cbn [mbind outcome_bind]. rewrite Hlen. replace (8 + zlen data - 8) with (zlen data) by lia. rewrite take_zlen_app.
  set (c := 65535 - ones_fold (udp_total h u data)). exists c. cbv zeta. split; [done|].
  pose proof (addr_sum_bound _ Hs). pose proof (addr_sum_bound _ Hd). pose proof (word_sum_nonneg _ Hdata).
  assert (Ht : 0 < udp_total h u data) by (unfold udp_total, u16 in *; lia).
  assert (Hcu : u16 c) by (pose proof (ones_fold_bound (udp_total h u data)); unfold u16; subst c; lia).
  assert (Hu' : udp_ok (udp_set_cksum u c)) by (destruct Hu; split; try done; by apply to_be16_u16).
  split; [done|]. unfold check_transport_checksum. rewrite Hnh. cbn [Z.eqb NH_UDP Pos.eqb].
  rewrite (get_range_front (udp_wire _) data) by done. rewrite (get_from_app (udp_wire _) data) by done.
  pose proof (UDPHeader_decode_wire _ Hu' []) as Hdec. rewrite app_nil_r in Hdec. rewrite Hdec.
  cbn [sresult_done mbind outcome_bind].
  assert (El : as_u16 (zlen (udp_wire (udp_set_cksum u c) ++ data)) = 8 + zlen data).
  { unfold as_u16. change 0xFFFF with (Z.ones 16). rewrite zlen_app, land_ones_small; [done|lia|].
    change (zlen (udp_wire _)) with 8. lia. }
  rewrite El, compute_udp_checksum_ret by (done || lia).
  cbn [mbind outcome_bind]. replace (8 + zlen data - 8) with (zlen data) by lia.
  rewrite take_ge by (unfold zlen; lia).
  assert (Et : udp_total h (udp_set_cksum u c) data = udp_total h u data + c).
  { unfold udp_total, udp_get_cksum, udp_set_cksum. cbn [udp_cksum udp_get_len get_src_port get_dst_port].
    rewrite to_be16_involutive, Hc by done. change (to_be16 0) with 0.
    unfold udp_get_len, get_src_port, get_dst_port. cbn. lia. }
  rewrite Et. subst c. rewrite ones_fold_cancel by done. done.
Qed.

(** ** ICMPv6 *)

(** Each round of the carry loop adds to the sum: once it exceeds 16 bits, the
    loop ends only by an overflow. *)
Lemma icmp_carry_never fuel s c : 65535 < s → icmp_carry fuel s ≠ Ret (Some c).
Proof.
  revert s. induction fuel as [|fuel IH]; intros s Hs; cbn [icmp_carry]; rewrite (proj2 (Z.ltb_lt _ _)) by lia; [done|].
  intros H. apply outcome_bind_Ret in H as (d & Hd & H). apply uadd_Ret in Hd as [-> _].
  apply outcome_bind_Ret in H as (s' & Hs' & H). apply uadd_Ret in Hs' as [-> _]. revert H. apply IH.
  pose proof (land_mask_nonneg s 65535 ltac:(lia)). pose proof (proj2 (Z.shiftr_nonneg s 16) ltac:(lia)). lia.
Qed.

Lemma uadd_grows a b c : 0 ≤ b → uadd a b = Ret c → a ≤ c.
Proof. intros Hb [-> _]%uadd_Ret. lia. Qed.

Lemma sum_addrs_grows is_ src dst s r :
  Forall byte src → Forall byte dst → sum_addrs is_ src dst s = Ret r → s ≤ r.
Proof.
  intros Hs Hd. revert s. induction is_ as [|i is_ IH]; intros s H; cbn [sum_addrs] in H; [injection H; lia|].
  apply outcome_bind_Ret in H as (s1 & H1 & H). apply outcome_bind_Ret in H as (s2 & H2 & H).
  apply uadd_grows in H1; [|apply be_word_bound, Hs]. apply uadd_grows in H2; [|apply be_word_bound, Hd].
  apply IH in H. lia.
Qed.

Lemma link_local_word ip : is_unicast_link_local ip = true → addr_ok ip → be_word ip 0 = 0xfe80.
Proof.
  unfold is_unicast_link_local, be_word. intros H [_ Hb]. rewrite !andb_true_iff, !Z.eqb_eq in H.
  destruct H as [[[-> H1] H2] _]. pose proof (at8_byte ip 1 Hb) as B.
  replace (at8 ip 1) with 0x80; [done|]. rewrite <- (land_ones_small (at8 ip 1) 8) by lia.
  change (Z.ones 8) with (Z.lor 0xc0 0x3f). by rewrite Z.land_lor_distr_r, H1, H2.
Qed.

Definition icmp_ok (i : ICMP6Header) : Prop :=
  0 ≤ icmp_code i ∧
  match icmp_options i with
  | OptType1 x | OptType3 x => 0 ≤ x
  | OptType128 a b | OptType129 a b => 0 ≤ a ∧ 0 ≤ b
  end.

Lemma compute_sum_grows fuel buf len i s r :
  Forall byte buf → compute_sum_from fuel buf len i s = Ret r → s ≤ r.
Proof.
  intros Hb. revert i s. induction fuel as [|fuel IH]; intros i s H; cbn [compute_sum_from] in H;
    destruct (i <? len); try done; try (injection H; lia).
  apply outcome_bind_Ret in H as (m & Hm & H). apply outcome_bind_Ret in H as (l & Hl & H).
  apply outcome_bind_Ret in H as (s' & Hs' & H). apply IH in H.
  assert (Hg : ∀ j x, index_get buf j = Ret x → 0 ≤ x).
  { intros j x Hx. unfold index_get in Hx. destruct (j <? 0); [done|].
    destruct (buf !! Z.to_nat j) as [y|] eqn:E; [|done]. injection Hx as ->.
    eapply Forall_lookup_1 in E; [|done]. unfold byte in E. lia. }
  apply Hg in Hm, Hl. apply uadd_grows in Hs'; [lia|]. rewrite Z.shiftl_mul_pow2 by lia. lia.
Qed.

Lemma icmp_sum_lower h i payload s :
  ip6_ok h → icmp_ok i → Forall byte payload → icmp_sum h i payload = Ret s →
  be_word (src_addr h) 0 + be_word (dst_addr h) 0 ≤ s.
Proof.
  intros Hok [Hcode Hopt] Hp H. destruct Hok as [_ Hlen Hnext _ [_ Hs] [_ Hd]].
  unfold icmp_sum in H. apply outcome_bind_Ret in H as (ph & Hph & H). apply outcome_bind_Ret in H as (s1 & H1 & H).
  apply outcome_bind_Ret in H as (s2 & H2 & H). apply outcome_bind_Ret in H as (pl & _ & H).
  apply outcome_bind_Ret in H as (sp & Hsp & H).
  apply uadd_grows in H1.
  2:{ rewrite Z.shiftl_mul_pow2 by lia. unfold get_type_as_int. destruct (icmp_get_type i); lia. }
  assert (s1 ≤ s2).
  { destruct (icmp_options i); apply outcome_bind_Ret in H2 as (t & Ht & H2); apply uadd_grows in Ht, H2;
      try lia; try (by apply Z.shiftr_nonneg); try (by apply land_mask_nonneg). }
  apply compute_sum_grows in Hsp; [|done]. apply uadd_grows in H; [|done].
  unfold compute_ipv6_ph_sum in Hph. apply outcome_bind_Ret in Hph as (a & Ha & Hph).
  apply outcome_bind_Ret in Hph as (b & Hb & Hph). unfold u16, byte in Hlen, Hnext.
  apply uadd_grows in Hb; [|lia]. apply uadd_grows in Hph; [|lia].
  unfold addr_indices in Ha. cbn [sum_addrs] in Ha. apply outcome_bind_Ret in Ha as (x & Hx & Ha).
  apply outcome_bind_Ret in Ha as (y & Hy & Ha). apply (sum_addrs_grows [2; 4; 6; 8; 10; 12; 14]%nat) in Ha; [|done..].
  apply uadd_Ret in Hx as [-> _], Hy as [-> _]. lia.
Qed.

(** Between link-local addresses the ICMPv6 checksum is never computed, whatever
    the message: the two address prefixes alone exceed 16 bits, and the carry
    loop, which adds the halves of the sum to it instead of replacing it, then
    does not return (it overflows, or goes on). *)
Theorem icmp_checksum_never_returns (h : IP6Header) (i : ICMP6Header) (payload : list Z) (fuel : nat) (c : Z) :
  ip6_ok h → icmp_ok i → Forall byte payload →
  is_unicast_link_local (src_addr h) = true → is_unicast_link_local (dst_addr h) = true →
  compute_icmp_checksum fuel h i payload ≠ Ret (Some c).
Proof.
  intros Hok Hi Hp Hs Hd H. unfold compute_icmp_checksum in H. apply outcome_bind_Ret in H as (s & Hsum & H).
  apply (icmp_sum_lower _ _ _ _ Hok Hi Hp) in Hsum.
  rewrite !link_local_word in Hsum by (done || by destruct Hok).
  apply outcome_bind_Ret in H as ([r|] & Hr & H); [|done]. revert Hr. apply icmp_carry_never. lia.
Qed.

Definition sample_echo : ICMP6Header := icmp_set_len (ICMP6Header_new Type128) 8.

Lemma sample_ip6_ok : ip6_ok sample_ip6.
Proof.
  split; try done; (split; [done|]; repeat (constructor; [by vm_compute|]); constructor).
Qed.

Lemma icmp_checksum_never_returns_witness :
  compute_icmp_checksum 4 sample_ip6 sample_echo [] ≠ Ret (Some 0).
Proof.
  apply icmp_checksum_never_returns.
  - apply sample_ip6_ok.
  - by split.
  - constructor.
  - by vm_compute.
  - by vm_compute.
Defined.

(** The sum over a payload of odd length reads one byte behind it. *)
Lemma compute_sum_from_odd fuel buf i s :
  Nat.odd (length (drop (Z.to_nat i) buf)) = true → 0 ≤ i → zlen buf - i ≤ Z.of_nat fuel →
  compute_sum_from fuel buf (zlen buf) i s = Panic.
Proof.
  revert i s. induction fuel as [|fuel IH]; intros i s Ho Hi Hf; rewrite length_drop in Ho; unfold zlen in Hf.
  - replace (length buf - Z.to_nat i)%nat with 0%nat in Ho by lia. done.
  - assert (Hlt : (Z.to_nat i < length buf)%nat).
    { destruct (decide (Z.to_nat i < length buf)%nat); [done|].
      replace (length buf - Z.to_nat i)%nat with 0%nat in Ho by lia. done. }
    cbn [compute_sum_from]. unfold zlen. rewrite (proj2 (Z.ltb_lt _ _)) by lia.
    unfold index_get. rewrite !(proj2 (Z.ltb_ge _ 0)) by lia.
    destruct (lookup_lt_is_Some_2 buf (Z.to_nat i) Hlt) as [x ->]. cbn [mbind outcome_bind].
    replace (Z.to_nat (i + 1)) with (S (Z.to_nat i)) by lia.
    destruct (buf !! S (Z.to_nat i)) as [y|] eqn:Ey; [|done]. cbn [mbind outcome_bind].
    unfold uadd. destruct (_ <? _); [|done]. cbn [mbind outcome_bind].
    apply IH; [|lia|unfold zlen; lia]. apply lookup_lt_Some in Ey.
    rewrite length_drop. replace (length buf - Z.to_nat i)%nat with (S (S (length buf - Z.to_nat (i + 2)))) in Ho by lia.
    done.
Qed.

Lemma compute_sum_odd_panics buf : Nat.odd (length buf) = true → compute_sum buf (zlen buf) = Panic.
Proof.
  intros Ho. apply compute_sum_from_odd; [by rewrite drop_0|lia|]. unfold zlen. lia.
Qed.

(** Both numbers of an echo message are read at the same place. *)
Lemma icmp_echo_seqno_is_id code c0 c1 a b rest :
  ICMP6Header_decode (128 :: code :: c0 :: c1 :: a :: b :: rest) =
    Ret (Done (4, mkICMP code (to_be16 (Z.lor (Z.shiftl c0 8) c1))
                    (OptType128 (to_be16 (Z.lor (Z.shiftl a 8) b)) (to_be16 (Z.lor (Z.shiftl a 8) b))) 0)).
Proof.
  unfold ICMP6Header_decode. set (buf := 128 :: _).
  rewrite (dec_bind_at _ _ _ _ [] (code :: c0 :: c1 :: a :: b :: rest) _ buf (decode_u8_reads 128)) by done.
  cbv beta iota. rewrite dec_bind_ret.
  rewrite (dec_bind_at _ _ _ _ [128] (c0 :: c1 :: a :: b :: rest) _ buf (decode_u8_reads code)) by done.
  rewrite (dec_bind_at _ _ _ _ [128; code] (a :: b :: rest) _ buf (decode_u16_reads c0 c1)) by done.
  cbv beta iota zeta. cbn [app].
  rewrite !(dec_bind_at _ _ _ _ [128; code; c0; c1] rest _ buf (decode_u16_reads a b)) by done. done.
Qed.

(** [set_payload] computes the length of the datagram and leaves the one in the
    header as it was. *)
Lemma set_payload_keeps_length self u p r :
  IPPayload_set_payload self (UDP u) p = Ret r → transport r.1 = UDP u.
Proof. unfold IPPayload_set_payload. intros (d & _ & H)%outcome_bind_Ret. by injection H as <-. Qed.
