(* ===== verification/Sixlowpan.v ===== *)
(** * 6LoWPAN header compression: sixlowpan_compression.rs

    [compress] writes the LOWPAN_IPHC form of an IPv6 header, and of a UDP
    header behind it, into a buffer; [decompress] expands it into a packet
    buffer.  A function that takes [buf: &mut [u8]] and [written: &mut usize]
    maps the pair of both; one that reads [buf] at [consumed: &mut usize]
    returns the new [consumed].  A slice or index out of range is [Panic]. *)

From S2P Require Import Prelude Bytes Syscall NetStream Ieee802154 Ipv6.

(** ** Constants: [mod iphc] and [mod nhc] *)

Definition IPHC_DISPATCH : list Z := [0x60; 0x00].
Definition TF_TRAFFIC_CLASS : Z := 0x08.
Definition TF_FLOW_LABEL : Z := 0x10.
Definition IPHC_NH : Z := 0x04.
Definition HLIM_MASK : Z := 0x03.
Definition HLIM_INLINE : Z := 0x00.
Definition HLIM_1 : Z := 0x01.
Definition HLIM_64 : Z := 0x02.
Definition HLIM_255 : Z := 0x03.
Definition CID : Z := 0x80.
Definition SAC : Z := 0x40.
Definition SAM_MASK : Z := 0x30.
Definition SAM_INLINE : Z := 0x00.
Definition SAM_MODE1 : Z := 0x10.
Definition SAM_MODE2 : Z := 0x20.
Definition SAM_MODE3 : Z := 0x30.
Definition MULTICAST : Z := 0x08.
Definition DAC : Z := 0x04.
Definition DAM_MASK : Z := 0x03.
Definition DAM_INLINE : Z := 0x00.
Definition DAM_MODE1 : Z := 0x01.
Definition DAM_MODE2 : Z := 0x02.
Definition DAM_MODE3 : Z := 0x03.
Definition MAC_BASE : list Z := [0; 0; 0; 0xff; 0xfe; 0; 0; 0].
Definition MAC_UL : Z := 0x02.

Definition NHC_DISPATCH_NHC : Z := 0xe0.
Definition NHC_DISPATCH_UDP : Z := 0xf0.
Definition NHC_DISPATCH_MASK : Z := 0xf0.
Definition NHC_EID_MASK : Z := 0x0e.
Definition NHC_NH : Z := 0x01.
Definition UDP_4BIT_PORT : Z := 0xf0b0.
Definition UDP_4BIT_PORT_MASK : Z := 0xfff0.
Definition UDP_8BIT_PORT : Z := 0xf000.
Definition UDP_8BIT_PORT_MASK : Z := 0xff00.
Definition UDP_CHECKSUM_FLAG : Z := 4.
Definition UDP_SRC_PORT_FLAG : Z := 2.
Definition UDP_DST_PORT_FLAG : Z := 1.
Definition UDP_PORTS_SIZE : Z := 4.

(** ** Contexts *)

Record Context := mkContext { prefix : list Z; prefix_len : Z; ctx_id : Z; ctx_compress : bool }.

(** [trait ContextStore]. *)
Class ContextStore (T : Type) := {
  get_context_from_addr : T → list Z → option Context;
  get_context_from_id : T → Z → option Context;
  get_context_from_prefix : T → list Z → Z → option Context
}.

Definition get_context_0 {T} `{ContextStore T} (s : T) : outcome Context :=
  match get_context_from_id s 0 with Some ctx => Ret ctx | None => Panic end.

(** [impl ContextStore for Context]. *)
#[export] Instance Context_store : ContextStore Context := {
  get_context_from_addr self ip := if matches_prefix ip (prefix self) (prefix_len self) then Some self else None;
  get_context_from_id self id := if id =? 0 then Some self else None;
  get_context_from_prefix self p len :=
    if (len =? prefix_len self) && matches_prefix p (prefix self) len then Some self else None
}.

Definition compute_iid (mac_addr : MacAddress) : list Z :=
  match mac_addr with
  | Short short_addr => take 6 MAC_BASE ++ [as_u8 (Z.shiftr short_addr 1); as_u8 (Z.land short_addr 0xff)]
  | Long long_addr => Z.lxor (at8 long_addr 0) MAC_UL :: drop 1 long_addr
  end.

Definition is_lowpan (packet : list Z) : outcome bool :=
  b ← index_get packet 0; Ret (Z.land b 0x60 =? 0x60).

Definition nhc_to_ip6_nh (nhc : Z) : option Z :=
  if Z.land nhc NHC_DISPATCH_MASK =? NHC_DISPATCH_NHC then
    match Z.land nhc NHC_EID_MASK with
    | 0 => Some NH_HOP_OPTS
    | 2 => Some NH_ROUTING
    | 4 => Some NH_FRAGMENT
    | 6 => Some NH_DST_OPTS
    | 8 => Some NH_MOBILITY
    | 14 => Some NH_IP6
    | _ => None
    end
  else if Z.land nhc NHC_DISPATCH_MASK =? NHC_DISPATCH_UDP then Some NH_UDP
  else None.

(** ** Compression *)

(** [buf] and [*written]. *)
Definition Out : Type := list Z * Z.

(** [buf[i] |= v], [buf[*written] = b; *written += 1] and
    [buf[*written..*written + n].copy_from_slice(bs); *written += n]. *)
Definition or_byte (i v : Z) (o : Out) : outcome Out :=
  b ← index_get o.1 i; buf ← index_set o.1 i (Z.lor b v); Ret (buf, o.2).
Definition put_byte (b : Z) (o : Out) : outcome Out :=
  buf ← index_set o.1 o.2 b; Ret (buf, o.2 + 1).
Definition put_bytes (bs : list Z) (o : Out) : outcome Out :=
  buf ← splice o.1 o.2 bs; Ret (buf, o.2 + zlen bs).

Definition cie_of (ctx : option Context) : Z :=
  match ctx with Some ctx => if ctx_id ctx =? 0 then 0 else ctx_id ctx | None => 0 end.
Definition compress_cie (src_ctx dst_ctx : option Context) (o : Out) : outcome Out :=
  let cie := Z.lor (as_u8 (Z.shiftl (cie_of src_ctx) 4)) (cie_of dst_ctx) in
  if cie =? 0 then Ret o else o ← or_byte 1 CID o; put_byte cie o.

Definition compress_tf (h : IP6Header) (o : Out) : outcome Out :=
  let ecn := get_ecn h in
  let dscp := get_dscp h in
  let flow := get_flow_label h in
  let old_offset := o.2 in
  '(tf, o) ← (if (dscp =? 0) && ((ecn =? 0) || negb (flow =? 0)) then Ret (TF_TRAFFIC_CLASS, o)
              else o ← put_byte dscp o; Ret (0, o));
  '(tf, o) ← (if flow =? 0 then Ret (Z.lor tf TF_FLOW_LABEL, o)
              else o ← put_byte (as_u8 (Z.land (Z.shiftr flow 16) 0x0f)) o;
                   o ← put_byte (as_u8 (Z.shiftr flow 8)) o;
                   o ← put_byte (as_u8 flow) o;
                   Ret (tf, o));
  o ← (if o.2 =? old_offset then Ret o else or_byte old_offset (as_u8 (Z.shiftl ecn 6)) o);
  or_byte 0 tf o.

Definition compress_nh (h : IP6Header) (is_nhc : bool) (o : Out) : outcome Out :=
  if is_nhc then or_byte 0 IPHC_NH o else put_byte (next_header h) o.

Definition compress_hl (h : IP6Header) (o : Out) : outcome Out :=
  '(flag, o) ← match hop_limit h with
               | 1 => Ret (HLIM_1, o)
               | 64 => Ret (HLIM_64, o)
               | 255 => Ret (HLIM_255, o)
               | hl => o ← put_byte hl o; Ret (HLIM_INLINE, o)
               end;
  or_byte 0 flag o.

Definition compress_iid (ip : list Z) (mac_addr : MacAddress) (is_src : bool) (o : Out) : outcome Out :=
  let iid := compute_iid mac_addr in
  if bool_decide (sub8 ip 8 16 = iid) then or_byte 1 (if is_src then SAM_MODE3 else DAM_MODE3) o
  else if bool_decide (sub8 ip 8 14 = take 6 MAC_BASE) then
    o ← or_byte 1 (if is_src then SAM_MODE2 else DAM_MODE2) o;
    put_bytes (sub8 ip 14 16) o
  else
    o ← or_byte 1 (if is_src then SAM_MODE1 else DAM_MODE1) o;
    put_bytes (sub8 ip 8 16) o.

Definition compress_src (ip : list Z) (mac_addr : MacAddress) (ctx : option Context) (o : Out) : outcome Out :=
  if is_unspecified ip then or_byte 1 SAC o
  else if is_unicast_link_local ip then compress_iid ip mac_addr true o
  else match ctx with
       | Some _ => o ← or_byte 1 SAC o; compress_iid ip mac_addr true o
       | None => put_bytes ip o
       end.

Definition compress_dst (ip : list Z) (mac_addr : MacAddress) (ctx : option Context) (o : Out) : outcome Out :=
  if is_unicast_link_local ip then compress_iid ip mac_addr false o
  else match ctx with
       | Some _ => o ← or_byte 1 DAC o; compress_iid ip mac_addr false o
       | None => put_bytes ip o
       end.

Definition compress_multicast (ip : list Z) (ctx : option Context) (o : Out) : outcome Out :=
  o ← or_byte 1 MULTICAST o;
  match ctx with
  | Some _ =>
      o ← or_byte 1 DAC o;
      o ← put_bytes (sub8 ip 1 3) o;
      put_bytes (sub8 ip 12 16) o
  | None =>
      if (at8 ip 1 =? 0x02) && all_zero (sub8 ip 2 15) then
        o ← or_byte 1 DAM_MODE3 o; put_byte (at8 ip 15) o
      else if negb (all_zero (sub8 ip 2 11)) then
        o ← or_byte 1 DAM_INLINE o; put_bytes ip o
      else if negb (all_zero (sub8 ip 11 13)) then
        o ← or_byte 1 DAM_MODE1 o; o ← put_byte (at8 ip 1) o; put_bytes (sub8 ip 11 16) o
      else
        o ← or_byte 1 DAM_MODE2 o; o ← put_byte (at8 ip 1) o; put_bytes (sub8 ip 13 16) o
  end.

(** [u16_to_network_slice(x, &mut buf[at..at + 2])]. *)
Definition network_bytes (x : Z) : list Z := [as_u8 (Z.shiftr x 8); as_u8 (Z.land x 0xff)].

(** Returns the flags besides. *)
Definition compress_udp_ports (u : UDPHeader) (o : Out) : outcome (Z * Out) :=
  let src := to_be16 (get_src_port u) in
  let dst := to_be16 (get_dst_port u) in
  let '(buf, written) := o in
  if (Z.land src UDP_4BIT_PORT_MASK =? UDP_4BIT_PORT) && (Z.land dst UDP_4BIT_PORT_MASK =? UDP_4BIT_PORT) then
    buf ← index_set buf written (as_u8 (Z.lor (Z.shiftl (Z.land src 0x000f) 4) (Z.land dst 0x000f)));
    Ret (Z.lor UDP_SRC_PORT_FLAG UDP_DST_PORT_FLAG, (buf, written + 1))
  else if Z.land src UDP_8BIT_PORT_MASK =? UDP_8BIT_PORT then
    buf ← index_set buf written (as_u8 (Z.land src 0x00ff));
    buf ← splice buf (written + 1) (network_bytes (to_be16 dst));
    Ret (UDP_SRC_PORT_FLAG, (buf, written + 3))
  else if Z.land dst UDP_8BIT_PORT_MASK =? UDP_8BIT_PORT then
    buf ← splice buf written (network_bytes (to_be16 src));
    buf ← index_set buf (written + 3) (as_u8 (Z.land dst 0x00ff));
    Ret (UDP_DST_PORT_FLAG, (buf, written + 3))
  else
    buf ← index_set buf written (as_u8 src);
    buf ← index_set buf (written + 1) (as_u8 (Z.shiftr src 8));
    buf ← index_set buf (written + 2) (as_u8 dst);
    buf ← index_set buf (written + 3) (as_u8 (Z.shiftr dst 8));
    Ret (0, (buf, written + 4)).

Definition compress_udp_checksum (u : UDPHeader) (o : Out) : outcome (Z * Out) :=
  let cksum := to_be16 (udp_get_cksum u) in
  o ← put_byte (as_u8 cksum) o;
  o ← put_byte (as_u8 (Z.shiftr cksum 8)) o;
  Ret (0, o).

Definition usable (ctx : option Context) : option Context :=
  match ctx with Some c => if ctx_compress c then Some c else None | None => None end.

(** The contexts of the two addresses. *)
Definition src_context {T} `{ContextStore T} (s : T) (h : IP6Header) : option Context :=
  usable (get_context_from_addr s (src_addr h)).
Definition dst_context {T} `{ContextStore T} (s : T) (h : IP6Header) : option Context :=
  let ip := dst_addr h in
  usable (if is_multicast ip then
            let plen := at8 ip 3 in
            let p := sub8 ip 4 12 in
            if verify_prefix_len p plen then get_context_from_prefix s p plen else None
          else get_context_from_addr s ip).

(** [compress]: the bytes consumed and written, [None] for [Err(())]. *)
Definition compress {T} `{ContextStore T} (s : T) (packet : IP6Packet) (src_mac dst_mac : MacAddress) (buf : list Z)
    : outcome (option (Z * Z) * list Z) :=
  let h := packet_header packet in
  buf ← splice buf 0 IPHC_DISPATCH;
  let o : Out := (buf, 2) in
  let src_ctx := src_context s h in
  let dst_ctx := dst_context s h in
  o ← compress_cie src_ctx dst_ctx o;
  o ← compress_tf h o;
  let is_nhc := next_header h =? NH_UDP in
  o ← compress_nh h is_nhc o;
  o ← compress_hl h o;
  o ← compress_src (src_addr h) src_mac src_ctx o;
  o ← (if is_multicast (dst_addr h) then compress_multicast (dst_addr h) dst_ctx o
       else compress_dst (dst_addr h) dst_mac dst_ctx o : outcome Out);
  if is_nhc then
    match transport (packet_payload packet) with
    | UDP u =>
        let udp_nh_offset := o.2 in
        '(f1, o) ← compress_udp_ports u (o.1, o.2 + 1);
        '(f2, o) ← compress_udp_checksum u o;
        buf ← index_set o.1 udp_nh_offset (Z.lor (Z.lor NHC_DISPATCH_UDP f1) f2);
        Ret (Some (48, o.2), buf)
    | _ => Ret (None, o.1)
    end
  else Ret (Some (40, o.2), o.1).

(** ** Decompression *)

(** Code that can panic and returns [Result<_, ()>]. *)
Definition Res (A : Type) : Type := outcome (option A).
#[export] Instance Res_ret : MRet Res := fun A a => Ret (Some a).
#[export] Instance Res_bind : MBind Res := fun A B f m =>
  match m with Ret (Some a) => f a | Ret None => Ret None | Panic => Panic end.
Definition lift {A} (m : outcome A) : Res A := match m with Ret a => Ret (Some a) | Panic => Panic end.
Definition fail {A} : Res A := Ret None.
Definition ok_or {A} (o : option A) : Res A := Ret o.

Definition get8 (buf : list Z) (i : Z) : Res Z := lift (index_get buf i).
(** [&buf[lo..hi]]. *)
Definition slice (buf : list Z) (lo hi : Z) : Res (list Z) :=
  match get_range buf lo hi with Some s => mret s | None => Panic end.

Definition decompress_cie {T} `{ContextStore T} (s : T) (iphc_header : Z) (buf : list Z) (consumed : Z)
    : Res (Context * Context * Z) :=
  ctx_0 ← lift (get_context_0 s);
  if Z.land iphc_header CID =? 0 then mret (ctx_0, ctx_0, consumed)
  else
    b ← get8 buf consumed;
    let sci := Z.shiftr b 4 in
    let dci := Z.land b 0xf in
    src_ctx ← (if sci =? 0 then mret ctx_0 else ok_or (get_context_from_id s sci));
    dst_ctx ← (if dci =? 0 then mret ctx_0 else ok_or (get_context_from_id s dci));
    mret (src_ctx, dst_ctx, consumed + 1).

Definition decompress_tf (h : IP6Header) (iphc_header : Z) (buf : list Z) (consumed : Z) : Res (IP6Header * Z) :=
  let fl_compressed := negb (Z.land iphc_header TF_FLOW_LABEL =? 0) in
  let tc_compressed := negb (Z.land iphc_header TF_TRAFFIC_CLASS =? 0) in
  h ← (if negb fl_compressed || negb tc_compressed
       then b ← get8 buf consumed; mret (set_ecn h (Z.shiftr b 6)) else mret h);
  '(h, consumed) ← (if negb tc_compressed
                    then b ← get8 buf consumed; mret (set_dscp h (Z.land b 0x3f), consumed + 1) else mret (h, consumed));
  if fl_compressed then mret (set_flow_label h 0, consumed)
  else
    b0 ← get8 buf consumed;
    b1 ← get8 buf (consumed + 1);
    b2 ← get8 buf (consumed + 2);
    mret (set_flow_label h (Z.lor (Z.lor (Z.shiftl (Z.land b0 0x0f) 16) (Z.shiftl b1 8)) b2), consumed + 3).

Definition decompress_nh (iphc_header : Z) (buf : list Z) (consumed : Z) : Res (bool * Z * Z) :=
  let is_nhc := negb (Z.land iphc_header IPHC_NH =? 0) in
  if is_nhc then mret (is_nhc, 0, consumed)
  else nh ← get8 buf consumed; mret (is_nhc, nh, consumed + 1).

Definition decompress_hl (h : IP6Header) (iphc_header : Z) (buf : list Z) (consumed : Z) : Res (IP6Header * Z) :=
  match Z.land iphc_header HLIM_MASK with
  | 1 => mret (set_hop_limit h 1, consumed)
  | 2 => mret (set_hop_limit h 64, consumed)
  | 3 => mret (set_hop_limit h 255, consumed)
  | 0 => hl ← get8 buf consumed; mret (set_hop_limit h hl, consumed + 1)
  | _ => Panic
  end.

(** The four address modes, the same for source and destination. *)
Definition iid_mode (addr_mode : Z) : option nat :=
  match Z.land addr_mode (Z.lor SAM_MASK DAM_MASK) with
  | 0x00 => Some 0%nat
  | 0x10 | 0x01 => Some 1%nat
  | 0x20 | 0x02 => Some 2%nat
  | 0x30 | 0x03 => Some 3%nat
  | _ => None
  end.

Definition decompress_iid_link_local (addr_mode : Z) (ip : list Z) (mac_addr : MacAddress) (buf : list Z) (consumed : Z)
    : Res (list Z * Z) :=
  match iid_mode addr_mode with
  | Some 0%nat => s ← slice buf consumed (consumed + 16); mret (s, consumed + 16)
  | Some 1%nat =>
      let ip := set_unicast_link_local ip in
      s ← slice buf consumed (consumed + 8); mret (take 8 ip ++ s, consumed + 8)
  | Some 2%nat =>
      let ip := set_unicast_link_local ip in
      s ← slice buf consumed (consumed + 2);
      mret (take 11 ip ++ sub8 MAC_BASE 3 5 ++ sub8 ip 13 14 ++ s, consumed + 2)
  | Some 3%nat =>
      let ip := set_unicast_link_local ip in
      mret (take 8 ip ++ compute_iid mac_addr, consumed)
  | _ => Panic
  end.

Definition decompress_iid_context (addr_mode : Z) (ip : list Z) (mac_addr : MacAddress) (ctx : Context)
    (buf : list Z) (consumed : Z) : Res (list Z * Z) :=
  '(ip, consumed) ←
    match iid_mode addr_mode with
    | Some 0%nat => fail
    | Some 1%nat => s ← slice buf consumed (consumed + 8); mret (take 8 ip ++ s, consumed + 8)
    | Some 2%nat => s ← slice buf consumed (consumed + 2); mret (take 8 ip ++ take 6 MAC_BASE ++ s, consumed + 2)
    | Some 3%nat => mret (take 8 ip ++ compute_iid mac_addr, consumed)
    | _ => Panic
    end;
  ip ← lift (set_prefix ip (prefix ctx) (prefix_len ctx));
  mret (ip, consumed).

Definition decompress_src (h : IP6Header) (iphc_header : Z) (mac_addr : MacAddress) (ctx : Context)
    (buf : list Z) (consumed : Z) : Res (IP6Header * Z) :=
  let uses_context := negb (Z.land iphc_header SAC =? 0) in
  let sam_mode := Z.land iphc_header SAM_MASK in
  if uses_context && (sam_mode =? SAM_INLINE) then mret (h, consumed)
  else if uses_context then
    '(ip, consumed) ← decompress_iid_context sam_mode (src_addr h) mac_addr ctx buf consumed;
    mret (set_src_addr h ip, consumed)
  else
    '(ip, consumed) ← decompress_iid_link_local sam_mode (src_addr h) mac_addr buf consumed;
    mret (set_src_addr h ip, consumed).

Definition decompress_dst (h : IP6Header) (iphc_header : Z) (mac_addr : MacAddress) (ctx : Context)
    (buf : list Z) (consumed : Z) : Res (IP6Header * Z) :=
  let uses_context := negb (Z.land iphc_header DAC =? 0) in
  let dam_mode := Z.land iphc_header DAM_MASK in
  if uses_context && (dam_mode =? DAM_INLINE) then fail
  else if uses_context then
    '(ip, consumed) ← decompress_iid_context dam_mode (dst_addr h) mac_addr ctx buf consumed;
    mret (set_dst_addr h ip, consumed)
  else
    '(ip, consumed) ← decompress_iid_link_local dam_mode (dst_addr h) mac_addr buf consumed;
    mret (set_dst_addr h ip, consumed).

(** [(ctx.prefix_len + 7) / 8] on [u8]. *)
Definition ctx_prefix_bytes (ctx : Context) : outcome Z :=
  if prefix_len ctx + 7 <? 256 then Ret ((prefix_len ctx + 7) / 8) else Panic.

Definition decompress_multicast (h : IP6Header) (iphc_header : Z) (ctx : Context) (buf : list Z) (consumed : Z)
    : Res (IP6Header * Z) :=
  let uses_context := negb (Z.land iphc_header DAC =? 0) in
  let dam_mode := Z.land iphc_header DAM_MASK in
  let ip := dst_addr h in
  if uses_context then
    if dam_mode =? DAM_INLINE then
      prefix_bytes ← lift (ctx_prefix_bytes ctx);
      if 8 <? prefix_bytes then fail
      else
        b1 ← get8 buf consumed;
        b2 ← get8 buf (consumed + 1);
        s ← slice buf (consumed + 2) (consumed + 6);
        let n := Z.to_nat prefix_bytes in
        mret (set_dst_addr h ([0xff; b1; b2; prefix_len ctx] ++ take n (prefix ctx) ++ sub8 ip (4 + n) 12 ++ s), consumed + 6)
    else fail
  else
    match dam_mode with
    | 0 => s ← slice buf consumed (consumed + 16); mret (set_dst_addr h s, consumed + 16)
    | 1 =>
        b1 ← get8 buf consumed;
        s ← slice buf (consumed + 1) (consumed + 6);
        mret (set_dst_addr h ([0xff; b1] ++ sub8 ip 2 11 ++ s), consumed + 6)
    | 2 =>
        b1 ← get8 buf consumed;
        s ← slice buf (consumed + 1) (consumed + 4);
        mret (set_dst_addr h ([0xff; b1] ++ sub8 ip 2 13 ++ s), consumed + 4)
    | 3 =>
        b ← get8 buf consumed;
        mret (set_dst_addr h ([0xff; 0x02] ++ sub8 ip 2 15 ++ [b]), consumed + 1)
    | _ => Panic
    end.

(** [network_slice_to_u16(&buf[lo..lo + 2])]. *)
Definition read16 (buf : list Z) (lo : Z) : Res Z :=
  s ← slice buf lo (lo + 2); lift (network_slice_to_u16 s).

Definition decompress_udp_ports (udp_nhc : Z) (buf : list Z) (consumed : Z) : Res (Z * Z * Z) :=
  let src_compressed := negb (Z.land udp_nhc UDP_SRC_PORT_FLAG =? 0) in
  let dst_compressed := negb (Z.land udp_nhc UDP_DST_PORT_FLAG =? 0) in
  if src_compressed && dst_compressed then
    b ← get8 buf consumed;
    mret (Z.lor UDP_4BIT_PORT (Z.land (Z.shiftr b 4) 0xf), Z.lor UDP_4BIT_PORT (Z.land b 0xf), consumed + 1)
  else if src_compressed then
    b ← get8 buf consumed;
    d ← read16 buf (consumed + 1);
    mret (Z.lor UDP_8BIT_PORT b, to_be16 d, consumed + 3)
  else if dst_compressed then
    x ← read16 buf consumed;
    b ← get8 buf (consumed + 2);
    mret (to_be16 x, Z.lor UDP_8BIT_PORT b, consumed + 3)
  else
    x ← read16 buf consumed;
    y ← read16 buf (consumed + 2);
    mret (to_be16 x, to_be16 y, consumed + 4).

Definition decompress_udp_checksum (udp_nhc : Z) (udp_header : list Z) (udp_length : Z) (h : IP6Header)
    (buf : list Z) (consumed : Z) (is_fragment : bool) : Res (Z * Z) :=
  if negb (Z.land udp_nhc UDP_CHECKSUM_FLAG =? 0) && negb is_fragment then
    d ← lift (sresult_done (UDPHeader_decode udp_header));
    match d with
    | Some (_, hdr) =>
        match get_from buf consumed with
        | None => Panic
        | Some rest => c ← lift (compute_udp_checksum h hdr udp_length rest); mret (to_be16 c, consumed)
        end
    | None => mret (0, consumed)
    end
  else
    x ← read16 buf consumed;
    mret (to_be16 x, consumed + 2).

(** Plain arithmetic of the build on [u16], [u8] and [usize]. *)
Definition u16_sub {Pr : Profile} : Z → Z → outcome Z := narrow_sub 65536 overflow_checks.
Definition u16_sum {Pr : Profile} : Z → Z → outcome Z := narrow_add 65536 overflow_checks.
Definition u8_sub {Pr : Profile} : Z → Z → outcome Z := narrow_sub 256 overflow_checks.
Definition us_add {Pr : Profile} : Z → Z → outcome Z := plain_add overflow_checks.
Definition us_sub {Pr : Profile} : Z → Z → outcome Z := plain_sub overflow_checks.
Definition us_mul {Pr : Profile} : Z → Z → outcome Z := plain_mul overflow_checks.

(** The UDP branch of the loop over next headers. *)
Definition decompress_udp {Pr : Profile} (h : IP6Header) (nhc_header : Z) (buf out_buf : list Z) (consumed written dgram_size : Z)
    (is_fragment : bool) : Res (Z * Z * list Z) :=
  udp_length ← lift (if is_fragment then u16_sub dgram_size (as_u16 written)
                     else u16_sub (as_u16 (zlen buf)) (as_u16 consumed));
  '(src, dst, consumed') ← decompress_udp_ports nhc_header buf consumed;
  udp_length ← (if is_fragment then mret udp_length
                else
                  g ← lift (u16_sub UDP_PORTS_SIZE (as_u16 (consumed' - consumed)));
                  l ← lift (u16_sum udp_length g);
                  l ← lift (u16_sum l 2);
                  if Z.land nhc_header UDP_CHECKSUM_FLAG =? 0 then mret l else lift (u16_sum l 2));
  out_buf ← lift (splice out_buf written (network_bytes (to_be16 src)));
  out_buf ← lift (splice out_buf (written + 2) (network_bytes (to_be16 dst)));
  out_buf ← lift (splice out_buf (written + 4) (network_bytes udp_length));
  header ← slice out_buf written (written + 8);
  '(cksum, consumed') ← decompress_udp_checksum nhc_header header udp_length h buf consumed' is_fragment;
  out_buf ← lift (splice out_buf (written + 6) (network_bytes (to_be16 cksum)));
  mret (consumed', written + 8, out_buf).

(** The branch for extension headers: the new values of [is_nhc], [next_header],
    [consumed], [written] and [out_buf]. *)
Definition decompress_ext {Pr : Profile} (nhc_header : Z) (buf out_buf : list Z) (consumed written : Z)
    : Res (bool * Z * Z * Z * list Z) :=
  let is_nhc := negb (Z.land nhc_header NHC_NH =? 0) in
  len ← get8 buf consumed;
  let consumed := consumed + 1 in
  if zlen buf <=? consumed + len then fail
  else
    m ← lift (us_sub len 6);
    let hdr_len_field := m / 8 + (if m mod 8 =? 0 then 0 else 1) in
    b ← get8 buf (consumed + len);
    next_header ← (if is_nhc then ok_or (nhc_to_ip6_nh b) else mret b);
    opts ← slice buf consumed (consumed + len);
    out_buf ← lift (splice out_buf written ([next_header; as_u8 hdr_len_field] ++ opts));
    hdr_len ← lift (us_mul hdr_len_field 8);
    pad_bytes ← lift (x ← us_sub hdr_len len; us_add x 6);
    out_buf ← (if pad_bytes =? 1 then lift (splice out_buf (written + 2 + len) [0])
               else
                 out_buf ← lift (splice out_buf (written + 2 + len) [1]);
                 p ← lift (u8_sub (as_u8 pad_bytes) 2);
                 lift (splice out_buf (written + 2 + len + 1) (p :: replicate (Z.to_nat (pad_bytes - 2)) 0)));
    mret (is_nhc, next_header, consumed + len, written + 8 + hdr_len, out_buf).

(** [IP6Header::encode(..).done().ok_or(())?]. *)
Definition encode_header (h : IP6Header) (out_buf : list Z) : Res (list Z) :=
  match IP6Header_encode h out_buf with
  | Panic => Panic
  | Ret (Done _, out_buf) => Ret (Some out_buf)
  | Ret (_, _) => Ret None
  end.

Definition is_ext_header (nh : Z) : bool :=
  (nh =? NH_FRAGMENT) || (nh =? NH_HOP_OPTS) || (nh =? NH_ROUTING) || (nh =? NH_DST_OPTS) || (nh =? NH_MOBILITY).

(** [decompress] and its loop over next headers, mutually recursive through an
    encapsulated IPv6 header.  A result [None] is that the fuel has run out.  Both
    consume a byte of [buf] before they go on, so that the fuel of [decompress]
    below suffices ([decompress_terminates]). *)
Fixpoint decompress_from {Pr : Profile} {T} `{ContextStore T} (fuel : nat) (s : T) (buf : list Z) (src_mac dst_mac : MacAddress)
    (out_buf : list Z) (dgram_size : Z) (is_fragment : bool) {struct fuel} : Res (option (Z * Z * list Z)) :=
  match fuel with
  | O => mret None
  | S fuel =>
      iphc_header_1 ← get8 buf 0;
      iphc_header_2 ← get8 buf 1;
      '(src_ctx, dst_ctx, consumed) ← decompress_cie s iphc_header_1 buf 2;
      '(h, consumed) ← decompress_tf IP6Header_new iphc_header_1 buf consumed;
      '(is_nhc, nh, consumed) ← decompress_nh iphc_header_1 buf consumed;
      '(h, consumed) ← decompress_hl h iphc_header_1 buf consumed;
      '(h, consumed) ← decompress_src h iphc_header_2 src_mac src_ctx buf consumed;
      '(h, consumed) ← (if negb (Z.land iphc_header_2 MULTICAST =? 0)
                        then decompress_multicast h iphc_header_2 dst_ctx buf consumed
                        else decompress_dst h iphc_header_2 dst_mac dst_ctx buf consumed);
      nh ← (if (is_nhc : bool) then b ← get8 buf consumed; ok_or (nhc_to_ip6_nh b) else mret nh);
      let h := set_next_header h nh in
      r ← (if (is_nhc : bool) then next_headers_from fuel s h nh buf src_mac dst_mac out_buf consumed 40 dgram_size is_fragment
           else mret (Some (consumed, 40, out_buf)));
      match r with
      | None => mret None
      | Some (consumed, written, out_buf) =>
          payload_len ← lift (if is_fragment then us_sub dgram_size 40
                              else rest ← us_sub (zlen buf) consumed; n ← us_add written rest; us_sub n 40);
          let h := set_payload_len h (as_u16 payload_len) in
          out_buf ← encode_header h out_buf;
          mret (Some (consumed, written, out_buf))
      end
  end
with next_headers_from {Pr : Profile} {T} `{ContextStore T} (fuel : nat) (s : T) (h : IP6Header) (nh : Z) (buf : list Z)
    (src_mac dst_mac : MacAddress) (out_buf : list Z) (consumed written dgram_size : Z) (is_fragment : bool) {struct fuel}
    : Res (option (Z * Z * list Z)) :=
  match fuel with
  | O => mret None
  | S fuel =>
      nhc_header ← get8 buf consumed;
      let consumed := consumed + 1 in
      match get_from out_buf written with
      | None => Panic
      | Some next_headers =>
          if nh =? NH_IP6 then
            match get_from buf consumed with
            | None => Panic
            | Some sub =>
                r ← decompress_from fuel s sub src_mac dst_mac next_headers dgram_size is_fragment;
                match r with
                | None => mret None
                | Some (c, w, next_headers) =>
                    mret (Some (consumed + c, written + w, take (Z.to_nat written) out_buf ++ next_headers))
                end
            end
          else if nh =? NH_UDP then
            r ← decompress_udp h nhc_header buf out_buf consumed written dgram_size is_fragment; mret (Some r)
          else if is_ext_header nh then
            '(is_nhc, nh, consumed, written, out_buf) ← decompress_ext nhc_header buf out_buf consumed written;
            (if (is_nhc : bool)
             then next_headers_from fuel s h nh buf src_mac dst_mac out_buf consumed written dgram_size is_fragment
             else mret (Some (consumed, written, out_buf)))
          else Panic
      end
  end.

Definition decompress {Pr : Profile} {T} `{ContextStore T} (s : T) (buf : list Z) (src_mac dst_mac : MacAddress)
    (out_buf : list Z) (dgram_size : Z) (is_fragment : bool) : Res (Z * Z * list Z) :=
  r ← decompress_from (2 * length buf + 2) s buf src_mac dst_mac out_buf dgram_size is_fragment;
  match r with Some r => mret r | None => Panic end.
