(* ===== verification/SixlowpanTheorems.v ===== *)
(** * 6LoWPAN: decompression inverts compression

    The compressed form of a header as a reference ([iphc_*] below: the bits of
    the two IPHC bytes and the bytes inline), the compressor writes it, the
    decompressor reads the header back from it; the decompressor ends on every
    frame; and frames on which the two disagree. *)

From S2P Require Import Prelude Bytes Syscall NetStream Ieee802154 Ieee802154Theorems Ipv6 Ipv6Theorems Sixlowpan.

(** ** The compressor *)

(** [f] adds the bits [x0] and [x1] to the IPHC bytes and appends [bs]. *)
Definition Compresses (f : Out → outcome Out) (x0 x1 : Z) (bs : list Z) : Prop :=
  ∀ b0 b1 pre rest, (length bs ≤ length rest)%nat →
    f (b0 :: b1 :: pre ++ rest, 2 + zlen pre) =
      Ret (Z.lor b0 x0 :: Z.lor b1 x1 :: (pre ++ bs) ++ drop (length bs) rest, 2 + zlen (pre ++ bs)).

Lemma compresses_ret : Compresses Ret 0 0 [].
Proof. intros b0 b1 pre rest _. by rewrite !Z.lor_0_r, app_nil_r. Qed.

Lemma compresses_seq f g x0 x1 bs y0 y1 cs :
  Compresses f x0 x1 bs → Compresses g y0 y1 cs →
  Compresses (λ o, o ← f o; g o) (Z.lor x0 y0) (Z.lor x1 y1) (bs ++ cs).
Proof.
  intros Hf Hg b0 b1 pre rest Hr. rewrite length_app in Hr. rewrite Hf by lia. cbn [mbind outcome_bind].
  rewrite Hg by (rewrite length_drop; lia). by rewrite drop_drop, length_app, <- !app_assoc, !Z.lor_assoc.
Qed.

Lemma compresses_eq f x0 x1 bs g y0 y1 cs :
  Compresses f x0 x1 bs → (∀ o, g o = f o) → x0 = y0 → x1 = y1 → bs = cs → Compresses g y0 y1 cs.
Proof. intros Hf Hg -> -> -> b0 b1 pre rest Hr. rewrite Hg. by apply Hf. Qed.

Lemma or_byte_0 v : Compresses (or_byte 0 v) v 0 [].
Proof. intros b0 b1 pre rest _. by rewrite Z.lor_0_r, app_nil_r. Qed.

Lemma or_byte_1 v : Compresses (or_byte 1 v) 0 v [].
Proof.
  intros b0 b1 pre rest _. rewrite Z.lor_0_r, app_nil_r. unfold or_byte. cbn [fst snd].
  unfold index_set. cbn [length]. rewrite (proj2 (Z.ltb_lt _ _)) by lia. done.
Qed.

Lemma cons_cons_zlen (b0 b1 : Z) pre rest : b0 :: b1 :: pre ++ rest = (b0 :: b1 :: pre) ++ rest ∧ zlen (b0 :: b1 :: pre) = 2 + zlen pre.
Proof. split; [done|]. unfold zlen. cbn [length]. lia. Qed.

Lemma index_set_app {A} (pre : list A) x rest b i : i = zlen pre → index_set (pre ++ x :: rest) i b = Ret (pre ++ b :: rest).
Proof.
  intros ->. rewrite index_set_Ret by (unfold zlen; rewrite length_app; cbn; lia).
  unfold zlen. by rewrite Nat2Z.id, insert_app_r_alt, Nat.sub_diag by lia.
Qed.

Lemma index_get_app {A} (pre : list A) x rest i : i = zlen pre → index_get (pre ++ x :: rest) i = Ret x.
Proof.
  intros ->. unfold index_get, zlen. rewrite (proj2 (Z.ltb_ge _ _)), Nat2Z.id by lia.
  by rewrite lookup_app_r, Nat.sub_diag by lia.
Qed.

Lemma splice_app pre old rest bs at_ : at_ = zlen pre → length old = length bs → splice (pre ++ old ++ rest) at_ bs = Ret (pre ++ bs ++ rest).
Proof.
  intros -> Hl. unfold splice. rewrite (proj2 (Z.leb_le 0 _)) by apply zlen_nonneg. rewrite (proj2 (Z.leb_le _ _)).
  2:{ unfold zlen. rewrite !length_app. lia. }
  cbn [andb]. rewrite take_zlen_app. do 3 f_equal. unfold zlen. rewrite Nat2Z.id, <- Hl.
  by rewrite <- drop_drop, drop_app_length, drop_app_length.
Qed.

Lemma put_bytes_compresses bs : Compresses (put_bytes bs) 0 0 bs.
Proof.
  intros b0 b1 pre rest Hr. rewrite !Z.lor_0_r. unfold put_bytes. cbn [fst snd].
  destruct (cons_cons_zlen b0 b1 pre rest) as [-> Hz].
  rewrite <- (take_drop (length bs) rest) at 1. rewrite splice_app by (done || (rewrite length_take; lia)).
  cbn [mbind outcome_bind]. rewrite zlen_app. f_equal. f_equal; [|lia]. by rewrite <- app_assoc.
Qed.

Lemma put_byte_compresses b : Compresses (put_byte b) 0 0 [b].
Proof.
  intros b0 b1 pre rest Hr. rewrite !Z.lor_0_r. unfold put_byte. cbn [fst snd].
  destruct rest as [|x rest]; [cbn in Hr; lia|]. destruct (cons_cons_zlen b0 b1 pre (x :: rest)) as [-> Hz].
  rewrite index_set_app by done. cbn [mbind outcome_bind]. rewrite zlen_app. change (zlen [b]) with 1. f_equal. f_equal; [|lia].
  cbn. by rewrite <- app_assoc.
Qed.

(** *** Traffic class and flow label *)

Definition tc_elided (h : IP6Header) : bool := (get_dscp h =? 0) && ((get_ecn h =? 0) || negb (get_flow_label h =? 0)).
Definition flow_elided (h : IP6Header) : bool := get_flow_label h =? 0.
Definition ecn_bits (h : IP6Header) : Z := as_u8 (Z.shiftl (get_ecn h) 6).
Definition flow_bytes (h : IP6Header) : list Z :=
  let flow := get_flow_label h in
  [as_u8 (Z.land (Z.shiftr flow 16) 0x0f); as_u8 (Z.shiftr flow 8); as_u8 flow].
Definition tf_bits (h : IP6Header) : Z :=
  Z.lor (if tc_elided h then TF_TRAFFIC_CLASS else 0) (if flow_elided h then TF_FLOW_LABEL else 0).
Definition tf_bytes (h : IP6Header) : list Z :=
  match (if tc_elided h then [] else [get_dscp h]) ++ (if flow_elided h then [] else flow_bytes h) with
  | [] => []
  | b :: bs => Z.lor b (ecn_bits h) :: bs
  end.

Lemma or_byte_at b0 b1 pre b rest v w i :
  i = 2 + zlen pre →
  or_byte i v (b0 :: b1 :: pre ++ b :: rest, w) = Ret (b0 :: b1 :: pre ++ Z.lor b v :: rest, w).
Proof.
  intros ->. unfold or_byte. cbn [fst snd]. destruct (cons_cons_zlen b0 b1 pre (b :: rest)) as [-> <-].
  rewrite index_get_app by done. cbn [mbind outcome_bind]. by rewrite index_set_app.
Qed.

(** Steps that put bytes, one after the other. *)
Ltac put_steps :=
  repeat (rewrite put_byte_compresses by (rewrite ?length_drop; cbn [length] in *; lia);
          cbn [mbind outcome_bind]; rewrite ?Z.lor_0_r).

Lemma compress_tf_compresses h : Compresses (compress_tf h) (tf_bits h) 0 (tf_bytes h).
Proof.
  intros b0 b1 pre rest Hr. unfold compress_tf, tf_bits, tf_bytes in *. cbn [fst snd]. cbv zeta.
  fold (tc_elided h) (flow_elided h) (ecn_bits h).
  assert (Hz : ∀ bs : list Z, (2 + zlen (pre ++ bs) =? 2 + zlen pre) = (zlen bs =? 0)).
  { intros bs. rewrite zlen_app. destruct (Z.eqb_spec (zlen bs) 0), (Z.eqb_spec (2 + (zlen pre + zlen bs)) (2 + zlen pre)); done || lia. }
  destruct (tc_elided h), (flow_elided h); cbn [app] in *; unfold flow_bytes in *; cbn [length] in Hr;
    cbn [mbind outcome_bind]; put_steps; cbn [mbind outcome_bind snd fst];
    rewrite <- ?app_assoc; cbn [app]; rewrite <- ?app_assoc, ?Hz; cbn [app].
  { by rewrite Z.eqb_refl, Z.lor_0_r, app_nil_r. }
  all: match goal with |- context [zlen ?l =? 0] => change (zlen l =? 0) with false end; cbv iota.
  all: rewrite or_byte_at by done; cbn [mbind outcome_bind]; rewrite ?drop_drop, ?zlen_app; reflexivity || idtac.
  rewrite <- (Z.lor_0_r b0) at 2. reflexivity.
Qed.

(** *** Next header and hop limit *)

Definition nh_bits (h : IP6Header) : Z := if next_header h =? NH_UDP then IPHC_NH else 0.
Definition nh_bytes (h : IP6Header) : list Z := if next_header h =? NH_UDP then [] else [next_header h].
Definition hl_bits (h : IP6Header) : Z :=
  match hop_limit h with 1 => HLIM_1 | 64 => HLIM_64 | 255 => HLIM_255 | _ => HLIM_INLINE end.
Definition hl_bytes (h : IP6Header) : list Z :=
  match hop_limit h with 1 | 64 | 255 => [] | hl => [hl] end.

Lemma compress_nh_compresses h : Compresses (compress_nh h (next_header h =? NH_UDP)) (nh_bits h) 0 (nh_bytes h).
Proof.
  unfold compress_nh, nh_bits, nh_bytes. destruct (_ =? NH_UDP); [apply or_byte_0|apply put_byte_compresses].
Qed.

Lemma compress_hl_compresses h : Compresses (compress_hl h) (hl_bits h) 0 (hl_bytes h).
Proof.
  assert (Hin : Compresses (λ o, '(flag, o) ← (o ← put_byte (hop_limit h) o; Ret (HLIM_INLINE, o)); or_byte 0 flag o)
                  HLIM_INLINE 0 [hop_limit h]).
  { eapply compresses_eq; [apply (compresses_seq (put_byte (hop_limit h)) (or_byte 0 HLIM_INLINE));
      [apply put_byte_compresses|apply or_byte_0]|..|done|done|done].
    intros o. unfold mbind, outcome_bind. by destruct (put_byte (hop_limit h) o). }
  unfold compress_hl, hl_bits, hl_bytes.
  destruct (Z.eq_dec (hop_limit h) 1) as [E|]; [rewrite E; apply or_byte_0|].
  destruct (Z.eq_dec (hop_limit h) 64) as [E|]; [rewrite E; apply or_byte_0|].
  destruct (Z.eq_dec (hop_limit h) 255) as [E|]; [rewrite E; apply or_byte_0|].
  remember (hop_limit h) as hl. repeat (case_match; try lia; try done).
Qed.

(** *** Addresses *)

(** The mode of an interface identifier, and what goes inline. *)
Definition iid_choice (ip : list Z) (mac : MacAddress) : Z * list Z :=
  if bool_decide (sub8 ip 8 16 = compute_iid mac) then (3, [])
  else if bool_decide (sub8 ip 8 14 = take 6 MAC_BASE) then (2, sub8 ip 14 16)
  else (1, sub8 ip 8 16).

Definition src_choice (ip : list Z) (mac : MacAddress) (ctx : option Context) : Z * list Z :=
  if is_unspecified ip then (SAC, [])
  else if is_unicast_link_local ip then (16 * (iid_choice ip mac).1, (iid_choice ip mac).2)
  else if ctx then (Z.lor SAC (16 * (iid_choice ip mac).1), (iid_choice ip mac).2)
  else (0, ip).
Definition dst_choice (ip : list Z) (mac : MacAddress) (ctx : option Context) : Z * list Z :=
  if is_unicast_link_local ip then iid_choice ip mac
  else if ctx then (Z.lor DAC (iid_choice ip mac).1, (iid_choice ip mac).2)
  else (0, ip).
Definition multicast_choice (ip : list Z) (ctx : option Context) : Z * list Z :=
  if ctx then (Z.lor MULTICAST DAC, sub8 ip 1 3 ++ sub8 ip 12 16)
  else if (at8 ip 1 =? 0x02) && all_zero (sub8 ip 2 15) then (Z.lor MULTICAST DAM_MODE3, [at8 ip 15])
  else if negb (all_zero (sub8 ip 2 11)) then (Z.lor MULTICAST DAM_INLINE, ip)
  else if negb (all_zero (sub8 ip 11 13)) then (Z.lor MULTICAST DAM_MODE1, at8 ip 1 :: sub8 ip 11 16)
  else (Z.lor MULTICAST DAM_MODE2, at8 ip 1 :: sub8 ip 13 16).

Lemma or_put_bytes v bs : Compresses (λ o, o ← or_byte 1 v o; put_bytes bs o) 0 v bs.
Proof.
  eapply compresses_eq; [apply compresses_seq; [apply or_byte_1|apply put_bytes_compresses]|done|done|apply Z.lor_0_r|done].
Qed.

Lemma compress_iid_compresses ip mac (is_src : bool) :
  Compresses (compress_iid ip mac is_src) 0 ((if is_src then 16 else 1) * (iid_choice ip mac).1) (iid_choice ip mac).2.
Proof.
  unfold compress_iid, iid_choice. cbv zeta. destruct (bool_decide (_ = compute_iid mac)).
  - eapply compresses_eq; [apply or_byte_1|done|done|by destruct is_src|done].
  - destruct (bool_decide _); (eapply compresses_eq; [apply or_put_bytes|done|done|by destruct is_src|done]).
Qed.

Lemma or_compress_iid ip mac (is_src : bool) v :
  Compresses (λ o, o ← or_byte 1 v o; compress_iid ip mac is_src o) 0
    (Z.lor v ((if is_src then 16 else 1) * (iid_choice ip mac).1)) (iid_choice ip mac).2.
Proof.
  eapply compresses_eq; [apply compresses_seq; [apply or_byte_1|apply compress_iid_compresses]|done..].
Qed.

Lemma compress_src_compresses ip mac ctx :
  Compresses (compress_src ip mac ctx) 0 (src_choice ip mac ctx).1 (src_choice ip mac ctx).2.
Proof.
  unfold compress_src, src_choice. destruct (is_unspecified ip); [apply or_byte_1|].
  destruct (is_unicast_link_local ip); [apply compress_iid_compresses|].
  destruct ctx; [apply or_compress_iid|apply put_bytes_compresses].
Qed.

Lemma compress_dst_compresses ip mac ctx :
  Compresses (compress_dst ip mac ctx) 0 (dst_choice ip mac ctx).1 (dst_choice ip mac ctx).2.
Proof.
  unfold compress_dst, dst_choice. destruct (is_unicast_link_local ip).
  - eapply compresses_eq; [apply compress_iid_compresses|done|done|apply Z.mul_1_l|done].
  - destruct ctx; [|apply put_bytes_compresses].
    eapply compresses_eq; [apply (or_compress_iid ip mac false DAC)|done|done|by rewrite Z.mul_1_l|done].
Qed.

Lemma compress_multicast_compresses ip ctx :
  Compresses (compress_multicast ip ctx) 0 (multicast_choice ip ctx).1 (multicast_choice ip ctx).2.
Proof.
  unfold compress_multicast, multicast_choice.
  assert (Hone : ∀ v b, Compresses (λ o, o ← or_byte 1 v o; put_byte b o) 0 v [b]).
  { intros v b. eapply compresses_eq; [apply compresses_seq; [apply or_byte_1|apply put_byte_compresses]|done|done|apply Z.lor_0_r|done]. }
  assert (Htwo : ∀ v b bs, Compresses (λ o, o ← or_byte 1 v o; o ← put_byte b o; put_bytes bs o) 0 v (b :: bs)).
  { intros v b bs. eapply compresses_eq;
      [apply compresses_seq; [apply or_byte_1|apply (compresses_seq (put_byte b) (put_bytes bs)); [apply put_byte_compresses|apply put_bytes_compresses]]|done|done|apply Z.lor_0_r|done]. }
  assert (Hseq : ∀ f x1 bs, Compresses f 0 x1 bs → Compresses (λ o, o ← or_byte 1 MULTICAST o; f o) 0 (Z.lor MULTICAST x1) bs).
  { intros f x1 bs Hf. eapply compresses_eq; [apply compresses_seq; [apply or_byte_1|apply Hf]|done..]. }
  destruct ctx.
  - apply (Hseq (λ o, o ← or_byte 1 DAC o; o ← put_bytes (sub8 ip 1 3) o; put_bytes (sub8 ip 12 16) o)).
    eapply compresses_eq;
      [apply compresses_seq; [apply or_byte_1|apply (compresses_seq (put_bytes (sub8 ip 1 3)) (put_bytes (sub8 ip 12 16))); apply put_bytes_compresses]|done|done|done|done].
  - destruct (_ && _); [apply (Hseq _ _ _ (Hone DAM_MODE3 _))|].
    destruct (negb _); [apply (Hseq _ _ _ (or_put_bytes DAM_INLINE _))|].
    destruct (negb _); [apply (Hseq _ _ _ (Htwo DAM_MODE1 _ _))|apply (Hseq _ _ _ (Htwo DAM_MODE2 _ _))].
Qed.

(** *** Ports and checksum *)

(** The ports as the compressor compares them, bytes swapped. *)
Definition swapped_src (u : UDPHeader) : Z := to_be16 (get_src_port u).
Definition swapped_dst (u : UDPHeader) : Z := to_be16 (get_dst_port u).
Definition both4 (u : UDPHeader) : bool :=
  (Z.land (swapped_src u) UDP_4BIT_PORT_MASK =? UDP_4BIT_PORT) && (Z.land (swapped_dst u) UDP_4BIT_PORT_MASK =? UDP_4BIT_PORT).
Definition src8 (u : UDPHeader) : bool := Z.land (swapped_src u) UDP_8BIT_PORT_MASK =? UDP_8BIT_PORT.
Definition dst8 (u : UDPHeader) : bool := Z.land (swapped_dst u) UDP_8BIT_PORT_MASK =? UDP_8BIT_PORT.

(** The case that the compressor does not handle: only the destination is
    compressed to eight bits. *)
Definition ports_ok (u : UDPHeader) : Prop := dst8 u = true → src8 u = true.

Definition ports_choice (u : UDPHeader) : Z * list Z :=
  if both4 u then
    (Z.lor UDP_SRC_PORT_FLAG UDP_DST_PORT_FLAG,
     [as_u8 (Z.lor (Z.shiftl (Z.land (swapped_src u) 0x000f) 4) (Z.land (swapped_dst u) 0x000f))])
  else if src8 u then (UDP_SRC_PORT_FLAG, as_u8 (Z.land (swapped_src u) 0x00ff) :: network_bytes (to_be16 (swapped_dst u)))
  else (0, [as_u8 (swapped_src u); as_u8 (Z.shiftr (swapped_src u) 8);
            as_u8 (swapped_dst u); as_u8 (Z.shiftr (swapped_dst u) 8)]).
Definition cksum_bytes (u : UDPHeader) : list Z :=
  let c := to_be16 (udp_get_cksum u) in [as_u8 c; as_u8 (Z.shiftr c 8)].
Definition nhc_byte (u : UDPHeader) : Z := Z.lor (Z.lor NHC_DISPATCH_UDP (ports_choice u).1) 0.
Definition udp_inline (u : UDPHeader) : list Z := nhc_byte u :: (ports_choice u).2 ++ cksum_bytes u.

Lemma index_set_at (b0 b1 : Z) pre (x : Z) rest b i :
  i = 2 + zlen pre → index_set (b0 :: b1 :: pre ++ x :: rest) i b = Ret (b0 :: b1 :: pre ++ b :: rest).
Proof.
  intros ->. destruct (cons_cons_zlen b0 b1 pre (x :: rest)) as [-> Hz]. rewrite <- Hz. by rewrite index_set_app.
Qed.

Lemma splice_at b0 b1 pre old rest bs i :
  i = 2 + zlen pre → length old = length bs → splice (b0 :: b1 :: pre ++ old ++ rest) i bs = Ret (b0 :: b1 :: pre ++ bs ++ rest).
Proof.
  intros -> Hl. destruct (cons_cons_zlen b0 b1 pre (old ++ rest)) as [-> Hz]. rewrite <- Hz. by rewrite splice_app.
Qed.

Lemma zlen_snoc {A} (l : list A) x : zlen (l ++ [x]) = zlen l + 1.
Proof. by rewrite zlen_app. Qed.

Lemma compress_udp_ports_compresses u b0 b1 pre rest :
  ports_ok u → (4 ≤ length rest)%nat →
  compress_udp_ports u (b0 :: b1 :: pre ++ rest, 2 + zlen pre) =
    Ret ((ports_choice u).1, (b0 :: b1 :: (pre ++ (ports_choice u).2) ++ drop (length (ports_choice u).2) rest,
                              2 + zlen (pre ++ (ports_choice u).2))).
Proof.
  intros Hp Hr. destruct rest as [|x0 [|x1 [|x2 [|x3 rest]]]]; cbn in Hr; try lia.
  unfold compress_udp_ports, ports_choice. fold (swapped_src u) (swapped_dst u). cbv zeta.
  fold (both4 u) (src8 u) (dst8 u). destruct (both4 u).
  { rewrite index_set_at by done. cbn [mbind outcome_bind fst snd length drop]. rewrite <- app_assoc, zlen_snoc. do 3 f_equal. lia. }
  destruct (src8 u) eqn:E8.
  { rewrite index_set_at by done. cbn [mbind outcome_bind].
    assert (E : ∀ b, pre ++ b :: x1 :: x2 :: x3 :: rest = (pre ++ [b]) ++ [x1; x2] ++ x3 :: rest)
      by (intros; by rewrite <- app_assoc).
    rewrite E, splice_at by (done || (rewrite zlen_snoc; lia)).
    cbn [mbind outcome_bind fst snd length network_bytes drop app]. rewrite !zlen_app, <- !app_assoc. do 3 f_equal. unfold zlen. cbn. lia. }
  replace (dst8 u) with false by (destruct (dst8 u) eqn:E; [by rewrite (Hp E) in E8|done]). cbn [fst snd].
  assert (E : ∀ l (b x : Z) r, l ++ b :: x :: r = (l ++ [b]) ++ x :: r) by (intros; by rewrite <- app_assoc).
  rewrite index_set_at by done. cbn [mbind outcome_bind]. rewrite E.
  rewrite index_set_at by (rewrite zlen_snoc; lia). cbn [mbind outcome_bind]. rewrite E.
  rewrite index_set_at by (rewrite !zlen_snoc; lia). cbn [mbind outcome_bind]. rewrite E.
  rewrite index_set_at by (rewrite !zlen_snoc; lia). cbn [mbind outcome_bind length drop].
  rewrite !zlen_app, <- !app_assoc. cbn [app]. do 3 f_equal. unfold zlen. cbn. lia.
Qed.

Lemma compress_udp_checksum_compresses u b0 b1 pre rest :
  (2 ≤ length rest)%nat →
  compress_udp_checksum u (b0 :: b1 :: pre ++ rest, 2 + zlen pre) =
    Ret (0, (b0 :: b1 :: (pre ++ cksum_bytes u) ++ drop 2 rest, 2 + zlen (pre ++ cksum_bytes u))).
Proof.
  intros Hr. unfold compress_udp_checksum, cksum_bytes. cbv zeta. put_steps. rewrite drop_drop, <- !app_assoc. done.
Qed.

(** *** The whole header *)

Section Compress.
Context {T} `{ContextStore T} (s : T).

Definition header_inline (h : IP6Header) (src_mac dst_mac : MacAddress) : list Z :=
  tf_bytes h ++ nh_bytes h ++ hl_bytes h ++ (src_choice (src_addr h) src_mac (src_context s h)).2 ++
  (if is_multicast (dst_addr h) then (multicast_choice (dst_addr h) (dst_context s h)).2
   else (dst_choice (dst_addr h) dst_mac (dst_context s h)).2).
Definition iphc0 (h : IP6Header) : Z := Z.lor 0x60 (Z.lor (tf_bits h) (Z.lor (nh_bits h) (hl_bits h))).
Definition dst_bits (h : IP6Header) (dst_mac : MacAddress) : Z :=
  if is_multicast (dst_addr h) then (multicast_choice (dst_addr h) (dst_context s h)).1
  else (dst_choice (dst_addr h) dst_mac (dst_context s h)).1.
Definition iphc1 (h : IP6Header) (src_mac dst_mac : MacAddress) : Z :=
  Z.lor (src_choice (src_addr h) src_mac (src_context s h)).1 (dst_bits h dst_mac).

(** No context identifiers other than zero. *)
Definition no_cie (h : IP6Header) : Prop := cie_of (src_context s h) = 0 ∧ cie_of (dst_context s h) = 0.

Lemma dst_compresses h dst_mac :
  Compresses (λ o, if is_multicast (dst_addr h) then compress_multicast (dst_addr h) (dst_context s h) o
                   else compress_dst (dst_addr h) dst_mac (dst_context s h) o) 0 (dst_bits h dst_mac)
    (if is_multicast (dst_addr h) then (multicast_choice (dst_addr h) (dst_context s h)).2
     else (dst_choice (dst_addr h) dst_mac (dst_context s h)).2).
Proof.
  unfold dst_bits. destruct (is_multicast (dst_addr h)); [apply compress_multicast_compresses|apply compress_dst_compresses].
Qed.

Lemma header_compresses h src_mac dst_mac : no_cie h →
  Compresses (λ o,
    o ← compress_cie (src_context s h) (dst_context s h) o;
    o ← compress_tf h o;
    o ← compress_nh h (next_header h =? NH_UDP) o;
    o ← compress_hl h o;
    o ← compress_src (src_addr h) src_mac (src_context s h) o;
    (if is_multicast (dst_addr h) then compress_multicast (dst_addr h) (dst_context s h) o
     else compress_dst (dst_addr h) dst_mac (dst_context s h) o))
   (Z.lor (tf_bits h) (Z.lor (nh_bits h) (hl_bits h))) (iphc1 h src_mac dst_mac) (header_inline h src_mac dst_mac).
Proof.
  intros [Hs Hd].
  pose proof (compresses_seq _ _ _ _ _ _ _ _ (compress_src_compresses (src_addr h) src_mac (src_context s h)) (dst_compresses h dst_mac)) as H1.
  pose proof (compresses_seq _ _ _ _ _ _ _ _ (compress_hl_compresses h) H1) as H2.
  pose proof (compresses_seq _ _ _ _ _ _ _ _ (compress_nh_compresses h) H2) as H3.
  pose proof (compresses_seq _ _ _ _ _ _ _ _ (compress_tf_compresses h) H3) as H4.
  eapply compresses_eq; [apply H4|..].
  - intros o. unfold compress_cie. rewrite Hs, Hd. reflexivity.
  - by rewrite !Z.lor_0_r.
  - by rewrite !Z.lor_0_l.
  - done.
Qed.

(** [compress] of a UDP packet. *)
Lemma compress_udp_result h u p src_mac dst_mac buf :
  no_cie h → next_header h = NH_UDP → ports_ok u → (length (header_inline h src_mac dst_mac) + 9 ≤ length buf)%nat →
  ∃ rest, compress s (mkPacket h (mkPayload (UDP u) p)) src_mac dst_mac buf =
    Ret (Some (48, 2 + zlen (header_inline h src_mac dst_mac ++ udp_inline u)),
         iphc0 h :: iphc1 h src_mac dst_mac :: (header_inline h src_mac dst_mac ++ udp_inline u) ++ rest).
Proof.
  intros Hc Hn Hp Hl. set (bs := header_inline h src_mac dst_mac) in *.
  destruct buf as [|x0 [|x1 buf]]; cbn in Hl; try lia.
  unfold compress. cbn [packet_header packet_payload transport].
  change (x0 :: x1 :: buf) with ([] ++ [x0; x1] ++ buf). rewrite splice_app by done. cbn [mbind outcome_bind app IPHC_DISPATCH].
  pose proof (header_compresses h src_mac dst_mac Hc 0x60 0 [] buf) as Hh. fold bs in Hh.
  change (2 + zlen []) with 2 in Hh. cbn [app] in Hh. specialize (Hh ltac:(lia)).
  fold (iphc0 h) in Hh. rewrite Z.lor_0_l in Hh. set (i1 := iphc1 h src_mac dst_mac) in *.
  repeat (apply outcome_bind_Ret in Hh as (? & -> & Hh); cbn [mbind outcome_bind]).
  exists (drop (length (udp_inline u)) (drop (length bs) buf)). etransitivity; [exact (bind_ret_eq _ _ _ Hh)|].
  repeat match goal with o : Out |- _ => clear dependent o end.
  rewrite Hn. cbn [Z.eqb NH_UDP Pos.eqb fst snd].
  assert (Hr : (7 ≤ length (drop (length bs) buf))%nat) by (rewrite length_drop; lia).
  destruct (drop (length bs) buf) as [|x rest]; [cbn in Hr; lia|]. cbn in Hr.
  assert (E : ∀ y, iphc0 h :: i1 :: bs ++ y :: rest = iphc0 h :: i1 :: (bs ++ [y]) ++ rest) by (intros; by rewrite <- app_assoc).
  rewrite E. replace (2 + zlen bs + 1) with (2 + zlen (bs ++ [x])) by (rewrite zlen_snoc; lia).
  rewrite compress_udp_ports_compresses by (done || lia). cbn [mbind outcome_bind].
  rewrite compress_udp_checksum_compresses.
  2:{ rewrite length_drop. unfold ports_choice. destruct (both4 u), (src8 u); cbn; lia. }
  cbn [mbind outcome_bind fst snd]. rewrite <- !app_assoc. cbn [app].
  rewrite index_set_at by done. cbn [mbind outcome_bind].
  assert (Ed : drop (length (udp_inline u)) (x :: rest) = drop 2 (drop (length (ports_choice u).2) rest)).
  { unfold udp_inline. cbn [length drop]. rewrite length_app, drop_drop. done. }
  rewrite Ed. unfold udp_inline. fold (nhc_byte u). f_equal. f_equal; [|by cbn; rewrite <- !app_assoc].
  do 2 f_equal. rewrite !zlen_app. unfold zlen. cbn. rewrite length_app. cbn. lia.
Qed.
End Compress.

(** ** The decompressor *)

Lemma get8_at (c0 c1 : Z) pre b post i : i = 2 + zlen pre → get8 (c0 :: c1 :: pre ++ b :: post) i = Ret (Some b).
Proof.
  intros ->. unfold get8. destruct (cons_cons_zlen c0 c1 pre (b :: post)) as [-> <-]. by rewrite index_get_app.
Qed.

Lemma slice_at (c0 c1 : Z) pre mid post lo hi :
  lo = 2 + zlen pre → hi = lo + zlen mid → slice (c0 :: c1 :: pre ++ mid ++ post) lo hi = Ret (Some mid).
Proof.
  intros -> ->. unfold slice. destruct (cons_cons_zlen c0 c1 pre (mid ++ post)) as [-> <-].
  by rewrite get_range_mid by lia.
Qed.

Lemma res_bind {A B} (m : Res A) (f : A → Res B) a : m = Ret (Some a) → m ≫= f = f a.
Proof. by intros ->. Qed.

Lemma res_bind_lift {A B} (a : A) (f : A → Res B) : (x ← lift (Ret a); f x) = f a.
Proof. done. Qed.

Lemma res_bind_ret {A B} (a : A) (f : A → Res B) : (x ← mret a; f x) = f a.
Proof. done. Qed.

(** *** Traffic class and flow label

    The four bytes in nibbles: 6, [a]; [b], [c]; the traffic class is [ab], the
    flow label [c] and two bytes.  Facts on nibbles are checked for all. *)

Definition nibble (x : Z) : Prop := 0 ≤ x < 16.

Lemma nibbles_forall (P : Z → Z → bool) :
  forallb (λ a, forallb (P a) (seqZ 0 16)) (seqZ 0 16) = true → ∀ a b, nibble a → nibble b → P a b = true.
Proof.
  rewrite forallb_forall. intros H a b Ha Hb. unfold nibble in *.
  assert (Hin : ∀ x, 0 ≤ x < 16 → In x (seqZ 0 16)) by (intros; apply list_elem_of_In, elem_of_seqZ; lia).
  specialize (H a (Hin a Ha)). rewrite forallb_forall in H. auto.
Qed.

Definition tf_of (a b : Z) : Z * Z := (Z.land (Z.lor (16 * a) b) 3, Z.shiftr (Z.land (Z.lor (16 * a) b) 0xfc) 2).

(** What a compressed byte with the traffic class gives back. *)
Definition tc_byte_ok (a b : Z) : bool :=
  let '(ecn, dscp) := tf_of a b in
  let byte := Z.lor dscp (as_u8 (Z.shiftl ecn 6)) in
  (Z.shiftr byte 6 =? ecn) && (Z.land byte 0x3f =? dscp) &&
  (negb (dscp =? 0) || (a =? 0)) && (negb ((dscp =? 0) && (ecn =? 0)) || (b =? 0)) &&
  bool_decide (version_class_flow (set_dscp (set_ecn IP6Header_new ecn) dscp) = [0x60 + a; 16 * b; 0; 0]).
Lemma tc_byte_checked a b : nibble a → nibble b → tc_byte_ok a b = true.
Proof. apply nibbles_forall. by vm_compute. Qed.

(** And one with the ECN bits and the high bits of the flow label. *)
Definition flow_byte_ok (b c : Z) : bool :=
  let '(ecn, dscp) := tf_of 0 b in
  let byte := Z.lor c (as_u8 (Z.shiftl ecn 6)) in
  (Z.shiftr byte 6 =? ecn) && (Z.land byte 0x0f =? c) && (Z.land c 0x0f =? c) &&
  (negb (dscp =? 0) || bool_decide (version_class_flow (set_ecn IP6Header_new ecn) = [0x60; 16 * b; 0; 0])) &&
  (Z.lor (Z.land (16 * b) 0xf0) c =? 16 * b + c).
Lemma flow_byte_checked b c : nibble b → nibble c → flow_byte_ok b c = true.
Proof. apply nibbles_forall. by vm_compute. Qed.

Definition vcf_ok (a b : Z) : bool :=
  (as_u8 (Z.shiftl (Z.land (0x60 + a) 0x0f) 4) =? 16 * a) && (Z.shiftr (Z.land (16 * a + b) 0xf0) 4 =? a) &&
  (Z.land (16 * a + b) 0x0f =? b).
Lemma vcf_checked a b : nibble a → nibble b → vcf_ok a b = true.
Proof. apply nibbles_forall. by vm_compute. Qed.

(** The fields of a header with these bytes. *)
Lemma header_fields h a b c v2 v3 :
  version_class_flow h = [0x60 + a; 16 * b + c; v2; v3] → nibble a → nibble b → nibble c → byte v2 → byte v3 →
  get_ecn h = (tf_of a b).1 ∧ get_dscp h = (tf_of a b).2 ∧ get_flow_label h = 65536 * c + 256 * v2 + v3.
Proof.
  intros E Ha Hb Hc H2 H3. unfold get_ecn, get_dscp, get_dscp_unshifted, get_traffic_class, get_flow_label. rewrite E.
  unfold at8. cbn [nth].
  pose proof (vcf_checked a b Ha Hb) as V1. pose proof (vcf_checked b c Hb Hc) as V2.
  unfold vcf_ok in *. rewrite !andb_true_iff, !Z.eqb_eq in V1, V2.
  destruct V1 as [[-> _] _], V2 as [[_ ->] ->]. cbn [fst snd tf_of]. repeat split.
  unfold nibble, byte in *. rewrite <- Z.lor_assoc, (lor_shiftl_add 8), (lor_shiftl_add 16) by lia. lia.
Qed.

Lemma set_flow_label_vcf h' v0 b c v2 v3 :
  version_class_flow h' = [v0; 16 * b; 0; 0] → nibble b → nibble c → byte v2 → byte v3 →
  set_flow_label h' (65536 * c + 256 * v2 + v3) = set_vcf h' [v0; 16 * b + c; v2; v3].
Proof.
  intros E Hb Hc H2 H3. unfold set_flow_label. rewrite E. unfold at8. cbn [nth].
  pose proof (flow_byte_checked b c Hb Hc) as V. unfold flow_byte_ok in V. destruct (tf_of 0 b) as [ecn dscp].
  rewrite !andb_true_iff, !Z.eqb_eq in V. destruct V as [[[_ Vc] _] Vl].
  unfold nibble, byte in *. rewrite !as_u8_mod, !Z.shiftr_div_pow2 by lia. change (2 ^ 8) with 256. change (2 ^ 16) with 65536.
  replace ((65536 * c + 256 * v2 + v3) / 65536) with c by byte_lia.
  rewrite Vc, (Z.mod_small c) by lia. rewrite Vl.
  replace ((65536 * c + 256 * v2 + v3) / 256) with (256 * c + v2) by byte_lia.
  do 4 f_equal; [byte_lia|]. f_equal. byte_lia.
Qed.

Lemma set_ecn_vcf h e : set_ecn h e = set_vcf h (version_class_flow (set_ecn h e)).
Proof. done. Qed.
Lemma set_dscp_vcf h d : set_dscp h d = set_vcf h (version_class_flow (set_dscp h d)).
Proof. done. Qed.

Lemma vcf_nibbles h : ip6_ok h → get_version h = 6 →
  ∃ a b c v2 v3, version_class_flow h = [0x60 + a; 16 * b + c; v2; v3] ∧ nibble a ∧ nibble b ∧ nibble c ∧ byte v2 ∧ byte v3.
Proof.
  intros [[Hl Hb] _ _ _ _ _] Hv. unfold get_version in Hv.
  destruct (version_class_flow h) as [|v0 [|v1 [|v2 [|v3 [|]]]]]; try done. unfold at8 in Hv. cbn [nth] in Hv.
  apply Forall_cons_1 in Hb as [B0 Hb]. apply Forall_cons_1 in Hb as [B1 Hb].
  apply Forall_cons_1 in Hb as [B2 Hb]. apply Forall_cons_1 in Hb as [B3 _]. unfold byte in *.
  exists (v0 - 0x60), (v1 / 16), (v1 mod 16), v2, v3. unfold nibble.
  assert (E : v0 / 16 = 6).
  { pose proof (vcf_checked (v0 / 16) (v0 mod 16)) as V. unfold vcf_ok, nibble in V.
    rewrite !andb_true_iff, !Z.eqb_eq in V. rewrite <- (Z.div_mod v0 16) in V by lia.
    destruct V as [[_ V] _]; [byte_lia|byte_lia|]. lia. }
  split; [|byte_lia]. rewrite <- (Z.div_mod v1 16) by lia. f_equal. lia.
Qed.

Lemma flow_of_bytes c v2 v3 : nibble c → byte v2 → byte v3 →
  Z.lor (Z.lor (Z.shiftl c 16) (Z.shiftl v2 8)) v3 = 65536 * c + 256 * v2 + v3.
Proof. unfold nibble, byte. intros. rewrite <- Z.lor_assoc, (lor_shiftl_add 8), (lor_shiftl_add 16) by lia. lia. Qed.

Lemma bytes_of_flow c v2 v3 : nibble c → byte v2 → byte v3 →
  let flow := 65536 * c + 256 * v2 + v3 in
  as_u8 (Z.land (Z.shiftr flow 16) 0x0f) = c ∧ as_u8 (Z.shiftr flow 8) = v2 ∧ as_u8 flow = v3.
Proof.
  cbv zeta. unfold nibble, byte. intros. rewrite !as_u8_mod, !Z.shiftr_div_pow2 by lia. change 0x0f with (Z.ones 4).
  rewrite Z.land_ones by lia. change (2 ^ 8) with 256. change (2 ^ 16) with 65536. change (2 ^ 4) with 16.
  replace ((65536 * c + 256 * v2 + v3) / 65536) with c by byte_lia.
  replace ((65536 * c + 256 * v2 + v3) / 256) with (256 * c + v2) by byte_lia. repeat split; byte_lia.
Qed.

(** Reading the flow label behind the ECN bits. *)
Lemma flow_reads (h' : IP6Header) v0 b c v2 v3 x (c0 c1 : Z) pre post :
  version_class_flow h' = [v0; 16 * b; 0; 0] → nibble b → nibble c → byte v2 → byte v3 → Z.land x 0x0f = c →
  (let buf := c0 :: c1 :: pre ++ x :: v2 :: v3 :: post in
   let consumed := 2 + zlen pre in
   b0 ← get8 buf consumed; b1 ← get8 buf (consumed + 1); b2 ← get8 buf (consumed + 2);
   mret (set_flow_label h' (Z.lor (Z.lor (Z.shiftl (Z.land b0 0x0f) 16) (Z.shiftl b1 8)) b2), consumed + 3))
  = (mret (set_vcf h' [v0; 16 * b + c; v2; v3], 2 + zlen pre + 3) : Res (IP6Header * Z)).
Proof.
  intros E Hb Hc H2 H3 Hx. cbv zeta. rewrite (res_bind _ _ x) by by apply get8_at.
  assert (E1 : pre ++ x :: v2 :: v3 :: post = (pre ++ [x]) ++ v2 :: v3 :: post) by by rewrite <- app_assoc.
  assert (E2 : pre ++ x :: v2 :: v3 :: post = (pre ++ [x; v2]) ++ v3 :: post) by by rewrite <- app_assoc.
  rewrite (res_bind _ _ v2) by (rewrite E1; apply get8_at; rewrite zlen_snoc; lia).
  rewrite (res_bind _ _ v3) by (rewrite E2; apply get8_at; rewrite zlen_app; unfold zlen; cbn; lia).
  by rewrite Hx, flow_of_bytes, (set_flow_label_vcf h' v0 b c v2 v3).
Qed.

Lemma decompress_tf_reads h c0 c1 pre post i :
  ip6_ok h → get_version h = 6 →
  (Z.land c0 TF_FLOW_LABEL =? 0) = negb (flow_elided h) → (Z.land c0 TF_TRAFFIC_CLASS =? 0) = negb (tc_elided h) →
  i = 2 + zlen pre →
  decompress_tf IP6Header_new c0 (c0 :: c1 :: pre ++ tf_bytes h ++ post) i =
    Ret (Some (set_vcf IP6Header_new (version_class_flow h), 2 + zlen (pre ++ tf_bytes h))).
Proof.
  intros Hok Hv Hf Ht ->. destruct (vcf_nibbles h Hok Hv) as (a & b & c & v2 & v3 & E & Ha & Hb & Hc & H2 & H3).
  destruct (header_fields h a b c v2 v3) as (Ee & Ed & Efl); [done..|].
  unfold decompress_tf. rewrite Hf, Ht, !negb_involutive. rewrite E.
  unfold tf_bytes, flow_bytes, ecn_bits. rewrite Ee, Ed, Efl.
  destruct (bytes_of_flow c v2 v3) as (-> & -> & ->); [done..|].
  pose proof (tc_byte_checked a b Ha Hb) as V1. pose proof (flow_byte_checked b c Hb Hc) as V2.
  unfold tc_byte_ok in V1. destruct (tf_of a b) as [ecn dscp] eqn:Etf. cbn [fst snd] in *.
  rewrite !andb_true_iff, !Z.eqb_eq, bool_decide_eq_true in V1. destruct V1 as [[[[V1a V1b] V1c] V1d] V1e].
  assert (Htc : tc_elided h = (dscp =? 0) && ((ecn =? 0) || negb (flow_elided h)))
    by (unfold tc_elided, flow_elided; by rewrite Ee, Ed).
  assert (Hz : flow_elided h = true → c = 0 ∧ v2 = 0 ∧ v3 = 0).
  { unfold flow_elided, nibble, byte in *. rewrite Efl, Z.eqb_eq. lia. }
  assert (Hfl : ∀ h', version_class_flow h' = [0x60 + a; 16 * b; 0; 0] → flow_elided h = true →
                set_flow_label h' 0 = set_vcf h' [0x60 + a; 16 * b + c; v2; v3]).
  { intros h' Eh (-> & -> & ->)%Hz. by apply (set_flow_label_vcf h' (0x60 + a) b 0 0 0). }
  destruct (tc_elided h) eqn:Etc; symmetry in Htc.
  - apply andb_true_iff in Htc as [Ez Hor]. rewrite Ez in *. cbn [negb orb andb] in *. apply Z.eqb_eq in V1c. subst a.
    unfold flow_byte_ok in V2. rewrite Etf in V2. rewrite !andb_true_iff, !Z.eqb_eq in V2.
    destruct V2 as [[[[V2a V2b] V2c] V2d] _]. rewrite Ez in V2d. cbn [negb orb] in V2d. apply bool_decide_eq_true in V2d.
    destruct (flow_elided h) eqn:Ef; cbn [negb orb andb app] in *.
    + rewrite orb_false_r in Hor. rewrite Hor in V1d. cbn in V1d. apply Z.eqb_eq in V1d. subst b.
      rewrite app_nil_r, !res_bind_ret. by rewrite (Hfl IP6Header_new).
    + rewrite (res_bind _ _ (set_ecn IP6Header_new ecn)) by (rewrite (res_bind _ _ _ (get8_at _ _ _ _ _ _ eq_refl)), V2a; done).
      rewrite (res_bind _ _ (set_ecn IP6Header_new ecn, 2 + zlen pre)) by done.
      rewrite (flow_reads (set_ecn IP6Header_new ecn) 0x60 b c v2 v3) by done.
      unfold mret, Res_ret. rewrite zlen_app. do 3 f_equal. unfold zlen. cbn. lia.
  - cbn [negb orb andb]. rewrite orb_true_r.
    destruct (flow_elided h) eqn:Ef; cbn [app].
    + rewrite (res_bind _ _ (set_ecn IP6Header_new ecn)) by (rewrite (res_bind _ _ _ (get8_at _ _ _ _ _ _ eq_refl)), V1a; done).
      rewrite (res_bind _ _ (set_dscp (set_ecn IP6Header_new ecn) dscp, 2 + zlen pre + 1))
        by (rewrite (res_bind _ _ _ (get8_at _ _ _ _ _ _ eq_refl)), V1b; done).
      rewrite Hfl by done. unfold mret, Res_ret. rewrite zlen_app. do 3 f_equal. unfold zlen. cbn. lia.
    + rewrite (res_bind _ _ (set_ecn IP6Header_new ecn)) by (rewrite (res_bind _ _ _ (get8_at _ _ _ _ _ _ eq_refl)), V1a; done).
      rewrite (res_bind _ _ (set_dscp (set_ecn IP6Header_new ecn) dscp, 2 + zlen pre + 1))
        by (rewrite (res_bind _ _ _ (get8_at _ _ _ _ _ _ eq_refl)), V1b; done).
      set (x := Z.lor dscp _).
      assert (Ex : pre ++ x :: c :: v2 :: v3 :: post = (pre ++ [x]) ++ c :: v2 :: v3 :: post) by by rewrite <- app_assoc.
      cbv beta iota. rewrite Ex.
      replace (2 + zlen pre + 1) with (2 + zlen (pre ++ [x])) by (rewrite zlen_snoc; lia).
      rewrite (flow_reads _ (0x60 + a) b c v2 v3 c) by (done || (apply (land_ones_small c 4); unfold nibble in *; lia)).
      unfold mret, Res_ret. rewrite !zlen_app. do 3 f_equal. unfold zlen. cbn. lia.
Qed.

(** *** The bits of the IPHC bytes *)

Lemma hl_bits_cases h : hl_bits h = 0 ∨ hl_bits h = 1 ∨ hl_bits h = 2 ∨ hl_bits h = 3.
Proof. unfold hl_bits. repeat case_match; auto. Qed.

Lemma iphc0_fields h :
  (Z.land (iphc0 h) CID =? 0) = true ∧
  (Z.land (iphc0 h) TF_FLOW_LABEL =? 0) = negb (flow_elided h) ∧
  (Z.land (iphc0 h) TF_TRAFFIC_CLASS =? 0) = negb (tc_elided h) ∧
  (Z.land (iphc0 h) IPHC_NH =? 0) = negb (next_header h =? NH_UDP) ∧
  Z.land (iphc0 h) HLIM_MASK = hl_bits h.
Proof.
  unfold iphc0, tf_bits, nh_bits.
  destruct (hl_bits_cases h) as [->|[->|[->| ->]]]; destruct (tc_elided h), (flow_elided h), (_ =? NH_UDP); by vm_compute.
Qed.

Lemma iid_choice_mode ip mac : (iid_choice ip mac).1 = 1 ∨ (iid_choice ip mac).1 = 2 ∨ (iid_choice ip mac).1 = 3.
Proof. unfold iid_choice. repeat case_match; auto. Qed.

Lemma src_choice_nibble ip mac ctx : ∃ a, nibble a ∧ (src_choice ip mac ctx).1 = 16 * a.
Proof.
  unfold src_choice, nibble. destruct (is_unspecified ip); [by exists 4|].
  destruct (iid_choice_mode ip mac) as [->|[->| ->]]; destruct (is_unicast_link_local ip), ctx; cbn;
    first [by exists 1|by exists 2|by exists 3|by exists 5|by exists 6|by exists 7|by exists 0].
Qed.

Lemma dst_bits_nibble {T} `{ContextStore T} (s : T) h mac : nibble (dst_bits s h mac).
Proof.
  unfold dst_bits, multicast_choice, dst_choice, nibble. destruct (is_multicast _).
  - repeat case_match; done.
  - destruct (iid_choice_mode (dst_addr h) mac) as [E|[E|E]]; repeat case_match; cbn; rewrite ?E; done.
Qed.

Lemma iphc1_parts {T} `{ContextStore T} (s : T) h src_mac dst_mac :
  Z.land (iphc1 s h src_mac dst_mac) 0xf0 = (src_choice (src_addr h) src_mac (src_context s h)).1 ∧
  Z.land (iphc1 s h src_mac dst_mac) 0x0f = dst_bits s h dst_mac.
Proof.
  unfold iphc1. destruct (src_choice_nibble (src_addr h) src_mac (src_context s h)) as (a & Ha & ->).
  pose proof (nibbles_forall (λ a b, (Z.land (Z.lor (16 * a) b) 0xf0 =? 16 * a) && (Z.land (Z.lor (16 * a) b) 0x0f =? b))
    ltac:(by vm_compute) a (dst_bits s h dst_mac) Ha (dst_bits_nibble s h dst_mac)) as V.
  by rewrite andb_true_iff, !Z.eqb_eq in V.
Qed.

(** A mask within the high or the low half of a byte. *)
Lemma land_sub c M m : Z.land M m = m → Z.land c m = Z.land (Z.land c M) m.
Proof. intros E. by rewrite <- Z.land_assoc, E. Qed.

(** *** Next header and hop limit *)

Lemma decompress_nh_reads h c0 c1 pre post i :
  (Z.land c0 IPHC_NH =? 0) = negb (next_header h =? NH_UDP) → i = 2 + zlen pre →
  decompress_nh c0 (c0 :: c1 :: pre ++ nh_bytes h ++ post) i =
    Ret (Some (next_header h =? NH_UDP, if next_header h =? NH_UDP then 0 else next_header h, 2 + zlen (pre ++ nh_bytes h))).
Proof.
  intros Hb ->. unfold decompress_nh, nh_bytes. rewrite Hb, negb_involutive. destruct (_ =? NH_UDP).
  - by rewrite app_nil_r.
  - cbn [app]. rewrite (res_bind _ _ _ (get8_at _ _ _ _ _ _ eq_refl)). unfold mret, Res_ret. rewrite zlen_snoc. do 3 f_equal. lia.
Qed.

Lemma hl_inline h : hop_limit h ≠ 1 → hop_limit h ≠ 64 → hop_limit h ≠ 255 → hl_bits h = 0 ∧ hl_bytes h = [hop_limit h].
Proof.
  unfold hl_bits, hl_bytes. remember (hop_limit h) as hl. intros. split; repeat (case_match; try lia; try done).
Qed.

Lemma decompress_hl_reads h h0 c0 c1 pre post i :
  Z.land c0 HLIM_MASK = hl_bits h → i = 2 + zlen pre →
  decompress_hl h0 c0 (c0 :: c1 :: pre ++ hl_bytes h ++ post) i =
    Ret (Some (set_hop_limit h0 (hop_limit h), 2 + zlen (pre ++ hl_bytes h))).
Proof.
  intros Hb ->. unfold decompress_hl. rewrite Hb.
  destruct (Z.eq_dec (hop_limit h) 1) as [E|N1]; [unfold hl_bits, hl_bytes; rewrite E; by rewrite app_nil_r|].
  destruct (Z.eq_dec (hop_limit h) 64) as [E|N2]; [unfold hl_bits, hl_bytes; rewrite E; by rewrite app_nil_r|].
  destruct (Z.eq_dec (hop_limit h) 255) as [E|N3]; [unfold hl_bits, hl_bytes; rewrite E; by rewrite app_nil_r|].
  destruct (hl_inline h N1 N2 N3) as [-> ->]. cbn [app].
  rewrite (res_bind _ _ _ (get8_at _ _ _ _ _ _ eq_refl)). unfold mret, Res_ret. rewrite zlen_snoc. do 3 f_equal. lia.
Qed.

(** *** Addresses *)

Definition mac_iid_ok (mac : MacAddress) : Prop := match mac with Short _ => True | Long l => length l = 8%nat end.

Lemma compute_iid_length mac : mac_iid_ok mac → length (compute_iid mac) = 8%nat.
Proof. destruct mac as [|l]; [done|]. cbn. rewrite length_drop. intros ->. done. Qed.

Lemma sub8_tail ip : length ip = 16%nat → sub8 ip 8 16 = drop 8 ip.
Proof. intros H. unfold sub8. apply take_ge. rewrite length_drop, H. done. Qed.

(** The interface identifier from the mode and the bytes inline. *)
Lemma iid_choice_cases ip mac : length ip = 16%nat →
  (iid_choice ip mac = (3, []) ∧ drop 8 ip = compute_iid mac) ∨
  (iid_choice ip mac = (2, sub8 ip 14 16) ∧ drop 8 ip = take 6 MAC_BASE ++ sub8 ip 14 16 ∧ zlen (sub8 ip 14 16) = 2) ∨
  (iid_choice ip mac = (1, drop 8 ip) ∧ zlen (drop 8 ip) = 8).
Proof.
  intros Hl. unfold iid_choice. rewrite sub8_tail by done. case_bool_decide as E1; [by left|]. right.
  case_bool_decide as E2; [left|right].
  - split; [done|]. unfold sub8 in *. split; [|unfold zlen; rewrite length_take, length_drop, Hl; done].
    rewrite <- E2. change (14 - 8)%nat with 6%nat. change (16 - 14)%nat with 2%nat.
    rewrite <- (take_drop 6 (drop 8 ip)) at 1. rewrite drop_drop. f_equal. symmetry. apply take_ge. rewrite length_drop, Hl. done.
  - split; [done|]. unfold zlen. rewrite length_drop, Hl. done.
Qed.

Lemma link_local_split ip : addr_ok ip → is_unicast_link_local ip = true → ip = [0xfe; 0x80; 0; 0; 0; 0; 0; 0] ++ drop 8 ip.
Proof.
  intros [Hl Hb] Hll. unfold is_unicast_link_local in Hll. rewrite !andb_true_iff, !Z.eqb_eq in Hll.
  destruct Hll as [[[E0 E1] E2] E3]. pose proof (at8_byte ip 1 Hb) as B1.
  do 16 (destruct ip as [|? ip]; [done|]). destruct ip; [|done]. unfold at8, sub8 in *. cbn [nth Nat.sub drop take] in *.
  cbn [all_zero forallb] in E3. rewrite !andb_true_iff, !Z.eqb_eq in E3. destruct E3 as (-> & -> & -> & -> & -> & -> & _).
  rewrite E0. replace z0 with 0x80; [done|].
  rewrite <- (land_ones_small z0 8) by lia. change (Z.ones 8) with (Z.lor 0xc0 0x3f). by rewrite Z.land_lor_distr_r, E1, E2.
Qed.

Lemma slice_inline (c0 c1 : Z) pre mid post n :
  zlen mid = n → slice (c0 :: c1 :: pre ++ mid ++ post) (2 + zlen pre) (2 + zlen pre + n) = Ret (Some mid).
Proof. intros <-. by apply slice_at. Qed.

Lemma link_local_reads ip mac m (c0 c1 : Z) pre post :
  addr_ok ip → is_unicast_link_local ip = true → iid_mode m = Some (Z.to_nat (iid_choice ip mac).1) →
  decompress_iid_link_local m IPAddr_new mac (c0 :: c1 :: pre ++ (iid_choice ip mac).2 ++ post) (2 + zlen pre) =
    Ret (Some (ip, 2 + zlen (pre ++ (iid_choice ip mac).2))).
Proof.
  intros Hok Hll Hm. pose proof (link_local_split ip Hok Hll) as E. unfold decompress_iid_link_local. rewrite Hm.
  destruct Hok as [Hl _]. destruct (iid_choice_cases ip mac Hl) as [[-> Ei]|[(-> & Ei & Hz)|[-> Hz]]]; cbn [fst snd] in *.
  - rewrite app_nil_r. change (Z.to_nat 3) with 3%nat. cbv iota. rewrite <- Ei. unfold mret, Res_ret. do 3 f_equal. by rewrite E at 2.
  - change (Z.to_nat 2) with 2%nat. cbv iota zeta. rewrite (res_bind _ _ _ (slice_inline _ _ _ _ _ 2 Hz)).
    unfold mret, Res_ret. rewrite zlen_app, Hz, Z.add_assoc. do 3 f_equal. rewrite E at 2. by rewrite Ei.
  - change (Z.to_nat 1) with 1%nat. cbv iota zeta. rewrite (res_bind _ _ _ (slice_inline _ _ _ _ _ 8 Hz)).
    unfold mret, Res_ret. rewrite zlen_app, Hz, Z.add_assoc. do 3 f_equal. by rewrite E at 2.
Qed.

(** *** Contexts *)

(** What a store promises here: one context, number 0, with a prefix of 64 to
    128 bits, returned for addresses and prefixes that it matches. *)
Record store_ok {T} `{ContextStore T} (s : T) (ctx : Context) : Prop := {
  so_0 : get_context_from_id s 0 = Some ctx;
  so_id : ctx_id ctx = 0;
  so_prefix : length (prefix ctx) = 16%nat ∧ Forall byte (prefix ctx);
  so_len : 64 ≤ prefix_len ctx ≤ 128;
  so_addr : ∀ ip c, get_context_from_addr s ip = Some c → c = ctx ∧ matches_prefix ip (prefix ctx) (prefix_len ctx) = true;
  so_by_prefix : ∀ p n c, get_context_from_prefix s p n = Some c →
    c = ctx ∧ n = prefix_len ctx ∧ matches_prefix p (prefix ctx) n = true
}.

(** The store of a single context is such a store. *)
Lemma Context_store_ok ctx :
  ctx_id ctx = 0 → length (prefix ctx) = 16%nat → Forall byte (prefix ctx) → 64 ≤ prefix_len ctx ≤ 128 → store_ok ctx ctx.
Proof.
  intros Hid Hl Hb Hp. split; try done.
  - cbn. intros ip c. destruct (matches_prefix _ _ _) eqn:E; naive_solver.
  - cbn. intros p n c. destruct (Z.eqb_spec n (prefix_len ctx)) as [->|]; [|done].
    destruct (matches_prefix _ _ _) eqn:E; naive_solver.
Qed.

(** The byte that a prefix ends in: the bits of a mask from [y], the others from
    [x], where both agree on the mask. *)
Lemma partial_byte x y v : byte x →
  Z.land (Z.lxor x y) (as_u8 v) = 0 →
  Z.lor (Z.land x (Z.lxor (as_u8 v) 0xff)) (Z.land (as_u8 v) y) = x.
Proof.
  unfold byte. intros Hx Hz. apply Z.bits_inj'. intros i Hi.
  assert (Hb : Z.testbit (Z.land (Z.lxor x y) (as_u8 v)) i = false) by by rewrite Hz, Z.bits_0.
  unfold as_u8 in *. change 0xff with (Z.ones 8) in *.
  rewrite Z.lor_spec, !Z.land_spec, !Z.lxor_spec, ?Z.land_spec in *.
  assert (Ho : Z.testbit (Z.ones 8) i = bool_decide (i < 8)).
  { case_bool_decide; [apply Z.ones_spec_low; lia|apply Z.ones_spec_high; lia]. }
  rewrite Ho in *. case_bool_decide as Hi8.
  - destruct (Z.testbit x i), (Z.testbit y i), (Z.testbit v i); done.
  - rewrite <- (Z.mod_small x (2 ^ 8)), Z.mod_pow2_bits_high by lia. by rewrite !andb_false_r.
Qed.

(** [set_prefix] restores an address from a matching context when the bits
    behind the first eight bytes are already in place. *)
Lemma set_prefix_restores ip ip' p n :
  addr_ok ip → length ip' = 16%nat → drop 8 ip' = drop 8 ip → length p = 16%nat → Forall byte p → 64 ≤ n ≤ 128 →
  matches_prefix ip p n = true → set_prefix ip' p n = Ret ip.
Proof.
  intros [Hl Hb] Hl' Hd Hp Hpb Hn Hm. unfold matches_prefix in Hm. unfold set_prefix.
  change 7 with (Z.ones 3). rewrite Z.land_ones by lia. change (2 ^ 3) with 8. unfold prefix_bytes in Hm.
  set (full := prefix_full_bytes n) in *.
  assert (Hf : (8 ≤ full ≤ 16)%nat) by (subst full; unfold prefix_full_bytes; byte_lia).
  assert (Hbytes : (full + (if (n mod 8 =? 0)%Z then 0 else 1) ≤ 16)%nat).
  { destruct (Z.eqb_spec (n mod 8) 0); [lia|]. subst full. unfold prefix_full_bytes. byte_lia. }
  rewrite !(proj2 (Nat.leb_le _ _)) by lia. cbn [andb].
  rewrite Hl, Hp, (proj2 (Nat.ltb_ge _ _)) in Hm by lia. cbn [orb] in Hm.
  destruct (negb _ && negb _) eqn:Er in Hm; [done|]. apply bool_decide_eq_true in Hm.
  assert (E : take full p ++ drop full ip' = ip).
  { rewrite <- Hm. rewrite <- (take_drop full ip) at 2. f_equal.
    replace full with (8 + (full - 8))%nat by lia. by rewrite <- !drop_drop, Hd. }
  rewrite E. destruct (Z.eqb_spec (n mod 8) 0) as [|Hr]; [done|]. cbn [negb andb] in Er.
  apply negb_false_iff, Z.eqb_eq in Er. do 2 f_equal.
  pose proof (Z.mod_pos_bound n 8 ltac:(lia)).
  rewrite partial_byte by (done || by apply at8_byte).
  apply list_insert_id. unfold at8. rewrite nth_lookup.
  destruct (lookup_lt_is_Some_2 ip full) as [x ->]; [|done]. rewrite Hl. lia.
Qed.

Lemma context_reads ip mac ctx m (c0 c1 : Z) pre post :
  addr_ok ip → mac_iid_ok mac → iid_mode m = Some (Z.to_nat (iid_choice ip mac).1) →
  length (prefix ctx) = 16%nat → Forall byte (prefix ctx) → 64 ≤ prefix_len ctx ≤ 128 →
  matches_prefix ip (prefix ctx) (prefix_len ctx) = true →
  decompress_iid_context m IPAddr_new mac ctx (c0 :: c1 :: pre ++ (iid_choice ip mac).2 ++ post) (2 + zlen pre) =
    Ret (Some (ip, 2 + zlen (pre ++ (iid_choice ip mac).2))).
Proof.
  intros Hok Hmac Hm Hp Hpb Hn Hmp. unfold decompress_iid_context.
  rewrite (res_bind _ _ (replicate 8 0 ++ drop 8 ip, 2 + zlen (pre ++ (iid_choice ip mac).2))).
  - rewrite (set_prefix_restores ip); try done. destruct Hok as [Hl _]. rewrite length_app, length_drop, Hl. done.
  - rewrite Hm. destruct Hok as [Hl _]. destruct (iid_choice_cases ip mac Hl) as [[-> Ei]|[(-> & Ei & Hz)|[-> Hz]]]; cbn [fst snd] in *.
    + rewrite app_nil_r, Ei. done.
    + change (Z.to_nat 2) with 2%nat. cbv iota. rewrite (res_bind _ _ _ (slice_inline _ _ _ _ _ 2 Hz)).
      by rewrite zlen_app, Hz, Z.add_assoc, Ei.
    + change (Z.to_nat 1) with 1%nat. cbv iota. rewrite (res_bind _ _ _ (slice_inline _ _ _ _ _ 8 Hz)).
      by rewrite zlen_app, Hz, Z.add_assoc.
Qed.

Definition ctx_fits (ctx : Context) : Prop :=
  length (prefix ctx) = 16%nat ∧ Forall byte (prefix ctx) ∧ 64 ≤ prefix_len ctx ≤ 128.

Lemma all_zero_eq l : all_zero l = true → l = replicate (length l) 0.
Proof.
  unfold all_zero. induction l as [|b l IH]; [done|]. cbn. rewrite andb_true_iff, Z.eqb_eq. intros [-> H]. f_equal. auto.
Qed.

Lemma full_address_reads m ip mac (c0 c1 : Z) pre post :
  length ip = 16%nat → iid_mode m = Some 0%nat →
  decompress_iid_link_local m IPAddr_new mac (c0 :: c1 :: pre ++ ip ++ post) (2 + zlen pre) = Ret (Some (ip, 2 + zlen (pre ++ ip))).
Proof.
  intros Hl Hm. unfold decompress_iid_link_local. rewrite Hm. cbv iota.
  rewrite (res_bind _ _ _ (slice_inline _ _ _ ip _ 16 (zlen_length _ _ Hl))).
  by rewrite zlen_app, (zlen_length _ _ Hl), Z.add_assoc.
Qed.

Lemma decompress_src_reads h0 ip mac octx ctx (c0 c1 : Z) pre post i :
  src_addr h0 = IPAddr_new → addr_ok ip → mac_iid_ok mac → ctx_fits ctx →
  (∀ c, octx = Some c → matches_prefix ip (prefix ctx) (prefix_len ctx) = true) →
  Z.land c1 0xf0 = (src_choice ip mac octx).1 → i = 2 + zlen pre →
  decompress_src h0 c1 mac ctx (c0 :: c1 :: pre ++ (src_choice ip mac octx).2 ++ post) i =
    Ret (Some (set_src_addr h0 ip, 2 + zlen (pre ++ (src_choice ip mac octx).2))).
Proof.
  intros H0 Hok Hmac (Hp & Hpb & Hn) Hctx Hc1 ->. unfold decompress_src.
  rewrite (land_sub c1 0xf0 SAC), (land_sub c1 0xf0 SAM_MASK), Hc1, H0 by done. unfold src_choice in *.
  destruct (is_unspecified ip) eqn:Hu.
  { cbn [fst snd]. change (Z.land SAC SAC) with SAC. change (Z.land SAC SAM_MASK) with 0. cbn [andb negb Z.eqb SAC SAM_INLINE].
    rewrite app_nil_r. unfold mret, Res_ret. do 3 f_equal. unfold set_src_addr. destruct h0. cbn in *. subst. f_equal.
    apply all_zero_eq in Hu. destruct Hok as [Hl _]. rewrite Hl in Hu. done. }
  assert (Hmode : ∀ k, k = 1 ∨ k = 2 ∨ k = 3 → iid_mode (16 * k) = Some (Z.to_nat k) ∧
    Z.land (16 * k) SAC = 0 ∧ Z.land (16 * k) SAM_MASK = 16 * k ∧
    Z.land (Z.lor SAC (16 * k)) SAC = SAC ∧ Z.land (Z.lor SAC (16 * k)) SAM_MASK = 16 * k ∧ (16 * k =? SAM_INLINE) = false).
  { intros k [->|[->| ->]]; by vm_compute. }
  destruct (Hmode _ (iid_choice_mode ip mac)) as (M0 & M1 & M2 & M3 & M4 & M5).
  destruct (is_unicast_link_local ip) eqn:Hll.
  { cbn [fst snd]. rewrite M1, M2. cbn [Z.eqb negb andb]. by rewrite (res_bind _ _ _ (link_local_reads _ _ _ _ _ _ _ Hok Hll M0)). }
  destruct octx as [c|]; cbn [fst snd].
  - rewrite M3, M4, M5. cbn [Z.eqb SAC negb andb].
    by rewrite (res_bind _ _ _ (context_reads _ _ _ _ _ _ _ _ Hok Hmac M0 Hp Hpb Hn (Hctx c eq_refl))).
  - cbn [Z.land SAC SAM_MASK Z.eqb negb andb]. destruct Hok as [Hl _].
    by rewrite (res_bind _ _ _ (full_address_reads 0 ip mac c0 c1 pre post Hl eq_refl)).
Qed.

Lemma decompress_dst_reads h0 ip mac octx ctx (c0 c1 : Z) pre post i :
  dst_addr h0 = IPAddr_new → addr_ok ip → mac_iid_ok mac → ctx_fits ctx →
  (∀ c, octx = Some c → matches_prefix ip (prefix ctx) (prefix_len ctx) = true) →
  Z.land c1 0x0f = (dst_choice ip mac octx).1 → i = 2 + zlen pre →
  decompress_dst h0 c1 mac ctx (c0 :: c1 :: pre ++ (dst_choice ip mac octx).2 ++ post) i =
    Ret (Some (set_dst_addr h0 ip, 2 + zlen (pre ++ (dst_choice ip mac octx).2))).
Proof.
  intros H0 Hok Hmac (Hp & Hpb & Hn) Hctx Hc1 ->. unfold decompress_dst.
  rewrite (land_sub c1 0x0f DAC), (land_sub c1 0x0f DAM_MASK), Hc1, H0 by done. unfold dst_choice in *.
  assert (Hmode : ∀ k, k = 1 ∨ k = 2 ∨ k = 3 → iid_mode k = Some (Z.to_nat k) ∧
    Z.land k DAC = 0 ∧ Z.land k DAM_MASK = k ∧
    Z.land (Z.lor DAC k) DAC = DAC ∧ Z.land (Z.lor DAC k) DAM_MASK = k ∧ (k =? DAM_INLINE) = false).
  { intros k [->|[->| ->]]; by vm_compute. }
  destruct (Hmode _ (iid_choice_mode ip mac)) as (M0 & M1 & M2 & M3 & M4 & M5).
  destruct (is_unicast_link_local ip) eqn:Hll.
  { rewrite M1, M2. cbn [Z.eqb negb andb]. by rewrite (res_bind _ _ _ (link_local_reads _ _ _ _ _ _ _ Hok Hll M0)). }
  destruct octx as [c|]; cbn [fst snd].
  - rewrite M3, M4, M5. cbn [Z.eqb DAC negb andb].
    by rewrite (res_bind _ _ _ (context_reads _ _ _ _ _ _ _ _ Hok Hmac M0 Hp Hpb Hn (Hctx c eq_refl))).
  - cbn [Z.land DAC DAM_MASK Z.eqb negb andb]. destruct Hok as [Hl _].
    by rewrite (res_bind _ _ _ (full_address_reads 0 ip mac c0 c1 pre post Hl eq_refl)).
Qed.

(** *** Multicast *)

(** A multicast address that a context of at least 64 bits compresses carries its
    length, 64, and its first eight bytes. *)
Definition carries_prefix (ip : list Z) (ctx : Context) : Prop :=
  prefix_len ctx = 64 ∧ at8 ip 3 = 64 ∧ sub8 ip 4 12 = take 8 (prefix ctx).

Lemma multicast_context ip ctx :
  length ip = 16%nat → ctx_fits ctx → at8 ip 3 = prefix_len ctx →
  verify_prefix_len (sub8 ip 4 12) (at8 ip 3) = true → matches_prefix (sub8 ip 4 12) (prefix ctx) (at8 ip 3) = true →
  carries_prefix ip ctx.
Proof.
  intros Hl (Hp & _ & Hn) E Hv Hm. rewrite E in *. unfold verify_prefix_len in Hv.
  assert (Hl8 : length (sub8 ip 4 12) = 8%nat) by (unfold sub8; rewrite length_take, length_drop, Hl; done).
  destruct (Nat.ltb_spec (length (sub8 ip 4 12)) (prefix_bytes (prefix_len ctx))) as [|Hb]; [done|]. clear Hv.
  assert (E64 : prefix_len ctx = 64).
  { rewrite Hl8 in Hb. unfold prefix_bytes, prefix_full_bytes in Hb.
    destruct (Z.eqb_spec (prefix_len ctx mod 8) 0); byte_lia. }
  unfold carries_prefix. rewrite E, E64. split_and!; [done|done|]. rewrite E64 in Hm. unfold matches_prefix in Hm.
  change (prefix_bytes 64) with 8%nat in Hm. change (prefix_full_bytes 64) with 8%nat in Hm. change (64 mod 8) with 0 in Hm.
  rewrite Hl8, Hp in Hm. cbn [Nat.ltb Nat.leb orb Z.eqb negb andb] in Hm. apply bool_decide_eq_true in Hm.
  rewrite (take_ge (sub8 ip 4 12)) in Hm by lia. done.
Qed.

Lemma multicast_head ip : length ip = 16%nat → is_multicast ip = true → ip = [0xff; at8 ip 1] ++ sub8 ip 2 16.
Proof.
  intros Hl Hm. unfold is_multicast in Hm. apply Z.eqb_eq in Hm.
  do 16 (destruct ip as [|? ip]; [done|]). destruct ip; [|done]. unfold at8 in *. cbn in Hm |- *. by subst.
Qed.

Lemma sub8_split ip i j k : length ip = 16%nat → (i ≤ j ≤ k)%nat → (k ≤ 16)%nat → sub8 ip i k = sub8 ip i j ++ sub8 ip j k.
Proof.
  intros Hl H1 H2. unfold sub8. rewrite <- (take_drop (j - i) (take (k - i) (drop i ip))).
  rewrite take_take, skipn_firstn_comm, drop_drop. replace ((j - i) `min` (k - i))%nat with (j - i)%nat by lia.
  replace (k - i - (j - i))%nat with (k - j)%nat by lia. by replace (i + (j - i))%nat with j by lia.
Qed.

Lemma sub8_zero ip i j : length ip = 16%nat → (i ≤ j ≤ 16)%nat → all_zero (sub8 ip i j) = true → sub8 ip i j = replicate (j - i) 0.
Proof.
  intros Hl Hij Hz. apply all_zero_eq in Hz. rewrite Hz. f_equal. unfold sub8. rewrite length_take, length_drop. lia.
Qed.

Lemma sub8_zlen ip i j : length ip = 16%nat → (i ≤ j ≤ 16)%nat → zlen (sub8 ip i j) = Z.of_nat (j - i).
Proof. intros Hl Hij. unfold zlen, sub8. rewrite length_take, length_drop. f_equal. lia. Qed.

Lemma sub8_last ip : length ip = 16%nat → sub8 ip 15 16 = [at8 ip 15].
Proof. intros Hl. do 16 (destruct ip as [|? ip]; [done|]). by destruct ip. Qed.

Lemma sub8_two ip : length ip = 16%nat → sub8 ip 1 3 = [at8 ip 1; at8 ip 2].
Proof. intros Hl. do 16 (destruct ip as [|? ip]; [done|]). by destruct ip. Qed.

Lemma sub8_mid ip : length ip = 16%nat → sub8 ip 2 4 = [at8 ip 2; at8 ip 3].
Proof. intros Hl. do 16 (destruct ip as [|? ip]; [done|]). by destruct ip. Qed.

(** Bytes inline that are read one by one and as a slice. *)
Lemma byte_slice_reads (c0 c1 : Z) pre b mid post n :
  zlen mid = n →
  get8 (c0 :: c1 :: pre ++ (b :: mid) ++ post) (2 + zlen pre) = Ret (Some b) ∧
  slice (c0 :: c1 :: pre ++ (b :: mid) ++ post) (2 + zlen pre + 1) (2 + zlen pre + (1 + n)) = Ret (Some mid).
Proof.
  intros Hn. split; [by apply get8_at|]. cbn [app].
  replace (pre ++ b :: mid ++ post) with ((pre ++ [b]) ++ mid ++ post) by by rewrite <- app_assoc.
  apply slice_at; rewrite ?zlen_snoc; lia.
Qed.

Lemma decompress_multicast_reads h0 ip octx ctx (c0 c1 : Z) pre post i :
  dst_addr h0 = IPAddr_new → length ip = 16%nat → is_multicast ip = true → ctx_fits ctx →
  (∀ c, octx = Some c → carries_prefix ip ctx) →
  Z.land c1 0x0f = (multicast_choice ip octx).1 → i = 2 + zlen pre →
  decompress_multicast h0 c1 ctx (c0 :: c1 :: pre ++ (multicast_choice ip octx).2 ++ post) i =
    Ret (Some (set_dst_addr h0 ip, 2 + zlen (pre ++ (multicast_choice ip octx).2))).
Proof.
  intros H0 Hl Hmc (Hp & _ & _) Hctx Hc1 ->. unfold decompress_multicast.
  rewrite (land_sub c1 0x0f DAC), (land_sub c1 0x0f DAM_MASK), Hc1, H0 by done.
  pose proof (multicast_head ip Hl Hmc) as Eh. unfold multicast_choice in *.
  destruct octx as [c|]; cbn [fst snd] in *.
  { destruct (Hctx c eq_refl) as (E64 & E3 & E4). unfold ctx_prefix_bytes. rewrite E64.
    change (Z.land (Z.lor MULTICAST DAC) DAC) with 4. change (Z.land (Z.lor MULTICAST DAC) DAM_MASK) with 0.
    cbn [Z.eqb negb DAM_INLINE]. change (64 + 7 <? 256) with true. change ((64 + 7) / 8) with 8.
    rewrite (res_bind _ _ 8) by done. change (8 <? 8) with false. cbv iota.
    rewrite (sub8_two ip Hl) in *. cbn [app].
    rewrite (res_bind _ _ (at8 ip 1)) by by apply get8_at.
    assert (E1 : ∀ l : list Z, pre ++ at8 ip 1 :: l = (pre ++ [at8 ip 1]) ++ l) by (intros; by rewrite <- app_assoc).
    assert (E2 : ∀ l : list Z, pre ++ at8 ip 1 :: at8 ip 2 :: l = (pre ++ [at8 ip 1; at8 ip 2]) ++ l) by (intros; by rewrite <- app_assoc).
    rewrite (res_bind _ _ (at8 ip 2)) by (rewrite E1; apply get8_at; rewrite zlen_snoc; lia).
    rewrite (res_bind _ _ (sub8 ip 12 16)).
    2:{ rewrite E2. apply slice_at; rewrite ?(sub8_zlen ip 12 16), ?zlen_app by (done || lia); unfold zlen; cbn; lia. }
    unfold mret, Res_ret. rewrite zlen_app. do 3 f_equal.
    - f_equal. etransitivity; [|symmetry; exact Eh].
      by rewrite (sub8_split ip 2 4 16), (sub8_split ip 4 12 16), (sub8_mid ip), E3, E4 by (done || lia).
    - pose proof (sub8_zlen ip 12 16 Hl ltac:(lia)) as Hz. unfold zlen in Hz |- *. cbn [length app]. lia. }
  destruct ((at8 ip 1 =? 2) && all_zero (sub8 ip 2 15)) eqn:E1; cbn [fst snd] in *.
  { apply andb_true_iff in E1 as [Eb Ez]. apply Z.eqb_eq in Eb. apply sub8_zero in Ez; [|done|lia].
    change (Z.land (Z.lor MULTICAST DAM_MODE3) DAC) with 0. change (Z.land (Z.lor MULTICAST DAM_MODE3) DAM_MASK) with 3.
    cbn [Z.eqb negb]. rewrite (res_bind _ _ (at8 ip 15)) by by apply get8_at.
    unfold mret, Res_ret. rewrite zlen_snoc. do 3 f_equal; [|lia]. f_equal.
    etransitivity; [|symmetry; exact Eh]. by rewrite (sub8_split ip 2 15 16), Ez, Eb, sub8_last by (done || lia). }
  destruct (all_zero (sub8 ip 2 11)) eqn:E2; cbn [negb fst snd] in *.
  2:{ change (Z.land (Z.lor MULTICAST DAM_INLINE) DAC) with 0. change (Z.land (Z.lor MULTICAST DAM_INLINE) DAM_MASK) with 0.
      cbn [Z.eqb negb]. rewrite (res_bind _ _ _ (slice_inline _ _ _ ip _ 16 (zlen_length _ _ Hl))).
      by rewrite zlen_app, (zlen_length _ _ Hl), Z.add_assoc. }
  apply sub8_zero in E2; [|done|lia].
  destruct (all_zero (sub8 ip 11 13)) eqn:E3; cbn [negb fst snd] in *.
  - apply sub8_zero in E3; [|done|lia].
    change (Z.land (Z.lor MULTICAST DAM_MODE2) DAC) with 0. change (Z.land (Z.lor MULTICAST DAM_MODE2) DAM_MASK) with 2.
    destruct (byte_slice_reads c0 c1 pre (at8 ip 1) (sub8 ip 13 16) post 3) as [R1 R2]; [by apply (sub8_zlen ip 13 16); [|lia]|].
    cbn [Z.eqb negb]. rewrite (res_bind _ _ _ R1), (res_bind _ _ _ R2).
    unfold mret, Res_ret. rewrite zlen_app. do 3 f_equal.
    + f_equal. etransitivity; [|symmetry; exact Eh]. by rewrite (sub8_split ip 2 11 16), (sub8_split ip 11 13 16), E2, E3 by (done || lia).
    + pose proof (sub8_zlen ip 13 16 Hl ltac:(lia)) as Hz. unfold zlen in Hz |- *. cbn [length]. lia.
  - change (Z.land (Z.lor MULTICAST DAM_MODE1) DAC) with 0. change (Z.land (Z.lor MULTICAST DAM_MODE1) DAM_MASK) with 1.
    destruct (byte_slice_reads c0 c1 pre (at8 ip 1) (sub8 ip 11 16) post 5) as [R1 R2]; [by apply (sub8_zlen ip 11 16); [|lia]|].
    cbn [Z.eqb negb]. rewrite (res_bind _ _ _ R1), (res_bind _ _ _ R2).
    unfold mret, Res_ret. rewrite zlen_app. do 3 f_equal.
    + f_equal. etransitivity; [|symmetry; exact Eh]. by rewrite (sub8_split ip 2 11 16), E2 by (done || lia).
    + pose proof (sub8_zlen ip 11 16 Hl ltac:(lia)) as Hz. unfold zlen in Hz |- *. cbn [length]. lia.
Qed.

(** *** UDP *)

Lemma network_bytes_be16 x : u16 x → network_bytes x = be16 x.
Proof.
  unfold u16. intros Hx. unfold network_bytes, be16. rewrite !as_u8_mod, Z.shiftr_div_pow2 by lia. change 0xff with (Z.ones 8).
  rewrite Z.land_ones by lia. change (2 ^ 8) with 256. byte_list.
Qed.

Lemma low_first_be16 x : u16 x → [as_u8 x; as_u8 (Z.shiftr x 8)] = be16 (to_be16 x).
Proof.
  intros Hx. rewrite be16_swap by done. unfold u16 in Hx. cbn [le_bytes]. rewrite !as_u8_mod, Z.shiftr_div_pow2 by lia. done.
Qed.

Lemma read16_at (c0 c1 : Z) pre x post i : u16 x → i = 2 + zlen pre → read16 (c0 :: c1 :: pre ++ be16 x ++ post) i = Ret (Some x).
Proof.
  intros Hx ->. unfold read16. rewrite (res_bind _ _ (be16 x)) by by apply slice_at. unfold be16, u16 in *.
  change (lift (Ret (Z.lor (Z.shiftl (x / 256) 8) (x mod 256))) = Ret (Some x)). unfold lift.
  do 2 f_equal. rewrite lor_shiftl_add; byte_lia.
Qed.

(** A port from its prefix and the low bits. *)
Lemma port_split x M m p : u16 x → Z.lor M m = 0xffff → Z.land x M = p → Z.lor p (Z.land x m) = x.
Proof.
  unfold u16. intros Hx HM <-. rewrite <- Z.land_lor_distr_r, HM. by apply (land_ones_small x 16).
Qed.

Definition nibble_pair_ok (a b : Z) : bool :=
  let x := as_u8 (Z.lor (Z.shiftl a 4) b) in (Z.land (Z.shiftr x 4) 0xf =? a) && (Z.land x 0xf =? b).
Lemma nibble_pair_checked a b : nibble a → nibble b → nibble_pair_ok a b = true.
Proof. apply nibbles_forall. by vm_compute. Qed.

Lemma land_nibble x : nibble (Z.land x 0xf).
Proof. unfold nibble. change 0xf with (Z.ones 4). rewrite Z.land_ones by lia. apply Z.mod_pos_bound. lia. Qed.

Lemma ports_reads u (c0 c1 : Z) pre post :
  udp_ok u →
  decompress_udp_ports (nhc_byte u) (c0 :: c1 :: pre ++ (ports_choice u).2 ++ post) (2 + zlen pre) =
    Ret (Some (swapped_src u, swapped_dst u, 2 + zlen (pre ++ (ports_choice u).2))).
Proof.
  intros Hu. destruct (get_u16 u Hu) as (B1 & B2 & _ & _).
  assert (Hs : u16 (swapped_src u)) by by apply to_be16_u16.
  assert (Hd : u16 (swapped_dst u)) by by apply to_be16_u16.
  assert (Es : to_be16 (swapped_src u) = get_src_port u) by by apply to_be16_involutive.
  assert (Ed : to_be16 (swapped_dst u) = get_dst_port u) by by apply to_be16_involutive.
  unfold decompress_udp_ports, nhc_byte, ports_choice.
  destruct (both4 u) eqn:E4; cbn [fst snd].
  { match goal with |- context [Z.land (Z.lor (Z.lor NHC_DISPATCH_UDP ?f) 0)] => change (Z.lor (Z.lor NHC_DISPATCH_UDP f) 0) with 0xf3 end.
    change (Z.land 0xf3 UDP_SRC_PORT_FLAG) with 2. change (Z.land 0xf3 UDP_DST_PORT_FLAG) with 1. cbn [Z.eqb negb andb].
    cbn [app]. rewrite (res_bind _ _ _ (get8_at _ _ _ _ _ _ eq_refl)).
    pose proof (nibble_pair_checked _ _ (land_nibble (swapped_src u)) (land_nibble (swapped_dst u))) as V.
    unfold nibble_pair_ok in V. rewrite andb_true_iff, !Z.eqb_eq in V. destruct V as [-> ->].
    unfold both4 in E4. rewrite andb_true_iff, !Z.eqb_eq in E4. destruct E4 as [E41 E42].
    rewrite (port_split _ UDP_4BIT_PORT_MASK 0xf _ Hs eq_refl E41), (port_split _ UDP_4BIT_PORT_MASK 0xf _ Hd eq_refl E42).
    rewrite zlen_snoc. unfold mret, Res_ret. do 3 f_equal. lia. }
  destruct (src8 u) eqn:E8; cbn [fst snd].
  { match goal with |- context [Z.land (Z.lor (Z.lor NHC_DISPATCH_UDP ?f) 0)] => change (Z.lor (Z.lor NHC_DISPATCH_UDP f) 0) with 0xf2 end.
    change (Z.land 0xf2 UDP_SRC_PORT_FLAG) with 2. change (Z.land 0xf2 UDP_DST_PORT_FLAG) with 0. cbn [Z.eqb negb andb].
    rewrite Ed, network_bytes_be16 by done. cbn [app]. rewrite (res_bind _ _ _ (get8_at _ _ _ _ _ _ eq_refl)).
    set (b := as_u8 _). replace (pre ++ b :: be16 (get_dst_port u) ++ post) with ((pre ++ [b]) ++ be16 (get_dst_port u) ++ post)
      by by rewrite <- app_assoc.
    rewrite (res_bind _ _ (get_dst_port u)) by (apply read16_at; [done|rewrite zlen_snoc; lia]).
    assert (Eb : b = Z.land (swapped_src u) 0xff).
    { subst b. unfold as_u8. change 0x00ff with 0xff. by rewrite <- Z.land_assoc. }
    rewrite Eb. unfold src8 in E8. apply Z.eqb_eq in E8.
    rewrite (port_split _ UDP_8BIT_PORT_MASK 0xff _ Hs eq_refl E8). fold (swapped_dst u).
    unfold mret, Res_ret. do 3 f_equal. rewrite zlen_app. unfold zlen. cbn. lia. }
  match goal with |- context [Z.land (Z.lor (Z.lor NHC_DISPATCH_UDP ?f) 0)] => change (Z.lor (Z.lor NHC_DISPATCH_UDP f) 0) with 0xf0 end.
  change (Z.land 0xf0 UDP_SRC_PORT_FLAG) with 0. change (Z.land 0xf0 UDP_DST_PORT_FLAG) with 0. cbn [Z.eqb negb andb].
  change [?a; ?b; ?c; ?d] with ([a; b] ++ [c; d]). rewrite !low_first_be16, Es, Ed, <- app_assoc by done.
  rewrite (res_bind _ _ (get_src_port u)) by by apply read16_at.
  rewrite app_assoc. rewrite (res_bind _ _ (get_dst_port u)) by (apply read16_at; [done|rewrite zlen_app; unfold zlen; cbn; lia]).
  fold (swapped_src u) (swapped_dst u). unfold mret, Res_ret. do 3 f_equal. rewrite !zlen_app. unfold zlen. cbn. lia.
Qed.

Lemma nhc_byte_facts u : nhc_to_ip6_nh (nhc_byte u) = Some NH_UDP ∧ Z.land (nhc_byte u) UDP_CHECKSUM_FLAG = 0.
Proof. unfold nhc_byte, ports_choice. destruct (both4 u), (src8 u); by vm_compute. Qed.

Lemma cksum_bytes_be16 u : udp_ok u → cksum_bytes u = be16 (udp_get_cksum u).
Proof.
  intros Hu. destruct (get_u16 u Hu) as (_ & _ & _ & B4). unfold cksum_bytes.
  rewrite low_first_be16 by by apply to_be16_u16. by rewrite to_be16_involutive.
Qed.

Lemma ports_size u : 1 ≤ zlen (ports_choice u).2 ≤ 4.
Proof. unfold ports_choice. destruct (both4 u), (src8 u); by vm_compute. Qed.

Lemma as_u16_small x : 0 ≤ x < 65536 → as_u16 x = x.
Proof. intros Hx. by apply (land_ones_small x 16). Qed.

Lemma u16_add_ok a b : a + b < 65536 → u16_add a b = Ret (a + b).
Proof. intros H. unfold u16_add. by rewrite (proj2 (Z.ltb_lt _ _)). Qed.
Lemma u16_sub_ok {Pr : Profile} a b : b ≤ a → u16_sub a b = Ret (a - b).
Proof. apply narrow_sub_ok. Qed.
Lemma u16_sum_ok {Pr : Profile} a b : a + b < 65536 → u16_sum a b = Ret (a + b).
Proof. apply narrow_add_ok. Qed.
Lemma us_sub_ok {Pr : Profile} a b : 0 ≤ a - b < usize_bound → us_sub a b = Ret (a - b).
Proof. apply plain_sub_ok. Qed.
Lemma us_add_ok {Pr : Profile} a b : 0 ≤ a + b < usize_bound → us_add a b = Ret (a + b).
Proof. apply plain_add_ok. Qed.

Lemma splice_out front old rest bs at_ :
  at_ = zlen front → length old = length bs → splice (front ++ old ++ rest) at_ bs = Ret (front ++ bs ++ rest).
Proof. apply splice_app. Qed.

(** The length of a UDP datagram: from the size of the whole packet in a
    fragment, from the length of the frame otherwise. *)
Definition announced (size : Z) (frag : bool) (data : list Z) (n : Z) : Prop :=
  if frag then n = size - 40 ∧ 48 ≤ size < 65536 else n = 8 + zlen data.

Lemma udp_reads {Pr : Profile} h u (c0 c1 : Z) pre data front o0 o1 o2 o3 o4 o5 o6 o7 out size frag :
  udp_ok u → announced size frag data (udp_get_len u) → zlen front = 40 →
  zlen (c0 :: c1 :: pre ++ (ports_choice u).2 ++ cksum_bytes u ++ data) < 65536 →
  decompress_udp h (nhc_byte u) (c0 :: c1 :: pre ++ (ports_choice u).2 ++ cksum_bytes u ++ data)
    (front ++ [o0; o1; o2; o3; o4; o5; o6; o7] ++ out) (2 + zlen pre) 40 size frag =
    Ret (Some (2 + zlen (pre ++ (ports_choice u).2 ++ cksum_bytes u), 48, front ++ udp_wire u ++ out)).
Proof.
  intros Hu Hlen Hf Hb. destruct (get_u16 u Hu) as (B1 & B2 & B3 & B4). pose proof (zlen_nonneg data). pose proof (zlen_nonneg pre).
  pose proof (ports_size u) as Hps. destruct (nhc_byte_facts u) as [_ Hck]. unfold decompress_udp.
  assert (Hz : zlen (c0 :: c1 :: pre ++ (ports_choice u).2 ++ cksum_bytes u ++ data) =
    2 + zlen pre + zlen (ports_choice u).2 + 2 + zlen data).
  { rewrite (proj1 (cons_cons_zlen c0 c1 pre _)), !zlen_app, (proj2 (cons_cons_zlen c0 c1 pre data)).
    change (zlen (cksum_bytes u)) with 2. lia. }
  rewrite Hz in Hb.
  rewrite (res_bind _ _ (if frag then udp_get_len u else zlen (ports_choice u).2 + 2 + zlen data)).
  2:{ rewrite Hz. unfold announced in Hlen. destruct frag.
      - rewrite (as_u16_small 40), u16_sub_ok by lia. cbn [lift]. do 2 f_equal. lia.
      - rewrite !as_u16_small, u16_sub_ok by lia. cbn [lift]. do 2 f_equal. lia. }
  rewrite (res_bind _ _ _ (ports_reads u c0 c1 pre (cksum_bytes u ++ data) Hu)). cbv beta iota.
  rewrite (res_bind _ _ (udp_get_len u)).
  2:{ unfold announced in Hlen. destruct frag; [done|]. rewrite zlen_app, as_u16_small, u16_sub_ok by (unfold UDP_PORTS_SIZE; lia). rewrite res_bind_lift.
      unfold u16 in B3. rewrite u16_sum_ok by (unfold UDP_PORTS_SIZE; lia). rewrite res_bind_lift.
      rewrite u16_sum_ok by (unfold UDP_PORTS_SIZE; lia). rewrite res_bind_lift. rewrite Hck. cbn [Z.eqb].
      unfold mret, Res_ret, UDP_PORTS_SIZE. do 2 f_equal. lia. }
  unfold swapped_src, swapped_dst. rewrite !to_be16_involutive by done. rewrite !network_bytes_be16 by done.
  change (front ++ [o0; o1; o2; o3; o4; o5; o6; o7] ++ out) with (front ++ [o0; o1] ++ [o2; o3; o4; o5; o6; o7] ++ out).
  rewrite splice_out by done. rewrite res_bind_lift.
  set (s := be16 (get_src_port u)). set (d := be16 (get_dst_port u)). set (l := be16 (udp_get_len u)).
  rewrite (app_assoc front s). change ([o2; o3; o4; o5; o6; o7] ++ out) with ([o2; o3] ++ [o4; o5; o6; o7] ++ out).
  rewrite splice_out by (done || (rewrite zlen_app, Hf; done)). rewrite res_bind_lift.
  rewrite (app_assoc (front ++ s) d). change ([o4; o5; o6; o7] ++ out) with ([o4; o5] ++ [o6; o7] ++ out).
  rewrite splice_out by (done || (rewrite !zlen_app, Hf; done)). rewrite res_bind_lift.
  rewrite (res_bind _ _ (s ++ d ++ l ++ [o6; o7])).
  2:{ unfold slice. rewrite <- !app_assoc. rewrite (app_assoc l), (app_assoc d), (app_assoc s).
      by rewrite get_range_mid by (rewrite ?Hf; done). }
  unfold decompress_udp_checksum. rewrite Hck. cbn [Z.eqb negb andb]. rewrite cksum_bytes_be16 by done.
  rewrite (app_assoc pre). rewrite (res_bind _ _ (to_be16 (udp_get_cksum u), 2 + zlen (pre ++ (ports_choice u).2) + 2)).
  2:{ by rewrite (res_bind _ _ _ (read16_at c0 c1 (pre ++ (ports_choice u).2) _ data _ B4 eq_refl)). }
  cbv beta iota. rewrite to_be16_involutive, network_bytes_be16 by done. rewrite (app_assoc _ l).
  rewrite splice_out by (done || (rewrite !zlen_app, Hf; done)). rewrite res_bind_lift.
  unfold mret, Res_ret, udp_wire. rewrite <- !app_assoc. do 3 f_equal. f_equal. rewrite !zlen_app. unfold zlen. cbn. lia.
Qed.

(** ** The round trip *)

Lemma usable_some o c : usable o = Some c → o = Some c.
Proof. destruct o as [x|]; cbn; [|done]. by destruct (ctx_compress x). Qed.

Section Roundtrip.
Context {T} `{ContextStore T} (s : T) (ctx : Context) (Hs : store_ok s ctx).

Lemma store_fits : ctx_fits ctx.
Proof. destruct Hs. unfold ctx_fits. tauto. Qed.

Lemma src_context_matches h c :
  src_context s h = Some c → c = ctx ∧ matches_prefix (src_addr h) (prefix ctx) (prefix_len ctx) = true.
Proof. intros E%usable_some. by apply (so_addr _ _ Hs) in E. Qed.

Lemma dst_context_matches h c : is_multicast (dst_addr h) = false →
  dst_context s h = Some c → c = ctx ∧ matches_prefix (dst_addr h) (prefix ctx) (prefix_len ctx) = true.
Proof. intros Hm E%usable_some. rewrite Hm in E. by apply (so_addr _ _ Hs) in E. Qed.

Lemma dst_context_carries h c : length (dst_addr h) = 16%nat → is_multicast (dst_addr h) = true →
  dst_context s h = Some c → c = ctx ∧ carries_prefix (dst_addr h) ctx.
Proof.
  intros Hl Hm E%usable_some. rewrite Hm in E. cbv zeta in E. destruct (verify_prefix_len _ _) eqn:Hv; [|done].
  apply (so_by_prefix _ _ Hs) in E as (-> & E3 & Hmp). split; [done|]. by apply multicast_context; [|apply store_fits|..].
Qed.

Lemma store_no_cie h : length (dst_addr h) = 16%nat → no_cie s h.
Proof.
  intros Hl. unfold no_cie, cie_of. pose proof (so_id _ _ Hs) as Hid. split.
  - destruct (src_context s h) as [c|] eqn:E; [|done]. apply src_context_matches in E as [-> _]. by rewrite Hid.
  - destruct (dst_context s h) as [c|] eqn:E; [|done]. destruct (is_multicast (dst_addr h)) eqn:Em.
    + apply dst_context_carries in E as [-> _]; [|done..]. by rewrite Hid.
    + apply dst_context_matches in E as [-> _]; [|done]. by rewrite Hid.
Qed.

Definition dst_inline (h : IP6Header) (dst_mac : MacAddress) : list Z :=
  if is_multicast (dst_addr h) then (multicast_choice (dst_addr h) (dst_context s h)).2
  else (dst_choice (dst_addr h) dst_mac (dst_context s h)).2.

Lemma dst_bits_multicast h dst_mac : (Z.land (dst_bits s h dst_mac) MULTICAST =? 0) = negb (is_multicast (dst_addr h)).
Proof.
  unfold dst_bits, multicast_choice, dst_choice. destruct (is_multicast (dst_addr h)).
  - repeat case_match; by vm_compute.
  - destruct (iid_choice_mode (dst_addr h) dst_mac) as [E|[E|E]]; repeat case_match; cbn [fst snd]; rewrite ?E; by vm_compute.
Qed.

Lemma dst_reads h h0 dst_mac (c0 c1 : Z) pre post i :
  dst_addr h0 = IPAddr_new → addr_ok (dst_addr h) → mac_iid_ok dst_mac →
  Z.land c1 0x0f = dst_bits s h dst_mac → i = 2 + zlen pre →
  (if negb (Z.land c1 MULTICAST =? 0)
   then decompress_multicast h0 c1 ctx (c0 :: c1 :: pre ++ dst_inline h dst_mac ++ post) i
   else decompress_dst h0 c1 dst_mac ctx (c0 :: c1 :: pre ++ dst_inline h dst_mac ++ post) i) =
  Ret (Some (set_dst_addr h0 (dst_addr h), 2 + zlen (pre ++ dst_inline h dst_mac))).
Proof.
  intros H0 Hok Hmac Hc1 Hi. rewrite (land_sub c1 0x0f MULTICAST), Hc1, dst_bits_multicast, negb_involutive by done.
  unfold dst_inline, dst_bits in *. destruct (is_multicast (dst_addr h)) eqn:Em.
  - apply decompress_multicast_reads; try done; [by destruct Hok|apply store_fits|].
    intros c Ec. destruct Hok as [Hl _]. by apply (dst_context_carries h c Hl Em).
  - apply decompress_dst_reads; try done; [apply store_fits|]. intros c Ec. by apply (dst_context_matches h c Em).
Qed.

(** What decompression knows of a header before the next headers. *)
Definition read_header (h : IP6Header) : IP6Header :=
  mkIP6 (version_class_flow h) 0 NH_NO_NEXT (hop_limit h) (src_addr h) (dst_addr h).

(** The fixed part of the compressed header. *)
Lemma header_reads {B} h src_mac dst_mac post (k : bool → Z → IP6Header → Z → Res B) :
  ip6_ok h → get_version h = 6 → mac_iid_ok src_mac → mac_iid_ok dst_mac →
  let c0 := iphc0 h in
  let c1 := iphc1 s h src_mac dst_mac in
  let buf := c0 :: c1 :: header_inline s h src_mac dst_mac ++ post in
  ('(src_ctx, dst_ctx, consumed) ← decompress_cie s c0 buf 2;
   '(h, consumed) ← decompress_tf IP6Header_new c0 buf consumed;
   '(is_nhc, nh, consumed) ← decompress_nh c0 buf consumed;
   '(h, consumed) ← decompress_hl h c0 buf consumed;
   '(h, consumed) ← decompress_src h c1 src_mac src_ctx buf consumed;
   '(h, consumed) ← (if negb (Z.land c1 MULTICAST =? 0) then decompress_multicast h c1 dst_ctx buf consumed
                     else decompress_dst h c1 dst_mac dst_ctx buf consumed);
   k is_nhc nh h consumed) =
  k (next_header h =? NH_UDP) (if next_header h =? NH_UDP then 0 else next_header h) (read_header h)
    (2 + zlen (header_inline s h src_mac dst_mac)).
Proof.
  intros Hok Hv Hsm Hdm. cbv zeta. destruct (iphc0_fields h) as (F1 & F2 & F3 & F4 & F5).
  destruct (iphc1_parts s h src_mac dst_mac) as [P1 P2].
  set (c0 := iphc0 h) in *. set (c1 := iphc1 s h src_mac dst_mac) in *.
  assert (Ei : header_inline s h src_mac dst_mac = tf_bytes h ++ nh_bytes h ++ hl_bytes h ++
     (src_choice (src_addr h) src_mac (src_context s h)).2 ++ dst_inline h dst_mac) by done.
  rewrite Ei. set (b1 := tf_bytes h). set (b2 := nh_bytes h). set (b3 := hl_bytes h).
  set (b4 := (src_choice (src_addr h) src_mac (src_context s h)).2). set (b5 := dst_inline h dst_mac).
  rewrite <- !app_assoc.
  rewrite (res_bind _ _ (ctx, ctx, 2)).
  2:{ unfold decompress_cie, get_context_0. rewrite (so_0 _ _ Hs), F1. done. }
  cbv beta iota. rewrite (res_bind _ _ (set_vcf IP6Header_new (version_class_flow h), 2 + zlen b1))
    by by apply (decompress_tf_reads h c0 c1 [] (b2 ++ b3 ++ b4 ++ b5 ++ post)).
  cbv beta iota.
  rewrite (res_bind _ _ _ (decompress_nh_reads h c0 c1 b1 (b3 ++ b4 ++ b5 ++ post) _ F4 eq_refl)). cbv beta iota.
  rewrite (app_assoc b1 b2).
  rewrite (res_bind _ _ _ (decompress_hl_reads h _ c0 c1 (b1 ++ b2) (b4 ++ b5 ++ post) _ F5 eq_refl)). cbv beta iota.
  rewrite (app_assoc (b1 ++ b2) b3).
  erewrite (res_bind _ _); [|apply (decompress_src_reads _ (src_addr h) src_mac (src_context s h) ctx c0 c1 ((b1 ++ b2) ++ b3) (b5 ++ post)); try done].
  2:{ apply (ip6_src _ Hok). } 2:{ apply store_fits. } 2:{ intros c Ec. by apply (src_context_matches h c). }
  fold b4. cbv beta iota. rewrite (app_assoc ((b1 ++ b2) ++ b3) b4).
  erewrite (res_bind _ _); [|apply (dst_reads h _ dst_mac c0 c1 (((b1 ++ b2) ++ b3) ++ b4) post); try done; apply (ip6_dst _ Hok)].
  fold b5. cbv beta iota. rewrite <- !app_assoc. done.
Qed.

Lemma encode_header_writes h out : ip6_ok h → 40 ≤ zlen out → encode_header h out = Ret (Some (ip6_bytes h ++ drop 40 out)).
Proof.
  intros Hok Ho. pose proof (ip6_bytes_length h Hok) as Hl. unfold encode_header.
  rewrite (IP6Header_encode_writes h Hok) by (rewrite (zlen_length _ _ Hl); lia). by rewrite Hl.
Qed.

Lemma set_read_header h n : ip6_ok h → get_payload_len h = n → next_header h = NH_UDP →
  set_payload_len (set_next_header (read_header h) NH_UDP) n = h.
Proof.
  intros Hok <- Hn. unfold get_payload_len. destruct h as [v pl nh hl sa da]. cbn in *. unfold set_payload_len. cbn. subst.
  f_equal. apply to_be16_involutive, (ip6_len _ Hok).
Qed.

Lemma split_out (out : list Z) : (48 ≤ length out)%nat →
  ∃ front o0 o1 o2 o3 o4 o5 o6 o7, out = front ++ [o0; o1; o2; o3; o4; o5; o6; o7] ++ drop 48 out ∧ zlen front = 40.
Proof.
  intros Ho. pose proof (take_drop 40 out) as E. change 48%nat with (40 + 8)%nat. rewrite <- drop_drop.
  assert (Hl : (8 ≤ length (drop 40 out))%nat) by (rewrite length_drop; lia).
  assert (Hf : zlen (take 40 out) = 40) by (unfold zlen; rewrite length_take; lia).
  destruct (drop 40 out) as [|o0 [|o1 [|o2 [|o3 [|o4 [|o5 [|o6 [|o7 r]]]]]]]]; cbn in Hl; try lia.
  by exists (take 40 out), o0, o1, o2, o3, o4, o5, o6, o7.
Qed.

(** The decompressor on what the compressor wrote, followed by the data. *)
Lemma decompress_udp_packet {Pr : Profile} h u data src_mac dst_mac out fuel size frag :
  let buf := iphc0 h :: iphc1 s h src_mac dst_mac :: (header_inline s h src_mac dst_mac ++ udp_inline u) ++ data in
  ip6_ok h → get_version h = 6 → next_header h = NH_UDP → udp_ok u →
  announced size frag data (udp_get_len u) → get_payload_len h = udp_get_len u →
  mac_iid_ok src_mac → mac_iid_ok dst_mac → zlen buf < 65536 → (48 ≤ length out)%nat →
  decompress_from (S (S fuel)) s buf src_mac dst_mac out size frag =
    Ret (Some (Some (2 + zlen (header_inline s h src_mac dst_mac ++ udp_inline u), 48,
               ip6_bytes h ++ udp_wire u ++ drop 48 out))).
Proof.
  cbv zeta. intros Hok Hv Hn Hu Hlen Hpl Hsm Hdm Hb Ho. rewrite <- app_assoc in *.
  cbn [decompress_from]. rewrite (res_bind _ _ (iphc0 h)) by done. rewrite (res_bind _ _ (iphc1 s h src_mac dst_mac)) by done.
  rewrite (header_reads h src_mac dst_mac (udp_inline u ++ data)) by done. rewrite Hn. cbn [Z.eqb NH_UDP Pos.eqb].
  set (H1 := header_inline s h src_mac dst_mac) in *. unfold udp_inline in *. cbn [app] in *. rewrite <- app_assoc in *.
  destruct (nhc_byte_facts u) as [Hnh _].
  rewrite (res_bind _ _ NH_UDP) by (rewrite (res_bind _ _ _ (get8_at _ _ _ _ _ _ eq_refl)); unfold ok_or; by rewrite Hnh).
  cbn [next_headers_from]. rewrite (res_bind _ _ _ (get8_at _ _ _ _ _ _ eq_refl)).
  destruct (split_out out Ho) as (front & o0 & o1 & o2 & o3 & o4 & o5 & o6 & o7 & Eo & Hf).
  set (tail := drop 48 out) in *. clearbody tail. subst out.
  assert (Hg : get_from (front ++ [o0; o1; o2; o3; o4; o5; o6; o7] ++ tail) 40 = Some ([o0; o1; o2; o3; o4; o5; o6; o7] ++ tail))
    by by apply get_from_app.
  rewrite Hg. cbn [Z.eqb NH_UDP NH_IP6 Pos.eqb].
  replace (H1 ++ nhc_byte u :: (ports_choice u).2 ++ cksum_bytes u ++ data)
    with ((H1 ++ [nhc_byte u]) ++ (ports_choice u).2 ++ cksum_bytes u ++ data) in * by by rewrite <- app_assoc.
  replace (2 + zlen H1 + 1) with (2 + zlen (H1 ++ [nhc_byte u])) by (rewrite zlen_snoc; lia).
  erewrite (res_bind _ _); [|erewrite (res_bind _ _); [reflexivity|by apply udp_reads]]. cbv beta iota.
  assert (Hr : zlen (iphc0 h :: iphc1 s h src_mac dst_mac :: (H1 ++ [nhc_byte u]) ++ (ports_choice u).2 ++ cksum_bytes u ++ data) =
    2 + zlen ((H1 ++ [nhc_byte u]) ++ (ports_choice u).2 ++ cksum_bytes u) + zlen data).
  { rewrite (proj1 (cons_cons_zlen _ _ _ _)), !zlen_app, (proj2 (cons_cons_zlen _ _ _ data)), !zlen_app. lia. }
  pose proof (zlen_nonneg data). rewrite Hr in *. pose proof (zlen_nonneg ((H1 ++ [nhc_byte u]) ++ (ports_choice u).2 ++ cksum_bytes u)).
  rewrite (res_bind _ _ (udp_get_len u)).
  2:{ unfold announced in Hlen. destruct frag; [rewrite us_sub_ok by lia; cbn [lift]; do 2 f_equal; lia|].
      rewrite us_sub_ok by lia. cbn [mbind outcome_bind]. rewrite us_add_ok by lia. cbn [mbind outcome_bind]. rewrite us_sub_ok by lia. cbn [lift]. do 2 f_equal. lia. }
  rewrite as_u16_small.
  2:{ pose proof (to_be16_u16 _ (ip6_len _ Hok)) as B. unfold u16 in B. fold (get_payload_len h) in B. lia. }
  rewrite set_read_header by (done || lia).
  erewrite (res_bind _ _); [|apply encode_header_writes; [done|rewrite zlen_app, Hf; pose proof (zlen_nonneg (udp_wire u ++ tail)); lia]].
  unfold mret, Res_ret. do 4 f_equal.
  - f_equal. rewrite <- !app_assoc. done.
  - f_equal. rewrite drop_app_length'; [done|]. unfold zlen in Hf. lia.
Qed.

Lemma iid_inline_length ip mac : length ip = 16%nat → (length (iid_choice ip mac).2 ≤ 8)%nat.
Proof.
  intros Hl. destruct (iid_choice_cases ip mac Hl) as [[-> _]|[(-> & _ & Hz)|[-> Hz]]]; cbn [snd length]; unfold zlen in *; lia.
Qed.

Lemma header_inline_length h src_mac dst_mac : ip6_ok h → (length (header_inline s h src_mac dst_mac) ≤ 38)%nat.
Proof.
  intros Hok. destruct (ip6_src _ Hok) as [Hsl _], (ip6_dst _ Hok) as [Hdl _]. unfold header_inline. rewrite !length_app.
  assert (length (tf_bytes h) ≤ 4)%nat by (unfold tf_bytes; destruct (tc_elided h), (flow_elided h); cbn; lia).
  assert (length (nh_bytes h) ≤ 1)%nat by (unfold nh_bytes; destruct (_ =? _); cbn; lia).
  assert (length (hl_bytes h) ≤ 1)%nat by (unfold hl_bytes; repeat case_match; cbn; lia).
  pose proof (iid_inline_length (src_addr h) src_mac Hsl). pose proof (iid_inline_length (dst_addr h) dst_mac Hdl).
  assert (length (src_choice (src_addr h) src_mac (src_context s h)).2 ≤ 16)%nat
    by (unfold src_choice; repeat case_match; cbn [snd length]; lia).
  assert (length (dst_inline h dst_mac) ≤ 16)%nat.
  { unfold dst_inline, multicast_choice, dst_choice. repeat case_match; cbn [snd length]; rewrite ?length_app; unfold sub8;
      rewrite ?length_take, ?length_drop; lia. }
  unfold dst_inline in *. lia.
Qed.

Lemma compressed_frame h u p src_mac dst_mac buf :
  ip6_ok h → next_header h = NH_UDP → ports_ok u → (47 ≤ length buf)%nat →
  ∃ rest, compress s (mkPacket h (mkPayload (UDP u) p)) src_mac dst_mac buf =
    Ret (Some (48, 2 + zlen (header_inline s h src_mac dst_mac ++ udp_inline u)),
         (iphc0 h :: iphc1 s h src_mac dst_mac :: header_inline s h src_mac dst_mac ++ udp_inline u) ++ rest).
Proof.
  intros Hok Hn Hp Hl. pose proof (header_inline_length h src_mac dst_mac Hok). destruct (ip6_dst _ Hok) as [Hdl _].
  destruct (compress_udp_result s h u p src_mac dst_mac buf) as [rest Hr];
    [by apply store_no_cie|done|done|lia|]. by exists rest.
Qed.
End Roundtrip.

Lemma mac_ok_iid mac : mac_ok mac → mac_iid_ok mac.
Proof. by destruct mac. Qed.

(** The compressed headers of a packet: what [compress] writes, and what
    [decompress] makes of them, followed by any data, in a frame of their own or
    in the first fragment of a datagram of [size] bytes. *)
Definition compressed_headers {T} `{ContextStore T} (s : T) (h : IP6Header) (u : UDPHeader) (src_mac dst_mac : MacAddress) : list Z :=
  iphc0 h :: iphc1 s h src_mac dst_mac :: header_inline s h src_mac dst_mac ++ udp_inline u.

Section Headers.
Context {T} `{ContextStore T} (s : T) (ctx : Context) (h : IP6Header) (u : UDPHeader) (src_mac dst_mac : MacAddress).
Context (Hs : store_ok s ctx) (Hok : ip6_ok h) (Hn : next_header h = NH_UDP).

Lemma compressed_headers_length : 2 ≤ zlen (compressed_headers s h u src_mac dst_mac) ≤ 47.
Proof.
  pose proof (header_inline_length s h src_mac dst_mac Hok) as Hi. pose proof (ports_size u) as Hps.
  unfold compressed_headers, udp_inline, zlen in *. cbn [length]. rewrite length_app. cbn [length]. rewrite length_app. cbn [cksum_bytes length]. lia.
Qed.

Lemma compress_headers p buf : ports_ok u → (47 ≤ length buf)%nat →
  ∃ rest, compress s (mkPacket h (mkPayload (UDP u) p)) src_mac dst_mac buf =
    Ret (Some (48, zlen (compressed_headers s h u src_mac dst_mac)), compressed_headers s h u src_mac dst_mac ++ rest).
Proof.
  intros Hp Hb. destruct (compressed_frame s ctx Hs h u p src_mac dst_mac buf) as [rest Hc]; [done..|].
  exists rest. unfold compressed_headers. by rewrite (proj2 (cons_cons_zlen _ _ (header_inline s h src_mac dst_mac ++ udp_inline u) [])).
Qed.

Lemma decompress_headers {Pr : Profile} data out size frag :
  get_version h = 6 → udp_ok u → announced size frag data (udp_get_len u) → get_payload_len h = udp_get_len u →
  mac_ok src_mac → mac_ok dst_mac → zlen data ≤ 65000 → 48 ≤ zlen out →
  decompress s (compressed_headers s h u src_mac dst_mac ++ data) src_mac dst_mac out size frag =
    Ret (Some (zlen (compressed_headers s h u src_mac dst_mac), 48, ip6_bytes h ++ udp_wire u ++ drop 48 out)).
Proof.
  intros Hv Hu Ha Hpl Hsm Hdm Hd Ho. pose proof compressed_headers_length as Hl. revert Hl. unfold compressed_headers, decompress.
  set (inl := header_inline s h src_mac dst_mac ++ udp_inline u). cbn [app]. intros Hl.
  replace (2 * length (iphc0 h :: iphc1 s h src_mac dst_mac :: inl ++ data) + 2)%nat
    with (S (S (2 * length (iphc0 h :: iphc1 s h src_mac dst_mac :: inl ++ data)))) by lia.
  rewrite (proj2 (cons_cons_zlen (iphc0 h) (iphc1 s h src_mac dst_mac) inl [])) in *.
  rewrite (res_bind _ _ (Some (2 + zlen inl, 48, ip6_bytes h ++ udp_wire u ++ drop 48 out))); [done|].
  apply (decompress_udp_packet s ctx Hs h u data); try done; try (by destruct src_mac) || (by destruct dst_mac).
  - rewrite (proj1 (cons_cons_zlen _ _ inl data)), zlen_app, (proj2 (cons_cons_zlen _ _ inl data)). lia.
  - unfold zlen in Ho. lia.
Qed.

Lemma compressed_headers_dispatch rest : ∃ b tail, compressed_headers s h u src_mac dst_mac ++ rest = b :: tail ∧ Z.land b 0xe0 = 0x60.
Proof.
  eexists _, _. split; [done|]. unfold iphc0. unfold tf_bits, nh_bits, hl_bits. by repeat case_match.
Qed.
End Headers.

(** C19.  Decompression inverts compression.  For every context store with the one
    context 0 (of 64 to 128 bits), every well-formed header of a UDP packet
    (any traffic class, flow label, hop limit; source unspecified, link-local,
    under the context or any other address; destination likewise or multicast
    in each of its forms) and every pair of ports but those that the compressor
    shortens wrongly ([ports_ok]): [compress] succeeds on a buffer of 48 bytes,
    consuming 48 bytes of headers, and [decompress], given the compressed bytes
    and the data, returns the number of the compressed bytes and 48, and leaves
    in the packet buffer the IPv6 header and the UDP header, in the order of the
    wire, and nothing else changed. *)
Theorem lowpan_roundtrip {Pr : Profile} {T} `{ContextStore T} (s : T) (ctx : Context) (h : IP6Header) (u : UDPHeader) (data p : list Z)
    (src_mac dst_mac : MacAddress) (buf out : list Z) :
  store_ok s ctx → ip6_ok h → get_version h = 6 → next_header h = NH_UDP → udp_ok u → ports_ok u →
  udp_get_len u = 8 + zlen data → get_payload_len h = 8 + zlen data →
  mac_ok src_mac → mac_ok dst_mac → 48 ≤ zlen buf → zlen data ≤ 65000 → 48 ≤ zlen out →
  ∃ n frame,
    compress s (mkPacket h (mkPayload (UDP u) p)) src_mac dst_mac buf = Ret (Some (48, n), frame) ∧ n ≤ 48 ∧
    decompress s (take (Z.to_nat n) frame ++ data) src_mac dst_mac out 0 false =
      Ret (Some (n, 48, ip6_bytes h ++ udp_wire u ++ drop 48 out)).
Proof.
  intros Hs Hok Hv Hn Hu Hp Hlen Hpl Hsm Hdm Hb Hd Ho. unfold zlen in Hb.
  destruct (compress_headers s ctx h u src_mac dst_mac Hs Hok Hn p buf Hp) as [rest Hc]; [lia|].
  eexists _, _. split; [exact Hc|]. split; [by pose proof (compressed_headers_length s h u src_mac dst_mac Hok); lia|].
  rewrite take_zlen_app. apply (decompress_headers s ctx); try done. by rewrite Hpl.
Qed.

Definition sample_ctx : Context := mkContext [0x20; 0x01; 0x0d; 0xb8; 0; 0; 0; 0; 0; 0; 0; 0; 0; 0; 0; 0] 64 0 true.
(** From an address under the context to a multicast address. *)
Definition sample_header : IP6Header :=
  mkIP6 [0x60; 0; 0; 0] (to_be16 11) NH_UDP 64
    (take 8 (prefix sample_ctx) ++ [1; 2; 3; 4; 5; 6; 7; 8]) [0xff; 2; 0; 0; 0; 0; 0; 0; 0; 0; 0; 0; 0; 0; 0; 1].

Lemma lowpan_roundtrip_witness :
  ∃ n frame,
    compress sample_ctx (mkPacket sample_header (mkPayload (UDP sample_udp) [])) (Short 0x1234) (Long [1; 2; 3; 4; 5; 6; 7; 8])
      (replicate 48 0) = Ret (Some (48, n), frame) ∧ n ≤ 48 ∧
    decompress (Pr := dev) sample_ctx (take (Z.to_nat n) frame ++ [1; 2; 3]) (Short 0x1234) (Long [1; 2; 3; 4; 5; 6; 7; 8])
      (replicate 60 0) 0 false =
      Ret (Some (n, 48, ip6_bytes sample_header ++ udp_wire sample_udp ++ drop 48 (replicate 60 0))).
Proof.
  apply (lowpan_roundtrip sample_ctx sample_ctx); [| |by vm_compute..].
  - apply Context_store_ok; try done. repeat (constructor; [by vm_compute|]); constructor.
  - split; try done; (split; [done|]; repeat (constructor; [by vm_compute|]); constructor).
Defined.

(** ** Termination of the decompressor *)

(** [m] returns only results with [P]. *)
Definition res_post {A} (P : A → Prop) (m : Res A) : Prop := ∀ a, m = Ret (Some a) → P a.

Lemma res_post_bind {A B} (P : A → Prop) (Q : B → Prop) (m : Res A) (f : A → Res B) :
  res_post P m → (∀ a, P a → res_post Q (f a)) → res_post Q (m ≫= f).
Proof. intros Hm Hf b. destruct m as [[a|]|]; cbn; [|done..]. intros H. by apply (Hf a (Hm a eq_refl)). Qed.

Lemma res_post_ret {A} (P : A → Prop) a : P a → res_post P (mret a).
Proof. by intros HP ? [= <-]. Qed.
Lemma res_post_panic {A} (P : A → Prop) : res_post P Panic.
Proof. done. Qed.
Lemma res_post_fail {A} (P : A → Prop) : res_post P fail.
Proof. done. Qed.
Lemma res_post_any {A} (m : Res A) : res_post (λ _, True) m.
Proof. done. Qed.

(** The last component of a result is at least the number consumed before. *)
Ltac consumes :=
  cbv beta zeta;
  repeat lazymatch goal with
  | |- res_post _ (mbind _ _) => eapply res_post_bind; [apply res_post_any|]; intros ? _; cbv beta zeta
  | |- res_post _ (mret _) => apply res_post_ret; cbn [fst snd] in *; lia
  | |- res_post _ Panic => apply res_post_panic
  | |- res_post _ fail => apply res_post_fail
  | |- res_post _ (match ?x with _ => _ end) => destruct x
  end.

Section Fuel.
Context {Pr : Profile} {T} `{ContextStore T} (s : T).

Lemma decompress_cie_consumes x buf c : res_post (λ r, c ≤ r.2) (decompress_cie s x buf c).
Proof. unfold decompress_cie. consumes. Qed.
Lemma decompress_tf_consumes h x buf c : res_post (λ r, c ≤ r.2) (decompress_tf h x buf c).
Proof.
  unfold decompress_tf. eapply res_post_bind; [apply res_post_any|]. intros ? _.
  eapply (res_post_bind (λ r, c ≤ r.2)); [consumes|]. intros [? ?] ?. consumes.
Qed.
Lemma decompress_nh_consumes x buf c : res_post (λ r, c ≤ r.2) (decompress_nh x buf c).
Proof. unfold decompress_nh. consumes. Qed.
Lemma decompress_hl_consumes h x buf c : res_post (λ r, c ≤ r.2) (decompress_hl h x buf c).
Proof. unfold decompress_hl. consumes. Qed.
Lemma decompress_iid_link_local_consumes m ip mac buf c :
  res_post (λ r, c ≤ r.2) (decompress_iid_link_local m ip mac buf c).
Proof. unfold decompress_iid_link_local. consumes. Qed.
Lemma decompress_iid_context_consumes m ip mac ctx buf c :
  res_post (λ r, c ≤ r.2) (decompress_iid_context m ip mac ctx buf c).
Proof.
  unfold decompress_iid_context. eapply (res_post_bind (λ r, c ≤ r.2)); [consumes|]. intros [? ?] ?. consumes.
Qed.
Lemma decompress_src_consumes h x mac ctx buf c : res_post (λ r, c ≤ r.2) (decompress_src h x mac ctx buf c).
Proof.
  unfold decompress_src. repeat case_match; [consumes|..];
    (eapply res_post_bind; [apply decompress_iid_context_consumes || apply decompress_iid_link_local_consumes|]);
    intros [? ?] ?; consumes.
Qed.
Lemma decompress_dst_consumes h x mac ctx buf c : res_post (λ r, c ≤ r.2) (decompress_dst h x mac ctx buf c).
Proof.
  unfold decompress_dst. repeat case_match; [consumes|..];
    (eapply res_post_bind; [apply decompress_iid_context_consumes || apply decompress_iid_link_local_consumes|]);
    intros [? ?] ?; consumes.
Qed.
Lemma decompress_multicast_consumes h x ctx buf c : res_post (λ r, c ≤ r.2) (decompress_multicast h x ctx buf c).
Proof. unfold decompress_multicast. consumes. Qed.
Lemma decompress_ext_consumes x buf out c w :
  res_post (λ r, let '(_, _, c', _, _) := r in c ≤ c') (decompress_ext x buf out c w).
Proof.
  unfold decompress_ext. eapply res_post_bind; [apply res_post_any|]. intros len _. case_match; [consumes|].
  eapply res_post_bind; [apply res_post_any|]. intros m _. eapply res_post_bind; [apply res_post_any|]. intros b _.
  eapply res_post_bind; [apply res_post_any|]. intros nh _. eapply (res_post_bind (λ _, 0 ≤ len)).
  { intros o E. unfold slice in E. destruct (get_range _ _ _) eqn:Eg; [|done]. apply get_range_Some in Eg. lia. }
  intros o Hl. consumes.
Qed.

(** Two runs that agree and have not run out of fuel. *)
Definition both {B} (m1 m2 : Res (option B)) : Prop := m1 = m2 ∧ m1 ≠ mret None.

Lemma both_bind {A B} (P : A → Prop) (m : Res A) (f g : A → Res (option B)) :
  res_post P m → (∀ a, P a → both (f a) (g a)) → both (m ≫= f) (m ≫= g).
Proof. intros Hm Hf. destruct m as [[a|]|]; cbn; [|done..]. apply Hf. by apply Hm. Qed.

Lemma both_panic {B} : both (B := B) Panic Panic.
Proof. done. Qed.
Lemma both_some {B} (b : B) : both (mret (Some b)) (mret (Some b)).
Proof. done. Qed.
Lemma both_lift {A B} (m : Res A) (f : A → B) : both (a ← m; mret (Some (f a))) (a ← m; mret (Some (f a))).
Proof. by destruct m as [[a|]|]. Qed.

(** After a nested run that has not run out. *)
Lemma both_nested {A B} (m1 m2 : Res (option A)) (f : A → Res (option B)) :
  both m1 m2 → (∀ a, both (f a) (f a)) →
  both (r ← m1; match r with None => mret None | Some a => f a end) (r ← m2; match r with None => mret None | Some a => f a end).
Proof. intros [<- Hn] Hf. destruct m1 as [[[a|]|]|]; cbn; [apply Hf|done|done|done]. Qed.

Lemma get8_bound buf i : res_post (λ _, 0 ≤ i < zlen buf) (get8 buf i).
Proof.
  intros b E. unfold get8, lift in E. unfold index_get in E. destruct (i <? 0) eqn:?, (buf !! Z.to_nat i) eqn:Ei; try done.
  apply lookup_lt_Some in Ei. unfold zlen. lia.
Qed.

(** The rest of [decompress] after the next headers. *)
Lemma both_tail h (r : Z * Z * list Z) (buf : list Z) size (frag : bool) :
  let m := (let '(consumed, written, out_buf) := r in
     payload_len ← lift (if frag then us_sub size 40 else rest ← us_sub (zlen buf) consumed; n ← us_add written rest; us_sub n 40);
     out_buf ← encode_header (set_payload_len h (as_u16 payload_len)) out_buf;
     mret (Some (consumed, written, out_buf))) in both m m.
Proof.
  destruct r as [[consumed written] out_buf]. cbv zeta beta iota. eapply both_bind; [apply res_post_any|]. intros n _.
  exact (both_lift (encode_header (set_payload_len h (as_u16 n)) out_buf) (λ o, (consumed, written, o))).
Qed.

(** More fuel than twice the bytes that are left is never used up and changes
    nothing. *)
Lemma decompress_fuel_ext f1 :
  (∀ f2 buf src_mac dst_mac out size frag, (2 * length buf + 2 ≤ f1)%nat → (2 * length buf + 2 ≤ f2)%nat →
     both (decompress_from f1 s buf src_mac dst_mac out size frag) (decompress_from f2 s buf src_mac dst_mac out size frag)) ∧
  (∀ f2 h nh buf src_mac dst_mac out c w size frag, 0 ≤ c →
     2 * (zlen buf - c) + 1 ≤ Z.of_nat f1 → 2 * (zlen buf - c) + 1 ≤ Z.of_nat f2 → (1 ≤ f1)%nat → (1 ≤ f2)%nat →
     both (next_headers_from f1 s h nh buf src_mac dst_mac out c w size frag)
          (next_headers_from f2 s h nh buf src_mac dst_mac out c w size frag)).
Proof.
  induction f1 as [|f1 [IHd IHn]]; [split; intros; lia|]. split.
  - intros [|f2] buf src_mac dst_mac out size frag H1 H2; [lia|]. cbn [decompress_from].
    eapply both_bind; [apply get8_bound|]. intros x1 [_ Hl].
    eapply both_bind; [apply res_post_any|]. intros x2 _.
    eapply both_bind; [apply decompress_cie_consumes|]. intros [[? ?] n0] E0.
    eapply both_bind; [apply decompress_tf_consumes|]. intros [? n1] E1.
    eapply both_bind; [apply decompress_nh_consumes|]. intros [[is_nhc nh] n2] E2.
    eapply both_bind; [apply decompress_hl_consumes|]. intros [? n3] E3.
    eapply both_bind; [apply decompress_src_consumes|]. intros [? n4] E4.
    eapply (both_bind (λ r, n4 ≤ r.2));
      [destruct (negb _); [apply decompress_multicast_consumes|apply decompress_dst_consumes]|]. intros [h n5] E5.
    eapply both_bind; [apply res_post_any|]. intros nh' _. cbn [snd] in *.
    apply (both_nested _ _ _); [|intros r; apply both_tail]. destruct is_nhc; [|apply both_some].
    apply IHn; unfold zlen in *; lia.
  - intros [|f2] h nh buf src_mac dst_mac out c w size frag Hc H1 H2 H3 H4; [lia|]. cbn [next_headers_from].
    eapply both_bind; [apply get8_bound|]. intros x Hb.
    destruct (get_from out w) as [o|]; [|apply both_panic]. destruct (nh =? NH_IP6).
    + destruct (get_from buf (c + 1)) as [sub|] eqn:Es; [|apply both_panic].
      assert (Hs : zlen sub = zlen buf - (c + 1)) by (apply get_from_Some in Es as (? & ->); unfold zlen in *; rewrite length_drop; lia).
      apply both_nested; [|by intros [[? ?] ?]]. apply IHd; unfold zlen in *; lia.
    + destruct (nh =? NH_UDP); [apply (both_lift _ id)|]. destruct (is_ext_header nh); [|apply both_panic].
      eapply both_bind; [apply decompress_ext_consumes|]. intros [[[[is_nhc nh'] c'] w'] out'] Hc'.
      destruct is_nhc; [|apply both_some]. apply IHn; unfold zlen in *; lia.
Qed.
End Fuel.

(** C36.  The decompressor ends on every frame, well formed or not, in both builds: the
    loop over next headers and the recursion into encapsulated headers consume
    the buffer, so that twice its length and two rounds are never used up, and
    with any more the result is that of [decompress]. *)
Theorem decompress_terminates {Pr : Profile} {T} `{ContextStore T} (s : T) (fuel : nat) (buf : list Z) (src_mac dst_mac : MacAddress)
    (out : list Z) (size : Z) (frag : bool) :
  (2 * length buf + 2 ≤ fuel)%nat →
  decompress_from fuel s buf src_mac dst_mac out size frag ≠ mret None ∧
  decompress_from fuel s buf src_mac dst_mac out size frag =
    (r ← decompress s buf src_mac dst_mac out size frag; mret (Some r)).
Proof.
  intros Hf. destruct (proj1 (decompress_fuel_ext s fuel) (2 * length buf + 2)%nat buf src_mac dst_mac out size frag) as [E Hn]; [lia..|].
  split; [done|]. unfold decompress. rewrite <- E. by destruct (decompress_from fuel s buf src_mac dst_mac out size frag) as [[[r|]|]|].
Qed.

(** An IPv6 header in a destination options header in an IPv6 header. *)
Definition nested_frame : list Z :=
  [0x7e; 0x33; 0xe7; 7; 0; 0; 0; 0; 0; 0; 0; 0xee; 0x7e; 0x33; 0xf3; 0x12; 0; 0].

Lemma decompress_terminates_witness :
  decompress_from (Pr := release) 100 sample_ctx nested_frame (Short 1) (Short 2) (replicate 120 0) 0 false ≠ mret None ∧
  decompress_from (Pr := release) 100 sample_ctx nested_frame (Short 1) (Short 2) (replicate 120 0) 0 false =
    (r ← decompress (Pr := release) sample_ctx nested_frame (Short 1) (Short 2) (replicate 120 0) 0 false; mret (Some r)).
Proof. apply decompress_terminates. cbn. lia. Defined.

(** ** Frames that are not read back *)

(** A source address under a context with identifier 1. *)
Definition other_ctx : Context := mkContext [0x20; 0x01; 0x0d; 0xb8; 0; 0; 0; 1; 0; 0; 0; 0; 0; 0; 0; 0] 64 1 true.
#[local] Instance two_contexts : ContextStore unit := {
  get_context_from_addr _ ip :=
    if matches_prefix ip (prefix sample_ctx) 64 then Some sample_ctx
    else if matches_prefix ip (prefix other_ctx) 64 then Some other_ctx else None;
  get_context_from_id _ id := if id =? 0 then Some sample_ctx else if id =? 1 then Some other_ctx else None;
  get_context_from_prefix _ _ _ := None
}.
Definition other_header : IP6Header :=
  mkIP6 [0x60; 0; 0; 0] 0 59 64
    (take 8 (prefix other_ctx) ++ [1; 2; 3; 4; 5; 6; 7; 8]) [0xff; 2; 0; 0; 0; 0; 0; 0; 0; 0; 0; 0; 0; 0; 0; 1].

(** The compressor sets the bit for context identifiers in the second byte, the
    decompressor looks for it in the first: the byte of identifiers is read as
    the next header. *)
Example context_identifiers_misread :
  ∃ frame bytes,
    compress tt (mkPacket other_header (mkPayload (UDP sample_udp) [])) (Short 1) (Short 2) (replicate 13 0) = Ret (Some (40, 13), frame) ∧
    decompress (Pr := dev) tt frame (Short 1) (Short 2) (replicate 40 0) 0 false = Ret (Some (12, 40, bytes)) ∧
    bytes !! 6%nat = Some 16.
Proof. do 2 eexists. split; [vm_compute; reflexivity|]. split; vm_compute; reflexivity. Qed.

(** A destination port that is shortened alone is written one byte too far: the
    two bytes of the source port are followed by an old byte of the buffer. *)
Example destination_port_misplaced :
  let u := udp_set_len (set_dst_port (set_src_port UDPHeader_new 0x1234) 0x05f0) 8 in
  ∃ frame bytes,
    compress sample_ctx (mkPacket sample_header (mkPayload (UDP u) [])) (Short 1) (Short 2) (replicate 20 0) = Ret (Some (48, 17), frame) ∧
    decompress (Pr := dev) sample_ctx (take 17 frame) (Short 1) (Short 2) (replicate 48 0) 0 false = Ret (Some (17, 48, bytes)) ∧
    sub8 bytes 42 44 = [0; 0xf0].
Proof. do 2 eexists. split; [vm_compute; reflexivity|]. split; vm_compute; reflexivity. Qed.

(** The ports 0xf0b1 and 0xf0b2 in their short form come out with their bytes
    exchanged. *)
Example short_ports_exchanged :
  ∃ bytes, decompress (Pr := dev) sample_ctx [0x7e; 0x33; 0xf3; 0x12; 0; 0] (Short 1) (Short 2) (replicate 48 0) 0 false = Ret (Some (6, 48, bytes)) ∧
    sub8 bytes 40 44 = [0xb1; 0xf0; 0xb2; 0xf0].
Proof. eexists. split; vm_compute; reflexivity. Qed.

(** A context of fewer than 64 bits: the bits of a source address between the
    context and its interface identifier, here the subnet 7, are neither sent
    nor compared, and come out as zero. *)
Definition short_ctx : Context := mkContext (prefix sample_ctx) 48 0 true.
Definition subnet_header : IP6Header :=
  mkIP6 [0x60; 0; 0; 0] (to_be16 11) NH_UDP 64
    [0x20; 0x01; 0x0d; 0xb8; 0; 0; 0; 7; 1; 2; 3; 4; 5; 6; 7; 8] (dst_addr sample_header).
Example short_context_loses_subnet :
  ∃ frame bytes,
    compress short_ctx (mkPacket subnet_header (mkPayload (UDP sample_udp) [])) (Short 1) (Short 2) (replicate 48 0) = Ret (Some (48, 18), frame) ∧
    decompress (Pr := dev) short_ctx (take 18 frame) (Short 1) (Short 2) (replicate 48 0) 0 false = Ret (Some (18, 48, bytes)) ∧
    sub8 bytes 8 24 = [0x20; 0x01; 0x0d; 0xb8; 0; 0; 0; 0; 1; 2; 3; 4; 5; 6; 7; 8].
Proof. do 2 eexists. split; [vm_compute; reflexivity|]. split; vm_compute; reflexivity. Qed.

(** An extension header that fills its eight bytes and one shorter than six make
    the decompressor panic with overflow checks, a frame of one byte in any
    build; without the checks two bytes of padding are written behind the first. *)
Example decompress_panics :
  decompress (Pr := dev) sample_ctx [0x7e; 0x33; 0xe6; 6; 0; 0; 0; 0; 0; 0; 59; 0] (Short 1) (Short 2) (replicate 60 0) 0 false = Panic ∧
  decompress (Pr := dev) sample_ctx [0x7e; 0x33; 0xe6; 2; 0; 0; 59; 0] (Short 1) (Short 2) (replicate 60 0) 0 false = Panic ∧
  (∀ Pr, decompress (Pr := Pr) sample_ctx [0x7e] (Short 1) (Short 2) (replicate 60 0) 0 false = Panic) ∧
  match decompress (Pr := release) sample_ctx [0x7e; 0x33; 0xe6; 6; 0; 0; 0; 0; 0; 0; 59; 0] (Short 1) (Short 2) (replicate 60 0) 0 false with
  | Ret (Some (_, 48, bytes)) => sub8 bytes 48 50 = [1; 254]
  | _ => False
  end.
Proof. split_and!; [| |intros []|]; vm_compute; reflexivity. Qed.
