(* ===== verification/Crc32.v ===== *)
(** * The checksum of TicKV objects: libraries/tickv/src/crc32.rs

    The table-driven CRC-32 (polynomial 0x04c11db7, no reflection), and the
    equivalence of its byte-at-a-time update with the bit-serial shift register
    that defines the code. *)

From S2P Require Import Prelude.

(** ** The code *)

Abbreviation CRC_POLY := 0x04c11db7 (only parsing).

(** [reflect_8] and [reflect_32]; no shift here loses a bit. *)
Definition reflect_8 (b : Z) : Z :=
  let b := Z.lor (Z.shiftr (Z.land b 0xF0) 4) (Z.shiftl (Z.land b 0x0F) 4) in
  let b := Z.lor (Z.shiftr (Z.land b 0xCC) 2) (Z.shiftl (Z.land b 0x33) 2) in
  Z.lor (Z.shiftr (Z.land b 0xAA) 1) (Z.shiftl (Z.land b 0x55) 1).

Definition reflect_32 (b : Z) : Z :=
  let b := Z.lor (Z.shiftr (Z.land b 0xFFFF0000) 16) (Z.shiftl (Z.land b 0x0000FFFF) 16) in
  let b := Z.lor (Z.shiftr (Z.land b 0xFF00FF00) 8) (Z.shiftl (Z.land b 0x00FF00FF) 8) in
  let b := Z.lor (Z.shiftr (Z.land b 0xF0F0F0F0) 4) (Z.shiftl (Z.land b 0x0F0F0F0F) 4) in
  let b := Z.lor (Z.shiftr (Z.land b 0xCCCCCCCC) 2) (Z.shiftl (Z.land b 0x33333333) 2) in
  Z.lor (Z.shiftr (Z.land b 0xAAAAAAAA) 1) (Z.shiftl (Z.land b 0x55555555) 1).

(** [<<] on a [u32] drops the bits shifted out. *)
Definition poly_sum_crc32 (poly value : Z) : Z :=
  Z.lxor (wrap32 (Z.shiftl value 1)) (Z.shiftr value 31 * poly).

(** The two reflections are computed and then not selected, as in the source. *)
Definition crc32 (poly byte : Z) : Z :=
  let byte := nth 0 [byte; reflect_8 byte] 0 in
  let value := Z.shiftl byte 24 in
  let value := poly_sum_crc32 poly value in
  let value := poly_sum_crc32 poly value in
  let value := poly_sum_crc32 poly value in
  let value := poly_sum_crc32 poly value in
  let value := poly_sum_crc32 poly value in
  let value := poly_sum_crc32 poly value in
  let value := poly_sum_crc32 poly value in
  let value := poly_sum_crc32 poly value in
  nth 0 [value; reflect_32 value] 0.

Definition CRC_TABLE : list Z := crc32 CRC_POLY <$> seqZ 0 256.

(** The index is masked to the size of the table, so it never panics
    ([table_entry_crc32]). *)
Definition table_entry (index : Z) : Z := nth (Z.to_nat (Z.land index 0xFF)) CRC_TABLE 0.

(** One iteration of [Crc::update], and the loop. *)
Definition crc_update_byte (crc byte : Z) : Z :=
  Z.lxor (table_entry (Z.lxor byte (Z.shiftr crc 24))) (wrap32 (Z.shiftl crc 8)).
Definition crc_update (crc : Z) (bytes : list Z) : Z := foldl crc_update_byte crc bytes.
Definition crc_init : Z := 0.
Definition crc_finalise (crc : Z) : Z := Z.lxor crc 0xffffffff.

(** ** Reference: the shift register

    Message bits enter one at a time, most significant bit of each byte first;
    the register is divided by the polynomial as they do. *)

Definition crc_bit (crc : Z) (bit : bool) : Z :=
  Z.lxor (wrap32 (Z.shiftl crc 1)) (if xorb (Z.testbit crc 31) bit then CRC_POLY else 0).

Fixpoint bits_msb (n : nat) (x : Z) : list bool :=
  match n with O => [] | S n => Z.testbit x (Z.of_nat n) :: bits_msb n x end.

Definition crc_reference (bytes : list Z) : Z :=
  Z.lxor (foldl crc_bit 0 (bytes ≫= bits_msb 8)) 0xffffffff.

(** ** Equivalence *)

Local Abbreviation step := (poly_sum_crc32 CRC_POLY).

Lemma wrap32_bits z i : 0 ≤ i → Z.testbit (wrap32 z) i = (i <? 32) && Z.testbit z i.
Proof.
  intros Hi. unfold wrap32. change 4294967296 with (2 ^ 32).
  destruct (Z.ltb_spec i 32); [by rewrite Z.mod_pow2_bits_low|by rewrite Z.mod_pow2_bits_high by lia].
Qed.

Lemma in_usize_bits z : in_usize z ↔ 0 ≤ z ∧ ∀ i, 32 ≤ i → Z.testbit z i = false.
Proof.
  unfold in_usize. split.
  - intros Hz. split; [lia|]. intros i Hi.
    apply Z.bits_above_log2; [lia|]. destruct (decide (z = 0)) as [->|]; [simpl; lia|].
    assert (Z.log2 z < 32); [apply Z.log2_lt_pow2; lia|lia].
  - intros [H0 Hb]. split; [done|]. replace z with (wrap32 z).
    + apply Z.mod_pos_bound. lia.
    + apply Z.bits_inj'. intros i Hi. rewrite wrap32_bits by done.
      destruct (Z.ltb_spec i 32); [done|]. by rewrite Hb.
Qed.

Lemma in_usize_lxor a b : in_usize a → in_usize b → in_usize (Z.lxor a b).
Proof.
  rewrite !in_usize_bits. intros [Ha Hab] [Hb Hbb]. split; [by apply Z.lxor_nonneg|].
  intros i Hi. by rewrite Z.lxor_spec, Hab, Hbb.
Qed.

Lemma in_usize_wrap32 z : in_usize (wrap32 z).
Proof. unfold in_usize, wrap32. apply Z.mod_pos_bound. lia. Qed.

(** The feedback term as a choice on the top bit. *)
Lemma step_bit x : in_usize x → step x = crc_bit x false.
Proof.
  intros Hx. unfold poly_sum_crc32, crc_bit. rewrite xorb_false_r. f_equal.
  assert (Z.shiftr x 31 = Z.b2z (Z.testbit x 31)) as ->.
  { rewrite Z.testbit_spec' by lia. rewrite Z.shiftr_div_pow2 by lia. unfold in_usize in Hx.
    rewrite Z.mod_small; [done|]. split; [apply Z.div_pos; lia|apply Z.div_lt_upper_bound; lia]. }
  by destruct (Z.testbit x 31).
Qed.

Lemma crc_bit_in_usize x b : in_usize (crc_bit x b).
Proof.
  unfold crc_bit. apply in_usize_lxor; [apply in_usize_wrap32|].
  unfold in_usize. destruct (xorb _ _); lia.
Qed.

(** The register is linear in its contents and the incoming bit. *)
Lemma crc_bit_lxor a b x y :
  crc_bit (Z.lxor a b) (xorb x y) = Z.lxor (crc_bit a x) (crc_bit b y).
Proof.
  unfold crc_bit. rewrite Z.lxor_spec.
  apply Z.bits_inj'. intros i Hi. rewrite !Z.lxor_spec, !wrap32_bits, !Z.shiftl_spec, Z.lxor_spec by done.
  destruct (i <? 32), (Z.testbit a 31), (Z.testbit b 31), x, y, (Z.testbit a (i - 1)),
    (Z.testbit b (i - 1)); cbn [xorb andb]; rewrite ?Z.bits_0;
    by destruct (Z.testbit 79764919 i).
Qed.

Lemma crc_bit_lxor_false a b :
  crc_bit (Z.lxor a b) false = Z.lxor (crc_bit a false) (crc_bit b false).
Proof. exact (crc_bit_lxor a b false false). Qed.

(** A register whose top bit is clear just shifts. *)
Lemma crc_bit_shift x : 0 ≤ x < 2 ^ 31 → crc_bit x false = Z.shiftl x 1.
Proof.
  intros Hx. unfold crc_bit. rewrite xorb_false_r.
  assert (Z.testbit x 31 = false) as ->.
  { apply Z.testbit_false; [lia|]. by rewrite Z.div_small by lia. }
  rewrite Z.lxor_0_r. unfold wrap32. rewrite Z.shiftl_mul_pow2 by lia. apply Z.mod_small. lia.
Qed.

Lemma crc_bit_top : crc_bit (Z.shiftl 1 31) true = 0.
Proof. reflexivity. Qed.

(** A bit fed into the register is a bit added to its top beforehand. *)
Lemma crc_bit_feed c b : crc_bit c b = crc_bit (Z.lxor c (Z.shiftl (Z.b2z b) 31)) false.
Proof.
  destruct b; [|by rewrite Z.lxor_0_r].
  change false with (xorb true true). rewrite crc_bit_lxor. change (Z.b2z true) with 1.
  by rewrite crc_bit_top, Z.lxor_0_r.
Qed.

(** A number of [S n] bits is its top bit and its low [n] bits. *)
Lemma split_top_bit n x :
  0 ≤ x < 2 ^ Z.of_nat (S n) →
  x = Z.lxor (Z.shiftl (Z.b2z (Z.testbit x (Z.of_nat n))) (Z.of_nat n)) (x mod 2 ^ Z.of_nat n).
Proof.
  intros Hx. apply Z.bits_inj'. intros i Hi. rewrite Z.lxor_spec, Z.shiftl_spec by done.
  destruct (Z.lt_trichotomy i (Z.of_nat n)) as [Hlt|[->|Hgt]].
  - rewrite Z.mod_pow2_bits_low, (Z.testbit_neg_r _ (i - Z.of_nat n)) by lia. done.
  - rewrite Z.mod_pow2_bits_high, Z.sub_diag, xorb_false_r by lia.
    by destruct (Z.testbit x (Z.of_nat n)).
  - rewrite Z.mod_pow2_bits_high, xorb_false_r by lia.
    assert (Z.testbit x i = false) as ->.
    { apply Z.testbit_false; [lia|]. rewrite Z.div_small; [done|].
      split; [lia|]. eapply Z.lt_le_trans; [apply Hx|apply Z.pow_le_mono_r; lia]. }
    destruct (Z.testbit x (Z.of_nat n)); cbn [Z.b2z]; [|by rewrite Z.bits_0].
    symmetry. apply Z.bits_above_log2; simpl; lia.
Qed.

Lemma bits_msb_mod n k x : (k ≤ n)%nat → bits_msb k (x mod 2 ^ Z.of_nat n) = bits_msb k x.
Proof.
  induction k as [|k IH]; intros Hk; [done|]. cbn [bits_msb].
  by rewrite Z.mod_pow2_bits_low, IH by lia.
Qed.

(** A run of bits added to the top and shifted out, or fed in one by one. *)
Lemma feed_bits n c x :
  (n ≤ 32)%nat → 0 ≤ x < 2 ^ Z.of_nat n →
  Nat.iter n (λ c, crc_bit c false) (Z.lxor c (Z.shiftl x (32 - Z.of_nat n))) =
  foldl crc_bit c (bits_msb n x).
Proof.
  revert c x. induction n as [|n IH]; intros c x Hn Hx.
  { assert (x = 0) as -> by lia. by rewrite Z.shiftl_0_l, Z.lxor_0_r. }
  rewrite Nat.iter_succ_r. cbn [bits_msb foldl]. set (top := Z.testbit x (Z.of_nat n)).
  pose proof (split_top_bit n x Hx) as Hs. fold top in Hs. set (rest := x mod 2 ^ Z.of_nat n) in *.
  assert (Hr : 0 ≤ rest < 2 ^ Z.of_nat n) by (apply Z.mod_pos_bound; lia).
  rewrite <- (bits_msb_mod n n x) by done. fold rest. rewrite <- IH by lia. f_equal.
  rewrite Hs at 1. rewrite Z.shiftl_lxor, Z.shiftl_shiftl, <- Z.lxor_assoc by lia.
  replace (Z.of_nat n + (32 - Z.of_nat (S n))) with 31 by lia.
  rewrite (crc_bit_feed c), crc_bit_lxor_false. f_equal. rewrite crc_bit_shift.
  - rewrite Z.shiftl_shiftl by lia. f_equal. lia.
  - rewrite Z.shiftl_mul_pow2 by lia. split; [lia|].
    replace (2 ^ 31) with (2 ^ Z.of_nat n * 2 ^ (32 - Z.of_nat (S n))).
    + apply Z.mul_lt_mono_pos_r; lia.
    + rewrite <- Z.pow_add_r by lia. f_equal. lia.
Qed.

(** A clear top: [n] steps shift the low bits up. *)
Lemma iter_shift n x :
  (n ≤ 32)%nat → 0 ≤ x < 2 ^ (32 - Z.of_nat n) →
  Nat.iter n (λ c, crc_bit c false) x = Z.shiftl x (Z.of_nat n).
Proof.
  intros Hn Hx. induction n as [|n IH]; [by rewrite Z.shiftl_0_r|].
  assert (2 ^ (32 - Z.of_nat (S n)) * 2 = 2 ^ (32 - Z.of_nat n)) as Hp.
  { replace (32 - Z.of_nat n) with (32 - Z.of_nat (S n) + 1) by lia. rewrite Z.pow_add_r by lia. lia. }
  rewrite Nat.iter_succ, IH by lia. rewrite crc_bit_shift.
  - rewrite Z.shiftl_shiftl by lia. f_equal. lia.
  - rewrite Z.shiftl_mul_pow2 by lia. split; [lia|].
    replace (2 ^ 31) with (2 ^ (32 - Z.of_nat (S n)) * 2 ^ Z.of_nat n).
    + apply Z.mul_lt_mono_pos_r; lia.
    + rewrite <- Z.pow_add_r by lia. f_equal. lia.
Qed.

Lemma iter_lxor n a b :
  Nat.iter n (λ c, crc_bit c false) (Z.lxor a b) =
  Z.lxor (Nat.iter n (λ c, crc_bit c false) a) (Nat.iter n (λ c, crc_bit c false) b).
Proof.
  induction n as [|n IH]; [done|]. rewrite !Nat.iter_succ, IH.
  apply crc_bit_lxor_false.
Qed.

(** The table entry of a byte is the register after eight steps. *)
Lemma crc32_iter byte :
  0 ≤ byte < 256 →
  crc32 CRC_POLY byte = Nat.iter 8 (λ c, crc_bit c false) (Z.shiftl byte 24).
Proof.
  intros Hb. unfold crc32. cbn [nth Nat.iter nat_rect].
  assert (in_usize (Z.shiftl byte 24)) by (rewrite Z.shiftl_mul_pow2 by lia; unfold in_usize; lia).
  rewrite (step_bit (Z.shiftl byte 24)) by done.
  do 7 (rewrite (step_bit (crc_bit _ _)) by apply crc_bit_in_usize). done.
Qed.

Lemma table_entry_crc32 i : table_entry i = crc32 CRC_POLY (Z.land i 0xFF).
Proof.
  unfold table_entry, CRC_TABLE. change 0xFF with (Z.ones 8). rewrite Z.land_ones by lia.
  assert (0 ≤ i mod 2 ^ 8 < 256) by (apply Z.mod_pos_bound; lia).
  rewrite nth_lookup, list_lookup_fmap, lookup_seqZ_lt by lia. simpl. f_equal. lia.
Qed.

Lemma lxor_byte a b : 0 ≤ a < 256 → 0 ≤ b < 256 → 0 ≤ Z.lxor a b < 256.
Proof.
  intros Ha Hb. assert (0 ≤ Z.lxor a b) by (apply Z.lxor_nonneg; lia).
  apply (Z.bounded_iff_bits_nonneg' 8); [done..|]. intros i Hi. rewrite Z.lxor_spec.
  apply (Z.bounded_iff_bits_nonneg' 8 a) with (l := i) in Ha as ->; [|lia..].
  by apply (Z.bounded_iff_bits_nonneg' 8 b) with (l := i) in Hb as ->; [|lia..].
Qed.

(** One table lookup does what eight message bits do. *)
Lemma crc_update_byte_bits crc byte :
  in_usize crc → 0 ≤ byte < 256 →
  crc_update_byte crc byte = foldl crc_bit crc (bits_msb 8 byte).
Proof.
  intros Hc Hb. unfold in_usize in Hc. unfold crc_update_byte. rewrite table_entry_crc32.
  set (hi := Z.shiftr crc 24). set (lo := crc mod 2 ^ 24).
  assert (Hlo : 0 ≤ lo < 2 ^ 24) by (apply Z.mod_pos_bound; lia).
  assert (Hhi : 0 ≤ hi < 256).
  { subst hi. rewrite Z.shiftr_div_pow2 by lia.
    split; [apply Z.div_pos; lia|apply Z.div_lt_upper_bound; lia]. }
  assert (Hcrc : crc = Z.lxor (Z.shiftl hi 24) lo).
  { subst hi lo. apply Z.bits_inj'. intros i Hi.
    rewrite Z.lxor_spec, Z.shiftl_spec by done. destruct (decide (i < 24)).
    - by rewrite Z.mod_pow2_bits_low, (Z.testbit_neg_r _ (i - 24)), xorb_false_l by lia.
    - rewrite Z.mod_pow2_bits_high, Z.shiftr_spec, xorb_false_r by lia. f_equal. lia. }
  assert (Hx : 0 ≤ Z.lxor byte hi < 256).
  { by apply lxor_byte. }
  change 0xFF with (Z.ones 8). rewrite Z.land_ones, Z.mod_small, crc32_iter by lia.
  rewrite <- (feed_bits 8 crc byte) by (simpl; lia).
  rewrite Hcrc at 2. change (32 - Z.of_nat 8) with 24.
  rewrite (Z.lxor_comm (Z.shiftl hi 24)), Z.lxor_assoc, <- Z.shiftl_lxor, (Z.lxor_comm hi).
  rewrite (Z.lxor_comm lo), iter_lxor. f_equal.
  rewrite iter_shift by (simpl; lia). change (Z.of_nat 8) with 8.
  apply Z.bits_inj'. intros i Hi. rewrite wrap32_bits, !Z.shiftl_spec by lia. subst lo.
  destruct (Z.ltb_spec i 32); cbn [andb].
  - destruct (decide (i < 8)); [by rewrite !Z.testbit_neg_r by lia|].
    by rewrite Z.mod_pow2_bits_low by lia.
  - by rewrite Z.mod_pow2_bits_high by lia.
Qed.

Lemma crc_bits_in_usize c bits : in_usize c → in_usize (foldl crc_bit c bits).
Proof. revert c. induction bits as [|b bits IH]; intros c Hc; [done|]. apply IH, crc_bit_in_usize. Qed.

Lemma crc_update_bits crc bytes :
  in_usize crc → Forall (λ b, 0 ≤ b < 256) bytes →
  crc_update crc bytes = foldl crc_bit crc (bytes ≫= bits_msb 8).
Proof.
  intros Hc Hb. revert crc Hc. induction Hb as [|b bytes Hb _ IH]; intros crc Hc; [done|].
  cbn [crc_update foldl]. rewrite bind_cons, foldl_app. rewrite crc_update_byte_bits by done.
  by apply IH, crc_bits_in_usize.
Qed.

(** C31.  The checksum the table-driven code computes over any bytes is the
    CRC-32 of the bit-serial shift register with polynomial 0x04c11db7, and
    updating over two pieces in turn is updating over their concatenation, as
    the callers that hash header and value separately rely on. *)
Theorem crc32_is_bit_serial (header value : list Z) :
  Forall (λ b, 0 ≤ b < 256) (header ++ value) →
  crc_finalise (crc_update (crc_update crc_init header) value) = crc_reference (header ++ value).
Proof.
  intros Hb. unfold crc_finalise, crc_reference. f_equal.
  rewrite <- (crc_update_bits 0) by (done || (unfold in_usize; lia)).
  unfold crc_update. by rewrite foldl_app.
Qed.

Lemma crc32_is_bit_serial_witness :
  crc_finalise (crc_update (crc_update crc_init [1; 128; 15]) [0x7b; 0xc9]) =
  crc_reference [1; 128; 15; 0x7b; 0xc9].
Proof.
  apply (crc32_is_bit_serial [1; 128; 15] [0x7b; 0xc9]).
  repeat (constructor; [lia|]). constructor.
Defined.

(** The object the tests of the library expect for the main key: checksum
    bytes [bb 32 74 1d], least significant first. *)
Example crc32_main_key :
  crc_finalise (crc_update crc_init [1; 0x80; 15; 0x7b; 0xc9; 0xf7; 0xff; 0x4f; 0x76; 0xf2; 0x44])
  = 0x1d7432bb.
Proof. vm_compute. reflexivity. Qed.
