(* ===== verification/Tickv.v ===== *)
(** * The key-value store: libraries/tickv

    tickv.rs, the operations on flash regions; error_codes.rs, success_codes.rs
    and flash_controller.rs, the interface to the flash; async_ops.rs, the
    split-phase front end.

    Flash is divided into regions of [Sz] bytes (the const parameter [S]); an
    object is a header, a value and a checksum, appended to the region its hash
    selects or to a neighbour of it.  The store keeps one read buffer, which
    every operation takes and puts back; an early return through [?] leaves it
    taken.  Offsets stay below [Sz] plus the 12 bits of an object's length, so
    the sums of offsets below cannot overflow.

    The file defines the model; its theorems are in TickvLog.v (the format of a
    region) and TickvTheorems.v. *)

From S2P Require Import Prelude Bytes Crc32.

(** ** Codes *)

Inductive SuccessCode : Type := Complete | Written | Queued.

Inductive ErrorCode : Type :=
| UnsupportedVersion
| CorruptData
| InvalidCheckSum
| KeyNotFound
| KeyAlreadyExists
| RegionFull
| FlashFull
| ReadFail
| WriteFail
| EraseFail
| ObjectTooLarge
| BufferTooSmall (value_length : Z)
| ReadNotReady (region : Z)
| WriteNotReady (region : Z)
| EraseNotReady (region : Z).

#[export] Instance SuccessCode_eq_dec : EqDecision SuccessCode.
Proof. solve_decision. Defined.
#[export] Instance ErrorCode_eq_dec : EqDecision ErrorCode.
Proof. solve_decision. Defined.

(** ** States *)

Inductive InitState : Type :=
| GetKeyReadRegion (region : Z)
| InitEraseRegion (region : Z)
| EraseComplete
| AppendKeyReadRegion (region : Z).

Inductive KeyState : Type := ReadRegion (region : Z).

Inductive RubbishState : Type :=
| RubbishReadRegion (region flash_freed : Z)
| RubbishEraseRegion (region flash_freed : Z).

Inductive State : Type :=
| StateNone
| StateInit (s : InitState)
| StateAppendKey (s : KeyState)
| StateGetKey (s : KeyState)
| StateInvalidateKey (s : KeyState)
| StateGarbageCollect (s : RubbishState).

#[export] Instance InitState_eq_dec : EqDecision InitState.
Proof. solve_decision. Defined.
#[export] Instance KeyState_eq_dec : EqDecision KeyState.
Proof. solve_decision. Defined.
#[export] Instance RubbishState_eq_dec : EqDecision RubbishState.
Proof. solve_decision. Defined.
#[export] Instance State_eq_dec : EqDecision State.
Proof. solve_decision. Defined.

(** ** The flash controller *)

(** The trait [FlashController<S>].  [read_region] takes and returns the buffer
    it fills. *)
Class FlashController (C : Type) := {
  read_region : Z → Z → list Z → C → result unit ErrorCode * list Z * C;
  flash_write : Z → list Z → C → result unit ErrorCode * C;
  erase_region : Z → C → result unit ErrorCode * C
}.

Record TicKV (C : Type) := mkTicKV {
  controller : C;
  flash_size : Z;
  read_buffer : option (list Z);
  state : State
}.
Arguments mkTicKV {C}.
Arguments controller {C}.
Arguments flash_size {C}.
Arguments read_buffer {C}.
Arguments state {C}.

(** [TicKV::new]. *)
Definition TicKV_new {C} (controller : C) (read_buffer : list Z) (flash_size : Z) : TicKV C :=
  mkTicKV controller flash_size (Some read_buffer) StateNone.

(** ** Objects *)

Definition VERSION : Z := 1.
Definition FLAGS_VALID : Z := 8.
Definition VERSION_OFFSET : Z := 0.
Definition LEN_OFFSET : Z := 1.
Definition HASH_OFFSET : Z := 3.
Definition HEADER_LENGTH : Z := HASH_OFFSET + 8.
Definition CHECK_SUM_LEN : Z := 4.

Record ObjectHeader := mkObjectHeader {
  hd_version : Z; hd_flags : Z; hd_len : Z; hd_hashed_key : Z
}.

(** [ObjectHeader::new]. *)
Definition ObjectHeader_new (hashed_key len : Z) : outcome ObjectHeader :=
  if len <? 0xFFF then Ret (mkObjectHeader VERSION FLAGS_VALID len hashed_key) else Panic.

(** ** Computations on the store

    A computation returns a value and the store, panics, or runs out of the fuel
    of its loops. *)

Inductive run (T A : Type) : Type :=
| Done (a : A) (t : T)
| Crash
| NoFuel.
Arguments Done {T A}.
Arguments Crash {T A}.
Arguments NoFuel {T A}.

Definition M (C A : Type) : Type := TicKV C → run (TicKV C) A.

#[export] Instance M_ret C : MRet (M C) := fun A a t => Done a t.
#[export] Instance M_bind C : MBind (M C) := fun A B f m t =>
  match m t with Done a t' => f a t' | Crash => Crash | NoFuel => NoFuel end.

Definition crash {C A} : M C A := fun _ => Crash.
Definition no_fuel {C A} : M C A := fun _ => NoFuel.
Definition of_outcome {C A} (o : outcome A) : M C A :=
  match o with Ret a => mret a | Panic => crash end.
Definition of_fuel {C A} (o : option A) : M C A :=
  match o with Some a => mret a | None => no_fuel end.

(** [self.state.get()] and [set]; [self.read_buffer.take().unwrap()] and
    [replace(Some(..))]. *)
Definition get_state {C} : M C State := fun t => Done (state t) t.
Definition set_state {C} (s : State) : M C unit := fun t =>
  Done () (mkTicKV (controller t) (flash_size t) (read_buffer t) s).
Definition take_buffer {C} : M C (list Z) := fun t =>
  match read_buffer t with
  | Some b => Done b (mkTicKV (controller t) (flash_size t) None (state t))
  | None => Crash
  end.
Definition put_buffer {C} (b : list Z) : M C unit := fun t =>
  Done () (mkTicKV (controller t) (flash_size t) (Some b) (state t)).
Definition get_flash_size {C} : M C Z := fun t => Done (flash_size t) t.

(** The calls of the controller. *)
Definition ctl_read `{!FlashController C} (region offset : Z) (buf : list Z)
    : M C (result unit ErrorCode * list Z) := fun t =>
  let '(r, b, c) := read_region region offset buf (controller t) in
  Done (r, b) (mkTicKV c (flash_size t) (read_buffer t) (state t)).
Definition ctl_write `{!FlashController C} (address : Z) (buf : list Z)
    : M C (result unit ErrorCode) := fun t =>
  let '(r, c) := flash_write address buf (controller t) in
  Done r (mkTicKV c (flash_size t) (read_buffer t) (state t)).
Definition ctl_erase `{!FlashController C} (region : Z) : M C (result unit ErrorCode) := fun t =>
  let '(r, c) := erase_region region (controller t) in
  Done r (mkTicKV c (flash_size t) (read_buffer t) (state t)).

(** [data.get(i)]; the offsets are never negative. *)
Definition get (data : list Z) (i : Z) : option Z := data !! Z.to_nat i.

(** Bytes of a [u64]. *)
Definition byte_at (h k : Z) : Z := Z.land (Z.shiftr h (8 * k)) 0xFF.

(** The 12-bit length of the entry at [offset], from its two bytes. *)
Definition entry_length (b1 b2 : Z) : Z :=
  Z.lor (Z.shiftl (Z.land b1 (Z.lnot 0xF0)) 8) b2.

Section tickv.
Context {C : Type} `{!FlashController C}.
(** The size of a region, and fuel for every loop of an operation. *)
Context (Sz : Z) (fuel : nat).

(** [num_region]: a division by the const parameter. *)
Definition num_region (flash_size : Z) : Z := flash_size / Sz.

(** [get_region]. *)
Definition get_region (flash_size hash : Z) : outcome Z :=
  if (hash =? 0xFFFFFFFFFFFFFFFF) || (hash =? 0) then Panic else
  urem (Z.land (wrap32 hash) 0xFFFF) (num_region flash_size).

(** One iteration of the loop of [increment_region_offset] computes this. *)
Definition next_offset (new_offset : Z) : Z :=
  if new_offset =? 0 then 1 else if 0 <? new_offset then - new_offset else - new_offset + 1.

(** The loop of [increment_region_offset]; [None] is out of fuel. *)
Fixpoint increment_loop (k : nat) (flash_size region : Z) (too_big too_small : bool)
    (new_offset : Z) : option (option Z) :=
  match k with
  | O => None
  | S k =>
      if negb too_big || negb too_small then
        let new_offset := next_offset new_offset in
        if num_region flash_size - 1 <? region + new_offset then
          increment_loop k flash_size region true too_small new_offset
        else if region + new_offset <? 0 then
          increment_loop k flash_size region too_big true new_offset
        else Some (Some new_offset)
      else Some None
  end.

Definition increment_region_offset (flash_size region region_offset : Z) : option (option Z) :=
  increment_loop fuel flash_size region false false region_offset.

(** The comparison of the eight bytes of the hash, most significant first,
    which stops at the first difference; [None] is a byte out of range. *)
Fixpoint hash_matches (hash : Z) (region_data : list Z) (at_ : Z) (k : nat) : option bool :=
  match k with
  | O => Some true
  | S k' =>
      match get region_data (at_ + (8 - Z.of_nat k)) with
      | None => None
      | Some b => if b =? byte_at hash (Z.of_nat k') then hash_matches hash region_data at_ k'
                  else Some false
      end
  end.

(** The loop of [find_key_offset]; the outer [None] is out of fuel. *)
Fixpoint find_loop (k : nat) (hash : Z) (region_data : list Z) (offset : Z) (empty : bool)
    : option (result (Z * Z) (bool * ErrorCode)) :=
  match k with
  | O => None
  | S k =>
      if Sz <=? offset + HEADER_LENGTH then Some (Err (false, KeyNotFound)) else
      match get region_data (offset + VERSION_OFFSET) with
      | None => Some (Err (false, KeyNotFound))
      | Some v =>
          if v =? 0xFF then Some (Err (negb empty, KeyNotFound)) else
          if negb (v =? VERSION) then Some (Err (false, UnsupportedVersion)) else
          match get region_data (offset + LEN_OFFSET),
                get region_data (offset + LEN_OFFSET + 1) with
          | Some b1, Some b2 =>
              let total_length := entry_length b1 b2 in
              if total_length =? 0 then Some (Err (false, KeyNotFound)) else
              if negb (Z.land b1 0x80 =? 0x80) then
                find_loop k hash region_data (offset + total_length) false
              else
                match hash_matches hash region_data (offset + HASH_OFFSET) 8 with
                | None => Some (Err (false, CorruptData))
                | Some false => find_loop k hash region_data (offset + total_length) false
                | Some true => Some (Ok (offset, total_length))
                end
          | _, _ => Some (Err (false, CorruptData))
          end
      end
  end.

Definition find_key_offset (hash : Z) (region_data : list Z)
    : option (result (Z * Z) (bool * ErrorCode)) :=
  find_loop fuel hash region_data 0 true.

(** ** [append_key] *)

(** The inner loop: where the region's entries end.  [ScanLost] is an error
    returned through [?], after which the buffer is not put back. *)
Inductive scan : Type :=
| ScanNextRegion
| ScanSpot (offset : Z)
| ScanErr (e : ErrorCode)
| ScanLost (e : ErrorCode).

(** The check that the eight bytes of the hash are erased. *)
Fixpoint hash_erased (region_data : list Z) (at_ : Z) (k : nat) : option bool :=
  match k with
  | O => Some true
  | S k' =>
      match get region_data (at_ + (8 - Z.of_nat k)) with
      | None => None
      | Some b => if b =? 0xFF then hash_erased region_data at_ k' else Some false
      end
  end.

Fixpoint scan_loop (k : nat) (package_length : Z) (region_data : list Z) (offset : Z)
    : option scan :=
  match k with
  | O => None
  | S k =>
      if Sz <=? offset + package_length then Some ScanNextRegion else
      match get region_data (offset + VERSION_OFFSET) with
      | None => Some (ScanLost KeyNotFound)
      | Some v =>
          if negb (v =? 0xFF) then
            if negb (v =? VERSION) then Some (ScanErr UnsupportedVersion) else
            match get region_data (offset + LEN_OFFSET),
                  get region_data (offset + LEN_OFFSET + 1) with
            | Some b1, Some b2 =>
                scan_loop k package_length region_data (offset + entry_length b1 b2)
            | _, _ => Some (ScanLost CorruptData)
            end
          else
            match hash_erased region_data (offset + HASH_OFFSET) 8 with
            | None => Some (ScanLost CorruptData)
            | Some false => Some (ScanErr CorruptData)
            | Some true => Some (ScanSpot offset)
            end
      end
  end.

(** [*data.get_mut(i).ok_or(RegionFull)? = v] for each of a list of bytes. *)
Fixpoint put_bytes (data : list Z) (at_ : Z) (bytes : list Z) : option (list Z) :=
  match bytes with
  | [] => Some data
  | b :: bytes =>
      if at_ <? zlen data then put_bytes (<[Z.to_nat at_ := b]> data) (at_ + 1) bytes else None
  end.

(** [data.get_mut(lo..hi).ok_or(ObjectTooLarge)?.copy_from_slice(bytes)]. *)
Definition put_slice (data : list Z) (lo hi : Z) (bytes : list Z) : option (list Z) :=
  if (0 <=? lo) && (lo <=? hi) && (hi <=? zlen data)
  then Some (take (Z.to_nat lo) data ++ bytes ++ drop (Z.to_nat hi) data) else None.

(** The eleven bytes of the header, in the order they are stored. *)
Definition header_bytes (h : ObjectHeader) : list Z :=
  [hd_version h;
   Z.lor (Z.land (Z.shiftr (hd_len h) 8) 0x0F) (Z.land (Z.shiftl (hd_flags h) 4) 0xF0);
   Z.land (hd_len h) 0xFF;
   byte_at (hd_hashed_key h) 7; byte_at (hd_hashed_key h) 6; byte_at (hd_hashed_key h) 5;
   byte_at (hd_hashed_key h) 4; byte_at (hd_hashed_key h) 3; byte_at (hd_hashed_key h) 2;
   byte_at (hd_hashed_key h) 1; byte_at (hd_hashed_key h) 0].

(** Filling in the object at [offset] of the buffer: the new buffer and the
    bytes handed to the controller. *)
Definition fill_object (header : ObjectHeader) (value region_data : list Z) (offset : Z)
    : result (list Z * list Z) ErrorCode :=
  let package_length := HEADER_LENGTH + zlen value in
  match put_bytes region_data (offset + VERSION_OFFSET) (header_bytes header) with
  | None => Err RegionFull
  | Some d1 =>
  match get_range d1 (offset + VERSION_OFFSET) (offset + HASH_OFFSET + 8) with
  | None => Err CorruptData
  | Some head =>
  let check_sum := crc_update crc_init head in
  match put_slice d1 (offset + HEADER_LENGTH) (offset + package_length) value with
  | None => Err ObjectTooLarge
  | Some d2 =>
  let check_sum := crc_finalise (crc_update check_sum value) in
  match put_slice d2 (offset + package_length) (offset + package_length + CHECK_SUM_LEN)
          (le_bytes 4 check_sum) with
  | None => Err ObjectTooLarge
  | Some d3 =>
  match get_range d3 offset (offset + package_length + CHECK_SUM_LEN) with
  | None => Err ObjectTooLarge
  | Some obj => Ok (d3, obj)
  end end end end end.

(** The region an iteration of [append_key] works on. *)
Definition append_region (s : State) (region region_offset : Z) : outcome Z :=
  match s with
  | StateNone => Ret (region + region_offset)
  | StateInit (AppendKeyReadRegion reg) => Ret reg
  | StateInit _ => Ret (region + region_offset)
  | StateAppendKey (ReadRegion reg) => Ret reg
  | _ => Panic
  end.

(** The read at the head of the loops: skipped when the state says that the
    buffer already holds the region. *)
Definition load_region (loaded : bool) (pending : Z → State) (new_region : Z) (region_data : list Z)
    : M C (result (list Z) ErrorCode) :=
  if loaded then mret (Ok region_data) else
  '(r, region_data) ← ctl_read new_region 0 region_data;
  match r with
  | Ok _ => mret (Ok region_data)
  | Err e =>
      put_buffer region_data;;
      match e with ReadNotReady reg => set_state (pending reg) | _ => mret () end;;
      mret (Err e)
  end.

(** One iteration of the loop over regions once the region is in the buffer:
    [Some r] returns [r], [None] goes on, with the offset of the next region. *)
Definition append_body (header : ObjectHeader) (hash : Z) (value : list Z)
    (region region_offset new_region : Z) (region_data : list Z)
    : M C (Z * option (result SuccessCode ErrorCode)) :=
  let package_length := HEADER_LENGTH + zlen value in
  found ← of_fuel (find_key_offset hash region_data);
  match found with
  | Ok _ => put_buffer region_data;; mret (region_offset, Some (Err KeyAlreadyExists))
  | Err _ =>
  sc ← of_fuel (scan_loop fuel package_length region_data 0);
  match sc with
  | ScanNextRegion =>
      put_buffer region_data;;
      flash_size ← get_flash_size;
      next ← of_fuel (increment_region_offset flash_size region (new_region - region));
      match next with
      | Some o => set_state StateNone;; mret (o, None)
      | None => mret (new_region - region, Some (Err FlashFull))
      end
  | ScanErr e => put_buffer region_data;; mret (region_offset, Some (Err e))
  | ScanLost e => mret (region_offset, Some (Err e))
  | ScanSpot offset =>
      match fill_object header value region_data offset with
      | Err e => mret (region_offset, Some (Err e))
      | Ok (region_data, obj) =>
          w ← ctl_write (Sz * new_region + offset) obj;
          put_buffer region_data;;
          match w with
          | Err (WriteNotReady _) => mret (region_offset, Some (Ok Queued))
          | Err e => mret (region_offset, Some (Err e))
          | Ok _ => mret (region_offset, Some (Ok Written))
          end
      end
  end end.

Definition append_step (header : ObjectHeader) (hash : Z) (value : list Z)
    (region region_offset : Z) : M C (Z * option (result SuccessCode ErrorCode)) :=
  s ← get_state;
  new_region ← of_outcome (append_region s region region_offset);
  region_data ← take_buffer;
  loaded ← load_region
    (bool_decide (s = StateAppendKey (ReadRegion new_region))
     || bool_decide (s = StateInit (AppendKeyReadRegion new_region)))
    (λ reg, StateAppendKey (ReadRegion reg)) new_region region_data;
  match loaded with
  | Err e => mret (region_offset, Some (Err e))
  | Ok region_data => append_body header hash value region region_offset new_region region_data
  end.

(** A loop over regions, given what one iteration does. *)
Fixpoint region_loop {A} (step : Z → M C (Z * option A)) (k : nat) (region_offset : Z) : M C A :=
  match k with
  | O => no_fuel
  | S k =>
      '(region_offset, r) ← step region_offset;
      match r with Some r => mret r | None => region_loop step k region_offset end
  end.

Definition append_key (hash : Z) (value : list Z) : M C (result SuccessCode ErrorCode) :=
  flash_size ← get_flash_size;
  region ← of_outcome (get_region flash_size hash);
  let object_length := HEADER_LENGTH + zlen value + CHECK_SUM_LEN in
  if 0xFFF <? object_length then mret (Err ObjectTooLarge) else
  header ← of_outcome (ObjectHeader_new hash object_length);
  region_loop (append_step header hash value region) fuel 0.

(** ** [get_key] *)

(** The copy loops of [get_key] for [n] bytes from [at_] of the region to [i] of
    the caller's buffer, with the checksum over what is copied.  The flag is
    false when a byte is out of range. *)
Fixpoint copy_value (n : nat) (region_data : list Z) (at_ i : Z) (buf : list Z) (crc : Z)
    : bool * list Z * Z :=
  match n with
  | O => (true, buf, crc)
  | S n =>
      match get region_data (at_ + i) with
      | None => (false, buf, crc)
      | Some b =>
          if i <? zlen buf then
            copy_value n region_data at_ (i + 1) (<[Z.to_nat i := b]> buf) (crc_update crc [b])
          else (false, buf, crc)
      end
  end.

(** The comparison with the stored checksum, whose last byte is before [end_];
    [None] is a byte out of range. *)
Fixpoint checksum_matches (check_sum region_data : list Z) (end_ : Z) (k : nat) : option bool :=
  match k with
  | O => Some true
  | S k' =>
      match get check_sum (Z.of_nat k'), get region_data (end_ - 4 + Z.of_nat k') with
      | Some a, Some b => if a =? b then checksum_matches check_sum region_data end_ k'
                          else Some false
      | _, _ => None
      end
  end.

Definition get_region_of_state (s : State) (region region_offset : Z) : outcome Z :=
  match s with
  | StateNone => Ret (region + region_offset)
  | StateInit (GetKeyReadRegion reg) => Ret reg
  | StateInit _ => Ret (region + region_offset)
  | StateGetKey (ReadRegion reg) => Ret reg
  | _ => Panic
  end.

(** What [get_key] does with the object it found: result and the caller's
    buffer; the last component says whether the read buffer is put back. *)
Definition read_value (region_data : list Z) (offset total_length : Z) (buf : list Z)
    : outcome (result (SuccessCode * Z) ErrorCode * list Z * bool) :=
  match get_range region_data offset (HEADER_LENGTH + offset) with
  | None => Ret (Err ObjectTooLarge, buf, false)
  | Some head =>
      let check_sum := crc_update crc_init head in
      v ← usub total_length HEADER_LENGTH;
      value_length ← usub v CHECK_SUM_LEN;
      if zlen buf <? value_length then
        let '(ok, buf, _) := copy_value (length buf) region_data (offset + HEADER_LENGTH) 0 buf 0 in
        Ret (Err (BufferTooSmall value_length), buf, ok)
      else
        let '(ok, buf, crc) := copy_value (Z.to_nat value_length) region_data
                                 (offset + HEADER_LENGTH) 0 buf check_sum in
        if negb ok then Ret (Err CorruptData, buf, false) else
        match checksum_matches (le_bytes 4 (crc_finalise crc)) region_data (offset + total_length) 4 with
        | None => Ret (Err InvalidCheckSum, buf, false)
        | Some false => Ret (Err InvalidCheckSum, buf, true)
        | Some true => Ret (Ok (Complete, value_length), buf, true)
        end
  end.

(** What follows a miss in [get_key] and [invalidate_key]: the offset of the
    next region to look in, or the error. *)
Definition after_miss {A} (cont : bool) (region new_region region_offset : Z) (fail : A)
    : M C (Z * option A) :=
  if cont then
    flash_size ← get_flash_size;
    next ← of_fuel (increment_region_offset flash_size region (new_region - region));
    match next with
    | Some o => set_state StateNone;; mret (o, None)
    | None => mret (new_region - region, Some fail)
    end
  else mret (region_offset, Some fail).

(** One iteration of [get_key] once the region is in the buffer; the caller's
    buffer is part of the result. *)
Definition get_body (hash : Z) (buf : list Z) (region region_offset new_region : Z)
    (region_data : list Z) : M C (Z * option (result (SuccessCode * Z) ErrorCode * list Z)) :=
  found ← of_fuel (find_key_offset hash region_data);
  match found with
  | Ok (offset, total_length) =>
      '(r, buf, restored) ← of_outcome (read_value region_data offset total_length buf);
      (if (restored : bool) then put_buffer region_data else mret ());;
      mret (region_offset, Some (r, buf))
  | Err (cont, e) =>
      put_buffer region_data;;
      after_miss cont region new_region region_offset (Err e, buf)
  end.

Definition get_step (hash : Z) (buf : list Z) (region region_offset : Z)
    : M C (Z * option (result (SuccessCode * Z) ErrorCode * list Z)) :=
  s ← get_state;
  new_region ← of_outcome (get_region_of_state s region region_offset);
  region_data ← take_buffer;
  loaded ← load_region
    (bool_decide (s = StateGetKey (ReadRegion new_region))
     || bool_decide (s = StateInit (GetKeyReadRegion new_region)))
    (λ reg, StateGetKey (ReadRegion reg)) new_region region_data;
  match loaded with
  | Err e => mret (region_offset, Some (Err e, buf))
  | Ok region_data => get_body hash buf region region_offset new_region region_data
  end.

Definition get_key (hash : Z) (buf : list Z)
    : M C (result (SuccessCode * Z) ErrorCode * list Z) :=
  flash_size ← get_flash_size;
  region ← of_outcome (get_region flash_size hash);
  region_loop (get_step hash buf region) fuel 0.

(** ** [invalidate_key] *)

Definition invalidate_region_of_state (s : State) (region region_offset : Z) : outcome Z :=
  match s with
  | StateNone => Ret (region + region_offset)
  | StateInvalidateKey (ReadRegion reg) => Ret reg
  | _ => Panic
  end.

Definition invalidate_body (hash region region_offset new_region : Z) (region_data : list Z)
    : M C (Z * option (result SuccessCode ErrorCode)) :=
  found ← of_fuel (find_key_offset hash region_data);
  match found with
  | Ok (offset, _) =>
      match get region_data (offset + LEN_OFFSET) with
      | None => mret (region_offset, Some (Err CorruptData))
      | Some b =>
          let b := Z.land b 0x7F in
          let region_data := <[Z.to_nat (offset + LEN_OFFSET) := b]> region_data in
          w ← ctl_write (Sz * new_region + offset + LEN_OFFSET) [b];
          put_buffer region_data;;
          match w with
          | Err (WriteNotReady _) => mret (region_offset, Some (Ok Queued))
          | Err e => mret (region_offset, Some (Err e))
          | Ok _ => mret (region_offset, Some (Ok Written))
          end
      end
  | Err (cont, e) =>
      put_buffer region_data;;
      after_miss cont region new_region region_offset (Err e)
  end.

Definition invalidate_step (hash region region_offset : Z)
    : M C (Z * option (result SuccessCode ErrorCode)) :=
  s ← get_state;
  new_region ← of_outcome (invalidate_region_of_state s region region_offset);
  region_data ← take_buffer;
  loaded ← load_region (bool_decide (s = StateInvalidateKey (ReadRegion new_region)))
    (λ reg, StateInvalidateKey (ReadRegion reg)) new_region region_data;
  match loaded with
  | Err e => mret (region_offset, Some (Err e))
  | Ok region_data => invalidate_body hash region region_offset new_region region_data
  end.

Definition invalidate_key (hash : Z) : M C (result SuccessCode ErrorCode) :=
  flash_size ← get_flash_size;
  region ← of_outcome (get_region flash_size hash);
  region_loop (invalidate_step hash region) fuel 0.

(** ** [garbage_collect] *)

(** The loop over the entries of a region. *)
Inductive rubbish : Type :=
| RubbishKeep
| RubbishErase
| RubbishErr (e : ErrorCode)
| RubbishLost (e : ErrorCode).

Fixpoint rubbish_loop (k : nat) (region_data : list Z) (offset : Z) (entry_found : bool)
    : option rubbish :=
  match k with
  | O => None
  | S k =>
      if Sz <=? offset then Some RubbishErase else
      match get region_data (offset + VERSION_OFFSET) with
      | None => Some (RubbishLost KeyNotFound)
      | Some v =>
          if negb (v =? 0xFF) then
            if negb (v =? VERSION) then Some (RubbishErr UnsupportedVersion) else
            match get region_data (offset + LEN_OFFSET),
                  get region_data (offset + LEN_OFFSET + 1) with
            | Some b1, Some b2 =>
                if negb (Z.land b1 0x80 =? 0x80) then
                  rubbish_loop k region_data (offset + entry_length b1 b2) true
                else Some RubbishKeep
            | _, _ => Some (RubbishLost CorruptData)
            end
          else if negb entry_found then Some RubbishKeep else Some RubbishErase
      end
  end.

Definition garbage_collect_region (region flash_freed : Z) : M C (result Z ErrorCode) :=
  s ← get_state;
  region_data ← take_buffer;
  loaded ← load_region
    (bool_decide (s = StateGarbageCollect (RubbishReadRegion region flash_freed)))
    (λ reg, StateGarbageCollect (RubbishReadRegion reg flash_freed)) region region_data;
  match loaded with
  | Err e => mret (Err e)
  | Ok region_data =>
  verdict ← of_fuel (rubbish_loop fuel region_data 0 false);
  match verdict with
  | RubbishKeep => put_buffer region_data;; mret (Ok 0)
  | RubbishErr e => put_buffer region_data;; mret (Err e)
  | RubbishLost e => mret (Err e)
  | RubbishErase =>
      put_buffer region_data;;
      r ← ctl_erase region;
      match r with
      | Ok _ => mret (Ok Sz)
      | Err e =>
          match e with
          | EraseNotReady reg =>
              set_state (StateGarbageCollect (RubbishEraseRegion reg (flash_freed + Sz)))
          | _ => mret ()
          end;;
          mret (Err e)
      end
  end end.

(** The [for] loop over the regions from [i], [n] of them. *)
Fixpoint garbage_collect_from (n : nat) (i flash_freed : Z) : M C (result Z ErrorCode) :=
  match n with
  | O => mret (Ok flash_freed)
  | S n =>
      r ← garbage_collect_region i flash_freed;
      match r with
      | Ok freed => garbage_collect_from n (i + 1) (flash_freed + freed)
      | Err e => mret (Err e)
      end
  end.

Definition garbage_collect : M C (result Z ErrorCode) :=
  flash_size ← get_flash_size;
  s ← get_state;
  '(start, flash_freed) ← of_outcome
    match s with
    | StateNone => Ret (0, 0)
    | StateGarbageCollect (RubbishReadRegion reg ff) => Ret (reg, ff)
    | StateGarbageCollect (RubbishEraseRegion reg ff) => Ret (reg + 1, ff)
    | _ => Panic
    end;
  garbage_collect_from (Z.to_nat (num_region flash_size - start)) start flash_freed.

(** ** [initialise] *)

(** The [for] loop that erases [n] regions from [r]; [Some e] is its early
    return. *)
Fixpoint erase_from (n : nat) (r : Z) : M C (option ErrorCode) :=
  match n with
  | O => mret None
  | S n =>
      x ← ctl_erase r;
      match x with
      | Ok _ => erase_from n (r + 1)
      | Err e => set_state (StateInit (InitEraseRegion r));; mret (Some e)
      end
  end.

(** Erase what is left to erase, according to the state. *)
Definition erase_all : M C (option ErrorCode) :=
  flash_size ← get_flash_size;
  s ← get_state;
  match s with
  | StateNone | StateInit (GetKeyReadRegion _) | StateInit (InitEraseRegion _) =>
      let start := match s with StateInit (InitEraseRegion reg) => reg + 1 | _ => 0 end in
      x ← erase_from (Z.to_nat (num_region flash_size - start)) start;
      match x with
      | Some e => mret (Some e)
      | None => set_state (StateInit EraseComplete);; mret None
      end
  | _ => mret None
  end.

(** The end of [initialise]: saving the main key. *)
Definition save_main_key (hashed_main_key : Z) : M C (result SuccessCode ErrorCode) :=
  r ← append_key hashed_main_key [];
  match r with
  | Ok ret => set_state StateNone;; mret (Ok ret)
  | Err (ReadNotReady reg) =>
      set_state (StateInit (AppendKeyReadRegion reg));; mret (Err (ReadNotReady reg))
  | Err (WriteNotReady _) => set_state StateNone;; mret (Ok Queued)
  | Err e => mret (Err e)
  end.

Definition initialise (hashed_main_key : Z) : M C (result SuccessCode ErrorCode) :=
  s ← get_state;
  key_ret ← match s with
    | StateNone | StateInit (GetKeyReadRegion _) =>
        '(r, _) ← get_key hashed_main_key []; mret r
    | StateInit _ => mret (Err (EraseNotReady 0))
    | _ => crash
    end;
  match key_ret with
  | Ok (ret, _) => mret (Ok ret)
  | Err (ReadNotReady reg) =>
      set_state (StateInit (GetKeyReadRegion reg));; mret (Err (ReadNotReady reg))
  | Err _ =>
      x ← erase_all;
      match x with
      | Some e => mret (Err e)
      | None => save_main_key hashed_main_key
      end
  end.
End tickv.
