(* ===== verification/TickvLog.v ===== *)
(** * The format of a TicKV region

    What libraries/tickv/SPEC.md describes: a region is a log of objects in the
    order they were appended, each a header, a value and a checksum, followed by
    erased bytes.  This file defines the encoding of a log and shows what the
    loops of Tickv.v compute on an encoded region: [find_key_offset] searches
    the log, the scan of [append_key] finds its end, [fill_object] extends it,
    [read_value] reads an object back and the loop of the garbage collector
    tells whether every object is dead. *)

From S2P Require Import Prelude Bytes Crc32 Tickv.

(** ** The encoding *)

Record object := mkObject { ob_valid : bool; ob_hash : Z; ob_value : list Z }.

Definition ob_len (o : object) : Z := HEADER_LENGTH + zlen (ob_value o) + CHECK_SUM_LEN.

Definition ob_header (valid : bool) (o : object) : ObjectHeader :=
  mkObjectHeader VERSION (if valid then FLAGS_VALID else 0) (ob_len o) (ob_hash o).

(** The checksum covers the header as it was written, with the valid flag. *)
Definition ob_checksum (o : object) : Z :=
  crc_finalise (crc_update (crc_update crc_init (header_bytes (ob_header true o))) (ob_value o)).

Definition encode (o : object) : list Z :=
  header_bytes (ob_header (ob_valid o) o) ++ ob_value o ++ le_bytes 4 (ob_checksum o).

Definition encode_log (l : list object) : list Z := mjoin (encode <$> l).
Definition used (l : list object) : Z := zlen (encode_log l).

(** Hashes the code accepts, lengths that fit the 12 bits of the header. *)
Definition object_wf (o : object) : Prop :=
  0 < ob_hash o < 0xFFFFFFFFFFFFFFFF ∧ ob_len o < 0xFFF ∧ Forall byte (ob_value o).

(** ** Fields of an encoded object *)

Lemma zlen_encode o : zlen (encode o) = ob_len o.
Proof.
  unfold encode. rewrite !zlen_app, zlen_le_bytes. unfold ob_len, HEADER_LENGTH, HASH_OFFSET, CHECK_SUM_LEN.
  change (zlen (header_bytes _)) with 11. lia.
Qed.

Lemma ob_len_ge o : 15 ≤ ob_len o.
Proof.
  unfold ob_len, HEADER_LENGTH, HASH_OFFSET, CHECK_SUM_LEN. pose proof (zlen_nonneg (ob_value o)). lia.
Qed.

(** The two bytes of flags and length, by evaluation over all lengths. *)
Definition len_byte1 (valid : bool) (len : Z) : Z :=
  Z.lor (Z.land (Z.shiftr len 8) 0x0F) (Z.land (Z.shiftl (if valid then FLAGS_VALID else 0) 4) 0xF0).

Lemma length_bytes valid len :
  0 ≤ len < 4096 →
  entry_length (len_byte1 valid len) (Z.land len 0xFF) = len ∧
  (Z.land (len_byte1 valid len) 0x80 =? 0x80) = valid ∧
  Z.land (len_byte1 valid len) 0x7F = len_byte1 false len.
Proof.
  intros Hl.
  assert (forallb (λ len, forallb (λ valid,
    (entry_length (len_byte1 valid len) (Z.land len 0xFF) =? len) &&
    eqb (Z.land (len_byte1 valid len) 0x80 =? 0x80) valid &&
    (Z.land (len_byte1 valid len) 0x7F =? len_byte1 false len)) [true; false]) (seqZ 0 4096) = true)
    as Hall by (vm_compute; reflexivity).
  rewrite forallb_forall in Hall.
  assert (In len (seqZ 0 4096)) as Hin by (apply list_elem_of_In, elem_of_seqZ; lia).
  specialize (Hall len Hin). rewrite forallb_forall in Hall. specialize (Hall valid).
  rewrite !andb_true_iff, !Z.eqb_eq, eqb_true_iff in Hall.
  destruct Hall as [[? ?] ?]; [destruct valid; cbn; auto|done].
Qed.

Lemma byte_at_spec h k : 0 ≤ k → byte_at h k = (h / 256 ^ k) mod 256.
Proof.
  intros Hk. unfold byte_at. change 0xFF with (Z.ones 8).
  rewrite Z.land_ones, Z.shiftr_div_pow2 by lia. f_equal. f_equal.
  by rewrite Z.pow_mul_r by lia.
Qed.

Lemma le_bytes_byte_at n h : le_bytes n h = (λ i, byte_at h (Z.of_nat i)) <$> seq 0 n.
Proof.
  revert h. induction n as [|n IH]; intros h; [done|]. cbn [le_bytes seq fmap list_fmap].
  rewrite byte_at_spec by lia. change (256 ^ Z.of_nat 0) with 1. rewrite Z.div_1_r. f_equal.
  rewrite IH, <- (fmap_S_seq 0), <- list_fmap_compose. apply list_fmap_ext. intros _ i _. unfold compose.
  rewrite !byte_at_spec, Nat2Z.inj_succ, Z.pow_succ_r, Z.div_div by lia. done.
Qed.

Lemma byte_at_byte h k : byte (byte_at h k).
Proof.
  unfold byte_at, byte. change 0xFF with (Z.ones 8). rewrite Z.land_ones by lia.
  apply Z.mod_pos_bound. lia.
Qed.

(** Two hashes with the same eight bytes are equal. *)
Lemma byte_at_inj g h :
  u64 g → u64 h → (∀ k, (k < 8)%nat → byte_at g (Z.of_nat k) = byte_at h (Z.of_nat k)) → g = h.
Proof.
  intros Hg Hh Hk. rewrite <- (from_le_u64 g), <- (from_le_u64 h) by done. f_equal.
  rewrite !le_bytes_byte_at. apply list_fmap_ext. intros i k [-> Hi]%lookup_seq. apply Hk. lia.
Qed.

Lemma land_byte z : byte (Z.land z 0xFF).
Proof.
  unfold byte. change 0xFF with (Z.ones 8). rewrite Z.land_ones by lia. apply Z.mod_pos_bound. lia.
Qed.

Lemma len_byte1_byte valid len : 0 ≤ len < 4096 → byte (len_byte1 valid len).
Proof.
  intros Hl.
  assert (forallb (λ len, forallb (λ valid, (0 <=? len_byte1 valid len) && (len_byte1 valid len <? 256))
    [true; false]) (seqZ 0 4096) = true) as Hall by (vm_compute; reflexivity).
  rewrite forallb_forall in Hall.
  assert (In len (seqZ 0 4096)) as Hin by (apply list_elem_of_In, elem_of_seqZ; lia).
  specialize (Hall len Hin). rewrite forallb_forall in Hall. specialize (Hall valid).
  rewrite andb_true_iff, Z.leb_le, Z.ltb_lt in Hall. apply Hall. destruct valid; cbn; auto.
Qed.

Lemma encode_byte o : object_wf o → Forall byte (encode o).
Proof.
  intros (_ & Hl & Hv). pose proof (ob_len_ge o). unfold encode. rewrite !Forall_app. split_and!.
  - repeat (apply Forall_cons; split); try apply byte_at_byte; [|apply (len_byte1_byte (ob_valid o) (ob_len o)); lia|apply land_byte|].
    + by unfold byte, VERSION.
    + constructor.
  - done.
  - apply le_bytes_byte.
Qed.

(** ** Reading inside a concatenation *)

Lemma get_mid pre mid post i j :
  i = zlen pre + j → 0 ≤ j < zlen mid → get (pre ++ mid ++ post) i = mid !! Z.to_nat j.
Proof.
  intros -> Hj. unfold get, zlen in *.
  rewrite lookup_app_r by lia. rewrite lookup_app_l by lia. f_equal. lia.
Qed.

(** A byte of the object at the end of [pre]. *)
Lemma get_encode pre o post i j :
  i = zlen pre + j → 0 ≤ j < 11 →
  get (pre ++ encode o ++ post) i = header_bytes (ob_header (ob_valid o) o) !! Z.to_nat j.
Proof.
  intros -> Hj. unfold encode. rewrite <- !app_assoc.
  apply get_mid; [done|]. change (zlen (header_bytes _)) with 11. lia.
Qed.

Lemma hash_matches_spec hash g data at_ k :
  (k ≤ 8)%nat →
  (∀ i : nat, (i < 8)%nat → get data (at_ + Z.of_nat i) = Some (byte_at g (7 - Z.of_nat i))) →
  hash_matches hash data at_ k =
  Some (forallb (λ i, byte_at g (Z.of_nat i) =? byte_at hash (Z.of_nat i)) (seq 0 k)).
Proof.
  intros Hk Hd. induction k as [|k IH]; [done|]. cbn [hash_matches].
  replace (at_ + (8 - Z.of_nat (S k))) with (at_ + Z.of_nat (7 - k)) by lia.
  rewrite Hd by lia. replace (7 - Z.of_nat (7 - k)) with (Z.of_nat k) by lia.
  rewrite seq_S, forallb_app. cbn [forallb]. rewrite andb_true_r, andb_comm. cbn [Nat.add].
  destruct (byte_at g (Z.of_nat k) =? byte_at hash (Z.of_nat k)); [|done].
  rewrite IH by lia. done.
Qed.

Lemma hash_matches_encode hash pre o post :
  u64 hash → object_wf o →
  hash_matches hash (pre ++ encode o ++ post) (zlen pre + HASH_OFFSET) 8 =
  Some (bool_decide (ob_hash o = hash)).
Proof.
  intros Hh [Ho _]. rewrite (hash_matches_spec _ (ob_hash o)); [|lia|].
  - f_equal. apply eq_true_iff_eq. rewrite bool_decide_eq_true, forallb_forall. split.
    + intros Hall. apply byte_at_inj; [unfold u64; lia|done|]. intros k Hk.
      apply Z.eqb_eq, Hall, in_seq. lia.
    + intros -> k _. apply Z.eqb_refl.
  - intros i Hi. unfold HASH_OFFSET. rewrite (get_encode _ _ _ _ (3 + Z.of_nat i)) by lia.
    do 8 (destruct i as [|i]; [reflexivity|]). lia.
Qed.

(** What the loops read at the head of an object. *)
Lemma encode_head pre o post :
  object_wf o →
  get (pre ++ encode o ++ post) (zlen pre + VERSION_OFFSET) = Some VERSION ∧
  get (pre ++ encode o ++ post) (zlen pre + LEN_OFFSET) = Some (len_byte1 (ob_valid o) (ob_len o)) ∧
  get (pre ++ encode o ++ post) (zlen pre + LEN_OFFSET + 1) = Some (Z.land (ob_len o) 0xFF) ∧
  entry_length (len_byte1 (ob_valid o) (ob_len o)) (Z.land (ob_len o) 0xFF) = ob_len o ∧
  (Z.land (len_byte1 (ob_valid o) (ob_len o)) 0x80 =? 0x80) = ob_valid o.
Proof.
  intros (_ & Hl & _). pose proof (ob_len_ge o).
  destruct (length_bytes (ob_valid o) (ob_len o)) as (? & ? & ?); [lia|].
  unfold VERSION_OFFSET, LEN_OFFSET. split_and!; [| | |done..].
  - by rewrite (get_encode _ _ _ _ 0) by lia.
  - by rewrite (get_encode _ _ _ _ 1) by lia.
  - by rewrite (get_encode _ _ _ _ 2) by lia.
Qed.

(** ** A region holding a log *)

Section region.
Context (Sz : Z).

Definition region_of (l : list object) : list Z :=
  encode_log l ++ replicate (Z.to_nat (Sz - used l)) 0xFF.

Definition log_wf (l : list object) : Prop := Forall object_wf l ∧ used l ≤ Sz.

Lemma encode_log_app l k : encode_log (l ++ k) = encode_log l ++ encode_log k.
Proof. unfold encode_log. by rewrite fmap_app, join_app. Qed.

Lemma encode_log_cons o l : encode_log (o :: l) = encode o ++ encode_log l.
Proof. done. Qed.

Lemma used_nil : used [] = 0.
Proof. done. Qed.
Lemma used_cons o l : used (o :: l) = ob_len o + used l.
Proof. unfold used. by rewrite encode_log_cons, zlen_app, zlen_encode. Qed.
Lemma used_app l k : used (l ++ k) = used l + used k.
Proof. unfold used. by rewrite encode_log_app, zlen_app. Qed.
Lemma used_nonneg l : 0 ≤ used l.
Proof. apply zlen_nonneg. Qed.
Lemma used_zero l : used l = 0 → l = [].
Proof.
  destruct l as [|o l]; [done|]. rewrite used_cons.
  pose proof (ob_len_ge o). pose proof (used_nonneg l). lia.
Qed.

Lemma used_length l : Z.of_nat (length l) ≤ used l.
Proof.
  induction l as [|o l IH]; [done|]. rewrite used_cons. pose proof (ob_len_ge o).
  cbn [length]. lia.
Qed.

Lemma zlen_region_of l : used l ≤ Sz → zlen (region_of l) = Sz.
Proof.
  intros Hu. unfold region_of. rewrite zlen_app. fold (used l). unfold zlen.
  rewrite length_replicate. lia.
Qed.

(** The object after [pre]. *)
Lemma region_of_split pre o l :
  region_of (pre ++ o :: l) =
  encode_log pre ++ encode o ++ encode_log l ++ replicate (Z.to_nat (Sz - used (pre ++ o :: l))) 0xFF.
Proof.
  unfold region_of. by rewrite encode_log_app, encode_log_cons, <- !app_assoc.
Qed.

(** The bytes after the log are erased. *)
Lemma get_erased l i : used l ≤ i < Sz → get (region_of l) i = Some 0xFF.
Proof.
  intros Hi. pose proof (used_nonneg l). unfold get, region_of. rewrite lookup_app_r.
  - apply lookup_replicate_2. unfold used, zlen in *. lia.
  - unfold used, zlen in *. lia.
Qed.

Lemma log_wf_app l k : log_wf (l ++ k) → log_wf l.
Proof.
  intros [H1 H2]. apply Forall_app in H1 as [? ?]. rewrite used_app in H2.
  pose proof (used_nonneg k). split; [done|lia].
Qed.

Lemma log_wf_mid pre o l : log_wf (pre ++ o :: l) → object_wf o ∧ used pre + ob_len o ≤ Sz.
Proof.
  intros [H1 H2]. apply Forall_app in H1 as [_ H1]. apply Forall_cons in H1 as [? _].
  rewrite used_app, used_cons in H2. pose proof (used_nonneg l). split; [done|lia].
Qed.

(** What the loops read at the object after [pre]. *)
Lemma region_head pre o l :
  log_wf (pre ++ o :: l) →
  let d := region_of (pre ++ o :: l) in
  get d (used pre + VERSION_OFFSET) = Some VERSION ∧
  get d (used pre + LEN_OFFSET) = Some (len_byte1 (ob_valid o) (ob_len o)) ∧
  get d (used pre + LEN_OFFSET + 1) = Some (Z.land (ob_len o) 0xFF) ∧
  entry_length (len_byte1 (ob_valid o) (ob_len o)) (Z.land (ob_len o) 0xFF) = ob_len o ∧
  (Z.land (len_byte1 (ob_valid o) (ob_len o)) 0x80 =? 0x80) = ob_valid o.
Proof.
  intros [Ho _]%log_wf_mid. cbv zeta. rewrite region_of_split. unfold used at 2 3 4.
  by apply encode_head.
Qed.

(** The loops go on at the object after that. *)
Lemma used_snoc pre o : used (pre ++ [o]) = used pre + ob_len o.
Proof. rewrite used_app, used_cons, used_nil. lia. Qed.

(** *** Search *)

(** A search through the log, with the offset of the object it is at. *)
Fixpoint log_find (hash : Z) (l : list object) (offset : Z) (empty : bool)
    : result (Z * Z) (bool * ErrorCode) :=
  match l with
  | [] => if Sz <=? offset + HEADER_LENGTH then Err (false, KeyNotFound)
          else Err (negb empty, KeyNotFound)
  | o :: l =>
      if ob_valid o && bool_decide (ob_hash o = hash) then Ok (offset, ob_len o)
      else log_find hash l (offset + ob_len o) false
  end.

Lemma find_loop_log k hash pre l empty :
  u64 hash → log_wf (pre ++ l) → (length l < k)%nat →
  find_loop Sz k hash (region_of (pre ++ l)) (used pre) empty =
  Some (log_find hash l (used pre) empty).
Proof.
  intros Hh. revert k pre empty. induction l as [|o l IH]; intros k pre empty Hwf Hk;
    (destruct k as [|k]; [cbn in Hk; lia|]); cbn [find_loop log_find].
  - rewrite app_nil_r in *. destruct (Z.leb_spec Sz (used pre + HEADER_LENGTH)); [done|].
    unfold HEADER_LENGTH, HASH_OFFSET in *. unfold VERSION_OFFSET. rewrite Z.add_0_r, get_erased by lia.
    done.
  - destruct (log_wf_mid _ _ _ Hwf) as [Ho Hfit]. pose proof (ob_len_ge o).
    destruct (Z.leb_spec Sz (used pre + HEADER_LENGTH)).
    { unfold HEADER_LENGTH, HASH_OFFSET in *. lia. }
    specialize (IH k (pre ++ [o]) false). rewrite <- app_assoc, used_snoc in IH.
    destruct (region_head _ _ _ Hwf) as (-> & -> & -> & He & Hv).
    rewrite He, Hv. cbn [Z.eqb VERSION negb].
    rewrite (proj2 (Z.eqb_neq (ob_len o) 0)) by lia.
    destruct (ob_valid o); cbn [negb andb]; [|apply IH; [done|cbn in Hk; lia]].
    rewrite region_of_split at 1. unfold used at 1. rewrite hash_matches_encode by done.
    destruct (bool_decide (ob_hash o = hash)); [done|]. apply IH; [done|cbn in Hk; lia].
Qed.

(** *** The end of the log *)

Lemma hash_erased_ok data at_ k :
  (k ≤ 8)%nat → (∀ i, 0 ≤ i < 8 → get data (at_ + i) = Some 0xFF) →
  hash_erased data at_ k = Some true.
Proof.
  intros Hk Hd. induction k as [|k IH]; [done|]. cbn [hash_erased].
  rewrite Hd by lia. cbn [Z.eqb]. apply IH. lia.
Qed.

Lemma scan_loop_log k package_length pre l :
  log_wf (pre ++ l) → 11 ≤ package_length → (length l < k)%nat →
  scan_loop Sz k package_length (region_of (pre ++ l)) (used pre) =
  Some (if Sz <=? used (pre ++ l) + package_length then ScanNextRegion
        else ScanSpot (used (pre ++ l))).
Proof.
  revert k pre. induction l as [|o l IH]; intros k pre Hwf Hp Hk;
    (destruct k as [|k]; [cbn in Hk; lia|]); cbn [scan_loop].
  - rewrite app_nil_r in *. destruct (Z.leb_spec Sz (used pre + package_length)); [done|].
    unfold VERSION_OFFSET, HASH_OFFSET. rewrite Z.add_0_r, get_erased by lia. cbn [Z.eqb Pos.eqb negb].
    rewrite hash_erased_ok; [done|lia|]. intros i Hi. apply get_erased. lia.
  - destruct (log_wf_mid _ _ _ Hwf) as [Ho Hfit]. pose proof (ob_len_ge o).
    assert (Hu : used (pre ++ o :: l) = used pre + ob_len o + used l).
    { rewrite used_app, used_cons. lia. }
    pose proof (used_nonneg l).
    destruct (Z.leb_spec Sz (used pre + package_length)).
    { by rewrite (proj2 (Z.leb_le _ _)) by lia. }
    destruct (region_head _ _ _ Hwf) as (-> & -> & -> & -> & _).
    specialize (IH k (pre ++ [o])). rewrite <- app_assoc, used_snoc in IH.
    apply IH; [done..|cbn in Hk; lia].
Qed.

(** *** The garbage collector *)

Lemma rubbish_loop_log k pre l (found : bool) :
  log_wf (pre ++ l) → 0 < Sz → (length l < k)%nat → found = bool_decide (pre ≠ []) →
  rubbish_loop Sz k (region_of (pre ++ l)) (used pre) found =
  Some (if existsb ob_valid l then RubbishKeep
        else if bool_decide (pre ++ l = []) then RubbishKeep else RubbishErase).
Proof.
  intros Hwf HS. revert k pre found Hwf. induction l as [|o l IH]; intros k pre found Hwf Hk Hf;
    (destruct k as [|k]; [cbn in Hk; lia|]); cbn [rubbish_loop existsb].
  - rewrite app_nil_r in *. subst found. destruct (Z.leb_spec Sz (used pre)).
    + rewrite bool_decide_false; [done|]. intros ->. rewrite used_nil in *. lia.
    + unfold VERSION_OFFSET. rewrite Z.add_0_r, get_erased by lia. cbn [Z.eqb Pos.eqb negb].
      destruct pre; done.
  - destruct (log_wf_mid _ _ _ Hwf) as [Ho Hfit]. pose proof (ob_len_ge o).
    destruct (Z.leb_spec Sz (used pre)); [lia|].
    destruct (region_head _ _ _ Hwf) as (-> & -> & -> & -> & ->).
    destruct (ob_valid o); cbn [negb orb Z.eqb VERSION]; [done|].
    specialize (IH k (pre ++ [o]) true). rewrite <- app_assoc, used_snoc in IH.
    apply IH; [done|cbn in Hk; lia|]. by destruct pre.
Qed.

(** *** Writing an object *)

Lemma put_slice_mid pre mid post bytes lo hi :
  lo = zlen pre → hi = zlen pre + zlen mid →
  put_slice (pre ++ mid ++ post) lo hi bytes = Some (pre ++ bytes ++ post).
Proof.
  intros -> ->. unfold put_slice, zlen. rewrite !length_app.
  rewrite !(proj2 (Z.leb_le _ _)) by lia. cbn [andb]. f_equal.
  rewrite Nat2Z.id, take_app_length. f_equal. f_equal.
  replace (Z.to_nat _) with (length pre + length mid)%nat by lia.
  by rewrite app_assoc, <- length_app, drop_app_length.
Qed.

Lemma put_bytes_mid pre mid post bytes at_ :
  at_ = zlen pre → length bytes = length mid →
  put_bytes (pre ++ mid ++ post) at_ bytes = Some (pre ++ bytes ++ post).
Proof.
  revert pre mid at_. induction bytes as [|b bytes IH]; intros pre mid at_ -> Hl.
  { destruct mid; [done|by cbn in Hl]. }
  destruct mid as [|m mid]; [by cbn in Hl|]. cbn [put_bytes].
  rewrite (proj2 (Z.ltb_lt _ _)); [|unfold zlen; rewrite !length_app; cbn [length]; lia].
  unfold zlen at 1. rewrite Nat2Z.id, insert_app_r_alt, Nat.sub_diag by lia. cbn [app insert list_insert].
  specialize (IH (pre ++ [b]) mid (zlen pre + 1)). rewrite <- !app_assoc in IH. cbn [app] in IH.
  apply IH; [rewrite zlen_app; done|by injection Hl].
Qed.

(** The erased tail of a region, cut into the three parts of an object. *)
Lemma region_of_free l n1 n2 n3 :
  0 ≤ n1 → 0 ≤ n2 → 0 ≤ n3 → used l + n1 + n2 + n3 ≤ Sz →
  region_of l = encode_log l ++ replicate (Z.to_nat n1) 0xFF ++ replicate (Z.to_nat n2) 0xFF ++
    replicate (Z.to_nat n3) 0xFF ++ replicate (Z.to_nat (Sz - used l - n1 - n2 - n3)) 0xFF.
Proof.
  intros. unfold region_of. f_equal. rewrite <- !replicate_add. f_equal. lia.
Qed.

Lemma zlen_replicate {A} n (x : A) : 0 ≤ n → zlen (replicate (Z.to_nat n) x) = n.
Proof. intros. unfold zlen. rewrite length_replicate. lia. Qed.

(** Writing the header and the value behind the log. *)
Lemma fill_object_prefix l o n3 :
  0 ≤ n3 → used l + HEADER_LENGTH + zlen (ob_value o) + n3 ≤ Sz →
  put_bytes (region_of l) (used l + VERSION_OFFSET) (header_bytes (ob_header true o)) =
  Some (encode_log l ++ header_bytes (ob_header true o) ++
        replicate (Z.to_nat (zlen (ob_value o))) 0xFF ++ replicate (Z.to_nat n3) 0xFF ++
        replicate (Z.to_nat (Sz - used l - HEADER_LENGTH - zlen (ob_value o) - n3)) 0xFF).
Proof.
  intros Hn Hfit. pose proof (zlen_nonneg (ob_value o)). unfold HEADER_LENGTH, HASH_OFFSET in *.
  rewrite (region_of_free l 11 (zlen (ob_value o)) n3) by lia.
  apply (put_bytes_mid _ (replicate (Z.to_nat 11) 255)); [|done].
  unfold VERSION_OFFSET. by rewrite Z.add_0_r.
Qed.

Lemma fill_object_fits l o :
  ob_valid o = true → used l + ob_len o ≤ Sz →
  fill_object (ob_header true o) (ob_value o) (region_of l) (used l) =
  Ok (region_of (l ++ [o]), encode o).
Proof.
  intros Hv Hfit. unfold ob_len, CHECK_SUM_LEN in Hfit. unfold fill_object.
  pose proof (zlen_nonneg (ob_value o)) as Hz. rewrite (fill_object_prefix l o 4) by lia.
  set (post := replicate (Z.to_nat (Sz - _ - _ - _ - 4)) 255).
  set (hb := header_bytes (ob_header true o)).
  assert (Hhb : zlen hb = 11) by done. unfold VERSION_OFFSET, HASH_OFFSET, HEADER_LENGTH, CHECK_SUM_LEN in *.
  change (HASH_OFFSET + 8) with 11 in *.
  rewrite (get_range_mid (encode_log l) hb) by (unfold used; lia).
  rewrite (app_assoc (encode_log l)).
  rewrite (put_slice_mid (encode_log l ++ hb) (replicate (Z.to_nat (zlen (ob_value o))) 255))
    by (rewrite zlen_app, ?zlen_replicate; unfold used; lia).
  rewrite (app_assoc (encode_log l ++ hb)).
  rewrite (put_slice_mid ((encode_log l ++ hb) ++ ob_value o) (replicate (Z.to_nat 4) 255))
    by (rewrite !zlen_app, ?zlen_replicate; unfold used; lia).
  change (crc_finalise _) with (ob_checksum o). rewrite <- !app_assoc.
  assert (He : encode o = hb ++ ob_value o ++ le_bytes 4 (ob_checksum o)).
  { unfold encode. by rewrite Hv. }
  assert (Hd : hb ++ ob_value o ++ le_bytes 4 (ob_checksum o) ++ post = encode o ++ post).
  { by rewrite He, <- !app_assoc. }
  rewrite Hd.
  rewrite get_range_mid; [|unfold used; lia|].
  - f_equal. f_equal. unfold region_of. rewrite encode_log_app, used_snoc, encode_log_cons, <- app_assoc.
    f_equal. cbn [encode_log fmap list_fmap mjoin list_join app]. rewrite app_nil_r. f_equal.
    subst post. f_equal. unfold ob_len, HEADER_LENGTH, HASH_OFFSET, CHECK_SUM_LEN. lia.
  - rewrite zlen_encode. unfold ob_len, HEADER_LENGTH, HASH_OFFSET, CHECK_SUM_LEN, used. lia.
Qed.

(** The checksum does not fit: the object is refused after the header and the
    value have been written to the buffer. *)
Lemma fill_object_overrun l o :
  used l + HEADER_LENGTH + zlen (ob_value o) ≤ Sz < used l + ob_len o →
  fill_object (ob_header true o) (ob_value o) (region_of l) (used l) = Err ObjectTooLarge.
Proof.
  intros Hfit. unfold ob_len, CHECK_SUM_LEN in Hfit. unfold fill_object.
  pose proof (zlen_nonneg (ob_value o)) as Hz. rewrite (fill_object_prefix l o 0) by lia.
  set (post := replicate (Z.to_nat (Sz - _ - _ - _ - 0)) 255).
  set (hb := header_bytes (ob_header true o)).
  assert (Hhb : zlen hb = 11) by done. unfold VERSION_OFFSET, HASH_OFFSET, HEADER_LENGTH, CHECK_SUM_LEN in *.
  change (HASH_OFFSET + 8) with 11 in *.
  rewrite (get_range_mid (encode_log l) hb) by (unfold used; lia).
  rewrite (app_assoc (encode_log l)).
  rewrite (put_slice_mid (encode_log l ++ hb) (replicate (Z.to_nat (zlen (ob_value o))) 255))
    by (rewrite zlen_app, ?zlen_replicate; unfold used; lia).
  unfold put_slice. rewrite !zlen_app. subst post. rewrite !zlen_replicate by lia.
  unfold used in *. match goal with |- context [if ?b then _ else _] => destruct b eqn:Hle end; [|done].
  rewrite !andb_true_iff, !Z.leb_le in Hle. lia.
Qed.

(** *** Reading an object *)

Lemma copy_value_spec vs data at_ i buf crc :
  (∀ j : nat, (j < length vs)%nat → get data (at_ + i + Z.of_nat j) = vs !! j) →
  0 ≤ i → i + zlen vs ≤ zlen buf →
  copy_value (length vs) data at_ i buf crc =
  (true, take (Z.to_nat i) buf ++ vs ++ drop (Z.to_nat i + length vs) buf, crc_update crc vs).
Proof.
  revert i buf crc. induction vs as [|v vs IH]; intros i buf crc Hd Hi Hfit; cbn [length copy_value].
  { by rewrite Nat.add_0_r, app_nil_l, take_drop. }
  pose proof (Hd 0%nat ltac:(cbn; lia)) as H0. rewrite Z.add_0_r in H0. rewrite H0. cbn [lookup list_lookup].
  unfold zlen in Hfit. cbn [length] in Hfit.
  rewrite (proj2 (Z.ltb_lt _ _)) by (unfold zlen; lia).
  rewrite IH.
  - change (crc_update crc (v :: vs)) with (crc_update (crc_update crc [v]) vs). f_equal. f_equal.
    rewrite drop_insert_lt by lia. replace (Z.to_nat (i + 1)) with (S (Z.to_nat i)) by lia.
    rewrite (take_S_r _ _ v) by (apply list_lookup_insert_eq; lia).
    rewrite take_insert_ge by lia. rewrite <- app_assoc. cbn [app].
    by replace (Z.to_nat i + S (length vs))%nat with (S (Z.to_nat i) + length vs)%nat by lia.
  - intros j Hj. replace (at_ + (i + 1) + Z.of_nat j) with (at_ + i + Z.of_nat (S j)) by lia.
    rewrite Hd by (cbn; lia). done.
  - lia.
  - unfold zlen. rewrite length_insert. lia.
Qed.

Lemma checksum_matches_ok cs data end_ k :
  (k ≤ length cs)%nat → (∀ j : nat, (j < k)%nat → get data (end_ - 4 + Z.of_nat j) = cs !! j) →
  checksum_matches cs data end_ k = Some true.
Proof.
  intros Hk Hd. induction k as [|k IH]; [done|]. cbn [checksum_matches].
  rewrite Hd by lia. unfold get. rewrite Nat2Z.id.
  destruct (lookup_lt_is_Some_2 cs k) as [x ->]; [lia|]. rewrite Z.eqb_refl.
  apply IH; [lia|]. intros j Hj. apply Hd. lia.
Qed.

(** The bytes of the value and of the checksum in the region. *)
Lemma region_value pre o l j :
  (j < length (ob_value o))%nat →
  get (region_of (pre ++ o :: l)) (used pre + HEADER_LENGTH + Z.of_nat j) = ob_value o !! j.
Proof.
  intros Hj. rewrite region_of_split. unfold encode. rewrite <- !app_assoc.
  rewrite (app_assoc (encode_log pre)). rewrite (get_mid _ _ _ _ (Z.of_nat j)); [by rewrite Nat2Z.id| |].
  - rewrite zlen_app. unfold used. change (zlen (header_bytes _)) with 11. done.
  - unfold zlen. lia.
Qed.

Lemma region_checksum pre o l j :
  (j < 4)%nat →
  get (region_of (pre ++ o :: l)) (used pre + ob_len o - 4 + Z.of_nat j) =
  le_bytes 4 (ob_checksum o) !! j.
Proof.
  intros Hj. rewrite region_of_split. unfold encode. rewrite <- !app_assoc.
  rewrite (app_assoc (encode_log pre)), (app_assoc (encode_log pre ++ _)).
  rewrite (get_mid _ _ _ _ (Z.of_nat j)); [by rewrite Nat2Z.id| |].
  - rewrite !zlen_app. unfold used, ob_len, HEADER_LENGTH, HASH_OFFSET, CHECK_SUM_LEN.
    change (zlen (header_bytes _)) with 11. lia.
  - rewrite zlen_le_bytes. lia.
Qed.

Lemma read_value_log pre o l buf :
  ob_valid o = true →
  read_value (region_of (pre ++ o :: l)) (used pre) (ob_len o) buf =
  Ret (if zlen buf <? zlen (ob_value o)
       then (Err (BufferTooSmall (zlen (ob_value o))), take (length buf) (ob_value o), true)
       else (Ok (Complete, zlen (ob_value o)), ob_value o ++ drop (length (ob_value o)) buf, true)).
Proof.
  intros Hv. unfold read_value. pose proof (zlen_nonneg (ob_value o)).
  assert (get_range (region_of (pre ++ o :: l)) (used pre) (HEADER_LENGTH + used pre) =
          Some (header_bytes (ob_header true o))) as ->.
  { rewrite region_of_split. unfold encode. rewrite Hv, <- !app_assoc.
    apply get_range_mid; unfold used; [lia|]. change (zlen (header_bytes _)) with 11.
    unfold HEADER_LENGTH, HASH_OFFSET. lia. }
  assert (Hl : ob_len o = HEADER_LENGTH + zlen (ob_value o) + CHECK_SUM_LEN) by done.
  unfold HEADER_LENGTH, HASH_OFFSET, CHECK_SUM_LEN in *. ustep.
  replace (ob_len o - (3 + 8) - 4) with (zlen (ob_value o)) by lia.
  destruct (Z.ltb_spec (zlen buf) (zlen (ob_value o))) as [Hs|Hs].
  - assert (Hlen : length (take (length buf) (ob_value o)) = length buf).
    { rewrite length_take. unfold zlen in Hs. lia. }
    rewrite <- Hlen at 1. rewrite copy_value_spec.
    + rewrite Hlen, drop_ge by lia. by rewrite app_nil_r.
    + intros j Hj. rewrite lookup_take_lt by lia. rewrite Z.add_0_r. apply region_value. unfold zlen in Hs. lia.
    + lia.
    + unfold zlen. rewrite Hlen. lia.
  - unfold zlen at 1. rewrite Nat2Z.id, copy_value_spec.
    + cbn [negb]. fold (ob_checksum o). rewrite checksum_matches_ok; [done|by rewrite length_le_bytes|].
      intros j Hj. by apply region_checksum.
    + intros j Hj. rewrite Z.add_0_r. by apply region_value.
    + lia.
    + lia.
Qed.

(** *** Invalidating an object *)

Definition kill (o : object) : object := mkObject false (ob_hash o) (ob_value o).

Lemma ob_len_kill o : ob_len (kill o) = ob_len o.
Proof. done. Qed.

Lemma object_wf_kill o : object_wf o → object_wf (kill o).
Proof. done. Qed.

Lemma used_kill pre o l : used (pre ++ kill o :: l) = used (pre ++ o :: l).
Proof. by rewrite !used_app, !used_cons. Qed.

Lemma region_of_kill pre o l :
  object_wf o →
  ∃ b, get (region_of (pre ++ o :: l)) (used pre + LEN_OFFSET) = Some b ∧
    <[Z.to_nat (used pre + LEN_OFFSET) := Z.land b 0x7F]> (region_of (pre ++ o :: l)) =
    region_of (pre ++ kill o :: l).
Proof.
  intros Ho. exists (len_byte1 (ob_valid o) (ob_len o)). rewrite !region_of_split.
  destruct (encode_head (encode_log pre) o (encode_log l ++
    replicate (Z.to_nat (Sz - used (pre ++ o :: l))) 255) Ho) as (_ & Hb & _).
  split; [exact Hb|]. destruct Ho as (_ & Hl & _). pose proof (ob_len_ge o).
  destruct (length_bytes (ob_valid o) (ob_len o)) as (_ & _ & ->); [lia|].
  rewrite used_kill. unfold used, LEN_OFFSET, zlen.
  replace (Z.to_nat (Z.of_nat (length (encode_log pre)) + 1)) with (length (encode_log pre) + 1)%nat by lia.
  rewrite insert_app_r. f_equal.
Qed.
End region.
