(* ===== verification/TickvProbe.v ===== *)
(** * The order in which TicKV visits regions

    An object is looked for, or placed, first in the region its hash selects
    and then in the neighbours [1, -1, 2, -2, ..] away that exist
    ([increment_region_offset]).  This file shows that the walk visits every
    region exactly once, and turns the loops over regions of Tickv.v into walks
    along that order. *)

From S2P Require Import Prelude Bytes Tickv.

Section probe.
(** The number of regions and the region of the hash. *)
Context (N home : Z).

(** The next offset in range: the next of the sequence, or the one after it. *)
Definition next_region (o : Z) : option Z :=
  let in_range o := (0 <=? home + o) && (home + o <? N) in
  if in_range (next_offset o) then Some (next_offset o)
  else if in_range (next_offset (next_offset o)) then Some (next_offset (next_offset o))
  else None.

Definition valid_offset (o : Z) : Prop := 0 ≤ home + o < N.

(** Position of an offset in the sequence [0, 1, -1, 2, -2, ..]. *)
Definition position (o : Z) : Z := if 0 <? o then 2 * o - 1 else - 2 * o.

Lemma position_next o : position (next_offset o) = position o + 1.
Proof. unfold position, next_offset. split_tests; lia. Qed.

Lemma position_inj o p : position o = position p → o = p.
Proof. unfold position. split_tests; lia. Qed.

Lemma position_bound o : 0 ≤ home < N → valid_offset o → 0 ≤ position o < 2 * N.
Proof. unfold position, valid_offset. split_tests; lia. Qed.

(** [next_region] is the next valid offset of the sequence, if there is one. *)
Lemma next_region_spec o :
  0 ≤ home < N → valid_offset o →
  match next_region o with
  | Some p => valid_offset p ∧ position o < position p ∧
      ∀ q, valid_offset q → position o < position q → position p ≤ position q
  | None => ∀ q, valid_offset q → position q ≤ position o
  end.
Proof.
  intros Hh Ho. unfold next_region, valid_offset in *.
  repeat match goal with
  | |- context [if (0 <=? ?a) && (?a <? N) then _ else _] =>
      destruct (Z.leb_spec 0 a), (Z.ltb_spec a N); cbn [andb]
  end;
  repeat split; try (intros q Hq); rewrite ?position_next;
  unfold position, next_offset in *; split_tests; lia.
Qed.

(** What [increment_region_offset] computes, and that its loop ends. *)
Lemma increment_region_offset_next Sz fuel flash_size o :
  0 ≤ home < N → num_region Sz flash_size = N → valid_offset o → (3 ≤ fuel)%nat →
  increment_region_offset Sz fuel flash_size home o = Some (next_region o).
Proof.
  intros Hh HN Ho Hf. unfold increment_region_offset.
  do 3 (destruct fuel as [|fuel]; [lia|]). cbn [increment_loop negb orb]. rewrite HN.
  unfold next_region, valid_offset in *.
  set (p := next_offset o). set (q := next_offset p).
  assert (Hp : p = next_offset o) by done. assert (Hq : q = next_offset p) by done.
  clearbody p q. unfold next_offset in Hp, Hq.
  destruct (Z.ltb_spec (N - 1) (home + p)), (Z.ltb_spec (home + p) 0), (Z.leb_spec 0 (home + p)),
    (Z.ltb_spec (home + p) N); cbn [andb negb orb]; try done; try lia;
  destruct (Z.ltb_spec (N - 1) (home + q)), (Z.ltb_spec (home + q) 0), (Z.leb_spec 0 (home + q)),
    (Z.ltb_spec (home + q) N); cbn [andb negb orb]; try done; try lia;
  exfalso; revert Hp Hq; split_tests; lia.
Qed.

(** ** The offsets after [o], in order *)

Fixpoint offsets_after (k : nat) (o : Z) : list Z :=
  match k with
  | O => []
  | S k => match next_region o with Some p => p :: offsets_after k p | None => [] end
  end.

Lemma offsets_after_fuel k k' o :
  0 ≤ home < N → valid_offset o →
  2 * N ≤ Z.of_nat k + position o → 2 * N ≤ Z.of_nat k' + position o →
  offsets_after k o = offsets_after k' o.
Proof.
  intros Hh. revert k' o. induction k as [|k IH]; intros k' o Ho Hk Hk'.
  { pose proof (position_bound o Hh Ho). lia. }
  destruct k' as [|k']. { pose proof (position_bound o Hh Ho). lia. }
  cbn [offsets_after]. pose proof (next_region_spec o Hh Ho) as Hn.
  destruct (next_region o) as [p|]; [|done]. destruct Hn as (Hp & Hlt & _).
  f_equal. apply IH; [done|lia..].
Qed.

Definition rest (o : Z) : list Z := offsets_after (Z.to_nat (2 * N)) o.

Lemma rest_unfold o :
  0 ≤ home < N → valid_offset o →
  rest o = match next_region o with Some p => p :: rest p | None => [] end.
Proof.
  intros Hh Ho. pose proof (position_bound o Hh Ho). transitivity (offsets_after (S (Z.to_nat (2 * N))) o).
  - apply offsets_after_fuel; [done..|lia|lia].
  - cbn [offsets_after]. by destruct (next_region o).
Qed.

Lemma rest_ind (Q : Z → list Z → Prop) :
  0 ≤ home < N →
  (∀ o, valid_offset o → next_region o = None → Q o []) →
  (∀ o p, valid_offset o → valid_offset p → next_region o = Some p → position o < position p →
     Q p (rest p) → Q o (p :: rest p)) →
  ∀ o, valid_offset o → Q o (rest o).
Proof.
  intros Hh Hnone Hsome o.
  remember (Z.to_nat (2 * N - position o)) as m eqn:Em. revert o Em.
  induction m as [m IH] using lt_wf_ind. intros o -> Ho.
  rewrite rest_unfold by done. pose proof (next_region_spec o Hh Ho) as Hn.
  destruct (next_region o) as [p|] eqn:En; [|by apply Hnone]. destruct Hn as (Hp & Hlt & _).
  pose proof (position_bound o Hh Ho). pose proof (position_bound p Hh Hp).
  apply Hsome; [done..|]. eapply IH; [|done|done]. lia.
Qed.

(** The offsets after [o] are the valid ones further on in the sequence, each
    once. *)
Lemma elem_of_rest o q :
  0 ≤ home < N → valid_offset o → q ∈ rest o ↔ valid_offset q ∧ position o < position q.
Proof.
  intros Hh Ho. revert q.
  refine (rest_ind (λ o l, ∀ q, q ∈ l ↔ valid_offset q ∧ position o < position q) Hh _ _ o Ho);
    clear o Ho.
  - intros o Ho En q. pose proof (next_region_spec o Hh Ho) as Hn. rewrite En in Hn.
    split; [by intros ?%not_elem_of_nil|]. intros [Hq Hlt]. specialize (Hn q Hq). lia.
  - intros o p Ho Hp En Hlt IH q. rewrite elem_of_cons, IH.
    pose proof (next_region_spec o Hh Ho) as Hn. rewrite En in Hn. destruct Hn as (_ & _ & Hmin).
    split; [intros [->|[? ?]]; [done|split; [done|lia]]|].
    intros [Hq Hpos]. specialize (Hmin q Hq Hpos).
    destruct (decide (q = p)) as [->|]; [by left|]. right. split; [done|].
    assert (position q ≠ position p) by (intros E; by apply position_inj in E). lia.
Qed.

Lemma NoDup_rest o : 0 ≤ home < N → valid_offset o → NoDup (rest o).
Proof.
  intros Hh Ho. refine (rest_ind (λ _ l, NoDup l) Hh _ _ o Ho); clear o Ho.
  - intros. constructor.
  - intros o p Ho Hp En Hlt IH. apply NoDup_cons. split; [|done].
    rewrite elem_of_rest by done. lia.
Qed.

(** The regions in the order they are visited. *)
Definition region_order : list Z := home :: ((λ o, home + o) <$> rest 0).

Lemma valid_offset_0 : 0 ≤ home < N → valid_offset 0.
Proof. unfold valid_offset. lia. Qed.

Lemma region_order_perm : 0 ≤ home < N → region_order ≡ₚ seqZ 0 N.
Proof.
  intros Hh. pose proof (valid_offset_0 Hh) as H0. apply NoDup_Permutation.
  - apply NoDup_cons. split.
    + rewrite list_elem_of_fmap. intros (o & Ho & Hin). apply elem_of_rest in Hin as [_ Hlt]; [|done..].
      assert (o = 0) as -> by lia. lia.
    + apply NoDup_fmap; [intros x y; lia|]. by apply NoDup_rest.
  - apply NoDup_seqZ.
  - intros r. unfold region_order. rewrite elem_of_cons, list_elem_of_fmap, elem_of_seqZ. split.
    + intros [->|(o & -> & Hin)]; [lia|]. apply elem_of_rest in Hin as [Hv _]; [|done..].
      unfold valid_offset in Hv. lia.
    + intros Hr. destruct (decide (r = home)) as [->|]; [by left|]. right. exists (r - home).
      split; [lia|]. apply elem_of_rest; [done..|]. unfold valid_offset, position.
      split; [lia|]. split_tests; lia.
Qed.

Lemma length_rest : 0 ≤ home < N → Z.of_nat (length (rest 0)) = N - 1.
Proof.
  intros Hh. pose proof (region_order_perm Hh) as Hp. apply Permutation_length in Hp.
  unfold region_order in Hp. cbn [length] in Hp. rewrite length_fmap, length_seqZ in Hp. lia.
Qed.
End probe.

(** ** The walk the code makes *)

(** The regions an operation visits when it never stops early: the region at
    offset [o], then those [increment_region_offset] leads to. *)
Fixpoint visited (Sz : Z) (fuel k : nat) (flash_size home o : Z) : list Z :=
  home + o ::
  match k with
  | O => []
  | S k =>
      match increment_region_offset Sz fuel flash_size home o with
      | Some (Some p) => visited Sz fuel k flash_size home p
      | _ => []
      end
  end.

Lemma visited_rest Sz fuel k flash_size home o :
  0 ≤ home < num_region Sz flash_size → (3 ≤ fuel)%nat →
  valid_offset (num_region Sz flash_size) home o →
  (length (rest (num_region Sz flash_size) home o) ≤ k)%nat →
  visited Sz fuel k flash_size home o =
  home + o :: ((λ o, home + o) <$> rest (num_region Sz flash_size) home o).
Proof.
  intros Hh Hf. revert o. induction k as [|k IH]; intros o Ho Hk; cbn [visited].
  - destruct (rest _ _ _); [done|cbn in Hk; lia].
  - rewrite (increment_region_offset_next (num_region Sz flash_size)) by done.
    rewrite rest_unfold in Hk by done. rewrite rest_unfold by done.
    pose proof (next_region_spec _ _ o Hh Ho) as Hn.
    destruct (next_region _ _ o) as [p|]; [|done]. destruct Hn as (Hp & _).
    rewrite IH; [done..|cbn [length] in Hk; lia].
Qed.

(** The walk over the regions that [append_key], [get_key] and
    [invalidate_key] make with [increment_region_offset] ends after one step
    per region and visits every region of the flash exactly once, starting with
    the one the hash selects. *)
Theorem regions_visited_once (Sz flash_size home : Z) :
  0 ≤ home < num_region Sz flash_size →
  visited Sz 3 (Z.to_nat (num_region Sz flash_size)) flash_size home 0 ≡ₚ
    seqZ 0 (num_region Sz flash_size) ∧
  head (visited Sz 3 (Z.to_nat (num_region Sz flash_size)) flash_size home 0) = Some home.
Proof.
  intros Hh. pose proof (length_rest _ _ Hh).
  rewrite visited_rest by (done || lia || by apply valid_offset_0). cbn [head].
  rewrite Z.add_0_r. split; [|done]. by apply region_order_perm.
Qed.

Lemma regions_visited_once_witness :
  visited 64 3 5 320 3 0 = [3; 4; 2; 1; 0] ∧ visited 64 3 5 320 3 0 ≡ₚ seqZ 0 5.
Proof.
  split; [reflexivity|]. apply (regions_visited_once 64 320 3). vm_compute. split; [discriminate|reflexivity].
Defined.

(** ** Loops over regions as walks *)

(** What an operation does along a list of regions, given what it does at one:
    [Some] stops with a result, [None] goes on, and [fail] is the result when
    the list ends. *)
Fixpoint walk {R : Type} (visit : Z → option R) (fail : R) (regs : list Z) : R :=
  match regs with
  | [] => fail
  | r :: regs => match visit r with Some x => x | None => walk visit fail regs end
  end.

(** A loop whose step implements [visit] on the states related by [rep] is the
    walk. *)
Lemma region_loop_walk {C A T : Type} (step : Z → M C (Z * option A)) (N home : Z)
    (rep : TicKV C → T → Prop) (a : T) (visit : Z → option (A * T)) (fail : A) :
  0 ≤ home < N →
  (∀ o t, valid_offset N home o → rep t a →
     match visit (home + o) with
     | Some (r, a') => ∃ o' t', step o t = Done (o', Some r) t' ∧ rep t' a'
     | None =>
         match next_region N home o with
         | Some p => ∃ t', step o t = Done (p, None) t' ∧ rep t' a
         | None => ∃ o' t', step o t = Done (o', Some fail) t' ∧ rep t' a
         end
     end) →
  ∀ k o t, valid_offset N home o → rep t a → (length (rest N home o) < k)%nat →
  ∃ t', region_loop step k o t =
          Done (walk visit (fail, a) (home + o :: ((λ o, home + o) <$> rest N home o))).1 t' ∧
        rep t' (walk visit (fail, a) (home + o :: ((λ o, home + o) <$> rest N home o))).2.
Proof.
  intros Hh Hstep k. induction k as [|k IH]; intros o t Ho Hr Hk; [lia|].
  cbn [region_loop walk]. specialize (Hstep o t Ho Hr).
  destruct (visit (home + o)) as [[r a']|].
  { destruct Hstep as (o' & t' & E & Hr'). exists t'. unfold mbind, M_bind. by rewrite E. }
  rewrite rest_unfold in Hk by done. rewrite rest_unfold by done.
  pose proof (next_region_spec _ _ o Hh Ho) as Hn.
  destruct (next_region N home o) as [p|].
  - destruct Hstep as (t' & E & Hr'). destruct Hn as (Hp & _).
    destruct (IH p t' Hp Hr') as (t'' & E' & Hr''); [cbn [length] in Hk; lia|].
    exists t''. unfold mbind, M_bind. rewrite E. split; [exact E'|exact Hr''].
  - destruct Hstep as (o' & t' & E & Hr'). exists t'. unfold mbind, M_bind. by rewrite E.
Qed.

Lemma region_loop_once {C A} (step : Z → M C (Z * option A)) k o t o' x t' :
  (1 ≤ k)%nat → step o t = Done (o', Some x) t' → region_loop step k o t = Done x t'.
Proof. intros Hk E. destruct k as [|k]; [lia|]. cbn [region_loop]. unfold mbind, M_bind. by rewrite E. Qed.

Lemma region_loop_twice {C A} (step : Z → M C (Z * option A)) k o t p t1 o' x t2 :
  (2 ≤ k)%nat → step o t = Done (p, None) t1 → step p t1 = Done (o', Some x) t2 →
  region_loop step k o t = Done x t2.
Proof.
  intros Hk E1 E2. destruct k as [|k]; [lia|]. cbn [region_loop]. unfold mbind, M_bind.
  rewrite E1. eapply region_loop_once; [lia|done].
Qed.
