(* ===== verification/TickvStore.v ===== *)
(** * The abstract store of TicKV

    The contract of a flash controller, the abstract store - a list of logs, one
    per region, and a flag that says whether the read buffer is still there -
    with its operations, walks along the order of regions, and the relation
    between it and the store of Tickv.v.  The lemmas at the end show what one
    iteration of the code does to the abstract store once a region is in the
    read buffer; TickvTheorems.v and TickvAsync.v use them for controllers that
    complete at once and for controllers that call back. *)

From S2P Require Import Prelude Bytes Crc32 Tickv TickvLog TickvProbe.

(** ** The contract of a flash controller

    flash_controller.rs: writes write the bytes and erasing sets every byte of a
    region, at once or ([async]) after returning a NotReady code; reads fill the
    buffer, or return [ReadNotReady] with the region and fill it later.  A write
    is only promised to work when it clears bits, as flash does. *)

Definition programmable (old new : list Z) : Prop := Forall2 (λ a b, Z.land a b = b) old new.

(** The code of a completed or queued write. *)
Definition write_code (async : bool) : SuccessCode := if async then Queued else Written.

Class FlashLaws (async : bool) (C : Type) `{!FlashController C} (Sz N : Z) := {
  contents : C → Z → list Z;
  read_region_ok c r buf :
    0 ≤ r < N → zlen buf = Sz →
    ∃ x b c', read_region r 0 buf c = (x, b, c') ∧ (∀ r', contents c' r' = contents c r') ∧
      if async then x = Err (ReadNotReady r) ∧ zlen b = Sz else x = Ok () ∧ b = contents c r;
  flash_write_ok c r pre old post new :
    0 ≤ r < N → zlen pre < Sz → contents c r = pre ++ old ++ post → programmable old new →
    ∃ x c', flash_write (Sz * r + zlen pre) new c = (x, c') ∧
      (if async then ∃ n, x = Err (WriteNotReady n) else x = Ok ()) ∧
      ∀ r', contents c' r' = if r' =? r then pre ++ new ++ post else contents c r';
  erase_region_ok c r :
    0 ≤ r < N →
    ∃ x c', erase_region r c = (x, c') ∧
      (if async then x = Err (EraseNotReady r) else x = Ok ()) ∧
      ∀ r', contents c' r' = if r' =? r then replicate (Z.to_nat Sz) 0xFF else contents c r'
}.

(** ** The abstract store *)

Record store := mkStore { logs : list (list object); usable : bool }.

Definition log (a : store) (r : Z) : list object := logs a !!! Z.to_nat r.
Definition set_log (a : store) (r : Z) (l : list object) : store :=
  mkStore (<[Z.to_nat r := l]> (logs a)) (usable a).

Definition live (h : Z) (o : object) : bool := ob_valid o && bool_decide (ob_hash o = h).

(** The first live object of the hash is marked dead. *)
Fixpoint kill_first (h : Z) (l : list object) : list object :=
  match l with
  | [] => []
  | o :: l => if live h o then kill o :: l else o :: kill_first h l
  end.

(** A region none of whose objects is live is emptied. *)
Definition collect_log (l : list object) : list object := if existsb ob_valid l then l else [].

Section spec.
Context (Sz N : Z).

Definition home_of (h : Z) : Z := Z.land (wrap32 h) 0xFFFF mod N.
Definition bad_hash (h : Z) : bool := (h =? 0xFFFFFFFFFFFFFFFF) || (h =? 0).

Lemma home_of_bounds h : 1 ≤ N → 0 ≤ home_of h < N.
Proof. intros. unfold home_of. apply Z.mod_pos_bound. lia. Qed.

Lemma get_region_home fs h :
  1 ≤ N → num_region Sz fs = N →
  get_region Sz fs h = if bad_hash h then Panic else Ret (home_of h).
Proof.
  intros HN HNr. unfold get_region, bad_hash. destruct (_ || _); [done|]. rewrite HNr.
  rewrite urem_ok by lia. done.
Qed.

(** A miss in this log ends a search: nothing is in it, or no header fits
    behind it. *)
Definition stops (l : list object) : bool :=
  (Sz <=? used l + HEADER_LENGTH) || bool_decide (l = []).

(** What a caller gets for an object. *)
Definition value_reply (o : object) (buf : list Z) : result (SuccessCode * Z) ErrorCode * list Z :=
  if zlen buf <? zlen (ob_value o)
  then (Err (BufferTooSmall (zlen (ob_value o))), take (length buf) (ob_value o))
  else (Ok (Complete, zlen (ob_value o)), ob_value o ++ drop (length (ob_value o)) buf).

Definition get_visit (a : store) (h : Z) (buf : list Z) (r : Z)
    : option (result (SuccessCode * Z) ErrorCode * list Z * store) :=
  match find (live h) (log a r) with
  | Some o => Some (value_reply o buf, a)
  | None => if stops (log a r) then Some (Err KeyNotFound, buf, a) else None
  end.

Definition append_visit (code : SuccessCode) (a : store) (h : Z) (v : list Z) (r : Z)
    : option (result SuccessCode ErrorCode * store) :=
  let o := mkObject true h v in
  match find (live h) (log a r) with
  | Some _ => Some (Err KeyAlreadyExists, a)
  | None =>
      if Sz <=? used (log a r) + (HEADER_LENGTH + zlen v) then None
      else if used (log a r) + ob_len o <=? Sz
      then Some (Ok code, set_log a r (log a r ++ [o]))
      else Some (Err ObjectTooLarge, mkStore (logs a) false)
  end.

Definition invalidate_visit (code : SuccessCode) (a : store) (h : Z) (r : Z)
    : option (result SuccessCode ErrorCode * store) :=
  match find (live h) (log a r) with
  | Some _ => Some (Ok code, set_log a r (kill_first h (log a r)))
  | None => if stops (log a r) then Some (Err KeyNotFound, a) else None
  end.

Definition spec_get (h : Z) (buf : list Z) (a : store)
    : outcome (result (SuccessCode * Z) ErrorCode * list Z * store) :=
  if bad_hash h || negb (usable a) then Panic
  else Ret (walk (get_visit a h buf) (Err KeyNotFound, buf, a) (region_order N (home_of h))).

Definition spec_append (h : Z) (v : list Z) (a : store)
    : outcome (result SuccessCode ErrorCode * store) :=
  if bad_hash h then Panic else
  if 0xFFF <? ob_len (mkObject true h v) then Ret (Err ObjectTooLarge, a) else
  if (0xFFF <=? ob_len (mkObject true h v)) || negb (usable a) then Panic
  else Ret (walk (append_visit Written a h v) (Err FlashFull, a) (region_order N (home_of h))).

Definition spec_invalidate (h : Z) (a : store) : outcome (result SuccessCode ErrorCode * store) :=
  if bad_hash h || negb (usable a) then Panic
  else Ret (walk (invalidate_visit Written a h) (Err KeyNotFound, a) (region_order N (home_of h))).

(** Bytes freed by collecting a log. *)
Definition freed (l : list object) : Z :=
  if negb (existsb ob_valid l) && bool_decide (l ≠ []) then Sz else 0.

Definition spec_collect (a : store) : outcome (result Z ErrorCode * store) :=
  if negb (usable a) then Panic
  else Ret (Ok (foldr Z.add 0 (freed <$> logs a)), mkStore (collect_log <$> logs a) true).

(** All regions erased. *)
Definition blank (a : store) : store := mkStore ((λ _, []) <$> logs a) (usable a).

Definition spec_initialise (h : Z) (a : store) : outcome (result SuccessCode ErrorCode * store) :=
  '(r, _, a) ← spec_get h [] a;
  match r with
  | Ok (ret, _) => Ret (Ok ret, a)
  | Err _ => spec_append h [] (blank a)
  end.

(** ** Searching a log *)

Lemma log_find_miss h l off empty :
  find (live h) l = None →
  log_find Sz h l off empty =
  Err (negb (Sz <=? off + used l + HEADER_LENGTH) && (negb empty || bool_decide (l ≠ [])), KeyNotFound).
Proof.
  revert off empty. induction l as [|o l IH]; intros off empty Hf; cbn [log_find].
  - rewrite used_nil, Z.add_0_r, bool_decide_false by auto. rewrite orb_false_r.
    by destruct (Sz <=? off + HEADER_LENGTH).
  - cbn [find] in Hf. fold (live h o). destruct (live h o); [done|]. rewrite IH by done.
    rewrite used_cons, Z.add_assoc. cbn [negb orb]. rewrite bool_decide_true by done.
    by rewrite orb_true_r.
Qed.

Lemma log_find_hit h l o off empty :
  find (live h) l = Some o →
  ∃ pre post, l = pre ++ o :: post ∧ live h o = true ∧ kill_first h l = pre ++ kill o :: post ∧
    log_find Sz h l off empty = Ok (off + used pre, ob_len o).
Proof.
  revert off empty. induction l as [|x l IH]; intros off empty Hf; [done|]. cbn [find] in Hf.
  cbn [log_find kill_first]. fold (live h x). destruct (live h x) eqn:Hx.
  - injection Hf as ->. exists [], l. split_and!; [done..|]. by rewrite used_nil, Z.add_0_r.
  - destruct (IH (off + ob_len x) false Hf) as (pre & post & -> & Ho & Hk & ->).
    exists (x :: pre), post. rewrite Hk, used_cons, Z.add_assoc. done.
Qed.

Lemma find_key_offset_miss fuel h l :
  u64 h → log_wf Sz l → Sz < Z.of_nat fuel → find (live h) l = None →
  find_key_offset Sz fuel h (region_of Sz l) = Some (Err (negb (stops l), KeyNotFound)).
Proof.
  intros Hh Hwf Hf Hm. unfold find_key_offset. pose proof (used_length l). destruct Hwf as [Hw Hu].
  pose proof (find_loop_log Sz fuel h [] l true Hh (conj Hw Hu) ltac:(lia)) as E.
  cbn [app] in E. change (used []) with 0 in E. rewrite E, log_find_miss by done.
  do 3 f_equal. unfold stops. rewrite negb_orb. f_equal.
  destruct l; [by rewrite bool_decide_false by auto|by rewrite bool_decide_true].
Qed.

Lemma find_key_offset_hit fuel h l o :
  u64 h → log_wf Sz l → Sz < Z.of_nat fuel → find (live h) l = Some o →
  ∃ pre post, l = pre ++ o :: post ∧ live h o = true ∧ kill_first h l = pre ++ kill o :: post ∧
    find_key_offset Sz fuel h (region_of Sz l) = Some (Ok (used pre, ob_len o)).
Proof.
  intros Hh Hwf Hf Hm. pose proof (used_length l). destruct Hwf as [Hw Hu].
  destruct (log_find_hit h l o 0 true Hm) as (pre & post & Hl & Ho & Hk & E).
  exists pre, post. split_and!; [done..|]. unfold find_key_offset.
  pose proof (find_loop_log Sz fuel h [] l true Hh (conj Hw Hu) ltac:(lia)) as E'.
  cbn [app] in E'. change (used []) with 0 in E'. by rewrite E', E.
Qed.

Lemma scan_log fuel package_length l :
  log_wf Sz l → 11 ≤ package_length → Sz < Z.of_nat fuel →
  scan_loop Sz fuel package_length (region_of Sz l) 0 =
  Some (if Sz <=? used l + package_length then ScanNextRegion else ScanSpot (used l)).
Proof.
  intros Hwf Hp Hf. pose proof (used_length l). destruct Hwf as [Hw Hu].
  apply (scan_loop_log Sz fuel package_length [] l); [done|done|lia].
Qed.
End spec.

Lemma log_set_log a r l r' :
  0 ≤ r < Z.of_nat (length (logs a)) → 0 ≤ r' →
  log (set_log a r l) r' = if r' =? r then l else log a r'.
Proof.
  intros Hr Hr'. unfold log, set_log. cbn [logs]. destruct (Z.eqb_spec r' r) as [->|Hne].
  - rewrite list_lookup_total_insert_eq by lia. done.
  - rewrite list_lookup_total_insert_ne by lia. done.
Qed.

(** Run the operations of the monad on a store in normal form. *)
Ltac run_step :=
  repeat progress (unfold mbind, M_bind, mret, M_ret, ctl_read, ctl_write, ctl_erase, set_state;
    cbn [of_outcome of_fuel get_state set_state take_buffer put_buffer get_flash_size
         ctl_read ctl_write ctl_erase controller flash_size read_buffer state
         get_region_of_state append_region invalidate_region_of_state load_region after_miss
         orb negb]).

(** ** The relation *)

Section rep.
Context {async : bool} {C : Type} `{!FlashController C} (Sz N : Z) `{!FlashLaws async C Sz N} (fuel : nat).

(** The store [t] holds the logs of [a]; [P] is what is known of its state. *)
Record rep (P : State → Prop) (t : TicKV C) (a : store) : Prop := mkRep {
  rep_regions : num_region Sz (flash_size t) = N;
  rep_logs : Z.of_nat (length (logs a)) = N;
  rep_contents r : 0 ≤ r < N → contents (controller t) r = region_of Sz (log a r);
  rep_wf r : 0 ≤ r < N → log_wf Sz (log a r);
  rep_buffer : if usable a then ∃ b, read_buffer t = Some b ∧ zlen b = Sz
               else read_buffer t = None;
  rep_state : P (state t)
}.

Definition idle (s : State) : Prop := s = StateNone.

Lemma rep_weaken (P Q : State → Prop) t a : (P (state t) → Q (state t)) → rep P t a → rep Q t a.
Proof. intros HPQ [? ? ? ? ? ?]. constructor; auto. Qed.

Lemma rep_set_state P Q t a st :
  rep P t a → Q st → rep Q (mkTicKV (controller t) (flash_size t) (read_buffer t) st) a.
Proof. intros [? ? ? ? ? ?] HQ. by constructor. Qed.

(** The store with another log in one region: what is left to show after a
    write or an erase. *)
Lemma rep_set_log_buffer P fs st c a r l b :
  zlen b = Sz → num_region Sz fs = N → Z.of_nat (length (logs a)) = N → 0 ≤ r < N →
  (∀ r', 0 ≤ r' < N → log_wf Sz (log a r')) → log_wf Sz l → P st → usable a = true →
  (∀ r', 0 ≤ r' < N → contents c r' = if r' =? r then region_of Sz l else region_of Sz (log a r')) →
  rep P (mkTicKV c fs (Some b) st) (set_log a r l).
Proof.
  intros Hb Hfs Hl Hr Hwf Hwl HP Hu Hc. constructor; cbn; try done.
  - by rewrite length_insert.
  - intros r' Hr'. rewrite Hc, log_set_log by lia. by destruct (r' =? r).
  - intros r' Hr'. rewrite log_set_log by lia. destruct (r' =? r); auto.
  - rewrite Hu. by eexists.
Qed.

Lemma rep_set_log P fs st c a r l :
  num_region Sz fs = N → Z.of_nat (length (logs a)) = N → 0 ≤ r < N →
  (∀ r', 0 ≤ r' < N → log_wf Sz (log a r')) → log_wf Sz l → P st → usable a = true →
  (∀ r', 0 ≤ r' < N → contents c r' = if r' =? r then region_of Sz l else region_of Sz (log a r')) →
  rep P (mkTicKV c fs (Some (region_of Sz l)) st) (set_log a r l).
Proof. intros ???? [Hl Hu] ???. apply rep_set_log_buffer; try done. by apply zlen_region_of. Qed.

(** The store after reading a region into the buffer. *)
Lemma rep_read P t a r c :
  rep P t a → usable a = true → 0 ≤ r < N →
  (∀ r', contents c r' = contents (controller t) r') →
  rep P (mkTicKV c (flash_size t) (Some (region_of Sz (log a r))) (state t)) a.
Proof.
  intros [Hr Hl Hc Hw Hb Hs] Hu Hreg Hc'. constructor; cbn; try done.
  - intros r' Hr'. rewrite Hc'. auto.
  - rewrite Hu. eexists. split; [done|]. apply zlen_region_of. by apply Hw.
Qed.

(** The store with the region [reg] in its buffer. *)
Definition loaded_with (a : store) (t : TicKV C) (c : C) (reg : Z) (st : State) : TicKV C :=
  mkTicKV c (flash_size t) (Some (region_of Sz (log a reg))) st.

Lemma rep_loaded_with P Q t a r c st :
  rep P t a → usable a = true → 0 ≤ r < N →
  (∀ r', contents c r' = contents (controller t) r') → Q st →
  rep Q (loaded_with a t c r st) a.
Proof.
  intros [Hr Hl Hc Hw Hb Hs] Hu Hreg Hc' HQ. constructor; cbn; try done.
  - intros r' Hr'. rewrite Hc'. auto.
  - rewrite Hu. eexists. split; [done|]. apply zlen_region_of. by apply Hw.
Qed.

Lemma rep_unusable P Q t a c st :
  rep P t a → (∀ r', contents c r' = contents (controller t) r') → Q st →
  rep Q (mkTicKV c (flash_size t) None st) (mkStore (logs a) false).
Proof.
  intros [Hr Hl Hc Hw Hb Hs] Hc' Hst. constructor; cbn; try done.
  intros r' Hr'. rewrite Hc'. by apply Hc.
Qed.

(** ** One iteration, with the region in the buffer *)

(** Regions that hold an object, at least one region, and fuel for the bytes of
    a region and for the regions. *)
Context (HSz : 15 ≤ Sz) (HN : 1 ≤ N) (Hfuel : Sz < Z.of_nat fuel ∧ N < Z.of_nat fuel).

Lemma home_of_range h : 0 ≤ home_of N h < N.
Proof. by apply home_of_bounds. Qed.

Lemma next_of P t a h o :
  rep P t a → valid_offset N (home_of N h) o →
  increment_region_offset Sz fuel (flash_size t) (home_of N h) o = Some (next_region N (home_of N h) o).
Proof.
  intros Hrep Ho. apply increment_region_offset_next; [apply home_of_range|apply Hrep|done|].
  destruct Hfuel. lia.
Qed.

(** *** [get_key] *)

Lemma get_body_spec P h buf a o o' t c st :
  let reg := home_of N h + o in
  u64 h → usable a = true → valid_offset N (home_of N h) o → rep P t a →
  get_body Sz fuel h buf (home_of N h) o' reg (region_of Sz (log a reg)) (mkTicKV c (flash_size t) None st) =
  match get_visit Sz a h buf reg with
  | Some (r, _) => Done (o', Some r) (loaded_with a t c reg st)
  | None =>
      match next_region N (home_of N h) o with
      | Some p => Done (p, None) (loaded_with a t c reg StateNone)
      | None => Done (o, Some (Err KeyNotFound, buf)) (loaded_with a t c reg st)
      end
  end.
Proof.
  intros reg Hh Hu Ho Hrep. pose proof (next_of _ _ _ _ _ Hrep Ho) as Hnext.
  pose proof (rep_wf _ _ _ Hrep reg Ho) as Hwf. destruct Hfuel as [Hf1 Hf2].
  unfold get_body, get_visit, loaded_with.
  destruct (find (live h) (log a reg)) as [ob|] eqn:Hfind.
  - destruct (find_key_offset_hit Sz fuel h _ _ Hh Hwf Hf1 Hfind) as (pre & post & Hlog & Hlive & _ & ->).
    run_step. rewrite Hlog. apply andb_prop in Hlive as [Hv _]. rewrite read_value_log by done.
    run_step. unfold value_reply. by destruct (zlen buf <? zlen (ob_value ob)).
  - rewrite (find_key_offset_miss Sz fuel h _ Hh Hwf Hf1 Hfind). run_step.
    destruct (stops Sz (log a reg)); run_step; [done|].
    replace (reg - home_of N h) with o by lia. rewrite Hnext. run_step.
    by destruct (next_region N (home_of N h) o).
Qed.

(** Looking up changes nothing. *)
Lemma get_visit_store a h buf r x a' : get_visit Sz a h buf r = Some (x, a') → a' = a.
Proof. unfold get_visit. repeat case_match; congruence. Qed.

(** *** [invalidate_key] *)

Lemma contents_split t a P r l1 o l2 :
  rep P t a → 0 ≤ r < N → log a r = l1 ++ o :: l2 →
  contents (controller t) r = (encode_log l1 ++ [VERSION]) ++ [len_byte1 (ob_valid o) (ob_len o)] ++
    (drop 2 (encode o) ++ encode_log l2 ++ replicate (Z.to_nat (Sz - used (l1 ++ o :: l2))) 0xFF).
Proof.
  intros Hrep Hr Hl. rewrite (rep_contents _ _ _ Hrep) by done. rewrite Hl, region_of_split.
  rewrite <- !app_assoc. f_equal.
Qed.

Lemma log_wf_kill l1 o l2 : log_wf Sz (l1 ++ o :: l2) → log_wf Sz (l1 ++ kill o :: l2).
Proof.
  unfold log_wf. rewrite used_kill, !Forall_app, !Forall_cons. intros [(? & Ho & ?) ?].
  split_and!; [done|by apply object_wf_kill|done..].
Qed.

(** Marking an object dead changes one byte of the region. *)
Lemma kill_bytes l1 o l2 :
  object_wf o →
  region_of Sz (l1 ++ kill o :: l2) =
  (encode_log l1 ++ [VERSION]) ++ [Z.land (len_byte1 (ob_valid o) (ob_len o)) 0x7F] ++
  (drop 2 (encode o) ++ encode_log l2 ++ replicate (Z.to_nat (Sz - used (l1 ++ o :: l2))) 0xFF).
Proof.
  intros (_ & Hl & _). pose proof (ob_len_ge o).
  destruct (length_bytes (ob_valid o) (ob_len o)) as (_ & _ & ->); [lia|].
  rewrite region_of_split, used_kill, <- !app_assoc. f_equal.
Qed.

Lemma land_land_7F b : programmable [b] [Z.land b 0x7F].
Proof. constructor; [|constructor]. by rewrite Z.land_assoc, Z.land_diag. Qed.

Lemma write_reply (x : result unit ErrorCode) :
  (if async then ∃ n, x = Err (WriteNotReady n) else x = Ok ()) →
  match x with Err (WriteNotReady _) => Ok Queued | Err e => Err e | Ok _ => Ok Written end =
  Ok (write_code async) :> result SuccessCode ErrorCode.
Proof. destruct async; [intros [n ->]|intros ->]; done. Qed.

Lemma invalidate_body_spec P h a o o' t c st :
  let reg := home_of N h + o in
  u64 h → usable a = true → valid_offset N (home_of N h) o → rep P t a →
  (∀ r', contents c r' = contents (controller t) r') →
  let res := invalidate_body Sz fuel h (home_of N h) o' reg (region_of Sz (log a reg))
               (mkTicKV c (flash_size t) None st) in
  match invalidate_visit Sz (write_code async) a h reg with
  | Some (r, a') => ∃ t', res = Done (o', Some r) t' ∧ rep (λ s, s = st) t' a'
  | None =>
      match next_region N (home_of N h) o with
      | Some p => res = Done (p, None) (loaded_with a t c reg StateNone)
      | None => res = Done (o, Some (Err KeyNotFound)) (loaded_with a t c reg st)
      end
  end.
Proof.
  intros reg Hh Hu Ho Hrep Hc res. pose proof (next_of _ _ _ _ _ Hrep Ho) as Hnext.
  pose proof (rep_wf _ _ _ Hrep reg Ho) as Hwf. destruct Hfuel as [Hf1 Hf2].
  pose proof (rep_loaded_with P (λ s, s = st) t a reg c st Hrep Hu Ho Hc eq_refl) as Hrep'.
  subst res. unfold invalidate_visit, invalidate_body, loaded_with in *.
  destruct (find (live h) (log a reg)) as [ob|] eqn:Hfind.
  2:{ rewrite (find_key_offset_miss Sz fuel h _ Hh Hwf Hf1 Hfind). run_step.
      destruct (stops Sz (log a reg)); run_step; [by eauto|].
      replace (reg - home_of N h) with o by lia. rewrite Hnext. run_step.
      by destruct (next_region N (home_of N h) o). }
  destruct (find_key_offset_hit Sz fuel h _ _ Hh Hwf Hf1 Hfind) as (pre & post & Hlog & _ & Hkill & ->).
  run_step. rewrite Hkill, Hlog in *. destruct (log_wf_mid _ _ _ _ Hwf) as [Hob Hfit].
  destruct (region_of_kill Sz pre ob post Hob) as (x & Hx & Hins).
  pose proof (region_head Sz pre ob post Hwf) as (_ & Hx' & _). cbv zeta in Hx'.
  rewrite Hx in Hx'. injection Hx' as Hx'. rewrite Hx. run_step. rewrite Hins.
  destruct (flash_write_ok c reg (encode_log pre ++ [VERSION]) [x] (drop 2 (encode ob) ++ encode_log post ++
    replicate (Z.to_nat (Sz - used (pre ++ ob :: post))) 0xFF) [Z.land x 0x7F] Ho) as (w & c' & Hw & Hcode & Hc').
  { rewrite zlen_app. change (zlen [VERSION]) with 1. fold (used pre). pose proof (ob_len_ge ob). lia. }
  { rewrite Hx'. by apply (contents_split _ _ _ _ _ _ _ Hrep' Ho). }
  { apply land_land_7F. }
  replace (Sz * reg + used pre + LEN_OFFSET) with (Sz * reg + zlen (encode_log pre ++ [VERSION]))
    by (rewrite zlen_app; unfold used, LEN_OFFSET; change (zlen [VERSION]) with 1; lia).
  rewrite Hw. run_step. apply write_reply in Hcode.
  exists (mkTicKV c' (flash_size t) (Some (region_of Sz (pre ++ kill ob :: post))) st). split.
  { destruct w as [|e]; [|destruct e]; by rewrite <- Hcode. }
  apply rep_set_log; [apply Hrep|apply Hrep|done|apply Hrep|by apply log_wf_kill|done..|].
  intros r' Hr'. rewrite Hc'. destruct (Z.eqb_spec r' reg) as [->|].
  - by rewrite kill_bytes, Hx' by done.
  - rewrite Hc. by apply Hrep.
Qed.

(** *** [append_key] *)

Lemma programmable_erased bytes :
  Forall byte bytes → programmable (replicate (length bytes) 0xFF) bytes.
Proof.
  unfold programmable. induction 1 as [|b bytes Hb _ IH]; [constructor|]. cbn. constructor; [|done].
  unfold byte in Hb. rewrite Z.land_comm. change 0xFF with (Z.ones 8).
  rewrite Z.land_ones, Z.mod_small by lia. done.
Qed.

Lemma region_of_room l n :
  0 ≤ n → used l + n ≤ Sz →
  region_of Sz l = encode_log l ++ replicate (Z.to_nat n) 0xFF ++ replicate (Z.to_nat (Sz - used l - n)) 0xFF.
Proof. intros. unfold region_of. rewrite <- replicate_add. do 2 f_equal. lia. Qed.

Lemma log_wf_snoc l o : log_wf Sz l → object_wf o → used l + ob_len o ≤ Sz → log_wf Sz (l ++ [o]).
Proof.
  intros [Hl Hu] Ho Hfit. split; [|by rewrite used_snoc]. apply Forall_app. split; [done|]. by constructor.
Qed.

Lemma region_of_snoc l o :
  region_of Sz (l ++ [o]) = encode_log l ++ encode o ++ replicate (Z.to_nat (Sz - used l - ob_len o)) 0xFF.
Proof.
  unfold region_of. rewrite used_snoc, encode_log_app, <- app_assoc. f_equal.
  rewrite encode_log_cons. cbn [encode_log fmap list_fmap mjoin list_join app]. rewrite app_nil_r.
  do 2 f_equal. lia.
Qed.

Lemma append_body_spec P h v a o o' t c st :
  let reg := home_of N h + o in
  let ob := mkObject true h v in
  object_wf ob → usable a = true → valid_offset N (home_of N h) o → rep P t a →
  (∀ r', contents c r' = contents (controller t) r') →
  let res := append_body Sz fuel (ob_header true ob) h v (home_of N h) o' reg (region_of Sz (log a reg))
               (mkTicKV c (flash_size t) None st) in
  match append_visit Sz (write_code async) a h v reg with
  | Some (r, a') => ∃ t', res = Done (o', Some r) t' ∧ rep (λ s, s = st) t' a'
  | None =>
      match next_region N (home_of N h) o with
      | Some p => res = Done (p, None) (loaded_with a t c reg StateNone)
      | None => res = Done (o, Some (Err FlashFull)) (loaded_with a t c reg st)
      end
  end.
Proof.
  intros reg ob Hob Hu Ho Hrep Hc res. pose proof (next_of _ _ _ _ _ Hrep Ho) as Hnext.
  assert (Hh : u64 h) by (destruct Hob as [Hh _]; cbn in Hh; unfold u64; lia).
  pose proof (rep_wf _ _ _ Hrep reg Ho) as Hwf. destruct Hfuel as [Hf1 Hf2].
  pose proof (rep_loaded_with P (λ s, s = st) t a reg c st Hrep Hu Ho Hc eq_refl) as Hrep'.
  subst res. unfold append_visit, append_body, loaded_with in *.
  destruct (find (live h) (log a reg)) as [ob'|] eqn:Hfind.
  { destruct (find_key_offset_hit Sz fuel h _ _ Hh Hwf Hf1 Hfind) as (? & ? & ? & ? & ? & ->).
    run_step. eauto. }
  rewrite (find_key_offset_miss Sz fuel h _ Hh Hwf Hf1 Hfind). run_step.
  rewrite scan_log; [|done| |done]. 2:{ pose proof (zlen_nonneg v). unfold HEADER_LENGTH, HASH_OFFSET. lia. }
  run_step. destruct (Z.leb_spec Sz (used (log a reg) + (HEADER_LENGTH + zlen v))); run_step.
  { replace (reg - home_of N h) with o by lia. rewrite Hnext. run_step.
    by destruct (next_region N (home_of N h) o). }
  fold ob. change v with (ob_value ob).
  destruct (Z.leb_spec (used (log a reg) + ob_len ob) Sz) as [Hfit|Hfit].
  2:{ rewrite (fill_object_overrun Sz (log a reg) ob) by (change (ob_value ob) with v; lia).
      run_step. eexists. split; [done|]. by apply (rep_unusable P). }
  rewrite (fill_object_fits Sz (log a reg) ob) by done. run_step.
  destruct (flash_write_ok c reg (encode_log (log a reg)) (replicate (Z.to_nat (ob_len ob)) 0xFF)
    (replicate (Z.to_nat (Sz - used (log a reg) - ob_len ob)) 0xFF) (encode ob) Ho)
    as (w & c' & Hw & Hcode & Hc').
  { fold (used (log a reg)). pose proof (ob_len_ge ob). lia. }
  { rewrite Hc, (rep_contents _ _ _ Hrep) by done. apply region_of_room; [|done].
    pose proof (ob_len_ge ob). lia. }
  { rewrite <- zlen_encode. unfold zlen. rewrite Nat2Z.id. by apply programmable_erased, encode_byte. }
  unfold used at 1. rewrite Hw. run_step. apply write_reply in Hcode.
  exists (mkTicKV c' (flash_size t) (Some (region_of Sz (log a reg ++ [ob]))) st). split.
  { destruct w as [|e]; [|destruct e]; by rewrite <- Hcode. }
  apply rep_set_log; [apply Hrep|apply Hrep|done|apply Hrep|by apply log_wf_snoc|done..|].
  intros r' Hr'. rewrite Hc', region_of_snoc. destruct (r' =? reg); [done|].
  rewrite Hc. by apply Hrep.
Qed.
End rep.

(** ** Regions in RAM

    What the controllers of the library's tests do with their array of regions,
    for the examples of TickvTheorems.v and TickvAsync.v. *)

Definition ram_program (Sz address : Z) (bytes : list Z) (c : Z → list Z) : Z → list Z := λ r,
  if r =? address / Sz
  then take (Z.to_nat (address mod Sz)) (c r) ++ bytes ++
       drop (Z.to_nat (address mod Sz) + length bytes) (c r)
  else c r.

Definition ram_erase (Sz region : Z) (c : Z → list Z) : Z → list Z := λ r,
  if r =? region then replicate (Z.to_nat Sz) 0xFF else c r.

Lemma ram_program_spec Sz c r pre old post new :
  zlen pre < Sz → c r = pre ++ old ++ post → programmable old new →
  ∀ r', ram_program Sz (Sz * r + zlen pre) new c r' = if r' =? r then pre ++ new ++ post else c r'.
Proof.
  intros Hp Hc Hn r'. unfold ram_program. pose proof (zlen_nonneg pre).
  rewrite (Z.mul_comm Sz r), Z.div_add_l, Z.div_small, Z.add_0_r by lia.
  rewrite Z.add_comm, Z.mod_add, Z.mod_small by lia. destruct (Z.eqb_spec r' r) as [->|]; [|done].
  rewrite Hc. unfold zlen. rewrite Nat2Z.id, take_app_length. f_equal. f_equal.
  by rewrite <- (Forall2_length _ _ _ Hn), app_assoc, <- length_app, drop_app_length.
Qed.

(** Erased flash. *)
Definition blank_ram (Sz : Z) : Z → list Z := λ _, replicate (Z.to_nat Sz) 0xFF.
Definition blank_store (N : Z) : store := mkStore (replicate (Z.to_nat N) []) true.

Lemma rep_fresh_ram {async} {C} `{!FlashController C} Sz N `{!FlashLaws async C Sz N} (c : C) :
  15 ≤ Sz → 1 ≤ N → (∀ r, contents c r = blank_ram Sz r) →
  rep Sz N idle (TicKV_new c (replicate (Z.to_nat Sz) 0) (Sz * N)) (blank_store N).
Proof.
  intros HS HN Hc.
  assert (Hlog : ∀ r, 0 ≤ r < N → log (blank_store N) r = []).
  { intros r Hr. unfold log, blank_store. cbn [logs]. by rewrite lookup_total_replicate_2 by lia. }
  constructor; cbn [controller flash_size TicKV_new read_buffer state].
  - unfold num_region. rewrite Z.mul_comm. apply Z.div_mul. lia.
  - cbn [blank_store logs]. rewrite length_replicate. lia.
  - intros r Hr. rewrite Hc, Hlog by done. unfold region_of. by rewrite used_nil, Z.sub_0_r.
  - intros r Hr. rewrite Hlog by done. split; [constructor|rewrite used_nil; lia].
  - cbn [blank_store usable]. eexists. split; [done|]. unfold zlen. rewrite length_replicate. lia.
  - done.
Qed.
