(* ===== verification/TickvTheorems.v ===== *)
(** * TicKV refines a store of logs

    On any flash controller that keeps the documented contract and completes its
    operations at once, the operations of Tickv.v compute exactly the results of
    the abstract store of TickvStore.v, and leave flash with the encoding of its
    logs. *)

From S2P Require Import Prelude Bytes Crc32 Tickv TickvLog TickvProbe TickvStore.

Section refinement.
Context {C : Type} `{!FlashController C} (Sz N : Z) `{!FlashLaws false C Sz N} (fuel : nat).
Context (HSz : 15 ≤ Sz) (HN : 1 ≤ N) (Hfuel : Sz < Z.of_nat fuel ∧ N < Z.of_nat fuel).

Local Abbreviation rep := (rep Sz N).

(** The read every step starts with. *)
Lemma rep_load P t a r :
  rep P t a → usable a = true → 0 ≤ r < N →
  ∃ b c, read_buffer t = Some b ∧
    read_region r 0 b (controller t) = (Ok (), region_of Sz (log a r), c) ∧
    ∀ r', contents c r' = contents (controller t) r'.
Proof.
  intros [Hr Hl Hc Hw Hb Hs] Hu Hreg. rewrite Hu in Hb. destruct Hb as (b & Hb & Hzb).
  destruct (read_region_ok (controller t) r b Hreg Hzb) as (x & b' & c & E & Hc' & -> & ->).
  exists b, c. rewrite <- Hc by done. done.
Qed.

(** Without the read buffer every operation that needs it panics. *)
Lemma region_loop_crash {A} (step : Z → M C (Z * option A)) o t :
  step o t = Crash → region_loop step fuel o t = Crash.
Proof.
  intros E. destruct fuel as [|k]; [lia|]. cbn [region_loop]. unfold mbind, M_bind. by rewrite E.
Qed.

(** The walk along all regions, from the region of the hash. *)
Lemma region_loop_order {A} (step : Z → M C (Z * option A)) (P : State → Prop) h a t
    (visit : Z → option (A * store)) (fail : A) :
  (∀ o t, valid_offset N (home_of N h) o → rep P t a →
     match visit (home_of N h + o) with
     | Some (r, a') => ∃ o' t', step o t = Done (o', Some r) t' ∧ rep P t' a'
     | None =>
         match next_region N (home_of N h) o with
         | Some p => ∃ t', step o t = Done (p, None) t' ∧ rep P t' a
         | None => ∃ o' t', step o t = Done (o', Some fail) t' ∧ rep P t' a
         end
     end) →
  rep P t a →
  ∃ t', region_loop step fuel 0 t = Done (walk visit (fail, a) (region_order N (home_of N h))).1 t' ∧
        rep P t' (walk visit (fail, a) (region_order N (home_of N h))).2.
Proof.
  intros Hstep Hrep. pose proof (home_of_range N HN h) as Hh. pose proof (length_rest _ _ Hh).
  destruct (region_loop_walk step N (home_of N h) (rep P) a visit fail Hh Hstep fuel 0 t)
    as (t' & E & Hrep'); [by apply valid_offset_0|done|lia|].
  rewrite Z.add_0_r in E, Hrep'. exists t'. done.
Qed.

(** A result of the model agrees with a result of the specification. *)
Definition refines {A} (P : State → Prop) (m : run (TicKV C) A) (s : outcome (A * store)) : Prop :=
  match s with
  | Ret (r, a) => ∃ t, m = Done r t ∧ rep P t a
  | Panic => m = Crash
  end.

Lemma refines_walk {A} P (m : run (TicKV C) A) (w : A * store) :
  (∃ t, m = Done w.1 t ∧ rep P t w.2) → refines P m (Ret w).
Proof. by destruct w. Qed.

(** *** [get_key] *)

Lemma get_step_load h buf a o t :
  usable a = true → valid_offset N (home_of N h) o → rep idle t a →
  let reg := home_of N h + o in
  ∃ c, (∀ r', contents c r' = contents (controller t) r') ∧
  get_step Sz fuel h buf (home_of N h) o t =
  get_body Sz fuel h buf (home_of N h) o reg (region_of Sz (log a reg))
    (mkTicKV c (flash_size t) None StateNone).
Proof.
  intros Hu Ho Hrep reg. destruct (rep_load _ _ _ reg Hrep Hu Ho) as (b & c & Hb & Hread & Hc).
  exists c. split; [done|]. destruct t as [c0 fs rb st].
  pose proof (rep_state _ _ _ _ _ Hrep) as Hst. unfold idle in Hst. cbn in Hst, Hb, Hread.
  subst st rb. unfold get_step. run_step. fold reg. rewrite !bool_decide_false by done. run_step.
  by rewrite Hread.
Qed.

Lemma get_key_refines h buf t a :
  u64 h → rep idle t a →
  refines idle (get_key Sz fuel h buf t) (spec_get Sz N h buf a).
Proof.
  intros Hh Hrep. unfold get_key, spec_get. run_step.
  rewrite (get_region_home _ _ _ _ HN (rep_regions _ _ _ _ _ Hrep)).
  destruct (bad_hash h); cbn [orb]; [done|]. run_step. destruct (usable a) eqn:Hu; cbn [negb].
  - apply refines_walk, region_loop_order; [|done]. clear t Hrep. intros o t Ho Hrep.
    destruct (get_step_load h buf a o t Hu Ho Hrep) as (c & Hc & ->).
    rewrite (get_body_spec Sz N fuel HSz HN Hfuel idle) by done.
    destruct (get_visit Sz a h buf (home_of N h + o)) as [[r a']|] eqn:Ev.
    + apply get_visit_store in Ev as ->. eexists _, _. split; [done|]. by apply (rep_loaded_with Sz N idle).
    + destruct (next_region N (home_of N h) o); eexists; [|eexists]; (split; [done|]);
        by apply (rep_loaded_with Sz N idle).
  - apply region_loop_crash. unfold get_step. pose proof (rep_buffer _ _ _ _ _ Hrep) as Hb.
    pose proof (rep_state _ _ _ _ _ Hrep) as Hst. rewrite Hu in Hb. unfold idle in Hst.
    destruct t as [c0 fs rb st]. cbn in Hb, Hst. subst. by run_step.
Qed.

(** *** [invalidate_key] *)

Lemma invalidate_step_load h a o t :
  usable a = true → valid_offset N (home_of N h) o → rep idle t a →
  let reg := home_of N h + o in
  ∃ c, (∀ r', contents c r' = contents (controller t) r') ∧
  invalidate_step Sz fuel h (home_of N h) o t =
  invalidate_body Sz fuel h (home_of N h) o reg (region_of Sz (log a reg))
    (mkTicKV c (flash_size t) None StateNone).
Proof.
  intros Hu Ho Hrep reg. destruct (rep_load _ _ _ reg Hrep Hu Ho) as (b & c & Hb & Hread & Hc).
  exists c. split; [done|]. destruct t as [c0 fs rb st].
  pose proof (rep_state _ _ _ _ _ Hrep) as Hst. unfold idle in Hst. cbn in Hst, Hb, Hread.
  subst st rb. unfold invalidate_step. run_step. fold reg. rewrite !bool_decide_false by done. run_step.
  by rewrite Hread.
Qed.

Lemma invalidate_key_refines h t a :
  u64 h → rep idle t a →
  refines idle (invalidate_key Sz fuel h t) (spec_invalidate Sz N h a).
Proof.
  intros Hh Hrep. unfold invalidate_key, spec_invalidate. run_step.
  rewrite (get_region_home _ _ _ _ HN (rep_regions _ _ _ _ _ Hrep)).
  destruct (bad_hash h); cbn [orb]; [done|]. run_step. destruct (usable a) eqn:Hu; cbn [negb].
  - apply refines_walk, region_loop_order; [|done]. clear t Hrep. intros o t Ho Hrep.
    destruct (invalidate_step_load h a o t Hu Ho Hrep) as (c & Hc & ->).
    pose proof (invalidate_body_spec Sz N fuel HSz HN Hfuel idle h a o o t c StateNone Hh Hu Ho Hrep Hc) as Hbody.
    cbv zeta in Hbody. cbn [write_code] in Hbody.
    destruct (invalidate_visit Sz Written a h (home_of N h + o)) as [[r a']|]; [by eauto|].
    destruct (next_region N (home_of N h) o); rewrite Hbody; eexists; [|eexists]; (split; [done|]);
      by apply (rep_loaded_with Sz N idle).
  - apply region_loop_crash. unfold invalidate_step. pose proof (rep_buffer _ _ _ _ _ Hrep) as Hb.
    pose proof (rep_state _ _ _ _ _ Hrep) as Hst. rewrite Hu in Hb. unfold idle in Hst.
    destruct t as [c0 fs rb st]. cbn in Hb, Hst. subst. by run_step.
Qed.

(** *** [append_key]

    [initialise] calls it in the state [EraseComplete] too. *)

Definition starting (s : State) : Prop := s = StateNone ∨ s = StateInit EraseComplete.

Section append.
Context (P : State → Prop) (HP : ∀ s, P s → starting s) (HP0 : P StateNone).

Lemma append_step_load header h v a o t :
  usable a = true → valid_offset N (home_of N h) o → rep P t a →
  let reg := home_of N h + o in
  ∃ c, (∀ r', contents c r' = contents (controller t) r') ∧
  append_step Sz fuel header h v (home_of N h) o t =
  append_body Sz fuel header h v (home_of N h) o reg (region_of Sz (log a reg))
    (mkTicKV c (flash_size t) None (state t)).
Proof.
  intros Hu Ho Hrep reg. destruct (rep_load _ _ _ reg Hrep Hu Ho) as (b & c & Hb & Hread & Hc).
  exists c. split; [done|]. destruct t as [c0 fs rb st].
  pose proof (HP _ (rep_state _ _ _ _ _ Hrep)) as Hst. cbn in Hst, Hb, Hread. subst rb.
  assert (Hreg : append_region st (home_of N h) o = Ret reg) by (by destruct Hst as [->| ->]).
  unfold append_step. run_step. rewrite Hreg. run_step.
  rewrite !bool_decide_false by (by destruct Hst as [->| ->]). run_step. by rewrite Hread.
Qed.

Lemma append_key_refines h v t a :
  u64 h → Forall byte v → rep P t a →
  refines P (append_key Sz fuel h v t) (spec_append Sz N h v a).
Proof.
  intros Hh Hv Hrep. unfold append_key, spec_append. run_step.
  rewrite (get_region_home _ _ _ _ HN (rep_regions _ _ _ _ _ Hrep)).
  destruct (bad_hash h) eqn:Hbad; [done|]. run_step.
  change (HEADER_LENGTH + zlen v + CHECK_SUM_LEN) with (ob_len (mkObject true h v)).
  destruct (Z.ltb_spec 0xFFF (ob_len (mkObject true h v))); [by exists t|].
  unfold ObjectHeader_new.
  destruct (Z.ltb_spec (ob_len (mkObject true h v)) 0xFFF),
    (Z.leb_spec 0xFFF (ob_len (mkObject true h v))); try lia; [|done].
  run_step. destruct (usable a) eqn:Hu; run_step.
  - apply refines_walk, region_loop_order; [|done]. clear t Hrep. intros o t Ho Hrep.
    assert (Hob : object_wf (mkObject true h v)).
    { refine (conj _ (conj _ _)); [|done..]. cbn [ob_hash]. unfold u64, bad_hash in *.
      apply orb_false_iff in Hbad as [Hb1 Hb2]. apply Z.eqb_neq in Hb1, Hb2. lia. }
    destruct (append_step_load (ob_header true (mkObject true h v)) h v a o t Hu Ho Hrep) as (c & Hc & E).
    unfold ob_header in E at 1. cbn [ob_hash] in E. rewrite E.
    pose proof (rep_state _ _ _ _ _ Hrep) as Hst.
    pose proof (append_body_spec Sz N fuel HSz HN Hfuel P h v a o o t c (state t) Hob Hu Ho Hrep Hc) as Hbody.
    cbv zeta in Hbody. cbn [write_code] in Hbody.
    destruct (append_visit Sz Written a h v (home_of N h + o)) as [[r a']|].
    + destruct Hbody as (t' & Ht' & Hrep'). exists o, t'. split; [exact Ht'|].
      eapply rep_weaken; [|exact Hrep']. by intros ->.
    + destruct (next_region N (home_of N h) o); eexists; [|eexists]; (split; [exact Hbody|]);
        by apply (rep_loaded_with Sz N P).
  - apply region_loop_crash. unfold append_step. pose proof (rep_buffer _ _ _ _ _ Hrep) as Hb.
    pose proof (HP _ (rep_state _ _ _ _ _ Hrep)) as Hst. rewrite Hu in Hb.
    destruct t as [c0 fs rb st]. cbn in Hb, Hst. subst rb. run_step. destruct Hst as [->| ->]; by run_step.
Qed.
End append.

(** *** [garbage_collect] *)

Lemma collect_region_spec r ff t a :
  usable a = true → 0 ≤ r < N → rep idle t a →
  ∃ t', garbage_collect_region Sz fuel r ff t = Done (Ok (freed Sz (log a r))) t' ∧
    rep idle t' (set_log a r (collect_log (log a r))).
Proof.
  intros Hu Hr Hrep. pose proof (rep_wf _ _ _ _ _ Hrep r Hr) as Hwf. pose proof (used_length (log a r)).
  destruct (rep_load _ _ _ r Hrep Hu Hr) as (b & c & Hb & Hread & Hc).
  destruct Hfuel as [Hf1 Hf2].
  pose proof (rep_state _ _ _ _ _ Hrep) as Hst. unfold idle in Hst.
  assert (Hloop : rubbish_loop Sz fuel (region_of Sz (log a r)) 0 false =
    Some (if existsb ob_valid (log a r) then RubbishKeep
          else if bool_decide (log a r = []) then RubbishKeep else RubbishErase)).
  { apply (rubbish_loop_log Sz fuel [] (log a r) false); [done|lia| |done].
    destruct Hwf as [_ ?]. lia. }
  assert (Hsame : collect_log (log a r) = log a r →
    rep idle (mkTicKV c (flash_size t) (Some (region_of Sz (log a r))) StateNone)
      (set_log a r (collect_log (log a r)))).
  { intros E. rewrite E. apply rep_set_log; [apply Hrep|apply Hrep|done|apply Hrep|done|done|done|].
    intros r' Hr'. rewrite Hc, (rep_contents _ _ _ _ _ Hrep) by done. destruct (Z.eqb_spec r' r) as [->|]; done. }
  destruct t as [c0 fs rb st]. cbn in Hst, Hb, Hread, Hsame, Hc. subst st rb.
  unfold garbage_collect_region. run_step. rewrite bool_decide_false by done. run_step.
  rewrite Hread. run_step. rewrite Hloop. run_step. unfold freed. unfold collect_log in *.
  destruct (existsb ob_valid (log a r)) eqn:Hex; cbn [negb andb].
  { run_step. eauto. }
  destruct (bool_decide_reflect (log a r = [])) as [Hnil|Hnil].
  { rewrite bool_decide_false by auto. run_step. rewrite Hnil in *. eauto. }
  rewrite bool_decide_true by done. run_step.
  destruct (erase_region_ok c r Hr) as (x & c' & -> & -> & Hc'). run_step. eexists. split; [done|].
  apply rep_set_log_buffer; [|apply Hrep|apply Hrep|done|apply Hrep| |done|done|].
  - apply zlen_region_of, Hwf.
  - split; [constructor|rewrite used_nil; lia].
  - intros r' Hr'. rewrite Hc', Hc, (rep_contents _ _ _ _ _ Hrep) by done. destruct (r' =? r); [|done].
    unfold region_of. rewrite used_nil, Z.sub_0_r. done.
Qed.

(** The collector from region [i] on. *)
Lemma collect_from_spec n i ff t a :
  usable a = true → 0 ≤ i → i + Z.of_nat n = N → rep idle t a →
  ∃ t', garbage_collect_from Sz fuel n i ff t =
          Done (Ok (ff + foldr Z.add 0 (freed Sz <$> drop (Z.to_nat i) (logs a)))) t' ∧
    rep idle t' (mkStore (take (Z.to_nat i) (logs a) ++ (collect_log <$> drop (Z.to_nat i) (logs a))) true).
Proof.
  revert i ff t a. induction n as [|n IH]; intros i ff t a Hu Hi Hn Hrep; cbn [garbage_collect_from].
  - pose proof (rep_logs _ _ _ _ _ Hrep). rewrite drop_ge, take_ge by lia. exists t. split.
    + run_step. cbn. by rewrite Z.add_0_r.
    + rewrite fmap_nil, app_nil_r. destruct a as [ls u]. cbn in Hu. by subst u.
  - destruct (collect_region_spec i ff t a Hu ltac:(lia) Hrep) as (t1 & E1 & Hrep1).
    destruct (IH (i + 1) (ff + freed Sz (log a i)) t1 (set_log a i (collect_log (log a i)))
      Hu ltac:(lia) ltac:(lia) Hrep1) as (t2 & E2 & Hrep2).
    exists t2. run_step. rewrite E1, E2. pose proof (rep_logs _ _ _ _ _ Hrep) as Hlen.
    destruct (lookup_lt_is_Some_2 (logs a) (Z.to_nat i)) as [l Hl]; [lia|].
    assert (Hlog : log a i = l) by (unfold log; by apply list_lookup_total_correct).
    replace (Z.to_nat (i + 1)) with (S (Z.to_nat i)) in * by lia.
    unfold set_log in *. cbn [logs] in *. rewrite Hlog in *.
    rewrite drop_insert_lt in * by lia. rewrite (drop_S _ _ _ Hl). cbn [fmap list_fmap foldr].
    split; [do 2 f_equal; lia|].
    rewrite (take_S_r _ _ (collect_log l)) in Hrep2 by (apply list_lookup_insert_eq; lia).
    rewrite take_insert_ge, <- app_assoc in Hrep2 by lia. exact Hrep2.
Qed.

Lemma garbage_collect_refines t a :
  rep idle t a → refines idle (garbage_collect Sz fuel t) (spec_collect Sz a).
Proof.
  intros Hrep. unfold garbage_collect, spec_collect. pose proof (rep_state _ _ _ _ _ Hrep) as Hst.
  unfold idle in Hst. run_step. rewrite Hst, (rep_regions _ _ _ _ _ Hrep). run_step.
  rewrite Z.sub_0_r. destruct (usable a) eqn:Hu; cbn [negb].
  - destruct (collect_from_spec (Z.to_nat N) 0 0 t a Hu) as (t' & E & Hrep'); [lia|lia|done|].
    exists t'. rewrite E. done.
  - destruct (Z.to_nat N) as [|n] eqn:En; [lia|]. cbn [garbage_collect_from refines].
    unfold garbage_collect_region. pose proof (rep_buffer _ _ _ _ _ Hrep) as Hb. rewrite Hu in Hb.
    destruct t as [c0 fs rb st]. cbn in Hb. subst rb. by run_step.
Qed.

(** *** [initialise] *)

Lemma erase_from_spec n i t :
  0 ≤ i → i + Z.of_nat n = N →
  ∃ c, erase_from n i t = Done None (mkTicKV c (flash_size t) (read_buffer t) (state t)) ∧
    ∀ r, contents c r = if (i <=? r) && (r <? N) then region_of Sz [] else contents (controller t) r.
Proof.
  revert i t. induction n as [|n IH]; intros i t Hi Hn; cbn [erase_from].
  - exists (controller t). split; [by destruct t|]. intros r.
    destruct (Z.leb_spec i r), (Z.ltb_spec r N); cbn [andb]; lia || done.
  - assert (Hr : 0 ≤ i < N) by lia. destruct (erase_region_ok (controller t) i Hr) as (x & c1 & E1 & -> & Hc1).
    run_step. rewrite E1. run_step.
    destruct (IH (i + 1) (mkTicKV c1 (flash_size t) (read_buffer t) (state t))) as (c & E & Hc); [lia..|].
    exists c. split; [exact E|]. intros r. rewrite Hc. cbn [controller]. rewrite Hc1.
    unfold region_of. rewrite used_nil, Z.sub_0_r. cbn [encode_log fmap list_fmap mjoin list_join app].
    destruct (Z.leb_spec (i + 1) r), (Z.leb_spec i r), (Z.ltb_spec r N), (Z.eqb_spec r i);
      cbn [andb]; try lia; done.
Qed.

Lemma rep_blank t a c :
  rep idle t a →
  (∀ r, contents c r = if (0 <=? r) && (r <? N) then region_of Sz [] else contents (controller t) r) →
  rep starting (mkTicKV c (flash_size t) (read_buffer t) (StateInit EraseComplete)) (blank a).
Proof.
  intros Hrep Hc.
  assert (Hlog : ∀ r, 0 ≤ r < N → log (blank a) r = []).
  { intros r Hr. unfold log, blank. cbn [logs]. apply list_lookup_total_correct.
    rewrite list_lookup_fmap. pose proof (rep_logs _ _ _ _ _ Hrep).
    destruct (lookup_lt_is_Some_2 (logs a) (Z.to_nat r)) as [l ->]; [lia|done]. }
  constructor; cbn [controller flash_size read_buffer state].
  - apply Hrep.
  - unfold blank. cbn [logs]. rewrite length_fmap. apply Hrep.
  - intros r Hr. rewrite Hc, Hlog by done. by rewrite (proj2 (Z.leb_le 0 r)), (proj2 (Z.ltb_lt r N)) by lia.
  - intros r Hr. rewrite Hlog by done. split; [constructor|rewrite used_nil; lia].
  - apply Hrep.
  - by right.
Qed.

(** On a blank store the main key is written, so that [initialise] ends idle. *)
Lemma append_blank h a :
  bad_hash h = false → usable a = true → Z.of_nat (length (logs a)) = N →
  spec_append Sz N h [] (blank a) =
  Ret (Ok Written, set_log (blank a) (home_of N h) [mkObject true h []]).
Proof.
  intros Hbad Hu Hlen. unfold spec_append. rewrite Hbad. change (ob_len (mkObject true h [])) with 15.
  change (0xFFF <? 15) with false. change (0xFFF <=? 15) with false. change (usable (blank a)) with (usable a).
  rewrite Hu. cbn [orb negb]. unfold region_order. cbn [walk].
  unfold append_visit. pose proof (home_of_range N HN h).
  assert (log (blank a) (home_of N h) = []) as ->.
  { unfold log, blank. cbn [logs]. apply list_lookup_total_correct. rewrite list_lookup_fmap.
    destruct (lookup_lt_is_Some_2 (logs a) (Z.to_nat (home_of N h))) as [l ->]; [lia|done]. }
  cbn [find]. rewrite used_nil. change (ob_len (mkObject true h [])) with 15.
  change (0 + (HEADER_LENGTH + zlen [])) with 11. split_tests; lia || done.
Qed.

(** [get_key] changes nothing and fails only for want of the key or of room. *)
Lemma walk_get a h buf regs :
  let w := walk (get_visit Sz a h buf) (Err KeyNotFound, buf, a) regs in
  w.2 = a ∧ match w.1.1 with Ok _ | Err KeyNotFound | Err (BufferTooSmall _) => True | _ => False end.
Proof.
  induction regs as [|r regs IH]; [done|]. cbn [walk]. unfold get_visit at 1 3.
  destruct (find (live h) (log a r)) as [o|].
  - cbn. split; [done|]. unfold value_reply. by destruct (_ <? _).
  - by destruct (stops Sz (log a r)).
Qed.

Lemma save_main_key_refines h t a :
  u64 h → bad_hash h = false → usable a = true → rep starting t (blank a) →
  refines idle (save_main_key Sz fuel h t) (spec_append Sz N h [] (blank a)).
Proof.
  intros Hh Hbad Hu Hrep.
  pose proof (append_key_refines starting (λ _ H, H) (or_introl eq_refl) h [] t (blank a) Hh
    (Forall_nil_2 _) Hrep) as Happ.
  pose proof (rep_logs _ _ _ _ _ Hrep) as Hlen. unfold blank in Hlen. cbn [logs] in Hlen. rewrite length_fmap in Hlen.
  rewrite append_blank in * by done. destruct Happ as (t' & E & Hrep').
  unfold save_main_key. run_step. rewrite E. eexists. split; [done|].
  by eapply rep_set_state.
Qed.

Lemma initialise_refines h t a :
  u64 h → rep idle t a →
  refines idle (initialise Sz fuel h t) (spec_initialise Sz N h a).
Proof.
  intros Hh Hrep. pose proof (rep_state _ _ _ _ _ Hrep) as Hst. unfold idle in Hst.
  pose proof (get_key_refines h [] t a Hh Hrep) as Hget. unfold initialise, spec_initialise. run_step.
  rewrite Hst. run_step. unfold spec_get in *.
  destruct (bad_hash h) eqn:Hbad; cbn [orb] in *; [by rewrite Hget|].
  destruct (usable a) eqn:Hu; cbn [negb] in *; [|by rewrite Hget].
  pose proof (walk_get a h [] (region_order N (home_of N h))) as Hw.
  destruct (walk (get_visit Sz a h []) (Err KeyNotFound, [], a) (region_order N (home_of N h)))
    as [[r buf] a1]. cbn [fst snd] in Hw. destruct Hw as [-> Hr].
  destruct Hget as (t1 & E1 & Hrep1). rewrite E1. cbn [mbind outcome_bind].
  destruct r as [[ret len]|e]; [by exists t1|].
  assert (Herase : refines idle ((erase_all Sz ≫= λ x,
     match x with Some e => mret (Err e) | None => save_main_key Sz fuel h end) t1)
     (spec_append Sz N h [] (blank a))).
  { unfold erase_all. pose proof (rep_state _ _ _ _ _ Hrep1) as Hst1. unfold idle in Hst1. run_step.
    rewrite Hst1, (rep_regions _ _ _ _ _ Hrep1), Z.sub_0_r.
    destruct (erase_from_spec (Z.to_nat N) 0 t1) as (c & E & Hc); [lia..|]. rewrite E. run_step.
    apply save_main_key_refines; try done. by apply (rep_blank t1). }
  by destruct e.
Qed.
End refinement.

(** ** All operations, in any sequence *)

Inductive kv_op : Type :=
| OpInitialise (hashed_main_key : Z)
| OpAppend (hash : Z) (value : list Z)
| OpGet (hash : Z) (buf : list Z)
| OpInvalidate (hash : Z)
| OpCollect.

Inductive kv_reply : Type :=
| ReplyCode (r : result SuccessCode ErrorCode)
| ReplyValue (r : result (SuccessCode * Z) ErrorCode) (buf : list Z)
| ReplyFreed (r : result Z ErrorCode).

(** Arguments of the types the code has. *)
Definition op_wf (o : kv_op) : Prop :=
  match o with
  | OpInitialise h | OpGet h _ | OpInvalidate h => u64 h
  | OpAppend h v => u64 h ∧ Forall byte v
  | OpCollect => True
  end.

Definition exec_op {C} `{!FlashController C} (Sz : Z) (fuel : nat) (o : kv_op) : M C kv_reply :=
  match o with
  | OpInitialise h => r ← initialise Sz fuel h; mret (ReplyCode r)
  | OpAppend h v => r ← append_key Sz fuel h v; mret (ReplyCode r)
  | OpGet h buf => '(r, buf) ← get_key Sz fuel h buf; mret (ReplyValue r buf)
  | OpInvalidate h => r ← invalidate_key Sz fuel h; mret (ReplyCode r)
  | OpCollect => r ← garbage_collect Sz fuel; mret (ReplyFreed r)
  end.

Fixpoint exec_kv {C} `{!FlashController C} (Sz : Z) (fuel : nat) (ops : list kv_op)
    : M C (list kv_reply) :=
  match ops with
  | [] => mret []
  | o :: ops => r ← exec_op Sz fuel o; rs ← exec_kv Sz fuel ops; mret (r :: rs)
  end.

Definition spec_op (Sz N : Z) (o : kv_op) (a : store) : outcome (kv_reply * store) :=
  match o with
  | OpInitialise h => '(r, a) ← spec_initialise Sz N h a; Ret (ReplyCode r, a)
  | OpAppend h v => '(r, a) ← spec_append Sz N h v a; Ret (ReplyCode r, a)
  | OpGet h buf => '(r, buf, a) ← spec_get Sz N h buf a; Ret (ReplyValue r buf, a)
  | OpInvalidate h => '(r, a) ← spec_invalidate Sz N h a; Ret (ReplyCode r, a)
  | OpCollect => '(r, a) ← spec_collect Sz a; Ret (ReplyFreed r, a)
  end.

Fixpoint spec_kv (Sz N : Z) (ops : list kv_op) (a : store) : outcome (list kv_reply * store) :=
  match ops with
  | [] => Ret ([], a)
  | o :: ops => '(r, a) ← spec_op Sz N o a; '(rs, a) ← spec_kv Sz N ops a; Ret (r :: rs, a)
  end.

Lemma refines_map {C} `{!FlashController C} Sz N `{!FlashLaws false C Sz N} {A B} P
    (m : M C A) (f : A → B) t (s : outcome (A * store)) :
  refines Sz N P (m t) s →
  refines Sz N P ((m ≫= λ r, mret (f r)) t) ('(r, a) ← s; Ret (f r, a)).
Proof.
  unfold mbind, M_bind, mret, M_ret. destruct s as [[r a]|]; cbn.
  - intros (t' & -> & Hrep). eauto.
  - by intros ->.
Qed.

Lemma exec_op_refines {C} `{!FlashController C} Sz N `{!FlashLaws false C Sz N} fuel o t a :
  15 ≤ Sz → 1 ≤ N → Sz < Z.of_nat fuel ∧ N < Z.of_nat fuel →
  op_wf o → rep Sz N idle t a →
  refines Sz N idle (exec_op Sz fuel o t) (spec_op Sz N o a).
Proof.
  intros HSz HN Hf Hwf Hrep. destruct o; cbn [exec_op spec_op op_wf] in *.
  - by apply refines_map, initialise_refines.
  - destruct Hwf. apply refines_map, append_key_refines; try done. intros s ->. by left.
  - pose proof (get_key_refines Sz N fuel HSz HN Hf hash buf t a Hwf Hrep) as H.
    unfold refines, mbind, M_bind, outcome_bind, mret, M_ret in *.
    destruct (spec_get Sz N hash buf a) as [[[r b] a']|]; cbn in *; [|by rewrite H].
    destruct H as (t' & -> & H). cbn. by exists t'.
  - by apply refines_map, invalidate_key_refines.
  - by apply refines_map, garbage_collect_refines.
Qed.

(** C5.  TicKV refines a store of append-only logs.  On any flash controller
    that keeps its documented contract (and that is only ever asked to clear
    bits), any sequence of initialise, append, get, invalidate and garbage
    collection returns exactly the replies of the abstract store, panics exactly
    when it does, never runs out of its loops' bounds, and leaves flash with the
    encoding of the abstract logs. *)
Theorem tickv_refines_logs {C} `{!FlashController C} (Sz N : Z) `{!FlashLaws false C Sz N} (fuel : nat)
    (ops : list kv_op) (t : TicKV C) (a : store) :
  15 ≤ Sz → 1 ≤ N → Sz < Z.of_nat fuel ∧ N < Z.of_nat fuel →
  Forall op_wf ops → rep Sz N idle t a →
  refines Sz N idle (exec_kv Sz fuel ops t) (spec_kv Sz N ops a).
Proof.
  intros HSz HN Hf Hops. revert t a. induction Hops as [|o ops Ho _ IH]; intros t a Hrep.
  { by exists t. }
  cbn [exec_kv spec_kv]. pose proof (exec_op_refines Sz N fuel o t a HSz HN Hf Ho Hrep) as H.
  destruct (spec_op Sz N o a) as [[r a1]|]; cbn [refines mbind outcome_bind] in H |- *.
  2:{ unfold mbind, M_bind. by rewrite H. }
  destruct H as (t1 & E & Hrep1). unfold mbind at 1, M_bind at 1. rewrite E. apply (refines_map Sz N idle _ (cons r)). by apply IH.
Qed.

(** ** A controller that keeps the contract

    Regions in RAM, as in the tests of the library. *)

Definition ram : Type := Z → list Z.

#[export] Instance ram_flash (Sz : Z) : FlashController ram := {
  read_region r offset buf c := (Ok (), drop (Z.to_nat offset) (c r), c);
  flash_write address bytes c := (Ok (), ram_program Sz address bytes c);
  erase_region r c := (Ok (), ram_erase Sz r c)
}.

#[export] Instance ram_laws (Sz N : Z) : FlashLaws false ram (FlashController0 := ram_flash Sz) Sz N.
Proof.
  refine (Build_FlashLaws false _ _ Sz N (λ c r, c r) _ _ _).
  - intros c r buf _ _. by eexists _, _, c.
  - intros c r pre old post new _ Hp Hc Hn. eexists _, _. split; [done|]. split; [done|].
    by apply (ram_program_spec Sz c r pre old).
  - intros c r _. by eexists _, _.
Defined.

Definition fresh_tickv (Sz N : Z) : TicKV ram :=
  TicKV_new (blank_ram Sz) (replicate (Z.to_nat Sz) 0) (Sz * N).

Lemma rep_fresh Sz N :
  15 ≤ Sz → 1 ≤ N → rep Sz N (FlashLaws0 := ram_laws Sz N) idle (fresh_tickv Sz N) (blank_store N).
Proof. intros. by apply (rep_fresh_ram (FlashLaws0 := ram_laws Sz N) Sz N). Qed.

(** Initialise, store a value, store it again, read it, remove it, read it. *)
Definition sample_ops : list kv_op :=
  [OpInitialise 0x7bc9f7ff4f76f244; OpAppend 0x81137e959e93aa3d [1; 2; 3];
   OpAppend 0x81137e959e93aa3d [4]; OpGet 0x81137e959e93aa3d [0; 0; 0; 0];
   OpInvalidate 0x81137e959e93aa3d; OpGet 0x81137e959e93aa3d [0]; OpCollect].

Lemma tickv_refines_logs_witness :
  (∃ a, spec_kv 64 4 sample_ops (blank_store 4) =
     Ret ([ReplyCode (Ok Written); ReplyCode (Ok Written); ReplyCode (Err KeyAlreadyExists);
           ReplyValue (Ok (Complete, 3)) [1; 2; 3; 0]; ReplyCode (Ok Written);
           ReplyValue (Err KeyNotFound) [0]; ReplyFreed (Ok 64)], a)) ∧
  refines 64 4 (FlashLaws0 := ram_laws 64 4) idle
    (exec_kv (FlashController0 := ram_flash 64) 64 100 sample_ops (fresh_tickv 64 4))
    (spec_kv 64 4 sample_ops (blank_store 4)).
Proof.
  split; [eexists; vm_compute; reflexivity|].
  apply (tickv_refines_logs 64 4); [lia|lia|lia| |apply rep_fresh; lia].
  repeat (apply Forall_cons; split); try apply Forall_nil_2; cbn; unfold u64;
    repeat split; try lia; repeat constructor; unfold byte; lia.
Defined.
