(* ===== verification/TickvMap.v ===== *)
(** * TicKV as a map

    What a user of TicKV sees: a finite map from hashed keys to values.  The
    store of logs of TickvTheorems.v is such a map as long as new keys are
    appended only when absent, every region keeps room for a header, and no
    garbage collection empties a region; the theorems at the end show what goes
    wrong without each of these. *)

From stdpp Require Import gmap.
From S2P Require Import Prelude Bytes Crc32 Tickv TickvLog TickvProbe TickvStore TickvTheorems.

(** ** Walks *)

Lemma walk_stop {R} (visit : Z → option R) fail l1 x l2 y :
  (∀ r, r ∈ l1 → visit r = None) → visit x = Some y → walk visit fail (l1 ++ x :: l2) = y.
Proof.
  intros Hl Hx. induction l1 as [|r l1 IH]; cbn [app walk]; [by rewrite Hx|].
  rewrite Hl by left. apply IH. intros r' Hr'. apply Hl. by right.
Qed.

Lemma walk_end {R} (visit : Z → option R) fail l :
  (∀ r, r ∈ l → visit r = None ∨ visit r = Some fail) → walk visit fail l = fail.
Proof.
  intros Hl. induction l as [|r l IH]; [done|]. cbn [walk].
  destruct (Hl r) as [-> | ->]; [by left| |done]. apply IH. intros r' Hr'. apply Hl. by right.
Qed.

Lemma walk_inv {R} (visit : Z → option R) fail l :
  (∃ l1 x l2, l = l1 ++ x :: l2 ∧ (∀ r, r ∈ l1 → visit r = None) ∧ visit x = Some (walk visit fail l))
  ∨ walk visit fail l = fail.
Proof.
  induction l as [|r l IH]; [by right|]. cbn [walk]. destruct (visit r) as [y|] eqn:E.
  - left. exists [], r, l. split_and!; [done| |done]. by intros ? ?%not_elem_of_nil.
  - destruct IH as [(l1 & x & l2 & -> & Hl & Hx)|]; [left|by right].
    exists (r :: l1), x, l2. split_and!; [done| |done]. intros r' [->|Hr']%elem_of_cons; auto.
Qed.

(** The part of a list without duplicates before an element. *)
Lemma NoDup_split_unique {A} (l1 l2 k1 k2 : list A) x :
  NoDup (l1 ++ x :: l2) → l1 ++ x :: l2 = k1 ++ x :: k2 → l1 = k1.
Proof.
  revert k1. induction l1 as [|y l1 IH]; intros [|z k1] Hnd E; cbn in E; [done|..].
  - injection E as -> ->. apply NoDup_cons in Hnd as [Hnin _]. exfalso. apply Hnin.
    apply elem_of_app. right. by left.
  - injection E as <- E. apply NoDup_cons in Hnd as [Hnin _]. exfalso. apply Hnin.
    apply elem_of_app. right. by left.
  - injection E as <- E. apply NoDup_cons in Hnd as [_ Hnd]. f_equal. by apply IH.
Qed.

(** ** Live objects *)

(** The object at an index of the log of a region. *)
Definition live_at (a : store) (h r : Z) (i : nat) (o : object) : Prop :=
  log a r !! i = Some o ∧ live h o = true.

Lemma find_live h l o : find (live h) l = Some o → ∃ i, l !! i = Some o ∧ live h o = true.
Proof.
  intros [Hin Hl]%find_some. apply list_elem_of_In, list_elem_of_lookup in Hin as [i Hi]. eauto.
Qed.

Lemma find_not_live h l : (∀ i o, l !! i = Some o → live h o = false) → find (live h) l = None.
Proof.
  intros Hl. destruct (find (live h) l) as [o|] eqn:E; [|done].
  apply find_live in E as (i & Hi & Ho). by rewrite (Hl i o Hi) in Ho.
Qed.

Lemma live_hash h o : live h o = true → ob_hash o = h.
Proof. unfold live. intros [_ H]%andb_prop. by apply bool_decide_eq_true in H. Qed.

(** [kill_first] kills the first live object and nothing else. *)
Lemma lookup_kill_first h l o i x :
  find (live h) l = Some o →
  kill_first h l !! i = Some x →
  (∃ y, l !! i = Some y ∧ x = kill y ∧ live h y = true) ∨ l !! i = Some x.
Proof.
  revert i. induction l as [|y l IH]; intros i Hf Hi; [done|]. cbn [find kill_first] in *.
  destruct (live h y) eqn:Hy; destruct i as [|i]; cbn in Hi |- *; naive_solver.
Qed.

Lemma find_kill_first_unique h l :
  (∀ i j o p, l !! i = Some o → l !! j = Some p → live h o = true → live h p = true → i = j) →
  find (live h) (kill_first h l) = None.
Proof.
  induction l as [|y l IH]; intros Hu; [done|]. cbn [kill_first]. destruct (live h y) eqn:Hy.
  - cbn [find]. change (live h (kill y)) with false. cbn. apply find_not_live. intros i o Hi.
    destruct (live h o) eqn:Ho; [|done].
    assert (0%nat = S i) by (by eapply (Hu 0%nat (S i))). done.
  - cbn [find]. rewrite Hy. apply IH. intros i j o p Hi Hj Ho Hp.
    assert (S i = S j) by (by eapply (Hu (S i) (S j))). lia.
Qed.

Lemma live_kill h y : live h (kill y) = false.
Proof. done. Qed.

(** Killing objects of hash [h] leaves the others. *)
Lemma lookup_kill_first_other h h' l i x :
  h ≠ h' → live h' x = true → kill_first h l !! i = Some x ↔ l !! i = Some x ∧ live h' x = true.
Proof.
  intros Hne Hx. revert i. induction l as [|y l IH]; intros i; [naive_solver|]. cbn [kill_first].
  destruct (live h y) eqn:Hy; destruct i as [|i]; cbn.
  - split; [intros [= <-]; done|]. intros [[= <-] _]. apply live_hash in Hx, Hy. congruence.
  - naive_solver.
  - naive_solver.
  - apply IH.
Qed.

Lemma length_kill_first h l : length (kill_first h l) = length l.
Proof. induction l as [|y l IH]; [done|]. cbn. destruct (live h y); cbn; auto. Qed.

Lemma used_kill_first h l : used (kill_first h l) = used l.
Proof.
  induction l as [|y l IH]; [done|]. cbn. destruct (live h y); rewrite !used_cons; [done|]. by rewrite IH.
Qed.

(** ** The map *)

Section map.
Context (Sz N : Z).

(** Every region has room for another header. *)
Definition roomy (a : store) : Prop := ∀ r, 0 ≤ r < N → used (log a r) + HEADER_LENGTH < Sz.

(** The store [a] holds the map [m]: its live objects are the entries of [m],
    each key once, and a search for a key does not stop before its region. *)
Record holds (m : gmap Z (list Z)) (a : store) : Prop := mkHolds {
  holds_usable : usable a = true;
  holds_logs : Z.of_nat (length (logs a)) = N;
  holds_roomy : roomy a;
  holds_map h v : m !! h = Some v ↔ ∃ r i o, 0 ≤ r < N ∧ live_at a h r i o ∧ ob_value o = v;
  holds_unique h r i o r' i' o' :
    0 ≤ r < N → 0 ≤ r' < N → live_at a h r i o → live_at a h r' i' o' → r = r' ∧ i = i';
  holds_path h r i o l1 l2 r' :
    0 ≤ r < N → live_at a h r i o → region_order N (home_of N h) = l1 ++ r :: l2 → r' ∈ l1 →
    log a r' ≠ []
}.

(** The reply to a lookup in the map. *)
Definition map_reply (v : option (list Z)) (buf : list Z)
    : result (SuccessCode * Z) ErrorCode * list Z :=
  match v with
  | Some v => value_reply (mkObject true 0 v) buf
  | None => (Err KeyNotFound, buf)
  end.

Context (HN : 1 ≤ N).

Lemma elem_of_order h r : r ∈ region_order N (home_of N h) ↔ 0 ≤ r < N.
Proof.
  rewrite (region_order_perm N (home_of N h)), elem_of_seqZ by (by apply home_of_bounds). lia.
Qed.

Lemma NoDup_order h : NoDup (region_order N (home_of N h)).
Proof.
  rewrite (region_order_perm N (home_of N h)) by (by apply home_of_bounds). apply NoDup_seqZ.
Qed.

Lemma no_live_miss m a h r :
  holds m a → m !! h = None → 0 ≤ r < N → find (live h) (log a r) = None.
Proof.
  intros Ha Hm Hr. apply find_not_live. intros i o Hi. destruct (live h o) eqn:Ho; [|done].
  assert (m !! h = Some (ob_value o)) by (apply Ha; exists r, i, o; done). congruence.
Qed.

(** Where a key is: the regions before it do not stop a search. *)
Lemma key_place m a h v :
  holds m a → m !! h = Some v →
  ∃ l1 r l2 o, region_order N (home_of N h) = l1 ++ r :: l2 ∧ 0 ≤ r < N ∧
    find (live h) (log a r) = Some o ∧ ob_value o = v ∧
    ∀ r', r' ∈ l1 → find (live h) (log a r') = None ∧ stops Sz (log a r') = false.
Proof.
  intros Ha Hm. apply Ha in Hm as (r & i & o & Hr & Hlive & Hv).
  assert (Hin : r ∈ region_order N (home_of N h)) by (by apply elem_of_order).
  apply list_elem_of_split in Hin as (l1 & l2 & Horder).
  exists l1, r, l2. destruct (find (live h) (log a r)) as [o'|] eqn:Hf.
  - exists o'. apply find_live in Hf as Hlive'. destruct Hlive' as (i' & Hlive').
    destruct (holds_unique _ _ Ha h r i o r i' o' Hr Hr Hlive Hlive') as [_ <-].
    destruct Hlive as [Hi _], Hlive' as [Hi' _]. rewrite Hi in Hi'. injection Hi' as <-.
    refine (conj Horder (conj Hr (conj eq_refl (conj Hv _)))). intros r' Hr'.
    assert (Hrange : 0 ≤ r' < N).
    { apply (elem_of_order h). rewrite Horder. apply elem_of_app. by left. }
    assert (r' ≠ r).
    { intros ->. pose proof (NoDup_order h) as Hnd. rewrite Horder in Hnd.
      apply NoDup_app in Hnd as (_ & Hnd & _). apply (Hnd r Hr'). by left. }
    split.
    + apply find_not_live. intros j p Hj. destruct (live h p) eqn:Hp; [|done].
      apply find_live in Hf as (i' & Hi2).
      destruct (holds_unique _ _ Ha h r' j p r i' o Hrange Hr (conj Hj Hp) Hi2). congruence.
    + apply find_live in Hf as (i' & Hi2).
      pose proof (holds_path _ _ Ha h r i' o l1 l2 r' Hr Hi2 Horder Hr') as Hne.
      pose proof (holds_roomy _ _ Ha r' Hrange). unfold stops.
      by rewrite (proj2 (Z.leb_gt _ _)), bool_decide_false by (done || lia).
  - destruct Hlive as [Hi Ho]. pose proof (find_none _ _ Hf o) as Hn.
    rewrite Hn in Ho; [done|]. apply list_elem_of_In. by eapply list_elem_of_lookup_2.
Qed.

(** Looking up. *)
Lemma spec_get_map m a h buf :
  holds m a → bad_hash h = false → spec_get Sz N h buf a = Ret (map_reply (m !! h) buf, a).
Proof.
  intros Ha Hbad. unfold spec_get. rewrite Hbad, (holds_usable _ _ Ha). cbn [orb negb]. f_equal.
  destruct (m !! h) as [v|] eqn:Hm.
  - destruct (key_place m a h v Ha Hm) as (l1 & r & l2 & o & Horder & Hr & Hf & Hv & Hbefore).
    rewrite Horder. apply walk_stop; unfold get_visit.
    + intros r' Hr'. destruct (Hbefore r' Hr') as [-> ->]. done.
    + rewrite Hf. unfold map_reply, value_reply. cbn [ob_value]. by rewrite Hv.
  - apply walk_end. intros r Hr. apply elem_of_order in Hr. unfold get_visit.
    rewrite (no_live_miss m a h r) by done. destruct (stops Sz (log a r)); auto.
Qed.

(** *** Appending *)

Lemma live_at_append a x o h r i p :
  Z.of_nat (length (logs a)) = N → 0 ≤ x < N → 0 ≤ r < N →
  live_at (set_log a x (log a x ++ [o])) h r i p ↔
  live_at a h r i p ∨ (r = x ∧ i = length (log a x) ∧ p = o ∧ live h o = true).
Proof.
  intros Hlen Hx Hr. unfold live_at. rewrite log_set_log by lia.
  destruct (Z.eqb_spec r x) as [->|]; [|naive_solver].
  rewrite lookup_app_Some. split.
  - intros [[Hi|[Hge Hi]] Hp]; [by left|]. apply list_lookup_singleton_Some in Hi as [Hi <-].
    right. split_and!; [done|lia|done|done].
  - intros [[Hi Hp]|(_ & -> & -> & Ho)]; [auto|]. split; [|done]. right. rewrite Nat.sub_diag. done.
Qed.

Lemma holds_append m a h v l1 x l2 :
  let o := mkObject true h v in
  holds m a → m !! h = None → region_order N (home_of N h) = l1 ++ x :: l2 →
  (∀ r, r ∈ l1 → Sz ≤ used (log a r) + (HEADER_LENGTH + zlen v)) →
  used (log a x) + ob_len o ≤ Sz → roomy (set_log a x (log a x ++ [o])) →
  holds (<[h:=v]> m) (set_log a x (log a x ++ [o])).
Proof.
  intros o Ha Hm Horder Hskip Hfit Hroomy.
  assert (Hx : 0 ≤ x < N).
  { apply (elem_of_order h). rewrite Horder. apply elem_of_app. right. by left. }
  pose proof (holds_logs _ _ Ha) as Hlen.
  assert (Hno : ∀ r i p, 0 ≤ r < N → live_at a h r i p → False).
  { intros r i p Hr Hp. assert (m !! h = Some (ob_value p)) by (apply Ha; exists r, i, p; done). congruence. }
  assert (Hlive : ∀ h', live h' o = true ↔ h' = h).
  { intros h'. unfold live. cbn. rewrite bool_decide_eq_true. naive_solver. }
  constructor.
  - apply Ha.
  - unfold set_log. cbn [logs]. by rewrite length_insert.
  - done.
  - intros h' v'. rewrite lookup_insert_Some. split.
    + intros [[<- <-]|[Hne Hm']].
      * exists x, (length (log a x)), o. split_and!; [lia|lia|apply live_at_append; naive_solver|done].
      * apply Ha in Hm' as (r & i & p & Hr & Hp & Hv). exists r, i, p. split_and!; [lia|lia| |done].
        apply live_at_append; auto.
    + intros (r & i & p & Hr & Hp & Hv). rewrite live_at_append in Hp by done.
      destruct Hp as [Hp|(-> & -> & -> & ->%Hlive)]; [|left; by rewrite <- Hv].
      right. split; [intros ->; eauto|]. apply Ha. by exists r, i, p.
  - intros h' r i p r' i' p' Hr Hr' Hp Hp'.
    rewrite live_at_append in Hp, Hp' by done.
    destruct Hp as [Hp|(-> & -> & -> & ->%Hlive)], Hp' as [Hp'|(-> & -> & -> & Hh%Hlive)];
      [exact (holds_unique _ _ Ha h' r i p r' i' p' Hr Hr' Hp Hp')|subst h'; exfalso; eauto|exfalso; eauto|done].
  - intros h' r i p k1 k2 r' Hr Hp Hord Hr'.
    assert (Hr'N : 0 ≤ r' < N).
    { apply (elem_of_order h'). rewrite Hord. apply elem_of_app. by left. }
    rewrite log_set_log by lia. destruct (Z.eqb_spec r' x) as [->|Hne].
    { intros E. by apply app_eq_nil in E as [_ ?]. }
    rewrite live_at_append in Hp by done.
    destruct Hp as [Hp|(-> & -> & -> & ->%Hlive)]; [exact (holds_path _ _ Ha h' r i p k1 k2 r' Hr Hp Hord Hr')|].
    intros Hnil. specialize (Hskip r'). rewrite Hnil, used_nil in Hskip.
    assert (r' ∈ l1) as Hin.
    { pose proof (NoDup_order h) as Hnd. rewrite Horder in Hord, Hnd.
      by rewrite (NoDup_split_unique _ _ _ _ _ Hnd Hord). }
    specialize (Hskip Hin). unfold ob_len, CHECK_SUM_LEN in Hfit. pose proof (used_nonneg (log a x)).
    cbn [ob_value o] in Hfit. lia.
Qed.

Lemma spec_append_map m a h v :
  holds m a → m !! h = None → bad_hash h = false → ob_len (mkObject true h v) < 0xFFF →
  ∃ r a', spec_append Sz N h v a = Ret (r, a') ∧
    (r = Ok Written → roomy a' → holds (<[h:=v]> m) a') ∧
    (r = Err FlashFull → a' = a) ∧ (r = Ok Written ∨ r = Err FlashFull ∨ r = Err ObjectTooLarge).
Proof.
  intros Ha Hm Hbad Hlen. unfold spec_append. rewrite Hbad, (holds_usable _ _ Ha).
  rewrite (proj2 (Z.ltb_ge _ _)), (proj2 (Z.leb_gt _ _)) by lia. cbn [orb negb].
  destruct (walk_inv (append_visit Sz Written a h v) (Err FlashFull, a) (region_order N (home_of N h)))
    as [(l1 & x & l2 & Horder & Hskip & Hx)| ->]; [|by eexists _, _; naive_solver].
  destruct (walk (append_visit Sz Written a h v) _ _) as [r a'] eqn:Ew. exists r, a'. split; [done|].
  assert (Hmiss : ∀ r, r ∈ region_order N (home_of N h) → find (live h) (log a r) = None).
  { intros r' Hr'. apply (no_live_miss m); [done..|]. by apply (elem_of_order h). }
  unfold append_visit in Hx, Hskip. rewrite Hmiss in Hx by (rewrite Horder; set_solver).
  destruct (Z.leb_spec Sz (used (log a x) + (HEADER_LENGTH + zlen v))); [done|].
  destruct (Z.leb_spec (used (log a x) + ob_len (mkObject true h v)) Sz) as [Hfit|];
    injection Hx as <- <-; [|naive_solver].
  split; [|naive_solver]. intros _ Hroomy. apply (holds_append m a h v l1 x l2); try done.
  intros r' Hr'. specialize (Hskip r' Hr'). rewrite Hmiss in Hskip by (rewrite Horder; set_solver).
  destruct (Z.leb_spec Sz (used (log a r') + (HEADER_LENGTH + zlen v))); [done|].
  by destruct (_ <=? Sz).
Qed.

(** *** Removing *)

Lemma live_at_kill m a h v x o h' r i p :
  holds m a → m !! h = Some v → 0 ≤ x < N → 0 ≤ r < N → find (live h) (log a x) = Some o →
  live_at (set_log a x (kill_first h (log a x))) h' r i p ↔ live_at a h' r i p ∧ h' ≠ h.
Proof.
  intros Ha Hm Hx Hr Hf. pose proof (holds_logs _ _ Ha) as Hlen. unfold live_at.
  rewrite log_set_log by lia. apply find_live in Hf as Hlive. destruct Hlive as (j & Hj).
  destruct (decide (h' = h)) as [->|Hne].
  - split; [|naive_solver]. intros Hp. exfalso. destruct (Z.eqb_spec r x) as [->|Hrx].
    + destruct Hp as [Hi Hp]. pose proof (find_kill_first_unique h (log a x)) as Hn.
      eapply find_none in Hn; [|intros i1 i2 o1 o2 H1 H2 L1 L2;
        by destruct (holds_unique _ _ Ha h x i1 o1 x i2 o2 Hx Hx (conj H1 L1) (conj H2 L2))|].
      * rewrite Hn in Hp. done.
      * apply list_elem_of_In. by eapply list_elem_of_lookup_2.
    + by destruct (holds_unique _ _ Ha h r i p x j o Hr Hx Hp Hj).
  - destruct (r =? x) eqn:Erx; [|naive_solver]. apply Z.eqb_eq in Erx as ->.
    split; intros Hp.
    + destruct Hp as [Hi Hp]. rewrite (lookup_kill_first_other h h') in Hi by done. naive_solver.
    + destruct Hp as [[Hi Hp] _]. split; [|done]. by apply (lookup_kill_first_other h h').
Qed.

Lemma holds_kill m a h v x o :
  holds m a → m !! h = Some v → 0 ≤ x < N → find (live h) (log a x) = Some o →
  holds (delete h m) (set_log a x (kill_first h (log a x))).
Proof.
  intros Ha Hm Hx Hf. pose proof (holds_logs _ _ Ha) as Hlen.
  constructor.
  - apply Ha.
  - unfold set_log. cbn [logs]. by rewrite length_insert.
  - intros r Hr. rewrite log_set_log by lia. destruct (Z.eqb_spec r x) as [->|]; [|by apply Ha].
    rewrite used_kill_first. by apply Ha.
  - intros h' v'. rewrite lookup_delete_Some. split.
    + intros [Hne Hm']. apply Ha in Hm' as (r & i & p & Hr & Hp & Hv). exists r, i, p.
      refine (conj Hr (conj _ Hv)). rewrite (live_at_kill m a h v) by done. naive_solver.
    + intros (r & i & p & Hr & Hp & Hv). rewrite (live_at_kill m a h v) in Hp by done.
      destruct Hp as [Hp Hne]. split; [done|]. apply Ha. by exists r, i, p.
  - intros h' r i p r' i' p' Hr Hr' Hp Hp'. rewrite (live_at_kill m a h v) in Hp, Hp' by done.
    eapply (holds_unique _ _ Ha); [done|done|apply Hp|apply Hp'].
  - intros h' r i p k1 k2 r' Hr Hp Hord Hr'. rewrite (live_at_kill m a h v) in Hp by done.
    assert (Hr'N : 0 ≤ r' < N).
    { apply (elem_of_order h'). rewrite Hord. apply elem_of_app. by left. }
    rewrite log_set_log by lia.
    pose proof (holds_path _ _ Ha h' r i p k1 k2 r' Hr (proj1 Hp) Hord Hr') as Hne.
    destruct (Z.eqb_spec r' x) as [->|]; [|done].
    intros E. apply (f_equal length) in E. rewrite length_kill_first in E.
    by apply length_zero_iff_nil in E.
Qed.

Lemma spec_invalidate_map m a h :
  holds m a → bad_hash h = false →
  ∃ a', spec_invalidate Sz N h a =
          Ret (match m !! h with Some _ => Ok Written | None => Err KeyNotFound end, a') ∧
        holds (delete h m) a'.
Proof.
  intros Ha Hbad. unfold spec_invalidate. rewrite Hbad, (holds_usable _ _ Ha). cbn [orb negb].
  destruct (m !! h) as [v|] eqn:Hm.
  - destruct (key_place m a h v Ha Hm) as (l1 & r & l2 & o & Horder & Hr & Hf & Hv & Hbefore).
    eexists. split; [|by eapply holds_kill]. f_equal. rewrite Horder.
    apply walk_stop; unfold invalidate_visit.
    + intros r' Hr'. destruct (Hbefore r' Hr') as [-> ->]. done.
    + by rewrite Hf.
  - exists a. rewrite delete_id by done. split; [|done]. f_equal. apply walk_end.
    intros r Hr. apply elem_of_order in Hr. unfold invalidate_visit.
    rewrite (no_live_miss m a h r) by done. destruct (stops Sz (log a r)); auto.
Qed.
End map.

(** ** The theorems *)

Lemma bad_hash_false h : 0 < h < 0xFFFFFFFFFFFFFFFF → bad_hash h = false.
Proof. intros. unfold bad_hash. apply orb_false_iff. rewrite !Z.eqb_neq. lia. Qed.

(** Erased flash holds the empty map. *)
Lemma holds_blank Sz N : 15 ≤ Sz → 1 ≤ N → holds Sz N ∅ (blank_store N).
Proof.
  intros HS HN.
  assert (Hlog : ∀ r, 0 ≤ r < N → log (blank_store N) r = []).
  { intros r Hr. unfold log, blank_store. cbn [logs]. by rewrite lookup_total_replicate_2 by lia. }
  assert (Hno : ∀ h r i o, 0 ≤ r < N → live_at (blank_store N) h r i o → False).
  { intros h r i o Hr [Hi _]. by rewrite Hlog in Hi. }
  constructor.
  - done.
  - cbn. rewrite length_replicate. lia.
  - intros r Hr. rewrite Hlog by done. rewrite used_nil. unfold HEADER_LENGTH, HASH_OFFSET. lia.
  - intros h v. rewrite lookup_empty. split; [done|]. intros (r & i & o & Hr & Ho & _). exfalso. eauto.
  - intros. exfalso. eauto.
  - intros. exfalso. eauto.
Qed.

(** C25.  TicKV is a map.  While the store holds a map (each key once, room for a
    header in every region, and no erased region before the region of a key on
    its search path), [get_key] answers what the map says, [append_key] of an
    absent key either inserts it or reports that flash is full or the object
    does not fit, and [invalidate_key] removes the key, or reports that there is
    none. *)
Theorem tickv_implements_map {C} `{!FlashController C} (Sz N : Z) `{!FlashLaws false C Sz N} (fuel : nat)
    (t : TicKV C) (a : store) (m : gmap Z (list Z)) (h : Z) :
  15 ≤ Sz → 1 ≤ N → Sz < Z.of_nat fuel ∧ N < Z.of_nat fuel →
  rep Sz N idle t a → holds Sz N m a → 0 < h < 0xFFFFFFFFFFFFFFFF →
  (∀ buf, ∃ t', get_key Sz fuel h buf t = Done (map_reply (m !! h) buf) t' ∧ rep Sz N idle t' a) ∧
  (∀ v, Forall byte v → zlen v < 0xFFF - 15 → m !! h = None →
    ∃ r t' a', append_key Sz fuel h v t = Done r t' ∧ rep Sz N idle t' a' ∧
      (r = Ok Written → roomy Sz N a' → holds Sz N (<[h:=v]> m) a') ∧
      (r = Err FlashFull → a' = a) ∧
      (r = Ok Written ∨ r = Err FlashFull ∨ r = Err ObjectTooLarge)) ∧
  (∃ t' a', invalidate_key Sz fuel h t =
      Done (match m !! h with Some _ => Ok Written | None => Err KeyNotFound end) t' ∧
    rep Sz N idle t' a' ∧ holds Sz N (delete h m) a').
Proof.
  intros HS HN Hf Hrep Ha Hh. pose proof (bad_hash_false h Hh) as Hbad.
  assert (u64 h) by (unfold u64; lia). split_and!.
  - intros buf. pose proof (get_key_refines Sz N fuel HS HN Hf h buf t a) as Hr.
    rewrite (spec_get_map Sz N HN m) in Hr by done. by apply Hr.
  - intros v Hv Hlen Hm.
    destruct (spec_append_map Sz N HN m a h v Ha Hm Hbad) as (r & a' & Es & H1 & H2 & H3).
    { unfold ob_len, HEADER_LENGTH, HASH_OFFSET, CHECK_SUM_LEN. cbn [ob_value]. lia. }
    pose proof (append_key_refines Sz N fuel HS HN Hf idle (λ s H, or_introl H) eq_refl h v t a) as Hr.
    rewrite Es in Hr. destruct Hr as (t' & E & Hrep'); [done..|]. by exists r, t', a'.
  - destruct (spec_invalidate_map Sz N HN m a h Ha Hbad) as (a' & Es & Ha').
    pose proof (invalidate_key_refines Sz N fuel HS HN Hf h t a) as Hr. rewrite Es in Hr.
    destruct Hr as (t' & E & Hrep'); [done..|]. by exists t', a'.
Qed.

(** One step on RAM of four regions of 64 bytes. *)
Lemma ram_step o t a r a' :
  op_wf o → rep 64 4 (FlashLaws0 := ram_laws 64 4) idle t a → spec_op 64 4 o a = Ret (r, a') →
  ∃ t', exec_op (FlashController0 := ram_flash 64) 64 100 o t = Done r t' ∧
    rep 64 4 (FlashLaws0 := ram_laws 64 4) idle t' a'.
Proof.
  intros Ho Hrep Es.
  pose proof (exec_op_refines 64 4 (FlashLaws0 := ram_laws 64 4) 100 o t a ltac:(lia) ltac:(lia) ltac:(lia)
    Ho Hrep) as H.
  rewrite Es in H. exact H.
Qed.

(** The store after one append to erased flash: the key 5 in its home region 1. *)
Definition one_log : store := mkStore [[]; [mkObject true 5 [1; 2]]; []; []] true.

Lemma holds_one_log : holds 64 4 {[5 := [1; 2]]} one_log.
Proof.
  refine (holds_append 64 4 ltac:(lia) ∅ (blank_store 4) 5 [1; 2] [] 1 [2; 0; 3] (holds_blank 64 4 _ _)
    (lookup_empty 5) eq_refl _ _ _); [lia|lia|by intros ? ?%not_elem_of_nil|vm_compute; discriminate|].
  intros r Hr. assert (r = 0 ∨ r = 1 ∨ r = 2 ∨ r = 3) as [->|[->|[->| ->]]] by lia; vm_compute; reflexivity.
Qed.

Lemma tickv_implements_map_witness :
  ∃ t1 t2 t3, append_key (FlashController0 := ram_flash 64) 64 100 5 [1; 2] (fresh_tickv 64 4) =
        Done (Ok Written) t1 ∧
    get_key (FlashController0 := ram_flash 64) 64 100 5 [0; 0; 7] t1 =
        Done (Ok (Complete, 2), [1; 2; 7]) t2 ∧
    invalidate_key (FlashController0 := ram_flash 64) 64 100 5 t1 = Done (Ok Written) t3.
Proof.
  pose proof (rep_fresh 64 4 ltac:(lia) ltac:(lia)) as Hrep0.
  assert (0 < 5 < 0xFFFFFFFFFFFFFFFF) as H5 by lia.
  assert (64 < Z.of_nat 100 ∧ 4 < Z.of_nat 100) as Hf by lia.
  assert (op_wf (OpAppend 5 [1; 2])) as Hwf.
  { split; [unfold u64; lia|repeat constructor; unfold byte; lia]. }
  destruct (ram_step (OpAppend 5 [1; 2]) _ _ (ReplyCode (Ok Written)) one_log Hwf Hrep0 eq_refl)
    as (t1 & E1 & Hrep1).
  destruct (tickv_implements_map (FlashController0 := ram_flash 64) (FlashLaws0 := ram_laws 64 4)
    64 4 100 t1 one_log {[5 := [1; 2]]} 5 ltac:(lia) ltac:(lia) Hf Hrep1 holds_one_log H5)
    as (Hget & _ & t3 & a3 & Einv & _).
  destruct (Hget [0; 0; 7]) as (t2 & Eget & _). exists t1, t2, t3. split; [|split; [exact Eget|exact Einv]].
  cbn [exec_op] in E1. unfold mbind, M_bind, mret, M_ret in E1. destruct (append_key _ _ _ _ _); congruence.
Defined.

(** ** What the map depends on *)

(** Replies of a run on erased flash: four regions of 64 bytes. *)
Definition run_fresh (ops : list kv_op) : option (list kv_reply) :=
  match exec_kv (FlashController0 := ram_flash 64) 64 100 ops (fresh_tickv 64 4) with
  | Done rs _ => Some rs
  | _ => None
  end.


Section lost.
Context {C : Type} `{!FlashController C} (Sz N : Z) `{!FlashLaws false C Sz N} (fuel : nat).
Context (HS : 15 ≤ Sz) (HN : 1 ≤ N) (Hf : Sz < Z.of_nat fuel ∧ N < Z.of_nat fuel).

(** The key [h] is stored as the object [o] in region [r], which a search
    visits after the regions [l1], none of which holds the key. *)
Definition stored_behind (a : store) (h : Z) (l1 : list Z) (r : Z) (l2 : list Z) (o : object) : Prop :=
  region_order N (home_of N h) = l1 ++ r :: l2 ∧ find (live h) (log a r) = Some o ∧
  ∀ y, y ∈ l1 → find (live h) (log a y) = None.


Lemma stored_behind_not_before a h l1 r l2 o y :
  stored_behind a h l1 r l2 o → y ∈ l1 → y ≠ r.
Proof.
  intros (E & _) Hy ->. pose proof (NoDup_order N HN h) as Hnd. rewrite E in Hnd.
  apply NoDup_app in Hnd as (_ & Hnd & _). apply (Hnd r Hy). by left.
Qed.
















End lost.





(** Such runs on erased flash. *)
Example tickv_loses_keys_runs :
  run_fresh [OpAppend 1 (replicate 45 7); OpAppend 5 [9]; OpGet 5 [0]] =
    Some [ReplyCode (Ok Written); ReplyCode (Ok Written); ReplyValue (Err KeyNotFound) [0]] ∧
  run_fresh [OpAppend 1 (replicate 20 7); OpAppend 5 (replicate 30 9); OpAppend 5 [3];
             OpInvalidate 5; OpGet 5 (replicate 30 0)] =
    Some [ReplyCode (Ok Written); ReplyCode (Ok Written); ReplyCode (Ok Written);
          ReplyCode (Ok Written); ReplyValue (Ok (Complete, 30)) (replicate 30 9)].
Proof. split_and!; vm_compute; reflexivity. Qed.
(** An object whose header and value fit behind the log of its region but
    whose checksum does not is refused with an error that leaves the read
    buffer taken: every later operation that reads flash panics. *)
Theorem append_loses_read_buffer {C} `{!FlashController C} (Sz N : Z) `{!FlashLaws false C Sz N} (fuel : nat)
    (t : TicKV C) (a : store) (h : Z) (v : list Z) :
  15 ≤ Sz → 1 ≤ N → Sz < Z.of_nat fuel ∧ N < Z.of_nat fuel →
  rep Sz N idle t a → usable a = true → 0 < h < 0xFFFFFFFFFFFFFFFF → Forall byte v →
  find (live h) (log a (home_of N h)) = None →
  used (log a (home_of N h)) + HEADER_LENGTH + zlen v < Sz <
    used (log a (home_of N h)) + HEADER_LENGTH + zlen v + CHECK_SUM_LEN →
  zlen v < 0xFFF - 15 →
  ∃ t', append_key Sz fuel h v t = Done (Err ObjectTooLarge) t' ∧
    (∀ h' buf, 0 < h' < 0xFFFFFFFFFFFFFFFF → get_key Sz fuel h' buf t' = Crash) ∧
    garbage_collect Sz fuel t' = Crash.
Proof.
  intros HS HN Hf Hrep Hu Hh Hv Hmiss Hsize Hlen. pose proof (bad_hash_false h Hh) as Hbad.
  pose proof (append_key_refines Sz N fuel HS HN Hf idle (λ s H, or_introl H) eq_refl h v t a
    ltac:(unfold u64; lia) Hv Hrep) as Hr.
  assert (Hl : ob_len (mkObject true h v) = HEADER_LENGTH + zlen v + CHECK_SUM_LEN) by done.
  assert (Es : spec_append Sz N h v a = Ret (Err ObjectTooLarge, mkStore (logs a) false)).
  { unfold spec_append. rewrite Hbad, Hu. unfold HEADER_LENGTH, HASH_OFFSET, CHECK_SUM_LEN in *.
    rewrite (proj2 (Z.ltb_ge _ _)), (proj2 (Z.leb_gt _ _)) by lia. cbn [orb negb]. f_equal.
    unfold region_order. cbn [walk]. unfold append_visit. rewrite Hmiss.
    unfold HEADER_LENGTH, HASH_OFFSET. rewrite !(proj2 (Z.leb_gt _ _)) by lia. done. }
  rewrite Es in Hr. destruct Hr as (t' & E & Hrep'). exists t'. split; [done|]. split.
  - intros h' buf Hh'. pose proof (get_key_refines Sz N fuel HS HN Hf h' buf t' _
      ltac:(unfold u64; lia) Hrep') as Hg.
    unfold spec_get in Hg. rewrite (bad_hash_false h' Hh') in Hg. exact Hg.
  - exact (garbage_collect_refines Sz N fuel HS HN Hf t' _ Hrep').
Qed.

Lemma append_loses_read_buffer_witness :
  ∃ t', append_key (FlashController0 := ram_flash 64) 64 100 1 (replicate 51 7) (fresh_tickv 64 4) =
          Done (Err ObjectTooLarge) t' ∧
        garbage_collect (FlashController0 := ram_flash 64) 64 100 t' = Crash.
Proof.
  assert (64 < Z.of_nat 100 ∧ 4 < Z.of_nat 100) as Hf by lia.
  assert (Forall byte (replicate 51 7)) as Hv by (apply Forall_replicate; unfold byte; lia).
  destruct (append_loses_read_buffer (FlashController0 := ram_flash 64) (FlashLaws0 := ram_laws 64 4)
    64 4 100 (fresh_tickv 64 4) (blank_store 4) 1 (replicate 51 7) ltac:(lia) ltac:(lia) Hf
    (rep_fresh 64 4 ltac:(lia) ltac:(lia)) eq_refl ltac:(lia) Hv eq_refl
    ltac:(vm_compute; split; reflexivity) ltac:(vm_compute; reflexivity)) as (t' & E & _ & Eg).
  exists t'. split; [exact E|exact Eg].
Defined.

(** ** Corrupt flash *)

Lemma entry_length_nonneg b1 b2 : byte b1 → byte b2 → 0 ≤ entry_length b1 b2.
Proof.
  unfold byte, entry_length. intros H1 H2. apply Z.lor_nonneg. split; [|lia].
  apply Z.shiftl_nonneg, Z.land_nonneg. lia.
Qed.

Lemma get_byte data i b : Forall byte data → get data i = Some b → byte b.
Proof. unfold get. intros Hd Hi. by eapply Forall_lookup_1 in Hi. Qed.

Lemma find_loop_returns Sz k h data offset empty :
  Forall byte data → 0 ≤ offset → (1 ≤ k)%nat → Sz < Z.of_nat k + offset + HEADER_LENGTH →
  ∃ r, find_loop Sz k h data offset empty = Some r ∧
    ∀ o len, r = Ok (o, len) → 0 ≤ o ∧ o + HEADER_LENGTH < Sz ∧ 0 < len ∧
      get data (o + VERSION_OFFSET) = Some VERSION ∧
      hash_matches h data (o + HASH_OFFSET) 8 = Some true.
Proof.
  intros Hd. revert offset empty. induction k as [|k IH]; intros offset empty Ho Hk1 Hk; [lia|].
  cbn [find_loop]. destruct (Z.leb_spec Sz (offset + HEADER_LENGTH)); [eexists; naive_solver|].
  destruct (get data (offset + VERSION_OFFSET)) as [v|] eqn:Hv; [|eexists; naive_solver].
  destruct (v =? 0xFF); [eexists; naive_solver|].
  destruct (Z.eqb_spec v VERSION) as [->|]; cbn [negb]; [|eexists; naive_solver].
  destruct (get data (offset + LEN_OFFSET)) as [b1|] eqn:Hb1; [|eexists; naive_solver].
  destruct (get data (offset + LEN_OFFSET + 1)) as [b2|] eqn:Hb2; [|eexists; naive_solver].
  pose proof (entry_length_nonneg b1 b2 (get_byte _ _ _ Hd Hb1) (get_byte _ _ _ Hd Hb2)).
  destruct (Z.eqb_spec (entry_length b1 b2) 0); [eexists; naive_solver|].
  destruct (negb _); [apply IH; lia|].
  destruct (hash_matches h data (offset + HASH_OFFSET) 8) as [[]|] eqn:Hh; [|apply IH; lia|eexists; naive_solver].
  eexists. split; [done|]. intros o len [= <- <-]. split_and!; [lia|lia|lia|done|done].
Qed.

(** C34.  [find_key_offset] returns on every region, whatever it contains, after
    at most one step per byte, and the header it reports lies inside the region,
    has a supported version, a positive length and the hash looked for. *)
Theorem find_key_offset_returns (Sz h : Z) (fuel : nat) (region_data : list Z) :
  Forall byte region_data → 0 < Sz ≤ Z.of_nat fuel →
  ∃ r, find_key_offset Sz fuel h region_data = Some r ∧
    ∀ o len, r = Ok (o, len) → 0 ≤ o ∧ o + HEADER_LENGTH < Sz ∧ 0 < len ∧
      get region_data (o + VERSION_OFFSET) = Some VERSION ∧
      hash_matches h region_data (o + HASH_OFFSET) 8 = Some true.
Proof.
  intros Hd Hf. apply find_loop_returns; [done|lia|lia|]. unfold HEADER_LENGTH, HASH_OFFSET. lia.
Qed.

Lemma find_key_offset_returns_witness :
  ∃ r, find_key_offset 20 20 7 (replicate 20 1) = Some r.
Proof.
  destruct (find_key_offset_returns 20 7 20 (replicate 20 1)) as (r & E & _).
  - apply Forall_replicate. unfold byte. lia.
  - lia.
  - exists r. exact E.
Defined.

(** A scan that meets an entry of length zero stays there. *)
Lemma scan_loop_stuck Sz k package_length data offset b1 b2 :
  offset + package_length < Sz → get data (offset + VERSION_OFFSET) = Some VERSION →
  get data (offset + LEN_OFFSET) = Some b1 → get data (offset + LEN_OFFSET + 1) = Some b2 →
  entry_length b1 b2 = 0 → scan_loop Sz k package_length data offset = None.
Proof.
  intros Hp Hv H1 H2 Hl. induction k as [|k IH]; [done|]. cbn [scan_loop].
  rewrite (proj2 (Z.leb_gt _ _)) by lia. rewrite Hv, H1, H2, Hl, Z.add_0_r. exact IH.
Qed.

(** [append_key] never returns when the region of the hash starts with an
    entry of length zero: its scan does not move on, for any number of steps,
    although the search before it treats such an entry as the end of the
    region. *)
Theorem append_stuck_on_zero_length (fuel : nat) (Sz flash_size h b1 b2 : Z) (rest : list Z)
    (value buffer : list Z) (c : ram) :
  0 < h < 0xFFFFFFFFFFFFFFFF → 1 ≤ num_region Sz flash_size →
  HEADER_LENGTH + zlen value < Sz → zlen value < 0xFFF - 15 →
  c (home_of (num_region Sz flash_size) h) = VERSION :: b1 :: b2 :: rest → entry_length b1 b2 = 0 →
  append_key (FlashController0 := ram_flash Sz) Sz fuel h value
    (mkTicKV c flash_size (Some buffer) StateNone) = NoFuel.
Proof.
  intros Hh HN Hfit Hlen Hc Hz. pose proof (zlen_nonneg value). unfold append_key. run_step.
  rewrite (get_region_home Sz (num_region Sz flash_size)), (bad_hash_false h Hh) by done. run_step.
  unfold HEADER_LENGTH, HASH_OFFSET, CHECK_SUM_LEN in *.
  rewrite (proj2 (Z.ltb_ge _ _)) by lia. unfold ObjectHeader_new. rewrite (proj2 (Z.ltb_lt _ _)) by lia.
  run_step. destruct fuel as [|k]; [done|]. cbn [region_loop]. unfold append_step. run_step.
  rewrite !bool_decide_false by done. run_step. cbn [read_region ram_flash]. run_step.
  rewrite Z.add_0_r, Hc. unfold append_body, find_key_offset.
  change (drop (Z.to_nat 0) (VERSION :: b1 :: b2 :: rest)) with (VERSION :: b1 :: b2 :: rest).
  assert (Hfind : find_loop Sz (S k) h (VERSION :: b1 :: b2 :: rest) 0 true = Some (Err (false, KeyNotFound))).
  { cbn [find_loop]. unfold HEADER_LENGTH, HASH_OFFSET. rewrite (proj2 (Z.leb_gt _ _)) by lia.
    change (get (VERSION :: b1 :: b2 :: rest) (0 + VERSION_OFFSET)) with (Some VERSION).
    change (get (VERSION :: b1 :: b2 :: rest) (0 + LEN_OFFSET)) with (Some b1).
    change (get (VERSION :: b1 :: b2 :: rest) (0 + LEN_OFFSET + 1)) with (Some b2).
    cbn [VERSION Z.eqb Pos.eqb negb]. by rewrite Hz. }
  rewrite Hfind. run_step. rewrite (scan_loop_stuck Sz (S k) _ _ 0 b1 b2); done.
Qed.

Lemma append_stuck_on_zero_length_witness :
  append_key (FlashController0 := ram_flash 64) 64 1000 5 [7]
    (mkTicKV (λ _, 1 :: 0x80 :: 0 :: replicate 61 0) 256 (Some []) StateNone) = NoFuel.
Proof.
  apply (append_stuck_on_zero_length 1000 64 256 5 0x80 0 (replicate 61 0) [7] []); try reflexivity.
  - lia.
  - vm_compute. discriminate.
Defined.
