(* ===== verification/TickvAsync.v ===== *)
(** * Split-phase TicKV: libraries/tickv/src/async_ops.rs

    [AsyncTicKV] wraps the store for a flash controller that only starts an
    operation and calls back when it is done.  An operation that needs a region
    returns [Queued]; the caller hands the region over with [set_read_buffer] and
    calls [continue_operation], until the operation is complete.

    The theorems: for such a controller, looking up, appending and invalidating
    a key complete after at most one callback per region, with the replies and
    the flash contents of the synchronous store. *)

From S2P Require Import Prelude Bytes Crc32 Tickv TickvLog TickvProbe TickvStore.

(** ** The code *)

Record AsyncTicKV (C : Type) := mkAsync {
  tickv : TicKV C;
  key : option Z;
  value : option (list Z);
  value_length : Z
}.
Arguments mkAsync {C}.
Arguments tickv {C}.
Arguments key {C}.
Arguments value {C}.
Arguments value_length {C}.

Definition AM (C A : Type) : Type := AsyncTicKV C → run (AsyncTicKV C) A.

#[export] Instance AM_ret C : MRet (AM C) := fun A a s => Done a s.
#[export] Instance AM_bind C : MBind (AM C) := fun A B f m s =>
  match m s with Done a s' => f a s' | Crash => Crash | NoFuel => NoFuel end.

Definition acrash {C A} : AM C A := fun _ => Crash.

(** A call of the wrapped store. *)
Definition call {C A} (m : M C A) : AM C A := fun s =>
  match m (tickv s) with
  | Done a t => Done a (mkAsync t (key s) (value s) (value_length s))
  | Crash => Crash
  | NoFuel => NoFuel
  end.

Definition set_key {C} (k : Z) : AM C unit := fun s =>
  Done () (mkAsync (tickv s) (Some k) (value s) (value_length s)).
Definition set_value {C} (v : option (list Z)) : AM C unit := fun s =>
  Done () (mkAsync (tickv s) (key s) v (value_length s)).
Definition set_value_length {C} (n : Z) : AM C unit := fun s =>
  Done () (mkAsync (tickv s) (key s) (value s) n).
(** [self.value.take()]. *)
Definition take_value {C} : AM C (option (list Z)) := fun s =>
  Done (value s) (mkAsync (tickv s) (key s) None (value_length s)).
(** [unwrap]. *)
Definition unwrap {C A} (o : option A) : AM C A := fun s =>
  match o with Some a => Done a s | None => Crash end.
Definition get_key_cell {C} : AM C (option Z) := fun s => Done (key s) s.
Definition get_value_length {C} : AM C Z := fun s => Done (value_length s) s.

(** [&value[0..length]]. *)
Definition prefix {C} (v : list Z) (length : Z) : AM C (list Z) := unwrap (get_range v 0 length).

Definition not_ready (e : ErrorCode) : bool :=
  match e with ReadNotReady _ | EraseNotReady _ | WriteNotReady _ => true | _ => false end.

(** The type [ContinueReturn]. *)
Definition ContinueReturn : Type := result SuccessCode ErrorCode * option (list Z) * Z.

Section async.
Context {C : Type} `{!FlashController C} (Sz : Z) (fuel : nat).

(** [AsyncTicKV::new]. *)
Definition AsyncTicKV_new (controller : C) (read_buffer : list Z) (flash_size : Z) : AsyncTicKV C :=
  mkAsync (TicKV_new controller read_buffer flash_size) None None 0.

Definition async_initialise (hashed_main_key : Z) : AM C (result SuccessCode ErrorCode) :=
  set_key hashed_main_key;; call (initialise Sz fuel hashed_main_key).

Definition async_append_key (hash : Z) (v : list Z) (length : Z)
    : AM C (result SuccessCode (list Z * ErrorCode)) :=
  p ← prefix v length;
  r ← call (append_key Sz fuel hash p);
  match r with
  | Ok _ => mret (Err (v, WriteFail))
  | Err e =>
      if not_ready e then
        set_key hash;; set_value (Some v);; set_value_length length;; mret (Ok Queued)
      else mret (Err (v, e))
  end.

Definition async_get_key (hash : Z) (buf : list Z)
    : AM C (result SuccessCode (list Z * ErrorCode)) :=
  '(r, buf) ← call (get_key Sz fuel hash buf);
  match r with
  | Ok _ => mret (Err (buf, ReadFail))
  | Err e =>
      if not_ready e then set_key hash;; set_value (Some buf);; mret (Ok Queued)
      else mret (Err (buf, e))
  end.

Definition async_invalidate_key (hash : Z) : AM C (result SuccessCode ErrorCode) :=
  r ← call (invalidate_key Sz fuel hash);
  match r with
  | Ok _ => mret (Err WriteFail)
  | Err _ => set_key hash;; mret (Ok Queued)
  end.

Definition async_garbage_collect : AM C (result SuccessCode ErrorCode) :=
  r ← call (garbage_collect Sz fuel);
  match r with Ok _ => mret (Err EraseFail) | Err _ => mret (Ok Queued) end.

(** [set_read_buffer]: [copy_from_slice] panics on slices of different lengths. *)
Definition set_read_buffer (read_buffer : list Z) : AM C unit :=
  buf ← call take_buffer;
  if zlen buf =? zlen read_buffer then call (put_buffer read_buffer) else acrash.

(** The operation [continue_operation] resumes, by the state. *)
Definition resume : AM C (result SuccessCode ErrorCode * Z) :=
  s ← call get_state;
  match s with
  | StateInit _ =>
      k ← get_key_cell; k ← unwrap k;
      r ← call (initialise Sz fuel k); mret (r, 0)
  | StateAppendKey _ =>
      v ← take_value; v ← unwrap v;
      n ← get_value_length;
      k ← get_key_cell; k ← unwrap k;
      p ← prefix v n;
      r ← call (append_key Sz fuel k p);
      set_value (Some v);; mret (r, n)
  | StateGetKey _ =>
      buf ← take_value; buf ← unwrap buf;
      k ← get_key_cell; k ← unwrap k;
      '(r, buf) ← call (get_key Sz fuel k buf);
      set_value (Some buf);;
      mret match r with Ok (s, len) => (Ok s, len) | Err e => (Err e, 0) end
  | StateInvalidateKey _ =>
      k ← get_key_cell; k ← unwrap k;
      r ← call (invalidate_key Sz fuel k); mret (r, 0)
  | StateGarbageCollect _ =>
      r ← call (garbage_collect Sz fuel);
      mret match r with Ok bytes_freed => (Ok Complete, bytes_freed) | Err e => (Err e, 0) end
  | StateNone => acrash
  end.

Definition continue_operation : AM C ContinueReturn :=
  '(ret, length) ← resume;
  match ret with
  | Ok _ => call (set_state StateNone);; v ← take_value; mret (ret, v, length)
  | Err (ReadNotReady _) | Err (EraseNotReady _) => mret (ret, None, 0)
  | Err (WriteNotReady _) => call (set_state StateNone);; mret (ret, None, 0)
  | Err _ => call (set_state StateNone);; v ← take_value; mret (ret, v, length)
  end.
End async.

(** ** The caller

    The callback of a read hands over the region that was asked for and
    continues, until the operation no longer waits for a read. *)

Definition pending_region (s : State) : Z :=
  match s with
  | StateInit (GetKeyReadRegion r) | StateInit (AppendKeyReadRegion r)
  | StateAppendKey (ReadRegion r) | StateGetKey (ReadRegion r) | StateInvalidateKey (ReadRegion r)
  | StateGarbageCollect (RubbishReadRegion r _) => r
  | _ => 0
  end.

Definition waits (r : ContinueReturn) : bool :=
  match r with (Err (ReadNotReady _), _, _) => true | _ => false end.

(** Run the operations of the asynchronous monad. *)
Ltac run_async :=
  repeat progress (unfold mbind, AM_bind, mret, AM_ret, call, get_state, set_state;
    cbn [take_value set_value set_key set_value_length get_key_cell get_value_length unwrap
         tickv key value value_length state controller flash_size read_buffer]).

Section caller.
Context {C : Type} `{!FlashController C} (Sz N : Z) `{!FlashLaws true C Sz N} (fuel : nat).

Definition read_done : AM C ContinueReturn := fun s =>
  (set_read_buffer (contents (controller (tickv s)) (pending_region (state (tickv s))));;
   continue_operation Sz fuel) s.

Fixpoint complete (k : nat) : AM C ContinueReturn :=
  match k with
  | O => fun _ => NoFuel
  | S k => r ← read_done; if waits r then complete k else mret r
  end.

Context (HSz : 15 ≤ Sz) (HN : 1 ≤ N) (Hfuel : Sz < Z.of_nat fuel ∧ N < Z.of_nat fuel).

Local Abbreviation rep := (rep Sz N).

(** Waiting for the read of the region at offset [o], in the state [mk]. *)
Definition waiting (mk : Z → State) (h o : Z) (s : AsyncTicKV C) (a : store) : Prop :=
  rep (λ st, st = mk (home_of N h + o)) (tickv s) a.

(** The same, with the region in the buffer. *)
Definition loaded (mk : Z → State) (h o : Z) (s : AsyncTicKV C) (a : store) : Prop :=
  waiting mk h o s a ∧ read_buffer (tickv s) = Some (region_of Sz (log a (home_of N h + o))).

(** The callback puts the region into the buffer. *)
Lemma set_read_buffer_loads mk h o s a :
  (∀ r, pending_region (mk r) = r) → usable a = true → valid_offset N (home_of N h) o →
  waiting mk h o s a →
  ∃ t, set_read_buffer (contents (controller (tickv s)) (pending_region (state (tickv s)))) s =
         Done () (mkAsync t (key s) (value s) (value_length s)) ∧
       loaded mk h o (mkAsync t (key s) (value s) (value_length s)) a.
Proof.
  intros Hmk Hu Ho Hw. pose proof Hw as [Hr Hl Hc Hwf Hb Hst]. rewrite Hu in Hb.
  destruct Hb as (b & Hb & Hzb). rewrite Hst, Hmk, Hc by done.
  pose proof (zlen_region_of Sz (log a (home_of N h + o)) (proj2 (Hwf _ Ho))) as Hz.
  eexists. unfold set_read_buffer, mbind, AM_bind, call, take_buffer, put_buffer. rewrite Hb.
  cbn [tickv key value value_length]. rewrite Hzb, Hz, Z.eqb_refl. split; [done|].
  split; [|done]. unfold waiting. cbn [tickv controller flash_size state].
  by apply (rep_loaded_with Sz N (λ st, st = mk (home_of N h + o)) _ (tickv s)).
Qed.

(** The rounds of an operation, from what one of them does: [visit] at the
    region that was read, then the wait for the next one. *)
Lemma complete_walk {X} (mk : Z → State) h a (Q : AsyncTicKV C → Prop)
    (visit : Z → option (X * store)) (fail : X) (reply : X → ContinueReturn) :
  (∀ r, pending_region (mk r) = r) → usable a = true →
  (∀ r x a', visit r = Some (x, a') → waits (reply x) = false) → waits (reply fail) = false →
  (∀ s t, Q s → Q (mkAsync t (key s) (value s) (value_length s))) →
  (∀ o s, valid_offset N (home_of N h) o → Q s → loaded mk h o s a →
     match visit (home_of N h + o) with
     | Some (x, a') => ∃ s', continue_operation Sz fuel s = Done (reply x) s' ∧ rep idle (tickv s') a'
     | None =>
         match next_region N (home_of N h) o with
         | Some p => ∃ r s', continue_operation Sz fuel s = Done r s' ∧ waits r = true ∧
                       waiting mk h p s' a ∧ Q s'
         | None => ∃ s', continue_operation Sz fuel s = Done (reply fail) s' ∧ rep idle (tickv s') a
         end
     end) →
  ∀ k o s, valid_offset N (home_of N h) o → Q s → waiting mk h o s a →
  (length (rest N (home_of N h) o) < k)%nat →
  let w := walk visit (fail, a)
             (home_of N h + o :: ((λ o, home_of N h + o) <$> rest N (home_of N h) o)) in
  ∃ s', complete k s = Done (reply w.1) s' ∧ rep idle (tickv s') w.2.
Proof.
  intros Hmk Hu Hreply Hfail HQ Hcont k. pose proof (home_of_range N HN h) as Hh.
  induction k as [|k IH]; intros o s Ho Hq Hw Hk w; [lia|]. subst w. cbn [complete walk].
  destruct (set_read_buffer_loads mk h o s a Hmk Hu Ho Hw) as (t & E & Hl).
  specialize (Hcont o _ Ho (HQ s t Hq) Hl). unfold mbind at 1, AM_bind at 1, read_done.
  unfold mbind at 1, AM_bind at 1. rewrite E.
  destruct (visit (home_of N h + o)) as [[x a']|] eqn:Ev.
  { destruct Hcont as (s' & -> & Hr). rewrite (Hreply _ _ _ Ev). by exists s'. }
  rewrite rest_unfold in Hk by done. rewrite rest_unfold by done.
  pose proof (next_region_spec _ _ o Hh Ho) as Hn. destruct (next_region N (home_of N h) o) as [p|].
  - destruct Hcont as (r & s' & -> & -> & Hw' & Hq'). destruct Hn as (Hp & _).
    destruct (IH p s' Hp Hq' Hw') as (s'' & E' & Hr); [cbn [length] in Hk; lia|]. by exists s''.
  - destruct Hcont as (s' & -> & Hr). rewrite Hfail. by exists s'.
Qed.

(** An operation that queues the read of its first region and then completes. *)
Lemma complete_order {X} mk h a Q (visit : Z → option (X * store)) fail (reply : X → ContinueReturn) s :
  (∀ r, pending_region (mk r) = r) → usable a = true →
  (∀ r x a', visit r = Some (x, a') → waits (reply x) = false) → waits (reply fail) = false →
  (∀ s t, Q s → Q (mkAsync t (key s) (value s) (value_length s))) →
  (∀ o s, valid_offset N (home_of N h) o → Q s → loaded mk h o s a →
     match visit (home_of N h + o) with
     | Some (x, a') => ∃ s', continue_operation Sz fuel s = Done (reply x) s' ∧ rep idle (tickv s') a'
     | None =>
         match next_region N (home_of N h) o with
         | Some p => ∃ r s', continue_operation Sz fuel s = Done r s' ∧ waits r = true ∧
                       waiting mk h p s' a ∧ Q s'
         | None => ∃ s', continue_operation Sz fuel s = Done (reply fail) s' ∧ rep idle (tickv s') a
         end
     end) →
  Q s → waiting mk h 0 s a →
  let w := walk visit (fail, a) (region_order N (home_of N h)) in
  ∃ s', complete (Z.to_nat N) s = Done (reply w.1) s' ∧ rep idle (tickv s') w.2.
Proof.
  intros Hmk Hu Hreply Hfail HQ Hcont Hq Hw w. pose proof (home_of_range N HN h) as Hh.
  pose proof (length_rest _ _ Hh).
  destruct (complete_walk mk h a Q visit fail reply Hmk Hu Hreply Hfail HQ Hcont (Z.to_nat N) 0 s)
    as (s' & E & Hr); [by apply valid_offset_0|done..|lia|].
  rewrite Z.add_0_r in E, Hr. by exists s'.
Qed.

(** A read that has to be waited for. *)
Lemma rep_wait P t a r :
  rep P t a → usable a = true → 0 ≤ r < N →
  ∃ b b' c, read_buffer t = Some b ∧
    read_region r 0 b (controller t) = (Err (ReadNotReady r), b', c) ∧
    ∀ st, rep (λ s, s = st) (mkTicKV c (flash_size t) (Some b') st) a.
Proof.
  intros [Hr Hl Hc Hw Hb Hs] Hu Hreg. rewrite Hu in Hb. destruct Hb as (b & Hb & Hzb).
  destruct (read_region_ok (controller t) r b Hreg Hzb) as (x & b' & c & E & Hc' & -> & Hb').
  exists b, b', c. split_and!; [done..|]. intros st. constructor; cbn; try done.
  - intros r' Hr'. rewrite Hc'. auto.
  - rewrite Hu. by exists b'.
Qed.

(** The loop over regions of an operation that is resumed with its region in the
    buffer: it ends there, or waits for the next region. *)
Lemma loaded_loop {X} (step : Z → M C (Z * option X)) (mk : Z → State) h o t a
    (visit : option (X * store)) (fail : X) (wait : Z → X) :
  valid_offset N (home_of N h) o →
  match visit with
  | Some (x, a') => ∃ o' t', step 0 t = Done (o', Some x) t' ∧ rep (λ _, True) t' a'
  | None =>
      match next_region N (home_of N h) o with
      | Some p => ∃ t', step 0 t = Done (p, None) t' ∧ rep idle t' a
      | None => ∃ o' t', step 0 t = Done (o', Some fail) t' ∧ rep (λ _, True) t' a
      end
  end →
  (∀ p t, valid_offset N (home_of N h) p → rep idle t a →
     ∃ t', step p t = Done (p, Some (wait (home_of N h + p))) t' ∧
           rep (λ st, st = mk (home_of N h + p)) t' a) →
  match visit with
  | Some (x, a') => ∃ t', region_loop step fuel 0 t = Done x t' ∧ rep (λ _, True) t' a'
  | None =>
      match next_region N (home_of N h) o with
      | Some p => ∃ t', region_loop step fuel 0 t = Done (wait (home_of N h + p)) t' ∧
                    rep (λ st, st = mk (home_of N h + p)) t' a
      | None => ∃ t', region_loop step fuel 0 t = Done fail t' ∧ rep (λ _, True) t' a
      end
  end.
Proof.
  intros Ho Hfirst Hwait. pose proof (next_region_spec _ _ o (home_of_range N HN h) Ho) as Hn.
  destruct Hfuel as [Hf1 Hf2].
  destruct visit as [[x a']|]; [|destruct (next_region N (home_of N h) o) as [p|]].
  - destruct Hfirst as (o' & t' & E & Hr). exists t'. split; [|done]. by apply (region_loop_once _ _ _ _ o'); [lia|].
  - destruct Hfirst as (t1 & E & Hr). destruct (Hwait p t1 (proj1 Hn) Hr) as (t2 & E2 & Hr2).
    exists t2. split; [|done]. by eapply region_loop_twice; [lia|..].
  - destruct Hfirst as (o' & t' & E & Hr). exists t'. split; [|done]. by apply (region_loop_once _ _ _ _ o'); [lia|].
Qed.

(** How [continue_operation] ends: a final reply resets the state. *)
Lemma rep_idle_again P t a :
  rep P t a → rep idle (mkTicKV (controller t) (flash_size t) (read_buffer t) StateNone) a.
Proof. intros H. by eapply rep_set_state. Qed.

(** *** [get_key] *)

Lemma get_step_waits h buf a o t :
  usable a = true → valid_offset N (home_of N h) o → rep idle t a →
  ∃ t', get_step Sz fuel h buf (home_of N h) o t =
          Done (o, Some (Err (ReadNotReady (home_of N h + o)), buf)) t' ∧
        rep (λ st, st = StateGetKey (ReadRegion (home_of N h + o))) t' a.
Proof.
  intros Hu Ho Hrep. destruct (rep_wait _ _ _ _ Hrep Hu Ho) as (b & b' & c & Hb & Hread & Hrep').
  destruct t as [c0 fs rb st]. pose proof (rep_state _ _ _ _ _ Hrep) as Hst. unfold idle in Hst.
  cbn in Hst, Hb, Hread. subst st rb. unfold get_step. run_step. rewrite !bool_decide_false by done.
  run_step. rewrite Hread. run_step. eexists. split; [done|]. apply Hrep'.
Qed.

Lemma get_key_loaded h buf a o s :
  u64 h → bad_hash h = false → usable a = true → valid_offset N (home_of N h) o →
  loaded (λ r, StateGetKey (ReadRegion r)) h o s a →
  match get_visit Sz a h buf (home_of N h + o) with
  | Some (r, a') => ∃ t', get_key Sz fuel h buf (tickv s) = Done r t' ∧ rep (λ _, True) t' a'
  | None =>
      match next_region N (home_of N h) o with
      | Some p => ∃ t', get_key Sz fuel h buf (tickv s) = Done (Err (ReadNotReady (home_of N h + p)), buf) t' ∧
                    rep (λ st, st = StateGetKey (ReadRegion (home_of N h + p))) t' a
      | None => ∃ t', get_key Sz fuel h buf (tickv s) = Done (Err KeyNotFound, buf) t' ∧ rep (λ _, True) t' a
      end
  end.
Proof.
  intros Hh Hbad Hu Ho [Hw Hb]. unfold waiting in Hw. destruct s as [t k v n]. cbn [tickv] in *.
  unfold get_key. run_step. rewrite (get_region_home _ _ _ _ HN (rep_regions _ _ _ _ _ Hw)), Hbad. run_step.
  apply (loaded_loop _ (λ r, StateGetKey (ReadRegion r)) h o t a _ _
    (λ r, (Err (ReadNotReady r), buf))); [done| |by intros; apply get_step_waits].
  assert (Hfirst : get_step Sz fuel h buf (home_of N h) 0 t =
    get_body Sz fuel h buf (home_of N h) 0 (home_of N h + o) (region_of Sz (log a (home_of N h + o)))
      (mkTicKV (controller t) (flash_size t) None (state t))).
  { destruct t as [c0 fs rb st]. pose proof (rep_state _ _ _ _ _ Hw) as Hst. cbn in Hst, Hb. subst st rb.
    unfold get_step. run_step. rewrite bool_decide_true by done. by run_step. }
  rewrite (get_body_spec Sz N fuel HSz HN Hfuel _ h buf a o 0 t (controller t) (state t) Hh Hu Ho Hw) in Hfirst.
  rewrite Hfirst. clear Hfirst.
  assert (Hrep' : ∀ (P : State → Prop) st, P st → rep P (loaded_with Sz a t (controller t) (home_of N h + o) st) a).
  { intros P st HP. eapply (rep_loaded_with Sz N); eauto. }
  destruct (get_visit Sz a h buf (home_of N h + o)) as [[r a']|] eqn:Ev.
  { apply get_visit_store in Ev as ->. eexists _, _. split; [done|]. by apply Hrep'. }
  destruct (next_region N (home_of N h) o) as [p|]; eexists; [|eexists]; (split; [done|]); by apply Hrep'.
Qed.

(** The reply of a completed look-up. *)
Definition get_reply (x : result (SuccessCode * Z) ErrorCode * list Z) : ContinueReturn :=
  match x with
  | (Ok (s, len), buf) => (Ok s, Some buf, len)
  | (Err e, buf) => (Err e, Some buf, 0)
  end.

(** A look-up ends with the value, or for want of the key or of room. *)
Lemma get_visit_final a h buf r x buf' a' :
  get_visit Sz a h buf r = Some (x, buf', a') →
  match x with Err e => not_ready e = false | Ok _ => True end.
Proof.
  unfold get_visit, value_reply. intros E. destruct (find (live h) (log a r)) as [o|].
  - destruct (zlen buf <? zlen (ob_value o)); by simplify_eq.
  - destruct (stops Sz (log a r)); by simplify_eq.
Qed.

Lemma get_reply_final x buf :
  match x with Err e => not_ready e = false | Ok _ => True end → waits (get_reply (x, buf)) = false.
Proof. destruct x as [[s len]|e]; [done|]. by destruct e. Qed.

Lemma continue_get h buf a o s :
  u64 h → bad_hash h = false → usable a = true → valid_offset N (home_of N h) o →
  key s = Some h ∧ value s = Some buf → loaded (λ r, StateGetKey (ReadRegion r)) h o s a →
  match get_visit Sz a h buf (home_of N h + o) with
  | Some (x, a') => ∃ s', continue_operation Sz fuel s = Done (get_reply x) s' ∧ rep idle (tickv s') a'
  | None =>
      match next_region N (home_of N h) o with
      | Some p => ∃ r s', continue_operation Sz fuel s = Done r s' ∧ waits r = true ∧
                    waiting (λ r, StateGetKey (ReadRegion r)) h p s' a ∧
                    (key s' = Some h ∧ value s' = Some buf)
      | None => ∃ s', continue_operation Sz fuel s = Done (get_reply (Err KeyNotFound, buf)) s' ∧
                  rep idle (tickv s') a
      end
  end.
Proof.
  intros Hh Hbad Hu Ho [Hk Hv] Hl. pose proof (get_key_loaded h buf a o s Hh Hbad Hu Ho Hl) as Hget.
  destruct Hl as [Hw _]. pose proof (rep_state _ _ _ _ _ Hw) as Hst.
  destruct s as [t k v n]. cbn in Hk, Hv, Hst, Hget. subst k v.
  unfold continue_operation, resume. run_async. rewrite Hst. run_async.
  destruct (get_visit Sz a h buf (home_of N h + o)) as [[[x buf'] a']|] eqn:Ev.
  - destruct Hget as (t' & -> & Hr). run_async.
    assert (Hno : match x with Err e => not_ready e = false | Ok _ => True end).
    { by eapply get_visit_final. }
    apply rep_idle_again in Hr. destruct x as [[c len]|e]; run_async; [by eexists|].
    destruct e; try discriminate Hno; by eexists.
  - destruct (next_region N (home_of N h) o) as [p|]; destruct Hget as (t' & -> & Hr); run_async.
    + by eexists _, _.
    + apply rep_idle_again in Hr. by eexists.
Qed.

(** *** [append_key] *)

Lemma append_step_waits header h v a o t :
  usable a = true → valid_offset N (home_of N h) o → rep idle t a →
  ∃ t', append_step Sz fuel header h v (home_of N h) o t =
          Done (o, Some (Err (ReadNotReady (home_of N h + o)))) t' ∧
        rep (λ st, st = StateAppendKey (ReadRegion (home_of N h + o))) t' a.
Proof.
  intros Hu Ho Hrep. destruct (rep_wait _ _ _ _ Hrep Hu Ho) as (b & b' & c & Hb & Hread & Hrep').
  destruct t as [c0 fs rb st]. pose proof (rep_state _ _ _ _ _ Hrep) as Hst. unfold idle in Hst.
  cbn in Hst, Hb, Hread. subst st rb. unfold append_step. run_step. rewrite !bool_decide_false by done.
  run_step. rewrite Hread. run_step. eexists. split; [done|]. apply Hrep'.
Qed.

(** The checks at the start of [append_key]. *)
Lemma append_key_start h v t P a :
  rep P t a → object_wf (mkObject true h v) →
  append_key Sz fuel h v t =
  region_loop (append_step Sz fuel (ob_header true (mkObject true h v)) h v (home_of N h)) fuel 0 t.
Proof.
  intros Hrep (Hh & Hl & _). cbn [ob_hash] in Hh. unfold append_key. run_step.
  rewrite (get_region_home _ _ _ _ HN (rep_regions _ _ _ _ _ Hrep)).
  assert (bad_hash h = false) as ->. { unfold bad_hash. apply orb_false_iff. rewrite !Z.eqb_neq. lia. }
  run_step. change (HEADER_LENGTH + zlen v + CHECK_SUM_LEN) with (ob_len (mkObject true h v)).
  rewrite (proj2 (Z.ltb_ge _ _)) by lia. unfold ObjectHeader_new.
  by rewrite (proj2 (Z.ltb_lt _ _)) by lia.
Qed.

Lemma append_key_loaded h v a o s :
  object_wf (mkObject true h v) → usable a = true → valid_offset N (home_of N h) o →
  loaded (λ r, StateAppendKey (ReadRegion r)) h o s a →
  match append_visit Sz Queued a h v (home_of N h + o) with
  | Some (r, a') => ∃ t', append_key Sz fuel h v (tickv s) = Done r t' ∧ rep (λ _, True) t' a'
  | None =>
      match next_region N (home_of N h) o with
      | Some p => ∃ t', append_key Sz fuel h v (tickv s) = Done (Err (ReadNotReady (home_of N h + p))) t' ∧
                    rep (λ st, st = StateAppendKey (ReadRegion (home_of N h + p))) t' a
      | None => ∃ t', append_key Sz fuel h v (tickv s) = Done (Err FlashFull) t' ∧ rep (λ _, True) t' a
      end
  end.
Proof.
  intros Hob Hu Ho [Hw Hb]. unfold waiting in Hw. destruct s as [t k v' n]. cbn [tickv] in *.
  rewrite (append_key_start _ _ _ _ _ Hw Hob).
  apply (loaded_loop _ (λ r, StateAppendKey (ReadRegion r)) h o t a _ _ (λ r, Err (ReadNotReady r)));
    [done| |by intros; apply append_step_waits].
  set (header := ob_header true (mkObject true h v)).
  assert (Hfirst : append_step Sz fuel header h v (home_of N h) 0 t =
    append_body Sz fuel header h v (home_of N h) 0 (home_of N h + o) (region_of Sz (log a (home_of N h + o)))
      (mkTicKV (controller t) (flash_size t) None (state t))).
  { destruct t as [c0 fs rb st]. pose proof (rep_state _ _ _ _ _ Hw) as Hst. cbn in Hst, Hb. subst st rb.
    unfold append_step. run_step. rewrite bool_decide_true by done. by run_step. }
  pose proof (append_body_spec Sz N fuel HSz HN Hfuel _ h v a o 0 t (controller t) (state t)
    Hob Hu Ho Hw (λ _, eq_refl)) as Hbody. cbv zeta in Hbody. fold header in Hbody. cbn [write_code] in Hbody.
  rewrite <- Hfirst in Hbody.
  assert (Hrep' : ∀ (P : State → Prop) st, P st → rep P (loaded_with Sz a t (controller t) (home_of N h + o) st) a).
  { intros P st HP. eapply (rep_loaded_with Sz N); eauto. }
  destruct (append_visit Sz Queued a h v (home_of N h + o)) as [[r a']|].
  { destruct Hbody as (t' & E & Hr). exists 0, t'. split; [done|]. by eapply rep_weaken. }
  destruct (next_region N (home_of N h) o) as [p|]; eexists; [|eexists]; (split; [exact Hbody|]); by apply Hrep'.
Qed.

(** The reply of a completed append. *)
Definition append_reply (v : list Z) (n : Z) (x : result SuccessCode ErrorCode) : ContinueReturn :=
  (x, Some v, n).

Lemma append_visit_final code a h v r x a' :
  append_visit Sz code a h v r = Some (x, a') →
  match x with Err e => not_ready e = false | Ok _ => True end.
Proof. unfold append_visit. intros E. repeat case_match; by simplify_eq. Qed.

Lemma continue_append h v n p a o s :
  object_wf (mkObject true h p) → get_range v 0 n = Some p → usable a = true →
  valid_offset N (home_of N h) o →
  key s = Some h ∧ value s = Some v ∧ value_length s = n →
  loaded (λ r, StateAppendKey (ReadRegion r)) h o s a →
  match append_visit Sz Queued a h p (home_of N h + o) with
  | Some (x, a') => ∃ s', continue_operation Sz fuel s = Done (append_reply v n x) s' ∧ rep idle (tickv s') a'
  | None =>
      match next_region N (home_of N h) o with
      | Some q => ∃ r s', continue_operation Sz fuel s = Done r s' ∧ waits r = true ∧
                    waiting (λ r, StateAppendKey (ReadRegion r)) h q s' a ∧
                    (key s' = Some h ∧ value s' = Some v ∧ value_length s' = n)
      | None => ∃ s', continue_operation Sz fuel s = Done (append_reply v n (Err FlashFull)) s' ∧
                  rep idle (tickv s') a
      end
  end.
Proof.
  intros Hob Hp Hu Ho (Hk & Hv & Hn) Hl. pose proof (append_key_loaded h p a o s Hob Hu Ho Hl) as Happ.
  destruct Hl as [Hw _]. pose proof (rep_state _ _ _ _ _ Hw) as Hst.
  destruct s as [t k v' n']. cbn in Hk, Hv, Hn, Hst, Happ. subst k v' n'.
  unfold continue_operation, resume. run_async. rewrite Hst. run_async. unfold prefix. rewrite Hp. run_async.
  destruct (append_visit Sz Queued a h p (home_of N h + o)) as [[x a']|] eqn:Ev.
  - destruct Happ as (t' & -> & Hr). run_async. apply append_visit_final in Ev.
    apply rep_idle_again in Hr. destruct x as [c|e]; run_async; [by eexists|].
    destruct e; try discriminate Ev; by eexists.
  - destruct (next_region N (home_of N h) o) as [q|]; destruct Happ as (t' & -> & Hr); run_async.
    + by eexists _, _.
    + apply rep_idle_again in Hr. by eexists.
Qed.

(** *** [invalidate_key] *)

Lemma invalidate_step_waits h a o t :
  usable a = true → valid_offset N (home_of N h) o → rep idle t a →
  ∃ t', invalidate_step Sz fuel h (home_of N h) o t =
          Done (o, Some (Err (ReadNotReady (home_of N h + o)))) t' ∧
        rep (λ st, st = StateInvalidateKey (ReadRegion (home_of N h + o))) t' a.
Proof.
  intros Hu Ho Hrep. destruct (rep_wait _ _ _ _ Hrep Hu Ho) as (b & b' & c & Hb & Hread & Hrep').
  destruct t as [c0 fs rb st]. pose proof (rep_state _ _ _ _ _ Hrep) as Hst. unfold idle in Hst.
  cbn in Hst, Hb, Hread. subst st rb. unfold invalidate_step. run_step. rewrite !bool_decide_false by done.
  run_step. rewrite Hread. run_step. eexists. split; [done|]. apply Hrep'.
Qed.

Lemma invalidate_key_loaded h a o s :
  u64 h → bad_hash h = false → usable a = true → valid_offset N (home_of N h) o →
  loaded (λ r, StateInvalidateKey (ReadRegion r)) h o s a →
  match invalidate_visit Sz Queued a h (home_of N h + o) with
  | Some (r, a') => ∃ t', invalidate_key Sz fuel h (tickv s) = Done r t' ∧ rep (λ _, True) t' a'
  | None =>
      match next_region N (home_of N h) o with
      | Some p => ∃ t', invalidate_key Sz fuel h (tickv s) = Done (Err (ReadNotReady (home_of N h + p))) t' ∧
                    rep (λ st, st = StateInvalidateKey (ReadRegion (home_of N h + p))) t' a
      | None => ∃ t', invalidate_key Sz fuel h (tickv s) = Done (Err KeyNotFound) t' ∧ rep (λ _, True) t' a
      end
  end.
Proof.
  intros Hh Hbad Hu Ho [Hw Hb]. unfold waiting in Hw. destruct s as [t k v n]. cbn [tickv] in *.
  unfold invalidate_key. run_step. rewrite (get_region_home _ _ _ _ HN (rep_regions _ _ _ _ _ Hw)), Hbad.
  run_step.
  apply (loaded_loop _ (λ r, StateInvalidateKey (ReadRegion r)) h o t a _ _ (λ r, Err (ReadNotReady r)));
    [done| |by intros; apply invalidate_step_waits].
  assert (Hfirst : invalidate_step Sz fuel h (home_of N h) 0 t =
    invalidate_body Sz fuel h (home_of N h) 0 (home_of N h + o) (region_of Sz (log a (home_of N h + o)))
      (mkTicKV (controller t) (flash_size t) None (state t))).
  { destruct t as [c0 fs rb st]. pose proof (rep_state _ _ _ _ _ Hw) as Hst. cbn in Hst, Hb. subst st rb.
    unfold invalidate_step. run_step. rewrite bool_decide_true by done. by run_step. }
  pose proof (invalidate_body_spec Sz N fuel HSz HN Hfuel _ h a o 0 t (controller t) (state t)
    Hh Hu Ho Hw (λ _, eq_refl)) as Hbody. cbv zeta in Hbody. cbn [write_code] in Hbody.
  rewrite <- Hfirst in Hbody.
  assert (Hrep' : ∀ (P : State → Prop) st, P st → rep P (loaded_with Sz a t (controller t) (home_of N h + o) st) a).
  { intros P st HP. eapply (rep_loaded_with Sz N); eauto. }
  destruct (invalidate_visit Sz Queued a h (home_of N h + o)) as [[r a']|].
  { destruct Hbody as (t' & E & Hr). exists 0, t'. split; [done|]. by eapply rep_weaken. }
  destruct (next_region N (home_of N h) o) as [p|]; eexists; [|eexists]; (split; [exact Hbody|]); by apply Hrep'.
Qed.

Lemma invalidate_visit_final code a h r x a' :
  invalidate_visit Sz code a h r = Some (x, a') →
  match x with Err e => not_ready e = false | Ok _ => True end.
Proof. unfold invalidate_visit. intros E. repeat case_match; by simplify_eq. Qed.

Lemma continue_invalidate h v a o s :
  u64 h → bad_hash h = false → usable a = true → valid_offset N (home_of N h) o →
  key s = Some h ∧ value s = v →
  loaded (λ r, StateInvalidateKey (ReadRegion r)) h o s a →
  match invalidate_visit Sz Queued a h (home_of N h + o) with
  | Some (x, a') => ∃ s', continue_operation Sz fuel s = Done (x, v, 0) s' ∧ rep idle (tickv s') a'
  | None =>
      match next_region N (home_of N h) o with
      | Some q => ∃ r s', continue_operation Sz fuel s = Done r s' ∧ waits r = true ∧
                    waiting (λ r, StateInvalidateKey (ReadRegion r)) h q s' a ∧
                    (key s' = Some h ∧ value s' = v)
      | None => ∃ s', continue_operation Sz fuel s = Done (Err KeyNotFound, v, 0) s' ∧ rep idle (tickv s') a
      end
  end.
Proof.
  intros Hh Hbad Hu Ho (Hk & Hv) Hl. pose proof (invalidate_key_loaded h a o s Hh Hbad Hu Ho Hl) as Hinv.
  destruct Hl as [Hw _]. pose proof (rep_state _ _ _ _ _ Hw) as Hst.
  destruct s as [t k v' n']. cbn in Hk, Hv, Hst, Hinv. subst k v'.
  unfold continue_operation, resume. run_async. rewrite Hst. run_async.
  destruct (invalidate_visit Sz Queued a h (home_of N h + o)) as [[x a']|] eqn:Ev.
  - destruct Hinv as (t' & -> & Hr). run_async. apply invalidate_visit_final in Ev.
    apply rep_idle_again in Hr. destruct x as [c|e]; run_async; [by eexists|].
    destruct e; try discriminate Ev; by eexists.
  - destruct (next_region N (home_of N h) o) as [q|]; destruct Hinv as (t' & -> & Hr); run_async.
    + by eexists _, _.
    + apply rep_idle_again in Hr. by eexists.
Qed.

(** ** The theorem *)

(** A write that is queued instead of done. *)
Definition queued (r : result SuccessCode ErrorCode) : result SuccessCode ErrorCode :=
  match r with Ok Written => Ok Queued | _ => r end.

Lemma walk_append_queued a h v l :
  let w := walk (append_visit Sz Written a h v) (Err FlashFull, a) l in
  walk (append_visit Sz Queued a h v) (Err FlashFull, a) l = (queued w.1, w.2).
Proof.
  induction l as [|r l IH]; [done|]. cbn [walk]. unfold append_visit at 1 3 5.
  destruct (find (live h) (log a r)); [done|]. destruct (Sz <=? _); [done|]. by destruct (_ <=? Sz).
Qed.

Lemma walk_invalidate_queued a h l :
  let w := walk (invalidate_visit Sz Written a h) (Err KeyNotFound, a) l in
  walk (invalidate_visit Sz Queued a h) (Err KeyNotFound, a) l = (queued w.1, w.2).
Proof.
  induction l as [|r l IH]; [done|]. cbn [walk]. unfold invalidate_visit at 1 3 5.
  destruct (find (live h) (log a r)); [done|]. by destruct (stops Sz (log a r)).
Qed.

Lemma async_get_completes s a h buf :
  rep idle (tickv s) a → usable a = true → 0 < h < 0xFFFFFFFFFFFFFFFF → bad_hash h = false →
  ∃ s1 s2 w, spec_get Sz N h buf a = Ret w ∧
    async_get_key Sz fuel h buf s = Done (Ok Queued) s1 ∧
    complete (Z.to_nat N) s1 = Done (get_reply w.1) s2 ∧ rep idle (tickv s2) w.2.
Proof.
  intros Hrep Hu Hh Hbad. assert (u64 h) by (unfold u64; lia).
  destruct (get_step_waits h buf a 0 (tickv s) Hu (valid_offset_0 _ _ (home_of_range N HN h)) Hrep)
    as (t1 & E1 & Hr1). rewrite Z.add_0_r in E1.
  set (s1 := mkAsync t1 (Some h) (Some buf) (value_length s)).
  destruct (complete_order (λ r, StateGetKey (ReadRegion r)) h a
    (λ s, key s = Some h ∧ value s = Some buf) (get_visit Sz a h buf) (Err KeyNotFound, buf) get_reply s1)
    as (s2 & E2 & Hr2); [done|done| |done|done| |done|done|].
  - intros r [x buf'] a' Ev. by apply get_reply_final, (get_visit_final _ _ _ _ _ _ _ Ev).
  - intros o s' Ho Hq Hl. by apply continue_get.
  - exists s1, s2. eexists. split; [|split; [|split; [exact E2|exact Hr2]]].
    + unfold spec_get. by rewrite Hbad, Hu.
    + unfold async_get_key. run_async. unfold get_key. run_step.
      rewrite (get_region_home _ _ _ _ HN (rep_regions _ _ _ _ _ Hrep)), Hbad. run_step.
      destruct Hfuel. assert (1 ≤ fuel)%nat as Hf by lia.
      by rewrite (region_loop_once _ _ _ _ _ _ _ Hf E1).
Qed.

Lemma async_append_completes s a h v n p :
  rep idle (tickv s) a → usable a = true → object_wf (mkObject true h p) →
  get_range v 0 n = Some p → bad_hash h = false →
  ∃ s1 s2 w, spec_append Sz N h p a = Ret w ∧
    async_append_key Sz fuel h v n s = Done (Ok Queued) s1 ∧
    complete (Z.to_nat N) s1 = Done (append_reply v n (queued w.1)) s2 ∧ rep idle (tickv s2) w.2.
Proof.
  intros Hrep Hu Hob Hp Hbad.
  destruct (append_step_waits (ob_header true (mkObject true h p)) h p a 0 (tickv s) Hu
    (valid_offset_0 _ _ (home_of_range N HN h)) Hrep) as (t1 & E1 & Hr1). rewrite Z.add_0_r in E1.
  set (s1 := mkAsync t1 (Some h) (Some v) n).
  destruct (complete_order (λ r, StateAppendKey (ReadRegion r)) h a
    (λ s, key s = Some h ∧ value s = Some v ∧ value_length s = n) (append_visit Sz Queued a h p)
    (Err FlashFull) (append_reply v n) s1) as (s2 & E2 & Hr2); [done|done| |done|done| |done|done|].
  - intros r x a' Ev%append_visit_final. destruct x as [|e]; [done|]. by destruct e.
  - intros o s' Ho Hq Hl. by apply continue_append.
  - rewrite walk_append_queued in E2, Hr2. exists s1, s2. eexists.
    split; [|split; [|split; [exact E2|exact Hr2]]].
    + unfold spec_append. destruct Hob as (_ & Hl & _).
      rewrite Hbad, Hu, (proj2 (Z.ltb_ge _ _)), (proj2 (Z.leb_gt _ _)) by lia. done.
    + unfold async_append_key, prefix. rewrite Hp. run_async.
      rewrite (append_key_start _ _ _ _ _ Hrep Hob).
      destruct Hfuel. assert (1 ≤ fuel)%nat as Hf by lia.
      by rewrite (region_loop_once _ _ _ _ _ _ _ Hf E1).
Qed.

Lemma async_invalidate_completes s a h :
  rep idle (tickv s) a → usable a = true → 0 < h < 0xFFFFFFFFFFFFFFFF → bad_hash h = false →
  ∃ s1 s2 w, spec_invalidate Sz N h a = Ret w ∧
    async_invalidate_key Sz fuel h s = Done (Ok Queued) s1 ∧
    complete (Z.to_nat N) s1 = Done (queued w.1, value s, 0) s2 ∧ rep idle (tickv s2) w.2.
Proof.
  intros Hrep Hu Hh Hbad. assert (u64 h) by (unfold u64; lia).
  destruct (invalidate_step_waits h a 0 (tickv s) Hu (valid_offset_0 _ _ (home_of_range N HN h)) Hrep)
    as (t1 & E1 & Hr1). rewrite Z.add_0_r in E1.
  set (s1 := mkAsync t1 (Some h) (value s) (value_length s)).
  destruct (complete_order (λ r, StateInvalidateKey (ReadRegion r)) h a
    (λ s', key s' = Some h ∧ value s' = value s) (invalidate_visit Sz Queued a h)
    (Err KeyNotFound) (λ x, (x, value s, 0)) s1) as (s2 & E2 & Hr2); [done|done| |done|done| |done|done|].
  - intros r x a' Ev%invalidate_visit_final. destruct x as [|e]; [done|]. by destruct e.
  - intros o s' Ho Hq Hl. by apply (continue_invalidate h (value s)).
  - rewrite walk_invalidate_queued in E2, Hr2. exists s1, s2. eexists.
    split; [|split; [|split; [exact E2|exact Hr2]]].
    + unfold spec_invalidate. by rewrite Hbad, Hu.
    + unfold async_invalidate_key. run_async. unfold invalidate_key. run_step.
      rewrite (get_region_home _ _ _ _ HN (rep_regions _ _ _ _ _ Hrep)), Hbad. run_step.
      destruct Hfuel. assert (1 ≤ fuel)%nat as Hf by lia.
      by rewrite (region_loop_once _ _ _ _ _ _ _ Hf E1).
Qed.
End caller.

(** C11.  On a controller that only starts reads and writes and calls back,
    looking up, appending and invalidating a key first return [Queued] and
    complete after at most one callback per region, with the reply of the
    abstract store (a write reported as queued), the caller's buffer handed back,
    and flash holding the logs the synchronous operation leaves. *)
Theorem async_completes_like_sync {C} `{!FlashController C} (Sz N : Z) `{!FlashLaws true C Sz N}
    (fuel : nat) (s : AsyncTicKV C) (a : store) (h : Z) :
  15 ≤ Sz → 1 ≤ N → Sz < Z.of_nat fuel ∧ N < Z.of_nat fuel →
  rep Sz N idle (tickv s) a → usable a = true → 0 < h < 0xFFFFFFFFFFFFFFFF →
  (∀ buf, ∃ s1 s2 w, spec_get Sz N h buf a = Ret w ∧
    async_get_key Sz fuel h buf s = Done (Ok Queued) s1 ∧
    complete Sz N fuel (Z.to_nat N) s1 = Done (get_reply w.1) s2 ∧ rep Sz N idle (tickv s2) w.2) ∧
  (∀ v n p, get_range v 0 n = Some p → Forall byte p → n < 0xFFF - 15 →
    ∃ s1 s2 w, spec_append Sz N h p a = Ret w ∧
    async_append_key Sz fuel h v n s = Done (Ok Queued) s1 ∧
    complete Sz N fuel (Z.to_nat N) s1 = Done (append_reply v n (queued w.1)) s2 ∧
    rep Sz N idle (tickv s2) w.2) ∧
  (∃ s1 s2 w, spec_invalidate Sz N h a = Ret w ∧
    async_invalidate_key Sz fuel h s = Done (Ok Queued) s1 ∧
    complete Sz N fuel (Z.to_nat N) s1 = Done (queued w.1, value s, 0) s2 ∧ rep Sz N idle (tickv s2) w.2).
Proof.
  intros HSz HN Hfuel Hrep Hu Hh.
  assert (Hbad : bad_hash h = false). { unfold bad_hash. apply orb_false_iff. rewrite !Z.eqb_neq. lia. }
  split_and!.
  - intros buf. by apply async_get_completes.
  - intros v n p Hp Hb Hn. apply async_append_completes; try done.
    refine (conj Hh (conj _ Hb)). apply get_range_Some in Hp as (Hn1 & Hn2 & ->).
    unfold ob_len, HEADER_LENGTH, HASH_OFFSET, CHECK_SUM_LEN, zlen. cbn [ob_value].
    rewrite length_take. lia.
  - by apply async_invalidate_completes.
Qed.

(** ** A controller that calls back *)

Definition aram : Type := Z → list Z.

#[export] Instance aram_flash (Sz : Z) : FlashController aram := {
  read_region r offset buf c := (Err (ReadNotReady r), buf, c);
  flash_write address bytes c := (Err (WriteNotReady address), ram_program Sz address bytes c);
  erase_region r c := (Err (EraseNotReady r), ram_erase Sz r c)
}.

#[export] Instance aram_laws (Sz N : Z) : FlashLaws true aram (FlashController0 := aram_flash Sz) Sz N.
Proof.
  refine (Build_FlashLaws true _ _ Sz N (λ c r, c r) _ _ _).
  - intros c r buf _ Hb. by eexists _, _, c.
  - intros c r pre old post new _ Hp Hc Hn. eexists _, _. split; [done|]. split; [by eexists|].
    by apply (ram_program_spec Sz c r pre old).
  - intros c r _. by eexists _, _.
Defined.

Definition fresh_async (Sz N : Z) : AsyncTicKV aram :=
  AsyncTicKV_new (blank_ram Sz : aram) (replicate (Z.to_nat Sz) 0) (Sz * N).

Lemma async_completes_like_sync_witness :
  ∃ s1 s2, async_append_key (FlashController0 := aram_flash 64) 64 100 5 [1; 2; 3; 4] 3 (fresh_async 64 4) =
             Done (Ok Queued) s1 ∧
           complete (FlashLaws0 := aram_laws 64 4) 64 4 100 4 s1 = Done (Ok Queued, Some [1; 2; 3; 4], 3) s2.
Proof.
  assert (64 < Z.of_nat 100 ∧ 4 < Z.of_nat 100) as Hf by lia.
  assert (15 ≤ 64) as H64 by lia. assert (1 ≤ 4) as H4 by lia.
  assert (0 < 5 < 0xFFFFFFFFFFFFFFFF) as H5 by lia.
  destruct (async_completes_like_sync (FlashController0 := aram_flash 64) (FlashLaws0 := aram_laws 64 4)
    64 4 100 (fresh_async 64 4) (blank_store 4) 5 H64 H4 Hf
    (rep_fresh_ram (FlashLaws0 := aram_laws 64 4) 64 4 _ H64 H4 (λ _, eq_refl)) eq_refl H5) as (_ & Happ & _).
  assert (Forall byte [1; 2; 3]) as Hb by (repeat constructor; unfold byte; lia).
  destruct (Happ [1; 2; 3; 4] 3 [1; 2; 3] eq_refl Hb) as (s1 & s2 & w & Ew & E1 & E2 & _); [lia|].
  exists s1, s2. split; [exact E1|]. change (Z.to_nat 4) with 4%nat in E2. rewrite E2.
  assert (w.1 = Ok Written) as ->; [|done]. vm_compute in Ew. injection Ew as <-. reflexivity.
Defined.
