(* ===== verification/TickvCallbacks.v ===== *)
(** * TicKV, split-phase: garbage collection and initialisation

    The operations of libraries/tickv/src/async_ops.rs that also wait for
    erasures: every callback of the controller continues them, one region at a
    time, and they end with the answer and the flash of the synchronous
    operations. *)

From S2P Require Import Prelude Bytes Crc32 Tickv TickvLog TickvProbe TickvStore TickvTheorems TickvAsync.

(** ** The caller *)

(** The operation waits for an erasure. *)
Definition erasing (s : State) : bool :=
  match s with
  | StateGarbageCollect (RubbishEraseRegion _ _) | StateInit (InitEraseRegion _) => true
  | _ => false
  end.

Definition pending (r : ContinueReturn) : bool :=
  match r with (Err (ReadNotReady _), _, _) | (Err (EraseNotReady _), _, _) => true | _ => false end.

Section callbacks.
Context {C : Type} `{!FlashController C} (Sz N : Z) `{!FlashLaws true C Sz N} (fuel : nat).

(** The callback of an erasure continues; that of a read first hands over the
    region. *)
Definition callback : AM C ContinueReturn := fun s =>
  if erasing (state (tickv s)) then continue_operation Sz fuel s else read_done Sz N fuel s.

Fixpoint finish (k : nat) : AM C ContinueReturn :=
  match k with
  | O => fun _ => NoFuel
  | S k => r ← callback; if pending r then finish k else mret r
  end.

Context (HSz : 15 ≤ Sz) (HN : 1 ≤ N) (Hfuel : Sz < Z.of_nat fuel ∧ N < Z.of_nat fuel).

Local Abbreviation rep := (rep Sz N).

Lemma finish_step k s r s' :
  callback s = Done r s' → finish (S k) s = if pending r then finish k s' else Done r s'.
Proof. intros E. cbn [finish]. unfold mbind, AM_bind. rewrite E. by destruct (pending r). Qed.

(** A callback of a read puts the region into the buffer and continues. *)
Lemma callback_read mk r s a :
  (∀ r, pending_region (mk r) = r) → erasing (mk r) = false → usable a = true → 0 ≤ r < N →
  rep (λ st, st = mk r) (tickv s) a →
  ∃ t, callback s = continue_operation Sz fuel (mkAsync t (key s) (value s) (value_length s)) ∧
    rep (λ st, st = mk r) t a ∧ read_buffer t = Some (region_of Sz (log a r)).
Proof.
  intros Hmk He Hu Hr Hrep. set (h := 1). set (o := r - home_of N h).
  assert (Ho : home_of N h + o = r) by (unfold o; lia).
  destruct (set_read_buffer_loads Sz N mk h o s a Hmk Hu) as (t & E & Hl).
  { unfold valid_offset. by rewrite Ho. }
  { unfold waiting. by rewrite Ho. }
  exists t. unfold callback. rewrite (rep_state _ _ _ _ _ Hrep), He. unfold read_done, mbind, AM_bind.
  rewrite (rep_state _ _ _ _ _ Hrep) in E. unfold mbind, AM_bind in E. rewrite (rep_state _ _ _ _ _ Hrep), E.
  destruct Hl as [Hw Hb]. unfold waiting in Hw. rewrite Ho in Hw, Hb. done.
Qed.

(** ** Garbage collection *)

(** The store with the first [i] regions collected, and what that freed. *)
Definition collected (i : Z) (a : store) : store :=
  mkStore ((collect_log <$> take (Z.to_nat i) (logs a)) ++ drop (Z.to_nat i) (logs a)) (usable a).
Definition freed_before (i : Z) (a : store) : Z :=
  foldr Z.add 0 (freed Sz <$> take (Z.to_nat i) (logs a)).

Lemma lookup_log a r : 0 ≤ r < Z.of_nat (length (logs a)) → logs a !! Z.to_nat r = Some (log a r).
Proof.
  intros Hr. destruct (lookup_lt_is_Some_2 (logs a) (Z.to_nat r)) as [l Hl]; [lia|].
  unfold log. by rewrite (list_lookup_total_correct _ _ _ Hl).
Qed.

Lemma log_collected i a :
  0 ≤ i < Z.of_nat (length (logs a)) → log (collected i a) i = log a i.
Proof.
  intros Hi. unfold log at 1. apply list_lookup_total_correct. cbn [collected logs].
  rewrite lookup_app_r by (rewrite length_fmap, length_take; lia).
  rewrite length_fmap, length_take, Nat.min_l, Nat.sub_diag, lookup_drop, Nat.add_0_r by lia.
  by apply lookup_log.
Qed.

Lemma collected_S i a :
  0 ≤ i < Z.of_nat (length (logs a)) →
  set_log (collected i a) i (collect_log (log a i)) = collected (i + 1) a.
Proof.
  intros Hi. unfold set_log, collected. cbn [logs usable]. f_equal.
  replace (Z.to_nat (i + 1)) with (S (Z.to_nat i)) by lia. pose proof (lookup_log a i Hi) as Hl.
  rewrite (take_S_r _ _ _ Hl), fmap_app, <- app_assoc, (drop_S _ _ _ Hl).
  rewrite insert_app_r_alt by (rewrite length_fmap, length_take; lia).
  by rewrite length_fmap, length_take, Nat.min_l, Nat.sub_diag by lia.
Qed.

Lemma foldr_add_app l k : foldr Z.add 0 (l ++ k) = foldr Z.add 0 l + foldr Z.add 0 k.
Proof. induction l as [|x l IH]; cbn; [done|]. rewrite IH. lia. Qed.

Lemma freed_before_S i a :
  0 ≤ i < Z.of_nat (length (logs a)) → freed_before (i + 1) a = freed_before i a + freed Sz (log a i).
Proof.
  intros Hi. unfold freed_before. replace (Z.to_nat (i + 1)) with (S (Z.to_nat i)) by lia.
  rewrite (take_S_r _ _ _ (lookup_log a i Hi)), fmap_app, foldr_add_app. cbn. lia.
Qed.

(** Going on at region [i]: the end, or the wait for its read. *)
Lemma collect_next i ff t a :
  0 ≤ i ≤ N → usable a = true →
  rep (λ st, st ≠ StateGarbageCollect (RubbishReadRegion i ff)) t a →
  if i =? N then garbage_collect_from Sz fuel (Z.to_nat (N - i)) i ff t = Done (Ok ff) t
  else ∃ t', garbage_collect_from Sz fuel (Z.to_nat (N - i)) i ff t = Done (Err (ReadNotReady i)) t' ∧
         rep (λ st, st = StateGarbageCollect (RubbishReadRegion i ff)) t' a.
Proof.
  intros Hi Hu Hrep. destruct (Z.eqb_spec i N) as [->|Hne].
  { by rewrite Z.sub_diag. }
  destruct (rep_wait Sz N _ _ _ i Hrep Hu) as (b & b' & c & Hb & Hread & Hrep'); [lia|].
  pose proof (rep_state _ _ _ _ _ Hrep) as Hst.
  destruct (Z.to_nat (N - i)) as [|n] eqn:En; [lia|]. cbn [garbage_collect_from].
  unfold garbage_collect_region. destruct t as [c0 fs rb st]. cbn in Hst, Hb, Hread. subst rb.
  run_step. rewrite bool_decide_false by done. run_step. rewrite Hread. run_step.
  eexists. split; [done|]. apply Hrep'.
Qed.

(** One region, with its data in the buffer: kept, or its erasure started. *)
Lemma collect_loaded i ff t a :
  0 ≤ i < N → usable a = true →
  rep (λ st, st = StateGarbageCollect (RubbishReadRegion i ff)) t a →
  read_buffer t = Some (region_of Sz (log a i)) →
  let a' := set_log a i (collect_log (log a i)) in
  if freed Sz (log a i) =? 0
  then ∃ t', garbage_collect_region Sz fuel i ff t = Done (Ok 0) t' ∧
         rep (λ st, st = StateGarbageCollect (RubbishReadRegion i ff)) t' a'
  else ∃ t', garbage_collect_region Sz fuel i ff t = Done (Err (EraseNotReady i)) t' ∧
         rep (λ st, st = StateGarbageCollect (RubbishEraseRegion i (ff + freed Sz (log a i)))) t' a'.
Proof.
  intros Hi Hu Hrep Hb a'. pose proof (rep_wf _ _ _ _ _ Hrep i Hi) as Hwf. pose proof (used_length (log a i)).
  destruct Hfuel as [Hf1 Hf2]. pose proof (rep_state _ _ _ _ _ Hrep) as Hst.
  assert (Hloop : rubbish_loop Sz fuel (region_of Sz (log a i)) 0 false =
    Some (if existsb ob_valid (log a i) then RubbishKeep
          else if bool_decide (log a i = []) then RubbishKeep else RubbishErase)).
  { apply (rubbish_loop_log Sz fuel [] (log a i) false); [done|lia| |done]. destruct Hwf as [_ ?]. lia. }
  assert (Hsame : collect_log (log a i) = log a i →
    rep (λ st, st = StateGarbageCollect (RubbishReadRegion i ff))
      (mkTicKV (controller t) (flash_size t) (Some (region_of Sz (log a i))) (state t)) a').
  { intros E. unfold a'. rewrite E. apply rep_set_log; [apply Hrep|apply Hrep|done|apply Hrep|done|done|done|].
    intros r' Hr'. rewrite (rep_contents _ _ _ _ _ Hrep) by done. by destruct (Z.eqb_spec r' i) as [->|]. }
  destruct t as [c0 fs rb st]. cbn in Hst, Hb, Hsame. subst st rb.
  unfold garbage_collect_region. run_step. rewrite bool_decide_true by done. run_step. rewrite Hloop. run_step.
  unfold freed. unfold a', collect_log in *.
  destruct (existsb ob_valid (log a i)) eqn:Hex; cbn [negb andb].
  { change (0 =? 0) with true. run_step. eauto. }
  destruct (bool_decide_reflect (log a i = [])) as [Hnil|Hnil].
  { rewrite bool_decide_false by auto. change (0 =? 0) with true. run_step. rewrite Hnil in *. eauto. }
  rewrite bool_decide_true by done. rewrite (proj2 (Z.eqb_neq Sz 0)) by lia. run_step.
  destruct (erase_region_ok c0 i Hi) as (x & c' & -> & -> & Hc'). run_step. eexists. split; [done|].
  apply rep_set_log_buffer; [|apply Hrep|apply Hrep|done|apply Hrep| |done|done|].
  - apply zlen_region_of, Hwf.
  - split; [constructor|rewrite used_nil; lia].
  - intros r' Hr'. rewrite Hc', (rep_contents _ _ _ _ _ Hrep) by done. destruct (r' =? i); [|done].
    unfold region_of. rewrite used_nil, Z.sub_0_r. done.
Qed.

(** The end of a continuation of the collector that stands before region [i]. *)
Definition collect_done (i : Z) (a : store) (v : option (list Z)) (s' : AsyncTicKV C)
    (x : run (AsyncTicKV C) ContinueReturn) : Prop :=
  if i =? N
  then x = Done (Ok Complete, v, freed_before N a) s' ∧ rep idle (tickv s') (collected N a)
  else ∃ r, x = Done r s' ∧ pending r = true ∧ value s' = v ∧
         rep (λ st, st = StateGarbageCollect (RubbishReadRegion i (freed_before i a))) (tickv s') (collected i a).

(** [continue_operation] of the collector, by what [garbage_collect] returns. *)
Lemma continue_collect t k v n x t' :
  (∃ g, state t = StateGarbageCollect g) → garbage_collect Sz fuel t = Done x t' →
  continue_operation Sz fuel (mkAsync t k v n) =
  match x with
  | Ok freed => Done (Ok Complete, v, freed)
      (mkAsync (mkTicKV (controller t') (flash_size t') (read_buffer t') StateNone) k None n)
  | Err e =>
      if not_ready e
      then match e with
           | WriteNotReady _ => Done (Err e, None, 0)
               (mkAsync (mkTicKV (controller t') (flash_size t') (read_buffer t') StateNone) k v n)
           | _ => Done (Err e, None, 0) (mkAsync t' k v n)
           end
      else Done (Err e, v, 0)
             (mkAsync (mkTicKV (controller t') (flash_size t') (read_buffer t') StateNone) k None n)
  end.
Proof.
  intros [g Hst] E. unfold continue_operation, resume. run_async. rewrite Hst. run_async. rewrite E. run_async.
  destruct x as [z|e]; [done|]. by destruct e.
Qed.

Lemma collect_ends i a t0 t k v n :
  0 ≤ i ≤ N → usable a = true → (∃ g, state t0 = StateGarbageCollect g) →
  garbage_collect Sz fuel t0 = garbage_collect_from Sz fuel (Z.to_nat (N - i)) i (freed_before i a) t →
  rep (λ st, st ≠ StateGarbageCollect (RubbishReadRegion i (freed_before i a))) t (collected i a) →
  ∃ s', collect_done i a v s' (continue_operation Sz fuel (mkAsync t0 k v n)).
Proof.
  intros Hi Hu Hg E Hrep. pose proof (collect_next i (freed_before i a) t (collected i a) Hi Hu Hrep) as Hn.
  unfold collect_done. destruct (Z.eqb_spec i N) as [->|Hne].
  - rewrite Hn in E. eexists. rewrite (continue_collect _ _ _ _ _ _ Hg E). split; [done|].
    by eapply rep_idle_again.
  - destruct Hn as (t' & Et & Hr). rewrite Et in E. eexists. eexists.
    rewrite (continue_collect _ _ _ _ _ _ Hg E). cbn [not_ready]. done.
Qed.

Lemma garbage_collect_resumes t g i ff :
  num_region Sz (flash_size t) = N → state t = StateGarbageCollect g →
  (i, ff) = match g with
            | RubbishReadRegion reg ff => (reg, ff) | RubbishEraseRegion reg ff => (reg + 1, ff) end →
  garbage_collect Sz fuel t = garbage_collect_from Sz fuel (Z.to_nat (N - i)) i ff t.
Proof.
  intros HNr Hst Hg. unfold garbage_collect. run_step. rewrite Hst, HNr.
  destruct g; injection Hg as -> ->; by run_step.
Qed.

(** The round of a region: one callback, or two when it is erased. *)
Lemma collect_round i a s :
  0 ≤ i < N → usable a = true → Z.of_nat (length (logs a)) = N →
  rep (λ st, st = StateGarbageCollect (RubbishReadRegion i (freed_before i a))) (tickv s) (collected i a) →
  (∃ s', collect_done (i + 1) a (value s) s' (callback s)) ∨
  (∃ r s1 s', callback s = Done r s1 ∧ pending r = true ∧ collect_done (i + 1) a (value s) s' (callback s1)).
Proof.
  intros Hi Hu Hlen Hrep. set (ff := freed_before i a) in *.
  destruct (callback_read (λ r, StateGarbageCollect (RubbishReadRegion r ff)) i s (collected i a))
    as (t & Ec & Hrt & Hb); [done|done|done|done|done|].
  pose proof (collect_loaded i ff t (collected i a) Hi Hu Hrt Hb) as Hl. cbv zeta in Hl.
  rewrite log_collected in Hl by lia. rewrite collected_S in Hl by lia.
  pose proof (freed_before_S i a ltac:(lia)) as HS. fold ff in HS.
  pose proof (rep_state _ _ _ _ _ Hrt) as Hst. cbn beta in Hst.
  assert (Hgc : garbage_collect Sz fuel t = garbage_collect_from Sz fuel (S (Z.to_nat (N - (i + 1)))) i ff t).
  { rewrite (garbage_collect_resumes t _ i ff (rep_regions _ _ _ _ _ Hrt) Hst eq_refl). do 2 f_equal. lia. }
  cbn [garbage_collect_from] in Hgc. unfold mbind, M_bind in Hgc.
  destruct (Z.eqb_spec (freed Sz (log a i)) 0) as [Hz|Hz]; destruct Hl as (t1 & E1 & Hr1); rewrite E1 in Hgc.
  - left. rewrite Ec. rewrite Hz, Z.add_0_r in HS. rewrite Z.add_0_r, <- HS in Hgc.
    apply (collect_ends (i + 1) a t t1); [lia|done|by eexists|done|].
    eapply rep_weaken; [|exact Hr1]. intros -> [=]. lia.
  - right. rewrite Ec, (continue_collect _ _ _ _ _ _ (ex_intro _ _ Hst) Hgc). cbn [not_ready].
    eexists _, _. pose proof (rep_state _ _ _ _ _ Hr1) as Hst1. cbn beta in Hst1.
    destruct (collect_ends (i + 1) a t1 t1 (key s) (value s) (value_length s)) as (s' & Hs').
    + lia.
    + done.
    + by eexists.
    + apply (garbage_collect_resumes t1 _ (i + 1) _ (rep_regions _ _ _ _ _ Hr1) Hst1). by rewrite HS.
    + eapply rep_weaken; [|exact Hr1]. by intros ->.
    + exists s'. split; [done|]. split; [done|]. unfold callback. cbn [tickv]. rewrite Hst1. exact Hs'.
Qed.

Lemma finish_collect n i a s :
  i + Z.of_nat n = N → 0 ≤ i < N → usable a = true → Z.of_nat (length (logs a)) = N →
  rep (λ st, st = StateGarbageCollect (RubbishReadRegion i (freed_before i a))) (tickv s) (collected i a) →
  ∀ k, (2 * n ≤ k)%nat →
  ∃ s', finish k s = Done (Ok Complete, value s, freed_before N a) s' ∧ rep idle (tickv s') (collected N a).
Proof.
  revert i s. induction n as [|n IH]; intros i s Hn Hi Hu Hlen Hrep k Hk; [lia|].
  assert (Hrest : ∀ k x s0 s', (2 * n ≤ k)%nat → callback s0 = x → collect_done (i + 1) a (value s) s' x →
    ∃ s'', finish (S k) s0 = Done (Ok Complete, value s, freed_before N a) s'' ∧ rep idle (tickv s'') (collected N a)).
  { intros k' x s0 s' Hk' E Hd. subst x. unfold collect_done in Hd. destruct (Z.eqb_spec (i + 1) N).
    - destruct Hd as [E Hr]. exists s'. by rewrite (finish_step _ _ _ _ E).
    - destruct Hd as (r & E & Hp & Hv & Hr). rewrite (finish_step _ _ _ _ E), Hp.
      destruct (IH (i + 1) s' ltac:(lia) ltac:(lia) Hu Hlen Hr k' Hk') as (s'' & E' & Hr'). exists s''. by rewrite <- Hv. }
  destruct (collect_round i a s Hi Hu Hlen Hrep) as [(s' & Hd)|(r & s1 & s' & E & Hp & Hd)].
  - destruct k as [|k]; [lia|]. by eapply Hrest; [lia|done|].
  - destruct k as [|[|k]]; [lia..|]. rewrite (finish_step _ _ _ _ E), Hp. by eapply Hrest; [lia|done|].
Qed.

(** The whole collection. *)
Lemma async_collect_completes s a :
  rep idle (tickv s) a → usable a = true →
  ∃ s1 s2 w, spec_collect Sz a = Ret (Ok w, collected N a) ∧
    async_garbage_collect Sz fuel s = Done (Ok Queued) s1 ∧
    finish (Z.to_nat (2 * N)) s1 = Done (Ok Complete, value s, w) s2 ∧ rep idle (tickv s2) (collected N a).
Proof.
  intros Hrep Hu. pose proof (rep_logs _ _ _ _ _ Hrep) as Hlen. pose proof (rep_state _ _ _ _ _ Hrep) as Hst.
  unfold idle in Hst.
  pose proof (collect_next 0 0 (tickv s) a ltac:(lia) Hu) as Hn. rewrite (proj2 (Z.eqb_neq 0 N)) in Hn by lia.
  destruct Hn as (t1 & E1 & Hr1). { eapply rep_weaken; [|exact Hrep]. by intros ->. }
  assert (Hc0 : collected 0 a = a) by (by destruct a).
  destruct (finish_collect (Z.to_nat N) 0 a (mkAsync t1 (key s) (value s) (value_length s)))
    with (k := Z.to_nat (2 * N)) as (s2 & E2 & Hr2); [lia|lia|done|done|by rewrite Hc0|lia|].
  exists (mkAsync t1 (key s) (value s) (value_length s)), s2, (freed_before N a). split_and!; [|..|exact E2|exact Hr2].
  - unfold spec_collect, collected, freed_before. rewrite Hu. cbn [negb].
    rewrite (firstn_all2 (logs a)), (drop_ge (logs a)), app_nil_r by lia. done.
  - unfold async_garbage_collect. run_async. unfold garbage_collect. run_step.
    rewrite Hst, (rep_regions _ _ _ _ _ Hrep). run_step. by rewrite E1.
Qed.

(** ** Initialisation *)

(** [continue_operation] of an initialisation, by what [initialise] returns. *)
Lemma continue_initialise t h v n x t' :
  (∃ i, state t = StateInit i) → initialise Sz fuel h t = Done x t' →
  match x with Ok _ | Err (ReadNotReady _) | Err (EraseNotReady _) => True | _ => False end →
  continue_operation Sz fuel (mkAsync t (Some h) v n) =
  match x with
  | Ok _ => Done (x, v, 0)
      (mkAsync (mkTicKV (controller t') (flash_size t') (read_buffer t') StateNone) (Some h) None n)
  | Err _ => Done (x, None, 0) (mkAsync t' (Some h) v n)
  end.
Proof.
  intros [i Hst] E Hx. unfold continue_operation, resume. run_async. rewrite Hst. run_async. rewrite E. run_async.
  destruct x as [z|e]; [done|]. by destruct e.
Qed.

(** The store with the first [i] regions erased. *)
Definition erased (i : Z) (a : store) : store :=
  mkStore (replicate (Z.to_nat i) [] ++ drop (Z.to_nat i) (logs a)) (usable a).

Lemma erased_S i a :
  0 ≤ i < Z.of_nat (length (logs a)) → set_log (erased i a) i [] = erased (i + 1) a.
Proof.
  intros Hi. unfold set_log, erased. cbn [logs usable]. f_equal.
  replace (Z.to_nat (i + 1)) with (S (Z.to_nat i)) by lia.
  rewrite (drop_S _ _ _ (lookup_log a i Hi)), replicate_S_end, <- app_assoc.
  rewrite insert_app_r_alt by (rewrite length_replicate; lia).
  by rewrite length_replicate, Nat.sub_diag.
Qed.

Lemma erased_all a : Z.of_nat (length (logs a)) = N → erased N a = blank a.
Proof.
  intros Hl. unfold erased, blank. rewrite drop_ge, app_nil_r by lia. f_equal.
  replace (Z.to_nat N) with (length (logs a)) by lia. clear Hl.
  induction (logs a) as [|l ls IH]; [done|]. cbn. by rewrite IH.
Qed.

(** The erasure of region [i] is started. *)
Lemma erase_starts i a t st :
  0 ≤ i < N → usable a = true → rep (λ _, True) t (erased i a) → Z.of_nat (length (logs a)) = N →
  ∃ t', erase_from (Z.to_nat (N - i)) i (mkTicKV (controller t) (flash_size t) (read_buffer t) st) =
          Done (Some (EraseNotReady i)) t' ∧
    rep (λ st, st = StateInit (InitEraseRegion i)) t' (erased (i + 1) a).
Proof.
  intros Hi Hu Hrep Hlen. destruct (Z.to_nat (N - i)) as [|n] eqn:En; [lia|]. cbn [erase_from].
  destruct (erase_region_ok (controller t) i Hi) as (x & c' & E & -> & Hc'). run_step. rewrite E. run_step.
  eexists. split; [done|]. rewrite <- erased_S by lia.
  pose proof (rep_buffer _ _ _ _ _ Hrep) as Hb. cbn [usable erased] in Hb. rewrite Hu in Hb.
  destruct Hb as (b & Hb & Hzb). rewrite Hb.
  apply rep_set_log_buffer; [done|apply Hrep|apply Hrep|done|apply Hrep| |done|done|].
  - split; [constructor|rewrite used_nil; lia].
  - intros r' Hr'. rewrite Hc', (rep_contents _ _ _ _ _ Hrep) by done. destruct (r' =? i); [|done].
    unfold region_of. rewrite used_nil, Z.sub_0_r. done.
Qed.

(** What the initialisation leaves: the main key alone. *)
Definition main_key_only (h : Z) (a : store) : store :=
  set_log (blank a) (home_of N h) [mkObject true h []].

Section initialise.
Context (h : Z) (Hh : 0 < h < 0xFFFFFFFFFFFFFFFF) (Hbad : bad_hash h = false).
Context (a : store) (Hu : usable a = true) (Hlen : Z.of_nat (length (logs a)) = N).

Lemma main_key_wf : object_wf (mkObject true h []).
Proof. refine (conj Hh (conj _ (Forall_nil_2 _))). by vm_compute. Qed.

Lemma main_key_visit :
  append_visit Sz Queued (blank a) h [] (home_of N h) = Some (Ok Queued, main_key_only h a).
Proof.
  pose proof (home_of_range N HN h). unfold append_visit.
  assert (log (blank a) (home_of N h) = []) as ->.
  { unfold log, blank. cbn [logs]. apply list_lookup_total_correct. rewrite list_lookup_fmap.
    by rewrite lookup_log by lia. }
  cbn [find]. rewrite used_nil. change (ob_len (mkObject true h [])) with 15.
  change (0 + (HEADER_LENGTH + zlen [])) with 11.
  rewrite (proj2 (Z.leb_gt Sz 11)), (proj2 (Z.leb_le (0 + 15) Sz)) by lia. done.
Qed.

(** Appending the main key, once the read of its region is done. *)
Lemma save_loaded t :
  rep (λ st, st = StateInit (AppendKeyReadRegion (home_of N h))) t (blank a) →
  read_buffer t = Some (region_of Sz (log (blank a) (home_of N h))) →
  ∃ t', initialise Sz fuel h t = Done (Ok Queued) t' ∧ rep idle t' (main_key_only h a).
Proof.
  intros Hrep Hb. pose proof (rep_state _ _ _ _ _ Hrep) as Hst. cbn beta in Hst.
  pose proof (append_body_spec Sz N fuel HSz HN Hfuel _ h [] (blank a) 0 0 t (controller t) (state t)
    main_key_wf Hu (valid_offset_0 _ _ (home_of_range N HN h)) Hrep (λ _, eq_refl)) as Hbody.
  cbv zeta in Hbody. cbn [write_code] in Hbody. rewrite Z.add_0_r, main_key_visit in Hbody.
  destruct Hbody as (t' & E & Hrep').
  assert (Hstep : append_step Sz fuel (ob_header true (mkObject true h [])) h [] (home_of N h) 0 t =
                  Done (0, Some (Ok Queued)) t').
  { rewrite <- E. destruct t as [c0 fs rb st]. cbn in Hst, Hb. subst st rb. unfold append_step. run_step.
    rewrite (bool_decide_true (_ = StateInit _)), orb_true_r by done. by run_step. }
  unfold initialise. run_step. rewrite Hst. run_step. unfold erase_all. run_step. rewrite Hst. run_step.
  unfold save_main_key. run_step. rewrite (append_key_start Sz N fuel HN _ _ _ _ _ Hrep main_key_wf).
  destruct Hfuel. assert (1 ≤ fuel)%nat as Hf by lia. rewrite (region_loop_once _ _ _ _ _ _ _ Hf Hstep).
  run_step. eexists. split; [done|]. by eapply rep_set_state.
Qed.

(** Everything is erased: the read of the region of the main key is started. *)
Lemma save_starts t :
  rep (λ st, st = StateInit EraseComplete) t (blank a) →
  ∃ t', save_main_key Sz fuel h t = Done (Err (ReadNotReady (home_of N h))) t' ∧
    rep (λ st, st = StateInit (AppendKeyReadRegion (home_of N h))) t' (blank a).
Proof.
  intros Hrep. pose proof (rep_state _ _ _ _ _ Hrep) as Hst. cbn beta in Hst.
  destruct (rep_wait Sz N _ _ _ (home_of N h) Hrep Hu) as (b & b' & c & Hb & Hread & Hrep').
  { by apply home_of_range. }
  assert (Hstep : append_step Sz fuel (ob_header true (mkObject true h [])) h [] (home_of N h) 0 t =
    Done (0, Some (Err (ReadNotReady (home_of N h))))
      (mkTicKV c (flash_size t) (Some b') (StateAppendKey (ReadRegion (home_of N h))))).
  { destruct t as [c0 fs rb st]. cbn in Hst, Hb, Hread. subst st rb. unfold append_step. run_step.
    rewrite Z.add_0_r, !bool_decide_false by done. run_step. rewrite Hread. by run_step. }
  unfold save_main_key. run_step. rewrite (append_key_start Sz N fuel HN _ _ _ _ _ Hrep main_key_wf).
  destruct Hfuel. assert (1 ≤ fuel)%nat as Hf by lia. rewrite (region_loop_once _ _ _ _ _ _ _ Hf Hstep).
  run_step. eexists. split; [done|]. apply Hrep'.
Qed.

(** The callback of the erasure of region [r]. *)
Lemma erase_next r t :
  0 ≤ r < N → rep (λ st, st = StateInit (InitEraseRegion r)) t (erased (r + 1) a) →
  if r + 1 =? N
  then ∃ t', initialise Sz fuel h t = Done (Err (ReadNotReady (home_of N h))) t' ∧
         rep (λ st, st = StateInit (AppendKeyReadRegion (home_of N h))) t' (blank a)
  else ∃ t', initialise Sz fuel h t = Done (Err (EraseNotReady (r + 1))) t' ∧
         rep (λ st, st = StateInit (InitEraseRegion (r + 1))) t' (erased (r + 1 + 1) a).
Proof.
  intros Hr Hrep. pose proof (rep_state _ _ _ _ _ Hrep) as Hst. cbn beta in Hst.
  unfold initialise. run_step. rewrite Hst. run_step. unfold erase_all. run_step.
  rewrite Hst, (rep_regions _ _ _ _ _ Hrep). destruct (Z.eqb_spec (r + 1) N) as [Heq|Hne].
  - rewrite Heq, Z.sub_diag. cbn [Z.to_nat erase_from]. run_step. apply save_starts.
    rewrite Heq, erased_all in Hrep by done. by eapply rep_set_state.
  - destruct (erase_starts (r + 1) a t (state t)) as (t' & E & Hr'); [lia|done| |done|].
    { by eapply rep_weaken. }
    destruct t as [c0 fs rb st]. cbn in E. rewrite E. run_step. by exists t'.
Qed.

(** Enough callbacks from the first erasure on. *)
Lemma finish_erase n r s :
  r + 1 + Z.of_nat n = N → 0 ≤ r < N → key s = Some h →
  rep (λ st, st = StateInit (InitEraseRegion r)) (tickv s) (erased (r + 1) a) →
  ∀ k, (n + 2 ≤ k)%nat →
  ∃ s', finish k s = Done (Ok Queued, value s, 0) s' ∧ rep idle (tickv s') (main_key_only h a).
Proof.
  revert r s. induction n as [|n IH]; intros r s Hn Hr Hk Hrep k Hlek.
  all: destruct k as [|k]; [lia|]; destruct s as [t ky v m]; cbn in Hk, Hrep; subst ky.
  all: pose proof (rep_state _ _ _ _ _ Hrep) as Hst; cbn beta in Hst.
  all: pose proof (erase_next r t Hr Hrep) as Hnext.
  all: assert (Hcb : callback (mkAsync t (Some h) v m) = continue_operation Sz fuel (mkAsync t (Some h) v m))
    by (unfold callback; cbn [tickv]; by rewrite Hst).
  - rewrite (proj2 (Z.eqb_eq (r + 1) N)) in Hnext by lia. destruct Hnext as (t1 & E1 & Hr1).
    rewrite (continue_initialise t h v m _ t1 (ex_intro _ _ Hst) E1 I) in Hcb.
    rewrite (finish_step _ _ _ _ Hcb). cbn [pending].
    destruct (callback_read (λ r, StateInit (AppendKeyReadRegion r)) (home_of N h)
      (mkAsync t1 (Some h) v m) (blank a)) as (t2 & Ec & Hr2 & Hb2); [done|done|done| |done|].
    { by apply home_of_range. }
    destruct (save_loaded t2 Hr2 Hb2) as (t3 & E3 & Hr3).
    pose proof (rep_state _ _ _ _ _ Hr2) as Hst2. cbn beta in Hst2. cbn [key value value_length] in Ec.
    rewrite (continue_initialise t2 h v m _ t3 (ex_intro _ _ Hst2) E3 I) in Ec.
    destruct k as [|k]; [lia|]. rewrite (finish_step _ _ _ _ Ec). cbn [pending value].
    eexists. split; [done|]. by eapply rep_idle_again.
  - rewrite (proj2 (Z.eqb_neq (r + 1) N)) in Hnext by lia. destruct Hnext as (t1 & E1 & Hr1).
    rewrite (continue_initialise t h v m _ t1 (ex_intro _ _ Hst) E1 I) in Hcb.
    rewrite (finish_step _ _ _ _ Hcb). cbn [pending value].
    apply (IH (r + 1) (mkAsync t1 (Some h) v m)); [lia|lia|done|done|lia].
Qed.

(** Without a main key the erasures begin. *)
Lemma erase_begins r t :
  rep (λ st, st = StateInit (GetKeyReadRegion r)) t a →
  ∃ t', erase_all Sz t = Done (Some (EraseNotReady 0)) t' ∧
    rep (λ st, st = StateInit (InitEraseRegion 0)) t' (erased 1 a).
Proof.
  intros Hrep. pose proof (rep_state _ _ _ _ _ Hrep) as Hst. cbn beta in Hst.
  unfold erase_all. run_step. rewrite Hst, (rep_regions _ _ _ _ _ Hrep).
  destruct (erase_starts 0 a t (state t)) as (t' & E & Hr'); [lia|done| |done|].
  { replace (erased 0 a) with a by (by destruct a). by eapply rep_weaken. }
  destruct t as [c0 fs rb st]. cbn in E. rewrite E. run_step. by exists t'.
Qed.

(** One round of the search for the main key: found, missed, or on to the next
    region. *)
Lemma initialise_loaded o t :
  valid_offset N (home_of N h) o →
  rep (λ st, st = StateInit (GetKeyReadRegion (home_of N h + o))) t a →
  read_buffer t = Some (region_of Sz (log a (home_of N h + o))) →
  let missed := ∃ t', initialise Sz fuel h t = Done (Err (EraseNotReady 0)) t' ∧
                  rep (λ st, st = StateInit (InitEraseRegion 0)) t' (erased 1 a) in
  match get_visit Sz a h [] (home_of N h + o) with
  | Some (Ok (ret, _), _, _) => ∃ t', initialise Sz fuel h t = Done (Ok ret) t' ∧ rep (λ _, True) t' a
  | Some (Err _, _, _) => missed
  | None =>
      match next_region N (home_of N h) o with
      | Some p => ∃ t', initialise Sz fuel h t = Done (Err (ReadNotReady (home_of N h + p))) t' ∧
                    rep (λ st, st = StateInit (GetKeyReadRegion (home_of N h + p))) t' a
      | None => missed
      end
  end.
Proof.
  intros Ho Hrep Hb missed. pose proof (rep_state _ _ _ _ _ Hrep) as Hst. cbn beta in Hst.
  assert (u64 h) as Hh' by (unfold u64; lia). destruct Hfuel as [Hf1 Hf2].
  assert (Hfirst : get_step Sz fuel h [] (home_of N h) 0 t =
    get_body Sz fuel h [] (home_of N h) 0 (home_of N h + o) (region_of Sz (log a (home_of N h + o)))
      (mkTicKV (controller t) (flash_size t) None (state t))).
  { destruct t as [c0 fs rb st]. cbn in Hst, Hb. subst st rb. unfold get_step. run_step.
    rewrite (bool_decide_true (_ = StateInit _)), orb_true_r by done. by run_step. }
  rewrite (get_body_spec Sz N fuel HSz HN Hfuel _ h [] a o 0 t (controller t) (state t) Hh' Hu Ho Hrep) in Hfirst.
  assert (Hrep' : ∀ (P : State → Prop) st, P st → rep P (loaded_with Sz a t (controller t) (home_of N h + o) st) a).
  { intros P st HP. eapply (rep_loaded_with Sz N); eauto. }
  assert (Hkey : ∀ r t1, region_loop (get_step Sz fuel h [] (home_of N h)) fuel 0 t = Done r t1 →
    initialise Sz fuel h t =
    match r.1 with
    | Ok (ret, _) => Done (Ok ret) t1
    | Err (ReadNotReady reg) => Done (Err (ReadNotReady reg))
        (mkTicKV (controller t1) (flash_size t1) (read_buffer t1) (StateInit (GetKeyReadRegion reg)))
    | Err _ => (x ← erase_all Sz; match x with Some e => mret (Err e) | None => save_main_key Sz fuel h end) t1
    end).
  { intros [r buf] t1 E. unfold initialise. run_step. rewrite Hst. unfold get_key. run_step.
    rewrite (get_region_home _ _ _ _ HN (rep_regions _ _ _ _ _ Hrep)), Hbad. run_step. rewrite E. run_step.
    destruct r as [[ret len]|e]; [done|]. by destruct e. }
  assert (Hmiss : ∀ x o', not_ready x = false → get_step Sz fuel h [] (home_of N h) 0 t =
      Done (o', Some (Err x, [])) (loaded_with Sz a t (controller t) (home_of N h + o) (state t)) → missed).
  { intros x o' Hx E. rewrite (region_loop_once _ fuel _ _ _ _ _ ltac:(lia) E) in Hkey.
    specialize (Hkey _ _ eq_refl). destruct (erase_begins (home_of N h + o) _ (Hrep' _ _ Hst)) as (t' & Ee & Hr').
    unfold missed. rewrite Hkey. unfold mbind, M_bind. rewrite Ee. exists t'. split; [by destruct x|done]. }
  destruct (get_visit Sz a h [] (home_of N h + o)) as [[[[[ret len]|x] buf'] a']|] eqn:Ev.
  - rewrite (region_loop_once _ fuel _ _ _ _ _ ltac:(lia) Hfirst) in Hkey. rewrite (Hkey _ _ eq_refl).
    eexists. split; [done|]. by apply Hrep'.
  - pose proof (get_visit_final _ _ _ _ _ _ _ _ Ev) as Hx. cbn in Hx.
    assert (buf' = []) as ->; [|by eapply Hmiss].
    revert Ev. unfold get_visit, value_reply. intros Ev. repeat case_match; by simplify_eq.
  - destruct (next_region N (home_of N h) o) as [p|] eqn:Hn; [|exact (Hmiss KeyNotFound _ eq_refl Hfirst)].
    pose proof (next_region_spec _ _ o (home_of_range N HN h) Ho) as Hp. rewrite Hn in Hp.
    destruct (get_step_waits Sz N fuel h [] a p _ Hu (proj1 Hp) (Hrep' idle _ eq_refl)) as (t2 & E2 & Hr2).
    rewrite (region_loop_twice _ fuel _ _ _ _ _ _ _ ltac:(lia) Hfirst E2) in Hkey. rewrite (Hkey _ _ eq_refl).
    eexists. split; [done|]. by eapply rep_set_state.
Qed.

Lemma finish_initialise k : ∀ o s,
  valid_offset N (home_of N h) o → key s = Some h →
  rep (λ st, st = StateInit (GetKeyReadRegion (home_of N h + o))) (tickv s) a →
  (length (rest N (home_of N h) o) + Z.to_nat N + 2 ≤ k)%nat →
  let w := walk (get_visit Sz a h []) (Err KeyNotFound, [], a)
             (home_of N h + o :: ((λ o, home_of N h + o) <$> rest N (home_of N h) o)) in
  ∃ s', finish k s = Done (match w.1.1 with Ok (ret, _) => Ok ret | Err _ => Ok Queued end, value s, 0) s' ∧
    rep idle (tickv s') (match w.1.1 with Ok _ => a | Err _ => main_key_only h a end).
Proof.
  induction k as [|k IH]; intros o s Ho Hk Hrep Hlek w; [lia|]. subst w. cbn [walk].
  destruct (callback_read (λ r, StateInit (GetKeyReadRegion r)) (home_of N h + o) s a)
    as (t & Ec & Hr & Hb); [done|done|done|done|done|].
  destruct s as [t0 ky v m]. cbn [key value value_length tickv] in *. subst ky.
  pose proof (initialise_loaded o t Ho Hr Hb) as Hl. cbv zeta in Hl.
  pose proof (rep_state _ _ _ _ _ Hr) as Hst. cbn beta in Hst.
  assert (Hmiss : (∃ t', initialise Sz fuel h t = Done (Err (EraseNotReady 0)) t' ∧
      rep (λ st, st = StateInit (InitEraseRegion 0)) t' (erased 1 a)) →
    ∃ s', finish (S k) (mkAsync t0 (Some h) v m) = Done (Ok Queued, v, 0) s' ∧ rep idle (tickv s') (main_key_only h a)).
  { intros (t1 & E1 & Hr1). rewrite (continue_initialise t h v m _ t1 (ex_intro _ _ Hst) E1 I) in Ec.
    rewrite (finish_step _ _ _ _ Ec). cbn [pending].
    apply (finish_erase (Z.to_nat (N - 1)) 0 (mkAsync t1 (Some h) v m)); [lia|lia|done|exact Hr1|lia]. }
  rewrite rest_unfold in Hlek |- * by (done || by apply home_of_range).
  pose proof (next_region_spec _ _ o (home_of_range N HN h) Ho) as Hn.
  destruct (get_visit Sz a h [] (home_of N h + o)) as [[[[[ret len]|x] buf'] a']|] eqn:Ev; cbn [fst].
  - destruct Hl as (t1 & E1 & Hr1). rewrite (continue_initialise t h v m _ t1 (ex_intro _ _ Hst) E1 I) in Ec.
    rewrite (finish_step _ _ _ _ Ec). cbn [pending]. eexists. split; [done|]. by eapply rep_idle_again.
  - by apply Hmiss.
  - destruct (next_region N (home_of N h) o) as [p|]; cbn [fmap list_fmap].
    + destruct Hl as (t1 & E1 & Hr1). rewrite (continue_initialise t h v m _ t1 (ex_intro _ _ Hst) E1 I) in Ec.
      rewrite (finish_step _ _ _ _ Ec). cbn [pending].
      apply (IH p (mkAsync t1 (Some h) v m)); [apply Hn|done|done|cbn [length] in Hlek; lia].
    + by apply Hmiss.
Qed.

(** A look-up never reports a write. *)
Lemma walk_get_code regs ret len buf a1 :
  walk (get_visit Sz a h []) (Err KeyNotFound, [], a) regs = (Ok (ret, len), buf, a1) → ret = Complete.
Proof.
  induction regs as [|r regs IH]; cbn [walk]; [done|]. unfold get_visit at 1, value_reply.
  destruct (find (live h) (log a r)); [|by destruct (stops Sz (log a r))].
  intros E. case_match; by simplify_eq.
Qed.

Lemma async_initialise_completes s :
  rep idle (tickv s) a →
  ∃ s1 s2 w, spec_initialise Sz N h a = Ret w ∧
    async_initialise Sz fuel h s = Done (Err (ReadNotReady (home_of N h))) s1 ∧
    finish (Z.to_nat (2 * N + 1)) s1 = Done (queued w.1, value s, 0) s2 ∧ rep idle (tickv s2) w.2.
Proof.
  intros Hrep. pose proof (rep_state _ _ _ _ _ Hrep) as Hst. unfold idle in Hst.
  pose proof (home_of_range N HN h) as Hhome. pose proof (length_rest _ _ Hhome) as Hrest.
  destruct (get_step_waits Sz N fuel h [] a 0 (tickv s) Hu (valid_offset_0 _ _ Hhome) Hrep) as (t1 & E1 & Hr1).
  rewrite Z.add_0_r in E1.
  set (s1 := mkAsync (mkTicKV (controller t1) (flash_size t1) (read_buffer t1)
    (StateInit (GetKeyReadRegion (home_of N h)))) (Some h) (value s) (value_length s)).
  destruct (finish_initialise (Z.to_nat (2 * N + 1)) 0 s1) as (s2 & E2 & Hr2);
    [by apply valid_offset_0|done| |lia|].
  { rewrite Z.add_0_r. by eapply rep_set_state. }
  rewrite Z.add_0_r in E2, Hr2. fold (region_order N (home_of N h)) in E2, Hr2.
  assert (Hinit : async_initialise Sz fuel h s = Done (Err (ReadNotReady (home_of N h))) s1).
  { unfold async_initialise. run_async. unfold initialise. run_step. rewrite Hst. unfold get_key. run_step.
    rewrite (get_region_home _ _ _ _ HN (rep_regions _ _ _ _ _ Hrep)), Hbad. run_step.
    destruct Hfuel. assert (1 ≤ fuel)%nat as Hf by lia.
    by rewrite (region_loop_once _ _ _ _ _ _ _ Hf E1). }
  pose proof (walk_get Sz a h [] (region_order N (home_of N h))) as Hw. cbv zeta in Hw.
  unfold spec_initialise, spec_get. rewrite Hbad, Hu. cbn [orb negb].
  destruct (walk (get_visit Sz a h []) (Err KeyNotFound, [], a) (region_order N (home_of N h)))
    as [[[[ret len]|e] buf] a1] eqn:Ew; cbn [fst snd] in Hw, E2, Hr2; destruct Hw as [-> Hx];
    cbn [mbind outcome_bind].
  - exists s1, s2. eexists. split; [done|]. split; [done|]. split; [|done]. rewrite E2. cbn.
    assert (ret = Complete) as ->; [|done]. by eapply walk_get_code.
  - rewrite (append_blank Sz N fuel HSz HN h a Hbad Hu Hlen). exists s1, s2. eexists. split; [done|].
    split; [done|]. by split.
Qed.
End initialise.
End callbacks.

(** Split-phase garbage collection and initialisation end like the
    synchronous ones: on a controller that only starts reads, writes and
    erasures and calls back, collection is queued and completes after at most
    two callbacks per region with the bytes freed, and initialisation returns
    that it waits for a read and completes after at most two callbacks per region
    and one more; the logs on flash are those of the abstract store and the store
    is idle again. *)
Theorem async_maintenance_completes {C} `{!FlashController C} (Sz N : Z) `{!FlashLaws true C Sz N}
    (fuel : nat) (s : AsyncTicKV C) (a : store) :
  15 ≤ Sz → 1 ≤ N → Sz < Z.of_nat fuel ∧ N < Z.of_nat fuel →
  rep Sz N idle (tickv s) a → usable a = true →
  (∃ s1 s2 freed a', spec_collect Sz a = Ret (Ok freed, a') ∧
    async_garbage_collect Sz fuel s = Done (Ok Queued) s1 ∧
    finish Sz N fuel (Z.to_nat (2 * N)) s1 = Done (Ok Complete, value s, freed) s2 ∧
    rep Sz N idle (tickv s2) a') ∧
  (∀ h, 0 < h < 0xFFFFFFFFFFFFFFFF → ∃ s1 s2 w, spec_initialise Sz N h a = Ret w ∧
    async_initialise Sz fuel h s = Done (Err (ReadNotReady (home_of N h))) s1 ∧
    finish Sz N fuel (Z.to_nat (2 * N + 1)) s1 = Done (queued w.1, value s, 0) s2 ∧
    rep Sz N idle (tickv s2) w.2).
Proof.
  intros HSz HN Hfuel Hrep Hu. split.
  - destruct (async_collect_completes Sz N fuel HSz HN Hfuel s a Hrep Hu) as (s1 & s2 & w & H). by exists s1, s2, w, (collected N a).
  - intros h Hh. apply async_initialise_completes; try done; [|apply Hrep].
    unfold bad_hash. apply orb_false_iff. rewrite !Z.eqb_neq. lia.
Qed.

Lemma async_maintenance_completes_witness :
  ∃ s1 s2 w, async_initialise (FlashController0 := aram_flash 64) 64 100 5 (fresh_async 64 4) =
             Done (Err (ReadNotReady 1)) s1 ∧
           finish (FlashLaws0 := aram_laws 64 4) 64 4 100 9 s1 = Done (queued w, None, 0) s2 ∧ w = Ok Written.
Proof.
  assert (64 < Z.of_nat 100 ∧ 4 < Z.of_nat 100) as Hf by lia.
  assert (15 ≤ 64) as H64 by lia. assert (1 ≤ 4) as H4 by lia.
  assert (0 < 5 < 0xFFFFFFFFFFFFFFFF) as H5 by lia.
  destruct (async_maintenance_completes (FlashController0 := aram_flash 64) (FlashLaws0 := aram_laws 64 4)
    64 4 100 (fresh_async 64 4) (blank_store 4) H64 H4 Hf
    (rep_fresh_ram (FlashLaws0 := aram_laws 64 4) 64 4 _ H64 H4 (λ _, eq_refl)) eq_refl) as (_ & Hinit).
  destruct (Hinit 5 H5) as (s1 & s2 & w & Ew & E1 & E2 & _).
  exists s1, s2, w.1. split; [exact E1|]. split; [exact E2|].
  vm_compute in Ew. injection Ew as <-. reflexivity.
Defined.
