(* ===== verification/FragUtils.v ===== *)
(** * The bitmap of received fragments (capsules/extra/src/net/frag_utils.rs)

    [Bitmap] with every operation, as a list of twenty bytes; a refinement to
    sets of numbers below 160, one for each group of eight bytes of a datagram. *)

From stdpp Require Import gmap sets.
From S2P Require Import Prelude Bytes Syscall NetStream Ieee802154 Ipv6 Ipv6Theorems.

Definition BITMAP_SIZE : Z := 20.

(** [Bitmap { map }]. *)
Definition Bitmap : Type := list Z.

Definition Bitmap_new : Bitmap := replicate (Z.to_nat BITMAP_SIZE) 0.

Definition Bitmap_clear (map : Bitmap) : Bitmap := replicate (length map) 0.

(** [1 << (idx % 8)] and [!] on [u8]. *)
Definition bit8 (idx : Z) : Z := Z.shiftl 1 (idx mod 8).
Definition not8 (x : Z) : Z := 255 - x.

Definition clear_bit (map : Bitmap) (idx : Z) : outcome Bitmap :=
  let map_idx := idx / 8 in
  b ← index_get map map_idx; index_set map map_idx (Z.land b (not8 (bit8 idx))).

Definition set_bit (map : Bitmap) (idx : Z) : outcome Bitmap :=
  let map_idx := idx / 8 in
  b ← index_get map map_idx; index_set map map_idx (Z.lor b (bit8 idx)).

(** [0xff << (start_idx % 8)] and [second], on [u8]. *)
Definition first_mask (start_idx : Z) : Z := as_u8 (Z.shiftl 0xff (start_idx mod 8)).
Definition second_mask (end_idx : Z) : Z :=
  if end_idx mod 8 =? 0 then 0x00 else Z.shiftr 0xff (8 - end_idx mod 8).

(** [for i in start_byte_idx + 1..end_byte_idx]. *)
Fixpoint fill_bytes (is_ : list Z) (result : bool) (map : Bitmap) : outcome (bool * Bitmap) :=
  match is_ with
  | [] => Ret (result, map)
  | i :: is_ =>
      b ← (if result then index_get map i else Ret 1);
      map ← index_set map i 0xff;
      fill_bytes is_ (result && (b =? 0)) map
  end.

Definition set_bits (map : Bitmap) (start_idx end_idx : Z) : outcome (bool * Bitmap) :=
  if end_idx <? start_idx then Ret (false, map)
  else
    let start_byte_idx := start_idx / 8 in
    let end_byte_idx := end_idx / 8 in
    let first := first_mask start_idx in
    let second := second_mask end_idx in
    if start_byte_idx =? end_byte_idx then
      b ← index_get map start_byte_idx;
      let result := Z.land b (Z.land first second) =? 0 in
      map ← index_set map start_byte_idx (Z.lor b (Z.land first second));
      Ret (result, map)
    else
      b ← index_get map start_byte_idx;
      let result := Z.land b first =? 0 in
      result ← (if result then e ← index_get map end_byte_idx; Ret (Z.land e second =? 0) else Ret false);
      map ← index_set map start_byte_idx (Z.lor b first);
      e ← index_get map end_byte_idx;
      map ← index_set map end_byte_idx (Z.lor e second);
      fill_bytes (seqZ (start_byte_idx + 1) (end_byte_idx - (start_byte_idx + 1))) result map.

(** [for i in 0..total_length / 8]. *)
Fixpoint all_full (is_ : list Z) (result : bool) (map : Bitmap) : outcome bool :=
  match is_ with
  | [] => Ret result
  | i :: is_ =>
      r ← (if result then b ← index_get map i; Ret (b =? 0xff) else Ret false);
      all_full is_ r map
  end.

(** [0xff >> (8 - total_length % 8)]: a shift by the whole width overflows. *)
Definition last_mask (total_length : Z) : outcome Z :=
  if total_length mod 8 =? 0 then Panic else Ret (Z.shiftr 0xff (8 - total_length mod 8)).

Definition is_complete (map : Bitmap) (total_length : Z) : outcome bool :=
  result ← all_full (seqZ 0 (total_length / 8)) true map;
  mask ← last_mask total_length;
  if (result : bool) then b ← index_get map (total_length / 8); Ret (b =? mask) else Ret false.

(** ** The set of a bitmap *)

(** Whether bit [i] is set. *)
Definition has (map : Bitmap) (i : Z) : bool := Z.testbit (at8 map (Z.to_nat (i / 8))) (i mod 8).

Definition bitmap_ok (map : Bitmap) : Prop := length map = 20%nat ∧ Forall byte map.

(** [map'] has the bits of [map] and those from [s] below [e]. *)
Definition in_range (s e i : Z) : bool := (s <=? i) && (i <? e).

Implicit Types map : list Z.

Lemma byte_testbit_high x k : byte x → 8 ≤ k → Z.testbit x k = false.
Proof.
  intros [H0 H1] Hk. destruct (Z.eq_dec x 0) as [->|]; [apply Z.bits_0|].
  apply Z.bits_above_log2; [done|]. assert (Z.log2 x < 8) by (apply Z.log2_lt_pow2; lia). lia.
Qed.

Lemma index_get_at8 map n : (n < length map)%nat → index_get map (Z.of_nat n) = Ret (at8 map n).
Proof.
  intros Hn. unfold index_get, at8. rewrite (proj2 (Z.ltb_ge _ _)), Nat2Z.id by lia.
  destruct (lookup_lt_is_Some_2 map n Hn) as [x Hx]. rewrite Hx. by rewrite (nth_lookup_Some _ _ _ _ Hx).
Qed.

Lemma at8_insert map n m x : (m < length map)%nat → at8 (<[m := x]> map) n = if decide (n = m) then x else at8 map n.
Proof.
  intros Hm. unfold at8. rewrite !nth_lookup. case_decide as E; [subst; by rewrite list_lookup_insert_eq|].
  by rewrite list_lookup_insert_ne.
Qed.

Lemma lor_is_byte x y : byte x → byte y → byte (Z.lor x y).
Proof.
  intros [? ?] [? ?]. split; [apply Z.lor_nonneg; lia|].
  destruct (Z.eq_dec (Z.lor x y) 0) as [->|]; [lia|]. apply Z.log2_lt_pow2 with (b := 8); [apply Z.le_neq; split; [apply Z.lor_nonneg; lia|done]|].
  rewrite Z.log2_lor by lia. destruct (Z.eq_dec x 0) as [->|], (Z.eq_dec y 0) as [->|];
    rewrite ?Z.max_lub_lt_iff; try split; cbn; try lia; apply Z.log2_lt_pow2; lia.
Qed.

(** Bits that two bytes share. *)
Lemma land_zero_bits b m : byte b → byte m →
  (Z.land b m =? 0) = true ↔ ∀ k, 0 ≤ k < 8 → Z.testbit m k = true → Z.testbit b k = false.
Proof.
  intros Hb Hm. rewrite Z.eqb_eq. split.
  - intros H0 k _ Hk. pose proof (Z.land_spec b m k) as H. rewrite H0, Z.bits_0, Hk, andb_true_r in H. done.
  - intros H. apply Z.bits_inj_0. intros k. rewrite Z.land_spec. destruct (Z_lt_dec k 0); [by rewrite !Z.testbit_neg_r|].
    destruct (Z_lt_dec k 8); [|by rewrite (byte_testbit_high m), andb_false_r by (done || lia)].
    destruct (Z.testbit m k) eqn:E; [|by rewrite andb_false_r]. by rewrite H by (done || lia).
Qed.

(** The masks, by their bits. *)
Lemma small_cases (P : Z → Prop) k : 0 ≤ k < 8 → P 0 → P 1 → P 2 → P 3 → P 4 → P 5 → P 6 → P 7 → P k.
Proof.
  intros Hk. intros. assert (k = 0 ∨ k = 1 ∨ k = 2 ∨ k = 3 ∨ k = 4 ∨ k = 5 ∨ k = 6 ∨ k = 7) as H' by lia.
  naive_solver.
Qed.

Lemma first_mask_bits s k : 0 ≤ k < 8 → Z.testbit (first_mask s) k = (s mod 8 <=? k).
Proof.
  intros Hk. unfold first_mask. pose proof (Z.mod_pos_bound s 8 ltac:(lia)) as Hs.
  pattern (s mod 8). apply small_cases; [done|..]; pattern k; by apply small_cases.
Qed.
Lemma second_mask_bits e k : 0 ≤ k < 8 → Z.testbit (second_mask e) k = (k <? e mod 8).
Proof.
  intros Hk. unfold second_mask. pose proof (Z.mod_pos_bound e 8 ltac:(lia)) as Hs.
  pattern (e mod 8). apply small_cases; [done|..]; pattern k; by apply small_cases.
Qed.
Lemma masks_byte s e : byte (first_mask s) ∧ byte (second_mask e).
Proof.
  unfold first_mask, second_mask. split.
  - pattern (s mod 8). by apply small_cases; [apply Z.mod_pos_bound|..].
  - pattern (e mod 8). by apply small_cases; [apply Z.mod_pos_bound|..].
Qed.
Lemma masks_land_byte s e : byte (Z.land (first_mask s) (second_mask e)).
Proof.
  unfold first_mask, second_mask. pattern (s mod 8).
  apply small_cases; [by apply Z.mod_pos_bound|..]; pattern (e mod 8); (apply small_cases; [by apply Z.mod_pos_bound|..]); done.
Qed.

Lemma has_insert map m x i : (m < length map)%nat → 0 ≤ i →
  has (<[m := x]> map) i = if decide (i / 8 = Z.of_nat m) then Z.testbit x (i mod 8) else has map i.
Proof.
  intros Hm Hi. unfold has. rewrite at8_insert by done. pose proof (Z.div_pos i 8 Hi ltac:(lia)).
  destruct (decide (i / 8 = Z.of_nat m)), (decide (Z.to_nat (i / 8) = m)); done || lia.
Qed.

Lemma bitmap_ok_insert map m x : bitmap_ok map → byte x → bitmap_ok (<[m := x]> map).
Proof. intros [Hl Hb] Hx. split; [by rewrite length_insert|]. by apply Forall_insert. Qed.

(** The byte [m] gets the bits of a mask. *)
Lemma or_byte_has map m mask i : bitmap_ok map → (m < 20)%nat → 0 ≤ i →
  has (<[m := Z.lor (at8 map m) mask]> map) i =
    has map i || (bool_decide (i / 8 = Z.of_nat m) && Z.testbit mask (i mod 8)).
Proof.
  intros [Hl Hb] Hm Hi. rewrite has_insert by lia. case_bool_decide as E; rewrite ?decide_True, ?decide_False by done.
  - rewrite Z.lor_spec. unfold has. by rewrite E, Nat2Z.id.
  - by rewrite orb_false_r.
Qed.

(** The bits of byte [m] that a mask selects are clear. *)
Lemma masked_clear map m mask : bitmap_ok map → byte mask →
  (Z.land (at8 map m) mask =? 0) = true ↔
  ∀ i, 0 ≤ i → i / 8 = Z.of_nat m → Z.testbit mask (i mod 8) = true → has map i = false.
Proof.
  intros [Hl Hb] Hm. rewrite land_zero_bits by (by try apply at8_byte). split.
  - intros H i Hi E Ht. unfold has. rewrite E, Nat2Z.id. apply H; [|done]. by apply Z.mod_pos_bound.
  - intros H k Hk Ht. specialize (H (8 * Z.of_nat m + k)). unfold has in H.
    replace ((8 * Z.of_nat m + k) / 8) with (Z.of_nat m) in H by byte_lia.
    replace ((8 * Z.of_nat m + k) mod 8) with k in H by byte_lia.
    rewrite Nat2Z.id in H. apply H; lia || done.
Qed.

Lemma zero_byte_clear map m : bitmap_ok map →
  (at8 map m =? 0) = true ↔ ∀ i, 0 ≤ i → i / 8 = Z.of_nat m → has map i = false.
Proof.
  intros Hok. pose proof (masked_clear map m 255 Hok ltac:(done)) as H.
  assert (Hb : byte (at8 map m)) by (apply at8_byte, Hok). unfold byte in Hb.
  change 255 with (Z.ones 8) in H. rewrite land_ones_small in H by lia. rewrite H.
  assert (Ho : ∀ i, Z.testbit (Z.ones 8) (i mod 8) = true)
    by (intros i; apply Z.ones_spec_low, Z.mod_pos_bound; lia).
  split; naive_solver.
Qed.

Lemma full_byte_set map m : bitmap_ok map →
  (at8 map m =? 255) = true ↔ ∀ i, 0 ≤ i → i / 8 = Z.of_nat m → has map i = true.
Proof.
  intros Hok. assert (Hb : byte (at8 map m)) by (apply at8_byte, Hok). rewrite Z.eqb_eq. split.
  - intros E i Hi Hm. unfold has. rewrite Hm, Nat2Z.id, E. change 255 with (Z.ones 8).
    apply Z.ones_spec_low, Z.mod_pos_bound; lia.
  - intros H. apply Z.bits_inj'. intros k Hk. destruct (Z_lt_dec k 8).
    + specialize (H (8 * Z.of_nat m + k)). unfold has in H.
      replace ((8 * Z.of_nat m + k) / 8) with (Z.of_nat m) in H by byte_lia.
      replace ((8 * Z.of_nat m + k) mod 8) with k in H by byte_lia.
      rewrite Nat2Z.id in H. rewrite H by lia. symmetry. change 255 with (Z.ones 8). apply Z.ones_spec_low; lia.
    + rewrite byte_testbit_high by (done || lia). by rewrite byte_testbit_high by (done || lia).
Qed.

(** [fill_bytes] on the bytes from [a], [n] of them. *)
Lemma fill_bytes_spec n a r map : bitmap_ok map → 0 ≤ a → a + Z.of_nat n ≤ 20 →
  ∃ r' map', fill_bytes (seqZ a (Z.of_nat n)) r map = Ret (r', map') ∧ bitmap_ok map' ∧
    (∀ i, 0 ≤ i → has map' i = has map i || in_range a (a + Z.of_nat n) (i / 8)) ∧
    (r' = true ↔ r = true ∧ ∀ i, 0 ≤ i → a ≤ i / 8 < a + Z.of_nat n → has map i = false).
Proof.
  revert a r map. induction n as [|n IH]; intros a r map Hok Ha Hn.
  - exists r, map. split_and!; [done..| |].
    + intros i Hi. unfold in_range. destruct (Z.leb_spec a (i / 8)), (Z.ltb_spec (i / 8) (a + Z.of_nat 0)); cbn; rewrite ?orb_false_r; lia || done.
    + split; [|naive_solver]. intros ->. split; [done|]. lia.
  - rewrite seqZ_cons by lia. cbn [fill_bytes]. replace (Z.pred (Z.of_nat (S n))) with (Z.of_nat n) by lia.
    replace (Z.succ a) with (a + 1) by lia. set (m := Z.to_nat a). assert (Em : a = Z.of_nat m) by lia.
    assert (Hm : (m < length map)%nat) by (destruct Hok; lia).
    assert (Hg : (if r then index_get map a else Ret 1) = Ret (if r then at8 map m else 1))
      by (destruct r; [rewrite Em; by apply index_get_at8|done]).
    rewrite Hg. cbn [mbind outcome_bind]. rewrite index_set_Ret by (unfold zlen; lia). cbn [mbind outcome_bind]. fold m.
    destruct (IH (a + 1) (r && ((if r then at8 map m else 1) =? 0)) (<[m:=255]> map)) as (r' & map' & Hf & Hok' & Hh & Hr);
      [by apply bitmap_ok_insert|lia|lia|].
    exists r', map'. split_and!; [done..| |].
    + intros i Hi. rewrite Hh, has_insert by lia. pose proof (Z.div_pos i 8 Hi ltac:(lia)). unfold in_range.
      case_decide as E.
      * replace (Z.testbit 255 (i mod 8)) with true by (symmetry; change 255 with (Z.ones 8); apply Z.ones_spec_low, Z.mod_pos_bound; lia).
        cbn. rewrite (proj2 (Z.leb_le _ _)), (proj2 (Z.ltb_lt _ _)), orb_true_r by lia. done.
      * f_equal. destruct (Z.leb_spec (a + 1) (i / 8)), (Z.leb_spec a (i / 8)); cbn; try lia;
          destruct (Z.ltb_spec (i / 8) (a + 1 + Z.of_nat n)), (Z.ltb_spec (i / 8) (a + Z.of_nat (S n))); lia || done.
    + rewrite Hr. destruct r; [|naive_solver]. cbn [andb]. rewrite (zero_byte_clear map m Hok). split.
      * intros [H0 H1]. split; [done|]. intros i Hi Hai. destruct (decide (i / 8 = Z.of_nat m)) as [E|E]; [by apply H0|].
        specialize (H1 i Hi ltac:(lia)). by rewrite has_insert, decide_False in H1 by (done || lia).
      * intros [_ H]. split; [intros i Hi E; apply H; lia|]. intros i Hi Hai.
        rewrite has_insert, decide_False by (done || lia). apply H; lia.
Qed.

(** The bits of a range that lie in its first byte, in its last byte and between. *)
Lemma range_first s e i : 0 ≤ s ≤ e → s / 8 < e / 8 → 0 ≤ i → i / 8 = s / 8 → in_range s e i = (s mod 8 <=? i mod 8).
Proof. intros. unfold in_range. destruct (Z.leb_spec s i), (Z.ltb_spec i e), (Z.leb_spec (s mod 8) (i mod 8)); cbn; done || byte_lia. Qed.
Lemma range_last s e i : 0 ≤ s ≤ e → s / 8 < e / 8 → 0 ≤ i → i / 8 = e / 8 → in_range s e i = (i mod 8 <? e mod 8).
Proof. intros. unfold in_range. destruct (Z.leb_spec s i), (Z.ltb_spec i e), (Z.ltb_spec (i mod 8) (e mod 8)); cbn; done || byte_lia. Qed.
Lemma range_one s e i : 0 ≤ s ≤ e → s / 8 = e / 8 → 0 ≤ i → i / 8 = s / 8 →
  in_range s e i = (s mod 8 <=? i mod 8) && (i mod 8 <? e mod 8).
Proof.
  intros. unfold in_range. destruct (Z.leb_spec s i), (Z.ltb_spec i e), (Z.leb_spec (s mod 8) (i mod 8)), (Z.ltb_spec (i mod 8) (e mod 8));
    cbn; done || byte_lia.
Qed.
Lemma range_between s e i : 0 ≤ s ≤ e → s / 8 < e / 8 → i / 8 ≠ s / 8 → i / 8 ≠ e / 8 →
  in_range s e i = in_range (s / 8 + 1) (e / 8) (i / 8).
Proof.
  intros. unfold in_range. destruct (Z.leb_spec s i), (Z.ltb_spec i e), (Z.leb_spec (s / 8 + 1) (i / 8)), (Z.ltb_spec (i / 8) (e / 8));
    cbn; done || byte_lia.
Qed.
Lemma in_range_true s e i : in_range s e i = true ↔ s ≤ i < e.
Proof. unfold in_range. rewrite andb_true_iff, Z.leb_le, Z.ltb_lt. done. Qed.

Lemma in_range_byte s e i : 0 ≤ s ≤ e → in_range s e i = true → s / 8 ≤ i / 8 ≤ e / 8.
Proof. intros ? ?%in_range_true. byte_lia. Qed.

(** What [set_bits] promises. *)
Definition sets_range (map : list Z) (s e : Z) (r : bool) (map' : list Z) : Prop :=
  bitmap_ok map' ∧ (∀ i, 0 ≤ i → has map' i = has map i || in_range s e i) ∧
  (r = true ↔ ∀ i, s ≤ i < e → has map i = false).

Lemma set_bits_one map s e : bitmap_ok map → 0 ≤ s ≤ e → e < 160 → s / 8 = e / 8 →
  ∃ r map', set_bits map s e = Ret (r, map') ∧ sets_range map s e r map'.
Proof.
  intros Hok Hs He E. pose proof Hok as [Hl Hb]. unfold set_bits. cbv zeta. rewrite (proj2 (Z.ltb_ge _ _)) by lia.
  rewrite (proj2 (Z.eqb_eq _ _) E). assert (Hm : 0 ≤ s / 8 < 20) by byte_lia. set (m := Z.to_nat (s / 8)).
  replace (s / 8) with (Z.of_nat m) by lia. rewrite index_get_at8 by lia. cbn [mbind outcome_bind].
  rewrite index_set_Ret, Nat2Z.id by lia. cbn [mbind outcome_bind]. set (mask := Z.land (first_mask s) (second_mask e)).
  destruct (masks_byte s e) as [Hf Hse].
  assert (Hk : byte mask) by apply masks_land_byte.
  assert (Hbits : ∀ i, 0 ≤ i → i / 8 = Z.of_nat m → Z.testbit mask (i mod 8) = in_range s e i).
  { intros i Hi Hi8. subst mask. pose proof (Z.mod_pos_bound i 8 ltac:(lia)).
    rewrite Z.land_spec, first_mask_bits, second_mask_bits, range_one by lia. done. }
  eexists _, _. split; [done|]. split_and!.
  - apply bitmap_ok_insert; [done|]. apply lor_is_byte; [by apply at8_byte|done].
  - intros i Hi. rewrite or_byte_has by (done || lia). f_equal. case_bool_decide as E'; [by rewrite Hbits|].
    cbn. symmetry. apply not_true_iff_false. intros Hr%in_range_byte; lia.
  - rewrite (masked_clear map m mask) by done. split.
    + intros H i Hi. apply H; [lia|byte_lia|]. rewrite Hbits by byte_lia. apply in_range_true. lia.
    + intros H i Hi Hi8 Ht. rewrite Hbits in Ht by done. apply H. by apply in_range_true.
Qed.

Lemma set_bits_many map s e : bitmap_ok map → 0 ≤ s ≤ e → e < 160 → s / 8 < e / 8 →
  ∃ r map', set_bits map s e = Ret (r, map') ∧ sets_range map s e r map'.
Proof.
  intros Hok Hs He E. pose proof Hok as [Hl Hb]. unfold set_bits. cbv zeta. rewrite (proj2 (Z.ltb_ge _ _)) by lia.
  rewrite (proj2 (Z.eqb_neq _ _)) by lia. assert (Hm : 0 ≤ s / 8 < 20 ∧ 0 ≤ e / 8 < 20) by byte_lia.
  set (m := Z.to_nat (s / 8)). set (m' := Z.to_nat (e / 8)).
  assert (Hmm : Z.of_nat m = s / 8 ∧ Z.of_nat m' = e / 8) by lia.
  replace (s / 8) with (Z.of_nat m) by lia. replace (e / 8) with (Z.of_nat m') by lia.
  destruct (masks_byte s e) as [Hf Hse]. rewrite (index_get_at8 map m) by lia. cbn [mbind outcome_bind].
  set (r0 := Z.land (at8 map m) (first_mask s) =? 0).
  assert (Hg : (if r0 then x ← index_get map (Z.of_nat m'); Ret (Z.land x (second_mask e) =? 0) else Ret false) =
    Ret (r0 && (Z.land (at8 map m') (second_mask e) =? 0)))
    by (destruct r0; [rewrite index_get_at8 by lia; done|done]).
  rewrite Hg. cbn [mbind outcome_bind]. rewrite index_set_Ret, Nat2Z.id by lia. cbn [mbind outcome_bind].
  rewrite index_get_at8 by (rewrite length_insert; lia). cbn [mbind outcome_bind].
  rewrite index_set_Ret, Nat2Z.id by (rewrite length_insert; lia). cbn [mbind outcome_bind].
  set (map1 := <[m := _]> map). set (map2 := <[m' := _]> map1).
  assert (Hok1 : bitmap_ok map1) by (apply bitmap_ok_insert; [done|apply lor_is_byte; [by apply at8_byte|done]]).
  assert (Hok2 : bitmap_ok map2) by (apply bitmap_ok_insert; [done|apply lor_is_byte; [apply at8_byte, Hok1|done]]).
  replace (Z.of_nat m' - (Z.of_nat m + 1)) with (Z.of_nat (m' - m - 1)) by lia.
  assert (H2 : ∀ i, 0 ≤ i → has map2 i = has map i || (bool_decide (i / 8 = Z.of_nat m) && (s mod 8 <=? i mod 8))
    || (bool_decide (i / 8 = Z.of_nat m') && (i mod 8 <? e mod 8))).
  { intros i Hi. pose proof (Z.mod_pos_bound i 8 ltac:(lia)). unfold map2. rewrite or_byte_has by (done || lia).
    unfold map1. rewrite or_byte_has by (done || lia). by rewrite first_mask_bits, second_mask_bits by lia. }
  edestruct (fill_bytes_spec (m' - m - 1) (Z.of_nat m + 1)) as (r & map' & Hfb & Hok' & Hh & Hr); [exact Hok2|lia|lia|].
  eexists _, _. split; [exact Hfb|]. replace (Z.of_nat m + 1 + Z.of_nat (m' - m - 1)) with (Z.of_nat m') in * by lia.
  split_and!; [done| |].
  - intros i Hi. rewrite Hh, H2 by done. pose proof (Z.mod_pos_bound i 8 ltac:(lia)).
    destruct (decide (i / 8 = Z.of_nat m)) as [E1|E1]; [|destruct (decide (i / 8 = Z.of_nat m')) as [E2|E2]].
    + rewrite bool_decide_true, (bool_decide_false (i / 8 = Z.of_nat m')) by lia. rewrite (range_first s e i) by lia.
      cbn. rewrite orb_false_r. unfold in_range. rewrite (proj2 (Z.leb_gt (Z.of_nat m + 1) _)) by lia. cbn. by rewrite orb_false_r.
    + rewrite bool_decide_false, (bool_decide_true (i / 8 = Z.of_nat m')) by lia. rewrite (range_last s e i) by lia.
      cbn. rewrite orb_false_r. unfold in_range. rewrite (proj2 (Z.ltb_ge (i / 8) _)), andb_false_r, orb_false_r by lia. done.
    + rewrite !bool_decide_false by lia. cbn. rewrite !orb_false_r, (range_between s e i) by lia. by destruct Hmm as [-> ->].
  - rewrite Hr, andb_true_iff. unfold r0. rewrite (masked_clear map m), (masked_clear map m') by done. split.
    + intros [[Ha Hz] Hc] i Hi. pose proof (Z.mod_pos_bound i 8 ltac:(lia)).
      assert (Hir : in_range s e i = true) by by apply in_range_true.
      destruct (decide (i / 8 = Z.of_nat m)) as [E1|E1]; [|destruct (decide (i / 8 = Z.of_nat m')) as [E2|E2]].
      * apply Ha; [lia|done|]. rewrite first_mask_bits by lia. rewrite <- (range_first s e i) by lia. done.
      * apply Hz; [lia|done|]. rewrite second_mask_bits by lia. rewrite <- (range_last s e i) by lia. done.
      * specialize (Hc i ltac:(lia)). rewrite H2, !bool_decide_false in Hc by lia. cbn in Hc. rewrite !orb_false_r in Hc.
        apply Hc. apply in_range_byte in Hir; lia.
    + intros H. split_and!.
      * intros i Hi Ei Ht. pose proof (Z.mod_pos_bound i 8 ltac:(lia)). rewrite first_mask_bits in Ht by lia.
        apply H, in_range_true. by rewrite range_first by lia.
      * intros i Hi Ei Ht. pose proof (Z.mod_pos_bound i 8 ltac:(lia)). rewrite second_mask_bits in Ht by lia.
        apply H, in_range_true. by rewrite range_last by lia.
      * intros i Hi Ei. rewrite H2, !bool_decide_false by lia. cbn. rewrite !orb_false_r. apply H, in_range_true.
        rewrite range_between by lia. apply in_range_true. lia.
Qed.

Lemma set_bits_spec map s e : bitmap_ok map → 0 ≤ s ≤ e → e < 160 →
  ∃ r map', set_bits map s e = Ret (r, map') ∧ sets_range map s e r map'.
Proof.
  intros Hok Hs He. assert (s / 8 ≤ e / 8) by (apply Z.div_le_mono; lia).
  destruct (decide (s / 8 = e / 8)); [by apply set_bits_one|apply set_bits_many; done || lia].
Qed.

Lemma all_full_spec n a r map : bitmap_ok map → 0 ≤ a → a + Z.of_nat n ≤ 20 →
  ∃ r', all_full (seqZ a (Z.of_nat n)) r map = Ret r' ∧
    (r' = true ↔ r = true ∧ ∀ i, 0 ≤ i → a ≤ i / 8 < a + Z.of_nat n → has map i = true).
Proof.
  intros Hok. revert a r. induction n as [|n IH]; intros a r Ha Hn.
  - exists r. split; [done|]. split; [|naive_solver]. intros ->. split; [done|]. lia.
  - rewrite seqZ_cons by lia. cbn [all_full]. replace (Z.pred (Z.of_nat (S n))) with (Z.of_nat n) by lia.
    replace (Z.succ a) with (a + 1) by lia. set (m := Z.to_nat a). assert (Em : a = Z.of_nat m) by lia.
    assert (Hm : (m < length map)%nat) by (destruct Hok; lia).
    assert (Hg : (if r then b ← index_get map a; Ret (b =? 255) else Ret false) = Ret (r && (at8 map m =? 255)))
      by (destruct r; [rewrite Em, index_get_at8 by done|]; done).
    rewrite Hg. cbn [mbind outcome_bind].
    destruct (IH (a + 1) (r && (at8 map m =? 255))) as (r' & -> & Hr); [lia|lia|]. exists r'. split; [done|].
    rewrite Hr, andb_true_iff, (full_byte_set map m Hok). split.
    + intros [[-> H0] H1]. split; [done|]. intros i Hi Hai. destruct (decide (i / 8 = Z.of_nat m)); [by apply H0|apply H1; lia].
    + intros [-> H]. split_and!; [done| |]; intros i Hi Hai; apply H; lia.
Qed.

Lemma last_mask_bits n k : n mod 8 ≠ 0 → 0 ≤ k < 8 →
  ∃ mask, last_mask n = Ret mask ∧ byte mask ∧ Z.testbit mask k = (k <? n mod 8).
Proof.
  intros Hn Hk. pose proof (second_mask_bits n k Hk) as Hb. destruct (masks_byte 0 n) as [_ Hm].
  unfold last_mask, second_mask in *. rewrite (proj2 (Z.eqb_neq _ _) Hn) in *. eauto.
Qed.

(** The groups below [n] have arrived and the others of the byte of [n] have not. *)
Definition complete (map : list Z) (n : Z) : Prop :=
  ∀ i, 0 ≤ i → i / 8 ≤ n / 8 → has map i = (i <? n).

Lemma is_complete_spec map n : bitmap_ok map → 0 ≤ n < 160 → n mod 8 ≠ 0 →
  ∃ r, is_complete map n = Ret r ∧ (r = true ↔ complete map n).
Proof.
  intros Hok Hn Hm. pose proof Hok as [Hl Hb]. unfold is_complete.
  assert (Hn8 : 0 ≤ n / 8 < 20) by byte_lia. set (m := Z.to_nat (n / 8)). replace (n / 8) with (Z.of_nat m) by lia.
  destruct (all_full_spec m 0 true map Hok) as (r & -> & Hr); [lia|lia|]. cbn [mbind outcome_bind].
  destruct (last_mask_bits n 0 Hm ltac:(lia)) as (mask & Hmask & Hbyte & _). rewrite Hmask. cbn [mbind outcome_bind].
  assert (Hbits : ∀ k, 0 ≤ k < 8 → Z.testbit mask k = (k <? n mod 8)).
  { intros k Hk. destruct (last_mask_bits n k Hm Hk) as (mask' & Hmask' & _ & <-). rewrite Hmask in Hmask'. by simplify_eq. }
  rewrite index_get_at8 by lia. cbn [mbind outcome_bind]. eexists. split.
  { instantiate (1 := r && (at8 map m =? mask)). by destruct r. }
  rewrite andb_true_iff, Hr, Z.eqb_eq. unfold complete. split.
  - intros [[_ Hfull] Hlast] i Hi Hi8. destruct (decide (i / 8 = Z.of_nat m)) as [E|E].
    + unfold has. rewrite E, Nat2Z.id, Hlast. pose proof (Z.mod_pos_bound i 8 ltac:(lia)). rewrite Hbits by lia.
      destruct (Z.ltb_spec (i mod 8) (n mod 8)), (Z.ltb_spec i n); done || byte_lia.
    + rewrite Hfull by byte_lia. symmetry. apply Z.ltb_lt. byte_lia.
  - intros H. split; [split; [done|]|].
    + intros i Hi Hi8. rewrite H by lia. apply Z.ltb_lt. byte_lia.
    + apply Z.bits_inj'. intros k Hk. destruct (Z_lt_dec k 8).
      * specialize (H (8 * Z.of_nat m + k) ltac:(lia)). unfold has in H.
        replace ((8 * Z.of_nat m + k) / 8) with (Z.of_nat m) in H by byte_lia.
        replace ((8 * Z.of_nat m + k) mod 8) with k in H by byte_lia.
        rewrite Nat2Z.id in H. rewrite H, Hbits by lia.
        destruct (Z.ltb_spec k (n mod 8)), (Z.ltb_spec (8 * Z.of_nat m + k) n); done || byte_lia.
      * rewrite byte_testbit_high by first [done | lia | by apply at8_byte]. by rewrite byte_testbit_high by (done || lia).
Qed.

(** A number of groups that is a multiple of eight overflows the shift. *)
Lemma is_complete_overflows map n : n mod 8 = 0 → is_complete map n = Panic.
Proof.
  intros Hn. unfold is_complete, last_mask. rewrite Hn. cbn [Z.eqb]. by destruct (all_full _ _ _).
Qed.

(** ** Refinement to sets *)

Inductive bitmap_op : Type :=
| OpClear | OpClearBit (i : Z) | OpSetBit (i : Z) | OpSetBits (s e : Z) | OpIsComplete (n : Z).

Definition bitmap_step (o : bitmap_op) (map : Bitmap) : outcome (option bool * Bitmap) :=
  match o with
  | OpClear => Ret (None, Bitmap_clear map)
  | OpClearBit i => map ← clear_bit map i; Ret (None, map)
  | OpSetBit i => map ← set_bit map i; Ret (None, map)
  | OpSetBits s e => '(r, map) ← set_bits map s e; Ret (Some r, map)
  | OpIsComplete n => r ← is_complete map n; Ret (Some r, map)
  end.
Fixpoint bitmap_run (ops : list bitmap_op) (map : Bitmap) : outcome (list (option bool) * Bitmap) :=
  match ops with
  | [] => Ret ([], map)
  | o :: ops => '(a, map) ← bitmap_step o map; '(l, map) ← bitmap_run ops map; Ret (a :: l, map)
  end.

(** The numbers from [s] below [e]. *)
Definition span (s e : Z) : gset Z := list_to_set (seqZ s (e - s)).

Definition set_step (o : bitmap_op) (X : gset Z) : option bool * gset Z :=
  match o with
  | OpClear => (None, ∅)
  | OpClearBit i => (None, X ∖ {[i]})
  | OpSetBit i => (None, X ∪ {[i]})
  | OpSetBits s e =>
      if e <? s then (Some false, X) else (Some (bool_decide (X ∩ span s e = ∅)), X ∪ span s e)
  | OpIsComplete n => (Some (bool_decide (X ∩ span 0 (8 * (n / 8) + 8) = span 0 n)), X)
  end.
Fixpoint set_run (ops : list bitmap_op) (X : gset Z) : list (option bool) * gset Z :=
  match ops with
  | [] => ([], X)
  | o :: ops => let '(a, X) := set_step o X in let '(l, X) := set_run ops X in (a :: l, X)
  end.

(** Arguments inside the map; the last group of a byte completes no datagram. *)
Definition op_ok (o : bitmap_op) : Prop :=
  match o with
  | OpClear => True
  | OpClearBit i | OpSetBit i => 0 ≤ i < 160
  | OpSetBits s e => 0 ≤ s ∧ e < 160
  | OpIsComplete n => 0 ≤ n < 160 ∧ n mod 8 ≠ 0
  end.

Definition represents (map : Bitmap) (X : gset Z) : Prop :=
  bitmap_ok map ∧ ∀ i, 0 ≤ i → has map i = bool_decide (i ∈ X).

Lemma elem_of_span s e i : i ∈ span s e ↔ s ≤ i < e.
Proof. unfold span. rewrite elem_of_list_to_set, elem_of_seqZ. lia. Qed.

Lemma represents_new : represents Bitmap_new ∅.
Proof.
  split; [split; [done|]; by apply Forall_replicate|].
  intros i Hi. rewrite bool_decide_false by set_solver. unfold has, at8, Bitmap_new. rewrite nth_lookup.
  destruct (replicate _ 0 !! _) eqn:E; [apply lookup_replicate in E as [-> _]|]; apply Z.bits_0.
Qed.

Lemma represents_clear map X : represents map X → represents (Bitmap_clear map) ∅.
Proof. intros [[Hl _] _]. unfold Bitmap_clear. rewrite Hl. apply represents_new. Qed.

Lemma bit8_bits i k : 0 ≤ k < 8 → Z.testbit (bit8 i) k = (k =? i mod 8).
Proof.
  intros Hk. unfold bit8. pose proof (Z.mod_pos_bound i 8 ltac:(lia)) as Hs.
  pattern (i mod 8). apply small_cases; [done|..]; pattern k; by apply small_cases.
Qed.
Lemma not8_bits i k : 0 ≤ k < 8 → Z.testbit (not8 (bit8 i)) k = negb (k =? i mod 8).
Proof.
  intros Hk. unfold not8, bit8. pose proof (Z.mod_pos_bound i 8 ltac:(lia)) as Hs.
  pattern (i mod 8). apply small_cases; [done|..]; pattern k; by apply small_cases.
Qed.
Lemma bit8_byte i : byte (bit8 i).
Proof. unfold bit8. pattern (i mod 8). by apply small_cases; [apply Z.mod_pos_bound|..]. Qed.

Lemma same_bit i j : 0 ≤ i → 0 ≤ j → bool_decide (j = i) = bool_decide (j / 8 = i / 8) && (j mod 8 =? i mod 8).
Proof.
  intros Hi Hj. repeat case_bool_decide; subst; cbn; [by rewrite Z.eqb_refl|done| |done].
  symmetry. apply Z.eqb_neq. byte_lia.
Qed.

Lemma set_bit_step map X i : represents map X → 0 ≤ i < 160 → ∃ map', set_bit map i = Ret map' ∧ represents map' (X ∪ {[i]}).
Proof.
  intros [Hok Hh] Hi. pose proof Hok as [Hl Hb]. unfold set_bit. assert (Hm : 0 ≤ i / 8 < 20) by byte_lia.
  set (m := Z.to_nat (i / 8)). replace (i / 8) with (Z.of_nat m) by lia.
  rewrite index_get_at8 by lia. cbn [mbind outcome_bind]. rewrite index_set_Ret, Nat2Z.id by lia.
  eexists. split; [done|]. split; [apply bitmap_ok_insert, lor_is_byte; [done|by apply at8_byte|apply bit8_byte]|].
  intros j Hj. rewrite or_byte_has, Hh by (done || lia). pose proof (Z.mod_pos_bound j 8 ltac:(lia)).
  rewrite bit8_bits by lia. replace (Z.of_nat m) with (i / 8) by lia. rewrite <- same_bit by lia.
  rewrite <- bool_decide_or. apply bool_decide_ext. set_solver.
Qed.

Lemma byte_land_l x y : byte x → 0 ≤ y → byte (Z.land x y).
Proof.
  intros [? ?] Hy. split; [apply Z.land_nonneg; lia|].
  destruct (Z.eq_dec (Z.land x y) 0) as [->|Hne]; [lia|]. apply Z.log2_lt_pow2 with (b := 8).
  { apply Z.le_neq. split; [apply Z.land_nonneg; lia|done]. }
  pose proof (Z.log2_land x y ltac:(lia) Hy). assert (Z.log2 x < 8); [|lia].
  destruct (Z.eq_dec x 0) as [->|]; [cbn; lia|]. apply Z.log2_lt_pow2; lia.
Qed.

Lemma clear_bit_step map X i : represents map X → 0 ≤ i < 160 → ∃ map', clear_bit map i = Ret map' ∧ represents map' (X ∖ {[i]}).
Proof.
  intros [Hok Hh] Hi. pose proof Hok as [Hl Hb]. unfold clear_bit. assert (Hm : 0 ≤ i / 8 < 20) by byte_lia.
  set (m := Z.to_nat (i / 8)). replace (i / 8) with (Z.of_nat m) by lia. pose proof (bit8_byte i) as Hbi. unfold byte in Hbi.
  rewrite index_get_at8 by lia. cbn [mbind outcome_bind]. rewrite index_set_Ret, Nat2Z.id by lia.
  eexists. split; [done|]. split; [apply bitmap_ok_insert, byte_land_l; [done|by apply at8_byte|unfold not8; lia]|].
  intros j Hj. rewrite has_insert by lia. pose proof (Z.mod_pos_bound j 8 ltac:(lia)).
  assert (Hgoal : bool_decide (j ∈ X ∖ {[i]}) = bool_decide (j ∈ X) && negb (bool_decide (j = i)))
    by (repeat case_bool_decide; cbn; set_solver).
  rewrite Hgoal, same_bit, <- Hh by lia. replace (Z.of_nat m) with (i / 8) by lia. destruct (decide (j / 8 = i / 8)) as [E|E].
  - rewrite bool_decide_true by done. rewrite Z.land_spec, not8_bits by lia. unfold has. rewrite E. done.
  - rewrite bool_decide_false by done. by rewrite andb_true_r.
Qed.

Lemma set_bits_step map X s e : represents map X → 0 ≤ s ≤ e → e < 160 →
  ∃ map', set_bits map s e = Ret (bool_decide (X ∩ span s e = ∅), map') ∧ represents map' (X ∪ span s e).
Proof.
  intros [Hok Hh] Hs He. destruct (set_bits_spec map s e Hok Hs He) as (r & map' & Hset & Hok' & Hh' & Hr).
  exists map'. split.
  - rewrite Hset. do 2 f_equal. apply eq_bool_prop_intro. rewrite bool_decide_spec, Is_true_true, Hr. split.
    + intros H. apply set_eq. intros i. rewrite elem_of_intersection, elem_of_span. split; [|set_solver].
      intros [Hi Hr']. specialize (H i Hr'). rewrite Hh in H by lia. by rewrite bool_decide_true in H.
    + intros H i Hi. rewrite Hh by lia. apply bool_decide_false. intros Hin.
      assert (i ∈ (∅ : gset Z)); [|set_solver]. rewrite <- H, elem_of_intersection, elem_of_span. done.
  - split; [done|]. intros i Hi. rewrite Hh', Hh by done. unfold in_range.
    apply eq_bool_prop_intro. rewrite orb_True, bool_decide_spec, bool_decide_spec, elem_of_union, elem_of_span, Is_true_true, andb_true_iff, Z.leb_le, Z.ltb_lt. done.
Qed.

Lemma is_complete_step map X n : represents map X → 0 ≤ n < 160 → n mod 8 ≠ 0 →
  is_complete map n = Ret (bool_decide (X ∩ span 0 (8 * (n / 8) + 8) = span 0 n)).
Proof.
  intros [Hok Hh] Hn Hm. destruct (is_complete_spec map n Hok Hn Hm) as (r & -> & Hr). f_equal.
  apply eq_bool_prop_intro. rewrite bool_decide_spec, Is_true_true, Hr. unfold complete. split.
  - intros H. apply set_eq. intros i. rewrite elem_of_intersection, !elem_of_span. split.
    + intros [Hin Hi]. split; [lia|]. specialize (H i ltac:(lia) ltac:(byte_lia)). rewrite Hh, bool_decide_true in H by (done || lia).
      symmetry in H. by apply Z.ltb_lt in H.
    + intros Hi. assert (i / 8 ≤ n / 8) by byte_lia. specialize (H i ltac:(lia) ltac:(done)). rewrite Hh in H by lia.
      rewrite (proj2 (Z.ltb_lt i n)) in H by lia. apply bool_decide_eq_true in H. split; [done|byte_lia].
  - intros H i Hi Hi8. rewrite Hh by done. apply eq_bool_prop_intro. rewrite bool_decide_spec, Is_true_true, Z.ltb_lt.
    assert (Hs : i ∈ X ↔ i ∈ X ∩ span 0 (8 * (n / 8) + 8)) by (rewrite elem_of_intersection, elem_of_span; split; [|naive_solver]; intros; split; [done|byte_lia]).
    rewrite Hs, H, elem_of_span. lia.
Qed.

Lemma bitmap_step_refines o map X : represents map X → op_ok o →
  ∃ map', bitmap_step o map = Ret ((set_step o X).1, map') ∧ represents map' (set_step o X).2.
Proof.
  intros Hr Ho. destruct o as [|i|i|s e|n]; cbn [bitmap_step set_step op_ok fst snd] in *.
  - eexists. split; [done|]. by eapply represents_clear.
  - destruct (clear_bit_step map X i Hr Ho) as (map' & -> & H). eauto.
  - destruct (set_bit_step map X i Hr Ho) as (map' & -> & H). eauto.
  - destruct (Z.ltb_spec e s) as [Hes|Hes].
    + unfold set_bits. rewrite (proj2 (Z.ltb_lt _ _)) by done. cbn. eauto.
    + destruct (set_bits_step map X s e Hr) as (map' & -> & H); [lia|lia|]. cbn. eauto.
  - destruct Ho as [Hn Hm]. rewrite (is_complete_step map X n) by done. cbn. eauto.
Qed.

(** The bitmap is a set of numbers below 160: whatever operations are applied to
    a new bitmap, with arguments inside it, every operation returns, [set_bits]
    tells whether its range was free of the numbers set before, [is_complete]
    whether exactly the numbers below the total are set up to the end of its
    byte, and the bits are in the end those of the set. *)
Theorem bitmap_refines_set (ops : list bitmap_op) :
  Forall op_ok ops →
  ∃ map, bitmap_run ops Bitmap_new = Ret ((set_run ops ∅).1, map) ∧
    ∀ i, 0 ≤ i → has map i = bool_decide (i ∈ (set_run ops ∅).2).
Proof.
  intros Hops. cut (∀ map X, represents map X →
    ∃ map', bitmap_run ops map = Ret ((set_run ops X).1, map') ∧ represents map' (set_run ops X).2).
  { intros H. destruct (H Bitmap_new ∅ represents_new) as (map & Hrun & _ & Hh). by exists map. }
  induction Hops as [|o ops Ho Hops IH]; intros map X Hr; [by exists map|]. cbn [bitmap_run set_run].
  destruct (bitmap_step_refines o map X Hr Ho) as (map1 & -> & H1). destruct (set_step o X) as [a X1].
  cbn [mbind outcome_bind fst snd] in *. destruct (IH map1 X1 H1) as (map2 & -> & H2). destruct (set_run ops X1) as [l X2].
  exists map2. done.
Qed.

Lemma bitmap_refines_set_witness :
  let ops := [OpSetBits 0 12; OpSetBits 20 25; OpSetBits 12 21; OpSetBits 12 20; OpClearBit 24; OpIsComplete 25; OpSetBit 24; OpIsComplete 25] in
  ∃ map, bitmap_run ops Bitmap_new = Ret ((set_run ops ∅).1, map) ∧
    ∀ i, 0 ≤ i → has map i = bool_decide (i ∈ (set_run ops ∅).2).
Proof. apply bitmap_refines_set. repeat (constructor; [cbn; lia || (split; [lia|by vm_compute])|]). constructor. Defined.

(** The answers of that run: the third range overlaps, bit 24 is then missing. *)
Example bitmap_answers :
  fst <$> match bitmap_run [OpSetBits 0 12; OpSetBits 20 25; OpSetBits 12 21; OpSetBits 12 20; OpClearBit 24; OpIsComplete 25; OpSetBit 24; OpIsComplete 25]
    Bitmap_new with Ret r => Some r | Panic => None end =
  Some [Some true; Some true; Some false; Some false; None; Some false; None; Some true].
Proof. vm_compute. reflexivity. Qed.

(** Bit 160, the end of a datagram of 1280 bytes, is outside the map. *)
Example bitmap_last_group_panics : set_bits Bitmap_new 152 160 = Panic.
Proof. vm_compute. reflexivity. Qed.
