(* ===== verification/Framer.v ===== *)
(** * IEEE 802.15.4 frames (capsules/extra/src/ieee802154/framer.rs, device.rs)

    [Frame] and [FrameInfo] with their operations, the part of [MacDevice] that
    prepares frames as a type class, the framer's implementation of it, and the
    incoming security procedure up to the decision what to do with a frame. *)

From S2P Require Import Prelude Bytes Syscall NetStream Ieee802154 Ieee802154Theorems.

(** ** Constants of kernel/src/hil/radio.rs *)

Definition MFR_SIZE : Z := 2.
Definition MAX_MTU : Z := 127.
Definition MAX_FRAME_SIZE : Z := MAX_MTU.
Definition PSDU_OFFSET : Z := 2.

(** ** Frames *)

Record FrameInfo := mkInfo {
  info_frame_type : FrameType;
  mac_payload_offset : Z;
  data_offset : Z;
  data_len : Z;
  info_mic_len : Z;
  security_params : option (SecurityLevel * list Z * list Z)
}.

Record Frame := mkFrame { frame_buf : list Z; info : FrameInfo }.

Definition into_buf (self : Frame) : list Z := frame_buf self.

Definition unsecured_length (i : FrameInfo) : Z := data_offset i + data_len i.
Definition secured_length (i : FrameInfo) : Z := data_offset i + data_len i + info_mic_len i.

Definition remaining_data_capacity (self : Frame) : outcome Z :=
  a ← usub (zlen (frame_buf self)) PSDU_OFFSET;
  b ← usub a MFR_SIZE;
  usub b (secured_length (info self)).

Definition set_data_len (i : FrameInfo) (n : Z) : FrameInfo :=
  mkInfo (info_frame_type i) (mac_payload_offset i) (data_offset i) n (info_mic_len i) (security_params i).

(** [self.buf[begin..begin + payload.len()].copy_from_slice(payload)]. *)
Definition copy_at (buf : list Z) (begin_ : Z) (p : list Z) : outcome (list Z) :=
  if (0 <=? begin_) && (begin_ + zlen p <=? zlen buf)
  then Ret (take (Z.to_nat begin_) buf ++ p ++ drop (Z.to_nat begin_ + length p) buf) else Panic.

Definition append_payload (self : Frame) (p : list Z) : outcome (result unit ErrorCode * Frame) :=
  cap ← remaining_data_capacity self;
  if cap <? zlen p then Ret (Err NOMEM, self)
  else
    let begin_ := PSDU_OFFSET + unsecured_length (info self) in
    buf ← copy_at (frame_buf self) begin_ p;
    Ret (Ok tt, mkFrame buf (set_data_len (info self) (data_len (info self) + zlen p))).

(** The offset and the length of the data to encrypt. *)
Definition ccm_encrypt_ranges (i : FrameInfo) : outcome (Z * Z) :=
  match info_frame_type i with
  | Beacon | MACCommand => Panic
  | _ =>
      let encryption_needed := match security_params i with Some (level, _, _) => encryption_needed level | None => false end in
      if negb encryption_needed then Ret (unsecured_length i, 0)
      else len ← usub (unsecured_length i) (mac_payload_offset i); Ret (mac_payload_offset i, len)
  end.

(** The nonce, from the address, the frame counter and the level. *)
Definition get_ccm_nonce (device_addr : list Z) (frame_counter : Z) (level : SecurityLevel) : outcome (list Z) :=
  let enc : Enc (Z * unit) :=
    off ← enc_consume 0 (encode_bytes device_addr);
    off ← enc_consume off (encode_u32 frame_counter);
    off ← enc_consume off (encode_u8 (SecurityLevel_u8 level));
    mret (off, tt) in
  '(r, nonce) ← enc (replicate 13 0);
  match r with Done _ => Ret nonce | _ => Panic end.

(** ** The device interface *)

(** [MacDevice::prepare_data_frame]: a frame, or the buffer back. *)
Class MacDevice (D : Type) := {
  prepare_data_frame : D → list Z → Z → MacAddress → Z → MacAddress → option (SecurityLevel * KeyId) →
    outcome (result Frame (list Z))
}.

(** A frame with room for its checksum, whose data is what was appended. *)
Definition frame_ok (f : Frame) : Prop :=
  0 ≤ data_offset (info f) ∧ 0 ≤ data_len (info f) ∧ 0 ≤ info_mic_len (info f) ∧
  PSDU_OFFSET + MFR_SIZE + secured_length (info f) ≤ zlen (frame_buf f).

Definition capacity (f : Frame) : Z := zlen (frame_buf f) - PSDU_OFFSET - MFR_SIZE - secured_length (info f).

Definition frame_data (f : Frame) : list Z :=
  take (Z.to_nat (data_len (info f))) (drop (Z.to_nat (PSDU_OFFSET + data_offset (info f))) (frame_buf f)).

(** What the layers above rely on: between valid addresses an unsecured frame is
    prepared in every buffer of the radio's size; it is well formed and empty,
    and its header, whatever follows it, is decoded to one with the addresses. *)
Class MacDeviceLaws (D : Type) `{MacDevice D} := {
  device_ok : D → Prop;
  prepare_law : ∀ d buf dp da sp sa, device_ok d → PSDU_OFFSET + MAX_MTU ≤ zlen buf →
    u16 dp → u16 sp → mac_ok da → mac_ok sa →
    ∃ f hb h, prepare_data_frame d buf dp da sp sa None = Ret (Ok f) ∧
      frame_ok f ∧ data_len (info f) = 0 ∧ info_mic_len (info f) = 0 ∧ zlen (frame_buf f) = zlen buf ∧
      data_offset (info f) = zlen hb ∧ zlen hb ≤ 23 ∧
      take (Z.to_nat (PSDU_OFFSET + zlen hb)) (frame_buf f) = take 2 buf ++ hb ∧
      security h = None ∧ dst_addr h = Some da ∧ src_addr h = Some sa ∧
      ∀ unsecured, Reads (Header_decode unsecured) hb (h, zlen hb)
}.

Lemma remaining_capacity_ok f : frame_ok f → remaining_data_capacity f = Ret (capacity f).
Proof.
  intros (H1 & H2 & H3 & H4). unfold remaining_data_capacity, capacity, secured_length, PSDU_OFFSET, MFR_SIZE in *.
  rewrite usub_ok by lia. cbn [mbind outcome_bind]. rewrite usub_ok by lia. cbn [mbind outcome_bind]. rewrite usub_ok by lia. done.
Qed.

Lemma take_drop_insert {A} (l p r : list A) o n : (o + n ≤ length l)%nat →
  take (n + length p) (drop o (take (o + n) l ++ p ++ r)) = take n (drop o l) ++ p.
Proof.
  intros Hl. rewrite drop_app_le by (rewrite length_take; lia). rewrite skipn_firstn_comm.
  replace (o + n - o)%nat with n by lia. rewrite take_app_ge by (rewrite length_take; lia).
  rewrite length_take, length_drop. replace (n + length p - n `min` (length l - o))%nat with (length p) by lia.
  by rewrite take_app_length.
Qed.

(** Appending what fits. *)
Lemma append_payload_ok f p : frame_ok f → zlen p ≤ capacity f →
  ∃ f', append_payload f p = Ret (Ok tt, f') ∧ frame_ok f' ∧ capacity f' = capacity f - zlen p ∧
    frame_data f' = frame_data f ++ p ∧ data_offset (info f') = data_offset (info f) ∧
    zlen (frame_buf f') = zlen (frame_buf f) ∧
    take (Z.to_nat (PSDU_OFFSET + data_offset (info f))) (frame_buf f') = take (Z.to_nat (PSDU_OFFSET + data_offset (info f))) (frame_buf f) ∧
    info f' = set_data_len (info f) (data_len (info f) + zlen p).
Proof.
  intros Hok Hp. pose proof Hok as (H1 & H2 & H3 & H4). unfold append_payload. rewrite remaining_capacity_ok by done.
  cbn [mbind outcome_bind]. rewrite (proj2 (Z.ltb_ge _ _)) by done. cbv zeta.
  unfold capacity, secured_length, PSDU_OFFSET, MFR_SIZE, unsecured_length, copy_at in *.
  pose proof (zlen_nonneg p). set (b := 2 + (data_offset (info f) + data_len (info f))) in *.
  rewrite (proj2 (Z.leb_le _ _)), (proj2 (Z.leb_le _ _)) by lia. cbn [andb mbind outcome_bind].
  assert (Hlen : zlen (take (Z.to_nat b) (frame_buf f) ++ p ++ drop (Z.to_nat b + length p) (frame_buf f)) = zlen (frame_buf f)).
  { unfold zlen in *. rewrite !length_app, length_take, length_drop. lia. }
  eexists. split; [done|]. unfold frame_ok, secured_length, frame_data, PSDU_OFFSET, MFR_SIZE.
  cbn [info frame_buf set_data_len data_offset data_len info_mic_len]. rewrite Hlen. unfold zlen in *. split_and!; try done; try lia.
  - replace (Z.to_nat b) with (Z.to_nat (2 + data_offset (info f)) + Z.to_nat (data_len (info f)))%nat by lia.
    rewrite <- take_drop_insert with (r := drop (Z.to_nat (2 + data_offset (info f)) + Z.to_nat (data_len (info f)) + length p) (frame_buf f)) by lia.
    f_equal. lia.
  - rewrite take_app_le by (rewrite length_take; lia). rewrite take_take. f_equal. lia.
Qed.

(** ** The framer *)

#[export] Instance SecurityLevel_eq_dec : EqDecision SecurityLevel.
Proof. solve_decision. Defined.

(** The parts of [Framer] that frames depend on: the sequence number, the long
    address of the radio and the two lookup procedures, if they are set. *)
Record Framer := mkFramer {
  data_sequence : Z;
  address_long : list Z;
  key_procedure : option (SecurityLevel → KeyId → option (list Z));
  device_procedure : option (MacAddress → option (list Z))
}.

Definition lookup_key (self : Framer) (level : SecurityLevel) (key : KeyId) : option (list Z) :=
  kp ← key_procedure self; kp level key.
Definition lookup_addr_long (self : Framer) (src : option MacAddress) : option (list Z) :=
  addr ← src; dp ← device_procedure self; dp addr.

(** The header of a data frame. *)
Definition data_header (seq_ : Z) (dst_pan_ : Z) (dst : MacAddress) (src_pan_ : Z) (src : MacAddress) (sec : option Security)
    : Header :=
  mkHeader Data false true V2006 (Some seq_) (Some dst_pan_) (Some dst) (Some src_pan_) (Some src) sec
    (replicate 5 HeaderTermination1) 0 (replicate 5 PayloadTermination) 0.

Definition Framer_prepare_data_frame (self : Framer) (buf : list Z) (dst_pan_ : Z) (dst : MacAddress) (src_pan_ : Z)
    (src : MacAddress) (security_needed : option (SecurityLevel * KeyId)) : outcome (result Frame (list Z)) :=
  let src_addr_long := address_long self in
  '(security_desc, src) ←
    match security_needed with
    | None => Ret (None, src)
    | Some (lvl, key_id_) =>
        match lookup_key self lvl key_id_ with
        | None => Ret (None, src)
        | Some key =>
            nonce ← get_ccm_nonce src_addr_long 0 lvl;
            let src := if bool_decide (lvl = LevelNone) then src else Long src_addr_long in
            Ret (Some (mkSecurity lvl false (Some 0) key_id_, key, nonce), src)
        end
    end;
  if bool_decide (is_Some security_needed) && negb (bool_decide (is_Some security_desc)) then Ret (Err buf)
  else
    let sec := (λ d, d.1.1) <$> security_desc in
    let mic := match sec with Some sec => mic_len (level sec) | None => 0 end in
    let header := data_header (data_sequence self) dst_pan_ dst src_pan_ src sec in
    match get_from buf PSDU_OFFSET with
    | None => Panic
    | Some psdu =>
        '(r, psdu) ← Header_encode header true psdu;
        let buf := take (Z.to_nat PSDU_OFFSET) buf ++ psdu in
        match r with
        | Done (off, mac_off) =>
            Ret (Ok (mkFrame buf (mkInfo Data mac_off off 0 mic ((λ d, (level d.1.1, d.1.2, d.2)) <$> security_desc))))
        | _ => Ret (Err buf)
        end
    end.

#[export] Instance Framer_device : MacDevice Framer := { prepare_data_frame := Framer_prepare_data_frame }.

(** What becomes of a received frame: it is dropped, handed to the client with
    its header, the offset of its data in the buffer and their length, or kept
    for decryption. *)
Inductive Incoming : Type :=
| Dropped
| Yielded (h : Header) (offset len : Z)
| Secured (i : FrameInfo).

Definition incoming_frame_security (self : Framer) (buf : list Z) (frame_len : Z) : outcome Incoming :=
  match get_from buf PSDU_OFFSET with
  | None => Panic
  | Some psdu =>
      r ← Header_decode false psdu;
      match r with
      | Done (off, (h, mac_off)) =>
          let mic := match security h with Some sec => mic_len (level sec) | None => 0 end in
          d ← usub frame_len off;
          len ← usub d mic;
          match security h with
          | None => Ret (Yielded h (PSDU_OFFSET + off) len)
          | Some sec =>
              if bool_decide (version h = V2003) then Ret Dropped
              else
                match lookup_key self (level sec) (key_id sec), lookup_addr_long self (src_addr h), frame_counter sec with
                | Some key, Some addr, Some counter =>
                    if counter =? 0xffffffff then Ret Dropped
                    else
                      nonce ← get_ccm_nonce addr counter (level sec);
                      Ret (Secured (mkInfo (frame_type h) mac_off off len mic (Some (level sec, key, nonce))))
                | _, _, _ => Ret Dropped
                end
          end
      | _ => Ret Dropped
      end
  end.

Lemma data_header_ok seq_ dp da sp sa : u16 dp → u16 sp → mac_ok da → mac_ok sa →
  header_ok (data_header seq_ dp da sp sa None) true [].
Proof.
  intros. split; try done. cbn. lia.
Qed.

Lemma mac_bytes_length a : mac_ok a → 2 ≤ zlen (mac_bytes a) ≤ 8.
Proof. destruct a; cbn [mac_bytes mac_ok]; intros H; unfold zlen; rewrite ?length_le_bytes, ?length_reverse; lia. Qed.

Lemma data_header_length seq_ dp da sp sa : mac_ok da → mac_ok sa →
  zlen (header_bytes (data_header seq_ dp da sp sa None) []) ≤ 23.
Proof.
  intros Hd Hs. pose proof (mac_bytes_length _ Hd). pose proof (mac_bytes_length _ Hs).
  unfold header_bytes, addressing_bytes, src_pan_bytes. cbn [data_header seq dst_pan dst_addr src_pan src_addr security opt_bytes ies_part].
  rewrite !zlen_app. unfold zlen in *. rewrite !length_le_bytes. destruct (drop_src_pan _); rewrite ?length_le_bytes; cbn [length]; lia.
Qed.

Lemma Framer_prepares (d : Framer) buf dp da sp sa : PSDU_OFFSET + MAX_MTU ≤ zlen buf →
  u16 dp → u16 sp → mac_ok da → mac_ok sa →
  ∃ f hb h, Framer_prepare_data_frame d buf dp da sp sa None = Ret (Ok f) ∧
    frame_ok f ∧ data_len (info f) = 0 ∧ info_mic_len (info f) = 0 ∧ zlen (frame_buf f) = zlen buf ∧
    data_offset (info f) = zlen hb ∧ zlen hb ≤ 23 ∧
    take (Z.to_nat (PSDU_OFFSET + zlen hb)) (frame_buf f) = take 2 buf ++ hb ∧
    security h = None ∧ dst_addr h = Some da ∧ src_addr h = Some sa ∧
    ∀ unsecured, Reads (Header_decode unsecured) hb (h, zlen hb).
Proof.
  intros Hb Hdp Hsp Hda Hsa.
  unfold PSDU_OFFSET, MAX_MTU, zlen in Hb. destruct buf as [|b0 [|b1 psdu]]; [cbn in Hb; lia..|].
  set (h := data_header (data_sequence d) dp da sp sa None). pose proof (data_header_ok (data_sequence d) dp da sp sa Hdp Hsp Hda Hsa) as Hh.
  pose proof (data_header_length (data_sequence d) dp da sp sa Hda Hsa) as Hl. fold h in Hh, Hl.
  set (hb := header_bytes h []) in *. assert (Hp : zlen hb ≤ zlen psdu) by (unfold zlen in *; cbn [length] in Hb; lia).
  assert (Hlen : zlen (b0 :: b1 :: hb ++ drop (length hb) psdu) = zlen (b0 :: b1 :: psdu)).
  { unfold zlen in *. cbn [length]. rewrite length_app, length_drop. lia. }
  exists (mkFrame (b0 :: b1 :: hb ++ drop (length hb) psdu) (mkInfo Data (zlen hb) (zlen hb) 0 0 None)), hb, h. split_and!.
  - unfold Framer_prepare_data_frame. cbn [mbind outcome_bind bool_decide andb fmap option_fmap option_map].
    rewrite bool_decide_false by (by intros [? ?]). cbn [andb]. fold h.
    rewrite (get_from_app [b0; b1] psdu) by done. rewrite (Header_encode_writes h true [] Hh psdu Hp). done.
  - unfold frame_ok, secured_length, PSDU_OFFSET, MFR_SIZE. cbn [info frame_buf data_offset data_len info_mic_len].
    rewrite Hlen. pose proof (zlen_nonneg hb). unfold zlen in *. cbn [length] in *. lia.
  - done.
  - done.
  - done.
  - done.
  - done.
  - cbn [frame_buf]. change (take 2 (b0 :: b1 :: psdu)) with [b0; b1].
    replace (Z.to_nat (PSDU_OFFSET + zlen hb)) with (S (S (length hb))) by (unfold PSDU_OFFSET, zlen; lia).
    cbn [take firstn]. by rewrite take_app_length.
  - done.
  - done.
  - done.
  - intros unsecured. by apply (Header_decode_reads unsecured h true []).
Qed.

#[export] Instance Framer_device_laws : MacDeviceLaws Framer :=
  {| device_ok := λ _, True; prepare_law := λ d buf dp da sp sa _, Framer_prepares d buf dp da sp sa |}.
