(* ===== verification/FramerState.v ===== *)
(** * The pipelines of the 802.15.4 framer (capsules/extra/src/ieee802154/framer.rs, mac.rs)

    The transmission and the reception state machine of [Framer], the callbacks
    that drive them, and the address filter of [AwakeMac].  Buffers have an
    identity, so that one can ask where each of them is; the radio and the
    encryption engine are not code of this layer, and what they answer is an
    argument. *)

From S2P Require Import Prelude Bytes Syscall NetStream Ieee802154 Ieee802154Theorems Framer.

(** ** State *)

(** A buffer with its identity: the reference is moved, the bytes change. *)
Record Buffer := mkBuffer { buf_id : Z; buf_bytes : list Z }.

Inductive TxPipe : Type :=
| TxIdle
| ReadyToEncrypt (i : FrameInfo) (b : Buffer)
| Encrypting (i : FrameInfo)
| ReadyToTransmit (i : FrameInfo) (b : Buffer).

Inductive RxPipe : Type :=
| RxIdle
| ReadyToDecrypt (i : FrameInfo) (b : Buffer)
| Decrypting (i : FrameInfo)
| ReadyToYield (i : FrameInfo) (b : Buffer).

(** The cells of [Framer] that the pipelines change; the clients are set. *)
Record Pipes := mkPipes {
  framer : Framer;
  tx_pipe : TxPipe;
  rx_pipe : RxPipe;
  crypt_buf : option Buffer
}.

Definition set_tx_pipe (self : Pipes) (s : TxPipe) : Pipes := mkPipes (framer self) s (rx_pipe self) (crypt_buf self).
Definition set_rx_pipe (self : Pipes) (s : RxPipe) : Pipes := mkPipes (framer self) (tx_pipe self) s (crypt_buf self).
Definition set_crypt_buf (self : Pipes) (b : option Buffer) : Pipes := mkPipes (framer self) (tx_pipe self) (rx_pipe self) b.

(** What the framer does: it hands a frame to the radio, returns a receive buffer
    to it, starts the engine (with the offsets and lengths of [crypt], the flag
    [confidential] and the flag [encrypting]), returns a buffer to the client,
    shows a frame to the client. *)
Inductive PipeEvent : Type :=
| RadioTransmit (b : Buffer) (len : Z)
| SetReceiveBuffer (b : Buffer)
| Crypt (b : Buffer) (a_off m_off m_len mic : Z) (confidential encrypting : bool)
| TxSendDone (b : Buffer) (acked : bool) (r : result unit ErrorCode)
| RxReceive (bytes : list Z) (h : Header) (offset len : Z).

(** What the other side answers in a call, if it is asked: the error of
    [mac.transmit], whether key and nonce were taken, the error of [crypt].  With
    an error it returns the buffer it was given. *)
Record Answers := mkAnswers { a_transmit : option ErrorCode; a_setup : bool; a_crypt : option ErrorCode }.

(** ** The transmission pipeline *)

Definition outgoing_frame_security (b : Buffer) (i : FrameInfo) : TxPipe :=
  match security_params i with
  | Some (level, _, _) => if bool_decide (level = LevelNone) then ReadyToTransmit i b else ReadyToEncrypt i b
  | None => ReadyToTransmit i b
  end.

Definition PipeResult : Type := result unit (ErrorCode * Buffer).

Definition step_transmit_state (a : Answers) (self : Pipes) : outcome (PipeResult * Pipes * list PipeEvent) :=
  match tx_pipe self with
  | TxIdle => Ret (Ok tt, self, [])
  | ReadyToEncrypt i b =>
      match security_params i with
      | None => Ret (Err (FAIL, b), set_tx_pipe self TxIdle, [])
      | Some (level, key, nonce) =>
          '(m_off, m_len) ← ccm_encrypt_ranges i;
          if negb (a_setup a) then Ret (Err (FAIL, b), set_tx_pipe self TxIdle, [])
          else
            match a_crypt a with
            | None =>
                Ret (Ok tt, set_tx_pipe self (Encrypting i),
                     [Crypt b PSDU_OFFSET (PSDU_OFFSET + m_off) m_len (info_mic_len i) (encryption_needed level) true])
            | Some BUSY => Ret (Ok tt, self, [])
            | Some e => Ret (Err (e, b), set_tx_pipe self TxIdle, [])
            end
      end
  | Encrypting _ => Ret (Ok tt, self, [])
  | ReadyToTransmit i b =>
      match a_transmit a with
      | Some BUSY => Ret (Ok tt, self, [])
      | None => Ret (Ok tt, set_tx_pipe self TxIdle, [RadioTransmit b (secured_length i)])
      | Some e => Ret (Err (e, b), set_tx_pipe self TxIdle, [])
      end
  end.

(** [MacDevice::transmit]. *)
Definition Framer_transmit (a : Answers) (self : Pipes) (b : Buffer) (i : FrameInfo) : outcome (PipeResult * Pipes * list PipeEvent) :=
  match tx_pipe self with
  | TxIdle => step_transmit_state a (set_tx_pipe self (outgoing_frame_security b i))
  | _ => Ret (Err (BUSY, b), self, [])
  end.

(** The buffer of a failed step goes back to the client. *)
Definition abort_to_client (r : PipeResult) : list PipeEvent :=
  match r with Ok _ => [] | Err (e, b) => [TxSendDone b false (Err e)] end.

(** [radio::TxClient::send_done]. *)
Definition Framer_send_done {Pr : Profile} (self : Pipes) (b : Buffer) (acked : bool) (r : result unit ErrorCode) : outcome (Pipes * list PipeEvent) :=
  n ← narrow_add 256 overflow_checks (data_sequence (framer self)) 1;
  let f := framer self in
  let f := mkFramer n (address_long f) (key_procedure f) (device_procedure f) in
  Ret (mkPipes f (tx_pipe self) (rx_pipe self) (crypt_buf self), [TxSendDone b acked r]).

(** [ConfigClient::config_done]. *)
Definition config_done (a : Answers) (self : Pipes) : outcome (Pipes * list PipeEvent) :=
  '(r, self, ev) ← step_transmit_state a self; Ret (self, ev ++ abort_to_client r).

(** ** The reception pipeline *)

(** [incoming_frame_security], with what it does to the radio and the client. *)
Definition incoming (self : Framer) (b : Buffer) (frame_len : Z) : outcome (RxPipe * list PipeEvent) :=
  i ← incoming_frame_security self (buf_bytes b) frame_len;
  Ret (match i with
       | Dropped => (RxIdle, [SetReceiveBuffer b])
       | Yielded h offset len => (RxIdle, [RxReceive (buf_bytes b) h offset len; SetReceiveBuffer b])
       | Secured i => (ReadyToDecrypt i b, [])
       end).

(** The copy of a frame into the buffer for the engine. *)
Definition copy_to_crypt (c b : Buffer) : outcome Buffer :=
  bytes ← copy_at (buf_bytes c) 0 (buf_bytes b); Ret (mkBuffer (buf_id c) bytes).

Definition step_receive_state (a : Answers) (self : Pipes) : outcome (Pipes * list PipeEvent) :=
  match rx_pipe self with
  | RxIdle => Ret (self, [])
  | ReadyToDecrypt i b =>
      match security_params i with
      | None => Ret (set_rx_pipe self RxIdle, [])
      | Some (level, key, nonce) =>
          '(m_off, m_len) ← ccm_encrypt_ranges i;
          if negb (a_setup a) then Ret (set_rx_pipe self RxIdle, [SetReceiveBuffer b])
          else
            match crypt_buf self with
            | None => Ret (set_rx_pipe self RxIdle, [SetReceiveBuffer b])
            | Some c =>
                c ← copy_to_crypt c b;
                match a_crypt a with
                | None =>
                    Ret (set_rx_pipe (set_crypt_buf self None) (Decrypting i),
                         [Crypt c PSDU_OFFSET (PSDU_OFFSET + m_off) m_len (info_mic_len i) (encryption_needed level) true;
                          SetReceiveBuffer b])
                | Some BUSY => Ret (set_rx_pipe (set_crypt_buf self None) (ReadyToDecrypt i c), [])
                | Some _ => Ret (set_rx_pipe (set_crypt_buf self (Some c)) RxIdle, [SetReceiveBuffer b])
                end
            end
      end
  | Decrypting _ => Ret (self, [])
  | ReadyToYield i b =>
      match get_from (buf_bytes b) PSDU_OFFSET with
      | None => Panic
      | Some psdu =>
          r ← Header_decode true psdu;
          match r with
          | Done (off, (h, _)) =>
              len ← usub (unsecured_length i) off;
              Ret (set_rx_pipe (set_crypt_buf self (Some b)) RxIdle, [RxReceive (buf_bytes b) h (PSDU_OFFSET + off) len])
          | _ => Ret (set_rx_pipe self RxIdle, [])
          end
      end
  end.

(** [radio::RxClient::receive]. *)
Definition Framer_receive (a : Answers) (self : Pipes) (b : Buffer) (frame_len : Z) (crc_valid : bool) : outcome (Pipes * list PipeEvent) :=
  if negb crc_valid then Ret (self, [SetReceiveBuffer b])
  else
    '(s, ev) ← match rx_pipe self with
               | RxIdle => incoming (framer self) b frame_len
               | other => Ret (other, [SetReceiveBuffer b])
               end;
    '(self, ev') ← step_receive_state a (set_rx_pipe self s);
    Ret (self, ev ++ ev').

(** [CCMClient::crypt_done]: whose operation it was is told from the state of the
    transmission pipeline. *)
Definition crypt_done (a : Answers) (self : Pipes) (b : Buffer) (res : result unit ErrorCode) (tag_is_valid : bool)
    : outcome (Pipes * list PipeEvent) :=
  match tx_pipe self with
  | Encrypting i =>
      '(r, self, ev) ←
        match res with
        | Err e => Ret (Err (e, b), set_tx_pipe self TxIdle, [])
        | Ok _ => step_transmit_state a (set_tx_pipe self (ReadyToTransmit i b))
        end;
      Ret (self, ev ++ abort_to_client r)
  | other =>
      let tx_waiting := match other with ReadyToEncrypt _ _ => true | _ => false end in
      '(rx_waiting, self, ev) ←
        match rx_pipe self with
        | Decrypting i =>
            let self := if (tag_is_valid : bool) then set_rx_pipe self (ReadyToYield i b)
                        else set_rx_pipe (set_crypt_buf self (Some b)) RxIdle in
            '(self, ev) ← step_receive_state a self; Ret (false, self, ev)
        | ReadyToDecrypt _ _ => Ret (true, self, [])
        | _ => Ret (false, self, [])
        end;
      if tx_waiting then
        '(r, self, ev') ← step_transmit_state a self; Ret (self, ev ++ ev' ++ abort_to_client r)
      else if (rx_waiting : bool) then '(self, ev') ← step_receive_state a self; Ret (self, ev ++ ev')
      else Ret (self, ev)
  end.

(** [AwakeMac]: whether a frame is passed to the framer or its buffer returned to
    the radio, by the destination of its header. *)
Definition AwakeMac_receive (address : Z) (address_long : list Z) (bytes : list Z) : outcome bool :=
  match get_from bytes PSDU_OFFSET with
  | None => Panic
  | Some psdu =>
      r ← Header_decode false psdu;
      Ret (match r with
           | Done (_, (h, _)) =>
               match dst_addr h with
               | Some (Short a) => a =? address
               | Some (Long l) => bool_decide (l = address_long)
               | None => false
               end
           | _ => false
           end)
  end.
