(* ===== verification/FramerTheorems.v ===== *)
(** * The framer keeps the buffers of its client

    The framer together with its client, the radio and the encryption engine as a
    transition system over the identities of the transmit buffers: each of them
    is always in exactly one place.  What becomes of receive buffers, and how the
    busy engine loses one. *)

From stdpp Require Import relations.
From S2P Require Import Prelude Bytes Syscall NetStream Ieee802154 Ieee802154Theorems Framer FramerState.

(** ** The framer among its neighbours *)

(** The buffers at the client, those at the radio for transmission, and the
    buffer in the engine. *)
Record Sys := mkSys { pipes : Pipes; at_client : list Z; at_radio : list Z; engine : option Z }.

Definition to_client (r : PipeResult) : list Z := match r with Ok _ => [] | Err (_, b) => [buf_id b] end.

(** An event moves a transmit buffer, or starts the engine. *)
Definition moved_to_client (e : PipeEvent) : list Z := match e with TxSendDone b _ _ => [buf_id b] | _ => [] end.
Definition moved_to_radio (e : PipeEvent) : list Z := match e with RadioTransmit b _ => [buf_id b] | _ => [] end.
Definition started (e : PipeEvent) : option Z := match e with Crypt b _ _ _ _ _ _ => Some (buf_id b) | _ => None end.

Definition after (s : Sys) (p : Pipes) (back : list Z) (ev : list PipeEvent) : Sys :=
  mkSys p (at_client s ++ back ++ (ev ≫= moved_to_client)) (at_radio s ++ (ev ≫= moved_to_radio))
    (match omap started ev with id :: _ => Some id | [] => engine s end).

(** The engine takes a buffer only when it has none. *)
Definition answers_ok (engine : option Z) (a : Answers) : Prop := is_Some engine → a_crypt a ≠ None.

(** The calls: of the client, of the radio, and of the engine. *)
Inductive step {Pr : Profile} : Sys → Sys → Prop :=
| step_client_transmits s a b i rest r p ev : Permutation (at_client s) (buf_id b :: rest) → answers_ok (engine s) a →
    Framer_transmit a (pipes s) b i = Ret (r, p, ev) →
    step s (after (mkSys (pipes s) rest (at_radio s) (engine s)) p (to_client r) ev)
| step_radio_done s b rest acked r p ev : Permutation (at_radio s) (buf_id b :: rest) →
    Framer_send_done (pipes s) b acked r = Ret (p, ev) →
    step s (after (mkSys (pipes s) (at_client s) rest (engine s)) p [] ev)
| step_radio_receives s a b len crc p ev : answers_ok (engine s) a →
    Framer_receive a (pipes s) b len crc = Ret (p, ev) → step s (after s p [] ev)
| step_configured s a p ev : answers_ok (engine s) a →
    config_done a (pipes s) = Ret (p, ev) → step s (after s p [] ev)
| step_engine_done s a b res valid p ev : engine s = Some (buf_id b) →
    crypt_done a (pipes s) b res valid = Ret (p, ev) →
    step s (after (mkSys (pipes s) (at_client s) (at_radio s) None) p [] ev).

(** The transmit buffers that the pipeline answers for. *)
Definition in_pipe (t : TxPipe) (engine : option Z) : list Z :=
  match t with
  | TxIdle => []
  | ReadyToEncrypt _ b | ReadyToTransmit _ b => [buf_id b]
  | Encrypting _ => option_list engine
  end.

Definition encrypting (t : TxPipe) : bool := match t with Encrypting _ => true | _ => false end.
Definition decrypting (r : RxPipe) : bool := match r with Decrypting _ => true | _ => false end.

(** Every buffer is in one place, and the engine works for exactly one pipeline. *)
Record conserved (all : list Z) (s : Sys) : Prop := {
  cv_buffers : Permutation (at_client s ++ at_radio s ++ in_pipe (tx_pipe (pipes s)) (engine s)) all;
  cv_engine : is_Some (engine s) ↔ encrypting (tx_pipe (pipes s)) || decrypting (rx_pipe (pipes s)) = true;
  cv_one : encrypting (tx_pipe (pipes s)) && decrypting (rx_pipe (pipes s)) = false
}.

(** A step of the transmission pipeline, from the state [t] it was put into. *)
Record tx_stepped (a : Answers) (t : TxPipe) (self p : Pipes) (en : option Z) (r : PipeResult) (ev : list PipeEvent) : Prop := {
  ts_rx : rx_pipe p = rx_pipe self;
  ts_buffers : Permutation (to_client r ++ (ev ≫= moved_to_client) ++ (ev ≫= moved_to_radio) ++
                 in_pipe (tx_pipe p) (match omap started ev with id :: _ => Some id | [] => en end)) (in_pipe t en);
  ts_engine : omap started ev = [] ∧ (encrypting (tx_pipe p) = encrypting t) ∨
              (∃ id, omap started ev = [id]) ∧ encrypting (tx_pipe p) = true ∧ encrypting t = false ∧ a_crypt a = None
}.

Lemma tx_step_ok a self en r p ev : step_transmit_state a self = Ret (r, p, ev) → tx_stepped a (tx_pipe self) self p en r ev.
Proof.
  unfold step_transmit_state. intros H.
  destruct (tx_pipe self) as [|i b|i|i b] eqn:E; simplify_eq/=.
  - split; cbn; rewrite ?E; cbn; auto.
  - destruct (security_params i) as [[[lvl key] nonce]|]; [|simplify_eq; by split; cbn; auto].
    apply outcome_bind_Ret in H as ([m_off m_len] & _ & H). destruct (negb (a_setup a)); [simplify_eq; by split; cbn; auto|].
    destruct (a_crypt a) as [[]|] eqn:Ea; simplify_eq; split; cbn; rewrite ?E; cbn; eauto.
    right. eauto.
  - split; cbn; rewrite ?E; cbn; auto.
  - destruct (a_transmit a) as [[]|]; simplify_eq; split; cbn; rewrite ?E; cbn; auto.
Qed.

(** A step of the reception pipeline does not touch transmit buffers. *)
Record rx_stepped (a : Answers) (self p : Pipes) (ev : list PipeEvent) : Prop := {
  rs_tx : tx_pipe p = tx_pipe self;
  rs_moved : (ev ≫= moved_to_client) = [] ∧ (ev ≫= moved_to_radio) = [];
  rs_engine : omap started ev = [] ∧ decrypting (rx_pipe p) = decrypting (rx_pipe self) ∨
              (∃ id, omap started ev = [id]) ∧ decrypting (rx_pipe p) = true ∧ decrypting (rx_pipe self) = false ∧ a_crypt a = None
}.

Lemma rx_step_ok a self p ev : step_receive_state a self = Ret (p, ev) → rx_stepped a self p ev.
Proof.
  unfold step_receive_state. intros H.
  destruct (rx_pipe self) as [|i b|i|i b] eqn:E; simplify_eq/=.
  - split; rewrite ?E; auto.
  - destruct (security_params i) as [[[lvl key] nonce]|]; [|simplify_eq; split; cbn; rewrite ?E; auto].
    apply outcome_bind_Ret in H as ([m_off m_len] & _ & H). destruct (negb (a_setup a)); [simplify_eq; split; cbn; rewrite ?E; auto|].
    destruct (crypt_buf self) as [c|]; [|simplify_eq; split; cbn; rewrite ?E; auto].
    apply outcome_bind_Ret in H as (c' & _ & H). destruct (a_crypt a) as [[]|] eqn:Ea; simplify_eq; split; cbn; rewrite ?E; auto.
    right. eauto.
  - split; rewrite ?E; auto.
  - destruct (get_from _ _) as [psdu|]; [|done]. apply outcome_bind_Ret in H as (x & _ & H).
    destruct x as [[off [h m]]| |]; simplify_eq; [|split; cbn; rewrite ?E; auto..].
    apply outcome_bind_Ret in H as (len & _ & H). simplify_eq. split; cbn; rewrite ?E; auto.
Qed.

Lemma incoming_ok f b len st ev : incoming f b len = Ret (st, ev) →
  decrypting st = false ∧ (ev ≫= moved_to_client) = [] ∧ (ev ≫= moved_to_radio) = [] ∧ omap started ev = [].
Proof. unfold incoming. intros H. apply outcome_bind_Ret in H as (i & _ & H). by destruct i; simplify_eq. Qed.

(** ** Each call keeps the buffers *)

Section Calls.
Context (all : list Z) (s : Sys).

(** A step of the transmission pipeline behind a change of its state. *)
Lemma conserved_tx a client (self p : Pipes) en r ev back :
  rx_pipe self = rx_pipe (pipes s) → tx_stepped a (tx_pipe self) self p en r ev → answers_ok en a →
  (is_Some en ↔ encrypting (tx_pipe self) || decrypting (rx_pipe self) = true) →
  encrypting (tx_pipe self) && decrypting (rx_pipe self) = false →
  Permutation (back ++ (ev ≫= moved_to_client)) (to_client r ++ (ev ≫= moved_to_client)) →
  Permutation (client ++ at_radio s ++ in_pipe (tx_pipe self) en) all →
  conserved all (after (mkSys (pipes s) client (at_radio s) en) p back ev).
Proof.
  intros Hrx [Hr Hb He] Ha Hen Hone Hback Hperm. split; unfold after; cbn [pipes at_client at_radio engine].
  - rewrite <- Hperm, <- Hb. rewrite Hback. solve_Permutation.
  - rewrite Hr. destruct He as [(-> & ->)|((id & ->) & -> & Hf & Hc)]; [done|]. by split; eauto.
  - rewrite Hr. destruct He as [(_ & ->)|(_ & -> & Hf & Hc)]; [done|]. cbn [andb].
    destruct (decrypting (rx_pipe self)) eqn:E; [|done]. rewrite Hf in Hen. destruct (Ha (proj2 Hen eq_refl) Hc).
Qed.

(** A step of the reception pipeline. *)
Lemma conserved_rx a (self p : Pipes) en ev :
  tx_pipe self = tx_pipe (pipes s) → rx_stepped a self p ev → answers_ok en a →
  (is_Some en ↔ encrypting (tx_pipe self) || decrypting (rx_pipe self) = true) →
  encrypting (tx_pipe self) && decrypting (rx_pipe self) = false →
  Permutation (at_client s ++ at_radio s ++ in_pipe (tx_pipe self) en) all →
  conserved all (after (mkSys (pipes s) (at_client s) (at_radio s) en) p [] ev).
Proof.
  intros Htx [Ht [Hc Hr] He] Ha Hen Hone Hperm. split; unfold after; cbn [pipes at_client at_radio engine]; rewrite ?Hc, ?Hr, Ht.
  - rewrite !app_nil_r. destruct He as [(-> & _)|((id & ->) & _ & Hd & Hn)]; [done|].
    destruct (tx_pipe self) eqn:E; try done. destruct (Ha (proj2 Hen eq_refl) Hn).
  - destruct He as [(-> & ->)|((id & ->) & -> & _)]; [done|]. by rewrite orb_true_r; split; eauto.
  - destruct He as [(_ & ->)|(_ & -> & Hd & Hn)]; [done|]. rewrite andb_true_r.
    destruct (encrypting (tx_pipe self)); [|done]. destruct (Ha (proj2 Hen eq_refl) Hn).
Qed.
End Calls.

Lemma abort_moves r : (abort_to_client r ≫= moved_to_client) = to_client r ∧ (abort_to_client r ≫= moved_to_radio) = [] ∧
  omap started (abort_to_client r) = [].
Proof. by destruct r as [|[]]. Qed.

Lemma after_abort s p ev r : after s p [] (ev ++ abort_to_client r) =
  mkSys p (at_client s ++ (ev ≫= moved_to_client) ++ to_client r) (at_radio s ++ (ev ≫= moved_to_radio))
    (match omap started ev with id :: _ => Some id | [] => engine s end).
Proof.
  destruct (abort_moves r) as (H1 & H2 & H3). unfold after. rewrite !bind_app, H1, H2, omap_app, H3, !app_nil_r. done.
Qed.

Lemma conserved_abort all s p ev r : conserved all (after s p (to_client r) ev) → conserved all (after s p [] (ev ++ abort_to_client r)).
Proof.
  rewrite after_abort. intros [Hb He Ho]. split; [|done..]. rewrite <- Hb. unfold after. cbn [at_client at_radio engine pipes]. solve_Permutation.
Qed.

(** The two kinds of steps one after the other. *)
Lemma after_app s p1 p2 ev1 ev2 : omap started ev1 = [] →
  after (after s p1 [] ev1) p2 [] ev2 = after s p2 [] (ev1 ++ ev2).
Proof. intros H. unfold after. cbn [at_client at_radio engine]. rewrite !bind_app, omap_app, H, !app_nil_l, <- !app_assoc. done. Qed.

Lemma sys_eta s : mkSys (pipes s) (at_client s) (at_radio s) (engine s) = s.
Proof. by destruct s. Qed.

Lemma outgoing_pipe b i en : in_pipe (outgoing_frame_security b i) en = [buf_id b] ∧ encrypting (outgoing_frame_security b i) = false.
Proof. unfold outgoing_frame_security. destruct (security_params i) as [[[lvl ?] ?]|]; [case_bool_decide|]; done. Qed.

Lemma transmit_conserves all s a b i rest r p ev : conserved all s → Permutation (at_client s) (buf_id b :: rest) → answers_ok (engine s) a →
  Framer_transmit a (pipes s) b i = Ret (r, p, ev) →
  conserved all (after (mkSys (pipes s) rest (at_radio s) (engine s)) p (to_client r) ev).
Proof.
  intros Hs Hp Ha H. pose proof Hs as [Hb He Ho]. rewrite Hp in Hb. unfold Framer_transmit in H.
  assert (Hbusy : (r, p, ev) = (Err (BUSY, b), pipes s, []) → conserved all (after (mkSys (pipes s) rest (at_radio s) (engine s)) p (to_client r) ev)).
  { intros [= -> -> ->]. split; unfold after; cbn [pipes at_client at_radio engine omap list_omap mbind list_bind to_client]; [|done..].
    rewrite <- Hb, !app_nil_r. solve_Permutation. }
  destruct (tx_pipe (pipes s)) eqn:E; try (apply Hbusy; congruence).
  destruct (outgoing_pipe b i (engine s)) as [Hip Hen]. cbn [in_pipe encrypting] in Hb, He, Ho.
  eapply (conserved_tx all s a rest); [|by eapply tx_step_ok|done|..]; cbn [set_tx_pipe rx_pipe tx_pipe]; rewrite ?Hen, ?Hip; try done.
  rewrite <- Hb, app_nil_r. solve_Permutation.
Qed.

Lemma receive_conserves all s a b len crc p ev : conserved all s → answers_ok (engine s) a →
  Framer_receive a (pipes s) b len crc = Ret (p, ev) → conserved all (after s p [] ev).
Proof.
  intros Hs Ha H. unfold Framer_receive in H. destruct crc; cbn [negb] in H.
  2:{ simplify_eq. destruct Hs as [Hb He Ho]. split; unfold after; cbn; rewrite ?app_nil_r; done. }
  apply outcome_bind_Ret in H as ([st ev1] & H1 & H). apply outcome_bind_Ret in H as ([p1 ev2] & H2 & H). injection H as <- <-.
  assert (Hst : decrypting st = decrypting (rx_pipe (pipes s)) ∧ (ev1 ≫= moved_to_client) = [] ∧ (ev1 ≫= moved_to_radio) = [] ∧ omap started ev1 = []).
  { destruct (rx_pipe (pipes s)) eqn:E; try (injection H1 as <- <-; by repeat split). by apply incoming_ok in H1. }
  destruct Hst as (Hd & Hc & Hr & Hst). rewrite <- (after_app s (set_rx_pipe (pipes s) st)) by done.
  assert (Hsame : after s (set_rx_pipe (pipes s) st) [] ev1 = mkSys (set_rx_pipe (pipes s) st) (at_client s) (at_radio s) (engine s)).
  { unfold after. by rewrite Hc, Hr, Hst, !app_nil_r. }
  rewrite Hsame. destruct Hs as [Hb He Ho].
  apply (conserved_rx all (mkSys (set_rx_pipe (pipes s) st) (at_client s) (at_radio s) (engine s))) with (a := a) (self := set_rx_pipe (pipes s) st);
    cbn [set_rx_pipe rx_pipe tx_pipe pipes at_client at_radio]; rewrite ?Hd; try done.
  by eapply rx_step_ok.
Qed.

Lemma configured_conserves all s a p ev : conserved all s → answers_ok (engine s) a → config_done a (pipes s) = Ret (p, ev) →
  conserved all (after s p [] ev).
Proof.
  intros Hs Ha H. apply outcome_bind_Ret in H as ([[r p1] ev1] & H & [= <- <-]). apply conserved_abort. rewrite <- (sys_eta s).
  destruct Hs as [Hb He Ho]. eapply (conserved_tx all s); try done. by eapply tx_step_ok.
Qed.

(** From these states the reception pipeline does not start the engine. *)
Lemma rx_step_quiet a self p ev : (∀ i b, rx_pipe self ≠ ReadyToDecrypt i b) → step_receive_state a self = Ret (p, ev) → omap started ev = [].
Proof.
  unfold step_receive_state. intros Hn H. destruct (rx_pipe self) as [|i b|i|i b]; simplify_eq/=; [done|by destruct (Hn i b)|done|].
  destruct (get_from _ _) as [psdu|]; [|done]. apply outcome_bind_Ret in H as (x & _ & H).
  destruct x as [[off [h m]]| |]; simplify_eq; [|done..]. apply outcome_bind_Ret in H as (len & _ & H). by simplify_eq.
Qed.

(** The end of an operation for the reception pipeline. *)
Lemma decrypted_conserves all s a b i valid p ev : conserved all s → engine s = Some (buf_id b) →
  encrypting (tx_pipe (pipes s)) = false →
  step_receive_state a (if (valid : bool) then set_rx_pipe (pipes s) (ReadyToYield i b)
                        else set_rx_pipe (set_crypt_buf (pipes s) (Some b)) RxIdle) = Ret (p, ev) →
  conserved all (after (mkSys (pipes s) (at_client s) (at_radio s) None) p [] ev) ∧ tx_pipe p = tx_pipe (pipes s) ∧ omap started ev = [].
Proof.
  intros [Hb He Ho] Hen Hne H. pose proof (rx_step_ok _ _ _ _ H) as Hr.
  split; [|split; [destruct Hr as [-> _ _]; by destruct valid|eapply rx_step_quiet; [|exact H]; by destruct valid]].
  assert (Hp : Permutation (at_client s ++ at_radio s ++ in_pipe (tx_pipe (pipes s)) None) all) by (destruct (tx_pipe (pipes s)); done).
  destruct valid; (eapply (conserved_rx all s); [|exact Hr|..]); cbn [set_rx_pipe set_crypt_buf rx_pipe tx_pipe]; rewrite ?Hne; try done;
    (by intros [? ?]) || (split; [by intros [? ?]|done]).
Qed.

Lemma engine_done_conserves all s a b res valid p ev : conserved all s → engine s = Some (buf_id b) →
  crypt_done a (pipes s) b res valid = Ret (p, ev) → conserved all (after (mkSys (pipes s) (at_client s) (at_radio s) None) p [] ev).
Proof.
  intros Hs Hen H. pose proof Hs as [Hb He Ho]. unfold crypt_done in H. destruct (encrypting (tx_pipe (pipes s))) eqn:Et.
  - destruct (tx_pipe (pipes s)) as [| |i|] eqn:E; try done. cbn [andb] in Ho. rewrite Hen in Hb. cbn [in_pipe option_list] in Hb.
    apply outcome_bind_Ret in H as ([[r p1] ev1] & H & [= <- <-]). apply conserved_abort. destruct res as [|e].
    + eapply (conserved_tx all s a (at_client s)); [|by eapply tx_step_ok|..]; cbn [set_tx_pipe rx_pipe tx_pipe encrypting]; rewrite ?Ho; try done.
      by intros [? ?].
    + injection H as <- <- <-. split; unfold after; cbn; rewrite ?Ho.
      * rewrite !app_nil_r. rewrite <- Hb. solve_Permutation.
      * split; [by intros [? ?]|done].
      * done.
  - assert (Hd : decrypting (rx_pipe (pipes s)) = true) by (apply He; by rewrite Hen).
    destruct (rx_pipe (pipes s)) as [| |i|] eqn:Er; try done.
    assert (Hrx : ∃ p1 ev1, step_receive_state a (if valid then set_rx_pipe (pipes s) (ReadyToYield i b)
                        else set_rx_pipe (set_crypt_buf (pipes s) (Some b)) RxIdle) = Ret (p1, ev1) ∧
      ((p, ev) = (p1, ev1) ∨ ∃ r ev2, step_transmit_state a p1 = Ret (r, p, ev2) ∧ ev = ev1 ++ ev2 ++ abort_to_client r)).
    { destruct (tx_pipe (pipes s)); try done; apply outcome_bind_Ret in H as ([[rw p1] ev1] & H1 & H);
        apply outcome_bind_Ret in H1 as ([p2 ev2] & H1 & [= <- <- <-]); exists p2, ev2; (split; [done|]); [by left; simplify_eq| |by left; simplify_eq].
      apply outcome_bind_Ret in H as ([[r p3] ev3] & H & [= <- <-]). right. by exists r, ev3. }
    destruct Hrx as (p1 & ev1 & H1 & Hcase). destruct (decrypted_conserves all s a b i valid p1 ev1 Hs Hen Et H1) as (Hc & Htx & Hq).
    destruct Hcase as [[= -> ->]|(r & ev2 & H2 & ->)]; [done|]. rewrite <- (after_app _ p1) by done.
    apply conserved_abort. set (s1 := after _ p1 [] ev1) in *. rewrite <- (sys_eta s1). destruct Hc as [Hb1 He1 Ho1].
    eapply (conserved_tx all s1); try done; [by eapply tx_step_ok|].
    intros [id Hid]. subst s1. unfold after in Hid. cbn [engine] in Hid. by rewrite Hq in Hid.
Qed.

Lemma step_conserves {Pr : Profile} all s s' : conserved all s → step s s' → conserved all s'.
Proof.
  intros Hs H. destruct H.
  - by eapply transmit_conserves.
  - apply outcome_bind_Ret in H0 as (n & _ & [= <- <-]). destruct Hs as [Hb He Ho]. split; unfold after; cbn; [|done..].
    rewrite <- Hb. rewrite H, app_nil_r. solve_Permutation.
  - by eapply receive_conserves.
  - by eapply configured_conserves.
  - by eapply engine_done_conserves.
Qed.

(** C18.  Transmit buffers are neither lost nor duplicated.  From the idle framer, over
    every sequence of calls of the client, of the radio (frames received included)
    and of the encryption engine, whatever they answer as long as the busy engine
    takes no second buffer: the buffers at the client, at the radio and in the
    pipeline are those that the client had, each once; and the engine, which the
    two pipelines share, works for exactly one of them whenever it is busy, so
    that the end of its operation is credited to the right one. *)
Theorem tx_buffers_conserved {Pr : Profile} (all : list Z) (f : Framer) (c : option Buffer) (s : Sys) :
  rtc step (mkSys (mkPipes f TxIdle RxIdle c) all [] None) s →
  Permutation (at_client s ++ at_radio s ++ in_pipe (tx_pipe (pipes s)) (engine s)) all ∧
  (is_Some (engine s) ↔ xorb (encrypting (tx_pipe (pipes s))) (decrypting (rx_pipe (pipes s))) = true).
Proof.
  intros H. assert (Hc : conserved all s).
  { assert (H0 : conserved all (mkSys (mkPipes f TxIdle RxIdle c) all [] None)).
    { split; cbn; [by rewrite !app_nil_r|by split; [intros [? ?]|]|done]. }
    induction H as [|x y z Hxy _ IH]; [done|]. apply IH. by eapply step_conserves. }
  destruct Hc as [Hb He Ho]. split; [done|]. rewrite He. by destruct (encrypting _), (decrypting _).
Qed.

(** ** Receive buffers *)

Definition returned (e : PipeEvent) : list Z := match e with SetReceiveBuffer b => [buf_id b] | _ => [] end.

Lemma step_returns a self i b p ev : rx_pipe self = ReadyToDecrypt i b → is_Some (security_params i) → a_crypt a ≠ Some BUSY →
  step_receive_state a self = Ret (p, ev) → (ev ≫= returned) = [buf_id b].
Proof.
  intros E [[[lvl key] nonce] Hi] Hbusy H. unfold step_receive_state in H. rewrite E, Hi in H.
  apply outcome_bind_Ret in H as ([m_off m_len] & _ & H). destruct (negb (a_setup a)); [by simplify_eq|].
  destruct (crypt_buf self) as [c|]; [|by simplify_eq]. apply outcome_bind_Ret in H as (c' & _ & H).
  destruct (a_crypt a) as [[]|]; by simplify_eq.
Qed.

Lemma secured_has_params f buf len i : incoming_frame_security f buf len = Ret (Secured i) → is_Some (security_params i).
Proof.
  unfold incoming_frame_security. intros H. destruct (get_from _ _); [|done]. apply outcome_bind_Ret in H as (x & _ & H).
  destruct x as [[off [h m]]| |]; [|done..]. apply outcome_bind_Ret in H as (d & _ & H). apply outcome_bind_Ret in H as (l0 & _ & H).
  destruct (security h); [|done]. case_bool_decide; [done|]. destruct (lookup_key _ _ _); [|done]. destruct (lookup_addr_long _ _); [|done].
  destruct (frame_counter _); [|done].
  destruct (_ =? _); [done|]. apply outcome_bind_Ret in H as (n & _ & H). simplify_eq. by eexists.
Qed.

(** A frame received while the pipeline is idle, with an engine that is not busy,
    gives the radio its buffer back, exactly once and in the same call. *)
Lemma receive_returns_buffer a self b len crc p ev : rx_pipe self = RxIdle → a_crypt a ≠ Some BUSY →
  Framer_receive a self b len crc = Ret (p, ev) → (ev ≫= returned) = [buf_id b].
Proof.
  intros E Hbusy H. unfold Framer_receive in H. destruct crc; cbn [negb] in H; [|by simplify_eq]. rewrite E in H.
  apply outcome_bind_Ret in H as ([st ev1] & H1 & H). apply outcome_bind_Ret in H as ([p1 ev2] & H2 & [= <- <-]).
  unfold incoming in H1. apply outcome_bind_Ret in H1 as (x & Hx & [= H1]). rewrite bind_app. destruct x as [|h o l|i]; simplify_eq/=.
  - unfold step_receive_state in H2. cbn [set_rx_pipe rx_pipe] in H2. by simplify_eq.
  - unfold step_receive_state in H2. cbn [set_rx_pipe rx_pipe] in H2. by simplify_eq.
  - eapply step_returns in H2; [exact H2|done|by eapply secured_has_params|done].
Qed.

(** ** Samples *)

Definition sample_pipes : Pipes :=
  mkPipes (mkFramer 3 [1; 2; 3; 4; 5; 6; 7; 8] (Some (λ _ _, Some (replicate 16 7))) (Some (λ _, Some [1; 2; 3; 4; 5; 6; 7; 8])))
    TxIdle RxIdle (Some (mkBuffer 100 (replicate 175 0))).
Definition accepting : Answers := mkAnswers None true None.
Definition engine_busy : Answers := mkAnswers None true (Some BUSY).

(** An encrypted frame of ten bytes in the buffer [id]. *)
Definition secured_frame (id : Z) : option (Buffer * FrameInfo) :=
  match Framer_prepare_data_frame (framer sample_pipes) (replicate 129 0) 1 (Short 2) 1 (Short 3) (Some (EncMic32, KeyIndex 1)) with
  | Ret (Ok f) => match append_payload f (replicate 10 5) with Ret (_, f) => Some (mkBuffer id (frame_buf f), info f) | Panic => None end
  | _ => None
  end.

(** The engine is busy with a frame to send when an encrypted frame arrives: the
    buffer of the radio is dropped and that of the engine waits in its place; the
    next frame makes the framer hand the engine's buffer to the radio. *)
Example busy_engine_loses_buffer :
  (b ← fst <$> secured_frame 9;
   match Framer_receive engine_busy sample_pipes b 39 true with
   | Ret (p, ev) =>
       match Framer_receive accepting p (mkBuffer 10 []) 5 true with
       | Ret (p', ev') => Some (ev ≫= returned, crypt_buf p, ev' ≫= returned, crypt_buf p')
       | Panic => None
       end
   | Panic => None
   end) = Some ([], None, [10; 100], None).
Proof. by vm_compute. Qed.

(** The sequence number is incremented without a bound. *)
Example sequence_overflows b acked r :
  Framer_send_done (Pr := dev) (mkPipes (mkFramer 255 [] None None) TxIdle RxIdle None) b acked r = Panic.
Proof. done. Qed.

(** A secured frame goes through the engine to the radio while another frame is
    received. *)
Definition sample_buffer : Buffer := mkBuffer 7 (replicate 129 0).
Definition sample_info : FrameInfo := mkInfo Data 20 20 10 4 (Some (EncMic32, replicate 16 7, replicate 13 0)).
Definition sample_start : Sys := mkSys sample_pipes [7; 8] [] None.

Lemma sample_trace : ∃ s, rtc (step (Pr := release)) sample_start s ∧ at_client s = [8] ∧ at_radio s = [7].
Proof.
  eexists. split; [|split].
  - eapply rtc_l. { eapply (step_client_transmits _ accepting sample_buffer sample_info [8]); [done|by intros [? ?]|done]. }
    eapply rtc_l. { eapply (step_radio_receives _ engine_busy (mkBuffer 20 (replicate 129 0)) 20 false); [by intros _ ?|done]. }
    eapply rtc_l. { by eapply (step_engine_done _ accepting sample_buffer (Ok tt) true). }
    apply rtc_refl.
  - done.
  - done.
Qed.

Lemma tx_buffers_conserved_witness : ∃ s, at_client s = [8] ∧ at_radio s = [7] ∧
  Permutation (at_client s ++ at_radio s ++ in_pipe (tx_pipe (pipes s)) (engine s)) [7; 8] ∧
  (is_Some (engine s) ↔ xorb (encrypting (tx_pipe (pipes s))) (decrypting (rx_pipe (pipes s))) = true).
Proof.
  destruct sample_trace as (s & Hs & Hc & Hr). exists s. split; [done|]. split; [done|]. exact (tx_buffers_conserved [7; 8] _ _ s Hs).
Defined.
