(* ===== verification/SixlowpanState.v ===== *)
(** * 6LoWPAN fragmentation and reassembly (capsules/extra/src/net/sixlowpan/sixlowpan_state.rs)

    The fragment header, the transmit state that cuts a packet into frames, the
    receive states that put packets together again, and the layer that keeps
    them. *)

From S2P Require Import Prelude Bytes Syscall NetStream Ieee802154 Ipv6 Sixlowpan FragUtils Framer.

Definition FRAG_TIMEOUT : Z := 60.

(** ** Fragment headers *)

Definition FRAGN_HDR : Z := 0xe0.
Definition FRAG1_HDR : Z := 0xc0.
Definition FRAG1_HDR_SIZE : Z := 4.
Definition FRAGN_HDR_SIZE : Z := 5.

(** [set_frag_hdr] on a header of [FRAG1_HDR_SIZE] or [FRAGN_HDR_SIZE] zeros. *)
Definition set_frag_hdr (dgram_size dgram_tag dgram_offset : Z) (hdr : list Z) (is_frag1 : bool) : outcome (list Z) :=
  let mask := if is_frag1 then FRAG1_HDR else FRAGN_HDR in
  hdr ← splice hdr 0 (network_bytes dgram_size);
  b ← index_get hdr 0;
  hdr ← index_set hdr 0 (Z.lor mask (Z.land b (not8 mask)));
  hdr ← splice hdr 2 (network_bytes dgram_tag);
  if is_frag1 then Ret hdr else index_set hdr 4 (as_u8 (dgram_offset / 8)).

(** [network_slice_to_u16(&hdr[lo..lo + 2])]. *)
Definition slice_u16 (hdr : list Z) (lo : Z) : outcome Z :=
  match get_range hdr lo (lo + 2) with Some s => network_slice_to_u16 s | None => Panic end.

(** [!(0xf << 12)] on [u16]. *)
Definition SIZE_MASK : Z := 0x0fff.

Definition get_frag_hdr (hdr : list Z) : outcome (bool * Z * Z * Z) :=
  b ← index_get hdr 0;
  let is_frag1 := Z.land b FRAGN_HDR =? FRAG1_HDR in
  size ← slice_u16 hdr 0;
  tag ← slice_u16 hdr 2;
  offset ← (if is_frag1 then Ret 0 else index_get hdr 4);
  Ret (is_frag1, Z.land size SIZE_MASK, tag, offset * 8).

Definition is_fragment (packet : list Z) : outcome bool :=
  b ← index_get packet 0;
  let mask := Z.land b FRAGN_HDR in
  Ret ((mask =? FRAGN_HDR) || (mask =? FRAG1_HDR)).

(** ** Transmission *)

(** [TxState], without the reference to the layer; [tx_tag] stands for that
    layer's [tx_dgram_tag], which the first fragment of a packet increments. *)
Record TxState := mkTx {
  tx_dst_pan : Z;
  tx_src_pan : Z;
  tx_src_mac : MacAddress;
  tx_dst_mac : MacAddress;
  tx_security : option (SecurityLevel * KeyId);
  tx_dgram_tag : Z;
  tx_dgram_size : Z;
  tx_dgram_offset : Z;
  tx_busy : bool
}.

Definition TxState_new : TxState := mkTx 0 0 (Short 0) (Short 0) None 0 0 0 false.

Definition set_tx_busy (self : TxState) (b : bool) : TxState :=
  mkTx (tx_dst_pan self) (tx_src_pan self) (tx_src_mac self) (tx_dst_mac self) (tx_security self) (tx_dgram_tag self)
    (tx_dgram_size self) (tx_dgram_offset self) b.
Definition set_tx_dgram (self : TxState) (tag size : Z) : TxState :=
  mkTx (tx_dst_pan self) (tx_src_pan self) (tx_src_mac self) (tx_dst_mac self) (tx_security self) tag
    size (tx_dgram_offset self) (tx_busy self).
Definition set_tx_offset (self : TxState) (offset : Z) : TxState :=
  mkTx (tx_dst_pan self) (tx_src_pan self) (tx_src_mac self) (tx_dst_mac self) (tx_security self) (tx_dgram_tag self)
    (tx_dgram_size self) offset (tx_busy self).

Definition TxState_init (self : TxState) (src_mac dst_mac : MacAddress) (radio_pan : Z) (security : option (SecurityLevel * KeyId))
    : result unit ErrorCode * TxState :=
  if tx_busy self then (Err BUSY, self)
  else (Ok tt, mkTx radio_pan radio_pan src_mac dst_mac security (tx_dgram_tag self) (tx_dgram_size self) (tx_dgram_offset self) false).

(** [next_dgram_tag] of the layer: the test for zero comes after an addition that
    overflows. *)
Definition next_dgram_tag (tx_tag : Z) : outcome Z :=
  t ← u16_add tx_tag 1; Ret (if t =? 0 then 1 else t).

Definition is_transmit_done (self : TxState) : bool := tx_dgram_size self <=? tx_dgram_offset self.
Definition end_transmit (self : TxState) : TxState := set_tx_busy self false.

(** [let _ = frame.append_payload(p)]. *)
Definition append_ignore (frame : Frame) (p : list Z) : outcome Frame :=
  '(_, frame) ← append_payload frame p; Ret frame.

(** The header written and its size. *)
Definition write_frag_hdr (self : TxState) (frame : Frame) (first_frag : bool) : outcome (Z * Frame) :=
  if first_frag then
    hdr ← set_frag_hdr (tx_dgram_size self) (tx_dgram_tag self) 0 (replicate 4 0) true;
    frame ← append_ignore frame hdr; Ret (FRAG1_HDR_SIZE, frame)
  else
    hdr ← set_frag_hdr (tx_dgram_size self) (tx_dgram_tag self) (tx_dgram_offset self) (replicate 5 0) first_frag;
    frame ← append_ignore frame hdr; Ret (FRAGN_HDR_SIZE, frame).

(** [write_additional_headers]: the rest of the payload length, the offset behind
    the headers, and the frame.  What the encoder returns is not looked at. *)
Definition write_additional_headers (packet : IP6Packet) (frame : Frame) (dgram_offset payload_len : Z)
    : outcome (Z * Z * Frame) :=
  total_hdr_len ← get_total_hdr_size packet;
  if dgram_offset <? total_hdr_len then
    let headers_to_write := Z.min payload_len (total_hdr_len - dgram_offset) in
    '(_, headers) ← IP6Packet_encode packet (replicate 60 0);
    match get_range headers dgram_offset (dgram_offset + headers_to_write) with
    | None => Panic
    | Some hs =>
        frame ← append_ignore frame hs;
        Ret (payload_len - headers_to_write, dgram_offset + headers_to_write, frame)
    end
  else Ret (payload_len, dgram_offset, frame).

(** [n & !0b111]. *)
Definition round8 (n : Z) : Z := 8 * (n / 8).

Definition fit (remaining_payload remaining_capacity : Z) : Z :=
  if remaining_capacity <? remaining_payload then round8 remaining_capacity else remaining_payload.

(** [&ip6_packet.get_payload()[lo..lo + n]]. *)
Definition payload_slice (packet : IP6Packet) (lo n : Z) : outcome (list Z) :=
  match get_range (payload (packet_payload packet)) lo (lo + n) with Some p => Ret p | None => Panic end.

(** Either the frame and the new state, or the error, the buffer and the state. *)
Definition TxResult : Type := result Frame (ErrorCode * list Z) * TxState.

Definition prepare_first_fragment {T} `{ContextStore T} (s : T) (self : TxState) (packet : IP6Packet) (frame : Frame)
    : outcome TxResult :=
  '(r, lowpan_packet) ← compress s packet (tx_src_mac self) (tx_dst_mac self) (replicate (Z.to_nat MAX_FRAME_SIZE) 0);
  match r with
  | None => Ret (Err (FAIL, into_buf frame), self)
  | Some (consumed, written) =>
      total ← get_total_len (packet_header packet);
      remaining_payload ← usub total consumed;
      let lowpan_len := written + remaining_payload in
      cap ← remaining_data_capacity frame;
      cap ← usub cap 2;
      '(cap, frame) ← (if cap <? lowpan_len then
                         '(n, frame) ← write_frag_hdr self frame true; cap ← usub cap n; Ret (cap, frame)
                       else Ret (cap, frame));
      if written <=? cap then
        match get_range lowpan_packet 0 written with
        | None => Panic
        | Some hs =>
            frame ← append_ignore frame hs;
            let cap := cap - written in
            let payload_len := fit remaining_payload cap in
            '(payload_len, consumed, frame) ← write_additional_headers packet frame consumed payload_len;
            p ← payload_slice packet 0 payload_len;
            frame ← append_ignore frame p;
            Ret (Ok frame, set_tx_offset self (consumed + payload_len))
        end
      else Ret (Err (SIZE, into_buf frame), self)
  end.

Definition prepare_next_fragment (self : TxState) (packet : IP6Packet) (frame : Frame) : outcome TxResult :=
  let dgram_offset := tx_dgram_offset self in
  cap ← remaining_data_capacity frame;
  '(n, frame) ← write_frag_hdr self frame false;
  cap ← usub cap n;
  remaining_payload ← usub (tx_dgram_size self) dgram_offset;
  let payload_len := fit remaining_payload cap in
  '(payload_len, dgram_offset, frame) ← write_additional_headers packet frame dgram_offset payload_len;
  frame ← (if 0 <? payload_len then
             hdr ← get_total_hdr_size packet;
             payload_offset ← usub dgram_offset hdr;
             p ← payload_slice packet payload_offset payload_len;
             append_ignore frame p
           else Ret frame);
  Ret (Ok frame, set_tx_offset self (dgram_offset + payload_len)).

(** [start_transmit]: the layer's tag goes along. *)
Definition start_transmit {T} `{ContextStore T} (s : T) (self : TxState) (tx_tag : Z) (packet : IP6Packet) (frame : Frame)
    : outcome (TxResult * Z) :=
  let self := set_tx_busy self true in
  size ← get_total_len (packet_header packet);
  tag ← next_dgram_tag tx_tag;
  r ← prepare_first_fragment s (set_tx_dgram self tag size) packet frame;
  Ret (r, tag).

(** [next_fragment]: [Ok (is_done, frame)] or the error with the buffer. *)
Definition next_fragment {T D} `{ContextStore T} `{MacDevice D} (s : T) (radio : D) (self : TxState) (tx_tag : Z)
    (packet : IP6Packet) (frag_buf : list Z)
    : outcome (result (bool * Frame) (ErrorCode * list Z) * TxState * Z) :=
  r ← prepare_data_frame radio frag_buf (tx_dst_pan self) (tx_dst_mac self) (tx_src_pan self) (tx_src_mac self) (tx_security self);
  match r with
  | Err buf => Ret (Err (FAIL, buf), self, tx_tag)
  | Ok frame =>
      if negb (tx_busy self) then
        '(r, self, tx_tag) ← start_transmit s self tx_tag packet frame;
        Ret (match r with Ok frame => Ok (false, frame) | Err e => Err e end, self, tx_tag)
      else if is_transmit_done self then Ret (Ok (true, frame), end_transmit self, tx_tag)
      else
        total ← get_total_len (packet_header packet);
        if negb (tx_dgram_size self =? total) then Ret (Err (NOMEM, into_buf frame), self, tx_tag)
        else
          '(r, self) ← prepare_next_fragment self packet frame;
          Ret (match r with Ok frame => Ok (false, frame) | Err e => Err e end, self, tx_tag)
  end.

(** ** Reception *)

(** [RxState]; [packet] is empty while the buffer is taken.  The bitmap is never
    taken for longer than a call. *)
Record RxState := mkRx {
  rx_packet : option (list Z);
  rx_bitmap : Bitmap;
  rx_dst_mac : MacAddress;
  rx_src_mac : MacAddress;
  rx_dgram_tag : Z;
  rx_dgram_size : Z;
  rx_busy : bool;
  start_time : Z
}.

Definition RxState_new (packet : list Z) : RxState := mkRx (Some packet) Bitmap_new (Short 0) (Short 0) 0 0 false 0.

Definition set_rx_packet (self : RxState) (p : option (list Z)) : RxState :=
  mkRx p (rx_bitmap self) (rx_dst_mac self) (rx_src_mac self) (rx_dgram_tag self) (rx_dgram_size self) (rx_busy self) (start_time self).
Definition set_rx_bitmap (self : RxState) (b : Bitmap) : RxState :=
  mkRx (rx_packet self) b (rx_dst_mac self) (rx_src_mac self) (rx_dgram_tag self) (rx_dgram_size self) (rx_busy self) (start_time self).
Definition set_rx_size (self : RxState) (n : Z) : RxState :=
  mkRx (rx_packet self) (rx_bitmap self) (rx_dst_mac self) (rx_src_mac self) (rx_dgram_tag self) n (rx_busy self) (start_time self).

Definition is_my_fragment (self : RxState) (src_mac dst_mac : MacAddress) (dgram_size dgram_tag : Z) : bool :=
  rx_busy self && (rx_dgram_tag self =? dgram_tag) && (rx_dgram_size self =? dgram_size) &&
  bool_decide (rx_src_mac self = src_mac) && bool_decide (rx_dst_mac self = dst_mac).

(** What a client is called with: the buffer, the size of the packet, the result. *)
Definition Callback : Type := list Z * Z * result unit ErrorCode.

Definition end_receive (self : RxState) (client : bool) (r : result unit ErrorCode) : outcome (RxState * list Callback) :=
  let self' := mkRx (rx_packet self) (Bitmap_clear (rx_bitmap self)) (rx_dst_mac self) (rx_src_mac self) (rx_dgram_tag self)
                 (rx_dgram_size self) false 0 in
  if client then
    match rx_packet self with
    | None => Panic
    | Some packet => Ret (self', [(packet, rx_dgram_size self, r)])
    end
  else Ret (self', []).

(** [is_busy], with the parameters in the order of its signature. *)
Definition is_busy (self : RxState) (frequency current_time : Z) : outcome (bool * RxState) :=
  m ← umul FRAG_TIMEOUT frequency;
  e ← uadd (start_time self) m;
  if e <=? current_time then
    '(self, _) ← end_receive self false (Err FAIL); Ret (rx_busy self, self)
  else Ret (rx_busy self, self).

Definition start_receive (self : RxState) (src_mac dst_mac : MacAddress) (dgram_size dgram_tag current_tics : Z) : RxState :=
  mkRx (rx_packet self) (Bitmap_clear (rx_bitmap self)) dst_mac src_mac dgram_tag dgram_size true current_tics.

(** [packet[at..at + remaining].copy_from_slice(&payload[consumed..consumed + remaining])]. *)
Definition copy_rest (packet : list Z) (at_ : Z) (p : list Z) (consumed remaining : Z) : outcome (list Z) :=
  match get_range p consumed (consumed + remaining) with
  | None => Panic
  | Some rest => splice packet at_ rest
  end.

(** [receive_next_frame]: whether the packet is complete; the buffer is lost when
    decompression fails. *)
Definition receive_next_frame {Pr : Profile} {T} `{ContextStore T} (s : T) (self : RxState) (p : list Z) (payload_len dgram_size dgram_offset : Z)
    : outcome (result bool ErrorCode * RxState) :=
  match rx_packet self with
  | None => Ret (Err NOMEM, self)
  | Some packet =>
      let self := set_rx_packet self None in
      r ← (if dgram_offset =? 0 then
             match get_range p 0 payload_len with
             | None => Panic
             | Some frame =>
                 d ← decompress s frame (rx_src_mac self) (rx_dst_mac self) packet dgram_size true;
                 match d with
                 | None => Ret None
                 | Some (consumed, written, packet) =>
                     remaining ← usub payload_len consumed;
                     packet ← copy_rest packet written p consumed remaining;
                     Ret (Some (packet, written + remaining))
                 end
             end
           else
             packet ← copy_rest packet dgram_offset p 0 payload_len;
             Ret (Some (packet, payload_len)));
      match r with
      | None => Ret (Err FAIL, self)
      | Some (packet, uncompressed_len) =>
          let self := set_rx_packet self (Some packet) in
          '(ok, map) ← set_bits (rx_bitmap self) (dgram_offset / 8) ((dgram_offset + uncompressed_len) / 8);
          let self := set_rx_bitmap self map in
          if negb ok then Ret (Err FAIL, self)
          else complete ← is_complete map (dgram_size / 8); Ret (Ok complete, self)
      end
  end.

(** ** The layer *)

(** [Sixlowpan]: the context store, the last tag, whether a client is set, the
    receive states in the order of their list, and [A::Frequency]. *)
Record Sixlowpan (T : Type) := mkSixlowpan {
  ctx_store : T;
  tx_tag : Z;
  rx_client : bool;
  rx_states : list RxState;
  frequency : Z
}.
Arguments mkSixlowpan {T}.
Arguments ctx_store {T}.
Arguments tx_tag {T}.
Arguments rx_client {T}.
Arguments rx_states {T}.
Arguments frequency {T}.

Definition Sixlowpan_new {T} (s : T) (freq : Z) : Sixlowpan T := mkSixlowpan s 0 false [] freq.
Definition set_rx_states {T} (self : Sixlowpan T) (l : list RxState) : Sixlowpan T :=
  mkSixlowpan (ctx_store self) (tx_tag self) (rx_client self) l (frequency self).
Definition add_rx_state {T} (self : Sixlowpan T) (st : RxState) : Sixlowpan T := set_rx_states self (st :: rx_states self).
Definition set_rx_client {T} (self : Sixlowpan T) : Sixlowpan T :=
  mkSixlowpan (ctx_store self) (tx_tag self) true (rx_states self) (frequency self).

(** [rx_states.iter().find(|state| !state.is_busy(self.clock.now().into_u32(), A::Frequency::frequency()))],
    with the arguments as they are passed; [now k] is the [k]-th reading of the
    clock in a call.  The states after the tests, the position found, and the
    number of readings. *)
Fixpoint find_free (freq : Z) (now : nat → Z) (k : nat) (l : list RxState) : outcome (list RxState * option nat * nat) :=
  match l with
  | [] => Ret ([], None, k)
  | st :: l =>
      '(busy, st) ← is_busy st (now k) freq;
      if (busy : bool) then
        '(l, i, k) ← find_free freq now (S k) l; Ret (st :: l, option_map S i, k)
      else Ret (st :: l, Some 0%nat, S k)
  end.

(** The part of [receive_single_packet] and of [receive_fragment] after the state
    was found answers with the position of a state whose reception ends. *)
Definition Answer : Type := option nat * result unit ErrorCode.

Definition receive_single_packet {Pr : Profile} {T} `{ContextStore T} (self : Sixlowpan T) (now : nat → Z) (p : list Z) (payload_len : Z)
    (src_mac dst_mac : MacAddress) : outcome (Answer * Sixlowpan T) :=
  '(states, i, k) ← find_free (frequency self) now 0 (rx_states self);
  match i with
  | None => Ret ((None, Err NOMEM), set_rx_states self states)
  | Some i =>
      match states !! i with
      | None => Panic
      | Some st =>
          let st := start_receive st src_mac dst_mac (as_u16 payload_len) 0 (now k) in
          match rx_packet st with
          | None => Panic
          | Some packet =>
              let st := set_rx_packet st None in
              lowpan ← is_lowpan p;
              if negb lowpan then Ret ((None, Ok tt), set_rx_states self (<[i := st]> states))
              else
                match get_range p 0 payload_len with
                | None => Panic
                | Some frame =>
                    d ← decompress (ctx_store self) frame src_mac dst_mac packet 0 false;
                    match d with
                    | None => Ret ((None, Err FAIL), set_rx_states self (<[i := st]> states))
                    | Some (consumed, written, packet) =>
                        remaining ← usub payload_len consumed;
                        packet ← copy_rest packet written p consumed remaining;
                        let st := set_rx_packet (set_rx_size st (as_u16 (written + remaining))) (Some packet) in
                        Ret ((Some i, Ok tt), set_rx_states self (<[i := st]> states))
                    end
                end
          end
      end
  end.

(** The first state in the middle of this reassembly. *)
Definition find_mine (l : list RxState) (src_mac dst_mac : MacAddress) (dgram_size dgram_tag : Z) : option nat :=
  fst <$> list_find (λ st, is_my_fragment st src_mac dst_mac dgram_size dgram_tag = true) l.

Definition receive_fragment {Pr : Profile} {T} `{ContextStore T} (self : Sixlowpan T) (now : nat → Z) (p : list Z) (payload_len : Z)
    (src_mac dst_mac : MacAddress) (dgram_size dgram_tag dgram_offset : Z) : outcome (Answer * Sixlowpan T) :=
  '(states, i) ←
    match find_mine (rx_states self) src_mac dst_mac dgram_size dgram_tag with
    | Some i => Ret (rx_states self, Some i)
    | None =>
        '(states, i, k) ← find_free (frequency self) now 0 (rx_states self);
        Ret (match i with
             | Some i => alter (λ st, start_receive st src_mac dst_mac dgram_size dgram_tag (now k)) i states
             | None => states
             end, i)
    end;
  match i with
  | None => Ret ((None, Err NOMEM), set_rx_states self states)
  | Some i =>
      match states !! i with
      | None => Panic
      | Some st =>
          '(r, st) ← receive_next_frame (ctx_store self) st p payload_len dgram_size dgram_offset;
          Ret (match r with
               | Err _ => (Some i, Err FAIL)
               | Ok true => (Some i, Ok tt)
               | Ok false => (None, Ok tt)
               end, set_rx_states self (<[i := st]> states))
      end
  end.

Definition receive_frame {Pr : Profile} {T} `{ContextStore T} (self : Sixlowpan T) (now : nat → Z) (packet : list Z) (packet_len : Z)
    (src_mac dst_mac : MacAddress) : outcome (Answer * Sixlowpan T) :=
  frag ← is_fragment packet;
  if (frag : bool) then
    match get_range packet 0 5 with
    | None => Panic
    | Some hdr =>
        '(is_frag1, dgram_size, dgram_tag, dgram_offset) ← get_frag_hdr hdr;
        let offset_to_payload := if (is_frag1 : bool) then FRAG1_HDR_SIZE else FRAGN_HDR_SIZE in
        match get_from packet offset_to_payload with
        | None => Panic
        | Some p =>
            len ← usub packet_len offset_to_payload;
            receive_fragment self now p len src_mac dst_mac dgram_size dgram_tag dgram_offset
        end
    end
  else receive_single_packet self now packet packet_len src_mac dst_mac.

(** [RxClient::receive]: the calls to the client. *)
Definition Sixlowpan_receive {Pr : Profile} {T} `{ContextStore T} (self : Sixlowpan T) (now : nat → Z) (buf : list Z) (h : Header)
    (data_offset data_len : Z) : outcome (list Callback * Sixlowpan T) :=
  let src_mac := default (Short 0) (Ieee802154.src_addr h) in
  let dst_mac := default (Short 0) (Ieee802154.dst_addr h) in
  match get_range buf data_offset (data_offset + data_len) with
  | None => Panic
  | Some p =>
      '((i, r), self) ← receive_frame self now p data_len src_mac dst_mac;
      match i with
      | None => Ret ([], self)
      | Some i =>
          match rx_states self !! i with
          | None => Panic
          | Some st =>
              '(st, calls) ← end_receive st (rx_client self) r;
              Ret (calls, set_rx_states self (<[i := st]> (rx_states self)))
          end
      end
  end.

(** [discard_all_state], up to its [unimplemented!()]. *)
Fixpoint discard_states (l : list RxState) : outcome (list RxState) :=
  match l with
  | [] => Ret []
  | st :: l => '(st, _) ← end_receive st false (Err FAIL); l ← discard_states l; Ret (st :: l)
  end.
Definition discard_all_state {T} (self : Sixlowpan T) : outcome (Sixlowpan T) :=
  _ ← discard_states (rx_states self); Panic.
