(* ===== verification/SixlowpanStateTheorems.v ===== *)
(** * 6LoWPAN: a datagram is cut into fragments and put together again

    The fragment header is read back; a packet is sent as one frame or as
    fragments that cover it; a receiver with a free state puts the fragments
    together in whatever order they arrive; and where it does not. *)

From stdpp Require Import gmap sets.
From S2P Require Import Prelude Bytes Syscall NetStream Ieee802154 Ieee802154Theorems Ipv6 Ipv6Theorems Sixlowpan SixlowpanTheorems FragUtils Framer SixlowpanState.

(** ** Fragment headers *)

Definition frag1_bytes (size tag : Z) : list Z := be16 (0xc000 + size) ++ be16 tag.
Definition fragn_bytes (size tag offset : Z) : list Z := be16 (0xe000 + size) ++ be16 tag ++ [offset / 8].

(** The dispatch bits and the high bits of the size share a byte. *)
Lemma dispatch_byte (x : Z) : 0 ≤ x < 16 →
  Z.lor 0xc0 (Z.land x (not8 0xc0)) = 0xc0 + x ∧ Z.land (0xc0 + x) 0xe0 = 0xc0 ∧
  Z.lor 0xe0 (Z.land x (not8 0xe0)) = 0xe0 + x ∧ Z.land (0xe0 + x) 0xe0 = 0xe0.
Proof.
  intros Hx. pose proof (nibbles_forall (λ a _,
    (Z.lor 0xc0 (Z.land a (not8 0xc0)) =? 0xc0 + a) && (Z.land (0xc0 + a) 0xe0 =? 0xc0) &&
    (Z.lor 0xe0 (Z.land a (not8 0xe0)) =? 0xe0 + a) && (Z.land (0xe0 + a) 0xe0 =? 0xe0)) ltac:(by vm_compute) x 0 Hx ltac:(done)) as H.
  cbv beta in H. rewrite !andb_true_iff, !Z.eqb_eq in H. tauto.
Qed.

Lemma be16_dispatch m size : 0 ≤ size < 4096 → be16 (256 * m + size) = [m + size / 256; size mod 256].
Proof. intros Hs. unfold be16. f_equal; [byte_lia|]. f_equal. byte_lia. Qed.

Lemma set_frag_prefix m size tag rest : (m = 0xc0 ∨ m = 0xe0) → 0 ≤ size < 4096 → u16 tag →
  (hdr ← splice (0 :: 0 :: 0 :: 0 :: rest) 0 (network_bytes size);
   b ← index_get hdr 0;
   hdr ← index_set hdr 0 (Z.lor m (Z.land b (not8 m)));
   splice hdr 2 (network_bytes tag)) = Ret (be16 (256 * m + size) ++ be16 tag ++ rest).
Proof.
  intros Hm Hs Ht. rewrite !network_bytes_be16 by (done || unfold u16; lia). rewrite be16_dispatch by done.
  assert (Hd : 0 ≤ size / 256 < 16) by byte_lia. pose proof (dispatch_byte _ Hd) as E.
  rewrite (bind_ret_eq _ _ (size / 256 :: size mod 256 :: 0 :: 0 :: rest)) by by apply (splice_out [] [0; 0] (0 :: 0 :: rest)).
  rewrite (bind_ret_eq _ _ (size / 256)) by done.
  rewrite (bind_ret_eq _ _ (m + size / 256 :: size mod 256 :: 0 :: 0 :: rest)).
  2:{ rewrite index_set_Ret by (cbn [length]; lia). f_equal. change (Z.to_nat 0) with 0%nat. cbn [insert list_insert]. f_equal. destruct Hm; subst m; apply E. }
  by apply (splice_out [m + size / 256; size mod 256] [0; 0] rest).
Qed.

Lemma set_frag1 size tag : 0 ≤ size < 4096 → u16 tag →
  set_frag_hdr size tag 0 (replicate 4 0) true = Ret (frag1_bytes size tag).
Proof.
  intros Hs Ht. pose proof (set_frag_prefix 0xc0 size tag [] ltac:(auto) Hs Ht) as H. rewrite app_nil_r in H.
  unfold frag1_bytes. change 0xc000 with (256 * 0xc0). rewrite <- H. unfold set_frag_hdr, FRAG1_HDR. cbv zeta.
  destruct (splice _ _ _) as [h1|]; [|done]. cbn [mbind outcome_bind]. destruct (index_get h1 0); [|done]. cbn [mbind outcome_bind].
  destruct (index_set _ _ _) as [h2|]; [|done]. cbn [mbind outcome_bind]. by destruct (splice h2 _ _).
Qed.

Lemma set_fragn size tag offset : 0 ≤ size < 4096 → u16 tag → 0 ≤ offset < 2048 →
  set_frag_hdr size tag offset (replicate 5 0) false = Ret (fragn_bytes size tag offset).
Proof.
  intros Hs Ht Ho. pose proof (set_frag_prefix 0xe0 size tag [0] ltac:(auto) Hs Ht) as H.
  assert (Hi : index_set (be16 (256 * 0xe0 + size) ++ be16 tag ++ [0]) 4 (as_u8 (offset / 8)) = Ret (fragn_bytes size tag offset)).
  { rewrite index_set_Ret by (cbn [be16 app length]; lia). rewrite as_u8_mod, (Z.mod_small (offset / 8)) by byte_lia. done. }
  rewrite <- Hi. revert H. unfold set_frag_hdr, FRAGN_HDR. cbv zeta. cbn [replicate]. intros H.
  destruct (splice _ _ _) as [h1|]; [|done]. cbn [mbind outcome_bind] in *. destruct (index_get h1 0); [|done]. cbn [mbind outcome_bind] in *.
  destruct (index_set h1 _ _) as [h2|]; [|done]. cbn [mbind outcome_bind] in *. by rewrite H.
Qed.

Lemma slice_u16_be16 pre x post lo : u16 x → lo = zlen pre → slice_u16 (pre ++ be16 x ++ post) lo = Ret x.
Proof.
  intros Hx ->. unfold slice_u16. rewrite get_range_mid by done.
  unfold be16, u16 in *. change (Ret (Z.lor (Z.shiftl (x / 256) 8) (x mod 256)) = Ret x).
  f_equal. rewrite lor_shiftl_add; byte_lia.
Qed.

Lemma size_masked m size : 0 ≤ size < 4096 → 0 ≤ m → Z.land (4096 * m + size) SIZE_MASK = size.
Proof.
  intros Hs Hm. unfold SIZE_MASK. change 0x0fff with (Z.ones 12). rewrite Z.land_ones by lia.
  change (2 ^ 12) with 4096. rewrite Z.add_comm, Z.mul_comm, Z_mod_plus_full. by apply Z.mod_small.
Qed.

Lemma dispatch_get m size r : 0 ≤ size < 4096 → index_get (be16 (256 * m + size) ++ r) 0 = Ret (m + size / 256).
Proof. intros Hs. by rewrite be16_dispatch. Qed.

(** The header of a fragment is read back, whatever follows it. *)
Lemma get_frag1 size tag rest : 0 ≤ size < 4096 → u16 tag →
  get_frag_hdr (frag1_bytes size tag ++ rest) = Ret (true, size, tag, 0) ∧
  is_fragment (frag1_bytes size tag ++ rest) = Ret true.
Proof.
  intros Hs Ht. unfold frag1_bytes. assert (Hd : 0 ≤ size / 256 < 16) by byte_lia. destruct (dispatch_byte _ Hd) as (_ & E & _).
  rewrite <- app_assoc. pose proof (dispatch_get 0xc0 size (be16 tag ++ rest) Hs) as Hg. split.
  - unfold get_frag_hdr. rewrite (bind_ret_eq _ _ _ Hg). unfold FRAGN_HDR, FRAG1_HDR. rewrite E, Z.eqb_refl. cbv zeta.
    rewrite (bind_ret_eq _ _ (0xc000 + size)) by (apply (slice_u16_be16 []); [unfold u16; lia|done]).
    rewrite (bind_ret_eq _ _ tag) by by apply slice_u16_be16. cbn [mbind outcome_bind].
    change 0xc000 with (4096 * 12). by rewrite size_masked by lia.
  - unfold is_fragment. rewrite (bind_ret_eq _ _ _ Hg). unfold FRAGN_HDR, FRAG1_HDR. by rewrite E.
Qed.

Lemma get_fragn size tag offset rest : 0 ≤ size < 4096 → u16 tag → offset mod 8 = 0 →
  get_frag_hdr (fragn_bytes size tag offset ++ rest) = Ret (false, size, tag, offset) ∧
  is_fragment (fragn_bytes size tag offset ++ rest) = Ret true.
Proof.
  intros Hs Ht Ho. unfold fragn_bytes. assert (Hd : 0 ≤ size / 256 < 16) by byte_lia. destruct (dispatch_byte _ Hd) as (_ & _ & _ & E).
  rewrite <- !app_assoc. pose proof (dispatch_get 0xe0 size (be16 tag ++ [offset / 8] ++ rest) Hs) as Hg. split.
  - unfold get_frag_hdr. rewrite (bind_ret_eq _ _ _ Hg). unfold FRAGN_HDR, FRAG1_HDR. rewrite E. cbv zeta. cbn [Z.eqb Pos.eqb].
    rewrite (bind_ret_eq _ _ (0xe000 + size)) by (apply (slice_u16_be16 []); [unfold u16; lia|done]).
    rewrite (bind_ret_eq _ _ tag) by by apply slice_u16_be16.
    rewrite (bind_ret_eq _ _ (offset / 8)) by done.
    change 0xe000 with (4096 * 14). rewrite size_masked by lia. do 2 f_equal. byte_lia.
  - unfold is_fragment. rewrite (bind_ret_eq _ _ _ Hg). unfold FRAGN_HDR, FRAG1_HDR. by rewrite E.
Qed.

(** ** Reassembly *)

(** A part of a datagram: its offset and its length. *)
Definition piece : Type := Z * Z.
Definition piece_span (p : piece) : gset Z := span (p.1 / 8) ((p.1 + p.2) / 8).
Definition spans (l : list piece) : gset Z := ⋃ (piece_span <$> l).
Definition covered (l : list piece) (j : Z) : Prop := Exists (λ p, p.1 ≤ j < p.1 + p.2) l.

Lemma spans_cons p R : spans (p :: R) = piece_span p ∪ spans R.
Proof. done. Qed.

(** A frame as the layer below hands it over: the clock, the buffer, the header,
    the offset of the data and their length. *)
Record Received := mkReceived { r_now : nat → Z; r_buf : list Z; r_header : Header; r_offset : Z; r_len : Z }.

Definition carries (r : Received) (src dst : MacAddress) (data : list Z) : Prop :=
  get_range (r_buf r) (r_offset r) (r_offset r + r_len r) = Some data ∧ r_len r = zlen data ∧
  Ieee802154.src_addr (r_header r) = Some src ∧ Ieee802154.dst_addr (r_header r) = Some dst.

(** The calls that a series of frames leads to. *)
Fixpoint receive_all {Pr : Profile} {T} `{ContextStore T} (self : Sixlowpan T) (rs : list Received) : outcome (list Callback * Sixlowpan T) :=
  match rs with
  | [] => Ret ([], self)
  | r :: rs =>
      '(calls, self) ← Sixlowpan_receive self (r_now r) (r_buf r) (r_header r) (r_offset r) (r_len r);
      '(calls', self) ← receive_all self rs;
      Ret (calls ++ calls', self)
  end.

(** Pieces that share no group. *)
Definition apart (l : list piece) : Prop := ForallOrdPairs (λ p q, piece_span p ## piece_span q) l.

Lemma apart_perm l l' : Permutation l l' → apart l → apart l'.
Proof.
  unfold apart. induction 1 as [|x l l' Hp IH|x y l|l1 l2 l3 _ IH1 _ IH2]; intros Ha; [done| | |by auto].
  - inversion Ha as [|? ? Hx Hl]; subst. constructor; [by rewrite <- Hp|auto].
  - inversion Ha as [|? ? Hy Hl]; subst. inversion Hl as [|? ? Hx Hl']; subst.
    apply Forall_cons in Hy as [Hyx Hy]. repeat constructor; try done.
Qed.

Lemma apart_spans p l : Forall (λ q, piece_span p ## piece_span q) l → spans l ## piece_span p.
Proof.
  induction 1 as [|q l Hq _ IH]; [apply disjoint_empty_l|]. rewrite spans_cons. set_solver.
Qed.

Lemma spans_app l l' : spans (l ++ l') = spans l ∪ spans l'.
Proof. induction l as [|p l IH]; cbn [app]; [symmetry; apply (left_id_L ∅ (∪))|]. rewrite !spans_cons, IH. set_solver. Qed.
Lemma spans_perm l l' : Permutation l l' → spans l = spans l'.
Proof. induction 1; rewrite ?spans_cons; set_solver. Qed.
Lemma covered_perm l l' j : Permutation l l' → covered l j → covered l' j.
Proof. unfold covered. intros Hp H. by rewrite <- Hp. Qed.

Section Reassembly.
Context {Pr : Profile}.
Context {T} `{ContextStore T} (s : T) (src_mac dst_mac : MacAddress) (size tag : Z) (cp target : list Z).
Context (Hsize : zlen target = size) (Hbounds : 48 ≤ size < 1280) (Hgroups : (size / 8) mod 8 ≠ 0) (Htag : u16 tag).
Context (Hcp : 1 ≤ zlen cp).
Context (Hdec : ∀ data out, zlen data ≤ 65000 → 48 ≤ zlen out →
  decompress s (cp ++ data) src_mac dst_mac out size true = Ret (Some (zlen cp, 48, take 48 target ++ drop 48 out))).

Definition piece_bytes (p : piece) : list Z := take (Z.to_nat p.2) (drop (Z.to_nat p.1) target).
(** Without its fragment header: the first piece has the compressed headers. *)
Definition piece_payload (p : piece) : list Z :=
  if p.1 =? 0 then cp ++ drop 48 (piece_bytes p) else piece_bytes p.
Definition piece_frame (p : piece) : list Z :=
  (if p.1 =? 0 then frag1_bytes size tag else fragn_bytes size tag p.1) ++ piece_payload p.

(** Pieces of whole groups, but for the end of the datagram; each has a group. *)
Record piece_ok (p : piece) : Prop := {
  po_offset : 0 ≤ p.1 ∧ p.1 mod 8 = 0;
  po_length : 8 ≤ p.2;
  po_end : p.1 + p.2 ≤ size;
  po_first : p.1 = 0 → 48 ≤ p.2
}.

Record reassembling (st : RxState) (R : list piece) : Prop := {
  re_busy : rx_busy st = true;
  re_tag : rx_dgram_tag st = tag;
  re_size : rx_dgram_size st = size;
  re_src : rx_src_mac st = src_mac;
  re_dst : rx_dst_mac st = dst_mac;
  re_packet : ∃ pk, rx_packet st = Some pk ∧ size ≤ zlen pk ∧
    ∀ j, covered R j → pk !! Z.to_nat j = target !! Z.to_nat j;
  re_bitmap : represents (rx_bitmap st) (spans R);
  re_pieces : Forall piece_ok R
}.

Lemma piece_bytes_length p : piece_ok p → zlen (piece_bytes p) = p.2.
Proof. intros [[H0 _] H1 H2 _]. unfold piece_bytes, zlen in *. rewrite length_take, length_drop. lia. Qed.

Lemma piece_bytes_lookup p j : piece_ok p → p.1 ≤ Z.of_nat j < p.1 + p.2 → piece_bytes p !! (j - Z.to_nat p.1)%nat = target !! j.
Proof.
  intros [[H0 _] H1 H2 _] Hj. unfold piece_bytes. rewrite lookup_take, decide_True by lia. rewrite lookup_drop. f_equal. lia.
Qed.

(** The first piece: the decompressed headers and what follows them. *)
Lemma first_piece_writes p pk : piece_ok p → p.1 = 0 → size ≤ zlen pk →
  (d ← decompress s (piece_payload p) src_mac dst_mac pk size true;
   match d with
   | None => Ret None
   | Some (consumed, written, packet) =>
       remaining ← usub (zlen (piece_payload p)) consumed;
       packet ← copy_rest packet written (piece_payload p) consumed remaining;
       Ret (Some (packet, written + remaining))
   end) = (pk' ← splice pk 0 (piece_bytes p); Ret (Some (pk', p.2))).
Proof.
  intros Hp H0 Hpk. pose proof (piece_bytes_length p Hp) as Hl. pose proof Hp as [_ H1 H2 H3]. specialize (H3 H0).
  unfold piece_payload. rewrite H0, Z.eqb_refl.
  assert (Hd : zlen (drop 48 (piece_bytes p)) = p.2 - 48) by (unfold zlen in *; rewrite length_drop; lia).
  rewrite Hdec by lia. cbn [mbind outcome_bind]. rewrite zlen_app, usub_ok by lia. cbn [mbind outcome_bind].
  unfold copy_rest. replace (zlen cp + (zlen cp + zlen (drop 48 (piece_bytes p)) - zlen cp)) with (zlen cp + zlen (drop 48 (piece_bytes p))) by lia.
  pose proof (get_range_mid cp (drop 48 (piece_bytes p)) []) as Hr. rewrite app_nil_r in Hr. rewrite Hr by done.
  assert (Ht : zlen (take 48 target) = 48) by (unfold zlen in *; rewrite length_take; lia).
  rewrite !splice_ok by (unfold zlen in *; rewrite ?length_app, ?length_drop, ?length_take in *; lia).
  cbn [mbind outcome_bind]. f_equal. f_equal. f_equal; [|lia].
  rewrite take_app_length' by (unfold zlen in Ht; lia).
  replace (Z.to_nat 0 + length (piece_bytes p))%nat with (48 + length (drop 48 (piece_bytes p)))%nat by (unfold zlen in *; lia).
  change (Z.to_nat 48) with 48%nat. rewrite drop_app_ge by (unfold zlen in *; lia). unfold zlen in Ht. rewrite drop_drop.
  replace (48 + (48 + length (drop 48 (piece_bytes p)) - length (take 48 target)))%nat with (48 + length (drop 48 (piece_bytes p)))%nat by lia.
  change (Z.to_nat 0) with 0%nat. rewrite take_0. cbn [app]. rewrite app_assoc. f_equal.
  rewrite <- (take_drop 48 (piece_bytes p)) at 2. f_equal. unfold piece_bytes. rewrite H0. change (Z.to_nat 0) with 0%nat.
  rewrite drop_0, take_take. f_equal. lia.
Qed.

Lemma piece_span_bounds p : piece_ok p → 0 ≤ p.1 / 8 ≤ (p.1 + p.2) / 8 ∧ (p.1 + p.2) / 8 ≤ size / 8 ∧ p.1 / 8 < (p.1 + p.2) / 8.
Proof. intros [[H0 H0'] H1 H2 _]. byte_lia. Qed.

Lemma spans_bounds R : Forall piece_ok R → spans R ⊆ span 0 (size / 8).
Proof.
  intros HR i. unfold spans. rewrite elem_of_union_list. intros (X & HX & Hi). apply list_elem_of_fmap in HX as (p & -> & Hp).
  rewrite Forall_forall in HR. pose proof (piece_span_bounds p (HR p Hp)). unfold piece_span in Hi.
  rewrite elem_of_span in *. lia.
Qed.

(** One fragment arrives: the packet is complete when every group has arrived. *)
Lemma receive_piece st R p : reassembling st R → piece_ok p → spans R ## piece_span p →
  ∃ st', receive_next_frame s st (piece_payload p) (zlen (piece_payload p)) size p.1 =
      Ret (Ok (bool_decide (spans (p :: R) = span 0 (size / 8))), st') ∧ reassembling st' (p :: R).
Proof.
  intros [Hbusy Ht Hsz Hsm Hdm (pk & Hpk & Hpl & Hcov) Hmap HR] Hp Hdis.
  pose proof (piece_bytes_length p Hp) as Hbl. pose proof (piece_span_bounds p Hp) as Hspan. pose proof Hp as [[H0 H0'] H1 H2 H3].
  set (pk' := take (Z.to_nat p.1) pk ++ piece_bytes p ++ drop (Z.to_nat p.1 + length (piece_bytes p)) pk).
  assert (Hcopy : splice pk p.1 (piece_bytes p) = Ret pk') by (apply splice_ok; lia).
  destruct (set_bits_step (rx_bitmap st) (spans R) (p.1 / 8) ((p.1 + p.2) / 8) Hmap) as (map & Hset & Hmap'); [lia|byte_lia|].
  fold (piece_span p) in Hset, Hmap'. rewrite bool_decide_true in Hset by set_solver.
  replace (spans R ∪ piece_span p) with (spans (p :: R)) in Hmap' by (rewrite spans_cons; set_solver).
  assert (Hn : 0 ≤ size / 8 < 160) by byte_lia. pose proof (is_complete_step map _ (size / 8) Hmap' Hn Hgroups) as Hcomp.
  assert (HpR : Forall piece_ok (p :: R)) by by constructor. pose proof (spans_bounds _ HpR) as Hsub.
  assert (Hint : spans (p :: R) ∩ span 0 (8 * (size / 8 / 8) + 8) = spans (p :: R)).
  { apply subseteq_intersection_1_L. intros i Hi. apply Hsub in Hi. rewrite elem_of_span in *. byte_lia. }
  rewrite Hint in Hcomp.
  exists (set_rx_bitmap (set_rx_packet st (Some pk')) map). split.
  - unfold receive_next_frame. rewrite Hpk. cbv zeta. cbn [rx_src_mac rx_dst_mac set_rx_packet]. rewrite Hsm, Hdm.
    assert (Hpart : (if p.1 =? 0 then
             match get_range (piece_payload p) 0 (zlen (piece_payload p)) with
             | None => Panic
             | Some frame =>
                 d ← decompress s frame src_mac dst_mac pk size true;
                 match d with
                 | None => Ret None
                 | Some (consumed, written, packet) =>
                     remaining ← usub (zlen (piece_payload p)) consumed;
                     packet ← copy_rest packet written (piece_payload p) consumed remaining;
                     Ret (Some (packet, written + remaining))
                 end
             end
           else
             packet ← copy_rest pk p.1 (piece_payload p) 0 (zlen (piece_payload p));
             Ret (Some (packet, zlen (piece_payload p)))) = Ret (Some (pk', p.2))).
    { pose proof (get_range_mid [] (piece_payload p) [] 0 (zlen (piece_payload p))) as Hr. rewrite app_nil_r in Hr. cbn [app] in Hr.
      destruct (Z.eqb_spec p.1 0) as [E|E].
      - rewrite Hr by done. rewrite first_piece_writes by done. by rewrite E in Hcopy; rewrite Hcopy.
      - unfold copy_rest. rewrite Z.add_0_l, Hr by done. unfold piece_payload. rewrite (proj2 (Z.eqb_neq _ _) E), Hcopy, Hbl. done. }
    rewrite Hpart. cbn [mbind outcome_bind]. cbn [rx_bitmap set_rx_packet]. rewrite Hset. cbn [mbind outcome_bind negb].
    cbn [set_rx_bitmap set_rx_packet]. rewrite Hcomp. done.
  - split; try done. exists pk'. split; [done|]. split.
    + unfold pk'. unfold zlen in *. rewrite !length_app, length_take, length_drop. lia.
    + intros j Hj. unfold pk'. rewrite splice_lookup by lia. rewrite Hbl.
      destruct (Z.leb_spec p.1 (Z.of_nat (Z.to_nat j))), (Z.ltb_spec (Z.of_nat (Z.to_nat j)) (p.1 + p.2)); cbn [andb];
        [apply piece_bytes_lookup; [done|lia]|..]; (apply Hcov; apply Exists_cons in Hj as [Hj|Hj]; [|done]; lia).
Qed.

(** When every piece has arrived, the buffer starts with the datagram. *)
Lemma reassembled st R : reassembling st R → (∀ j, 0 ≤ j < size → covered R j) →
  ∃ pk, rx_packet st = Some pk ∧ size ≤ zlen pk ∧ take (Z.to_nat size) pk = target.
Proof.
  intros [_ _ _ _ _ (pk & Hpk & Hpl & Hcov) _ _] Hall. exists pk. split; [done|]. split; [done|].
  apply list_eq. intros j. unfold zlen in *. destruct (decide (j < Z.to_nat size)%nat).
  - rewrite lookup_take, decide_True by lia. specialize (Hcov (Z.of_nat j) (Hall (Z.of_nat j) ltac:(lia))). by rewrite Nat2Z.id in Hcov.
  - rewrite lookup_take_ge, lookup_ge_None_2 by lia. done.
Qed.

(** ** The layer: the state of a reassembly is found again *)

Definition mine (st : RxState) : bool := is_my_fragment st src_mac dst_mac size tag.

Lemma reassembling_mine st R : reassembling st R → mine st = true.
Proof.
  intros [Hb Ht Hsz Hsm Hdm _ _ _]. unfold mine, is_my_fragment. rewrite Hb, Ht, Hsz, Hsm, Hdm, !Z.eqb_refl.
  by rewrite !bool_decide_true.
Qed.

(** A state that can take up the datagram. *)
Definition state_ok (st : RxState) : Prop :=
  (∃ pk, rx_packet st = Some pk ∧ size ≤ zlen pk) ∧ length (rx_bitmap st) = 20%nat.
(** The deadline is computed without overflow. *)
Definition clock_ok (now : nat → Z) (st : RxState) : Prop :=
  0 ≤ start_time st ∧ ∀ k, 60 * now k + start_time st < 4294967296.

Lemma is_busy_ok st now k freq : clock_ok now st →
  ∃ st', is_busy st (now k) freq = Ret (rx_busy st', st') ∧ rx_packet st' = rx_packet st ∧
    length (rx_bitmap st') = length (rx_bitmap st) ∧ (st' = st ∨ rx_busy st' = false).
Proof.
  intros [H0 Hc]. specialize (Hc k). unfold is_busy, FRAG_TIMEOUT. rewrite umul_ok by lia.
  cbn [mbind outcome_bind]. rewrite uadd_ok by lia. cbn [mbind outcome_bind]. destruct (_ <=? _); [|by exists st; auto].
  eexists. split; [done|]. cbn. unfold Bitmap_clear. rewrite length_replicate. auto.
Qed.

Lemma find_free_ok freq now k l : Forall state_ok l → Forall (clock_ok now) l → Exists (λ st, rx_busy st = false) l →
  ∃ l' i k' st, find_free freq now k l = Ret (l', Some i, k') ∧ l' !! i = Some st ∧ state_ok st ∧
    (Forall (λ st, mine st = false) l → Forall (λ st, mine st = false) l').
Proof.
  revert k. induction l as [|st l IH]; intros k Hok Hclk Hfree; [by apply Exists_nil in Hfree|].
  apply Forall_cons in Hok as [Hst Hok]. apply Forall_cons in Hclk as [Hc Hclk].
  destruct (is_busy_ok st now k freq Hc) as (st' & Hb & Hpk & Hl & Hst'). cbn [find_free]. rewrite Hb. cbn [mbind outcome_bind].
  assert (Hm' : mine st = false → mine st' = false) by (destruct Hst' as [-> |Hf]; [done|]; intros _; unfold mine, is_my_fragment; by rewrite Hf).
  destruct (rx_busy st') eqn:Eb.
  - destruct Hst' as [-> |]; [|done]. apply Exists_cons in Hfree as [Hf|Hfree]; [congruence|].
    destruct (IH (S k) Hok Hclk Hfree) as (l' & i & k' & st'' & -> & Hi & Hs' & Hm). cbn [mbind outcome_bind option_map].
    exists (st :: l'), (S i), k', st''. split; [done|]. split; [done|]. split; [done|]. intros [? ?]%Forall_cons. constructor; auto.
  - exists (st' :: l), 0%nat, (S k), st'. split; [done|]. split; [done|]. split.
    + unfold state_ok in *. by rewrite Hpk, Hl.
    + intros [? ?]%Forall_cons. constructor; auto.
Qed.

Lemma start_reassembling st t : state_ok st → reassembling (start_receive st src_mac dst_mac size tag t) [].
Proof.
  intros [(pk & Hpk & Hpl) Hl]. split; try done; cbn.
  - exists pk. split; [done|]. split; [done|]. intros j Hj. by apply Exists_nil in Hj.
  - unfold Bitmap_clear. rewrite Hl. apply represents_new.
Qed.

(** The datagram is being put together at position [i] and nowhere else. *)
Definition under_way (states : list RxState) (i : nat) (R : list piece) : Prop :=
  ∃ st, states !! i = Some st ∧ reassembling st R ∧ ∀ j st', states !! j = Some st' → j ≠ i → mine st' = false.

Lemma under_way_found states i R : under_way states i R → find_mine states src_mac dst_mac size tag = Some i.
Proof.
  intros (st & Hi & Hst & Hne). unfold find_mine. rewrite (proj2 (list_find_Some _ _ i st)); [done|]. split; [done|].
  split; [by eapply reassembling_mine|]. intros j st' Hj Hlt. fold (mine st'). rewrite (Hne j st' Hj) by lia. done.
Qed.

Lemma none_mine states : Forall (λ st, mine st = false) states → find_mine states src_mac dst_mac size tag = None.
Proof.
  intros Hn. unfold find_mine. rewrite (proj2 (list_find_None _ _)); [done|]. eapply Forall_impl; [exact Hn|].
  intros st E. fold (mine st). by rewrite E.
Qed.

(** The layer before the first piece: no state has the datagram, one is free. *)
Record ready (states : list RxState) (now : nat → Z) : Prop := {
  rd_ok : Forall state_ok states;
  rd_clock : Forall (clock_ok now) states;
  rd_free : Exists (λ st, rx_busy st = false) states;
  rd_new : Forall (λ st, mine st = false) states
}.

Definition taking_up (states : list RxState) (now : nat → Z) (R : list piece) : Prop :=
  (R = [] ∧ ready states now) ∨ ∃ i, under_way states i R.

Lemma receive_fragment_piece (self : Sixlowpan T) now R p : ctx_store self = s →
  taking_up (rx_states self) now R → piece_ok p → spans R ## piece_span p →
  ∃ i states, under_way states i (p :: R) ∧
    receive_fragment self now (piece_payload p) (zlen (piece_payload p)) src_mac dst_mac size tag p.1 =
      Ret (if bool_decide (spans (p :: R) = span 0 (size / 8)) then (Some i, Ok tt) else (None, Ok tt), set_rx_states self states).
Proof.
  intros Hctx Hup Hp Hdis.
  assert (Hfound : ∃ i states, under_way states i R ∧
    match find_mine (rx_states self) src_mac dst_mac size tag with
    | Some i => Ret (rx_states self, Some i)
    | None =>
        '(states, i, k) ← find_free (frequency self) now 0 (rx_states self);
        Ret (match i with
             | Some i => alter (λ st, start_receive st src_mac dst_mac size tag (now k)) i states
             | None => states
             end, i)
    end = Ret (states, Some i)).
  { destruct Hup as [[-> [Hok Hclk Hfree Hnew]]|[i Hw]].
    - rewrite (none_mine _ Hnew). destruct (find_free_ok (frequency self) now 0 _ Hok Hclk Hfree) as (l' & i & k & st & -> & Hi & Hst & Hm).
      cbn [mbind outcome_bind]. eexists i, _. split; [|done]. eexists. rewrite list_lookup_alter, Hi, decide_True by done. split; [done|].
      split; [by apply start_reassembling|]. intros j st' Hj Hne. rewrite list_lookup_alter_ne in Hj by done.
      specialize (Hm Hnew). rewrite Forall_lookup in Hm. eauto.
    - rewrite (under_way_found _ _ _ Hw). eauto. }
  destruct Hfound as (i & states & (st & Hi & Hst & Hne) & Hfound). unfold receive_fragment. rewrite Hfound. cbn [mbind outcome_bind].
  rewrite Hi, Hctx. destruct (receive_piece st R p Hst Hp Hdis) as (st' & -> & Hst'). cbn [mbind outcome_bind].
  exists i, (<[i := st']> states). split.
  - exists st'. rewrite list_lookup_insert_eq by (by eapply lookup_lt_Some). split; [done|]. split; [done|].
    intros j st2 Hj Hji. rewrite list_lookup_insert_ne in Hj by done. eauto.
  - by case_bool_decide.
Qed.

Lemma receive_frame_piece (self : Sixlowpan T) now p : piece_ok p →
  receive_frame self now (piece_frame p) (zlen (piece_frame p)) src_mac dst_mac =
    receive_fragment self now (piece_payload p) (zlen (piece_payload p)) src_mac dst_mac size tag p.1.
Proof.
  intros Hp. pose proof Hp as [[H0 H0'] _ H2 _]. unfold receive_frame, piece_frame. destruct (Z.eqb_spec p.1 0) as [E|E].
  - assert (Hc : ∃ c rest, piece_payload p = c :: rest).
    { unfold piece_payload. rewrite (proj2 (Z.eqb_eq _ _) E). destruct cp as [|c cp']; [unfold zlen in Hcp; cbn in Hcp; lia|]. by eexists _, _. }
    destruct Hc as (c & rest & Hc).
    rewrite (bind_ret_eq _ _ true) by (apply get_frag1; [lia|done]). cbv iota.
    assert (Hr : get_range (frag1_bytes size tag ++ piece_payload p) 0 5 = Some (frag1_bytes size tag ++ [c])).
    { rewrite Hc. change (c :: rest) with ([c] ++ rest). rewrite app_assoc. by apply (get_range_mid []). }
    rewrite Hr. rewrite (bind_ret_eq _ _ (true, size, tag, 0)) by (apply get_frag1; [lia|done]). cbv iota zeta.
    rewrite get_from_app by done. rewrite zlen_app. change (zlen (frag1_bytes size tag)) with FRAG1_HDR_SIZE.
    rewrite usub_ok by (pose proof (zlen_nonneg (piece_payload p)); lia). cbn [mbind outcome_bind].
    replace (FRAG1_HDR_SIZE + zlen (piece_payload p) - FRAG1_HDR_SIZE) with (zlen (piece_payload p)) by lia. by rewrite E.
  - rewrite (bind_ret_eq _ _ true) by (apply get_fragn; [lia|done|done]). cbv iota.
    assert (Hr : get_range (fragn_bytes size tag p.1 ++ piece_payload p) 0 5 = Some (fragn_bytes size tag p.1)).
    { by apply (get_range_mid []). }
    rewrite Hr. rewrite (bind_ret_eq _ _ (false, size, tag, p.1)).
    2:{ pose proof (proj1 (get_fragn size tag p.1 [] ltac:(lia) Htag H0')) as Hg. by rewrite app_nil_r in Hg. }
    cbv iota zeta. rewrite get_from_app by done. rewrite zlen_app. change (zlen (fragn_bytes size tag p.1)) with FRAGN_HDR_SIZE.
    rewrite usub_ok by (pose proof (zlen_nonneg (piece_payload p)); lia). cbn [mbind outcome_bind].
    by replace (FRAGN_HDR_SIZE + zlen (piece_payload p) - FRAGN_HDR_SIZE) with (zlen (piece_payload p)) by lia.
Qed.
(** The layer hands over a piece and calls the client when it was the last. *)
Lemma layer_piece (self : Sixlowpan T) r R p : ctx_store self = s → rx_client self = true →
  taking_up (rx_states self) (r_now r) R → piece_ok p → spans R ## piece_span p → carries r src_mac dst_mac (piece_frame p) →
  ∃ i states, under_way states i (p :: R) ∧
    if bool_decide (spans (p :: R) = span 0 (size / 8)) then
      ∃ pk states', rx_packet <$> states !! i = Some (Some pk) ∧
        Sixlowpan_receive self (r_now r) (r_buf r) (r_header r) (r_offset r) (r_len r) =
          Ret ([(pk, size, Ok tt)], set_rx_states self states')
    else Sixlowpan_receive self (r_now r) (r_buf r) (r_header r) (r_offset r) (r_len r) = Ret ([], set_rx_states self states).
Proof.
  intros Hctx Hcl Hup Hp Hdis (Hr & Hl & Hsa & Hda).
  destruct (receive_fragment_piece self (r_now r) R p Hctx Hup Hp Hdis) as (i & states & Hw & Hrf).
  exists i, states. split; [done|].
  assert (Hrcv : Sixlowpan_receive self (r_now r) (r_buf r) (r_header r) (r_offset r) (r_len r) =
    ('((i, r), self) ← Ret (if bool_decide (spans (p :: R) = span 0 (size / 8)) then (Some i, Ok tt) else (None, Ok tt), set_rx_states self states);
      match i with
      | None => Ret ([], self)
      | Some i =>
          match rx_states self !! i with
          | None => Panic
          | Some st =>
              '(st, calls) ← end_receive st (rx_client self) r;
              Ret (calls, set_rx_states self (<[i := st]> (rx_states self)))
          end
      end)).
  { unfold Sixlowpan_receive. rewrite Hsa, Hda, Hr. cbn [default]. cbv zeta. rewrite Hl, receive_frame_piece, Hrf by done. done. }
  rewrite Hrcv. case_bool_decide; [|done]. cbn [mbind outcome_bind rx_states set_rx_states rx_client].
  destruct Hw as (st & Hi & [Hb Ht Hsz Hsm Hdm (pk & Hpk & _) _ _] & _). rewrite Hi. unfold end_receive. rewrite Hcl, Hpk, Hsz.
  cbn [mbind outcome_bind]. eexists pk, _. split; [cbn; by rewrite Hpk|done].
Qed.

(** A whole datagram, from any state of its reassembly. *)
Lemma layer_pieces ps rs (self : Sixlowpan T) R :
  ctx_store self = s → rx_client self = true → ps ≠ [] → Forall piece_ok (ps ++ R) → apart (ps ++ R) →
  spans (ps ++ R) = span 0 (size / 8) → (∀ j, 0 ≤ j < size → covered (ps ++ R) j) →
  (∀ r, r ∈ rs → taking_up (rx_states self) (r_now r) R) →
  Forall2 (λ r p, carries r src_mac dst_mac (piece_frame p)) rs ps →
  ∃ pk self', receive_all self rs = Ret ([(pk, size, Ok tt)], self') ∧ take (Z.to_nat size) pk = target.
Proof.
  revert rs self R. induction ps as [|p ps IH]; [done|]. intros [|r rs] self R Hctx Hcl _ Hok Hap Hsp Hcov Hup Hrs; [by inversion Hrs|].
  apply Forall2_cons in Hrs as [Hr Hrs]. pose proof Hok as [Hp _]%Forall_cons.
  pose proof (apart_perm _ _ (Permutation_middle ps R p) Hap) as Hap'.
  assert (Hdis : spans R ## piece_span p).
  { inversion Hap as [|? ? Hall _]; subst. apply Forall_app in Hall as [_ Hall]. by apply apart_spans. }
  destruct (layer_piece self r R p Hctx Hcl) as (i & states & Hw & Hrcv); [by apply Hup; left|done..|].
  cbn [receive_all]. destruct ps as [|q ps].
  - apply Forall2_nil_inv_r in Hrs as ->. rewrite bool_decide_true in Hrcv by done.
    destruct Hrcv as (pk & states' & Hpk & ->). cbn [mbind outcome_bind receive_all]. eexists pk, _. split; [done|].
    destruct Hw as (st & Hi & Hst & _). rewrite Hi in Hpk. cbn in Hpk. simplify_eq.
    destruct (reassembled st (p :: R) Hst Hcov) as (pk' & Hpk' & _ & Ht). by simplify_eq.
  - assert (Hnot : spans (p :: R) ≠ span 0 (size / 8)).
    { intros E. inversion Hap as [|? ? Hpq Hq]; subst. inversion Hq as [|? ? Hqr _]; subst. apply Forall_cons in Hpq as [Hpq _].
      apply Forall_app in Hqr as [_ Hqr]. apply apart_spans in Hqr.
      assert (Hqok : piece_ok q) by (apply Forall_cons in Hok as [_ Hok]; by apply Forall_cons in Hok as [? _]).
      pose proof (piece_span_bounds q Hqok) as Hb. assert (Hin : q.1 / 8 ∈ piece_span q) by (unfold piece_span; rewrite elem_of_span; lia).
      assert (q.1 / 8 ∈ spans (p :: R)); [|rewrite spans_cons in *; set_solver]. rewrite E, elem_of_span. lia. }
    rewrite bool_decide_false in Hrcv by done. rewrite Hrcv. cbn [mbind outcome_bind].
    destruct (IH rs (set_rx_states self states) (p :: R)) as (pk & self' & -> & Ht); try done.
    + rewrite <- Permutation_middle. done.
    + rewrite <- Hsp. symmetry. apply spans_perm, Permutation_middle.
    + intros j Hj. eapply covered_perm; [apply Permutation_middle|]. by apply Hcov.
    + intros r' Hr'. right. exists i. done.
    + cbn [mbind outcome_bind app]. eauto.
Qed.
End Reassembly.

(** ** Datagrams cut into pieces *)

(** The pieces of the lengths [ns] from offset [o]; whole groups but for the
    last, which has at least one, up to [e]. *)
Fixpoint cut (o : Z) (ns : list Z) : list piece :=
  match ns with [] => [] | n :: ns => (o, n) :: cut (o + n) ns end.
Fixpoint well_cut (o : Z) (ns : list Z) (e : Z) : Prop :=
  match ns with
  | [] => False
  | [n] => 8 ≤ n ∧ o + n = e
  | n :: ns => 8 ≤ n ∧ n mod 8 = 0 ∧ well_cut (o + n) ns e
  end.

Lemma well_cut_end o ns e : well_cut o ns e → o + 8 ≤ e.
Proof.
  revert o. induction ns as [|n ns IH]; intros o Hw; [done|]. destruct ns as [|m ns]; [cbn in Hw; lia|].
  destruct Hw as (H1 & _ & Hw). specialize (IH _ Hw). lia.
Qed.

Lemma cut_pieces o ns e : 0 ≤ o → o mod 8 = 0 → well_cut o ns e →
  Forall (λ p, o ≤ p.1 ∧ p.1 mod 8 = 0 ∧ 8 ≤ p.2 ∧ p.1 + p.2 ≤ e) (cut o ns) ∧ apart (cut o ns) ∧
  spans (cut o ns) = span (o / 8) (e / 8) ∧ ∀ j, o ≤ j < e → covered (cut o ns) j.
Proof.
  revert o. induction ns as [|n ns IH]; intros o H0 H8 Hw; [done|]. destruct ns as [|m ns].
  - destruct Hw as [Hn He]. cbn [cut]. split_and!.
    + repeat constructor; cbn; lia.
    + repeat constructor.
    + unfold spans. cbn. rewrite (right_id_L ∅ (∪)). unfold piece_span. cbn. by rewrite He.
    + intros j Hj. constructor. cbn. lia.
  - destruct Hw as (Hn & Hn8 & Hw). change (well_cut (o + n) (m :: ns) e) in Hw. pose proof (well_cut_end _ _ _ Hw) as Hend.
    destruct (IH (o + n) ltac:(lia) ltac:(byte_lia) Hw) as (Hf & Ha & Hs & Hc).
    change (cut o (n :: m :: ns)) with ((o, n) :: cut (o + n) (m :: ns)). set (l := cut (o + n) (m :: ns)) in *. split_and!.
    + constructor; [cbn; lia|]. eapply Forall_impl; [exact Hf|]. intros p Hp. cbn in *. lia.
    + constructor; [|done]. eapply Forall_impl; [exact Hf|]. intros p (Hp1 & Hp2 & Hp3 & Hp4) i. cbn in *. unfold piece_span. cbn. rewrite !elem_of_span. byte_lia.
    + rewrite spans_cons, Hs. unfold piece_span. cbn. apply set_eq. intros i. rewrite elem_of_union, !elem_of_span.
      assert (o / 8 ≤ (o + n) / 8 ≤ e / 8) by byte_lia. lia.
    + intros j Hj. destruct (Z_lt_dec j (o + n)); [by constructor; cbn; lia|]. apply Exists_cons_tl, Hc. lia.
Qed.

(** The bytes of a UDP packet, and a fragment of it as it is sent. *)
Definition datagram (h : IP6Header) (u : UDPHeader) (data : list Z) : list Z := ip6_bytes h ++ udp_wire u ++ data.

Definition fragment {T} `{ContextStore T} (s : T) (h : IP6Header) (u : UDPHeader) (src_mac dst_mac : MacAddress) (tag : Z)
    (data : list Z) (p : piece) : list Z :=
  piece_frame (zlen (datagram h u data)) tag (compressed_headers s h u src_mac dst_mac) (datagram h u data) p.

Record packet_ok (h : IP6Header) (u : UDPHeader) (data : list Z) : Prop := {
  pk_header : ip6_ok h;
  pk_version : get_version h = 6;
  pk_next : next_header h = NH_UDP;
  pk_udp : udp_ok u;
  pk_ports : ports_ok u;
  pk_udp_len : udp_get_len u = 8 + zlen data;
  pk_len : get_payload_len h = 8 + zlen data
}.

Lemma datagram_length h u data : ip6_ok h → zlen (datagram h u data) = 48 + zlen data.
Proof. intros Hok. unfold datagram. rewrite !zlen_app, (zlen_length _ _ (ip6_bytes_length h Hok)). change (zlen (udp_wire u)) with 8. lia. Qed.

Lemma datagram_headers h u data : ip6_ok h → take 48 (datagram h u data) = ip6_bytes h ++ udp_wire u.
Proof.
  intros Hok. pose proof (ip6_bytes_length h Hok) as Hl. unfold datagram. rewrite app_assoc, take_app_length'; [done|].
  rewrite length_app, Hl. done.
Qed.

Section Delivery.
Context {Pr : Profile}.
Context {T} `{ContextStore T} (ctx : Context) (self : Sixlowpan T) (h : IP6Header) (u : UDPHeader) (data : list Z)
  (src_mac dst_mac : MacAddress) (tag : Z).
Abbreviation size := (zlen (datagram h u data)).
Context (Hs : store_ok (ctx_store self) ctx) (Hp : packet_ok h u data) (Hsm : mac_ok src_mac) (Hdm : mac_ok dst_mac) (Htag : u16 tag).
Context (Hcl : rx_client self = true) (Hmax : size < 1280) (Hgroups : (size / 8) mod 8 ≠ 0).

Lemma decompress_first out more : zlen more ≤ 65000 → 48 ≤ zlen out →
  decompress (ctx_store self) (compressed_headers (ctx_store self) h u src_mac dst_mac ++ more) src_mac dst_mac out size true =
    Ret (Some (zlen (compressed_headers (ctx_store self) h u src_mac dst_mac), 48, take 48 (datagram h u data) ++ drop 48 out)).
Proof.
  destruct Hp as [Hok Hv Hn Hu Hpo Hul Hpl]. intros Hm Ho. rewrite datagram_headers, <- app_assoc by done.
  pose proof (zlen_nonneg data). pose proof (datagram_length h u data Hok) as Hd.
  apply (decompress_headers _ ctx); try done; [|by rewrite Hul]. cbn. lia.
Qed.

(** The fragments, in any order, lead to one call with the datagram. *)
Lemma fragments_arrive n ns order rs :
  48 ≤ n → well_cut 0 (n :: ns) size → Permutation (cut 0 (n :: ns)) order →
  (∀ r, r ∈ rs → ready src_mac dst_mac size tag (rx_states self) (r_now r)) →
  Forall2 (λ r p, carries r src_mac dst_mac (fragment (ctx_store self) h u src_mac dst_mac tag data p)) rs order →
  ∃ pk self', receive_all self rs = Ret ([(pk, size, Ok tt)], self') ∧ take (Z.to_nat size) pk = datagram h u data.
Proof.
  intros Hn Hw Hperm Hready Hrs. destruct Hp as [Hok _ _ _ _ _ _]. pose proof (datagram_length h u data Hok) as Hd.
  pose proof (zlen_nonneg data). destruct (cut_pieces 0 (n :: ns) size ltac:(lia) ltac:(done) Hw) as (Hf & Ha & Hsp & Hc).
  eapply (layer_pieces (ctx_store self) src_mac dst_mac size tag (compressed_headers (ctx_store self) h u src_mac dst_mac)
    (datagram h u data)) with (R := []); try done.
  - lia.
  - by pose proof (compressed_headers_length (ctx_store self) h u src_mac dst_mac Hok); lia.
  - intros more out Hm Ho. by apply decompress_first.
  - intros ->. by apply Permutation_nil_r in Hperm.
  - rewrite app_nil_r, <- Hperm. cbn [cut]. destruct ns as [|m ns].
    + destruct Hw as [_ Hw]. repeat constructor; cbn; lia || done.
    + destruct Hw as (_ & Hn8 & Hw). change (well_cut (0 + n) (m :: ns) size) in Hw. pose proof (well_cut_end _ _ _ Hw).
      constructor; [split; cbn; done || lia|]. destruct (cut_pieces (0 + n) (m :: ns) size ltac:(lia) ltac:(done) Hw) as [Hf' _].
      eapply Forall_impl; [exact Hf'|]. intros p (? & ? & ? & ?). split; lia.
  - rewrite app_nil_r. by eapply apart_perm.
  - rewrite app_nil_r, <- (spans_perm _ _ Hperm). by rewrite Hsp.
  - intros j Hj. rewrite app_nil_r. eapply covered_perm; [done|]. by apply Hc.
  - intros r Hr. left. split; [done|]. by apply Hready.
Qed.

(** The data behind the decompressed headers complete the datagram. *)
Lemma data_copied pk cp : ip6_ok h → size ≤ zlen pk →
  copy_rest (take 48 (datagram h u data) ++ drop 48 pk) 48 (cp ++ data) (zlen cp) (zlen data) =
    Ret (datagram h u data ++ drop (Z.to_nat size) pk).
Proof.
  intros Hok Hpk. pose proof (datagram_length h u data Hok) as Hd. unfold copy_rest.
  rewrite (proj2 (get_range_Some (cp ++ data) data (zlen cp) (zlen cp + zlen data))).
  2:{ pose proof (zlen_nonneg cp). pose proof (zlen_nonneg data). rewrite zlen_app. split; [lia|]. split; [lia|].
      rewrite drop_app_length' by (unfold zlen; lia). symmetry. apply take_ge. unfold zlen in *. lia. }
  rewrite splice_ok by (unfold zlen in *; rewrite ?length_app, ?length_take, ?length_drop; lia). f_equal.
  rewrite (take_app_length' (take 48 (datagram h u data))) by (unfold zlen in *; rewrite length_take; lia).
  rewrite drop_app_ge by (unfold zlen in *; rewrite length_take; lia). rewrite drop_drop, datagram_headers by done.
  unfold datagram at 1. rewrite <- !app_assoc. do 4 f_equal. unfold zlen in *. rewrite length_app, (ip6_bytes_length h Hok). cbn. lia.
Qed.

(** A packet in one frame leads to the same call at once. *)
Lemma single_arrives r :
  ready src_mac dst_mac size tag (rx_states self) (r_now r) →
  carries r src_mac dst_mac (compressed_headers (ctx_store self) h u src_mac dst_mac ++ data) →
  ∃ pk self', receive_all self [r] = Ret ([(pk, size, Ok tt)], self') ∧ take (Z.to_nat size) pk = datagram h u data.
Proof.
  intros [Hst Hclk Hfree Hnew] (Hr & Hl & Hsa & Hda). destruct Hp as [Hok Hv Hn Hu Hpo Hul Hpl].
  pose proof (datagram_length h u data Hok) as Hd. pose proof (zlen_nonneg data).
  destruct (find_free_ok src_mac dst_mac size tag (frequency self) (r_now r) 0 (rx_states self) Hst Hclk Hfree)
    as (states & i & k & st & Hff & Hi & ((pk & Hpk & Hpkl) & _) & _).
  set (cp := compressed_headers (ctx_store self) h u src_mac dst_mac) in *.
  destruct (compressed_headers_dispatch (ctx_store self) h u src_mac dst_mac data) as (b & tl & Hb & Hbits). fold cp in Hb.
  assert (Hig : index_get (cp ++ data) 0 = Ret b) by by rewrite Hb.
  assert (Hnf : is_fragment (cp ++ data) = Ret false).
  { unfold is_fragment. rewrite Hig. cbn [mbind outcome_bind]. unfold FRAGN_HDR, FRAG1_HDR. by rewrite Hbits. }
  assert (Hlp : is_lowpan (cp ++ data) = Ret true).
  { unfold is_lowpan. rewrite Hig. cbn [mbind outcome_bind]. do 2 f_equal. change 0x60 with (Z.land 0xe0 0x60) at 1.
    by rewrite Z.land_assoc, Hbits. }
  assert (Hdec : decompress (ctx_store self) (cp ++ data) src_mac dst_mac pk 0 false = Ret (Some (zlen cp, 48, take 48 (datagram h u data) ++ drop 48 pk))).
  { rewrite datagram_headers, <- app_assoc by done. apply (decompress_headers _ ctx); try done; by rewrite ?Hul || lia. }
  cbn [receive_all]. unfold Sixlowpan_receive. rewrite Hsa, Hda, Hr, Hl. cbn [default]. cbv zeta. unfold receive_frame. rewrite Hnf. cbn [mbind outcome_bind].
  unfold receive_single_packet. rewrite Hff. cbn [mbind outcome_bind]. rewrite Hi. unfold start_receive. cbn [rx_packet]. cbv zeta.
  cbn [rx_packet]. rewrite Hpk. cbn [mbind outcome_bind]. rewrite Hlp. cbn [mbind outcome_bind negb].
  rewrite (proj2 (get_range_Some (cp ++ data) (cp ++ data) 0 (zlen (cp ++ data)))).
  2:{ pose proof (zlen_nonneg (cp ++ data)). split; [lia|]. split; [lia|]. symmetry. apply take_ge. unfold zlen. cbn. lia. }
  unfold id. rewrite Hdec. cbn [mbind outcome_bind]. rewrite zlen_app, usub_ok by lia. cbn [mbind outcome_bind].
  replace (zlen cp + zlen data - zlen cp) with (zlen data) by lia. rewrite data_copied by done. cbn [mbind outcome_bind rx_states set_rx_states].
  rewrite list_lookup_insert_eq by (by eapply lookup_lt_Some). unfold end_receive. cbn [rx_client set_rx_states]. rewrite Hcl.
  cbn [set_rx_packet set_rx_size rx_packet rx_dgram_size mbind outcome_bind app].
  assert (Hsz : as_u16 (48 + zlen data) = size) by (unfold as_u16; change 0xFFFF with (Z.ones 16); rewrite land_ones_small; lia).
  rewrite Hsz. eexists _, _. split; [done|]. apply take_app_length'. unfold zlen. lia.
Qed.
End Delivery.
