(* ===== verification/Ip6Stack.v ===== *)
(** * IPv6 and UDP above 6LoWPAN (capsules/extra/src/net/ipv6/ipv6_send.rs, ipv6_recv.rs, udp/udp_recv.rs)

    The sender that hands the fragments of a packet to the radio one after the
    other, the receiver that checks a packet, and the distribution of UDP
    payloads to the ports bound. *)

From S2P Require Import Prelude Bytes Syscall NetStream Ieee802154 Ipv6 Sixlowpan FragUtils Framer SixlowpanState.

(** ** Sending: [IP6SendStruct] *)

(** The packet is only borrowed during a call; [send_tx_buf] is empty while the
    radio has the buffer. *)
Record IP6SendStruct := mkSend {
  send_packet : IP6Packet;
  send_src_addr : list Z;
  gateway : MacAddress;
  send_tx_buf : option (list Z);
  send_tx : TxState;
  send_dst_mac : MacAddress;
  send_src_mac : MacAddress
}.

(** What the sender does to its surroundings. *)
Inductive SendEvent : Type :=
| Transmit (f : Frame)
| SetAlarm
| ClientSendDone (r : result unit ErrorCode).

Definition with_tx (self : IP6SendStruct) (buf : option (list Z)) (tx : TxState) : IP6SendStruct :=
  mkSend (send_packet self) (send_src_addr self) (gateway self) buf tx (send_dst_mac self) (send_src_mac self).
Definition with_packet (self : IP6SendStruct) (p : IP6Packet) : IP6SendStruct :=
  mkSend p (send_src_addr self) (gateway self) (send_tx_buf self) (send_tx self) (send_dst_mac self) (send_src_mac self).
Definition set_addr (self : IP6SendStruct) (a : list Z) : IP6SendStruct :=
  mkSend (send_packet self) a (gateway self) (send_tx_buf self) (send_tx self) (send_dst_mac self) (send_src_mac self).
Definition set_gateway (self : IP6SendStruct) (g : MacAddress) : IP6SendStruct :=
  mkSend (send_packet self) (send_src_addr self) g (send_tx_buf self) (send_tx self) (send_dst_mac self) (send_src_mac self).
Definition set_header (self : IP6SendStruct) (h : IP6Header) : IP6SendStruct :=
  with_packet self (mkPacket h (packet_payload (send_packet self))).

(** [init_packet]; [None] when the checksum is not computed with the fuel. *)
Definition init_packet (fuel : nat) (self : IP6SendStruct) (dst : list Z) (th : TransportHeader) (p : list Z)
    : outcome (option IP6SendStruct) :=
  let h := set_dst_addr (set_src_addr IP6Header_new (send_src_addr self)) dst in
  packet ← IP6Packet_set_payload (mkPacket h (packet_payload (send_packet self))) th p;
  r ← set_transport_checksum fuel packet;
  Ret (option_map (with_packet self) r).

Section Sending.
Context {T D} `{ContextStore T} `{MacDevice D} (s : T) (radio : D).

(** [send_next_fragment]; [answer] is the error of [radio.transmit], if any.
    [tag] is the tag of the 6LoWPAN layer. *)
Definition send_next_fragment (self : IP6SendStruct) (tag : Z) (answer : option ErrorCode)
    : outcome (result unit ErrorCode * IP6SendStruct * Z * list SendEvent) :=
  match send_tx_buf self with
  | None => Ret (Err BUSY, self, tag, [])
  | Some tx_buf =>
      '(r, tx, tag) ← next_fragment s radio (send_tx self) tag (send_packet self) tx_buf;
      match r with
      | Ok (true, frame) => Ret (Ok tt, with_tx self (Some (into_buf frame)) tx, tag, [ClientSendDone (Ok tt)])
      | Ok (false, frame) =>
          match answer with
          | None => Ret (Ok tt, with_tx self None tx, tag, [Transmit frame])
          | Some e => Ret (Err e, with_tx self None tx, tag, [Transmit frame])
          end
      | Err (e, buf) => Ret (Ok tt, with_tx self (Some buf) tx, tag, [ClientSendDone (Err e)])
      end
  end.

(** [send_to]; [valid] is the answer of the capability, [pan] that of the radio. *)
Definition send_to (fuel : nat) (self : IP6SendStruct) (tag : Z) (answer : option ErrorCode) (valid : bool) (pan : Z)
    (dst : list Z) (th : TransportHeader) (p : list Z)
    : outcome (option (result unit ErrorCode * IP6SendStruct * Z * list SendEvent)) :=
  if negb valid then Ret (Some (Err FAIL, self, tag, []))
  else
    let tx := (TxState_init (send_tx self) (send_src_mac self) (send_dst_mac self) pan None).2 in
    r ← init_packet fuel (with_tx self (send_tx_buf self) tx) dst th p;
    match r with
    | None => Ret None
    | Some self => x ← send_next_fragment self tag answer; Ret (Some x)
    end.

(** [AlarmClient::alarm]. *)
Definition send_alarm (self : IP6SendStruct) (tag : Z) (answer : option ErrorCode) : outcome (IP6SendStruct * Z * list SendEvent) :=
  '(r, self, tag, ev) ← send_next_fragment self tag answer;
  Ret (self, tag, ev ++ match r with Ok _ => [] | Err e => [ClientSendDone (Err e)] end).

(** [TxClient::send_done]. *)
Definition send_done (self : IP6SendStruct) (tx_buf : list Z) (r : result unit ErrorCode) : IP6SendStruct * list SendEvent :=
  let self := with_tx self (Some tx_buf) (send_tx self) in
  match r with
  | Err e => (self, [ClientSendDone (Err e)])
  | Ok _ => (self, [SetAlarm])
  end.
End Sending.

(** ** Receiving: [IP6RecvStruct] *)

(** What the client is called with: the header and the payload.  The outer
    option is the fuel of the checksum. *)
Definition IP6Recv_receive (fuel : nat) (buf : list Z) (len : Z) (r : result unit ErrorCode) : outcome (option (option (IP6Header * list Z))) :=
  if (zlen buf <? len) || result_is_err r then Ret (Some None)
  else
    d ← sresult_done (IP6Header_decode buf);
    match d with
    | None => Ret (Some None)
    | Some (offset, h) =>
        match get_range buf offset len with
        | None => Panic
        | Some p =>
            c ← check_transport_checksum fuel h p;
            Ret (match c with
                 | None => None
                 | Some (Err FAIL) => Some None
                 | Some _ => Some (Some (h, p))
                 end)
        end
    end.

(** ** UDP: [MuxUdpReceiver] *)

(** A receiver: the port it is bound to, if any, and whether it has a client. *)
Record UDPReceiver := mkReceiver { binding : option Z; has_client : bool }.

(** The receivers in the order of their list, and the ports bound by the system
    call driver, if there is one. *)
Record MuxUdpReceiver := mkMux { rcvr_list : list UDPReceiver; driver : option (Z → bool) }.

Inductive Recipient : Type := Receiver (i : nat) | Driver.

(** A call to a client: the recipient, the two addresses, the two ports, the
    payload. *)
Definition Delivery : Type := Recipient * list Z * list Z * Z * Z * list Z.

(** [for rcvr in self.rcvr_list.iter()]: who is called, if anyone. *)
Fixpoint find_recipient (i : nat) (l : list UDPReceiver) (driver : option (Z → bool)) (port : Z) : option Recipient :=
  match l with
  | [] => None
  | r :: l =>
      match binding r with
      | Some b =>
          if b =? port then (if has_client r then Some (Receiver i) else None)
          else find_recipient (S i) l driver port
      | None =>
          match driver with
          | Some is_bound => if is_bound port then Some Driver else find_recipient (S i) l driver port
          | None => find_recipient (S i) l driver port
          end
      end
  end.

Definition MuxUdpReceiver_receive (self : MuxUdpReceiver) (h : IP6Header) (p : list Z) : outcome (list Delivery) :=
  d ← sresult_done (UDPHeader_decode p);
  match d with
  | None => Ret []
  | Some (offset, u) =>
      if zlen p <? udp_get_len u then Ret []
      else
        match get_from p offset with
        | None => Panic
        | Some data =>
            Ret (match find_recipient 0 (rcvr_list self) (driver self) (get_dst_port u) with
                 | Some to => [(to, src_addr h, dst_addr h, get_src_port u, get_dst_port u, data)]
                 | None => []
                 end)
        end
  end.
