(* ===== verification/UdpPorts.v ===== *)
(** * UDP ports (capsules/extra/src/net/network_capabilities.rs, udp/udp_port_table.rs)

    What a network capability allows, and the table of the ports bound by
    capsules.  Sockets and bindings are values that the code moves and cannot
    copy; the transition system below keeps the ones that are alive.

    Theorem: at every time each port has at most one holder. *)

From stdpp Require Import relations.
From S2P Require Import Prelude Bytes Syscall NetStream.

(** ** Capabilities *)

Inductive AddrRange : Type :=
| AnyAddr
| NoAddrs
| AddrSet (allowed : list (list Z))
| Addr (allowed : list Z)
| Subnet (allowed : list Z) (prefix_len : Z).

Definition is_addr_valid (self : AddrRange) (addr : list Z) : outcome bool :=
  match self with
  | AnyAddr => Ret true
  | NoAddrs => Ret false
  | AddrSet allowed => Ret (bool_decide (addr ∈ allowed))
  | Addr allowed => Ret (bool_decide (addr = allowed))
  | Subnet allowed prefix_len =>
      let full_bytes := prefix_len / 8 in
      let remainder_bits := prefix_len mod 8 in
      match get_range allowed 0 full_bytes, get_range addr 0 full_bytes with
      | Some a, Some b =>
          if negb (bool_decide (a = b)) then Ret false
          else if remainder_bits =? 0 then Ret true
          else
            x ← index_get addr full_bytes;
            y ← index_get allowed full_bytes;
            Ret (Z.shiftr x (8 - remainder_bits) =? Z.shiftr y (8 - remainder_bits))
      | _, _ => Panic
      end
  end.

Inductive PortRange : Type :=
| AnyPort
| NoPorts
| PortSet (allowed : list Z)
| Range (low high : Z)
| OnePort (allowed : Z).

Definition is_port_valid (self : PortRange) (port : Z) : bool :=
  match self with
  | AnyPort => true
  | NoPorts => false
  | PortSet allowed => bool_decide (port ∈ allowed)
  | Range low high => (low <=? port) && (port <=? high)
  | OnePort allowed => port =? allowed
  end.

Record NetworkCapability := mkCap { remote_addrs : AddrRange; remote_ports : PortRange; local_ports : PortRange }.

Definition remote_addr_valid (self : NetworkCapability) (a : list Z) : outcome bool := is_addr_valid (remote_addrs self) a.
Definition remote_port_valid (self : NetworkCapability) (p : Z) : bool := is_port_valid (remote_ports self) p.
Definition local_port_valid (self : NetworkCapability) (p : Z) : bool := is_port_valid (local_ports self) p.

(** ** The table *)

Definition MAX_NUM_BOUND_PORTS : Z := 16.

Inductive SocketBindingEntry : Type := Port (p : Z) | Unbound.

#[export] Instance SocketBindingEntry_eq_dec : EqDecision SocketBindingEntry.
Proof. solve_decision. Defined.

(** [port_array]; the ports bound by applications are asked for through
    [user_ports]. *)
Definition PortTable : Type := list (option SocketBindingEntry).

(** A socket is the index of its slot; a binding has the index and the port. *)
Definition UdpSocket : Type := Z.
Definition UdpPortBinding : Type := Z * Z.

(** The loop of [create_socket] from the index [i] on. *)
Fixpoint create_from (is_ : list Z) (table : PortTable) : outcome (result UdpSocket ErrorCode * PortTable) :=
  match is_ with
  | [] => Ret (Err FAIL, table)
  | i :: is_ =>
      e ← index_get table i;
      match e with
      | None => table ← index_set table i (Some Unbound); Ret (Ok i, table)
      | Some _ => create_from is_ table
      end
  end.
Definition create_socket (table : PortTable) : outcome (result UdpSocket ErrorCode * PortTable) :=
  create_from (seqZ 0 MAX_NUM_BOUND_PORTS) table.

(** [destroy_socket], when a socket is dropped. *)
Definition destroy_socket (table : PortTable) (socket : UdpSocket) : outcome PortTable :=
  e ← index_get table socket;
  if bool_decide (e = Some Unbound) then index_set table socket None else Ret table.

Fixpoint port_exists (is_ : list Z) (table : PortTable) (port : Z) : outcome bool :=
  match is_ with
  | [] => Ret false
  | i :: is_ => e ← index_get table i; if bool_decide (e = Some (Port port)) then Ret true else port_exists is_ table port
  end.

Definition is_bound (user_ports : option (Z → bool)) (table : PortTable) (port : Z) : outcome (result bool unit) :=
  match user_ports with
  | None => Ret (Err tt)
  | Some q =>
      if q port then Ret (Ok true)
      else b ← port_exists (seqZ 0 MAX_NUM_BOUND_PORTS) table port; Ret (Ok b)
  end.

(** [bind]: the pair of bindings, or the socket back.  The socket of a binding is
    dropped when the function returns. *)
Definition bind (user_ports : option (Z → bool)) (cap : NetworkCapability) (table : PortTable) (socket : UdpSocket) (port : Z)
    : outcome (result (UdpPortBinding * UdpPortBinding) UdpSocket * PortTable) :=
  if local_port_valid cap port then
    r ← is_bound user_ports table port;
    match r with
    | Ok true | Err _ => Ret (Err socket, table)
    | Ok false =>
        table ← index_set table socket (Some (Port port));
        table ← destroy_socket table socket;
        Ret (Ok ((socket, port), (socket, port)), table)
    end
  else Ret (Err socket, table).

Definition unbind (table : PortTable) (tx rx : UdpPortBinding) : outcome (result UdpSocket (UdpPortBinding * UdpPortBinding) * PortTable) :=
  if negb (tx.1 =? rx.1) then Ret (Err (tx, rx), table)
  else table ← index_set table tx.1 (Some Unbound); Ret (Ok tx.1, table).

(** ** Programs over the table *)

(** The table and the sockets and bindings that are alive. *)
Record PortSys := mkPorts { table : PortTable; sockets : list UdpSocket; txs : list UdpPortBinding; rxs : list UdpPortBinding }.

Definition ports_new : PortSys := mkPorts (replicate 16 None) [] [] [].

Definition without {A} `{EqDecision A} (x : A) (l : list A) : list A := filter (λ y, y ≠ x) l.

(** What the holders of sockets and bindings can do; an operation on a value that
    is not alive is not a program and does nothing. *)
Inductive port_op : Type :=
| OpCreate
| OpDropSocket (s : UdpSocket)
| OpBind (user_ports : option (Z → bool)) (cap : NetworkCapability) (s : UdpSocket) (p : Z)
| OpUnbind (tx rx : UdpPortBinding)
| OpDropTx (tx : UdpPortBinding)
| OpDropRx (rx : UdpPortBinding).

Definition port_step (o : port_op) (st : PortSys) : outcome PortSys :=
  match o with
  | OpCreate =>
      '(r, t) ← create_socket (table st);
      Ret (mkPorts t (match r with Ok s => s :: sockets st | Err _ => sockets st end) (txs st) (rxs st))
  | OpDropSocket s =>
      if decide (s ∈ sockets st) then
        t ← destroy_socket (table st) s; Ret (mkPorts t (without s (sockets st)) (txs st) (rxs st))
      else Ret st
  | OpBind user cap s p =>
      if decide (s ∈ sockets st) then
        '(r, t) ← bind user cap (table st) s p;
        Ret (match r with
             | Ok (tx, rx) => mkPorts t (without s (sockets st)) (tx :: txs st) (rx :: rxs st)
             | Err _ => mkPorts t (sockets st) (txs st) (rxs st)
             end)
      else Ret st
  | OpUnbind tx rx =>
      if decide (tx ∈ txs st ∧ rx ∈ rxs st) then
        '(r, t) ← unbind (table st) tx rx;
        Ret (match r with
             | Ok s => mkPorts t (s :: sockets st) (without tx (txs st)) (without rx (rxs st))
             | Err _ => mkPorts t (sockets st) (txs st) (rxs st)
             end)
      else Ret st
  | OpDropTx tx => Ret (mkPorts (table st) (sockets st) (without tx (txs st)) (rxs st))
  | OpDropRx rx => Ret (mkPorts (table st) (sockets st) (txs st) (without rx (rxs st)))
  end.

Fixpoint run_ports (os : list port_op) (st : PortSys) : outcome PortSys :=
  match os with [] => Ret st | o :: os => st ← port_step o st; run_ports os st end.

(** ** Each port has one holder *)

Definition slot (t : list (option SocketBindingEntry)) (i : Z) : option (option SocketBindingEntry) := if i <? 0 then None else t !! Z.to_nat i.

(** The slot of a socket is reserved, the slot of a binding has its port, no two
    slots have the same port, and sockets and bindings of a kind have different
    slots. *)
Record table_ok (st : PortSys) : Prop := {
  po_len : length (table st) = 16%nat;
  po_distinct : ∀ i j p, slot (table st) i = Some (Some (Port p)) → slot (table st) j = Some (Some (Port p)) → i = j;
  po_sockets : NoDup (sockets st) ∧ ∀ s, s ∈ sockets st → slot (table st) s = Some (Some Unbound);
  po_txs : NoDup (txs st).*1 ∧ ∀ b, b ∈ txs st → slot (table st) b.1 = Some (Some (Port b.2));
  po_rxs : NoDup (rxs st).*1 ∧ ∀ b, b ∈ rxs st → slot (table st) b.1 = Some (Some (Port b.2))
}.

Lemma slot_get t i e : slot t i = Some e → index_get t i = Ret e.
Proof. unfold slot, index_get. destruct (i <? 0); [done|]. by intros ->. Qed.

Lemma slot_set t i e e' : slot t i = Some e →
  ∃ t', index_set t i e' = Ret t' ∧ length t' = length t ∧ ∀ j, slot t' j = if decide (j = i) then Some e' else slot t j.
Proof.
  unfold slot. intros H. destruct (Z.ltb_spec i 0); [done|]. pose proof (lookup_lt_Some _ _ _ H).
  exists (<[Z.to_nat i := e']> t). rewrite index_set_Ret by lia. split; [done|]. split; [by rewrite length_insert|].
  intros j. destruct (Z.ltb_spec j 0); [by rewrite decide_False by lia|]. destruct (decide (j = i)) as [->|].
  - by rewrite list_lookup_insert_eq.
  - rewrite list_lookup_insert_ne by lia. done.
Qed.

Lemma slot_inside t i : length t = 16%nat → 0 ≤ i < 16 → is_Some (slot t i).
Proof. intros Hl Hi. unfold slot. rewrite (proj2 (Z.ltb_ge _ _)) by lia. apply lookup_lt_is_Some_2. lia. Qed.

Lemma slot_range t i e : length t = 16%nat → slot t i = Some e → 0 ≤ i < 16.
Proof. unfold slot. intros Hl. destruct (Z.ltb_spec i 0); [done|]. intros ?%lookup_lt_Some. lia. Qed.

Lemma without_spec {A} `{EqDecision A} (x y : A) l : y ∈ without x l ↔ y ∈ l ∧ y ≠ x.
Proof. unfold without. rewrite list_elem_of_filter. tauto. Qed.

Lemma NoDup_fst_without {A B} `{EqDecision A, EqDecision B} (x : A * B) l : NoDup l.*1 → NoDup (without x l).*1.
Proof.
  intros H. induction l as [|y l IH]; [done|]. cbn in H. apply NoDup_cons in H as [Hy H]. unfold without in *. rewrite filter_cons.
  destruct (decide (y ≠ x)); [|auto]. cbn. constructor; [|auto]. intros (z & E & Hz)%list_elem_of_fmap.
  apply Hy, list_elem_of_fmap. exists z. split; [done|]. by apply list_elem_of_filter in Hz as [_ Hz].
Qed.

(** Two bindings of a kind with the same slot are the same. *)
Lemma same_slot {A B} (l : list (A * B)) x y : NoDup l.*1 → x ∈ l → y ∈ l → x.1 = y.1 → x = y.
Proof.
  intros H Hx Hy E. apply list_elem_of_lookup in Hx as [i Hi], Hy as [j Hj].
  assert (Hij : i = j) by (eapply NoDup_lookup; [exact H|by rewrite list_lookup_fmap, Hi|by rewrite list_lookup_fmap, Hj, E]).
  subst j. congruence.
Qed.

Lemma create_from_ok is_ t : length t = 16%nat → Forall (λ i, 0 ≤ i < 16) is_ →
  ∃ r t', create_from is_ t = Ret (r, t') ∧ length t' = 16%nat ∧
    match r with
    | Err _ => t' = t
    | Ok i => slot t i = Some None ∧ ∀ j, slot t' j = if decide (j = i) then Some (Some Unbound) else slot t j
    end.
Proof.
  intros Hl. induction is_ as [|i is_ IH]; intros Hf; cbn [create_from]; [by eexists (Err FAIL), t|].
  apply Forall_cons in Hf as [Hi Hf]. destruct (slot_inside t i Hl Hi) as [e He]. rewrite (slot_get _ _ _ He). cbn [mbind outcome_bind].
  destruct e; [auto|]. destruct (slot_set t i None (Some Unbound) He) as (t' & -> & Hl' & Hs). cbn [mbind outcome_bind].
  exists (Ok i), t'. rewrite Hl'. auto.
Qed.

Lemma port_exists_ok is_ t p : length t = 16%nat → Forall (λ i, 0 ≤ i < 16) is_ →
  ∃ b, port_exists is_ t p = Ret b ∧ (b = false → ∀ i, i ∈ is_ → slot t i ≠ Some (Some (Port p))).
Proof.
  intros Hl. induction is_ as [|i is_ IH]; intros Hf; cbn [port_exists]; [exists false; split; [done|]; intros _ i Hi; by apply not_elem_of_nil in Hi|].
  apply Forall_cons in Hf as [Hi Hf]. destruct (slot_inside t i Hl Hi) as [e He]. rewrite (slot_get _ _ _ He). cbn [mbind outcome_bind].
  case_bool_decide; [by exists true|]. destruct (IH Hf) as (b & -> & Hb). exists b. split; [done|].
  intros Hbf j [->|Hj]%elem_of_cons; [congruence|auto].
Qed.

Lemma indices_inside : Forall (λ i, 0 ≤ i < 16) (seqZ 0 MAX_NUM_BOUND_PORTS).
Proof. apply Forall_forall. intros i Hi%elem_of_seqZ. unfold MAX_NUM_BOUND_PORTS in Hi. lia. Qed.

(** A change of one slot keeps what holds of the tokens of other slots. *)
Lemma tokens_kept (t t' : PortTable) i (e' : option SocketBindingEntry) l :
  (∀ j, slot t' j = if decide (j = i) then Some e' else slot t j) → i ∉ l.*1 →
  (∀ b : UdpPortBinding, b ∈ l → slot t b.1 = Some (Some (Port b.2))) → ∀ b, b ∈ l → slot t' b.1 = Some (Some (Port b.2)).
Proof.
  intros Ht' Hi Hl b Hb. rewrite Ht', decide_False; [auto|]. intros E. apply Hi, list_elem_of_fmap. by exists b.
Qed.

(** No binding has a slot that does not hold a port. *)
Lemma not_bound_here (t : PortTable) i e l : (∀ b : UdpPortBinding, b ∈ l → slot t b.1 = Some (Some (Port b.2))) →
  slot t i = Some e → (∀ p, e ≠ Some (Port p)) → i ∉ l.*1.
Proof. intros Hl Hi He ([j p] & -> & Hb)%list_elem_of_fmap. specialize (Hl _ Hb). cbn in *. simplify_eq. by apply (He p). Qed.

Lemma sockets_kept (t t' : PortTable) i (e' : option SocketBindingEntry) (l : list UdpSocket) :
  (∀ j, slot t' j = if decide (j = i) then Some e' else slot t j) → i ∉ l →
  (∀ s, s ∈ l → slot t s = Some (Some Unbound)) → ∀ s, s ∈ l → slot t' s = Some (Some Unbound).
Proof. intros Ht' Hi Hl s Hs. rewrite Ht', decide_False; [auto|]. congruence. Qed.

(** Emptying or reserving a slot keeps the ports different. *)
Lemma distinct_kept (t t' : PortTable) i e' :
  (∀ j, slot t' j = if decide (j = i) then Some e' else slot t j) → (∀ p, e' ≠ Some (Port p)) →
  (∀ i j p, slot t i = Some (Some (Port p)) → slot t j = Some (Some (Port p)) → i = j) →
  ∀ i j p, slot t' i = Some (Some (Port p)) → slot t' j = Some (Some (Port p)) → i = j.
Proof.
  intros Ht' He Hd j k p. rewrite !Ht'. destruct (decide (j = i)); [intros [= ->]; by destruct (He p)|].
  destruct (decide (k = i)); [intros _ [= ->]; by destruct (He p)|]. apply Hd.
Qed.

Lemma create_keeps st : table_ok st → ∃ st', port_step OpCreate st = Ret st' ∧ table_ok st'.
Proof.
  intros [Hl Hd [Hn Hs] [Htn Ht] [Hrn Hr]]. cbn [port_step]. unfold create_socket.
  destruct (create_from_ok _ (table st) Hl indices_inside) as (r & t' & -> & Hl' & Hcase). cbn [mbind outcome_bind].
  eexists. split; [done|]. destruct r as [i|e]; [|subst t'; by split]. destruct Hcase as [Hi Ht'].
  assert (Hni : i ∉ sockets st) by (intros Hin; apply Hs in Hin; congruence).
  pose proof (not_bound_here _ _ _ _ Ht Hi ltac:(done)). pose proof (not_bound_here _ _ _ _ Hr Hi ltac:(done)).
  split; cbn [table sockets txs rxs]; try done.
  - by apply (distinct_kept (table st) t' i (Some Unbound)).
  - split; [by constructor|]. intros s [->|Hin]%elem_of_cons; [by rewrite Ht', decide_True|]. by (eapply (sockets_kept (table st)); [exact Ht'|..|exact Hin]).
  - split; [done|]. by (eapply (tokens_kept (table st)); [exact Ht'|..]).
  - split; [done|]. by (eapply (tokens_kept (table st)); [exact Ht'|..]).
Qed.

Lemma drop_socket_keeps st s : table_ok st → ∃ st', port_step (OpDropSocket s) st = Ret st' ∧ table_ok st'.
Proof.
  intros Hok. pose proof Hok as [Hl Hd [Hn Hs] [Htn Ht] [Hrn Hr]]. cbn [port_step]. destruct (decide (s ∈ sockets st)) as [Hin|]; [|by exists st].
  pose proof (Hs _ Hin) as Hsl. unfold destroy_socket. rewrite (slot_get _ _ _ Hsl). cbn [mbind outcome_bind]. rewrite bool_decide_true by done.
  destruct (slot_set _ _ _ None Hsl) as (t' & -> & Hl' & Ht'). cbn [mbind outcome_bind]. eexists. split; [done|].
  pose proof (not_bound_here _ _ _ _ Ht Hsl ltac:(done)). pose proof (not_bound_here _ _ _ _ Hr Hsl ltac:(done)).
  split; cbn [table sockets txs rxs]; [by rewrite Hl'|by (eapply (distinct_kept (table st) t' s); [exact Ht'|..])|..].
  - split; [by apply NoDup_filter|]. intros x [Hx Hne]%without_spec. rewrite Ht', decide_False by done. auto.
  - split; [done|]. by (eapply (tokens_kept (table st)); [exact Ht'|..]).
  - split; [done|]. by (eapply (tokens_kept (table st)); [exact Ht'|..]).
Qed.

Lemma bind_keeps st user cap s p : table_ok st → ∃ st', port_step (OpBind user cap s p) st = Ret st' ∧ table_ok st'.
Proof.
  intros Hok. pose proof Hok as [Hl Hd [Hn Hs] [Htn Ht] [Hrn Hr]]. cbn [port_step]. destruct (decide (s ∈ sockets st)) as [Hin|]; [|by exists st].
  assert (Hsame : ∃ st', Ret (mkPorts (table st) (sockets st) (txs st) (rxs st)) = Ret st' ∧ table_ok st') by (eexists; split; [done|]; by split).
  unfold bind. destruct (local_port_valid cap p); [|done]. unfold is_bound. destruct user as [q|]; [|done]. destruct (q p); [done|].
  destruct (port_exists_ok _ (table st) p Hl indices_inside) as (b & -> & Hb). cbn [mbind outcome_bind]. destruct b; [done|].
  pose proof (Hs _ Hin) as Hsl. destruct (slot_set _ _ _ (Some (Port p)) Hsl) as (t' & -> & Hl' & Ht'). cbn [mbind outcome_bind].
  unfold destroy_socket. rewrite (slot_get t' s (Some (Port p))) by (by rewrite Ht', decide_True). cbn [mbind outcome_bind].
  rewrite bool_decide_false by done. cbn [mbind outcome_bind]. eexists. split; [done|].
  pose proof (not_bound_here _ _ _ _ Ht Hsl ltac:(done)). pose proof (not_bound_here _ _ _ _ Hr Hsl ltac:(done)).
  assert (Hfresh : ∀ i, slot (table st) i ≠ Some (Some (Port p))).
  { intros i E. apply (Hb eq_refl i); [|done]. apply elem_of_seqZ. pose proof (slot_range _ _ _ Hl E). unfold MAX_NUM_BOUND_PORTS. lia. }
  split; cbn [table sockets txs rxs].
  - by rewrite Hl'.
  - intros i j p'. rewrite !Ht'. destruct (decide (i = s)), (decide (j = s)); subst; try done; [..|apply Hd].
    + intros [= <-] E. by destruct (Hfresh j).
    + intros E [= <-]. by destruct (Hfresh i).
  - split; [by apply NoDup_filter|]. intros x [Hx Hne]%without_spec. rewrite Ht', decide_False by done. auto.
  - split; [by constructor|]. intros x [->|Hx]%elem_of_cons; [by rewrite Ht', decide_True|]. by (eapply (tokens_kept (table st)); [exact Ht'|..|exact Hx]).
  - split; [by constructor|]. intros x [->|Hx]%elem_of_cons; [by rewrite Ht', decide_True|]. by (eapply (tokens_kept (table st)); [exact Ht'|..|exact Hx]).
Qed.

Lemma unbind_keeps st tx rx : table_ok st → ∃ st', port_step (OpUnbind tx rx) st = Ret st' ∧ table_ok st'.
Proof.
  intros Hok. pose proof Hok as [Hl Hd [Hn Hs] [Htn Ht] [Hrn Hr]]. cbn [port_step]. destruct (decide (tx ∈ txs st ∧ rx ∈ rxs st)) as [[Htx Hrx]|]; [|by exists st].
  unfold unbind. destruct (Z.eqb_spec tx.1 rx.1) as [E|]; cbn [negb mbind outcome_bind]; [|eexists; split; [done|]; by split].
  pose proof (Ht _ Htx) as Hsl. destruct (slot_set _ _ _ (Some Unbound) Hsl) as (t' & -> & Hl' & Ht'). cbn [mbind outcome_bind].
  eexists. split; [done|]. split; cbn [table sockets txs rxs]; [by rewrite Hl'|by (eapply (distinct_kept (table st) t' tx.1); [exact Ht'|..])|..].
  - split; [constructor; [|done]|]. { intros Hin%Hs. congruence. }
    intros s [->|Hin]%elem_of_cons; [by rewrite Ht', decide_True|]. rewrite Ht', decide_False; [auto|]. intros ->. apply Hs in Hin. congruence.
  - split; [by apply NoDup_fst_without|]. intros b [Hb Hne]%without_spec. rewrite Ht', decide_False; [auto|]. intros Eb. apply Hne. by apply (same_slot (txs st)).
  - split; [by apply NoDup_fst_without|]. intros b [Hb Hne]%without_spec. rewrite Ht', decide_False; [auto|]. intros Eb. apply Hne.
    apply (same_slot (rxs st)); [done..|congruence].
Qed.

Lemma port_step_keeps o st : table_ok st → ∃ st', port_step o st = Ret st' ∧ table_ok st'.
Proof.
  intros Hok. destruct o; [by apply create_keeps|by apply drop_socket_keeps|by apply bind_keeps|by apply unbind_keeps|..];
    (eexists; split; [done|]; destruct Hok as [Hl Hd Hs [Htn Ht] [Hrn Hr]]; split; cbn [table sockets txs rxs]; try done;
     split; [by apply NoDup_fst_without|]; intros b [Hb _]%without_spec; auto).
Qed.

Lemma ports_of_bindings st l : table_ok st → NoDup l.*1 → (∀ b : UdpPortBinding, b ∈ l → slot (table st) b.1 = Some (Some (Port b.2))) → NoDup l.*2.
Proof.
  intros [_ Hd _ _ _]. induction l as [|b l IH]; intros Hn Hl; [constructor|]. cbn in Hn. apply NoDup_cons in Hn as [Hb Hn]. cbn. constructor.
  - intros (b' & E & Hin)%list_elem_of_fmap. apply Hb, list_elem_of_fmap. exists b'. split; [|done].
    apply (Hd b.1 b'.1 b.2); [by apply Hl; left|]. rewrite E. by apply Hl; right.
  - apply IH; [done|]. intros b' Hin. by apply Hl; right.
Qed.

(** C26.  Ports are exclusive.  Whatever capsules do with the table - reserve sockets,
    bind them under any capability and whatever ports applications have bound,
    unbind with any pair of bindings they hold, or drop what they hold, in any
    order - no operation panics, no two live transmit bindings have the same port
    and no two live receive bindings have, the table has the port of each live
    binding, and the slot of each live socket is reserved for it alone. *)
Theorem ports_exclusive (os : list port_op) :
  ∃ st, run_ports os ports_new = Ret st ∧ NoDup (txs st).*2 ∧ NoDup (rxs st).*2 ∧
    (∀ i p, (i, p) ∈ txs st ∨ (i, p) ∈ rxs st → slot (table st) i = Some (Some (Port p))) ∧
    NoDup (sockets st) ∧ ∀ s, s ∈ sockets st → slot (table st) s = Some (Some Unbound).
Proof.
  assert (H : ∀ st, table_ok st → ∃ st', run_ports os st = Ret st' ∧ table_ok st').
  { induction os as [|o os IH]; intros st Hst; [by exists st|]. cbn [run_ports].
    destruct (port_step_keeps o st Hst) as (st1 & -> & H1). apply (IH st1 H1). }
  destruct (H ports_new) as (st & -> & Hst).
  { split; try done; [|by split; [constructor|intros ? ?%not_elem_of_nil]..].
    intros i j p. unfold slot, ports_new. cbn [table]. destruct (i <? 0); [done|]. intros (? & ?)%lookup_replicate. done. }
  exists st. split; [done|]. pose proof Hst as [_ _ [? ?] [Htn Ht] [Hrn Hr]].
  split_and!; [by eapply ports_of_bindings|by eapply ports_of_bindings| |done|done]. intros i p [Hb|Hb]; [apply (Ht _ Hb)|apply (Hr _ Hb)].
Qed.
