(* ===== verification/UdpSend.v ===== *)
(** * The UDP sender (capsules/extra/src/net/udp/udp_send.rs)

    The senders of the capsules share one IPv6 sender through [MuxUdpSender],
    which keeps them in an intrusive list.  What the IPv6 sender answers is an
    argument; it may also report the end of a packet before [send_to] returns.
    The callback of a client is an event; what the client does in it comes after
    the call, which is the same, since the list is popped and its new head read
    before the client is called.

    Theorems: packets go out in the order of the calls, one at a time, and each
    buffer comes back to its client; a refused packet blocks the queue. *)

From stdpp Require Import gmap.
From S2P Require Import Prelude Bytes Syscall NetStream Ieee802154 Ipv6 Ipv6Theorems Sixlowpan SixlowpanTheorems Lists UdpPorts.

(** ** Senders *)

(** [UDPSendStruct]; its link is in the store of the list. *)
Record UDPSendStruct := mkSender {
  us_client : bool;
  us_tx_buffer : option (list Z);
  us_next_dest : list Z;
  us_next_th : option TransportHeader;
  us_binding : option Z;
  us_net_cap : option NetworkCapability
}.

Definition UDPSendStruct_new : UDPSendStruct := mkSender false None IPAddr_new None None None.
Definition set_us_buffer (s : UDPSendStruct) (b : option (list Z)) : UDPSendStruct :=
  mkSender (us_client s) b (us_next_dest s) (us_next_th s) (us_binding s) (us_net_cap s).
Definition set_us_th (s : UDPSendStruct) (th : option TransportHeader) : UDPSendStruct :=
  mkSender (us_client s) (us_tx_buffer s) (us_next_dest s) th (us_binding s) (us_net_cap s).
Definition set_us_dest (s : UDPSendStruct) (d : list Z) : UDPSendStruct :=
  mkSender (us_client s) (us_tx_buffer s) d (us_next_th s) (us_binding s) (us_net_cap s).
Definition set_us_cap (s : UDPSendStruct) (c : option NetworkCapability) : UDPSendStruct :=
  mkSender (us_client s) (us_tx_buffer s) (us_next_dest s) (us_next_th s) (us_binding s) c.

(** The list, the links of the nodes, and the senders by their address. *)
Record MuxUdpSender := mkMuxSend { sender_list : List; links : gmap Z (option Z); senders : gmap Z UDPSendStruct }.

Definition set_sender (m : MuxUdpSender) (n : Z) (s : UDPSendStruct) : MuxUdpSender :=
  mkMuxSend (sender_list m) (links m) (<[n := s]> (senders m)).
Definition sender (m : MuxUdpSender) (n : Z) : UDPSendStruct := default UDPSendStruct_new (senders m !! n).

(** A packet handed to the IPv6 sender, and the callback of a client. *)
Inductive UdpEvent : Type :=
| IpSend (dest : list Z) (th : TransportHeader) (buf : list Z) (cap : NetworkCapability)
| ClientDone (n : Z) (r : result unit ErrorCode) (buf : list Z).

(** What [ip_sender.send_to] does: it takes the packet, refuses it, or takes it
    and reports its end before it returns. *)
Inductive IpAnswer : Type := Accepted | Refused (e : ErrorCode) | Inside (r : result unit ErrorCode).

(** The callback of the sender whose packet has ended. *)
Definition finish_last (m : MuxUdpSender) (last : option Z) (r : result unit ErrorCode) : MuxUdpSender * list UdpEvent :=
  match last with
  | None => (m, [])
  | Some n =>
      let s := sender m n in
      if us_client s then
        match us_tx_buffer s with
        | Some buf => (set_sender m n (set_us_buffer s None), [ClientDone n r buf])
        | None => (m, [])
        end
      else (m, [])
  end.

(** [IP6SendClient::send_done].  The answers are those of the packets sent on the
    way, and [Accepted] when they are used up.  A sender whose header or
    capability is missing loses its buffer. *)
Fixpoint mux_send_done (ans : list IpAnswer) (m : MuxUdpSender) (r : result unit ErrorCode) : MuxUdpSender * list UdpEvent :=
  let '(last, l) := pop_head (sender_list m) (links m) in
  let next_sender := head l in
  let '(m, ev) := finish_last (mkMuxSend l (links m) (senders m)) last r in
  match next_sender with
  | None => (m, ev)
  | Some n =>
      let s := sender m n in
      match us_tx_buffer s with
      | None => (m, ev)
      | Some buf =>
          let s := set_us_buffer s None in
          match us_next_th s with
          | None => (set_sender m n s, ev)
          | Some th =>
              let s := set_us_th s None in
              match us_net_cap s with
              | None => (set_sender m n s, ev)
              | Some cap =>
                  let m := set_sender m n (set_us_cap s None) in
                  let send := IpSend (us_next_dest s) th buf cap in
                  let '(m, ev') := match ans with Inside r :: ans => mux_send_done ans m r | _ => (m, []) end in
                  (set_sender m n (set_us_buffer (sender m n) (Some buf)), ev ++ send :: ev')
              end
          end
      end
  end.

(** [MuxUdpSender::send_to]. *)
Definition mux_send_to (ans : list IpAnswer) (m : MuxUdpSender) (dest : list Z) (th : TransportHeader) (caller : Z) (cap : NetworkCapability)
    : outcome (result unit ErrorCode * MuxUdpSender * list UdpEvent) :=
  let list_empty := match head (sender_list m) with None => true | Some _ => false end in
  '(l, links) ← push_tail caller (sender_list m) (links m);
  let m := mkMuxSend l links (senders m) in
  if list_empty then
    match us_tx_buffer (sender m caller) with
    | None => Ret (Err FAIL, m, [])
    | Some buf =>
        let m := set_sender m caller (set_us_buffer (sender m caller) None) in
        let '(m, ev) := match ans with Inside r :: ans => mux_send_done ans m r | _ => (m, []) end in
        let m := set_sender m caller (set_us_buffer (sender m caller) (Some buf)) in
        Ret (match ans with Refused e :: _ => Err e | _ => Ok tt end, m, IpSend dest th buf cap :: ev)
    end
  else Ret (Ok tt, set_sender m caller (set_us_cap (sender m caller) (Some cap)), []).

(** The result of sending: nothing, or the buffer back. *)
Definition SendResult : Type := result unit (list Z).

Definition udp_send (ans : list IpAnswer) (m : MuxUdpSender) (self : Z) (dest : list Z) (h : UDPHeader) (buf : list Z) (cap : NetworkCapability)
    : outcome (SendResult * MuxUdpSender * list UdpEvent) :=
  let th := UDP (udp_set_len h (as_u16 (zlen buf + udp_get_hdr_size h))) in
  let s := set_us_th (set_us_dest (set_us_buffer (sender m self) (Some buf)) dest) (Some th) in
  '(r, m, ev) ← mux_send_to ans (set_sender m self s) dest th self cap;
  match r with
  | Ok _ => Ret (Ok tt, m, ev)
  | Err _ =>
      match us_tx_buffer (sender m self) with
      | None => Panic
      | Some buf => Ret (Err buf, set_sender m self (set_us_buffer (sender m self) None), ev)
      end
  end.

Definition send_header (dst_port src_port : Z) : UDPHeader := set_src_port (set_dst_port UDPHeader_new dst_port) src_port.

Definition udp_send_to (ans : list IpAnswer) (m : MuxUdpSender) (self : Z) (dest : list Z) (dst_port : Z) (buf : list Z) (cap : NetworkCapability)
    : outcome (SendResult * MuxUdpSender * list UdpEvent) :=
  match us_binding (sender m self) with
  | None => Ret (Err buf, m, [])
  | Some port =>
      if negb (remote_port_valid cap dst_port) || negb (local_port_valid cap port) then Ret (Err buf, m, [])
      else if port =? 0 then Ret (Err buf, m, [])
      else udp_send ans m self dest (send_header dst_port port) buf cap
  end.

Definition driver_send_to (ans : list IpAnswer) (m : MuxUdpSender) (self : Z) (dest : list Z) (dst_port src_port : Z) (buf : list Z)
    (cap : NetworkCapability) : outcome (SendResult * MuxUdpSender * list UdpEvent) :=
  udp_send ans m self dest (send_header dst_port src_port) buf cap.

(** ** The queue *)

(** A packet waiting or being sent. *)
Record Request := mkReq { rq_node : Z; rq_dest : list Z; rq_th : TransportHeader; rq_buf : list Z; rq_cap : NetworkCapability }.

Definition ip_send (q : Request) : UdpEvent := IpSend (rq_dest q) (rq_th q) (rq_buf q) (rq_cap q).

Inductive udp_op : Type :=
| OpSend (n : Z) (dest : list Z) (dst_port : Z) (buf : list Z) (cap : NetworkCapability)
| OpDone (r : result unit ErrorCode).

(** The answers of the calls and the events. *)
Definition udp_step (o : udp_op) (m : MuxUdpSender) : outcome (option SendResult * MuxUdpSender * list UdpEvent) :=
  match o with
  | OpSend n dest p buf cap => '(r, m, ev) ← udp_send_to [] m n dest p buf cap; Ret (Some r, m, ev)
  | OpDone r => let '(m, ev) := mux_send_done [] m r in Ret (None, m, ev)
  end.
Fixpoint udp_run (os : list udp_op) (m : MuxUdpSender) : outcome (list (option SendResult) * MuxUdpSender * list UdpEvent) :=
  match os with
  | [] => Ret ([], m, [])
  | o :: os => '(r, m, ev) ← udp_step o m; '(rs, m, ev') ← udp_run os m; Ret (r :: rs, m, ev ++ ev')
  end.

(** The specification: a queue whose head is being sent; [ports] are the bindings
    of the senders. *)
Definition queue_step (ports : Z → option Z) (o : udp_op) (q : list Request) : option SendResult * list Request * list UdpEvent :=
  match o with
  | OpSend n dest p buf cap =>
      match ports n with
      | Some port =>
          if remote_port_valid cap p && local_port_valid cap port && negb (port =? 0) then
            let x := mkReq n dest (UDP (udp_set_len (send_header p port) (as_u16 (zlen buf + 8)))) buf cap in
            (Some (Ok tt), q ++ [x], match q with [] => [ip_send x] | _ => [] end)
          else (Some (Err buf), q, [])
      | None => (Some (Err buf), q, [])
      end
  | OpDone r =>
      match q with
      | [] => (None, [], [])
      | x :: q => (None, q, ClientDone (rq_node x) r (rq_buf x) :: match q with [] => [] | y :: _ => [ip_send y] end)
      end
  end.
Fixpoint queue_run (ports : Z → option Z) (os : list udp_op) (q : list Request) : list (option SendResult) * list Request * list UdpEvent :=
  match os with
  | [] => ([], q, [])
  | o :: os =>
      let '(r, q, ev) := queue_step ports o q in
      let '(rs, q, ev') := queue_run ports os q in (r :: rs, q, ev ++ ev')
  end.

(** A sender asks for one packet at a time. *)
Definition op_idle (o : udp_op) (q : list Request) : Prop :=
  match o with OpSend n _ _ _ _ => n ∉ rq_node <$> q | OpDone _ => True end.
Fixpoint ops_idle (ports : Z → option Z) (os : list udp_op) (q : list Request) : Prop :=
  match os with [] => True | o :: os => op_idle o q ∧ ops_idle ports os (queue_step ports o q).1.2 end.

(** The senders hold their packets; behind the head also header and capability. *)
Definition holds (m : MuxUdpSender) (x : Request) : Prop :=
  us_tx_buffer (sender m (rq_node x)) = Some (rq_buf x) ∧ us_next_dest (sender m (rq_node x)) = rq_dest x.
Definition waits (m : MuxUdpSender) (x : Request) : Prop :=
  us_next_th (sender m (rq_node x)) = Some (rq_th x) ∧ us_net_cap (sender m (rq_node x)) = Some (rq_cap x).

Record queue_repr (ports : Z → option Z) (m : MuxUdpSender) (q : list Request) : Prop := {
  qr_chain : chain (links m) (head (sender_list m)) (rq_node <$> q);
  qr_nodup : NoDup (rq_node <$> q);
  qr_senders : ∀ n, us_binding (sender m n) = ports n ∧ (is_Some (ports n) → us_client (sender m n) = true);
  qr_bound : Forall (λ x, is_Some (ports (rq_node x))) q;
  qr_holds : Forall (holds m) q;
  qr_waits : Forall (waits m) (tail q)
}.

Lemma sender_set m n s k : sender (set_sender m n s) k = if decide (k = n) then s else sender m k.
Proof.
  unfold sender, set_sender. cbn [senders]. destruct (decide (k = n)) as [->|]; [by rewrite lookup_insert_eq|by rewrite lookup_insert_ne].
Qed.

(** What is known of the senders of other nodes stays. *)
Lemma others_kept (P : MuxUdpSender → Request → Prop) m m' n q :
  (∀ m m' x, sender m' (rq_node x) = sender m (rq_node x) → P m x → P m' x) →
  (∀ k, k ≠ n → sender m' k = sender m k) → n ∉ rq_node <$> q → Forall (P m) q → Forall (P m') q.
Proof.
  intros HP Hk Hn Hq. rewrite Forall_forall in Hq |- *. intros x Hx. apply (HP m); [|auto]. apply Hk.
  intros E. apply Hn, list_elem_of_fmap. by exists x.
Qed.
Lemma holds_same m m' x : sender m' (rq_node x) = sender m (rq_node x) → holds m x → holds m' x.
Proof. unfold holds. by intros ->. Qed.
Lemma waits_same m m' x : sender m' (rq_node x) = sender m (rq_node x) → waits m x → waits m' x.
Proof. unfold waits. by intros ->. Qed.

Lemma queue_send ports m q n dest p buf cap : queue_repr ports m q → n ∉ rq_node <$> q →
  ∃ m', udp_step (OpSend n dest p buf cap) m =
      Ret ((queue_step ports (OpSend n dest p buf cap) q).1.1, m', (queue_step ports (OpSend n dest p buf cap) q).2) ∧
    queue_repr ports m' (queue_step ports (OpSend n dest p buf cap) q).1.2.
Proof.
  intros Hq Hn. pose proof Hq as [Hch Hnd Hsn Hbd Hho Hwa]. cbn [udp_step]. unfold udp_send_to, queue_step.
  rewrite (proj1 (Hsn n)). destruct (ports n) as [port|] eqn:Eport; [|by exists m].
  destruct (remote_port_valid cap p); [|by exists m]. destruct (local_port_valid cap port); [|by exists m].
  destruct (port =? 0); [by exists m|]. cbn [negb orb andb]. unfold udp_send, mux_send_to.
  change (udp_get_hdr_size (send_header p port)) with 8. set (th := UDP _). set (s0 := set_us_th _ _).
  cbn [sender_list links set_sender].
  destruct (push_tail_chain (links m) (sender_list m) (rq_node <$> q) n Hch Hnd Hn) as (l' & lk & -> & Hch' & _). cbn [mbind outcome_bind].
  set (x := mkReq n dest th buf cap). cbn [fst snd].
  assert (Hhead : (match head (sender_list m) with None => true | Some _ => false end) = match q with [] => true | _ => false end).
  { destruct q; [by rewrite Hch|]. by destruct Hch as [-> _]. }
  rewrite Hhead. set (m1 := mkMuxSend l' lk _).
  assert (Hs1 : ∀ k, sender m1 k = if decide (k = n) then s0 else sender m k) by (intros k; apply (sender_set m n s0 k)).
  assert (Hrepr : ∀ s', us_client s' = us_client s0 → us_binding s' = us_binding s0 → us_tx_buffer s' = Some buf → us_next_dest s' = dest →
    (q ≠ [] → us_next_th s' = Some th ∧ us_net_cap s' = Some cap) →
    ∀ m2, sender_list m2 = l' → links m2 = lk → (∀ k, sender m2 k = if decide (k = n) then s' else sender m k) → queue_repr ports m2 (q ++ [x])).
  { intros s' Hc Hb Ht Hd Hw m2 El Ek Hs2. assert (Hoth : ∀ k, k ≠ n → sender m2 k = sender m k) by (intros k Hk; by rewrite Hs2, decide_False).
    assert (Hme : sender m2 (rq_node x) = s') by (by rewrite Hs2, decide_True). split.
    - rewrite El, Ek, fmap_app. done.
    - rewrite fmap_app. apply NoDup_app. split; [done|]. split; [|apply NoDup_singleton]. by intros y Hy ->%list_elem_of_singleton.
    - intros k. rewrite Hs2. destruct (decide (k = n)) as [->|]; [|apply Hsn]. rewrite Hc, Hb. apply (Hsn n).
    - apply Forall_app. split; [done|]. constructor; [by eexists|constructor].
    - apply Forall_app. split; [by eapply (others_kept holds m m2 n); [apply holds_same|..]|]. constructor; [|constructor]. unfold holds. by rewrite Hme.
    - destruct q as [|y q]; [constructor|]. cbn [tail app] in Hwa |- *. cbn in Hn. apply not_elem_of_cons in Hn as [_ Hn].
      apply Forall_app. split; [by eapply (others_kept waits m m2 n); [apply waits_same|..]|]. constructor; [|constructor].
      unfold waits. rewrite Hme. by apply Hw. }
  destruct q as [|y q].
  - rewrite Hs1, decide_True by done. cbn [us_tx_buffer s0 set_us_th set_us_dest set_us_buffer mbind outcome_bind].
    eexists. split; [done|]. eapply (Hrepr s0); try done. intros k. rewrite !sender_set, !Hs1.
    destruct (decide (k = n)); [by rewrite decide_True|done].
  - eexists. split; [done|]. eapply (Hrepr (set_us_cap s0 (Some cap))); try done. intros k. rewrite sender_set, !Hs1.
    destruct (decide (k = n)); [by rewrite decide_True|done].
Qed.

Lemma queue_done ports m q r : queue_repr ports m q →
  ∃ m', udp_step (OpDone r) m = Ret (None, m', (queue_step ports (OpDone r) q).2) ∧
    queue_repr ports m' (queue_step ports (OpDone r) q).1.2.
Proof.
  intros [Hch Hnd Hsn Hbd Hho Hwa]. cbn [udp_step mux_send_done]. unfold pop_head. destruct q as [|x q].
  { cbn in Hch. rewrite Hch. eexists. split; [done|]. by split. }
  cbn in Hch. destruct Hch as (-> & k & Hk & Hch). cbn [head finish_last]. unfold next. rewrite Hk. cbn [default]. unfold id.
  cbn in Hnd. apply NoDup_cons in Hnd as [Hx Hnd]. apply Forall_cons in Hho as [[Hb Hd] Hho]. apply Forall_cons in Hbd as [Hbx Hbd].
  set (m0 := mkMuxSend (mkList k) (links m) (senders m)). assert (Hm0 : ∀ k, sender m0 k = sender m k) by done.
  rewrite Hm0, (proj2 (Hsn (rq_node x)) Hbx), Hb.
  set (m1 := set_sender m0 (rq_node x) (set_us_buffer (sender m (rq_node x)) None)).
  assert (Hs1 : ∀ j, j ≠ rq_node x → sender m1 j = sender m j) by (intros j Hj; unfold m1; by rewrite sender_set, decide_False).
  assert (Hsn1 : ∀ n, us_binding (sender m1 n) = ports n ∧ (is_Some (ports n) → us_client (sender m1 n) = true)).
  { intros n. destruct (decide (n = rq_node x)) as [->|Hne]; [|rewrite Hs1 by done; apply Hsn]. unfold m1. rewrite sender_set, decide_True by done. apply (Hsn (rq_node x)). }
  assert (Hho1 : Forall (holds m1) q) by (by eapply (others_kept holds m m1 (rq_node x)); [apply holds_same|..]).
  assert (Hwa1 : Forall (waits m1) q) by (by eapply (others_kept waits m m1 (rq_node x)); [apply waits_same|..]).
  destruct q as [|y q].
  { cbn in Hch. rewrite Hch. eexists. split; [done|]. by split. }
  cbn in Hch. destruct Hch as (-> & k' & Hk' & Hch). apply Forall_cons in Hho1 as [[Hyb Hyd] Hho1]. apply Forall_cons in Hwa1 as [[Hyt Hyc] Hwa1].
  rewrite Hyb. set (sy := sender m1 (rq_node y)) in *. change (us_next_th (set_us_buffer sy None)) with (us_next_th sy). rewrite Hyt.
  change (us_net_cap (set_us_th (set_us_buffer sy None) None)) with (us_net_cap sy). rewrite Hyc.
  change (us_next_dest (set_us_th (set_us_buffer sy None) None)) with (us_next_dest sy). rewrite Hyd.
  eexists. split; [done|]. cbn [queue_step fst snd].
  match goal with |- queue_repr _ ?mm _ => set (m2 := mm) end.
  cbn in Hnd. apply NoDup_cons in Hnd as [Hy Hnd].
  assert (Hs2 : ∀ j, j ≠ rq_node y → sender m2 j = sender m1 j) by (intros j Hj; unfold m2; by rewrite !sender_set, !decide_False).
  assert (Hme : ∃ s, sender m2 (rq_node y) = set_us_buffer s (Some (rq_buf y)) ∧ us_binding s = us_binding (sender m1 (rq_node y)) ∧
    us_client s = us_client (sender m1 (rq_node y)) ∧ us_next_dest s = rq_dest y).
  { eexists. unfold m2. rewrite sender_set, decide_True by done. split; [done|]. rewrite sender_set, decide_True by done. done. }
  destruct Hme as (s & Hme & Hsb & Hsc & Hsd). split.
  - split; [done|]. by exists k'.
  - by constructor.
  - intros n. destruct (decide (n = rq_node y)) as [->|Hne]; [|rewrite Hs2 by done; apply Hsn1]. rewrite Hme. cbn [set_us_buffer us_binding us_client].
    rewrite Hsb, Hsc. apply Hsn1.
  - done.
  - constructor; [unfold holds; by rewrite Hme|]. by eapply (others_kept holds m1 m2 (rq_node y)); [apply holds_same|..].
  - by eapply (others_kept waits m1 m2 (rq_node y)); [apply waits_same|..].
Qed.

Lemma udp_step_refines ports o m q : queue_repr ports m q → op_idle o q →
  ∃ m', udp_step o m = Ret ((queue_step ports o q).1.1, m', (queue_step ports o q).2) ∧ queue_repr ports m' (queue_step ports o q).1.2.
Proof.
  intros Hq Ho. destruct o as [n dest p buf cap|r]; [by apply queue_send|].
  destruct (queue_done ports m q r Hq) as (m' & -> & Hq'). exists m'. by destruct q.
Qed.

(** C20.  The senders of all capsules are one queue.  Over every sequence of sends, by
    senders that have no packet outstanding, and of completions, with an IPv6
    sender that accepts every packet and ends none before [send_to] returns, and
    with a client at each bound sender: the calls answer as the queue of the
    specification does (the buffer comes back at once when the sender is not
    bound or the capability forbids a port), packets reach the IPv6 sender in the
    order of the calls, each once and only after the one before has ended, with
    their own destination, header, data and capability, and each completion
    returns the buffer to the client of its packet. *)
Theorem udp_sends_in_order (ports : Z → option Z) (os : list udp_op) (m : MuxUdpSender) (q : list Request) :
  queue_repr ports m q → ops_idle ports os q →
  ∃ m', udp_run os m = Ret ((queue_run ports os q).1.1, m', (queue_run ports os q).2) ∧ queue_repr ports m' (queue_run ports os q).1.2.
Proof.
  revert m q. induction os as [|o os IH]; intros m q Hq Ho; [by exists m|]. destruct Ho as [Ho Hos]. cbn [udp_run queue_run].
  destruct (udp_step_refines ports o m q Hq Ho) as (m1 & -> & Hq1). cbn [mbind outcome_bind].
  destruct (queue_step ports o q) as [[r q1] ev]. cbn [fst snd] in *. destruct (IH m1 q1 Hq1 Hos) as (m2 & -> & Hq2). cbn [mbind outcome_bind].
  destruct (queue_run ports os q1) as [[rs q2] ev2]. by exists m2.
Qed.

(** Three senders on the ports 1000, 2000 and 3000; the first may send anything,
    the capability of the second is for other ports. *)
Definition three_senders : MuxUdpSender :=
  mkMuxSend List_new ∅ (list_to_map ((λ n, (n, mkSender true None IPAddr_new None (Some (1000 * n)) None)) <$> [1; 2; 3])).
Definition three_ports (n : Z) : option Z := if bool_decide (n ∈ [1; 2; 3]) then Some (1000 * n) else None.
Definition any_cap : NetworkCapability := mkCap AnyAddr AnyPort AnyPort.

Lemma three_senders_repr : queue_repr three_ports three_senders [].
Proof.
  split; [done|constructor| |constructor|constructor|constructor]. intros n. unfold three_ports. case_bool_decide as E.
  - repeat (apply elem_of_cons in E as [->|E]; [by split|]). by apply not_elem_of_nil in E.
  - unfold sender, three_senders. cbn [senders]. rewrite (not_elem_of_list_to_map_1 _ n); [by split; [|intros [? ?]]|].
    intros ([k s] & -> & Hin)%list_elem_of_fmap. apply E. apply list_elem_of_fmap in Hin as (y & [= <- _] & Hy). done.
Qed.

Definition sample_ops : list udp_op :=
  [OpSend 1 [1] 5683 [10; 11] any_cap; OpSend 2 [2] 5683 [20] any_cap; OpSend 3 [3] 5683 [30] (mkCap AnyAddr AnyPort NoPorts); OpDone (Ok tt); OpDone (Err FAIL)].

Lemma udp_sends_in_order_witness :
  ∃ m', udp_run sample_ops three_senders = Ret ((queue_run three_ports sample_ops []).1.1, m', (queue_run three_ports sample_ops []).2) ∧
    queue_repr three_ports m' [].
Proof.
  apply (udp_sends_in_order three_ports sample_ops three_senders []); [apply three_senders_repr|].
  cbn. split_and!; try done; by apply (bool_decide_eq_true_1 _).
Defined.

(** ** A refused packet *)

(** Sends that pass the checks of [send_to]. *)
Definition allowed (ports : Z → option Z) (n p : Z) (cap : NetworkCapability) : Prop :=
  ∃ port, ports n = Some port ∧ remote_port_valid cap p = true ∧ local_port_valid cap port = true ∧ port ≠ 0.

(** The sender [n] is alone in the list, with nothing to send. *)
Definition stuck_on (ports : Z → option Z) (m : MuxUdpSender) (n : Z) : Prop :=
  head (sender_list m) = Some n ∧ links m !! n = Some None ∧ ∀ k, us_binding (sender m k) = ports k.

Lemma allowed_send ports m n p cap ans dest buf : us_binding (sender m n) = ports n → allowed ports n p cap →
  ∃ port, udp_send_to ans m n dest p buf cap = udp_send ans m n dest (send_header p port) buf cap.
Proof.
  intros Hb (port & Hp & H1 & H2 & H3). exists port. unfold udp_send_to. rewrite Hb, Hp, H1, H2. cbn [negb orb].
  by rewrite (proj2 (Z.eqb_neq _ _)).
Qed.

Lemma stuck_send ports m n k p cap ans dest buf : stuck_on ports m n → allowed ports k p cap →
  ∃ m' , udp_send_to ans m k dest p buf cap = Ret (Ok tt, m', []) ∧ head (sender_list m') = Some n ∧
    (k = n → links m' !! n = Some (Some n)) ∧ ∀ j, us_binding (sender m' j) = ports j.
Proof.
  intros (Hh & Hl & Hb) Hk. destruct (allowed_send ports m k p cap ans dest buf (Hb k) Hk) as [port ->].
  unfold udp_send, mux_send_to. set (s0 := set_us_th _ _). set (th := UDP _). cbn [sender_list links set_sender]. rewrite Hh. unfold push_tail.
  assert (Hlast : last (walk_fuel (<[k := None]> (links m))) (Some n) (<[k := None]> (links m)) = Ret (Some n)).
  { cbn [last walk_fuel]. unfold walk_fuel, next. cbn [last]. unfold next. destruct (decide (k = n)) as [->|]; [by rewrite lookup_insert_eq|].
    by rewrite lookup_insert_ne, Hl by done. }
  rewrite Hh, Hlast. cbn [mbind outcome_bind]. eexists. split; [done|]. cbn [sender_list set_sender links]. split; [done|].
  split; [intros ->; by rewrite lookup_insert_eq|]. intros j. rewrite sender_set.
  assert (Hs : ∀ i, us_binding (sender (set_sender m k s0) i) = ports i).
  { intros i. rewrite sender_set. destruct (decide (i = k)) as [->|]; apply Hb. }
  destruct (decide (j = k)) as [->|]; [cbn [set_us_cap us_binding]|]; apply Hs.
Qed.

Lemma refused_send ports m n p cap dest buf e : queue_repr ports m [] → allowed ports n p cap →
  ∃ m1 ev, udp_send_to [Refused e] m n dest p buf cap = Ret (Err buf, m1, ev) ∧ stuck_on ports m1 n.
Proof.
  intros [Hch _ Hsn _ _ _] Hn. cbn in Hch. destruct (allowed_send ports m n p cap [Refused e] dest buf (proj1 (Hsn n)) Hn) as [port ->].
  unfold udp_send, mux_send_to. set (s0 := set_us_th _ _). set (th := UDP _). cbn [sender_list links set_sender]. rewrite Hch.
  unfold push_tail. rewrite Hch. cbn [last walk_fuel mbind outcome_bind push_head]. unfold walk_fuel. cbn [last]. unfold push_head.
  set (m0 := mkMuxSend (mkList (Some n)) (<[n := head (sender_list m)]> (<[n := None]> (links m))) (senders (set_sender m n s0))).
  assert (Hs0 : sender m0 n = s0) by (change (sender (set_sender m n s0) n = s0); by rewrite sender_set, decide_True).
  rewrite Hs0. change (us_tx_buffer s0) with (Some buf). cbn [mbind outcome_bind].
  rewrite sender_set, decide_True by done. cbn [us_tx_buffer set_us_buffer].
  eexists _, _. split; [done|]. unfold stuck_on. cbn [sender_list links set_sender m0]. split; [done|]. split; [by rewrite lookup_insert_eq, Hch|].
  assert (Hm0 : ∀ k, us_binding (sender m0 k) = ports k).
  { intros k. change (us_binding (sender (set_sender m n s0) k) = ports k). rewrite sender_set. destruct (decide (k = n)) as [->|]; apply Hsn. }
  intros k. rewrite !sender_set. destruct (decide (k = n)) as [->|]; [|apply Hm0]. rewrite !decide_True by done. rewrite <- (Hm0 n), Hs0. done.
Qed.

(** A packet that the IPv6 sender refuses at once blocks every sender.  After a
    refused send on the idle queue, which returns the buffer, the sender stays in
    the list: every other sender's packet is accepted and nothing is sent; and
    when the first sender tries again, its packet is accepted, nothing is sent,
    its link leads to itself, and the search for the end of the list that the
    next send of another sender begins with never ends, whatever the fuel. *)
Theorem refused_send_blocks (ports : Z → option Z) (m : MuxUdpSender) (n : Z) (dest : list Z) (p : Z) (buf : list Z) (cap : NetworkCapability)
    (e : ErrorCode) :
  queue_repr ports m [] → allowed ports n p cap →
  ∃ m1 ev, udp_send_to [Refused e] m n dest p buf cap = Ret (Err buf, m1, ev) ∧
    (∀ k dest' p' buf' cap' ans, allowed ports k p' cap' → ∃ m2, udp_send_to ans m1 k dest' p' buf' cap' = Ret (Ok tt, m2, [])) ∧
    ∀ dest' buf' ans, ∃ m2, udp_send_to ans m1 n dest' p buf' cap = Ret (Ok tt, m2, []) ∧
      ∀ k fuel, k ≠ n → last fuel (head (sender_list m2)) (<[k := None]> (links m2)) = Panic.
Proof.
  intros Hm Hn. destruct (refused_send ports m n p cap dest buf e Hm Hn) as (m1 & ev & Hrun & Hst). exists m1, ev. split; [done|]. split.
  - intros k dest' p' buf' cap' ans Hk. destruct (stuck_send ports m1 n k p' cap' ans dest' buf' Hst Hk) as (m2 & H2 & _). by exists m2.
  - intros dest' buf' ans. destruct (stuck_send ports m1 n n p cap ans dest' buf' Hst Hn) as (m2 & H2 & Hh & Hl & _).
    exists m2. split; [done|]. intros k fuel Hk. rewrite Hh. specialize (Hl eq_refl).
    induction fuel as [|fuel IH]; [done|]. cbn [last]. unfold next. rewrite lookup_insert_ne, Hl by done. exact IH.
Qed.

Lemma refused_send_blocks_witness :
  ∃ m1 ev, udp_send_to [Refused FAIL] three_senders 1 [1] 5683 [10; 11] any_cap = Ret (Err [10; 11], m1, ev) ∧
    (∀ k dest' p' buf' cap' ans, allowed three_ports k p' cap' → ∃ m2, udp_send_to ans m1 k dest' p' buf' cap' = Ret (Ok tt, m2, [])) ∧
    ∀ dest' buf' ans, ∃ m2, udp_send_to ans m1 1 dest' 5683 buf' any_cap = Ret (Ok tt, m2, []) ∧
      ∀ k fuel, k ≠ 1 → last fuel (head (sender_list m2)) (<[k := None]> (links m2)) = Panic.
Proof.
  apply (refused_send_blocks three_ports three_senders 1 [1] 5683 [10; 11] any_cap FAIL); [apply three_senders_repr|].
  exists 1000. by split_and!.
Defined.

(** A packet that ends before [send_to] returns ends without a callback: the
    buffer is out of its cell at that time, and stays with the sender. *)
Example early_end_not_reported :
  ∃ m, udp_send_to [Inside (Err FAIL)] three_senders 1 [1] 5683 [10; 11] any_cap = Ret (Ok tt, m, [IpSend [1] (UDP (udp_set_len (send_header 5683 1000) 10)) [10; 11] any_cap]) ∧
    us_tx_buffer (sender m 1) = Some [10; 11] ∧ head (sender_list m) = None.
Proof. eexists. by vm_compute. Qed.

(** ** The header of a packet *)

(** The header that [send] builds is as the layers below need it. *)
Lemma send_header_ok dst_port src_port (data : list Z) : u16 dst_port → u16 src_port → 48 + zlen data < 1280 →
  let u := udp_set_len (send_header dst_port src_port) (as_u16 (zlen data + 8)) in
  udp_ok u ∧ udp_cksum u = 0 ∧ udp_get_len u = 8 + zlen data ∧ get_src_port u = src_port ∧ get_dst_port u = dst_port.
Proof.
  intros Hd Hs Hlen. pose proof (zlen_nonneg data). cbv zeta.
  assert (E : as_u16 (zlen data + 8) = 8 + zlen data) by (unfold as_u16; change 0xFFFF with (Z.ones 16); rewrite land_ones_small; lia).
  rewrite E. assert (Hl : u16 (8 + zlen data)) by (unfold u16; lia).
  split; [split; cbn; (by apply to_be16_u16) || done|]. split; [done|]. unfold udp_get_len, get_src_port, get_dst_port. cbn.
  by rewrite !to_be16_involutive.
Qed.
