(* ===== verification/SixlowpanDelivery.v ===== *)
(** * 6LoWPAN: from the sender's packet to the receiver's

    What a sender's frames hold, and the way of a UDP packet through checksum,
    compression, fragmentation, framing, reassembly and the receiver's checks. *)

From stdpp Require Import gmap sets.
From S2P Require Import Prelude Bytes Syscall NetStream Ieee802154 Ieee802154Theorems Ipv6 Ipv6Theorems Sixlowpan SixlowpanTheorems FragUtils Framer SixlowpanState SixlowpanStateTheorems Ip6Stack.

(** ** Transmission *)

(** The sender after a call that ended with the events [ev], until it reports the
    end: the radio sends each frame and returns a buffer ([send_done]), and the
    alarm that was set then fires.  The frames sent; [None] when the sender
    reports an error or the fuel ends. *)
Fixpoint send_all {T D} `{ContextStore T} `{MacDevice D} (fuel : nat) (s : T) (radio : D) (back : Frame → list Z)
    (self : IP6SendStruct) (tag : Z) (ev : list SendEvent) : outcome (option (list Frame * IP6SendStruct * Z)) :=
  match ev, fuel with
  | [ClientSendDone (Ok _)], _ => Ret (Some ([], self, tag))
  | [Transmit f], S fuel =>
      let '(self, _) := send_done self (back f) (Ok tt) in
      '(self, tag, ev) ← send_alarm s radio self tag None;
      l ← send_all fuel s radio back self tag ev;
      Ret ('(fs, self, tag) ← l; Some (f :: fs, self, tag))
  | _, _ => Ret None
  end.



Section Transmission.
Context {T D} `{ContextStore T} `{MacDevice D} `{!MacDeviceLaws D} (s : T) (ctx : Context) (radio : D).
Context (h : IP6Header) (u : UDPHeader) (data rest : list Z) (src_mac dst_mac : MacAddress) (back : Frame → list Z).
Context (Hs : store_ok s ctx) (Hp : packet_ok h u data) (Hsm : mac_ok src_mac) (Hdm : mac_ok dst_mac) (Hradio : device_ok radio).
Context (Hback : ∀ f, zlen (back f) = zlen (frame_buf f)).
Abbreviation packet := (mkPacket h (mkPayload (UDP u) (data ++ rest))).
Abbreviation size := (zlen (datagram h u data)).
Context (Hmax : size < 1280).







Lemma round8_spec n : 0 ≤ n → round8 n mod 8 = 0 ∧ n - 7 ≤ round8 n ≤ n.
Proof. intros Hn. unfold round8. byte_lia. Qed.

Abbreviation cp := (compressed_headers s h u src_mac dst_mac).
Abbreviation frag tag := (fragment s h u src_mac dst_mac tag data).









End Transmission.

(** ** The air *)

(** What a radio heard: the readings of the clock, the buffer and the length of
    the frame in it. *)
Record Heard := mkHeard { hd_now : nat → Z; hd_buf : list Z; hd_len : Z }.


(** The framer of the receiver passes the frame on to the 6LoWPAN layer. *)
Definition hear {Pr : Profile} {T} `{ContextStore T} (fr : Framer) (self : Sixlowpan T) (a : Heard) : outcome (list Callback * Sixlowpan T) :=
  i ← incoming_frame_security fr (hd_buf a) (hd_len a);
  match i with
  | Yielded h offset len => Sixlowpan_receive self (hd_now a) (hd_buf a) h offset len
  | _ => Ret ([], self)
  end.

Fixpoint hear_all {Pr : Profile} {T} `{ContextStore T} (fr : Framer) (self : Sixlowpan T) (l : list Heard) : outcome (list Callback * Sixlowpan T) :=
  match l with
  | [] => Ret ([], self)
  | a :: l =>
      '(calls, self) ← hear fr self a;
      '(calls', self) ← hear_all fr self l;
      Ret (calls ++ calls', self)
  end.




(** ** The receiver's checks *)

(** The packets handed up, through the IPv6 receiver to the distribution by
    ports; [None] when a checksum is not computed with the fuel. *)
Fixpoint udp_deliveries (fuel : nat) (mux : MuxUdpReceiver) (calls : list Callback) : outcome (option (list Delivery)) :=
  match calls with
  | [] => Ret (Some [])
  | (pk, len, r) :: calls =>
      d ← IP6Recv_receive fuel pk len r;
      match d with
      | None => Ret None
      | Some d =>
          out ← match d with Some (h, p) => MuxUdpReceiver_receive mux h p | None => Ret [] end;
          l ← udp_deliveries fuel mux calls;
          Ret (option_map (app out) l)
      end
  end.



(** ** From [send_to] to the client of the port *)


(** The header that [init_packet] builds for UDP. *)
Definition udp_header (src dst data : list Z) : IP6Header :=
  mkIP6 [0x60; 0; 0; 0] (to_be16 (8 + zlen data)) NH_UDP 255 src dst.









(** A sender and a receiver whose packets come from an address under the context. *)
Definition sample_mac : MacAddress := Short 0x1234.
Definition sample_dst_mac : MacAddress := Long [1; 2; 3; 4; 5; 6; 7; 8].
Definition sample_src : list Z := src_addr sample_header.
Definition sample_dst : list Z := take 8 (prefix sample_ctx) ++ [0; 0; 0; 0; 0; 0; 0; 2].
Definition sample_sender : IP6SendStruct :=
  mkSend (mkPacket IP6Header_new (mkPayload (UDP UDPHeader_new) (replicate 300 0))) sample_src sample_mac (Some (replicate 129 0))
    TxState_new sample_dst_mac sample_mac.
Definition sample_data : list Z := (λ i, i mod 256) <$> seqZ 0 180.
Definition sample_request : UDPHeader := udp_set_len (set_dst_port (set_src_port UDPHeader_new 4660) 5683) 188.
Definition sample_framer : Framer := mkFramer 7 [1; 2; 3; 4; 5; 6; 7; 8] None None.
Definition sample_receiver : Sixlowpan Context := mkSixlowpan sample_ctx 0 true [RxState_new (replicate 300 0)] 32768.
Definition sample_mux : MuxUdpReceiver := mkMux [mkReceiver (Some 80) true; mkReceiver (Some 5683) true] None.

(** The frames of [sample_data] as the radio hears them, the last one first. *)
Definition sample_heard : option (list Heard) :=
  match send_to sample_ctx sample_framer 30 sample_sender 41 None true 0xabcd sample_dst (UDP sample_request) sample_data with
  | Ret (Some (Ok _, self, tag, ev)) =>
      match send_all 30 sample_ctx sample_framer frame_buf self tag ev with
      | Ret (Some (fs, _, _)) => Some (reverse ((λ f, mkHeard (λ _, 1000) (frame_buf f) (secured_length (info f))) <$> fs))
      | _ => None
      end
  | _ => None
  end.

Example sample_delivered :
  length <$> sample_heard = Some 3%nat ∧
  (heard ← sample_heard;
   match hear_all (Pr := dev) sample_framer sample_receiver heard with
   | Ret (calls, _) => match udp_deliveries 0 sample_mux calls with Ret l => l | Panic => None end
   | Panic => None
   end) = Some [(Receiver 1, sample_src, sample_dst, 4660, 5683, sample_data)].
Proof. by vm_compute. Qed.

Ltac bytes := repeat (constructor; [by vm_compute|]); constructor.

Lemma sample_store : store_ok sample_ctx sample_ctx.
Proof. apply Context_store_ok; try done. bytes. Qed.


(** Reassembly does not depend on how or in which order the datagram was cut: for
    every division of a UDP datagram of less than 1280 bytes into pieces of whole
    groups of eight (the first with the 48 bytes of the headers, the last of at
    least eight bytes), whoever made it, its fragments in any order lead a
    receiver with a free state to exactly one call, after the last of them, with a
    buffer that starts with the datagram's bytes and the datagram's size. *)
Theorem fragments_reassemble {Pr : Profile} {T} `{ContextStore T} (ctx : Context) (self : Sixlowpan T) (h : IP6Header) (u : UDPHeader) (data : list Z)
    (src_mac dst_mac : MacAddress) (tag n : Z) (ns : list Z) (order : list piece) (rs : list Received) :
  store_ok (ctx_store self) ctx → packet_ok h u data → mac_ok src_mac → mac_ok dst_mac → u16 tag → rx_client self = true →
  48 + zlen data < 1280 → ((48 + zlen data) / 8) mod 8 ≠ 0 →
  48 ≤ n → well_cut 0 (n :: ns) (48 + zlen data) → Permutation (cut 0 (n :: ns)) order →
  Forall (λ r, ready src_mac dst_mac (48 + zlen data) tag (rx_states self) (r_now r)) rs →
  Forall2 (λ r p, carries r src_mac dst_mac (fragment (ctx_store self) h u src_mac dst_mac tag data p)) rs order →
  ∃ pk self', receive_all self rs = Ret ([(pk, 48 + zlen data, Ok tt)], self') ∧
    take (Z.to_nat (48 + zlen data)) pk = datagram h u data.
Proof.
  intros Hs Hp Hsm Hdm Htag Hcl Hmax Hg Hn Hw Hperm Hready Hrs.
  rewrite <- (datagram_length h u data (pk_header _ _ _ Hp)) in *.
  eapply (fragments_arrive ctx self h u data src_mac dst_mac tag); try done.
  rewrite Forall_forall in Hready. exact Hready.
Qed.

(** A datagram of 228 bytes in three pieces, the last one first. *)
Definition sample_ip : IP6Header := udp_header sample_src sample_dst sample_data.
Definition sample_order : list piece := [(160, 68); (0, 56); (56, 104)].
Definition sample_received (p : piece) : Received :=
  let bytes := fragment sample_ctx sample_ip sample_request sample_mac sample_dst_mac 42 sample_data p in
  mkReceived (λ _, 1000) bytes (data_header 7 1 sample_dst_mac 1 sample_mac None) 0 (zlen bytes).

Lemma sample_packet_ok : packet_ok sample_ip sample_request sample_data.
Proof. split; try done; split; try done; (split; [done|]; bytes). Qed.

Lemma fragments_reassemble_witness :
  ∃ pk self', receive_all (Pr := dev) sample_receiver (sample_received <$> sample_order) = Ret ([(pk, 228, Ok tt)], self') ∧
    take 228 pk = datagram sample_ip sample_request sample_data.
Proof.
  apply (fragments_reassemble sample_ctx sample_receiver sample_ip sample_request sample_data sample_mac sample_dst_mac 42 56 [104; 68] sample_order); try done.
  - apply sample_store.
  - apply sample_packet_ok.
  - symmetry. apply (Permutation_cons_append [(0, 56); (56, 104)] (160, 68)).
  - repeat constructor; try done; by eexists.
  - repeat constructor; by vm_compute.
Defined.

(** ** What reassembly misses *)

Lemma next_frame_never_ok {Pr : Profile} {T} `{ContextStore T} (s : T) st p len size offset b st' :
  (size / 8) mod 8 = 0 → receive_next_frame s st p len size offset ≠ Ret (Ok b, st').
Proof.
  intros Hg. unfold receive_next_frame. destruct (rx_packet st); [|done]. cbv zeta.
  intros Hr. apply outcome_bind_Ret in Hr as (x & _ & Hr). destruct x as [[pk n]|]; [|done].
  apply outcome_bind_Ret in Hr as ([ok map] & _ & Hr). destruct ok; [|done]. cbn [negb] in Hr.
  rewrite is_complete_overflows in Hr by done. done.
Qed.

Lemma fragment_never_ok {Pr : Profile} {T} `{ContextStore T} (self : Sixlowpan T) now p len src dst size tag offset i r self' :
  (size / 8) mod 8 = 0 → receive_fragment self now p len src dst size tag offset = Ret ((Some i, r), self') → r ≠ Ok tt.
Proof.
  intros Hg Hr. unfold receive_fragment in Hr. apply outcome_bind_Ret in Hr as ([states j] & _ & Hr).
  destruct j as [j|]; [|done]. destruct (states !! j) as [st|]; [|done]. apply outcome_bind_Ret in Hr as ([a st'] & Ha & Hr).
  destruct a as [b|e]; [by apply next_frame_never_ok in Ha|]. by simplify_eq.
Qed.

(** A datagram whose number of groups of eight bytes is a multiple of eight is
    never reassembled: whatever the state of the receiver, a fragment that
    announces such a size leads to no call with a packet. *)
Theorem aligned_size_never_delivered {Pr : Profile} {T} `{ContextStore T} (self : Sixlowpan T) (now : nat → Z) (buf : list Z) (h : Header)
    (offset len : Z) (p hdr : list Z) (first : bool) (size tag at_ : Z) (calls : list Callback) (self' : Sixlowpan T) :
  get_range buf offset (offset + len) = Some p → is_fragment p = Ret true →
  get_range p 0 5 = Some hdr → get_frag_hdr hdr = Ret (first, size, tag, at_) → (size / 8) mod 8 = 0 →
  Sixlowpan_receive self now buf h offset len = Ret (calls, self') → Forall (λ c, c.2 ≠ Ok tt) calls.
Proof.
  intros Hp Hf Hh Hhdr Hg Hr. unfold Sixlowpan_receive in Hr. rewrite Hp in Hr. cbv zeta in Hr.
  apply outcome_bind_Ret in Hr as ([[i r] self1] & Hrf & Hr). destruct i as [i|]; [|by simplify_eq; constructor].
  assert (Hne : r ≠ Ok tt).
  { unfold receive_frame in Hrf. rewrite Hf in Hrf. cbn [mbind outcome_bind] in Hrf. rewrite Hh, Hhdr in Hrf. cbn [mbind outcome_bind] in Hrf.
    destruct (get_from p _) as [q|]; [|done]. apply outcome_bind_Ret in Hrf as (l & _ & Hrf). by eapply fragment_never_ok. }
  destruct (rx_states self1 !! i) as [st|]; [|done]. apply outcome_bind_Ret in Hr as ([st' cs] & He & Hr).
  unfold end_receive in He. destruct (rx_client self1), (rx_packet st); simplify_eq; repeat constructor; done.
Qed.

(** The only receive state is taken by another datagram. *)
Definition busy_receiver : Sixlowpan Context :=
  set_rx_states sample_receiver [start_receive (RxState_new (replicate 300 0)) sample_mac sample_dst_mac 200 9 1000].

Lemma aligned_size_never_delivered_witness : Forall (λ c : Callback, c.2 ≠ Ok tt) [].
Proof.
  apply (aligned_size_never_delivered (Pr := dev) busy_receiver (λ _, 2000) (fragn_bytes 128 1 64 ++ replicate 8 0)
    (data_header 7 1 sample_dst_mac 1 sample_mac None) 0 13
    (fragn_bytes 128 1 64 ++ replicate 8 0) (fragn_bytes 128 1 64) false 128 1 64 [] busy_receiver); by vm_compute.
Defined.

(** With a free state such a fragment ends in the overflow of the shift. *)
Example aligned_size_panics :
  receive_all (Pr := dev) sample_receiver [mkReceived (λ _, 1000) (fragn_bytes 128 1 64 ++ replicate 8 0) (data_header 7 1 sample_dst_mac 1 sample_mac None) 0 13] = Panic.
Proof. by vm_compute. Qed.

(** Up to seven bytes behind the last group of eight are not counted: the packet
    of 228 bytes is handed up with the 224 that have arrived and what the buffer
    held before, and the tail takes up a receive state that it does not complete. *)
Example short_tail_lost :
  ∃ pk self', receive_all (Pr := dev) sample_receiver (sample_received <$> [(0, 56); (56, 104); (160, 64); (224, 4)]) = Ret ([(pk, 228, Ok tt)], self') ∧
    take 228 pk = take 224 (datagram sample_ip sample_request sample_data) ++ [0; 0; 0; 0] ∧
    rx_busy <$> rx_states self' = [true].
Proof. eexists _, _. by vm_compute. Qed.

(** A frame of another protocol takes the buffer of a receive state and does not
    return it; the next frame that finds the state free panics. *)
Definition foreign_frame (t : Z) : Received :=
  mkReceived (λ _, t) [0x41; 0; 0; 0; 0; 0] (data_header 7 1 sample_dst_mac 1 sample_mac None) 0 6.

Example foreign_frame_takes_buffer :
  (∃ self', receive_all (Pr := dev) sample_receiver [foreign_frame 1] = Ret ([], self') ∧ rx_packet <$> rx_states self' = [None]) ∧
  receive_all (Pr := dev) sample_receiver [foreign_frame 1; foreign_frame 2] = Panic.
Proof. split; [eexists _; by vm_compute|by vm_compute]. Qed.

(** The time and the frequency are exchanged in the test for the timeout: after
    the first seconds a state is never given up, however long it waits. *)
Example timeout_exchanged :
  let st := start_receive (RxState_new []) sample_mac sample_dst_mac 200 9 1000 in
  is_busy st (1000 + 3600 * 1000) 32768 = Ret (true, st) ∧ ∃ st', is_busy st 32768 (1000 + 60 * 32768) = Ret (false, st').
Proof. split; [by vm_compute|eexists; by vm_compute]. Qed.
