(* ===== verification/NonvolatilePages.v ===== *)
(** * Nonvolatile storage over pages (capsules/extra/src/nonvolatile_to_pages.rs)

    [NonvolatileToPages] turns reads and writes of any address and length into
    operations on whole flash pages, one per callback of the flash driver.  The
    driver is an interface: class [Flash] has its operations and [FlashLaws]
    what kernel/src/hil/flash.rs documents of them, for the pages it accepts.

    Theorems: a write is a write of a byte array, a read is a read of it, in a
    bounded number of page operations, with one callback to the client; after a
    refused page operation every request is answered [BUSY]. *)

From S2P Require Import Prelude Bytes Syscall.

(** ** State *)

Inductive NvState : Type := NvIdle | NvRead | NvWrite.

#[export] Instance NvState_eq_dec : EqDecision NvState.
Proof. solve_decision. Defined.

(** [NonvolatileToPages]; a page is the list of its bytes.  [client] is whether
    one has been set. *)
Record NonvolatileToPages := mkNv {
  client : bool;
  pagebuffer : option (list Z);
  state : NvState;
  buffer : option (list Z);
  address : Z;
  length_ : Z;
  remaining_length : Z;
  buffer_index : Z
}.

Definition NonvolatileToPages_new (page : list Z) : NonvolatileToPages :=
  mkNv false (Some page) NvIdle None 0 0 0 0.

Definition set_client (st : NonvolatileToPages) : NonvolatileToPages :=
  mkNv true (pagebuffer st) (state st) (buffer st) (address st) (length_ st) (remaining_length st) (buffer_index st).
Definition set_pagebuffer (st : NonvolatileToPages) (p : option (list Z)) : NonvolatileToPages :=
  mkNv (client st) p (state st) (buffer st) (address st) (length_ st) (remaining_length st) (buffer_index st).
Definition set_state (st : NonvolatileToPages) (s : NvState) : NonvolatileToPages :=
  mkNv (client st) (pagebuffer st) s (buffer st) (address st) (length_ st) (remaining_length st) (buffer_index st).
Definition set_buffer (st : NonvolatileToPages) (b : option (list Z)) : NonvolatileToPages :=
  mkNv (client st) (pagebuffer st) (state st) b (address st) (length_ st) (remaining_length st) (buffer_index st).
Definition set_length (st : NonvolatileToPages) (l : Z) : NonvolatileToPages :=
  mkNv (client st) (pagebuffer st) (state st) (buffer st) (address st) l (remaining_length st) (buffer_index st).
(** [address], [remaining_length] and [buffer_index], which move together. *)
Definition set_progress (st : NonvolatileToPages) (a r i : Z) : NonvolatileToPages :=
  mkNv (client st) (pagebuffer st) (state st) (buffer st) a (length_ st) r i.

(** An operation of the flash driver with the page buffer it takes, and the
    callback of the client. *)
Inductive FlashOp : Type := ReadPage (n : Z) (buf : list Z) | WritePage (n : Z) (buf : list Z).
Inductive NvEvent : Type := ReadDone (buf : list Z) (len : Z) | WriteDone (buf : list Z) (len : Z).

Definition op_buf (op : FlashOp) : list Z := match op with ReadPage _ b => b | WritePage _ b => b end.

(** ** Operations

    [accept] is the immediate answer of the driver; a refused operation gives
    the page buffer back. *)
Definition DriverAnswer : Type := FlashOp → option ErrorCode.

Definition start (accept : DriverAnswer) (st : NonvolatileToPages) (op : FlashOp)
  : NonvolatileToPages * option FlashOp * result unit ErrorCode :=
  match accept op with
  | None => (st, Some op, Ok tt)
  | Some e => (set_pagebuffer st (Some (op_buf op)), None, Err e)
  end.

Definition nv_read (accept : DriverAnswer) (st : NonvolatileToPages) (buf : list Z) (addr len : Z)
  : outcome (NonvolatileToPages * option FlashOp * result unit ErrorCode) :=
  if negb (bool_decide (state st = NvIdle)) then Ret (st, None, Err BUSY)
  else
    match pagebuffer st with
    | None => Ret (st, None, Err RESERVE)
    | Some page =>
        let page_size := zlen page in
        let st := set_pagebuffer st None in
        let st := set_progress (set_length (set_buffer (set_state st NvRead) (Some buf)) len) addr len 0 in
        n ← udiv addr page_size;
        Ret (start accept st (ReadPage n page))
    end.

(** [dst[di..len + di].copy_from_slice(&src[si..len + si])]. *)
Definition copy_part (dst : list Z) (di : Z) (src : list Z) (si len : Z) : outcome (list Z) :=
  dhi ← uadd len di; shi ← uadd len si;
  match get_range src si shi with
  | Some bs => if (di <=? dhi) && (dhi <=? zlen dst) then splice dst di bs else Panic
  | None => Panic
  end.

Definition nv_write (accept : DriverAnswer) (st : NonvolatileToPages) (buf : list Z) (addr len : Z)
  : outcome (NonvolatileToPages * option FlashOp * result unit ErrorCode) :=
  if negb (bool_decide (state st = NvIdle)) then Ret (st, None, Err BUSY)
  else
    match pagebuffer st with
    | None => Ret (st, None, Err RESERVE)
    | Some page =>
        let page_size := zlen page in
        let st := set_length (set_state (set_pagebuffer st None) NvWrite) len in
        off ← urem addr page_size;
        if (off =? 0) && (page_size <=? len) then
          page ← copy_part page 0 buf 0 page_size;
          a ← uadd addr page_size; r ← usub len page_size;
          let st := set_progress (set_buffer st (Some buf)) a r page_size in
          n ← udiv addr page_size;
          Ret (start accept st (WritePage n page))
        else
          let st := set_progress (set_buffer st (Some buf)) addr len 0 in
          n ← udiv addr page_size;
          Ret (start accept st (ReadPage n page))
    end.

(** The driver call of a callback: its error is dropped. *)
Definition resume (accept : DriverAnswer) (st : NonvolatileToPages) (op : FlashOp) : NonvolatileToPages * option FlashOp :=
  (start accept st op).1.

(** The end of a request: the page buffer goes back and the client is told. *)
Definition finish (st : NonvolatileToPages) (page : list Z) (ev : NvEvent)
  : NonvolatileToPages * option FlashOp * list NvEvent :=
  (set_state (set_pagebuffer st (Some page)) NvIdle, None, if client st then [ev] else []).

Definition read_complete (accept : DriverAnswer) (st : NonvolatileToPages) (page : list Z)
  : outcome (NonvolatileToPages * option FlashOp * list NvEvent) :=
  match state st, buffer st with
  | NvRead, Some buf =>
      let st := set_buffer st None in
      let page_size := zlen page in
      page_index ← urem (address st) page_size;
      rest ← usub page_size page_index;
      let len := Z.min rest (remaining_length st) in
      buf ← copy_part buf (buffer_index st) page page_index len;
      new_len ← usub (remaining_length st) len;
      if new_len =? 0 then Ret (finish st page (ReadDone buf (length_ st)))
      else
        a ← uadd (address st) len; i ← uadd (buffer_index st) len;
        let st := set_progress (set_buffer st (Some buf)) a new_len i in
        n ← udiv a page_size;
        Ret (resume accept st (ReadPage n page), [])
  | NvWrite, Some buf =>
      let page_size := zlen page in
      page_index ← urem (address st) page_size;
      rest ← usub page_size page_index;
      let len := Z.min rest (remaining_length st) in
      page_number ← udiv (address st) page_size;
      page ← copy_part page page_index buf (buffer_index st) len;
      r ← usub (remaining_length st) len; a ← uadd (address st) len; i ← uadd (buffer_index st) len;
      let st := set_progress st a r i in
      Ret (resume accept st (WritePage page_number page), [])
  | _, _ => Ret (st, None, [])
  end.

Definition write_complete (accept : DriverAnswer) (st : NonvolatileToPages) (page : list Z)
  : outcome (NonvolatileToPages * option FlashOp * list NvEvent) :=
  match buffer st with
  | None => Ret (st, None, [])
  | Some buf =>
      let page_size := zlen page in
      if remaining_length st =? 0 then
        Ret (finish (set_buffer st None) page (WriteDone buf (length_ st)))
      else if page_size <=? remaining_length st then
        page_number ← udiv (address st) page_size;
        page ← copy_part page 0 buf (buffer_index st) page_size;
        r ← usub (remaining_length st) page_size; a ← uadd (address st) page_size; i ← uadd (buffer_index st) page_size;
        let st := set_progress st a r i in
        Ret (resume accept st (WritePage page_number page), [])
      else
        n ← udiv (address st) page_size;
        Ret (resume accept st (ReadPage n page), [])
  end.

(** ** The flash driver

    What [hil::flash::Flash] and its client promise each other: the content of
    each page, which operations are accepted, and what the device and the page
    buffer are when an accepted operation has completed. *)
Class Flash (D : Type) := {
  contents : D → Z → list Z;
  accepts : D → FlashOp → option ErrorCode;
  do_read : D → Z → list Z → D * list Z;
  do_write : D → Z → list Z → D * list Z
}.

(** A device of [pages] pages of [size] bytes: a read fills the buffer with the
    page and changes nothing, a write stores the buffer in that page only. *)
Class FlashLaws (D : Type) `{Flash D} (size pages : Z) := {
  size_pos : 0 < size;
  contents_size : ∀ d n, 0 ≤ n < pages → zlen (contents d n) = size;
  accepts_page : ∀ d n b, 0 ≤ n < pages → zlen b = size →
    accepts d (ReadPage n b) = None ∧ accepts d (WritePage n b) = None;
  read_law : ∀ d n b, 0 ≤ n < pages → zlen b = size →
    (do_read d n b).2 = contents d n ∧ ∀ m, contents (do_read d n b).1 m = contents d m;
  write_law : ∀ d n b, 0 ≤ n < pages → zlen b = size →
    zlen (do_write d n b).2 = size ∧ contents (do_write d n b).1 n = b ∧
    ∀ m, m ≠ n → contents (do_write d n b).1 m = contents d m
}.

(** ** The capsule over its driver *)

Record System (D : Type) := mkSys {
  nv : NonvolatileToPages;
  dev : D;
  pending : option FlashOp;
  events : list NvEvent
}.
Arguments mkSys {D}. Arguments nv {D}. Arguments dev {D}. Arguments pending {D}. Arguments events {D}.

Section System.
Context {D : Type} `{Flash D}.

(** The pending operation completes, and the driver calls its client. *)
Definition sys_step (s : System D) : outcome (System D) :=
  match pending s with
  | None => Ret s
  | Some (ReadPage n b) =>
      let '(d, page) := do_read (dev s) n b in
      '(st, op, evs) ← read_complete (accepts d) (nv s) page;
      Ret (mkSys st d op (events s ++ evs))
  | Some (WritePage n b) =>
      let '(d, page) := do_write (dev s) n b in
      '(st, op, evs) ← write_complete (accepts d) (nv s) page;
      Ret (mkSys st d op (events s ++ evs))
  end.

(** [n] completions; the run stops when nothing is pending. *)
Fixpoint sys_run (n : nat) (s : System D) : outcome (System D) :=
  match n with O => Ret s | S n => s ← sys_step s; sys_run n s end.

(** A call of the client; [pending] is kept when the call starts nothing. *)
Definition sys_call (f : DriverAnswer → NonvolatileToPages → list Z → Z → Z → outcome (NonvolatileToPages * option FlashOp * result unit ErrorCode))
    (s : System D) (buf : list Z) (addr len : Z) : outcome (System D * result unit ErrorCode) :=
  '(st, op, r) ← f (accepts (dev s)) (nv s) buf addr len;
  Ret (mkSys st (dev s) (match op with Some _ => op | None => pending s end) (events s), r).

Definition sys_read := sys_call nv_read.
Definition sys_write := sys_call nv_write.

(** The storage as an array of bytes. *)
Definition byte_at (size : Z) (d : D) (a : Z) : option Z := contents d (a / size) !! Z.to_nat (a mod size).

(** Waiting for a request: the page buffer is here and no callback is due. *)
Definition ready (size : Z) (s : System D) : Prop :=
  client (nv s) = true ∧ state (nv s) = NvIdle ∧ pending s = None ∧
  ∃ page, pagebuffer (nv s) = Some page ∧ zlen page = size.

End System.

(** ** Copies *)

Lemma copy_part_ok dst di src si len :
  0 ≤ len → 0 ≤ di → 0 ≤ si → len + di ≤ zlen dst → len + si ≤ zlen src → len + di < usize_bound → len + si < usize_bound →
  copy_part dst di src si len = Ret (take (Z.to_nat di) dst ++ take (Z.to_nat len) (drop (Z.to_nat si) src) ++ drop (Z.to_nat di + Z.to_nat len) dst).
Proof.
  intros. unfold copy_part. ustep.
  rewrite (proj2 (get_range_Some src (take (Z.to_nat len) (drop (Z.to_nat si) src)) si (len + si)))
    by (split_and!; [lia..|do 2 f_equal; lia]).
  rewrite (proj2 (Z.leb_le di (len + di))), (proj2 (Z.leb_le (len + di) (zlen dst))) by lia. cbn [andb].
  assert (Hl : length (take (Z.to_nat len) (drop (Z.to_nat si) src)) = Z.to_nat len)
    by (unfold zlen in *; rewrite length_take, length_drop; lia).
  rewrite splice_ok by (unfold zlen in *; lia). by rewrite Hl.
Qed.

Lemma zlen_patch (dst bs : list Z) di len :
  zlen bs = len → 0 ≤ di → len + di ≤ zlen dst →
  zlen (take (Z.to_nat di) dst ++ bs ++ drop (Z.to_nat di + Z.to_nat len) dst) = zlen dst.
Proof. intros <- ? ?. rewrite !zlen_app. unfold zlen in *. rewrite length_take, length_drop. lia. Qed.

Lemma zlen_part (src : list Z) si len : 0 ≤ len → 0 ≤ si → len + si ≤ zlen src →
  zlen (take (Z.to_nat len) (drop (Z.to_nat si) src)) = len.
Proof. intros. unfold zlen in *. rewrite length_take, length_drop. lia. Qed.

Section Requests.
Context {D : Type} `{Flash D} {size pages : Z} `{!FlashLaws D size pages}.
Variables (buf : list Z) (addr len : Z) (d0 : D) (evs : list NvEvent).
Hypothesis Hlen : 0 ≤ len ≤ zlen buf.
Hypothesis Haddr : 0 ≤ addr < pages * size.
Hypothesis Hend : addr + len ≤ pages * size.
Hypothesis Hbound : pages * size < usize_bound.

Let Hsize : 0 < size := size_pos.

(** The page and the offset of the [k]-th byte of a request. *)
Let page_no (k : Z) : Z := (addr + k) / size.
Let offset (k : Z) : Z := (addr + k) mod size.
Let part (k : Z) : Z := Z.min (size - offset k) (len - k).

Lemma page_split k : addr + k = size * page_no k + offset k ∧ 0 ≤ offset k < size.
Proof. unfold page_no, offset. split; [apply Z.div_mod; lia|apply Z.mod_pos_bound; lia]. Qed.

Lemma page_in_range k : 0 ≤ k → addr + k < pages * size → 0 ≤ page_no k < pages.
Proof. intros. unfold page_no. split; [apply Z.div_pos; lia|apply Z.div_lt_upper_bound; lia]. Qed.

(** The device holds the first [k] bytes of the write and is otherwise as before. *)
Definition written (d : D) (k : Z) : Prop :=
  ∀ a, 0 ≤ a < pages * size →
    byte_at size d a = if (addr <=? a) && (a <? addr + k) then buf !! Z.to_nat (a - addr) else byte_at size d0 a.

(** [d'] is [d] with page [n] replaced. *)
Definition stores (d d' : D) (n : Z) (page : list Z) : Prop :=
  contents d' n = page ∧ ∀ m, m ≠ n → contents d' m = contents d m.

Lemma patch_written d d' k l :
  written d k → 0 ≤ k → 0 ≤ l → l ≤ size - offset k → k + l ≤ len → 0 ≤ page_no k < pages →
  stores d d' (page_no k)
    (take (Z.to_nat (offset k)) (contents d (page_no k)) ++ take (Z.to_nat l) (drop (Z.to_nat k) buf) ++
     drop (Z.to_nat (offset k) + Z.to_nat l) (contents d (page_no k))) →
  written d' (k + l).
Proof.
  intros Hw Hk Hl Hfit Hkl Hn [Hpage Hother] a Ha. specialize (Hw a Ha). revert Hw. unfold byte_at.
  pose proof (page_split k) as [Hs Ho]. pose proof (Z.div_mod a size ltac:(lia)) as Da. pose proof (Z.mod_pos_bound a size Hsize) as Ma.
  pose proof (zlen_part buf k l ltac:(lia) ltac:(lia) ltac:(lia)) as Hp.
  pose proof (contents_size d (page_no k) Hn) as Hc.
  destruct (decide (a / size = page_no k)) as [E|E].
  - rewrite E, Hpage in *. intros Hw.
    replace (Z.to_nat l) with (length (take (Z.to_nat l) (drop (Z.to_nat k) buf))) at 2 by (unfold zlen in Hp; lia).
    rewrite splice_lookup by lia. rewrite Hp, Z2Nat.id, Hw by lia.
    destruct (Z.leb_spec (offset k) (a mod size)), (Z.ltb_spec (a mod size) (offset k + l)),
      (Z.leb_spec addr a), (Z.ltb_spec a (addr + k)), (Z.ltb_spec a (addr + (k + l))); cbn [andb]; try lia; try done.
    rewrite lookup_take_lt, lookup_drop by lia. f_equal. lia.
  - rewrite (Hother _ E). intros ->.
    destruct (Z.leb_spec addr a), (Z.ltb_spec a (addr + k)), (Z.ltb_spec a (addr + (k + l))); cbn [andb]; try lia; try done.
    destruct E. symmetry. apply (Z.div_unique a size _ (a - size * page_no k)); lia.
Qed.

(** *** The invariant of a write *)

Definition writing (k : Z) : NonvolatileToPages := mkNv true None NvWrite (Some buf) (addr + k) len (len - k) k.

(** A page write is pending whose completion makes [k] bytes stored; the next
    byte, if any, is the first of its page. *)
Definition page_write_due (s : System D) (k : Z) : Prop :=
  nv s = writing k ∧ events s = evs ∧ 0 ≤ k ≤ len ∧ (k = len ∨ offset k = 0) ∧
  ∃ n page, pending s = Some (WritePage n page) ∧ 0 ≤ n < pages ∧ zlen page = size ∧
    ∀ d, stores (dev s) d n page → written d k.

(** [k] bytes are stored and the page of the next one is being read. *)
Definition page_read_due (s : System D) (k : Z) : Prop :=
  nv s = writing k ∧ events s = evs ∧ 0 ≤ k ≤ len ∧ addr + k < pages * size ∧ written (dev s) k ∧
  ∃ page, pending s = Some (ReadPage (page_no k) page) ∧ zlen page = size.

(** The request is over and the client has its buffer back. *)
Definition write_over (s : System D) : Prop :=
  ready size s ∧ events s = evs ++ [WriteDone buf len] ∧ written (dev s) len.

Lemma accepted (d : D) (st : NonvolatileToPages) op :
  (∃ n b, (op = ReadPage n b ∨ op = WritePage n b) ∧ 0 ≤ n < pages ∧ zlen b = size) →
  start (accepts d) st op = (st, Some op, Ok tt).
Proof.
  intros (n & b & Hop & Hn & Hb). unfold start. destruct (accepts_page d n b Hn Hb) as [Hr Hw].
  destruct Hop as [-> | ->]; [by rewrite Hr|by rewrite Hw].
Qed.

Lemma part_bounds k : 0 ≤ k ≤ len → 0 ≤ part k ∧ part k ≤ len - k ∧ part k ≤ size - offset k ∧ (k + part k = len ∨ offset (k + part k) = 0).
Proof.
  intros Hk. pose proof (page_split k) as [E Ho]. unfold part.
  destruct (Z.le_gt_cases (len - k) (size - offset k)); [rewrite Z.min_r by lia; lia|].
  rewrite Z.min_l by lia. split_and!; [lia..|]. right. unfold offset at 1.
  replace (addr + (k + (size - offset k))) with ((page_no k + 1) * size) by lia. apply Z.mod_mul. lia.
Qed.

Lemma read_then_write s k : page_read_due s k → ∃ s', sys_step s = Ret s' ∧ page_write_due s' (k + part k).
Proof.
  intros (Hnv & Hev & Hk & Hin & Hw & page & Hp & Hpl). unfold sys_step. rewrite Hp.
  destruct (read_law (dev s) (page_no k) page) as [Hr Hsame]; [by apply page_in_range; lia|done|].
  destruct (do_read _ _ _) as [d pg] eqn:Ed. cbn [fst snd] in *. subst pg.
  pose proof (page_in_range k ltac:(lia) Hin) as Hn. pose proof (contents_size (dev s) _ Hn) as Hc.
  pose proof (page_split k) as [Es Ho]. pose proof (part_bounds k Hk) as (B0 & B1 & B2 & Bend).
  unfold read_complete. rewrite Hnv. cbn [state buffer writing address remaining_length buffer_index].
  rewrite Hc. rewrite urem_ok by lia. cbn [mbind outcome_bind]. fold (offset k). ustep. fold (part k).
  rewrite copy_part_ok by lia. ustep. fold (page_no k). unfold resume.
  rewrite accepted. 2:{ eexists _, _. split; [by right|]. split; [done|]. rewrite zlen_patch; [lia|apply zlen_part; lia|lia|lia]. }
  eexists. split; [reflexivity|]. cbn [fst]. unfold page_write_due. cbn [nv events pending dev].
  split_and!; [|by rewrite app_nil_r|lia|lia|done|].
  { unfold writing, set_progress. cbn. f_equal; lia. }
  eexists _, _. split; [reflexivity|]. split; [done|]. split; [rewrite zlen_patch; [lia|apply zlen_part; lia|lia|lia]|].
  intros d' Hst. apply (patch_written d d' k (part k)); [|lia..|done|].
  - intros a Ha. rewrite <- (Hw a Ha). unfold byte_at. by rewrite Hsame.
  - unfold stores in *. by rewrite Hsame.
Qed.

Lemma write_then_next s k : page_write_due s k →
  ∃ s', sys_step s = Ret s' ∧
    (k = len → write_over s') ∧
    (k < len → size ≤ len - k → page_write_due s' (k + size)) ∧
    (k < len → len - k < size → page_read_due s' k ∧ offset k = 0).
Proof.
  intros (Hnv & Hev & Hk & Hal & n & page & Hp & Hn & Hpl & Hst). unfold sys_step. rewrite Hp.
  destruct (write_law (dev s) n page Hn Hpl) as (Hl & Hc & Hoth).
  destruct (do_write _ _ _) as [d pg] eqn:Ed. cbn [fst snd] in *.
  specialize (Hst d (conj Hc Hoth)). unfold write_complete. rewrite Hnv. cbn [buffer writing remaining_length address buffer_index length_].
  rewrite Hl. destruct (Z.eqb_spec (len - k) 0).
  { eexists. split; [reflexivity|]. split_and!; [|lia..]. intros ->. cbn.
    split_and!; cbn; [split_and!; eauto|by rewrite Hev|done]. }
  destruct Hal as [|Hal]; [lia|]. pose proof (page_split k) as [Es Ho]. pose proof (page_in_range k ltac:(lia) ltac:(lia)) as Hpn.
  destruct (Z.leb_spec size (len - k)).
  - rewrite udiv_ok by lia. cbn [mbind outcome_bind]. fold (page_no k). rewrite copy_part_ok by lia. ustep. unfold resume.
    cbn [Z.to_nat take app Nat.add]. rewrite (drop_ge pg), app_nil_r by (unfold zlen in *; lia).
    pose proof (zlen_part buf k size ltac:(lia) ltac:(lia) ltac:(lia)) as Hz.
    rewrite accepted by (eexists _, _; eauto).
    eexists. split; [reflexivity|]. split_and!; [lia| |lia]. intros _ _. unfold page_write_due. cbn [fst nv events pending dev].
    split_and!; [unfold writing, set_progress; cbn; f_equal; lia|by rewrite app_nil_r|lia|lia| |].
    { right. unfold offset in *. replace (addr + (k + size)) with (addr + k + 1 * size) by lia. by rewrite Z.mod_add by lia. }
    eexists _, _. split_and!; [reflexivity|lia|lia|done|]. intros d' Hd'. apply (patch_written d d' k size); [done|lia..|].
    rewrite Hal in *. cbn [Z.to_nat take app Nat.add].
    rewrite (drop_ge (contents d (page_no k))), app_nil_r; [done|]. pose proof (contents_size d _ Hpn). unfold zlen in *. lia.
  - rewrite udiv_ok by lia. cbn [mbind outcome_bind]. fold (page_no k). unfold resume. rewrite accepted by (eexists _, _; eauto).
    eexists. split; [reflexivity|]. split_and!; [lia|lia|]. intros _ _. split; [|done]. unfold page_read_due. cbn [fst nv events pending dev].
    split_and!; [done|by rewrite app_nil_r|lia|lia|lia|done|]. eauto.
Qed.

Lemma sys_run_done n (s : System D) : pending s = None → sys_run n s = Ret s.
Proof. intros Hp. induction n as [|n IH]; [done|]. cbn [sys_run]. unfold sys_step. by rewrite Hp. Qed.

(** A page write every callback, and one read for a last partial page. *)
Lemma write_run fuel s k : page_write_due s k → (len - k) / size + 3 ≤ Z.of_nat fuel →
  ∃ s', sys_run fuel s = Ret s' ∧ write_over s'.
Proof.
  revert s k. induction fuel as [|fuel IH]; intros s k Hs Hf.
  { destruct Hs as (_ & _ & Hk & _). pose proof (Z.div_pos (len - k) size ltac:(lia) Hsize). lia. }
  destruct (write_then_next s k Hs) as (s1 & E1 & Hover & Hfull & Hpart). cbn [sys_run]. rewrite E1. cbn [mbind outcome_bind].
  destruct Hs as (_ & _ & Hk & _). destruct (decide (k = len)) as [->|].
  { specialize (Hover eq_refl). rewrite sys_run_done by apply Hover. eauto. }
  destruct (Z.le_gt_cases size (len - k)).
  - apply (IH s1 (k + size)); [by apply Hfull; lia|].
    assert (E : (len - k) / size = (len - (k + size)) / size + 1); [|lia].
    replace (len - k) with (len - (k + size) + 1 * size) by lia. by rewrite Z.div_add by lia.
  - destruct (Hpart ltac:(lia) ltac:(lia)) as [Hr Ho]. rewrite Z.div_small in Hf by lia.
    destruct fuel as [|[|fuel]]; [lia..|]. destruct (read_then_write s1 k Hr) as (s2 & E2 & Hw2).
    replace (k + part k) with len in Hw2 by (unfold part; lia).
    cbn [sys_run]. rewrite E2. cbn [mbind outcome_bind].
    destruct (write_then_next s2 len Hw2) as (s3 & E3 & Hover3 & _). rewrite E3. cbn [mbind outcome_bind].
    specialize (Hover3 eq_refl). rewrite sys_run_done by apply Hover3. eauto.
Qed.

(** *** A write request *)

Lemma request_written s : ready size s → events s = evs → dev s = d0 →
  ∃ s1, sys_write s buf addr len = Ret (s1, Ok tt) ∧
    ∃ s2, sys_run (Z.to_nat (len / size + 4)) s1 = Ret s2 ∧ write_over s2.
Proof.
  intros (Hc & Hi & Hp & page & Hb & Hpl) Hev Hd. pose proof (Z.div_pos len size ltac:(lia) Hsize) as Hq.
  assert (Hw0 : written d0 0). { intros a Ha. destruct (Z.leb_spec addr a), (Z.ltb_spec a (addr + 0)); cbn [andb]; lia || done. }
  pose proof (page_split 0) as [Es Ho]. pose proof (page_in_range 0 ltac:(lia) ltac:(lia)) as Hn.
  assert (Eo : addr mod size = offset 0) by (unfold offset; by rewrite Z.add_0_r).
  assert (En : addr / size = page_no 0) by (unfold page_no; by rewrite Z.add_0_r).
  destruct (s) as [st d op e]. destruct st as [c pb sta b a l r i]. cbn in Hc, Hi, Hp, Hb, Hev, Hd. subst c sta op pb e d.
  unfold sys_write, sys_call, nv_write. cbn [nv dev pending events state pagebuffer]. rewrite bool_decide_true by done. cbn [negb].
  rewrite Hpl. rewrite urem_ok by lia. cbn [mbind outcome_bind]. rewrite Eo.
  destruct ((offset 0 =? 0) && (size <=? len)) eqn:Efull; cbv zeta.
  - apply andb_true_iff in Efull as [Hz%Z.eqb_eq Hfit%Z.leb_le].
    rewrite copy_part_ok by lia. ustep. rewrite En, accepted.
    2:{ eexists _, _. split; [by right|]. split; [done|]. rewrite zlen_patch; [lia|apply zlen_part; lia|lia|lia]. }
    eexists. split; [reflexivity|].
    eapply (write_run _ _ size); [|pose proof (Z.div_le_mono (len - size) len size ltac:(lia) ltac:(lia)) as Hm; clear -Hm Hq; lia].
    unfold page_write_due. cbn [nv events pending dev]. split_and!; [unfold writing, set_progress; cbn; f_equal; lia|done|lia|lia| |].
    { right. unfold offset in *. replace (addr + size) with (addr + 0 + 1 * size) by lia. by rewrite Z.mod_add by lia. }
    eexists _, _. split; [reflexivity|]. split_and!; [lia|lia|rewrite zlen_patch; [lia|apply zlen_part; lia|lia|lia]|].
    intros d' Hd'. apply (patch_written d0 d' 0 size Hw0); [lia..|]. revert Hd'. rewrite Hz. cbn [Z.to_nat take app Nat.add].
    pose proof (contents_size d0 (page_no 0) Hn). rewrite !(drop_ge _ (Z.to_nat size)) by (unfold zlen in *; lia). done.
  - rewrite udiv_ok by lia. cbn [mbind outcome_bind]. rewrite En, accepted by (eexists _, _; eauto). eexists. split; [reflexivity|].
    replace (Z.to_nat (len / size + 4)) with (S (Z.to_nat (len / size + 3))) by lia. cbn [sys_run].
    match goal with |- context [sys_step ?s0] => destruct (read_then_write s0 0) as (s1 & -> & Hs1); [|apply (write_run _ _ _ Hs1)] end.
    + unfold page_read_due. cbn [nv events pending dev]. split_and!; [unfold writing, set_progress; cbn; f_equal; lia|done|lia..|done|].
      eexists. split; [|done]. done.
    + destruct (part_bounds 0 ltac:(lia)) as (P0 & _). cbn [mbind outcome_bind].
      pose proof (Z.div_le_mono (len - (0 + part 0)) len size ltac:(lia) ltac:(lia)) as Hm. clear -Hm Hq. lia.
Qed.

(** *** The invariant of a read *)

(** [b] holds the first [k] bytes of the storage from [addr] on. *)
Definition filled (b : list Z) (k : Z) : Prop :=
  zlen b = zlen buf ∧ ∀ j : nat, b !! j = if Z.of_nat j <? k then byte_at size d0 (addr + Z.of_nat j) else buf !! j.

Definition same_contents (d : D) : Prop := ∀ n, contents d n = contents d0 n.

Definition read_due (s : System D) (k : Z) : Prop :=
  events s = evs ∧ 0 ≤ k ≤ len ∧ addr + k < pages * size ∧ same_contents (dev s) ∧
  ∃ b page, nv s = mkNv true None NvRead (Some b) (addr + k) len (len - k) k ∧ filled b k ∧
    pending s = Some (ReadPage (page_no k) page) ∧ zlen page = size.

Definition read_over (s : System D) : Prop :=
  ready size s ∧ same_contents (dev s) ∧ ∃ b, events s = evs ++ [ReadDone b len] ∧ filled b len.

Lemma fill_part b k l : filled b k → 0 ≤ k → 0 ≤ l → l ≤ size - offset k → k + l ≤ len → 0 ≤ page_no k < pages →
  filled (take (Z.to_nat k) b ++ take (Z.to_nat l) (drop (Z.to_nat (offset k)) (contents d0 (page_no k))) ++ drop (Z.to_nat k + Z.to_nat l) b) (k + l).
Proof.
  intros [Hl Hb] Hk Hl0 Hfit Hkl Hn. pose proof (page_split k) as [Es Ho]. pose proof (contents_size d0 _ Hn) as Hc.
  pose proof (zlen_part (contents d0 (page_no k)) (offset k) l ltac:(lia) ltac:(lia) ltac:(rewrite Hc; lia)) as Hp.
  split; [rewrite zlen_patch; [done|done|lia|lia]|]. intros j.
  replace (Z.to_nat l) with (length (take (Z.to_nat l) (drop (Z.to_nat (offset k)) (contents d0 (page_no k))))) at 2 by (unfold zlen in Hp; lia).
  rewrite splice_lookup by lia. rewrite Hp, Hb.
  destruct (Z.leb_spec k (Z.of_nat j)), (Z.ltb_spec (Z.of_nat j) (k + l)), (Z.ltb_spec (Z.of_nat j) k); cbn [andb]; try lia; try done.
  rewrite lookup_take_lt, lookup_drop by lia. unfold byte_at.
  assert (Eq : (addr + Z.of_nat j) / size = page_no k) by (symmetry; apply (Z.div_unique _ size _ (offset k + (Z.of_nat j - k))); lia).
  assert (Em : (addr + Z.of_nat j) mod size = offset k + (Z.of_nat j - k)) by (symmetry; apply (Z.mod_unique _ size (page_no k)); lia).
  rewrite Eq, Em. f_equal. lia.
Qed.

Lemma read_next s k : read_due s k →
  ∃ s', sys_step s = Ret s' ∧ (k + part k = len → read_over s') ∧ (k + part k < len → read_due s' (k + part k)).
Proof.
  intros (Hev & Hk & Hin & Hsame & b & page & Hnv & Hb & Hp & Hpl). unfold sys_step. rewrite Hp.
  pose proof (page_in_range k ltac:(lia) Hin) as Hn.
  destruct (read_law (dev s) (page_no k) page Hn Hpl) as [Hr Hd].
  destruct (do_read _ _ _) as [d pg] eqn:Ed. cbn [fst snd] in *. subst pg. rewrite Hsame.
  assert (Hsame' : same_contents d) by (intros n; by rewrite Hd, Hsame).
  pose proof (contents_size d0 _ Hn) as Hc. pose proof (page_split k) as [Es Ho].
  pose proof (part_bounds k Hk) as (B0 & B1 & B2 & Bend). pose proof (fill_part b k (part k) Hb ltac:(lia) B0 B2 ltac:(lia) Hn) as Hf.
  unfold read_complete. rewrite Hnv. cbn [state buffer address remaining_length buffer_index length_ set_buffer].
  rewrite Hc, urem_ok by lia. cbn [mbind outcome_bind]. fold (offset k). ustep. fold (part k). destruct (Hb) as [Hbl _].
  rewrite copy_part_ok by lia. ustep. destruct (Z.eqb_spec (len - k - part k) 0).
  - eexists. split; [reflexivity|]. split; [|lia]. intros El. rewrite El in Hf. unfold read_over, ready. cbn. split_and!; eauto. rewrite Hev. eauto.
  - ustep. pose proof (page_in_range (k + part k) ltac:(lia) ltac:(lia)) as Hn'. unfold resume.
    replace ((addr + k + part k) / size) with (page_no (k + part k)) by (unfold page_no; by rewrite Z.add_assoc).
    rewrite accepted by (eexists _, _; eauto). eexists. split; [reflexivity|]. split; [lia|]. intros Hlt.
    unfold read_due. cbn [fst nv events pending dev]. split_and!; [by rewrite app_nil_r|lia..|done|].
    eexists _, _. split_and!; [unfold set_progress; cbn; f_equal; lia|exact Hf|done|done].
Qed.

Lemma read_run fuel s k : read_due s k → (offset k + len - k) / size + 1 ≤ Z.of_nat fuel →
  ∃ s', sys_run fuel s = Ret s' ∧ read_over s'.
Proof.
  revert s k. induction fuel as [|fuel IH]; intros s k Hs Hf; destruct (id Hs) as (_ & Hk & _); pose proof (page_split k) as [_ Ho].
  { pose proof (Z.div_pos (offset k + len - k) size ltac:(lia) Hsize). lia. }
  destruct (read_next s k Hs) as (s1 & E1 & Hover & Hmore). cbn [sys_run]. rewrite E1. cbn [mbind outcome_bind].
  destruct (part_bounds k Hk) as (B0 & B1 & B2 & Bend). destruct (decide (k + part k = len)) as [El|Hne].
  { specialize (Hover El). rewrite sys_run_done by apply Hover. eauto. }
  destruct Bend as [|Ho']; [done|]. apply (IH s1 (k + part k)); [by apply Hmore; lia|]. rewrite Ho'.
  assert (Ep : part k = size - offset k) by (unfold part in *; lia).
  replace (offset k + len - k) with (0 + len - (k + part k) + 1 * size) in Hf by lia. rewrite Z.div_add in Hf by lia. lia.
Qed.

Lemma request_read s : ready size s → events s = evs → dev s = d0 →
  ∃ s1, sys_read s buf addr len = Ret (s1, Ok tt) ∧
    ∃ s2, sys_run (Z.to_nat (len / size + 2)) s1 = Ret s2 ∧ read_over s2.
Proof.
  intros (Hc & Hi & Hp & page & Hb & Hpl) Hev Hd. pose proof (Z.div_pos len size ltac:(lia) Hsize) as Hq.
  pose proof (page_split 0) as [Es Ho]. pose proof (page_in_range 0 ltac:(lia) ltac:(lia)) as Hn.
  assert (En : addr / size = page_no 0) by (unfold page_no; by rewrite Z.add_0_r).
  destruct (s) as [st d op e]. destruct st as [c pb sta b a l r i]. cbn in Hc, Hi, Hp, Hb, Hev, Hd. subst c sta op pb e d.
  unfold sys_read, sys_call, nv_read. cbn [nv dev pending events state pagebuffer]. rewrite bool_decide_true by done. cbn [negb].
  rewrite Hpl, udiv_ok by lia. cbn [mbind outcome_bind]. rewrite En, accepted by (eexists _, _; eauto).
  eexists. split; [reflexivity|]. apply (read_run _ _ 0).
  - unfold read_due. cbn [nv events pending dev]. split_and!; [done|lia..|done|].
    eexists _, _. split_and!; [unfold set_progress; cbn; f_equal; lia| |done|done].
    split; [done|]. intros j. by destruct (Z.ltb_spec (Z.of_nat j) 0); [lia|].
  - assert (Hm : (offset 0 + len - 0) / size ≤ len / size + 1); [|clear -Hm Hq; lia].
    rewrite <- Z.div_add by lia. apply Z.div_le_mono; lia.
Qed.

End Requests.

(** ** The storage as an array of bytes *)

(** What the client asks for, with the buffer it hands over. *)
Inductive Request : Type :=
| ReadReq (buf : list Z) (addr len : Z)
| WriteReq (buf : list Z) (addr len : Z).

(** The documented terms of a request: the buffer is long enough, and the range
    is in the storage. *)
Definition valid_request (size pages : Z) (r : Request) : Prop :=
  match r with ReadReq buf addr len | WriteReq buf addr len =>
    0 ≤ len ≤ zlen buf ∧ 0 ≤ addr < pages * size ∧ addr + len ≤ pages * size
  end.

(** One request on an array of bytes, with the callback it ends in. *)
Inductive array_step (total : Z) (f : Z → option Z) : Request → NvEvent → (Z → option Z) → Prop :=
| array_read buf addr len b g :
    zlen b = zlen buf →
    (∀ j : nat, b !! j = if Z.of_nat j <? len then f (addr + Z.of_nat j) else buf !! j) →
    (∀ a, 0 ≤ a < total → g a = f a) →
    array_step total f (ReadReq buf addr len) (ReadDone b len) g
| array_write buf addr len g :
    (∀ a, 0 ≤ a < total → g a = if (addr <=? a) && (a <? addr + len) then buf !! Z.to_nat (a - addr) else f a) →
    array_step total f (WriteReq buf addr len) (WriteDone buf len) g.

Inductive array_run (total : Z) : (Z → option Z) → list Request → list NvEvent → (Z → option Z) → Prop :=
| array_run_nil f : array_run total f [] [] f
| array_run_cons f r ev g rs evs h :
    array_step total f r ev g → array_run total g rs evs h → array_run total f (r :: rs) (ev :: evs) h.

Section Service.
Context {D : Type} `{Flash D}.

(** A request and the page operations it causes, at most one for each page it
    touches entirely and four more. *)
Definition serve (size : Z) (s : System D) (r : Request) : outcome (System D * result unit ErrorCode) :=
  match r with
  | ReadReq buf addr len => '(s, res) ← sys_read s buf addr len; s ← sys_run (Z.to_nat (len / size + 4)) s; Ret (s, res)
  | WriteReq buf addr len => '(s, res) ← sys_write s buf addr len; s ← sys_run (Z.to_nat (len / size + 4)) s; Ret (s, res)
  end.

Fixpoint serve_all (size : Z) (s : System D) (rs : list Request) : outcome (System D) :=
  match rs with [] => Ret s | r :: rs => '(s, _) ← serve size s r; serve_all size s rs end.

Lemma sys_run_add m n (s s' : System D) : sys_run m s = Ret s' → sys_run (m + n) s = sys_run n s'.
Proof.
  revert s. induction m as [|m IH]; intros s; cbn [sys_run Nat.add]; [by intros [= ->]|].
  destruct (sys_step s) as [s1|]; [|done]. apply IH.
Qed.

Context {size pages : Z} `{!FlashLaws D size pages}.

Lemma serve_ok s r : pages * size < usize_bound → ready size s → valid_request size pages r →
  ∃ s' ev, serve size s r = Ret (s', Ok tt) ∧ ready size s' ∧ events s' = events s ++ [ev] ∧
    array_step (pages * size) (byte_at size (dev s)) r ev (byte_at size (dev s')).
Proof.
  intros Hb Hr Hv. pose proof (size_pos (size := size) (pages := pages)) as Hs. destruct r as [buf addr len|buf addr len], Hv as (Hl & Ha & He); cbn [serve].
  - destruct (request_read buf addr len (dev s) (events s) Hl Ha He Hb s Hr eq_refl eq_refl) as (s1 & -> & s2 & E2 & Ho & Hsame & b & Hev & Hlen & Hfill).
    cbn [mbind outcome_bind]. pose proof (Z.div_pos len size ltac:(lia) Hs).
    replace (Z.to_nat (len / size + 4)) with (Z.to_nat (len / size + 2) + 2)%nat by lia.
    rewrite (sys_run_add _ _ _ _ E2), sys_run_done by apply Ho. eexists _, _. split_and!; [reflexivity|done|done|].
    constructor; [done|done|]. intros a _. unfold byte_at. by rewrite Hsame.
  - destruct (request_written buf addr len (dev s) (events s) Hl Ha He Hb s Hr eq_refl eq_refl) as (s1 & -> & s2 & E2 & Ho & Hev & Hw).
    cbn [mbind outcome_bind]. rewrite E2. eexists _, _. split_and!; [reflexivity|done|done|]. by constructor.
Qed.

End Service.

(** C13.  Over any flash driver that keeps to its interface, the capsule is an array
    of bytes: any sequence of reads and writes within the storage, of any
    alignment and length, is served request by request in a bounded number of
    page operations without a panic, each ends in exactly one callback, with the
    bytes of the array and nothing else changed, and leaves the capsule ready. *)
Theorem storage_is_byte_array {D : Type} `{Flash D} (size pages : Z) `{!FlashLaws D size pages} (s : System D) (rs : list Request) :
  pages * size < usize_bound → ready size s → Forall (valid_request size pages) rs →
  ∃ s' evs, serve_all size s rs = Ret s' ∧ ready size s' ∧ events s' = events s ++ evs ∧
    array_run (pages * size) (byte_at size (dev s)) rs evs (byte_at size (dev s')).
Proof.
  intros Hb Hr Hv. revert s Hr. induction Hv as [|r rs Hrq Hv IH]; intros s Hr.
  { exists s, []. rewrite app_nil_r. eauto using array_run_nil. }
  destruct (serve_ok s r Hb Hr Hrq) as (s1 & ev & E1 & Hr1 & Hev1 & Hstep).
  destruct (IH s1 Hr1) as (s2 & evs & E2 & Hr2 & Hev2 & Hrun). exists s2, (ev :: evs).
  cbn [serve_all]. rewrite E1. cbn [mbind outcome_bind]. split_and!; [done|done| |by econstructor].
  by rewrite Hev2, Hev1, <- app_assoc.
Qed.

(** A device of four pages of four bytes, whose unwritten bytes are erased. *)
#[local] Instance sample_flash : Flash (Z → list Z) := {
  contents d n := take 4 (d n ++ replicate 4 255);
  accepts d op := match op with ReadPage n _ | WritePage n _ => if (0 <=? n) && (n <? 4) then None else Some INVAL end;
  do_read d n b := (d, take 4 (d n ++ replicate 4 255));
  do_write d n b := (λ m, if m =? n then b else d m, b)
}.

#[local] Instance sample_laws : FlashLaws (Z → list Z) 4 4.
Proof.
  split; cbn -[take replicate].
  - lia.
  - intros d n _. unfold zlen. rewrite length_take, length_app, length_replicate. lia.
  - intros d n b Hn _. rewrite (proj2 (Z.leb_le 0 n)), (proj2 (Z.ltb_lt n 4)) by lia. done.
  - done.
  - intros d n b _ Hb. unfold zlen in Hb. split; [done|]. split.
    + rewrite Z.eqb_refl, take_app_le, take_ge by lia. done.
    + intros m Hm. by rewrite (proj2 (Z.eqb_neq m n)).
Qed.

Definition sample_system : System (Z → list Z) :=
  mkSys (set_client (NonvolatileToPages_new [0; 0; 0; 0])) (λ _, []) None [].

Lemma storage_is_byte_array_witness :
  ∃ s' evs, serve_all 4 sample_system [WriteReq [1; 2; 3; 4; 5; 6; 7] 3 6; ReadReq [0; 0; 0; 0] 2 4] = Ret s' ∧ ready 4 s' ∧ events s' = [] ++ evs ∧
    array_run 16 (byte_at 4 (λ _, [])) [WriteReq [1; 2; 3; 4; 5; 6; 7] 3 6; ReadReq [0; 0; 0; 0] 2 4] evs (byte_at 4 (dev s')).
Proof.
  apply (storage_is_byte_array 4 4 sample_system).
  - lia.
  - split_and!; try done. by exists [0; 0; 0; 0].
  - apply Forall_cons; split; [unfold valid_request, zlen; cbn [length]; lia|]. apply Forall_cons; split; [unfold valid_request, zlen; cbn [length]; lia|]. by apply Forall_nil.
Defined.

(** The same requests evaluated: the write straddles three pages. *)
Example sample_events :
  (s ← serve_all 4 sample_system [WriteReq [1; 2; 3; 4; 5; 6; 7] 3 6; ReadReq [0; 0; 0; 0] 2 4]; Ret (events s)) =
  Ret [WriteDone [1; 2; 3; 4; 5; 6; 7] 6; ReadDone [255; 1; 2; 3] 4].
Proof. vm_compute. reflexivity. Qed.

(** ** A refused page operation *)

Lemma busy_answer accept st buf addr len : state st ≠ NvIdle →
  nv_read accept st buf addr len = Ret (st, None, Err BUSY) ∧ nv_write accept st buf addr len = Ret (st, None, Err BUSY).
Proof. intros Hs. unfold nv_read, nv_write. by rewrite bool_decide_false. Qed.

Lemma start_refused accept st op st' o e : start accept st op = (st', o, Err e) → o = None ∧ state st' = state st.
Proof. unfold start. destruct (accept op); intros E; [|done]. by injection E as <- <- _. Qed.

Lemma refused_state accept st page buf addr len st' o e f :
  (f = nv_read ∨ f = nv_write) → state st = NvIdle → pagebuffer st = Some page →
  f accept st buf addr len = Ret (st', o, Err e) → o = None ∧ state st' ≠ NvIdle.
Proof.
  intros Hf Hi Hp. destruct Hf as [-> | ->]; unfold nv_read, nv_write; rewrite bool_decide_true, Hp by done; cbn [negb]; intros E.
  - outcome_inv E. apply start_refused in E as [-> ->]. done.
  - apply outcome_bind_Ret in E as (off & _ & E). destruct (_ && _); outcome_inv E; apply start_refused in E as [-> ->]; done.
Qed.

(** When the driver refuses the first page operation of a request, the error is
    returned but the state is not reset: no callback ever follows, and every
    later read or write, whatever the driver would answer, is refused with
    [BUSY]. *)
Theorem refused_request_blocks {D : Type} `{Flash D} (size : Z) (s s' : System D) buf addr len e f :
  (f = nv_read ∨ f = nv_write) → ready size s → sys_call f s buf addr len = Ret (s', Err e) →
  (∀ n, sys_run n s' = Ret s') ∧
  ∀ accept buf' addr' len', nv_read accept (nv s') buf' addr' len' = Ret (nv s', None, Err BUSY) ∧
                            nv_write accept (nv s') buf' addr' len' = Ret (nv s', None, Err BUSY).
Proof.
  intros Hf (_ & Hi & Hp & page & Hb & _) E. unfold sys_call in E. apply outcome_bind_Ret in E as ([[st o] r] & E & [= <- ->]).
  apply (refused_state _ _ page) in E as [-> Hs]; [|done..]. cbn [nv]. split; [intros n; by apply sys_run_done|].
  intros. by apply busy_answer.
Qed.

Lemma refused_request_blocks_witness : ∃ s',
  sys_call nv_read sample_system [0; 0] 20 2 = Ret (s', Err INVAL) ∧ (∀ n, sys_run n s' = Ret s') ∧
  ∀ accept buf' addr' len', nv_read accept (nv s') buf' addr' len' = Ret (nv s', None, Err BUSY) ∧
                            nv_write accept (nv s') buf' addr' len' = Ret (nv s', None, Err BUSY).
Proof.
  eexists. split; [reflexivity|]. eapply (refused_request_blocks 4 sample_system _ [0; 0] 20 2 INVAL nv_read); [by left| |reflexivity].
  split_and!; try done. by exists [0; 0; 0; 0].
Defined.
