(* ===== verification/Sha256.v ===== *)
(** * Software SHA-256 (capsules/extra/src/sha256.rs)

    [Sha256Software] hashes the data of its client as it comes, a block of 64
    bytes at a time, and reports each call in a deferred call.  The additions
    that the code writes with [+] on [u32] wrap in the release profile and panic
    in the dev profile of Cargo.toml, so the operations take the profile as
    [checks]; additions written [wrapping_add] wrap in both. *)

From S2P Require Import Prelude Bytes Syscall LeasableBuffer.

(** ** Constants *)

Definition SHA_BLOCK_LEN_BYTES : Z := 64.
Definition SHA_256_OUTPUT_LEN_BYTES : Z := 32.

Definition ROUND_CONSTANTS : list Z :=
  0x428a2f98 :: 0x71374491 :: 0xb5c0fbcf :: 0xe9b5dba5 :: 0x3956c25b :: 0x59f111f1 :: 0x923f82a4 :: 0xab1c5ed5 ::
  0xd807aa98 :: 0x12835b01 :: 0x243185be :: 0x550c7dc3 :: 0x72be5d74 :: 0x80deb1fe :: 0x9bdc06a7 :: 0xc19bf174 ::
  0xe49b69c1 :: 0xefbe4786 :: 0x0fc19dc6 :: 0x240ca1cc :: 0x2de92c6f :: 0x4a7484aa :: 0x5cb0a9dc :: 0x76f988da ::
  0x983e5152 :: 0xa831c66d :: 0xb00327c8 :: 0xbf597fc7 :: 0xc6e00bf3 :: 0xd5a79147 :: 0x06ca6351 :: 0x14292967 ::
  0x27b70a85 :: 0x2e1b2138 :: 0x4d2c6dfc :: 0x53380d13 :: 0x650a7354 :: 0x766a0abb :: 0x81c2c92e :: 0x92722c85 ::
  0xa2bfe8a1 :: 0xa81a664b :: 0xc24b8b70 :: 0xc76c51a3 :: 0xd192e819 :: 0xd6990624 :: 0xf40e3585 :: 0x106aa070 ::
  0x19a4c116 :: 0x1e376c08 :: 0x2748774c :: 0x34b0bcb5 :: 0x391c0cb3 :: 0x4ed8aa4a :: 0x5b9cca4f :: 0x682e6ff3 ::
  0x748f82ee :: 0x78a5636f :: 0x84c87814 :: 0x8cc70208 :: 0x90befffa :: 0xa4506ceb :: 0xbef9a3f7 :: 0xc67178f2 :: [].

Definition initial_hashes : list Z :=
  [0x6a09e667; 0xbb67ae85; 0x3c6ef372; 0xa54ff53a; 0x510e527f; 0x9b05688c; 0x1f83d9ab; 0x5be0cd19].

(** ** The compression function *)

(** [(x >> rotate) | (x << (32 - rotate))]. *)
Definition right_rotate (x rotate : Z) : Z := Z.lor (Z.shiftr x rotate) (wrap32 (Z.shiftl x (32 - rotate))).

(** The body of the message schedule loop. *)
Definition schedule_word (checks : bool) (i : Z) (w : list Z) : outcome (list Z) :=
  w15 ← index_get w (i - 15);
  let s0 := Z.lxor (Z.lxor (right_rotate w15 7) (right_rotate w15 18)) (Z.shiftr w15 3) in
  w2 ← index_get w (i - 2);
  let s1 := Z.lxor (Z.lxor (right_rotate w2 17) (right_rotate w2 19)) (Z.shiftr w2 10) in
  w16 ← index_get w (i - 16); w7 ← index_get w (i - 7);
  t ← plain_add checks w16 s0; t ← plain_add checks t w7; t ← plain_add checks t s1;
  index_set w i t.

(** [for i in from..from + n { body }]. *)
Fixpoint for_range {A} (n : nat) (from : Z) (body : Z → A → outcome A) (a : A) : outcome A :=
  match n with O => Ret a | S n => a ← body from a; for_range n (from + 1) body a end.

(** [hashes[dst] = hashes[src]]. *)
Definition move_hash (dst src : Z) (hashes : list Z) : outcome (list Z) :=
  v ← index_get hashes src; index_set hashes dst v.

(** The body of the compression loop. *)
Definition compress_round (checks : bool) (w : list Z) (i : Z) (hashes : list Z) : outcome (list Z) :=
  h0 ← index_get hashes 0; h1 ← index_get hashes 1; h2 ← index_get hashes 2;
  h4 ← index_get hashes 4; h5 ← index_get hashes 5; h6 ← index_get hashes 6; h7 ← index_get hashes 7;
  let s1 := Z.lxor (Z.lxor (right_rotate h4 6) (right_rotate h4 11)) (right_rotate h4 25) in
  let ch := Z.lxor (Z.land h4 h5) (Z.land (wrap32 (Z.lnot h4)) h6) in
  constant ← index_get ROUND_CONSTANTS i;
  wi ← index_get w i;
  t ← plain_add checks h7 s1; t ← plain_add checks t ch; t ← plain_add checks t constant; temp1 ← plain_add checks t wi;
  let s0 := Z.lxor (Z.lxor (right_rotate h0 2) (right_rotate h0 13)) (right_rotate h0 22) in
  let maj := Z.lxor (Z.lxor (Z.land h0 h1) (Z.land h0 h2)) (Z.land h1 h2) in
  temp2 ← plain_add checks s0 maj;
  hashes ← move_hash 7 6 hashes;
  hashes ← move_hash 6 5 hashes;
  hashes ← move_hash 5 4 hashes;
  h3 ← index_get hashes 3;
  hashes ← index_set hashes 4 (wrapping_add h3 temp1);
  hashes ← move_hash 3 2 hashes;
  hashes ← move_hash 2 1 hashes;
  hashes ← move_hash 1 0 hashes;
  index_set hashes 0 (wrapping_add temp1 temp2).

(** The last loop: [new_hashes[i] = new_hashes[i].wrapping_add(hashes[i])]. *)
Definition add_hash (hashes : list Z) (i : Z) (new_hashes : list Z) : outcome (list Z) :=
  n ← index_get new_hashes i; h ← index_get hashes i; index_set new_hashes i (wrapping_add n h).

(** [perform_sha], from the hash values to the new ones. *)
Definition perform_sha (checks : bool) (hash_values : list Z) (message_schedule : list Z) : outcome (list Z) :=
  w ← for_range 48 16 (schedule_word checks) message_schedule;
  hashes ← for_range 64 0 (compress_round checks w) hash_values;
  for_range 8 0 (add_hash hashes) hash_values.

(** A big-endian word of the block. *)
Definition load_word (buffer : list Z) (i : Z) (message_schedule : list Z) : outcome (list Z) :=
  b0 ← index_get buffer (i * 4 + 0); b1 ← index_get buffer (i * 4 + 1);
  b2 ← index_get buffer (i * 4 + 2); b3 ← index_get buffer (i * 4 + 3);
  index_set message_schedule i (Z.lor (Z.lor (Z.lor (Z.shiftl b0 24) (Z.shiftl b1 16)) (Z.shiftl b2 8)) b3).

Definition compute_buffer (checks : bool) (hash_values : list Z) (buffer : list Z) : outcome (list Z) :=
  w ← for_range 16 0 (load_word buffer) (replicate 64 0);
  perform_sha checks hash_values w.

Definition compute_block := compute_buffer.

(** ** The hasher *)

Inductive ShaState : Type := ShaIdle | ShaData | ShaHash | ShaVerify | ShaCancelData | ShaCancelHash | ShaCancelVerify.

#[export] Instance ShaState_eq_dec : EqDecision ShaState.
Proof. solve_decision. Defined.

(** [Sha256Software]; [sha_client] is whether a client is set and
    [deferred_call] whether the deferred call is pending. *)
Record Sha256Software := mkSha {
  sha_state : ShaState;
  sha_client : bool;
  input_data : option (SubSliceMutImmut Z);
  data_buffer : list Z;
  buffered_length : Z;
  total_length : Z;
  output_data : option (list Z);
  hash_values : list Z;
  deferred_call : bool
}.

Definition set_sha_state (s : Sha256Software) (x : ShaState) : Sha256Software :=
  mkSha x (sha_client s) (input_data s) (data_buffer s) (buffered_length s) (total_length s) (output_data s) (hash_values s) (deferred_call s).
Definition set_input (s : Sha256Software) (x : option (SubSliceMutImmut Z)) : Sha256Software :=
  mkSha (sha_state s) (sha_client s) x (data_buffer s) (buffered_length s) (total_length s) (output_data s) (hash_values s) (deferred_call s).
Definition set_block (s : Sha256Software) (x : list Z) : Sha256Software :=
  mkSha (sha_state s) (sha_client s) (input_data s) x (buffered_length s) (total_length s) (output_data s) (hash_values s) (deferred_call s).
Definition set_lengths (s : Sha256Software) (buffered total : Z) : Sha256Software :=
  mkSha (sha_state s) (sha_client s) (input_data s) (data_buffer s) buffered total (output_data s) (hash_values s) (deferred_call s).
Definition set_output (s : Sha256Software) (x : option (list Z)) : Sha256Software :=
  mkSha (sha_state s) (sha_client s) (input_data s) (data_buffer s) (buffered_length s) (total_length s) x (hash_values s) (deferred_call s).
Definition set_hashes (s : Sha256Software) (x : list Z) : Sha256Software :=
  mkSha (sha_state s) (sha_client s) (input_data s) (data_buffer s) (buffered_length s) (total_length s) (output_data s) x (deferred_call s).
Definition set_deferred (s : Sha256Software) (x : bool) : Sha256Software :=
  mkSha (sha_state s) (sha_client s) (input_data s) (data_buffer s) (buffered_length s) (total_length s) (output_data s) (hash_values s) x.
Definition sha_set_client (s : Sha256Software) : Sha256Software :=
  mkSha (sha_state s) true (input_data s) (data_buffer s) (buffered_length s) (total_length s) (output_data s) (hash_values s) (deferred_call s).

Definition busy (s : Sha256Software) : bool := match sha_state s with ShaIdle => false | _ => true end.

(** [for i in lo..64 { b[i] = 0 }]. *)
Definition zero_from (lo : Z) (b : list Z) : outcome (list Z) :=
  for_range (Z.to_nat (64 - lo)) lo (λ i b, index_set b i 0) b.

Definition initialize (s : Sha256Software) : outcome Sha256Software :=
  let new_state := match sha_state s with
    | ShaIdle => ShaIdle
    | ShaData | ShaCancelData => ShaCancelData
    | ShaHash | ShaCancelHash => ShaCancelHash
    | ShaVerify | ShaCancelVerify => ShaCancelVerify
    end in
  b ← zero_from 0 (data_buffer s);
  Ret (set_hashes (set_block (set_lengths (set_sha_state s new_state) 0 0) b) initial_hashes).

Definition Sha256Software_new : outcome Sha256Software :=
  initialize (mkSha ShaIdle false None (replicate 64 0) 0 0 None (replicate 8 0) false).

(** A full block is hashed and cleared. *)
Definition flush_block (checks : bool) (s : Sha256Software) (b : list Z) : outcome (Sha256Software * list Z) :=
  h ← compute_block checks (hash_values s) b;
  b ← zero_from 0 b;
  Ret (set_hashes s h, b).

(** The length in bits at the end of the last block. *)
Definition put_length (length64 : Z) (b : list Z) : outcome (list Z) :=
  let len_high := wrap32 (Z.shiftr length64 32) in
  let len_low := Z.land length64 0xffffffff in
  b ← index_set b 56 (Z.land (Z.shiftr len_high 24) 255);
  b ← index_set b 57 (Z.land (Z.shiftr len_high 16) 255);
  b ← index_set b 58 (Z.land (Z.shiftr len_high 8) 255);
  b ← index_set b 59 (Z.land (Z.shiftr len_high 0) 255);
  b ← index_set b 60 (Z.land (Z.shiftr len_low 24) 255);
  b ← index_set b 61 (Z.land (Z.shiftr len_low 16) 255);
  b ← index_set b 62 (Z.land (Z.shiftr len_low 8) 255);
  index_set b 63 (Z.land (Z.shiftr len_low 0) 255).

Definition complete_sha256 (checks : bool) (s : Sha256Software) : outcome Sha256Software :=
  '(s, b, bl) ← (if buffered_length s =? 64 then
                   '(s, b) ← flush_block checks s (data_buffer s); Ret (s, b, buffered_length s - 64)
                 else Ret (s, data_buffer s, buffered_length s));
  b ← (if bl <? 64 then zero_from bl b else Ret b);
  (* b.get_mut(bl).map(|d| *d = 0x80) *)
  let b := <[Z.to_nat bl := 0x80]> b in
  let bl := bl + 1 in
  '(s, b) ← (if 56 <? bl then b ← zero_from bl b; flush_block checks s b else Ret (s, b));
  length64 ← plain_mul checks (total_length s) 8;
  b ← put_length length64 b;
  h ← compute_block checks (hash_values s) b;
  Ret (set_block (set_hashes s h) b).

(** [data[lo..hi]]. *)
Definition data_range (data : SubSliceMutImmut Z) (lo hi : Z) : outcome (list Z) :=
  w ← window data; index_range w (mkRange lo hi).

(** [data.slice(from..data.len())]. *)
Definition slice_from (data : SubSliceMutImmut Z) (from : Z) : outcome (SubSliceMutImmut Z) :=
  n ← SubSliceMutImmut_len data; SubSliceMutImmut_slice (Included from) (Excluded n) data.

(** [while data.len() >= 64 { compute_buffer(&data[0..64]); data.slice(64..data.len()) }]. *)
Fixpoint compute_blocks (fuel : nat) (checks : bool) (h : list Z) (data : SubSliceMutImmut Z)
  : outcome (list Z * SubSliceMutImmut Z) :=
  n ← SubSliceMutImmut_len data;
  if 64 <=? n then
    match fuel with
    | O => Panic
    | S fuel =>
        buffer ← data_range data 0 64;
        h ← compute_buffer checks h buffer;
        data ← slice_from data 64;
        compute_blocks fuel checks h data
    end
  else Ret (h, data).

(** [for i in 0..n { b[i + at] = data[i] }]. *)
Definition copy_data (n at_ : Z) (data : SubSliceMutImmut Z) (b : list Z) : outcome (list Z) :=
  for_range (Z.to_nat n) 0 (λ i b, x ← SubSliceMutImmut_index data i; index_set b (i + at_) x) b.

(** The block buffer, not empty, is filled from the data and hashed when full. *)
Definition fill_block (checks : bool) (s : Sha256Software) (data : SubSliceMutImmut Z) (data_length bl : Z)
  : outcome (Sha256Software * SubSliceMutImmut Z * Z) :=
  sum ← plain_add checks data_length bl;
  let copy_len := if SHA_BLOCK_LEN_BYTES <=? sum then SHA_BLOCK_LEN_BYTES - bl else data_length in
  b ← copy_data copy_len bl data (data_buffer s);
  data ← slice_from data copy_len;
  let bl := bl + copy_len in
  let s := set_block s b in
  if bl =? SHA_BLOCK_LEN_BYTES then
    h ← compute_block checks (hash_values s) b; Ret (set_hashes s h, data, 0)
  else Ret (s, data, bl).

(** The blocks of the data are hashed and the tail is kept in the block buffer. *)
Definition hash_rest (checks : bool) (s : Sha256Software) (data : SubSliceMutImmut Z) (data_length bl : Z)
  : outcome (Sha256Software * SubSliceMutImmut Z * Z) :=
  '(h, data) ← compute_blocks (Z.to_nat data_length) checks (hash_values s) data;
  let s := set_hashes s h in
  n ← SubSliceMutImmut_len data;
  if negb (n =? 0) then
    b ← copy_data n 0 data (data_buffer s);
    data ← slice_from data n;
    Ret (set_block s b, data, n)
  else Ret (s, data, bl).

Definition compute_sha256 (checks : bool) (s : Sha256Software) : outcome Sha256Software :=
  match input_data s with
  | None => Ret s
  | Some data =>
      let s := set_input s None in
      data_length ← SubSliceMutImmut_len data;
      total ← plain_add checks (total_length s) data_length;
      let s := set_lengths s (buffered_length s) total in
      let bl := buffered_length s in
      '(s, data, bl) ← (if negb (bl =? 0) then fill_block checks s data data_length bl else Ret (s, data, bl));
      '(s, data, bl) ← hash_rest checks s data data_length bl;
      Ret (set_lengths (set_input s (Some data)) bl (total_length s))
  end.

(** ** The digest interface *)

Inductive DigestEvent : Type :=
| AddDataDone (r : result unit ErrorCode) (data : SubSlice Z)
| AddMutDataDone (r : result unit ErrorCode) (data : SubSliceMut Z)
| HashDone (r : result unit ErrorCode) (digest : list Z)
| VerificationDone (r : result bool ErrorCode) (compare : list Z).

(** [add_data] and [add_mut_data], which differ in the kind of the buffer. *)
Definition sha_add (checks : bool) (s : Sha256Software) (data : SubSliceMutImmut Z)
  : outcome (Sha256Software * result unit (ErrorCode * SubSliceMutImmut Z)) :=
  if busy s then Ret (s, Err (BUSY, data))
  else
    let s := set_input (set_deferred (set_sha_state s ShaData) true) (Some data) in
    s ← compute_sha256 checks s;
    Ret (s, Ok tt).

Definition clear_data := initialize.

(** The four bytes of word [i] of the digest. *)
Definition store_word (h : list Z) (i : Z) (digest : list Z) : outcome (list Z) :=
  val ← index_get h i;
  d ← index_set digest (4 * i + 3) (Z.land (Z.shiftr val 0) 255);
  d ← index_set d (4 * i + 2) (Z.land (Z.shiftr val 8) 255);
  d ← index_set d (4 * i + 1) (Z.land (Z.shiftr val 16) 255);
  index_set d (4 * i + 0) (Z.land (Z.shiftr val 24) 255).

Definition sha_run (checks : bool) (s : Sha256Software) (digest : list Z)
  : outcome (Sha256Software * result unit (ErrorCode * list Z)) :=
  if busy s then Ret (s, Err (BUSY, digest))
  else
    s ← complete_sha256 checks (set_sha_state s ShaHash);
    digest ← for_range 8 0 (store_word (hash_values s)) digest;
    Ret (set_deferred (set_output s (Some digest)) true, Ok tt).

Definition sha_verify (checks : bool) (s : Sha256Software) (compare : list Z)
  : outcome (Sha256Software * result unit (ErrorCode * list Z)) :=
  if busy s then Ret (s, Err (BUSY, compare))
  else
    s ← complete_sha256 checks (set_sha_state s ShaVerify);
    Ret (set_deferred (set_output s (Some compare)) true, Ok tt).

(** The comparison loop, which stops at the first difference. *)
Fixpoint same_words (n : nat) (i : Z) (h output : list Z) : outcome bool :=
  match n with
  | O => Ret true
  | S n =>
      hashval ← index_get h i;
      o3 ← index_get output (4 * i + 3); o2 ← index_get output (4 * i + 2);
      o1 ← index_get output (4 * i + 1); o0 ← index_get output (4 * i + 0);
      if negb (o3 =? Z.land (Z.shiftr hashval 0) 255) || negb (o2 =? Z.land (Z.shiftr hashval 8) 255)
         || negb (o1 =? Z.land (Z.shiftr hashval 16) 255) || negb (o0 =? Z.land (Z.shiftr hashval 24) 255)
      then Ret false
      else same_words n (i + 1) h output
  end.

Definition unwrap {A} (o : option A) : outcome A := match o with Some a => Ret a | None => Panic end.

Definition tell (s : Sha256Software) (ev : DigestEvent) : list DigestEvent := if sha_client s then [ev] else [].

Definition data_done (r : result unit ErrorCode) (data : SubSliceMutImmut Z) : DigestEvent :=
  match data with Mutable b => AddMutDataDone r b | Immutable b => AddDataDone r b end.

(** [handle_deferred_call]; the kernel clears the pending bit before the call. *)
Definition handle_deferred_call (s : Sha256Software) : outcome (Sha256Software * list DigestEvent) :=
  let prior := sha_state s in
  let s := set_deferred (set_sha_state s ShaIdle) false in
  match prior with
  | ShaIdle => Ret (s, [])
  | ShaVerify =>
      output ← unwrap (output_data s);
      let s := set_output s None in
      pass ← same_words 8 0 (hash_values s) output;
      s ← clear_data s;
      Ret (s, tell s (VerificationDone (Ok pass) output))
  | ShaData =>
      data ← unwrap (input_data s);
      let s := set_input s None in
      Ret (s, tell s (data_done (Ok tt) data))
  | ShaHash =>
      output ← unwrap (output_data s);
      s ← clear_data (set_output s None);
      Ret (s, tell s (HashDone (Ok tt) output))
  | ShaCancelData =>
      s ← clear_data s;
      data ← unwrap (input_data s);
      let s := set_input s None in
      Ret (s, tell s (data_done (Err CANCEL) data))
  | ShaCancelVerify =>
      s ← clear_data s;
      output ← unwrap (output_data s);
      let s := set_output s None in
      Ret (s, tell s (VerificationDone (Err CANCEL) output))
  | ShaCancelHash =>
      s ← clear_data s;
      output ← unwrap (output_data s);
      let s := set_output s None in
      Ret (s, tell s (HashDone (Err CANCEL) output))
  end.

Definition sha_set_mode (s : Sha256Software) : result unit ErrorCode := Ok tt.
