(* ===== verification/Hasher.v ===== *)
(** * The digest interface (kernel/src/hil/digest.rs)

    What a hasher promises its clients, as an abstract machine that keeps the
    message itself: [add_data] and [add_mut_data] append to it, [run] and
    [verify] answer with its SHA-256 and start a new message, [clear_data]
    cancels; every accepted call is reported in one deferred callback, and until
    then every other call is answered [BUSY].  Class [Hasher] is the contract of
    an implementation with this machine; clients are verified against it.  The
    digests are those of the standards, which come first. *)

From S2P Require Import Prelude Bytes Syscall LeasableBuffer Sha256.

(** ** SHA-256 and HMAC as their standards define them

    The reference definitions against which the hash capsules are verified:
    SHA-256 after FIPS 180-4 and HMAC after FIPS 198-1.  The constants are not
    copied but computed from what the standard says they are: the first 32 bits
    of the fractional parts of the square and cube roots of the first primes. *)

(** *** Words and functions *)

Definition word (z : Z) : Z := z mod usize_bound.
Definition ROTR (n x : Z) : Z := Z.lor (Z.shiftr x n) (word (Z.shiftl x (32 - n))).
Definition SHR (n x : Z) : Z := Z.shiftr x n.
Definition Ch (x y z : Z) : Z := Z.lxor (Z.land x y) (Z.land (word (Z.lnot x)) z).
Definition Maj (x y z : Z) : Z := Z.lxor (Z.lxor (Z.land x y) (Z.land x z)) (Z.land y z).
Definition Sigma0 (x : Z) : Z := Z.lxor (Z.lxor (ROTR 2 x) (ROTR 13 x)) (ROTR 22 x).
Definition Sigma1 (x : Z) : Z := Z.lxor (Z.lxor (ROTR 6 x) (ROTR 11 x)) (ROTR 25 x).
Definition sigma0 (x : Z) : Z := Z.lxor (Z.lxor (ROTR 7 x) (ROTR 18 x)) (SHR 3 x).
Definition sigma1 (x : Z) : Z := Z.lxor (Z.lxor (ROTR 17 x) (ROTR 19 x)) (SHR 10 x).

(** *** Constants *)

(** The integer [k]-th root of [n], one bit after the other. *)
Fixpoint iroot (bits : nat) (k n acc : Z) : Z :=
  match bits with
  | O => acc
  | S bits => let acc' := acc + 2 ^ Z.of_nat bits in iroot bits k n (if acc' ^ k <=? n then acc' else acc)
  end.

Definition is_prime (p : Z) : bool :=
  forallb (λ d : nat, negb (p mod Z.of_nat d =? 0)) (seq 2 (Z.to_nat p - 2)).
Definition first_primes (below : nat) : list Z := List.filter is_prime (Z.of_nat <$> seq 2 (below - 2)).

(** The first 32 bits of the fractional part of the [k]-th root of [p]. *)
Definition root_fraction (k p : Z) : Z := word (iroot 48 k (p * 2 ^ (32 * k)) 0).

Definition K256 : list Z := Eval vm_compute in root_fraction 3 <$> first_primes 312.
Definition H256 : list Z := Eval vm_compute in root_fraction 2 <$> first_primes 20.

(** The roots are what they should be, for the 64 and the 8 primes taken. *)
Example roots_of_primes :
  length (first_primes 312) = 64%nat ∧ length (first_primes 20) = 8%nat ∧
  Forall (λ p, iroot 48 3 (p * 2 ^ 96) 0 ^ 3 ≤ p * 2 ^ 96 < (iroot 48 3 (p * 2 ^ 96) 0 + 1) ^ 3) (first_primes 312) ∧
  Forall (λ p, iroot 48 2 (p * 2 ^ 64) 0 ^ 2 ≤ p * 2 ^ 64 < (iroot 48 2 (p * 2 ^ 64) 0 + 1) ^ 2) (first_primes 20).
Proof.
  split; [vm_compute; reflexivity|]. split; [vm_compute; reflexivity|].
  split; apply Forall_forall; apply (proj1 (Forall_forall _ _)); apply (bool_decide_unpack _); vm_compute; exact I.
Qed.

(** *** The compression function *)

(** Big-endian words. *)
Definition be_word (bs : list Z) : Z := foldl (λ acc x, 256 * acc + x) 0 bs.
Definition be_bytes (n : nat) (z : Z) : list Z := rev (le_bytes n z).

Definition block_words (b : list Z) : list Z := (λ i : nat, be_word (take 4 (drop (4 * i) b))) <$> seq 0 16.

(** [W_0], ..., [W_(15 + n)] of a block. *)
Definition nth_word (w : list Z) (i : nat) : Z := default 0 (w !! i).
Fixpoint word_schedule (n : nat) (b : list Z) : list Z :=
  match n with
  | O => block_words b
  | S n =>
      let w := word_schedule n b in
      w ++ [word (sigma1 (nth_word w (n + 14)) + nth_word w (n + 9) + sigma0 (nth_word w (n + 1)) + nth_word w n)]
  end.

Definition sha_round (v : list Z) (kw : Z * Z) : list Z :=
  match v with
  | [a; b; c; d; e; f; g; h] =>
      let T1 := word (h + Sigma1 e + Ch e f g + kw.1 + kw.2) in
      let T2 := word (Sigma0 a + Maj a b c) in
      [word (T1 + T2); a; b; c; word (d + T1); e; f; g]
  | _ => v
  end.

Definition compress (H b : list Z) : list Z :=
  zip_with (λ x y, word (x + y)) H (foldl sha_round H (zip K256 (word_schedule 48 b))).

(** *** Messages *)

Definition message_blocks (m : list Z) : list (list Z) := (λ i : nat, take 64 (drop (64 * i) m)) <$> seq 0 (length m / 64).

(** [hash_blocks m] is the state after the whole blocks of [m]. *)
Definition hash_blocks (m : list Z) : list Z := foldl compress H256 (message_blocks m).

(** The message, a one bit, the least number of zeros, and the length in bits. *)
Definition pad (m : list Z) : list Z :=
  m ++ [0x80] ++ replicate (Z.to_nat ((55 - zlen m) mod 64)) 0 ++ be_bytes 8 (8 * zlen m).

Definition digest_bytes (H : list Z) : list Z := H ≫= be_bytes 4.

Definition SHA256 (m : list Z) : list Z := digest_bytes (hash_blocks (pad m)).

(** HMAC with a key of at most one block. *)
Definition key_block (key : list Z) : list Z := key ++ replicate (64 - length key) 0.
Definition HMAC_SHA256 (key m : list Z) : list Z :=
  let k := key_block key in
  SHA256 ((Z.lxor 0x5c <$> k) ++ SHA256 ((Z.lxor 0x36 <$> k) ++ m)).

(** The test vectors of the standards. *)
Example sha256_abc : be_word (SHA256 [97; 98; 99]) = 0xba7816bf8f01cfea414140de5dae2223b00361a396177a9cb410ff61f20015ad.
Proof. vm_compute. reflexivity. Qed.
Example hmac_test_case_1 : (* RFC 4231, test case 1: twenty bytes 0x0b, "Hi There" *)
  be_word (HMAC_SHA256 (replicate 20 0x0b) [72; 105; 32; 84; 104; 101; 114; 101]) =
  0xb0344c61d8db38535ca8afceaf0bf12b881dc200c9833da726e9376c2e32cff7.
Proof. vm_compute. reflexivity. Qed.

(** ** Buffers of the client *)

(** The window without its first [k] bytes. *)
Definition advance (data : SubSliceMutImmut Z) (k : Z) : SubSliceMutImmut Z :=
  match data with
  | Immutable b => Immutable (mkSubSlice (internal b) (mkRange (range_start (active_range b) + k) (range_end (active_range b))))
  | Mutable b => Mutable (mkSubSliceMut (internal_mut b) (mkRange (range_start (active_range_mut b) + k) (range_end (active_range_mut b))))
  end.

(** The buffer [data] gives access to the bytes [w]. *)
Definition shows (data : SubSliceMutImmut Z) (w : list Z) : Prop := range_wf data ∧ window data = Ret w.

(** The bytes of a window, as a total function. *)
Definition bytes_of (data : SubSliceMutImmut Z) : list Z := match window data with Ret w => w | Panic => [] end.

(** ** The abstract hasher *)

(** Idle with the message so far, or with a callback due. *)
Inductive HasherState : Type :=
| HIdle (m : list Z)
| HData (m : list Z) (data : SubSliceMutImmut Z)
| HHash (digest : list Z)
| HVerify (m : list Z) (compare : list Z)
| HCancelData (data : SubSliceMutImmut Z)
| HCancelHash (digest : list Z)
| HCancelVerify (compare : list Z).

Inductive HashOp : Type :=
| OpAdd (data : SubSliceMutImmut Z)
| OpClear
| OpRun (digest : list Z)
| OpVerify (compare : list Z)
| OpDeferred.

(** The answer of a call: [ErrorCode] comes with the buffer. *)
Inductive HashAnswer : Type :=
| Accepted
| RefusedData (e : ErrorCode) (data : SubSliceMutImmut Z)
| RefusedDigest (e : ErrorCode) (digest : list Z).

Definition hasher_step (a : HasherState) (op : HashOp) : HasherState * HashAnswer * list DigestEvent :=
  match op with
  | OpAdd data =>
      match a with
      | HIdle m => (HData (m ++ bytes_of data) (advance data (zlen (bytes_of data))), Accepted, [])
      | _ => (a, RefusedData BUSY data, [])
      end
  | OpClear =>
      let a := match a with
        | HIdle _ => HIdle []
        | HData _ data | HCancelData data => HCancelData data
        | HHash d | HCancelHash d => HCancelHash d
        | HVerify _ c | HCancelVerify c => HCancelVerify c
        end in
      (a, Accepted, [])
  | OpRun digest =>
      match a with HIdle m => (HHash (SHA256 m), Accepted, []) | _ => (a, RefusedDigest BUSY digest, []) end
  | OpVerify compare =>
      match a with HIdle m => (HVerify m compare, Accepted, []) | _ => (a, RefusedDigest BUSY compare, []) end
  | OpDeferred =>
      match a with
      | HIdle m => (a, Accepted, [])
      | HData m data => (HIdle m, Accepted, [data_done (Ok tt) data])
      | HHash d => (HIdle [], Accepted, [HashDone (Ok tt) d])
      | HVerify m c => (HIdle [], Accepted, [VerificationDone (Ok (bool_decide (c = SHA256 m))) c])
      | HCancelData data => (HIdle [], Accepted, [data_done (Err CANCEL) data])
      | HCancelHash d => (HIdle [], Accepted, [HashDone (Err CANCEL) d])
      | HCancelVerify c => (HIdle [], Accepted, [VerificationDone (Err CANCEL) c])
      end
  end.

(** The calls that the types and the width of [usize] allow: buffers of bytes
    with a range inside, digests of 32 bytes, messages below 512 MiB. *)
Definition op_ok (a : HasherState) (op : HashOp) : Prop :=
  match op with
  | OpAdd data => range_wf data ∧ Forall byte (bytes_of data) ∧
      match a with HIdle m => 8 * zlen (m ++ bytes_of data) < usize_bound | _ => True end
  | OpRun d | OpVerify d => length d = 32%nat
  | _ => True
  end.

(** A sequence of calls, with the answer and the callbacks of each. *)
Fixpoint hasher_run (a : HasherState) (ops : list HashOp) : HasherState * list (HashAnswer * list DigestEvent) :=
  match ops with
  | [] => (a, [])
  | op :: ops => let '(a, r, evs) := hasher_step a op in let '(a, out) := hasher_run a ops in (a, (r, evs) :: out)
  end.

Fixpoint ops_ok (a : HasherState) (ops : list HashOp) : Prop :=
  match ops with [] => True | op :: ops => op_ok a op ∧ ops_ok (hasher_step a op).1.1 ops end.

(** ** Implementations *)

Class Hasher (S : Type) := {
  h_op : S → HashOp → outcome (S * HashAnswer * list DigestEvent);
  h_abs : S → HasherState → Prop;
  h_sim : ∀ s a op, h_abs s a → op_ok a op →
    ∃ s', h_op s op = Ret (s', (hasher_step a op).1.2, (hasher_step a op).2) ∧ h_abs s' (hasher_step a op).1.1;
  (* [set_mode_sha256] *)
  h_set_mode : S → S * result unit ErrorCode;
  h_set_mode_ok : ∀ s a, h_abs s a → (h_set_mode s).2 = Ok tt ∧ h_abs (h_set_mode s).1 a
}.

(** The calls of the trait, by the type of their result. *)
Definition h_add {S} `{Hasher S} (s : S) (data : SubSliceMutImmut Z) : outcome (S * result unit (ErrorCode * SubSliceMutImmut Z)) :=
  '(s, r, _) ← h_op s (OpAdd data);
  match r with Accepted => Ret (s, Ok tt) | RefusedData e d => Ret (s, Err (e, d)) | RefusedDigest _ _ => Panic end.
Definition h_hash {S} `{Hasher S} (s : S) (digest : list Z) : outcome (S * result unit (ErrorCode * list Z)) :=
  '(s, r, _) ← h_op s (OpRun digest);
  match r with Accepted => Ret (s, Ok tt) | RefusedDigest e d => Ret (s, Err (e, d)) | RefusedData _ _ => Panic end.
Definition h_verify {S} `{Hasher S} (s : S) (compare : list Z) : outcome (S * result unit (ErrorCode * list Z)) :=
  '(s, r, _) ← h_op s (OpVerify compare);
  match r with Accepted => Ret (s, Ok tt) | RefusedDigest e d => Ret (s, Err (e, d)) | RefusedData _ _ => Panic end.
Definition h_clear {S} `{Hasher S} (s : S) : outcome S := '(s, _, _) ← h_op s OpClear; Ret s.

Fixpoint h_run {S} `{Hasher S} (s : S) (ops : list HashOp) : outcome (S * list (HashAnswer * list DigestEvent)) :=
  match ops with
  | [] => Ret (s, [])
  | op :: ops => '(s, r, evs) ← h_op s op; '(s, out) ← h_run s ops; Ret (s, (r, evs) :: out)
  end.

Lemma h_run_sim {S} `{Hasher S} ops s a : h_abs s a → ops_ok a ops →
  ∃ s', h_run s ops = Ret (s', (hasher_run a ops).2) ∧ h_abs s' (hasher_run a ops).1.
Proof.
  revert s a. induction ops as [|op ops IH]; intros s a Hs Hok; [by exists s|]. destruct Hok as [Hop Hok].
  destruct (h_sim s a op Hs Hop) as (s1 & E1 & Hs1). cbn [h_run hasher_run]. rewrite (bind_ret_eq _ _ _ E1).
  destruct (hasher_step a op) as [[a1 r1] ev1]. cbn [fst snd] in *. destruct (IH s1 a1 Hs1 Hok) as (s2 & E2 & Hs2).
  destruct (hasher_run a1 ops) as [a2 out]. cbn [fst snd] in *. rewrite (bind_ret_eq _ _ _ E2). by exists s2.
Qed.

(** What the calls do on a hasher that is idle with the message [m]. *)
Section idle_calls.
Context {S : Type} `{Hasher S}.

Lemma h_add_idle s m data : h_abs s (HIdle m) → range_wf data → Forall byte (bytes_of data) → 8 * zlen (m ++ bytes_of data) < usize_bound →
  ∃ s', h_add s data = Ret (s', Ok tt) ∧ h_abs s' (HData (m ++ bytes_of data) (advance data (zlen (bytes_of data)))).
Proof.
  intros Hs Hwf Hb Hl. destruct (h_sim s (HIdle m) (OpAdd data) Hs) as (s' & E & Hs'); [done|]. exists s'. unfold h_add. by rewrite E.
Qed.

Lemma h_add_busy s a data : h_abs s a → (∀ m, a ≠ HIdle m) → range_wf data → Forall byte (bytes_of data) →
  ∃ s', h_add s data = Ret (s', Err (BUSY, data)) ∧ h_abs s' a.
Proof.
  intros Hs Ha Hwf Hb. destruct (h_sim s a (OpAdd data) Hs) as (s' & E & Hs').
  { split_and!; [done|done|]. destruct a; [by destruct (Ha m)|done..]. }
  exists s'. unfold h_add. rewrite E. destruct a; [by destruct (Ha m)|done..].
Qed.

Lemma h_hash_idle s m d : h_abs s (HIdle m) → length d = 32%nat → ∃ s', h_hash s d = Ret (s', Ok tt) ∧ h_abs s' (HHash (SHA256 m)).
Proof. intros Hs Hd. destruct (h_sim s (HIdle m) (OpRun d) Hs Hd) as (s' & E & Hs'). exists s'. unfold h_hash. by rewrite E. Qed.

Lemma h_hash_busy s a d : h_abs s a → (∀ m, a ≠ HIdle m) → length d = 32%nat → ∃ s', h_hash s d = Ret (s', Err (BUSY, d)) ∧ h_abs s' a.
Proof.
  intros Hs Ha Hd. destruct (h_sim s a (OpRun d) Hs Hd) as (s' & E & Hs'). exists s'. unfold h_hash. rewrite E.
  destruct a; [by destruct (Ha m)|done..].
Qed.

Lemma h_verify_idle s m c : h_abs s (HIdle m) → length c = 32%nat → ∃ s', h_verify s c = Ret (s', Ok tt) ∧ h_abs s' (HVerify m c).
Proof. intros Hs Hd. destruct (h_sim s (HIdle m) (OpVerify c) Hs Hd) as (s' & E & Hs'). exists s'. unfold h_verify. by rewrite E. Qed.

Lemma h_clear_ok s a : h_abs s a → ∃ s', h_clear s = Ret s' ∧ h_abs s' (hasher_step a OpClear).1.1.
Proof. intros Hs. destruct (h_sim s a OpClear Hs I) as (s' & E & Hs'). exists s'. unfold h_clear. by rewrite E. Qed.

Lemma h_deferred_ok s a : h_abs s a →
  ∃ s', h_op s OpDeferred = Ret (s', Accepted, (hasher_step a OpDeferred).2) ∧ h_abs s' (hasher_step a OpDeferred).1.1.
Proof. intros Hs. destruct (h_sim s a OpDeferred Hs I) as (s' & E & Hs'). exists s'. rewrite E. by destruct a. Qed.

End idle_calls.
