(* ===== verification/Sha256Theorems.v ===== *)
(** * The software hasher computes SHA-256

    Against FIPS 180-4 (Hasher.v): the compression function on the arrays of
    the code is that of the standard, the code that fills, pads and cuts blocks
    is the standard's padding for any way of handing over the message, and the
    whole state machine with its callbacks, busy answers and cancellations
    implements an abstract hasher that only keeps the message.  These hold in
    the release profile; in the dev profile no digest is ever produced. *)

From S2P Require Import Prelude Bytes Syscall LeasableBuffer Sha256 Hasher.

(** ** Loops *)

(** The invariant rule of [for]. *)
Lemma for_range_spec {A} (P : nat → A → Prop) n from (body : Z → A → outcome A) a :
  P O a → (∀ i a, (i < n)%nat → P i a → ∃ a', body (from + Z.of_nat i) a = Ret a' ∧ P (S i) a') →
  ∃ a', for_range n from body a = Ret a' ∧ P n a'.
Proof.
  revert P from a. induction n as [|n IH]; intros P from a H0 Hs; [by eexists|].
  destruct (Hs O a ltac:(lia) H0) as (a1 & E1 & H1). rewrite Z.add_0_r in E1. cbn [for_range]. rewrite E1. cbn [mbind outcome_bind].
  apply (IH (λ i, P (S i))); [done|]. intros i x Hi Hx.
  replace (from + 1 + Z.of_nat i) with (from + Z.of_nat (S i)) by lia. apply Hs; [lia|done].
Qed.

(** The same for a loop whose state at each step is a function of the index. *)
Lemma for_range_fun {A} (f : nat → A) n from (body : Z → A → outcome A) :
  (∀ i, (i < n)%nat → body (from + Z.of_nat i) (f i) = Ret (f (S i))) → for_range n from body (f O) = Ret (f n).
Proof.
  intros Hs. destruct (for_range_spec (λ i a, a = f i) n from body (f O)) as (a' & E & ->); [done| |done].
  intros i a Hi ->. eauto.
Qed.

Lemma index_get_nth (w : list Z) i : (i < length w)%nat → index_get w (Z.of_nat i) = Ret (nth_word w i).
Proof.
  intros Hi. unfold index_get, nth_word. rewrite (proj2 (Z.ltb_ge _ _)) by lia. rewrite Nat2Z.id.
  destruct (lookup_lt_is_Some_2 w i Hi) as [x ->]. done.
Qed.

Lemma nth_word_app_l w r i : (i < length w)%nat → nth_word (w ++ r) i = nth_word w i.
Proof. intros Hi. unfold nth_word. by rewrite lookup_app_l. Qed.

Lemma index_get_at (w r : list Z) i z : z = Z.of_nat i → (i < length w)%nat → index_get (w ++ r) z = Ret (nth_word w i).
Proof. intros -> Hi. rewrite index_get_nth by (rewrite length_app; lia). by rewrite nth_word_app_l. Qed.

Lemma index_set_next (w r : list Z) old x z : z = zlen w → index_set (w ++ old :: r) z x = Ret (w ++ x :: r).
Proof.
  intros ->. rewrite index_set_Ret by (unfold zlen; rewrite length_app; cbn; lia).
  unfold zlen. rewrite Nat2Z.id, insert_app_r_alt, Nat.sub_diag by lia. done.
Qed.

(** ** The compression function *)

Lemma wrapping_word a b : wrapping_add a b = word (a + b).
Proof. done. Qed.

Lemma word_idem_l a b : word (word a + b) = word (a + b).
Proof. unfold word. by rewrite Zplus_mod_idemp_l. Qed.

(** The sums of four and of five words, reduced after each addition. *)
Lemma word_sum4 a b c d : wrapping_add (wrapping_add (wrapping_add a b) c) d = word (a + b + c + d).
Proof. rewrite !wrapping_word, (word_idem_l (word (a + b) + c)), <- (Z.add_assoc (word (a + b))), word_idem_l. f_equal. lia. Qed.
Lemma word_sum5 a b c d e : wrapping_add (wrapping_add (wrapping_add (wrapping_add a b) c) d) e = word (a + b + c + d + e).
Proof. by rewrite (word_sum4 a b c d), wrapping_word, word_idem_l. Qed.

Lemma length_block_words b : length (block_words b) = 16%nat.
Proof. unfold block_words. by rewrite length_fmap, length_seq. Qed.

Lemma length_word_schedule n b : length (word_schedule n b) = (16 + n)%nat.
Proof. induction n as [|n IH]; [apply length_block_words|]. cbn [word_schedule]. rewrite length_app, IH. cbn. lia. Qed.

Lemma schedule_word_ok k b : (k < 48)%nat →
  schedule_word false (16 + Z.of_nat k) (word_schedule k b ++ replicate (48 - k) 0) = Ret (word_schedule (S k) b ++ replicate (48 - S k) 0).
Proof.
  intros Hk. pose proof (length_word_schedule k b) as Hl. unfold schedule_word, plain_add.
  rewrite (index_get_at _ _ (k + 1) (16 + Z.of_nat k - 15)) by lia. cbn [mbind outcome_bind].
  rewrite (index_get_at _ _ (k + 14) (16 + Z.of_nat k - 2)) by lia. cbn [mbind outcome_bind].
  rewrite (index_get_at _ _ k (16 + Z.of_nat k - 16)) by lia. cbn [mbind outcome_bind].
  rewrite (index_get_at _ _ (k + 9) (16 + Z.of_nat k - 7)) by lia. cbn [mbind outcome_bind].
  replace (48 - k)%nat with (S (48 - S k)) by lia. cbn [replicate].
  rewrite index_set_next by (unfold zlen; lia). f_equal. cbn [word_schedule]. rewrite <- app_assoc. cbn [app]. do 2 f_equal.
  rewrite word_sum4. unfold sigma0, sigma1, ROTR, SHR, right_rotate, word, wrap32. f_equal. lia.
Qed.

Lemma message_schedule_ok b : for_range 48 16 (schedule_word false) (block_words b ++ replicate 48 0) = Ret (word_schedule 48 b).
Proof.
  pose proof (for_range_fun (λ k, word_schedule k b ++ replicate (48 - k) 0) 48 16 (schedule_word false)) as E.
  cbn beta in E. rewrite Nat.sub_0_r, Nat.sub_diag, app_nil_r in E. apply E. intros. by apply schedule_word_ok.
Qed.

Lemma length_sha_round v kw : length (sha_round v kw) = length v.
Proof. by destruct v as [|? [|? [|? [|? [|? [|? [|? [|? [|? ?]]]]]]]]]. Qed.

Lemma length_rounds l v : length (foldl sha_round v l) = length v.
Proof. revert v. induction l as [|kw l IH]; intros v; [done|]. cbn [foldl]. by rewrite IH, length_sha_round. Qed.

Lemma round_constants_standard : ROUND_CONSTANTS = K256 ∧ initial_hashes = H256.
Proof. split; vm_compute; reflexivity. Qed.

Lemma compress_round_ok w i v k x : length v = 8%nat → K256 !! i = Some k → w !! i = Some x →
  compress_round false w (Z.of_nat i) v = Ret (sha_round v (k, x)).
Proof.
  intros Hv Hk Hx. destruct v as [|a [|b [|c [|d [|e [|f [|g [|h [|? ?]]]]]]]]]; try discriminate.
  assert (Ek : index_get ROUND_CONSTANTS (Z.of_nat i) = Ret k).
  { unfold index_get. rewrite (proj2 (Z.ltb_ge _ _)), Nat2Z.id by lia. rewrite (proj1 round_constants_standard). by rewrite Hk. }
  assert (Ex : index_get w (Z.of_nat i) = Ret x).
  { unfold index_get. rewrite (proj2 (Z.ltb_ge _ _)), Nat2Z.id by lia. by rewrite Hx. }
  unfold compress_round, plain_add, move_hash. rewrite Ek, Ex. cbv -[wrapping_add Z.add Z.land Z.lxor Z.lnot wrap32 right_rotate word Sigma0 Sigma1 Ch Maj].
  by rewrite !(word_sum5 h), !wrapping_word.
Qed.

Lemma compression_ok w v : length v = 8%nat → length w = 64%nat →
  for_range 64 0 (compress_round false w) v = Ret (foldl sha_round v (zip K256 w)).
Proof.
  intros Hv Hw. assert (Hz : length (zip K256 w) = 64%nat) by (rewrite length_zip_with, Hw; done).
  pose proof (for_range_fun (λ i, foldl sha_round v (take i (zip K256 w))) 64 0 (compress_round false w)) as E.
  cbn beta in E. rewrite (take_ge _ 64) in E by lia. apply E. intros i Hi. rewrite Z.add_0_l.
  destruct (lookup_lt_is_Some_2 w i ltac:(lia)) as [x Hx]. destruct (lookup_lt_is_Some_2 K256 i ltac:(done)) as [k Hk].
  rewrite (compress_round_ok w i _ k x); [|by rewrite length_rounds|done|done].
  erewrite (take_S_r (zip K256 w)); [by rewrite foldl_snoc|]. apply lookup_zip_with_Some. eauto.
Qed.

Lemma add_hashes_ok h v : length v = 8%nat → length h = 8%nat →
  for_range 8 0 (add_hash h) v = Ret (zip_with (λ x y, word (x + y)) v h).
Proof.
  intros Hv Hh. set (r := zip_with _ v h).
  assert (Hr : length r = 8%nat) by (unfold r; rewrite length_zip_with; lia).
  pose proof (for_range_fun (λ i, take i r ++ drop i v) 8 0 (add_hash h)) as E.
  cbn beta in E. rewrite (take_ge _ 8), (drop_ge _ 8), app_nil_r in E by lia. apply E. intros i Hi. rewrite Z.add_0_l.
  destruct (lookup_lt_is_Some_2 v i ltac:(lia)) as [x Hx]. destruct (lookup_lt_is_Some_2 h i ltac:(lia)) as [y Hy].
  rewrite (drop_S v x i Hx). unfold add_hash.
  assert (Ei : index_get (take i r ++ x :: drop (S i) v) (Z.of_nat i) = Ret x).
  { unfold index_get. rewrite (proj2 (Z.ltb_ge _ _)), Nat2Z.id by lia. by rewrite list_lookup_middle by (rewrite length_take; lia). }
  assert (Eh : index_get h (Z.of_nat i) = Ret y).
  { unfold index_get. rewrite (proj2 (Z.ltb_ge _ _)), Nat2Z.id by lia. by rewrite Hy. }
  rewrite Ei. cbn [mbind outcome_bind]. rewrite Eh. cbn [mbind outcome_bind].
  rewrite index_set_next by (unfold zlen; rewrite length_take; lia).
  erewrite (take_S_r r i); [by rewrite <- app_assoc|]. unfold r. apply lookup_zip_with_Some. eauto.
Qed.

(** A word of a block, by the bytes of the array. *)
Lemma be_word_lor b0 b1 b2 b3 : byte b0 → byte b1 → byte b2 → byte b3 →
  Z.lor (Z.lor (Z.lor (Z.shiftl b0 24) (Z.shiftl b1 16)) (Z.shiftl b2 8)) b3 = be_word [b0; b1; b2; b3].
Proof.
  intros H0 H1 H2 H3. unfold byte in *. cbn [be_word foldl].
  replace (Z.shiftl b0 24) with (Z.shiftl (Z.shiftl b0 8) 16) by (rewrite Z.shiftl_shiftl by lia; done).
  rewrite <- Z.shiftl_lor, (lor_shiftl_add 8 b0 b1) by lia.
  replace (Z.shiftl (b0 * 2 ^ 8 + b1) 16) with (Z.shiftl (Z.shiftl (b0 * 2 ^ 8 + b1) 8) 8) by (rewrite Z.shiftl_shiftl by lia; done).
  rewrite <- Z.shiftl_lor, (lor_shiftl_add 8 (b0 * 2 ^ 8 + b1) b2) by lia. rewrite (lor_shiftl_add 8 _ b3) by lia. lia.
Qed.

Lemma load_words_ok b : length b = 64%nat → Forall byte b →
  for_range 16 0 (load_word b) (replicate 64 0) = Ret (block_words b ++ replicate 48 0).
Proof.
  intros Hb Hf. pose proof (length_block_words b) as Hl.
  pose proof (for_range_fun (λ i, take i (block_words b) ++ replicate (64 - i) 0) 16 0 (load_word b)) as E.
  cbn beta in E. rewrite (take_ge _ 16) in E by lia. apply E. intros i Hi. rewrite Z.add_0_l.
  assert (Hg : ∀ (j : nat) (z : Z), z = Z.of_nat j → (j < 4)%nat → ∃ x, b !! (4 * i + j)%nat = Some x ∧ byte x ∧ index_get b (Z.of_nat i * 4 + z) = Ret x).
  { intros j z -> Hj. destruct (lookup_lt_is_Some_2 b (4 * i + j) ltac:(lia)) as [x Hx]. exists x. split; [done|].
    split; [by apply (Forall_lookup_1 _ _ _ _ Hf Hx)|]. unfold index_get. rewrite (proj2 (Z.ltb_ge _ _)) by lia.
    replace (Z.to_nat (Z.of_nat i * 4 + Z.of_nat j)) with (4 * i + j)%nat by lia. by rewrite Hx. }
  destruct (Hg 0%nat 0 eq_refl ltac:(lia)) as (b0 & L0 & B0 & E0), (Hg 1%nat 1 eq_refl ltac:(lia)) as (b1 & L1 & B1 & E1),
    (Hg 2%nat 2 eq_refl ltac:(lia)) as (b2 & L2 & B2 & E2), (Hg 3%nat 3 eq_refl ltac:(lia)) as (b3 & L3 & B3 & E3).
  unfold load_word. rewrite E0. cbn [mbind outcome_bind]. rewrite E1. cbn [mbind outcome_bind].
  rewrite E2. cbn [mbind outcome_bind]. rewrite E3. cbn [mbind outcome_bind].
  replace (64 - i)%nat with (S (64 - S i)) by lia. cbn [replicate].
  rewrite index_set_next by (unfold zlen; rewrite length_take; lia).
  rewrite be_word_lor by done. erewrite (take_S_r (block_words b) i); [by rewrite <- app_assoc|].
  unfold block_words. rewrite list_lookup_fmap, lookup_seq_lt by lia. cbn [fmap option_fmap option_map Nat.add].
  rewrite (drop_S b b0) by (rewrite <- L0; f_equal; lia). rewrite (drop_S b b1) by (rewrite <- L1; f_equal; lia).
  rewrite (drop_S b b2) by (rewrite <- L2; f_equal; lia). rewrite (drop_S b b3) by (rewrite <- L3; f_equal; lia). done.
Qed.

Lemma length_compress H b : length H = 8%nat → length (compress H b) = 8%nat.
Proof. intros HH. unfold compress. rewrite length_zip_with, length_rounds. lia. Qed.

(** In the release profile a block is compressed as the standard says. *)
Lemma compute_buffer_ok H b : length H = 8%nat → length b = 64%nat → Forall byte b →
  compute_buffer false H b = Ret (compress H b).
Proof.
  intros HH Hb Hf. unfold compute_buffer, perform_sha.
  apply outcome_bind_Ret. eexists. split; [by apply load_words_ok|].
  apply outcome_bind_Ret. eexists. split; [apply message_schedule_ok|].
  apply outcome_bind_Ret. eexists. split; [apply compression_ok; [exact HH|apply length_word_schedule]|].
  rewrite add_hashes_ok; [reflexivity|exact HH|]. rewrite length_rounds. exact HH.
Qed.

(** ** Blocks of a message *)

Lemma blocks_app m m' : (length m mod 64 = 0)%nat → message_blocks (m ++ m') = message_blocks m ++ message_blocks m'.
Proof.
  intros Hm. unfold message_blocks. pose proof (Nat.div_mod_eq (length m) 64) as D. rewrite length_app.
  replace ((length m + length m') / 64)%nat with (length m / 64 + length m' / 64)%nat
    by (rewrite D, Hm, Nat.add_0_r, (Nat.mul_comm 64), Nat.div_add_l, Nat.div_mul by lia; lia).
  rewrite seq_app, fmap_app, Nat.add_0_l. f_equal.
  - apply list_fmap_ext. intros k i Hi. apply lookup_seq in Hi as [-> Hi].
    rewrite drop_app_le by lia. rewrite take_app_le by (rewrite length_drop; lia). done.
  - rewrite <- (Nat.add_0_r (length m / 64)) at 1. rewrite <- (fmap_add_seq (length m / 64)), <- list_fmap_compose. apply list_fmap_ext.
    intros k i Hi. unfold compose. rewrite drop_app_ge by lia. do 2 f_equal. lia.
Qed.

Lemma blocks_one b : length b = 64%nat → message_blocks b = [b].
Proof. intros Hb. unfold message_blocks. rewrite Hb. change (64 / 64)%nat with 1%nat. cbn [seq fmap list_fmap]. by rewrite Nat.mul_0_r, drop_0, take_ge by lia. Qed.

Lemma blocks_short m : (length m < 64)%nat → message_blocks m = [].
Proof. intros Hm. unfold message_blocks. by rewrite Nat.div_small. Qed.

Lemma hash_blocks_app m b : (length m mod 64 = 0)%nat → length b = 64%nat → hash_blocks (m ++ b) = compress (hash_blocks m) b.
Proof. intros Hm Hb. unfold hash_blocks. by rewrite blocks_app, (blocks_one b), foldl_app by done. Qed.

Lemma hash_blocks_rest m r : (length m mod 64 = 0)%nat → (length r < 64)%nat → hash_blocks (m ++ r) = hash_blocks m.
Proof. intros Hm Hr. unfold hash_blocks. by rewrite blocks_app, (blocks_short r), app_nil_r by done. Qed.

Lemma length_hash_blocks m : length (hash_blocks m) = 8%nat.
Proof.
  unfold hash_blocks. assert (HH : length H256 = 8%nat) by done. revert HH. generalize H256.
  induction (message_blocks m) as [|b l IH]; intros v Hv; [done|]. cbn [foldl]. by apply IH, length_compress.
Qed.

#[local] Opaque compress hash_blocks compute_buffer.

(** ** Padding *)

Lemma index_set_mid (p l : list Z) (i : nat) x z : z = zlen p + Z.of_nat i → (i < length l)%nat →
  index_set (p ++ l) z x = Ret (p ++ <[i := x]> l).
Proof.
  intros -> Hi. rewrite index_set_Ret by (unfold zlen; rewrite length_app; lia).
  unfold zlen. rewrite insert_app_r_alt by lia. do 3 f_equal. lia.
Qed.

Lemma zero_from_ok lo b : length b = 64%nat → 0 ≤ lo ≤ 64 →
  zero_from lo b = Ret (take (Z.to_nat lo) b ++ replicate (Z.to_nat (64 - lo)) 0).
Proof.
  intros Hb Hlo. unfold zero_from. set (n := Z.to_nat (64 - lo)).
  pose proof (for_range_fun (λ i, take (Z.to_nat lo) b ++ replicate i 0 ++ drop (Z.to_nat lo + i) b) n lo (λ i b, index_set b i 0)) as E.
  cbn beta in E. simpl (replicate 0 0) in E. rewrite app_nil_l, Nat.add_0_r, take_drop, (drop_ge b), app_nil_r in E by lia. apply E. intros i Hi.
  destruct (lookup_lt_is_Some_2 b (Z.to_nat lo + i) ltac:(lia)) as [x Hx]. rewrite (drop_S b x _ Hx), !app_assoc.
  rewrite index_set_next by (unfold zlen; rewrite length_app, length_take, length_replicate; lia).
  rewrite replicate_S_end, <- !app_assoc, Nat.add_succ_r. done.
Qed.

Lemma byte_of_word v k : Z.land (Z.shiftr v k) 255 = Z.shiftr v k mod 256.
Proof. change 255 with (Z.ones 8). by rewrite Z.land_ones. Qed.

Lemma be_bytes_4 v : be_bytes 4 v = [Z.land (Z.shiftr v 24) 255; Z.land (Z.shiftr v 16) 255; Z.land (Z.shiftr v 8) 255; Z.land (Z.shiftr v 0) 255].
Proof.
  rewrite !byte_of_word, !Z.shiftr_div_pow2 by lia. unfold be_bytes. cbn [le_bytes rev app].
  rewrite !Z.div_div by lia. change (2 ^ 0) with 1. rewrite Z.div_1_r. done.
Qed.

Lemma be_bytes_8 v : 0 ≤ v < usize_bound → be_bytes 8 v = [0; 0; 0; 0] ++ be_bytes 4 v.
Proof.
  intros Hv. unfold be_bytes. cbn [le_bytes rev app]. rewrite !Z.div_div by lia.
  rewrite !(Z.div_small v) by lia. done.
Qed.

Lemma byte_list_0 n : Forall byte (replicate n 0).
Proof. apply Forall_replicate. unfold byte. lia. Qed.

Lemma be_bytes_byte n v : Forall byte (be_bytes n v).
Proof. unfold be_bytes. apply Forall_rev, le_bytes_byte. Qed.


Lemma last_length p L : length p = 56%nat → length (p ++ be_bytes 8 L) = 64%nat.
Proof. intros Hp. unfold be_bytes. rewrite length_app, length_rev, length_le_bytes. lia. Qed.

(** [s] has taken in the message [m]: the whole blocks are in the hash values
    and the rest is at the front of the block buffer. *)
Definition absorbed (s : Sha256Software) (m : list Z) : Prop :=
  ∃ full rest, m = full ++ rest ∧ (length full mod 64 = 0)%nat ∧ (length rest < 64)%nat ∧ Forall byte m ∧
    hash_values s = hash_blocks full ∧ length (data_buffer s) = 64%nat ∧
    take (length rest) (data_buffer s) = rest ∧ buffered_length s = zlen rest ∧ total_length s = zlen m.

(** The last eight bytes of a padded block. *)
Lemma put_length_ok p L : length p = 56%nat → 0 ≤ L < usize_bound →
  put_length L (p ++ replicate 8 0) = Ret (p ++ be_bytes 8 L).
Proof.
  intros Hp HL. unfold put_length. rewrite be_bytes_8, be_bytes_4 by done.
  assert (E0 : Z.shiftr L 32 = 0) by (rewrite Z.shiftr_div_pow2 by lia; by apply Z.div_small). rewrite E0.
  change (wrap32 0) with 0. rewrite !Z.shiftr_0_l, Z.land_0_l.
  assert (EL : Z.land L 0xffffffff = L) by (change 0xffffffff with (Z.ones 32); rewrite Z.land_ones by lia; by apply Z.mod_small). rewrite EL.
  do 8 (match goal with |- context [index_set (p ++ _) ?z _] =>
    let i := eval cbv in (Z.to_nat (z - 56)) in
    rewrite (index_set_mid p _ i) by (unfold zlen; cbn; lia); cbn [mbind outcome_bind insert list_insert replicate] end).
  done.
Qed.

Lemma flush_block_ok s b : length (hash_values s) = 8%nat → length b = 64%nat → Forall byte b →
  flush_block false s b = Ret (set_hashes s (compress (hash_values s) b), replicate 64 0).
Proof.
  intros Hh Hb Hf. unfold flush_block, compute_block. rewrite compute_buffer_ok by done. cbn [mbind outcome_bind].
  rewrite zero_from_ok by (done || lia). done.
Qed.

Lemma pad_split m full rest z1 z2 : m = full ++ rest → (length full mod 64 = 0)%nat →
  Z.of_nat (z1 + z2) = (55 - zlen rest) mod 64 →
  pad m = full ++ (rest ++ [0x80] ++ replicate z1 0) ++ replicate z2 0 ++ be_bytes 8 (8 * zlen m).
Proof.
  intros -> Hf Hz. unfold pad. rewrite <- !app_assoc. do 3 f_equal. rewrite !app_assoc. f_equal.
  rewrite <- replicate_add. f_equal. rewrite zlen_app.
  assert (E : (55 - (zlen full + zlen rest)) mod 64 = (55 - zlen rest) mod 64); [|lia].
  pose proof (Nat.div_mod_eq (length full) 64) as D. rewrite Hf in D. unfold zlen in *.
  replace (55 - (Z.of_nat (length full) + Z.of_nat (length rest))) with (55 - Z.of_nat (length rest) + (- Z.of_nat (length full / 64)) * 64) by lia.
  by rewrite Z.mod_add by lia.
Qed.

(** The last block. *)
Lemma last_block_ok s p L : length (hash_values s) = 8%nat → length p = 56%nat → Forall byte p → 0 ≤ L < usize_bound →
  (b ← put_length L (p ++ replicate 8 0); h ← compute_block false (hash_values s) b; Ret (set_block (set_hashes s h) b)) =
  Ret (set_block (set_hashes s (compress (hash_values s) (p ++ be_bytes 8 L))) (p ++ be_bytes 8 L)).
Proof.
  intros Hh Hp Hb HL. rewrite (bind_ret_eq _ _ _ (put_length_ok p L Hp HL)). unfold compute_block.
  rewrite (bind_ret_eq _ _ _ (compute_buffer_ok _ _ Hh (last_length p L Hp) (Forall_app_2 _ _ _ Hb (be_bytes_byte 8 L)))). reflexivity.
Qed.

(** The rest of a message with the one bit, and zeros. *)
Definition last_head (rest : list Z) : list Z := rest ++ [0x80] ++ replicate (63 - length rest) 0.

Lemma last_head_ok rest : (length rest < 64)%nat → Forall byte rest → length (last_head rest) = 64%nat ∧ Forall byte (last_head rest).
Proof.
  intros Hr Hb. unfold last_head. split; [rewrite !length_app, length_replicate; cbn [length]; lia|].
  apply Forall_app_2; [done|]. apply Forall_app_2; [|apply byte_list_0]. constructor; [unfold byte; lia|done].
Qed.

Lemma last_head_set rest b : length b = 64%nat → (length rest < 64)%nat → take (length rest) b = rest →
  (b ← zero_from (zlen rest) b; Ret (<[Z.to_nat (zlen rest) := 0x80]> b)) = Ret (last_head rest).
Proof.
  intros Hb Hr Hf. rewrite zero_from_ok by (done || (unfold zlen; lia)). cbn [mbind outcome_bind]. unfold zlen. rewrite Nat2Z.id, Hf.
  replace (Z.to_nat (64 - Z.of_nat (length rest))) with (S (63 - length rest)) by lia.
  rewrite insert_app_r_alt, Nat.sub_diag by lia. done.
Qed.

Lemma last_head_zero rest : (length rest < 64)%nat → Forall byte rest → zero_from (zlen rest + 1) (last_head rest) = Ret (last_head rest).
Proof.
  intros Hr Hb. destruct (last_head_ok rest Hr Hb) as [Hl _]. rewrite zero_from_ok by (done || (unfold zlen; lia)). f_equal.
  unfold last_head. rewrite take_app_ge by (unfold zlen; lia).
  replace (Z.to_nat (zlen rest + 1) - length rest)%nat with 1%nat by (unfold zlen; lia).
  cbn [take app]. rewrite take_0, <- app_assoc. cbn [app]. do 3 f_equal. unfold zlen. lia.
Qed.

Lemma last_head_split rest : (length rest < 56)%nat →
  last_head rest = (rest ++ [0x80] ++ replicate (55 - length rest) 0) ++ replicate 8 0.
Proof. intros Hr. unfold last_head. rewrite <- !app_assoc, <- replicate_add. do 3 f_equal. lia. Qed.

(** Finishing a message hashes its padding. *)
Lemma complete_ok s m : absorbed s m → 8 * zlen m < usize_bound →
  ∃ b, complete_sha256 false s = Ret (set_block (set_hashes s (hash_blocks (pad m))) b) ∧ length b = 64%nat.
Proof.
  intros (full & rest & Hm & Hfull & Hrest & Hby & Hh & Hb & Hfront & Hbl & Htot) Hlen.
  assert (Hrb : Forall byte rest) by (rewrite Hm in Hby; by apply Forall_app in Hby as [_ ?]).
  assert (Hh8 : length (hash_values s) = 8%nat) by (rewrite Hh; apply length_hash_blocks).
  pose proof (zlen_nonneg m) as Hm0. assert (Hr : 0 ≤ zlen rest < 64) by (unfold zlen; lia).
  destruct (last_head_ok rest Hrest Hrb) as [Hhl Hhb].
  assert (EL : plain_mul false (total_length s) 8 = Ret (8 * zlen m)) by (unfold plain_mul, wrap32; rewrite Htot, Z.mod_small by lia; f_equal; lia).
  pose proof (last_head_set rest _ Hb Hrest Hfront) as Ehead. apply outcome_bind_Ret in Ehead as (b0 & Ez & [= Eb]).
  unfold complete_sha256. rewrite Hbl, (proj2 (Z.eqb_neq (zlen rest) 64)) by lia.
  rewrite (bind_ret_eq (Ret _) _ _ eq_refl). cbv beta iota zeta. rewrite (proj2 (Z.ltb_lt (zlen rest) 64)) by lia.
  rewrite (bind_ret_eq _ _ _ Ez), Eb. destruct (Z.ltb_spec 56 (zlen rest + 1)) as [Hlong|Hshort].
  - rewrite (bind_ret_eq _ _ _ (last_head_zero rest Hrest Hrb)), (bind_ret_eq _ _ _ (flush_block_ok s _ Hh8 Hhl Hhb)). cbv beta iota zeta.
    rewrite (bind_ret_eq _ _ (8 * zlen m)) by exact EL.
    change (replicate 64 0) with (replicate 56 0 ++ replicate 8 0).
    rewrite (last_block_ok (set_hashes s _) (replicate 56 0)); [|by apply length_compress|done|apply byte_list_0|lia].
    exists (replicate 56 0 ++ be_bytes 8 (8 * zlen m)). split; [|by apply last_length]. f_equal.
    assert (E : hash_blocks (pad m) = compress (compress (hash_values s) (last_head rest)) (replicate 56 0 ++ be_bytes 8 (8 * zlen m))); [|by rewrite E].
    rewrite (pad_split m full rest (63 - length rest) 56 Hm Hfull) by (rewrite <- (Z.mod_add _ 1) by lia; rewrite Z.mod_small; unfold zlen in *; lia).
    fold (last_head rest). rewrite (app_assoc full (last_head rest)), Hh, (hash_blocks_app (full ++ last_head rest)), (hash_blocks_app full); [done..| |done].
    rewrite length_app, Hhl, <- Nat.Div0.add_mod_idemp_l, Hfull. done.
  - rewrite (bind_ret_eq (Ret _) _ _ eq_refl). cbv beta iota zeta. rewrite (bind_ret_eq _ _ (8 * zlen m)) by exact EL.
    assert (H55 : (length rest < 56)%nat) by (unfold zlen in *; lia). rewrite (last_head_split rest H55).
    set (p := rest ++ [128] ++ replicate (55 - length rest) 0).
    assert (Hp : length p = 56%nat) by (unfold p; rewrite !length_app, length_replicate; cbn [length]; lia).
    rewrite (last_head_split rest H55) in Hhb. apply Forall_app in Hhb as [Hpb _].
    rewrite (last_block_ok s p) by (done || lia). exists (p ++ be_bytes 8 (8 * zlen m)). split; [|by apply last_length]. do 3 f_equal.
    rewrite (pad_split m full rest (55 - length rest) 0 Hm Hfull) by (rewrite Z.mod_small; unfold zlen in *; lia).
    change (replicate 0 0) with (@nil Z). rewrite app_nil_l. fold p. rewrite Hh, hash_blocks_app; [done|done|by apply last_length].
Qed.

(** ** Input buffers *)

Lemma parts_advance data k : parts (advance data k) = ((parts data).1, mkRange (range_start (parts data).2 + k) (range_end (parts data).2)).
Proof. by destruct data. Qed.

Lemma shows_bounds data w : shows data w →
  let '(l, r) := parts data in 0 ≤ range_start r ∧ range_end r = range_start r + zlen w ∧ range_end r < usize_bound ∧
    w = take (length w) (drop (Z.to_nat (range_start r)) l).
Proof.
  intros [Hwf Hw]. pose proof (window_wf data Hwf) as Hw'. unfold range_wf in Hwf. destruct (parts data) as [l r].
  rewrite Hw in Hw'. injection Hw' as ->. destruct Hwf as (H1 & H2 & H3). unfold zlen in *. rewrite length_take, length_drop.
  split_and!; [lia..|]. by rewrite Nat.min_l by lia.
Qed.

Lemma len_ok data w : shows data w → SubSliceMutImmut_len data = Ret (zlen w).
Proof.
  intros [_ Hw]. unfold window in Hw. destruct data as [b|b]; cbn in *; unfold SubSlice_len, SubSliceMut_len, SubSlice_active_slice, SubSliceMut_active_slice;
    by rewrite Hw.
Qed.

Lemma index_ok data w i : shows data w → SubSliceMutImmut_index data i = index_get w i.
Proof.
  intros [_ Hw]. unfold window in Hw. destruct data as [b|b]; cbn in *; unfold SubSlice_index, SubSliceMut_index; by rewrite Hw.
Qed.

Lemma shows_advance data w k : shows data w → 0 ≤ k ≤ zlen w → shows (advance data k) (drop (Z.to_nat k) w).
Proof.
  intros Hs Hk. pose proof (shows_bounds data w Hs) as B. destruct Hs as [Hwf Hw]. pose proof (window_wf data Hwf) as Hw'.
  assert (Hwf' : range_wf (advance data k)).
  { unfold range_wf in *. rewrite parts_advance. destruct (parts data) as [l r]. cbn [fst snd range_start range_end]. destruct B as (? & ? & ? & _). lia. }
  split; [done|]. pose proof (window_wf _ Hwf') as E. rewrite parts_advance in E. rewrite E. rewrite Hw in Hw'. clear E.
  destruct (parts data) as [l r]. cbn [fst snd range_start range_end] in *. injection Hw' as ->. f_equal.
  rewrite skipn_firstn_comm, drop_drop. f_equal; [lia|]. f_equal. lia.
Qed.

Lemma slice_from_ok data w k : shows data w → 0 ≤ k ≤ zlen w → slice_from data k = Ret (advance data k).
Proof.
  intros Hs Hk. unfold slice_from. rewrite (bind_ret_eq _ _ _ (len_ok data w Hs)).
  pose proof (shows_bounds data w Hs) as B. destruct data as [b|b]; cbn in B; destruct B as (B1 & B2 & B3 & _); cbn [SubSliceMutImmut_slice];
    unfold SubSlice_slice, SubSliceMut_slice; rewrite (narrow_ok _ _ _ k (zlen w)) by (done || lia); cbn; by rewrite B2.
Qed.

Lemma advance_advance data a b : advance (advance data a) b = advance data (a + b).
Proof. destruct data; cbn; by rewrite Z.add_assoc. Qed.

Lemma advance_0 data : advance data 0 = data.
Proof. destruct data as [[? []]|[? []]]; cbn; by rewrite Z.add_0_r. Qed.

Lemma copy_data_ok data w n at_ b : shows data w → 0 ≤ n ≤ zlen w → 0 ≤ at_ → at_ + n ≤ zlen b →
  copy_data n at_ data b = Ret (take (Z.to_nat at_) b ++ take (Z.to_nat n) w ++ drop (Z.to_nat at_ + Z.to_nat n) b).
Proof.
  intros Hs Hn Ha Hb. unfold copy_data. unfold zlen in *.
  pose proof (for_range_fun (λ i, take (Z.to_nat at_) b ++ take i w ++ drop (Z.to_nat at_ + i) b) (Z.to_nat n) 0
    (λ i b, x ← SubSliceMutImmut_index data i; index_set b (i + at_) x)) as E.
  cbn beta in E. rewrite take_0, app_nil_l, Nat.add_0_r, take_drop in E. apply E. intros i Hi. rewrite Z.add_0_l.
  destruct (lookup_lt_is_Some_2 w i ltac:(lia)) as [x Hx]. rewrite (index_ok _ w) by done.
  rewrite (bind_ret_eq _ _ x) by (unfold index_get; rewrite (proj2 (Z.ltb_ge _ _)), Nat2Z.id, Hx by lia; done).
  destruct (lookup_lt_is_Some_2 b (Z.to_nat at_ + i) ltac:(lia)) as [y Hy]. rewrite (drop_S b y _ Hy), app_assoc.
  rewrite index_set_next by (unfold zlen; rewrite length_app, !length_take; lia).
  by rewrite (take_S_r w i x Hx), <- !app_assoc, Nat.add_succ_r.
Qed.

(** ** Absorbing data *)

Lemma compute_blocks_ok fuel h data w : shows data w → length h = 8%nat → Forall byte w → (length w / 64 ≤ fuel)%nat →
  compute_blocks fuel false h data = Ret (foldl compress h (message_blocks w), advance data (64 * (zlen w / 64))).
Proof.
  revert h data w. induction fuel as [|fuel IH]; intros h data w Hs Hh Hw Hf;
    cbn [compute_blocks]; rewrite (bind_ret_eq _ _ _ (len_ok data w Hs)); destruct (Z.leb_spec 64 (zlen w)) as [Hbig|Hsmall].
  1:{ exfalso. unfold zlen in Hbig. pose proof (Nat.div_le_mono 64 (length w) 64 ltac:(lia) ltac:(lia)). cbn in *. lia. }
  1,3: rewrite Z.div_small, Z.mul_0_r, advance_0, blocks_short by (unfold zlen in *; lia); done.
  assert (H64 : length (take 64 w) = 64%nat) by (unfold zlen in Hbig; rewrite length_take; lia).
  assert (Er : data_range data 0 64 = Ret (take 64 w)).
  { unfold data_range. rewrite (bind_ret_eq _ _ _ (proj2 Hs)). unfold index_range. cbn [range_start range_end].
    rewrite (proj2 (get_range_Some w (take 64 w) 0 64)); [done|]. split_and!; [lia..|]. by rewrite drop_0. }
  rewrite <- (take_drop 64 w) in Hw. apply Forall_app in Hw as [Hw1 Hw2].
  rewrite (bind_ret_eq _ _ _ Er), (bind_ret_eq _ _ _ (compute_buffer_ok h _ Hh H64 Hw1)).
  rewrite (bind_ret_eq _ _ _ (slice_from_ok data w 64 Hs ltac:(lia))).
  assert (Ez : zlen w = zlen (drop 64 w) + 1 * 64) by (unfold zlen in *; rewrite length_drop; lia).
  rewrite (IH _ _ (drop 64 w)); [|by apply (shows_advance data w 64); [|lia]|by apply length_compress|done|].
  - rewrite advance_advance. replace (64 + 64 * (zlen (drop 64 w) / 64)) with (64 * (zlen w / 64)) by (rewrite Ez, Z.div_add by lia; lia).
    assert (Eb : message_blocks w = [take 64 w] ++ message_blocks (drop 64 w)); [|by rewrite Eb].
    rewrite <- (take_drop 64 w) at 1. by rewrite blocks_app, (blocks_one (take 64 w) H64) by (rewrite H64; done).
  - replace (length w) with (length (drop 64 w) + 1 * 64)%nat in Hf by (unfold zlen in *; lia). rewrite Nat.div_add in Hf by lia. lia.
Qed.

(** After the block buffer has been emptied or filled further: [full] is hashed,
    [rest] is in the buffer, and either nothing is left of the data or [rest] is
    empty. *)
Lemma hash_rest_ok s data w full rest n :
  shows data w → Forall byte w → (length full mod 64 = 0)%nat → hash_values s = hash_blocks full →
  length (data_buffer s) = 64%nat → (length rest < 64)%nat → take (length rest) (data_buffer s) = rest →
  (rest = [] ∨ w = []) → zlen w ≤ n →
  ∃ s' full' rest', hash_rest false s data n (zlen rest) = Ret (s', advance data (zlen w), zlen rest') ∧
    full' ++ rest' = full ++ rest ++ w ∧ (length full' mod 64 = 0)%nat ∧ (length rest' < 64)%nat ∧
    take (length rest') (data_buffer s') = rest' ∧ length (data_buffer s') = 64%nat ∧
    s' = set_block (set_hashes s (hash_blocks full')) (data_buffer s').
Proof.
  intros Hs Hw Hf Hh Hb Hr Hfront Hor Hn. set (q := (length w / 64)%nat).
  assert (Hdm : length w = (64 * q + length w mod 64)%nat) by apply Nat.div_mod_eq.
  assert (Hmod : (length w mod 64 < 64)%nat) by (apply Nat.mod_upper_bound; lia).
  unfold hash_rest. erewrite (bind_ret_eq (compute_blocks _ _ _ _)).
  2:{ apply compute_blocks_ok; [done|rewrite Hh; apply length_hash_blocks|done|].
      unfold zlen in Hn. pose proof (Nat.div_le_upper_bound (length w) 64 (Z.to_nat n) ltac:(lia) ltac:(lia)). lia. }
  cbv beta iota zeta. assert (Hq : 64 * (zlen w / 64) = Z.of_nat (64 * q)) by (unfold zlen, q; rewrite Nat2Z.inj_mul, Nat2Z.inj_div; lia).
  rewrite Hq. pose proof (shows_advance data w (Z.of_nat (64 * q)) Hs ltac:(unfold zlen; lia)) as Hs'. rewrite Nat2Z.id in Hs'.
  rewrite (bind_ret_eq _ _ _ (len_ok _ _ Hs')). set (t := drop (64 * q) w) in *.
  assert (Htl : length t = (length w mod 64)%nat) by (unfold t; rewrite length_drop; lia).
  assert (Hfull' : (length (full ++ take (64 * q) w) mod 64 = 0)%nat).
  { rewrite length_app, length_take, Nat.min_l by lia. rewrite <- Nat.Div0.add_mod_idemp_l, Hf, Nat.add_0_l, (Nat.mul_comm 64). apply Nat.Div0.mod_mul. }
  assert (Eh : foldl compress (hash_values s) (message_blocks w) = hash_blocks (full ++ take (64 * q) w)).
  { rewrite <- (take_drop (64 * q) w) at 1. fold t. Transparent hash_blocks. unfold hash_blocks. rewrite Hh. unfold hash_blocks. Opaque hash_blocks.
    rewrite !blocks_app, (blocks_short t), app_nil_r, foldl_app by
      (done || lia || (rewrite length_take, Nat.min_l, (Nat.mul_comm 64) by lia; apply Nat.Div0.mod_mul)). done. }
  rewrite Eh. destruct (Z.eqb_spec (zlen t) 0) as [Ht0|Ht0]; cbn [negb].
  - assert (Et : t = []) by (apply nil_length_inv; unfold zlen in Ht0; lia).
    assert (Ew : take (64 * q) w = w) by (apply take_ge; unfold zlen in Ht0; lia). rewrite Ew in *.
    replace (Z.of_nat (64 * q)) with (zlen w) by (unfold zlen in *; lia).
    eexists _, (full ++ w), rest. split; [reflexivity|].
    split_and!; [|done|done|done|done|done]. rewrite <- app_assoc. f_equal. destruct Hor as [-> | ->]; by rewrite ?app_nil_r.
  - assert (Er : rest = []). { destruct Hor as [?|Hw0]; [done|]. exfalso. apply Ht0. unfold t. rewrite Hw0, drop_nil. done. } subst rest.
    cbn [data_buffer set_hashes]. erewrite (bind_ret_eq (copy_data _ _ _ _)).
    2:{ apply (copy_data_ok _ t); [done|unfold zlen; lia..]. }
    rewrite (bind_ret_eq _ _ _ (slice_from_ok _ t (zlen t) Hs' ltac:(unfold zlen; lia))), advance_advance.
    replace (Z.of_nat (64 * q) + zlen t) with (zlen w) by (unfold zlen; lia).
    eexists _, (full ++ take (64 * q) w), t. split; [reflexivity|]. cbn [data_buffer set_block].
    rewrite (take_ge t) by (unfold zlen; lia). change (Z.to_nat 0) with 0%nat. rewrite take_0. cbn [app].
    split_and!; [|done|lia|by rewrite take_app_length| |done].
    + rewrite <- app_assoc. unfold t. by rewrite take_drop.
    + rewrite length_app, length_drop. unfold zlen. lia.
Qed.

(** What absorbing data leaves alone. *)
Definition same_frame (s s' : Sha256Software) : Prop :=
  sha_state s' = sha_state s ∧ sha_client s' = sha_client s ∧ output_data s' = output_data s ∧ deferred_call s' = deferred_call s.

Lemma fill_block_ok s data w full rest :
  shows data w → Forall byte w → Forall byte rest → (length full mod 64 = 0)%nat → hash_values s = hash_blocks full →
  length (data_buffer s) = 64%nat → (length rest < 64)%nat → take (length rest) (data_buffer s) = rest → zlen w + 64 < usize_bound →
  ∃ s' k full' rest', fill_block false s data (zlen w) (zlen rest) = Ret (s', advance data k, zlen rest') ∧ 0 ≤ k ≤ zlen w ∧
    full' ++ rest' = full ++ rest ++ take (Z.to_nat k) w ∧ (length full' mod 64 = 0)%nat ∧ (length rest' < 64)%nat ∧
    take (length rest') (data_buffer s') = rest' ∧ length (data_buffer s') = 64%nat ∧ (rest' = [] ∨ k = zlen w) ∧
    s' = set_block (set_hashes s (hash_blocks full')) (data_buffer s').
Proof.
  intros Hs Hw Hrb Hf Hh Hb Hr Hfront Hbound. pose proof (zlen_nonneg w). assert (Hz : 0 ≤ zlen rest < 64) by (unfold zlen; lia).
  unfold fill_block, plain_add, wrapping_add, wrap32, SHA_BLOCK_LEN_BYTES. rewrite Z.mod_small by lia. rewrite (bind_ret_eq (Ret _) _ _ eq_refl).
  cbv zeta. set (k := if 64 <=? zlen w + zlen rest then 64 - zlen rest else zlen w).
  assert (Hk : 0 ≤ k ≤ zlen w ∧ zlen rest + k ≤ 64) by (unfold k; destruct (Z.leb_spec 64 (zlen w + zlen rest)); lia).
  assert (Hb' : zlen (data_buffer s) = 64) by (unfold zlen; lia).
  rewrite (bind_ret_eq _ _ _ (copy_data_ok data w k (zlen rest) (data_buffer s) Hs ltac:(lia) ltac:(lia) ltac:(lia))).
  rewrite (bind_ret_eq _ _ _ (slice_from_ok data w k Hs ltac:(lia))).
  replace (Z.to_nat (zlen rest)) with (length rest) by (unfold zlen; lia). rewrite Hfront.
  set (b := rest ++ take (Z.to_nat k) w ++ drop (length rest + Z.to_nat k) (data_buffer s)).
  assert (Hkl : length (take (Z.to_nat k) w) = Z.to_nat k) by (unfold zlen in *; rewrite length_take; lia).
  assert (Hbl : length b = 64%nat) by (unfold b, zlen in *; rewrite !length_app, Hkl, length_drop; lia).
  destruct (Z.eqb_spec (zlen rest + k) 64) as [Efull|Epart].
  - assert (Eb : b = rest ++ take (Z.to_nat k) w) by (unfold b; rewrite drop_ge, app_nil_r by (unfold zlen in *; lia); done).
    assert (Hbb : Forall byte b) by (rewrite Eb; apply Forall_app_2; [done|by apply Forall_take]).
    assert (Hh8 : length (hash_values s) = 8%nat) by (rewrite Hh; apply length_hash_blocks).
    cbn [hash_values set_block]. unfold compute_block. rewrite (bind_ret_eq _ _ _ (compute_buffer_ok _ b Hh8 Hbl Hbb)).
    exists (set_hashes (set_block s b) (compress (hash_values s) b)), k, (full ++ b), []. rewrite app_nil_r, Hh, <- (hash_blocks_app full b Hf Hbl).
    split_and!; [done|lia|lia|by rewrite Eb| |cbn; lia|done|done|by left|done].
    rewrite length_app, Hbl, <- Nat.Div0.add_mod_idemp_l, Hf. done.
  - assert (Ek : k = zlen w) by (unfold k in *; destruct (Z.leb_spec 64 (zlen w + zlen rest)); lia).
    exists (set_block s b), k, full, (rest ++ take (Z.to_nat k) w). rewrite zlen_app.
    replace (zlen (take (Z.to_nat k) w)) with k by (unfold zlen; rewrite Hkl; lia).
    split_and!; [done|lia|lia|done|done|rewrite length_app, Hkl; unfold zlen in *; lia| |done|by right|].
    + cbn [data_buffer set_block]. unfold b. by rewrite app_assoc, take_app_length.
    + cbn. rewrite <- Hh. by destruct s.
Qed.

(** Handing over data adds them to the message, wherever they are cut. *)
Lemma compute_sha256_ok s m data w :
  absorbed s m → input_data s = Some data → shows data w → Forall byte w → 8 * zlen (m ++ w) < usize_bound →
  ∃ s', compute_sha256 false s = Ret s' ∧ absorbed s' (m ++ w) ∧ input_data s' = Some (advance data (zlen w)) ∧ same_frame s s'.
Proof.
  intros (full & rest & Hm & Hf & Hr & Hby & Hh & Hb & Hfront & Hbl & Htot) Hin Hs Hw Hlen.
  rewrite zlen_app in Hlen. pose proof (zlen_nonneg m). pose proof (zlen_nonneg w). pose proof (zlen_nonneg rest).
  assert (Hrb : Forall byte rest) by (rewrite Hm in Hby; by apply Forall_app in Hby as [_ ?]).
  unfold compute_sha256. rewrite Hin. cbv zeta. rewrite (bind_ret_eq _ _ _ (len_ok data w Hs)). cbn [total_length set_input].
  assert (Et : plain_add false (total_length s) (zlen w) = Ret (zlen m + zlen w)).
  { unfold plain_add, wrapping_add, wrap32. rewrite Htot, Z.mod_small by lia. done. }
  rewrite (bind_ret_eq _ _ _ Et). cbn [buffered_length set_lengths set_input]. rewrite Hbl.
  set (s1 := set_lengths (set_input s None) (zlen rest) (zlen m + zlen w)).
  assert (Hphase : ∃ s' k full' rest', (if negb (zlen rest =? 0) then fill_block false s1 data (zlen w) (zlen rest) else Ret (s1, data, zlen rest)) =
      Ret (s', advance data k, zlen rest') ∧ 0 ≤ k ≤ zlen w ∧
      full' ++ rest' = full ++ rest ++ take (Z.to_nat k) w ∧ (length full' mod 64 = 0)%nat ∧ (length rest' < 64)%nat ∧
      take (length rest') (data_buffer s') = rest' ∧ length (data_buffer s') = 64%nat ∧ (rest' = [] ∨ k = zlen w) ∧
      s' = set_block (set_hashes s1 (hash_blocks full')) (data_buffer s')).
  { destruct (Z.eqb_spec (zlen rest) 0) as [E0|_]; cbn [negb]; [|by apply fill_block_ok; [..|lia]].
    assert (rest = []) as -> by (apply nil_length_inv; unfold zlen in E0; lia).
    exists s1, 0, full, []. rewrite advance_0, take_0. split_and!; try done; [lia..|by left|]. unfold s1. cbn. rewrite <- Hh. done. }
  destruct Hphase as (s2 & k & full2 & rest2 & E2 & Hk & Hcat2 & Hf2 & Hr2 & Hfr2 & Hb2 & Hor2 & Es2).
  rewrite (bind_ret_eq _ _ _ E2). cbv beta iota. pose proof (shows_advance data w k Hs Hk) as Hs2.
  destruct (hash_rest_ok s2 (advance data k) (drop (Z.to_nat k) w) full2 rest2 (zlen w)) as (s3 & full3 & rest3 & E3 & Hcat3 & Hf3 & Hr3 & Hfr3 & Hb3 & Es3);
    [done|by apply Forall_drop|done|by rewrite Es2|done|done|done| |unfold zlen; rewrite length_drop; lia|].
  { destruct Hor2 as [-> | ->]; [by left|right]. apply drop_ge. unfold zlen. lia. }
  rewrite (bind_ret_eq _ _ _ E3). cbv beta iota. rewrite advance_advance.
  replace (k + zlen (drop (Z.to_nat k) w)) with (zlen w) by (unfold zlen; rewrite length_drop; unfold zlen in *; lia).
  eexists. split; [reflexivity|]. rewrite Es3, Es2. split; [|done].
  exists full3, rest3. cbn. split_and!; [|done|done|by apply Forall_app_2|done|done|done|done|by rewrite zlen_app].
  rewrite Hcat3, app_assoc, Hcat2, Hm, <- !app_assoc, take_drop. done.
Qed.

(** ** Digests *)

Lemma digest_bytes_app h h' : digest_bytes (h ++ h') = digest_bytes h ++ digest_bytes h'.
Proof. unfold digest_bytes. apply bind_app. Qed.

Lemma digest_bytes_cons x h : digest_bytes (x :: h) = be_bytes 4 x ++ digest_bytes h.
Proof. done. Qed.

Lemma length_digest_bytes h : length (digest_bytes h) = (4 * length h)%nat.
Proof. induction h as [|x h IH]; [done|]. rewrite digest_bytes_cons, length_app, IH, be_bytes_4. cbn [length]. lia. Qed.

Lemma drop_four (d : list Z) n : (n + 4 ≤ length d)%nat → ∃ d0 d1 d2 d3, drop n d = d0 :: d1 :: d2 :: d3 :: drop (n + 4) d.
Proof.
  intros Hn. assert (E : drop (n + 4) d = drop 4 (drop n d)) by (rewrite drop_drop; done). rewrite E.
  assert (Hl : (4 ≤ length (drop n d))%nat) by (rewrite length_drop; lia). revert Hl. generalize (drop n d).
  intros [|d0 [|d1 [|d2 [|d3 l]]]] Hl; cbn in Hl; try lia. cbn [drop]. rewrite drop_0. eauto.
Qed.

Lemma store_words_ok h d : length h = 8%nat → length d = 32%nat → for_range 8 0 (store_word h) d = Ret (digest_bytes h).
Proof.
  intros Hh Hd. pose proof (for_range_fun (λ i, digest_bytes (take i h) ++ drop (4 * i) d) 8 0 (store_word h)) as E.
  cbn beta in E. rewrite (take_ge h 8), (drop_ge d (4 * 8)), app_nil_r in E by lia. apply E. intros i Hi. rewrite Z.add_0_l.
  destruct (lookup_lt_is_Some_2 h i ltac:(lia)) as [v Hv]. unfold store_word.
  rewrite (bind_ret_eq _ _ v) by (unfold index_get; rewrite (proj2 (Z.ltb_ge _ _)), Nat2Z.id, Hv by lia; done).
  destruct (drop_four d (4 * i) ltac:(lia)) as (d0 & d1 & d2 & d3 & ->).
  assert (Hp : zlen (digest_bytes (take i h)) = 4 * Z.of_nat i) by (unfold zlen; rewrite length_digest_bytes, length_take; lia).
  set (p := digest_bytes (take i h)) in *.
  erewrite bind_ret_eq by (apply (index_set_mid p _ 3); [lia|cbn; lia]). cbn [insert list_insert].
  erewrite bind_ret_eq by (apply (index_set_mid p _ 2); [lia|cbn; lia]). cbn [insert list_insert].
  erewrite bind_ret_eq by (apply (index_set_mid p _ 1); [lia|cbn; lia]). cbn [insert list_insert].
  rewrite (index_set_mid p _ 0) by (cbn; lia). cbn [insert list_insert]. f_equal.
  rewrite (take_S_r h i v Hv), digest_bytes_app, digest_bytes_cons, be_bytes_4, <- !app_assoc. fold p. cbn [app digest_bytes mbind list_bind].
  do 6 f_equal. lia.
Qed.

Lemma same_words_ok n i h out : (i + n = 8)%nat → length h = 8%nat → length out = 32%nat →
  same_words n (Z.of_nat i) h out = Ret (bool_decide (drop (4 * i) out = digest_bytes (drop i h))).
Proof.
  revert i. induction n as [|n IH]; intros i Hn Hh Ho.
  { cbn [same_words]. by rewrite !drop_ge by lia. }
  cbn [same_words]. destruct (lookup_lt_is_Some_2 h i ltac:(lia)) as [v Hv].
  rewrite (bind_ret_eq _ _ v) by (unfold index_get; rewrite (proj2 (Z.ltb_ge _ _)), Nat2Z.id, Hv by lia; done).
  destruct (drop_four out (4 * i) ltac:(lia)) as (o0 & o1 & o2 & o3 & Eo).
  assert (Hg : ∀ (j : nat) (z : Z) x, z = 4 * Z.of_nat i + Z.of_nat j → drop (4 * i) out !! j = Some x → index_get out z = Ret x).
  { intros j z x -> Hx. rewrite lookup_drop in Hx. unfold index_get. rewrite (proj2 (Z.ltb_ge _ _)) by lia.
    replace (Z.to_nat (4 * Z.of_nat i + Z.of_nat j)) with (4 * i + j)%nat by lia. by rewrite Hx. }
  erewrite !bind_ret_eq; [|by apply (Hg 0%nat); [lia|by rewrite Eo]|by apply (Hg 1%nat); [lia|by rewrite Eo]
    |by apply (Hg 2%nat); [lia|by rewrite Eo]|by apply (Hg 3%nat); [lia|by rewrite Eo]].
  rewrite (drop_S h v i Hv), digest_bytes_cons, be_bytes_4, Eo.
  replace (Z.of_nat i + 1) with (Z.of_nat (S i)) by lia. rewrite (IH (S i)) by lia.
  replace (4 * S i)%nat with (4 * i + 4)%nat by lia. cbn [app].
  destruct (Z.eqb_spec o3 (Z.land (Z.shiftr v 0) 255)) as [->|], (Z.eqb_spec o2 (Z.land (Z.shiftr v 8) 255)) as [->|],
    (Z.eqb_spec o1 (Z.land (Z.shiftr v 16) 255)) as [->|], (Z.eqb_spec o0 (Z.land (Z.shiftr v 24) 255)) as [->|]; cbn [negb orb];
    first [by rewrite bool_decide_false by congruence|f_equal; apply bool_decide_ext; naive_solver congruence].
Qed.

(** ** The state machine *)

Definition sha_op (checks : bool) (s : Sha256Software) (op : HashOp) : outcome (Sha256Software * HashAnswer * list DigestEvent) :=
  match op with
  | OpAdd data => '(s, r) ← sha_add checks s data; Ret (s, match r with Ok _ => Accepted | Err (e, data) => RefusedData e data end, [])
  | OpClear => s ← clear_data s; Ret (s, Accepted, [])
  | OpRun digest => '(s, r) ← sha_run checks s digest; Ret (s, match r with Ok _ => Accepted | Err (e, d) => RefusedDigest e d end, [])
  | OpVerify compare => '(s, r) ← sha_verify checks s compare; Ret (s, match r with Ok _ => Accepted | Err (e, d) => RefusedDigest e d end, [])
  | OpDeferred => if deferred_call s then '(s, evs) ← handle_deferred_call s; Ret (s, Accepted, evs) else Ret (s, Accepted, [])
  end.

(** The implementation state of an abstract one. *)
Definition sha_abs (s : Sha256Software) (a : HasherState) : Prop :=
  sha_client s = true ∧ length (data_buffer s) = 64%nat ∧
  match a with
  | HIdle m => sha_state s = ShaIdle ∧ deferred_call s = false ∧ absorbed s m
  | HData m data => sha_state s = ShaData ∧ deferred_call s = true ∧ input_data s = Some data ∧ absorbed s m
  | HHash d => sha_state s = ShaHash ∧ deferred_call s = true ∧ output_data s = Some d
  | HVerify m c => sha_state s = ShaVerify ∧ deferred_call s = true ∧ output_data s = Some c ∧ length c = 32%nat ∧ hash_values s = hash_blocks (pad m)
  | HCancelData data => sha_state s = ShaCancelData ∧ deferred_call s = true ∧ input_data s = Some data
  | HCancelHash d => sha_state s = ShaCancelHash ∧ deferred_call s = true ∧ output_data s = Some d
  | HCancelVerify c => sha_state s = ShaCancelVerify ∧ deferred_call s = true ∧ output_data s = Some c
  end.

Lemma absorbed_frame s s' m : hash_values s' = hash_values s → data_buffer s' = data_buffer s → buffered_length s' = buffered_length s →
  total_length s' = total_length s → absorbed s m → absorbed s' m.
Proof. intros H1 H2 H3 H4. unfold absorbed. by rewrite H1, H2, H3, H4. Qed.

Lemma initialize_ok s : length (data_buffer s) = 64%nat → ∃ s', initialize s = Ret s' ∧ absorbed s' [] ∧ length (data_buffer s') = 64%nat ∧
  sha_state s' = match sha_state s with
    | ShaIdle => ShaIdle | ShaData | ShaCancelData => ShaCancelData | ShaHash | ShaCancelHash => ShaCancelHash
    | ShaVerify | ShaCancelVerify => ShaCancelVerify end ∧
  sha_client s' = sha_client s ∧ input_data s' = input_data s ∧ output_data s' = output_data s ∧ deferred_call s' = deferred_call s.
Proof.
  intros Hb. unfold initialize. rewrite (bind_ret_eq _ _ _ (zero_from_ok 0 _ Hb ltac:(lia))). eexists. split; [reflexivity|].
  split; [|done]. exists [], []. split_and!; try done. cbn. lia.
Qed.

Lemma shows_bytes data : range_wf data → shows data (bytes_of data).
Proof. intros Hwf. pose proof (window_wf data Hwf) as E. unfold shows, bytes_of. destruct (parts data) as [l r]. by rewrite E. Qed.

Lemma busy_idle s a : sha_abs s a → busy s = match a with HIdle _ => false | _ => true end.
Proof. intros (_ & _ & Ha). unfold busy. destruct a; destruct Ha as [-> _]; done. Qed.

Lemma sha_add_sim s a data : sha_abs s a → op_ok a (OpAdd data) →
  ∃ s', sha_op false s (OpAdd data) = Ret (s', (hasher_step a (OpAdd data)).1.2, []) ∧ sha_abs s' (hasher_step a (OpAdd data)).1.1.
Proof.
  intros Ha (Hwf & Hby & Hlen). unfold sha_op, sha_add. rewrite (busy_idle s a Ha).
  destruct a as [m| | | | | |]; try by eexists. destruct Ha as (Hc & Hb & Hst & Hd & Habs).
  edestruct (compute_sha256_ok (set_input (set_deferred (set_sha_state s ShaData) true) (Some data)) m data) as (s1 & E1 & Habs1 & Hin1 & F1 & F2 & F3 & F4);
    [by eapply absorbed_frame, Habs|done|by apply shows_bytes|done|done|].
  rewrite E1. cbn [mbind outcome_bind hasher_step fst snd]. eexists. split; [reflexivity|].
  unfold sha_abs. rewrite F1, F2, F4. destruct Habs1 as (f & r & A). split_and!; [done|apply A|done|done|done|by exists f, r].
Qed.

Lemma sha_clear_sim s a : sha_abs s a →
  ∃ s', sha_op false s OpClear = Ret (s', Accepted, []) ∧ sha_abs s' (hasher_step a OpClear).1.1.
Proof.
  intros Ha. assert (Hb : length (data_buffer s) = 64%nat) by apply Ha. destruct (initialize_ok s Hb) as (s1 & E1 & Habs & Hb1 & S1 & F1 & F2 & F3 & F4).
  unfold sha_op, clear_data. rewrite (bind_ret_eq _ _ _ E1). exists s1. split; [done|]. unfold sha_abs in *.
  destruct Ha as (Hc & _ & Ha). rewrite F1, F2, F3, F4, S1. destruct a; cbn [hasher_step fst snd]; destruct Ha as (-> & Ha); naive_solver.
Qed.

Lemma sha_finish s m st : sha_abs s (HIdle m) → 8 * zlen m < usize_bound →
  ∃ b, complete_sha256 false (set_sha_state s st) = Ret (set_block (set_hashes (set_sha_state s st) (hash_blocks (pad m))) b) ∧ length b = 64%nat.
Proof. intros (_ & _ & _ & _ & Habs) Hlen. apply complete_ok; [|done]. by eapply absorbed_frame, Habs. Qed.

(** The message of an idle hasher is below the bound it was built under. *)
Definition sized (a : HasherState) : Prop := match a with HIdle m | HData m _ => 8 * zlen m < usize_bound | _ => True end.

Lemma sha_run_sim s a d : sha_abs s a → sized a → length d = 32%nat →
  ∃ s', sha_op false s (OpRun d) = Ret (s', (hasher_step a (OpRun d)).1.2, []) ∧ sha_abs s' (hasher_step a (OpRun d)).1.1.
Proof.
  intros Ha Hsz Hd. unfold sha_op, sha_run. rewrite (busy_idle s a Ha). destruct a as [m| | | | | |]; try by eexists.
  destruct (sha_finish s m ShaHash Ha Hsz) as (b & E & Hb). rewrite E. cbn [mbind outcome_bind hash_values set_block set_hashes].
  rewrite store_words_ok by (done || apply length_hash_blocks). cbn [mbind outcome_bind hasher_step fst snd].
  eexists. split; [reflexivity|]. destruct Ha as (Hc & _). done.
Qed.

Lemma sha_verify_sim s a c : sha_abs s a → sized a → length c = 32%nat →
  ∃ s', sha_op false s (OpVerify c) = Ret (s', (hasher_step a (OpVerify c)).1.2, []) ∧ sha_abs s' (hasher_step a (OpVerify c)).1.1.
Proof.
  intros Ha Hsz Hd. unfold sha_op, sha_verify. rewrite (busy_idle s a Ha). destruct a as [m| | | | | |]; try by eexists.
  destruct (sha_finish s m ShaVerify Ha Hsz) as (b & E & Hb). rewrite E. cbn [mbind outcome_bind hasher_step fst snd].
  eexists. split; [reflexivity|]. destruct Ha as (Hc & _). done.
Qed.

(** The reset of a finished or cancelled request. *)
Lemma reset_idle s : sha_client s = true → length (data_buffer s) = 64%nat → sha_state s = ShaIdle → deferred_call s = false →
  ∃ s', clear_data s = Ret s' ∧ (∀ i o, sha_abs (set_output (set_input s' i) o) (HIdle [])) ∧ sha_client s' = true ∧
    input_data s' = input_data s ∧ output_data s' = output_data s.
Proof.
  intros Hc Hb Hst Hd. destruct (initialize_ok s Hb) as (s1 & E1 & Habs & Hb1 & S1 & F1 & F2 & F3 & F4). exists s1.
  rewrite Hst in S1. split_and!; [done| |by rewrite F1|done|done]. intros i o. unfold sha_abs. cbn. rewrite F1, S1, F4.
  split_and!; [done..|]. by eapply absorbed_frame, Habs.
Qed.

Lemma sha_deferred_sim s a : sha_abs s a →
  ∃ s', sha_op false s OpDeferred = Ret (s', Accepted, (hasher_step a OpDeferred).2) ∧ sha_abs s' (hasher_step a OpDeferred).1.1.
Proof.
  intros Ha. destruct (id Ha) as (Hc & Hb & Hrest). unfold sha_op.
  destruct a as [m|m data|d|m c|data|d|c]; destruct Hrest as (Hst & Hd & Hrest); rewrite Hd; [by exists s|..];
    unfold handle_deferred_call; rewrite Hst; cbv zeta;
    destruct (reset_idle (set_deferred (set_sha_state s ShaIdle) false) Hc Hb eq_refl eq_refl) as (s1 & E1 & R1 & C1 & I1 & O1).
  - destruct Hrest as [Hin Habs]. cbn [input_data set_deferred set_sha_state]. rewrite Hin. cbn. unfold tell. cbn. rewrite Hc.
    eexists. split; [reflexivity|]. unfold sha_abs. cbn. split_and!; [done..|]. by eapply absorbed_frame, Habs.
  - cbn [output_data set_deferred set_sha_state]. rewrite Hrest. cbn [unwrap mbind outcome_bind].
    destruct (reset_idle (set_output (set_deferred (set_sha_state s ShaIdle) false) None) Hc Hb eq_refl eq_refl) as (s2 & E2 & R2 & C2 & I2 & O2).
    rewrite E2. cbn [mbind outcome_bind]. unfold tell. rewrite C2. eexists. split; [reflexivity|].
    specialize (R2 (input_data s2) (output_data s2)). by destruct s2.
  - destruct Hrest as (Hout & Hcl & Hh). cbn [output_data set_deferred set_sha_state]. rewrite Hout. cbn [unwrap mbind outcome_bind].
    cbn [hash_values set_output set_deferred set_sha_state]. rewrite (same_words_ok 8 0) by (done || (rewrite Hh; apply length_hash_blocks)).
    cbn [mbind outcome_bind].
    destruct (reset_idle (set_output (set_deferred (set_sha_state s ShaIdle) false) None) Hc Hb eq_refl eq_refl) as (s2 & E2 & R2 & C2 & I2 & O2).
    rewrite E2. cbn [mbind outcome_bind]. unfold tell. rewrite C2, Hh. change (4 * 0)%nat with 0%nat. rewrite !drop_0.
    eexists. split; [reflexivity|]. specialize (R2 (input_data s2) (output_data s2)). by destruct s2.
  - rewrite E1. cbn [mbind outcome_bind]. rewrite I1. cbn [input_data set_deferred set_sha_state]. rewrite Hrest. cbn [unwrap mbind outcome_bind].
    unfold tell. cbn [sha_client set_input]. rewrite C1. eexists. split; [reflexivity|]. specialize (R1 None (output_data s1)). by destruct s1.
  - rewrite E1. cbn [mbind outcome_bind]. rewrite O1. cbn [output_data set_deferred set_sha_state]. rewrite Hrest. cbn [unwrap mbind outcome_bind].
    unfold tell. cbn [sha_client set_output]. rewrite C1. eexists. split; [reflexivity|]. specialize (R1 (input_data s1) None). by destruct s1.
  - rewrite E1. cbn [mbind outcome_bind]. rewrite O1. cbn [output_data set_deferred set_sha_state]. rewrite Hrest. cbn [unwrap mbind outcome_bind].
    unfold tell. cbn [sha_client set_output]. rewrite C1. eexists. split; [reflexivity|]. specialize (R1 (input_data s1) None). by destruct s1.
Qed.

Lemma sized_step a op : sized a → op_ok a op → sized (hasher_step a op).1.1.
Proof. intros Ha Hop. destruct op, a; cbn in *; try done; try lia; apply Hop. Qed.

(** The software hasher in the release profile meets the interface. *)
#[export, refine] Instance sha_hasher : Hasher Sha256Software := {
  h_op := sha_op false;
  h_abs s a := sha_abs s a ∧ sized a;
  h_set_mode s := (s, sha_set_mode s)
}.
Proof.
  2: by intros s a Ha.
  intros s a op [Ha Hsz] Hop. pose proof (sized_step a op Hsz Hop) as Hsz'. destruct op as [data| |d|c|].
  - destruct (sha_add_sim s a data Ha Hop) as (s' & E & Ha'). exists s'. by destruct a.
  - destruct (sha_clear_sim s a Ha) as (s' & E & Ha'). by exists s'.
  - destruct (sha_run_sim s a d Ha Hsz Hop) as (s' & E & Ha'). exists s'. by destruct a.
  - destruct (sha_verify_sim s a c Ha Hsz Hop) as (s' & E & Ha'). exists s'. by destruct a.
  - destruct (sha_deferred_sim s a Ha) as (s' & E & Ha'). exists s'. by destruct a.
Defined.

Lemma sha_new_abs : ∃ s, Sha256Software_new = Ret s ∧ sha_abs (sha_set_client s) (HIdle []).
Proof.
  destruct (initialize_ok (mkSha ShaIdle false None (replicate 64 0) 0 0 None (replicate 8 0) false) eq_refl) as (s & E & Habs & Hb & S & F1 & F2 & F3 & F4).
  exists s. split; [done|]. unfold sha_abs. cbn. split_and!; [done..|]. by eapply absorbed_frame, Habs.
Qed.

(** ** Theorems *)

(** C12.  In the release profile the software hasher implements the abstract hasher of
    the digest interface: any sequence of calls and deferred callbacks, with any
    buffers, requests while busy and cancellations in any state, is answered
    and reported exactly as by a machine that keeps the message and applies the
    SHA-256 of FIPS 180-4 to it, and never panics. *)
Theorem sha256_refines_hasher (ops : list HashOp) : ops_ok (HIdle []) ops →
  ∃ s s', Sha256Software_new = Ret s ∧ h_run (sha_set_client s) ops = Ret (s', (hasher_run (HIdle []) ops).2).
Proof.
  intros Hok. destruct sha_new_abs as (s & E & Ha). exists s.
  destruct (h_run_sim ops (sha_set_client s) (HIdle [])) as (s' & E' & _); [by split; [|vm_compute]|exact Hok|].
  exists s'. split; [exact E|exact E'].
Qed.

Definition sample_buffer : SubSliceMutImmut Z := Immutable (SubSlice_new [97; 98; 99]).

(** Data while busy, a cancellation, and a digest of the empty message. *)
Definition sample_ops : list HashOp :=
  [OpAdd sample_buffer; OpAdd sample_buffer; OpClear; OpDeferred; OpVerify (SHA256 []); OpDeferred; OpRun (replicate 32 0); OpDeferred].

Lemma sha256_refines_hasher_witness :
  ∃ s s', Sha256Software_new = Ret s ∧ h_run (sha_set_client s) sample_ops = Ret (s', (hasher_run (HIdle []) sample_ops).2).
Proof.
  apply (sha256_refines_hasher sample_ops). vm_compute.
  repeat first [split|apply Forall_cons|apply Forall_nil]; try discriminate; try reflexivity; exact I.
Defined.

(** A message handed over in pieces, each reported before the next. *)
Definition pieces_ops (pieces : list (SubSliceMutImmut Z)) (digest : list Z) : list HashOp :=
  (pieces ≫= λ p, [OpAdd p; OpDeferred]) ++ [OpRun digest; OpDeferred].

Lemma pieces_ok pieces digest m : length digest = 32%nat → Forall range_wf pieces → Forall (λ p, Forall byte (bytes_of p)) pieces →
  8 * zlen (m ++ (pieces ≫= bytes_of)) < usize_bound → ops_ok (HIdle m) (pieces_ops pieces digest).
Proof.
  intros Hd Hwf. revert m. induction Hwf as [|p pieces Hp Hwf IH]; intros m Hby Hlen; [by cbn|].
  apply Forall_cons in Hby as [Hb Hby]. cbn [mbind list_bind] in Hlen. rewrite app_assoc in Hlen. cbn. split_and!; [done|done| |done|].
  - rewrite zlen_app in Hlen. pose proof (zlen_nonneg (pieces ≫= bytes_of)). unfold mbind in *. lia.
  - by apply IH.
Qed.

Lemma pieces_run pieces digest m :
  last (hasher_run (HIdle m) (pieces_ops pieces digest)).2 = Some (Accepted, [HashDone (Ok tt) (SHA256 (m ++ (pieces ≫= bytes_of)))]).
Proof.
  revert m. induction pieces as [|p pieces IH]; intros m; [cbn; by rewrite app_nil_r|].
  unfold pieces_ops. cbn [mbind list_bind app hasher_run hasher_step].
  specialize (IH (m ++ bytes_of p)). unfold pieces_ops in IH. rewrite app_assoc.
  destruct (hasher_run (HIdle (m ++ bytes_of p)) _) as [a out]. cbn [fst snd] in *.
  change (pieces ≫= bytes_of) with (list_bind _ _ bytes_of pieces) in IH. destruct out as [|x out]; [done|]. cbn [last] in *. done.
Qed.

(** In the release profile and below 512 MiB the digest depends only on the
    message: whatever pieces it is handed over
    in, empty ones included, and whatever the buffer for the digest held, the
    last callback of the run carries the SHA-256 of the concatenation. *)
Theorem sha256_of_pieces (pieces : list (SubSliceMutImmut Z)) (digest : list Z) :
  length digest = 32%nat → Forall range_wf pieces → Forall (λ p, Forall byte (bytes_of p)) pieces →
  8 * zlen (pieces ≫= bytes_of) < usize_bound →
  ∃ s s' out, Sha256Software_new = Ret s ∧ h_run (sha_set_client s) (pieces_ops pieces digest) = Ret (s', out) ∧
    last out = Some (Accepted, [HashDone (Ok tt) (SHA256 (pieces ≫= bytes_of))]).
Proof.
  intros Hd Hwf Hby Hlen. destruct sha_new_abs as (s & E & Ha).
  destruct (h_run_sim (pieces_ops pieces digest) (sha_set_client s) (HIdle [])) as (s' & E' & _); [by split; [|vm_compute]|by apply pieces_ok|].
  exists s, s', (hasher_run (HIdle []) (pieces_ops pieces digest)).2. split_and!; [done|done|]. apply (pieces_run pieces digest []).
Qed.

Lemma sha256_of_pieces_witness : ∃ s s' out, Sha256Software_new = Ret s ∧
  h_run (sha_set_client s) (pieces_ops [sample_buffer; Mutable (mkSubSliceMut (replicate 100 7) (mkRange 10 90))] (replicate 32 0)) = Ret (s', out) ∧
  last out = Some (Accepted, [HashDone (Ok tt) (SHA256 ([97; 98; 99] ++ replicate 80 7))]).
Proof.
  apply (sha256_of_pieces [sample_buffer; Mutable (mkSubSliceMut (replicate 100 7) (mkRange 10 90))] (replicate 32 0)).
  - reflexivity.
  - repeat (apply Forall_cons; split; [vm_compute; repeat split; discriminate|]). apply Forall_nil. exact I.
  - repeat (apply Forall_cons; split); try apply Forall_nil; apply (bool_decide_unpack _); vm_compute; exact I.
  - vm_compute. reflexivity.
Defined.

(** ** The dev profile *)

Lemma round_panics w : compress_round true w 0 initial_hashes = Panic.
Proof.
  unfold compress_round.
  repeat match goal with |- context [index_get initial_hashes ?i ≫= _] =>
    let v := eval vm_compute in (index_get initial_hashes i) in change (index_get initial_hashes i) with v; cbn [mbind outcome_bind] end.
  destruct (index_get ROUND_CONSTANTS 0) as [k|]; [|done]. cbn [mbind outcome_bind]. destruct (index_get w 0) as [x|]; [|done]. cbn [mbind outcome_bind].
  do 4 (match goal with |- context [plain_add true ?a ?b ≫= _] => destruct (plain_add true a b) end; [|done]; cbn [mbind outcome_bind]).
  match goal with |- context [plain_add true ?a ?b] => replace (plain_add true a b) with (@Panic Z) by (vm_compute; reflexivity) end. done.
Qed.

#[local] Transparent compute_buffer.
Lemma compute_buffer_panics b : compute_buffer true initial_hashes b = Panic.
Proof.
  unfold compute_buffer, perform_sha. destruct (for_range 16 _ _ _) as [w|]; [|done]. cbn [mbind outcome_bind].
  destruct (for_range 48 _ _ _) as [w'|]; [|done]. cbn [mbind outcome_bind for_range]. by rewrite round_panics.
Qed.
#[local] Opaque compute_buffer.

Lemma flush_block_panics s b : hash_values s = initial_hashes → flush_block true s b = Panic.
Proof. intros Hh. unfold flush_block, compute_block. by rewrite Hh, compute_buffer_panics. Qed.

Lemma complete_panics s : hash_values s = initial_hashes → complete_sha256 true s = Panic.
Proof.
  intros Hh. unfold complete_sha256. destruct (buffered_length s =? 64); [by rewrite flush_block_panics|]. cbn [mbind outcome_bind].
  match goal with |- context [(if ?c then ?x else ?y) ≫= _] => destruct (if c then x else y) as [b|]; [|done] end. cbn [mbind outcome_bind].
  destruct (56 <? buffered_length s + 1); cbn [mbind outcome_bind].
  { destruct (zero_from _ _) as [b'|]; [|done]. cbn [mbind outcome_bind]. by rewrite flush_block_panics. }
  destruct (plain_mul _ _ _) as [L|]; [|done]. cbn [mbind outcome_bind]. destruct (put_length _ _) as [b'|]; [|done]. cbn [mbind outcome_bind].
  unfold compute_block. by rewrite Hh, compute_buffer_panics.
Qed.

Lemma compute_blocks_dev fuel data h data' : compute_blocks fuel true initial_hashes data = Ret (h, data') → h = initial_hashes.
Proof.
  destruct fuel as [|fuel]; cbn [compute_blocks]; intros E; apply outcome_bind_Ret in E as (n & _ & E); destruct (64 <=? n); try done;
    [by injection E as <- _| |by injection E as <- _].
  apply outcome_bind_Ret in E as (b & _ & E). rewrite compute_buffer_panics in E. done.
Qed.

Lemma compute_sha256_dev s s' : hash_values s = initial_hashes → compute_sha256 true s = Ret s' →
  hash_values s' = initial_hashes ∧ sha_state s' = sha_state s.
Proof.
  intros Hh. unfold compute_sha256. destruct (input_data s) as [data|]; [|by intros [= <-]]. cbv zeta. intros E.
  apply outcome_bind_Ret in E as (n & _ & E). apply outcome_bind_Ret in E as (total & _ & E).
  apply outcome_bind_Ret in E as ([[s1 d1] bl1] & E1 & E). cbv beta iota in E. apply outcome_bind_Ret in E as ([[s2 d2] bl2] & E2 & E).
  assert (H1 : hash_values s1 = initial_hashes ∧ sha_state s1 = sha_state s).
  { destruct (negb _); [|by injection E1 as <- _ _]. unfold fill_block in E1.
    apply outcome_bind_Ret in E1 as (sum & _ & E1). cbv zeta in E1. apply outcome_bind_Ret in E1 as (b & _ & E1). apply outcome_bind_Ret in E1 as (d & _ & E1).
    destruct (_ =? SHA_BLOCK_LEN_BYTES); [|by injection E1 as <- _ _]. cbn [hash_values set_block set_lengths set_input] in E1.
    unfold compute_block in E1. by rewrite Hh, compute_buffer_panics in E1. }
  destruct H1 as [Hh1 Hst1]. unfold hash_rest in E2. rewrite Hh1 in E2. apply outcome_bind_Ret in E2 as ([h d3] & Eb & E2).
  apply compute_blocks_dev in Eb as ->. cbv beta iota zeta in E2. apply outcome_bind_Ret in E2 as (n3 & _ & E2).
  assert (H2 : hash_values s2 = initial_hashes ∧ sha_state s2 = sha_state s1).
  { destruct (negb (n3 =? 0)); [|by injection E2 as <- _ _]. apply outcome_bind_Ret in E2 as (b & _ & E2). apply outcome_bind_Ret in E2 as (d & _ & E2).
    by injection E2 as <- _ _. }
  injection E as <-. cbn. destruct H2 as [-> ->]. done.
Qed.

(** The calls of a client in the dev profile. *)
Fixpoint dev_run (s : Sha256Software) (ops : list HashOp) : outcome (Sha256Software * list DigestEvent) :=
  match ops with
  | [] => Ret (s, [])
  | op :: ops => '(s, _, evs) ← sha_op true s op; '(s, evs') ← dev_run s ops; Ret (s, evs ++ evs')
  end.

Definition is_digest_event (ev : DigestEvent) : bool :=
  match ev with HashDone (Ok _) _ | VerificationDone (Ok _) _ => true | _ => false end.

Lemma dev_step s op s' r evs : hash_values s = initial_hashes → sha_state s ∈ [ShaIdle; ShaData; ShaCancelData] →
  sha_op true s op = Ret (s', r, evs) →
  hash_values s' = initial_hashes ∧ sha_state s' ∈ [ShaIdle; ShaData; ShaCancelData] ∧ existsb is_digest_event evs = false.
Proof.
  intros Hh Hst E. destruct op as [data| |d|c|]; unfold sha_op in E.
  - apply outcome_bind_Ret in E as ([s1 r1] & E1 & [= <- _ <-]). unfold sha_add in E1. destruct (busy s); [by injection E1 as <- _|].
    apply outcome_bind_Ret in E1 as (s2 & E2 & [= <- _]). apply compute_sha256_dev in E2 as [-> ->]; [|done]. cbn. set_solver.
  - apply outcome_bind_Ret in E as (s1 & E1 & [= <- _ <-]). unfold clear_data, initialize in E1.
    apply outcome_bind_Ret in E1 as (b & _ & [= <-]). cbn. split_and!; [done| |done]. destruct (sha_state s); set_solver.
  - apply outcome_bind_Ret in E as ([s1 r1] & E1 & [= <- _ <-]). unfold sha_run in E1. destruct (busy s); [by injection E1 as <- _|].
    rewrite complete_panics in E1; done.
  - apply outcome_bind_Ret in E as ([s1 r1] & E1 & [= <- _ <-]). unfold sha_verify in E1. destruct (busy s); [by injection E1 as <- _|].
    rewrite complete_panics in E1; done.
  - destruct (deferred_call s); [|by injection E as <- _ <-]. apply outcome_bind_Ret in E as ([s1 ev1] & E1 & [= <- _ <-]).
    unfold handle_deferred_call in E1. cbv zeta in E1. destruct (sha_state s) eqn:Es; try (exfalso; set_solver).
    + injection E1 as <- <-. cbn. split_and!; [done|set_solver|done].
    + apply outcome_bind_Ret in E1 as (data & _ & [= <- <-]). cbn. split_and!; [done|set_solver|]. unfold tell. destruct (sha_client _); [|done]. by destruct data.
    + apply outcome_bind_Ret in E1 as (s2 & E2 & E1). unfold clear_data, initialize in E2. apply outcome_bind_Ret in E2 as (b & _ & [= <-]).
      apply outcome_bind_Ret in E1 as (data & _ & [= <- <-]). cbn. split_and!; [done|set_solver|]. unfold tell. destruct (sha_client _); [|done]. by destruct data.
Qed.

Lemma dev_run_inv ops s s' evs : hash_values s = initial_hashes → sha_state s ∈ [ShaIdle; ShaData; ShaCancelData] →
  dev_run s ops = Ret (s', evs) → hash_values s' = initial_hashes ∧ existsb is_digest_event evs = false.
Proof.
  revert s evs. induction ops as [|op ops IH]; intros s evs Hh Hst E; [by injection E as <- <-|].
  cbn [dev_run] in E. apply outcome_bind_Ret in E as ([[s1 r1] ev1] & E1 & E). apply outcome_bind_Ret in E as ([s2 ev2] & E2 & [= <- <-]).
  destruct (dev_step s op s1 r1 ev1 Hh Hst E1) as (Hh1 & Hst1 & Hev1). rewrite existsb_app, Hev1. by apply (IH s1 ev2).
Qed.

(** Built with the dev profile the hasher never produces a digest: the first
    block of any message is compressed from the standard's initial values, for
    which the sum of the first round overflows whatever the data, and the code
    adds without [wrapping_add].  So no sequence of calls reports a digest or a
    verification, and the next call that asks an idle hasher for one panics. *)
Theorem dev_profile_never_hashes (ops : list HashOp) s s' evs :
  Sha256Software_new = Ret s → dev_run (sha_set_client s) ops = Ret (s', evs) →
  existsb is_digest_event evs = false ∧
  (busy s' = false → ∀ d, sha_run true s' d = Panic ∧ sha_verify true s' d = Panic).
Proof.
  intros E0 E. unfold Sha256Software_new, initialize in E0. apply outcome_bind_Ret in E0 as (b & _ & [= <-]).
  apply dev_run_inv in E as [Hh Hev]; [|done|set_solver]. split; [done|]. intros Hb d. unfold sha_run, sha_verify. rewrite Hb.
  by rewrite !complete_panics.
Qed.

Lemma dev_profile_never_hashes_witness : ∃ s s' evs, Sha256Software_new = Ret s ∧
  dev_run (sha_set_client s) [OpAdd sample_buffer; OpDeferred] = Ret (s', evs) ∧ evs = [data_done (Ok tt) (advance sample_buffer 3)] ∧
  existsb is_digest_event evs = false ∧ sha_run true s' (replicate 32 0) = Panic.
Proof.
  eexists _, _, _. split; [vm_compute; reflexivity|]. split; [vm_compute; reflexivity|]. split; [reflexivity|].
  edestruct (dev_profile_never_hashes [OpAdd sample_buffer; OpDeferred]) as [H1 H2]; [vm_compute; reflexivity..|].
  destruct (H2 ltac:(vm_compute; reflexivity) (replicate 32 0)) as [H3 _]. split; [exact H1|exact H3].
Defined.
