(* ===== verification/Hmac.v ===== *)
(** * HMAC-SHA256 (capsules/extra/src/hmac_sha256.rs)

    [HmacSha256Software] drives a hasher: the key with the inner pad, the data,
    a digest, then the key with the outer pad, that digest, and the final digest,
    each step from a callback of the hasher.  The hasher is any implementation of
    the interface of Hasher.v; its callbacks are the last thing its deferred call
    does, so that what the capsule does in them comes after.

    Theorems: with a key and at least one piece of data the digest is the HMAC of
    FIPS 198-1 for every way to cut the message, and [verify] compares with it;
    without data the key never enters the inner hash; a cancellation while the
    key is being added loses the buffer for good. *)

From S2P Require Import Prelude Bytes Syscall LeasableBuffer Sha256 Hasher Sha256Theorems.

(** ** State *)

Inductive HmacState : Type :=
| HmIdle | InnerHashAddKeyPending | InnerHashAddKey | InnerHashAddData | InnerHash | OuterHashAddKey | OuterHashAddHash | OuterHash.

Inductive RunMode : Type := ModeHash | ModeVerify.

Definition INNER_PAD_BYTE : Z := 0x36.
Definition OUTER_PAD_BYTE : Z := 0x5c.

(** [HmacSha256Software]; the hasher is next to it in [HmacSys], and
    [hm_client] is whether a client is set. *)
Record HmacSha256Software := mkHmac {
  hm_state : HmacState;
  hm_mode : RunMode;
  hm_input : option (SubSliceMutImmut Z);
  hm_buffer : option (list Z);
  hm_key : list Z;
  hm_digest : option (list Z);
  hm_verify : option (list Z);
  hm_client : bool
}.

Definition Hmac_new (data_buffer verify_buffer : list Z) : HmacSha256Software :=
  mkHmac HmIdle ModeHash None (Some data_buffer) (replicate 64 0) None (Some verify_buffer) false.

Definition set_hm_state (h : HmacSha256Software) (x : HmacState) : HmacSha256Software :=
  mkHmac x (hm_mode h) (hm_input h) (hm_buffer h) (hm_key h) (hm_digest h) (hm_verify h) (hm_client h).
Definition set_hm_mode (h : HmacSha256Software) (x : RunMode) : HmacSha256Software :=
  mkHmac (hm_state h) x (hm_input h) (hm_buffer h) (hm_key h) (hm_digest h) (hm_verify h) (hm_client h).
Definition set_hm_input (h : HmacSha256Software) (x : option (SubSliceMutImmut Z)) : HmacSha256Software :=
  mkHmac (hm_state h) (hm_mode h) x (hm_buffer h) (hm_key h) (hm_digest h) (hm_verify h) (hm_client h).
Definition set_hm_buffer (h : HmacSha256Software) (x : option (list Z)) : HmacSha256Software :=
  mkHmac (hm_state h) (hm_mode h) (hm_input h) x (hm_key h) (hm_digest h) (hm_verify h) (hm_client h).
Definition set_hm_key (h : HmacSha256Software) (x : list Z) : HmacSha256Software :=
  mkHmac (hm_state h) (hm_mode h) (hm_input h) (hm_buffer h) x (hm_digest h) (hm_verify h) (hm_client h).
Definition set_hm_digest (h : HmacSha256Software) (x : option (list Z)) : HmacSha256Software :=
  mkHmac (hm_state h) (hm_mode h) (hm_input h) (hm_buffer h) (hm_key h) x (hm_verify h) (hm_client h).
Definition set_hm_verify (h : HmacSha256Software) (x : option (list Z)) : HmacSha256Software :=
  mkHmac (hm_state h) (hm_mode h) (hm_input h) (hm_buffer h) (hm_key h) (hm_digest h) x (hm_client h).
Definition hmac_set_client (h : HmacSha256Software) : HmacSha256Software :=
  mkHmac (hm_state h) (hm_mode h) (hm_input h) (hm_buffer h) (hm_key h) (hm_digest h) (hm_verify h) true.

(** ** Operations *)

Section hmac.
Context {S : Type} `{Hasher S}.

(** The capsule and the hasher below it. *)
Record HmacSys := mkSys { hm : HmacSha256Software; hs : S }.

Definition report (h : HmacSha256Software) (ev : DigestEvent) : list DigestEvent := if hm_client h then [ev] else [].

(** [for i in 0..64 { data_buf[i] = key_buf[i] ^ pad }]. *)
Definition pad_key (pad : Z) (key : list Z) (data_buf : list Z) : outcome (list Z) :=
  for_range 64 0 (λ i b, k ← index_get key i; index_set b i (Z.lxor k pad)) data_buf.

(** [SubSliceMut::new(data_buf)] with the window [0..n]. *)
Definition lease (data_buf : list Z) (n : Z) : outcome (SubSliceMutImmut Z) :=
  SubSliceMutImmut_slice (Included 0) (Excluded n) (Mutable (SubSliceMut_new data_buf)).

(** [leased.take()]. *)
Definition take_buffer (data : SubSliceMutImmut Z) : list Z := (parts data).1.

(** [add_data] and [add_mut_data], which differ in the kind of the buffer. *)
Definition hmac_add (y : HmacSys) (data : SubSliceMutImmut Z) : outcome (HmacSys * result unit (ErrorCode * SubSliceMutImmut Z)) :=
  let h := hm y in
  match hm_state h with
  | InnerHashAddKeyPending =>
      match hm_buffer h with
      | Some data_buf =>
          let h := set_hm_buffer h None in
          data_buf ← pad_key INNER_PAD_BYTE (hm_key h) data_buf;
          lease_buf ← lease data_buf 64;
          '(s, r) ← h_add (hs y) lease_buf;
          match r with
          | Ok _ => Ret (mkSys (set_hm_input (set_hm_state h InnerHashAddKey) (Some data)) s, Ok tt)
          | Err (e, leased) => Ret (mkSys (set_hm_buffer h (Some (take_buffer leased))) s, Err (e, data))
          end
      | None => Ret (y, Err (BUSY, data))
      end
  | InnerHashAddData => '(s, r) ← h_add (hs y) data; Ret (mkSys h s, r)
  | HmIdle => Ret (y, Err (OFF, data))
  | _ => Ret (y, Err (BUSY, data))
  end.

Definition hmac_clear (y : HmacSys) : outcome HmacSys :=
  s ← h_clear (hs y); Ret (mkSys (set_hm_state (hm y) HmIdle) s).

Definition hmac_run (y : HmacSys) (digest : list Z) : outcome (HmacSys * result unit (ErrorCode * list Z)) :=
  let h := set_hm_mode (set_hm_state (hm y) InnerHash) ModeHash in
  '(s, r) ← h_hash (hs y) digest; Ret (mkSys h s, r).

Definition hmac_verify (y : HmacSys) (compare : list Z) : outcome (HmacSys * result unit (ErrorCode * list Z)) :=
  let h := set_hm_mode (set_hm_state (hm y) InnerHash) ModeVerify in
  digest ← unwrap (hm_verify h);
  let h := set_hm_verify h (Some compare) in
  '(s, r) ← h_hash (hs y) digest; Ret (mkSys h s, r).

(** [key_buf[i] = *key.get(i).unwrap_or(&0)]. *)
Definition hmac_set_mode (y : HmacSys) (key : list Z) : outcome (HmacSys * result unit ErrorCode) :=
  if SHA_BLOCK_LEN_BYTES <? zlen key then Ret (y, Err SIZE)
  else
    k ← for_range 64 0 (λ i b, index_set b i (default 0 (key !! Z.to_nat i))) (hm_key (hm y));
    let h := set_hm_key (hm y) k in
    let '(s, r) := h_set_mode (hs y) in
    match r with
    | Ok _ => Ret (mkSys (set_hm_state h InnerHashAddKeyPending) s, Ok tt)
    | Err e => Ret (mkSys h s, Err e)
    end.

(** ** Callbacks of the hasher *)

Definition hash_done_error (h : HmacSha256Software) (error : result unit ErrorCode) (digest : list Z)
  : outcome (HmacSha256Software * list DigestEvent) :=
  match hm_mode h with
  | ModeHash => Ret (h, report h (HashDone error digest))
  | ModeVerify =>
      compare ← unwrap (hm_verify h);
      let h := set_hm_verify h (Some digest) in
      Ret (h, report h (VerificationDone (match error with Ok _ => Ok false | Err e => Err e end) compare))
  end.

(** The stored data of the client, once the key is in. *)
Definition add_stored (y : HmacSys) : outcome (HmacSys * list DigestEvent) :=
  match hm_input (hm y) with
  | None => Ret (y, [])
  | Some in_data =>
      let h := set_hm_input (hm y) None in
      '(s, r) ← h_add (hs y) in_data;
      match r with
      | Ok _ => Ret (mkSys (set_hm_state h InnerHashAddData) s, [])
      | Err (e, leased) => y ← hmac_clear (mkSys h s); Ret (y, report (hm y) (data_done (Err e) leased))
      end
  end.

(** The digest of the inner hash, once the outer key is in. *)
Definition add_inner_digest (y : HmacSys) (data : SubSliceMut Z) : outcome (HmacSys * list DigestEvent) :=
  match hm_digest (hm y) with
  | None => Ret (y, [])
  | Some digest_buf =>
      let h := set_hm_digest (hm y) None in
      d32 ← index_range digest_buf (mkRange 0 32);
      data_buf ← splice (SubSliceMut_take data) 0 d32;
      lease_buf ← lease data_buf 32;
      '(s, r) ← h_add (hs y) lease_buf;
      match r with
      | Ok _ => Ret (mkSys (set_hm_digest (set_hm_state h OuterHashAddHash) (Some digest_buf)) s, [])
      | Err (e, leased) =>
          y ← hmac_clear (mkSys (set_hm_buffer h (Some (take_buffer leased))) s);
          Ret (y, report (hm y) (HashDone (Err e) digest_buf))
      end
  end.

Definition hash_outer (y : HmacSys) (data : SubSliceMut Z) : outcome (HmacSys * list DigestEvent) :=
  let h := set_hm_buffer (hm y) (Some (SubSliceMut_take data)) in
  match hm_digest h with
  | None => Ret (mkSys h (hs y), [])
  | Some digest_buf =>
      let h := set_hm_digest h None in
      '(s, r) ← h_hash (hs y) digest_buf;
      match r with
      | Ok _ => Ret (mkSys (set_hm_state h OuterHash) s, [])
      | Err (e, digest) => y ← hmac_clear (mkSys h s); Ret (y, report (hm y) (HashDone (Err e) digest))
      end
  end.

Definition hmac_add_mut_data_done (y : HmacSys) (r : result unit ErrorCode) (data : SubSliceMut Z) : outcome (HmacSys * list DigestEvent) :=
  if result_is_err r then Ret (y, report (hm y) (AddMutDataDone r data))
  else
    match hm_state (hm y) with
    | InnerHashAddKey => add_stored (mkSys (set_hm_buffer (hm y) (Some (SubSliceMut_take data))) (hs y))
    | OuterHashAddKey => add_inner_digest y data
    | OuterHashAddHash => hash_outer y data
    | _ => Ret (y, report (hm y) (AddMutDataDone (Ok tt) data))
    end.

(** The key with the outer pad, once the inner hash is done. *)
Definition add_outer_key (y : HmacSys) (digest : list Z) : outcome (HmacSys * list DigestEvent) :=
  s ← h_clear (hs y);
  let h := hm y in
  match hm_buffer h with
  | None => Ret (mkSys h s, [])
  | Some data_buf =>
      let h := set_hm_buffer h None in
      data_buf ← pad_key OUTER_PAD_BYTE (hm_key h) data_buf;
      lease_buf ← lease data_buf 64;
      '(s, r) ← h_add s lease_buf;
      match r with
      | Ok _ => Ret (mkSys (set_hm_digest (set_hm_state h OuterHashAddKey) (Some digest)) s, [])
      | Err (e, leased) =>
          y ← hmac_clear (mkSys (set_hm_buffer h (Some (take_buffer leased))) s);
          '(h, evs) ← hash_done_error (hm y) (Err e) digest; Ret (mkSys h (hs y), evs)
      end
  end.

Definition hmac_hash_done (y : HmacSys) (r : result unit ErrorCode) (digest : list Z) : outcome (HmacSys * list DigestEvent) :=
  if result_is_err r then
    y ← hmac_clear y; '(h, evs) ← hash_done_error (hm y) r digest; Ret (mkSys h (hs y), evs)
  else
    match hm_state (hm y) with
    | InnerHash => add_outer_key y digest
    | OuterHash =>
        let h := hm y in
        match hm_mode h with
        | ModeHash => Ret (y, report h (HashDone (Ok tt) digest))
        | ModeVerify =>
            compare ← unwrap (hm_verify h);
            let res := bool_decide (compare = digest) in
            let h := set_hm_verify h (Some digest) in
            Ret (mkSys h (hs y), report h (VerificationDone (Ok res) compare))
        end
    | _ => Ret (y, [])
    end.

Definition hmac_callback (y : HmacSys) (ev : DigestEvent) : outcome (HmacSys * list DigestEvent) :=
  match ev with
  | AddDataDone r data => Ret (y, report (hm y) (AddDataDone r data))
  | AddMutDataDone r data => hmac_add_mut_data_done y r data
  | HashDone r digest => hmac_hash_done y r digest
  | VerificationDone _ _ => Ret (y, [])
  end.

Fixpoint hmac_callbacks (y : HmacSys) (evs : list DigestEvent) : outcome (HmacSys * list DigestEvent) :=
  match evs with
  | [] => Ret (y, [])
  | ev :: evs => '(y, out) ← hmac_callback y ev; '(y, out') ← hmac_callbacks y evs; Ret (y, out ++ out')
  end.

(** The deferred call of the hasher. *)
Definition hmac_deferred (y : HmacSys) : outcome (HmacSys * list DigestEvent) :=
  '(s, _, evs) ← h_op (hs y) OpDeferred; hmac_callbacks (mkSys (hm y) s) evs.

(** ** Calls of the client *)

Inductive HmacOp : Type :=
| HSetKey (key : list Z)
| HAdd (data : SubSliceMutImmut Z)
| HRun (digest : list Z)
| HVerify (compare : list Z)
| HClear
| HDeferred.

(** Whether the call was accepted, and the callbacks. *)
Definition hmac_step (y : HmacSys) (op : HmacOp) : outcome (HmacSys * bool * list DigestEvent) :=
  match op with
  | HSetKey key => '(y, r) ← hmac_set_mode y key; Ret (y, negb (result_is_err r), [])
  | HAdd data => '(y, r) ← hmac_add y data; Ret (y, negb (result_is_err r), [])
  | HRun digest => '(y, r) ← hmac_run y digest; Ret (y, negb (result_is_err r), [])
  | HVerify compare => '(y, r) ← hmac_verify y compare; Ret (y, negb (result_is_err r), [])
  | HClear => y ← hmac_clear y; Ret (y, true, [])
  | HDeferred => '(y, evs) ← hmac_deferred y; Ret (y, true, evs)
  end.

Fixpoint hmac_steps (y : HmacSys) (ops : list HmacOp) : outcome (HmacSys * list (bool * list DigestEvent)) :=
  match ops with
  | [] => Ret (y, [])
  | op :: ops => '(y, ok, evs) ← hmac_step y op; '(y, out) ← hmac_steps y ops; Ret (y, (ok, evs) :: out)
  end.

End hmac.
Arguments HmacSys S : clear implicits.
