(* ===== verification/HmacTheorems.v ===== *)
(** * The HMAC capsule computes HMAC-SHA256

    Against FIPS 198-1 (Hasher.v) and over any hasher of the interface. *)

From S2P Require Import Prelude Bytes Syscall LeasableBuffer Sha256 Hasher Sha256Theorems Hmac.

(** ** Buffers *)

Lemma lxor_is_byte a b : byte a → byte b → byte (Z.lxor a b).
Proof.
  intros Ha Hb. unfold byte in *. split; [apply Z.lxor_nonneg; lia|].
  destruct (Z.eq_dec (Z.lxor a b) 0) as [->|Hn]; [lia|]. pose proof (proj2 (Z.lxor_nonneg a b) ltac:(lia)).
  apply (Z.log2_lt_pow2 _ 8); [lia|]. pose proof (Z.log2_lxor a b ltac:(lia) ltac:(lia)).
  assert (L : ∀ x, 0 ≤ x < 256 → Z.log2 x < 8); [|pose proof (L a ltac:(lia)); pose proof (L b ltac:(lia)); lia].
  intros x Hx. destruct (Z.eq_dec x 0) as [->|]; [cbn; lia|]. apply Z.log2_lt_pow2; lia.
Qed.

(** The key with a pad, as the capsule hands it to the hasher. *)
Definition padded (pad : Z) (k : list Z) : list Z := Z.lxor pad <$> k.

Lemma padded_ok pad k : byte pad → length k = 64%nat → Forall byte k → length (padded pad k) = 64%nat ∧ Forall byte (padded pad k).
Proof.
  intros Hp Hk Hb. unfold padded. rewrite length_fmap. split; [done|]. apply Forall_fmap. eapply Forall_impl; [exact Hb|].
  intros x Hx. by apply lxor_is_byte.
Qed.

Lemma pad_key_ok pad k b : length k = 64%nat → (64 ≤ length b)%nat → pad_key pad k b = Ret (padded pad k ++ drop 64 b).
Proof.
  intros Hk Hb. unfold pad_key. pose proof (for_range_fun (λ i, padded pad (take i k) ++ drop i b) 64 0 (λ i b, x ← index_get k i; index_set b i (Z.lxor x pad))) as E.
  cbn beta in E. rewrite (take_ge k 64) in E by lia. rewrite take_0, drop_0 in E. apply E. intros i Hi. rewrite Z.add_0_l.
  destruct (lookup_lt_is_Some_2 k i ltac:(lia)) as [x Hx]. destruct (lookup_lt_is_Some_2 b i ltac:(lia)) as [y Hy].
  rewrite (bind_ret_eq _ _ x) by (unfold index_get; rewrite (proj2 (Z.ltb_ge _ _)), Nat2Z.id, Hx by lia; done).
  rewrite (drop_S b y i Hy). rewrite index_set_next by (unfold zlen, padded; rewrite length_fmap, length_take; lia).
  unfold padded. rewrite (take_S_r k i x Hx), fmap_app, <- app_assoc, Z.lxor_comm. done.
Qed.

Lemma lease_ok b n : 0 ≤ n ≤ zlen b → zlen b < usize_bound →
  lease b n = Ret (Mutable (mkSubSliceMut b (mkRange 0 n))) ∧ range_wf (Mutable (mkSubSliceMut b (mkRange 0 n))) ∧
  bytes_of (Mutable (mkSubSliceMut b (mkRange 0 n))) = take (Z.to_nat n) b.
Proof.
  intros Hn Hb. assert (Hwf : range_wf (Mutable (mkSubSliceMut b (mkRange 0 n)))) by (unfold range_wf; cbn; lia). split_and!; [|done|].
  - unfold lease. cbn [SubSliceMutImmut_slice]. unfold SubSliceMut_slice. rewrite (narrow_ok _ _ _ 0 n) by (done || (cbn; lia)). done.
  - pose proof (window_wf _ Hwf) as E. cbn in E. unfold bytes_of. rewrite E, drop_0, Z.sub_0_r. done.
Qed.

Lemma length_key_block key : (length key ≤ 64)%nat → length (key_block key) = 64%nat.
Proof. intros Hk. unfold key_block. rewrite length_app, length_replicate. lia. Qed.

Lemma key_block_byte key : Forall byte key → Forall byte (key_block key).
Proof. intros Hk. apply Forall_app_2; [done|apply byte_list_0]. Qed.

Lemma store_key_ok key k : (length key ≤ 64)%nat → length k = 64%nat →
  for_range 64 0 (λ i b, index_set b i (default 0 (key !! Z.to_nat i))) k = Ret (key_block key).
Proof.
  intros Hkey Hk. pose proof (for_range_fun (λ i, take i (key_block key) ++ drop i k) 64 0 (λ i b, index_set b i (default 0 (key !! Z.to_nat i)))) as E.
  pose proof (length_key_block key Hkey) as Hl. cbn beta in E. rewrite (take_ge (key_block key) 64), (drop_ge k 64), take_0, drop_0, app_nil_r in E by lia.
  apply E. intros i Hi. rewrite Z.add_0_l, Nat2Z.id. destruct (lookup_lt_is_Some_2 k i ltac:(lia)) as [y Hy]. rewrite (drop_S k y i Hy).
  rewrite index_set_next by (unfold zlen; rewrite length_take; lia).
  erewrite (take_S_r (key_block key) i); [by rewrite <- app_assoc|]. unfold key_block.
  destruct (Nat.lt_ge_cases i (length key)) as [Hlt|Hge].
  - rewrite lookup_app_l by done. destruct (lookup_lt_is_Some_2 key i Hlt) as [x ->]. done.
  - rewrite lookup_app_r, (lookup_ge_None_2 key) by lia. apply lookup_replicate. split; [done|lia].
Qed.

Lemma length_SHA256 m : length (SHA256 m) = 32%nat.
Proof. unfold SHA256. rewrite length_digest_bytes, length_hash_blocks. done. Qed.

Lemma SHA256_byte m : Forall byte (SHA256 m).
Proof.
  unfold SHA256. generalize (hash_blocks (pad m)). intros h. induction h as [|x h IH]; [by constructor|].
  rewrite digest_bytes_cons. apply Forall_app_2; [apply be_bytes_byte|done].
Qed.

(** ** Steps *)

Section steps.
Context {S : Type} `{Hasher S}.
Variables (key : list Z) (mode : RunMode) (ver : option (list Z)).
Hypothesis Hkey : (length key ≤ 64)%nat.
Hypothesis Hkb : Forall byte key.

Let k := key_block key.
Let Hk64 : length k = 64%nat := length_key_block key Hkey.
Let Hkbytes : Forall byte k := key_block_byte key Hkb.

(** The capsule with this key and mode. *)
Definition at_state (st : HmacState) (md : RunMode) (inp : option (SubSliceMutImmut Z)) (buf dig v : option (list Z)) : HmacSha256Software :=
  mkHmac st md inp buf k dig v true.

(** A buffer for the key and the inner digest. *)
Definition buffer_ok (b : list Z) : Prop := (64 ≤ length b)%nat ∧ zlen b < usize_bound ∧ Forall byte b.

Lemma key_leased pad b : byte pad → buffer_ok b →
  ∃ b' l, pad_key pad k b = Ret b' ∧ lease b' 64 = Ret l ∧ range_wf l ∧ bytes_of l = padded pad k ∧ Forall byte (bytes_of l) ∧
    buffer_ok b' ∧ ∃ r, advance l (zlen (bytes_of l)) = Mutable (mkSubSliceMut b' r).
Proof.
  intros Hp (Hl & Hu & Hb). destruct (padded_ok pad k Hp Hk64 Hkbytes) as [Hpl Hpb].
  exists (padded pad k ++ drop 64 b), (Mutable (mkSubSliceMut (padded pad k ++ drop 64 b) (mkRange 0 64))).
  assert (Hlen : zlen (padded pad k ++ drop 64 b) = zlen b) by (rewrite zlen_app; unfold zlen; rewrite Hpl, length_drop; lia).
  destruct (lease_ok (padded pad k ++ drop 64 b) 64) as (E & Hwf & Hbytes); [unfold zlen in *; lia|lia|].
  assert (Eb : bytes_of (Mutable (mkSubSliceMut (padded pad k ++ drop 64 b) (mkRange 0 64))) = padded pad k).
  { rewrite Hbytes. change (Z.to_nat 64) with 64%nat. by rewrite take_app_le, take_ge by lia. }
  split_and!; [by apply pad_key_ok|done|done|done|by rewrite Eb| |by eexists].
  split_and!; [unfold zlen in *; lia|lia|]. apply Forall_app_2; [done|by apply Forall_drop].
Qed.

Lemma hmac_set_key_ok h s a md inp buf dig v st : h_abs s a → h = mkHmac st md inp buf (hm_key h) dig v true → length (hm_key h) = 64%nat →
  ∃ s', hmac_step (mkSys h s) (HSetKey key) = Ret (mkSys (at_state InnerHashAddKeyPending md inp buf dig v) s', true, []) ∧ h_abs s' a.
Proof.
  intros Hs Hh Hl. destruct (h_set_mode_ok s a Hs) as [Er Hs']. unfold hmac_step, hmac_set_mode, SHA_BLOCK_LEN_BYTES. cbn [hm hs].
  rewrite (proj2 (Z.ltb_ge 64 (zlen key))) by (unfold zlen; lia). rewrite (bind_ret_eq _ _ _ (store_key_ok key (hm_key h) Hkey Hl)).
  destruct (h_set_mode s) as [s' r]. cbn [fst snd] in *. subst r. exists s'. split; [|done]. rewrite Hh. done.
Qed.

Lemma hmac_first_add s b data inp dig : h_abs s (HIdle []) → buffer_ok b →
  ∃ s' b' r, hmac_step (mkSys (at_state InnerHashAddKeyPending mode inp (Some b) dig ver) s) (HAdd data) =
      Ret (mkSys (at_state InnerHashAddKey mode (Some data) None dig ver) s', true, []) ∧
    h_abs s' (HData (padded INNER_PAD_BYTE k) (Mutable (mkSubSliceMut b' r))) ∧ buffer_ok b'.
Proof.
  intros Hs Hb. destruct (key_leased INNER_PAD_BYTE b ltac:(unfold byte, INNER_PAD_BYTE; lia) Hb) as (b' & l & Ep & El & Hwf & Ebytes & Hbytes & Hb' & r & Er).
  destruct (h_add_idle s [] l Hs Hwf Hbytes) as (s' & Ea & Hs'). { rewrite app_nil_l, Ebytes. unfold zlen, padded. rewrite length_fmap, Hk64. lia. }
  exists s', b', r. unfold hmac_step, hmac_add. cbn [hm hs hm_state hm_buffer hm_key at_state set_hm_buffer].
  rewrite (bind_ret_eq _ _ _ Ep), (bind_ret_eq _ _ _ El), (bind_ret_eq _ _ _ Ea). split_and!; [done| |done].
  rewrite app_nil_l, Er, Ebytes in Hs'. done.
Qed.

(** The deferred call with the callback that the hasher owes. *)
Lemma deferred_step h s a ev : h_abs s a → (hasher_step a OpDeferred).2 = [ev] →
  ∃ s', h_abs s' (hasher_step a OpDeferred).1.1 ∧
    hmac_step (mkSys h s) HDeferred = ('(y, out) ← hmac_callback (mkSys h s') ev; Ret (y, true, out)).
Proof.
  intros Hs Hev. destruct (h_deferred_ok s a Hs) as (s' & E & Hs'). exists s'. split; [done|].
  unfold hmac_step, hmac_deferred. cbn [hm hs]. rewrite E, Hev. cbn [mbind outcome_bind hmac_callbacks].
  destruct (hmac_callback _ _) as [[y out]|]; [|done]. cbn [mbind outcome_bind]. by rewrite app_nil_r.
Qed.

Lemma hmac_key_done s m b r data inp dig : h_abs s (HData m (Mutable (mkSubSliceMut b r))) → inp = Some data → range_wf data →
  Forall byte (bytes_of data) → 8 * zlen (m ++ bytes_of data) < usize_bound →
  ∃ s', hmac_step (mkSys (at_state InnerHashAddKey mode inp None dig ver) s) HDeferred =
      Ret (mkSys (at_state InnerHashAddData mode None (Some b) dig ver) s', true, []) ∧
    h_abs s' (HData (m ++ bytes_of data) (advance data (zlen (bytes_of data)))).
Proof.
  intros Hs -> Hwf Hb Hl. destruct (deferred_step (at_state InnerHashAddKey mode (Some data) None dig ver) s _ _ Hs eq_refl) as (s1 & Hs1 & ->).
  destruct (h_add_idle s1 m data Hs1 Hwf Hb Hl) as (s2 & E2 & Hs2). exists s2. split; [|done].
  cbn [hmac_callback data_done]. unfold hmac_add_mut_data_done. cbn [result_is_err hm hm_state at_state]. unfold add_stored.
  cbn [hm hs hm_input set_hm_buffer at_state]. rewrite E2. done.
Qed.

(** Data of the client: added, then reported. *)
Lemma hmac_next_add s m b data dig : h_abs s (HIdle m) → range_wf data → Forall byte (bytes_of data) → 8 * zlen (m ++ bytes_of data) < usize_bound →
  ∃ s', hmac_step (mkSys (at_state InnerHashAddData mode None (Some b) dig ver) s) (HAdd data) =
      Ret (mkSys (at_state InnerHashAddData mode None (Some b) dig ver) s', true, []) ∧
    h_abs s' (HData (m ++ bytes_of data) (advance data (zlen (bytes_of data)))).
Proof.
  intros Hs Hwf Hb Hl. destruct (h_add_idle s m data Hs Hwf Hb Hl) as (s' & E & Hs'). exists s'. split; [|done].
  unfold hmac_step, hmac_add. cbn [hm hs hm_state at_state]. by rewrite E.
Qed.

Lemma hmac_data_done s m b data dig : h_abs s (HData m data) →
  ∃ s', hmac_step (mkSys (at_state InnerHashAddData mode None (Some b) dig ver) s) HDeferred =
      Ret (mkSys (at_state InnerHashAddData mode None (Some b) dig ver) s', true, [data_done (Ok tt) data]) ∧ h_abs s' (HIdle m).
Proof.
  intros Hs. destruct (deferred_step (at_state InnerHashAddData mode None (Some b) dig ver) s _ _ Hs eq_refl) as (s' & Hs' & E).
  exists s'. split; [|done]. rewrite E. by destruct data.
Qed.

(** The three steps of the outer hash: the key goes in, then the inner digest,
    then the digest is asked for. *)
Lemma hmac_inner_done s d b inp dig : h_abs s (HHash d) → buffer_ok b →
  ∃ s' b' r, hmac_step (mkSys (at_state InnerHash mode inp (Some b) dig ver) s) HDeferred =
      Ret (mkSys (at_state OuterHashAddKey mode inp None (Some d) ver) s', true, []) ∧
    h_abs s' (HData (padded OUTER_PAD_BYTE k) (Mutable (mkSubSliceMut b' r))) ∧ buffer_ok b'.
Proof.
  intros Hs Hb. destruct (deferred_step (at_state InnerHash mode inp (Some b) dig ver) s _ _ Hs eq_refl) as (s1 & Hs1 & E1).
  destruct (h_clear_ok s1 _ Hs1) as (s2 & Ec & Hs2). cbn [hasher_step fst snd] in Hs2.
  destruct (key_leased OUTER_PAD_BYTE b ltac:(unfold byte, OUTER_PAD_BYTE; lia) Hb) as (b' & l & Ep & El & Hwf & Ebytes & Hbytes & Hb' & r & Er).
  destruct (h_add_idle s2 [] l Hs2 Hwf Hbytes) as (s3 & E3 & Hs3). { rewrite app_nil_l, Ebytes. unfold zlen, padded. rewrite length_fmap, Hk64. lia. }
  rewrite E1. cbn [hmac_callback]. unfold hmac_hash_done. cbn [result_is_err hm hm_state at_state]. unfold add_outer_key. cbn [hm hs].
  rewrite (bind_ret_eq _ _ _ Ec). cbn [hm_buffer hm_key at_state set_hm_buffer]. rewrite (bind_ret_eq _ _ _ Ep), (bind_ret_eq _ _ _ El), (bind_ret_eq _ _ _ E3).
  rewrite app_nil_l, Er, Ebytes in Hs3. exists s3, b', r. done.
Qed.

Lemma digest_leased b d : buffer_ok b → length d = 32%nat → Forall byte d →
  ∃ b' l, splice b 0 d = Ret b' ∧ lease b' 32 = Ret l ∧ range_wf l ∧ bytes_of l = d ∧ buffer_ok b' ∧
    ∃ r, advance l (zlen (bytes_of l)) = Mutable (mkSubSliceMut b' r).
Proof.
  intros (Hl & Hu & Hb) Hd Hdb. set (b' := d ++ drop 32 b).
  assert (Es : splice b 0 d = Ret b'). { rewrite splice_ok by (unfold zlen; lia). change (Z.to_nat 0) with 0%nat. by rewrite take_0, app_nil_l, Nat.add_0_l, Hd. }
  assert (Hb' : buffer_ok b').
  { unfold b'. split_and!; [rewrite length_app, length_drop; lia|rewrite zlen_app; unfold zlen in *; rewrite length_drop; lia|].
    apply Forall_app_2; [done|by apply Forall_drop]. }
  destruct (lease_ok b' 32) as (El & Hwf & Eb); [destruct Hb' as (? & _); unfold zlen; lia|apply Hb'|].
  eexists b', _. split_and!; [done|exact El|done| |done|by eexists].
  rewrite Eb. unfold b'. change (Z.to_nat 32) with 32%nat. by rewrite take_app_le, take_ge by lia.
Qed.

Lemma hmac_outer_key_done s m d b r inp : h_abs s (HData m (Mutable (mkSubSliceMut b r))) → length d = 32%nat → Forall byte d → buffer_ok b →
  8 * zlen (m ++ d) < usize_bound →
  ∃ s' b' r', hmac_step (mkSys (at_state OuterHashAddKey mode inp None (Some d) ver) s) HDeferred =
      Ret (mkSys (at_state OuterHashAddHash mode inp None (Some d) ver) s', true, []) ∧
    h_abs s' (HData (m ++ d) (Mutable (mkSubSliceMut b' r'))) ∧ buffer_ok b'.
Proof.
  intros Hs Hd Hdb Hb Hm. destruct (deferred_step (at_state OuterHashAddKey mode inp None (Some d) ver) s _ _ Hs eq_refl) as (s1 & Hs1 & E1).
  destruct (digest_leased b d Hb Hd Hdb) as (b' & l & Es & El & Hwf & Ebytes & Hb' & r' & Er).
  destruct (h_add_idle s1 m l Hs1 Hwf) as (s2 & E2 & Hs2); [by rewrite Ebytes|by rewrite Ebytes|].
  assert (Ed : index_range d (mkRange 0 32) = Ret d).
  { unfold index_range. cbn [range_start range_end]. rewrite (proj2 (get_range_Some d d 0 32)); [done|]. split_and!; [lia..|unfold zlen; lia|].
    by rewrite drop_0, take_ge by lia. }
  rewrite E1. cbn [hmac_callback data_done]. unfold hmac_add_mut_data_done. cbn [result_is_err hm hm_state at_state].
  unfold add_inner_digest. cbn [hm hs hm_digest at_state]. rewrite (bind_ret_eq _ _ _ Ed). unfold SubSliceMut_take. cbn [internal_mut].
  rewrite (bind_ret_eq _ _ _ Es), (bind_ret_eq _ _ _ El), (bind_ret_eq _ _ _ E2). rewrite Er, Ebytes in Hs2. exists s2, b', r'. done.
Qed.

Lemma hmac_outer_digest_done s m d b r inp : h_abs s (HData m (Mutable (mkSubSliceMut b r))) → length d = 32%nat →
  ∃ s', hmac_step (mkSys (at_state OuterHashAddHash mode inp None (Some d) ver) s) HDeferred =
      Ret (mkSys (at_state OuterHash mode inp (Some b) None ver) s', true, []) ∧ h_abs s' (HHash (SHA256 m)).
Proof.
  intros Hs Hd. destruct (deferred_step (at_state OuterHashAddHash mode inp None (Some d) ver) s _ _ Hs eq_refl) as (s1 & Hs1 & E1).
  destruct (h_hash_idle s1 m d Hs1 Hd) as (s2 & E2 & Hs2). rewrite E1. cbn [hmac_callback data_done].
  unfold hmac_add_mut_data_done. cbn [result_is_err hm hm_state at_state]. unfold hash_outer. cbn [hm hs hm_digest set_hm_buffer at_state].
  rewrite (bind_ret_eq _ _ _ E2). exists s2. done.
Qed.

(** The callback of the client at the end. *)
Definition final_event (d c : list Z) : DigestEvent :=
  match mode with ModeHash => HashDone (Ok tt) d | ModeVerify => VerificationDone (Ok (bool_decide (c = d))) c end.

Lemma hmac_outer_done s d b inp c : h_abs s (HHash d) → (mode = ModeVerify → ver = Some c) →
  ∃ y, hmac_step (mkSys (at_state OuterHash mode inp (Some b) None ver) s) HDeferred = Ret (y, true, [final_event d c]) ∧
    h_abs (hs y) (HIdle []) ∧ hm_state (hm y) = OuterHash.
Proof.
  intros Hs Hv. destruct (deferred_step (at_state OuterHash mode inp (Some b) None ver) s _ _ Hs eq_refl) as (s1 & Hs1 & E1).
  rewrite E1. cbn [hmac_callback]. unfold hmac_hash_done. cbn [result_is_err hm hm_state hm_mode hm_verify at_state]. unfold final_event.
  destruct mode; [eexists; split; [reflexivity|done]|]. rewrite (Hv eq_refl). eexists. split; [reflexivity|done].
Qed.

(** From the inner digest to the last callback. *)
Lemma hmac_outer s d b inp dig c : h_abs s (HHash d) → length d = 32%nat → Forall byte d → buffer_ok b → (mode = ModeVerify → ver = Some c) →
  ∃ y, hmac_steps (mkSys (at_state InnerHash mode inp (Some b) dig ver) s) [HDeferred; HDeferred; HDeferred; HDeferred] =
      Ret (y, [(true, []); (true, []); (true, []); (true, [final_event (SHA256 (padded OUTER_PAD_BYTE k ++ d)) c])]) ∧
    hm_state (hm y) = OuterHash ∧ h_abs (hs y) (HIdle []).
Proof.
  intros Hs Hd Hdb Hb Hv. destruct (hmac_inner_done s d b inp dig Hs Hb) as (s1 & b1 & r1 & E1 & Hs1 & Hb1).
  destruct (hmac_outer_key_done s1 _ d b1 r1 inp Hs1 Hd Hdb Hb1) as (s2 & b2 & r2 & E2 & Hs2 & Hb2).
  { rewrite zlen_app. unfold zlen, padded. rewrite length_fmap, Hk64, Hd. lia. }
  destruct (hmac_outer_digest_done s2 _ d b2 r2 inp Hs2 Hd) as (s3 & E3 & Hs3).
  destruct (hmac_outer_done s3 _ b2 inp c Hs3 Hv) as (y & E4 & Hy & Hst).
  exists y. split; [|done]. cbn [hmac_steps]. rewrite (bind_ret_eq _ _ _ E1), (bind_ret_eq _ _ _ E2), (bind_ret_eq _ _ _ E3), (bind_ret_eq _ _ _ E4). done.
Qed.
End steps.

(** ** Messages *)

Section messages.
Context {S : Type} `{Hasher S}.

Lemma steps_app ops1 ops2 (y : HmacSys S) y1 o1 : hmac_steps y ops1 = Ret (y1, o1) →
  hmac_steps y (ops1 ++ ops2) = ('(y2, o2) ← hmac_steps y1 ops2; Ret (y2, o1 ++ o2)).
Proof.
  revert y o1. induction ops1 as [|op ops1 IH]; intros y o1 E.
  { injection E as <- <-. cbn [app]. destruct (hmac_steps y ops2) as [[y2 o2]|]; done. }
  cbn [hmac_steps app] in *. apply outcome_bind_Ret in E as ([[y0 ok] ev] & E0 & E). apply outcome_bind_Ret in E as ([y3 o3] & E3 & [= <- <-]).
  rewrite (bind_ret_eq _ _ _ E0). cbv beta iota. rewrite (IH y0 o3 E3). destruct (hmac_steps y3 ops2) as [[y2 o2]|]; done.
Qed.

(** How the client asks for the result: a digest in its buffer, or a comparison. *)
Definition ask (md : RunMode) (c : list Z) : HmacOp := match md with ModeHash => HRun c | ModeVerify => HVerify c end.

Lemma hmac_ask key md c s m st md0 inp b dig v : h_abs s (HIdle m) → length c = 32%nat → length v = 32%nat →
  ∃ s', hmac_step (mkSys (at_state key st md0 inp b dig (Some v)) s) (ask md c) =
      Ret (mkSys (at_state key InnerHash md inp b dig (Some (match md with ModeHash => v | ModeVerify => c end))) s', true, []) ∧
    h_abs s' (HHash (SHA256 m)).
Proof.
  intros Hs Hc Hv. destruct md; cbn [ask]; unfold hmac_step, hmac_run, hmac_verify; cbn [hm hs hm_verify set_hm_mode set_hm_state at_state unwrap mbind outcome_bind].
  - destruct (h_hash_idle s m c Hs Hc) as (s' & E & Hs'). exists s'. by rewrite E.
  - destruct (h_hash_idle s m v Hs Hv) as (s' & E & Hs'). exists s'. by rewrite E.
Qed.

(** Further pieces, each reported before the next. *)
Lemma hmac_pieces key mode ver b dig (pieces : list (SubSliceMutImmut Z)) s m : h_abs s (HIdle m) →
  Forall range_wf pieces → Forall (λ p, Forall byte (bytes_of p)) pieces → 8 * zlen (m ++ (pieces ≫= bytes_of)) < usize_bound →
  ∃ s' out, hmac_steps (mkSys (at_state key InnerHashAddData mode None (Some b) dig ver) s) (pieces ≫= λ p, [HAdd p; HDeferred]) =
      Ret (mkSys (at_state key InnerHashAddData mode None (Some b) dig ver) s', out) ∧ Forall (λ o : bool * list DigestEvent, o.1 = true) out ∧
    h_abs s' (HIdle (m ++ (pieces ≫= bytes_of))).
Proof.
  intros Hs Hwf. revert s m Hs. induction Hwf as [|p pieces Hp Hwf IH]; intros s m Hs Hby Hlen.
  { exists s, []. cbn. rewrite app_nil_r. eauto using Forall_nil_2. }
  apply Forall_cons in Hby as [Hb Hby]. rewrite bind_cons, app_assoc in Hlen. rewrite bind_cons.
  destruct (hmac_next_add key mode ver s m b p dig Hs Hp Hb) as (s1 & E1 & Hs1). { rewrite zlen_app in Hlen. pose proof (zlen_nonneg (pieces ≫= bytes_of)). lia. }
  destruct (hmac_data_done key mode ver s1 _ b _ dig Hs1) as (s2 & E2 & Hs2).
  destruct (IH s2 _ Hs2 Hby Hlen) as (s3 & out & E3 & Hout & Hs3).
  exists s3, ((true, []) :: (true, [data_done (Ok tt) (advance p (zlen (bytes_of p)))]) :: out). rewrite bind_cons. cbn [app hmac_steps].
  rewrite (bind_ret_eq _ _ _ E1). cbv beta iota. rewrite (bind_ret_eq _ _ _ E2). cbv beta iota. rewrite (bind_ret_eq _ _ _ E3).
  split_and!; [done|by repeat constructor|by rewrite app_assoc].
Qed.

(** A capsule between two messages: it has a client and its buffers. *)
Definition hmac_ready (h : HmacSha256Software) : Prop :=
  hm_client h = true ∧ length (hm_key h) = 64%nat ∧ ∃ b v, hm_buffer h = Some b ∧ buffer_ok b ∧ hm_verify h = Some v ∧ length v = 32%nat.

Lemma hmac_start key h s : (length key ≤ 64)%nat → h_abs s (HIdle []) → hmac_ready h →
  ∃ s' md inp b dig v, hmac_step (mkSys h s) (HSetKey key) = Ret (mkSys (at_state key InnerHashAddKeyPending md inp (Some b) dig (Some v)) s', true, []) ∧
    h_abs s' (HIdle []) ∧ buffer_ok b ∧ length v = 32%nat.
Proof.
  intros Hk Hs (Hc & Hl & b & v & Hb & Hbo & Hv & Hvl). destruct h as [st md inp buf k0 dig ver cl]. cbn in *. subst.
  destruct (hmac_set_key_ok key Hk (mkHmac st md inp (Some b) k0 dig (Some v) true) s _ md inp (Some b) dig (Some v) st Hs eq_refl Hl) as (s' & E & Hs').
  exists s', md, inp, b, dig, v. done.
Qed.

Definition message_ops (key : list Z) (p : SubSliceMutImmut Z) (pieces : list (SubSliceMutImmut Z)) (md : RunMode) (c : list Z) : list HmacOp :=
  [HSetKey key; HAdd p; HDeferred; HDeferred] ++ (pieces ≫= λ p, [HAdd p; HDeferred]) ++ [ask md c] ++ [HDeferred; HDeferred; HDeferred; HDeferred].

End messages.

(** C15.  Over any hasher of the interface, a message of at least one piece under a
    key of at most a block gives its HMAC-SHA256: every call is accepted, and
    the last callback carries the digest, or for a verification whether the
    client's bytes are the digest, however the message is cut into pieces. *)
Theorem hmac_of_pieces {S : Type} `{Hasher S} (s : S) h key p pieces md c :
  h_abs s (HIdle []) → hmac_ready h → (length key ≤ 64)%nat → Forall byte key → length c = 32%nat →
  Forall range_wf (p :: pieces) → Forall (λ p, Forall byte (bytes_of p)) (p :: pieces) →
  8 * (64 + zlen ((p :: pieces) ≫= bytes_of)) < usize_bound →
  ∃ y out, hmac_steps (mkSys h s) (message_ops key p pieces md c) = Ret (y, out) ∧ Forall (λ o : bool * list DigestEvent, o.1 = true) out ∧
    last out = Some (true, [final_event md (HMAC_SHA256 key ((p :: pieces) ≫= bytes_of)) c]) ∧ h_abs (hs y) (HIdle []).
Proof.
  intros Hs Hh Hk Hkb Hc Hwf Hby Hlen. apply Forall_cons in Hwf as [Hp Hwf]. apply Forall_cons in Hby as [Hpb Hby].
  rewrite bind_cons, zlen_app in Hlen. pose proof (zlen_nonneg (pieces ≫= bytes_of)).
  assert (Hpl : zlen (padded INNER_PAD_BYTE (key_block key)) = 64) by (unfold zlen, padded; rewrite length_fmap, length_key_block; done).
  destruct (hmac_start key h s Hk Hs Hh) as (s1 & md0 & inp & b & dig & v & E1 & Hs1 & Hb & Hv).
  destruct (hmac_first_add key md0 (Some v) Hk Hkb s1 b p inp dig Hs1 Hb) as (s2 & b2 & r2 & E2 & Hs2 & Hb2).
  destruct (hmac_key_done key md0 (Some v) s2 _ b2 r2 p (Some p) dig Hs2 eq_refl Hp Hpb) as (s3 & E3 & Hs3). { rewrite zlen_app. lia. }
  destruct (hmac_data_done key md0 (Some v) s3 _ b2 _ dig Hs3) as (s4 & E4 & Hs4).
  destruct (hmac_pieces key md0 (Some v) b2 dig pieces s4 _ Hs4 Hwf Hby) as (s5 & out5 & E5 & Hout5 & Hs5). { rewrite !zlen_app. lia. }
  destruct (hmac_ask key md c s5 _ InnerHashAddData md0 None (Some b2) dig v Hs5 Hc Hv) as (s6 & E6 & Hs6).
  destruct (hmac_outer key md (Some (match md with ModeHash => v | ModeVerify => c end)) Hk Hkb s6 _ b2 None dig c Hs6 (length_SHA256 _) (SHA256_byte _) Hb2)
    as (y & E7 & Hst & Hs7). { by intros ->. }
  assert (E14 : hmac_steps (mkSys h s) [HSetKey key; HAdd p; HDeferred; HDeferred] =
    Ret (mkSys (at_state key InnerHashAddData md0 None (Some b2) dig (Some v)) s4, [(true, []); (true, []); (true, []); (true, [data_done (Ok tt) (advance p (zlen (bytes_of p)))])])).
  { cbn [hmac_steps]. by rewrite (bind_ret_eq _ _ _ E1), (bind_ret_eq _ _ _ E2), (bind_ret_eq _ _ _ E3), (bind_ret_eq _ _ _ E4). }
  unfold message_ops. eexists y, _. split.
  { rewrite (steps_app _ _ _ _ _ E14), (steps_app _ _ _ _ _ E5). cbn [app]. cbn [hmac_steps]. rewrite (bind_ret_eq _ _ _ E6). cbv beta iota.
    cbn [hmac_steps] in E7. rewrite (bind_ret_eq _ _ _ E7). reflexivity. }
  split_and!; [repeat first [apply Forall_app_2|apply Forall_cons; split|done|by apply Forall_nil_2]| |done].
  rewrite !app_comm_cons, last_app. cbn [last]. unfold HMAC_SHA256. by rewrite bind_cons, <- app_assoc.
Qed.

(** The software hasher below the capsule, and a capsule with its buffers. *)
Definition sample_hmac : HmacSha256Software := hmac_set_client (Hmac_new (replicate 64 0) (replicate 32 0)).

Lemma sample_hmac_ready : hmac_ready sample_hmac.
Proof.
  split_and!; [done|done|]. exists (replicate 64 0), (replicate 32 0). split_and!; [done| |done|done].
  split_and!; [vm_compute; lia|vm_compute; done|apply byte_list_0].
Qed.

Lemma hmac_of_pieces_witness : ∃ s y out, Sha256Software_new = Ret s ∧
  hmac_steps (mkSys sample_hmac (sha_set_client s)) (message_ops [1; 2; 3] sample_buffer [sample_buffer] ModeHash (replicate 32 0)) = Ret (y, out) ∧
  last out = Some (true, [HashDone (Ok tt) (HMAC_SHA256 [1; 2; 3] [97; 98; 99; 97; 98; 99])]).
Proof.
  destruct sha_new_abs as (s & E & Ha). exists s.
  destruct (hmac_of_pieces (sha_set_client s) sample_hmac [1; 2; 3] sample_buffer [sample_buffer] ModeHash (replicate 32 0)) as (y & out & Es & _ & El & _).
  - split; [exact Ha|vm_compute; reflexivity].
  - exact sample_hmac_ready.
  - cbn. lia.
  - repeat (apply Forall_cons; split; [unfold byte; lia|]). apply Forall_nil. exact I.
  - reflexivity.
  - repeat (apply Forall_cons; split; [vm_compute; repeat split; discriminate|]). apply Forall_nil. exact I.
  - repeat (apply Forall_cons; split; [apply (bool_decide_unpack _); vm_compute; exact I|]). apply Forall_nil. exact I.
  - vm_compute. reflexivity.
  - exists y, out. split; [exact E|]. split; [exact Es|exact El].
Defined.

(** A digest asked for before any data is not the HMAC of the empty message: the
    key is only added with the first data, so the inner hash is the SHA-256 of
    nothing, for every key. *)
Theorem hmac_without_data {S : Type} `{Hasher S} (s : S) h key md c :
  h_abs s (HIdle []) → hmac_ready h → (length key ≤ 64)%nat → Forall byte key → length c = 32%nat →
  ∃ y, hmac_steps (mkSys h s) ([HSetKey key; ask md c] ++ [HDeferred; HDeferred; HDeferred; HDeferred]) =
    Ret (y, [(true, []); (true, []); (true, []); (true, []); (true, []);
             (true, [final_event md (SHA256 (padded OUTER_PAD_BYTE (key_block key) ++ SHA256 [])) c])]).
Proof.
  intros Hs Hh Hk Hkb Hc. destruct (hmac_start key h s Hk Hs Hh) as (s1 & md0 & inp & b & dig & v & E1 & Hs1 & Hb & Hv).
  destruct (hmac_ask key md c s1 _ InnerHashAddKeyPending md0 inp (Some b) dig v Hs1 Hc Hv) as (s2 & E2 & Hs2).
  destruct (hmac_outer key md (Some (match md with ModeHash => v | ModeVerify => c end)) Hk Hkb s2 _ b inp dig c Hs2 (length_SHA256 _) (SHA256_byte _) Hb)
    as (y & E3 & _). { by intros ->. }
  exists y. assert (E12 : hmac_steps (mkSys h s) [HSetKey key; ask md c] = Ret (_, [(true, []); (true, [])]))
    by (cbn [hmac_steps]; rewrite (bind_ret_eq _ _ _ E1), (bind_ret_eq _ _ _ E2); reflexivity).
  rewrite (steps_app _ _ _ _ _ E12), (bind_ret_eq _ _ _ E3). done.
Qed.

Lemma hmac_without_data_witness : ∃ s y out, Sha256Software_new = Ret s ∧
  hmac_steps (mkSys sample_hmac (sha_set_client s)) ([HSetKey [1; 2; 3]; ask ModeHash (replicate 32 0)] ++ [HDeferred; HDeferred; HDeferred; HDeferred]) = Ret (y, out) ∧
  last out ≠ Some (true, [HashDone (Ok tt) (HMAC_SHA256 [1; 2; 3] [])]).
Proof.
  destruct sha_new_abs as (s & E & Ha). exists s.
  destruct (hmac_without_data (sha_set_client s) sample_hmac [1; 2; 3] ModeHash (replicate 32 0)) as (y & Es).
  - split; [exact Ha|vm_compute; reflexivity].
  - exact sample_hmac_ready.
  - cbn. lia.
  - repeat (apply Forall_cons; split; [unfold byte; lia|]). apply Forall_nil. exact I.
  - reflexivity.
  - eexists y, _. split; [exact E|]. split; [exact Es|]. vm_compute. discriminate.
Defined.

(** [clear_data] while the key is on its way to the hasher: the cancelled
    callback hands the capsule's own key buffer to the client and keeps the
    client's data.  From then on no message can be hashed: setting a key still
    succeeds, but the first data are refused with [BUSY]. *)
Theorem hmac_cancel_loses_buffer {S : Type} `{Hasher S} (s : S) h key data :
  h_abs s (HIdle []) → hmac_ready h → (length key ≤ 64)%nat → Forall byte key →
  ∃ y b r, hmac_steps (mkSys h s) [HSetKey key; HAdd data; HClear; HDeferred] =
      Ret (y, [(true, []); (true, []); (true, []); (true, [AddMutDataDone (Err CANCEL) (mkSubSliceMut b r)])]) ∧
    buffer_ok b ∧ hm_buffer (hm y) = None ∧ hm_input (hm y) = Some data ∧
    ∀ key' data', (length key' ≤ 64)%nat → ∃ y', hmac_steps y [HSetKey key'; HAdd data'] = Ret (y', [(true, []); (false, [])]).
Proof.
  intros Hs Hh Hk Hkb. destruct (hmac_start key h s Hk Hs Hh) as (s1 & md & inp & b & dig & v & E1 & Hs1 & Hb & Hv).
  destruct (hmac_first_add key md (Some v) Hk Hkb s1 b data inp dig Hs1 Hb) as (s2 & b2 & r2 & E2 & Hs2 & Hb2).
  destruct (h_clear_ok s2 _ Hs2) as (s3 & E3 & Hs3). cbn [hasher_step fst snd] in Hs3.
  destruct (deferred_step (at_state key HmIdle md (Some data) None dig (Some v)) s3 _ _ Hs3 eq_refl) as (s4 & Hs4 & E4).
  exists (mkSys (at_state key HmIdle md (Some data) None dig (Some v)) s4), b2, r2. split_and!; [|done|done|done|].
  - cbn [hmac_steps]. rewrite (bind_ret_eq _ _ _ E1), (bind_ret_eq _ _ _ E2). cbn [hmac_step]. unfold hmac_clear. cbn [hs hm]. rewrite (bind_ret_eq _ _ _ E3).
    cbn [mbind outcome_bind]. unfold set_hm_state. cbn [hm_mode hm_input hm_buffer hm_key hm_digest hm_verify hm_client at_state].
    fold (at_state key HmIdle md (Some data) None dig (Some v)). cbn [hmac_step] in E4. rewrite E4. done.
  - intros key' data' Hk'.
    destruct (hmac_set_key_ok key' Hk' (at_state key HmIdle md (Some data) None dig (Some v)) s4 _ md (Some data) None dig (Some v) HmIdle Hs4 eq_refl (length_key_block key Hk)) as (s5 & E5 & Hs5).
    cbn [hmac_steps]. rewrite (bind_ret_eq _ _ _ E5). eexists. reflexivity.
Qed.

Lemma hmac_cancel_loses_buffer_witness : ∃ s y b r, Sha256Software_new = Ret s ∧
  hmac_steps (mkSys sample_hmac (sha_set_client s)) [HSetKey [1; 2; 3]; HAdd sample_buffer; HClear; HDeferred] =
    Ret (y, [(true, []); (true, []); (true, []); (true, [AddMutDataDone (Err CANCEL) (mkSubSliceMut b r)])]) ∧
  ∃ y', hmac_steps y [HSetKey [1]; HAdd sample_buffer] = Ret (y', [(true, []); (false, [])]).
Proof.
  destruct sha_new_abs as (s & E & Ha). exists s.
  destruct (hmac_cancel_loses_buffer (sha_set_client s) sample_hmac [1; 2; 3] sample_buffer) as (y & b & r & Es & _ & _ & _ & Hb).
  - split; [exact Ha|vm_compute; reflexivity].
  - exact sample_hmac_ready.
  - cbn. lia.
  - repeat (apply Forall_cons; split; [unfold byte; lia|]). apply Forall_nil. exact I.
  - exists y, b, r. split; [exact E|]. split; [exact Es|]. apply Hb. cbn. lia.
Defined.
