(* ===== verification/CheckerPolicies.v ===== *)
(** * Credential checking policies (kernel/src/process_checker/basic.rs)

    The three policies of the kernel: [AppCheckerSimulated] lets everything pass,
    [AppCheckerRsaSimulated] accepts any RSA credential, and [AppCheckerSha256]
    accepts a SHA-256 credential that is the digest of the binary, computed by a
    hasher of the interface of Hasher.v.  They answer the machine of Checker.v
    through [check_done], an event here.

    Theorems: the SHA-256 policy accepts exactly the digest of the binary, for
    every hasher of the interface; two parsed credentials are the same identifier
    exactly when they are equal; short identifiers lose a bit. *)

From S2P Require Import Prelude Bytes Syscall LeasableBuffer Sha256 Hasher Sha256Theorems.
From S2P Require Import Mpu Tbf ProcessData Checker.

(** [c.check_done(result, credentials, binary)]. *)
Inductive PolicyEvent : Type := CheckDone (r : result CheckResult ErrorCode) (creds : TbfFooterV2Credentials) (binary : list Z).

#[export] Instance CredentialsType_eq_dec : EqDecision TbfFooterV2CredentialsType.
Proof. solve_decision. Defined.

(** ** The simulated policies

    [AppCheckerSimulated] and [AppCheckerRsaSimulated] have the same cells. *)
Record SimulatedPolicy := mkSimulated {
  sim_client : bool;
  sim_credentials : option TbfFooterV2Credentials;
  sim_binary : option (list Z);
  sim_deferred : bool
}.

Definition Simulated_new : SimulatedPolicy := mkSimulated false None None false.
Definition sim_set_client (p : SimulatedPolicy) : SimulatedPolicy := mkSimulated true (sim_credentials p) (sim_binary p) (sim_deferred p).

Definition sim_check_credentials (p : SimulatedPolicy) (creds : TbfFooterV2Credentials) (binary : list Z)
  : SimulatedPolicy * result unit (ErrorCode * TbfFooterV2Credentials * list Z) :=
  match sim_credentials p with
  | None => (mkSimulated (sim_client p) (Some creds) (Some binary) true, Ok tt)
  | Some _ => (p, Err (BUSY, creds, binary))
  end.

(** [handle_deferred_call] of [AppCheckerSimulated]. *)
Definition sim_deferred_call (p : SimulatedPolicy) : outcome (SimulatedPolicy * list PolicyEvent) :=
  if sim_client p then
    creds ← unwrap (sim_credentials p); binary ← unwrap (sim_binary p);
    Ret (mkSimulated true None None false, [CheckDone (Ok CheckPass) creds binary])
  else Ret (mkSimulated false (sim_credentials p) (sim_binary p) false, []).

(** [handle_deferred_call] of [AppCheckerRsaSimulated]. *)
Definition rsa_deferred_call (p : SimulatedPolicy) : outcome (SimulatedPolicy * list PolicyEvent) :=
  if sim_client p then
    binary ← unwrap (sim_binary p); creds ← unwrap (sim_credentials p);
    let result := if bool_decide (cred_format creds = CredRsa3072Key) || bool_decide (cred_format creds = CredRsa4096Key)
                  then CheckAccept else CheckPass in
    Ret (mkSimulated true None None false, [CheckDone (Ok result) creds binary])
  else Ret (mkSimulated false (sim_credentials p) (sim_binary p) false, []).

Definition sim_require_credentials : bool := false.
Definition rsa_require_credentials : bool := true.

Definition sim_different_identifier {C T} (a b : Process C T) : bool := negb (bool_decide (process_name a = process_name b)).

Definition sim_to_short_id (creds : TbfFooterV2Credentials) : ShortID := LocallyUnique.

(** The loop over [a.data().iter().zip(b.data().iter())]. *)
Definition some_byte_differs (a b : list Z) : bool := existsb (λ '(x, y), negb (x =? y)) (zip a b).

Definition rsa_different_identifier {C T} (p q : Process C T) : bool :=
  match credentials p, credentials q with
  | Some a, Some b =>
      if negb (bool_decide (cred_format a = cred_format b)) then true
      else if negb (zlen (cred_data a) =? zlen (cred_data b)) then true
      else some_byte_differs (cred_data a) (cred_data b)
  | _, _ => true
  end.

(** [0x8000000 | data[0] << 24 | data[1] << 16 | data[2] << 8 | data[3]]. *)
Definition short_id_of (data : list Z) : outcome ShortID :=
  d0 ← index_get data 0; d1 ← index_get data 1; d2 ← index_get data 2; d3 ← index_get data 3;
  let id := Z.lor (Z.lor (Z.lor (Z.lor 0x8000000 (Z.shiftl d0 24)) (Z.shiftl d1 16)) (Z.shiftl d2 8)) d3 in
  Ret (if id =? 0 then LocallyUnique else Fixed id).

Definition rsa_to_short_id (creds : TbfFooterV2Credentials) : outcome ShortID :=
  if zlen (cred_data creds) <? 4 then Ret LocallyUnique else short_id_of (cred_data creds).

(** ** The SHA-256 policy *)

Record AppCheckerSha256 := mkShaPolicy {
  sp_client : bool;
  sp_hash : option (list Z);
  sp_binary : option (list Z);
  sp_credentials : option TbfFooterV2Credentials
}.

Definition AppCheckerSha256_new (buffer : list Z) : AppCheckerSha256 := mkShaPolicy false (Some buffer) None None.
Definition sp_set_client (p : AppCheckerSha256) : AppCheckerSha256 := mkShaPolicy true (sp_hash p) (sp_binary p) (sp_credentials p).

Definition sp_require_credentials : bool := true.

Definition sp_different_identifier {C T} (p q : Process C T) : bool :=
  match credentials p, credentials q with
  | Some a, Some b =>
      if negb (bool_decide (cred_format a = cred_format b)) then true else some_byte_differs (cred_data a) (cred_data b)
  | _, _ => true
  end.

Definition sp_to_short_id (creds : TbfFooterV2Credentials) : outcome ShortID := short_id_of (cred_data creds).

Section sha_policy.
Context {S : Type} `{Hasher S}.

Definition sp_check_credentials (p : AppCheckerSha256) (s : S) (creds : TbfFooterV2Credentials) (binary : list Z)
  : outcome (AppCheckerSha256 * S * result unit (ErrorCode * TbfFooterV2Credentials * list Z)) :=
  let p := mkShaPolicy (sp_client p) (sp_hash p) (sp_binary p) (Some creds) in
  match cred_format creds with
  | CredSHA256 =>
      hash ← match sp_hash p with
             | Some h => d32 ← index_range (cred_data creds) (mkRange 0 32); h ← splice h 0 d32; Ret (Some h)
             | None => Ret None
             end;
      let p := mkShaPolicy (sp_client p) hash (sp_binary p) (sp_credentials p) in
      s ← h_clear s;
      '(s, r) ← h_add s (Immutable (SubSlice_new binary));
      match r with
      | Ok _ => Ret (p, s, Ok tt)
      | Err (e, b) => Ret (p, s, Err (e, creds, (parts b).1))
      end
  | _ => Ret (p, s, Err (NOSUPPORT, creds, binary))
  end.

Definition sp_add_data_done (p : AppCheckerSha256) (s : S) (r : result unit ErrorCode) (data : SubSlice Z)
  : outcome (AppCheckerSha256 * S * list PolicyEvent) :=
  match r with
  | Err _ => Panic
  | Ok _ =>
      hash ← unwrap (sp_hash p);
      let p := mkShaPolicy (sp_client p) None (Some (SubSlice_take data)) (sp_credentials p) in
      '(s, r) ← h_verify s hash;
      match r with Err _ => Panic | Ok _ => Ret (p, s, []) end
  end.

Definition sp_verification_done (p : AppCheckerSha256) (s : S) (r : result bool ErrorCode) (compare : list Z)
  : outcome (AppCheckerSha256 * S * list PolicyEvent) :=
  let p := mkShaPolicy (sp_client p) (Some compare) (sp_binary p) (sp_credentials p) in
  match r with
  | Err _ => Panic
  | Ok pass =>
      if sp_client p then
        creds ← unwrap (sp_credentials p); binary ← unwrap (sp_binary p);
        Ret (mkShaPolicy true (sp_hash p) None None, s, [CheckDone (Ok (if pass then CheckAccept else CheckReject)) creds binary])
      else Ret (p, s, [])
  end.

Definition sp_callback (p : AppCheckerSha256) (s : S) (ev : DigestEvent) : outcome (AppCheckerSha256 * S * list PolicyEvent) :=
  match ev with
  | AddDataDone r data => sp_add_data_done p s r data
  | AddMutDataDone _ _ | HashDone _ _ => Ret (p, s, [])
  | VerificationDone r compare => sp_verification_done p s r compare
  end.

Fixpoint sp_callbacks (p : AppCheckerSha256) (s : S) (evs : list DigestEvent) : outcome (AppCheckerSha256 * S * list PolicyEvent) :=
  match evs with
  | [] => Ret (p, s, [])
  | ev :: evs => '(p, s, out) ← sp_callback p s ev; '(p, s, out') ← sp_callbacks p s evs; Ret (p, s, out ++ out')
  end.

(** The deferred call of the hasher below the policy. *)
Definition sp_deferred (p : AppCheckerSha256) (s : S) : outcome (AppCheckerSha256 * S * list PolicyEvent) :=
  '(s, _, evs) ← h_op s OpDeferred; sp_callbacks p s evs.

(** A check and the two deferred calls it takes. *)
Definition sp_check (p : AppCheckerSha256) (s : S) (creds : TbfFooterV2Credentials) (binary : list Z)
  : outcome (AppCheckerSha256 * S * result unit (ErrorCode * TbfFooterV2Credentials * list Z) * list PolicyEvent) :=
  '(p, s, r) ← sp_check_credentials p s creds binary;
  '(p, s, out1) ← sp_deferred p s;
  '(p, s, out2) ← sp_deferred p s;
  Ret (p, s, r, out1 ++ out2).

End sha_policy.

(** ** The SHA-256 policy accepts digests *)

Lemma whole_buffer (binary : list Z) : zlen binary < usize_bound →
  range_wf (Immutable (SubSlice_new binary)) ∧ bytes_of (Immutable (SubSlice_new binary)) = binary.
Proof.
  intros Hl. assert (Hwf : range_wf (Immutable (SubSlice_new binary))) by (unfold range_wf; cbn; pose proof (zlen_nonneg binary); lia).
  split; [done|]. pose proof (window_wf _ Hwf) as E. cbn in E. unfold bytes_of. rewrite E, drop_0, Z.sub_0_r. unfold zlen. by rewrite Nat2Z.id, take_ge by lia.
Qed.

Lemma sp_deferred_step {S} `{Hasher S} p (s : S) a ev : h_abs s a → (hasher_step a OpDeferred).2 = [ev] →
  ∃ s', h_abs s' (hasher_step a OpDeferred).1.1 ∧ sp_deferred p s = sp_callback p s' ev.
Proof.
  intros Hs Hev. destruct (h_deferred_ok s a Hs) as (s' & E & Hs'). exists s'. split; [done|].
  unfold sp_deferred. rewrite E, Hev. cbn [mbind outcome_bind sp_callbacks].
  destruct (sp_callback _ _ _) as [[[p1 s1] out]|]; [|done]. cbn [mbind outcome_bind]. by rewrite app_nil_r.
Qed.

(** C16.  For any hasher of the digest interface, whatever message it had been given
    before: a SHA-256 credential is checked in two deferred calls, without a
    panic, and the machine is told [Accept] exactly when the credential is the
    SHA-256 of the binary, [Reject] otherwise, after which policy and hasher are
    ready for the next check. *)
Theorem sha_policy_accepts_digest {S : Type} `{Hasher S} (p : AppCheckerSha256) (s : S) m h creds binary :
  h_abs s (HIdle m) → sp_client p = true → sp_hash p = Some h → length h = 32%nat →
  cred_format creds = CredSHA256 → length (cred_data creds) = 32%nat → Forall byte binary → 8 * zlen binary < usize_bound →
  ∃ s', sp_check p s creds binary =
      Ret (mkShaPolicy true (Some (cred_data creds)) None None, s', Ok tt,
           [CheckDone (Ok (if bool_decide (cred_data creds = SHA256 binary) then CheckAccept else CheckReject)) creds binary]) ∧
    h_abs s' (HIdle []).
Proof.
  intros Hs Hc Hh Hhl Hf Hd Hb Hl. destruct p as [cl hash bin cr]. cbn in Hc, Hh. subst cl hash.
  unfold sp_check, sp_check_credentials. rewrite Hf. cbn [sp_hash sp_client sp_binary sp_credentials].
  assert (Ed : index_range (cred_data creds) (mkRange 0 32) = Ret (cred_data creds)).
  { unfold index_range. cbn [range_start range_end]. rewrite (proj2 (get_range_Some _ (cred_data creds) 0 32)); [done|].
    split_and!; [lia..|unfold zlen; lia|]. by rewrite drop_0, take_ge by lia. }
  rewrite (bind_ret_eq _ _ _ Ed), splice_ok by (unfold zlen; lia). cbn [mbind outcome_bind].
  change (Z.to_nat 0) with 0%nat. rewrite take_0, app_nil_l, drop_ge, app_nil_r by lia.
  destruct (h_clear_ok s _ Hs) as (s1 & E1 & Hs1). rewrite E1. cbn [mbind outcome_bind hasher_step fst snd] in *.
  destruct (whole_buffer binary ltac:(lia)) as [Hwf Hbytes].
  destruct (h_add_idle s1 [] (Immutable (SubSlice_new binary)) Hs1 Hwf) as (s2 & E2 & Hs2); [by rewrite Hbytes|by rewrite app_nil_l, Hbytes|].
  rewrite E2. cbn [mbind outcome_bind]. rewrite app_nil_l, Hbytes in Hs2.
  match goal with |- context [sp_deferred ?q s2] => destruct (sp_deferred_step q s2 _ _ Hs2 eq_refl) as (s3 & Hs3 & E3) end.
  rewrite E3. cbn [advance data_done sp_callback]. unfold sp_add_data_done. cbn [sp_hash unwrap mbind outcome_bind].
  destruct (h_verify_idle s3 _ (cred_data creds) Hs3 Hd) as (s4 & E4 & Hs4). rewrite E4. cbn [mbind outcome_bind].
  match goal with |- context [sp_deferred ?q s4] => destruct (sp_deferred_step q s4 _ _ Hs4 eq_refl) as (s5 & Hs5 & E5) end.
  rewrite E5. cbn [sp_callback]. exists s5. done.
Qed.

Definition sample_policy : AppCheckerSha256 := sp_set_client (AppCheckerSha256_new (replicate 32 0)).

Definition sample_digest : list Z := Eval vm_compute in SHA256 [1; 2; 3].

Lemma sha_policy_accepts_digest_witness :
  bool_decide (sample_digest = SHA256 [1; 2; 3]) = true ∧
  ∃ s s', Sha256Software_new = Ret s ∧
  sp_check sample_policy (sha_set_client s) (mkCredentials CredSHA256 sample_digest) [1; 2; 3] =
    Ret (mkShaPolicy true (Some (cred_data (mkCredentials CredSHA256 sample_digest))) None None, s', Ok tt,
         [CheckDone (Ok (if bool_decide (cred_data (mkCredentials CredSHA256 sample_digest) = SHA256 [1; 2; 3]) then CheckAccept else CheckReject))
            (mkCredentials CredSHA256 sample_digest) [1; 2; 3]]).
Proof.
  split; [vm_compute; reflexivity|]. destruct sha_new_abs as (s & E & Ha). exists s.
  destruct (sha_policy_accepts_digest sample_policy (sha_set_client s) [] (replicate 32 0) (mkCredentials CredSHA256 sample_digest) [1; 2; 3]) as (s' & Es & _).
  - split; [exact Ha|vm_compute; reflexivity].
  - reflexivity.
  - reflexivity.
  - reflexivity.
  - reflexivity.
  - vm_compute. reflexivity.
  - repeat (apply Forall_cons; split; [unfold byte; lia|]). apply Forall_nil. exact I.
  - vm_compute. reflexivity.
  - exists s'. split; [exact E|exact Es].
Defined.

(** ** Identifiers *)

Lemma some_byte_differs_spec a b : length a = length b → some_byte_differs a b = negb (bool_decide (a = b)).
Proof.
  unfold some_byte_differs. revert b. induction a as [|x a IH]; intros [|y b] Hl; try done. cbn [zip zip_with existsb].
  rewrite IH by (by injection Hl). destruct (Z.eqb_spec x y) as [->|Hn]; cbn [negb orb].
  - f_equal. apply bool_decide_ext. naive_solver.
  - by rewrite bool_decide_false by congruence.
Qed.

(** A credential as the footer parser makes it. *)
Definition parsed_credentials (c : TbfFooterV2Credentials) : Prop := zlen (cred_data c) = cred_length (cred_format c).

(** Two processes with parsed credentials have the same identifier under the
    SHA-256 and the RSA policy exactly when both have credentials and these are
    equal; the first policy compares without looking at the lengths, which the
    parser makes equal. *)
Theorem same_identifier_same_credentials {C T : Type} (p q : Process C T) :
  (∀ c, credentials p = Some c → parsed_credentials c) → (∀ c, credentials q = Some c → parsed_credentials c) →
  (sp_different_identifier p q = false ↔ ∃ c, credentials p = Some c ∧ credentials q = Some c) ∧
  (rsa_different_identifier p q = false ↔ ∃ c, credentials p = Some c ∧ credentials q = Some c).
Proof.
  intros Hp Hq. unfold sp_different_identifier, rsa_different_identifier.
  destruct (credentials p) as [[fa da]|], (credentials q) as [[fb db]|]; try naive_solver. cbn [cred_format cred_data].
  specialize (Hp _ eq_refl). specialize (Hq _ eq_refl). unfold parsed_credentials in *. cbn in Hp, Hq.
  destruct (decide (fa = fb)) as [<-|Hf]; [rewrite bool_decide_true by done|rewrite bool_decide_false by done; naive_solver].
  cbn [negb]. rewrite (proj2 (Z.eqb_eq (zlen da) (zlen db))) by lia. cbn [negb].
  rewrite some_byte_differs_spec by (unfold zlen in *; lia). rewrite negb_false_iff, bool_decide_eq_true. naive_solver.
Qed.

Lemma short_id_of_eq d0 d1 d2 d3 rest :
  short_id_of (d0 :: d1 :: d2 :: d3 :: rest) =
  Ret (Fixed (Z.lor 0x8000000 (Z.lor (Z.lor (Z.lor (Z.shiftl d0 24) (Z.shiftl d1 16)) (Z.shiftl d2 8)) d3))).
Proof.
  set (x := Z.lor (Z.lor (Z.lor (Z.shiftl d0 24) (Z.shiftl d1 16)) (Z.shiftl d2 8)) d3).
  change (short_id_of _) with (Ret (if Z.lor (Z.lor (Z.lor (Z.lor 0x8000000 (Z.shiftl d0 24)) (Z.shiftl d1 16)) (Z.shiftl d2 8)) d3 =? 0 then LocallyUnique
    else Fixed (Z.lor (Z.lor (Z.lor (Z.lor 0x8000000 (Z.shiftl d0 24)) (Z.shiftl d1 16)) (Z.shiftl d2 8)) d3))).
  assert (E : Z.lor (Z.lor (Z.lor (Z.lor 0x8000000 (Z.shiftl d0 24)) (Z.shiftl d1 16)) (Z.shiftl d2 8)) d3 = Z.lor 0x8000000 x)
    by (unfold x; by rewrite !Z.lor_assoc).
  rewrite E, (proj2 (Z.eqb_neq _ 0)); [done|]. intros H0%Z.lor_eq_0_iff. lia.
Qed.

Lemma byte_high_bits d i : byte d → 8 ≤ i → Z.testbit d i = false.
Proof. intros Hd Hi. unfold byte in Hd. rewrite <- (Z.mod_small d (2 ^ 8)) by lia. apply Z.mod_pow2_bits_high. lia. Qed.

(** The short identifier is the first four bytes with bit 27 set, not the first
    bit of the word as the comment has it: the top bit is the credential's, and
    credentials that differ in bit 27 only get the same identifier. *)
Theorem short_id_sets_bit_27 (d0 d1 d2 d3 : Z) (rest : list Z) : byte d0 → byte d1 → byte d2 → byte d3 →
  ∃ id, short_id_of (d0 :: d1 :: d2 :: d3 :: rest) = Ret (Fixed id) ∧ id = Z.lor 0x8000000 (be_word [d0; d1; d2; d3]) ∧
    Z.testbit id 31 = Z.testbit d0 7 ∧
    short_id_of (Z.lxor d0 8 :: d1 :: d2 :: d3 :: rest) = Ret (Fixed id).
Proof.
  intros H0 H1 H2 H3. eexists. split; [apply short_id_of_eq|]. split_and!.
  - by rewrite be_word_lor.
  - rewrite !Z.lor_spec, !Z.shiftl_spec by lia. rewrite (byte_high_bits d1), (byte_high_bits d2), (byte_high_bits d3) by (done || lia).
    cbn [Z.sub]. change (Z.testbit 134217728 31) with false. by rewrite !orb_false_r.
  - rewrite short_id_of_eq. do 2 f_equal. apply Z.bits_inj'. intros i Hi. rewrite !Z.lor_spec, !Z.shiftl_spec, Z.lxor_spec by lia.
    destruct (Z.eq_dec i 27) as [->|Hn]; [done|]. assert (E : Z.testbit 8 (i - 24) = false).
    { change 8 with (2 ^ 3). apply Z.pow2_bits_false. lia. }
    by rewrite E, xorb_false_r.
Qed.

Lemma short_id_sets_bit_27_witness : ∃ id, short_id_of [0; 0; 0; 1] = Ret (Fixed id) ∧ id = 0x8000001 ∧ short_id_of [8; 0; 0; 1] = Ret (Fixed id).
Proof.
  destruct (short_id_sets_bit_27 0 0 0 1 []) as (id & E & Eid & _ & E'); [unfold byte; lia..|].
  exists id. split; [exact E|]. split; [exact Eid|exact E'].
Defined.

Definition sample_process (c : option TbfFooterV2Credentials) : Process unit unit :=
  mkProcess (mkProcessId 0 0) LocallyUnique 0 0 None 0 0 0 0 0 [] (TbfHeader_Padding (mkBase 2 16 16 0 0)) c None Yielded PanicFaultPolicy None [] None 0 None [] None.

Lemma same_identifier_same_credentials_witness :
  sp_different_identifier (sample_process (Some (mkCredentials CredSHA256 sample_digest))) (sample_process (Some (mkCredentials CredSHA256 sample_digest))) = false ↔
  ∃ c, Some (mkCredentials CredSHA256 sample_digest) = Some c ∧ Some (mkCredentials CredSHA256 sample_digest) = Some c.
Proof.
  apply (same_identifier_same_credentials (sample_process (Some (mkCredentials CredSHA256 sample_digest))) (sample_process (Some (mkCredentials CredSHA256 sample_digest)))).
  - intros c [= <-]. reflexivity.
  - intros c [= <-]. reflexivity.
Defined.
