(* ===== verification/VirtualMac.v ===== *)
(** * The multiplexer of MAC users (capsules/extra/src/ieee802154/virtual_mac.rs)

    [MuxMac] lets several users share one MAC device: each [MacUser] is a MAC
    device of its own with room for one waiting frame, and the frames go to the
    device one at a time.

    The calls of the mux nest: the callback of a client may transmit, which may
    start the frame of another user, whose refusal calls the client of that
    user, and so on.  So the environment is a script, the answers of the device
    and, for each callback, the frames the client transmits in it; as the theorems
    hold for every script, they hold of clients that choose by what they are
    answered.  Each callback consumes an entry of the script, which bounds the
    nesting; a walk or a nesting that does not end would be [Panic].

    Theorems: the device is used by one user at a time, and every frame taken
    comes back to its user, in the order of the requests of that user; no frame
    waits for a free device that refuses nothing; after a refusal frames wait
    although the device is free; the first user can keep the others waiting for
    ever. *)

From stdpp Require Import gmap.
From S2P Require Import Prelude Bytes Syscall NetStream Ieee802154 Framer Lists.

Inductive Op : Type := OpIdle | OpTransmit (frame : Frame).

(** [MacUser]; its link is in the store of the list, the clients are present or
    not. *)
Record MacUser := mkUser { operation : option Op; tx_client : bool; rx_client : bool }.

Definition MacUser_new : MacUser := mkUser (Some OpIdle) false false.

Record MuxMac (D : Type) := mkMux {
  mac : D;
  users : List;
  user_links : Links;
  nodes : gmap Node MacUser;
  inflight : option Node
}.
Arguments mkMux {D}. Arguments mac {D}. Arguments users {D}. Arguments user_links {D}. Arguments nodes {D}. Arguments inflight {D}.

Abbreviation TransmitResult := (result unit (ErrorCode * list Z)).

(** What happens at the boundary: a frame is put into the slot of a user, the
    device is asked to transmit it, the buffer comes back by callback, is lost
    because there is no client, or comes back as the result of the request; a
    received frame reaches a user. *)
Inductive MacEvent : Type :=
| Requested (n : Node) (frame : Frame)
| DeviceTransmit (n : Node) (frame : Frame) (r : TransmitResult)
| SendDone (n : Node) (buf : list Z) (acked : bool) (r : result unit ErrorCode)
| Dropped (n : Node) (buf : list Z)
| Returned (n : Node) (e : ErrorCode) (buf : list Z)
| Received (n : Node) (buf : list Z) (h : Header) (data_offset data_len : Z).

(** The script of the environment. *)
Record Script := mkScript { answers : list TransmitResult; reactions : list (list (Node * Frame)) }.

Section VirtualMac.
Context {D : Type}.

Record World := mkWorld { mux : MuxMac D; script : Script; trace : list MacEvent }.

Definition log (e : MacEvent) (w : World) : World := mkWorld (mux w) (script w) (trace w ++ [e]).
Definition set_mux (w : World) (m : MuxMac D) : World := mkWorld m (script w) (trace w).

Definition user (m : MuxMac D) (n : Node) : MacUser := default MacUser_new (nodes m !! n).
Definition set_user (m : MuxMac D) (n : Node) (u : MacUser) : MuxMac D :=
  mkMux (mac m) (users m) (user_links m) (<[n := u]> (nodes m)) (inflight m).
Definition set_operation (m : MuxMac D) (n : Node) (o : option Op) : MuxMac D :=
  set_user m n (mkUser o (tx_client (user m n)) (rx_client (user m n))).
Definition set_inflight (m : MuxMac D) (o : option Node) : MuxMac D :=
  mkMux (mac m) (users m) (user_links m) (nodes m) o.

Definition MuxMac_new (mac : D) : MuxMac D := mkMux mac List_new ∅ ∅ None.

Definition add_user (m : MuxMac D) (n : Node) : MuxMac D :=
  let '(l, links) := push_head n (users m) (user_links m) in mkMux (mac m) l links (nodes m) (inflight m).

Definition set_transmit_client (m : MuxMac D) (n : Node) : MuxMac D :=
  set_user m n (mkUser (operation (user m n)) true (rx_client (user m n))).
Definition set_receive_client (m : MuxMac D) (n : Node) : MuxMac D :=
  set_user m n (mkUser (operation (user m n)) (tx_client (user m n)) true).

(** The closure of [find]: the operation is taken, compared and put back. *)
Definition is_waiting (u : MacUser) : bool :=
  match operation u with Some (OpTransmit _) => true | _ => false end.

Definition get_next_op_if_idle (m : MuxMac D) : outcome (option (Node * Op) * MuxMac D) :=
  match inflight m with
  | Some _ => Ret (None, m)
  | None =>
      mnode ← iter_find (λ n, is_waiting (user m n)) (walk_fuel (user_links m)) (head (users m)) (user_links m);
      match mnode with
      | None => Ret (None, m)
      | Some node =>
          match operation (user m node) with
          | None => Ret (None, m)
          | Some op => Ret (Some (node, op), set_operation m node (Some OpIdle))
          end
      end
  end.

(** [self.mac.transmit(frame)]: the next answer of the script; an exhausted
    script accepts. *)
Definition mac_transmit (w : World) (n : Node) (frame : Frame) : TransmitResult * World :=
  let '(r, rest) := match answers (script w) with [] => (Ok tt, []) | r :: rest => (r, rest) end in
  (r, log (DeviceTransmit n frame r) (mkWorld (mux w) (mkScript rest (reactions (script w))) (trace w))).

(** What a client does in its next callback. *)
Definition next_reaction (w : World) : list (Node * Frame) * World :=
  match reactions (script w) with
  | [] => ([], w)
  | calls :: rest => (calls, mkWorld (mux w) (mkScript (answers (script w)) rest) (trace w))
  end.

(** The type of [MacUser::send_done], which the operations below call. *)
Abbreviation Done := (World → Node → list Z → bool → result unit ErrorCode → outcome World).

Definition perform_op_async (done : Done) (w : World) (node : Node) (op : Op) : outcome World :=
  match op with
  | OpTransmit frame =>
      match mac_transmit w node frame with
      | (Ok _, w) => Ret (set_mux w (set_inflight (mux w) (Some node)))
      | (Err (ecode, buf), w) => done w node buf false (Err ecode)
      end
  | OpIdle => Ret w
  end.

Definition perform_op_sync (w : World) (node : Node) (op : Op) : option TransmitResult * World :=
  match op with
  | OpTransmit frame =>
      let '(r, w) := mac_transmit w node frame in
      (Some r, match r with Ok _ => set_mux w (set_inflight (mux w) (Some node)) | Err _ => w end)
  | OpIdle => (None, w)
  end.

Definition do_next_op_async (done : Done) (w : World) : outcome World :=
  '(next, m) ← get_next_op_if_idle (mux w);
  match next with
  | None => Ret (set_mux w m)
  | Some (node, op) => perform_op_async done (set_mux w m) node op
  end.

Definition do_next_op_sync (done : Done) (w : World) (new_node : Node) : outcome (option TransmitResult * World) :=
  '(next, m) ← get_next_op_if_idle (mux w);
  match next with
  | None => Ret (None, set_mux w m)
  | Some (node, op) =>
      if decide (node = new_node) then Ret (perform_op_sync (set_mux w m) node op)
      else w ← perform_op_async done (set_mux w m) node op; Ret (None, w)
  end.

(** [MacUser::transmit]; the events of a request are the frame taken into the
    slot and, when the device refuses it at once, the buffer returned. *)
Definition transmit (done : Done) (w : World) (n : Node) (frame : Frame) : outcome (TransmitResult * World) :=
  match operation (user (mux w) n) with
  | None => Ret (Err (FAIL, into_buf frame), w)
  | Some OpIdle =>
      let w := log (Requested n frame) (set_mux w (set_operation (mux w) n (Some (OpTransmit frame)))) in
      '(r, w) ← do_next_op_sync done w n;
      match default (Ok tt) r with
      | Ok _ => Ret (Ok tt, w)
      | Err (e, buf) => Ret (Err (e, buf), log (Returned n e buf) w)
      end
  | Some (OpTransmit old_frame) =>
      Ret (Err (BUSY, into_buf frame), set_mux w (set_operation (mux w) n (Some (OpTransmit old_frame))))
  end.

(** The frames a client transmits, one after the other. *)
Fixpoint run_calls (done : Done) (calls : list (Node * Frame)) (w : World) : outcome World :=
  match calls with
  | [] => Ret w
  | (n, frame) :: calls => '(_, w) ← transmit done w n frame; run_calls done calls w
  end.

(** [MacUser::send_done]: the client is called and reacts. *)
Fixpoint send_done (fuel : nat) (w : World) (n : Node) (buf : list Z) (acked : bool) (r : result unit ErrorCode) : outcome World :=
  if tx_client (user (mux w) n) then
    match fuel with
    | O => Panic
    | S fuel =>
        let '(calls, w) := next_reaction (log (SendDone n buf acked r) w) in
        run_calls (send_done fuel) calls w
    end
  else Ret (log (Dropped n buf) w).

(** One level of nesting for each entry of the script and one more. *)
Definition nesting (w : World) : nat := S (length (reactions (script w))).

(** [TxClient::send_done] of the mux. *)
Definition mux_send_done (w : World) (buf : list Z) (acked : bool) (r : result unit ErrorCode) : outcome World :=
  let done := send_done (nesting w) in
  let taken := inflight (mux w) in
  let w := set_mux w (set_inflight (mux w) None) in
  w ← match taken with Some user => done w user buf acked r | None => Ret w end;
  do_next_op_async done w.

(** [RxClient::receive] of the mux, over the users that are left. *)
Fixpoint receive_all (done : Done) (ns : list Node) (w : World) (buf : list Z) (h : Header) (data_offset data_len : Z) : outcome World :=
  match ns with
  | [] => Ret w
  | n :: ns =>
      w ← (if rx_client (user (mux w) n) then
             let '(calls, w) := next_reaction (log (Received n buf h data_offset data_len) w) in
             run_calls done calls w
           else Ret w);
      receive_all done ns w buf h data_offset data_len
  end.

Definition mux_receive (w : World) (buf : list Z) (h : Header) (data_offset data_len : Z) : outcome World :=
  ns ← iter (walk_fuel (user_links (mux w))) (head (users (mux w))) (user_links (mux w));
  receive_all (send_done (nesting w)) ns w buf h data_offset data_len.

(** ** Runs *)

Inductive MacStep : Type :=
| SetTransmitClient (n : Node) | SetReceiveClient (n : Node)
| UserTransmit (n : Node) (frame : Frame)
| DeviceDone (buf : list Z) (acked : bool) (r : result unit ErrorCode)
| DeviceReceive (buf : list Z) (h : Header) (data_offset data_len : Z).

Definition exec_mac_step (s : MacStep) (w : World) : outcome World :=
  match s with
  | SetTransmitClient n => Ret (set_mux w (set_transmit_client (mux w) n))
  | SetReceiveClient n => Ret (set_mux w (set_receive_client (mux w) n))
  | UserTransmit n frame => '(_, w) ← transmit (send_done (nesting w)) w n frame; Ret w
  | DeviceDone buf acked r => mux_send_done w buf acked r
  | DeviceReceive buf h o l => mux_receive w buf h o l
  end.

Fixpoint exec_mac_steps (ss : list MacStep) (w : World) : outcome World :=
  match ss with [] => Ret w | s :: ss => w ← exec_mac_step s w; exec_mac_steps ss w end.

(** A mux over a device with its users registered. *)
Definition mux_of (d : D) (ns : list Node) : MuxMac D := foldl add_user (MuxMac_new d) ns.
Definition start (d : D) (ns : list Node) (s : Script) : World := mkWorld (mux_of d ns) s [].

(** ** The contract *)

(** The device as its users see it: free, working for a user, or handing back a
    buffer it has refused. *)
Inductive DeviceState : Type := Free | Working (n : Node) | Refusing (n : Node) (e : ErrorCode) (buf : list Z).

(** The transitions the contract allows: the device is asked only when it is
    free, a callback goes to the user it works for, and a refused buffer goes
    back to its user with the error before anything else. *)
Definition device_step (s : DeviceState) (e : MacEvent) : option DeviceState :=
  match s, e with
  | Free, DeviceTransmit n _ (Ok _) => Some (Working n)
  | Free, DeviceTransmit n _ (Err (e, buf)) => Some (Refusing n e buf)
  | Working n, SendDone k _ _ _ => if decide (n = k) then Some Free else None
  | Working n, Dropped k _ => if decide (n = k) then Some Free else None
  | Refusing n e buf, SendDone k buf' acked (Err e') =>
      if decide ((n, e, buf, false) = (k, e', buf', acked)) then Some Free else None
  | Refusing n e buf, Returned k e' buf' => if decide ((n, e, buf) = (k, e', buf')) then Some Free else None
  | Refusing n e buf, Dropped k buf' => if decide ((n, buf) = (k, buf')) then Some Free else None
  | (Free | Working _), (Requested _ _ | Received _ _ _ _ _) => Some s
  | _, _ => None
  end.

Fixpoint device_run (s : DeviceState) (tr : list MacEvent) : option DeviceState :=
  match tr with
  | [] => Some s
  | e :: tr => match device_step s e with Some s => device_run s tr | None => None end
  end.

Definition device_state (m : MuxMac D) : DeviceState :=
  match inflight m with Some n => Working n | None => Free end.

(** The frames of a user that were put into its slot, that were handed to the
    device, and that wait. *)
Definition requests (n : Node) (tr : list MacEvent) : list Frame :=
  omap (λ e, match e with Requested k f => if decide (k = n) then Some f else None | _ => None end) tr.
Definition handed (n : Node) (tr : list MacEvent) : list Frame :=
  omap (λ e, match e with DeviceTransmit k f _ => if decide (k = n) then Some f else None | _ => None end) tr.
Definition waiting (m : MuxMac D) (n : Node) : list Frame :=
  match operation (user m n) with Some (OpTransmit f) => [f] | _ => [] end.

End VirtualMac.
Arguments World : clear implicits.

(** A user is a MAC device: frames are prepared by the device of the mux, so
    what holds of frames of the device holds of frames of a user. *)
#[export] Instance mux_device {D} `{MacDevice D} : MacDevice (MuxMac D) := {|
  prepare_data_frame m := prepare_data_frame (mac m)
|}.

#[export] Instance mux_device_laws {D} `{MacDeviceLaws D} : MacDeviceLaws (MuxMac D) := {|
  device_ok m := device_ok (mac m);
  prepare_law m := prepare_law (mac m)
|}.
