(* ===== verification/VirtualMacTheorems.v ===== *)
(** * Theorems on the multiplexer of MAC users

    One invariant carries the contract through the nested calls: the events so
    far drive the device to the state the mux remembers, and the frames put into
    the slot of a user are those handed over and the one that waits.  The
    callbacks enter through [done_ok], which [send_done] satisfies at every depth
    of nesting. *)

From stdpp Require Import gmap.
From S2P Require Import Prelude Bytes Syscall NetStream Ieee802154 Framer Lists VirtualMac.

Section Contract.
Context {D : Type} (xs : list Node).
Implicit Types (w : World D) (m : MuxMac D).

(** The invariant, with the state of the device as the events give it. *)
Record ok_at (s : DeviceState) w : Prop := {
  ok_list : list_repr (user_links (mux w)) (users (mux w)) xs;
  ok_ops : ∀ n, operation (user (mux w) n) ≠ None;
  ok_run : device_run Free (trace w) = Some s;
  ok_order : ∀ n, requests n (trace w) = handed n (trace w) ++ waiting (mux w) n
}.

Definition ok w : Prop := ok_at (device_state (mux w)) w.

(** The device refuses nothing from here on. *)
Definition accepting w : Prop := Forall (λ r, r = Ok tt) (answers (script w)).

(** A free device leaves no registered user waiting. *)
Definition settled w : Prop := inflight (mux w) = None → ∀ n, n ∈ xs → waiting (mux w) n = [].

(** The script is only consumed. *)
Definition after w w' : Prop :=
  (length (reactions (script w')) ≤ length (reactions (script w)))%nat ∧ (accepting w → accepting w').

Lemma after_trans w1 w2 w3 : after w1 w2 → after w2 w3 → after w1 w3.
Proof. intros [L1 A1] [L2 A2]. split; [lia|auto]. Qed.

Lemma after_refl w : after w w.
Proof. split; auto. Qed.

Lemma device_run_snoc tr e s1 s2 s3 :
  device_run s1 tr = Some s2 → device_step s2 e = Some s3 → device_run s1 (tr ++ [e]) = Some s3.
Proof.
  revert s1. induction tr as [|e' tr IH]; intros s1; cbn [device_run app]; [intros [= ->] ->; done|].
  destruct (device_step s1 e'); [apply IH|done].
Qed.

Lemma requests_snoc n tr e : requests n (tr ++ [e]) = requests n tr ++ requests n [e].
Proof. apply omap_app. Qed.
Lemma handed_snoc n tr e : handed n (tr ++ [e]) = handed n tr ++ handed n [e].
Proof. apply omap_app. Qed.

Lemma user_set_user m n u k : user (set_user m n u) k = if decide (n = k) then u else user m k.
Proof.
  unfold user, set_user. cbn [nodes]. destruct (decide (n = k)) as [->|Hne]; [by rewrite lookup_insert_eq|by rewrite lookup_insert_ne].
Qed.

Lemma waiting_set_operation m n o k : waiting (set_operation m n (Some o)) k =
  if decide (n = k) then match o with OpTransmit f => [f] | OpIdle => [] end else waiting m k.
Proof. unfold waiting, set_operation. rewrite user_set_user. destruct (decide (n = k)); [by destruct o|done]. Qed.

Lemma operation_set_operation m n o k : operation (user (set_operation m n (Some o)) k) =
  if decide (n = k) then Some o else operation (user m k).
Proof. unfold set_operation. rewrite user_set_user. by destruct (decide (n = k)). Qed.

(** Events that move no frame between slot and device. *)
Lemma ok_log s s' w e : ok_at s w → device_step s e = Some s' →
  (∀ n, requests n [e] = [] ∧ handed n [e] = []) → ok_at s' (log e w).
Proof.
  intros [L O R W] Hs He. split; cbn [log mux trace]; [done|done|by eapply device_run_snoc|].
  intros n. destruct (He n) as [H1 H2]. rewrite requests_snoc, handed_snoc, H1, H2, !app_nil_r. apply W.
Qed.

(** States whose slots hold the same. *)
Lemma ok_same s w m sc : ok_at s w → users m = users (mux w) → user_links m = user_links (mux w) →
  (∀ n, operation (user m n) = operation (user (mux w) n)) → ok_at s (mkWorld m sc (trace w)).
Proof.
  intros [L O R W] Hu Hl Ho. split; cbn [mux trace]; [by rewrite Hu, Hl|intros n; rewrite Ho; apply O|done|].
  intros n. unfold waiting. rewrite Ho. apply W.
Qed.

(** ** The search for the next operation *)

Lemma get_next_ok s w : ok_at s w →
  (get_next_op_if_idle (mux w) = Ret (None, mux w) ∧ settled w) ∨
  ∃ n f, inflight (mux w) = None ∧ waiting (mux w) n = [f] ∧
    get_next_op_if_idle (mux w) = Ret (Some (n, OpTransmit f), set_operation (mux w) n (Some OpIdle)).
Proof.
  intros [[C N] O R W]. unfold get_next_op_if_idle. destruct (inflight (mux w)) as [k|] eqn:Ei.
  { left. split; [done|]. intros Hi. congruence. }
  rewrite (iter_find_chain _ _ xs) by (done || unfold walk_fuel; pose proof (chain_size _ _ _ C N); lia).
  cbn [mbind outcome_bind]. destruct (List.find _ xs) as [n|] eqn:Ef.
  - right. apply List.find_some in Ef as [_ Hw]. unfold is_waiting in Hw. unfold waiting.
    destruct (operation (user (mux w) n)) as [[|f]|] eqn:Eo; try done. exists n, f. by rewrite Eo.
  - left. split; [done|]. intros _ n Hn. apply list_elem_of_In in Hn. pose proof (List.find_none _ _ Ef n Hn) as Hw.
    unfold is_waiting in Hw. unfold waiting. by destruct (operation (user (mux w) n)) as [[|f]|].
Qed.

(** Handing over the frame that waits. *)
Lemma mac_transmit_ok w n f : ok w → inflight (mux w) = None → waiting (mux w) n = [f] →
  ∃ r w', mac_transmit (set_mux w (set_operation (mux w) n (Some OpIdle))) n f = (r, w') ∧
    mux w' = set_operation (mux w) n (Some OpIdle) ∧ after w w' ∧ (accepting w → r = Ok tt) ∧
    ok_at (match r with Ok _ => Working n | Err (e, buf) => Refusing n e buf end) w'.
Proof.
  intros [L O R W] Hi Hw. unfold mac_transmit, set_mux, accepting, after. cbn [script mux trace].
  set (r := match answers (script w) with [] => Ok tt | r :: _ => r end).
  set (rest := match answers (script w) with [] => [] | _ :: rest => rest end).
  exists r, (log (DeviceTransmit n f r) (mkWorld (set_operation (mux w) n (Some OpIdle)) (mkScript rest (reactions (script w))) (trace w))).
  split_and!; try done.
  - by destruct (answers (script w)).
  - unfold accepting. cbn [log script reactions answers]. unfold rest. intros F. destruct (answers (script w)); [done|by inversion F].
  - unfold r. intros F. destruct (answers (script w)); [done|by inversion F].
  - split; cbn [log mux trace]; [done| | |].
    + intros k. rewrite operation_set_operation. by destruct (decide (n = k)).
    + eapply device_run_snoc; [exact R|]. unfold device_state. rewrite Hi. cbn [device_step]. by destruct r as [|[e buf]].
    + intros k. rewrite requests_snoc, handed_snoc, waiting_set_operation. cbn [requests handed omap list_omap].
      rewrite app_nil_r. destruct (decide (n = k)) as [->|Hne]; rewrite W; [|by rewrite app_nil_r].
      by rewrite Hw, app_nil_r.
Qed.

Lemma ok_inflight w n : ok_at (Working n) w → ok (set_mux w (set_inflight (mux w) (Some n))).
Proof. intros H. by apply (ok_same (Working n)). Qed.

(** ** What a callback must keep *)

Abbreviation Done := (World D → Node → list Z → bool → result unit ErrorCode → outcome (World D)).

Definition done_ok (k : nat) (done : Done) : Prop :=
  ∀ s w n buf a r, ok_at s w → inflight (mux w) = None →
    device_step s (SendDone n buf a r) = Some Free → device_step s (Dropped n buf) = Some Free →
    (length (reactions (script w)) ≤ k)%nat →
    ∃ w', done w n buf a r = Ret w' ∧ ok w' ∧ after w w'.

Section WithDone.
Context (k : nat) (done : Done) (Hdone : done_ok k done).

Lemma perform_op_async_ok w n f : ok w → inflight (mux w) = None → waiting (mux w) n = [f] →
  (length (reactions (script w)) ≤ k)%nat →
  ∃ w', perform_op_async done (set_mux w (set_operation (mux w) n (Some OpIdle))) n (OpTransmit f) = Ret w' ∧
    ok w' ∧ after w w' ∧ (accepting w → settled w').
Proof.
  intros H Hi Hw Hk. destruct (mac_transmit_ok w n f H Hi Hw) as (r & w1 & E & Em & A & Ha & H1).
  cbn [perform_op_async]. rewrite E. destruct r as [[]|[e buf]].
  - eexists. split; [done|]. split; [by apply ok_inflight|]. split; [done|]. intros _ Hn. done.
  - destruct (Hdone _ w1 n buf false (Err e) H1) as (w2 & E2 & H2 & A2).
    + by rewrite Em.
    + cbn [device_step]. by rewrite decide_True.
    + cbn [device_step]. by rewrite decide_True.
    + destruct A. lia.
    + exists w2. split; [done|]. split; [done|]. split; [by eapply after_trans|]. intros Hacc. discriminate (Ha Hacc).
Qed.

Lemma do_next_op_async_ok w : ok w → (length (reactions (script w)) ≤ k)%nat →
  ∃ w', do_next_op_async done w = Ret w' ∧ ok w' ∧ after w w' ∧ (accepting w → settled w').
Proof.
  intros H Hk. unfold do_next_op_async. destruct (get_next_ok _ w H) as [[E S]|(n & f & Hi & Hw & E)]; rewrite E; cbn [mbind outcome_bind].
  - exists w. destruct w as [m sc tr]. split_and!; [done|done|apply after_refl|done].
  - by apply perform_op_async_ok.
Qed.

Lemma do_next_op_sync_ok w n : ok w → (length (reactions (script w)) ≤ k)%nat →
  ∃ r w', do_next_op_sync done w n = Ret (r, w') ∧ after w w' ∧ (accepting w → settled w') ∧
    match r with Some (Err (e, buf)) => inflight (mux w') = None ∧ ok_at (Refusing n e buf) w' | _ => ok w' end.
Proof.
  intros H Hk. unfold do_next_op_sync. destruct (get_next_ok _ w H) as [[E S]|(j & f & Hi & Hw & E)]; rewrite E; cbn [mbind outcome_bind].
  { exists None, w. destruct w as [m sc tr]. split_and!; [done|apply after_refl|done|done]. }
  destruct (decide (j = n)) as [->|Hne].
  - destruct (mac_transmit_ok w n f H Hi Hw) as (r & w1 & E1 & Em & A & Ha & H1).
    cbn [perform_op_sync]. rewrite E1. destruct r as [[]|[e buf]]; do 2 eexists; (split; [done|]).
    + split; [done|]. split; [by intros _ Hn|]. by apply ok_inflight.
    + split; [done|]. split; [intros Hacc; discriminate (Ha Hacc)|]. by rewrite Em.
  - destruct (perform_op_async_ok w j f H Hi Hw Hk) as (w1 & E1 & H1 & A1 & S1). rewrite E1. cbn [mbind outcome_bind].
    exists None, w1. done.
Qed.

(** A request fills the slot of its user. *)
Lemma requested_ok w n f : ok w → operation (user (mux w) n) = Some OpIdle →
  ok (log (Requested n f) (set_mux w (set_operation (mux w) n (Some (OpTransmit f))))).
Proof.
  intros [L O R W] Ho. split; cbn [log set_mux mux trace]; [done| | |].
  - intros j. rewrite operation_set_operation. by destruct (decide (n = j)).
  - eapply device_run_snoc; [exact R|]. unfold device_state. cbn [set_operation set_user inflight]. by destruct (inflight (mux w)).
  - intros j. rewrite requests_snoc, handed_snoc, waiting_set_operation, W. cbn [requests handed omap list_omap].
    rewrite app_nil_r. destruct (decide (n = j)) as [->|Hne]; [|by rewrite app_nil_r].
    unfold waiting. by rewrite Ho, app_nil_r.
Qed.

Lemma transmit_ok w n f : ok w → (length (reactions (script w)) ≤ k)%nat →
  ∃ r w', transmit done w n f = Ret (r, w') ∧ ok w' ∧ after w w' ∧ (accepting w → settled w → settled w').
Proof.
  intros H Hk. unfold transmit. destruct (operation (user (mux w) n)) as [[|old]|] eqn:Eo.
  - pose proof (requested_ok w n f H Eo) as H1.
    destruct (do_next_op_sync_ok _ n H1 Hk) as (r & w2 & E2 & A2 & S2 & H2). rewrite E2. cbn [mbind outcome_bind].
    destruct r as [[[]|[e buf]]|]; cbn [default from_option id]; do 2 eexists; (split; [done|]); try by (split_and!; auto).
    destruct H2 as [Hi H2]. split.
    + unfold ok. cbn [log mux]. unfold device_state. rewrite Hi. apply (ok_log _ _ _ _ H2); [|done]. cbn [device_step]. by rewrite decide_True.
    + split; [exact A2|]. intros Hacc _. exact (S2 Hacc).
  - do 2 eexists. split; [done|].
    assert (Hsame : ∀ j, operation (user (set_operation (mux w) n (Some (OpTransmit old))) j) = operation (user (mux w) j)).
    { intros j. rewrite operation_set_operation. by destruct (decide (n = j)) as [->|]. }
    split; [by apply (ok_same (device_state (mux w)))|]. split; [apply (after_refl w)|].
    intros _ S Hi j Hj. unfold waiting. cbn [set_mux mux]. rewrite Hsame. by apply S.
  - by destruct (ok_ops _ _ H n).
Qed.

Lemma run_calls_ok calls w : ok w → (length (reactions (script w)) ≤ k)%nat →
  ∃ w', run_calls done calls w = Ret w' ∧ ok w' ∧ after w w' ∧ (accepting w → settled w → settled w').
Proof.
  revert w. induction calls as [|[n f] calls IH]; intros w H Hk; cbn [run_calls].
  { exists w. split_and!; auto. apply after_refl. }
  destruct (transmit_ok w n f H Hk) as (r & w1 & E1 & H1 & A1 & S1). rewrite E1. cbn [mbind outcome_bind].
  destruct (IH w1 H1) as (w2 & E2 & H2 & A2 & S2); [destruct A1; lia|].
  exists w2. split_and!; auto; [by eapply after_trans|]. intros Hacc S. destruct A1 as [_ A1]. auto.
Qed.
End WithDone.

(** ** The callbacks *)

Lemma next_reaction_ok s w : ok_at s w → ∃ calls w', next_reaction w = (calls, w') ∧ ok_at s w' ∧ mux w' = mux w ∧
  after w w' ∧ (calls = [] ∨ (length (reactions (script w')) < length (reactions (script w)))%nat).
Proof.
  intros H. unfold next_reaction. destruct (reactions (script w)) as [|calls rest] eqn:Er; do 2 eexists; (split; [done|]).
  - split_and!; [done|done|apply after_refl|by left].
  - split_and!; [by apply (ok_same s)|done| |right; cbn; lia]. split; [cbn [script reactions]; rewrite Er; cbn; lia|done].
Qed.

(** A client reacts, with callbacks that nest as deep as the script is long. *)
Lemma react_ok fuel w : (∀ k, (k < fuel)%nat → done_ok k (send_done fuel)) → ok w → (length (reactions (script w)) ≤ fuel)%nat →
  ∃ w', (let '(calls, w) := next_reaction w in run_calls (send_done fuel) calls w) = Ret w' ∧ ok w' ∧ after w w' ∧
    (accepting w → settled w → settled w').
Proof.
  intros IH H Hk. destruct (next_reaction_ok _ w H) as (calls & w1 & E1 & H1 & Em & A1 & Hc). rewrite E1.
  assert (Hok1 : ok w1) by (unfold ok; by rewrite Em).
  assert (Hs : settled w → settled w1) by (unfold settled; by rewrite Em).
  destruct Hc as [->|Hlt].
  - exists w1. split_and!; auto.
  - assert (Hk1 : (length (reactions (script w1)) < fuel)%nat) by lia.
    destruct (run_calls_ok _ _ (IH _ Hk1) calls w1 Hok1) as (w2 & E2 & H2 & A2 & S2); [done|].
    exists w2. split_and!; auto; [by eapply after_trans|]. destruct A1 as [_ A1]. auto.
Qed.

Lemma send_done_ok fuel : ∀ k, (k < fuel)%nat → done_ok k (send_done fuel).
Proof.
  induction fuel as [|fuel IH]; intros k Hlt; [lia|].
  intros s w n buf a r H Hi Hd Hx Hk. cbn [send_done]. destruct (tx_client _).
  - assert (H1 : ok (log (SendDone n buf a r) w)).
    { unfold ok. cbn [log mux]. unfold device_state. rewrite Hi. by apply (ok_log s). }
    destruct (react_ok fuel _ IH H1) as (w' & E & H' & A & _); [cbn [log script]; lia|]. exists w'. split_and!; [done|done|exact A].
  - eexists. split; [done|]. split; [|apply (after_refl w)].
    unfold ok. cbn [log mux]. unfold device_state. rewrite Hi. by apply (ok_log s).
Qed.

Lemma mux_send_done_ok w buf a r : ok w →
  ∃ w', mux_send_done w buf a r = Ret w' ∧ ok w' ∧ after w w' ∧ (accepting w → settled w').
Proof.
  intros H. unfold mux_send_done. set (w0 := set_mux w (set_inflight (mux w) None)).
  assert (H0 : ok_at (device_state (mux w)) w0) by (by apply (ok_same (device_state (mux w)))).
  pose proof (send_done_ok (nesting w) _ (Nat.lt_succ_diag_r _)) as Hd.
  assert (∃ w1, match inflight (mux w) with Some u => send_done (nesting w) w0 u buf a r | None => Ret w0 end = Ret w1 ∧ ok w1 ∧ after w w1)
    as (w1 & E1 & H1 & A1).
  { unfold device_state in H0. destruct (inflight (mux w)) as [u|].
    - destruct (Hd (Working u) w0 u buf a r) as (w1 & E & H1 & A); try done; [by cbn [device_step]; rewrite decide_True..|]. by exists w1.
    - exists w0. split_and!; [done|done|apply (after_refl w)]. }
  rewrite E1. cbn [mbind outcome_bind].
  destruct (do_next_op_async_ok _ _ Hd w1 H1) as (w2 & E2 & H2 & A2 & S2); [apply A1|].
  exists w2. split_and!; auto; [by eapply after_trans|]. destruct A1 as [_ A1]. auto.
Qed.

Lemma receive_all_ok fuel ns w buf h o l : ok w → (length (reactions (script w)) < fuel)%nat →
  ∃ w', receive_all (send_done fuel) ns w buf h o l = Ret w' ∧ ok w' ∧ after w w' ∧ (accepting w → settled w → settled w').
Proof.
  revert w. induction ns as [|n ns IH]; intros w H Hk; cbn [receive_all].
  { exists w. split_and!; auto. apply after_refl. }
  assert (∃ w1, (if rx_client (user (mux w) n) then let '(calls, w) := next_reaction (log (Received n buf h o l) w) in run_calls (send_done fuel) calls w
                 else Ret w) = Ret w1 ∧ ok w1 ∧ after w w1 ∧ (accepting w → settled w → settled w1)) as (w1 & E1 & H1 & A1 & S1).
  { destruct (rx_client _).
    - apply (react_ok fuel (log (Received n buf h o l) w)); [apply send_done_ok| |cbn [log script]; lia].
      apply (ok_log _ _ _ _ H); [|done]. unfold device_state. cbn [log mux]. by destruct (inflight (mux w)).
    - exists w. split_and!; auto. apply after_refl. }
  rewrite E1. cbn [mbind outcome_bind]. destruct (IH w1 H1) as (w2 & E2 & H2 & A2 & S2); [destruct A1; lia|].
  exists w2. split_and!; auto; [by eapply after_trans|]. destruct A1 as [_ A1]. auto.
Qed.

Lemma exec_mac_step_ok s w : ok w →
  ∃ w', exec_mac_step s w = Ret w' ∧ ok w' ∧ after w w' ∧ (accepting w → settled w → settled w').
Proof.
  intros H. destruct s as [n|n|n f|buf a r|buf h o l]; cbn [exec_mac_step].
  1-2: eexists; split; [done|];
    assert (Hs : ∀ tx rx j, operation (user (set_user (mux w) n (mkUser (operation (user (mux w) n)) tx rx)) j) = operation (user (mux w) j))
      by (intros tx rx j; rewrite user_set_user; by destruct (decide (n = j)) as [->|]);
    split; [apply (ok_same (device_state (mux w)) w); try done; apply Hs|]; split; [apply (after_refl w)|];
    intros _ S Hi j Hj; unfold waiting; cbn [set_mux mux]; unfold set_transmit_client, set_receive_client; rewrite Hs; by apply S.
  - destruct (transmit_ok _ _ (send_done_ok (nesting w) _ (Nat.lt_succ_diag_r _)) w n f H) as (r & w1 & E & H1 & A & S); [done|].
    rewrite E. exists w1. split_and!; auto.
  - destruct (mux_send_done_ok w buf a r H) as (w1 & E & H1 & A & S). exists w1. split_and!; auto.
  - unfold mux_receive. destruct (ok_list _ _ H) as [C N].
    rewrite (iter_chain _ xs) by (done || unfold walk_fuel; pose proof (chain_size _ _ _ C N); lia). cbn [mbind outcome_bind].
    apply receive_all_ok; [done|unfold nesting; lia].
Qed.

Lemma exec_mac_steps_ok ss w : ok w →
  ∃ w', exec_mac_steps ss w = Ret w' ∧ ok w' ∧ (accepting w → settled w → settled w').
Proof.
  revert w. induction ss as [|s ss IH]; intros w H; cbn [exec_mac_steps]; [by exists w|].
  destruct (exec_mac_step_ok s w H) as (w1 & E1 & H1 & [_ A1] & S1). rewrite E1. cbn [mbind outcome_bind].
  destruct (IH w1 H1) as (w2 & E2 & H2 & S2). exists w2. split_and!; auto.
Qed.
End Contract.

Section Runs.
Context {D : Type} (d : D).

Lemma mux_of_list ns : NoDup ns →
  list_repr (user_links (mux_of d ns)) (users (mux_of d ns)) (rev ns) ∧ nodes (mux_of d ns) = ∅ ∧ inflight (mux_of d ns) = None.
Proof.
  induction ns as [|n ns IH] using rev_ind; intros N; [by split; [split; [done|constructor]|]|].
  apply NoDup_app in N as (N1 & N2 & _). destruct (IH N1) as ([C R] & Hn & Hi).
  assert (Hni : n ∉ rev ns) by (rewrite list_elem_of_In, <- in_rev, <- list_elem_of_In; intros H; apply (N2 n H); by left).
  unfold mux_of in *. rewrite foldl_snoc, rev_unit. unfold add_user, push_head. cbn [user_links users nodes inflight head]. split; [|done].
  split; [|by constructor]. split; [done|]. exists (head (users (foldl add_user (MuxMac_new d) ns))). rewrite lookup_insert_eq.
  split; [done|]. by apply chain_frame.
Qed.

Lemma start_ok ns sc : NoDup ns → ok (rev ns) (start d ns sc) ∧ settled (rev ns) (start d ns sc).
Proof.
  intros N. destruct (mux_of_list ns N) as (L & Hn & Hi).
  assert (Hu : ∀ n, user (mux_of d ns) n = MacUser_new) by (intros n; unfold user; by rewrite Hn, lookup_empty).
  split; [|intros _ n _; unfold waiting; cbn [start mux]; by rewrite Hu].
  split; cbn [start mux trace]; [done|intros n; by rewrite Hu|unfold device_state; by rewrite Hi|].
  intros n. unfold waiting. by rewrite Hu.
Qed.

(** C17.  Whatever the users, the device and the nested calls of the clients do, every
    call returns; the device is asked only when it is free, the end of a frame
    is reported to the user whose frame it was, and a refused buffer goes back
    to its user with the error, by callback or as the result of the request,
    before anything else happens; the frames put into the slot of a user are
    handed to the device in that order, each once, and the one that is not waits
    in the slot. *)
Theorem virtual_mac_contract ns sc ss : NoDup ns →
  ∃ w, exec_mac_steps ss (start d ns sc) = Ret w ∧
    device_run Free (trace w) = Some (device_state (mux w)) ∧
    ∀ n, requests n (trace w) = handed n (trace w) ++ waiting (mux w) n.
Proof.
  intros N. destruct (exec_mac_steps_ok (rev ns) ss (start d ns sc)) as (w & E & H & _); [by apply start_ok|].
  exists w. split; [done|]. split; [exact (ok_run _ _ _ H)|exact (ok_order _ _ _ H)].
Qed.

(** As long as the device refuses nothing, no registered user waits for a free
    device. *)
Theorem free_device_nobody_waits ns sc ss : NoDup ns → Forall (λ r, r = Ok tt) (answers sc) →
  ∃ w, exec_mac_steps ss (start d ns sc) = Ret w ∧
    (inflight (mux w) = None → ∀ n, n ∈ ns → waiting (mux w) n = []).
Proof.
  intros N F. destruct (start_ok ns sc N) as [H0 S0].
  destruct (exec_mac_steps_ok (rev ns) ss _ H0) as (w & E & H & S). exists w. split; [done|].
  intros Hi n Hn. apply (S F S0 Hi). apply list_elem_of_In, in_rev. rewrite rev_involutive. by apply list_elem_of_In.
Qed.

(** When the device refuses a frame that waited, the next user in line is not
    tried: its frame waits although the device is free, and no callback will
    come to move it. *)
Theorem refused_frame_stalls_others f1 f2 f3 e b :
  ∃ w, exec_mac_steps
         [SetTransmitClient 1; SetTransmitClient 2; SetTransmitClient 3; UserTransmit 3 f3; UserTransmit 1 f1; UserTransmit 2 f2;
          DeviceDone (into_buf f3) true (Ok tt)]
         (start d [3; 2; 1] (mkScript [Ok tt; Err (e, b)] [])) = Ret w ∧
    inflight (mux w) = None ∧ waiting (mux w) 2 = [f2] ∧ List.last (trace w) (Dropped 0 []) = SendDone 1 b false (Err e).
Proof. eexists. split; [vm_compute; reflexivity|]. by vm_compute. Qed.

(** Two users, of which the first in the list works and the second waits. *)
Definition busy_mux (f2 : Frame) : MuxMac D :=
  mkMux d (mkList (Some 1)) {[1 := Some 2; 2 := None]}
    {[1 := mkUser (Some OpIdle) true false; 2 := mkUser (Some (OpTransmit f2)) false false]} (Some 1).

Definition round (f1 : Frame) (b : list Z) : list MacEvent :=
  [SendDone 1 b true (Ok tt); Requested 1 f1; DeviceTransmit 1 f1 (Ok tt)].

Lemma busy_round f1 f2 b rest tr :
  mux_send_done (mkWorld (busy_mux f2) (mkScript [] ([(1, f1)] :: rest)) tr) b true (Ok tt) =
  Ret (mkWorld (busy_mux f2) (mkScript [] rest) (tr ++ round f1 b)).
Proof.
  unfold round. change ([?a; ?b; ?c]) with ([a] ++ [b] ++ [c]). rewrite !app_assoc. vm_compute. reflexivity.
Qed.

Lemma busy_rounds f1 f2 b k tr :
  exec_mac_steps (replicate k (DeviceDone b true (Ok tt))) (mkWorld (busy_mux f2) (mkScript [] (replicate k [(1, f1)])) tr) =
  Ret (mkWorld (busy_mux f2) (mkScript [] []) (tr ++ concat (replicate k (round f1 b)))).
Proof.
  revert tr. induction k as [|k IH]; intros tr; cbn [replicate exec_mac_steps exec_mac_step concat]; [by rewrite app_nil_r|].
  rewrite busy_round. cbn [mbind outcome_bind]. by rewrite IH, <- app_assoc.
Qed.

Lemma busy_start f1 f2 rs :
  exec_mac_steps [SetTransmitClient 1; UserTransmit 1 f1; UserTransmit 2 f2] (start d [2; 1] (mkScript [] rs)) =
  Ret (mkWorld (busy_mux f2) (mkScript [] rs) [Requested 1 f1; DeviceTransmit 1 f1 (Ok tt); Requested 2 f2]).
Proof. vm_compute. reflexivity. Qed.

Lemma handed_rounds n f1 b k : handed n (concat (replicate k (round f1 b))) = if decide (n = 1) then replicate k f1 else [].
Proof.
  induction k as [|k IH]; cbn [replicate concat]; [by destruct (decide (n = 1))|]. unfold handed in *. rewrite omap_app, IH.
  cbn. destruct (decide (1 = n)), (decide (n = 1)); congruence || done.
Qed.

Lemma exec_mac_steps_app ss1 ss2 (w w' : World D) :
  exec_mac_steps ss1 w = Ret w' → exec_mac_steps (ss1 ++ ss2) w = exec_mac_steps ss2 w'.
Proof.
  revert w. induction ss1 as [|s ss1 IH]; intros w; cbn [exec_mac_steps app]; [by intros [= ->]|].
  destruct (exec_mac_step s w) as [w1|]; [apply IH|done].
Qed.

(** A user early in the list that transmits again in every callback keeps the
    others waiting for as long as it does. *)
Theorem first_user_starves_others f1 f2 b k :
  ∃ w, exec_mac_steps ([SetTransmitClient 1; UserTransmit 1 f1; UserTransmit 2 f2] ++ replicate k (DeviceDone b true (Ok tt)))
         (start d [2; 1] (mkScript [] (replicate k [(1, f1)]))) = Ret w ∧
    waiting (mux w) 2 = [f2] ∧ handed 2 (trace w) = [] ∧ handed 1 (trace w) = replicate (S k) f1.
Proof.
  eexists. rewrite (exec_mac_steps_app _ _ _ _ (busy_start f1 f2 _)), busy_rounds. split; [done|]. split; [done|]. cbn [trace].
  unfold handed. rewrite !omap_app. fold (handed 1 (concat (replicate k (round f1 b)))) (handed 2 (concat (replicate k (round f1 b)))).
  by rewrite !handed_rounds.
Qed.
End Runs.

(** ** Witnesses *)

Definition sample_frame (b : Z) : Frame := mkFrame [b] (mkInfo Data 0 0 1 0 None).

Definition sample_steps : list MacStep :=
  [SetTransmitClient 1; SetTransmitClient 2; SetReceiveClient 3; UserTransmit 2 (sample_frame 1); UserTransmit 1 (sample_frame 2);
   DeviceDone [7] false (Err NOACK); DeviceDone [8] true (Ok tt)].

(** A client that transmits for another user in its callback, and a device that
    refuses a frame meanwhile. *)
Definition sample_script (r : TransmitResult) : Script :=
  mkScript [Ok tt; r] [[(3, sample_frame 3); (2, sample_frame 4)]; [(1, sample_frame 5)]].

Lemma sample_users : NoDup [3; 2; 1].
Proof. repeat constructor; rewrite ?list_elem_of_In; cbn; intuition lia. Qed.

Lemma virtual_mac_contract_witness :
  ∃ w, exec_mac_steps sample_steps (start tt [3; 2; 1] (sample_script (Err (OFF, [9])))) = Ret w ∧
    device_run Free (trace w) = Some (device_state (mux w)) ∧
    ∀ n, requests n (trace w) = handed n (trace w) ++ waiting (mux w) n.
Proof. apply (virtual_mac_contract tt [3; 2; 1]). exact sample_users. Defined.

Lemma free_device_nobody_waits_witness :
  ∃ w, exec_mac_steps sample_steps (start tt [3; 2; 1] (sample_script (Ok tt))) = Ret w ∧
    (inflight (mux w) = None → ∀ n, n ∈ [3; 2; 1] → waiting (mux w) n = []).
Proof. apply (free_device_nobody_waits tt [3; 2; 1]); [exact sample_users|repeat constructor]. Defined.

(** The nested run of the first witness, event by event. *)
Example nested_trace :
  (w ← exec_mac_steps sample_steps (start tt [3; 2; 1] (sample_script (Err (OFF, [9])))); Ret (trace w)) =
  Ret [Requested 2 (sample_frame 1); DeviceTransmit 2 (sample_frame 1) (Ok tt); Requested 1 (sample_frame 2);
       SendDone 2 [7] false (Err NOACK); Requested 3 (sample_frame 3); DeviceTransmit 1 (sample_frame 2) (Err (OFF, [9]));
       SendDone 1 [9] false (Err OFF); Requested 1 (sample_frame 5); DeviceTransmit 1 (sample_frame 5) (Ok tt);
       Requested 2 (sample_frame 4); SendDone 1 [8] true (Ok tt); DeviceTransmit 2 (sample_frame 4) (Ok tt)].
Proof. vm_compute. reflexivity. Qed.
