(* ===== verification/LogStorage.v ===== *)
(** * Log storage (capsules/extra/src/log.rs)

    [Log] keeps a sequence of entries on flash.  An entry lies in one page, after
    a header with its length; a page starts with its identifier, the position of
    its first byte in the endless stream of all pages ever written, and the
    volume holds that stream modulo its size.  The newest page is in a buffer,
    which is written when it is full or by [sync].  Reads go to the buffer or
    straight to the flash.  [new] finds the log again after a reboot.

    The flash driver answers a command at once, which is an argument, and
    completes it later ([write_complete] and [erase_complete] are its callbacks).
    The code subtracts what may be larger, so the build profile is a parameter:
    [checks] for overflow checks.  The callbacks of the clients are events; they
    come last in the code that makes them.  [usize] has four bytes, in the
    little-endian order of the targets. *)

From S2P Require Import Prelude Bytes Syscall.

Definition PAGE_HEADER_SIZE : Z := 4.
Definition ENTRY_HEADER_SIZE : Z := 4.
Definition PAD_BYTE : Z := 255.

Inductive LogState : Type := LogIdle | LogRead | LogSeek | LogAppend | LogSync | LogErase.

#[export] Instance LogState_eq_dec : EqDecision LogState.
Proof. solve_decision. Defined.

(** [Log]; [volume] is the flash memory behind the slice, [volume_ptr] its
    address, the clients are present or not, [deferred] is the deferred call. *)
Record Log := mkLog {
  volume : list Z;
  volume_ptr : Z;
  capacity : Z;
  pagebuffer : option (list Z);
  page_size : Z;
  circular : bool;
  read_client : bool;
  append_client : bool;
  state : LogState;
  oldest_entry_id : Z;
  read_entry_id : Z;
  append_entry_id : Z;
  deferred : bool;
  buffer : option (list Z);
  length_ : Z;
  records_lost : bool;
  error : result unit ErrorCode
}.

Definition set_volume (l : Log) (x : list Z) : Log :=
  mkLog x (volume_ptr l) (capacity l) (pagebuffer l) (page_size l) (circular l) (read_client l) (append_client l) (state l)
    (oldest_entry_id l) (read_entry_id l) (append_entry_id l) (deferred l) (buffer l) (length_ l) (records_lost l) (error l).
Definition set_pagebuffer (l : Log) (x : option (list Z)) : Log :=
  mkLog (volume l) (volume_ptr l) (capacity l) x (page_size l) (circular l) (read_client l) (append_client l) (state l)
    (oldest_entry_id l) (read_entry_id l) (append_entry_id l) (deferred l) (buffer l) (length_ l) (records_lost l) (error l).
Definition set_clients (l : Log) (r a : bool) : Log :=
  mkLog (volume l) (volume_ptr l) (capacity l) (pagebuffer l) (page_size l) (circular l) r a (state l)
    (oldest_entry_id l) (read_entry_id l) (append_entry_id l) (deferred l) (buffer l) (length_ l) (records_lost l) (error l).
Definition set_state (l : Log) (x : LogState) : Log :=
  mkLog (volume l) (volume_ptr l) (capacity l) (pagebuffer l) (page_size l) (circular l) (read_client l) (append_client l) x
    (oldest_entry_id l) (read_entry_id l) (append_entry_id l) (deferred l) (buffer l) (length_ l) (records_lost l) (error l).
Definition set_oldest (l : Log) (x : Z) : Log :=
  mkLog (volume l) (volume_ptr l) (capacity l) (pagebuffer l) (page_size l) (circular l) (read_client l) (append_client l) (state l)
    x (read_entry_id l) (append_entry_id l) (deferred l) (buffer l) (length_ l) (records_lost l) (error l).
Definition set_read_id (l : Log) (x : Z) : Log :=
  mkLog (volume l) (volume_ptr l) (capacity l) (pagebuffer l) (page_size l) (circular l) (read_client l) (append_client l) (state l)
    (oldest_entry_id l) x (append_entry_id l) (deferred l) (buffer l) (length_ l) (records_lost l) (error l).
Definition set_append_id (l : Log) (x : Z) : Log :=
  mkLog (volume l) (volume_ptr l) (capacity l) (pagebuffer l) (page_size l) (circular l) (read_client l) (append_client l) (state l)
    (oldest_entry_id l) (read_entry_id l) x (deferred l) (buffer l) (length_ l) (records_lost l) (error l).
Definition set_deferred (l : Log) (x : bool) : Log :=
  mkLog (volume l) (volume_ptr l) (capacity l) (pagebuffer l) (page_size l) (circular l) (read_client l) (append_client l) (state l)
    (oldest_entry_id l) (read_entry_id l) (append_entry_id l) x (buffer l) (length_ l) (records_lost l) (error l).
Definition set_buffer (l : Log) (x : option (list Z)) : Log :=
  mkLog (volume l) (volume_ptr l) (capacity l) (pagebuffer l) (page_size l) (circular l) (read_client l) (append_client l) (state l)
    (oldest_entry_id l) (read_entry_id l) (append_entry_id l) (deferred l) x (length_ l) (records_lost l) (error l).
Definition set_length (l : Log) (x : Z) : Log :=
  mkLog (volume l) (volume_ptr l) (capacity l) (pagebuffer l) (page_size l) (circular l) (read_client l) (append_client l) (state l)
    (oldest_entry_id l) (read_entry_id l) (append_entry_id l) (deferred l) (buffer l) x (records_lost l) (error l).
Definition set_lost (l : Log) (x : bool) : Log :=
  mkLog (volume l) (volume_ptr l) (capacity l) (pagebuffer l) (page_size l) (circular l) (read_client l) (append_client l) (state l)
    (oldest_entry_id l) (read_entry_id l) (append_entry_id l) (deferred l) (buffer l) (length_ l) x (error l).
Definition set_error (l : Log) (x : result unit ErrorCode) : Log :=
  mkLog (volume l) (volume_ptr l) (capacity l) (pagebuffer l) (page_size l) (circular l) (read_client l) (append_client l) (state l)
    (oldest_entry_id l) (read_entry_id l) (append_entry_id l) (deferred l) (buffer l) (length_ l) (records_lost l) x.

(** The callbacks of the clients, and the commands of the flash driver. *)
Inductive LogEvent : Type :=
| ReadDone (buf : list Z) (len : Z) (r : result unit ErrorCode)
| SeekDone (r : result unit ErrorCode)
| AppendDone (buf : list Z) (len : Z) (lost : bool) (r : result unit ErrorCode)
| SyncDone (r : result unit ErrorCode)
| EraseDone (r : result unit ErrorCode).

Inductive FlashCommand : Type := WritePage (n : Z) (page : list Z) | ErasePage (n : Z).

(** The immediate answer of the driver: [None] when it takes the command. *)
Abbreviation DriverAnswer := (option ErrorCode).

(** The answer of a call, with the buffer if it comes back. *)
Abbreviation LogAnswer := (result unit (ErrorCode * option (list Z))).

Section Log.
Context (checks : bool).

Local Infix "+!" := (plain_add checks) (at level 50).
Local Infix "-!" := (plain_sub checks) (at level 50).

(** ** Positions *)

Definition page_number (l : Log) (entry_id : Z) : outcome Z :=
  o ← urem entry_id (zlen (volume l)); a ← volume_ptr l +! o; udiv a (page_size l).

Definition get_buffer (l : Log) (pos : Z) (page : list Z) : outcome (list Z) :=
  p ← udiv pos (page_size l); e ← append_entry_id l -! 1; q ← udiv e (page_size l);
  Ret (if p =? q then page else volume l).

Definition get_byte (l : Log) (pos : Z) (page : list Z) : outcome Z :=
  buf ← get_buffer l pos page; i ← urem pos (zlen buf); index_get buf i.

Definition get_bytes (l : Log) (pos num_bytes : Z) (page : list Z) : outcome (list Z) :=
  buf ← get_buffer l pos page; offset ← urem pos (zlen buf); hi ← offset +! num_bytes;
  match get_range buf offset hi with Some bs => Ret bs | None => Panic end.

Definition log_reset (l : Log) : bool * Log :=
  let l := set_append_id (set_read_id (set_oldest l PAGE_HEADER_SIZE) PAGE_HEADER_SIZE) PAGE_HEADER_SIZE in
  match pagebuffer l with
  | None => (false, l)
  | Some page => (true, set_pagebuffer l (Some (replicate (length page) 0)))
  end.

Definition reset_pagebuffer (l : Log) (page : list Z) : outcome (bool * Log * list Z) :=
  let id := append_entry_id l in
  next ← id +! page_size l;
  if negb (circular l) && (zlen (volume l) <? next) then Ret (false, l, page)
  else
    r ← urem id (page_size l);
    id ← (if r =? 0 then Ret id else d ← page_size l -! r; id +! d);
    page ← splice page 0 (le_bytes 4 id);
    id ← id +! PAGE_HEADER_SIZE;
    Ret (true, set_append_id l id, page).

(** ** Reconstruction *)

(** [usize::from_ne_bytes] of four bytes of the volume. *)
Definition volume_word (l : Log) (pos : Z) : outcome Z :=
  hi ← pos +! 4; match get_range (volume l) pos hi with Some bs => Ret (from_le_bytes bs) | None => Panic end.

(** The loop over the page headers: the identifiers of the oldest and the newest
    page. *)
Fixpoint scan_headers (l : Log) (headers : list Z) (oldest newest : Z) : outcome (Z * Z) :=
  match headers with
  | [] => Ret (oldest, newest)
  | pos :: headers =>
      page_id ← volume_word l pos;
      r ← urem page_id (zlen (volume l));
      if r =? pos then
        scan_headers l headers (if page_id <? oldest then page_id else oldest) (if newest <? page_id then page_id else newest)
      else scan_headers l headers oldest newest
  end.

(** [(0..volume.len()).step_by(page_size)], which panics for a step of zero. *)
Definition header_positions (l : Log) : outcome (list Z) :=
  if page_size l =? 0 then Panic
  else Ret (map (λ i : nat, Z.of_nat i * page_size l) (seq 0 (Z.to_nat ((zlen (volume l) + page_size l - 1) / page_size l)))).

(** The walk over the entries of the newest page; running out of fuel, a walk
    that never ends, is [Panic]. *)
Fixpoint walk_entries (l : Log) (fuel : nat) (newest len : Z) : outcome Z :=
  match fuel with
  | O => Panic
  | S fuel =>
      r ← urem newest (zlen (volume l)); offset ← r +! len;
      b ← index_get (volume l) offset;
      if (b =? 0) || (b =? PAD_BYTE) then Ret len
      else
        n ← volume_word l offset;
        entry_length ← n +! ENTRY_HEADER_SIZE;
        next ← len +! entry_length;
        if next <=? page_size l then if next =? page_size l then Ret next else walk_entries l fuel newest next
        else Ret len
  end.

(** The loop that copies the newest page into the buffer. *)
Definition copy_page (l : Log) (newest : Z) (page : list Z) : outcome (list Z) :=
  r ← urem newest (zlen (volume l)); hi ← r +! page_size l;
  match get_range (volume l) r hi with Some bs => splice page 0 bs | None => Panic end.

Definition reconstruct (l : Log) : outcome Log :=
  headers ← header_positions l;
  '(oldest, newest) ← scan_headers l headers (usize_bound - 1) 0;
  if oldest =? usize_bound - 1 then Ret (log_reset l).2
  else
    len ← walk_entries l (S (Z.to_nat (page_size l))) newest PAGE_HEADER_SIZE;
    start ← oldest +! PAGE_HEADER_SIZE;
    end_ ← newest +! len;
    let l := set_append_id (set_read_id (set_oldest l start) start) end_ in
    match pagebuffer l with
    | None => Panic
    | Some page =>
        r ← urem len (page_size l);
        '(done, l, page) ← (if r =? 0 then reset_pagebuffer l page else Ret (false, l, page));
        page ← (if done : bool then Ret page else copy_page l newest page);
        Ret (set_pagebuffer l (Some page))
    end.

Definition Log_new (volume : list Z) (volume_ptr : Z) (page : list Z) (circular : bool) : outcome Log :=
  let page_size := zlen page in
  n ← udiv (zlen volume) page_size; h ← plain_mul checks PAGE_HEADER_SIZE n; capacity ← zlen volume -! h;
  reconstruct (mkLog volume volume_ptr capacity (Some page) page_size circular false false LogIdle
    PAGE_HEADER_SIZE PAGE_HEADER_SIZE PAGE_HEADER_SIZE false None 0 false (Err NODEVICE)).

(** ** Callbacks of the clients *)

(** Without its client the code unwraps [None]. *)
Definition client_callback (l : Log) : outcome (Log * list LogEvent) :=
  let st := state l in
  let l := set_state l LogIdle in
  match st with
  | LogIdle => Ret (l, [])
  | LogRead =>
      if read_client l then
        match buffer l with Some buf => Ret (set_buffer l None, [ReadDone buf (length_ l) (error l)]) | None => Panic end
      else Panic
  | LogSeek => if read_client l then Ret (l, [SeekDone (error l)]) else Panic
  | LogAppend =>
      if append_client l then
        match buffer l with
        | Some buf => Ret (set_buffer l None, [AppendDone buf (length_ l) (records_lost l) (error l)])
        | None => Panic
        end
      else Panic
  | LogSync => if append_client l then Ret (l, [SyncDone (error l)]) else Panic
  | LogErase => if append_client l then Ret (l, [EraseDone (error l)]) else Panic
  end.

Definition handle_deferred_call (l : Log) : outcome (Log * list LogEvent) := client_callback l.

(** ** Reading *)

Definition get_next_entry (l : Log) : outcome (result Z ErrorCode) :=
  match pagebuffer l with
  | None => Ret (Err RESERVE)
  | Some page =>
      let id := read_entry_id l in
      r ← urem id (page_size l);
      id ← (if r =? 0 then id +! PAGE_HEADER_SIZE
            else
              b ← get_byte l id page;
              if b =? PAD_BYTE then d ← page_size l -! r; d ← d +! PAGE_HEADER_SIZE; id +! d else Ret id);
      if append_entry_id l <=? id then Ret (Err FAIL) else Ret (Ok id)
  end.

Definition read_entry_header (l : Log) (entry_id : Z) : outcome (result Z ErrorCode) :=
  match pagebuffer l with
  | None => Ret (Err RESERVE)
  | Some page =>
      bs ← get_bytes l entry_id 4 page;
      let len := from_le_bytes bs in
      a ← page_size l -! PAGE_HEADER_SIZE; m ← a -! ENTRY_HEADER_SIZE;
      if (len =? 0) || (m <? len) then Ret (Err FAIL) else Ret (Ok len)
  end.

(** The number of bytes read, and the buffer of the client. *)
Definition read_entry (l : Log) (buf : list Z) (len : Z) : outcome (result Z ErrorCode * list Z * Log) :=
  next ← get_next_entry l;
  match next with
  | Err e => Ret (Err e, buf, l)
  | Ok id =>
      header ← read_entry_header l id;
      match header, pagebuffer l with
      | Err e, _ => Ret (Err e, buf, l)
      | Ok _, None => Ret (Err RESERVE, buf, l)
      | Ok n, Some page =>
          if len <? n then Ret (Err SIZE, buf, l)
          else
            id ← id +! ENTRY_HEADER_SIZE;
            data ← get_bytes l id n page;
            buf ← splice buf 0 data;
            id ← id +! n;
            Ret (Ok n, buf, set_read_id l id)
      end
  end.

Definition log_read (l : Log) (buf : list Z) (len : Z) : outcome (result unit (ErrorCode * list Z) * Log) :=
  if negb (bool_decide (state l = LogIdle)) then Ret (Err (BUSY, buf), l)
  else if zlen buf <? len then Ret (Err (INVAL, buf), l)
  else if append_entry_id l <? read_entry_id l then Ret (Err (CANCEL, buf), set_read_id l (oldest_entry_id l))
  else if negb (read_client l) then Ret (Err (RESERVE, buf), l)
  else
    '(r, buf, l) ← read_entry l buf len;
    match r with
    | Ok n => Ret (Ok tt, set_deferred (set_error (set_length (set_buffer (set_state l LogRead) (Some buf)) n) (Ok tt)) true)
    | Err e => Ret (Err (e, buf), l)
    end.

Definition log_start (l : Log) : Z := oldest_entry_id l.
Definition log_end (l : Log) : Z := append_entry_id l.
Definition next_read_entry_id (l : Log) : Z := read_entry_id l.
Definition get_size (l : Log) : Z := capacity l.

Definition seek (l : Log) (entry_id : Z) : result unit ErrorCode * Log :=
  if (entry_id <=? append_entry_id l) && (oldest_entry_id l <=? entry_id) then
    (Ok tt, set_deferred (set_error (set_state (set_read_id l entry_id) LogSeek) (Ok tt)) true)
  else (Err INVAL, l).

(** ** Appending *)

Definition append_entry (l : Log) (buf : list Z) (len : Z) (page : list Z) : outcome (Log * list LogEvent) :=
  let id := append_entry_id l in
  offset ← urem id (page_size l);
  page ← splice page offset (le_bytes 4 len);
  offset ← offset +! ENTRY_HEADER_SIZE;
  match get_range buf 0 len with
  | None => Panic
  | Some data =>
      page ← splice page offset data;
      id ← id +! len; id ← id +! ENTRY_HEADER_SIZE;
      let l := set_buffer (set_pagebuffer (set_append_id l id) (Some page)) (Some buf) in
      client_callback (set_error (set_lost l (negb (oldest_entry_id l =? PAGE_HEADER_SIZE))) (Ok tt))
  end.

(** The loop that pads the page: it ends at the next page boundary, so the size
    of a page is enough fuel. *)
Fixpoint pad_page (fuel : nat) (size : Z) (page : list Z) (pad_ptr : Z) : outcome (list Z * Z) :=
  match fuel with
  | O => Panic
  | S fuel =>
      r ← urem pad_ptr size;
      if r =? 0 then Ret (page, pad_ptr)
      else page ← index_set page r PAD_BYTE; pad_ptr ← pad_ptr +! 1; pad_page fuel size page pad_ptr
  end.

Definition flush_pagebuffer (ans : DriverAnswer) (l : Log) (page : list Z) : outcome (result unit ErrorCode * Log * option FlashCommand) :=
  let P := page_size l in
  '(page, pad) ← pad_page (S (Z.to_nat P)) P page (append_entry_id l);
  start ← pad -! P;
  n ← page_number l start;
  o ← pad -! zlen (volume l); o ← o -! P; overwritten ← udiv o P;
  let rd := read_entry_id l in
  rp ← udiv rd P;
  l ← (if rp =? overwritten then
         rr ← urem rd P; a ← rd +! P; a ← a +! PAGE_HEADER_SIZE; a ← a -! rr; Ret (set_read_id l a)
       else Ret l);
  let old := oldest_entry_id l in
  op ← udiv old P;
  l ← (if op =? overwritten then a ← old +! P; Ret (set_oldest l a) else Ret l);
  match ans with
  | None => Ret (Ok tt, l, Some (WritePage n page))
  | Some e => Ret (Err e, set_pagebuffer l (Some page), None)
  end.

(** What a call of the client gives: its result, the log, the command it has
    started, and the callbacks made before it returns. *)
Definition append (ans : DriverAnswer) (l : Log) (buf : list Z) (len : Z)
    : outcome (result unit (ErrorCode * list Z) * Log * option FlashCommand * list LogEvent) :=
  entry_size ← len +! ENTRY_HEADER_SIZE;
  if negb (bool_decide (state l = LogIdle)) then Ret (Err (BUSY, buf), l, None, [])
  else if (len =? 0) || (zlen buf <? len) then Ret (Err (INVAL, buf), l, None, [])
  else
    total ← entry_size +! PAGE_HEADER_SIZE;
    if page_size l <? total then Ret (Err (SIZE, buf), l, None, [])
    else
      full ← (if circular l then Ret false else e ← append_entry_id l +! entry_size; Ret (zlen (volume l) <? e));
      if full : bool then Ret (Err (FAIL, buf), l, None, [])
      else
        match pagebuffer l with
        | None => Ret (Err (RESERVE, buf), l, None, [])
        | Some page =>
            let l := set_length (set_state (set_pagebuffer l None) LogAppend) len in
            r ← urem (append_entry_id l) (page_size l);
            space ← page_size l -! r;
            if negb (r =? 0) && (entry_size <=? space) then
              '(l, evs) ← append_entry l buf len page; Ret (Ok tt, l, None, evs)
            else
              '(res, l, cmd) ← flush_pagebuffer ans (set_buffer l (Some buf)) page;
              match res with
              | Ok _ => Ret (Ok tt, l, cmd, [])
              | Err e =>
                  match buffer l with
                  | None => Panic
                  | Some buf => Ret (Err (e, buf), set_buffer (set_state l LogIdle) None, cmd, [])
                  end
              end
        end.

Definition sync (ans : DriverAnswer) (l : Log) : outcome (result unit ErrorCode * Log * option FlashCommand) :=
  r ← urem (append_entry_id l) (page_size l);
  if r =? PAGE_HEADER_SIZE then Ret (Ok tt, l, None)
  else if negb (bool_decide (state l = LogIdle)) then Ret (Err BUSY, l, None)
  else
    match pagebuffer l with
    | None => Ret (Err RESERVE, l, None)
    | Some page =>
        '(res, l, cmd) ← flush_pagebuffer ans (set_state (set_pagebuffer l None) LogSync) page;
        Ret (res, match res with Ok _ => l | Err _ => set_state l LogIdle end, cmd)
    end.

(** ** Erasing *)

Definition erase_page (ans : DriverAnswer) (l : Log) : outcome (result unit ErrorCode * option FlashCommand) :=
  n ← page_number l (oldest_entry_id l);
  Ret (match ans with None => (Ok tt, Some (ErasePage n)) | Some e => (Err e, None) end).

Definition erase (ans : DriverAnswer) (l : Log) : outcome (result unit ErrorCode * Log * option FlashCommand) :=
  if negb (bool_decide (state l = LogIdle)) then Ret (Err BUSY, l, None)
  else
    let l := set_state l LogErase in
    '(res, cmd) ← erase_page ans l; Ret (res, l, cmd).

(** ** Callbacks of the flash driver *)

Definition write_complete (l : Log) (page : list Z) (ok : bool) : outcome (Log * list LogEvent) :=
  if ok then
    match state l with
    | LogAppend =>
        '(done, l, page) ← reset_pagebuffer l page;
        if done : bool then
          match buffer l with
          | Some buf => append_entry (set_buffer l None) buf (length_ l) page
          | None => Panic
          end
        else client_callback (set_error (set_lost (set_length (set_pagebuffer l (Some page)) 0) false) (Err CANCEL))
    | LogSync =>
        r ← urem (append_entry_id l) (page_size l);
        '(_, l, page) ← (if r =? 0 then reset_pagebuffer l page else Ret (true, l, page));
        client_callback (set_error (set_pagebuffer l (Some page)) (Ok tt))
    | _ => Panic
    end
  else
    let l := set_pagebuffer l (Some page) in
    match state l with
    | LogAppend => client_callback (set_error (set_lost (set_length l 0) false) (Err FAIL))
    | LogSync => client_callback (set_error l (Err FAIL))
    | _ => Panic
    end.

Definition erase_complete (ans : DriverAnswer) (l : Log) (ok : bool) : outcome (Log * option FlashCommand * list LogEvent) :=
  if ok then
    let old := oldest_entry_id l in
    e ← append_entry_id l -! page_size l;
    if e <=? old then
      let '(done, l) := log_reset l in
      '(l, evs) ← client_callback (set_error l (if done then Ok tt else Err RESERVE)); Ret (l, None, evs)
    else
      next ← old +! page_size l;
      let l := set_oldest l next in
      '(res, cmd) ← erase_page ans l;
      if match res with Err BUSY => true | _ => false end then
        '(l, evs) ← client_callback (set_error (set_read_id l (Z.max (read_entry_id l) old)) (Err BUSY)); Ret (l, cmd, evs)
      else Ret (l, cmd, [])
  else
    '(l, evs) ← client_callback (set_error l (Err FAIL)); Ret (l, None, evs).

(** ** The flash and its driver

    A driver that takes every command and completes it: a page of the flash that
    belongs to the volume becomes what was written, or all ones. *)
Definition flash_page (l : Log) (n : Z) (page : list Z) : Log :=
  let o := n * page_size l - volume_ptr l in
  if (0 <=? o) && (o + page_size l <=? zlen (volume l)) then
    set_volume l (take (Z.to_nat o) (volume l) ++ page ++ drop (Z.to_nat (o + page_size l)) (volume l))
  else l.

Fixpoint complete (fuel : nat) (l : Log) (cmd : option FlashCommand) : outcome (Log * list LogEvent) :=
  match fuel, cmd with
  | _, None => Ret (l, [])
  | O, Some _ => Panic
  | S fuel, Some (WritePage n page) => write_complete (flash_page l n page) page true
  | S fuel, Some (ErasePage n) =>
      '(l, cmd, evs) ← erase_complete None (flash_page l n (replicate (Z.to_nat (page_size l)) 255)) true;
      '(l, evs') ← complete fuel l cmd;
      Ret (l, evs ++ evs')
  end.

(** ** A client that waits for the end of each request *)

Inductive LogOp : Type :=
| OpAppend (buf : list Z) (len : Z) | OpSync | OpRead (buf : list Z) (len : Z) | OpSeek (id : Z) | OpErase | OpReboot.

Definition with_buffer (r : result unit (ErrorCode * list Z)) : LogAnswer :=
  match r with Ok _ => Ok tt | Err (e, buf) => Err (e, Some buf) end.
Definition without_buffer (r : result unit ErrorCode) : LogAnswer :=
  match r with Ok _ => Ok tt | Err e => Err (e, None) end.

(** The call has returned: the driver works, then the deferred call is served.
    An erase takes a command for each page of the log, at most one more than the
    volume has. *)
Definition finish (r : LogAnswer) (l : Log) (cmd : option FlashCommand) (evs : list LogEvent)
    : outcome (LogAnswer * list LogEvent * Log) :=
  '(l, evs1) ← complete (Z.to_nat (zlen (volume l) / page_size l + 2)) l cmd;
  '(l, evs2) ← (if deferred l then handle_deferred_call (set_deferred l false) else Ret (l, []));
  Ret (r, evs ++ evs1 ++ evs2, l).

Definition exec_log_op (l : Log) (o : LogOp) : outcome (LogAnswer * list LogEvent * Log) :=
  match o with
  | OpAppend buf len => '(r, l, cmd, evs) ← append None l buf len; finish (with_buffer r) l cmd evs
  | OpSync => '(r, l, cmd) ← sync None l; finish (without_buffer r) l cmd []
  | OpRead buf len => '(r, l) ← log_read l buf len; finish (with_buffer r) l None []
  | OpSeek id => let '(r, l) := seek l id in finish (without_buffer r) l None []
  | OpErase => '(r, l, cmd) ← erase None l; finish (without_buffer r) l cmd []
  | OpReboot =>
      l ← Log_new (volume l) (volume_ptr l) (replicate (Z.to_nat (page_size l)) 0) (circular l);
      Ret (Ok tt, [], set_clients l true true)
  end.

Fixpoint exec_log_ops (l : Log) (os : list LogOp) : outcome (list (LogAnswer * list LogEvent) * Log) :=
  match os with
  | [] => Ret ([], l)
  | o :: os => '(r, evs, l) ← exec_log_op l o; '(rs, l) ← exec_log_ops l os; Ret ((r, evs) :: rs, l)
  end.

End Log.
