(* ===== verification/LogSpec.v ===== *)
(** * What a log promises (kernel/src/hil/log.rs)

    The abstract log is the list of its entries with their identifiers, the
    identifier to read from and the one to append at, and what a reboot would
    find.  Identifiers are positions in the stream of pages, so that a client can
    see which entries share a page and go together when a circular log runs
    full.  The second part says how the state of [Log] represents it. *)

From S2P Require Import Prelude Bytes Syscall LogStorage.

Record SpecLog := mkSpec {
  entries : list (Z * list Z);
  rd : Z;
  nxt : Z;
  old : Z;
  durable : list (Z * list Z)
}.

Definition spec_empty : SpecLog := mkSpec [] PAGE_HEADER_SIZE PAGE_HEADER_SIZE PAGE_HEADER_SIZE [].

Section Spec.
Context (P N : Z) (circ : bool).

(** The space an entry takes. *)
Definition entry_size (d : list Z) : Z := ENTRY_HEADER_SIZE + zlen d.

(** The current page goes to flash: the page [N] pages before it is overwritten
    and forgotten, and all that is left is on flash. *)
Definition spec_flush (s : SpecLog) : SpecLog :=
  let keep := ((nxt s - 1) / P - N + 1) * P in
  let es := filter (λ e, keep ≤ e.1) (entries s) in
  mkSpec es (if rd s <? keep then keep + PAGE_HEADER_SIZE else rd s) (nxt s) (Z.max (old s) (keep + PAGE_HEADER_SIZE)) es.

(** The next page is begun, after a page that ends at [e]. *)
Definition page_after (e : Z) : Z := (e + P - 1) / P * P + PAGE_HEADER_SIZE.
Definition may_turn (e : Z) : bool := circ || (e + P <=? N * P).
Definition set_nxt (s : SpecLog) (n : Z) : SpecLog := mkSpec (entries s) (rd s) n (old s) (durable s).

Definition spec_append (s : SpecLog) (buf : list Z) (len : Z) : LogAnswer * list LogEvent * SpecLog :=
  if (len =? 0) || (zlen buf <? len) then (Err (INVAL, Some buf), [], s)
  else if P <? len + ENTRY_HEADER_SIZE + PAGE_HEADER_SIZE then (Err (SIZE, Some buf), [], s)
  else if negb circ && (N * P <? nxt s + (len + ENTRY_HEADER_SIZE)) then (Err (FAIL, Some buf), [], s)
  else
    let fits := negb (nxt s mod P =? 0) && (len + ENTRY_HEADER_SIZE <=? P - nxt s mod P) in
    let s := if fits then s else let s := spec_flush s in set_nxt s (page_after (nxt s)) in
    let data := take (Z.to_nat len) buf in
    (Ok tt, [AppendDone buf len (negb (old s =? PAGE_HEADER_SIZE)) (Ok tt)],
     mkSpec (entries s ++ [(nxt s, data)]) (rd s) (nxt s + entry_size data) (old s) (durable s)).

(** A page that has no room for another entry is left behind, where the log may
    go on. *)
Definition turn_full (e : Z) : Z := if (e mod P =? 0) && may_turn e then e + PAGE_HEADER_SIZE else e.

Definition spec_sync (s : SpecLog) : LogAnswer * list LogEvent * SpecLog :=
  if nxt s mod P =? PAGE_HEADER_SIZE then (Ok tt, [], s)
  else let s := spec_flush s in (Ok tt, [SyncDone (Ok tt)], set_nxt s (turn_full (nxt s))).

Definition spec_read (s : SpecLog) (buf : list Z) (len : Z) : LogAnswer * list LogEvent * SpecLog :=
  if zlen buf <? len then (Err (INVAL, Some buf), [], s)
  else
    match List.find (λ e, rd s <=? e.1) (entries s) with
    | None => (Err (FAIL, Some buf), [], s)
    | Some (id, data) =>
        if len <? zlen data then (Err (SIZE, Some buf), [], s)
        else (Ok tt, [ReadDone (data ++ drop (length data) buf) (zlen data) (Ok tt)],
              mkSpec (entries s) (id + entry_size data) (nxt s) (old s) (durable s))
    end.

Definition spec_seek (s : SpecLog) (id : Z) : LogAnswer * list LogEvent * SpecLog :=
  if (id <=? nxt s) && (old s <=? id) then (Ok tt, [SeekDone (Ok tt)], mkSpec (entries s) id (nxt s) (old s) (durable s))
  else (Err (INVAL, None), [], s).

(** After a reboot the log is what was on flash, read from its start. *)
Definition spec_reboot (s : SpecLog) : SpecLog :=
  match durable s, last (durable s) with
  | (first, _) :: _, Some (id, data) =>
      mkSpec (durable s) first (turn_full (id + entry_size data)) first (durable s)
  | _, _ => spec_empty
  end.

Definition spec_op (s : SpecLog) (o : LogOp) : LogAnswer * list LogEvent * SpecLog :=
  match o with
  | OpAppend buf len => spec_append s buf len
  | OpSync => spec_sync s
  | OpRead buf len => spec_read s buf len
  | OpSeek id => spec_seek s id
  | OpErase => (Ok tt, [EraseDone (Ok tt)], spec_empty)
  | OpReboot => (Ok tt, [], spec_reboot s)
  end.

Fixpoint spec_ops (s : SpecLog) (os : list LogOp) : list (LogAnswer * list LogEvent) * SpecLog :=
  match os with
  | [] => ([], s)
  | o :: os => let '(r, evs, s) := spec_op s o in let '(rs, s) := spec_ops s os in ((r, evs) :: rs, s)
  end.

(** ** The requests the promise is for

    Buffers and lengths are machine values, a seek goes to an identifier the
    log has given out, as the documentation asks, and the stream stays below the
    range of [usize].  The length of an entry must not be a multiple of 256 or
    one less, since its first byte is taken for padding or for the end of the
    page; and a log within its first page is not erased. *)
Definition legal_id (s : SpecLog) (id : Z) : Prop :=
  id < old s ∨ nxt s < id ∨ id = old s ∨ id = nxt s ∨ id = rd s ∨
  Exists (λ e, id = e.1 ∨ id = e.1 + entry_size e.2) (entries s).

Definition op_ok (s : SpecLog) (o : LogOp) : Prop :=
  nxt s + (N + 3) * P ≤ usize_bound ∧
  match o with
  | OpAppend buf len =>
      Forall byte buf ∧ 0 ≤ len ∧ len + 8 < usize_bound ∧ (len = 0 ∨ (len mod 256 ≠ 0 ∧ len mod 256 ≠ 255))
  | OpRead buf len => 0 ≤ len
  | OpSeek id => legal_id s id
  | OpErase => P ≤ nxt s
  | OpSync | OpReboot => True
  end.

Fixpoint ops_ok (s : SpecLog) (os : list LogOp) : Prop :=
  match os with [] => True | o :: os => op_ok s o ∧ ops_ok (spec_op s o).2 os end.

(** The flash of a log: [N] pages of [P] bytes, at an address that is a multiple
    of [P], which divides the range of [usize]. *)
Record geometry (volume_ptr : Z) : Prop := {
  geo_page : 8 < P;
  geo_count : 0 < N;
  geo_ptr : 0 ≤ volume_ptr ∧ volume_ptr + N * P < usize_bound;
  geo_align : (P | volume_ptr);
  geo_width : (P | usize_bound)
}.
End Spec.

(** ** The pages of a log on flash

    The bytes of entries and pages, the volume as an array of page slots, and the
    relation between the state of [Log] and the abstract log: which pages are on
    flash, what the page buffer holds, and where the identifiers point. *)

(** *** Bytes *)

Abbreviation Page := (list (list Z)).

Definition encode (d : list Z) : list Z := le_bytes 4 (zlen d) ++ d.
Definition encode_all (es : Page) : list Z := concat (map encode es).
Definition esize (es : Page) : Z := zlen (encode_all es).

(** Entries the log can tell from padding and from the end of a page. *)
Definition entry_ok (d : list Z) : Prop :=
  Forall byte d ∧ 1 ≤ zlen d < usize_bound ∧ zlen d mod 256 ≠ 0 ∧ zlen d mod 256 ≠ 255.

(** Entries with their identifiers, from a position on. *)
Fixpoint place (pos : Z) (es : Page) : list (Z * list Z) :=
  match es with [] => [] | d :: es => (pos, d) :: place (pos + entry_size d) es end.

Lemma esize_cons d es : esize (d :: es) = entry_size d + esize es.
Proof. unfold esize, entry_size, encode_all. cbn [map concat]. unfold encode. rewrite !zlen_app, zlen_le_bytes. unfold ENTRY_HEADER_SIZE. lia. Qed.

Lemma encode_all_app a b : encode_all (a ++ b) = encode_all a ++ encode_all b.
Proof. unfold encode_all. by rewrite map_app, concat_app. Qed.

Lemma esize_app a b : esize (a ++ b) = esize a + esize b.
Proof. unfold esize. by rewrite encode_all_app, zlen_app. Qed.

Lemma esize_nonneg es : 0 ≤ esize es.
Proof. apply zlen_nonneg. Qed.

Lemma entry_size_pos d : 4 ≤ entry_size d.
Proof. unfold entry_size, ENTRY_HEADER_SIZE. pose proof (zlen_nonneg d). lia. Qed.

Lemma place_app pos a b : place pos (a ++ b) = place pos a ++ place (pos + esize a) b.
Proof.
  revert pos. induction a as [|d a IH]; intros pos; cbn [place app]; [by rewrite Z.add_0_r|].
  rewrite IH, esize_cons. f_equal. f_equal. f_equal. lia.
Qed.

Lemma place_bound pos es : Forall (λ e, pos ≤ e.1 ∧ e.1 + entry_size e.2 ≤ pos + esize es) (place pos es).
Proof.
  revert pos. induction es as [|d es IH]; intros pos; cbn [place]; [constructor|]. rewrite esize_cons. pose proof (esize_nonneg es). pose proof (entry_size_pos d).
  constructor; cbn [fst snd]; [lia|]. eapply Forall_impl; [apply IH|]. cbn. intros. lia.
Qed.

Lemma place_nil pos es : place pos es = [] ↔ es = [].
Proof. destruct es; cbn; split; naive_solver. Qed.

Section Pages.
Context (P N : Z).

Definition page_bytes (k : Z) (es : Page) : list Z :=
  le_bytes 4 (k * P) ++ encode_all es ++ replicate (Z.to_nat (P - 4 - esize es)) PAD_BYTE.

(** A page of memory that begins with the entries of page [k]. *)
Definition holds (k : Z) (es : Page) (bs : list Z) : Prop :=
  zlen bs = P ∧ ∃ rest, bs = le_bytes 4 (k * P) ++ encode_all es ++ rest.

Definition page_ok (es : Page) : Prop := es ≠ [] ∧ Forall entry_ok es ∧ 4 + esize es ≤ P.

Fixpoint place_pages (k : Z) (ps : list Page) : list (Z * list Z) :=
  match ps with [] => [] | es :: ps => place (k * P + 4) es ++ place_pages (k + 1) ps end.

Lemma page_bytes_holds k es : 4 + esize es ≤ P → holds k es (page_bytes k es).
Proof.
  intros H. split; [|by eexists]. unfold page_bytes. rewrite !zlen_app, zlen_le_bytes. unfold zlen at 2. rewrite length_replicate.
  fold (esize es). pose proof (esize_nonneg es). lia.
Qed.

Lemma place_pages_app k a b : place_pages k (a ++ b) = place_pages k a ++ place_pages (k + zlen a) b.
Proof.
  revert k. induction a as [|es a IH]; intros k; cbn [place_pages app]; [by rewrite Z.add_0_r|].
  rewrite IH, <- app_assoc. f_equal. f_equal. f_equal. unfold zlen. cbn. lia.
Qed.

(** The entries of pages lie within them. *)
Lemma place_pages_bound k ps : 0 < P → Forall (λ es, 4 + esize es ≤ P) ps →
  Forall (λ e, k * P + 4 ≤ e.1 ∧ e.1 + entry_size e.2 ≤ (k + zlen ps) * P) (place_pages k ps).
Proof.
  intros HP. revert k. induction ps as [|es ps IH]; intros k F; cbn [place_pages]; [constructor|].
  inversion F as [|? ? Hes F']; subst. pose proof (zlen_nonneg ps). assert (El : zlen (es :: ps) = zlen ps + 1) by (unfold zlen; cbn; lia). rewrite El.
  apply Forall_app. split; [eapply Forall_impl; [apply place_bound|]|eapply Forall_impl; [by apply IH|]]; cbn; intros [i d]; cbn; intros; nia.
Qed.

(** *** The volume *)

Definition slot (vol : list Z) (s : Z) : list Z := take (Z.to_nat P) (drop (Z.to_nat (s * P)) vol).
Definition slot_id (vol : list Z) (s : Z) : Z := from_le_bytes (take 4 (slot vol s)).

(** The pages [lo], [lo + 1], ... are on flash, and nothing else that could be
    taken for a page. *)
Definition on_disk (vol : list Z) (lo : Z) (ps : list Page) : Prop :=
  zlen ps ≤ N ∧ Forall page_ok ps ∧
  (∀ i es, ps !! i = Some es → slot vol ((lo + Z.of_nat i) mod N) = page_bytes (lo + Z.of_nat i) es) ∧
  (∀ s, 0 ≤ s < N → (∀ i : nat, (i < length ps)%nat → (lo + Z.of_nat i) mod N ≠ s) → slot_id vol s mod (N * P) ≠ s * P).

(** Overwriting a slot. *)
Definition put_slot (vol : list Z) (s : Z) (bs : list Z) : list Z :=
  take (Z.to_nat (s * P)) vol ++ bs ++ drop (Z.to_nat (s * P + P)) vol.

Lemma zlen_put_slot vol s bs : 0 < P → zlen vol = N * P → 0 ≤ s < N → zlen bs = P → zlen (put_slot vol s bs) = N * P.
Proof.
  intros HP Hv Hs Hb. unfold put_slot, zlen in *. rewrite !length_app, length_take, length_drop.
  assert (s * P + P ≤ N * P) by nia. assert (0 ≤ s * P) by nia. lia.
Qed.

Lemma slot_put_slot vol s bs t : 0 < P → zlen vol = N * P → 0 ≤ s < N → 0 ≤ t < N → zlen bs = P →
  slot (put_slot vol s bs) t = if decide (s = t) then bs else slot vol t.
Proof.
  intros HP Hv Hs Ht Hb. unfold slot, put_slot, zlen in *. assert (s * P + P ≤ N * P) by nia. assert (t * P + P ≤ N * P) by nia.
  assert (0 ≤ s * P) by nia. assert (0 ≤ t * P) by nia.
  assert (Hl : length (take (Z.to_nat (s * P)) vol) = Z.to_nat (s * P)) by (rewrite length_take; lia).
  destruct (decide (s = t)) as [->|Hne].
  { rewrite drop_app_length' by done. by rewrite take_app_length' by lia. }
  destruct (Z.lt_total s t) as [Hlt|[?|Hgt]]; [|done|].
  - assert (s * P + P ≤ t * P) by nia. rewrite drop_app_ge by lia. rewrite drop_app_ge by lia. rewrite drop_drop. f_equal. f_equal. lia.
  - assert (t * P + P ≤ s * P) by nia. rewrite drop_app_le by lia. rewrite take_app_le by (rewrite length_drop; lia).
    rewrite skipn_firstn_comm, take_take. f_equal. lia.
Qed.
End Pages.

(** *** The relation *)

Section Relation.
Context (P N : Z) (circ : bool).

(** The identifier to read from is the start of an entry, the end of one, or the
    start of a page. *)
Definition rd_ok (lo : Z) (ps : list Page) (r : Z) : Prop :=
  (∃ ps1 a b ps2, ps = ps1 ++ (a ++ b) :: ps2 ∧ r = (lo + zlen ps1) * P + 4 + esize a) ∨
  (∃ ps1 es ps2, ps = ps1 ++ es :: ps2 ∧ r = (lo + zlen ps1) * P).

(** Pages [lo] to [c - 1] are complete, [pre]; page [c], [cur], is in the buffer,
    and perhaps an earlier version of it on flash, [syn]. *)
Record core_rel (vol : list Z) (ptr size : Z) (crc : bool) (o r a : Z)
    (lo : Z) (pre : list Page) (cur : Page) (syn : list Page) (bs : list Z) (s : SpecLog) : Prop := {
  c_geo : geometry P N ptr;
  c_vol : zlen vol = N * P;
  c_size : size = P;
  c_circ : crc = circ;
  c_lo : 0 ≤ lo;
  c_old : o = lo * P + 4;
  c_append : a = (lo + zlen pre) * P + 4 + esize cur;
  c_cur : Forall entry_ok cur ∧ 4 + esize cur ≤ P;
  c_holds : holds P (lo + zlen pre) cur bs;
  c_disk : on_disk P N vol lo (pre ++ syn);
  c_syn : syn = [] ∨ ∃ cur0 rest, syn = [cur0] ∧ cur = cur0 ++ rest;
  c_rdok : rd_ok lo (pre ++ [cur]) r;
  c_entries : entries s = place_pages P lo (pre ++ [cur]);
  c_rd : rd s = r;
  c_nxt : nxt s = a;
  c_oldest : old s = o;
  c_durable : durable s = place_pages P lo (pre ++ syn)
}.

#[local] Arguments c_geo {_ _ _ _ _ _ _ _ _ _ _ _ _} _.
#[local] Arguments c_size {_ _ _ _ _ _ _ _ _ _ _ _ _} _.

Definition core (l : Log) : Z → list Page → Page → list Page → list Z → SpecLog → Prop :=
  core_rel (volume l) (volume_ptr l) (page_size l) (circular l) (oldest_entry_id l) (read_entry_id l) (append_entry_id l).

(** Between two requests. *)
Record idle (l : Log) (bs : list Z) : Prop := {
  i_page : pagebuffer l = Some bs;
  i_state : state l = LogIdle;
  i_rc : read_client l = true;
  i_ac : append_client l = true;
  i_def : deferred l = false;
  i_buf : buffer l = None
}.

Definition repr (l : Log) (s : SpecLog) : Prop := ∃ lo pre cur syn bs, core l lo pre cur syn bs s ∧ idle l bs.

(** The current page, as the code computes it. *)
Lemma current_page l lo pre cur syn bs s : core l lo pre cur syn bs s → append_entry_id l + P ≤ usize_bound →
  ∀ checks, plain_sub checks (append_entry_id l) 1 = Ret (append_entry_id l - 1) ∧ (append_entry_id l - 1) / P = lo + zlen pre.
Proof.
  intros [G V S C Lo O A [_ Hc] H D Sy R E1 E2 E3 E4 E5] Hb checks. destruct G. pose proof (esize_nonneg cur). pose proof (zlen_nonneg pre).
  assert (0 ≤ (lo + zlen pre) * P) by nia. split; [apply plain_sub_ok; lia|].
  symmetry. apply (Z.div_unique _ _ _ (3 + esize cur)); lia.
Qed.

(** The content of page [k], in the buffer or on flash. *)
Definition content (l : Log) (c : Z) (bs : list Z) (k : Z) : list Z :=
  if k =? c then bs else slot P (volume l) (k mod N).

Lemma zlen_slot vol s : 0 < P → zlen vol = N * P → 0 ≤ s < N → zlen (slot P vol s) = P.
Proof. intros HP Hv Hs. unfold slot, zlen in *. rewrite length_take, length_drop. assert (s * P + P ≤ N * P) by nia. assert (0 ≤ s * P) by nia. lia. Qed.

(** A position is read in the content of its page. *)
Lemma get_buffer_ok l lo pre cur syn bs s k off checks : core l lo pre cur syn bs s → append_entry_id l + P ≤ usize_bound →
  0 ≤ k → 0 ≤ off < P →
  get_buffer checks l (k * P + off) bs = Ret (if k =? lo + zlen pre then bs else volume l).
Proof.
  intros H Hb Hk Hoff. destruct (current_page _ _ _ _ _ _ _ H Hb checks) as [E1 E2]. pose proof (geo_page _ _ _ (c_geo H)) as HP.
  unfold get_buffer. rewrite (c_size H). rewrite udiv_ok by lia. cbn [mbind outcome_bind]. rewrite E1. cbn [mbind outcome_bind].
  rewrite udiv_ok by lia. cbn [mbind outcome_bind]. rewrite E2. replace ((k * P + off) / P) with k; [done|].
  apply (Z.div_unique _ _ _ off); lia.
Qed.

(** Where a position lies in the volume. *)
Lemma volume_offset k off : 0 < P → 0 < N → 0 ≤ k → 0 ≤ off < P → (k * P + off) mod (N * P) = k mod N * P + off.
Proof.
  intros HP HN Hk Hoff. pose proof (Z.mod_pos_bound k N HN). symmetry. apply (Z.mod_unique _ _ (k / N)); [left; nia|].
  rewrite (Z.div_mod k N) at 1 by lia. ring.
Qed.

Lemma get_range_slot vol s off n : 0 < P → zlen vol = N * P → 0 ≤ s < N → 0 ≤ off → 0 ≤ n → off + n ≤ P →
  get_range vol (s * P + off) (s * P + off + n) = Some (take (Z.to_nat n) (drop (Z.to_nat off) (slot P vol s))).
Proof.
  intros HP Hv Hs Ho Hn Hle. assert (s * P + P ≤ N * P) by nia. assert (0 ≤ s * P) by nia. apply get_range_Some. split_and!; [lia..|].
  unfold slot. rewrite skipn_firstn_comm, take_take, drop_drop. f_equal; [lia|]. f_equal. lia.
Qed.

Lemma get_bytes_ok l lo pre cur syn bs s k off n checks : core l lo pre cur syn bs s → append_entry_id l + P ≤ usize_bound →
  0 ≤ k → 0 ≤ off < P → 0 ≤ n → off + n ≤ P →
  get_bytes checks l (k * P + off) n bs = Ret (take (Z.to_nat n) (drop (Z.to_nat off) (content l (lo + zlen pre) bs k))).
Proof.
  intros H Hb Hk Hoff Hn Hle. unfold get_bytes. rewrite (get_buffer_ok _ _ _ _ _ _ _ _ _ _ H Hb Hk Hoff). cbn [mbind outcome_bind]. unfold content.
  destruct H as [[HP HN [Hp0 Hp] _ _] V S C Lo O A [_ Hc] [Hbs _] D Sy R E1 E2 E3 E4 E5].
  assert (HNP : N * P < usize_bound) by lia. assert (HPN : P ≤ N * P) by nia. destruct (k =? lo + zlen pre).
  - rewrite Hbs, urem_ok by lia. cbn [mbind outcome_bind]. replace ((k * P + off) mod P) with off by (apply (Z.mod_unique _ _ k); lia).
    rewrite plain_add_ok by lia. cbn [mbind outcome_bind].
    rewrite (proj2 (get_range_Some bs (take (Z.to_nat n) (drop (Z.to_nat off) bs)) off (off + n))); [reflexivity|].
    split_and!; [lia..|]. f_equal. lia.
  - rewrite V, urem_ok by nia. cbn [mbind outcome_bind]. rewrite volume_offset by lia. pose proof (Z.mod_pos_bound k N HN).
    assert (k mod N * P + P ≤ N * P) by nia. rewrite plain_add_ok by nia. cbn [mbind outcome_bind]. by rewrite get_range_slot by lia.
Qed.

Lemma get_byte_ok l lo pre cur syn bs s k off b checks : core l lo pre cur syn bs s → append_entry_id l + P ≤ usize_bound →
  0 ≤ k → 0 ≤ off < P → content l (lo + zlen pre) bs k !! Z.to_nat off = Some b →
  get_byte checks l (k * P + off) bs = Ret b.
Proof.
  intros H Hb Hk Hoff. unfold get_byte. rewrite (get_buffer_ok _ _ _ _ _ _ _ _ _ _ H Hb Hk Hoff). cbn [mbind outcome_bind]. unfold content.
  destruct H as [[HP HN _ _ _] V S C Lo O A [_ Hc] [Hbs _] D Sy R E1 E2 E3 E4 E5]. destruct (k =? lo + zlen pre); intros Eb; unfold index_get.
  - rewrite Hbs, urem_ok by lia. cbn [mbind outcome_bind]. replace ((k * P + off) mod P) with off by (apply (Z.mod_unique _ _ k); lia).
    rewrite (proj2 (Z.ltb_ge _ _)) by lia. by rewrite Eb.
  - rewrite V, urem_ok by nia. cbn [mbind outcome_bind]. rewrite volume_offset by lia. pose proof (Z.mod_pos_bound k N HN).
    rewrite (proj2 (Z.ltb_ge _ _)) by nia. unfold slot in Eb. apply lookup_take_Some in Eb as [Eb _]. rewrite lookup_drop in Eb.
    replace (Z.to_nat (k mod N * P + off)) with (Z.to_nat (k mod N * P) + Z.to_nat off)%nat by nia. by rewrite Eb.
Qed.
End Relation.

Arguments c_geo {_ _ _ _ _ _ _ _ _ _ _ _ _ _ _ _} _.
Arguments c_vol {_ _ _ _ _ _ _ _ _ _ _ _ _ _ _ _} _.
Arguments c_size {_ _ _ _ _ _ _ _ _ _ _ _ _ _ _ _} _.
Arguments c_circ {_ _ _ _ _ _ _ _ _ _ _ _ _ _ _ _} _.
Arguments c_lo {_ _ _ _ _ _ _ _ _ _ _ _ _ _ _ _} _.
Arguments c_old {_ _ _ _ _ _ _ _ _ _ _ _ _ _ _ _} _.
Arguments c_append {_ _ _ _ _ _ _ _ _ _ _ _ _ _ _ _} _.
Arguments c_cur {_ _ _ _ _ _ _ _ _ _ _ _ _ _ _ _} _.
Arguments c_holds {_ _ _ _ _ _ _ _ _ _ _ _ _ _ _ _} _.
Arguments c_disk {_ _ _ _ _ _ _ _ _ _ _ _ _ _ _ _} _.
Arguments c_syn {_ _ _ _ _ _ _ _ _ _ _ _ _ _ _ _} _.
Arguments c_rdok {_ _ _ _ _ _ _ _ _ _ _ _ _ _ _ _} _.
Arguments c_entries {_ _ _ _ _ _ _ _ _ _ _ _ _ _ _ _} _.
Arguments c_rd {_ _ _ _ _ _ _ _ _ _ _ _ _ _ _ _} _.
Arguments c_nxt {_ _ _ _ _ _ _ _ _ _ _ _ _ _ _ _} _.
Arguments c_oldest {_ _ _ _ _ _ _ _ _ _ _ _ _ _ _ _} _.
Arguments c_durable {_ _ _ _ _ _ _ _ _ _ _ _ _ _ _ _} _.

(** Fields of an updated log. *)
Ltac fields := cbn [set_error set_pagebuffer set_append_id set_read_id set_oldest set_volume set_state set_buffer set_length set_lost set_deferred set_clients
  volume volume_ptr capacity pagebuffer page_size circular read_client append_client state oldest_entry_id read_entry_id append_entry_id deferred buffer length_ records_lost error].
