(* ===== verification/LogSteps.v ===== *)
(** * The steps of the log

    Reading and seeking: [get_next_entry], [read_entry], [log_read] and [seek]
    find and deliver what the abstract log has, from the volume and from the page
    buffer.  Writing: [flush_pagebuffer] puts the current page on flash and moves
    the identifiers past the page that is overwritten, [append_entry] adds to the
    page buffer and [reset_pagebuffer] begins the next page. *)

From S2P Require Import Prelude Bytes Syscall LogStorage LogSpec.

(** ** Entries in their pages *)

Lemma app_snoc_inv {A} (pre ps1 ps2 : list A) cur p : pre ++ [cur] = ps1 ++ p :: ps2 →
  (ps2 = [] ∧ ps1 = pre ∧ p = cur) ∨ ∃ ps2', ps2 = ps2' ++ [cur] ∧ pre = ps1 ++ p :: ps2'.
Proof.
  intros E. destruct ps2 as [|x ps2 _] using rev_ind.
  - apply app_inj_tail in E as [-> ->]. by left.
  - right. rewrite app_comm_cons, app_assoc in E. apply app_inj_tail in E as [-> ->]. by exists ps2.
Qed.

Lemma find_first {A} (f : A → bool) l1 x l2 : Forall (λ y, f y = false) l1 → f x = true → List.find f (l1 ++ x :: l2) = Some x.
Proof. intros F Hx. induction F as [|y l1 Hy F IH]; cbn; [by rewrite Hx|by rewrite Hy]. Qed.

Lemma find_nothing {A} (f : A → bool) l : Forall (λ y, f y = false) l → List.find f l = None.
Proof. intros F. induction F as [|y l Hy F IH]; cbn; [done|by rewrite Hy]. Qed.

Lemma nth_byte_le n z : (0 < n)%nat → le_bytes n z !! 0%nat = Some (z mod 256).
Proof. by destruct n; [lia|]. Qed.

Section Entries.
Context (P : Z).

Lemma holds_entry k a d b bs : holds P k (a ++ d :: b) bs →
  take 4 (drop (Z.to_nat (4 + esize a)) bs) = le_bytes 4 (zlen d) ∧
  take (length d) (drop (Z.to_nat (4 + esize a + 4)) bs) = d ∧
  bs !! Z.to_nat (4 + esize a) = Some (zlen d mod 256) ∧
  4 + esize a + entry_size d ≤ P.
Proof.
  intros [Hl [rest Ebs]]. pose proof (esize_nonneg a) as Ha. set (r := encode_all b ++ rest).
  assert (Hla : length (encode_all a) = Z.to_nat (esize a)) by (unfold esize, zlen; lia).
  assert (El : length (le_bytes 4 (k * P) ++ encode_all a) = Z.to_nat (4 + esize a)) by (rewrite length_app, length_le_bytes; lia).
  assert (E : bs = (le_bytes 4 (k * P) ++ encode_all a) ++ le_bytes 4 (zlen d) ++ d ++ r).
  { rewrite Ebs. unfold r. rewrite encode_all_app. change (encode_all (d :: b)) with ((le_bytes 4 (zlen d) ++ d) ++ encode_all b). by rewrite <- !app_assoc. }
  clear Ebs. subst bs.
  split_and!.
  - rewrite drop_app_length' by lia. by rewrite take_app_length' by (by rewrite length_le_bytes).
  - rewrite app_assoc. rewrite drop_app_length' by (rewrite length_app, El, length_le_bytes; lia). by rewrite take_app_length.
  - rewrite lookup_app_r by lia. rewrite El, Nat.sub_diag. rewrite lookup_app_l by (rewrite length_le_bytes; lia). apply nth_byte_le. lia.
  - rewrite !zlen_app, !zlen_le_bytes in Hl. fold (esize a) in Hl. unfold entry_size, ENTRY_HEADER_SIZE. pose proof (zlen_nonneg r). lia.
Qed.

Lemma page_bytes_pad k es : 4 + esize es < P → page_bytes P k es !! Z.to_nat (4 + esize es) = Some PAD_BYTE.
Proof.
  intros H. pose proof (esize_nonneg es). unfold page_bytes. rewrite app_assoc. rewrite lookup_app_r; rewrite length_app, length_le_bytes.
  - rewrite lookup_replicate_2; [done|]. unfold esize, zlen in *. lia.
  - unfold esize, zlen in *. lia.
Qed.
End Entries.

Section Log.
Context (P N : Z) (circ checks : bool).

Abbreviation core := (core P N circ).
Abbreviation repr := (repr P N circ).

(** ** Reading *)

Section Reading.
Context (l : Log) (lo : Z) (pre : list Page) (cur : Page) (syn : list Page) (bs : list Z) (s : SpecLog).
Context (H : core l lo pre cur syn bs s) (I : idle l bs) (Hb : append_entry_id l + 2 * P ≤ usize_bound).

Lemma content_holds ps1 es ps2 : pre ++ [cur] = ps1 ++ es :: ps2 →
  holds P (lo + zlen ps1) es (content P N l (lo + zlen pre) bs (lo + zlen ps1)) ∧ Forall entry_ok es ∧ 4 + esize es ≤ P ∧
  (ps2 ≠ [] → es ≠ [] ∧ zlen ps1 < zlen pre ∧ content P N l (lo + zlen pre) bs (lo + zlen ps1) = page_bytes P (lo + zlen ps1) es).
Proof.
  intros E. destruct (app_snoc_inv _ _ _ _ _ E) as [(-> & -> & ->)|(ps2' & -> & Ep)].
  - unfold content. rewrite Z.eqb_refl. split_and!; [apply (c_holds H)|apply (c_cur H)..|done].
  - destruct (c_disk H) as (_ & Hok & Hs & _). rewrite Ep, <- app_assoc in Hs, Hok.
    assert (Hlk : (ps1 ++ es :: ps2' ++ syn) !! length ps1 = Some es) by (by rewrite lookup_app_r, Nat.sub_diag).
    apply Forall_app in Hok as [_ Hok]. inversion Hok as [|? ? (Hne & Hes & Hsz) _]; subst x l0.
    assert (Hlt : zlen ps1 < zlen pre) by (rewrite Ep; unfold zlen; rewrite length_app; cbn; lia).
    assert (Ec : content P N l (lo + zlen pre) bs (lo + zlen ps1) = page_bytes P (lo + zlen ps1) es).
    { unfold content. rewrite (proj2 (Z.eqb_neq _ _)) by lia. exact (Hs _ _ Hlk). }
    rewrite Ec. split_and!; [by apply page_bytes_holds|done|done|done].
Qed.

Lemma pages_fit : Forall (λ es, 4 + esize es ≤ P) (pre ++ [cur]).
Proof.
  apply Forall_forall. intros es Hes. apply list_elem_of_split in Hes as (ps1 & ps2 & E). by destruct (content_holds _ _ _ E) as (_ & _ & ? & _).
Qed.

Lemma before_page ps1 es ps2 r : pre ++ [cur] = ps1 ++ es :: ps2 → (lo + zlen ps1) * P ≤ r →
  Forall (λ e, (r <=? e.1) = false) (place_pages P lo ps1).
Proof.
  intros E Hr. pose proof pages_fit as F. rewrite E in F. apply Forall_app in F as [F _]. pose proof (geo_page _ _ _ (c_geo H)).
  eapply Forall_impl; [apply place_pages_bound; [lia|exact F]|]. cbn. intros [i d] [H1 H2]. cbn in *. pose proof (entry_size_pos d). apply Z.leb_gt. lia.
Qed.

Lemma append_bound ps1 es ps2 : pre ++ [cur] = ps1 ++ es :: ps2 → (lo + zlen ps1) * P + 4 ≤ append_entry_id l ∧
  (ps2 ≠ [] → (lo + zlen ps1 + 1) * P + 4 ≤ append_entry_id l).
Proof.
  intros E. rewrite (c_append H). pose proof (esize_nonneg cur). pose proof (geo_page _ _ _ (c_geo H)).
  destruct (app_snoc_inv _ _ _ _ _ E) as [(-> & -> & ->)|(ps2' & -> & Ep)]; [split; [lia|done]|].
  assert (zlen ps1 < zlen pre) by (rewrite Ep; unfold zlen; rewrite length_app; cbn; lia). nia.
Qed.

(** The search from the start of a page finds its first entry. *)
Lemma find_page_start ps1 es ps2 r : pre ++ [cur] = ps1 ++ es :: ps2 →
  Forall (λ e, (r <=? e.1) = false) (place_pages P lo ps1) → r ≤ (lo + zlen ps1) * P + 4 →
  match List.find (λ e, r <=? e.1) (entries s) with
  | None => append_entry_id l ≤ (lo + zlen ps1) * P + 4
  | Some (id, d) => id = (lo + zlen ps1) * P + 4 ∧ id < append_entry_id l ∧ ∃ b, es = d :: b
  end.
Proof.
  intros E F Hr. rewrite (c_entries H), E, place_pages_app. cbn [place_pages]. destruct (append_bound _ _ _ E) as [Ha Ha2].
  destruct es as [|d b].
  - destruct (content_holds _ _ _ E) as (_ & _ & _ & Hne). destruct ps2 as [|es2 ps2]; [|by destruct Hne].
    destruct (app_snoc_inv _ _ _ _ _ E) as [(_ & -> & Ec)|(? & Ec & _)]; [|by destruct x].
    cbn [place app place_pages]. rewrite app_nil_r, find_nothing by done. rewrite (c_append H), <- Ec. unfold esize, encode_all, zlen. cbn. lia.
  - cbn [place app]. rewrite find_first; [|done|cbn; apply Z.leb_le; lia]. cbn. split; [done|]. split; [|by exists b].
    pose proof (entry_size_pos d). destruct (app_snoc_inv _ _ _ _ _ E) as [(-> & -> & Ec)|(? & -> & _)].
    + rewrite (c_append H), <- Ec, esize_cons. pose proof (esize_nonneg b). lia.
    + assert ((lo + zlen ps1 + 1) * P + 4 ≤ append_entry_id l) by (apply Ha2; by destruct x). pose proof (geo_page _ _ _ (c_geo H)). nia.
Qed.

Lemma rd_bounds : lo * P ≤ read_entry_id l ≤ append_entry_id l.
Proof.
  pose proof (geo_page _ _ _ (c_geo H)) as HP. pose proof (c_lo H) as Hlo. destruct (c_rdok H) as [(ps1 & a & b & ps2 & E & ->)|(ps1 & es & ps2 & E & ->)];
    destruct (append_bound _ _ _ E) as [Ha Ha2]; pose proof (zlen_nonneg ps1).
  - destruct (content_holds _ _ _ E) as (_ & _ & Hf & _). rewrite esize_app in Hf. pose proof (esize_nonneg a). pose proof (esize_nonneg b).
    destruct (app_snoc_inv _ _ _ _ _ E) as [(-> & -> & Ec)|(x & -> & _)].
    + rewrite (c_append H), <- Ec, esize_app. nia.
    + assert ((lo + zlen ps1 + 1) * P + 4 ≤ append_entry_id l) by (apply Ha2; by destruct x). nia.
  - nia.
Qed.

Definition next_is (found : option (Z * list Z)) : Prop :=
  match found with
  | None => get_next_entry checks l = Ret (Err FAIL)
  | Some (id, d) => get_next_entry checks l = Ret (Ok id) ∧
      ∃ ps1 a b ps2, pre ++ [cur] = ps1 ++ (a ++ d :: b) :: ps2 ∧ id = (lo + zlen ps1) * P + 4 + esize a
  end.

(** Going on to the start of a page. *)
Lemma next_at_start ps1 es ps2 : pre ++ [cur] = ps1 ++ es :: ps2 →
  Forall (λ e, (read_entry_id l <=? e.1) = false) (place_pages P lo ps1) → read_entry_id l ≤ (lo + zlen ps1) * P + 4 →
  (get_next_entry checks l = if append_entry_id l <=? (lo + zlen ps1) * P + 4 then Ret (Err FAIL) else Ret (Ok ((lo + zlen ps1) * P + 4))) →
  next_is (List.find (λ e, rd s <=? e.1) (entries s)).
Proof.
  intros E F Hr Hg. rewrite (c_rd H). pose proof (find_page_start _ _ _ _ E F Hr) as Hf. unfold next_is.
  destruct (List.find _ _) as [[id d]|].
  - destruct Hf as (-> & Hlt & b & ->). rewrite Hg, (proj2 (Z.leb_gt _ _)) by done. split; [done|].
    exists ps1, [], b, ps2. split; [done|]. change (esize []) with 0. lia.
  - by rewrite Hg, (proj2 (Z.leb_le _ _)).
Qed.

Lemma next_skips_pad k off b : read_entry_id l = k * P + off → 0 ≤ k → 0 < off < P → content P N l (lo + zlen pre) bs k !! Z.to_nat off = Some b →
  get_next_entry checks l = let id := if b =? PAD_BYTE then (k + 1) * P + 4 else k * P + off in
    if append_entry_id l <=? id then Ret (Err FAIL) else Ret (Ok id).
Proof.
  intros Er Hk Hoff Hbyte. pose proof rd_bounds. pose proof (geo_page _ _ _ (c_geo H)) as HP. unfold get_next_entry. rewrite (i_page _ _ I), Er, (c_size H), urem_ok by lia. cbn [mbind outcome_bind].
  replace ((k * P + off) mod P) with off by (apply (Z.mod_unique _ _ k); lia). rewrite (proj2 (Z.eqb_neq off 0)) by lia.
  rewrite (get_byte_ok P N circ l lo pre cur syn bs s k off b checks H) by (done || lia). cbn [mbind outcome_bind]. destruct (b =? PAD_BYTE); cbn [mbind outcome_bind]; [|done].
  unfold PAGE_HEADER_SIZE. rewrite plain_sub_ok by lia. cbn [mbind outcome_bind]. rewrite plain_add_ok by lia. cbn [mbind outcome_bind].
  rewrite plain_add_ok by lia. cbn [mbind outcome_bind]. replace (k * P + off + (P - off + 4)) with ((k + 1) * P + 4) by lia. done.
Qed.

Lemma next_at_boundary k : read_entry_id l = k * P →
  get_next_entry checks l = if append_entry_id l <=? k * P + 4 then Ret (Err FAIL) else Ret (Ok (k * P + 4)).
Proof.
  intros Er. pose proof rd_bounds. pose proof (c_lo H). pose proof (geo_page _ _ _ (c_geo H)) as HP. unfold get_next_entry. rewrite (i_page _ _ I), Er, (c_size H), urem_ok by lia. cbn [mbind outcome_bind].
  rewrite Z.mod_mul by lia. cbn [Z.eqb]. unfold PAGE_HEADER_SIZE. rewrite plain_add_ok by nia. done.
Qed.

Lemma next_entry_ok : next_is (List.find (λ e, rd s <=? e.1) (entries s)).
Proof.
  pose proof (geo_page _ _ _ (c_geo H)) as HP. pose proof (c_lo H) as Hlo. destruct (c_rdok H) as [(ps1 & a & b & ps2 & E & Er)|(ps1 & es & ps2 & E & Er)]; pose proof (zlen_nonneg ps1).
  2:{ apply (next_at_start _ _ _ E); [apply (before_page _ _ _ _ E); lia|lia|by apply next_at_boundary]. }
  destruct (content_holds _ _ _ E) as (Hh & Hes & Hf & Hfl). pose proof (esize_nonneg a). set (k := lo + zlen ps1) in *.
  assert (Hpast : b = [] → Forall (λ e, (read_entry_id l <=? e.1) = false) (place_pages P lo ps1 ++ place (k * P + 4) a)).
  { intros ->. apply Forall_app. split; [apply (before_page _ _ _ _ E); fold k; lia|]. eapply Forall_impl; [apply place_bound|].
    cbn. intros [i d] [? ?]. cbn in *. pose proof (entry_size_pos d). apply Z.leb_gt. lia. }
  destruct b as [|d b]; [specialize (Hpast eq_refl); clear Hes|].
  - rewrite app_nil_r in *. destruct ps2 as [|es2 ps2].
    + destruct (app_snoc_inv _ _ _ _ _ E) as [(_ & -> & ->)|(x & ? & _)]; [|by destruct x].
      rewrite (c_entries H), place_pages_app. cbn [place_pages]. rewrite app_nil_r, (c_rd H), find_nothing by done. cbn [next_is].
      assert (Ea : append_entry_id l = read_entry_id l) by (rewrite (c_append H), Er; done).
      destruct (decide (4 + esize cur = P)) as [Hfull|Hpart].
      * rewrite (next_at_boundary (k + 1)) by lia. rewrite (proj2 (Z.leb_le _ _)) by lia. done.
      * destruct (lookup_lt_is_Some_2 (content P N l (lo + zlen pre) bs k) (Z.to_nat (4 + esize cur))) as [x Ex].
        { destruct Hh as [Hl _]. set (cc := content _ _ _ _ _ _) in *. unfold zlen in Hl. lia. }
        rewrite (next_skips_pad k (4 + esize cur) x) by (done || lia). cbv zeta. rewrite (proj2 (Z.leb_le _ _)); [done|]. destruct (x =? PAD_BYTE); lia.
    + destruct Hfl as (_ & _ & Ec); [done|].
      assert (E' : pre ++ [cur] = (ps1 ++ [a]) ++ es2 :: ps2) by (by rewrite E, <- app_assoc).
      assert (Ek : lo + zlen (ps1 ++ [a]) = k + 1) by (rewrite zlen_app; unfold k, zlen; cbn; lia).
      apply (next_at_start _ _ _ E'); rewrite ?Ek; [rewrite place_pages_app; cbn [place_pages]; by rewrite app_nil_r|lia|].
      destruct (decide (4 + esize a = P)) as [Hfull|Hpart]; [apply next_at_boundary; lia|].
      rewrite (next_skips_pad k (4 + esize a) PAD_BYTE); [done|lia|lia|lia|]. rewrite Ec. apply page_bytes_pad. lia.
  - destruct (holds_entry _ _ _ _ _ _ Hh) as (_ & _ & Hbyte & Hsz). pose proof (entry_size_pos d).
    rewrite (c_entries H), E, place_pages_app. cbn [place_pages]. fold k. rewrite place_app, <- !app_assoc, app_assoc. cbn [place app].
    rewrite (c_rd H), find_first; cbn [next_is].
    + rewrite (next_skips_pad k (4 + esize a) _ ltac:(lia) ltac:(lia) ltac:(lia) Hbyte). cbv zeta.
      apply Forall_app in Hes as [_ Hes]. inversion Hes as [|? ? (_ & _ & _ & Hne) _]; subst x l0. rewrite (proj2 (Z.eqb_neq _ _)) by (unfold PAD_BYTE; lia).
      pose proof (esize_nonneg b) as Hnb. rewrite (proj2 (Z.leb_gt _ _)).
      * replace (k * P + 4 + esize a) with (k * P + (4 + esize a)) by lia. split; [done|]. exists ps1, a, b, ps2. split; [done|]. fold k. lia.
      * destruct (append_bound _ _ _ E) as [_ Ha2]. destruct (app_snoc_inv _ _ _ _ _ E) as [(-> & -> & Ecur)|(x & -> & _)].
        -- rewrite (c_append H), <- Ecur, esize_app, esize_cons. fold k. lia.
        -- assert ((k + 1) * P + 4 ≤ append_entry_id l) by (apply Ha2; by destruct x). lia.
    + apply Forall_app. split; [apply (before_page _ _ _ _ E); fold k; lia|]. eapply Forall_impl; [apply place_bound|].
      cbn. intros [i x] [? ?]. cbn in *. pose proof (entry_size_pos x). apply Z.leb_gt. lia.
    + cbn. apply Z.leb_le. lia.
Qed.

(** The entry found is read into the buffer of the client. *)
Lemma read_entry_ok buf len : 0 ≤ len ≤ zlen buf →
  match List.find (λ e, rd s <=? e.1) (entries s) with
  | None => read_entry checks l buf len = Ret (Err FAIL, buf, l)
  | Some (id, d) =>
      if len <? zlen d then read_entry checks l buf len = Ret (Err SIZE, buf, l)
      else read_entry checks l buf len = Ret (Ok (zlen d), d ++ drop (length d) buf, set_read_id l (id + entry_size d)) ∧
        rd_ok P lo (pre ++ [cur]) (id + entry_size d)
  end.
Proof.
  intros Hlen. pose proof next_entry_ok as Hn. pose proof (geo_page _ _ _ (c_geo H)) as HP. unfold next_is in Hn. unfold read_entry.
  destruct (List.find _ _) as [[id d]|]; [|by rewrite Hn]. destruct Hn as [-> (ps1 & a & b & ps2 & E & ->)]. cbn [mbind outcome_bind].
  destruct (content_holds _ _ _ E) as (Hh & Hes & Hf & _). destruct (holds_entry _ _ _ _ _ _ Hh) as (H4 & Hd & _ & Hsz).
  apply Forall_app in Hes as [_ Hes]. inversion Hes as [|? ? (_ & Hl & _ & _) _]; subst x l0. pose proof (esize_nonneg a). pose proof (c_lo H). pose proof (zlen_nonneg ps1).
  unfold entry_size, ENTRY_HEADER_SIZE in *. set (k := lo + zlen ps1) in *. assert (0 ≤ k * P) by nia.
  destruct (append_bound _ _ _ E) as [Hkb _]. fold k in Hkb.
  unfold read_entry_header. rewrite (i_page _ _ I). replace (k * P + 4 + esize a) with (k * P + (4 + esize a)) by lia.
  rewrite (get_bytes_ok P N circ l lo pre cur syn bs s k (4 + esize a) 4 checks H) by lia. cbn [mbind outcome_bind]. change (Z.to_nat 4) with 4%nat. rewrite H4, from_le_u32 by (unfold u32; lia).
  rewrite (c_size H). unfold PAGE_HEADER_SIZE, ENTRY_HEADER_SIZE. rewrite plain_sub_ok by lia. cbn [mbind outcome_bind]. rewrite plain_sub_ok by lia. cbn [mbind outcome_bind].
  rewrite (proj2 (Z.eqb_neq _ _)), (proj2 (Z.ltb_ge (P - 4 - 4) _)) by lia. cbn [orb mbind outcome_bind]. destruct (Z.ltb_spec len (zlen d)) as [Hlt|Hge]; [done|].
  rewrite plain_add_ok by lia. cbn [mbind outcome_bind]. replace (k * P + (4 + esize a) + 4) with (k * P + (4 + esize a + 4)) by lia.
  rewrite (get_bytes_ok P N circ l lo pre cur syn bs s k (4 + esize a + 4) (zlen d) checks H) by lia. cbn [mbind outcome_bind].
  replace (Z.to_nat (zlen d)) with (length d) by (unfold zlen; lia). rewrite Hd, splice_ok by lia. cbn [mbind outcome_bind]. rewrite plain_add_ok by lia. cbn [mbind outcome_bind].
  split; [do 2 f_equal; f_equal; lia|]. left. exists ps1, (a ++ [d]), b, ps2. split; [by rewrite <- app_assoc|]. fold k. rewrite esize_app, esize_cons. change (esize []) with 0.
  unfold entry_size, ENTRY_HEADER_SIZE. lia.
Qed.
End Reading.

(** ** One request *)

(** The request is answered and reported as by the abstract log. *)
Definition simulates (l : Log) (s : SpecLog) (o : LogOp) : Prop :=
  ∃ l', exec_log_op checks l o = Ret ((spec_op P N circ s o).1, l') ∧ repr l' (spec_op P N circ s o).2.

Lemma finish_quiet r l evs : deferred l = false → finish checks r l None evs = Ret (r, evs, l).
Proof. intros Hd. unfold finish. destruct (Z.to_nat _); cbn [complete mbind outcome_bind]; rewrite Hd; cbn [mbind outcome_bind]; by rewrite !app_nil_r. Qed.

Lemma finish_deferred r l evs l' evs' : deferred l = true → client_callback (set_deferred l false) = Ret (l', evs') →
  finish checks r l None evs = Ret (r, evs ++ evs', l').
Proof.
  intros Hd Hc. unfold finish. destruct (Z.to_nat _); cbn [complete mbind outcome_bind]; rewrite Hd; unfold handle_deferred_call; rewrite Hc; done.
Qed.

Lemma read_simulated l s buf len : repr l s → op_ok P N s (OpRead buf len) → simulates l s (OpRead buf len).
Proof.
  intros (lo & pre & cur & syn & bs & H & I) [Hb Hlen]. pose proof (geo_page _ _ _ (c_geo H)) as HP. pose proof (geo_count _ _ _ (c_geo H)) as HN.
  rewrite (c_nxt H) in Hb. assert (Hb2 : append_entry_id l + 2 * P ≤ usize_bound) by nia.
  assert (Hsame : ∀ r evs, exec_log_op checks l (OpRead buf len) = Ret (r, evs, l) → (r, evs, s) = spec_op P N circ s (OpRead buf len) → simulates l s (OpRead buf len)).
  { intros r evs E1 E2. exists l. rewrite <- E2. split; [done|]. by exists lo, pre, cur, syn, bs. }
  cbn [exec_log_op spec_op] in *. unfold log_read, spec_read in *. rewrite (i_state _ _ I), bool_decide_true in * by done. cbn [negb] in *.
  destruct (Z.ltb_spec (zlen buf) len) as [Hlt|Hge].
  { eapply Hsame; [|done]. cbn [mbind outcome_bind]. by rewrite finish_quiet by apply I. }
  rewrite (proj2 (Z.ltb_ge _ _)), (i_rc _ _ I) in * by (apply (rd_bounds _ _ _ _ _ _ _ H Hb2)). cbn [negb] in *.
  pose proof (read_entry_ok _ _ _ _ _ _ _ H I Hb2 buf len ltac:(lia)) as Hr. destruct (List.find _ _) as [[id d]|] eqn:Ef.
  2:{ rewrite Hr in Hsame. eapply Hsame; [|done]. cbn [mbind outcome_bind]. by rewrite finish_quiet by apply I. }
  destruct (len <? zlen d) eqn:Elt.
  { rewrite Hr in Hsame. eapply Hsame; [|done]. cbn [mbind outcome_bind]. by rewrite finish_quiet by apply I. }
  destruct Hr as [Hr Hrd]. eexists. cbn [exec_log_op spec_op]. unfold log_read, spec_read. rewrite (i_state _ _ I), bool_decide_true by done. cbn [negb].
  rewrite (proj2 (Z.ltb_ge _ _)) by lia. rewrite (proj2 (Z.ltb_ge _ _)), (i_rc _ _ I) by (apply (rd_bounds _ _ _ _ _ _ _ H Hb2)). cbn [negb]. rewrite Hr, Ef, Elt. cbn [mbind outcome_bind fst snd].
  split.
  - erewrite finish_deferred; [reflexivity|done|]. unfold client_callback. cbn. rewrite (i_rc _ _ I). reflexivity.
  - exists lo, pre, cur, syn, bs. split; [|destruct I; by split]. destruct H as [G V S C Lo O A Cu Ho D Sy R E1 E2 E3 E4 E5]. by split.
Qed.

(** ** Seeking *)

Lemma in_place pos es e : e ∈ place pos es → ∃ a b, es = a ++ e.2 :: b ∧ e.1 = pos + esize a.
Proof.
  revert pos. induction es as [|d es IH]; intros pos; cbn [place]; [by intros ?%not_elem_of_nil|].
  intros [->|He]%elem_of_cons; [exists [], es; cbn; split; [done|]; change (esize []) with 0; lia|].
  destruct (IH _ He) as (a & b & -> & ->). exists (d :: a), b. split; [done|]. rewrite esize_cons. lia.
Qed.

Lemma in_place_pages k ps e : e ∈ place_pages P k ps →
  ∃ ps1 a b ps2, ps = ps1 ++ (a ++ e.2 :: b) :: ps2 ∧ e.1 = (k + zlen ps1) * P + 4 + esize a.
Proof.
  revert k. induction ps as [|es ps IH]; intros k; cbn [place_pages]; [by intros ?%not_elem_of_nil|].
  intros [He|He]%elem_of_app.
  - destruct (in_place _ _ _ He) as (a & b & -> & ->). exists [], a, b, ps. split; [done|]. change (zlen []) with 0. lia.
  - destruct (IH _ He) as (ps1 & a & b & ps2 & -> & ->). exists (es :: ps1), a, b, ps2. split; [done|].
    replace (zlen (es :: ps1)) with (zlen ps1 + 1) by (unfold zlen; cbn; lia). lia.
Qed.

Lemma legal_rd_ok l lo pre cur syn bs s id : core l lo pre cur syn bs s → legal_id s id → old s ≤ id ≤ nxt s → rd_ok P lo (pre ++ [cur]) id.
Proof.
  intros H Hl Hr. destruct Hl as [?|[?|[->|[->|[->|Hex]]]]]; [lia..| | |by rewrite (c_rd H); apply (c_rdok H)|].
  - rewrite (c_oldest H), (c_old H). left. destruct (pre ++ [cur]) as [|p ps2] eqn:E; [by destruct pre|].
    exists [], [], p, ps2. split; [done|]. change (esize []) with 0. change (zlen []) with 0. lia.
  - rewrite (c_nxt H), (c_append H). left. exists pre, cur, [], []. by rewrite app_nil_r.
  - apply Exists_exists in Hex as (e & He & Hid). rewrite (c_entries H) in He. destruct (in_place_pages _ _ _ He) as (ps1 & a & b & ps2 & E & E1). left.
    destruct Hid as [->| ->]; rewrite E1.
    + by exists ps1, a, (e.2 :: b), ps2.
    + exists ps1, (a ++ [e.2]), b, ps2. split; [by rewrite <- app_assoc|]. rewrite esize_app, esize_cons. change (esize []) with 0. lia.
Qed.

Lemma seek_simulated l s id : repr l s → op_ok P N s (OpSeek id) → simulates l s (OpSeek id).
Proof.
  intros (lo & pre & cur & syn & bs & H & I) [Hb Hid]. unfold simulates. cbn [exec_log_op spec_op op_ok] in *. unfold seek, spec_seek.
  rewrite <- (c_nxt H), <- (c_oldest H). destruct ((id <=? nxt s) && (old s <=? id)) eqn:Er; cbn [fst snd].
  - apply andb_prop in Er as [E1%Z.leb_le E2%Z.leb_le]. eexists. split.
    + erewrite finish_deferred; [reflexivity|done|]. unfold client_callback. cbn. rewrite (i_rc _ _ I). reflexivity.
    + exists lo, pre, cur, syn, bs. pose proof (legal_rd_ok _ _ _ _ _ _ _ _ H Hid ltac:(lia)). split; [|destruct I; by split].
      destruct H as [G V S C Lo O A Cu Ho D Sy R F1 F2 F3 F4 F5]. by split.
  - exists l. split; [by rewrite finish_quiet by apply I|]. by exists lo, pre, cur, syn, bs.
Qed.
End Log.

(** ** Writing the current page *)

Lemma mod_distinct N x j : 0 < N → 0 < j < N → (x + j) mod N ≠ x mod N.
Proof.
  intros HN Hj E. pose proof (Z.div_mod (x + j) N ltac:(lia)) as E1. pose proof (Z.div_mod x N ltac:(lia)) as E2.
  rewrite E in E1. set (q1 := (x + j) / N) in *. set (q2 := x / N) in *. assert (j = N * (q1 - q2)) by lia. assert (q1 - q2 > 0) by nia. nia.
Qed.

Section Flush.
Context (P N : Z) (circ : bool).

Abbreviation core := (core P N circ).

Lemma take_S_insert {A} (l : list A) j x : (j < length l)%nat → take (S j) (<[j := x]> l) = take j l ++ [x].
Proof.
  intros Hj. rewrite (take_S_r _ _ x) by (by apply list_lookup_insert_eq). by rewrite take_insert_ge by lia.
Qed.

Lemma pad_page_ok checks c n : ∀ fuel j page, n = Z.to_nat (P - j) → (n < fuel)%nat → 0 < P → 0 ≤ c → 0 < j ≤ P → zlen page = P →
  (c + 1) * P < usize_bound →
  pad_page checks fuel P page (c * P + j) = Ret (take (Z.to_nat j) page ++ replicate n PAD_BYTE, (c + 1) * P).
Proof.
  induction n as [|n IH]; intros fuel j page En Hf HP Hc Hj Hl Hb; (destruct fuel as [|fuel]; [lia|]); cbn [pad_page]; rewrite urem_ok by lia; cbn [mbind outcome_bind].
  - assert (j = P) as -> by lia. replace ((c * P + P) mod P) with 0 by (rewrite <- (Z.mod_mul (c + 1) P) by lia; f_equal; lia). cbn [Z.eqb].
    rewrite app_nil_r, take_ge by (unfold zlen in Hl; lia). do 2 f_equal. lia.
  - replace ((c * P + j) mod P) with j by (apply (Z.mod_unique _ _ c); lia). rewrite (proj2 (Z.eqb_neq _ _)) by lia.
    rewrite index_set_Ret by (unfold zlen in Hl; lia). cbn [mbind outcome_bind]. rewrite plain_add_ok by nia. cbn [mbind outcome_bind].
    replace (c * P + j + 1) with (c * P + (j + 1)) by lia. rewrite (IH fuel (j + 1)) by (try done; try lia; unfold zlen in *; rewrite length_insert; lia).
    replace (Z.to_nat (j + 1)) with (S (Z.to_nat j)) by lia. rewrite take_S_insert by (unfold zlen in Hl; lia). by rewrite <- app_assoc.
Qed.

Lemma holds_take k es bs : holds P k es bs → take (Z.to_nat (4 + esize es)) bs = le_bytes 4 (k * P) ++ encode_all es.
Proof.
  intros [Hl [rest ->]]. rewrite app_assoc. apply take_app_length'. rewrite length_app, length_le_bytes. pose proof (esize_nonneg es). unfold esize, zlen in *. lia.
Qed.

(** The subtraction that wraps for the first pages: the page it gives is the one
    [N] before, or none that an identifier is in. *)
Lemma overwritten_page c x : 8 < P → 0 < N → N * P < usize_bound → 0 ≤ c → (c + 1) * P < usize_bound → 0 ≤ x → x + (N + 1) * P ≤ usize_bound →
  (x / P =? wrapping_sub (wrapping_sub ((c + 1) * P) (N * P)) P / P) = (x / P =? c - N).
Proof.
  intros HP HN Hv Hc Hcb Hx Hxb. unfold wrapping_sub, wrap32. rewrite Zminus_mod_idemp_l.
  replace ((c + 1) * P - N * P - P) with ((c - N) * P) by lia. destruct (Z.le_gt_cases N c) as [Hge|Hlt].
  - rewrite Z.mod_small by nia. by rewrite Z.div_mul by lia.
  - rewrite <- (Z.mod_add _ 1) by lia. rewrite Z.mod_small by nia.
    assert (0 ≤ x / P) by (apply Z.div_pos; lia). assert (x / P + 1 ≤ ((c - N) * P + 1 * 4294967296) / P).
    { rewrite <- Z.div_add by lia. apply Z.div_le_mono; nia. }
    rewrite !(proj2 (Z.eqb_neq _ _)) by lia. done.
Qed.

(** The pages kept when page [c] is written. *)
Definition kept (lo : Z) (pre : list Page) : Z * list Page :=
  if zlen pre =? N then (lo + 1, tail pre) else (lo, pre).

Lemma kept_end lo pre : 0 < N → (kept lo pre).1 + zlen (kept lo pre).2 = lo + zlen pre ∧ zlen (kept lo pre).2 ≤ Z.max (N - 1) (zlen pre) ∧
  (zlen pre ≤ N → zlen (kept lo pre).2 ≤ N - 1).
Proof.
  intros HN. unfold kept. destruct (Z.eqb_spec (zlen pre) N) as [E|E]; cbn [fst snd]; [|lia].
  destruct pre as [|p pre]; unfold zlen in *; cbn [tail length] in *; lia.
Qed.

(** What the flash holds after the write. *)
Lemma on_disk_write vol lo pre syn cur : 8 < P → 0 < N → zlen vol = N * P → 0 ≤ lo → page_ok P cur → (length syn ≤ 1)%nat →
  on_disk P N vol lo (pre ++ syn) →
  on_disk P N (put_slot P vol ((lo + zlen pre) mod N) (page_bytes P (lo + zlen pre) cur)) (kept lo pre).1 ((kept lo pre).2 ++ [cur]).
Proof.
  intros HP HN Hv Hlo Hcur Hsyn (Hlen & Hok & Hs & Hinv). pose proof (kept_end lo pre HN) as (Ke & _ & Kl).
  assert (Hpre : zlen pre ≤ N) by (rewrite zlen_app in Hlen; pose proof (zlen_nonneg syn); lia). specialize (Kl Hpre).
  destruct Hcur as (Hne & Hce & Hcf). destruct (page_bytes_holds P (lo + zlen pre) cur Hcf) as [Hbl _].
  set (c := lo + zlen pre) in *. pose proof (Z.mod_pos_bound c N HN) as Hcm.
  assert (Hin : ∀ i es, (kept lo pre).2 !! i = Some es → ∃ j, (pre ++ syn) !! j = Some es ∧ lo + Z.of_nat j = (kept lo pre).1 + Z.of_nat i).
  { intros i es Hi. unfold kept in *. destruct (zlen pre =? N); cbn [fst snd] in *.
    - destruct pre as [|p pre']; [done|]. exists (S i). split; [cbn in *; by apply lookup_app_l_Some|lia].
    - exists i. split; [by apply lookup_app_l_Some|done]. }
  split_and!.
  - rewrite zlen_app. change (zlen [cur]) with 1. lia.
  - apply Forall_app. split; [|by repeat constructor]. apply Forall_lookup. intros i es Hi. destruct (Hin _ _ Hi) as (j & Hj & _). by eapply Forall_lookup in Hok.
  - intros i es Hi. rewrite (slot_put_slot P N) by (try done; try lia; apply Z.mod_pos_bound; lia). apply lookup_app_Some in Hi as [Hi|[Hi Hl]].
    + destruct (Hin _ _ Hi) as (j & Hj & Ej). rewrite <- Ej. rewrite decide_False; [by apply Hs|]. apply lookup_lt_Some in Hi. rewrite Ej.
      replace c with ((kept lo pre).1 + Z.of_nat i + (zlen (kept lo pre).2 - Z.of_nat i)) by lia. apply mod_distinct; unfold zlen in *; lia.
    + destruct (i - length (kept lo pre).2)%nat eqn:Ei; [|done]. injection Hl as <-. replace ((kept lo pre).1 + Z.of_nat i) with c by (unfold zlen in Ke; lia).
      by rewrite decide_True.
  - intros t Ht Hno. assert (Hc : c mod N ≠ t).
    { rewrite <- Ke. apply (Hno (length (kept lo pre).2)). rewrite length_app. cbn. lia. }
    unfold slot_id. rewrite (slot_put_slot P N) by (done || lia). rewrite decide_False by done. apply Hinv; [done|]. intros j Hj Ej.
    destruct (decide (lo + Z.of_nat j < (kept lo pre).1)) as [Hb|Hb].
    { unfold kept in Hb. destruct (Z.eqb_spec (zlen pre) N) as [En|]; cbn [fst] in Hb; [|lia]. apply Hc. unfold c. rewrite En.
      replace (lo + N) with (lo + 1 * N) by lia. rewrite Z.mod_add by lia. rewrite <- Ej. f_equal. lia. }
    destruct (decide (lo + Z.of_nat j = c)) as [Hjc|Hjc]; [by rewrite Hjc in Ej|].
    apply (Hno (Z.to_nat (lo + Z.of_nat j - (kept lo pre).1))); [|by rewrite Z2Nat.id by lia; rewrite <- Ej; f_equal; lia].
    rewrite length_app in *. cbn. unfold zlen in *. lia.
Qed.

Lemma filter_every {A} (Q : A → Prop) `{∀ x, Decision (Q x)} l : Forall Q l → filter Q l = l.
Proof. intros F. induction F as [|x l Hx F IH]; [done|]. by rewrite filter_cons_True, IH. Qed.

Lemma kept_entries lo pre cur : 8 < P → 0 < N → zlen pre ≤ N → Forall (λ es, 4 + esize es ≤ P) (pre ++ [cur]) →
  filter (λ e, (lo + zlen pre - N + 1) * P ≤ e.1) (place_pages P lo (pre ++ [cur])) = place_pages P (kept lo pre).1 ((kept lo pre).2 ++ [cur]).
Proof.
  intros HP HN Hpre F. unfold kept. destruct (Z.eqb_spec (zlen pre) N) as [E|E]; cbn [fst snd].
  - destruct pre as [|p pre]; [unfold zlen in E; cbn in E; lia|]. cbn [tail app place_pages]. rewrite E. inversion F as [|? ? Hp F']; subst x l.
    rewrite filter_app, filter_none, filter_every; [done| |].
    + eapply Forall_impl; [apply (place_pages_bound P); [lia|exact F']|]. cbn. intros e He. lia.
    + eapply Forall_impl; [apply place_bound|]. cbn. intros e He. pose proof (entry_size_pos e.2). lia.
  - apply filter_every. eapply Forall_impl; [apply (place_pages_bound P); [lia|exact F]|]. cbn. intros e He. nia.
Qed.

Lemma kept_rd lo pre cur r : 8 < P → 0 < N → zlen pre ≤ N → Forall (λ es, 4 + esize es ≤ P) (pre ++ [cur]) → lo * P ≤ r →
  rd_ok P lo (pre ++ [cur]) r →
  let keep := (lo + zlen pre - N + 1) * P in
  rd_ok P (kept lo pre).1 ((kept lo pre).2 ++ [cur]) (if r <? keep then keep + PAGE_HEADER_SIZE else r).
Proof.
  intros HP HN Hpre F Hlo Hrd keep. unfold keep, kept. destruct (Z.eqb_spec (zlen pre) N) as [E|E]; cbn [fst snd].
  2:{ rewrite (proj2 (Z.ltb_ge _ _)) by nia. done. }
  destruct pre as [|p pre]; [unfold zlen in E; cbn in E; lia|]. cbn [tail app]. rewrite E. replace (lo + N - N + 1) with (lo + 1) by lia.
  assert (Hz : ∀ ps : list Page, zlen (p :: ps) = zlen ps + 1) by (intros ps; unfold zlen; cbn; lia).
  assert (∃ es ps, pre ++ [cur] = es :: ps) as (es & ps & Ees) by (destruct pre; cbn; eauto).
  destruct (Z.ltb_spec r ((lo + 1) * P)) as [Hlt|Hge].
  { left. exists [], [], es, ps. split; [done|]. change (zlen []) with 0. change (esize []) with 0. unfold PAGE_HEADER_SIZE. lia. }
  destruct Hrd as [(ps1 & a & b & ps2 & Ep & ->)|(ps1 & es' & ps2 & Ep & ->)]; (destruct ps1 as [|p' ps1]; cbn [app] in Ep; injection Ep as -> Ep).
  - inversion F as [|? ? Hp _]; subst x l. rewrite esize_app in Hp. pose proof (esize_nonneg b). change (zlen []) with 0 in *. right. exists [], es, ps. split; [done|]. change (zlen []) with 0. lia.
  - left. exists ps1, a, b, ps2. split; [done|]. rewrite Hz. lia.
  - change (zlen []) with 0 in Hge. lia.
  - right. exists ps1, es', ps2. split; [done|]. rewrite Hz. lia.
Qed.

(** The identifiers that move with the page overwritten. *)
Lemma moved_read_id l lo c : 8 < P → 0 < N → 0 ≤ lo → c - N ≤ lo → lo * P ≤ read_entry_id l → read_entry_id l ≤ (c + 1) * P → (c + 3) * P < usize_bound →
  let r := read_entry_id l in
  (if r / P =? c - N then rr ← urem r P; a ← plain_add false r P; a ← plain_add false a PAGE_HEADER_SIZE; Ret (set_read_id l (wrapping_sub a rr)) else Ret l) =
  Ret (set_read_id l (if r <? (c - N + 1) * P then (c - N + 1) * P + PAGE_HEADER_SIZE else r)).
Proof.
  intros HP HN Hlo Hc Hr Hr2 Hb r. unfold r, PAGE_HEADER_SIZE. clear r.
  pose proof (Z.div_mod (read_entry_id l) P ltac:(lia)) as Ed. pose proof (Z.mod_pos_bound (read_entry_id l) P ltac:(lia)) as Em.
  destruct (Z.eqb_spec (read_entry_id l / P) (c - N)) as [Eq|Eq].
  - assert (0 ≤ lo * P) by (apply Z.mul_nonneg_nonneg; lia). assert (0 ≤ c - N) by (rewrite <- Eq; apply Z.div_pos; lia).
    rewrite Eq in Ed. rewrite urem_ok by lia. cbn [mbind outcome_bind]. rewrite plain_add_ok by lia. cbn [mbind outcome_bind].
    rewrite plain_add_ok by lia. cbn [mbind outcome_bind]. rewrite (proj2 (Z.ltb_lt _ _)) by lia.
    assert (0 ≤ (c - N) * P) by (apply Z.mul_nonneg_nonneg; lia). unfold wrapping_sub, wrap32. rewrite Z.mod_small by lia. do 2 f_equal. lia.
  - assert (lo < read_entry_id l / P + 1) by (apply (Z.mul_lt_mono_pos_r P); lia). rewrite (proj2 (Z.ltb_ge _ _)); [by destruct l|].
    assert ((c - N + 1) * P ≤ read_entry_id l / P * P) by (apply Z.mul_le_mono_nonneg_r; lia). lia.
Qed.

Lemma moved_oldest_id l lo c : 8 < P → 0 < N → 0 ≤ lo → c - N ≤ lo → oldest_entry_id l = lo * P + 4 → (lo + 2) * P < usize_bound →
  (if oldest_entry_id l / P =? c - N then a ← plain_add false (oldest_entry_id l) P; Ret (set_oldest l a) else Ret l) =
  Ret (set_oldest l (Z.max (oldest_entry_id l) ((c - N + 1) * P + PAGE_HEADER_SIZE))).
Proof.
  intros HP HN Hlo Hc Ho Hb. unfold PAGE_HEADER_SIZE. rewrite Ho. replace ((lo * P + 4) / P) with lo by (apply (Z.div_unique _ _ _ 4); lia). assert (0 ≤ lo * P) by (apply Z.mul_nonneg_nonneg; lia).
  destruct (Z.eqb_spec lo (c - N)) as [Eq|Eq].
  - rewrite plain_add_ok by lia. cbn [mbind outcome_bind]. do 2 f_equal. subst lo. lia.
  - rewrite Z.max_l, <- Ho; [by destruct l|]. assert ((c - N + 1) * P ≤ lo * P) by (apply Z.mul_le_mono_nonneg_r; lia). lia.
Qed.

(** The page of the flash that page [c] of the stream is written to. *)
Definition flash_number (l : Log) (c : Z) : Z := volume_ptr l / P + c mod N.

Lemma written_page l lo pre cur syn bs s : core l lo pre cur syn bs s → (nxt s - 1) / P = lo + zlen pre.
Proof.
  intros H. pose proof (c_geo H) as [HP HN _ _ _]. destruct (c_cur H) as [_ Hcf]. pose proof (esize_nonneg cur). rewrite (c_nxt H), (c_append H).
  symmetry. apply (Z.div_unique _ _ _ (3 + esize cur)); lia.
Qed.

(** The log that [flush_pagebuffer] leaves behind. *)
Definition flushed (l : Log) (s : SpecLog) : Log := set_oldest (set_read_id l (rd (spec_flush P N s))) (old (spec_flush P N s)).

(** [flush_pagebuffer] with a driver that takes the page. *)
Lemma flush_command l lo pre cur syn bs s : core l lo pre cur syn bs s → append_entry_id l + (N + 3) * P ≤ usize_bound →
  let c := lo + zlen pre in
  flush_pagebuffer false None l bs = Ret (Ok tt, flushed l s, Some (WritePage (flash_number l c) (page_bytes P c cur))).
Proof.
  intros H Hb c. pose proof (c_geo H) as [HP HN [Hp0 Hp] [m Hm] _]. destruct (c_cur H) as [Hce Hcf]. pose proof (esize_nonneg cur) as He. pose proof (zlen_nonneg pre) as Hzp. pose proof (c_lo H) as Hlo.
  assert (Hb2 : append_entry_id l + 2 * P ≤ usize_bound) by nia. pose proof (c_append H) as Ha. pose proof (c_holds H) as Hh.
  pose proof (written_page _ _ _ _ _ _ _ H) as Ekeep. unfold c. clear c. remember (lo + zlen pre) as c eqn:Ec. assert (0 ≤ c * P) by nia.
  pose proof (rd_bounds _ _ _ _ _ _ _ _ _ _ H Hb2) as Hrd. pose proof (pages_fit _ _ _ _ _ _ _ _ _ _ H) as Hfit.
  destruct (c_disk H) as (Hdl & _). assert (Hpre : zlen pre ≤ N) by (rewrite zlen_app in Hdl; pose proof (zlen_nonneg syn); lia).
  pose proof (Z.mod_pos_bound c N HN) as Hcm. assert (Hcmb : c mod N * P + P ≤ N * P) by nia. assert (0 ≤ m) by nia. assert (0 ≤ c mod N * P) by nia.
  assert (Epg : take (Z.to_nat (4 + esize cur)) bs ++ replicate (Z.to_nat (P - (4 + esize cur))) PAD_BYTE = page_bytes P c cur).
  { rewrite (holds_take c) by done. unfold page_bytes. rewrite <- app_assoc. do 3 f_equal. lia. }
  pose proof (c_rd H) as Es. pose proof (c_old H) as Eo2.
  assert (Erd := moved_read_id l lo c ltac:(lia) ltac:(lia) ltac:(lia) ltac:(lia) ltac:(lia) ltac:(lia) ltac:(lia)).
  assert (Eold := moved_oldest_id (set_read_id l (rd (spec_flush P N s))) lo c ltac:(lia) ltac:(lia) ltac:(lia) ltac:(lia) Eo2 ltac:(nia)).
  cbn [set_read_id oldest_entry_id] in Eold. cbv zeta in Erd.
  replace (if read_entry_id l <? _ then _ else _) with (rd (spec_flush P N s)) in Erd by (cbn [spec_flush rd]; by rewrite Ekeep, Es).
  replace (Z.max (oldest_entry_id l) _) with (old (spec_flush P N s)) in Eold by (cbn [spec_flush old]; by rewrite Ekeep, (c_oldest H)).
  unfold flush_pagebuffer. rewrite (c_size H), Ha. replace (c * P + 4 + esize cur) with (c * P + (4 + esize cur)) by lia.
  rewrite (pad_page_ok false c (Z.to_nat (P - (4 + esize cur)))) by (try done; try lia; apply Hh). cbn [mbind outcome_bind]. rewrite Epg.
  rewrite (plain_sub_ok false ((c + 1) * P) P) by lia. cbn [mbind outcome_bind]. unfold page_number. rewrite (c_vol H).
  replace ((c + 1) * P - P) with (c * P + 0) by lia. rewrite (urem_ok (c * P + 0)) by nia. cbn [mbind outcome_bind]. rewrite volume_offset by lia.
  rewrite (plain_add_ok false (volume_ptr l)) by lia. cbn [mbind outcome_bind]. rewrite (c_size H), (udiv_ok (volume_ptr l + (c mod N * P + 0))) by lia. cbn [mbind outcome_bind].
  replace ((volume_ptr l + (c mod N * P + 0)) / P) with (flash_number l c) by (unfold flash_number; rewrite Hm, Z.div_mul by lia; apply (Z.div_unique _ _ _ 0); lia).
  unfold plain_sub. cbn [mbind outcome_bind]. rewrite !udiv_ok by lia. cbn [mbind outcome_bind].
  rewrite overwritten_page by lia. rewrite Erd. cbn [mbind outcome_bind]. rewrite udiv_ok by lia. cbn [mbind outcome_bind].
  change (oldest_entry_id (set_read_id l _)) with (oldest_entry_id l). rewrite overwritten_page by lia. rewrite Eold. done.
Qed.

(** The log once the page is on flash. *)
Lemma flush_core l lo pre cur syn bs s : core l lo pre cur syn bs s → cur ≠ [] → append_entry_id l + (N + 3) * P ≤ usize_bound →
  let pg := page_bytes P (lo + zlen pre) cur in
  core (flash_page (flushed l s) (flash_number l (lo + zlen pre)) pg) (kept lo pre).1 (kept lo pre).2 cur [cur] pg (spec_flush P N s).
Proof.
  intros H Hne Hb pg. pose proof (c_geo H) as [HP HN [Hp0 Hp] [m Hm] _]. destruct (c_cur H) as [Hce Hcf]. pose proof (zlen_nonneg pre) as Hzp. pose proof (c_lo H) as Hlo.
  pose proof (c_append H) as Ha. pose proof (pages_fit _ _ _ _ _ _ _ _ _ _ H) as Hfit. destruct (c_disk H) as (Hdl & _). assert (Hpre : zlen pre ≤ N) by (rewrite zlen_app in Hdl; pose proof (zlen_nonneg syn); lia).
  assert (Hsyn : (length syn ≤ 1)%nat) by (destruct (c_syn H) as [->|(? & ? & -> & _)]; cbn; lia).
  pose proof (written_page _ _ _ _ _ _ _ H) as Ekeep. unfold pg. clear pg. remember (lo + zlen pre) as c eqn:Ec. set (pg := page_bytes P c cur).
  pose proof (Z.mod_pos_bound c N HN) as Hcm. assert (Hcmb : c mod N * P + P ≤ N * P) by nia. assert (0 ≤ c mod N * P) by nia.
  pose proof (kept_end lo pre HN) as (Ke & _ & _). rewrite <- Ec in Ke. unfold flushed, core, flash_page, flash_number. cbn [set_oldest set_read_id volume volume_ptr page_size]. rewrite (c_size H).
  replace ((volume_ptr l / P + c mod N) * P - volume_ptr l) with (c mod N * P) by (rewrite Hm, Z.div_mul by lia; lia).
  rewrite (proj2 (Z.leb_le _ _)), (proj2 (Z.leb_le _ _)) by (rewrite ?(c_vol H); lia). cbn [andb].
  assert (Eent : entries (spec_flush P N s) = place_pages P (kept lo pre).1 ((kept lo pre).2 ++ [cur])).
  { cbn [spec_flush entries]. rewrite Ekeep, (c_entries H). subst c. by apply kept_entries. }
  split; cbn [set_volume set_oldest set_read_id volume volume_ptr page_size circular oldest_entry_id read_entry_id append_entry_id]; try (done || apply H || exact Eent).
  - apply zlen_put_slot; try done; [lia|apply (c_vol H)|by apply page_bytes_holds].
  - unfold kept. destruct (zlen pre =? N); cbn [fst]; lia.
  - cbn [spec_flush old]. rewrite Ekeep, (c_oldest H), (c_old H). unfold kept, PAGE_HEADER_SIZE. destruct (Z.eqb_spec (zlen pre) N) as [En|En]; cbn [fst].
    + replace (c - N + 1) with (lo + 1) by lia. lia.
    + assert ((c - N + 1) * P ≤ lo * P) by (apply Z.mul_le_mono_nonneg_r; lia). lia.
  - rewrite Ke, <- Ha. done.
  - rewrite Ke. by apply page_bytes_holds.
  - unfold pg. rewrite Ec. apply on_disk_write with (syn := syn); try done; [apply (c_vol H)|apply (c_disk H)].
  - right. exists cur, []. by rewrite app_nil_r.
  - cbn [spec_flush rd]. rewrite Ekeep, (c_rd H). subst c. apply kept_rd; try done; [apply (rd_bounds _ _ _ _ _ _ _ _ _ _ H); nia|apply (c_rdok H)].
Qed.

(** Both together. *)
Lemma flush_ok l lo pre cur syn bs s : core l lo pre cur syn bs s → cur ≠ [] → append_entry_id l + (N + 3) * P ≤ usize_bound →
  let pg := page_bytes P (lo + zlen pre) cur in
  ∃ n, flush_pagebuffer false None l bs =
         Ret (Ok tt, set_oldest (set_read_id l (rd (spec_flush P N s))) (old (spec_flush P N s)), Some (WritePage n pg)) ∧
       core (flash_page (set_oldest (set_read_id l (rd (spec_flush P N s))) (old (spec_flush P N s))) n pg)
         (kept lo pre).1 (kept lo pre).2 cur [cur] pg (spec_flush P N s).
Proof. intros H Hne Hb pg. eexists. split; [by eapply flush_command|by eapply flush_core]. Qed.
End Flush.

(** ** Appending *)

Lemma flash_page_rest l n pg : ∃ v, flash_page l n pg = set_volume l v.
Proof. unfold flash_page. cbv zeta. destruct (_ && _); [by eexists|]. exists (volume l). by destruct l. Qed.

Section Append.
Context (P N : Z) (circ checks : bool).

Abbreviation core := (core P N circ).
Abbreviation repr := (repr P N circ).

(** An entry written behind those of the page. *)
Lemma splice_entry c cur bs d : holds P c cur bs → 4 + esize cur + entry_size d ≤ P →
  ∃ bs1 bs2, splice bs (4 + esize cur) (le_bytes 4 (zlen d)) = Ret bs1 ∧ splice bs1 (4 + esize cur + 4) d = Ret bs2 ∧ holds P c (cur ++ [d]) bs2.
Proof.
  intros Hh Hf. pose proof (esize_nonneg cur). pose proof (holds_take _ _ _ _ Hh) as Ht. destruct Hh as [Hl _]. unfold entry_size, ENTRY_HEADER_SIZE in Hf. pose proof (zlen_nonneg d).
  set (off := 4 + esize cur) in *. assert (Ho : length (take (Z.to_nat off) bs) = Z.to_nat off) by (rewrite length_take; unfold zlen in Hl; lia).
  assert (Hzt : zlen (take (Z.to_nat off) bs) = off) by (unfold zlen; lia).
  eexists _, _. split; [apply splice_ok; [lia|rewrite zlen_le_bytes; lia]|].
  set (r := drop (Z.to_nat off + length (le_bytes 4 (zlen d))) bs). assert (Hr : zlen r = P - off - 4) by (unfold r, zlen in *; rewrite length_drop, length_le_bytes; lia).
  split; [apply splice_ok; [lia|rewrite !zlen_app, zlen_le_bytes, Hr, Hzt; lia]|].
  rewrite (app_assoc (take _ bs)). rewrite take_app_length' by (rewrite length_app, Ho, length_le_bytes; lia).
  rewrite drop_app_ge by (rewrite length_app, Ho, length_le_bytes; lia). rewrite length_app, Ho, length_le_bytes, Ht. split.
  - rewrite !zlen_app, !zlen_le_bytes. change (zlen (encode_all cur)) with (esize cur). clear Hr r. unfold zlen in *. rewrite drop_drop, length_drop. unfold off in *. lia.
  - assert (Ee : encode_all (cur ++ [d]) = encode_all cur ++ le_bytes 4 (zlen d) ++ d).
    { rewrite encode_all_app. unfold encode_all at 2. cbn [map concat]. by rewrite app_nil_r. }
    eexists. rewrite Ee, <- !app_assoc. reflexivity.
Qed.

Lemma append_entry_ok l lo pre cur syn bs s buf len : core l lo pre cur syn bs s →
  state l = LogAppend → read_client l = true → append_client l = true → deferred l = false → length_ l = len →
  append_entry_id l + 2 * P ≤ usize_bound → 0 ≤ len ≤ zlen buf → entry_ok (take (Z.to_nat len) buf) → 4 + esize cur + (4 + len) ≤ P →
  ∃ l', append_entry checks l buf len bs = Ret (l', [AppendDone buf len (negb (old s =? PAGE_HEADER_SIZE)) (Ok tt)]) ∧
    repr l' (mkSpec (entries s ++ [(nxt s, take (Z.to_nat len) buf)]) (rd s) (nxt s + entry_size (take (Z.to_nat len) buf)) (old s) (durable s)).
Proof.
  intros H Hst Hrc Hac Hdf Hln Hb Hlen Hok Hf. set (d := take (Z.to_nat len) buf) in *. pose proof (geo_page _ _ _ (c_geo H)) as HP. pose proof (esize_nonneg cur).
  assert (Hd : zlen d = len) by (unfold d, zlen in *; rewrite length_take; lia). pose proof (c_lo H). pose proof (zlen_nonneg pre).
  destruct (splice_entry _ _ _ d (c_holds H)) as (bs1 & bs2 & E1 & E2 & Hh2); [unfold entry_size, ENTRY_HEADER_SIZE; lia|].
  pose proof (c_append H) as Ha. remember (lo + zlen pre) as c eqn:Ec. assert (0 ≤ c * P) by (apply Z.mul_nonneg_nonneg; lia).
  unfold append_entry. rewrite (c_size H), urem_ok by lia. cbn [mbind outcome_bind]. rewrite Ha.
  replace ((c * P + 4 + esize cur) mod P) with (4 + esize cur) by (apply (Z.mod_unique _ _ c); lia). rewrite Hd in E1. rewrite E1. cbn [mbind outcome_bind].
  unfold ENTRY_HEADER_SIZE. rewrite (plain_add_ok checks (4 + esize cur)) by lia. cbn [mbind outcome_bind].
  rewrite (proj2 (get_range_Some buf d 0 len)) by (split_and!; [lia..|]; unfold d; by rewrite Z.sub_0_r). rewrite E2. cbn [mbind outcome_bind].
  rewrite (plain_add_ok checks _ len) by lia. cbn [mbind outcome_bind]. rewrite plain_add_ok by lia. cbn [mbind outcome_bind]. unfold client_callback.
  cbn [set_error set_lost set_buffer set_pagebuffer set_append_id state set_state append_client buffer]. rewrite Hst, Hac. eexists. split.
  - cbn. rewrite Hln, (c_oldest H). done.
  - exists lo, pre, (cur ++ [d]), syn, bs2. split; [|by split]. destruct H as [G V S C Lo O A [Cu1 Cu2] Ho D Sy R F1 F2 F3 F4 F5].
    assert (Es : esize (cur ++ [d]) = esize cur + (4 + len)) by (rewrite esize_app, esize_cons; unfold entry_size, ENTRY_HEADER_SIZE; change (esize []) with 0; lia).
    split; try done.
    + change (c * P + 4 + esize cur + len + 4 = (lo + zlen pre) * P + 4 + esize (cur ++ [d])). rewrite Es. lia.
    + rewrite Es. split; [|lia]. apply Forall_app. split; [done|]. by apply Forall_singleton.
    + by rewrite <- Ec.
    + destruct Sy as [->|(cur0 & rest & -> & ->)]; [by left|right]. exists cur0, (rest ++ [d]). by rewrite app_assoc.
    + destruct R as [(ps1 & a & b & ps2 & E & Er)|(ps1 & es & ps2 & E & Er)]; destruct (app_snoc_inv _ _ _ _ _ E) as [(-> & -> & Ecur)|(x & -> & ->)].
      * left. exists pre, a, (b ++ [d]), []. by rewrite app_assoc, Ecur.
      * left. exists ps1, a, b, (x ++ [cur ++ [d]]). split; [by rewrite <- app_assoc|done].
      * right. by exists pre, (cur ++ [d]), [].
      * right. exists ps1, es, (x ++ [cur ++ [d]]). split; [by rewrite <- app_assoc|done].
    + cbn [entries]. rewrite F1, !place_pages_app. cbn [place_pages]. rewrite !app_nil_r, place_app, <- app_assoc. do 2 f_equal. cbn [place]. by rewrite F3, A.
    + change (nxt s + entry_size d = c * P + 4 + esize cur + len + 4). rewrite F3, Ha. unfold entry_size, ENTRY_HEADER_SIZE. lia.
Qed.

(** ** Turning the page *)

Lemma page_after_end c off : 8 < P → 0 < off ≤ P → page_after P (c * P + off) = (c + 1) * P + 4.
Proof.
  intros HP Ho. unfold page_after, PAGE_HEADER_SIZE. replace ((c * P + off + P - 1) / P) with (c + 1); [done|].
  apply (Z.div_unique _ _ _ (off - 1)); lia.
Qed.

Lemma reset_pagebuffer_ok l lo pre cur bs0 bs s : core l lo pre cur [cur] bs0 s → zlen bs = P → append_entry_id l + 3 * P ≤ usize_bound →
  if may_turn P N circ (append_entry_id l)
  then ∃ bs', reset_pagebuffer checks l bs = Ret (true, set_append_id l (page_after P (append_entry_id l)), bs') ∧
         core (set_append_id l (page_after P (append_entry_id l))) lo (pre ++ [cur]) [] [] bs' (set_nxt s (page_after P (append_entry_id l)))
  else reset_pagebuffer checks l bs = Ret (false, l, bs).
Proof.
  intros H Hbl Hb. pose proof (geo_page _ _ _ (c_geo H)) as HP. pose proof (c_append H) as Ha. pose proof (esize_nonneg cur). destruct (c_cur H) as [_ Hf]. pose proof (c_lo H). pose proof (zlen_nonneg pre).
  assert (Ez : zlen (pre ++ [cur]) = zlen pre + 1) by (rewrite zlen_app; done).
  assert (Epa : page_after P (append_entry_id l) = (lo + zlen pre + 1) * P + 4) by (rewrite Ha, <- Z.add_assoc; apply page_after_end; lia).
  assert (0 ≤ (lo + zlen pre) * P) by (apply Z.mul_nonneg_nonneg; lia).
  unfold reset_pagebuffer, may_turn. rewrite (c_size H), (c_circ H), (c_vol H), (plain_add_ok checks (append_entry_id l) P) by lia. cbn [mbind outcome_bind].
  replace (circ || (append_entry_id l + P <=? N * P)) with (negb (negb circ && (N * P <? append_entry_id l + P))) by (rewrite Z.ltb_antisym; by destruct circ, (_ <=? _)).
  destruct (negb circ && _); cbn [negb]; [done|]. rewrite (urem_ok (append_entry_id l)) by lia. cbn [mbind outcome_bind].
  assert (Eid : (if append_entry_id l mod P =? 0 then Ret (append_entry_id l) else d ← plain_sub checks P (append_entry_id l mod P); plain_add checks (append_entry_id l) d)
    = Ret ((lo + zlen pre + 1) * P)).
  { destruct (decide (4 + esize cur = P)) as [Hfull|Hpart].
    - replace (append_entry_id l mod P) with 0 by (apply (Z.mod_unique _ _ (lo + zlen pre + 1)); lia). cbn [Z.eqb]. f_equal. lia.
    - replace (append_entry_id l mod P) with (4 + esize cur) by (apply (Z.mod_unique _ _ (lo + zlen pre)); lia). rewrite (proj2 (Z.eqb_neq _ _)) by lia.
      rewrite plain_sub_ok by lia. cbn [mbind outcome_bind]. rewrite plain_add_ok by lia. f_equal. lia. }
  rewrite Eid. cbn [mbind outcome_bind]. rewrite (splice_ok bs 0) by (rewrite ?zlen_le_bytes; lia). cbn [mbind outcome_bind]. unfold PAGE_HEADER_SIZE.
  rewrite (plain_add_ok checks _ 4) by lia. cbn [mbind outcome_bind]. rewrite Epa. eexists. split; [reflexivity|].
  destruct H as [G V S C Lo O A [Cu1 Cu2] Ho D Sy R F1 F2 F3 F4 F5]. split; try done.
  - change ((lo + zlen pre + 1) * P + 4 = (lo + zlen (pre ++ [cur])) * P + 4 + esize []). change (esize []) with 0. rewrite Ez. lia.
  - split; [constructor|]. change (esize []) with 0. lia.
  - split.
    + change (take (Z.to_nat 0) bs) with (@nil Z). rewrite !zlen_app, zlen_le_bytes. unfold zlen in *. rewrite length_drop, length_le_bytes. cbn [length]. lia.
    + rewrite Ez. replace (lo + (zlen pre + 1)) with (lo + zlen pre + 1) by lia. change (take (Z.to_nat 0) bs) with (@nil Z). eexists. reflexivity.
  - by rewrite app_nil_r.
  - by left.
  - destruct R as [(ps1 & a & b & ps2 & E & Er)|(ps1 & es & ps2 & E & Er)]; rewrite E.
    + left. exists ps1, a, b, (ps2 ++ [[]]). split; [by rewrite <- app_assoc|done].
    + right. exists ps1, es, (ps2 ++ [[]]). split; [by rewrite <- app_assoc|done].
  - cbn [set_nxt entries]. rewrite F1, (place_pages_app P lo (pre ++ [cur])). cbn [place_pages place app]. by rewrite app_nil_r.
  - cbn [set_nxt durable]. by rewrite F5, app_nil_r.
Qed.
End Append.
