(* ===== verification/LogTheorems.v ===== *)
(** * Theorems on log storage

    Without overflow checks the log implements its abstract counterpart, across
    page turns, overwriting, erasure and reboots; what the requests must keep
    clear of, and what happens otherwise, is shown at the end. *)

From S2P Require Import Prelude Bytes Syscall LogStorage LogSpec LogSteps.

Section Requests.
Context (P N : Z) (circ : bool).

Abbreviation core := (core P N circ).
Abbreviation repr := (repr P N circ).
Abbreviation simulated := (simulates P N circ false).

(** A refused request changes nothing. *)
Lemma refused l lo pre cur syn bs s r : core l lo pre cur syn bs s → idle l bs →
  ∃ l', finish false r l None [] = Ret (r, [], l') ∧ repr l' s.
Proof. intros H I. exists l. split; [by apply finish_quiet, I|]. by exists lo, pre, cur, syn, bs. Qed.

(** The position in the current page, as the code and the specification see it. *)
Lemma append_mod l lo pre cur syn bs s : core l lo pre cur syn bs s →
  append_entry_id l mod P = if decide (4 + esize cur = P) then 0 else 4 + esize cur.
Proof.
  intros H. pose proof (geo_page _ _ _ (c_geo H)). pose proof (esize_nonneg cur). destruct (c_cur H) as [_ Hf]. rewrite (c_append H).
  destruct (decide (4 + esize cur = P)); symmetry; [apply (Z.mod_unique _ _ (lo + zlen pre + 1))|apply (Z.mod_unique _ _ (lo + zlen pre))]; lia.
Qed.

Lemma complete_fuel l : geometry P N (volume_ptr l) → zlen (volume l) = N * P → page_size l = P → ∃ n, Z.to_nat (zlen (volume l) / page_size l + 2) = S n ∧ (Z.to_nat N < n)%nat.
Proof. intros [HP HN _ _ _] -> ->. rewrite Z.div_mul by lia. exists (Z.to_nat (N + 1)). lia. Qed.

(** Writing the page and going on with the next one. *)
Lemma append_next_page l lo pre cur syn bs s buf len : core l lo pre cur syn bs s → cur ≠ [] →
  state l = LogAppend → read_client l = true → append_client l = true → deferred l = false → length_ l = len →
  append_entry_id l + (N + 3) * P ≤ usize_bound → may_turn P N circ (append_entry_id l) = true →
  0 ≤ len ≤ zlen buf → entry_ok (take (Z.to_nat len) buf) → 4 + (4 + len) ≤ P →
  let s1 := set_nxt (spec_flush P N s) (page_after P (nxt (spec_flush P N s))) in
  ∃ l1 cmd l', flush_pagebuffer false None (set_buffer l (Some buf)) bs = Ret (Ok tt, l1, cmd) ∧
    finish false (Ok tt) l1 cmd [] = Ret (Ok tt, [AppendDone buf len (negb (old s1 =? PAGE_HEADER_SIZE)) (Ok tt)], l') ∧
    repr l' (mkSpec (entries s1 ++ [(nxt s1, take (Z.to_nat len) buf)]) (rd s1) (nxt s1 + entry_size (take (Z.to_nat len) buf)) (old s1) (durable s1)).
Proof.
  intros H Hne Hst Hrc Hac Hdf Hln Hb Hturn Hlen Hok Hf s1. pose proof (c_geo H) as [HP HN _ _ _].
  destruct (flush_ok P N circ (set_buffer l (Some buf)) lo pre cur syn bs s H Hne Hb) as (n & Ef & Hc). cbv zeta in Ef, Hc.
  set (l1 := set_oldest _ _) in *. set (pg := page_bytes _ _ _) in *. destruct (flash_page_rest l1 n pg) as [v Ev]. rewrite Ev in Hc.
  assert (Ea : append_entry_id (set_volume l1 v) = append_entry_id l) by done.
  assert (Hb3 : append_entry_id l + 3 * P ≤ usize_bound) by nia. assert (HP0 : 0 ≤ append_entry_id l) by (rewrite (c_append H); pose proof (c_lo H); pose proof (zlen_nonneg pre); pose proof (esize_nonneg cur); nia).
  pose proof (reset_pagebuffer_ok P N circ false _ _ _ _ _ _ _ Hc (proj1 (c_holds Hc)) Hb3) as Hr. rewrite Ea, Hturn in Hr. destruct Hr as (bs' & Er & Hc2).
  assert (Es1 : nxt (spec_flush P N s) = append_entry_id l) by (cbn [spec_flush nxt]; apply (c_nxt H)).
  assert (Epa : page_after P (append_entry_id l) ≤ append_entry_id l + P + 4).
  { unfold page_after, PAGE_HEADER_SIZE. pose proof (Z.mul_div_le (append_entry_id l + P - 1) P ltac:(lia)). lia. }
  destruct (append_entry_ok P N circ false (set_buffer (set_append_id (set_volume l1 v) (page_after P (append_entry_id l))) None) _ _ _ _ _ _ buf len Hc2) as (l' & E' & R'); try done.
  { change (page_after P (append_entry_id l) + 2 * P ≤ usize_bound). assert (4 * P ≤ (N + 3) * P) by nia. lia. }
  exists l1, (Some (WritePage n pg)), l'. split; [exact Ef|]. split.
  - unfold finish. destruct (complete_fuel l1) as (fu & -> & _); [apply (c_geo H)|apply (c_vol H)|apply (c_size H)|]. cbn [complete]. rewrite Ev.
    unfold write_complete. change (state (set_volume l1 v)) with (state l). rewrite Hst, Er. cbn [mbind outcome_bind].
    change (buffer (set_append_id (set_volume l1 v) (page_after P (append_entry_id l)))) with (Some buf).
    change (length_ (set_append_id (set_volume l1 v) (page_after P (append_entry_id l)))) with (length_ l). cbn iota. rewrite Hln, E'. cbn [mbind outcome_bind].
    destruct R' as (? & ? & ? & ? & ? & _ & I'). rewrite (i_def _ _ I'). cbn [mbind outcome_bind app]. unfold s1. rewrite Es1. done.
  - unfold s1. rewrite Es1. exact R'.
Qed.

Lemma append_simulated l s buf len : repr l s → op_ok P N s (OpAppend buf len) → simulated l s (OpAppend buf len).
Proof.
  intros (lo & pre & cur & syn & bs & H & I) [Hb (Hby & Hl0 & Hl8 & Hmod)]. unfold simulates. cbn [exec_log_op spec_op].
  pose proof (c_geo H) as [HP HN _ _ _]. rewrite (c_nxt H) in Hb. pose proof (append_mod _ _ _ _ _ _ _ H) as Er. pose proof (esize_nonneg cur) as He. destruct (c_cur H) as [_ Hcf].
  unfold append, spec_append. unfold ENTRY_HEADER_SIZE, PAGE_HEADER_SIZE. rewrite (plain_add_ok false len 4) by lia. cbn [mbind outcome_bind]. rewrite (i_state _ _ I), bool_decide_true by done. cbn [negb].
  destruct ((len =? 0) || (zlen buf <? len)) eqn:E0.
  { cbn [mbind outcome_bind fst snd]. apply (refused l lo pre cur syn bs s _ H I). }
  apply orb_false_elim in E0 as [E01%Z.eqb_neq E02%Z.ltb_ge]. rewrite (plain_add_ok false (len + 4) 4) by lia. cbn [mbind outcome_bind]. rewrite (c_size H).
  destruct (Z.ltb_spec P (len + 4 + 4)) as [Hbig|Hsmall].
  { cbn [mbind outcome_bind fst snd]. apply (refused l lo pre cur syn bs s _ H I). }
  assert (Hap : 0 ≤ append_entry_id l) by (rewrite (c_append H); pose proof (c_lo H); pose proof (zlen_nonneg pre); nia).
  assert (H4P : 4 * P ≤ (N + 3) * P) by nia.
  assert (Efull : (if circular l then Ret false else e ← plain_add false (append_entry_id l) (len + 4); Ret (zlen (volume l) <? e))
    = Ret (negb circ && (N * P <? nxt s + (len + 4)))).
  { rewrite (c_circ H), (c_nxt H), (c_vol H). destruct circ; [done|]. rewrite plain_add_ok by lia. done. }
  rewrite Efull. cbn [mbind outcome_bind]. destruct (negb circ && _) eqn:Ecirc.
  { cbn [mbind outcome_bind fst snd]. apply (refused l lo pre cur syn bs s _ H I). }
  assert (Hlen : zlen (take (Z.to_nat len) buf) = len) by (unfold zlen in *; rewrite length_take; lia).
  assert (Hok : entry_ok (take (Z.to_nat len) buf)) by (split; [by apply Forall_take|]; rewrite Hlen; split_and!; [lia|lia|lia|lia]).
  rewrite (i_page _ _ I). set (l1 := set_length (set_state (set_pagebuffer l None) LogAppend) len).
  assert (H1 : core l1 lo pre cur syn bs s) by exact H. assert (Hb1 : append_entry_id l1 + 2 * P ≤ usize_bound) by (change (append_entry_id l1) with (append_entry_id l); lia). change (append_entry_id l1) with (append_entry_id l). change (page_size l1) with (page_size l). rewrite (c_size H), urem_ok by lia. cbn [mbind outcome_bind].
  rewrite (c_nxt H). rewrite Er. destruct (decide (4 + esize cur = P)) as [Hfull|Hpart].
  all: rewrite (plain_sub_ok false P) by lia; cbn [mbind outcome_bind]; cbn [Z.eqb negb andb].
  2: rewrite (proj2 (Z.eqb_neq (4 + esize cur) 0)) by lia; cbn [negb andb]; destruct (Z.leb_spec (len + 4) (P - (4 + esize cur))) as [Hfit|Hno].
  2:{ destruct (append_entry_ok P N circ false l1 lo pre cur syn bs s buf len H1 eq_refl (i_rc _ _ I) (i_ac _ _ I) (i_def _ _ I) eq_refl Hb1 ltac:(lia) Hok ltac:(lia)) as (l' & E' & R').
      rewrite E'. cbn [mbind outcome_bind fst snd]. exists l'. split; [|exact R']. apply finish_quiet. destruct R' as (? & ? & ? & ? & ? & _ & I'). apply (i_def _ _ I'). }
  all: (assert (Hne : cur ≠ []) by (intros ->; change (esize []) with 0 in *; lia));
    (assert (Hturn : may_turn P N circ (append_entry_id l) = true));
    [|destruct (append_next_page l1 lo pre cur syn bs s buf len H1 Hne eq_refl (i_rc _ _ I) (i_ac _ _ I) (i_def _ _ I) eq_refl Hb Hturn ltac:(lia) Hok ltac:(lia)) as (l2 & cmd & l' & E1 & E2 & R2);
      rewrite E1; cbn [mbind outcome_bind fst snd with_buffer]; exists l'; split; [exact E2|exact R2]].
  all: unfold may_turn; destruct circ; [done|]; cbn [negb andb orb] in *; apply Z.ltb_ge in Ecirc; rewrite (c_nxt H) in Ecirc; apply Z.leb_le; pose proof (c_append H) as Ha.
  - assert (lo + zlen pre + 1 < N) by nia. nia.
  - assert (lo + zlen pre + 1 < N) by nia. nia.
Qed.

Lemma set_nxt_same s : set_nxt s (nxt s) = s.
Proof. by destruct s. Qed.

(** After [sync] a full page is left behind where the log may go on. *)
Lemma turn_if_full l lo pre cur bs s : core l lo pre cur [cur] bs s → append_entry_id l + 3 * P ≤ usize_bound →
  ∃ done l' bs' pre' cur' syn', (if append_entry_id l mod P =? 0 then reset_pagebuffer false l bs else Ret (true, l, bs)) = Ret (done, l', bs') ∧
    (l' = l ∨ ∃ a, l' = set_append_id l a) ∧ core l' lo pre' cur' syn' bs' (set_nxt s (turn_full P N circ (nxt s))).
Proof.
  intros H Hb. pose proof (append_mod _ _ _ _ _ _ _ H) as Er. pose proof (reset_pagebuffer_ok P N circ false _ _ _ _ _ _ _ H (proj1 (c_holds H)) Hb) as Hr. pose proof (c_geo H) as [HP _ _ _ _].
  unfold turn_full. rewrite (c_nxt H). destruct (Z.eqb_spec (append_entry_id l mod P) 0) as [E0|E0]; cbn [andb].
  - destruct (may_turn P N circ (append_entry_id l)).
    + destruct Hr as (bs' & E & Hc). assert (Ep : page_after P (append_entry_id l) = append_entry_id l + PAGE_HEADER_SIZE).
      { pose proof (Z.div_mod (append_entry_id l) P ltac:(lia)) as Ed. rewrite E0 in Ed. rewrite Ed. replace (P * (append_entry_id l / P) + 0) with ((append_entry_id l / P - 1) * P + P) by lia.
        rewrite page_after_end by lia. unfold PAGE_HEADER_SIZE. lia. }
      rewrite Ep in *. eexists _, _, _, _, _, _. split; [exact E|]. split; [right; by eexists|exact Hc].
    + eexists _, _, _, _, _, _. split; [exact Hr|]. split; [by left|]. rewrite <- (c_nxt H), set_nxt_same. exact H.
  - eexists _, _, _, _, _, _. split; [done|]. split; [by left|]. rewrite <- (c_nxt H), set_nxt_same. exact H.
Qed.

Lemma sync_simulated l s : repr l s → op_ok P N s OpSync → simulated l s OpSync.
Proof.
  intros (lo & pre & cur & syn & bs & H & I) [Hb _]. unfold simulates. cbn [exec_log_op spec_op]. pose proof (c_geo H) as [HP HN _ _ _]. rewrite (c_nxt H) in Hb.
  pose proof (append_mod _ _ _ _ _ _ _ H) as Er. pose proof (esize_nonneg cur) as He. unfold sync, spec_sync. rewrite (c_size H), (c_nxt H), urem_ok by lia. cbn [mbind outcome_bind]. unfold PAGE_HEADER_SIZE.
  destruct (Z.eqb_spec (append_entry_id l mod P) 4) as [E4|E4]; [cbn [fst snd mbind outcome_bind]; apply (refused l lo pre cur syn bs s _ H I)|].
  rewrite (i_state _ _ I), bool_decide_true, (i_page _ _ I) by done. cbn [negb].
  assert (Hne : cur ≠ []) by (intros ->; change (esize []) with 0 in Er; destruct (decide (4 + 0 = P)); lia).
  set (l1 := set_state (set_pagebuffer l None) LogSync). destruct (flush_ok P N circ l1 lo pre cur syn bs s H Hne Hb) as (n & Ef & Hc). cbv zeta in Ef, Hc.
  rewrite Ef. cbn [mbind outcome_bind fst snd without_buffer]. set (l2 := set_oldest _ _) in *. set (pg := page_bytes _ _ _) in *. destruct (flash_page_rest l2 n pg) as [v Ev]. rewrite Ev in Hc.
  assert (Ea : append_entry_id (set_volume l2 v) = append_entry_id l) by done. assert (Hb3 : append_entry_id l + 3 * P ≤ usize_bound) by nia.
  destruct (turn_if_full _ _ _ _ _ _ Hc Hb3) as (dn & l3 & bs3 & pre3 & cur3 & syn3 & Et & Hl3 & Hc3). rewrite Ea in Et.
  unfold finish. destruct (complete_fuel l2) as (fu & -> & _); [apply (c_geo H)|apply (c_vol H)|apply (c_size H)|]. cbn [complete]. rewrite Ev. unfold write_complete.
  change (state (set_volume l2 v)) with LogSync. cbn iota. change (page_size (set_volume l2 v)) with (page_size l). rewrite Ea, (c_size H), urem_ok by lia. cbn [mbind outcome_bind]. rewrite Et. cbn [mbind outcome_bind].
  assert (Hst : state l3 = LogSync ∧ append_client l3 = true ∧ read_client l3 = true ∧ deferred l3 = false ∧ buffer l3 = None) by (destruct Hl3 as [->|[a ->]]; destruct I; done).
  destruct Hst as (S1 & S2 & S3 & S4 & S5). unfold client_callback. cbn [set_error set_pagebuffer state set_state append_client]. rewrite S1, S2. cbn [mbind outcome_bind].
  cbn [set_error set_pagebuffer set_state deferred error]. rewrite S4.
  eexists. split; [reflexivity|]. exists (kept N lo pre).1, pre3, cur3, syn3, bs3. split; [exact Hc3|by split].
Qed.

(** ** Erasing *)

(** Nothing but pages [k] to [hi - 1] can be taken for a page. *)
Definition blank_but (vol : list Z) (k hi : Z) : Prop :=
  ∀ t, 0 ≤ t < N → (∀ j, k ≤ j < hi → j mod N ≠ t) → slot_id P vol t mod (N * P) ≠ t * P.

Lemma erased_id : 8 < P → from_le_bytes (take 4 (replicate (Z.to_nat P) 255)) = usize_bound - 1.
Proof. intros HP. rewrite take_replicate. replace (4 `min` Z.to_nat P)%nat with 4%nat by lia. reflexivity. Qed.

Lemma erased_invalid t : 8 < P → 0 < N → (P | usize_bound) → (usize_bound - 1) mod (N * P) ≠ t * P.
Proof.
  intros HP HN [q Hq] E. pose proof (Z.div_mod (usize_bound - 1) (N * P) ltac:(nia)) as Ed. rewrite E in Ed. set (x := (usize_bound - 1) / (N * P)) in *.
  assert (1 = P * (q - N * x - t)) by lia. assert (0 < q - N * x - t) by nia. nia.
Qed.

(** An empty log over a volume without pages. *)
Lemma fresh_core l bs : geometry P N (volume_ptr l) → zlen (volume l) = N * P → page_size l = P → circular l = circ →
  oldest_entry_id l = 4 → read_entry_id l = 4 → append_entry_id l = 4 → blank_but (volume l) 0 0 → bs = replicate (Z.to_nat P) 0 →
  core l 0 [] [] [] bs spec_empty.
Proof.
  intros G V S C O R A B ->. pose proof G as [HP HN _ _ _]. split; try done.
  - split; [constructor|]. change (esize []) with 0. lia.
  - split; [unfold zlen; rewrite length_replicate; lia|]. exists (replicate (Z.to_nat P - 4) 0). change (le_bytes 4 ((0 + zlen []) * P)) with (replicate 4 0). cbn [encode_all map concat app].
    change (0 :: 0 :: 0 :: 0 :: replicate (Z.to_nat P - 4) 0) with (replicate 4 0 ++ replicate (Z.to_nat P - 4) 0). rewrite <- replicate_add. f_equal. lia.
  - split_and!; [unfold zlen; cbn; lia|constructor|done|]. intros t Ht _. apply B; [done|]. intros j Hj. lia.
  - by left.
  - left. exists [], [], [], []. split; [done|]. by rewrite R.
Qed.

(** What the loop of [erase] works on. *)
Record erasing (l : Log) (k c esz hi : Z) (bs : list Z) : Prop := {
  e_geo : geometry P N (volume_ptr l);
  e_vol : zlen (volume l) = N * P;
  e_size : page_size l = P;
  e_circ : circular l = circ;
  e_state : state l = LogErase;
  e_rc : read_client l = true;
  e_ac : append_client l = true;
  e_def : deferred l = false;
  e_buf : buffer l = None;
  e_page : pagebuffer l = Some bs ∧ zlen bs = P;
  e_old : oldest_entry_id l = k * P + 4;
  e_append : append_entry_id l = c * P + 4 + esz;
  e_esz : 0 ≤ esz ≤ P - 4;
  e_bound : append_entry_id l + P ≤ usize_bound ∧ P ≤ append_entry_id l;
  e_k : 0 ≤ k ≤ c ∧ (k = c → hi ≤ c + 1) ∧ (k < c → hi ≤ c + 1 ∧ (esz = 0 → hi ≤ c));
  e_blank : blank_but (volume l) k hi
}.

(** The page the command of [erase_page] names. *)
Lemma erase_page_ok l k c esz hi bs : erasing l k c esz hi bs →
  ∃ n, erase_page false None l = Ret (Ok tt, Some (ErasePage n)) ∧
    flash_page l n (replicate (Z.to_nat P) 255) = set_volume l (put_slot P (volume l) (k mod N) (replicate (Z.to_nat P) 255)).
Proof.
  intros H. destruct (e_geo _ _ _ _ _ _ H) as [HP HN [Hp0 Hp] [m Hm] _]. destruct (e_k _ _ _ _ _ _ H) as [Hk _]. pose proof (Z.mod_pos_bound k N HN). assert (k mod N * P + P ≤ N * P) by nia.
  assert (0 ≤ k mod N * P) by nia. exists (m + k mod N). unfold erase_page, page_number, flash_page. rewrite (e_old _ _ _ _ _ _ H), (e_vol _ _ _ _ _ _ H), (e_size _ _ _ _ _ _ H), urem_ok by nia.
  cbn [mbind outcome_bind]. rewrite volume_offset by lia. rewrite plain_add_ok by lia. cbn [mbind outcome_bind]. rewrite udiv_ok by lia. cbn [mbind outcome_bind].
  replace ((volume_ptr l + (k mod N * P + 4)) / P) with (m + k mod N) by (rewrite Hm; apply (Z.div_unique _ _ _ 4); lia). split; [done|].
  replace ((m + k mod N) * P - volume_ptr l) with (k mod N * P) by lia. rewrite (proj2 (Z.leb_le _ _)), (proj2 (Z.leb_le _ _)) by lia. done.
Qed.

(** An erased page is no page any more. *)
Lemma erase_blank vol k hi : 8 < P → 0 < N → (P | usize_bound) → zlen vol = N * P → blank_but vol k hi →
  zlen (put_slot P vol (k mod N) (replicate (Z.to_nat P) 255)) = N * P ∧
  blank_but (put_slot P vol (k mod N) (replicate (Z.to_nat P) 255)) (k + 1) hi.
Proof.
  intros HP HN Hw Hv B.
  assert (Hl : zlen (replicate (Z.to_nat P) 255) = P) by (unfold zlen; rewrite length_replicate; lia). pose proof (Z.mod_pos_bound k N HN).
  split; [by apply zlen_put_slot; try lia|]. intros t Ht Hno. unfold slot_id. rewrite (slot_put_slot P N) by (done || lia). destruct (decide (k mod N = t)) as [Ek|Ek].
  - rewrite erased_id by done. by apply erased_invalid.
  - apply B; [done|]. intros j Hj. destruct (decide (j = k)) as [->|]; [done|]. apply Hno. lia.
Qed.

Lemma erase_loop c esz hi bs n : ∀ fuel l k, erasing l k c esz hi bs → n = Z.to_nat (c - k) → (n < fuel)%nat →
  ∃ cmd l', erase_page false None l = Ret (Ok tt, cmd) ∧ complete false fuel l cmd = Ret (l', [EraseDone (Ok tt)]) ∧ repr l' spec_empty.
Proof.
  induction n as [|n IH]; intros fuel l k H En Hf; (destruct fuel as [|fuel]; [lia|]); destruct (erase_page_ok _ _ _ _ _ _ H) as (pn & Ep & Efl);
    pose proof H as [G V S C St Rc Ac Df Bu [Pg Pl] Ol Ap Es [Bd1 Bd2] (K1 & K2 & K3) B]; pose proof G as [HP HN _ _ Hw];
    destruct (erase_blank _ _ _ HP HN Hw V B) as [V' B']; set (vol' := put_slot _ _ _ _) in *;
    exists (Some (ErasePage pn)); cbn [complete]; rewrite S, Efl; unfold erase_complete;
    change (append_entry_id (set_volume l vol')) with (append_entry_id l); change (page_size (set_volume l vol')) with (page_size l);
    change (oldest_entry_id (set_volume l vol')) with (oldest_entry_id l); rewrite S, Ol, (plain_sub_ok false (append_entry_id l) P) by lia; cbn [mbind outcome_bind].
  1: assert (Hend : append_entry_id l - P ≤ k * P + 4 ∧ hi ≤ k + 1) by (assert (k = c) as -> by lia; split; [lia|by apply K2]).
  2: destruct (Z.le_gt_cases (append_entry_id l - P) (k * P + 4)) as [Hle|Hgt].
  2: assert (Hend : append_entry_id l - P ≤ k * P + 4 ∧ hi ≤ k + 1) by (split; [done|]; assert (k = c - 1) as -> by nia; destruct K3 as [_ K3]; [lia|]; specialize (K3 ltac:(lia)); lia).
  1-2: destruct Hend as [Hle2 Hhi]; rewrite (proj2 (Z.leb_le _ _)) by done; unfold log_reset; fields; rewrite Pg; unfold client_callback; fields; rewrite St, Ac; cbn [mbind outcome_bind];
    (eexists; split; [exact Ep|]; split; [destruct fuel; reflexivity|]);
    exists 0, [], [], [], (replicate (Z.to_nat P) 0); split;
    [apply fresh_core; try done; intros t Ht _; apply B'; [done|]; intros j Hj; lia
    |split; try done; fields; do 2 f_equal; unfold zlen in Pl; lia].
  rewrite (proj2 (Z.leb_gt _ _)) by done. rewrite (plain_add_ok false _ P) by nia. cbn [mbind outcome_bind]. replace (k * P + 4 + P) with ((k + 1) * P + 4) by lia.
  assert (H1 : erasing (set_oldest (set_volume l vol') ((k + 1) * P + 4)) (k + 1) c esz hi bs) by (split; try done; split_and!; lia).
  destruct (IH fuel _ _ H1 ltac:(lia) ltac:(lia)) as (cmd & l' & E1 & E2 & R). rewrite E1. cbn [mbind outcome_bind]. exists l'. split; [exact Ep|]. rewrite E2. done.
Qed.

Lemma erase_simulated l s : repr l s → op_ok P N s OpErase → simulated l s OpErase.
Proof.
  intros (lo & pre & cur & syn & bs & H & I) [Hb HPn]. unfold simulates. cbn [exec_log_op spec_op fst snd]. pose proof (c_geo H) as [HP HN _ _ _]. rewrite (c_nxt H) in Hb, HPn.
  pose proof (esize_nonneg cur) as He. destruct (c_cur H) as [_ Hcf]. pose proof (c_lo H) as Hlo. pose proof (zlen_nonneg pre) as Hzp. destruct (c_disk H) as (Hdl & Hok & _ & Hinv).
  assert (Hsyn : zlen syn ≤ 1 ∧ (esize cur = 0 → zlen syn = 0)).
  { destruct (c_syn H) as [->|(cur0 & rest & -> & Ec)]; [done|]. split; [done|]. intros E0. apply Forall_app in Hok as [_ Hok]. inversion Hok as [|? ? (Hne & _ & _) _]; subst.
    destruct cur0 as [|d cur0]; [done|]. rewrite esize_app, esize_cons in E0. pose proof (entry_size_pos d). pose proof (esize_nonneg cur0). pose proof (esize_nonneg rest). lia. }
  set (l1 := set_state l LogErase).
  assert (H1 : erasing l1 lo (lo + zlen pre) (esize cur) (lo + zlen (pre ++ syn)) bs).
  { assert (Hb1 : append_entry_id l + P ≤ usize_bound) by nia. assert (Hbl : blank_but (volume l) lo (lo + zlen (pre ++ syn))).
    { intros t Ht Hno. apply Hinv; [done|]. intros i Hi. apply Hno. unfold zlen. lia. }
    split; [apply (c_geo H)|apply (c_vol H)|apply (c_size H)|apply (c_circ H)|done|apply (i_rc _ _ I)|apply (i_ac _ _ I)|apply (i_def _ _ I)|apply (i_buf _ _ I)
      |split; [apply (i_page _ _ I)|apply (c_holds H)]|apply (c_old H)|apply (c_append H)|lia|done| |exact Hbl]. rewrite zlen_app. split_and!; lia. }
  unfold erase. rewrite (i_state _ _ I), bool_decide_true by done. cbn [negb]. fold l1. unfold finish.
  destruct (complete_fuel l1 (c_geo H) (c_vol H) (c_size H)) as (fu & Efu & Hfu). rewrite zlen_app in Hdl. pose proof (zlen_nonneg syn).
  destruct (erase_loop _ _ _ _ _ (S fu) _ _ H1 eq_refl ltac:(lia)) as (cmd & l' & E1 & E2 & R). rewrite E1. cbn [mbind outcome_bind without_buffer]. rewrite Efu, E2. cbn [mbind outcome_bind].
  exists l'. split; [|done]. destruct R as (? & ? & ? & ? & ? & _ & I'). rewrite (i_def _ _ I'). done.
Qed.

(** ** Reconstruction *)

Section Reconstruct.
Context (l : Log) (G : geometry P N (volume_ptr l)) (V : zlen (volume l) = N * P) (S : page_size l = P).

Definition valid (t : Z) : Prop := slot_id P (volume l) t mod (N * P) = t * P.

Lemma volume_word_ok t off : 0 ≤ t < N → 0 ≤ off → off + 4 ≤ P →
  volume_word false l (t * P + off) = Ret (from_le_bytes (take 4 (drop (Z.to_nat off) (slot P (volume l) t)))).
Proof.
  intros Ht Ho Hf. destruct G as [HP HN [Hp0 Hp] _ _]. assert (t * P + P ≤ N * P) by nia. assert (0 ≤ t * P) by nia.
  unfold volume_word. rewrite plain_add_ok by lia. cbn [mbind outcome_bind]. rewrite (get_range_slot P N) by lia. done.
Qed.

(** The scan finds the smallest and the largest identifier of a valid page. *)
Lemma scan_headers_ok ts : Forall (λ t : nat, Z.of_nat t < N) ts → ∀ o n,
  ∃ o' n', scan_headers false l (map (λ i : nat, Z.of_nat i * P) ts) o n = Ret (o', n') ∧ o' ≤ o ∧ n ≤ n' ∧
    (o' = o ∨ ∃ t, t ∈ ts ∧ valid (Z.of_nat t) ∧ o' = slot_id P (volume l) (Z.of_nat t)) ∧
    (n' = n ∨ ∃ t, t ∈ ts ∧ valid (Z.of_nat t) ∧ n' = slot_id P (volume l) (Z.of_nat t)) ∧
    ∀ t, t ∈ ts → valid (Z.of_nat t) → o' ≤ slot_id P (volume l) (Z.of_nat t) ≤ n'.
Proof.
  intros F. destruct G as [HP HN _ _ _]. induction F as [|t ts Ht F IH]; intros o n; cbn [map scan_headers].
  { exists o, n. split_and!; [done|lia|lia|by left|by left|]. intros t Hin. by apply not_elem_of_nil in Hin. }
  set (id := slot_id P (volume l) (Z.of_nat t)). assert (Ew : volume_word false l (Z.of_nat t * P) = Ret id).
  { pose proof (volume_word_ok (Z.of_nat t) 0 ltac:(lia) ltac:(lia) ltac:(lia)) as Ew. by rewrite Z.add_0_r in Ew. }
  rewrite Ew. cbn [mbind outcome_bind]. rewrite V, urem_ok by nia. cbn [mbind outcome_bind].
  destruct (Z.eqb_spec (id mod (N * P)) (Z.of_nat t * P)) as [Ev|Ev].
  - destruct (IH (if id <? o then id else o) (if n <? id then id else n)) as (o' & n' & E & H1 & H2 & H3 & H4 & H5). exists o', n'. rewrite E.
    assert (Ho : (if id <? o then id else o) ≤ o ∧ (if id <? o then id else o) ≤ id) by (destruct (Z.ltb_spec id o); lia).
    assert (Hn : n ≤ (if n <? id then id else n) ∧ id ≤ (if n <? id then id else n)) by (destruct (Z.ltb_spec n id); lia).
    split_and!; [done|lia|lia| | |].
    + destruct H3 as [H3|(u & Hu & Hv & H3)]; [|right; exists u; split; [by right|done]]. destruct (id <? o); [right; exists t; split; [by left|done]|by left].
    + destruct H4 as [H4|(u & Hu & Hv & H4)]; [|right; exists u; split; [by right|done]]. destruct (n <? id); [right; exists t; split; [by left|done]|by left].
    + intros u [->|Hu]%elem_of_cons Hv; [fold id; lia|by apply H5].
  - destruct (IH o n) as (o' & n' & E & H1 & H2 & H3 & H4 & H5). exists o', n'. split_and!; [done|done|done| | |].
    + destruct H3 as [H3|(u & Hu & Hv & H3)]; [by left|right; exists u; split; [by right|done]].
    + destruct H4 as [H4|(u & Hu & Hv & H4)]; [by left|right; exists u; split; [by right|done]].
    + intros u [->|Hu]%elem_of_cons Hv; [by destruct Ev|by apply H5].
Qed.

(** The walk ends behind the last entry of the page. *)
Lemma walk_entries_ok k es : 0 ≤ k → page_ok P es → slot P (volume l) (k mod N) = page_bytes P k es → ∀ b a fuel, es = a ++ b → 4 + esize a < P → (length b < fuel)%nat →
  walk_entries false l fuel (k * P) (4 + esize a) = Ret (4 + esize es).
Proof.
  intros Hk (_ & Hes & Hsz) Es. destruct G as [HP HN [Hp0 Hp] _ _]. pose proof (Z.mod_pos_bound k N HN) as Hkm. assert (k mod N * P + P ≤ N * P) by nia. assert (0 ≤ k mod N * P) by nia.
  destruct (page_bytes_holds P k es Hsz) as [Hbl _]. assert (Em : (k * P) mod (N * P) = k mod N * P) by (rewrite <- (Z.add_0_r (k * P)), volume_offset; lia).
  induction b as [|d b IH]; intros a fuel Ee Ha Hf; (destruct fuel as [|fuel]; [lia|]); pose proof (esize_nonneg a); cbn [walk_entries]; rewrite V, urem_ok by nia; cbn [mbind outcome_bind];
    rewrite Em; rewrite (plain_add_ok false (k mod N * P)) by lia; cbn [mbind outcome_bind].
  all: assert (Hbyte : ∀ x, page_bytes P k es !! Z.to_nat (4 + esize a) = Some x → index_get (volume l) (k mod N * P + (4 + esize a)) = Ret x).
  1,3: intros x Hx; rewrite <- Es in Hx; unfold slot in Hx; apply lookup_take_Some in Hx as [Hx _]; rewrite lookup_drop in Hx; unfold index_get;
    rewrite (proj2 (Z.ltb_ge _ _)) by lia; replace (Z.to_nat (k mod N * P + (4 + esize a))) with (Z.to_nat (k mod N * P) + Z.to_nat (4 + esize a))%nat by lia; by rewrite Hx.
  - rewrite app_nil_r in Ee. subst a. rewrite (Hbyte PAD_BYTE) by (by apply page_bytes_pad). done.
  - destruct (holds_entry P k a d b (page_bytes P k es)) as (H4 & _ & Hb0 & Hle); [rewrite <- Ee; by apply page_bytes_holds|].
    rewrite Ee in Hes. apply Forall_app in Hes as [_ Hes]. inversion Hes as [|? ? (_ & Hl & M0 & M255) _]; subst x l0. rewrite (Hbyte _ Hb0). cbn [mbind outcome_bind].
    rewrite (proj2 (Z.eqb_neq _ _)), (proj2 (Z.eqb_neq _ _)) by (done || unfold PAD_BYTE; lia). cbn [orb].
    rewrite volume_word_ok, Es, H4, from_le_u32 by (unfold u32; unfold entry_size, ENTRY_HEADER_SIZE in Hle; lia). cbn [mbind outcome_bind].
    unfold entry_size, ENTRY_HEADER_SIZE in *. rewrite (plain_add_ok false (zlen d)) by lia. cbn [mbind outcome_bind]. rewrite (plain_add_ok false (4 + esize a)) by lia. cbn [mbind outcome_bind]. rewrite S.
    rewrite (proj2 (Z.leb_le _ _)) by lia. replace (4 + esize a + (zlen d + 4)) with (4 + esize (a ++ [d])) by (rewrite esize_app, esize_cons; unfold entry_size, ENTRY_HEADER_SIZE; change (esize []) with 0; lia).
    assert (Es2 : esize es = esize (a ++ [d]) + esize b) by (rewrite Ee, !esize_app, !esize_cons; change (esize []) with 0; lia). pose proof (esize_nonneg b).
    destruct (Z.eqb_spec (4 + esize (a ++ [d])) P) as [Ef|Ef].
    + f_equal. destruct b as [|x b]; [change (esize []) with 0 in Es2; lia|]. rewrite esize_cons in Es2. pose proof (entry_size_pos x). pose proof (esize_nonneg b). lia.
    + apply IH; [by rewrite <- app_assoc|lia|cbn in Hf; lia].
Qed.
End Reconstruct.

Lemma length_esize es : Z.of_nat (length es) ≤ esize es.
Proof. induction es as [|d es IH]; [done|]. rewrite esize_cons. pose proof (entry_size_pos d). cbn [length]. lia. Qed.

(** The valid slots are those of the pages. *)
Lemma disk_valid l lo ps t : 8 < P → 0 < N → 0 ≤ lo → (lo + zlen ps) * P ≤ usize_bound → on_disk P N (volume l) lo ps → 0 ≤ t < N → valid l t →
  ∃ i, (i < length ps)%nat ∧ slot_id P (volume l) t = (lo + Z.of_nat i) * P.
Proof.
  intros HP HN Hlo Hb (_ & _ & Hs & Hinv) Ht Hv. destruct (Exists_dec (λ i : nat, (lo + Z.of_nat i) mod N = t) (seq 0 (length ps))) as [E|E].
  - apply Exists_exists in E as (i & Hi & <-). apply elem_of_seq in Hi. exists i. split; [lia|]. destruct (lookup_lt_is_Some_2 ps i) as [es He]; [lia|]. unfold slot_id. rewrite (Hs _ _ He).
    unfold page_bytes. rewrite take_app_length' by (by rewrite length_le_bytes). apply from_le_u32. unfold u32, zlen in *. nia.
  - destruct (Hinv t Ht); [|exact Hv]. intros i Hi Ei. apply E, Exists_exists. exists i. split; [apply elem_of_seq; lia|done].
Qed.

Lemma page_valid l lo ps i : 8 < P → 0 < N → 0 ≤ lo → (lo + zlen ps) * P ≤ usize_bound → on_disk P N (volume l) lo ps → (i < length ps)%nat →
  valid l ((lo + Z.of_nat i) mod N) ∧ slot_id P (volume l) ((lo + Z.of_nat i) mod N) = (lo + Z.of_nat i) * P.
Proof.
  intros HP HN Hlo Hb (_ & _ & Hs & _) Hi. destruct (lookup_lt_is_Some_2 ps i) as [es He]; [lia|].
  assert (E : slot_id P (volume l) ((lo + Z.of_nat i) mod N) = (lo + Z.of_nat i) * P).
  { unfold slot_id. rewrite (Hs _ _ He). unfold page_bytes. rewrite take_app_length' by (by rewrite length_le_bytes). apply from_le_u32. unfold u32, zlen in *. nia. }
  split; [|done]. unfold valid. rewrite E, <- (Z.add_0_r (_ * P)), volume_offset by lia. lia.
Qed.

Lemma scan_disk l lo ps : geometry P N (volume_ptr l) → zlen (volume l) = N * P → page_size l = P → 0 ≤ lo → (lo + zlen ps) * P < usize_bound →
  on_disk P N (volume l) lo ps →
  ∃ hs, header_positions l = Ret hs ∧
    scan_headers false l hs (usize_bound - 1) 0 = Ret (if decide (ps = []) then (usize_bound - 1, 0) else (lo * P, (lo + zlen ps - 1) * P)).
Proof.
  intros G V S Hlo Hb D. pose proof G as [HP HN _ _ _]. unfold header_positions. rewrite S, V, (proj2 (Z.eqb_neq _ _)) by lia.
  replace ((N * P + P - 1) / P) with N by (apply (Z.div_unique _ _ _ (P - 1)); lia). eexists. split; [reflexivity|].
  destruct (scan_headers_ok l G V (seq 0 (Z.to_nat N))) with (o := usize_bound - 1) (n := 0) as (o & n & E & H1 & H2 & H3 & H4 & H5).
  { apply Forall_forall. intros t Ht%elem_of_seq. lia. }
  rewrite E. assert (Hval : ∀ t : nat, t ∈ seq 0 (Z.to_nat N) → valid l (Z.of_nat t) → ∃ i, (i < length ps)%nat ∧ slot_id P (volume l) (Z.of_nat t) = (lo + Z.of_nat i) * P).
  { intros t Ht%elem_of_seq. apply disk_valid; try done; lia. }
  assert (Hin : ∀ i, (i < length ps)%nat → o ≤ (lo + Z.of_nat i) * P ≤ n).
  { intros i Hi. destruct (page_valid l lo ps i) as [Hv Hs]; try done; [lia|]. pose proof (Z.mod_pos_bound (lo + Z.of_nat i) N HN). rewrite <- Hs.
    specialize (H5 (Z.to_nat ((lo + Z.of_nat i) mod N))). rewrite Z2Nat.id in H5 by lia. apply H5; [apply elem_of_seq; lia|done]. }
  destruct (decide (ps = [])) as [->|Hne].
  - destruct H3 as [->|(t & Ht & Hv & _)]; [|by destruct (Hval _ Ht Hv) as (i & Hi & _); cbn in Hi; lia].
    destruct H4 as [->|(t & Ht & Hv & _)]; [done|by destruct (Hval _ Ht Hv) as (i & Hi & _); cbn in Hi; lia].
  - assert (Hl : (0 < length ps)%nat) by (destruct ps; [done|cbn; lia]). destruct (Hin 0%nat Hl) as [Ho0 _]. destruct (Hin (length ps - 1)%nat ltac:(lia)) as [_ Hn1].
    replace (lo + Z.of_nat (length ps - 1)) with (lo + zlen ps - 1) in Hn1 by (unfold zlen; lia). rewrite Z.add_0_r in Ho0. do 2 f_equal.
    + assert (0 ≤ zlen ps * P) by (apply Z.mul_nonneg_nonneg; unfold zlen; lia). destruct H3 as [->|(t & Ht & Hv & Eo)]; [lia|].
      destruct (Hval _ Ht Hv) as (i & Hi & Ei). assert (0 ≤ Z.of_nat i * P) by (apply Z.mul_nonneg_nonneg; lia). lia.
    + assert (0 ≤ (lo + zlen ps - 1) * P) by (apply Z.mul_nonneg_nonneg; unfold zlen; lia). destruct H4 as [->|(t & Ht & Hv & En)]; [lia|].
      destruct (Hval _ Ht Hv) as (i & Hi & Ei). assert ((lo + Z.of_nat i) * P ≤ (lo + zlen ps - 1) * P) by (apply Z.mul_le_mono_nonneg_r; unfold zlen; lia). lia.
Qed.

Lemma place_last pos es : es ≠ [] → ∃ id d, last (place pos es) = Some (id, d) ∧ id + entry_size d = pos + esize es.
Proof.
  destruct es as [|d es _] using rev_ind; [done|]. intros _. rewrite place_app. cbn [place]. exists (pos + esize es), d. rewrite last_snoc. split; [done|].
  rewrite esize_app, esize_cons. change (esize []) with 0. lia.
Qed.

Lemma last_app_some {A} (l k : list A) x : last k = Some x → last (l ++ k) = Some x.
Proof. intros [k' ->]%last_Some. rewrite app_assoc. apply last_snoc. Qed.

(** What is found, as an abstract log. *)
Lemma spec_reboot_pages s lo pre cur : durable s = place_pages P lo (pre ++ [cur]) → Forall (page_ok P) (pre ++ [cur]) →
  let e := (lo + zlen pre) * P + 4 + esize cur in
  spec_reboot P N circ s = set_nxt (mkSpec (place_pages P lo (pre ++ [cur])) (lo * P + 4) e (lo * P + 4) (place_pages P lo (pre ++ [cur]))) (turn_full P N circ e).
Proof.
  intros E F e. unfold spec_reboot. rewrite E. assert (Hcur : cur ≠ []) by (apply Forall_app in F as [_ F]; inversion F as [|? ? (? & _ & _) _]; done).
  assert (∃ d ds, place_pages P lo (pre ++ [cur]) = (lo * P + 4, d) :: ds) as (d & ds & Ed).
  { destruct pre as [|p pre]; cbn [app place_pages] in *; (inversion F as [|? ? (Hne & _ & _) _]; subst); [destruct cur|destruct p]; try done; cbn [place app]; by eexists _, _. }
  destruct (place_last ((lo + zlen pre) * P + 4) cur Hcur) as (id & d' & El & Eend).
  assert (Elast : last (place_pages P lo (pre ++ [cur])) = Some (id, d')).
  { rewrite place_pages_app. cbn [place_pages]. rewrite app_nil_r. by apply last_app_some. }
  rewrite Elast. rewrite Ed at 1. rewrite Eend. reflexivity.
Qed.

Lemma copy_page_ok l k es page : geometry P N (volume_ptr l) → zlen (volume l) = N * P → page_size l = P → zlen page = P → 0 ≤ k → 4 + esize es ≤ P →
  slot P (volume l) (k mod N) = page_bytes P k es → copy_page false l (k * P) page = Ret (page_bytes P k es).
Proof.
  intros [HP HN [Hp0 Hp] _ _] V S Hl Hk Hf Es. pose proof (Z.mod_pos_bound k N HN). assert (k mod N * P + P ≤ N * P) by nia. assert (0 ≤ k mod N * P) by nia. destruct (page_bytes_holds P k es Hf) as [Hbl _].
  unfold copy_page. rewrite V, S, urem_ok by nia. cbn [mbind outcome_bind]. rewrite <- (Z.add_0_r (k * P)), volume_offset by lia. rewrite plain_add_ok by lia. cbn [mbind outcome_bind].
  rewrite (get_range_slot P N), Es by lia. change (drop (Z.to_nat 0) ?x) with x. rewrite take_ge by (unfold zlen in Hbl; lia). rewrite splice_ok by lia. change (take (Z.to_nat 0) page) with (@nil Z).
  rewrite drop_ge by (unfold zlen in *; lia). by rewrite app_nil_r.
Qed.

(** Starting over a volume. *)
Lemma log_new_ok vol ptr lo ps s : geometry P N ptr → zlen vol = N * P → 0 ≤ lo → (lo + zlen ps + 3) * P < usize_bound → on_disk P N vol lo ps → durable s = place_pages P lo ps →
  ∃ l, Log_new false vol ptr (replicate (Z.to_nat P) 0) circ = Ret l ∧ repr (set_clients l true true) (spec_reboot P N circ s).
Proof.
  intros G V Hlo Hb D Es. pose proof G as [HP HN [Hp0 Hp] _ _]. assert (Hzl : zlen (replicate (Z.to_nat P) 0) = P) by (unfold zlen; rewrite length_replicate; lia). pose proof (zlen_nonneg ps) as Hzp.
  unfold Log_new, PAGE_HEADER_SIZE. rewrite Hzl, V, udiv_ok by lia. cbn [mbind outcome_bind]. rewrite Z.div_mul by lia. rewrite plain_mul_ok by nia. cbn [mbind outcome_bind]. rewrite plain_sub_ok by nia. cbn [mbind outcome_bind].
  set (l0 := mkLog _ _ _ _ _ _ _ _ _ _ _ _ _ _ _ _ _). unfold reconstruct, PAGE_HEADER_SIZE.
  destruct (scan_disk l0 lo ps G V eq_refl Hlo ltac:(lia) D) as (hs & -> & Esc). cbn [mbind outcome_bind]. rewrite Esc. clear Esc.
  destruct (decide (ps = [])) as [->|Hne]; cbn [mbind outcome_bind].
  { rewrite Z.eqb_refl. eexists. split; [reflexivity|]. unfold spec_reboot. rewrite Es. cbn [place_pages]. exists 0, [], [], [], (replicate (Z.to_nat P) 0). split.
    - apply fresh_core; try done. intros t Ht _. destruct D as (_ & _ & _ & Hinv). apply Hinv; [done|]. intros i Hi. cbn in Hi. lia.
    - split; try done. unfold log_reset, l0. fields. cbn [snd]. fields. by rewrite length_replicate. }
  destruct ps as [|cur pre _] using rev_ind; [done|]. clear Hne. assert (Ez : zlen (pre ++ [cur]) = zlen pre + 1) by (by rewrite zlen_app). rewrite Ez in *. pose proof (zlen_nonneg pre).
  replace (lo + (zlen pre + 1) - 1) with (lo + zlen pre) by lia. assert (0 ≤ lo * P) by (apply Z.mul_nonneg_nonneg; lia). assert (0 ≤ (lo + zlen pre) * P) by (apply Z.mul_nonneg_nonneg; lia). assert (0 ≤ zlen pre * P) by (apply Z.mul_nonneg_nonneg; lia).
  rewrite (proj2 (Z.eqb_neq _ _)) by lia. pose proof D as (Hdl & Hok & Hs & _). pose proof Hok as Hok2. apply Forall_app in Hok2 as [Hokp Hokc]. inversion Hokc as [|? ? Hcur _]; subst x l. pose proof Hcur as (Hne & Hce & Hcf).
  specialize (Hs (length pre) cur ltac:(by rewrite lookup_app_r, Nat.sub_diag)). change (Z.of_nat (length pre)) with (zlen pre) in Hs. pose proof (esize_nonneg cur).
  change (page_size l0) with P. pose proof (length_esize cur).
  assert (Ew : walk_entries false l0 (Datatypes.S (Z.to_nat P)) ((lo + zlen pre) * P) 4 = Ret (4 + esize cur)) by (apply (walk_entries_ok l0 G V eq_refl (lo + zlen pre) cur ltac:(lia) Hcur Hs cur []); [done|change (esize []) with 0; lia|lia]).
  rewrite Ew. cbn [mbind outcome_bind]. rewrite (plain_add_ok false (lo * P)) by lia. cbn [mbind outcome_bind]. rewrite (plain_add_ok false ((lo + zlen pre) * P)) by lia. cbn [mbind outcome_bind].
  set (l1 := set_append_id _ _). set (s1 := mkSpec (place_pages P lo (pre ++ [cur])) (lo * P + 4) ((lo + zlen pre) * P + 4 + esize cur) (lo * P + 4) (place_pages P lo (pre ++ [cur]))).
  assert (Hcore : core l1 lo pre cur [cur] (page_bytes P (lo + zlen pre) cur) s1).
  { split; try done; [unfold l1; fields; lia|by apply page_bytes_holds|right; exists cur, []; by rewrite app_nil_r| |cbn [nxt s1]; unfold l1; fields; lia].
    left. destruct (pre ++ [cur]) as [|p ps2] eqn:Ep; [by destruct pre|]. exists [], [], p, ps2. split; [done|]. change (zlen []) with 0. change (esize []) with 0. unfold l1. fields. lia. }
  change (pagebuffer l1) with (Some (replicate (Z.to_nat P) 0)). cbn iota. change (page_size l1) with P. rewrite (urem_ok (4 + esize cur)) by lia. cbn [mbind outcome_bind].
  assert (Hcopy : copy_page false l1 ((lo + zlen pre) * P) (replicate (Z.to_nat P) 0) = Ret (page_bytes P (lo + zlen pre) cur)) by (apply copy_page_ok; done || lia).
  assert (Ea1 : append_entry_id l1 = (lo + zlen pre) * P + (4 + esize cur)) by done.
  rewrite (spec_reboot_pages _ _ _ _ Es Hok). cbv zeta. fold s1.
  assert (Hstay : turn_full P N circ ((lo + zlen pre) * P + 4 + esize cur) = (lo + zlen pre) * P + 4 + esize cur →
    ∃ l, (page ← copy_page false l1 ((lo + zlen pre) * P) (replicate (Z.to_nat P) 0); Ret (set_pagebuffer l1 (Some page))) = Ret l ∧
      repr (set_clients l true true) (set_nxt s1 (turn_full P N circ ((lo + zlen pre) * P + 4 + esize cur)))).
  { intros ->. rewrite Hcopy. eexists. split; [reflexivity|]. change ((lo + zlen pre) * P + 4 + esize cur) with (nxt s1). rewrite set_nxt_same. by exists lo, pre, cur, [cur], (page_bytes P (lo + zlen pre) cur). }
  pose proof (append_mod _ _ _ _ _ _ _ Hcore) as Em. rewrite Ea1 in Em. replace ((lo + zlen pre) * P + (4 + esize cur)) with ((lo + zlen pre) * P + 4 + esize cur) in Em by lia.
  destruct (decide (4 + esize cur = P)) as [Hfull|Hpart].
  - rewrite Hfull, Z.mod_same by lia. cbn [Z.eqb].
    pose proof (reset_pagebuffer_ok P N circ false l1 lo pre cur _ (replicate (Z.to_nat P) 0) s1 Hcore Hzl ltac:(rewrite Ea1; lia)) as Hr. rewrite Ea1 in Hr.
    unfold turn_full in *. rewrite Em in *. cbn [Z.eqb andb] in *. replace ((lo + zlen pre) * P + (4 + esize cur)) with ((lo + zlen pre) * P + 4 + esize cur) in Hr by lia.
    destruct (may_turn P N circ _).
    + destruct Hr as (bs' & Er & Hc). rewrite Er. cbn [mbind outcome_bind]. eexists. split; [reflexivity|].
      assert (Epa : page_after P ((lo + zlen pre) * P + 4 + esize cur) = (lo + zlen pre) * P + 4 + esize cur + PAGE_HEADER_SIZE).
      { replace ((lo + zlen pre) * P + 4 + esize cur) with ((lo + zlen pre) * P + P) by lia. rewrite page_after_end by lia. unfold PAGE_HEADER_SIZE. lia. }
      rewrite Epa in *.
      by exists lo, (pre ++ [cur]), [], [], bs'.
    + rewrite Hr. cbn [mbind outcome_bind]. by apply Hstay.
  - rewrite Z.mod_small, (proj2 (Z.eqb_neq _ _)) by lia. cbn [mbind outcome_bind]. apply Hstay. unfold turn_full. rewrite Em, (proj2 (Z.eqb_neq _ _)) by lia. done.
Qed.

Lemma reboot_simulated l s : repr l s → op_ok P N s OpReboot → simulated l s OpReboot.
Proof.
  intros (lo & pre & cur & syn & bs & H & I) [Hb _]. pose proof (c_geo H) as [HP HN _ _ _]. rewrite (c_nxt H), (c_append H) in Hb. pose proof (esize_nonneg cur). pose proof (zlen_nonneg pre). pose proof (c_lo H).
  assert (Hsyn : zlen syn ≤ 1) by (destruct (c_syn H) as [->|(? & ? & -> & _)]; done). unfold simulates. cbn [exec_log_op spec_op fst snd]. rewrite (c_size H), (c_circ H).
  destruct (log_new_ok (volume l) (volume_ptr l) lo (pre ++ syn) s (c_geo H) (c_vol H) (c_lo H)) as (l' & E & R); [|apply (c_disk H)|apply (c_durable H)|].
  - rewrite zlen_app. assert ((lo + (zlen pre + zlen syn) + 3) * P ≤ (lo + zlen pre) * P + 4 * P) by nia. assert (4 * P ≤ (N + 3) * P) by nia. lia.
  - rewrite E. cbn [mbind outcome_bind]. eexists. split; [reflexivity|done].
Qed.

Lemma op_simulated l s o : repr l s → op_ok P N s o → simulated l s o.
Proof.
  destruct o; intros R Hok; [by apply append_simulated|by apply sync_simulated|by apply read_simulated|by apply seek_simulated|by apply erase_simulated|by apply reboot_simulated].
Qed.

Lemma ops_simulated os : ∀ l s, repr l s → ops_ok P N circ s os →
  ∃ l', exec_log_ops false l os = Ret ((spec_ops P N circ s os).1, l') ∧ repr l' (spec_ops P N circ s os).2.
Proof.
  induction os as [|o os IH]; intros l s R; cbn [exec_log_ops spec_ops ops_ok]; [intros _; by exists l|]. intros [Ho Hos].
  destruct (op_simulated _ _ _ R Ho) as (l1 & E1 & R1). destruct (spec_op P N circ s o) as [[r evs] s1] eqn:Es. cbn [fst snd] in *. rewrite E1. cbn [mbind outcome_bind].
  destruct (IH _ _ R1 Hos) as (l2 & E2 & R2). rewrite E2. cbn [mbind outcome_bind]. destruct (spec_ops P N circ s1 os) as [rs s2]. by exists l2.
Qed.

(** An erased volume. *)
Lemma erased_disk : 8 < P → 0 < N → (P | usize_bound) → on_disk P N (replicate (Z.to_nat (N * P)) 255) 0 [].
Proof.
  intros HP HN Hw. split_and!; [unfold zlen; cbn; lia|constructor|done|]. intros t Ht _. assert (t * P + P ≤ N * P) by nia. assert (0 ≤ t * P) by nia.
  unfold slot_id, slot. rewrite drop_replicate, take_replicate. replace (Z.to_nat P `min` (Z.to_nat (N * P) - Z.to_nat (t * P)))%nat with (Z.to_nat P) by lia.
  rewrite erased_id by done. by apply erased_invalid.
Qed.
End Requests.

(** C14.  From an erased volume, and for requests as the documentation asks for them
    - but for entries whose length is a positive multiple of 256 or one less than
    a multiple, and for an erase while the log is within its first page
    ([op_ok]) - the log in a build without overflow checks answers and reports exactly as the
    abstract log: entries come back in order and unchanged from buffer and
    flash, the oldest pages are forgotten when a circular log wraps, a full
    linear log refuses, an erase empties the log in a bounded number of
    commands, and a reboot finds all that was on flash, however the requests are
    mixed.  No request panics, and the identifiers agree. *)
Theorem log_refines_spec P N circ ptr os : geometry P N ptr → (N + 3) * P < usize_bound → ops_ok P N circ spec_empty os →
  ∃ l l', Log_new false (replicate (Z.to_nat (N * P)) 255) ptr (replicate (Z.to_nat P) 0) circ = Ret l ∧
    exec_log_ops false (set_clients l true true) os = Ret ((spec_ops P N circ spec_empty os).1, l') ∧
    let s := (spec_ops P N circ spec_empty os).2 in
    log_start l' = old s ∧ log_end l' = nxt s ∧ next_read_entry_id l' = rd s.
Proof.
  intros G Hroom Hos. pose proof G as [HP HN _ _ Hw].
  destruct (log_new_ok P N circ (replicate (Z.to_nat (N * P)) 255) ptr 0 [] spec_empty) as (l & El & R); try done;
    [unfold zlen; rewrite length_replicate; nia|change (zlen (@nil Page)) with 0; nia|by apply erased_disk|].
  destruct (ops_simulated P N circ os _ _ R Hos) as (l' & E & (lo & pre & cur & syn & bs & H & I)). exists l, l'. cbv zeta. split_and!; [done|exact E|symmetry; apply (c_oldest H)|symmetry; apply (c_nxt H)|symmetry; apply (c_rd H)].
Qed.

(** ** Where the code does not keep the promise *)

(** With overflow checks the first page that is written panics, as do all of the
    first round through the volume: the page to be overwritten is computed
    before zero. *)
Theorem dev_profile_never_writes P N circ l s : repr P N circ l s → nxt s + (N + 3) * P ≤ usize_bound → nxt s ≤ N * P → nxt s mod P ≠ PAGE_HEADER_SIZE →
  exec_log_op true l OpSync = Panic.
Proof.
  intros (lo & pre & cur & syn & bs & H & I) Hb Hn Hm. pose proof (c_geo H) as [HP HN [Hp0 Hp] _ _]. rewrite (c_nxt H) in *. pose proof (c_append H) as Ha. pose proof (esize_nonneg cur). destruct (c_cur H) as [_ Hcf].
  pose proof (c_lo H). pose proof (zlen_nonneg pre). remember (lo + zlen pre) as c eqn:Ec. assert (0 ≤ c * P) by (apply Z.mul_nonneg_nonneg; lia).
  assert (Hc : c < N) by nia. assert ((c + 1) * P ≤ N * P) by nia. pose proof (Z.mod_pos_bound c N HN). assert (c mod N * P + P ≤ N * P) by nia. assert (0 ≤ c mod N * P) by nia.
  cbn [exec_log_op]. unfold sync. rewrite (c_size H), urem_ok by lia. cbn [mbind outcome_bind]. rewrite (proj2 (Z.eqb_neq _ _)) by done. rewrite (i_state _ _ I), bool_decide_true, (i_page _ _ I) by done. cbn [negb].
  unfold flush_pagebuffer. fields. rewrite (c_size H), Ha. replace (c * P + 4 + esize cur) with (c * P + (4 + esize cur)) by lia.
  rewrite (pad_page_ok P true c (Z.to_nat (P - (4 + esize cur)))) by (try done; try lia; try apply (c_holds H); nia). cbn [mbind outcome_bind].
  rewrite (plain_sub_ok true ((c + 1) * P) P) by nia. cbn [mbind outcome_bind]. unfold page_number. fields. rewrite (c_vol H), (c_size H).
  replace ((c + 1) * P - P) with (c * P + 0) by lia. rewrite (urem_ok (c * P + 0)) by nia. cbn [mbind outcome_bind]. rewrite volume_offset by lia.
  rewrite (plain_add_ok true (volume_ptr l)) by lia. cbn [mbind outcome_bind]. rewrite (udiv_ok (volume_ptr l + _)) by lia. cbn [mbind outcome_bind].
  unfold plain_sub, usub. destruct (Z.leb_spec (N * P) ((c + 1) * P)) as [Hle|]; [|done]. cbn [mbind outcome_bind]. by rewrite (proj2 (Z.leb_gt _ _)) by lia.
Qed.

(** A seek while a page is being written lets its completion panic. *)
Theorem seek_during_write_panics checks l id page ok l' : seek l id = (Ok tt, l') → write_complete checks l' page ok = Panic.
Proof. unfold seek. destruct (_ && _); [|done]. intros [= <-]. by destruct ok. Qed.

(** A refused erase leaves the log busy for ever: every later request is refused. *)
Theorem refused_erase_blocks checks l lo pre cur syn bs s P N circ e buf len : core P N circ l lo pre cur syn bs s → idle l bs → 0 ≤ len → len + 4 < usize_bound →
  ∃ l', erase checks (Some e) l = Ret (Err e, l', None) ∧
    append checks None l' buf len = Ret (Err (BUSY, buf), l', None, []) ∧ log_read checks l' buf len = Ret (Err (BUSY, buf), l') ∧ erase checks None l' = Ret (Err BUSY, l', None).
Proof.
  intros H I Hl0 Hl. pose proof (c_geo H) as [HP HN [Hp0 Hp] _ _]. assert (E : ∃ n, page_number checks l (oldest_entry_id l) = Ret n).
  { unfold page_number. rewrite (c_old H), (c_vol H), (c_size H), urem_ok by nia. cbn [mbind outcome_bind]. rewrite volume_offset by (pose proof (c_lo H); lia). pose proof (Z.mod_pos_bound lo N HN).
    assert (lo mod N * P + P ≤ N * P) by nia. rewrite plain_add_ok by nia. cbn [mbind outcome_bind]. rewrite udiv_ok by lia. by eexists. }
  destruct E as [n E]. exists (set_state l LogErase). unfold erase, erase_page, append, log_read. rewrite (i_state _ _ I), bool_decide_true by done. cbn [negb].
  change (page_number checks (set_state l LogErase)) with (page_number checks l). change (oldest_entry_id (set_state l LogErase)) with (oldest_entry_id l). rewrite E. cbn [mbind outcome_bind].
  unfold ENTRY_HEADER_SIZE. rewrite (plain_add_ok checks len 4) by lia. done.
Qed.

(** Erasing a log that has not left its first page: with overflow checks it
    panics at the first completion; without them the end is computed beyond the
    range of identifiers, and each completion starts the next erase. *)
Theorem erase_of_first_page l k P N ptr : geometry P N ptr → volume_ptr l = ptr → zlen (volume l) = N * P → page_size l = P →
  4 ≤ append_entry_id l < P → oldest_entry_id l = k * P + 4 → 0 ≤ k → (k + 2) * P ≤ usize_bound →
  erase_complete true None l true = Panic ∧
  ∃ n, erase_complete false None l true = Ret (set_oldest l ((k + 1) * P + 4), Some (ErasePage n), []).
Proof.
  intros [HP HN [Hp0 Hp] _ _] <- V S Ha Ho Hk Hb. assert (0 ≤ k * P) by nia. pose proof (Z.mod_pos_bound (k + 1) N HN). assert ((k + 1) mod N * P + P ≤ N * P) by nia. assert (0 ≤ (k + 1) mod N * P) by nia.
  unfold erase_complete. rewrite S, Ho. split; [unfold plain_sub, usub; by rewrite (proj2 (Z.leb_gt _ _)) by lia|].
  unfold plain_sub at 1. cbn [mbind outcome_bind]. unfold wrapping_sub, wrap32. rewrite <- (Z.mod_add _ 1), Z.mod_small by lia. rewrite (proj2 (Z.leb_gt _ _)) by lia.
  rewrite (plain_add_ok false (k * P + 4) P) by lia. cbn [mbind outcome_bind]. replace (k * P + 4 + P) with ((k + 1) * P + 4) by lia. unfold erase_page, page_number. fields. rewrite V, S, urem_ok by nia. cbn [mbind outcome_bind].
  rewrite volume_offset by lia. rewrite plain_add_ok by lia. cbn [mbind outcome_bind]. rewrite udiv_ok by lia. cbn [mbind outcome_bind]. by eexists.
Qed.

(** Requests on a new log of two erased pages of 512 bytes: the answers with the
    number of callbacks, and where the log starts and ends. *)
Definition run_requests (clients : bool) (os : list LogOp) : outcome (list (LogAnswer * nat) * Z * Z) :=
  l ← Log_new false (replicate 1024 255) 512 (replicate 512 0) true;
  rl ← exec_log_ops false (set_clients l clients clients) os;
  Ret (map (λ r, (r.1, length r.2)) rl.1, log_start rl.2, log_end rl.2).

(** An entry of 255 bytes is appended, but its first byte is taken for padding:
    neither it nor the one after it is read. *)
Example length_taken_for_padding :
  run_requests true [OpAppend (replicate 255 7) 255; OpAppend [1; 2] 2; OpRead [0; 0] 2] =
  Ret ([(Ok tt, 1%nat); (Ok tt, 1%nat); (Err (FAIL, Some [0; 0]), 0%nat)], 4, 269).
Proof. vm_compute. reflexivity. Qed.

(** An entry of 256 bytes is appended and written, but the log is empty after a
    reboot. *)
Example length_taken_for_end :
  run_requests true [OpAppend (replicate 256 7) 256; OpSync; OpReboot] = Ret ([(Ok tt, 1%nat); (Ok tt, 1%nat); (Ok tt, 0%nat)], 4, 4).
Proof. vm_compute. reflexivity. Qed.

(** Without a client an append panics, where its documentation says that it is
    refused; and a sync that finds nothing to write is accepted and never
    reported. *)
Example no_client_panics : run_requests false [OpAppend [1; 2] 2] = Panic.
Proof. vm_compute. reflexivity. Qed.

Example sync_without_callback : run_requests true [OpSync] = Ret ([(Ok tt, 0%nat)], 4, 4).
Proof. vm_compute. reflexivity. Qed.

(** ** Witnesses *)

Definition sample_ops : list LogOp :=
  [OpAppend [1; 2; 3] 3; OpAppend [4] 1; OpRead [0; 0; 0; 0] 4; OpSync; OpAppend [7; 8] 2; OpAppend [9; 9; 9] 3; OpAppend [5; 6; 7; 8] 4; OpReboot;
   OpRead [0; 0; 0; 0] 4; OpSeek 20; OpRead [0; 0] 2; OpErase; OpRead [0; 0] 2; OpAppend [3] 1].

Lemma sample_geometry : geometry 16 2 64.
Proof. split; [lia|lia|lia|exists 4; lia|exists 268435456; lia]. Qed.

Ltac decide_ops := repeat match goal with
  | |- _ ∧ _ => split
  | |- Forall byte _ => repeat constructor; unfold byte; lia
  | |- True => exact I
  | |- legal_id _ _ => right; right; left; reflexivity
  | |- _ ∨ _ => right
  | |- op_ok _ _ _ _ => unfold op_ok
  | |- ?a ≠ ?b => vm_compute; discriminate
  | |- ?a < ?b => vm_compute; reflexivity
  | |- ?a ≤ ?b => vm_compute; discriminate
  end.

Lemma log_refines_spec_witness :
  ops_ok 16 2 true spec_empty sample_ops ∧
  ∃ l l', Log_new false (replicate (Z.to_nat (2 * 16)) 255) 64 (replicate (Z.to_nat 16) 0) true = Ret l ∧
    exec_log_ops false (set_clients l true true) sample_ops = Ret ((spec_ops 16 2 true spec_empty sample_ops).1, l') ∧
    let s := (spec_ops 16 2 true spec_empty sample_ops).2 in
    log_start l' = old s ∧ log_end l' = nxt s ∧ next_read_entry_id l' = rd s.
Proof.
  assert (H : ops_ok 16 2 true spec_empty sample_ops) by (unfold sample_ops; cbn [ops_ok op_ok]; decide_ops).
  split; [exact H|]. apply (log_refines_spec 16 2 true 64 sample_ops); [exact sample_geometry|lia|exact H].
Defined.
